(* ===== verification/_CoqProject ===== *)
-Q . S2P
Prelude.v
GoStrings.v
GoBytes.v
GoFloat.v
SafeHTTP.v
GoIP.v
Plugins.v
Scheduler.v
TrickplayVTT.v
TrickplayBIF.v
TrickplayQueue.v
Media.v
Capability.v
Encoders.v
ProfileLevel.v
PlayDecision.v
Quality.v
CapabilityProps.v
Valkey.v
RateLimit.v
Throttle.v
Lease.v
SegToken.v
TOTP.v
TOTPChallenge.v
Requests.v
Downloads.v
DownloadSync.v
RequestsProps.v
RequestsSpec.v
Fulfilment.v
DownloadsProps.v
ContentRating.v
WatchLimit.v
WatchGates.v
IntroMarkers.v
DVRSchedule.v
DVRWorker.v
Concat.v
GoPath.v
MovieStack.v
PortMap.v
PCP.v
SHA256.v
Tokens.v
APIKey.v
Auth.v
Sessions.v
SessionsSafe.v
SessionsSpec.v
Continuation.v
TransKV.v
TransStore.v
Dispatch.v
DispatchSafe.v
AbrTimeline.v
AbrRung.v
AbrRungProps.v
AbrRungFiles.v
M3U.v
M3UImport.v
Labels.v
Catalog.v
Gates.v
Playlists.v
PlaylistsSafe.v
PlaylistsProps.v
PlaylistsImport.v
DVRCommercials.v
DVRPostprocess.v
DVRPostprocessSafe.v
DVRPostprocessCases.v
StreamTracker.v
StreamLimit.v
LibraryWalk.v
MediaFiles.v
LibraryScan.v
LibraryScanProps.v
LibraryScanCases.v
