(* ===== verification/Prelude.v ===== *)
(** OnScreen media server: verification library.

    OnScreen is one Go binary over PostgreSQL and Valkey.  This library models
    the parts of it whose logic is its own and proves what makes them correct.
    Definitions are executable translations of the Go code (and of its Lua and
    SQL statements) and keep the source's names; each file says which source
    files it models.  The main theorems are cited by name; the project manifest
    numbers them.

    * The program's parts and the files that model them

    _Playback decisions_ ([internal/transcode], [internal/domain/media],
    [internal/ffsafe]).  The playback handlers ask whether a stored file can be
    sent to a client as it is, remuxed to HLS, or must be re-encoded, and with
    which encoder, size and bitrate.
    - [Media]: [media.File] as stored, codec/container names, audio streams
      ([decision.go], [audio.go]).
    - [Capability]: the [X-Client-Capabilities] parser and the queries on the
      parsed profile ([capability.go], [profilelevel.go], [dolbyvision.go]).
    - [ProfileLevel]: level tables, the fit test and the output limits of a
      re-encode ([profilelevel.go]).
    - [Encoders]: encoder families, detection, overrides, fail-over and the
      container of the output ([hardware.go], [videooutput.go], [ffmpeg.go]).
    - [PlayDecision]: [Decide], [ForStack], [PlanDolbyVision] and the reasons
      shown with a verdict ([decision.go], [decision_reasons.go]).
    - [Quality]: single-rendition quality, the adaptive ladder and its master
      playlist ([quality.go], [abr.go]).
    - [PlayDecision], [Quality], [CapabilityProps]: exact
      characterisations of the verdicts ([decide_direct_play_iff] and its
      siblings), what a movie of several files may do ([for_stack_spec]),
      monotonicity in the abilities of client and server, that verdicts are
      explained; bounds of quality and ladder ([select_quality_bounds],
      [ladder_well_formed]); well-formedness of every parsed profile
      ([parse_capabilities_wf]), level arithmetic, fail-over.
    - [MovieStack]: movies in several files, over the [path] functions of
      [GoPath] ([stack.go]): ordering computes a reference grouping
      ([order_files_reference]).
    - [Concat]: the ffconcat script handed to ffmpeg and its protocol whitelist
      ([ffsafe.go], [parts.go]): ffmpeg reads back exactly the inputs
      ([concat_list_exact]).

    _Transcode sessions_ ([internal/transcode], [internal/api/v1]).  A session is
    a record in Valkey that the API, the workers and other instances read and
    change; jobs go to workers through lists; each rung of an adaptive stream is
    a child session started on demand and restarted by seeks.
    - [TransKV]: the records, the keyspace, the server as a class [KVServer],
      and programs: trees of commands, run one alone among other clients ([run])
      or any number at once ([pool_step]).  A rely/guarantee logic for
      them is sound for [run].
    - [TransStore]: [SessionStore] ([session.go]): creation and the per-user cap,
      lists, optimistic changes of a session, which are atomic
      ([mutation_atomic]).
    - [Dispatch], [DispatchSafe]: the worker registry, scores and queues, and
      the order the score puts workers in while slots and costs are bounded; no
      worker gets a job it lacks a feature for ([dispatch_features_hard]).
    - [AbrTimeline], [AbrRung], [AbrRungProps], [AbrRungFiles]: the predicted timeline of an
      adaptive stream, starting, restarting, serving and tearing down its rungs,
      and the worker's watchdog ([transcode_abr.go], [transcode.go], [worker.go]).
      While the store answers, the file served is the segment asked for
      ([rung_segment_right]: every run that writes to its directory starts where
      the child does) and a restart supersedes the old run
      ([rung_restart_supersedes]); playlist and range check agree
      ([predicted_count_exact]).  Examples show what a failed read does.
    - [Continuation]: going on past a defect at which ffmpeg stopped short
      ([continuation.go]): it ends, and the playlist is terminated again
      ([continuation_terminated]).

    _Coordination through Valkey_ ([internal/valkey], [internal/api/middleware],
    [internal/transcode/segtoken.go], [internal/auth], [cmd/server]).  Several
    instances share a server; each client of it is correct only if its commands
    compose correctly under interleaving and failure.
    - [Valkey]: the commands as a class [Server] (the third-party server and
      driver: an interface with the documented effect of each command as a
      law), the client's operations over it, and [RefServer], an executable
      instance that satisfies the laws and on which every witness runs.
    - [RateLimit], [Throttle]: the Lua scripts, the limiter,
      the failure throttle and the middleware.  The sliding window refines a log
      of accepted instants ([allow_refines]); attempts under way and failures
      together stay within the limit ([failures_bounded]).
    - [Lease]: distributed locks: exclusion ([lease_exclusive]), recovery, and
      the polling loop: when it ends and what each answer means
      ([lock_terminates]).
    - [SegToken]: HLS segment tokens: revocation ([revoke_all_complete]), round
      trip, and the race of revocation with issuance.
    - [TOTP]: one-time codes.  The class [ReplayGuard] is what the auth service
      relies on; the in-process and the shared guard are its instances
      ([totp_no_replay_instance]).
    - [TOTPChallenge]: login challenges and recovery codes ([challenge_once]).

    _Sessions and tokens_ ([internal/auth], [internal/api/middleware],
    [internal/api/v1], [cmd/server], [sessions.sql]).  Who a request is.
    - [SHA256]: the hash under which tokens and keys are stored.
    - [Tokens]: access, asset, stream and challenge tokens over the interface
      [Paseto] of the token library ([token_roundtrip]).  [APIKey]: the format of
      keys ([generated_key_exact]).
    - [Auth]: the admission middleware: which credential opens which route
      ([carrier_matrix], [api_key_confined], [view_as_reads_only]).
    - [Sessions]: users, sessions and reset links as tables, their statements,
      and sign-in, refresh, sign-out, revocation and password changes as programs
      of statements.  [SessionsSafe] runs any number of those programs
      concurrently, each call free to fail, and shows that a refresh token is
      exchanged once ([refresh_one_shot]) and that what was signed out stays out,
      as far as the store can be asked ([sign_out_final]).  [SessionsSpec]: what a refresh does alone and under
      faults ([refresh_alone], [refresh_faults]), the ceiling of a session
      ([session_cap]), what a revocation ends ([revocation_scoped]), and three
      schedules in which the code does not keep what it means to keep.

    _Media requests_ ([internal/requests], with the records of [internal/arr]
    and [internal/metadata] and the statements of [internal/db/queries]).  Users
    ask for titles; admins or policy approve; Radarr and Sonarr download; the
    library fulfils.
    - [Requests]: the requests table and its statements, season selections,
      quotas, creation, approval, decline, cancel, delete, season progress and
      fulfilment.
    - [Downloads], [DownloadSync]: queue rows and history of a title and the
      state they add up to; the sync run: item links, lookup budget, the
      verdict on each request and its write-back.
    - [RequestsProps]: every operation is a sequence of guarded statements, and
      what statements keep.  [RequestsSpec]: operations interleaved statement by
      statement - no two active requests ask for the same seasons, and none share
      one if their creations do not overlap in time ([requests_no_overlap]) -,
      the life cycle ([request_life_cycle]), who skips
      the admin queue ([auto_approval_safe]).  [Fulfilment]: one pass over a
      request ([season_pass_spec]).  [DownloadsProps]: queue aggregation,
      evidence of failure, write-back ([aggregate_queue_state],
      [failed_verdict_evidence], [apply_verdict_spec]).

    _Libraries, labels and playlists_ ([internal/itemlabel], [internal/m3u],
    [internal/domain/library], [internal/api/v1], the migrations 00047 and 00061,
    [labels.sql], [playlists.sql], [playlist_m3u.sql], [collections.sql],
    [library_access.sql]).  What a user can see, and the lists users keep of it.
    - [Labels]: label lists and a user's label restriction, in Go and in SQL.
    - [Catalog]: the tables of users, grants, libraries, items, files and
      collections as one record [DB], one constructor of [stmt] for each
      statement the code sends, [exec] their effect, and [prog], trees of
      statements; a failing statement changes nothing.  A program runs
      alone, with chosen failures, or among other clients.
    - [Gates]: library grants and the label endpoints.  The check
      of one item, the batched check and the conditions of the listings agree
      ([label_gate_agrees]); the check of one library, the set used as a filter
      and the list shown are one relation ([library_access_agree]); stored label
      lists stay canonical ([label_lists_canonical]).
    - [M3U]: reading and writing playlist files ([m3u_roundtrip]).
      [M3UImport]: export rows and the four ways an entry is
      matched: only items the caller sees are matched ([import_only_visible]), an
      exported playlist imports as itself ([export_import_same]).
    - [Playlists]: the handlers, as programs.  [PlaylistsSafe]: whatever other
      accounts do and whatever fails, a request changes playlists of its caller
      only ([playlist_writes_owned]).  [PlaylistsProps]: the position rows refine
      a list ([playlist_is_list]).  [PlaylistsImport]: an import is all or nothing
      while one statement at most fails ([import_all_or_nothing]), and what it
      reports ([report_exact]).
    Here an ID is not used twice, a collation compares bytes, titles are valid
    UTF-8, and the M3U endpoints are wired.

    _Live TV recording_ ([internal/livetv], [dvr.sql]).
    - [DVRSchedule]: recording rules and their cap, the matcher that turns rules
      and guide into recordings ([match_recordings], [schedule_cap]).
    - [DVRWorker]: the capture worker, one database call per step, interleaved
      with cancels, the matcher, process exits, restarts and the passing of time
      ([recording_captured_once], [dvr_capture_limits], [capture_finalized]).
    - [DVRCommercials]: finding commercial breaks
      ([classify_breaks_pods]) and clamping them to the recording
      ([clamp_breaks_exact]).
    - [DVRPostprocess]: transcoding and cutting a finished recording, as a
      program of steps on files and tables, each free to fail.  [DVRPostprocessSafe]
      has a crash logic for them and shows that neither failures nor a dying
      process lose a recording ([recording_never_lost]); [DVRPostprocessCases]
      runs it on concrete recordings.  There one job works on the files, paths are
      absolute and clean, random names are new, and what ffmpeg, comskip and the
      operator's script write is arbitrary.

    _Background work_.
    - [Scheduler] ([internal/scheduler]): leasing of due tasks by several
      instances, the tick and the bookkeeping of runs ([scheduler_fires_once]).
    - [TrickplayVTT], [TrickplayBIF], [TrickplayQueue] ([internal/trickplay]):
      the thumbnail index and its parser ([vtt_roundtrip]), the BIF container
      and the slicing of sprites ([bif_roundtrip], [bif_write_errors]), the work
      queue as a step relation over its goroutines ([trickplay_queue_safe]), the
      status row of a run and the planner.
    - [IntroMarkers] ([internal/intromarker]): fingerprint alignment
      ([align_pair_longest]), clustering over a season, and the markers written
      ([season_detection_safe]).

    _Streams under way_ ([internal/streaming], [stream_limit.go],
    [playback_stop.go] and the handlers of [items.go], [optimize.go] and
    [sessions.go] that ask them).
    - [StreamTracker]: who direct-plays what, in memory or in Valkey behind one
      interface ([Tracker], [TrackerLaws]): both show what was written in the last
      45 seconds ([tracker_shows_log]).
    - [StreamLimit]: the concurrent-stream limit ([stream_limit_holds]) and the
      admin's stop of a stream ([stopped_stays_out]), over any tracker.  A request
      is its checks and, later, its write; others run in between.  Two first
      requests at once can both be let through, as they can in the code, and the
      limit is shown for accounts that do not do so.

    _Library scan_ ([internal/scanner], [internal/domain/media], [media.sql]).
    - [LibraryWalk]: which files a library has, on a disk and on a listing of
      keys; both select the same ([walk_modes_agree]).
    - [MediaFiles]: the rows of files and items, the statements of a scan, the
      media service built of them, and programs of statements and questions to
      the disk, run alone or among others with failures.
    - [LibraryScan]: a file through its short cuts, the rows whose file is gone,
      the sweep of missing rows, the clean-up of items.  Whatever happens
      meanwhile, a row is deleted only for a reason seen before
      ([scan_deletes_justified]).  [LibraryScanProps]: alone and without failures
      the rows become the files of the walk ([full_scan_mirrors_disk]), and a file
      swapped and put back is the same row ([swapped_file_returns]).
      [LibraryScanCases]: concrete scans, among them the losses the guards miss.

    _Guards and limits_.
    - [SafeHTTP] ([internal/safehttp]): which addresses outbound requests may
      reach ([guard_is_deny_list]).
    - [Plugins] ([internal/plugin]): circuit breaker ([breaker_refines_history]),
      delivery, pooled clients and the egress dialer, which uses [SafeHTTP]
      ([plugin_egress_safe]).
    - [ContentRating] ([internal/contentrating] and its SQL twin): lists and
      direct requests hide the same items ([rating_filters_agree]).
    - [WatchLimit], [WatchGates] ([internal/domain/watchlimit], [internal/api/v1]):
      policy, usage and the gates that enforce them through a read memo
      ([daily_cap_holds], [profile_usage_uncounted]).
    - [PortMap], [PCP] ([internal/portmap]): the loop that keeps the router's
      port mapping ([portmap_one_port]), and the PCP messages.

    [GoStrings], [GoBytes], [GoFloat], [GoPath] and [GoIP] hold the parts of Go's
    [strings], [strconv], [fmt], [encoding/binary], [bufio], [path], [net] and
    [float64] the modelled code uses; this file the record updates, machine
    integers, boolean tactics and list lemmas all others share.

    * Conventions

    Go's [int] is 64-bit: [Z], with [wrap64] or [wrap32] written where code can
    leave the range, [Z.quot] and [Z.rem] for [/] and [%].  [float64] is binary64
    through [SpecFloat].  Strings are byte strings; case folding and white space
    are ASCII (everything the code compares with is).  Pointers and nullable
    columns are [option].  JSON, JSONB and SQL rows are taken after decoding; the
    one encoding that matters, of a segment token, is written out.  Instants are
    integers, in the unit each file names.  Logging is not modelled.

    Code outside the repository is a parameter: the Valkey server ([Server],
    [KVServer]),
    the otp library's check ([hotp]), random bytes,
    the token library ([Paseto]) and bcrypt, hardware probes, TMDB, Radarr and Sonarr (functions of an environment
    record), cron parsing ([ParseStandard]), image decoding, cutting and encoding
    ([ImageLib]), fpcalc and ffmpeg, the DNS resolver, the URL parsing of the address guard, the
    text of a UUID, ffprobe (a function of the bytes), the
    time zone, and the router ([World] in [PortMap]).  What is assumed of them is
    a named hypothesis of the theorems that need it ([cron_law], [sheets_decode],
    [healthy]).  Failures of calls are arguments too: a [fault] says whether a
    command ran and whether its reply arrived, a boolean whether a statement
    succeeded.

    * Fuel and clocks

    [level_height_fuel] bounds the height search of [LevelMaxHeight], which
    descends by 2 from the source height; the theorem on it shows it suffices.
    [Lock_loop] polls every 50 ms: [lock_terminates] shows that wait/50 + 2 turns
    suffice.  [WriteVTT] runs at most one turn per second of the video and one
    more; [vtt_roundtrip] shows it returns.  [checkIP_fuel] counts the calls of
    [checkIP]: an embedded IPv4 address embeds nothing, so two suffice, which
    [guard_is_deny_list] covers.  The theorems on the sliding window, on the
    throttle and on the watch limits take one clock; those of [Scheduler] take
    the clocks of the database and of each instance apart, and commands of one
    script run at one instant.  [extend] has the code's 24 attempts,
    [mutateSession] its 5 of at most four steps each.  [poll_rung] polls every
    150 ms, so budget/150 + 1 polls are enough; [wipe_loop] looks once a minute
    for half an hour.  [count_from] starts with one turn more than its hard stop
    allows; [buildPredictedVariantPlaylist] has no stop of its own, and
    [predicted_count_exact] shows how many turns it takes.

    * Atomicity

    A Lua script, a single command and a single SQL statement are atomic, as the
    servers document, and so is a section under a mutex.  [SegToken], [Lease],
    [Throttle], [TOTP], [TrickplayQueue], [DVRWorker], [SessionsSafe] and the programs of
    [TransKV], [RequestsSpec] and [LibraryScan] interleave at that grain,
    [Scheduler] at that of its lease transaction.  In [RequestsSpec] the overlap
    rule is a read followed by an insert, and migration 00028 itself records that
    two racing creations with different overlapping seasons pass; the theorem
    says which creations must not overlap.  [Fulfilment] and [DownloadsProps]
    judge a pass against a row that may have changed since it was read.
    [StreamLimit] takes the checks of a request as one step and its write as
    another.  A request of [WatchGates] reads and writes with no other request in
    between, and an operation of [StreamTracker] is one step.

    * Not modelled

    HTTP handlers and clients beyond the gates above, the start of a transcode
    session, the ffmpeg command builder and its retries, the segment server,
    generated database code, the scanner's name and tag parsers, enrichment and
    merging of duplicates, tuners, guide import, Now Playing cards, UPnP and
    NAT-PMP, OIDC, SAML and LDAP login, and the non-Go clients.  The project
    manifest lists each with the reason.  Next in order: subtitle
    conversion, the name parsers of the scanner. *)
From stdpp Require Export prelude strings gmap pretty sorting.
From Stdlib Require Export Ascii.

#[export] Set Default Goal Selector "!".

(** * Record update

    Go code mutates struct fields in place.  A model threads a record and
    updates one field with [r <| field := v |>].  Each record that is updated
    declares its eta expansion once ([Eta]); [build_setter] derives the setter
    of a field from it. *)
Class Eta (R : Type) := eta_record : R → R.

Class Setter {R E : Type} (getter : R → E) := over : (E → E) → R → R.
#[global] Arguments over {R E} getter {_} _ !_ / : assert.

Ltac build_setter :=
  match goal with
  | |- @Setter ?R ?E ?getter =>
      let f := fresh "f" in
      let r := fresh "r" in
      intros f r;
      let inst := constr:(_ : Eta R) in
      let body := eval hnf in (@eta_record R inst r) in
      match body with
      | context C [getter r] => let upd := context C [f (getter r)] in exact upd
      end
  end.
#[global] Hint Extern 1 (@Setter _ _ _) => build_setter : typeclass_instances.

Notation "r <| g := v |>" := (over g (λ _, v) r)
  (at level 1, left associativity, g at level 0, format "r  <| g  :=  v |>").
Notation "r <| g ::= f |>" := (over g f r)
  (at level 1, left associativity, g at level 0, format "r  <| g  ::=  f |>").

(** * Machine integers

    Go's [int] and [int64] are two's complement 64-bit; [int32] is 32-bit.
    Arithmetic is on [Z]; [wrap64] and [wrap32] are applied where the code can
    leave the range.  [/] and [%] truncate towards zero: [Z.quot], [Z.rem]. *)
Definition int64_min : Z := - 2 ^ 63.
Definition int64_max : Z := 2 ^ 63 - 1.
Definition int32_min : Z := - 2 ^ 31.
Definition int32_max : Z := 2 ^ 31 - 1.

Definition wrap64 (z : Z) : Z := (z + 2 ^ 63) `mod` 2 ^ 64 - 2 ^ 63.
Definition wrap32 (z : Z) : Z := (z + 2 ^ 31) `mod` 2 ^ 32 - 2 ^ 31.

Definition in_int64 (z : Z) : Prop := (int64_min ≤ z ≤ int64_max)%Z.

Lemma wrap64_id (z : Z) : in_int64 z → wrap64 z = z.
Proof.
  unfold in_int64, int64_min, int64_max, wrap64. intros H.
  rewrite Z.mod_small; lia.
Qed.

Lemma wrap64_range (z : Z) : in_int64 (wrap64 z).
Proof.
  unfold in_int64, int64_min, int64_max, wrap64.
  pose proof (Z.mod_pos_bound (z + 2 ^ 63) (2 ^ 64) ltac:(lia)). lia.
Qed.

Lemma wrap32_id (z : Z) : (int32_min ≤ z ≤ int32_max)%Z → wrap32 z = z.
Proof.
  unfold int32_min, int32_max, wrap32. intros H. rewrite Z.mod_small; lia.
Qed.

(** Go pointers to plain values ([*string], [*int]) are options; [deref] and
    [derefInt] are the code's own helpers that read nil as the zero value. *)
Abbreviation ptr := option.

(** * Boolean reflection automation *)
Create Rewrite HintDb go_bool.
#[export] Hint Rewrite andb_true_iff orb_true_iff negb_true_iff negb_false_iff
  andb_false_iff orb_false_iff Z.ltb_lt Z.leb_le Z.eqb_eq Z.ltb_ge Z.leb_gt
  Z.eqb_neq String.eqb_eq String.eqb_neq bool_decide_eq_true
  bool_decide_eq_false : go_bool.

(** [breflect] turns every boolean equation of the context and the goal into
    the proposition it decides. *)
Ltac breflect := autorewrite with go_bool in *.

(** [bcase] splits on the condition of some [if] of the goal, remembering it. *)
Ltac bcase :=
  match goal with
  | |- context [if ?b then _ else _] =>
      lazymatch type of b with
      | bool => let E := fresh "E" in destruct b eqn:E
      | _ => let E := fresh "E" in destruct b as [E|E]
      end
  end.
Ltac bcase_in H :=
  match type of H with
  | context [if ?b then _ else _] =>
      lazymatch type of b with
      | bool => let E := fresh "E" in destruct b eqn:E
      | _ => let E := fresh "E" in destruct b as [E|E]
      end
  end.

(** * Lists *)

(** Membership test of a list of comparable keys: how [for _, v := range l
    { if v == x { return true } }; return false] reads. *)
Definition mem `{EqDecision A} (x : A) (l : list A) : bool := bool_decide (x ∈ l).

Lemma mem_spec `{EqDecision A} (x : A) (l : list A) : mem x l = true ↔ x ∈ l.
Proof. apply bool_decide_eq_true. Qed.

Lemma mem_false `{EqDecision A} (x : A) (l : list A) : mem x l = false ↔ x ∉ l.
Proof. apply bool_decide_eq_false. Qed.
#[export] Hint Rewrite @mem_spec @mem_false : go_bool.

Lemma forallb_Forall_iff {A} (p : A → bool) (l : list A) :
  forallb p l = true ↔ Forall (λ x, p x = true) l.
Proof.
  induction l as [|x l IH]; simpl; [naive_solver|].
  rewrite andb_true_iff, Forall_cons, IH. done.
Qed.

Lemma existsb_exists_elem {A} (p : A → bool) (l : list A) :
  existsb p l = true ↔ ∃ x, x ∈ l ∧ p x = true.
Proof.
  rewrite existsb_exists.
  split; intros (x & Hx & Hp); exists x; (split; [|done]); by apply list_elem_of_In.
Qed.

(** First element a predicate accepts: a [for range] loop that returns from
    inside. *)
Fixpoint find_first {A} (p : A → bool) (l : list A) : option A :=
  match l with
  | [] => None
  | x :: l' => if p x then Some x else find_first p l'
  end.

Lemma find_first_Some {A} (p : A → bool) (l : list A) (x : A) :
  find_first p l = Some x → x ∈ l ∧ p x = true.
Proof.
  induction l as [|y l IH]; simpl; [done|].
  destruct (p y) eqn:E; intros H.
  - simplify_eq. split; [left|done].
  - destruct (IH H). split; [by right|done].
Qed.

Lemma find_first_None {A} (p : A → bool) (l : list A) :
  find_first p l = None ↔ ∀ x, x ∈ l → p x = false.
Proof.
  induction l as [|y l IH]; simpl.
  - split; [|done]. intros _ x Hx. inversion Hx.
  - destruct (p y) eqn:E.
    + split; [done|]. intros H. specialize (H y (list_elem_of_here y l)). congruence.
    + rewrite IH. split.
      * intros H x [->|Hx]%elem_of_cons; auto.
      * intros H x Hx. apply H. by right.
Qed.

(** A Go [switch] on a string: the first case that lists the value. *)
Fixpoint switch {A} (x : string) (cases : list (list string * A)) (dflt : A) : A :=
  match cases with
  | [] => dflt
  | (keys, a) :: rest => if mem x keys then a else switch x rest dflt
  end.

Lemma switch_cases {A} (x : string) (cases : list (list string * A)) (d : A) :
  (∃ keys a, (keys, a) ∈ cases ∧ x ∈ keys ∧ switch x cases d = a) ∨
  (switch x cases d = d ∧ ∀ keys a, (keys, a) ∈ cases → x ∉ keys).
Proof.
  induction cases as [|[ks a] rest IH]; simpl.
  - right. split; [done|]. intros ?? H. inversion H.
  - destruct (mem x ks) eqn:E.
    + apply mem_spec in E. left. exists ks, a. split; [by left|done].
    + apply mem_false in E. destruct IH as [(k & b & ? & ? & ?)|[? Hn]].
      * left. exists k, b. split; [by right|done].
      * right. split; [done|]. intros k b [?|?]%elem_of_cons; [naive_solver|eauto].
Qed.

(** Sublists of sorted lists are sorted. *)
Lemma StronglySorted_sublist {A} (R : A → A → Prop) (k l : list A) :
  sublist k l → StronglySorted R l → StronglySorted R k.
Proof.
  induction 1 as [|x k l Hsub IH|x k l Hsub IH]; intros Hs; [done| |].
  - apply StronglySorted_inv in Hs as [Hs Hx]. constructor; [by apply IH|].
    rewrite Forall_forall in *. intros y Hy. apply Hx.
    by eapply elem_of_sublist.
  - apply StronglySorted_inv in Hs as [Hs _]. by apply IH.
Qed.

Lemma sublist_filter_mono {A} (P : A → Prop) `{∀ x, Decision (P x)} (k l : list A) :
  sublist k l → sublist (filter P k) (filter P l).
Proof.
  induction 1 as [|x k l Hsub IH|x k l Hsub IH]; [constructor| |];
    rewrite ?filter_cons; case_decide; by try constructor.
Qed.

Lemma sublist_filter_impl {A} (P Q : A → Prop) `{∀ x, Decision (P x)} `{∀ x, Decision (Q x)}
    (l : list A) :
  (∀ x, P x → Q x) → sublist (filter P l) (filter Q l).
Proof.
  intros HPQ. induction l as [|x l IH]; [constructor|]. rewrite !filter_cons.
  destruct (decide (P x)); [rewrite decide_True by auto; by constructor|].
  case_decide; by try constructor.
Qed.

(** ** Boolean filters *)
Lemma elem_of_List_filter {A} (f : A → bool) (l : list A) (x : A) :
  x ∈ List.filter f l ↔ x ∈ l ∧ f x = true.
Proof. rewrite !list_elem_of_In. apply List.filter_In. Qed.

Lemma NoDup_List_filter {A} (f : A → bool) (l : list A) : NoDup l → NoDup (List.filter f l).
Proof. rewrite !NoDup_ListNoDup. apply List.NoDup_filter. Qed.

Lemma List_filter_filter {A} (f g : A → bool) (l : list A) :
  List.filter f (List.filter g l) = List.filter (λ x, g x && f x) l.
Proof.
  induction l as [|x l IH]; simpl; [done|].
  destruct (g x); simpl; [destruct (f x)|]; by rewrite IH.
Qed.

Lemma filter_ext_elem {A} (f g : A → bool) (l : list A) :
  (∀ x, x ∈ l → f x = g x) → List.filter f l = List.filter g l.
Proof.
  induction l as [|x l IH]; intros H; simpl; [done|].
  rewrite (H x) by left. rewrite IH by (intros y Hy; apply H; by right). done.
Qed.
