(* ===== verification/GoStrings.v ===== *)
(** The parts of Go's [strings], [strconv] and [fmt] that the modelled code
    uses, as executable functions on byte strings.

    A Go string is a byte sequence; so is a Rocq [string].  Case folding and
    white space are the ASCII ones: a byte outside ASCII is left alone, where
    Go also folds non-ASCII letters.  Every key, codec, container and language
    token the code compares against is ASCII. *)
From S2P Require Import Prelude.

Local Open Scope Z_scope.

(** * Bytes *)
Definition byteZ (c : ascii) : Z := Z.of_N (N_of_ascii c).
Definition chr (z : Z) : ascii := ascii_of_N (Z.to_N z).

Definition is_upper (c : ascii) : bool := (65 <=? byteZ c) && (byteZ c <=? 90).
Definition is_lower (c : ascii) : bool := (97 <=? byteZ c) && (byteZ c <=? 122).
Definition is_digit (c : ascii) : bool := (48 <=? byteZ c) && (byteZ c <=? 57).

(** ['\t', '\n', '\v', '\f', '\r', ' '] *)
Definition is_space (c : ascii) : bool :=
  ((9 <=? byteZ c) && (byteZ c <=? 13)) || (byteZ c =? 32).

Definition lower (c : ascii) : ascii := if is_upper c then chr (byteZ c + 32) else c.
Definition upper (c : ascii) : ascii := if is_lower c then chr (byteZ c - 32) else c.

Fixpoint smap (f : ascii → ascii) (s : string) : string :=
  match s with
  | EmptyString => EmptyString
  | String c s' => String (f c) (smap f s')
  end.

(** [strings.ToLower], [strings.ToUpper], [strings.EqualFold] *)
Definition ToLower (s : string) : string := smap lower s.
Definition ToUpper (s : string) : string := smap upper s.
Definition EqualFold (a b : string) : bool := String.eqb (ToLower a) (ToLower b).

(** * Trimming and splitting *)
Fixpoint trim_left (s : string) : string :=
  match s with
  | EmptyString => EmptyString
  | String c s' => if is_space c then trim_left s' else s
  end.

Fixpoint rev_onto (s acc : string) : string :=
  match s with
  | EmptyString => acc
  | String c s' => rev_onto s' (String c acc)
  end.
Definition srev (s : string) : string := rev_onto s EmptyString.

(** [strings.TrimSpace] *)
Definition TrimSpace (s : string) : string := srev (trim_left (srev (trim_left s))).

(** Fields separated by runs of bytes satisfying [sep]; no empty field. *)
Fixpoint fields_go (sep : ascii → bool) (s cur : string) : list string :=
  match s with
  | EmptyString => if String.eqb cur "" then [] else [srev cur]
  | String c s' =>
      if sep c
      then (if String.eqb cur "" then [] else [srev cur]) ++ fields_go sep s' ""
      else fields_go sep s' (String c cur)
  end.
(** [strings.FieldsFunc] and [strings.Fields] *)
Definition FieldsFunc (sep : ascii → bool) (s : string) : list string := fields_go sep s "".
Definition Fields (s : string) : list string := FieldsFunc is_space s.

(** [strings.Split(s, sep)] for a one-byte separator: always at least one part. *)
Fixpoint split_go (sep : ascii) (s cur : string) : list string :=
  match s with
  | EmptyString => [srev cur]
  | String c s' =>
      if Ascii.eqb c sep then srev cur :: split_go sep s' "" else split_go sep s' (String c cur)
  end.
Definition Split (s : string) (sep : ascii) : list string := split_go sep s "".

(** [strings.Cut(s, sep)] for a one-byte separator: the text around the first
    separator, [None] when there is none.  [strings.SplitN(s, sep, 2)] has two
    parts exactly when this is [Some]. *)
Fixpoint Cut (s : string) (sep : ascii) : option (string * string) :=
  match s with
  | EmptyString => None
  | String c s' =>
      if Ascii.eqb c sep then Some (EmptyString, s')
      else match Cut s' sep with
           | Some (a, b) => Some (String c a, b)
           | None => None
           end
  end.

(** [strings.CutPrefix] *)
Fixpoint CutPrefix (s pre : string) {struct pre} : option string :=
  match pre, s with
  | EmptyString, _ => Some s
  | String p pre', String c s' => if Ascii.eqb p c then CutPrefix s' pre' else None
  | String _ _, EmptyString => None
  end.
Definition HasPrefix (s pre : string) : bool :=
  match CutPrefix s pre with Some _ => true | None => false end.
Definition HasSuffix (s suf : string) : bool := HasPrefix (srev s) (srev suf).

Fixpoint Contains (s sub : string) : bool :=
  HasPrefix s sub || match s with EmptyString => false | String _ s' => Contains s' sub end.

(** [strings.Join] *)
Fixpoint Join (l : list string) (sep : string) : string :=
  match l with
  | [] => ""
  | [x] => x
  | x :: l' => x +:+ sep +:+ Join l' sep
  end.

(** * Numbers *)
Definition digitZ (c : ascii) : Z := byteZ c - 48.

Fixpoint digits_val (acc : Z) (s : string) : option Z :=
  match s with
  | EmptyString => Some acc
  | String c s' => if is_digit c then digits_val (acc * 10 + digitZ c) s' else None
  end.

(** [strconv.Atoi]: optional sign, one or more digits, in range; [None] is the
    error. *)
Definition Atoi (s : string) : option Z :=
  let '(neg, digits) :=
    match s with
    | String c s' =>
        if Ascii.eqb c "-" then (true, s') else if Ascii.eqb c "+" then (false, s') else (false, s)
    | EmptyString => (false, s)
    end in
  if String.eqb digits "" then None
  else match digits_val 0 digits with
       | Some n =>
           let v := if (neg : bool) then - n else n in
           if bool_decide (in_int64 v) then Some v else None
       | None => None
       end.

(** [strconv.Itoa] and the [%d] verb *)
Definition Itoa (z : Z) : string := pretty z.

(** The [%02d] verb: at least two characters, zero padded (the sign counts). *)
Definition pad2 (z : Z) : string :=
  if (0 <=? z) && (z <? 10) then "0" +:+ Itoa z else Itoa z.

(** A string between double quotes: the [%q] verb on text that needs no escape. *)
Definition dquote : string := String (chr 34) EmptyString.
Definition quoted (s : string) : string := dquote +:+ s +:+ dquote.
Definition newline : string := String (chr 10) EmptyString.

(** * Lemmas *)
Lemma byteZ_range (c : ascii) : 0 <= byteZ c < 256.
Proof.
  unfold byteZ. pose proof (N_ascii_bounded c). lia.
Qed.

Lemma byteZ_chr (z : Z) : 0 <= z < 256 → byteZ (chr z) = z.
Proof.
  intros H. unfold byteZ, chr. rewrite N_ascii_embedding by lia. lia.
Qed.

Lemma lower_lower (c : ascii) : lower (lower c) = lower c.
Proof.
  destruct c as [[] [] [] [] [] [] [] []]; vm_compute; reflexivity.
Qed.

Lemma smap_smap (f g : ascii → ascii) (s : string) :
  smap f (smap g s) = smap (λ c, f (g c)) s.
Proof. induction s as [|c s IH]; simpl; by rewrite ?IH. Qed.

Lemma smap_ext (f g : ascii → ascii) (s : string) :
  (∀ c, f c = g c) → smap f s = smap g s.
Proof. intros H. induction s as [|c s IH]; simpl; by rewrite ?H, ?IH. Qed.

Lemma ToLower_idemp (s : string) : ToLower (ToLower s) = ToLower s.
Proof. unfold ToLower. rewrite smap_smap. apply smap_ext, lower_lower. Qed.

Lemma EqualFold_lower (a b : string) : EqualFold (ToLower a) b = EqualFold a b.
Proof. unfold EqualFold. by rewrite ToLower_idemp. Qed.

Lemma EqualFold_spec (a b : string) : EqualFold a b = true ↔ ToLower a = ToLower b.
Proof. apply String.eqb_eq. Qed.
#[export] Hint Rewrite ToLower_idemp EqualFold_lower EqualFold_spec : go_bool.

Lemma ToLower_empty (s : string) : ToLower s = "" ↔ s = "".
Proof. destruct s; simpl; [done|]. split; discriminate. Qed.

Lemma Itoa_inj (a b : Z) : Itoa a = Itoa b → a = b.
Proof. apply (inj pretty). Qed.

Lemma Cut_eq (s a b : string) (sep : ascii) :
  Cut s sep = Some (a, b) → s = a +:+ String sep b.
Proof.
  revert a. induction s as [|c s IH]; simpl; intros a; [done|].
  destruct (Ascii.eqb_spec c sep) as [->|].
  - intros [= <- <-]. done.
  - destruct (Cut s sep) as [[a' b']|] eqn:E; [|done].
    intros [= <- <-]. rewrite (IH a' eq_refl) at 1. done.
Qed.

Lemma CutPrefix_eq (s pre rest : string) :
  CutPrefix s pre = Some rest → s = pre +:+ rest.
Proof.
  revert s. induction pre as [|p pre IH]; intros s; simpl.
  - by intros [= ->].
  - destruct s as [|c s]; [done|]. destruct (Ascii.eqb_spec p c) as [->|]; [|done].
    intros H. by rewrite (IH s H).
Qed.

Lemma CutPrefix_app (pre rest : string) : CutPrefix (pre +:+ rest) pre = Some rest.
Proof.
  induction pre as [|p pre IH]; simpl; [done|].
  destruct (Ascii.eqb_spec p p); [done|congruence].
Qed.

(** ** Decimal numbers print and parse back *)
Fixpoint sforall (p : ascii → bool) (s : string) : bool :=
  match s with EmptyString => true | String c s' => p c && sforall p s' end.

Lemma is_digit_N_char (x : N) : is_digit (pretty_N_char (x mod 10)) = true
  ∧ digitZ (pretty_N_char (x mod 10)) = Z.of_N (x mod 10).
Proof.
  assert (x mod 10 < 10)%N as H by (apply N.mod_lt; lia).
  assert (∀ y, (y < 10)%N → y = 0 ∨ y = 1 ∨ y = 2 ∨ y = 3 ∨ y = 4 ∨ y = 5 ∨ y = 6
    ∨ y = 7 ∨ y = 8 ∨ y = 9)%N as Hy by lia.
  apply Hy in H.
  destruct H as [->|[->|[->|[->|[->|[->|[->|[->|[->| ->]]]]]]]]]; by vm_compute.
Qed.

Lemma digits_val_pretty_N_go (x : N) (s : string) :
  digits_val 0 (pretty_N_go x s) = digits_val (Z.of_N x) s.
Proof.
  revert s. induction (N.lt_wf_0 x) as [x _ IH]; intros s.
  destruct (decide (x = 0)%N) as [->|Hx]; [by rewrite pretty_N_go_0|].
  rewrite pretty_N_go_step by lia. rewrite IH by (apply N.div_lt; lia). simpl.
  destruct (is_digit_N_char x) as [-> ->]. f_equal.
  rewrite N2Z.inj_div, N2Z.inj_mod. pose proof (Z.div_mod (Z.of_N x) 10 ltac:(lia)).
  change (Z.of_N 10) with 10. lia.
Qed.

Lemma sforall_pretty_N_go (x : N) (s : string) :
  sforall is_digit s = true → sforall is_digit (pretty_N_go x s) = true.
Proof.
  revert s. induction (N.lt_wf_0 x) as [x _ IH]; intros s Hs.
  destruct (decide (x = 0)%N) as [->|Hx]; [by rewrite pretty_N_go_0|].
  rewrite pretty_N_go_step by lia. apply IH; [apply N.div_lt; lia|]. simpl.
  destruct (is_digit_N_char x) as [-> _]. done.
Qed.

Lemma pretty_N_digits (x : N) :
  sforall is_digit (pretty x) = true ∧ digits_val 0 (pretty x) = Some (Z.of_N x)
  ∧ pretty x ≠ "".
Proof.
  unfold pretty, pretty_N. case_decide as Hx; [by subst|].
  split; [by apply sforall_pretty_N_go|]. rewrite digits_val_pretty_N_go. split; [done|].
  intros He. pose proof (digits_val_pretty_N_go x "") as Hd. rewrite He in Hd.
  simpl in Hd. simplify_eq. lia.
Qed.

Lemma Itoa_nonneg (z : Z) : 0 ≤ z → Itoa z = pretty (Z.to_N z).
Proof. intros H. destruct z as [|p|p]; [done|done|lia]. Qed.

Lemma Itoa_digits (z : Z) : 0 ≤ z → sforall is_digit (Itoa z) = true.
Proof. intros H. rewrite Itoa_nonneg by done. apply pretty_N_digits. Qed.

Lemma Atoi_Itoa (z : Z) : in_int64 z → Atoi (Itoa z) = Some z.
Proof.
  intros Hz. destruct (Z.ltb_spec z 0) as [Hn|Hn].
  - destruct z as [|p|p]; [lia|lia|].
    destruct (pretty_N_digits (N.pos p)) as (_ & Hv & He).
    change (Itoa (Z.neg p)) with (String "-" (pretty (N.pos p))). unfold Atoi.
    rewrite Ascii.eqb_refl, (proj2 (String.eqb_neq _ _) He), Hv.
    by rewrite bool_decide_true.
  - rewrite Itoa_nonneg by done. destruct (pretty_N_digits (Z.to_N z)) as (Hd & Hv & He).
    rewrite Z2N.id in Hv by done. unfold Atoi.
    destruct (pretty (Z.to_N z)) as [|c s] eqn:E; [done|].
    simpl in Hd. apply andb_true_iff in Hd as [Hc _].
    destruct (Ascii.eqb_spec c "-") as [->|_]; [done|].
    destruct (Ascii.eqb_spec c "+") as [->|_]; [done|].
    rewrite (proj2 (String.eqb_neq _ _) He). rewrite Hv.
    by rewrite bool_decide_true.
Qed.

Lemma Cut_app (a rest : string) (sep : ascii) :
  sforall (λ c, negb (Ascii.eqb c sep)) a = true →
  Cut (a +:+ String sep rest) sep = Some (a, rest).
Proof.
  induction a as [|c a IH]; simpl.
  - intros _. by rewrite Ascii.eqb_refl.
  - intros [Hc Ha]%andb_true_iff. apply negb_true_iff in Hc. rewrite Hc.
    by rewrite (IH Ha).
Qed.

Lemma sforall_impl (p q : ascii → bool) (s : string) :
  (∀ c, p c = true → q c = true) → sforall p s = true → sforall q s = true.
Proof.
  intros Hpq. induction s as [|c s IH]; simpl; [done|].
  intros [Hc Hs]%andb_true_iff. by rewrite (Hpq c Hc), (IH Hs).
Qed.

(** Two numbers joined by a separator that is no digit determine both. *)
Lemma Itoa_pair_inj (sep : ascii) (a b c d : Z) :
  is_digit sep = false → 0 ≤ a → 0 ≤ c →
  Itoa a +:+ String sep (Itoa b) = Itoa c +:+ String sep (Itoa d) → a = c ∧ b = d.
Proof.
  intros Hsep Ha Hc He.
  assert (∀ z, 0 ≤ z → sforall (λ c, negb (Ascii.eqb c sep)) (Itoa z) = true) as Hno.
  { intros z Hz. eapply sforall_impl, Itoa_digits; [|done]. intros x Hx.
    apply negb_true_iff. destruct (Ascii.eqb_spec x sep); [congruence|done]. }
  pose proof (Cut_app (Itoa a) (Itoa b) sep (Hno a Ha)) as H1.
  pose proof (Cut_app (Itoa c) (Itoa d) sep (Hno c Hc)) as H2.
  rewrite He, H2 in H1. simplify_eq. split; by apply Itoa_inj.
Qed.

Lemma app_String_ne (s t : string) (c : ascii) : s +:+ String c t ≠ s.
Proof. induction s as [|a s IH]; [done|]. intros [= He]. by apply IH. Qed.

Example Split_ex : Split "h264:h265" ":" = ["h264"; "h265"] ∧ Split "" ":" = [""].
Proof. done. Qed.
Example TrimSpace_ex : TrimSpace "  a b " = "a b".
Proof. done. Qed.
Example Atoi_ex : Atoi "-17" = Some (-17) ∧ Atoi "9223372036854775808" = None ∧ Atoi "4x" = None.
Proof. done. Qed.
