(* ===== verification/GoBytes.v ===== *)
(** Byte slices, fixed-width integers in them, and the line scanner.

    [bytes] is Go's [[]byte].  [PutUint32] and friends of [encoding/binary] are
    [le_split]/[be_split]; reading a field is [le_combine]/[be_combine] of a
    subslice.  Also here: [strings.Cut] with a longer separator,
    [strings.Repeat], and [bufio.Scanner] over lines with its token limit. *)
From S2P Require Import Prelude.
From S2P Require Import GoStrings.

Local Open Scope Z_scope.

Abbreviation bytes := (list ascii).

Definition uint32_max : Z := 4294967295.
Definition in_uint32 (z : Z) : Prop := 0 <= z <= uint32_max.
Definition wrapU32 (z : Z) : Z := z `mod` 2 ^ 32.
Definition wrapU64 (z : Z) : Z := z `mod` 2 ^ 64.
#[global] Instance in_uint32_dec (z : Z) : Decision (in_uint32 z).
Proof. unfold in_uint32. apply _. Defined.

(** [len(b)] *)
Definition len {A} (l : list A) : Z := Z.of_nat (length l).

(** The low [n] bytes of [z], least significant first, and back. *)
Fixpoint le_split (n : nat) (z : Z) : bytes :=
  match n with
  | O => []
  | S n' => chr (z `mod` 256) :: le_split n' (z `div` 256)
  end.
Fixpoint le_combine (b : bytes) : Z :=
  match b with
  | [] => 0
  | c :: b' => byteZ c + 256 * le_combine b'
  end.
(** Big-endian (network) order. *)
Definition be_split (n : nat) (z : Z) : bytes := reverse (le_split n z).
Definition be_combine (b : bytes) : Z := le_combine (reverse b).

(** [b[from:from+n]] *)
Definition slice {A} (from n : nat) (b : list A) : list A := take n (drop from b).

(** Overwriting [b] from [off] on: [copy(b[off:], src)] with room for [src]. *)
Definition copy_at (off : nat) (src b : bytes) : bytes :=
  take off b ++ src ++ drop (off + length src) b.

(** A string as the bytes it is made of. *)
Fixpoint of_string (s : string) : bytes :=
  match s with EmptyString => [] | String c s' => c :: of_string s' end.
Fixpoint to_string (b : bytes) : string :=
  match b with [] => EmptyString | c :: b' => String c (to_string b') end.

(** [strings.Cut(s, sep)]: around the first occurrence of [sep]. *)
Fixpoint CutStr (s sep : string) : option (string * string) :=
  match CutPrefix s sep with
  | Some rest => Some (EmptyString, rest)
  | None =>
      match s with
      | EmptyString => None
      | String c s' =>
          match CutStr s' sep with
          | Some (a, b) => Some (String c a, b)
          | None => None
          end
      end
  end.

(** [strings.Repeat(s, n)] *)
Fixpoint Repeat (s : string) (n : nat) : string :=
  match n with O => EmptyString | S n' => s +:+ Repeat s n' end.

(** * The line scanner

    [bufio.Scanner] with [ScanLines]: lines end with ['\n'] (a ['\r'] before it
    is dropped), a last line without one counts when it is not empty.  A line
    that fills the buffer of [max] bytes ends the scan with [ErrTooLong]: the
    lines before it have been delivered. *)
Definition lf : ascii := chr 10.
Definition cr : ascii := chr 13.
Definition MaxScanTokenSize : Z := 65536.

Definition drop_cr (raw : string) : string :=
  match srev raw with
  | String c rest => if Ascii.eqb c cr then srev rest else raw
  | EmptyString => raw
  end.

Fixpoint raw_lines (s cur : string) : list string :=
  match s with
  | EmptyString => if String.eqb cur "" then [] else [srev cur]
  | String c s' =>
      if Ascii.eqb c lf then srev cur :: raw_lines s' "" else raw_lines s' (String c cur)
  end.

Definition slen (s : string) : Z := Z.of_nat (String.length s).

(** The delivered lines and whether the scan ended with [ErrTooLong]. *)
Fixpoint scan_raw (max : Z) (raws : list string) : list string * bool :=
  match raws with
  | [] => ([], false)
  | r :: rest =>
      if max <=? slen r then ([], true)
      else let '(ls, e) := scan_raw max rest in (drop_cr r :: ls, e)
  end.
Definition ScanLines (max : Z) (s : string) : list string * bool := scan_raw max (raw_lines s "").

(** * Lemmas *)
Lemma len_app {A} (a b : list A) : len (a ++ b) = len a + len b.
Proof. unfold len. rewrite length_app. lia. Qed.
Lemma len_nonneg {A} (a : list A) : 0 <= len a.
Proof. unfold len. lia. Qed.
Lemma len_cons {A} (x : A) (l : list A) : len (x :: l) = 1 + len l.
Proof. unfold len. simpl. lia. Qed.
Lemma len_nil {A} : len (@nil A) = 0.
Proof. done. Qed.
#[export] Hint Rewrite @len_app @len_cons @len_nil : go_len.

Lemma length_le_split (n : nat) (z : Z) : length (le_split n z) = n.
Proof. revert z. induction n as [|n IH]; intros z; simpl; by rewrite ?IH. Qed.

Lemma le_combine_split (n : nat) (z : Z) :
  le_combine (le_split n z) = z `mod` 2 ^ (8 * Z.of_nat n).
Proof.
  revert z. induction n as [|n IH]; intros z; cbn [le_split le_combine].
  { by rewrite Z.mod_1_r. }
  pose proof (Z.mod_pos_bound z 256 ltac:(lia)).
  rewrite byteZ_chr, IH by lia.
  replace (8 * Z.of_nat (S n)) with (8 + 8 * Z.of_nat n) by lia.
  rewrite Z.pow_add_r by lia. change (2 ^ 8) with 256.
  rewrite Z.rem_mul_r; lia.
Qed.

Lemma le_combine_split_small (n : nat) (z : Z) :
  0 <= z < 2 ^ (8 * Z.of_nat n) → le_combine (le_split n z) = z.
Proof. intros H. by rewrite le_combine_split, Z.mod_small. Qed.

Lemma le_combine_range (b : bytes) : 0 <= le_combine b < 2 ^ (8 * len b).
Proof.
  induction b as [|c b IH]; cbn [le_combine]; [vm_compute; split; [discriminate|done]|].
  rewrite len_cons. pose proof (len_nonneg b).
  replace (8 * (1 + len b)) with (8 + 8 * len b) by lia.
  rewrite Z.pow_add_r by lia. change (2 ^ 8) with 256.
  pose proof (byteZ_range c). lia.
Qed.

Lemma chr_byteZ (c : ascii) : chr (byteZ c) = c.
Proof. unfold chr, byteZ. rewrite N2Z.id. apply ascii_N_embedding. Qed.

Lemma le_split_combine (b : bytes) : le_split (length b) (le_combine b) = b.
Proof.
  induction b as [|c b IH]; simpl; [done|].
  pose proof (byteZ_range c). pose proof (le_combine_range b).
  replace (byteZ c + 256 * le_combine b) with (byteZ c + le_combine b * 256) by lia.
  rewrite Z.mod_add, Z.div_add, Z.mod_small, Z.div_small, Z.add_0_l by lia.
  by rewrite chr_byteZ, IH.
Qed.

Lemma length_be_split (n : nat) (z : Z) : length (be_split n z) = n.
Proof. unfold be_split. by rewrite length_reverse, length_le_split. Qed.

Lemma be_combine_split (n : nat) (z : Z) :
  0 <= z < 2 ^ (8 * Z.of_nat n) → be_combine (be_split n z) = z.
Proof.
  intros H. unfold be_combine, be_split. rewrite reverse_involutive.
  by apply le_combine_split_small.
Qed.

Lemma be_split_combine (b : bytes) : be_split (length b) (be_combine b) = b.
Proof.
  unfold be_combine, be_split. rewrite <- (length_reverse b), le_split_combine.
  apply reverse_involutive.
Qed.

Lemma be_combine_range (b : bytes) : 0 <= be_combine b < 2 ^ (8 * len b).
Proof.
  unfold be_combine. pose proof (le_combine_range (reverse b)) as H.
  unfold len in *. by rewrite length_reverse in H.
Qed.

(** A field in the middle of a concatenation. *)
Lemma slice_app {A} (a f r : list A) (from n : nat) :
  length a = from → length f = n → slice from n (a ++ f ++ r) = f.
Proof.
  intros <- <-. unfold slice. rewrite drop_app_length. by rewrite take_app_length.
Qed.

Lemma to_of_string (s : string) : to_string (of_string s) = s.
Proof. induction s as [|c s IH]; simpl; by rewrite ?IH. Qed.
Lemma of_to_string (b : bytes) : of_string (to_string b) = b.
Proof. induction b as [|c b IH]; simpl; by rewrite ?IH. Qed.

Lemma slen_app (a b : string) : slen (a +:+ b) = slen a + slen b.
Proof.
  unfold slen. induction a as [|c a IH]; [done|].
  change (String c a +:+ b) with (String c (a +:+ b)). cbn [String.length]. lia.
Qed.

Lemma sapp_assoc (a b c : string) : (a +:+ b) +:+ c = a +:+ (b +:+ c).
Proof. induction a as [|x a IH]; [done|]. exact (f_equal (String x) IH). Qed.

Lemma sapp_nil_r (a : string) : a +:+ "" = a.
Proof. induction a as [|x a IH]; [done|]. exact (f_equal (String x) IH). Qed.

(** ** Strings as byte lists *)
Lemma of_string_app (a b : string) : of_string (a +:+ b) = of_string a ++ of_string b.
Proof. induction a as [|c a IH]; simpl; by rewrite ?IH. Qed.

#[export] Instance of_string_inj : Inj (=) (=) of_string.
Proof. intros a b H. by rewrite <- (to_of_string a), H, to_of_string. Qed.

Lemma of_string_rev_onto (a acc : string) :
  of_string (rev_onto a acc) = reverse (of_string a) ++ of_string acc.
Proof.
  revert acc. induction a as [|c a IH]; intros acc; simpl; [done|].
  rewrite IH. simpl. rewrite reverse_cons, <- (assoc_L (++)). done.
Qed.

Lemma of_string_srev (a : string) : of_string (srev a) = reverse (of_string a).
Proof. unfold srev. rewrite of_string_rev_onto. by rewrite app_nil_r. Qed.

Lemma srev_srev (a : string) : srev (srev a) = a.
Proof. apply (inj of_string). by rewrite !of_string_srev, reverse_involutive. Qed.

Lemma srev_app (a b : string) : srev (a +:+ b) = srev b +:+ srev a.
Proof.
  apply (inj of_string).
  by rewrite of_string_srev, !of_string_app, !of_string_srev, reverse_app.
Qed.

Lemma srev_snoc (a : string) (c : ascii) : srev (String c a) = srev a +:+ String c "".
Proof. apply (srev_app (String c "") a). Qed.

Lemma srev_onto (a b : string) : rev_onto a b = srev a +:+ b.
Proof.
  apply (inj of_string). by rewrite of_string_rev_onto, of_string_app, of_string_srev.
Qed.

Lemma slen_srev (a : string) : slen (srev a) = slen a.
Proof.
  assert (∀ s, slen s = len (of_string s)) as H.
  { intros s. unfold slen, len. induction s as [|c s IH]; simpl; lia. }
  rewrite !H, of_string_srev. unfold len. by rewrite length_reverse.
Qed.

Lemma slen_nonneg (a : string) : 0 <= slen a.
Proof. unfold slen. lia. Qed.

Lemma sforall_app (p : ascii → bool) (a b : string) :
  sforall p (a +:+ b) = sforall p a && sforall p b.
Proof.
  induction a as [|c a IH]; simpl; [done|].
  change (String.append a b) with (a +:+ b). by rewrite IH, andb_assoc.
Qed.

Lemma sforall_srev (p : ascii → bool) (a : string) : sforall p (srev a) = sforall p a.
Proof.
  induction a as [|c a IH]; [done|].
  rewrite srev_snoc, sforall_app, IH. simpl. by rewrite andb_true_r, andb_comm.
Qed.

(** ** Splitting *)
Lemma split_go_app (sep : ascii) (a rest cur : string) :
  sforall (λ c, negb (Ascii.eqb c sep)) a = true →
  split_go sep (a +:+ String sep rest) cur = (srev cur +:+ a) :: split_go sep rest "".
Proof.
  revert cur. induction a as [|c a IH]; intros cur; simpl.
  - intros _. by rewrite Ascii.eqb_refl, sapp_nil_r.
  - intros [Hc Ha]%andb_true_iff. apply negb_true_iff in Hc. rewrite Hc.
    rewrite (IH (String c cur) Ha), srev_snoc, sapp_assoc. done.
Qed.

Lemma split_go_last (sep : ascii) (a cur : string) :
  sforall (λ c, negb (Ascii.eqb c sep)) a = true → split_go sep a cur = [srev cur +:+ a].
Proof.
  revert cur. induction a as [|c a IH]; intros cur; simpl.
  - intros _. by rewrite sapp_nil_r.
  - intros [Hc Ha]%andb_true_iff. apply negb_true_iff in Hc. rewrite Hc.
    rewrite (IH (String c cur) Ha), srev_snoc, sapp_assoc. done.
Qed.

Lemma Split_app (sep : ascii) (a rest : string) :
  sforall (λ c, negb (Ascii.eqb c sep)) a = true →
  Split (a +:+ String sep rest) sep = a :: Split rest sep.
Proof. apply (split_go_app sep a rest ""). Qed.

Lemma Split_last (sep : ascii) (a : string) :
  sforall (λ c, negb (Ascii.eqb c sep)) a = true → Split a sep = [a].
Proof. apply (split_go_last sep a ""). Qed.

(** The text up to a separator whose first byte does not occur before it. *)
Lemma CutStr_app (a rest sep : string) (h : ascii) (t : string) :
  sep = String h t →
  sforall (λ c, negb (Ascii.eqb c h)) a = true →
  CutStr (a +:+ sep +:+ rest) sep = Some (a, rest).
Proof.
  intros -> Ha. induction a as [|c a IH].
  - change ("" +:+ String h t +:+ rest) with (String h t +:+ rest).
    pose proof (CutPrefix_app (String h t) rest) as Hc. revert Hc.
    change (String h t +:+ rest) with (String h (t +:+ rest)).
    cbn [CutStr]. by intros ->.
  - simpl in Ha. apply andb_true_iff in Ha as [Hc Ha].
    apply negb_true_iff, Ascii.eqb_neq in Hc. specialize (IH Ha).
    change (String c a +:+ String h t +:+ rest) with (String c (a +:+ String h t +:+ rest)).
    cbn [CutStr CutPrefix]. destruct (Ascii.eqb_spec h c) as [->|]; [done|].
    by rewrite IH.
Qed.

Lemma CutStr_none (s sep : string) (h : ascii) (t : string) :
  sep = String h t → sforall (λ c, negb (Ascii.eqb c h)) s = true → CutStr s sep = None.
Proof.
  intros -> Hs. induction s as [|c s IH]; [done|]. simpl in Hs.
  apply andb_true_iff in Hs as [Hc Hs]. apply negb_true_iff, Ascii.eqb_neq in Hc.
  cbn [CutStr CutPrefix]. destruct (Ascii.eqb_spec h c) as [->|]; [done|].
  by rewrite IH.
Qed.

Lemma Contains_CutStr (s sep : string) :
  Contains s sep = match CutStr s sep with Some _ => true | None => false end.
Proof.
  induction s as [|c s IH]; cbn [Contains CutStr]; unfold HasPrefix.
  - by destruct (CutPrefix "" sep).
  - destruct (CutPrefix (String c s) sep); [done|]. simpl. rewrite IH.
    by destruct (CutStr s sep) as [[??]|].
Qed.

(** ** Trimming *)
Lemma trim_left_id (s : string) :
  match s with String c _ => is_space c = false | EmptyString => True end → trim_left s = s.
Proof. destruct s as [|c s]; [done|]. simpl. by intros ->. Qed.

(** Text without white space at either end trims to itself. *)
Definition trimmed (s : string) : bool :=
  match s with String c _ => negb (is_space c) | EmptyString => true end &&
  match srev s with String c _ => negb (is_space c) | EmptyString => true end.

Lemma TrimSpace_trimmed (s : string) : trimmed s = true → TrimSpace s = s.
Proof.
  unfold trimmed, TrimSpace. intros [Hl Hr]%andb_true_iff.
  rewrite (trim_left_id s).
  - rewrite (trim_left_id (srev s)); [apply srev_srev|].
    destruct (srev s); [done|]. by apply negb_true_iff.
  - destruct s; [done|]. by apply negb_true_iff.
Qed.

Lemma trimmed_no_space (s : string) :
  sforall (λ c, negb (is_space c)) s = true → trimmed s = true.
Proof.
  intros H. unfold trimmed. apply andb_true_iff. split.
  - destruct s; [done|]. simpl in H. by apply andb_true_iff in H as [? _].
  - rewrite <- sforall_srev in H. destruct (srev s); [done|].
    simpl in H. by apply andb_true_iff in H as [? _].
Qed.

(** ** Lines *)
Lemma raw_lines_app (a rest cur : string) :
  sforall (λ c, negb (Ascii.eqb c lf)) a = true →
  raw_lines (a +:+ String lf rest) cur = (srev cur +:+ a) :: raw_lines rest "".
Proof.
  revert cur. induction a as [|c a IH]; intros cur.
  - intros _. cbn. by rewrite sapp_nil_r.
  - cbn [sforall]. intros [Hc Ha]%andb_true_iff. apply negb_true_iff in Hc.
    change (String c a +:+ String lf rest) with (String c (a +:+ String lf rest)).
    cbn [raw_lines]. rewrite Hc, (IH (String c cur) Ha), srev_snoc, sapp_assoc. done.
Qed.

Lemma drop_cr_id (s : string) :
  match srev s with String c _ => c ≠ cr | EmptyString => True end → drop_cr s = s.
Proof.
  unfold drop_cr. destruct (srev s) as [|c r]; [done|]. intros H.
  by destruct (Ascii.eqb_spec c cr).
Qed.

(** A line that is delivered whole, followed by more text. *)
Lemma ScanLines_cons (max : Z) (a rest : string) :
  sforall (λ c, negb (Ascii.eqb c lf) && negb (Ascii.eqb c cr)) a = true → slen a < max →
  ScanLines max (a +:+ String lf rest) =
    (a :: (ScanLines max rest).1, (ScanLines max rest).2).
Proof.
  intros Ha Hl. unfold ScanLines. rewrite raw_lines_app.
  2: { revert Ha. apply sforall_impl. intros c [? _]%andb_true_iff. done. }
  change (srev "" +:+ a) with a. cbn [scan_raw].
  destruct (Z.leb_spec max (slen a)); [lia|].
  destruct (scan_raw max (raw_lines rest "")) as [ls e]. rewrite drop_cr_id; [done|].
  rewrite <- sforall_srev in Ha. destruct (srev a) as [|c r]; [done|].
  cbn [sforall] in Ha. apply andb_true_iff in Ha as [[_ Hc]%andb_true_iff _].
  apply negb_true_iff, Ascii.eqb_neq in Hc. done.
Qed.

(** ** Decimal text *)
Lemma digits_val_range (s : string) (acc : Z) (n : Z) :
  digits_val acc s = Some n → 0 <= acc → 0 <= n.
Proof.
  revert acc. induction s as [|c s IH]; intros acc; simpl; [by intros [= ->]|].
  destruct (is_digit c) eqn:E; [|done]. intros H Ha. apply (IH _ H).
  unfold is_digit in E. unfold digitZ. breflect. lia.
Qed.

Lemma Atoi_digits (s : string) (n : Z) :
  s ≠ "" → sforall is_digit s = true → digits_val 0 s = Some n → in_int64 n → Atoi s = Some n.
Proof.
  intros Hs Hd Hv Hn. unfold Atoi. destruct s as [|c s]; [done|].
  cbn [sforall] in Hd. apply andb_true_iff in Hd as [Hc _].
  destruct (Ascii.eqb_spec c "-") as [->|_]; [done|].
  destruct (Ascii.eqb_spec c "+") as [->|_]; [done|].
  rewrite (proj2 (String.eqb_neq _ _) Hs), Hv. by rewrite bool_decide_true.
Qed.

Lemma pad2_digits (z : Z) : 0 <= z →
  pad2 z ≠ "" ∧ sforall is_digit (pad2 z) = true ∧ digits_val 0 (pad2 z) = Some z.
Proof.
  intros Hz. destruct (pretty_N_digits (Z.to_N z)) as (Hd & Hv & He).
  rewrite <- Itoa_nonneg in Hd, Hv, He by done. rewrite Z2N.id in Hv by done.
  unfold pad2. destruct ((0 <=? z) && (z <? 10)); [|done].
  repeat split; [done| |]; cbn; done.
Qed.

Lemma Atoi_pad2 (z : Z) : 0 <= z → in_int64 z → Atoi (pad2 z) = Some z.
Proof. intros Hz Hi. destruct (pad2_digits z Hz) as (? & ? & ?). by apply Atoi_digits. Qed.

Lemma slen_pretty_N_go (n : nat) (x : N) (s : string) :
  (x < 10 ^ N.of_nat n)%N → slen (pretty_N_go x s) <= Z.of_nat n + slen s.
Proof.
  revert x s. induction n as [|n IH]; intros x s Hx.
  - assert (x = 0)%N as -> by (simpl in Hx; lia). rewrite pretty_N_go_0. lia.
  - destruct (decide (x = 0)%N) as [->|Hx0]; [rewrite pretty_N_go_0; lia|].
    rewrite pretty_N_go_step by lia.
    etrans; [apply IH|].
    + apply N.Div0.div_lt_upper_bound. rewrite Nat2N.inj_succ, N.pow_succ_r' in Hx. lia.
    + unfold slen. cbn [String.length]. lia.
Qed.

Lemma slen_Itoa (z : Z) : 0 <= z <= int64_max → slen (Itoa z) <= 19.
Proof.
  unfold int64_max. intros Hz. rewrite Itoa_nonneg by lia. unfold pretty, pretty_N.
  case_decide; [vm_compute; discriminate|].
  etrans; [apply (slen_pretty_N_go 19); change (10 ^ N.of_nat 19)%N with (10 ^ 19)%N; lia|].
  done.
Qed.

Lemma slen_pad2 (z : Z) : 0 <= z <= int64_max → slen (pad2 z) <= 20.
Proof.
  intros Hz. pose proof (slen_Itoa z Hz). unfold pad2.
  destruct ((0 <=? z) && (z <? 10)); [|lia]. rewrite slen_app.
  change (slen "0") with 1. lia.
Qed.

(** ** Text without white space *)
Definition no_space (s : string) : bool := sforall (λ c, negb (is_space c)) s.

Lemma digits_no_space (s : string) : sforall is_digit s = true → no_space s = true.
Proof.
  apply sforall_impl. intros c. unfold is_digit, is_space. intros H. breflect. lia.
Qed.

Lemma trimmed_app (a m b : string) :
  a ≠ "" → b ≠ "" → no_space a = true → no_space b = true → trimmed (a +:+ m +:+ b) = true.
Proof.
  intros Ha Hb Hna Hnb. unfold trimmed. apply andb_true_iff. split.
  - destruct a as [|c a]; [done|]. unfold no_space in Hna. cbn [sforall] in Hna.
    by apply andb_true_iff in Hna as [? _].
  - unfold no_space in Hnb. rewrite <- sforall_srev in Hnb. rewrite !srev_app.
    destruct (srev b) as [|c r] eqn:E.
    + by rewrite <- (srev_srev b), E in Hb.
    + cbn [sforall] in Hnb. by apply andb_true_iff in Hnb as [? _].
Qed.

Lemma TrimSpace_trail (a : string) :
  no_space a = true → a ≠ "" → TrimSpace (a +:+ " ") = a.
Proof.
  intros Hn Ha. unfold TrimSpace. rewrite (trim_left_id (a +:+ " ")).
  - rewrite srev_app. change (srev " " +:+ srev a) with (String " " (srev a)).
    cbn [trim_left]. change (is_space " ") with true. cbn iota.
    rewrite trim_left_id; [apply srev_srev|].
    unfold no_space in Hn. rewrite <- sforall_srev in Hn. destruct (srev a); [done|].
    cbn [sforall] in Hn. apply andb_true_iff in Hn as [H _]. by apply negb_true_iff in H.
  - destruct a as [|c a]; [done|]. unfold no_space in Hn. cbn [sforall] in Hn.
    apply andb_true_iff in Hn as [H _]. by apply negb_true_iff in H.
Qed.

Lemma fields_go_word (a cur : string) :
  no_space a = true → srev cur +:+ a ≠ "" →
  fields_go is_space a cur = [srev cur +:+ a].
Proof.
  revert cur. induction a as [|c a IH]; intros cur Hn Hne.
  - rewrite sapp_nil_r in Hne |- *. cbn [fields_go].
    destruct (String.eqb_spec cur "") as [->|]; [done|done].
  - unfold no_space in Hn. cbn [sforall] in Hn. apply andb_true_iff in Hn as [Hc Hn].
    apply negb_true_iff in Hc. cbn [fields_go]. rewrite Hc.
    assert (srev (String c cur) +:+ a = srev cur +:+ String c a) as He.
    { rewrite srev_snoc, sapp_assoc. done. }
    rewrite IH, He by (try done; by rewrite He). done.
Qed.

Lemma Fields_word (a : string) :
  no_space a = true → a ≠ "" → Fields (String " " a) = [a].
Proof. intros Hn Ha. apply (fields_go_word a ""); done. Qed.
