(* ===== verification/GoFloat.v ===== *)
(** Go's [float64] as IEEE 754 binary64, through the Standard Library's
    executable specification [SpecFloat] (precision 53, exponent bound 1024,
    round to nearest even).  Only the operations the modelled code performs. *)
From Stdlib Require Import SpecFloat.
From S2P Require Import Prelude.
From S2P Require Import GoStrings.

Local Open Scope Z_scope.

Abbreviation float64 := spec_float.

Definition f64_of_Z (z : Z) : float64 := binary_normalize 53 1024 z 0 false.
Definition f64_mul : float64 → float64 → float64 := SFmul 53 1024.
Definition f64_div : float64 → float64 → float64 := SFdiv 53 1024.
Definition f64_add : float64 → float64 → float64 := SFadd 53 1024.
Definition f64_sub : float64 → float64 → float64 := SFsub 53 1024.
Definition f64_leb : float64 → float64 → bool := SFleb.
Definition f64_ltb : float64 → float64 → bool := SFltb.
Definition f64_zero : float64 := S754_zero false.

(** [x <= 0] and [x > 0] of a float64. *)
Definition f64_le0 (x : float64) : bool := f64_leb x f64_zero.
Definition f64_gt0 (x : float64) : bool := f64_ltb f64_zero x.

(** [int(x)]: truncation towards zero.  For NaN, infinities and values outside
    int64 Go's result is implementation defined; it is 0 here. *)
Definition int_of_f64 (x : float64) : Z :=
  match x with
  | S754_finite s m e =>
      let a := if 0 <=? e then Z.pos m * 2 ^ e else Z.pos m / 2 ^ (- e) in
      if s then - a else a
  | _ => 0
  end.

(** [int(math.Round(x))]: to nearest, halves away from zero. *)
Definition round_of_f64 (x : float64) : Z :=
  match x with
  | S754_finite s m e =>
      let a := if 0 <=? e then Z.pos m * 2 ^ e
               else (Z.pos m + 2 ^ (- e - 1)) / 2 ^ (- e) in
      if s then - a else a
  | _ => 0
  end.

(** The double nearest to 0.6, and 0.5. *)
Definition f64_0_6 : float64 := S754_finite false 5404319552844595 (-53).
Definition f64_0_5 : float64 := S754_finite false 4503599627370496 (-53).

Example f64_0_6_ok : f64_div (f64_of_Z 6) (f64_of_Z 10) = f64_0_6.
Proof. vm_compute. reflexivity. Qed.
Example f64_0_5_ok : f64_div (f64_of_Z 1) (f64_of_Z 2) = f64_0_5.
Proof. vm_compute. reflexivity. Qed.
Example round_ex : round_of_f64 (f64_div (f64_of_Z 5) (f64_of_Z 2)) = 3 ∧
  int_of_f64 (f64_div (f64_of_Z (-7)) (f64_of_Z 2)) = -3.
Proof. vm_compute. done. Qed.

(** * [strconv.ParseFloat]

    Decimal literals and the special words, correctly rounded; [None] is the
    error, of syntax or of range.  Hexadecimal literals and digit separators
    ([0x1p4], [1_000]) are not read. *)

(** The double nearest to [m * 10 ^ e]. *)
Definition f64_of_decimal (neg : bool) (m e : Z) : float64 :=
  if m =? 0 then S754_zero neg
  else if 0 <=? e then binary_normalize 53 1024 ((if neg then - m else m) * 10 ^ e) 0 neg
  else let '(q, ez, l) := SFdiv_core_binary 53 1024 m 0 (10 ^ (- e)) 0 in
       binary_round_aux 53 1024 neg q ez l.

(** The digits and the point of a mantissa: its value, the power of ten it is
    divided by, whether a digit was seen, and what follows. *)
Fixpoint mantissa (s : string) (m scale : Z) (dot digits : bool) : Z * Z * bool * string :=
  match s with
  | EmptyString => (m, scale, digits, s)
  | String c s' =>
      if is_digit c then mantissa s' (m * 10 + digitZ c) (if dot then scale + 1 else scale) dot true
      else if Ascii.eqb c "." && negb dot then mantissa s' m scale true digits
      else (m, scale, digits, s)
  end.

(** An exponent is capped as in the library. *)
Fixpoint exponent (s : string) (e : Z) : option Z :=
  match s with
  | EmptyString => Some e
  | String c s' =>
      if is_digit c then exponent s' (if e <? 10000 then e * 10 + digitZ c else e) else None
  end.

Definition signed_rest (s : string) : bool * string :=
  match s with
  | String c s' => if Ascii.eqb c "-" then (true, s') else if Ascii.eqb c "+" then (false, s') else (false, s)
  | EmptyString => (false, s)
  end.

Definition exponent_of (s : string) : option Z :=
  match s with
  | EmptyString => Some 0
  | String c s' =>
      if Ascii.eqb (lower c) "e" then
        let '(neg, digits) := signed_rest s' in
        if String.eqb digits "" then None else (λ e, if neg then - e else e) <$> exponent digits 0
      else None
  end.

Definition ParseFloat (s : string) : option float64 :=
  let '(neg, body) := signed_rest s in
  if String.eqb (ToLower body) "inf" || String.eqb (ToLower body) "infinity" then Some (S754_infinity neg)
  else if String.eqb (ToLower s) "nan" then Some S754_nan
  else
    let '(m, scale, digits, rest) := mantissa body 0 0 false false in
    if negb digits then None
    else match exponent_of rest with
         | None => None
         | Some e =>
             match f64_of_decimal neg m (e - scale) with
             | S754_infinity _ => None
             | f => Some f
             end
         end.

Example ParseFloat_ex :
  ParseFloat "6.006000" = Some (S754_finite false 6762154840496800 (-50))
  ∧ ParseFloat "-.5e1" = Some (f64_of_Z (-5)) ∧ ParseFloat "4.000000" = Some (f64_of_Z 4)
  ∧ ParseFloat "1e400" = None ∧ ParseFloat "" = None ∧ ParseFloat "1.2.3" = None
  ∧ ParseFloat "1e" = None ∧ ParseFloat "-Inf" = Some (S754_infinity true).
Proof. vm_compute. done. Qed.

(** * Exactness of [float64] on integers below 2^53: a whole number survives the
    trip through text, and adding a half and truncating gives it back. *)
(** ** Binary digits *)
Lemma digits2_bounds m : 2 ^ (Z.pos (digits2_pos m) - 1) <= Z.pos m < 2 ^ Z.pos (digits2_pos m).
Proof.
  induction m as [m IH|m IH|]; cbn [digits2_pos]; rewrite ?Pos2Z.inj_succ; [| |done];
    replace (Z.succ (Z.pos (digits2_pos m)) - 1) with (Z.succ (Z.pos (digits2_pos m) - 1)) by lia;
    rewrite !Z.pow_succ_r by lia; lia.
Qed.
Lemma digits2_unique m d : 0 < d → 2 ^ (d - 1) <= Z.pos m < 2 ^ d → Z.pos (digits2_pos m) = d.
Proof.
  intros Hd [H1 H2]. destruct (digits2_bounds m) as [H3 H4].
  assert (d - 1 < Z.pos (digits2_pos m)) by (apply (Z.pow_lt_mono_r_iff 2); lia).
  assert (Z.pos (digits2_pos m) - 1 < d) by (apply (Z.pow_lt_mono_r_iff 2); lia). lia.
Qed.

Lemma iter_xO m d : Z.pos (Pos.iter xO m d) = Z.pos m * 2 ^ Z.pos d.
Proof.
  induction d as [|d IH] using Pos.peano_ind; [simpl; lia|].
  rewrite Pos.iter_succ, Pos2Z.inj_xO, Pos2Z.inj_succ, Z.pow_succ_r by lia. lia.
Qed.

(** Shifting out zeros loses nothing. *)
Lemma iter_pos_iter {A} (f : A → A) n x : SpecFloat.iter_pos f n x = Pos.iter f x n.
Proof.
  revert x. induction n as [n IH|n IH|]; intros x; cbn [SpecFloat.iter_pos Pos.iter]; rewrite ?IH; [|done..].
  by rewrite <- !Pos.iter_swap.
Qed.
Lemma shr_zeros n m : SpecFloat.iter_pos shr_1 n (Build_shr_record (m * 2 ^ Z.pos n) false false) = Build_shr_record m false false.
Proof.
  rewrite iter_pos_iter. revert m. induction n as [|n IH] using Pos.peano_ind; intros m.
  - change (2 ^ Z.pos 1) with 2. rewrite Z.mul_comm. by destruct m.
  - rewrite Pos.iter_succ, Pos2Z.inj_succ, Z.pow_succ_r by lia.
    replace (m * (2 * 2 ^ Z.pos n)) with ((2 * m) * 2 ^ Z.pos n) by lia. rewrite IH. by destruct m.
Qed.

(** ** Numbers of at most 53 bits are exact *)
Definition f64_fin (m e : Z) : float64 :=
  match m with Zpos p => S754_finite false p e | _ => S754_zero false end.

Lemma round_aux_exact m n e d :
  0 <= n → Z.pos (digits2_pos m) = 53 → -1000 <= e + n <= 971 → Z.pos d = Z.pos m * 2 ^ n →
  binary_round_aux 53 1024 false (Z.pos d) e loc_Exact = S754_finite false m (e + n).
Proof.
  intros Hn Hm He Hd. assert (Z.pos (digits2_pos d) = 53 + n) as Hdd.
  { destruct (digits2_bounds m) as [H1 H2]. rewrite Hm in H1, H2. apply digits2_unique; [lia|].
    rewrite Hd. replace (53 + n - 1) with (53 - 1 + n) by lia. rewrite !Z.pow_add_r by lia. nia. }
  unfold binary_round_aux, shr_fexp at 1, fexp, emin. cbn [Zdigits2]. rewrite Hdd.
  replace (Z.max (53 + n + e - 53) (3 - 1024 - 53) - e) with n by lia.
  assert (shr (shr_record_of_loc (Z.pos d) loc_Exact) e n = (Build_shr_record (Z.pos m) false false, e + n)) as ->.
  { unfold shr, shr_record_of_loc. destruct n as [|n|n]; [|by rewrite Hd, shr_zeros|lia].
    rewrite Z.mul_1_r in Hd. injection Hd as ->. by rewrite Z.add_0_r. }
  cbn [shr_m loc_of_shr_record round_nearest_even]. unfold shr_fexp, fexp, emin. cbn [Zdigits2]. rewrite Hm.
  replace (Z.max (53 + (e + n) - 53) (3 - 1024 - 53) - (e + n)) with 0 by lia.
  cbn [shr shr_record_of_loc shr_m]. by destruct (Z.leb_spec (e + n) (1024 - 53)); [|lia].
Qed.

(** A positive number [p * 2^j] with [p] of [b <= 53] bits. *)
Lemma normalize_exact p j e :
  Z.pos (digits2_pos p) <= 53 → 0 <= j → -900 <= e + j <= 900 →
  ∃ m, binary_normalize 53 1024 (Z.pos p * 2 ^ j) e false = S754_finite false m (e + j + Z.pos (digits2_pos p) - 53)
    ∧ Z.pos m = Z.pos p * 2 ^ (53 - Z.pos (digits2_pos p)).
Proof.
  intros Hp Hj He. set (b := Z.pos (digits2_pos p)) in *.
  assert (0 < b) by (unfold b; lia). destruct (digits2_bounds p) as [H1 H2]. fold b in H1, H2.
  assert (0 < Z.pos p * 2 ^ j) by (pose proof (Z.pow_pos_nonneg 2 j); nia).
  assert (0 < Z.pos p * 2 ^ (53 - b)) by (pose proof (Z.pow_pos_nonneg 2 (53 - b)); nia).
  destruct (Z.pos p * 2 ^ j) as [|q|] eqn:Hq; [lia| |lia].
  destruct (Z.pos p * 2 ^ (53 - b)) as [|m|] eqn:Hm; [lia| |lia].
  exists m. split; [|done].
  assert (Z.pos (digits2_pos m) = 53) as Hdm.
  { apply digits2_unique; [lia|]. rewrite <- Hm. split.
    - replace (53 - 1) with ((b - 1) + (53 - b)) by lia. rewrite Z.pow_add_r by lia. nia.
    - replace (2 ^ 53) with (2 ^ b * 2 ^ (53 - b)) by (rewrite <- Z.pow_add_r by lia; f_equal; lia). nia. }
  assert (Z.pos (digits2_pos q) = b + j) as Hdq.
  { apply digits2_unique; [lia|]. rewrite <- Hq. replace (b + j - 1) with (b - 1 + j) by lia.
    rewrite !Z.pow_add_r by lia. nia. }
  cbn [binary_normalize]. unfold binary_round, fexp, emin. rewrite Hdq.
  replace (Z.max (b + j + e - 53) (3 - 1024 - 53)) with (b + j + e - 53) by lia.
  unfold shl_align. replace (b + j + e - 53 - e) with (b + j - 53) by lia.
  destruct (b + j - 53) as [|t|t] eqn:Ht.
  - rewrite (round_aux_exact m 0 e q); [f_equal; lia|lia|done|lia|]. rewrite <- Hq, <- Hm. replace j with (53 - b) by lia. lia.
  - rewrite (round_aux_exact m (Z.pos t) e q); [f_equal; lia|lia|done|lia|].
    rewrite <- Hq, <- Hm, <- Z.mul_assoc, <- Z.pow_add_r by lia. f_equal. f_equal. lia.
  - rewrite (round_aux_exact m 0 (b + j + e - 53) (Pos.iter xO q t)); [f_equal; lia|lia|done|lia|].
    rewrite iter_xO, <- Hq, <- Hm, Z.mul_1_r, <- Z.mul_assoc, <- Z.pow_add_r by lia. f_equal. f_equal. lia.
Qed.

Lemma digits_below p k : 0 < k → Z.pos p < 2 ^ k → Z.pos (digits2_pos p) <= k.
Proof.
  intros Hk Hp. destruct (digits2_bounds p) as [H _].
  assert (Z.pos (digits2_pos p) - 1 < k) by (apply (Z.pow_lt_mono_r_iff 2); lia). lia.
Qed.

(** [float64(n)] *)
Lemma f64_of_Z_exact p : Z.pos p < 2 ^ 53 →
  ∃ m, f64_of_Z (Z.pos p) = S754_finite false m (Z.pos (digits2_pos p) - 53)
    ∧ Z.pos m = Z.pos p * 2 ^ (53 - Z.pos (digits2_pos p)).
Proof.
  intros Hp. apply digits_below in Hp; [|lia].
  destruct (normalize_exact p 0 0 Hp ltac:(lia) ltac:(lia)) as (m & E & Hm). rewrite Z.mul_1_r in E. by exists m.
Qed.

(** [int(float64(n) + 0.5)] *)
Lemma half_up n : 0 <= n < 2 ^ 52 → int_of_f64 (f64_add (f64_of_Z n) f64_0_5) = n.
Proof.
  intros Hn. destruct n as [|p|p]; [by vm_compute| |lia].
  destruct (f64_of_Z_exact p ltac:(lia)) as (m & -> & Hm). pose proof (digits_below p 52 ltac:(lia) ltac:(lia)) as Hd.
  set (b := Z.pos (digits2_pos p)) in *. assert (0 < b) by (unfold b; lia).
  unfold f64_add, f64_0_5, SFadd. replace (Z.min (b - 53) (-53)) with (-53) by lia.
  assert (Z.pos (fst (shl_align m (b - 53) (-53))) = Z.pos p * 2 ^ 53) as E1.
  { unfold shl_align. replace (-53 - (b - 53)) with (Z.neg (digits2_pos p)) by (unfold b; lia). cbn [fst].
    rewrite iter_xO, Hm. fold b. rewrite <- Z.mul_assoc, <- Z.pow_add_r by lia. f_equal. f_equal. lia. }
  change (fst (shl_align 4503599627370496 (-53) (-53))) with 4503599627370496%positive.
  cbn [cond_Zopp]. rewrite E1.
  replace (Z.pos p * 2 ^ 53 + 4503599627370496) with (Z.pos (2 * p + 1) * 2 ^ 52) by lia.
  destruct (normalize_exact (2 * p + 1) 52 (-53)) as (q & -> & Hq); [apply digits_below; lia|lia|lia|].
  set (c := Z.pos (digits2_pos (2 * p + 1))) in *. assert (0 < c) by (unfold c; lia).
  assert (c <= 53) by (apply digits_below; lia).
  unfold int_of_f64. replace (-53 + 52 + c - 53) with (c - 54) by lia.
  destruct (Z.leb_spec 0 (c - 54)); [lia|]. rewrite Hq.
  replace (2 ^ - (c - 54)) with (2 * 2 ^ (53 - c)) by (rewrite <- Z.pow_succ_r by lia; f_equal; lia).
  rewrite Z.div_mul_cancel_r by lia. change (Z.pos (2 * p + 1)) with (2 * Z.pos p + 1).
  symmetry. apply (Z.div_unique _ _ _ 1); lia.
Qed.

(** ** Whole numbers as text *)
Lemma mantissa_digits s acc b : sforall is_digit s = true →
  mantissa s acc 0 false b = (default 0 (digits_val acc s), 0, b || negb (String.eqb s ""), "").
Proof.
  revert acc b. induction s as [|c s IH]; intros acc b; cbn [sforall mantissa digits_val].
  - intros _. by rewrite orb_false_r.
  - intros [Hc Hs]%andb_true_iff. rewrite Hc, (IH _ true Hs). by rewrite orb_true_r.
Qed.

Lemma of_decimal_Z n : 0 <= n → f64_of_decimal false n 0 = f64_of_Z n.
Proof.
  intros Hn. unfold f64_of_decimal, f64_of_Z. destruct (Z.eqb_spec n 0) as [->|]; [done|].
  cbn. by rewrite Z.mul_1_r.
Qed.

Lemma f64_of_Z_not_inf n : 0 <= n < 2 ^ 53 → ∀ b, f64_of_Z n ≠ S754_infinity b.
Proof.
  intros Hn b. destruct n as [|p|p]; [done| |lia]. destruct (f64_of_Z_exact p ltac:(lia)) as (m & -> & _). done.
Qed.

Lemma ParseFloat_Itoa n : 0 <= n < 2 ^ 53 → ParseFloat (Itoa n) = Some (f64_of_Z n).
Proof.
  intros Hn. destruct (pretty_N_digits (Z.to_N n)) as (Hd & Hv & He).
  rewrite <- Itoa_nonneg in Hd, Hv, He by lia. rewrite Z2N.id in Hv by lia.
  unfold ParseFloat. destruct (Itoa n) as [|c s] eqn:E; [done|].
  assert (is_digit c = true) as Hc. { cbn [sforall] in Hd. by apply andb_true_iff in Hd as [? _]. }
  assert (signed_rest (String c s) = (false, String c s)) as ->.
  { unfold signed_rest. destruct (Ascii.eqb_spec c "-") as [->|_]; [done|].
    by destruct (Ascii.eqb_spec c "+") as [->|_]. }
  assert (∀ w, match w with String x _ => is_digit (lower x) = false | EmptyString => False end →
    lower c = c → String.eqb (ToLower (String c s)) w = false) as Hw.
  { intros [|x w] Hx Hlc; [done|]. apply String.eqb_neq. unfold ToLower. cbn [smap]. rewrite Hlc.
    intros [= -> _]. rewrite Hlc in Hx. by rewrite Hx in Hc. }
  assert (lower c = c) as Hl.
  { unfold lower, is_upper. unfold is_digit in Hc. destruct ((65 <=? byteZ c) && (byteZ c <=? 90)) eqn:E2; [|done]. exfalso. breflect. lia. }
  rewrite !Hw by done. cbn [orb]. rewrite mantissa_digits by done. cbn [orb String.eqb negb].
  rewrite Hv. change (default 0 (Some n)) with n. cbn [exponent_of]. rewrite Z.sub_0_r, of_decimal_Z by lia.
  destruct (f64_of_Z n) eqn:Ef; try done. by apply f64_of_Z_not_inf in Ef.
Qed.

Lemma f64_of_Z_nonneg n : 0 <= n < 2 ^ 53 → f64_leb f64_zero (f64_of_Z n) = true.
Proof. intros Hn. destruct n as [|p|p]; [done| |lia]. destruct (f64_of_Z_exact p ltac:(lia)) as (m & -> & _). done. Qed.
