(* ===== verification/SafeHTTP.v ===== *)
(** The outbound connection guard: [internal/safehttp/safehttp.go].

    Every connection to an operator-configured URL is checked by [checkIP]
    after name resolution.  An address is its bytes ([net.IP]: 4 or 16 of
    them); the predicates of package [net] are written out.  Proved: the guard
    is exactly a deny list of networks, and what a policy opens. *)
From S2P Require Import Prelude.

Local Open Scope Z_scope.

(** * Addresses: the part of package [net] the guard uses *)
Abbreviation IP := (list Z).

Definition byte_ok (b : Z) : Prop := 0 <= b < 256.
(** What [net.ParseIP] and a resolver return. *)
Definition ip_ok (ip : IP) : Prop := (length ip = 4%nat ∨ length ip = 16%nat) ∧ Forall byte_ok ip.

Definition v4InV6Prefix : IP := [0; 0; 0; 0; 0; 0; 0; 0; 0; 0; 255; 255].
Definition IPv4 (a b c d : Z) : IP := v4InV6Prefix ++ [a; b; c; d].
Definition IPv6loopback : IP := replicate 15 0 ++ [1].
Definition IPv6unspecified : IP := replicate 16 0.
Definition IPv4zero : IP := IPv4 0 0 0 0.

Definition To4 (ip : IP) : option IP :=
  if bool_decide (length ip = 4%nat) then Some ip
  else if bool_decide (length ip = 16%nat) && bool_decide (take 12 ip = v4InV6Prefix)
  then Some (drop 12 ip) else None.

Definition To16 (ip : IP) : option IP :=
  if bool_decide (length ip = 4%nat) then Some (v4InV6Prefix ++ ip)
  else if bool_decide (length ip = 16%nat) then Some ip else None.

Definition at_ (ip : IP) (i : nat) : Z := nth i ip 0.

(** [IP.Equal]: a 4-byte address equals its mapped form. *)
Definition Equal (ip x : IP) : bool :=
  match To16 ip, To16 x with Some a, Some b => bool_decide (a = b) | _, _ => false end.

Definition IsLoopback (ip : IP) : bool :=
  match To4 ip with Some ip4 => at_ ip4 0 =? 127 | None => Equal ip IPv6loopback end.
Definition IsUnspecified (ip : IP) : bool := Equal ip IPv4zero || Equal ip IPv6unspecified.
Definition IsPrivate (ip : IP) : bool :=
  match To4 ip with
  | Some ip4 =>
      (at_ ip4 0 =? 10) ||
      ((at_ ip4 0 =? 172) && (Z.land (at_ ip4 1) 240 =? 16)) ||
      ((at_ ip4 0 =? 192) && (at_ ip4 1 =? 168))
  | None => bool_decide (length ip = 16%nat) && (Z.land (at_ ip 0) 254 =? 252)
  end.
Definition IsMulticast (ip : IP) : bool :=
  match To4 ip with
  | Some ip4 => Z.land (at_ ip4 0) 240 =? 224
  | None => bool_decide (length ip = 16%nat) && (at_ ip 0 =? 255)
  end.
Definition IsLinkLocalUnicast (ip : IP) : bool :=
  match To4 ip with
  | Some ip4 => (at_ ip4 0 =? 169) && (at_ ip4 1 =? 254)
  | None => bool_decide (length ip = 16%nat) && (at_ ip 0 =? 254) && (Z.land (at_ ip 1) 192 =? 128)
  end.
Definition IsLinkLocalMulticast (ip : IP) : bool :=
  match To4 ip with
  | Some ip4 => (at_ ip4 0 =? 224) && (at_ ip4 1 =? 0) && (at_ ip4 2 =? 0)
  | None => bool_decide (length ip = 16%nat) && (at_ ip 0 =? 255) && (Z.land (at_ ip 1) 15 =? 2)
  end.

(** [net.IPNet]: a network number and a mask of the same length. *)
Record IPNet := mkNet { NetIP : IP; NetMask : IP }.

Fixpoint masked_eq (nn m ip : IP) : bool :=
  match nn, m, ip with
  | n :: nn', k :: m', b :: ip' => (Z.land n k =? Z.land b k) && masked_eq nn' m' ip'
  | _, _, _ => true
  end.
Definition Contains (n : IPNet) (ip : IP) : bool :=
  let ip := match To4 ip with Some x => x | None => ip end in
  bool_decide (length ip = length (NetIP n)) && masked_eq (NetIP n) (NetMask n) ip.

(** A prefix of [bits] bits, as [net.ParseCIDR] makes it: the mask's bytes. *)
Fixpoint mask_bytes (n : nat) (bits : Z) : IP :=
  match n with
  | O => []
  | S n' =>
      (if 8 <=? bits then 255 else if bits <=? 0 then 0 else 256 - 2 ^ (8 - bits))
      :: mask_bytes n' (bits - 8)
  end.
Definition cidr (ip : IP) (bits : Z) : IPNet := mkNet ip (mask_bytes (length ip) bits).

(** * The guard *)
Record DialPolicy := mkPolicy {
  AllowPrivate : bool; AllowLoopback : bool; AllowLinkLocal : bool
}.
(** The zero value, and [LocalDevice]'s. *)
Definition public_only : DialPolicy := mkPolicy false false false.
Definition local_device : DialPolicy := mkPolicy true true true.

Inductive Blocked :=
  | BlockedLoopback | BlockedLinkLocal | BlockedPrivate | BlockedCGNAT
  | BlockedUnspecified | BlockedMulticast | BlockedMalformed | BlockedUnresolved.

Definition cgnatNet : IPNet := cidr [100; 64; 0; 0] 10.
Definition isCGNAT (ip : IP) : bool :=
  match To4 ip with Some v4 => Contains cgnatNet v4 | None => false end.

Definition nat64Net : IPNet := cidr ([0; 100; 255; 155] ++ replicate 12 0) 96.
Definition sixToFour : IPNet := cidr ([32; 2] ++ replicate 14 0) 16.

Definition embeddedV4 (ip : IP) : option IP :=
  match To4 ip with
  | Some _ => None
  | None =>
      match To16 ip with
      | None => None
      | Some v16 =>
          if Contains nat64Net ip
          then Some (IPv4 (at_ v16 12) (at_ v16 13) (at_ v16 14) (at_ v16 15))
          else if Contains sixToFour ip
          then Some (IPv4 (at_ v16 2) (at_ v16 3) (at_ v16 4) (at_ v16 5))
          else None
      end
  end.

(** The classification of one address: [Some v] is its case of the switch. *)
Definition classify (p : DialPolicy) (ip : IP) : option (option Blocked) :=
  if IsLoopback ip then Some (if AllowLoopback p then None else Some BlockedLoopback)
  else if IsLinkLocalUnicast ip || IsLinkLocalMulticast ip
  then Some (if AllowLinkLocal p then None else Some BlockedLinkLocal)
  else if IsPrivate ip then Some (if AllowPrivate p then None else Some BlockedPrivate)
  else if isCGNAT ip then Some (if AllowPrivate p then None else Some BlockedCGNAT)
  else if IsUnspecified ip then Some (Some BlockedUnspecified)
  else if IsMulticast ip then Some (Some BlockedMulticast)
  else None.

(** [checkIP] recurses on the embedded address; [fuel] counts the calls. *)
Fixpoint checkIP_fuel (fuel : nat) (p : DialPolicy) (ip : IP) : option (option Blocked) :=
  match fuel with
  | O => None
  | S fuel' =>
      match classify p ip with
      | Some verdict => Some verdict
      | None =>
          match embeddedV4 ip with
          | Some inner => checkIP_fuel fuel' p inner
          | None => Some None
          end
      end
  end.

(** [None] lets the connection through. *)
Definition checkIP (p : DialPolicy) (ip : IP) : option Blocked :=
  match checkIP_fuel 2 p ip with Some v => v | None => Some BlockedMalformed end.

(** [checkAddress] after [net.SplitHostPort] and [net.ParseIP]: a malformed
    address, a host that is no address, or the address dialled. *)
Inductive Address := Malformed | Unresolved | Resolved (ip : IP).
Definition checkAddress (p : DialPolicy) (a : Address) : option Blocked :=
  match a with
  | Malformed => Some BlockedMalformed
  | Unresolved => Some BlockedUnresolved
  | Resolved ip => checkIP p ip
  end.

Definition IsBlocked (ip : IP) : bool :=
  match checkIP public_only ip with Some _ => true | None => false end.

(** * The deny list *)
Definition v4_nets : list IPNet :=
  [cidr [127; 0; 0; 0] 8; cidr [169; 254; 0; 0] 16; cidr [10; 0; 0; 0] 8;
   cidr [172; 16; 0; 0] 12; cidr [192; 168; 0; 0] 16; cidr [100; 64; 0; 0] 10;
   cidr [0; 0; 0; 0] 32; cidr [224; 0; 0; 0] 4].

Definition v6_nets : list IPNet :=
  [cidr IPv6loopback 128; cidr IPv6unspecified 128;
   cidr ([252] ++ replicate 15 0) 7; cidr ([254; 128] ++ replicate 14 0) 10;
   cidr ([255] ++ replicate 15 0) 8].

(** The IPv6 networks that tunnel to an IPv4 network. *)
Definition nat64_of (n : IPNet) : IPNet :=
  mkNet ([0; 100; 255; 155] ++ replicate 8 0 ++ NetIP n) (mask_bytes 12 96 ++ NetMask n).
Definition sixToFour_of (n : IPNet) : IPNet :=
  mkNet ([32; 2] ++ NetIP n ++ replicate 10 0) (mask_bytes 2 16 ++ NetMask n ++ mask_bytes 10 0).

Definition deny_list : list IPNet :=
  v4_nets ++ v6_nets ++ (nat64_of <$> v4_nets) ++ (sixToFour_of <$> v4_nets).

Definition denied (nets : list IPNet) (ip : IP) : bool := existsb (λ n, Contains n ip) nets.

Example guard_examples :
  IsBlocked (IPv4 169 254 169 254) = true ∧ IsBlocked (IPv4 8 8 8 8) = false ∧
  IsBlocked ([0; 100; 255; 155; 0; 0; 0; 0; 0; 0; 0; 0; 10; 0; 0; 1]) = true ∧
  denied deny_list ([0; 100; 255; 155; 0; 0; 0; 0; 0; 0; 0; 0; 10; 0; 0; 1]) = true.
Proof. vm_compute. repeat split. Qed.

(** * Proofs *)
Lemma land_255 (b : Z) : byte_ok b → Z.land b 255 = b.
Proof.
  intros H. change 255 with (Z.ones 8). rewrite Z.land_ones by done. apply Z.mod_small. exact H.
Qed.
Lemma land_0 (b : Z) : Z.land b 0 = 0.
Proof. apply Z.land_0_r. Qed.

(** Everything the switch refuses under the public-only policy. *)
Definition refused (ip : IP) : bool :=
  IsLoopback ip || (IsLinkLocalUnicast ip || IsLinkLocalMulticast ip) || IsPrivate ip
  || isCGNAT ip || IsUnspecified ip || IsMulticast ip.

Lemma classify_refused (ip : IP) :
  match classify public_only ip with
  | Some (Some _) => refused ip = true
  | Some None => False
  | None => refused ip = false
  end.
Proof.
  unfold classify, refused, public_only. cbn [AllowLoopback AllowPrivate AllowLinkLocal].
  destruct (IsLoopback ip); [done|].
  destruct (IsLinkLocalUnicast ip || IsLinkLocalMulticast ip); [done|].
  destruct (IsPrivate ip); [done|]. destruct (isCGNAT ip); [done|].
  destruct (IsUnspecified ip); [done|]. by destruct (IsMulticast ip).
Qed.

Lemma To4_IPv4 (a b c d : Z) : To4 (IPv4 a b c d) = Some [a; b; c; d].
Proof. reflexivity. Qed.

Lemma embedded_is_v4 (ip inner : IP) : embeddedV4 ip = Some inner → ∃ a b c d, inner = IPv4 a b c d.
Proof.
  unfold embeddedV4. destruct (To4 ip); [done|]. destruct (To16 ip); [|done].
  destruct (Contains nat64Net ip); [intros [= <-]; by eexists _, _, _, _|].
  destruct (Contains sixToFour ip); [intros [= <-]; by eexists _, _, _, _|done].
Qed.

(** Two calls are enough: an embedded address embeds nothing. *)
Lemma checkIP_fuel_enough (p : DialPolicy) (ip : IP) (n : nat) :
  checkIP_fuel (S (S n)) p ip = Some (checkIP p ip).
Proof.
  unfold checkIP. cbn [checkIP_fuel]. destruct (classify p ip); [done|].
  destruct (embeddedV4 ip) as [inner|] eqn:E; [|done].
  apply embedded_is_v4 in E as (a & b & c & d & ->).
  destruct (classify p (IPv4 a b c d)); [done|].
  by rewrite (eq_refl : embeddedV4 (IPv4 a b c d) = None).
Qed.

Lemma IsBlocked_refused (ip : IP) :
  IsBlocked ip = refused ip || match embeddedV4 ip with Some inner => refused inner | None => false end.
Proof.
  unfold IsBlocked, checkIP. cbn [checkIP_fuel]. pose proof (classify_refused ip) as H.
  destruct (classify public_only ip) as [[v|]|]; [by rewrite H|done|]. rewrite H.
  destruct (embeddedV4 ip) as [inner|] eqn:E; [|done].
  apply embedded_is_v4 in E as (a & b & c & d & ->).
  pose proof (classify_refused (IPv4 a b c d)) as H'.
  destruct (classify public_only (IPv4 a b c d)) as [[v|]|]; [by rewrite H'|done|].
  by rewrite (eq_refl : embeddedV4 (IPv4 a b c d) = None), H'.
Qed.

(** ** IPv4 *)
Definition v4_test (a b c d : Z) : bool :=
  (a =? 127) || ((a =? 169) && (b =? 254)) || (a =? 10) ||
  ((a =? 172) && (Z.land b 240 =? 16)) || ((a =? 192) && (b =? 168)) ||
  ((a =? 100) && (Z.land b 192 =? 64)) || ((a =? 0) && (b =? 0) && (c =? 0) && (d =? 0)) ||
  (Z.land a 240 =? 224).

(** Evaluates [Z.land] of literals. *)
Ltac land_literals :=
  repeat match goal with
         | |- context [Z.land ?x ?y] =>
             lazymatch x with Z0 => idtac | Zpos _ => idtac end;
             let v := eval vm_compute in (Z.land x y) in change (Z.land x y) with v
         end.

Lemma Contains_4 (n1 n2 n3 n4 m1 m2 m3 m4 a b c d : Z) :
  Contains (mkNet [n1; n2; n3; n4] [m1; m2; m3; m4]) [a; b; c; d] =
  (Z.land n1 m1 =? Z.land a m1) && ((Z.land n2 m2 =? Z.land b m2) &&
  ((Z.land n3 m3 =? Z.land c m3) && ((Z.land n4 m4 =? Z.land d m4) && true))).
Proof. reflexivity. Qed.

Lemma v4_nets_eq : v4_nets =
  [mkNet [127; 0; 0; 0] [255; 0; 0; 0]; mkNet [169; 254; 0; 0] [255; 255; 0; 0];
   mkNet [10; 0; 0; 0] [255; 0; 0; 0]; mkNet [172; 16; 0; 0] [255; 240; 0; 0];
   mkNet [192; 168; 0; 0] [255; 255; 0; 0]; mkNet [100; 64; 0; 0] [255; 192; 0; 0];
   mkNet [0; 0; 0; 0] [255; 255; 255; 255]; mkNet [224; 0; 0; 0] [240; 0; 0; 0]].
Proof. reflexivity. Qed.

Lemma denied_v4 (a b c d : Z) : Forall byte_ok [a; b; c; d] →
  denied v4_nets [a; b; c; d] = v4_test a b c d.
Proof.
  intros H. rewrite !Forall_cons in H. destruct H as (Ha & Hb & Hc & Hd & _).
  unfold denied, v4_test. rewrite v4_nets_eq. cbn [existsb]. rewrite !Contains_4.
  rewrite !(land_255 a), !(land_255 b), !(land_255 c), !(land_255 d), !land_0 by done.
  land_literals. rewrite !(Z.eqb_sym _ a), !(Z.eqb_sym _ b), !(Z.eqb_sym _ c), !(Z.eqb_sym _ d).
  rewrite !(Z.eqb_sym _ (Z.land a _)), !(Z.eqb_sym _ (Z.land b _)).
  change (0 =? 0) with true. rewrite !andb_true_r, !orb_false_r, !orb_assoc, !andb_assoc. done.
Qed.

Lemma refused_v4 (a b c d : Z) : Forall byte_ok [a; b; c; d] →
  refused [a; b; c; d] = v4_test a b c d.
Proof.
  intros H. rewrite !Forall_cons in H. destruct H as (Ha & Hb & Hc & Hd & _).
  unfold refused, v4_test.
  assert (isCGNAT [a; b; c; d] = (a =? 100) && (Z.land b 192 =? 64)) as ->.
  { change (isCGNAT [a; b; c; d]) with (Contains (mkNet [100; 64; 0; 0] [255; 192; 0; 0]) [a; b; c; d]).
    rewrite Contains_4, !land_255, !land_0 by done. land_literals.
    rewrite andb_true_r, (Z.eqb_sym a), (Z.eqb_sym (Z.land b _)). done. }
  assert (IsUnspecified [a; b; c; d] = (a =? 0) && (b =? 0) && (c =? 0) && (d =? 0)) as ->.
  { change (IsUnspecified [a; b; c; d]) with
      (bool_decide (IPv4 a b c d = IPv4zero) || bool_decide (IPv4 a b c d = IPv6unspecified)).
    unfold IPv4zero, IPv6unspecified, IPv4, v4InV6Prefix. cbn [app replicate].
    destruct (Z.eqb_spec a 0), (Z.eqb_spec b 0), (Z.eqb_spec c 0), (Z.eqb_spec d 0); cbn; subst;
      repeat case_bool_decide; try done; simplify_eq. }
  change (IsLoopback [a; b; c; d]) with (a =? 127).
  change (IsLinkLocalUnicast [a; b; c; d]) with ((a =? 169) && (b =? 254)).
  change (IsLinkLocalMulticast [a; b; c; d]) with ((a =? 224) && (b =? 0) && (c =? 0)).
  change (IsPrivate [a; b; c; d]) with ((a =? 10) || ((a =? 172) && (Z.land b 240 =? 16)) || ((a =? 192) && (b =? 168))).
  change (IsMulticast [a; b; c; d]) with (Z.land a 240 =? 224).
  destruct (Z.eqb_spec a 224) as [->|Hne].
  - change (Z.land 224 240 =? 224) with true. by rewrite !orb_true_r.
  - cbn [andb]. rewrite orb_false_r, !orb_assoc. done.
Qed.

(** ** The mapped form *)
Lemma refused_mapped (a b c d : Z) : refused (IPv4 a b c d) = refused [a; b; c; d].
Proof. reflexivity. Qed.

Lemma denied_mapped (nets : list IPNet) (a b c d : Z) :
  denied nets (IPv4 a b c d) = denied nets [a; b; c; d].
Proof. reflexivity. Qed.

(** ** IPv6 *)
Lemma denied_app (l k : list IPNet) (ip : IP) : denied (l ++ k) ip = denied l ip || denied k ip.
Proof. apply existsb_app. Qed.

Lemma Contains_length (n : IPNet) (ip : IP) :
  To4 ip = None → length ip ≠ length (NetIP n) → Contains n ip = false.
Proof. intros H Hl. unfold Contains. rewrite H. by rewrite bool_decide_eq_false_2. Qed.

Lemma Contains_v4_length (n : IPNet) (a b c d : Z) :
  length (NetIP n) ≠ 4%nat → Contains n [a; b; c; d] = false.
Proof.
  intros H. unfold Contains. change (To4 [a; b; c; d]) with (Some [a; b; c; d]). cbn [length].
  rewrite bool_decide_eq_false_2 by congruence. done.
Qed.

Lemma denied_none (nets : list IPNet) (ip : IP) :
  Forall (λ n, Contains n ip = false) nets → denied nets ip = false.
Proof.
  induction 1 as [|n nets Hn _ IH]; [done|]. unfold denied in *. cbn [existsb]. by rewrite Hn.
Qed.

Lemma masked_eq_app (n1 n2 m1 m2 b1 b2 : IP) :
  length n1 = length m1 → length m1 = length b1 →
  masked_eq (n1 ++ n2) (m1 ++ m2) (b1 ++ b2) = masked_eq n1 m1 b1 && masked_eq n2 m2 b2.
Proof.
  revert m1 b1. induction n1 as [|n n1 IH]; intros [|k m1] [|b b1] H1 H2; try done.
  cbn [masked_eq app]. rewrite IH by (simpl in *; lia). by rewrite andb_assoc.
Qed.

Lemma masked_eq_zero (n m b : IP) : Forall (λ k, k = 0) m → masked_eq n m b = true.
Proof.
  intros Hm. revert n b. induction Hm as [|k m -> _ IH]; intros [|x n] [|y b]; try done.
  cbn [masked_eq]. by rewrite !land_0, IH.
Qed.

Section V6.
Context (b0 b1 b2 b3 b4 b5 b6 b7 b8 b9 b10 b11 b12 b13 b14 b15 : Z).
Let ip := [b0; b1; b2; b3; b4; b5; b6; b7; b8; b9; b10; b11; b12; b13; b14; b15].
Hypothesis Hb : Forall byte_ok ip.
Hypothesis H4 : To4 ip = None.

Lemma Contains_v6 (nn m : IP) : length nn = 16%nat → Contains (mkNet nn m) ip = masked_eq nn m ip.
Proof using H4.
  intros Hl. unfold Contains. rewrite H4. cbn [NetIP NetMask]. rewrite Hl.
  by rewrite bool_decide_eq_true_2.
Qed.

Lemma denied_nat64 (nets : list IPNet) : Forall (λ n, length (NetIP n) = 4%nat) nets →
  denied (nat64_of <$> nets) ip = Contains nat64Net ip && denied nets [b12; b13; b14; b15].
Proof using Hb H4.
  intros Hn. induction Hn as [|[nn m] nets Hl _ IH]; [by rewrite andb_false_r|].
  unfold denied in *. cbn [fmap list_fmap existsb].
  change (list_fmap IPNet IPNet nat64_of nets) with (nat64_of <$> nets).
  rewrite IH, andb_orb_distrib_r. f_equal. cbn [NetIP] in Hl.
  unfold nat64_of, nat64Net, cidr. cbn [NetIP NetMask].
  rewrite !Contains_v6 by (rewrite ?length_app; simpl; rewrite ?Hl; done).
  change ip with ([b0; b1; b2; b3; b4; b5; b6; b7; b8; b9; b10; b11] ++ [b12; b13; b14; b15]).
  change ([0; 100; 255; 155] ++ replicate 8 0 ++ nn) with (([0; 100; 255; 155] ++ replicate 8 0) ++ nn).
  rewrite masked_eq_app by done.
  change ([0; 100; 255; 155] ++ replicate 12 0) with (([0; 100; 255; 155] ++ replicate 8 0) ++ replicate 4 0).
  change (mask_bytes _ 96) with (mask_bytes 12 96 ++ replicate 4 0) at 2.
  rewrite masked_eq_app by done.
  rewrite (masked_eq_zero (replicate 4 0)) by (repeat constructor). rewrite andb_true_r. f_equal.
  unfold Contains. change (To4 [b12; b13; b14; b15]) with (Some [b12; b13; b14; b15]).
  cbn [NetIP NetMask length]. by rewrite bool_decide_eq_true_2.
Qed.

Lemma denied_6to4 (nets : list IPNet) :
  Forall (λ n, length (NetIP n) = 4%nat ∧ length (NetMask n) = 4%nat) nets →
  denied (sixToFour_of <$> nets) ip = Contains sixToFour ip && denied nets [b2; b3; b4; b5].
Proof using Hb H4.
  intros Hn. induction Hn as [|[nn m] nets [Hl Hlm] _ IH]; [by rewrite andb_false_r|].
  unfold denied in *. cbn [fmap list_fmap existsb].
  change (list_fmap IPNet IPNet sixToFour_of nets) with (sixToFour_of <$> nets).
  rewrite IH, andb_orb_distrib_r. f_equal. cbn [NetIP NetMask] in Hl, Hlm.
  unfold sixToFour_of, sixToFour, cidr. cbn [NetIP NetMask].
  rewrite !Contains_v6 by (rewrite ?length_app; simpl; rewrite ?length_app; simpl; rewrite ?Hl; done).
  change ip with ([b0; b1] ++ [b2; b3; b4; b5] ++ [b6; b7; b8; b9; b10; b11; b12; b13; b14; b15]).
  rewrite masked_eq_app by done. rewrite masked_eq_app by (simpl; lia).
  rewrite (masked_eq_zero (replicate 10 0)) by (repeat constructor).
  change (mask_bytes _ 16) with (mask_bytes 2 16 ++ replicate 14 0) at 2.
  rewrite masked_eq_app by done.
  rewrite (masked_eq_zero (replicate 14 0)) by (repeat constructor). rewrite !andb_true_r. f_equal.
  unfold Contains. change (To4 [b2; b3; b4; b5]) with (Some [b2; b3; b4; b5]).
  cbn [NetIP NetMask length]. by rewrite Hl, bool_decide_eq_true_2.
Qed.
End V6.

Lemma masked_eq_full (nn b : IP) : Forall byte_ok nn → Forall byte_ok b → length nn = length b →
  masked_eq nn (replicate (length nn) 255) b = bool_decide (b = nn).
Proof.
  intros Hn. revert b. induction Hn as [|n nn Hn _ IH]; intros [|x b] Hb Hl; try done.
  apply Forall_cons in Hb as [Hx Hb]. cbn [length replicate masked_eq].
  rewrite !land_255, IH by (done || (simpl in Hl; lia)).
  destruct (Z.eqb_spec n x) as [->|Hne]; cbn [andb].
  - apply bool_decide_ext. naive_solver.
  - symmetry. apply bool_decide_eq_false_2. naive_solver.
Qed.

Section V6Direct.
Context (b0 b1 b2 b3 b4 b5 b6 b7 b8 b9 b10 b11 b12 b13 b14 b15 : Z).
Let ip := [b0; b1; b2; b3; b4; b5; b6; b7; b8; b9; b10; b11; b12; b13; b14; b15].
Hypothesis Hb : Forall byte_ok ip.
Hypothesis H4 : To4 ip = None.

Lemma Equal_v6 (x : IP) : length x = 16%nat → Equal ip x = bool_decide (ip = x).
Proof using Type.
  intros Hl. unfold Equal, To16. change (length ip) with 16%nat. rewrite Hl.
  by rewrite (bool_decide_eq_false_2 (16 = 4)%nat), bool_decide_eq_true_2.
Qed.

Lemma Contains_host (x : IP) : length x = 16%nat → Forall byte_ok x →
  Contains (cidr x 128) ip = bool_decide (ip = x).
Proof using Hb H4.
  intros Hl Hx. unfold cidr. rewrite Hl. change (mask_bytes 16 128) with (replicate 16 255).
  rewrite (Contains_v6 b0 b1 b2 b3 b4 b5 b6 b7 b8 b9 b10 b11 b12 b13 b14 b15 H4) by done.
  fold ip. rewrite <- Hl. apply masked_eq_full; done.
Qed.

Lemma refused_v6 : refused ip = denied v6_nets ip.
Proof using Hb H4.
  unfold refused, denied, v6_nets. cbn [existsb].
  rewrite !Contains_host by (done || (repeat constructor; done)).
  unfold IsLoopback, IsUnspecified, IsLinkLocalUnicast, IsLinkLocalMulticast, IsPrivate, IsMulticast, isCGNAT.
  rewrite H4, !Equal_v6 by done.
  assert (ip ≠ IPv4zero) as Hz.
  { intros E. rewrite E in H4. vm_compute in H4. done. }
  rewrite (bool_decide_eq_false_2 _ Hz). change (length ip) with 16%nat.
  rewrite !(bool_decide_eq_true_2 (16 = 16)%nat) by done.
  pose proof Hb as Hb'. unfold ip in Hb'. rewrite !Forall_cons in Hb'. destruct Hb' as (Hb0 & Hb1 & _).
  change (at_ ip 0) with b0. change (at_ ip 1) with b1.
  assert (Contains (cidr ([252] ++ replicate 15 0) 7) ip = (Z.land b0 254 =? 252)) as ->.
  { unfold cidr. rewrite (Contains_v6 b0 b1 b2 b3 b4 b5 b6 b7 b8 b9 b10 b11 b12 b13 b14 b15 H4) by done.
    change (mask_bytes _ 7) with (254 :: replicate 15 0). cbn [masked_eq app].
    rewrite masked_eq_zero by (repeat constructor). land_literals. rewrite andb_true_r. apply Z.eqb_sym. }
  assert (Contains (cidr ([254; 128] ++ replicate 14 0) 10) ip = (b0 =? 254) && (Z.land b1 192 =? 128)) as ->.
  { unfold cidr. rewrite (Contains_v6 b0 b1 b2 b3 b4 b5 b6 b7 b8 b9 b10 b11 b12 b13 b14 b15 H4) by done.
    change (mask_bytes _ 10) with (255 :: 192 :: replicate 14 0). cbn [masked_eq app].
    rewrite masked_eq_zero, (land_255 b0) by (done || (repeat constructor)). land_literals.
    by rewrite andb_true_r, (Z.eqb_sym 254), (Z.eqb_sym 128). }
  assert (Contains (cidr ([255] ++ replicate 15 0) 8) ip = (b0 =? 255)) as ->.
  { unfold cidr. rewrite (Contains_v6 b0 b1 b2 b3 b4 b5 b6 b7 b8 b9 b10 b11 b12 b13 b14 b15 H4) by done.
    change (mask_bytes _ 8) with (255 :: replicate 15 0). cbn [masked_eq app].
    rewrite masked_eq_zero, (land_255 b0) by (done || (repeat constructor)). land_literals.
    by rewrite andb_true_r, (Z.eqb_sym 255). }
  cbn [andb orb]. destruct (bool_decide (ip = IPv6loopback)); [done|].
  destruct (bool_decide (ip = IPv6unspecified)); cbn [orb]; [by rewrite !orb_true_r|].
  destruct ((b0 =? 254) && (Z.land b1 192 =? 128)); cbn [orb]; [by rewrite orb_true_r|].
  destruct (Z.land b0 254 =? 252); cbn [orb]; [by rewrite !orb_true_r|].
  destruct (b0 =? 255); [by rewrite !orb_true_r|]. done.
Qed.
End V6Direct.

Lemma nets_wf : Forall (λ n, length (NetIP n) = 4%nat ∧ length (NetMask n) = 4%nat) v4_nets.
Proof. repeat constructor. Qed.

Lemma wide_nets : Forall (λ n, length (NetIP n) = 16%nat) (v6_nets ++ (nat64_of <$> v4_nets) ++ (sixToFour_of <$> v4_nets)).
Proof. repeat constructor. Qed.

Lemma guard_v4 (a b c d : Z) : Forall byte_ok [a; b; c; d] →
  IsBlocked [a; b; c; d] = denied deny_list [a; b; c; d].
Proof.
  intros H. rewrite IsBlocked_refused. change (embeddedV4 [a; b; c; d]) with (@None IP).
  rewrite orb_false_r, refused_v4, <- denied_v4 by done. unfold deny_list. rewrite denied_app.
  rewrite (denied_none (v6_nets ++ _)); [by rewrite orb_false_r|].
  eapply Forall_impl; [exact wide_nets|]. intros n Hn. apply Contains_v4_length. cbn in Hn. lia.
Qed.

Lemma refused_embedded (a b c d : Z) : Forall byte_ok [a; b; c; d] →
  refused (IPv4 a b c d) = denied v4_nets [a; b; c; d].
Proof. intros H. by rewrite refused_mapped, refused_v4, denied_v4. Qed.

Lemma bytes4 (a b c d : Z) :
  byte_ok a → byte_ok b → byte_ok c → byte_ok d → Forall byte_ok [a; b; c; d].
Proof. intros. rewrite !Forall_cons. split_and!; try done. Qed.

Lemma guard_v6 (ip : IP) : length ip = 16%nat → Forall byte_ok ip → To4 ip = None →
  IsBlocked ip = denied deny_list ip.
Proof.
  intros Hl Hb H4. do 16 (destruct ip as [|? ip]; [done|]). destruct ip; [|done].
  rewrite IsBlocked_refused, refused_v6 by done. unfold deny_list. rewrite !denied_app.
  rewrite (denied_none v4_nets).
  2: { eapply Forall_impl; [exact nets_wf|]. intros n [Hn _]. apply Contains_length; [done|].
       rewrite Hn. done. }
  cbn [orb]. f_equal. rewrite denied_nat64, denied_6to4 by
    (done || (eapply Forall_impl; [exact nets_wf|]; intros ? [? ?]; done)).
  unfold embeddedV4. rewrite H4.
  lazymatch goal with |- context [To16 ?l] => change (To16 l) with (Some l) end.
  unfold at_. cbn [nth].
  rewrite !Forall_cons in Hb. destruct Hb as (? & ? & ? & ? & ? & ? & ? & ? & ? & ? & ? & ? & ? & ? & ? & ? & _).
  destruct (Contains nat64Net _) eqn:E1.
  - rewrite refused_embedded by (by apply bytes4). cbn [andb].
    destruct (Contains sixToFour _) eqn:E2; [exfalso|by rewrite orb_false_r].
    unfold nat64Net, sixToFour, cidr in E1, E2. rewrite Contains_v6 in E1, E2 by done.
    change (mask_bytes _ 96) with (255 :: mask_bytes 15 88) in E1.
    change (mask_bytes _ 16) with (255 :: mask_bytes 15 8) in E2.
    cbn [masked_eq app] in E1, E2. rewrite land_255 in E1, E2 by done. breflect.
    destruct E1 as [E1 _]. destruct E2 as [E2 _]. rewrite land_255 in E1, E2 by done. congruence.
  - cbn [andb orb]. destruct (Contains sixToFour _); [|done].
    by rewrite refused_embedded by (by apply bytes4).
Qed.

(** C18: The outbound guard is exactly a deny list: an address a resolver can
    return is refused under the public-only policy just when it lies in one of
    the listed networks: loopback, link-local, private, carrier-grade NAT,
    unspecified, multicast, and the NAT64 and 6to4 images of the IPv4 ones; so
    no tunnelled form of a refused address gets through. *)
Theorem guard_is_deny_list (ip : IP) (Hip : ip_ok ip) : IsBlocked ip = denied deny_list ip.
Proof.
  destruct Hip as [[Hl|Hl] Hb].
  - do 4 (destruct ip as [|? ip]; [done|]). destruct ip; [|done]. by apply guard_v4.
  - destruct (To4 ip) as [ip4|] eqn:E; [|by apply guard_v6].
    unfold To4 in E. rewrite Hl in E. cbn in E.
    destruct (bool_decide (take 12 ip = v4InV6Prefix)) eqn:Ep; [|done].
    apply bool_decide_eq_true in Ep. pose proof (take_drop 12 ip) as Htd. rewrite Ep in Htd.
    assert (length (drop 12 ip) = 4%nat) as Hd by (rewrite length_drop; lia).
    assert (Forall byte_ok (drop 12 ip)) as Hbd by (by apply Forall_drop).
    rewrite <- Htd. clear -Hd Hbd. destruct (drop 12 ip) as [|a [|b [|c [|d [|]]]]]; try done.
    change (v4InV6Prefix ++ [a; b; c; d]) with (IPv4 a b c d).
    rewrite denied_mapped. rewrite <- guard_v4 by done. reflexivity.
Qed.

Lemma guard_is_deny_list_witness :
  IsBlocked [32; 2; 127; 0; 0; 1; 0; 0; 0; 0; 0; 0; 0; 0; 0; 1] =
  denied deny_list [32; 2; 127; 0; 0; 1; 0; 0; 0; 0; 0; 0; 0; 0; 0; 1].
Proof.
  apply guard_is_deny_list. split; [right; reflexivity|].
  repeat constructor; vm_compute; try discriminate; reflexivity.
Defined.
