(* ===== verification/GoIP.v ===== *)
(** IP addresses as text: the parts of Go's [net] and [net/netip] the modelled
    code parses and prints addresses with.  The bytes of an address and their
    predicates are in [SafeHTTP].  Proved: parsing undoes printing. *)
From S2P Require Import Prelude.
From S2P Require Import GoStrings.
From S2P Require Import GoBytes.
From S2P Require Import SafeHTTP.

Local Open Scope Z_scope.

Definition dot : ascii := chr 46.
Definition colon : ascii := chr 58.
Definition percent : ascii := chr 37.

(** * Parsing *)
(** [parseIPv4Fields]: the bytes left, the byte before them, the value and the
    digits of the octet under way, the octets done. *)
Fixpoint v4_go (s : string) (prev : option ascii) (val digLen : Z) (fields : list Z) : option (list Z) :=
  match s with
  | EmptyString => if (length fields <? 3)%nat then None else Some (fields ++ [val])
  | String c s' =>
      if is_digit c then
        if (digLen =? 1) && (val =? 0) then None
        else
          let val := val * 10 + digitZ c in
          if 255 <? val then None else v4_go s' (Some c) val (digLen + 1) fields
      else if Ascii.eqb c dot then
        if bool_decide (prev = None) || bool_decide (prev = Some dot) || String.eqb s' "" then None
        else if (length fields =? 3)%nat then None
        else v4_go s' (Some c) 0 0 (fields ++ [val])
      else None
  end.
Definition parseIPv4 (s : string) : option IP := v4_go s None 0 0 [].

Definition hexval (c : ascii) : option Z :=
  if is_digit c then Some (digitZ c)
  else if (97 <=? byteZ c) && (byteZ c <=? 102) then Some (byteZ c - 87)
  else if (65 <=? byteZ c) && (byteZ c <=? 70) then Some (byteZ c - 55)
  else None.

(** One group: how many digits, their value, the rest. *)
Fixpoint hex_run (s : string) (off acc : Z) : option (Z * Z * string) :=
  match s with
  | String c s' =>
      match hexval c with
      | Some d =>
          let acc := acc * 16 + d in
          if (3 <? off) || (65535 <? acc) then None else hex_run s' (off + 1) acc
      | None => Some (off, acc, s)
      end
  | EmptyString => Some (off, acc, s)
  end.

(** The loop of [parseIPv6]; [room] is how many groups still fit. *)
Fixpoint v6_loop (room : nat) (s : string) (ip : list Z) (ellipsis : option nat) : option (list Z * option nat * string) :=
  match room with
  | O => Some (ip, ellipsis, s)
  | S room =>
      match hex_run s 0 0 with
      | None => None
      | Some (off, acc, rest) =>
          if off =? 0 then None
          else match rest with
          | EmptyString => Some (ip ++ [acc / 256; acc mod 256], ellipsis, "")
          | String c rest' =>
              if Ascii.eqb c dot then
                if bool_decide (ellipsis = None) && negb (length ip =? 12)%nat then None
                else if (16 <? length ip + 4)%nat then None
                else match parseIPv4 s with None => None | Some q => Some (ip ++ q, ellipsis, "") end
              else
                let ip := ip ++ [acc / 256; acc mod 256] in
                if negb (Ascii.eqb c colon) then None
                else match rest' with
                | EmptyString => None
                | String c2 rest2 =>
                    if Ascii.eqb c2 colon then
                      if bool_decide (ellipsis ≠ None) then None
                      else if String.eqb rest2 "" then Some (ip, Some (length ip), "")
                      else v6_loop room rest2 ip (Some (length ip))
                    else v6_loop room rest' ip ellipsis
                end
          end
      end
  end.

Definition v6_finish (r : list Z * option nat * string) : option IP :=
  let '(ip, ellipsis, s) := r in
  if negb (String.eqb s "") then None
  else if (length ip <? 16)%nat then
    match ellipsis with
    | None => None
    | Some e => Some (take e ip ++ replicate (16 - length ip) 0 ++ drop e ip)
    end
  else match ellipsis with Some _ => None | None => Some ip end.

Definition v6_body (s : string) : option IP :=
  match CutPrefix s "::" with
  | Some s => if String.eqb s "" then Some IPv6unspecified else v6_loop 8 s [] (Some O) ≫= v6_finish
  | None => v6_loop 8 s [] None ≫= v6_finish
  end.

(** An address of [netip] with its zone. *)
Definition parseIPv6 (s : string) : option (IP * string) :=
  match Cut s percent with
  | Some (_, EmptyString) => None
  | Some (s, zone) => (λ ip, (ip, zone)) <$> v6_body s
  | None => (λ ip, (ip, "")) <$> v6_body s
  end.

(** [netip.ParseAddr]: the first byte of the three decides. *)
Fixpoint addr_kind (s : string) : option ascii :=
  match s with
  | EmptyString => None
  | String c s' => if Ascii.eqb c dot || Ascii.eqb c colon || Ascii.eqb c percent then Some c else addr_kind s'
  end.
Definition ParseAddr (s : string) : option (IP * string) :=
  match addr_kind s with
  | Some c => if Ascii.eqb c dot then (λ ip, (ip, "")) <$> parseIPv4 s
              else if Ascii.eqb c colon then parseIPv6 s else None
  | None => None
  end.

(** [net.ParseIP]: 16 bytes, no zone. *)
Definition ParseIP (s : string) : option IP :=
  match ParseAddr s with Some (ip, EmptyString) => To16 ip | _ => None end.

(** [Addr.Unmap] *)
Definition Unmap (a : IP * string) : IP * string :=
  if bool_decide (length a.1 = 16%nat) && bool_decide (take 12 a.1 = v4InV6Prefix) then (drop 12 a.1, "") else a.

(** [netip.Prefix], [ParsePrefix], [PrefixFrom] (which drops a zone) and [Contains]. *)
Record Prefix := mkPrefix { p_ip : IP; p_bits : Z }.
Definition BitLen (ip : IP) : Z := 8 * len ip.

Fixpoint cut_last_go (s : string) (sep : ascii) (acc : string) : option (string * string) :=
  match s with
  | EmptyString => None
  | String c s' => if Ascii.eqb c sep then Some (srev s', acc) else cut_last_go s' sep (String c acc)
  end.
(** The text around the last [sep]. *)
Definition CutLast (s : string) (sep : ascii) : option (string * string) := cut_last_go (srev s) sep "".

Definition good_bits (b : string) : bool :=
  match b with
  | String c (String _ _) => (49 <=? byteZ c) && (byteZ c <=? 57)
  | _ => true
  end.
Definition ParsePrefix (s : string) : option Prefix :=
  match CutLast s "/" with
  | None => None
  | Some (a, b) =>
      match ParseAddr a with
      | Some (ip, EmptyString) =>
          if good_bits b then
            match Atoi b with
            | Some bits => if (bits <? 0) || (BitLen ip <? bits) then None else Some (mkPrefix ip bits)
            | None => None
            end
          else None
      | _ => None
      end
  end.
Definition PrefixFrom (a : IP * string) : Prefix := mkPrefix a.1 (BitLen a.1).
Definition ipZ (ip : IP) : Z := foldl (λ a b, a * 256 + b) 0 ip.
(** The leading bits are the same. *)
Definition PrefixContains (p : Prefix) (a : IP * string) : bool :=
  bool_decide (a.2 = "") && bool_decide (length (p_ip p) = length a.1) &&
  (Z.shiftr (ipZ (p_ip p)) (BitLen (p_ip p) - p_bits p) =? Z.shiftr (ipZ a.1) (BitLen (p_ip p) - p_bits p)).

(** * Printing *)
Definition hexdig (d : Z) : ascii := chr (if d <? 10 then 48 + d else 87 + d).
(** [appendHex]: no leading zeros. *)
Definition hexs (x : Z) : string :=
  let d3 := hexdig (x / 4096) in let d2 := hexdig (x / 256 mod 16) in
  let d1 := hexdig (x / 16 mod 16) in let d0 := hexdig (x mod 16) in
  if 4096 <=? x then String d3 (String d2 (String d1 (String d0 "")))
  else if 256 <=? x then String d2 (String d1 (String d0 ""))
  else if 16 <=? x then String d1 (String d0 "")
  else String d0 "".

Fixpoint groups (ip : list Z) : list Z :=
  match ip with a :: b :: ip => a * 256 + b :: groups ip | _ => [] end.
Fixpoint colons (gs : list Z) : string :=
  match gs with [] => "" | [g] => hexs g | g :: gs => hexs g +:+ String colon (colons gs) end.

Fixpoint zeros (gs : list Z) : nat :=
  match gs with g :: gs => if g =? 0 then S (zeros gs) else O | [] => O end.
(** The longest run of at least two zero groups, the first of equals. *)
Fixpoint zero_run (gs : list Z) (i : nat) (best : nat * nat) : nat * nat :=
  match gs with
  | [] => best
  | _ :: gs' =>
      let l := zeros gs in
      zero_run gs' (S i) (if (2 <=? l)%nat && (best.2 <? l)%nat then (i, l) else best)
  end.

Definition v6_String (ip : IP) : string :=
  let gs := groups ip in
  let '(i, l) := zero_run gs 0 (O, O) in
  if (l =? 0)%nat then colons gs else colons (take i gs) +:+ "::" +:+ colons (drop (i + l) gs).
Definition v4_String (ip : IP) : string := Join (Itoa <$> ip) ".".

(** [IP.String] of an address of 4 or 16 bytes. *)
Definition IP_String (ip : IP) : string :=
  match To4 ip with Some ip4 => v4_String ip4 | None => v6_String ip end.

Example ip_examples :
  ParseIP "192.168.1.10" = Some (IPv4 192 168 1 10) ∧ ParseIP "192.168.01.10" = None ∧ ParseIP "1.2.3" = None
  ∧ ParseIP "::ffff:10.0.0.5" = Some (IPv4 10 0 0 5) ∧ ParseIP "fe80::1%eth0" = None
  ∧ ParseIP "2001:DB8::8:800:200c:417a" = Some [32; 1; 13; 184; 0; 0; 0; 0; 0; 8; 8; 0; 32; 12; 65; 122]
  ∧ (IP_String <$> ParseIP "2001:DB8::8:800:200c:417a") = Some "2001:db8::8:800:200c:417a"
  ∧ (IP_String <$> ParseIP "0:0:1:0:0:0:0:0") = Some "0:0:1::" ∧ (IP_String <$> ParseIP "::") = Some "::"
  ∧ ParseIP "1:2:3:4:5:6:7::8" = None ∧ (IP_String <$> ParseIP "::FFFF:0a00:5") = Some "10.0.0.5"
  ∧ ParsePrefix "10.0.0.0/8" = Some (mkPrefix [10; 0; 0; 0] 8) ∧ ParsePrefix "10.0.0.0/08" = None
  ∧ ParsePrefix "::ffff:10.0.0.0/104" = Some (mkPrefix (IPv4 10 0 0 0) 104).
Proof. vm_compute. repeat split. Qed.

(** * Parsing what was printed *)
(** What a computation checked for each number below [n]. *)
Lemma below (P : Z → bool) n d : forallb P (seqZ 0 n) = true → 0 <= d < n → P d = true.
Proof.
  intros HF H. assert (d ∈ seqZ 0 n) as Hd by (apply elem_of_seqZ; lia).
  rewrite forallb_forall in HF. apply HF. by apply list_elem_of_In.
Qed.

Lemma hexval_hexdig d : 0 <= d < 16 → hexval (hexdig d) = Some d.
Proof.
  intros H. pose proof (below (λ d, bool_decide (hexval (hexdig d) = Some d)) 16 d eq_refl H) as E.
  by apply bool_decide_eq_true in E.
Qed.

Definition ends_group (rest : string) : Prop :=
  match rest with String c _ => hexval c = None | EmptyString => True end.

Lemma hex_run_end rest off acc : ends_group rest → hex_run rest off acc = Some (off, acc, rest).
Proof. destruct rest as [|c rest]; simpl; [done|]. by intros ->. Qed.

Lemma hex_run_digit d s off acc : 0 <= d < 16 → off <= 3 → acc * 16 + d <= 65535 →
  hex_run (String (hexdig d) s) off acc = hex_run s (off + 1) (acc * 16 + d).
Proof.
  intros Hd Ho Ha. cbn [hex_run]. rewrite hexval_hexdig by done.
  rewrite (proj2 (Z.ltb_ge 3 off)), (proj2 (Z.ltb_ge 65535 _)) by lia. done.
Qed.

(** The digits of a group. *)
Lemma group_digits x : 0 <= x < 65536 →
  ∃ a b c d, x = a * 4096 + b * 256 + c * 16 + d ∧ 0 <= a < 16 ∧ 0 <= b < 16 ∧ 0 <= c < 16 ∧ 0 <= d < 16
    ∧ x / 4096 = a ∧ x / 256 mod 16 = b ∧ x / 16 mod 16 = c ∧ x mod 16 = d.
Proof.
  intros H. exists (x / 4096), (x / 256 mod 16), (x / 16 mod 16), (x mod 16).
  repeat split; Z.div_mod_to_equations; lia.
Qed.

Lemma ip_app_cons c (s t : string) : String c s +:+ t = String c (s +:+ t).
Proof. done. Qed.
Lemma sapp_nil (t : string) : "" +:+ t = t.
Proof. done. Qed.

Lemma hex_run_hexs x rest : 0 <= x < 65536 → ends_group rest →
  ∃ n, 0 < n ∧ hex_run (hexs x +:+ rest) 0 0 = Some (n, x, rest).
Proof.
  intros Hx Hr. destruct (group_digits x Hx) as (a & b & c & d & E & Ha & Hb & Hc & Hd & Ea & Eb & Ec & Ed).
  unfold hexs. rewrite Ea, Eb, Ec, Ed. clear Ea Eb Ec Ed.
  destruct (Z.leb_spec 4096 x); [|destruct (Z.leb_spec 256 x); [|destruct (Z.leb_spec 16 x)]]; rewrite ?ip_app_cons, sapp_nil.
  all: repeat (rewrite hex_run_digit; [|lia|lia|lia]).
  all: rewrite hex_run_end by done.
  all: eexists; split; [|do 3 f_equal]; lia.
Qed.

Lemma hexs_ne x : hexs x ≠ "".
Proof. unfold hexs. by repeat case_match. Qed.

Lemma hexs_head x rest : 0 <= x < 65536 → ∃ c t, hexs x +:+ rest = String c t ∧ is_Some (hexval c).
Proof.
  intros Hx. destruct (group_digits x Hx) as (a & b & c & d & E & Ha & Hb & Hc & Hd & Ea & Eb & Ec & Ed).
  unfold hexs. rewrite Ea, Eb, Ec, Ed.
  repeat case_match; rewrite ?ip_app_cons, sapp_nil; (do 2 eexists; split; [done|]; rewrite hexval_hexdig by done; eauto).
Qed.

Definition group_ok (x : Z) : Prop := 0 <= x < 65536.
(** The bytes of groups. *)
Fixpoint ungroup (gs : list Z) : list Z :=
  match gs with [] => [] | g :: gs => g / 256 :: g mod 256 :: ungroup gs end.

Lemma length_ungroup gs : length (ungroup gs) = (2 * length gs)%nat.
Proof. induction gs as [|g gs IH]; simpl; [done|]. rewrite IH. lia. Qed.
Lemma ungroup_app a b : ungroup (a ++ b) = ungroup a ++ ungroup b.
Proof. induction a as [|g a IH]; simpl; [done|]. by rewrite IH. Qed.

Lemma hexval_not_colon c : is_Some (hexval c) → Ascii.eqb c colon = false.
Proof. intros H. destruct (Ascii.eqb_spec c colon) as [->|]; [|done]. by destruct H. Qed.

Lemma colons_head gs rest : Forall group_ok gs → gs ≠ [] →
  ∃ c t, colons gs +:+ rest = String c t ∧ is_Some (hexval c).
Proof.
  intros Hg Hne. destruct gs as [|g gs]; [done|]. inversion Hg; subst.
  destruct gs as [|g' gs]; [by apply hexs_head|].
  change (colons (g :: g' :: gs)) with (hexs g +:+ String colon (colons (g' :: gs))). rewrite sapp_assoc.
  by apply hexs_head.
Qed.

(** The loop reads the groups printed, up to the end or to a double colon. *)
Lemma v6_loop_end gs : ∀ room ip e, Forall group_ok gs → gs ≠ [] → (length gs ≤ room)%nat →
  v6_loop room (colons gs) ip e = Some (ip ++ ungroup gs, e, "").
Proof.
  induction gs as [|g gs IH]; intros room ip e Hg Hne Hl; [done|]. inversion Hg as [|? ? Hg1 Hg2]; subst.
  destruct room as [|room]; [simpl in Hl; lia|]. cbn [v6_loop].
  destruct gs as [|g' gs].
  - cbn [colons]. destruct (hex_run_hexs g "" Hg1 I) as (n & Hn & E). rewrite sapp_nil_r in E. rewrite E.
    rewrite (proj2 (Z.eqb_neq n 0)) by lia. done.
  - change (colons (g :: g' :: gs)) with (hexs g +:+ String colon (colons (g' :: gs))).
    destruct (hex_run_hexs g (String colon (colons (g' :: gs))) Hg1 eq_refl) as (n & Hn & E). rewrite E.
    rewrite (proj2 (Z.eqb_neq n 0)) by lia. cbn [Ascii.eqb]. 
    rewrite (IH room (ip ++ [g / 256; g mod 256]) e Hg2 ltac:(done) ltac:(simpl in Hl |- *; lia)).
    destruct (colons_head (g' :: gs) "" Hg2 ltac:(done)) as (c & t & Ec & Hc). rewrite sapp_nil_r in Ec. rewrite Ec.
    rewrite (hexval_not_colon c Hc). simpl. by rewrite <- app_assoc.
Qed.

Lemma v6_loop_colons gs : ∀ room ip t, Forall group_ok gs → gs ≠ [] → (length gs ≤ room)%nat →
  v6_loop room (colons gs +:+ "::" +:+ t) ip None =
  if String.eqb t "" then Some (ip ++ ungroup gs, Some (length (ip ++ ungroup gs)), "")
  else v6_loop (room - length gs) t (ip ++ ungroup gs) (Some (length (ip ++ ungroup gs))).
Proof.
  induction gs as [|g gs IH]; intros room ip t Hg Hne Hl; [done|]. inversion Hg as [|? ? Hg1 Hg2]; subst.
  destruct room as [|room]; [simpl in Hl; lia|]. cbn [v6_loop].
  destruct gs as [|g' gs].
  - cbn [colons]. destruct (hex_run_hexs g ("::" +:+ t) Hg1 eq_refl) as (n & Hn & E). rewrite E.
    rewrite (proj2 (Z.eqb_neq n 0)) by lia. simpl. by rewrite Nat.sub_0_r.
  - change (colons (g :: g' :: gs)) with (hexs g +:+ String colon (colons (g' :: gs))).
    rewrite sapp_assoc, ip_app_cons.
    destruct (hex_run_hexs g (String colon (colons (g' :: gs) +:+ "::" +:+ t)) Hg1 eq_refl) as (n & Hn & E). rewrite E.
    rewrite (proj2 (Z.eqb_neq n 0)) by lia.
    pose proof (IH room (ip ++ [g / 256; g mod 256]) t Hg2 ltac:(done) ltac:(simpl in Hl |- *; lia)) as E2.
    rewrite <- app_assoc in E2. 
    destruct (colons_head (g' :: gs) ("::" +:+ t) Hg2 ltac:(done)) as (c & u & Ec & Hc). rewrite Ec in E2 |- *.
    rewrite (hexval_not_colon c Hc). exact E2.
Qed.

(** What is printed is read back. *)
Lemma zeros_prefix gs : take (zeros gs) gs = replicate (zeros gs) 0 ∧ (zeros gs ≤ length gs)%nat.
Proof.
  induction gs as [|g gs [IH1 IH2]]; simpl; [split; [done|lia]|].
  destruct (Z.eqb_spec g 0) as [->|]; simpl; [split; [by rewrite IH1|lia]|split; [done|lia]].
Qed.

Lemma zero_run_zeros (gs : list Z) : ∀ i best (all : list Z), drop i all = gs → (i + length gs = length all)%nat →
  (best.2 = 0 ∨ 2 ≤ best.2 ∧ best.1 + best.2 ≤ length all ∧ take best.2 (drop best.1 all) = replicate best.2 0%Z)%nat →
  let r := zero_run gs i best in
  (r.2 = 0 ∨ 2 ≤ r.2 ∧ r.1 + r.2 ≤ length all ∧ take r.2 (drop r.1 all) = replicate r.2 0%Z)%nat.
Proof.
  induction gs as [|g gs IH]; intros i best all Hd Hl Hb; [exact Hb|]. cbn [zero_run].
  apply IH with (all := all).
  - rewrite <- Nat.add_1_r, <- drop_drop, Hd. done.
  - simpl in Hl. lia.
  - destruct ((2 <=? zeros (g :: gs))%nat && _) eqn:E; [|done]. right. apply andb_true_iff in E as [E _].
    apply Nat.leb_le in E. destruct (zeros_prefix (g :: gs)) as [H1 H2].
    cbn [fst snd]. rewrite Hd. split; [done|split; [simpl in *; lia|done]].
Qed.

Lemma v6_body_run pre post (l : nat) : Forall group_ok pre → Forall group_ok post →
  (2 ≤ l)%nat → (length pre + l + length post = 8)%nat →
  v6_body (colons pre +:+ "::" +:+ colons post) = Some (ungroup pre ++ replicate (2 * l) 0 ++ ungroup post).
Proof.
  intros Hpre Hpost Hl H8.
  assert (length (ungroup pre ++ ungroup post) = 16 - 2 * l)%nat as Hn by (rewrite length_app, !length_ungroup; lia).
  assert (v6_finish (ungroup pre ++ ungroup post, Some (length (ungroup pre)), "") =
          Some (ungroup pre ++ replicate (2 * l) 0 ++ ungroup post)) as Hf.
  { unfold v6_finish. simpl. rewrite Hn, (proj2 (Nat.ltb_lt _ 16)) by lia.
    rewrite take_app_length, drop_app_length. do 3 f_equal. f_equal. lia. }
  unfold v6_body. destruct pre as [|g pre].
  - change (colons [] +:+ "::" +:+ colons post) with ("::" +:+ colons post). rewrite CutPrefix_app.
    destruct post as [|p post]; [simpl in H8; assert (l = 8)%nat as -> by lia; done|].
    destruct (String.eqb_spec (colons (p :: post)) "") as [E|_].
    { destruct (colons_head (p :: post) "" Hpost ltac:(done)) as (c & t & Ec & _). rewrite E in Ec. done. }
    rewrite v6_loop_end by (done || simpl in *; lia). exact Hf.
  - assert (CutPrefix (colons (g :: pre) +:+ "::" +:+ colons post) "::" = None) as ->.
    { destruct (colons_head (g :: pre) ("::" +:+ colons post) Hpre ltac:(done)) as (c & t & Ec & Hc). rewrite Ec.
      cbn [CutPrefix]. destruct (Ascii.eqb_spec ":" c) as [<-|]; [by destruct Hc|done]. }
    rewrite v6_loop_colons by (done || simpl in *; lia). cbn [app].
    destruct post as [|p post].
    + cbn [colons String.eqb]. cbn [mbind option_bind]. rewrite <- Hf. simpl. by rewrite !app_nil_r.
    + destruct (String.eqb_spec (colons (p :: post)) "") as [E|_].
      { destruct (colons_head (p :: post) "" Hpost ltac:(done)) as (c & t & Ec & _). rewrite E in Ec. done. }
      rewrite v6_loop_end by (done || simpl in *; lia). exact Hf.
Qed.

Lemma groups_ungroup ip : Forall byte_ok ip → Nat.even (length ip) = true → ungroup (groups ip) = ip.
Proof.
  revert ip. fix IH 1. intros [|a [|b ip]] Hb He; [done|done|]. cbn [groups ungroup].
  inversion Hb as [|? ? Ha Hb']; subst. inversion Hb' as [|? ? Hb1 Hb2]; subst. unfold byte_ok in *.
  rewrite IH by done. f_equal; [|f_equal]; Z.div_mod_to_equations; lia.
Qed.

Lemma groups_ok ip : Forall byte_ok ip → Forall group_ok (groups ip).
Proof.
  revert ip. fix IH 1. intros [|a [|b ip]] Hb; [constructor|constructor|]. cbn [groups].
  inversion Hb as [|? ? Ha Hb']; subst. inversion Hb' as [|? ? Hb1 Hb2]; subst. unfold byte_ok, group_ok in *.
  constructor; [lia|by apply IH].
Qed.

Lemma ungroup_replicate l : ungroup (replicate l 0) = replicate (2 * l) 0.
Proof. induction l as [|l IH]; [done|]. cbn [replicate ungroup]. rewrite IH. by replace (2 * S l)%nat with (S (S (2 * l))) by lia. Qed.

Lemma v6_body_String ip : length ip = 16%nat → Forall byte_ok ip → v6_body (v6_String ip) = Some ip.
Proof.
  intros Hl Hb. pose proof (groups_ungroup ip Hb ltac:(by rewrite Hl)) as Eg.
  pose proof (groups_ok ip Hb) as Hg. unfold v6_String. set (gs := groups ip) in *.
  assert (length gs = 8)%nat as H8 by (pose proof (length_ungroup gs) as E; rewrite Eg, Hl in E; lia).
  pose proof (zero_run_zeros gs 0 (0, 0)%nat gs eq_refl eq_refl (or_introl eq_refl)) as Hz.
  destruct (zero_run gs 0 (0, 0)%nat) as [i l]. cbn [fst snd] in Hz.
  destruct (Nat.eqb_spec l 0) as [->|Hne].
  - unfold v6_body. assert (gs ≠ []) as Hnil by (by destruct gs).
    assert (CutPrefix (colons gs) "::" = None) as ->.
    { destruct (colons_head gs "" Hg Hnil) as (c & t & Ec & Hc). rewrite sapp_nil_r in Ec. rewrite Ec.
      cbn [CutPrefix]. destruct (Ascii.eqb_spec ":" c) as [<-|]; [by destruct Hc|done]. }
    rewrite v6_loop_end by (done || lia). cbn [mbind option_bind app]. rewrite Eg. unfold v6_finish. by rewrite Hl.
  - destruct Hz as [?|(H2 & Hi & Ez)]; [done|].
    rewrite (v6_body_run _ _ l); [|by apply Forall_take|by apply Forall_drop|done|rewrite length_take, length_drop; lia].
    rewrite <- Eg. f_equal. rewrite <- ungroup_replicate, <- !ungroup_app, <- Ez. f_equal.
    rewrite <- drop_drop, take_drop, take_drop. done.
Qed.

(** ** Dotted addresses *)
Fixpoint octet_run (s : string) (p : ascii) (val digLen : Z) : option (ascii * Z * Z) :=
  match s with
  | EmptyString => Some (p, val, digLen)
  | String c s' =>
      if is_digit c && negb ((digLen =? 1) && (val =? 0)) && negb (255 <? val * 10 + digitZ c)
      then octet_run s' c (val * 10 + digitZ c) (digLen + 1) else None
  end.

Lemma v4_go_run s : ∀ rest p val digLen fields q v n, octet_run s p val digLen = Some (q, v, n) →
  v4_go (s +:+ rest) (Some p) val digLen fields = v4_go rest (Some q) v n fields.
Proof.
  induction s as [|c s IH]; intros rest p val digLen fields q v n; simpl; [by intros [= <- <- <-]|].
  destruct (is_digit c); [|done]. destruct ((digLen =? 1) && (val =? 0)); [done|].
  destruct (255 <? val * 10 + digitZ c); [done|]. apply IH.
Qed.

Definition octet_ok (x : Z) : bool :=
  match Itoa x with
  | String c s => is_digit c && match octet_run s c (digitZ c) 1 with
                                | Some (q, v, n) => is_digit q && (v =? x) && (255 >=? digitZ c) | None => false end
  | EmptyString => false
  end.

Lemma octets_ok : forallb octet_ok (seqZ 0 256) = true.
Proof. vm_compute. reflexivity. Qed.

Lemma v4_go_octet x rest prev fields : byte_ok x →
  ∃ q n, is_digit q = true ∧ v4_go (Itoa x +:+ rest) prev 0 0 fields = v4_go rest (Some q) x n fields.
Proof.
  intros Hx. pose proof (below octet_ok 256 x octets_ok Hx) as E. unfold octet_ok in E.
  destruct (Itoa x) as [|c s]; [done|]. apply andb_true_iff in E as [Hc E].
  destruct (octet_run s c (digitZ c) 1) as [[[q v] n]|] eqn:Er; [|done].
  apply andb_true_iff in E as [[Hq Hv]%andb_true_iff Hd]. apply Z.eqb_eq in Hv as ->. rewrite Z.geb_leb in Hd. apply Z.leb_le in Hd.
  exists q, n. split; [done|]. rewrite ip_app_cons. cbn [v4_go]. rewrite Hc. change ((0 =? 1) && (0 =? 0)) with false. cbn match. rewrite Z.mul_0_l, Z.add_0_l.
  rewrite (proj2 (Z.ltb_ge 255 (digitZ c))) by done. by apply v4_go_run.
Qed.

Lemma v4_go_dot s q v n fields : is_digit q = true → s ≠ "" → (length fields < 3)%nat →
  v4_go (String dot s) (Some q) v n fields = v4_go s (Some dot) 0 0 (fields ++ [v]).
Proof.
  intros Hq Hs Hl. cbn [v4_go]. change (is_digit dot) with false. cbn [Ascii.eqb].
  rewrite Ascii.eqb_refl. rewrite (bool_decide_false (Some q = Some dot)) by (intros [= ->]; done).
  rewrite bool_decide_false by done. destruct (String.eqb_spec s ""); [done|]. cbn [orb].
  rewrite (proj2 (Nat.eqb_neq (length fields) 3)) by lia. done.
Qed.

Lemma Itoa_ne x rest : byte_ok x → Itoa x +:+ rest ≠ "".
Proof.
  intros Hx. pose proof (below octet_ok 256 x octets_ok Hx) as E. unfold octet_ok in E. by destruct (Itoa x).
Qed.

Lemma parseIPv4_String a b c d : byte_ok a → byte_ok b → byte_ok c → byte_ok d →
  parseIPv4 (v4_String [a; b; c; d]) = Some [a; b; c; d].
Proof.
  intros Ha Hb Hc Hd. unfold parseIPv4.
  change (v4_String [a; b; c; d]) with (Itoa a +:+ String dot (Itoa b +:+ String dot (Itoa c +:+ String dot (Itoa d)))).
  destruct (v4_go_octet a (String dot (Itoa b +:+ String dot (Itoa c +:+ String dot (Itoa d)))) None [] Ha) as (q & n & Hq & ->).
  rewrite v4_go_dot by (try apply Itoa_ne; simpl; done || lia).
  destruct (v4_go_octet b (String dot (Itoa c +:+ String dot (Itoa d))) (Some dot) ([] ++ [a]) Hb) as (q2 & n2 & Hq2 & ->).
  rewrite v4_go_dot by (try apply Itoa_ne; simpl; done || lia).
  destruct (v4_go_octet c (String dot (Itoa d)) (Some dot) (([] ++ [a]) ++ [b]) Hc) as (q3 & n3 & Hq3 & ->).
  rewrite v4_go_dot by (try (rewrite <- (sapp_nil_r (Itoa d)); apply Itoa_ne); simpl; done || lia).
  destruct (v4_go_octet d "" (Some dot) ((([] ++ [a]) ++ [b]) ++ [c]) Hd) as (q4 & n4 & Hq4 & E).
  rewrite sapp_nil_r in E. by rewrite E.
Qed.

(** ** The byte that decides, and no zone *)
Definition plain_byte (c : ascii) : bool := negb (Ascii.eqb c dot || Ascii.eqb c colon || Ascii.eqb c percent).
Lemma addr_kind_app a c rest : sforall plain_byte a = true → plain_byte c = false →
  addr_kind (a +:+ String c rest) = Some c.
Proof.
  intros Ha Hc. induction a as [|b a IH]; simpl.
  - unfold plain_byte in Hc. apply negb_false_iff in Hc. by rewrite Hc.
  - simpl in Ha. apply andb_true_iff in Ha as [Hb Ha]. unfold plain_byte in Hb. apply negb_true_iff in Hb. rewrite Hb. by apply IH.
Qed.

Definition hex_byte (c : ascii) : bool := match hexval c with Some _ => true | None => false end.
Lemma hex_plain c : hex_byte c = true → plain_byte c = true.
Proof. by destruct c as [[] [] [] [] [] [] [] []]. Qed.

Lemma hexs_bytes x : group_ok x → sforall hex_byte (hexs x) = true.
Proof.
  intros Hx. destruct (group_digits x Hx) as (a & b & c & d & E & Ha & Hb & Hc & Hd & Ea & Eb & Ec & Ed).
  unfold hexs. rewrite Ea, Eb, Ec, Ed. unfold hex_byte.
  repeat case_match; cbn [sforall]; rewrite ?hexval_hexdig by done; done.
Qed.

Definition v6_byte (c : ascii) : bool := hex_byte c || Ascii.eqb c colon.
Lemma colons_bytes gs : Forall group_ok gs → sforall v6_byte (colons gs) = true.
Proof.
  assert (∀ x, group_ok x → sforall v6_byte (hexs x) = true) as H.
  { intros x Hx. eapply sforall_impl; [|by apply hexs_bytes]. intros c Hc. unfold v6_byte. by rewrite Hc. }
  induction gs as [|g gs IH]; intros Hg; [done|]. inversion Hg; subst. destruct gs as [|g' gs]; [by apply H|].
  change (colons (g :: g' :: gs)) with (hexs g +:+ String colon (colons (g' :: gs))).
  rewrite sforall_app, H by done. cbn [sforall]. rewrite IH by done. done.
Qed.

Lemma v6_String_bytes ip : Forall byte_ok ip → sforall v6_byte (v6_String ip) = true.
Proof.
  intros Hb. pose proof (groups_ok ip Hb) as Hg. unfold v6_String. destruct (zero_run _ _ _) as [i l].
  destruct (l =? 0)%nat; [by apply colons_bytes|]. rewrite !sforall_app, !colons_bytes by (by apply Forall_take || by apply Forall_drop). done.
Qed.

(** The first byte of the three that a printed IPv6 address holds is a colon. *)
Lemma v6_kind ip : length ip = 16%nat → Forall byte_ok ip → addr_kind (v6_String ip) = Some colon.
Proof.
  intros Hl Hb. pose proof (groups_ok ip Hb) as Hg. pose proof (groups_ungroup ip Hb ltac:(by rewrite Hl)) as Eg.
  assert (∀ gs rest, Forall group_ok gs → gs ≠ [] →
            (∃ r, rest = String colon r) ∨ (2 ≤ length gs)%nat → addr_kind (colons gs +:+ rest) = Some colon) as H.
  { intros gs rest Hgs Hne Hr. destruct gs as [|g gs]; [done|]. inversion Hgs; subst.
    assert (sforall plain_byte (hexs g) = true) as Hp.
    { eapply sforall_impl; [|by apply hexs_bytes]. intros c. apply hex_plain. }
    destruct gs as [|g' gs].
    - destruct Hr as [[r ->]|?]; [|simpl in *; lia]. by apply addr_kind_app.
    - change (colons (g :: g' :: gs)) with (hexs g +:+ String colon (colons (g' :: gs))).
      rewrite sapp_assoc, ip_app_cons. by apply addr_kind_app. }
  unfold v6_String. destruct (zero_run _ _ _) as [i l].
  assert (length (groups ip) = 8)%nat as H8 by (pose proof (length_ungroup (groups ip)) as E; rewrite Eg, Hl in E; lia).
  destruct (l =? 0)%nat.
  - rewrite <- (sapp_nil_r (colons (groups ip))). apply H; [done|by destruct (groups ip)|right; lia].
  - destruct (take i (groups ip)) as [|g gs] eqn:E; [done|]. rewrite <- E. apply H; [by apply Forall_take|by rewrite E|left; eauto].
Qed.

Lemma Cut_absent (b : ascii) s : sforall (λ c, negb (Ascii.eqb c b)) s = true → Cut s b = None.
Proof.
  induction s as [|c s IH]; simpl; [done|]. intros [Hc Hs]%andb_true_iff. apply negb_true_iff in Hc.
  by rewrite Hc, IH.
Qed.

Lemma To4_some ip ip4 : length ip = 16%nat → To4 ip = Some ip4 → ip = v4InV6Prefix ++ ip4 ∧ length ip4 = 4%nat.
Proof.
  intros Hl H. unfold To4 in H. rewrite (bool_decide_false (length ip = 4%nat)), bool_decide_true in H by lia.
  cbn [andb] in H. case_bool_decide as Hp; [|done]. injection H as <-. rewrite length_drop, Hl. split; [|lia].
  by rewrite <- Hp, take_drop.
Qed.

(** [net.ParseIP] reads back every address [IP.String] prints. *)
Lemma ParseIP_String ip : length ip = 16%nat → Forall byte_ok ip → ParseIP (IP_String ip) = Some ip.
Proof.
  intros Hl Hb. unfold IP_String. destruct (To4 ip) as [ip4|] eqn:E4.
  - destruct (To4_some ip ip4 Hl E4) as [-> H4]. apply Forall_app in Hb as [_ Hb].
    destruct ip4 as [|a [|b [|c [|d [|]]]]]; try discriminate H4.
    do 4 (apply Forall_cons in Hb as [? Hb]).
    unfold ParseIP, ParseAddr.
    assert (addr_kind (v4_String [a; b; c; d]) = Some dot) as ->.
    { change (v4_String [a; b; c; d]) with (Itoa a +:+ String dot (Itoa b +:+ String dot (Itoa c +:+ String dot (Itoa d)))).
      apply addr_kind_app; [|done]. eapply sforall_impl; [|apply Itoa_digits; unfold byte_ok in *; lia].
      intros x Hx. unfold plain_byte. apply negb_true_iff. unfold is_digit in Hx.
      destruct (Ascii.eqb_spec x dot) as [->|]; [done|]. destruct (Ascii.eqb_spec x colon) as [->|]; [done|].
      by destruct (Ascii.eqb_spec x percent) as [->|]. }
    change (Ascii.eqb dot dot) with true. cbn match. rewrite parseIPv4_String by done. done.
  - unfold ParseIP, ParseAddr. rewrite v6_kind by done. change (Ascii.eqb colon dot) with false.
    change (Ascii.eqb colon colon) with true. cbn match. unfold parseIPv6.
    rewrite Cut_absent.
    + rewrite v6_body_String by done. cbn [fmap option_fmap option_map]. unfold To16.
      rewrite bool_decide_false, bool_decide_true by (rewrite ?Hl; lia). done.
    + eapply sforall_impl; [|by apply v6_String_bytes]. intros c Hc.
      destruct (Ascii.eqb_spec c percent) as [->|]; done.
Qed.

Lemma v4_go_ok s : ∀ prev val n fields q, 0 <= val <= 255 → Forall byte_ok fields → (length fields ≤ 3)%nat →
  v4_go s prev val n fields = Some q → length q = 4%nat ∧ Forall byte_ok q.
Proof.
  induction s as [|c s IH]; intros prev val n fields q Hv Hf Hl H; cbn [v4_go] in H.
  - destruct (Nat.ltb_spec (length fields) 3); [done|]. injection H as <-. rewrite length_app. simpl.
    split; [lia|]. apply Forall_app. split; [done|]. by repeat constructor; lia.
  - destruct (is_digit c) eqn:Hd.
    + destruct ((n =? 1) && (val =? 0)); [done|]. destruct (Z.ltb_spec 255 (val * 10 + digitZ c)); [done|].
      eapply IH; [|exact Hf|exact Hl|exact H]. unfold is_digit in Hd. apply andb_true_iff in Hd as [Hd _].
      apply Z.leb_le in Hd. unfold digitZ in *. lia.
    + destruct (Ascii.eqb c dot); [|done]. destruct (_ || _) in H; [done|].
      destruct (Nat.eqb_spec (length fields) 3); [done|]. eapply IH; [| | |exact H]; [lia| |].
      * apply Forall_app. split; [done|]. by repeat constructor; lia.
      * rewrite length_app. simpl. lia.
Qed.

Lemma hexval_range c d : hexval c = Some d → 0 <= d < 16.
Proof.
  unfold hexval, is_digit, digitZ. intros H. repeat case_match; simplify_eq;
    repeat match goal with H : (_ && _) = true |- _ => apply andb_true_iff in H as [?%Z.leb_le ?%Z.leb_le] end; lia.
Qed.

Lemma hex_run_range s : ∀ off acc n v rest, 0 <= acc < 65536 → hex_run s off acc = Some (n, v, rest) → 0 <= v < 65536.
Proof.
  induction s as [|c s IH]; intros off acc n v rest Ha H; cbn [hex_run] in H; [by simplify_eq|].
  destruct (hexval c) as [d|] eqn:Hd; [|by simplify_eq]. apply hexval_range in Hd.
  destruct (Z.ltb_spec 65535 (acc * 16 + d)); [by rewrite orb_true_r in H|]. destruct (3 <? off); [done|].
  eapply IH; [|exact H]. lia.
Qed.

Definition v6_state (r : list Z * option nat * string) : Prop :=
  let '(ip, e, _) := r in
  Forall byte_ok ip ∧ (length ip ≤ 16)%nat ∧ match e with Some e => (e ≤ length ip)%nat | None => True end.

Lemma bytes_ok2 ip v : Forall byte_ok ip → 0 <= v < 65536 → Forall byte_ok (ip ++ [v / 256; v mod 256]).
Proof.
  intros Hi Hv. apply Forall_app. split; [done|]. unfold byte_ok.
  repeat constructor; Z.div_mod_to_equations; lia.
Qed.

Lemma v6_loop_ok room : ∀ s ip e r, (length ip + 2 * room = 16)%nat → v6_state (ip, e, "") →
  v6_loop room s ip e = Some r → v6_state r.
Proof.
  induction room as [|room IH]; intros s ip e r Hl (Hb & Hle & He) H; cbn [v6_loop] in H; [by simplify_eq|].
  destruct (hex_run s 0 0) as [[[n v] rest]|] eqn:Eh; [|done]. apply hex_run_range in Eh; [|lia].
  destruct (n =? 0); [done|].
  pose proof (bytes_ok2 ip v Hb Eh) as Hb2.
  assert (length (ip ++ [v / 256; v mod 256]) = S (S (length ip))) as Hl2 by (rewrite length_app; simpl; lia).
  assert (match e with Some e => (e ≤ S (S (length ip)))%nat | None => True end) as He2 by (destruct e; [lia|done]).
  destruct rest as [|c rest']; [simplify_eq; unfold v6_state; rewrite Hl2; split_and!; [done|lia|done]|].
  destruct (Ascii.eqb c dot).
  - destruct (_ && _) in H; [done|]. destruct (Nat.ltb_spec 16 (length ip + 4)); [done|].
    destruct (parseIPv4 s) as [q|] eqn:Eq; [|done]. simplify_eq.
    apply v4_go_ok in Eq as [Hq Hqb]; [|lia|by constructor|simpl; lia].
    unfold v6_state. rewrite length_app, Hq. split_and!; [by apply Forall_app|lia|destruct e; [lia|done]].
  - destruct (negb _); [done|]. destruct rest' as [|c2 rest2]; [done|]. destruct (Ascii.eqb c2 colon).
    + case_bool_decide; [done|]. destruct (String.eqb rest2 "").
      * simplify_eq. unfold v6_state. rewrite Hl2. split_and!; [done|lia|lia].
      * eapply IH; [| |exact H]; [rewrite Hl2; lia|]. unfold v6_state. rewrite Hl2. split_and!; [done|lia|lia].
    + eapply IH; [| |exact H]; [rewrite Hl2; lia|]. unfold v6_state. rewrite Hl2. split_and!; [done|lia|done].
Qed.

Lemma v6_finish_ok r ip : v6_state r → v6_finish r = Some ip → length ip = 16%nat ∧ Forall byte_ok ip.
Proof.
  destruct r as [[i e] s]. unfold v6_finish. intros (Hb & Hl & He) H.
  destruct (negb _); [done|]. destruct (Nat.ltb_spec (length i) 16).
  - destruct e as [e|]; [|done]. simplify_eq. split.
    + rewrite !length_app, length_replicate, length_take, length_drop. lia.
    + rewrite !Forall_app. split_and!; [by apply Forall_take|apply Forall_replicate; unfold byte_ok; lia|by apply Forall_drop].
  - destruct e; [done|]. simplify_eq. split; [lia|done].
Qed.

Lemma v6_body_ok s ip : v6_body s = Some ip → length ip = 16%nat ∧ Forall byte_ok ip.
Proof.
  assert (∀ s e, v6_state ([], e, "") → v6_loop 8 s [] e ≫= v6_finish = Some ip → length ip = 16%nat ∧ Forall byte_ok ip) as Hloop.
  { intros s' e He H. destruct (v6_loop 8 s' [] e) as [r|] eqn:E; [|done].
    eapply v6_finish_ok; [|exact H]. by eapply v6_loop_ok; [| |exact E]. }
  unfold v6_body. destruct (CutPrefix s "::") as [t|].
  - destruct (String.eqb t ""); [|apply Hloop; by repeat constructor].
    intros [= <-]. split; [done|]. apply Forall_replicate. unfold byte_ok. lia.
  - apply Hloop. split_and!; [done|simpl; lia|done].
Qed.

Lemma ParseIP_ok s ip : ParseIP s = Some ip → length ip = 16%nat ∧ Forall byte_ok ip.
Proof.
  unfold ParseIP. destruct (ParseAddr s) as [[a z]|] eqn:E; [|done]. destruct z; [|done]. intros H.
  unfold ParseAddr in E. destruct (addr_kind s) as [c|]; [|done]. destruct (Ascii.eqb c dot).
  - destruct (parseIPv4 s) as [q|] eqn:Eq; [|done]. simplify_eq/=.
    apply v4_go_ok in Eq as [Hq Hqb]; [|lia|by constructor|simpl; lia]. unfold To16 in H.
    rewrite bool_decide_true in H by lia. simplify_eq. split; [rewrite length_app; simpl; lia|].
    apply Forall_app. split; [|done]. repeat constructor; unfold byte_ok; lia.
  - destruct (Ascii.eqb c colon); [|done]. unfold parseIPv6 in E.
    assert (∃ t, v6_body t = Some a) as [t Ht].
    { destruct (Cut s percent) as [[s' [|z zs]]|]; [done| |];
        match type of E with _ <$> v6_body ?t = _ => exists t; destruct (v6_body t); by simplify_eq/= end. }
    apply v6_body_ok in Ht as [Hl Hb]. unfold To16 in H. rewrite bool_decide_false, bool_decide_true in H by lia. by simplify_eq.
Qed.
