(* ===== verification/Plugins.v ===== *)
(** Plugins: the circuit breaker every role shares, the delivery worker and
    the client pool that call through it, and the egress rule of a plugin's
    connections ([internal/plugin/breaker.go], [dispatcher.go], [pool.go],
    [egress.go], [registry.go]).

    Instants are nanoseconds; the zero [time.Time] is [None]. *)
From S2P Require Import Prelude.
From S2P Require Import GoStrings.
From S2P Require Import GoBytes.
From S2P Require Import SafeHTTP.

Local Open Scope Z_scope.

(** * The breaker *)
Definition breakerThreshold : Z := 3.
Definition breakerCooldown : Z := 5 * 60 * 1000000000.

Record breaker := mkBreaker { consecFails : Z; openUntil : option Z }.
Definition newBreaker : breaker := mkBreaker 0 None.

Definition allow (b : breaker) (now : Z) : bool * option Z :=
  match openUntil b with
  | Some u => if now <? u then (false, Some u) else (true, None)
  | None => (true, None)
  end.

Definition success (b : breaker) : breaker * bool :=
  (mkBreaker 0 None,
   (0 <? consecFails b) || match openUntil b with Some _ => true | None => false end).

Definition failure (b : breaker) (now : Z) : breaker * (bool * option Z * Z) :=
  let fails := consecFails b + 1 in
  if breakerThreshold <=? fails
  then (mkBreaker fails (Some (now + breakerCooldown)), (true, Some (now + breakerCooldown), fails))
  else (mkBreaker fails (openUntil b), (false, None, fails)).

(** * Calls through the breaker *)

(** How a tool call ends. *)
Inductive CallResult := CallOk | CallNotAdvertised | CallFailed (e : string).

Inductive Audit :=
  | Delivered | DeliveryFailed (reason : string) | Dropped (reason : string)
  | BreakerOpened | BreakerClosed.

(** [pluginWorker.deliver]: one event; [called] is when the call returns. *)
Definition deliver (b : breaker) (now : Z) (res : CallResult) (called : Z) : breaker * list Audit :=
  if negb (allow b now).1 then (b, [Dropped "breaker_open"])
  else
    match res with
    | CallOk =>
        let '(b', closed) := success b in
        (b', (if closed then [BreakerClosed] else []) ++ [Delivered])
    | CallNotAdvertised => (b, [DeliveryFailed "tool_not_advertised"])
    | CallFailed e =>
        let '(b', (opened, _, _)) := failure b called in
        (b', DeliveryFailed e :: (if opened then [BreakerOpened] else []))
    end.

(** The worker's queue: a channel of [queueDepth]. *)
Definition queueDepth : Z := 64.
Definition enqueue {A} (queue : list A) (evt : A) : list A * list Audit :=
  if len queue <? queueDepth then (queue ++ [evt], []) else (queue, [Dropped "queue_full"]).

(** [clientPool.call]: the result, the breaker and the audit rows.
    [cancelled]: the caller's own context has ended. *)
Inductive PoolError := BreakerOpen (until : option Z) | NotAdvertised | CallError (e : string).

Definition pool_call (b : breaker) (now : Z) (res : CallResult) (called : Z) (cancelled : bool)
    : breaker * option PoolError * list Audit :=
  let '(ok, until) := allow b now in
  if negb ok then (b, Some (BreakerOpen until), [])
  else
    match res with
    | CallOk =>
        let '(b', closed) := success b in (b', None, if closed then [BreakerClosed] else [])
    | CallNotAdvertised => (b, Some NotAdvertised, [])
    | CallFailed e =>
        if cancelled then (b, Some (CallError e), [])
        else
          let '(b', (opened, _, _)) := failure b called in
          (b', Some (CallError e), if opened then [BreakerOpened] else [])
    end.

(** * What the breaker promises

    The abstract state is the history of counted outcomes, newest first: a
    success, or a failure at an instant. *)
Inductive outcome := Good | Bad (at_ : Z).

Definition record (b : breaker) (o : outcome) : breaker :=
  match o with Good => (success b).1 | Bad t => (failure b t).1 end.

(** Consecutive failures at the head of a history. *)
Fixpoint streak (h : list outcome) : Z :=
  match h with Bad _ :: h' => 1 + streak h' | _ => 0 end.

Definition replay (h : list outcome) : breaker := foldr (λ o b, record b o) newBreaker h.

Definition history_open (h : list outcome) (now : Z) : Prop :=
  ∃ t h', h = Bad t :: h' ∧ breakerThreshold <= streak h ∧ now < t + breakerCooldown.

Lemma streak_nonneg (h : list outcome) : 0 <= streak h.
Proof. induction h as [|[|t] h IH]; simpl; lia. Qed.

Lemma replay_state (h : list outcome) :
  consecFails (replay h) = streak h ∧
  openUntil (replay h) =
    match h with
    | Bad t :: _ => if breakerThreshold <=? streak h then Some (t + breakerCooldown) else None
    | _ => None
    end.
Proof.
  induction h as [|[|t] h [IH1 IH2]]; [done|done|].
  cbn [replay foldr]. change (foldr (λ o b, record b o) newBreaker h) with (replay h).
  cbn [record]. unfold failure. rewrite IH1. cbn [streak].
  replace (streak h + 1) with (1 + streak h) by lia.
  destruct (Z.leb_spec breakerThreshold (1 + streak h)) as [Hle|Hlt]; [done|].
  cbn [fst consecFails openUntil]. split; [done|]. rewrite IH2.
  destruct h as [|[|t'] h']; [done|done|]. cbn [streak] in Hlt |- *.
  destruct (Z.leb_spec breakerThreshold (1 + streak h')); [lia|done].
Qed.

(** The breaker implements the history of outcomes: after any sequence of
    successes and failures, whoever made the calls and however they overlapped,
    it refuses a call exactly while the history ends in three or more failures
    in a row, the last of them less than the cooldown ago. *)
Lemma breaker_refines_history (h : list outcome) (now : Z) :
  (allow (replay h) now).1 = false ↔ history_open h now.
Proof.
  destruct (replay_state h) as [_ Ho]. unfold allow. rewrite Ho. unfold history_open. split.
  - destruct h as [|[|t] h']; [done|done|].
    destruct (Z.leb_spec breakerThreshold (streak (Bad t :: h'))); [|done].
    destruct (Z.ltb_spec now (t + breakerCooldown)); [|done]. intros _. by exists t, h'.
  - intros (t & h' & -> & Hs & Hn).
    destruct (Z.leb_spec breakerThreshold (streak (Bad t :: h'))); [|lia].
    destruct (Z.ltb_spec now (t + breakerCooldown)); [done|lia].
Qed.

(** ** A dead plugin behind one worker *)

(** A worker's run: events taken at [now], calls returning at [called]. *)
Record Event := mkEvent { ev_now : Z; ev_called : Z; ev_result : CallResult }.

Fixpoint worker (b : breaker) (es : list Event) : breaker * list (list Audit) :=
  match es with
  | [] => (b, [])
  | e :: es' =>
      let '(b1, a) := deliver b (ev_now e) (ev_result e) (ev_called e) in
      let '(b2, rest) := worker b1 es' in (b2, a :: rest)
  end.

(** Calls that went out: everything not dropped by the breaker. *)
Definition went_out (a : list Audit) : bool :=
  match a with [Dropped _] => false | _ => true end.
Definition calls_made (as_ : list (list Audit)) : Z := len (List.filter went_out as_).

(** The worker takes events one after the other. *)
Fixpoint sequential (from : Z) (es : list Event) : Prop :=
  match es with
  | [] => True
  | e :: es' => from <= ev_now e ∧ ev_now e <= ev_called e ∧ sequential (ev_called e) es'
  end.
Fixpoint end_time (from : Z) (es : list Event) : Z :=
  match es with [] => from | e :: es' => end_time (ev_called e) es' end.

Definition all_fail (es : list Event) : Prop :=
  Forall (λ e, ∃ m, ev_result e = CallFailed m) es.

Lemma end_time_le (from : Z) (es : list Event) : sequential from es → from <= end_time from es.
Proof.
  revert from. induction es as [|e es IH]; intros from; cbn; [lia|].
  intros (H1 & H2 & H3). specialize (IH _ H3). lia.
Qed.

Lemma deliver_open (b : breaker) (u now called : Z) (m : string) :
  openUntil b = Some u → breakerThreshold <= consecFails b →
  deliver b now (CallFailed m) called = (b, [Dropped "breaker_open"]) ∧ now < u ∨
  u <= now ∧ went_out (deliver b now (CallFailed m) called).2 = true ∧
    (deliver b now (CallFailed m) called).1 =
      mkBreaker (consecFails b + 1) (Some (called + breakerCooldown)).
Proof.
  intros Hu Hc. unfold deliver, allow. rewrite Hu.
  destruct (Z.ltb_spec now u); [by left|]. right. cbn [negb fst]. unfold failure.
  destruct (Z.leb_spec breakerThreshold (consecFails b + 1)); [done|lia].
Qed.

(** From an open breaker on, each further call costs a whole cooldown. *)
Lemma worker_open_rate (b : breaker) (from u : Z) (es : list Event) :
  openUntil b = Some u → breakerThreshold <= consecFails b → u <= from + breakerCooldown →
  sequential from es → all_fail es →
  0 < calls_made (worker b es).2 → u + (calls_made (worker b es).2 - 1) * breakerCooldown <= end_time from es.
Proof.
  revert b from u. induction es as [|e es IH]; intros b from u Hu Hc Hub Hseq Hf; cbn [worker].
  { intros Hc'. vm_compute in Hc'. discriminate. }
  apply Forall_cons in Hf as [[m Hm] Hf]. destruct Hseq as (H1 & H2 & H3). rewrite Hm.
  destruct (deliver_open b u (ev_now e) (ev_called e) m Hu Hc) as [[-> Hlt]|(Hge & Ho & Hb1)].
  - specialize (IH b (ev_called e) u Hu Hc ltac:(lia) H3 Hf).
    destruct (worker b es) as [b2 rest]. cbn [snd end_time] in *.
    unfold calls_made in *. cbn [List.filter went_out]. exact IH.
  - destruct (deliver b (ev_now e) (CallFailed m) (ev_called e)) as [b1 a]. cbn [fst snd] in *. subst b1.
    specialize (IH (mkBreaker (consecFails b + 1) (Some (ev_called e + breakerCooldown))) (ev_called e)
      (ev_called e + breakerCooldown) eq_refl). cbn [consecFails] in IH.
    specialize (IH ltac:(lia) ltac:(lia) H3 Hf). pose proof (end_time_le _ _ H3) as He.
    destruct (worker _ es) as [b2 rest]. cbn [snd end_time] in *.
    unfold calls_made in *. cbn [List.filter]. rewrite Ho, len_cons. intros _.
    pose proof (len_nonneg (List.filter went_out rest)).
    assert (0 < breakerCooldown) by done.
    destruct (Z.eq_dec (len (List.filter went_out rest)) 0) as [E|E]; [rewrite E; lia|].
    specialize (IH ltac:(lia)). lia.
Qed.

(** A plugin that keeps failing costs one call per cooldown: whatever the
    stream of events, a worker whose calls all fail makes at most three calls
    plus one for each whole cooldown of its running time. *)
Lemma failing_plugin_rate (from : Z) (es : list Event)
    (Hseq : sequential from es) (Hf : all_fail es) :
  (calls_made (worker newBreaker es).2 - 3) * breakerCooldown <= end_time from es - from.
Proof.
  assert (0 < breakerCooldown) as Hcd by done.
  (* the first events, while fewer than three have failed *)
  assert (∀ es b from, openUntil b = None → 0 <= consecFails b < breakerThreshold →
    sequential from es → all_fail es →
    (calls_made (worker b es).2 - (breakerThreshold - consecFails b)) * breakerCooldown
      <= end_time from es - from) as Hgen.
  { clear es from Hseq Hf. induction es as [|e es IH]; intros b from Hu Hc Hseq Hf; cbn [worker].
    { change (calls_made (b, @nil (list Audit)).2) with 0. cbn [end_time]. nia. }
    apply Forall_cons in Hf as [[m Hm] Hf]. destruct Hseq as (H1 & H2 & H3).
    pose proof (end_time_le _ _ H3) as He. rewrite Hm. unfold deliver, allow. rewrite Hu. cbn [fst negb].
    unfold failure. destruct (Z.leb_spec breakerThreshold (consecFails b + 1)) as [Hle|Hlt].
    - pose proof (worker_open_rate (mkBreaker (consecFails b + 1) (Some (ev_called e + breakerCooldown)))
        (ev_called e) (ev_called e + breakerCooldown) es eq_refl) as Hr. cbn [consecFails] in Hr.
      specialize (Hr ltac:(lia) ltac:(lia) H3 Hf).
      destruct (worker _ es) as [b2 rest]. cbn [snd end_time] in *. unfold calls_made in *.
      cbn [List.filter went_out]. rewrite len_cons.
      pose proof (len_nonneg (List.filter went_out rest)).
      destruct (Z.eq_dec (len (List.filter went_out rest)) 0) as [E|E]; [rewrite E; nia|].
      specialize (Hr ltac:(lia)). nia.
    - specialize (IH (mkBreaker (consecFails b + 1) (openUntil b)) (ev_called e) Hu).
      cbn [consecFails] in IH. specialize (IH ltac:(lia) H3 Hf).
      destruct (worker _ es) as [b2 rest]. cbn [snd end_time] in *. unfold calls_made in *.
      cbn [List.filter went_out]. rewrite len_cons. nia. }
  specialize (Hgen es newBreaker from eq_refl ltac:(cbn; unfold breakerThreshold; lia) Hseq Hf).
  cbn [consecFails newBreaker] in Hgen. unfold breakerThreshold in Hgen. lia.
Qed.

(** Ten events a second apart to a dead plugin: three calls go out. *)
Definition dead_events : list Event :=
  (λ i : nat, mkEvent (Z.of_nat i * 1000000000) (Z.of_nat i * 1000000000 + 5) (CallFailed "down")) <$> seq 0 10.

Lemma failing_plugin_rate_witness :
  calls_made (worker newBreaker dead_events).2 = 3 ∧
  (calls_made (worker newBreaker dead_events).2 - 3) * breakerCooldown <= end_time 0 dead_events - 0.
Proof.
  split; [vm_compute; reflexivity|]. apply (failing_plugin_rate 0 dead_events).
  - vm_compute. repeat split; discriminate.
  - unfold dead_events. repeat constructor; eexists; reflexivity.
Defined.

(** * The registry and the client pool *)
Inductive Role := RoleNotification | RoleMetadata | RoleTask.

Record Plugin := mkPlugin {
  PluginID : string; PluginName : string; PluginRole : Role;
  EndpointURL : string; AllowedHosts : list string; PluginEnabled : bool
}.

(** The registry's validation of what an admin enters. *)
Definition maxAllowedHosts : Z := 64.
Definition maxHostLength : Z := 253.

Definition validateName (name : string) : bool := negb (String.eqb name "") && (slen name <=? 200).

Definition host_char_ok (c : ascii) : bool :=
  negb (mem c ["/"%char; "?"%char; "#"%char; "@"%char; " "%char; chr 9]).
Definition validateHost (h : string) : bool :=
  negb (String.eqb h "") && (slen h <=? maxHostLength) && sforall host_char_ok h.

(** The stored list: blanks dropped, the rest trimmed and checked. *)
Fixpoint clean_hosts (hosts : list string) : option (list string) :=
  match hosts with
  | [] => Some []
  | h :: hs =>
      let h := TrimSpace h in
      if String.eqb h "" then clean_hosts hs
      else if negb (validateHost h) then None
      else match clean_hosts hs with Some l => Some (h :: l) | None => None end
  end.
Definition encodeHosts (hosts : list string) : option (list string) :=
  if maxAllowedHosts <? len hosts then None else clean_hosts hosts.

Definition equalStringSets (a b : list string) : bool :=
  bool_decide (length a = length b) && forallb (λ s, mem s a) b.

(** [allowedHostSet]: case-folded, the endpoint's own host included.  The
    host part of a URL is [net/url]'s to find. *)
Definition newAllowedHostSet (hostname : string → option string) (endpoint : string) (hosts : list string)
    : option (list string) :=
  match hostname endpoint with
  | None => None
  | Some h =>
      Some ((if String.eqb h "" then [] else [ToLower h]) ++
            (ToLower <$> List.filter (λ x, negb (String.eqb x "")) (TrimSpace <$> hosts)))
  end.
Definition allows (s : list string) (host : string) : bool := mem (ToLower host) s.

Record poolEntry := mkEntry { e_plugin : Plugin; e_breaker : breaker; e_allowed : list string }.
Record clientPool := mkPool { entries : gmap string poolEntry; pool_closed : bool }.

Section Pool.
Context (hostname : string → option string).

(** [entryFor]: the cached entry while endpoint and allowlist stand, else a
    new one; an error drops the old entry. *)
Definition build_entry (p : Plugin) : option poolEntry :=
  match newAllowedHostSet hostname (EndpointURL p) (AllowedHosts p) with
  | Some allowed => Some (mkEntry p newBreaker allowed)
  | None => None
  end.

Definition entryFor (cp : clientPool) (p : Plugin) : clientPool * option poolEntry :=
  if pool_closed cp then (cp, None)
  else
    let fresh (es : gmap string poolEntry) :=
      match build_entry p with
      | Some e => (mkPool (<[PluginID p := e]> es) false, Some e)
      | None => (mkPool es false, None)
      end in
    match entries cp !! PluginID p with
    | Some e =>
        if String.eqb (EndpointURL (e_plugin e)) (EndpointURL p)
           && equalStringSets (AllowedHosts (e_plugin e)) (AllowedHosts p)
        then (cp, Some e)
        else fresh (delete (PluginID p) (entries cp))
    | None => fresh (entries cp)
    end.

(** Every entry's host set is that of the plugin it was built for. *)
Definition pool_ok (cp : clientPool) : Prop :=
  ∀ id e, entries cp !! id = Some e →
    newAllowedHostSet hostname (EndpointURL (e_plugin e)) (AllowedHosts (e_plugin e)) = Some (e_allowed e).

Lemma entryFor_ok (cp : clientPool) (p : Plugin) : pool_ok cp → pool_ok (entryFor cp p).1.
Proof.
  intros Hok. unfold entryFor. destruct (pool_closed cp); [done|].
  assert (∀ es, (∀ id e, es !! id = Some e → entries cp !! id = Some e) →
    pool_ok (match build_entry p with
             | Some e => (mkPool (<[PluginID p := e]> es) false, Some e)
             | None => (mkPool es false, None) end).1) as Hf.
  { intros es Hes. unfold build_entry.
    destruct (newAllowedHostSet hostname (EndpointURL p) (AllowedHosts p)) eqn:E; intros id e; cbn.
    - rewrite lookup_insert_Some. intros [[<- <-]|[_ H]]; [done|]. by apply (Hok id), Hes.
    - intros H. by apply (Hok id), Hes. }
  destruct (entries cp !! PluginID p); [|by apply Hf].
  destruct (_ && _); [done|]. apply Hf. intros id e. rewrite lookup_delete_Some. by intros [_ ?].
Qed.
End Pool.

(** ** Dialling *)
Inductive DialResult := Connected (ip : IP) | DialRefused | DialFailed.

(** The resolver's answer for a host and whether a connection succeeds. *)
Definition dial (allowed : list string) (lookup : string → option (list IP)) (connects : IP → bool)
    (host : string) : DialResult :=
  if negb (allows allowed host) then DialRefused
  else
    match lookup host with
    | None => DialFailed
    | Some ips =>
        if existsb IsBlocked ips then DialRefused
        else match find_first connects ips with Some ip => Connected ip | None => DialFailed end
    end.

(** Lists without repetition are compared as sets. *)
Lemma equalStringSets_perm (a b : list string) :
  NoDup b → equalStringSets a b = true ↔ a ≡ₚ b.
Proof.
  intros Hb. unfold equalStringSets. rewrite andb_true_iff, bool_decide_eq_true, forallb_Forall_iff.
  split.
  - intros [Hl Hf]. symmetry. apply submseteq_length_Permutation; [|lia].
    apply NoDup_submseteq; [done|]. intros x Hx. rewrite Forall_forall in Hf. by apply mem_spec, Hf.
  - intros Hp. split; [by rewrite Hp|]. apply Forall_forall. intros x Hx. apply mem_spec. by rewrite Hp.
Qed.

(** With a repeated entry a dropped host goes unnoticed. *)
Example equalStringSets_repeated : equalStringSets ["a.example"; "b.example"] ["a.example"; "a.example"] = true.
Proof. reflexivity. Qed.

Lemma allowed_set_perm (hostname : string → option string) (url : string) (a b l k : list string) (h : string) :
  a ≡ₚ b → newAllowedHostSet hostname url a = Some l → newAllowedHostSet hostname url b = Some k →
  allows l h = allows k h.
Proof.
  unfold newAllowedHostSet, allows. intros Hp. destruct (hostname url) as [u|]; [|done].
  intros [= <-] [= <-]. apply bool_decide_ext. rewrite !elem_of_app, !list_elem_of_fmap.
  setoid_rewrite elem_of_List_filter. setoid_rewrite list_elem_of_fmap. by setoid_rewrite Hp.
Qed.

(** What a plugin's connection can reach: through the entry the pool hands
    out for the plugin as it is registered now, a connection is made only to a
    host on its current allowlist or its own endpoint, at an address the host
    resolved to, and only when every address of the host is public. *)
Lemma plugin_egress_safe (hostname : string → option string) (cp cp' : clientPool) (p : Plugin)
    (e : poolEntry) (lookup : string → option (list IP)) (connects : IP → bool) (host : string) (ip : IP)
    (Hok : pool_ok hostname cp) (Hnd : NoDup (AllowedHosts p))
    (He : entryFor hostname cp p = (cp', Some e))
    (Hd : dial (e_allowed e) lookup connects host = Connected ip) :
  (∃ l, newAllowedHostSet hostname (EndpointURL p) (AllowedHosts p) = Some l ∧ ToLower host ∈ l) ∧
  (∃ ips, lookup host = Some ips ∧ ip ∈ ips ∧ Forall (λ x, IsBlocked x = false) ips) ∧
  pool_ok hostname cp'.
Proof.
  pose proof (entryFor_ok hostname cp p Hok) as Hok'. rewrite He in Hok'. cbn [fst] in Hok'.
  unfold dial in Hd. destruct (allows (e_allowed e) host) eqn:Ha; [|done]. cbn [negb] in Hd.
  destruct (lookup host) as [ips|]; [|done].
  destruct (existsb IsBlocked ips) eqn:Hb; [done|].
  destruct (find_first connects ips) as [x|] eqn:Hfnd; [|done]. simplify_eq.
  apply find_first_Some in Hfnd as [Hin _].
  split; [|split; [|done]].
  - assert (∀ es, match build_entry hostname p with
              | Some e => (mkPool (<[PluginID p := e]> es) false, Some e)
              | None => (mkPool es false, None) end = (cp', Some e) →
            newAllowedHostSet hostname (EndpointURL p) (AllowedHosts p) = Some (e_allowed e)) as Hfresh.
    { intros es. unfold build_entry. destruct (newAllowedHostSet _ _ _); [|done]. by intros [= _ <-]. }
    assert (∃ l, newAllowedHostSet hostname (EndpointURL p) (AllowedHosts p) = Some l ∧
              allows l host = true) as (l & Hl & Hal).
    { unfold entryFor in He. destruct (pool_closed cp); [done|].
      destruct (entries cp !! PluginID p) as [e0|] eqn:E0; [|by eexists; eauto].
      destruct (String.eqb _ _ && equalStringSets _ _) eqn:Heq; [|by eexists; eauto].
      simplify_eq. apply andb_true_iff in Heq as [Hu Hs]. apply String.eqb_eq in Hu.
      apply equalStringSets_perm in Hs; [|done]. pose proof (Hok _ _ E0) as Hset. rewrite Hu in Hset.
      destruct (newAllowedHostSet hostname (EndpointURL p) (AllowedHosts p)) as [l|] eqn:El.
      - exists l. split; [done|]. by rewrite <- (allowed_set_perm hostname _ _ _ _ _ host Hs Hset El).
      - unfold newAllowedHostSet in *. by destruct (hostname (EndpointURL p)). }
    exists l. split; [done|]. by apply mem_spec.
  - exists ips. split; [done|]. split; [done|]. apply Forall_forall. intros x Hx.
    destruct (IsBlocked x) eqn:Ex; [|done]. exfalso.
    assert (existsb IsBlocked ips = true) as Ht; [|congruence].
    apply existsb_exists_elem. by exists x.
Qed.

Definition sample_plugin : Plugin :=
  mkPlugin "p1" "notify" RoleNotification "https://hook.example/mcp" ["api.example"] true.

Lemma plugin_egress_safe_witness :
  let hostname := (λ _, Some "hook.example") in
  ∃ l, newAllowedHostSet hostname (EndpointURL sample_plugin) (AllowedHosts sample_plugin) = Some l ∧
    ToLower "API.example" ∈ l.
Proof.
  refine (proj1 (plugin_egress_safe (λ _, Some "hook.example") (mkPool ∅ false) _ sample_plugin
    (mkEntry sample_plugin newBreaker ["hook.example"; "api.example"])
    (λ _, Some [[93; 184; 216; 34]]) (λ _, true) "API.example" [93; 184; 216; 34] _ _ _ _)).
  - intros id e H. vm_compute in H. discriminate.
  - repeat constructor; set_solver.
  - vm_compute. reflexivity.
  - vm_compute. reflexivity.
Defined.
