(* ===== verification/Scheduler.v ===== *)
(** The task scheduler: [internal/scheduler/scheduler.go] and [pgx.go], with
    the statements of [scheduled_tasks.sql].

    Instants are nanoseconds since the epoch.  The cron library is a parameter:
    it parses an expression to a function giving the next activation, the zero
    time when there is none within its search horizon.  A lease is one
    transaction that skips rows other instances hold locked. *)
From S2P Require Import Prelude.
From S2P Require Import GoStrings.
From S2P Require Import GoBytes.

Local Open Scope Z_scope.

Record Task := mkTask {
  ID : string;
  TaskType : string;
  Config : string;
  CronExpr : string;
  Enabled : bool;
  NextRunAt : Z;
  LastStatus : string;
  LastError : string
}.
#[export] Instance eta_Task : Eta Task :=
  λ t, mkTask (ID t) (TaskType t) (Config t) (CronExpr t) (Enabled t) (NextRunAt t) (LastStatus t) (LastError t).

(** [task_runs] *)
Record Run := mkRun { run_id : nat; run_task : string; run_status : string; run_output : string; run_error : string }.

(** [time.Time{}]: the first of January of year one. *)
Definition zeroTime : Z := -62135596800 * 1000000000.
Definition hundred_years : Z := 100 * 365 * 24 * 3600 * 1000000000.
Definition batchSize : nat := 16.

Section Scheduler.
(** [cron.ParseStandard] and [Schedule.Next]. *)
Context (ParseStandard : string → option (Z → Z)).

Definition NextRun (expr : string) (after : Z) : option Z :=
  match ParseStandard expr with Some next => Some (next after) | None => None end.

(** The callback of the lease; [now] is the instance's clock. *)
Definition nextRunFor (now : Z) (t : Task) : Z :=
  match NextRun (CronExpr t) now with
  | Some next => next
  | None => now + hundred_years
  end.

(** ** The lease *)
Definition due (now : Z) (t : Task) : bool := Enabled t && (NextRunAt t <=? now).

Definition earlier (a b : Task) : Prop := NextRunAt a <= NextRunAt b.
#[global] Instance earlier_dec : RelDecision earlier.
Proof. intros a b. unfold earlier. apply _. Defined.

(** [LeaseDueScheduledTasks]: rows another transaction holds are skipped. *)
Definition LeaseDueScheduledTasks (tasks : list Task) (locked : list string) (limit : nat) (now : Z)
    : list Task :=
  take limit (merge_sort earlier (List.filter (λ t, due now t && negb (mem (ID t) locked)) tasks)).

Definition SetScheduledTaskNextRun (id : string) (next : Z) (tasks : list Task) : list Task :=
  (λ t, if String.eqb (ID t) id then t <| NextRunAt := next |> else t) <$> tasks.

(** One lease transaction: the tasks to dispatch and the table after it.  The
    rows are chosen by the database's clock, [db_now], and advanced by the
    instance's, [now]. *)
Definition LeaseDueTasks (tasks : list Task) (locked : list string) (limit : nat) (db_now now : Z)
    : list Task * list Task :=
  let rows := LeaseDueScheduledTasks tasks locked limit db_now in
  (rows, foldl (λ ts r, SetScheduledTaskNextRun (ID r) (nextRunFor now r) ts) tasks rows).

(** ** Running a leased task *)

(** A handler returns text and perhaps an error, or panics; a panic's text
    ends with the stack trace. *)
Inductive HandlerResult := Returned (output : string) (err : option string) | Panicked (v : string).

Definition safeRun (r : HandlerResult) : string * option string :=
  match r with
  | Returned out e => (out, e)
  | Panicked v => ("", Some ("handler panic: " +:+ v))
  end.

Record Store := mkStore { tasks : list Task; runs : list Run }.

Definition CreateTaskRun (s : Store) (taskID : string) : Store * nat :=
  let id := S (length (runs s)) in
  (mkStore (tasks s) (runs s ++ [mkRun id taskID "running" "" ""]), id).
Definition FinishTaskRun (id : nat) (status output err : string) (s : Store) : Store :=
  mkStore (tasks s)
    ((λ r, if Nat.eqb (run_id r) id then mkRun id (run_task r) status output err else r) <$> runs s).
Definition RecordScheduledTaskResult (taskID status err : string) (s : Store) : Store :=
  mkStore ((λ t, if String.eqb (ID t) taskID
                 then mkTask (ID t) (TaskType t) (Config t) (CronExpr t) (Enabled t) (NextRunAt t) status err
                 else t) <$> tasks s) (runs s).

(** Whether each status write succeeds. *)
Record Writes := mkWrites { create_ok : bool; finish_ok : bool; record_ok : bool }.

Definition when (b : bool) (f : Store → Store) (s : Store) : Store := if b then f s else s.

Definition recordSuccess (w : Writes) (taskID : string) (runID : option nat) (output : string) (s : Store) : Store :=
  let s := match runID with Some id => when (finish_ok w) (FinishTaskRun id "success" output "") s | None => s end in
  when (record_ok w) (RecordScheduledTaskResult taskID "success" "") s.
Definition recordFailure (w : Writes) (taskID : string) (runID : option nat) (output err : string) (s : Store) : Store :=
  let s := match runID with Some id => when (finish_ok w) (FinishTaskRun id "failed" output err) s | None => s end in
  when (record_ok w) (RecordScheduledTaskResult taskID "failed" err) s.

(** The result hook's calls: the task and its error, if any. *)
Abbreviation hook := (list (string * option string)).

Definition execute (handlers : gmap string (string → HandlerResult)) (w : Writes) (s : Store) (t : Task)
    : Store * hook :=
  match handlers !! TaskType t with
  | None =>
      let e := "unknown task type: " +:+ TaskType t in
      (recordFailure w (ID t) None "" e s, [(ID t, Some e)])
  | Some h =>
      if negb (create_ok w) then (s, [])
      else
        let '(s, runID) := CreateTaskRun s (ID t) in
        let '(output, err) := safeRun (h (Config t)) in
        match err with
        | Some e => (recordFailure w (ID t) (Some runID) output e s, [(ID t, Some e)])
        | None => (recordSuccess w (ID t) (Some runID) output s, [(ID t, None)])
        end
  end.

(** One tick of one instance: the lease, then every leased task. *)
Definition tick (handlers : gmap string (string → HandlerResult)) (w : Writes) (s : Store)
    (locked : list string) (db_now now : Z) : Store * hook :=
  let '(leased, ts) := LeaseDueTasks (tasks s) locked batchSize db_now now in
  foldl (λ '(s, log) t, let '(s', l) := execute handlers w s t in (s', log ++ l))
    (mkStore ts (runs s), []) leased.

(** * The lease *)
Definition advanced (now : Z) (leased : list Task) (t : Task) : Task :=
  if existsb (λ r, String.eqb (ID r) (ID t)) leased then t <| NextRunAt := nextRunFor now t |> else t.

Definition table_ok (ts : list Task) : Prop := NoDup (ID <$> ts).

Lemma SetNext_ids (id : string) (n : Z) (ts : list Task) :
  ID <$> SetScheduledTaskNextRun id n ts = ID <$> ts.
Proof.
  unfold SetScheduledTaskNextRun. rewrite <- list_fmap_compose. apply list_fmap_ext.
  intros i t _. cbn. by destruct (String.eqb (ID t) id).
Qed.

Lemma lease_rows (ts : list Task) (locked : list string) (limit : nat) (now : Z) (t : Task) :
  t ∈ LeaseDueScheduledTasks ts locked limit now →
  t ∈ ts ∧ due now t = true ∧ ID t ∉ locked.
Proof.
  unfold LeaseDueScheduledTasks. intros H. apply elem_of_take in H as (i & H & _).
  apply list_elem_of_lookup_2 in H. rewrite merge_sort_Permutation in H.
  apply elem_of_List_filter in H as [Hin Hb]. breflect. tauto.
Qed.

Lemma lease_rows_nodup (ts : list Task) (locked : list string) (limit : nat) (now : Z) :
  table_ok ts → NoDup (ID <$> LeaseDueScheduledTasks ts locked limit now).
Proof.
  unfold table_ok, LeaseDueScheduledTasks. intros Hnd. rewrite fmap_take. eapply sublist_NoDup; [|apply sublist_take].
  rewrite merge_sort_Permutation. revert Hnd. induction ts as [|t ts IH]; [done|].
  cbn [fmap list_fmap List.filter]. intros [Ht Hnd]%NoDup_cons.
  destruct (due now t && negb (mem (ID t) locked)); [|by apply IH].
  cbn [fmap list_fmap]. constructor; [|by apply IH].
  intros Hin. apply Ht. apply list_elem_of_fmap in Hin as (t' & -> & Hin).
  apply elem_of_List_filter in Hin as [Hin _]. by apply list_elem_of_fmap_2.
Qed.

Lemma SetNext_lookup (id : string) (n : Z) (ts : list Task) (t' : Task) :
  t' ∈ SetScheduledTaskNextRun id n ts ↔
  ∃ t, t ∈ ts ∧ t' = if String.eqb (ID t) id then t <| NextRunAt := n |> else t.
Proof. unfold SetScheduledTaskNextRun. rewrite list_elem_of_fmap. naive_solver. Qed.

(** Setting a leased row twice is impossible, so the fold sets each once. *)
Lemma foldl_advance (now : Z) (leased ts : list Task) :
  NoDup (ID <$> leased) → NoDup (ID <$> ts) → (∀ r, r ∈ leased → r ∈ ts) →
  foldl (λ ts r, SetScheduledTaskNextRun (ID r) (nextRunFor now r) ts) ts leased =
    advanced now leased <$> ts.
Proof.
  intros Hnd Hts Hin.
  assert (∀ pre ts', leased = pre ++ ts' →
    foldl (λ ts r, SetScheduledTaskNextRun (ID r) (nextRunFor now r) ts) (advanced now pre <$> ts) ts' =
      advanced now leased <$> ts) as H.
  { intros pre ts'. revert pre. induction ts' as [|r ts' IH]; intros pre E; cbn [foldl].
    { by rewrite E, app_nil_r. }
    rewrite <- (IH (pre ++ [r])) by (by rewrite E, <- (assoc_L (++))). f_equal.
    unfold SetScheduledTaskNextRun. rewrite <- list_fmap_compose. apply list_fmap_ext.
    intros i t Ht. cbn. unfold advanced. rewrite existsb_app. cbn [existsb].
    assert (r ∈ ts) as Hr by (apply Hin; rewrite E; apply elem_of_app; right; left).
    apply list_elem_of_lookup_2 in Ht.
    destruct (existsb (λ r0, String.eqb (ID r0) (ID t)) pre) eqn:Ep; cbn.
    - change (ID (t <| NextRunAt := nextRunFor now t |>)) with (ID t).
      destruct (String.eqb_spec (ID t) (ID r)) as [Eid|]; [exfalso|done].
      apply existsb_exists_elem in Ep as (x & Hx & Hxe). apply String.eqb_eq in Hxe.
      rewrite E, fmap_app in Hnd. apply NoDup_app in Hnd as (_ & Hdis & _).
      apply (Hdis (ID x)); [by apply list_elem_of_fmap_2|]. rewrite Hxe, Eid. left.
    - rewrite orb_false_r, (String.eqb_sym (ID r)).
      destruct (String.eqb_spec (ID t) (ID r)) as [Eid|]; [|done].
      assert (t = r) as ->; [|done]. apply list_elem_of_lookup_1 in Ht as [k Hk].
      apply list_elem_of_lookup_1 in Hr as [l Hl].
      assert (k = l) as ->; [|congruence].
      apply (NoDup_lookup (ID <$> ts) k l (ID t)); [done|by rewrite list_lookup_fmap, Hk|].
      rewrite list_lookup_fmap, Hl. cbn. congruence. }
  specialize (H [] leased eq_refl).
  assert (advanced now [] <$> ts = ts) as E by (transitivity (id <$> ts); [done|apply list_fmap_id]).
  by rewrite E in H.
Qed.

Lemma LeaseDueTasks_eq (ts : list Task) (locked : list string) (limit : nat) (db_now now : Z) :
  table_ok ts →
  let leased := LeaseDueScheduledTasks ts locked limit db_now in
  LeaseDueTasks ts locked limit db_now now = (leased, advanced now leased <$> ts).
Proof.
  intros Hok. unfold LeaseDueTasks. f_equal. apply foldl_advance; [by apply lease_rows_nodup|done|].
  intros r Hr. by apply lease_rows in Hr as (? & _ & _).
Qed.

(** * Polls of any number of instances

    Leases are transactions, so the polls of all instances form one
    sequence; each has the two clocks' readings and the rows it found
    held. *)
Record Poll := mkPoll { at_db : Z; at_inst : Z; held : list string }.

Definition dispatched (rows : list Task) : list (string * Z) := (λ r, (ID r, NextRunAt r)) <$> rows.

Fixpoint polls (ps : list Poll) (ts : list Task) : list Task * list (string * Z) :=
  match ps with
  | [] => (ts, [])
  | p :: ps =>
      let '(rows, ts') := LeaseDueTasks ts (held p) batchSize (at_db p) (at_inst p) in
      let '(ts'', log) := polls ps ts' in
      (ts'', dispatched rows ++ log)
  end.

(** The schedule's documented contract: the next activation is later than
    the instant asked about.  It excludes the zero time. *)
Definition cron_law (ts : list Task) : Prop :=
  ∀ t, t ∈ ts → ∀ next, ParseStandard (CronExpr t) = Some next → ∀ now, now < next now.

Lemma advanced_fields (now : Z) (rows : list Task) (t : Task) :
  ID (advanced now rows t) = ID t ∧ CronExpr (advanced now rows t) = CronExpr t.
Proof. unfold advanced. by destruct (existsb _ rows). Qed.

Lemma advanced_table (now : Z) (rows ts : list Task) :
  table_ok ts → cron_law ts → table_ok (advanced now rows <$> ts) ∧ cron_law (advanced now rows <$> ts).
Proof.
  intros Hok Hlaw. split.
  - unfold table_ok. rewrite <- list_fmap_compose.
    rewrite (list_fmap_ext _ ID _); [done|]. intros. apply advanced_fields.
  - intros t' (t & -> & Ht)%list_elem_of_fmap next.
    destruct (advanced_fields now rows t) as [_ ->]. by apply Hlaw.
Qed.

Lemma nextRunFor_later (now : Z) (ts : list Task) (t : Task) :
  cron_law ts → t ∈ ts → now < nextRunFor now t.
Proof.
  intros Hlaw Ht. unfold nextRunFor, NextRun. destruct (ParseStandard (CronExpr t)) as [next|] eqn:E.
  - by eapply Hlaw.
  - unfold hundred_years. lia.
Qed.

Lemma same_id (ts : list Task) (a b : Task) : table_ok ts → a ∈ ts → b ∈ ts → ID a = ID b → a = b.
Proof.
  intros Hok [i Hi]%list_elem_of_lookup_1 [j Hj]%list_elem_of_lookup_1 E.
  assert (i = j) as ->; [|congruence].
  apply (NoDup_lookup (ID <$> ts) i j (ID a)); [done|by rewrite list_lookup_fmap, Hi|].
  rewrite list_lookup_fmap, Hj. cbn. congruence.
Qed.

(** A leased row's next run is after the instant it was due; another row
    keeps its own. *)
Lemma advanced_later (p : Poll) (ts : list Task) (t : Task) :
  table_ok ts → cron_law ts → at_db p <= at_inst p → t ∈ ts →
  let rows := LeaseDueScheduledTasks ts (held p) batchSize (at_db p) in
  NextRunAt t <= NextRunAt (advanced (at_inst p) rows t) ∧
  (t ∈ rows → NextRunAt t < NextRunAt (advanced (at_inst p) rows t)).
Proof.
  intros Hok Hlaw Hclk Ht rows.
  assert (t ∈ rows → NextRunAt t < nextRunFor (at_inst p) t) as Hlt.
  { intros (_ & Hdue & _)%lease_rows. apply andb_true_iff in Hdue as [_ Hdue]. apply Z.leb_le in Hdue.
    pose proof (nextRunFor_later (at_inst p) ts t Hlaw Ht). lia. }
  unfold advanced. destruct (existsb _ rows) eqn:Ex.
  - change (NextRunAt (t <| NextRunAt := nextRunFor (at_inst p) t |>)) with (nextRunFor (at_inst p) t).
    apply existsb_exists_elem in Ex as (r & Hr & E). apply String.eqb_eq in E.
    assert (r = t) as -> by (apply (same_id ts); [done|by apply lease_rows in Hr as (? & _)|done|done]).
    specialize (Hlt Hr). split; [lia|done].
  - split; [lia|]. intros Hin. exfalso. apply not_true_iff_false in Ex. apply Ex.
    apply existsb_exists_elem. exists t. split; [done|by apply String.eqb_refl].
Qed.

Definition strictly_later (x y : string * Z) : Prop := x.1 = y.1 → x.2 < y.2.

Lemma later_nodup (l : list (string * Z)) : StronglySorted strictly_later l → NoDup l.
Proof.
  induction l as [|x l IH]; intros H; [constructor|]. apply StronglySorted_inv in H as [H Hx].
  constructor; [|by apply IH]. intros Hin. rewrite Forall_forall in Hx. specialize (Hx x Hin eq_refl). lia.
Qed.

Lemma rows_sorted (rows : list Task) : NoDup (ID <$> rows) → StronglySorted strictly_later (dispatched rows).
Proof.
  induction rows as [|r rows IH]; [constructor|]. cbn. intros [Hr Hnd]%NoDup_cons.
  constructor; [by apply IH|]. apply Forall_forall. intros x (t & -> & Ht)%list_elem_of_fmap E.
  exfalso. apply Hr. cbn in E. rewrite E. by apply list_elem_of_fmap_2.
Qed.

Lemma polls_later (ps : list Poll) (ts : list Task) (x : string * Z) :
  table_ok ts → cron_law ts → Forall (λ p, at_db p <= at_inst p) ps → x ∈ (polls ps ts).2 →
  ∃ t, t ∈ ts ∧ ID t = x.1 ∧ NextRunAt t <= x.2.
Proof.
  revert ts. induction ps as [|p ps IH]; intros ts Hok Hlaw Hclk; [by intros []%not_elem_of_nil|].
  apply Forall_cons in Hclk as [Hp Hclk]. cbn [polls].
  rewrite (LeaseDueTasks_eq ts _ _ _ _ Hok).
  set (rows := LeaseDueScheduledTasks _ _ _ _).
  destruct (advanced_table (at_inst p) rows ts Hok Hlaw) as [Hok' Hlaw'].
  specialize (IH _ Hok' Hlaw' Hclk). destruct (polls ps _) as [ts'' log]. cbn [snd] in *.
  intros [Hin|Hin]%elem_of_app.
  - apply list_elem_of_fmap in Hin as (t & -> & Ht). apply lease_rows in Ht as (Ht & _). by exists t.
  - destruct (IH Hin) as (t' & (t & -> & Ht)%list_elem_of_fmap & E & Hle).
    exists t. rewrite <- E. split; [done|]. split; [symmetry; apply advanced_fields|].
    destruct (advanced_later p ts t Hok Hlaw Hp Ht) as [H _]. unfold rows in Hle. lia.
Qed.

(** C5: However many instances poll, in whatever order and with whatever rows
    locked, each task's dispatched activations strictly increase, so no
    activation is ever run twice, provided no instance's clock is behind the
    database's and every expression has a next activation. *)
Theorem scheduler_fires_once (ps : list Poll) (ts : list Task) :
  table_ok ts → cron_law ts → Forall (λ p, at_db p <= at_inst p) ps →
  StronglySorted strictly_later (polls ps ts).2 ∧ NoDup (polls ps ts).2.
Proof.
  intros Hok Hlaw Hclk.
  assert (StronglySorted strictly_later (polls ps ts).2) as H.
  { revert ts Hok Hlaw. induction ps as [|p ps IH]; intros ts Hok Hlaw; [constructor|].
    apply Forall_cons in Hclk as [Hp Hclk]. cbn [polls]. rewrite (LeaseDueTasks_eq ts _ _ _ _ Hok).
    pose proof (lease_rows_nodup ts (held p) batchSize (at_db p) Hok) as Hnd.
    pose proof (advanced_later p ts) as Hadv. cbv zeta in Hadv.
    pose proof (λ t, lease_rows ts (held p) batchSize (at_db p) t) as Hin.
    set (rows := LeaseDueScheduledTasks _ _ _ _) in *.
    destruct (advanced_table (at_inst p) rows ts Hok Hlaw) as [Hok' Hlaw'].
    pose proof (polls_later ps (advanced (at_inst p) rows <$> ts)) as Hlater.
    specialize (IH Hclk _ Hok' Hlaw'). destruct (polls ps _) as [ts'' log]. cbn [snd] in *.
    apply StronglySorted_app_2; [|by apply rows_sorted|done].
    intros x y (r & -> & Hr)%list_elem_of_fmap Hy E. cbn in E |- *.
    destruct (Hlater y Hok' Hlaw' Hclk Hy) as (t' & (t & -> & Ht)%list_elem_of_fmap & Ei & Hle).
    destruct (advanced_fields (at_inst p) rows t) as [Eid _].
    assert (r = t) as -> by (apply (same_id ts); [done|by apply Hin|done|congruence]).
    destruct (Hadv t Hok Hlaw Hp Ht) as [_ Hlt]. specialize (Hlt Hr). lia. }
  split; [done|by apply later_nodup].
Qed.

(** * Running the leased tasks *)

(** What the finished [task_runs] row of a task holds. *)
Definition finished (id : nat) (t : Task) (h : string → HandlerResult) : Run :=
  let '(output, err) := safeRun (h (Config t)) in
  match err with
  | Some e => mkRun id (ID t) "failed" output e
  | None => mkRun id (ID t) "success" output ""
  end.

Definition heard (t : Task) (h : string → HandlerResult) : string * option string :=
  (ID t, (safeRun (h (Config t))).2).

Definition record (t : Task) (r : Run) (ts : list Task) : list Task :=
  (λ x, if String.eqb (ID x) (ID t)
        then mkTask (ID x) (TaskType x) (Config x) (CronExpr x) (Enabled x) (NextRunAt x) (run_status r) (run_error r)
        else x) <$> ts.

Definition runs_ok (s : Store) : Prop := Forall (λ r, (run_id r <= length (runs s))%nat) (runs s).

Definition all_writes : Writes := mkWrites true true true.

Lemma finish_new (s : Store) (taskID status output err : string) :
  runs_ok s →
  let '(s', id) := CreateTaskRun s taskID in
  FinishTaskRun id status output err s' = mkStore (tasks s) (runs s ++ [mkRun id taskID status output err]).
Proof.
  intros Hok. unfold CreateTaskRun, FinishTaskRun. cbn [tasks runs]. f_equal.
  rewrite fmap_app. f_equal; [|cbn; by rewrite Nat.eqb_refl].
  transitivity (id <$> runs s); [|apply list_fmap_id].
  apply list_fmap_ext. intros i r Hr. apply list_elem_of_lookup_2 in Hr.
  unfold runs_ok in Hok. rewrite Forall_forall in Hok. specialize (Hok r Hr).
  destruct (Nat.eqb_spec (run_id r) (S (length (runs s)))); [lia|done].
Qed.

Lemma execute_finished (handlers : gmap string (string → HandlerResult)) (s : Store) (t : Task) (h : string → HandlerResult) :
  runs_ok s → handlers !! TaskType t = Some h →
  let r := finished (S (length (runs s))) t h in
  execute handlers all_writes s t = (mkStore (record t r (tasks s)) (runs s ++ [r]), [heard t h]).
Proof.
  intros Hok Hh. unfold execute, finished, heard. rewrite Hh. cbn [create_ok all_writes negb].
  destruct (safeRun (h (Config t))) as [output [e|]]; unfold recordFailure, recordSuccess, when, all_writes; cbn [finish_ok record_ok].
  - pose proof (finish_new s (ID t) "failed" output e Hok) as F.
    destruct (CreateTaskRun s (ID t)) as [s' id] eqn:E. injection E as <- <-. by rewrite F.
  - pose proof (finish_new s (ID t) "success" output "" Hok) as F.
    destruct (CreateTaskRun s (ID t)) as [s' id] eqn:E. injection E as <- <-. by rewrite F.
Qed.

Lemma finished_id (id : nat) (t : Task) (h : string → HandlerResult) :
  run_id (finished id t h) = id ∧ run_task (finished id t h) = ID t.
Proof. unfold finished. by destruct (safeRun _) as [? [?|]]. Qed.

Lemma execute_all (handlers : gmap string (string → HandlerResult)) (ts : list Task) (s : Store) (log : hook) :
  runs_ok s → Forall (λ t, is_Some (handlers !! TaskType t)) ts →
  let '(s', log') := foldl (λ '(s, log) t, let '(s', l) := execute handlers all_writes s t in (s', log ++ l)) (s, log) ts in
  runs_ok s' ∧ (∃ new, runs s' = runs s ++ new ∧ run_task <$> new = ID <$> ts ∧
    Forall (λ r, run_status r = "success" ∨ run_status r = "failed") new) ∧
  (∃ told, log' = log ++ told ∧ told.*1 = ID <$> ts) ∧
  NextRunAt <$> tasks s' = NextRunAt <$> tasks s.
Proof.
  revert s log. induction ts as [|t ts IH]; intros s log Hok Hh; cbn [foldl].
  { split; [done|]. split; [exists []; by rewrite app_nil_r|]. split; [|done]. exists []. by rewrite app_nil_r. }
  apply Forall_cons in Hh as [[h Hh] Hhs]. rewrite (execute_finished handlers s t h Hok Hh).
  set (r := finished _ t h). destruct (finished_id (S (length (runs s))) t h) as [Hid Htask].
  set (s1 := mkStore _ (runs s ++ [r])). assert (runs_ok s1) as Hok1.
  { unfold runs_ok, s1. cbn [runs]. rewrite length_app. apply Forall_app. split.
    - eapply Forall_impl; [exact Hok|]. cbn. intros. lia.
    - constructor; [|done]. unfold r. rewrite Hid. cbn. lia. }
  specialize (IH s1 (log ++ [heard t h]) Hok1 Hhs). destruct (foldl _ _ ts) as [s' log'].
  destruct IH as (Hok' & (new & Hnew & Htasks & Hst) & (told & Htold & Hids) & Hnext).
  split; [done|]. split; [|split].
  - exists (r :: new). cbn [runs s1] in Hnew. rewrite Hnew, <- (assoc_L (++)). split; [done|].
    rewrite !fmap_cons, Htasks. split; [f_equal; exact Htask|]. constructor; [|done].
    unfold r, finished. destruct (safeRun _) as [? [?|]]; [by right|by left].
  - exists (heard t h :: told). rewrite Htold, <- (assoc_L (++)). cbn. by rewrite Hids.
  - rewrite Hnext. unfold s1, record. cbn [tasks]. rewrite <- list_fmap_compose. apply list_fmap_ext.
    intros i x _. cbn. by destruct (String.eqb (ID x) (ID t)).
Qed.

(** With every handler registered and every write succeeding, one tick
    leaves exactly one finished run row, success or failed, for each leased
    task, in lease order, calls the result hook exactly once for each, and
    moves no next-run instant but the leased ones; a panicking handler is one
    of the failures. *)
Lemma tick_runs_each_once (handlers : gmap string (string → HandlerResult)) (s : Store)
    (locked : list string) (db_now now : Z) :
  runs_ok s → table_ok (tasks s) → (∀ t, t ∈ tasks s → is_Some (handlers !! TaskType t)) →
  let leased := LeaseDueScheduledTasks (tasks s) locked batchSize db_now in
  let '(s', log) := tick handlers all_writes s locked db_now now in
  (∃ new, runs s' = runs s ++ new ∧ run_task <$> new = ID <$> leased ∧
    Forall (λ r, run_status r = "success" ∨ run_status r = "failed") new) ∧
  log.*1 = ID <$> leased ∧
  NextRunAt <$> tasks s' = (λ t, NextRunAt (advanced now leased t)) <$> tasks s ∧
  (∀ t, t ∈ tasks s → due db_now t = false → t ∉ leased).
Proof.
  intros Hok Htab Hh leased. unfold tick. rewrite (LeaseDueTasks_eq _ _ _ _ _ Htab).
  pose proof (execute_all handlers leased (mkStore (advanced now leased <$> tasks s) (runs s)) []) as H.
  fold leased. destruct (foldl _ _ leased) as [s' log]. destruct H as (_ & Hnew & (told & -> & Htold) & Hnext); [done| |].
  { apply Forall_forall. intros t Ht. apply lease_rows in Ht as (Ht & _). by apply Hh. }
  split; [done|]. split; [done|]. split.
  - rewrite Hnext. cbn [tasks]. by rewrite <- list_fmap_compose.
  - intros t _ Hdue Hin. apply lease_rows in Hin as (_ & Hd & _). congruence.
Qed.
End Scheduler.

(** * Concrete schedules *)

(** A library that knows one expression, every minute, and one with no
    activation. *)
Definition minute : Z := 60 * 1000000000.
Definition cron_ex (e : string) : option (Z → Z) :=
  if String.eqb e "* * * * *" then Some (λ now, (now / minute + 1) * minute)
  else if String.eqb e "0 0 30 2 *" then Some (λ _, zeroTime)
  else None.

Lemma minute_later (now : Z) : now < (now / minute + 1) * minute.
Proof.
  assert (0 < minute) as Hm by done. pose proof (Z.mod_pos_bound now minute Hm).
  pose proof (Z.div_mod now minute ltac:(lia)). nia.
Qed.

Definition task_ex (id expr : string) (next : Z) : Task := mkTask id "backup" "{}" expr true next "" "".

Lemma scheduler_fires_once_witness :
  StronglySorted strictly_later
    (polls cron_ex [mkPoll minute minute []; mkPoll minute (minute + 5) []; mkPoll (2 * minute + 9) (2 * minute + 9) ["b"]]
      [task_ex "a" "* * * * *" minute; task_ex "b" "bad" 7]).2 ∧
  (polls cron_ex [mkPoll minute minute []; mkPoll minute (minute + 5) []; mkPoll (2 * minute + 9) (2 * minute + 9) ["b"]]
      [task_ex "a" "* * * * *" minute; task_ex "b" "bad" 7]).2 = [("b", 7); ("a", minute); ("a", 2 * minute)].
Proof.
  split; [|by vm_compute].
  refine (proj1 (scheduler_fires_once cron_ex _ _ _ _ _)).
  - apply (bool_decide_unpack _). by vm_compute.
  - intros t Ht next. apply elem_of_cons in Ht as [->|Ht%list_elem_of_singleton]; [|by subst t].
    intros [= <-] now. apply minute_later.
  - repeat constructor; cbn; unfold minute; lia.
Defined.

(** An instance whose clock lags the database's dispatches an activation a
    second time. *)
Example lagging_clock_fires_twice :
  (polls cron_ex [mkPoll minute (minute - 1) []; mkPoll minute (minute + 5) []]
    [task_ex "a" "* * * * *" minute]).2 = [("a", minute); ("a", minute)].
Proof. by vm_compute. Qed.

(** An expression without an activation is not quarantined: its task is
    dispatched by every poll. *)
Example no_activation_fires_every_poll :
  (polls cron_ex [mkPoll 0 0 []; mkPoll minute minute []; mkPoll (2 * minute) (2 * minute) []]
    [task_ex "a" "0 0 30 2 *" zeroTime]).2 = [("a", zeroTime); ("a", zeroTime); ("a", zeroTime)].
Proof. by vm_compute. Qed.

Definition handlers_ex : gmap string (string → HandlerResult) :=
  {[ "backup" := λ _, Panicked "boom" ]}.

Lemma tick_runs_each_once_witness :
  let s := mkStore [task_ex "a" "* * * * *" minute] [mkRun 1 "z" "success" "" ""] in
  let '(s', log) := tick cron_ex handlers_ex all_writes s [] minute minute in
  log.*1 = ["a"] ∧ runs s' = runs s ++ [mkRun 2 "a" "failed" "" "handler panic: boom"].
Proof.
  pose proof (tick_runs_each_once cron_ex handlers_ex
    (mkStore [task_ex "a" "* * * * *" minute] [mkRun 1 "z" "success" "" ""]) [] minute minute) as H.
  cbv zeta in *. destruct (tick _ _ _ _ _ _ _) as [s' log] eqn:E.
  destruct H as (_ & Hlog & _).
  - repeat constructor.
  - apply (bool_decide_unpack _). by vm_compute.
  - intros t ->%list_elem_of_singleton. by exists (λ _, Panicked "boom").
  - split; [rewrite Hlog; by vm_compute|]. vm_compute in E. by injection E as <- _.
Defined.
