(* ===== verification/TrickplayVTT.v ===== *)
(** The WebVTT index of a trickplay sprite set: [internal/trickplay/vtt.go] and
    the reader [ParseVTT] of [internal/trickplay/bif.go].

    [WriteVTT] lays the thumbnails of a video out over sprite sheets, one cue
    per interval; [ParseVTT] reads such an index back.  Proved: the writer
    succeeds exactly on a valid spec with enough sheets, and what it writes is
    read back as the cues it laid out. *)
From S2P Require Import Prelude.
From S2P Require Import GoStrings.
From S2P Require Import GoBytes.

Local Open Scope Z_scope.

(** * Geometry *)
Record Spec := mkSpec {
  IntervalSec : Z; ThumbWidth : Z; ThumbHeight : Z; GridCols : Z; GridRows : Z
}.

Definition Default : Spec := mkSpec 10 320 180 10 10.

Definition ThumbsPerSprite (s : Spec) : Z := GridCols s * GridRows s.

(** [n / d], rounded up when there is a remainder: how both counts are made. *)
Definition div_up (n d : Z) : Z :=
  if negb (Z.rem n d =? 0) then Z.quot n d + 1 else Z.quot n d.

Definition SpriteCount (s : Spec) (durationSec : Z) : Z :=
  if (durationSec <=? 0) || (IntervalSec s <=? 0) then 0
  else
    let thumbs := div_up durationSec (IntervalSec s) in
    div_up thumbs (ThumbsPerSprite s).

(** * Writing *)
Inductive WriteError :=
  | ErrInvalidSpec (s : Spec)
  | ErrTooFewSprites (have need durationSec : Z).

(** [HH:MM:SS.000] *)
Definition formatVTTTime (sec : Z) : string :=
  let h := Z.quot sec 3600 in
  let m := Z.quot (Z.rem sec 3600) 60 in
  let s := Z.rem sec 60 in
  pad2 h +:+ ":" +:+ pad2 m +:+ ":" +:+ pad2 s +:+ ".000".

Definition valid_spec (s : Spec) : bool :=
  negb ((IntervalSec s <=? 0) || (ThumbWidth s <=? 0) || (ThumbHeight s <=? 0) ||
        (GridCols s <=? 0) || (GridRows s <=? 0)).

Definition time_line (start stop : Z) : string :=
  formatVTTTime start +:+ " --> " +:+ formatVTTTime stop.
Definition region_line (name : string) (x y w h : Z) : string :=
  name +:+ "#xywh=" +:+ Itoa x +:+ "," +:+ Itoa y +:+ "," +:+ Itoa w +:+ "," +:+ Itoa h.

(** The body of the loop for thumbnail [i]; [None] is an index panic. *)
Definition write_cue (s : Spec) (durationSec : Z) (spriteNames : list string) (i : Z)
    : option string :=
  let per := ThumbsPerSprite s in
  let start := i * IntervalSec s in
  let stop := start + IntervalSec s in
  let stop := if durationSec <? stop then durationSec else stop in
  let spriteIdx := Z.quot i per in
  let within := Z.rem i per in
  let col := Z.rem within (GridCols s) in
  let row := Z.quot within (GridCols s) in
  let x := col * ThumbWidth s in
  let y := row * ThumbHeight s in
  match spriteNames !! Z.to_nat spriteIdx with
  | Some name =>
      Some (time_line start stop +:+ newline
            +:+ region_line name x y (ThumbWidth s) (ThumbHeight s) +:+ newline +:+ newline)
  | None => None
  end.

Fixpoint write_cues (fuel : nat) (s : Spec) (durationSec : Z) (spriteNames : list string) (i : Z)
    : option string :=
  match fuel with
  | O => None
  | S fuel' =>
      if durationSec <=? i * IntervalSec s then Some ""
      else
        match write_cue s durationSec spriteNames i, write_cues fuel' s durationSec spriteNames (i + 1) with
        | Some c, Some rest => Some (c +:+ rest)
        | _, _ => None
        end
  end.

(** [None]: the loop panicked or did not end within [durationSec + 1] turns. *)
Definition WriteVTT (s : Spec) (durationSec : Z) (spriteNames : list string)
    : option (WriteError + string) :=
  if negb (valid_spec s) then Some (inl (ErrInvalidSpec s))
  else
    let need := SpriteCount s durationSec in
    if len spriteNames <? need
    then Some (inl (ErrTooFewSprites (len spriteNames) need durationSec))
    else
      match write_cues (S (Z.to_nat durationSec)) s durationSec spriteNames 0 with
      | Some body => Some (inr ("WEBVTT" +:+ newline +:+ newline +:+ body))
      | None => None
      end.

(** * Reading *)

(** [image.Rectangle] and [image.Rect] *)
Record Rectangle := mkRectangle { MinX : Z; MinY : Z; MaxX : Z; MaxY : Z }.
Definition Rect (x0 y0 x1 y1 : Z) : Rectangle :=
  let '(x0, x1) := if x1 <? x0 then (x1, x0) else (x0, x1) in
  let '(y0, y1) := if y1 <? y0 then (y1, y0) else (y0, y1) in
  mkRectangle x0 y0 x1 y1.

(** [Start] and [End] are durations in nanoseconds. *)
Record VTTCue := mkCue { Start : Z; End_ : Z; Sprite : string; Region : Rectangle }.

Definition Second : Z := 1000000000.
Definition Millisecond : Z := 1000000.

Inductive ParseError :=
  | ErrCueTiming (line : string)
  | ErrTimestamp (s : string)
  | ErrCueFragment (line : string)
  | ErrEmptyRegion (line : string)
  | ErrTokenTooLong.

(** The clock fields, most significant first. *)
Fixpoint clock_total (total : Z) (fields : list string) : option Z :=
  match fields with
  | [] => Some total
  | f :: fields' =>
      match Atoi f with
      | Some n =>
          if n <? 0 then None
          else clock_total (wrap64 (wrap64 (total * 60) + wrap64 (n * Second))) fields'
      | None => None
      end
  end.

(** [HH:MM:SS.mmm] or [MM:SS.mmm], as nanoseconds. *)
Definition parseVTTTime (s : string) : ParseError + Z :=
  let bad := inl (ErrTimestamp s) in
  let '(clock, frac) := match Cut s "." with Some p => p | None => (s, "") end in
  let fields := Split clock ":" in
  if (len fields <? 2) || (3 <? len fields) then bad
  else
    match clock_total 0 fields with
    | None => bad
    | Some total =>
        if String.eqb frac "" then inr total
        else if 3 <? slen frac then bad
        else
          match Atoi (frac +:+ Repeat "0" (3 - String.length frac)) with
          | Some ms => if ms <? 0 then bad else inr (wrap64 (total + ms * Millisecond))
          | None => bad
          end
    end.

(** The four numbers of an [#xywh] fragment. *)
Fixpoint fragment_numbers (parts : list string) : option (list Z) :=
  match parts with
  | [] => Some []
  | p :: parts' =>
      match Atoi (TrimSpace p) with
      | Some n =>
          if n <? 0 then None
          else match fragment_numbers parts' with Some v => Some (n :: v) | None => None end
      | None => None
      end
  end.

(** [Some] a cue, nothing for a cue without a fragment, or an error. *)
Definition parse_region (line : string) (start stop : Z) : ParseError + option VTTCue :=
  match CutStr line "#xywh=" with
  | None => inr None
  | Some (name, frag) =>
      let parts := Split frag "," in
      if negb (len parts =? 4) then inl (ErrCueFragment line)
      else
        match fragment_numbers parts with
        | Some [v0; v1; v2; v3] =>
            if (v2 =? 0) || (v3 =? 0) then inl (ErrEmptyRegion line)
            else inr (Some (mkCue start stop name
                        (Rect v0 v1 (wrap64 (v0 + v2)) (wrap64 (v1 + v3)))))
        | _ => inl (ErrCueFragment line)
        end
  end.

Definition parse_timing (line : string) : ParseError + (Z * Z) :=
  let '(l, r) := match CutStr line "-->" with Some p => p | None => (line, "") end in
  match Fields r with
  | [] => inl (ErrCueTiming line)
  | rf0 :: _ =>
      match parseVTTTime (TrimSpace l) with
      | inl e => inl e
      | inr start =>
          match parseVTTTime rf0 with
          | inl e => inl e
          | inr stop => inr (start, stop)
          end
      end
  end.

(** The scan loop: [pending] and the times of the cue being read. *)
Fixpoint parse_lines (lines : list string) (pending : bool) (start stop : Z)
    : ParseError + list VTTCue :=
  match lines with
  | [] => inr []
  | text :: lines' =>
      let line := TrimSpace text in
      if String.eqb line "" then parse_lines lines' false start stop
      else if Contains line "-->" then
        match parse_timing line with
        | inl e => inl e
        | inr (start', stop') => parse_lines lines' true start' stop'
        end
      else if pending then
        match parse_region line start stop with
        | inl e => inl e
        | inr None => parse_lines lines' false start stop
        | inr (Some c) =>
            match parse_lines lines' false start stop with
            | inl e => inl e
            | inr cues => inr (c :: cues)
            end
        end
      else parse_lines lines' pending start stop
  end.

Definition ParseVTT (data : string) : ParseError + list VTTCue :=
  let '(lines, too_long) := ScanLines MaxScanTokenSize data in
  match parse_lines lines false 0 0 with
  | inl e => inl e
  | inr cues => if (too_long : bool) then inl ErrTokenTooLong else inr cues
  end.

(** * The layout the index describes

    Thumbnail [i] of a video of [durationSec] seconds. *)
Definition layout_cue (s : Spec) (durationSec : Z) (name : string) (i : Z) : VTTCue :=
  let within := i `mod` ThumbsPerSprite s in
  let x := (within `mod` GridCols s) * ThumbWidth s in
  let y := (within `div` GridCols s) * ThumbHeight s in
  mkCue (i * IntervalSec s * Second)
        (Z.min durationSec ((i + 1) * IntervalSec s) * Second)
        name (mkRectangle x y (x + ThumbWidth s) (y + ThumbHeight s)).

Definition thumb_count (s : Spec) (durationSec : Z) : Z :=
  if durationSec <=? 0 then 0 else div_up durationSec (IntervalSec s).

Definition layout (s : Spec) (durationSec : Z) (names : list string) : list VTTCue :=
  (λ i, layout_cue s durationSec
          (default "" (names !! Z.to_nat (Z.of_nat i `div` ThumbsPerSprite s))) (Z.of_nat i))
  <$> seq 0 (Z.to_nat (thumb_count s durationSec)).

Example Default_layout :
  WriteVTT Default 25 ["sprite_000.jpg"] ≠ None ∧
  match WriteVTT Default 25 ["sprite_000.jpg"] with
  | Some (inr text) => ParseVTT text = inr (layout Default 25 ["sprite_000.jpg"])
  | _ => False
  end.
Proof. vm_compute. split; [discriminate|reflexivity]. Qed.

(** * Reading one cue back *)
Definition sane_time (sec : Z) : Prop := 0 <= sec ∧ sec * Second <= int64_max.

Lemma no_byte (c : ascii) (s : string) (p : ascii → bool) :
  p c = false → sforall p s = true → sforall (λ x, negb (Ascii.eqb x c)) s = true.
Proof.
  intros Hc. apply sforall_impl. intros x Hx. apply negb_true_iff.
  destruct (Ascii.eqb_spec x c); congruence.
Qed.

(** Clock text: digits, colons and the dot. *)
Definition is_clock (c : ascii) : bool := is_digit c || Ascii.eqb c ":" || Ascii.eqb c ".".

Lemma formatVTTTime_clock (sec : Z) : 0 <= sec →
  sforall is_clock (formatVTTTime sec) = true ∧ formatVTTTime sec ≠ "" ∧
  no_space (formatVTTTime sec) = true.
Proof.
  intros H. unfold formatVTTTime.
  assert (∀ z, 0 <= z → sforall is_clock (pad2 z) = true) as Hp.
  { intros z Hz. destruct (pad2_digits z Hz) as (_ & Hd & _). revert Hd.
    apply sforall_impl. intros c Hc. unfold is_clock. by rewrite Hc. }
  assert (0 <= Z.quot sec 3600 ∧ 0 <= Z.quot (Z.rem sec 3600) 60 ∧ 0 <= Z.rem sec 60)
    as (H1 & H2 & H3).
  { repeat split; [apply Z.quot_pos; lia | | apply Z.rem_nonneg; lia].
    apply Z.quot_pos; [apply Z.rem_nonneg; lia | lia]. }
  assert (sforall is_clock (pad2 (Z.quot sec 3600) +:+ ":" +:+
    pad2 (Z.quot (Z.rem sec 3600) 60) +:+ ":" +:+ pad2 (Z.rem sec 60) +:+ ".000") = true) as Hs.
  { rewrite !sforall_app, !Hp by done. done. }
  split; [exact Hs|]. split.
  - destruct (pad2_digits _ H1) as (Hne & _). destruct (pad2 (Z.quot sec 3600)); done.
  - revert Hs. apply sforall_impl. intros c. unfold is_clock, is_digit, is_space.
    destruct (Ascii.eqb_spec c ":") as [->|]; [done|].
    destruct (Ascii.eqb_spec c ".") as [->|]; [done|]. intros Hc. breflect. lia.
Qed.

Lemma wrap64_small (z : Z) : 0 <= z <= int64_max → wrap64 z = z.
Proof. intros H. apply wrap64_id. unfold in_int64, int64_min. unfold int64_max in *. lia. Qed.

Lemma clock_step (t n : Z) (rest : list string) :
  0 <= t → 0 <= n → t * 60 + n * Second <= int64_max →
  clock_total t (pad2 n :: rest) = clock_total (t * 60 + n * Second) rest.
Proof.
  intros Ht Hn Hb. cbn [clock_total].
  rewrite Atoi_pad2 by (unfold in_int64, int64_min, int64_max, Second in *; lia).
  destruct (Z.ltb_spec n 0); [lia|].
  rewrite (wrap64_small (t * 60)), (wrap64_small (n * Second)) by (unfold Second in *; lia).
  rewrite wrap64_small by (unfold Second in *; lia). done.
Qed.

Lemma clock_fields (h m s : Z) :
  0 <= h → 0 <= m → 0 <= s → ((h * 60 + m) * 60 + s) * Second <= int64_max →
  clock_total 0 [pad2 h; pad2 m; pad2 s] = Some (((h * 60 + m) * 60 + s) * Second).
Proof.
  intros Hh Hm Hs Hb. unfold Second, int64_max in Hb.
  rewrite !clock_step by (unfold Second, int64_max; lia). cbn. f_equal. lia.
Qed.

Lemma parse_formatVTTTime (sec : Z) : sane_time sec →
  parseVTTTime (formatVTTTime sec) = inr (sec * Second).
Proof.
  intros [H Hb]. unfold formatVTTTime.
  rewrite !Z.quot_div_nonneg, !Z.rem_mod_nonneg by
    (rewrite ?Z.rem_mod_nonneg by lia; try apply Z.mod_pos_bound; lia).
  pose proof (Z.mod_pos_bound sec 3600 ltac:(lia)). pose proof (Z.mod_pos_bound sec 60 ltac:(lia)).
  set (h := sec `div` 3600). set (m := (sec `mod` 3600) `div` 60). set (s := sec `mod` 60).
  assert ((h * 60 + m) * 60 + s = sec) as He.
  { unfold h, m, s. clear -H. Z.to_euclidean_division_equations. lia. }
  assert (0 <= h ∧ 0 <= m ∧ 0 <= s) as (Hh & Hm & Hs).
  { unfold h, m, s. repeat split; try apply Z.div_pos; lia. }
  destruct (pad2_digits h Hh) as (_ & Dh & _). destruct (pad2_digits m Hm) as (_ & Dm & _).
  destruct (pad2_digits s Hs) as (_ & Ds & _).
  unfold parseVTTTime.
  replace (pad2 h +:+ ":" +:+ pad2 m +:+ ":" +:+ pad2 s +:+ ".000")
    with ((pad2 h +:+ ":" +:+ pad2 m +:+ ":" +:+ pad2 s) +:+ String "." "000")
    by (rewrite !sapp_assoc; done).
  rewrite Cut_app.
  2: { apply (no_byte "." _ (λ c, is_digit c || Ascii.eqb c ":")); [done|].
       rewrite !sforall_app. repeat (apply andb_true_iff; split); try done;
         (eapply sforall_impl; [|eassumption]); intros c Hc; by rewrite Hc. }
  change (pad2 h +:+ ":" +:+ pad2 m +:+ ":" +:+ pad2 s)
    with (pad2 h +:+ String ":" (pad2 m +:+ String ":" (pad2 s))).
  rewrite !Split_app, Split_last by (by apply (no_byte ":" _ is_digit)).
  rewrite clock_fields by (rewrite ?He; done). rewrite He.
  change (@inr ParseError Z (wrap64 (sec * Second + 0)) = inr (sec * Second)).
  rewrite Z.add_0_r, wrap64_small by (unfold Second in *; lia). done.
Qed.

Lemma trimmed_spaces (s : string) : no_space s = true → TrimSpace s = s.
Proof. intros H. apply TrimSpace_trimmed, trimmed_no_space, H. Qed.

Lemma no_dash (s : string) (p : ascii → bool) :
  p "-"%char = false → sforall p s = true → sforall (λ x, negb (Ascii.eqb x "-"%char)) s = true.
Proof. apply (no_byte "-"%char). Qed.

Lemma time_line_parse (a b : Z) : sane_time a → sane_time b →
  parse_timing (time_line a b) = inr (a * Second, b * Second).
Proof.
  intros Ha Hb. destruct (formatVTTTime_clock a (proj1 Ha)) as (Ca & Na & Sa).
  destruct (formatVTTTime_clock b (proj1 Hb)) as (Cb & Nb & Sb).
  unfold parse_timing, time_line.
  replace (formatVTTTime a +:+ " --> " +:+ formatVTTTime b)
    with ((formatVTTTime a +:+ " ") +:+ "-->" +:+ String " " (formatVTTTime b))
    by (rewrite !sapp_assoc; done).
  rewrite (CutStr_app _ _ _ "-"%char "->") by
    (done || (rewrite sforall_app, (no_dash _ _ eq_refl Ca); done)).
  rewrite Fields_word, TrimSpace_trail by done.
  by rewrite !parse_formatVTTTime by done.
Qed.

(** Sprite names the round trip holds for: no white space, no dash, no hash,
    and short enough for a scanner line. *)
Definition name_char (c : ascii) : bool :=
  negb (is_space c) && negb (Ascii.eqb c "-") && negb (Ascii.eqb c "#").
Definition name_ok (name : string) : Prop := sforall name_char name = true ∧ slen name <= 60000.

Definition is_num (c : ascii) : bool := is_digit c || Ascii.eqb c ",".
Definition numbers_text (x y w h : Z) : string :=
  Itoa x +:+ "," +:+ Itoa y +:+ "," +:+ Itoa w +:+ "," +:+ Itoa h.

Lemma fragment_numbers_Itoa (l : list Z) :
  Forall (λ n, 0 <= n <= int64_max) l → fragment_numbers (Itoa <$> l) = Some l.
Proof.
  induction 1 as [|n l Hn _ IH]; [done|]. cbn [fmap list_fmap fragment_numbers].
  rewrite trimmed_spaces by (apply digits_no_space, Itoa_digits; lia).
  rewrite Atoi_Itoa by (unfold in_int64, int64_min; unfold int64_max in *; lia).
  destruct (Z.ltb_spec n 0); [lia|]. change (list_fmap Z string Itoa l) with (Itoa <$> l).
  by rewrite IH.
Qed.

Lemma Split_numbers (x y w h : Z) : 0 <= x → 0 <= y → 0 <= w → 0 <= h →
  Split (numbers_text x y w h) "," = Itoa <$> [x; y; w; h].
Proof.
  intros. unfold numbers_text.
  change (Itoa x +:+ "," +:+ Itoa y +:+ "," +:+ Itoa w +:+ "," +:+ Itoa h)
    with (Itoa x +:+ String "," (Itoa y +:+ String "," (Itoa w +:+ String "," (Itoa h)))).
  rewrite !Split_app, Split_last by
    (apply (no_byte "," _ is_digit); [done|]; by apply Itoa_digits).
  done.
Qed.

Lemma region_line_parse (name : string) (x y w h a b : Z) :
  name_ok name → 0 <= x → 0 <= y → 0 < w → 0 < h →
  x + w <= int64_max → y + h <= int64_max →
  parse_region (region_line name x y w h) a b =
    inr (Some (mkCue a b name (mkRectangle x y (x + w) (y + h)))).
Proof.
  intros [Hn _] Hx Hy Hw Hh Hxw Hyh. unfold parse_region, region_line.
  rewrite (CutStr_app _ _ _ "#"%char "xywh=") by (done || by apply (no_byte "#" _ name_char)).
  fold (numbers_text x y w h). rewrite Split_numbers by lia. cbn [fmap list_fmap].
  change [Itoa x; Itoa y; Itoa w; Itoa h] with (Itoa <$> [x; y; w; h]).
  rewrite fragment_numbers_Itoa by (repeat constructor; lia).
  cbn [len length fmap list_fmap].
  destruct (Z.eqb_spec w 0), (Z.eqb_spec h 0); try lia. cbn.
  rewrite !wrap64_small by lia. unfold Rect.
  destruct (Z.ltb_spec (x + w) x), (Z.ltb_spec (y + h) y); try lia. done.
Qed.

(** * The loops *)
Definition cue_text (c : VTTCue) : string :=
  time_line (Start c `div` Second) (End_ c `div` Second) +:+ newline
  +:+ region_line (Sprite c) (MinX (Region c)) (MinY (Region c))
        (MaxX (Region c) - MinX (Region c)) (MaxY (Region c) - MinY (Region c))
  +:+ newline +:+ newline.

(** Cues that print and parse back. *)
Definition printable (c : VTTCue) : Prop :=
  (∃ a, Start c = a * Second ∧ sane_time a) ∧ (∃ b, End_ c = b * Second ∧ sane_time b) ∧
  name_ok (Sprite c) ∧
  0 <= MinX (Region c) < MaxX (Region c) ∧ MaxX (Region c) <= int64_max ∧
  0 <= MinY (Region c) < MaxY (Region c) ∧ MaxY (Region c) <= int64_max.

Definition eol_free (c : ascii) : bool := negb (Ascii.eqb c lf) && negb (Ascii.eqb c cr).

Lemma no_space_eol_free (s : string) : no_space s = true → sforall eol_free s = true.
Proof.
  apply sforall_impl. intros c Hc. unfold eol_free.
  destruct (Ascii.eqb_spec c lf) as [->|]; [done|].
  destruct (Ascii.eqb_spec c cr) as [->|]; [done|]. done.
Qed.

Lemma slen_formatVTTTime (t : Z) : sane_time t → slen (formatVTTTime t) <= 66.
Proof.
  intros [H Hb]. unfold formatVTTTime. rewrite !slen_app.
  assert (0 <= Z.quot t 3600 <= int64_max ∧ 0 <= Z.quot (Z.rem t 3600) 60 <= int64_max ∧
    0 <= Z.rem t 60 <= int64_max) as (H1 & H2 & H3).
  { unfold Second, int64_max in *. rewrite !Z.quot_div_nonneg, !Z.rem_mod_nonneg
      by (rewrite ?Z.rem_mod_nonneg by lia; try apply Z.mod_pos_bound; lia).
    Z.to_euclidean_division_equations. lia. }
  pose proof (slen_pad2 _ H1). pose proof (slen_pad2 _ H2). pose proof (slen_pad2 _ H3).
  change (slen ":") with 1. change (slen ".000") with 4. lia.
Qed.

Lemma time_line_scans (a b : Z) : sane_time a → sane_time b →
  sforall eol_free (time_line a b) = true ∧ slen (time_line a b) < MaxScanTokenSize ∧
  trimmed (time_line a b) = true ∧ time_line a b ≠ "" ∧ Contains (time_line a b) "-->" = true.
Proof.
  intros Ha Hb. destruct (formatVTTTime_clock a (proj1 Ha)) as (Ca & Na & Sa).
  destruct (formatVTTTime_clock b (proj1 Hb)) as (Cb & Nb & Sb). unfold time_line.
  repeat split.
  - by rewrite !sforall_app, (no_space_eol_free _ Sa), (no_space_eol_free _ Sb).
  - rewrite !slen_app. pose proof (slen_formatVTTTime a Ha). pose proof (slen_formatVTTTime b Hb).
    change (slen " --> ") with 5. unfold MaxScanTokenSize. lia.
  - by apply trimmed_app.
  - by destruct (formatVTTTime a).
  - replace (formatVTTTime a +:+ " --> " +:+ formatVTTTime b)
      with ((formatVTTTime a +:+ " ") +:+ "-->" +:+ String " " (formatVTTTime b))
      by (rewrite !sapp_assoc; done).
    rewrite Contains_CutStr, (CutStr_app _ _ _ "-"%char "->"); [done|done|].
    by rewrite sforall_app, (no_dash _ _ eq_refl Ca).
Qed.

Definition region_char (c : ascii) : bool := negb (is_space c) && negb (Ascii.eqb c "-").

Lemma region_line_scans (name : string) (x y w h : Z) : name_ok name →
  0 <= x <= int64_max → 0 <= y <= int64_max → 0 <= w <= int64_max → 0 <= h <= int64_max →
  sforall region_char (region_line name x y w h) = true ∧
  slen (region_line name x y w h) < MaxScanTokenSize ∧ region_line name x y w h ≠ "".
Proof.
  intros [Hn Hl] Hx Hy Hw Hh. unfold region_line.
  assert (∀ z, 0 <= z <= int64_max → sforall region_char (Itoa z) = true) as Hi.
  { intros z Hz. generalize (Itoa_digits z (proj1 Hz)). apply sforall_impl.
    intros c Hc. unfold region_char, is_digit, is_space in *.
    destruct (Ascii.eqb_spec c "-") as [->|]; [done|]. breflect. lia. }
  repeat split.
  - rewrite !sforall_app, !Hi by done. apply andb_true_iff. split; [|done]. revert Hn. apply sforall_impl. intros c. unfold name_char, region_char.
    intros H. breflect. tauto.
  - rewrite !slen_app. pose proof (slen_Itoa x Hx). pose proof (slen_Itoa y Hy).
    pose proof (slen_Itoa w Hw). pose proof (slen_Itoa h Hh).
    change (slen "#xywh=") with 6. change (slen ",") with 1. unfold MaxScanTokenSize. lia.
  - by destruct name.
Qed.

Lemma cue_scans (c : VTTCue) (rest : string) : printable c →
  ∃ t r, ScanLines MaxScanTokenSize (cue_text c +:+ rest) =
      (t :: r :: "" :: (ScanLines MaxScanTokenSize rest).1, (ScanLines MaxScanTokenSize rest).2) ∧
    ∀ ls p a b, parse_lines (t :: r :: "" :: ls) p a b =
      match parse_lines ls false (Start c) (End_ c) with
      | inl e => inl e | inr cues => inr (c :: cues)
      end.
Proof.
  destruct c as [st en name [x0 y0 x1 y1]]. unfold printable, cue_text. cbn [Start End_ Sprite Region MinX MinY MaxX MaxY].
  intros ((a & -> & Ha) & (b & -> & Hb) & Hn & Hx & Hx1 & Hy & Hy1).
  rewrite !Z.div_mul by done.
  destruct (time_line_scans a b Ha Hb) as (Te & Tl & Tt & Tn & Tc).
  destruct (region_line_scans name x0 y0 (x1 - x0) (y1 - y0)) as (Re & Rl & Rn); [done|lia..|].
  pose proof (region_line_parse name x0 y0 (x1 - x0) (y1 - y0) (a * Second) (b * Second) Hn
    ltac:(lia) ltac:(lia) ltac:(lia) ltac:(lia) ltac:(lia) ltac:(lia)) as Rp.
  replace (x0 + (x1 - x0)) with x1 in Rp by lia. replace (y0 + (y1 - y0)) with y1 in Rp by lia.
  set (T := time_line a b) in *. set (R := region_line name x0 y0 (x1 - x0) (y1 - y0)) in *.
  assert (no_space R = true) as Rs.
  { revert Re. apply sforall_impl. intros z [? _]%andb_true_iff. done. }
  exists T, R. split.
  - replace ((T +:+ newline +:+ R +:+ newline +:+ newline) +:+ rest)
      with (T +:+ String lf (R +:+ String lf ("" +:+ String lf rest)))
      by (rewrite !sapp_assoc; done).
    rewrite (ScanLines_cons _ T) by done.
    rewrite (ScanLines_cons _ R) by (done || by apply no_space_eol_free).
    rewrite (ScanLines_cons _ "") by done. done.
  - intros ls p a0 b0. cbn [parse_lines]. rewrite TrimSpace_trimmed, trimmed_spaces by done.
    rewrite (proj2 (String.eqb_neq _ _) Tn), (proj2 (String.eqb_neq _ _) Rn), Tc.
    unfold T at 1. rewrite time_line_parse by done.
    rewrite Contains_CutStr, (CutStr_none _ _ "-"%char "->"); [|done|].
    2: { revert Re. apply sforall_impl. intros z [_ ?]%andb_true_iff. done. }
    rewrite Rp. cbn. destruct (parse_lines ls false (a * Second) (b * Second)); done.
Qed.

Fixpoint sconcat (l : list string) : string :=
  match l with [] => "" | x :: l' => x +:+ sconcat l' end.

Lemma cues_scan (cues : list VTTCue) : Forall printable cues →
  ∃ ls, ScanLines MaxScanTokenSize (sconcat (cue_text <$> cues)) = (ls, false) ∧
    ∀ a b, parse_lines ls false a b = inr cues.
Proof.
  induction 1 as [|c cues Hc _ (ls & Hs & Hp)].
  - by exists [].
  - cbn [fmap list_fmap sconcat].
    change (list_fmap VTTCue string cue_text cues) with (cue_text <$> cues).
    destruct (cue_scans c (sconcat (cue_text <$> cues)) Hc) as (t & r & Hsc & Hpl).
    rewrite Hs in Hsc. exists (t :: r :: "" :: ls). split; [done|].
    intros a b. by rewrite Hpl, Hp.
Qed.

Lemma div_up_bounds (n d : Z) : 0 <= n → 0 < d → n <= div_up n d * d < n + d.
Proof.
  intros Hn Hd. unfold div_up. rewrite Z.quot_div_nonneg, Z.rem_mod_nonneg by lia.
  destruct (Z.eqb_spec (n `mod` d) 0); cbn; Z.to_euclidean_division_equations; nia.
Qed.

Lemma thumb_count_lt (s : Spec) (d i : Z) : 0 < IntervalSec s → 0 <= i →
  i < thumb_count s d ↔ i * IntervalSec s < d.
Proof.
  intros Hiv Hi. unfold thumb_count. destruct (Z.leb_spec d 0); [nia|].
  pose proof (div_up_bounds d (IntervalSec s) ltac:(lia) Hiv). nia.
Qed.

Lemma valid_spec_pos (s : Spec) : valid_spec s = true →
  0 < IntervalSec s ∧ 0 < ThumbWidth s ∧ 0 < ThumbHeight s ∧ 0 < GridCols s ∧ 0 < GridRows s.
Proof. unfold valid_spec. intros H. breflect. lia. Qed.

Lemma sprite_index (s : Spec) (d i : Z) : valid_spec s = true →
  0 <= i < thumb_count s d → 0 <= i `div` ThumbsPerSprite s < SpriteCount s d.
Proof.
  intros (Hiv & _ & _ & Hc & Hr)%valid_spec_pos Hi.
  assert (0 < ThumbsPerSprite s) as Hp by (unfold ThumbsPerSprite; nia).
  split; [apply Z.div_pos; lia|].
  revert Hi. unfold SpriteCount, thumb_count. destruct (Z.leb_spec d 0); [lia|].
  destruct (Z.leb_spec (IntervalSec s) 0); [lia|]. cbn. intros Hi.
  pose proof (div_up_bounds (div_up d (IntervalSec s)) (ThumbsPerSprite s) ltac:(lia) Hp).
  apply Z.div_lt_upper_bound; nia.
Qed.

Definition name_at (s : Spec) (names : list string) (i : Z) : string :=
  default "" (names !! Z.to_nat (i `div` ThumbsPerSprite s)).

Lemma write_cue_layout (s : Spec) (d : Z) (names : list string) (i : Z) :
  valid_spec s = true → 0 <= i → (Z.to_nat (i `div` ThumbsPerSprite s) < length names)%nat →
  write_cue s d names i = Some (cue_text (layout_cue s d (name_at s names i) i)).
Proof.
  intros (Hiv & Hw & Hh & Hc & Hr)%valid_spec_pos Hi Hlen.
  assert (0 < ThumbsPerSprite s) as Hp by (unfold ThumbsPerSprite; nia).
  unfold write_cue, name_at, cue_text, layout_cue. cbn [Start End_ Sprite Region MinX MinY MaxX MaxY].
  rewrite !Z.div_mul by done.
  pose proof (Z.mod_pos_bound i (ThumbsPerSprite s) Hp).
  rewrite (Z.quot_div_nonneg i), (Z.rem_mod_nonneg i) by lia.
  rewrite Z.quot_div_nonneg, Z.rem_mod_nonneg by lia.
  destruct (lookup_lt_is_Some_2 names (Z.to_nat (i `div` ThumbsPerSprite s))) as [nm Hnm]; [lia|].
  rewrite Hnm. cbn [default from_option]. unfold time_line, region_line. do 2 f_equal.
  - do 2 f_equal. destruct (Z.ltb_spec d (i * IntervalSec s + IntervalSec s)); f_equal; lia.
  - do 2 f_equal. repeat (f_equal; [|]); rewrite ?Z.add_simpl_l; try done; f_equal; lia.
Qed.

Lemma write_cues_layout (s : Spec) (d : Z) (names : list string) (n i fuel : nat) :
  valid_spec s = true → SpriteCount s d <= len names →
  Z.to_nat (thumb_count s d) = (i + n)%nat → (n < fuel)%nat →
  write_cues fuel s d names (Z.of_nat i) =
    Some (sconcat (cue_text <$> ((λ k, layout_cue s d (name_at s names (Z.of_nat k)) (Z.of_nat k))
                                  <$> seq i n))).
Proof.
  intros Hs Hlen. destruct (valid_spec_pos s Hs) as (Hiv & _).
  revert i fuel. induction n as [|n IH]; intros i [|fuel] Hn Hf; [lia| |lia|]; cbn [write_cues].
  - assert (¬ Z.of_nat i * IntervalSec s < d) as H.
    { rewrite <- thumb_count_lt by lia. lia. }
    destruct (Z.leb_spec d (Z.of_nat i * IntervalSec s)); [done|lia].
  - assert (Z.of_nat i < thumb_count s d) as Hi by lia.
    pose proof (proj1 (thumb_count_lt s d (Z.of_nat i) Hiv ltac:(lia)) Hi) as Hlt.
    destruct (Z.leb_spec d (Z.of_nat i * IntervalSec s)); [lia|].
    pose proof (sprite_index s d (Z.of_nat i) Hs ltac:(lia)) as Hidx.
    rewrite write_cue_layout by (try done; unfold len in Hlen; lia).
    replace (Z.of_nat i + 1) with (Z.of_nat (S i)) by lia.
    rewrite (IH (S i) fuel) by lia. done.
Qed.

(** The writer's answer on every input: it never panics and its loop ends
    within the fuel. *)
Lemma WriteVTT_eq (s : Spec) (d : Z) (names : list string) :
  WriteVTT s d names =
    Some (if negb (valid_spec s) then inl (ErrInvalidSpec s)
          else if len names <? SpriteCount s d
               then inl (ErrTooFewSprites (len names) (SpriteCount s d) d)
               else inr ("WEBVTT" +:+ newline +:+ newline +:+ sconcat (cue_text <$> layout s d names))).
Proof.
  unfold WriteVTT. destruct (valid_spec s) eqn:Hs; [|done]. cbn [negb].
  destruct (Z.ltb_spec (len names) (SpriteCount s d)); [done|].
  destruct (valid_spec_pos s Hs) as (Hiv & _).
  pose proof (write_cues_layout s d names (Z.to_nat (thumb_count s d)) 0 (S (Z.to_nat d)) Hs
    ltac:(lia) ltac:(lia)) as Hw.
  change (Z.of_nat 0) with 0 in Hw. rewrite Hw; [done|].
  enough (thumb_count s d <= Z.max 0 d) by lia.
  unfold thumb_count. destruct (Z.leb_spec d 0); [lia|].
  pose proof (div_up_bounds d (IntervalSec s) ltac:(lia) Hiv). nia.
Qed.

Lemma layout_length (s : Spec) (d : Z) (names : list string) :
  length (layout s d names) = Z.to_nat (thumb_count s d).
Proof. unfold layout. by rewrite length_fmap, length_seq. Qed.

Lemma layout_lookup (s : Spec) (d : Z) (names : list string) (i : nat) (c : VTTCue) :
  layout s d names !! i = Some c ↔
  Z.of_nat i < thumb_count s d ∧ c = layout_cue s d (name_at s names (Z.of_nat i)) (Z.of_nat i).
Proof.
  unfold layout. rewrite list_lookup_fmap, fmap_Some. unfold name_at. split.
  - intros (k & [-> Hk]%lookup_seq & ->). simpl in *. split; [lia|done].
  - intros [Hi ->]. exists i. split; [|done]. apply lookup_seq. lia.
Qed.

Lemma name_at_ok (s : Spec) (d : Z) (names : list string) (i : Z) :
  Forall name_ok names → name_ok (name_at s names i).
Proof.
  intros Hn. unfold name_at. destruct (names !! _) eqn:E; cbn.
  - rewrite Forall_lookup in Hn. by eapply Hn.
  - split; [done|]. vm_compute. discriminate.
Qed.

(** A spec whose sheet has coordinates that fit an [int]. *)
Definition sheet_fits (s : Spec) : Prop :=
  GridCols s * ThumbWidth s <= int64_max ∧ GridRows s * ThumbHeight s <= int64_max.

Lemma cell_bounds (s : Spec) (i : Z) : valid_spec s = true → 0 <= i →
  0 <= (i `mod` ThumbsPerSprite s) `mod` GridCols s < GridCols s ∧
  0 <= (i `mod` ThumbsPerSprite s) `div` GridCols s < GridRows s.
Proof.
  intros (Hiv & Hw & Hh & Hc & Hr)%valid_spec_pos Hi.
  assert (0 < ThumbsPerSprite s) as Hp by (unfold ThumbsPerSprite; nia).
  pose proof (Z.mod_pos_bound i _ Hp) as Hm. split; [by apply Z.mod_pos_bound|].
  split; [apply Z.div_pos; lia|].
  apply Z.div_lt_upper_bound; [done|]. unfold ThumbsPerSprite in Hm |- *. lia.
Qed.

Lemma layout_printable (s : Spec) (d : Z) (names : list string) :
  valid_spec s = true → sheet_fits s → d * Second <= int64_max → Forall name_ok names →
  Forall printable (layout s d names).
Proof.
  intros Hs [Hx Hy] Hd Hn. apply Forall_lookup. intros i c [Hi ->]%layout_lookup.
  destruct (valid_spec_pos s Hs) as (Hiv & Hw & Hh & Hc & Hr).
  pose proof (proj1 (thumb_count_lt s d (Z.of_nat i) Hiv ltac:(lia)) Hi) as Hlt.
  destruct (cell_bounds s (Z.of_nat i) Hs ltac:(lia)) as [[Hc0 Hc1] [Hr0 Hr1]].
  unfold printable, layout_cue. cbn [Start End_ Sprite Region MinX MinY MaxX MaxY].
  split; [|split; [|split]].
  - eexists. split; [done|]. unfold sane_time, Second in *. nia.
  - eexists. split; [done|]. unfold sane_time, Second in *. nia.
  - by apply (name_at_ok s d).
  - repeat split; nia.
Qed.

Lemma vtt_reads_layout (s : Spec) (d : Z) (names : list string)
    (Hs : valid_spec s = true) (Hfit : sheet_fits s)
    (Hd : d * Second <= int64_max) (Hn : Forall name_ok names)
    (Hlen : SpriteCount s d <= len names) :
  ∃ text, WriteVTT s d names = Some (inr text) ∧ ParseVTT text = inr (layout s d names).
Proof.
  rewrite WriteVTT_eq, Hs. cbn. destruct (Z.ltb_spec (len names) (SpriteCount s d)); [lia|].
  eexists. split; [done|].
  destruct (cues_scan (layout s d names)) as (ls & Hsc & Hp); [by apply layout_printable|].
  set (body := sconcat (cue_text <$> layout s d names)) in *.
  assert (ScanLines MaxScanTokenSize ("WEBVTT" +:+ String lf ("" +:+ String lf body))
    = ("WEBVTT" :: "" :: ls, false)) as E.
  { rewrite (ScanLines_cons _ "WEBVTT"), (ScanLines_cons _ "") by done. by rewrite Hsc. }
  unfold ParseVTT. replace (ScanLines _ _) with (("WEBVTT" :: "" :: ls, false)) by (symmetry; exact E).
  change (parse_lines ("WEBVTT" :: "" :: ls) false 0 0) with (parse_lines ls false 0 0).
  by rewrite Hp.
Qed.

(** Round trip of the trickplay index: for a valid spec and enough sprite
    sheets [WriteVTT] returns a text, and [ParseVTT] reads from it exactly the
    cues of the layout: one per interval, each with its times, its sheet and
    its cell. *)
Lemma vtt_roundtrip (s : Spec) (d : Z) (names : list string)
    (Hs : valid_spec s = true) (Hfit : sheet_fits s)
    (Hd : d * Second <= int64_max) (Hn : Forall name_ok names)
    (Hlen : SpriteCount s d <= len names) :
  ∃ text, WriteVTT s d names = Some (inr text) ∧ ParseVTT text = inr (layout s d names).
Proof. by apply vtt_reads_layout. Qed.

Lemma vtt_roundtrip_witness :
  SpriteCount Default 1005 <= len ["sprite_000.jpg"; "sprite_001.jpg"] ∧
  ∃ text, WriteVTT Default 1005 ["sprite_000.jpg"; "sprite_001.jpg"] = Some (inr text) ∧
    ParseVTT text = inr (layout Default 1005 ["sprite_000.jpg"; "sprite_001.jpg"]).
Proof.
  split; [vm_compute; discriminate|].
  apply (vtt_roundtrip Default 1005 ["sprite_000.jpg"; "sprite_001.jpg"]).
  - reflexivity.
  - split; vm_compute; discriminate.
  - vm_compute. discriminate.
  - repeat constructor; vm_compute; discriminate.
  - vm_compute. discriminate.
Defined.

(** Two regions of one sheet that share no pixel. *)
Definition disjoint_regions (a b : Rectangle) : Prop :=
  MaxX a <= MinX b ∨ MaxX b <= MinX a ∨ MaxY a <= MinY b ∨ MaxY b <= MinY a.

Lemma layout_cue_at (s : Spec) (d t : Z) (name : string) (i : Z) :
  0 < IntervalSec s → 0 <= t < d * Second → 0 <= i →
  Start (layout_cue s d name i) <= t < End_ (layout_cue s d name i) ↔
  i = t `div` (IntervalSec s * Second).
Proof.
  intros Hiv Ht Hi. unfold layout_cue. cbn [Start End_].
  rewrite <- Z.mul_min_distr_nonneg_r by done. unfold Second in *. split.
  - intros H. apply Z.div_unique_pos with (t - i * IntervalSec s * 1000000000); lia.
  - intros ->. pose proof (Z.mul_div_le t (IntervalSec s * 1000000000) ltac:(lia)).
    pose proof (Z.mul_succ_div_gt t (IntervalSec s * 1000000000) ltac:(lia)). nia.
Qed.

Lemma cells_disjoint (s : Spec) (d : Z) (n n' : string) (i j : Z) :
  valid_spec s = true → 0 <= i → 0 <= j → i ≠ j →
  i `div` ThumbsPerSprite s = j `div` ThumbsPerSprite s →
  disjoint_regions (Region (layout_cue s d n i)) (Region (layout_cue s d n' j)).
Proof.
  intros Hs Hi Hj Hne Hsame. destruct (valid_spec_pos s Hs) as (Hiv & Hw & Hh & Hc & Hr).
  assert (0 < ThumbsPerSprite s) as Hp by (unfold ThumbsPerSprite; nia).
  unfold disjoint_regions, layout_cue. cbn [Region MinX MinY MaxX MaxY].
  assert (i `mod` ThumbsPerSprite s ≠ j `mod` ThumbsPerSprite s) as Hm.
  { intros E. apply Hne. rewrite (Z.div_mod i (ThumbsPerSprite s)), (Z.div_mod j (ThumbsPerSprite s)) by lia.
    by rewrite E, Hsame. }
  set (a := i `mod` ThumbsPerSprite s) in *. set (b := j `mod` ThumbsPerSprite s) in *.
  assert (a `mod` GridCols s ≠ b `mod` GridCols s ∨ a `div` GridCols s ≠ b `div` GridCols s) as [H|H].
  { destruct (Z.eq_dec (a `mod` GridCols s) (b `mod` GridCols s)) as [E|]; [|by left]. right.
    intros E'. apply Hm. rewrite (Z.div_mod a (GridCols s)), (Z.div_mod b (GridCols s)) by lia.
    by rewrite E, E'. }
  - destruct (Z.lt_trichotomy (a `mod` GridCols s) (b `mod` GridCols s)) as [?|[?|?]]; nia.
  - destruct (Z.lt_trichotomy (a `div` GridCols s) (b `div` GridCols s)) as [?|[?|?]]; nia.
Qed.

(** What a seek bar relies on: in the index read back, every instant of the
    video lies in exactly one cue, and two cues of the same sprite sheet never
    share a pixel of it. *)
Lemma vtt_cues_cover (s : Spec) (d : Z) (names : list string) (text : string) (cues : list VTTCue)
    (Hs : valid_spec s = true) (Hfit : sheet_fits s)
    (Hd : d * Second <= int64_max) (Hn : Forall name_ok names)
    (Hw : WriteVTT s d names = Some (inr text)) (Hp : ParseVTT text = inr cues) :
  (∀ t, 0 <= t < d * Second →
     exists! i, ∃ c, cues !! i = Some c ∧ Start c <= t < End_ c) ∧
  (∀ i j c c', i ≠ j → cues !! i = Some c → cues !! j = Some c' →
     Z.of_nat i `div` ThumbsPerSprite s = Z.of_nat j `div` ThumbsPerSprite s →
     Sprite c = Sprite c' ∧ disjoint_regions (Region c) (Region c')).
Proof.
  assert (SpriteCount s d <= len names) as Hlen.
  { rewrite WriteVTT_eq, Hs in Hw. cbn [negb] in Hw.
    destruct (Z.ltb_spec (len names) (SpriteCount s d)); [done|lia]. }
  destruct (vtt_reads_layout s d names Hs Hfit Hd Hn Hlen) as (text' & Hw' & Hp').
  assert (cues = layout s d names) as -> by congruence.
  destruct (valid_spec_pos s Hs) as (Hiv & _). split.
  - intros t Ht. exists (Z.to_nat (t `div` (IntervalSec s * Second))).
    assert (0 <= t `div` (IntervalSec s * Second)) as Hq
      by (apply Z.div_pos; unfold Second; lia).
    assert (t `div` (IntervalSec s * Second) < thumb_count s d) as Hlt.
    { apply thumb_count_lt; [done|done|].
      pose proof (Z.mul_div_le t (IntervalSec s * Second) ltac:(unfold Second; lia)).
      unfold Second in *. nia. }
    split.
    + eexists. split; [apply layout_lookup; rewrite Z2Nat.id by done; split; [done|reflexivity]|].
      apply layout_cue_at; done.
    + intros k (c & [_ ->]%layout_lookup & Hk). apply layout_cue_at in Hk; lia.
  - intros i j c c' Hij [_ ->]%layout_lookup [_ ->]%layout_lookup Hsame. split.
    + unfold layout_cue, name_at. cbn [Sprite]. by rewrite Hsame.
    + apply cells_disjoint; [done|lia..|done].
Qed.

Lemma vtt_cues_cover_witness :
  match WriteVTT Default 25 ["sprite_000.jpg"] with
  | Some (inr text) =>
      match ParseVTT text with
      | inr cues => exists! i, ∃ c, cues !! i = Some c ∧ Start c <= 17 * Second < End_ c
      | inl _ => False
      end
  | _ => False
  end.
Proof.
  destruct (WriteVTT Default 25 ["sprite_000.jpg"]) as [[e|text]|] eqn:Hw;
    [vm_compute in Hw; discriminate| |vm_compute in Hw; discriminate].
  destruct (ParseVTT text) as [e|cues] eqn:Hp.
  - vm_compute in Hw. injection Hw as <-. vm_compute in Hp. discriminate.
  - apply (vtt_cues_cover Default 25 ["sprite_000.jpg"] text cues).
    + reflexivity.
    + split; vm_compute; discriminate.
    + vm_compute. discriminate.
    + repeat constructor; vm_compute; discriminate.
    + exact Hw.
    + exact Hp.
    + vm_compute. split; [discriminate|reflexivity].
Defined.
