(* ===== verification/TrickplayBIF.v ===== *)
(** BIF files, the seek-thumbnail container Roku clients read:
    [internal/trickplay/bif.go].

    [WriteBIF] lays the frames out in one file; [BuildBIF] cuts the frames from
    the sprite sheets that the VTT index names and writes them.  [ReadBIF] is a
    reference reader of the layout the source documents.  Images are a
    parameter: the [image/jpeg] package and the scaler decode, crop, scale and
    encode them. *)
From S2P Require Import Prelude.
From S2P Require Import GoStrings.
From S2P Require Import GoBytes.
From S2P Require Import TrickplayVTT.

Local Open Scope Z_scope.

Definition BIFMaxWidth : Z := 320.
Definition bifMagic : bytes := chr <$> [137; 66; 73; 70; 13; 10; 26; 10].
Definition bifHeaderSize : Z := 64.
Definition bifIndexEnd : Z := 4294967295.

Record BIFFrame := mkFrame { Timestamp : Z; JPEG : bytes }.

Inductive BIFError :=
  | ErrMultiplier
  | ErrNoFrames
  | ErrNotIncreasing (i : nat)
  | ErrTerminator
  | ErrNoImage
  | ErrTooLarge
  | ErrWrite (e : string)
  | ErrReadVTT (e : string)
  | ErrVTT (e : ParseError)
  | ErrNoCues
  | ErrInterval (interval : Z)
  | ErrSpriteName (name : string)
  | ErrDecode (e : string)
  | ErrEncode (e : string)
  | ErrUneven (i : nat)
  | ErrNoFramesCut.

(** * Writing the file *)

(** The first index whose timestamp does not exceed the one before it. *)
Fixpoint not_increasing (i : nat) (prev : Z) (frames : list BIFFrame) : option nat :=
  match frames with
  | [] => None
  | f :: fs =>
      if Timestamp f <=? prev then Some i else not_increasing (S i) (Timestamp f) fs
  end.

(** The size loop; [None] when a frame has no data.  [total] is a [uint64]. *)
Fixpoint bif_total (total : Z) (frames : list BIFFrame) : option Z :=
  match frames with
  | [] => Some total
  | f :: fs =>
      if len (JPEG f) =? 0 then None else bif_total (wrapU64 (total + len (JPEG f))) fs
  end.

Definition index_entry (ts offset : Z) : bytes := le_split 4 ts ++ le_split 4 offset.

(** The index loop: an entry per frame, then the terminator.  [offset] is a
    [uint32]. *)
Fixpoint bif_index (offset : Z) (frames : list BIFFrame) : bytes :=
  match frames with
  | [] => index_entry bifIndexEnd offset
  | f :: fs =>
      index_entry (Timestamp f) offset ++ bif_index (wrapU32 (offset + wrapU32 (len (JPEG f)))) fs
  end.

(** The fixed header: a zeroed buffer with its fields put in place. *)
Definition bif_header (count multiplierMS : Z) : bytes :=
  let hdr := replicate (Z.to_nat bifHeaderSize) (chr 0) in
  let hdr := copy_at 0 bifMagic hdr in
  let hdr := copy_at 8 (le_split 4 0) hdr in
  let hdr := copy_at 12 (le_split 4 (wrapU32 count)) hdr in
  copy_at 16 (le_split 4 multiplierMS) hdr.

Definition index_size (frames : list BIFFrame) : Z := (len frames + 1) * 8.

(** The checks before anything is written; [inr] carries the index bytes. *)
Definition bif_check (multiplierMS : Z) (frames : list BIFFrame) : BIFError + bytes :=
  if multiplierMS =? 0 then inl ErrMultiplier
  else
    match frames with
    | [] => inl ErrNoFrames
    | f0 :: fs =>
        match not_increasing 1 (Timestamp f0) fs with
        | Some i => inl (ErrNotIncreasing i)
        | None =>
            if Timestamp (List.last frames f0) =? bifIndexEnd then inl ErrTerminator
            else
              let indexSize := index_size frames in
              match bif_total (bifHeaderSize + indexSize) frames with
              | None => inl ErrNoImage
              | Some total =>
                  if uint32_max <? total then inl ErrTooLarge
                  else inr (bif_header (len frames) multiplierMS
                            ++ bif_index (wrapU32 (bifHeaderSize + indexSize)) frames)
              end
        end
    end.

Section Writer.
(** [io.Writer]: a state and a write that may fail. *)
Context {W : Type} (Write : W → bytes → W * option string).

Fixpoint write_frames (w : W) (frames : list BIFFrame) : W * option BIFError :=
  match frames with
  | [] => (w, None)
  | f :: fs =>
      match Write w (JPEG f) with
      | (w', Some e) => (w', Some (ErrWrite e))
      | (w', None) => write_frames w' fs
      end
  end.

Definition WriteBIF (w : W) (multiplierMS : Z) (frames : list BIFFrame) : W * option BIFError :=
  match bif_check multiplierMS frames with
  | inl e => (w, Some e)
  | inr hdr =>
      match Write w hdr with
      | (w', Some e) => (w', Some (ErrWrite e))
      | (w', None) => write_frames w' frames
      end
  end.
End Writer.

(** [bytes.Buffer]: its writes never fail. *)
Definition buffer_Write (buf p : bytes) : bytes * option string := (buf ++ p, None).

(** * Building it from the sprites *)

Definition Add (r : Rectangle) (dx dy : Z) : Rectangle :=
  mkRectangle (MinX r + dx) (MinY r + dy) (MaxX r + dx) (MaxY r + dy).
Definition Empty (r : Rectangle) : bool := (MaxX r <=? MinX r) || (MaxY r <=? MinY r).
Definition Intersect (r s : Rectangle) : Rectangle :=
  let r := mkRectangle (Z.max (MinX r) (MinX s)) (Z.max (MinY r) (MinY s))
                       (Z.min (MaxX r) (MaxX s)) (Z.min (MaxY r) (MaxY s)) in
  if Empty r then mkRectangle 0 0 0 0 else r.
Definition Dx (r : Rectangle) : Z := MaxX r - MinX r.
Definition Dy (r : Rectangle) : Z := MaxY r - MinY r.

(** [^sprite_\d{3}\.jpg$] *)
Definition spriteNamePattern (name : string) : bool :=
  match CutPrefix name "sprite_" with
  | Some (String a (String b (String c rest))) =>
      is_digit a && is_digit b && is_digit c && String.eqb rest ".jpg"
  | _ => false
  end.

(** The image library: decoded pictures and what is done with them. *)
Record ImageLib (Img : Type) := mkImageLib {
  Bounds : Img → Rectangle;
  cropImage : Img → Rectangle → Img;
  Scale : Img → Z → Z → Img;                    (** to a width and a height *)
  Encode : Img → string + bytes
}.
#[global] Arguments Bounds {Img} _ _.
#[global] Arguments cropImage {Img} _ _ _.
#[global] Arguments Scale {Img} _ _ _ _.
#[global] Arguments Encode {Img} _ _.

Section Slicing.
Context {Img : Type} (lib : ImageLib Img).
(** [decodeJPEGFile] of a name in the item's directory. *)
Context (decode : string → string + Img).

(** One frame: cropped, scaled down when wider than [maxWidth], encoded. *)
Definition cut_frame (img : Img) (r : Rectangle) (maxWidth : Z) : string + bytes :=
  let frame := cropImage lib img r in
  let frame :=
    if (0 <? maxWidth) && (maxWidth <? Dx r) then
      let h := Z.quot (Dy r * maxWidth + Z.quot (Dx r) 2) (Dx r) in
      let h := if h <? 1 then 1 else h in
      Scale lib frame maxWidth h
    else frame in
  Encode lib frame.

(** The cue's region within the bounds of the sheet. *)
Definition region_in (img : Img) (r : Rectangle) : Rectangle :=
  Intersect (Add r (MinX (Bounds lib img)) (MinY (Bounds lib img))) (Bounds lib img).

(** The loop over the cues, with the sheet decoded last. *)
Fixpoint slice_loop (cues : list VTTCue) (maxWidth : Z) (cur : option (string * Img))
    : BIFError + list bytes :=
  match cues with
  | [] => inr []
  | c :: cs =>
      if negb (spriteNamePattern (Sprite c)) then inl (ErrSpriteName (Sprite c))
      else
        let loaded :=
          match cur with
          | Some (name, img) =>
              if String.eqb (Sprite c) name then inr img else decode (Sprite c)
          | None => decode (Sprite c)
          end in
        match loaded with
        | inl e => inl (ErrDecode e)
        | inr img =>
            let r := region_in img (Region c) in
            if Empty r then inr []
            else
              match cut_frame img r maxWidth with
              | inl e => inl (ErrEncode e)
              | inr j =>
                  match slice_loop cs maxWidth (Some (Sprite c, img)) with
                  | inl e => inl e
                  | inr rest => inr (j :: rest)
                  end
              end
        end
  end.
Definition SliceSprites (cues : list VTTCue) (maxWidth : Z) : BIFError + list bytes :=
  slice_loop cues maxWidth None.

Definition Milliseconds (d : Z) : Z := Z.quot d Millisecond.

(** The frame loop: cue [i] at its nearest index unit; [last] is the
    timestamp of the frame before. *)
Fixpoint index_frames (i : nat) (intervalMS : Z) (last : option Z) (cues : list VTTCue)
    (jpegs : list bytes) : BIFError + list BIFFrame :=
  match cues, jpegs with
  | c :: cs, j :: js =>
      let ts := wrapU32 (Z.quot (Milliseconds (Start c) + Z.quot intervalMS 2) intervalMS) in
      if match last with Some l => ts <=? l | None => false end then inl (ErrUneven i)
      else
        match index_frames (S i) intervalMS (Some ts) cs js with
        | inl e => inl e
        | inr fs => inr (mkFrame ts j :: fs)
        end
  | _, _ => inr []
  end.

Definition cue_interval (c0 : VTTCue) (cs : list VTTCue) : Z :=
  match cs with
  | c1 :: _ => wrap64 (Start c1 - Start c0)
  | [] => wrap64 (End_ c0 - Start c0)
  end.

Definition BuildBIF {W} (Write : W → bytes → W * option string) (vtt : string + string) (w : W)
    : W * option BIFError :=
  match vtt with
  | inl e => (w, Some (ErrReadVTT e))
  | inr data =>
      match ParseVTT data with
      | inl e => (w, Some (ErrVTT e))
      | inr [] => (w, Some ErrNoCues)
      | inr ((c0 :: cs) as cues) =>
          let interval := cue_interval c0 cs in
          let intervalMS := Milliseconds interval in
          if (intervalMS <=? 0) || (uint32_max <? intervalMS)
          then (w, Some (ErrInterval interval))
          else
            match SliceSprites cues BIFMaxWidth with
            | inl e => (w, Some e)
            | inr jpegs =>
                match index_frames 0 intervalMS None cues jpegs with
                | inl e => (w, Some e)
                | inr [] => (w, Some ErrNoFramesCut)
                | inr frames => WriteBIF Write w intervalMS frames
                end
            end
      end
  end.
End Slicing.

(** * The documented layout, as a reader *)
Definition u32_at (off : Z) (b : bytes) : Z := le_combine (slice (Z.to_nat off) 4 b).

Definition read_frame (b : bytes) (i : nat) : BIFFrame :=
  let entry := bifHeaderSize + 8 * Z.of_nat i in
  let off := u32_at (entry + 4) b in
  let next := u32_at (entry + 12) b in
  mkFrame (u32_at entry b) (slice (Z.to_nat off) (Z.to_nat (next - off)) b).

Definition ReadBIF (b : bytes) : option (Z * list BIFFrame) :=
  let n := u32_at 12 b in
  if bool_decide (slice 0 8 b = bifMagic) && (u32_at 8 b =? 0)
     && bool_decide (slice 20 44 b = replicate 44 (chr 0))
     && (u32_at (bifHeaderSize + 8 * n) b =? bifIndexEnd)
     && (u32_at (bifHeaderSize + 8 * n + 4) b =? len b)
  then Some (u32_at 16 b, read_frame b <$> seq 0 (Z.to_nat n))
  else None.

(** * What [WriteBIF] accepts *)
Definition data (frames : list BIFFrame) : bytes := concat (JPEG <$> frames).
Definition file_size (frames : list BIFFrame) : Z :=
  bifHeaderSize + index_size frames + len (data frames).

(** The frames are in memory, so their sizes add up within a [uint64]. *)
Definition fits_memory (frames : list BIFFrame) : Prop := file_size frames < 2 ^ 64.

Definition increasing (frames : list BIFFrame) : Prop :=
  ∀ i f g, frames !! i = Some f → frames !! S i = Some g → Timestamp f < Timestamp g.

(** The last timestamp, which must not read as the terminator. *)
Definition last_ok (frames : list BIFFrame) : Prop :=
  ∀ f, last frames = Some f → Timestamp f ≠ bifIndexEnd.

Record bif_valid (multiplierMS : Z) (frames : list BIFFrame) : Prop := {
  valid_multiplier : multiplierMS ≠ 0;
  valid_nonempty : frames ≠ [];
  valid_increasing : increasing frames;
  valid_last : last_ok frames;
  valid_images : Forall (λ f, JPEG f ≠ []) frames;
  valid_size : file_size frames <= uint32_max
}.

(** What each refusal says about the input. *)
Inductive bif_rejects (multiplierMS : Z) (frames : list BIFFrame) : BIFError → Prop :=
  | rejects_multiplier : multiplierMS = 0 → bif_rejects multiplierMS frames ErrMultiplier
  | rejects_empty : frames = [] → bif_rejects multiplierMS frames ErrNoFrames
  | rejects_order i f g :
      frames !! i = Some f → frames !! S i = Some g → Timestamp g <= Timestamp f →
      increasing (take (S i) frames) →
      bif_rejects multiplierMS frames (ErrNotIncreasing (S i))
  | rejects_terminator f :
      last frames = Some f → Timestamp f = bifIndexEnd → bif_rejects multiplierMS frames ErrTerminator
  | rejects_image f :
      f ∈ frames → JPEG f = [] → bif_rejects multiplierMS frames ErrNoImage
  | rejects_size :
      uint32_max < file_size frames → bif_rejects multiplierMS frames ErrTooLarge.

Lemma increasing_cons (f : BIFFrame) (fs : list BIFFrame) :
  increasing (f :: fs) ↔
  (∀ g, head fs = Some g → Timestamp f < Timestamp g) ∧ increasing fs.
Proof.
  split.
  - intros H. split.
    + intros g Hg. apply (H 0%nat); [done|]. by destruct fs.
    + intros i a b Ha Hb. by apply (H (S i)).
  - intros [Hh Ht] [|i] a b Ha Hb; simpl in *.
    + simplify_eq. apply Hh. by destruct fs.
    + by apply (Ht i).
Qed.

Lemma not_increasing_spec (n : nat) (f0 : BIFFrame) (fs : list BIFFrame) :
  match not_increasing n (Timestamp f0) fs with
  | None => increasing (f0 :: fs)
  | Some k => ∃ i f g, k = (n + i)%nat ∧ (f0 :: fs) !! i = Some f ∧ fs !! i = Some g ∧
      Timestamp g <= Timestamp f ∧ increasing (take (S i) (f0 :: fs))
  end.
Proof.
  revert n f0. induction fs as [|g fs IH]; intros n f0; simpl.
  - intros [|i] a b Ha Hb; done.
  - destruct (Z.leb_spec (Timestamp g) (Timestamp f0)) as [Hle|Hlt].
    + exists 0%nat, f0, g. split; [lia|]. repeat split; try done.
    + specialize (IH (S n) g). destruct (not_increasing (S n) (Timestamp g) fs) as [k|].
      * destruct IH as (i & f & g' & -> & Hf & Hg & Hle & Hi).
        exists (S i), f, g'. split; [lia|]. repeat split; try done.
        change (take (S (S i)) (f0 :: g :: fs)) with (f0 :: take (S i) (g :: fs)).
        apply increasing_cons. split; [|done]. simpl. intros ? [= <-]. done.
      * apply increasing_cons. split; [|done]. simpl. intros ? [= <-]. done.
Qed.

Lemma data_cons (f : BIFFrame) (fs : list BIFFrame) : data (f :: fs) = JPEG f ++ data fs.
Proof. done. Qed.

Lemma bif_total_spec (t : Z) (frames : list BIFFrame) :
  0 <= t → t + len (data frames) < 2 ^ 64 →
  match bif_total t frames with
  | None => ∃ f, f ∈ frames ∧ JPEG f = []
  | Some total => Forall (λ f, JPEG f ≠ []) frames ∧ total = t + len (data frames)
  end.
Proof.
  revert t. induction frames as [|f fs IH]; intros t Ht Hb; cbn [bif_total].
  - split; [constructor|]. change (data []) with (@nil ascii). rewrite len_nil. lia.
  - rewrite data_cons, len_app in Hb. pose proof (len_nonneg (data fs)).
    pose proof (len_nonneg (JPEG f)).
    destruct (Z.eqb_spec (len (JPEG f)) 0) as [E|E].
    + exists f. split; [left|]. by destruct (JPEG f).
    + unfold wrapU64. rewrite Z.mod_small by lia.
      specialize (IH (t + len (JPEG f)) ltac:(lia) ltac:(lia)).
      destruct (bif_total _ fs).
      * destruct IH as [Hf ->]. split; [constructor; [|done]|].
        { intros E'. by rewrite E' in E. }
        rewrite data_cons, len_app. lia.
      * destruct IH as (g & Hg & Hj). exists g. split; [by right|done].
Qed.

Lemma last_List (f0 : BIFFrame) (fs : list BIFFrame) :
  last (f0 :: fs) = Some (List.last (f0 :: fs) f0).
Proof.
  assert (∀ (l : list BIFFrame) d x, last (x :: l) = Some (List.last (x :: l) d)) as H.
  { induction l as [|y l IH]; intros d x; [done|]. rewrite last_cons_cons. by rewrite (IH d y). }
  apply H.
Qed.

(** The bytes before the frames when nothing is refused. *)
Definition bif_head (multiplierMS : Z) (frames : list BIFFrame) : bytes :=
  bif_header (len frames) multiplierMS
  ++ bif_index (wrapU32 (bifHeaderSize + index_size frames)) frames.

Lemma bif_check_spec (m : Z) (frames : list BIFFrame) : fits_memory frames →
  (∃ e, bif_check m frames = inl e ∧ bif_rejects m frames e ∧ ¬ bif_valid m frames) ∨
  (bif_check m frames = inr (bif_head m frames) ∧ bif_valid m frames).
Proof.
  intros Hfit. unfold bif_check. destruct (Z.eqb_spec m 0) as [->|Hm].
  { left. eexists. split; [done|]. split; [by constructor|]. by intros []. }
  destruct frames as [|f0 fs].
  { left. eexists. split; [done|]. split; [by constructor|]. by intros []. }
  pose proof (not_increasing_spec 1 f0 fs) as Hinc.
  destruct (not_increasing 1 (Timestamp f0) fs) as [k|].
  { destruct Hinc as (i & f & g & -> & Hf & Hg & Hle & Hi). left. eexists. split; [done|]. split.
    - by apply (rejects_order _ _ i f g).
    - intros []. specialize (valid_increasing0 i f g Hf Hg). lia. }
  destruct (Z.eqb_spec (Timestamp (List.last (f0 :: fs) f0)) bifIndexEnd) as [Hl|Hl].
  { left. eexists. split; [done|]. pose proof (last_List f0 fs) as HL. split.
    - by eapply rejects_terminator.
    - intros []. by apply (valid_last0 _ HL). }
  unfold fits_memory, file_size in Hfit. pose proof (len_nonneg fs).
  pose proof (bif_total_spec (bifHeaderSize + index_size (f0 :: fs)) (f0 :: fs)) as Ht.
  destruct (bif_total _ (f0 :: fs)) as [total|].
  - destruct Ht as [Hi Ht]; [unfold bifHeaderSize, index_size; rewrite len_cons; lia|done|].
    fold (file_size (f0 :: fs)) in Ht. rewrite Ht.
    destruct (Z.ltb_spec uint32_max (file_size (f0 :: fs))).
    + left. eexists. split; [done|]. split; [by constructor|]. intros []. lia.
    + right. split; [done|]. split; try done. intros f Hf. rewrite last_List in Hf. by simplify_eq.
  - destruct Ht as (f & Hf & Hj); [unfold bifHeaderSize, index_size; rewrite len_cons; lia|done|].
    left. eexists. split; [done|]. split; [by eapply rejects_image|].
    intros []. rewrite Forall_forall in valid_images0. by apply (valid_images0 f).
Qed.

(** * The file's layout *)
Lemma length_index_entry (ts off : Z) : length (index_entry ts off) = 8%nat.
Proof. unfold index_entry. by rewrite length_app, !length_le_split. Qed.

Lemma bif_header_layout (n m : Z) :
  bif_header n m = bifMagic ++ le_split 4 0 ++ le_split 4 (wrapU32 n) ++ le_split 4 m
                   ++ replicate 44 (chr 0).
Proof. reflexivity. Qed.

Lemma length_bif_header (n m : Z) : length (bif_header n m) = 64%nat.
Proof. reflexivity. Qed.

Lemma le4_read (z : Z) : in_uint32 z → le_combine (le_split 4 z) = z.
Proof.
  unfold in_uint32, uint32_max. intros H. apply le_combine_split_small.
  change (2 ^ (8 * Z.of_nat 4)) with 4294967296. lia.
Qed.

Lemma u32_at_app (off : Z) (pre rest : bytes) (z : Z) :
  0 <= off → len pre = off → in_uint32 z → u32_at off (pre ++ le_split 4 z ++ rest) = z.
Proof.
  intros Ho Hp Hz. unfold u32_at. rewrite slice_app; [by apply le4_read| |apply length_le_split].
  unfold len in Hp. lia.
Qed.

(** An index starts with the offset it was given, whatever follows. *)
Lemma bif_index_head (off : Z) (frames : list BIFFrame) :
  ∃ ts rest, bif_index off frames = le_split 4 ts ++ le_split 4 off ++ rest.
Proof.
  destruct frames as [|f fs]; cbn [bif_index]; unfold index_entry.
  - exists bifIndexEnd, []. by rewrite app_nil_r.
  - eexists _, _. by rewrite <- (assoc_L (++)).
Qed.

Lemma wrapU32_small (z : Z) : in_uint32 z → wrapU32 z = z.
Proof. unfold in_uint32, uint32_max, wrapU32. intros H. rewrite Z.mod_small; lia. Qed.

Lemma bif_index_step (off : Z) (f : BIFFrame) (fs : list BIFFrame) :
  0 <= off → off + len (JPEG f) <= uint32_max →
  bif_index off (f :: fs) = index_entry (Timestamp f) off ++ bif_index (off + len (JPEG f)) fs.
Proof.
  intros Ho Hb. cbn [bif_index]. pose proof (len_nonneg (JPEG f)).
  rewrite (wrapU32_small (len (JPEG f))), wrapU32_small by (unfold in_uint32; lia). done.
Qed.

Lemma bif_index_split (l1 l2 : list BIFFrame) (off : Z) :
  0 <= off → off + len (data l1) <= uint32_max →
  ∃ pre, bif_index off (l1 ++ l2) = pre ++ bif_index (off + len (data l1)) l2 ∧
    len pre = 8 * len l1.
Proof.
  revert off. induction l1 as [|f l1 IH]; intros off Ho Hb.
  - exists []. change (data []) with (@nil ascii). by rewrite len_nil, Z.add_0_r.
  - rewrite data_cons, len_app in *. pose proof (len_nonneg (JPEG f)).
    pose proof (len_nonneg (data l1)). change ((f :: l1) ++ l2) with (f :: (l1 ++ l2)).
    rewrite bif_index_step by lia.
    destruct (IH (off + len (JPEG f)) ltac:(lia) ltac:(lia)) as (pre & -> & Hp).
    exists (index_entry (Timestamp f) off ++ pre). rewrite <- (assoc_L (++)), Z.add_assoc.
    split; [done|]. rewrite len_app, len_cons, Hp. unfold len at 1.
    rewrite length_index_entry. lia.
Qed.

Lemma length_bif_index (off : Z) (frames : list BIFFrame) :
  len (bif_index off frames) = index_size frames.
Proof.
  unfold index_size. revert off. induction frames as [|f fs IH]; intros off; cbn [bif_index].
  - unfold len. by rewrite length_index_entry.
  - rewrite len_app, IH, len_cons. unfold len at 1. rewrite length_index_entry. lia.
Qed.

Definition bif_file (m : Z) (frames : list BIFFrame) : bytes := bif_head m frames ++ data frames.

Lemma len_bif_head (m : Z) (frames : list BIFFrame) :
  len (bif_head m frames) = bifHeaderSize + index_size frames.
Proof.
  unfold bif_head. rewrite len_app, length_bif_index. unfold len at 1.
  by rewrite length_bif_header.
Qed.

Lemma data_app (l1 l2 : list BIFFrame) : data (l1 ++ l2) = data l1 ++ data l2.
Proof. unfold data. by rewrite fmap_app, concat_app. Qed.

Section Reading.
Context (m : Z) (frames : list BIFFrame).
Hypothesis Hm : in_uint32 m.
Hypothesis Hts : Forall (λ f, in_uint32 (Timestamp f)) frames.
Hypothesis Hsize : file_size frames <= uint32_max.

Lemma count_small : in_uint32 (len frames).
Proof.
  unfold file_size, index_size, bifHeaderSize, in_uint32 in *.
  pose proof (len_nonneg (data frames)). pose proof (len_nonneg frames). lia.
Qed.

Lemma file_header :
  bif_file m frames = bifMagic ++ le_split 4 0 ++ le_split 4 (len frames) ++ le_split 4 m
    ++ replicate 44 (chr 0)
    ++ bif_index (bifHeaderSize + index_size frames) frames ++ data frames.
Proof.
  unfold bif_file, bif_head. rewrite bif_header_layout, (wrapU32_small (len frames)) by apply count_small.
  rewrite wrapU32_small.
  - by rewrite <- !(assoc_L (++)).
  - unfold file_size, index_size, bifHeaderSize, in_uint32 in *.
    pose proof (len_nonneg (data frames)). pose proof (len_nonneg frames). lia.
Qed.

(** The index entry that follows the first [length l1] frames. *)
Lemma file_entry (l1 l2 : list BIFFrame) : frames = l1 ++ l2 →
  ∃ pre, bif_file m frames =
      pre ++ bif_index (bifHeaderSize + index_size frames + len (data l1)) l2 ++ data frames ∧
    len pre = bifHeaderSize + 8 * len l1.
Proof.
  intros E. rewrite file_header. pose proof (len_nonneg (data l2)). pose proof (len_nonneg frames).
  destruct (bif_index_split l1 l2 (bifHeaderSize + index_size frames)) as (pre & Hp & Hl).
  { unfold bifHeaderSize, index_size. lia. }
  { unfold file_size in Hsize. rewrite E, data_app, len_app in Hsize. rewrite <- E in Hsize. lia. }
  rewrite <- E in Hp. rewrite Hp.
  exists (bifMagic ++ le_split 4 0 ++ le_split 4 (len frames) ++ le_split 4 m
           ++ replicate 44 (chr 0) ++ pre).
  split; [by rewrite <- !(assoc_L (++))|]. rewrite !len_app, Hl.
  unfold len. rewrite !length_le_split. unfold bifHeaderSize. cbn [length].
  rewrite length_replicate. change (length bifMagic) with 8%nat. lia.
Qed.

Lemma entry_offset (l1 l2 : list BIFFrame) : frames = l1 ++ l2 →
  u32_at (bifHeaderSize + 8 * len l1 + 4) (bif_file m frames) =
    bifHeaderSize + index_size frames + len (data l1).
Proof.
  intros E. destruct (file_entry l1 l2 E) as (pre & -> & Hl).
  destruct (bif_index_head (bifHeaderSize + index_size frames + len (data l1)) l2) as (ts & rest & ->).
  replace (pre ++ (le_split 4 ts ++ le_split 4 (bifHeaderSize + index_size frames + len (data l1)) ++ rest) ++ data frames)
    with ((pre ++ le_split 4 ts) ++ le_split 4 (bifHeaderSize + index_size frames + len (data l1))
          ++ (rest ++ data frames)) by (by rewrite <- !(assoc_L (++))).
  pose proof (len_nonneg l1). pose proof (len_nonneg (data l1)). pose proof (len_nonneg (data l2)).
  pose proof (len_nonneg frames).
  apply u32_at_app.
  - unfold bifHeaderSize. lia.
  - rewrite len_app, Hl. unfold len. rewrite length_le_split. lia.
  - unfold in_uint32. unfold file_size in Hsize. rewrite E, data_app, len_app in Hsize.
    rewrite <- E in Hsize. unfold index_size, bifHeaderSize in *. lia.
Qed.

Lemma read_frame_at (l1 l2 : list BIFFrame) (f : BIFFrame) : frames = l1 ++ f :: l2 →
  read_frame (bif_file m frames) (length l1) = f.
Proof.
  intros E. unfold read_frame. fold (len l1).
  replace (bifHeaderSize + 8 * len l1 + 12) with (bifHeaderSize + 8 * len (l1 ++ [f]) + 4)
    by (rewrite len_app; change (len [f]) with 1; lia).
  rewrite (entry_offset l1 (f :: l2)) by done.
  rewrite (entry_offset (l1 ++ [f]) l2) by (by rewrite <- (assoc_L (++))).
  rewrite data_app, len_app. change (data [f]) with (JPEG f ++ []). rewrite app_nil_r.
  replace (_ - _) with (len (JPEG f)) by lia.
  assert (u32_at (bifHeaderSize + 8 * len l1) (bif_file m frames) = Timestamp f) as ->.
  { destruct (file_entry l1 (f :: l2) E) as (pre & -> & Hl). cbn [bif_index]. unfold index_entry.
    rewrite <- !(assoc_L (++)). pose proof (len_nonneg l1). apply u32_at_app; [|done|].
    - unfold bifHeaderSize. lia.
    - rewrite Forall_forall in Hts. apply Hts. rewrite E. apply elem_of_app. right. left. }
  assert (slice (Z.to_nat (bifHeaderSize + index_size frames + len (data l1)))
            (Z.to_nat (len (JPEG f))) (bif_file m frames) = JPEG f) as ->.
  { unfold bif_file. rewrite E at 3. rewrite data_app, data_cons.
    rewrite (assoc_L (++)). unfold len at 2. rewrite Nat2Z.id. apply slice_app; [|done].
    rewrite length_app. pose proof (len_bif_head m frames) as Hh. unfold len in Hh |- *. lia. }
  by destruct f.
Qed.

Lemma read_frames : read_frame (bif_file m frames) <$> seq 0 (length frames) = frames.
Proof.
  apply list_eq. intros i. rewrite list_lookup_fmap.
  destruct (decide (i < length frames)%nat) as [Hi|Hi].
  - rewrite lookup_seq_lt by done. destruct (lookup_lt_is_Some_2 frames i Hi) as [f Hf].
    rewrite Hf. cbn. f_equal. pose proof (take_drop_middle frames i f Hf) as E.
    rewrite <- (read_frame_at (take i frames) (drop (S i) frames) f) by done.
    f_equal. rewrite length_take. lia.
  - rewrite lookup_ge_None_2 by (rewrite length_seq; lia). by rewrite lookup_ge_None_2 by lia.
Qed.

Lemma ReadBIF_file : ReadBIF (bif_file m frames) = Some (m, frames).
Proof.
  pose proof count_small as Hn.
  assert (u32_at 12 (bif_file m frames) = len frames) as Ec.
  { rewrite file_header, (assoc_L (++)). by apply u32_at_app. }
  assert (u32_at 8 (bif_file m frames) = 0) as Ev.
  { rewrite file_header. by apply u32_at_app. }
  assert (u32_at 16 (bif_file m frames) = m) as Em.
  { rewrite file_header, !(assoc_L (++) bifMagic), (assoc_L (++) (bifMagic ++ _)).
    by apply u32_at_app. }
  assert (slice 0 8 (bif_file m frames) = bifMagic) as Eg by (by rewrite file_header).
  assert (slice 20 44 (bif_file m frames) = replicate 44 (chr 0)) as Ez by (by rewrite file_header).
  assert (u32_at (bifHeaderSize + 8 * len frames) (bif_file m frames) = bifIndexEnd) as Et.
  { destruct (file_entry frames []) as (pre & -> & Hl); [by rewrite app_nil_r|].
    cbn [bif_index]. unfold index_entry. rewrite <- !(assoc_L (++)). pose proof (len_nonneg frames).
    apply u32_at_app; [unfold bifHeaderSize; lia|done|done]. }
  pose proof (entry_offset frames [] ltac:(by rewrite app_nil_r)) as Eo.
  unfold ReadBIF. rewrite Ec, Ev, Em, Eg, Ez, Et, Eo, !bool_decide_true by done.
  unfold bif_file at 1. rewrite len_app, len_bif_head, !Z.eqb_refl. cbn.
  unfold len. rewrite Nat2Z.id. by rewrite read_frames.
Qed.
End Reading.

(** Writing a list of blocks until one fails. *)
Fixpoint write_all {W} (Write : W → bytes → W * option string) (w : W) (blocks : list bytes)
    : W * option BIFError :=
  match blocks with
  | [] => (w, None)
  | b :: bs =>
      match Write w b with
      | (w', Some e) => (w', Some (ErrWrite e))
      | (w', None) => write_all Write w' bs
      end
  end.

Lemma write_frames_all {W} (Write : W → bytes → W * option string) (w : W) (frames : list BIFFrame) :
  write_frames Write w frames = write_all Write w (JPEG <$> frames).
Proof.
  revert w. induction frames as [|f fs IH]; intros w; simpl; [done|].
  destruct (Write w (JPEG f)) as [w' [e|]]; [done|]. apply IH.
Qed.

Lemma write_all_buffer (buf : bytes) (blocks : list bytes) :
  write_all buffer_Write buf blocks = (buf ++ concat blocks, None).
Proof.
  revert buf. induction blocks as [|b bs IH]; intros buf; simpl.
  - by rewrite app_nil_r.
  - by rewrite IH, <- (assoc_L (++)).
Qed.

Lemma WriteBIF_buffer (m : Z) (frames : list BIFFrame) : bif_valid m frames →
  WriteBIF buffer_Write [] m frames = (bif_file m frames, None).
Proof.
  intros Hv. unfold WriteBIF.
  destruct (bif_check_spec m frames) as [(e & _ & _ & Hn)|[-> _]]; [|done|].
  { unfold fits_memory. pose proof (valid_size _ _ Hv). unfold uint32_max in *. lia. }
  cbn. rewrite write_frames_all, write_all_buffer. done.
Qed.

(** What [WriteBIF] refuses, on every writer: an input that is not a valid
    BIF is refused before anything is written, with an error that is true of
    it; a valid one is written as the header and index followed by the frames
    in order, until the writer fails. *)
Lemma bif_write_errors {W : Type} (Write : W → bytes → W * option string) (w : W) (m : Z)
    (frames : list BIFFrame) (Hfit : fits_memory frames) :
  (¬ bif_valid m frames →
     ∃ e, WriteBIF Write w m frames = (w, Some e) ∧ bif_rejects m frames e) ∧
  (bif_valid m frames →
     WriteBIF Write w m frames = write_all Write w (bif_head m frames :: (JPEG <$> frames))).
Proof.
  unfold WriteBIF. split; intros Hv.
  - destruct (bif_check_spec m frames Hfit) as [(e & -> & Hr & _)|[_ ?]]; [|done].
    by exists e.
  - destruct (bif_check_spec m frames Hfit) as [(e & _ & _ & ?)|[-> _]]; [done|].
    cbn [write_all]. destruct (Write w (bif_head m frames)) as [w' [e|]]; [done|].
    apply write_frames_all.
Qed.

Lemma bif_write_errors_witness :
  ∃ e, WriteBIF buffer_Write [] 10000 [mkFrame 3 [chr 1]; mkFrame 3 [chr 2]] = ([], Some e) ∧
    bif_rejects 10000 [mkFrame 3 [chr 1]; mkFrame 3 [chr 2]] e.
Proof.
  apply (bif_write_errors buffer_Write [] 10000 [mkFrame 3 [chr 1]; mkFrame 3 [chr 2]]).
  - vm_compute. reflexivity.
  - intros [_ _ Hi _ _ _]. specialize (Hi 0%nat _ _ eq_refl eq_refl). cbn in Hi. lia.
Defined.

(** Round trip of the container: every valid set of frames is written
    without error, and a reader of the documented layout gets back the interval
    and each frame's timestamp and image. *)
Lemma bif_roundtrip (m : Z) (frames : list BIFFrame) (Hv : bif_valid m frames)
    (Hm : in_uint32 m) (Hts : Forall (λ f, in_uint32 (Timestamp f)) frames) :
  ∃ out, WriteBIF buffer_Write [] m frames = (out, None) ∧ ReadBIF out = Some (m, frames) ∧
    len out = file_size frames.
Proof.
  exists (bif_file m frames). split; [by apply WriteBIF_buffer|]. split.
  - apply ReadBIF_file; [done|done|]. by apply valid_size in Hv.
  - unfold bif_file. by rewrite len_app, len_bif_head.
Qed.

Lemma bif_roundtrip_witness :
  ∃ out, WriteBIF buffer_Write [] 10000 [mkFrame 0 [chr 1]; mkFrame 1 [chr 2; chr 3]] = (out, None) ∧
    ReadBIF out = Some (10000, [mkFrame 0 [chr 1]; mkFrame 1 [chr 2; chr 3]]) ∧
    len out = file_size [mkFrame 0 [chr 1]; mkFrame 1 [chr 2; chr 3]].
Proof.
  apply (bif_roundtrip 10000 [mkFrame 0 [chr 1]; mkFrame 1 [chr 2; chr 3]]).
  - split; [done|done| | | |vm_compute; discriminate].
    + intros [|[|i]] f g Hf Hg; simpl in *; simplify_eq. cbn. lia.
    + intros f Hf. simpl in Hf. by simplify_eq.
    + by repeat constructor.
  - split; vm_compute; discriminate.
  - repeat constructor; vm_compute; discriminate.
Defined.

(** * From the index to the BIF *)
Lemma pattern_name_ok (name : string) : spriteNamePattern name = true → name_ok name.
Proof.
  unfold spriteNamePattern. destruct (CutPrefix name "sprite_") as [r|] eqn:E; [|done].
  apply CutPrefix_eq in E. destruct r as [|a [|b [|c r]]]; try done.
  intros [[[Ha Hb]%andb_true_iff Hc]%andb_true_iff Hr]%andb_true_iff.
  apply String.eqb_eq in Hr. subst r name.
  assert (∀ x, is_digit x = true → name_char x = true) as Hd.
  { intros x. unfold is_digit, name_char, is_space.
    destruct (Ascii.eqb_spec x "-") as [->|]; [done|].
    destruct (Ascii.eqb_spec x "#") as [->|]; [done|]. intros H. breflect. lia. }
  split; [|vm_compute; discriminate].
  rewrite sforall_app. apply andb_true_iff. split; [done|]. cbn [sforall].
  by rewrite (Hd a), (Hd b), (Hd c).
Qed.

Lemma Intersect_inside (r b : Rectangle) :
  MinX b <= MinX r → MaxX r <= MaxX b → MinY b <= MinY r → MaxY r <= MaxY b →
  Empty r = false → Intersect r b = r.
Proof.
  intros. unfold Intersect. rewrite !Z.max_l, !Z.min_l by done.
  destruct r as [x0 y0 x1 y1]. cbn in *. rewrite H3. done.
Qed.

Section Building.
Context {Img : Type} (lib : ImageLib Img) (decode : string → string + Img).
Context (s : Spec) (d : Z) (names : list string).

(** Every sheet decodes to a picture of the full grid, and encoding yields
    data. *)
Definition sheets_decode : Prop :=
  ∀ n, n ∈ names → ∃ img, decode n = inr img ∧
    Bounds lib img = mkRectangle 0 0 (GridCols s * ThumbWidth s) (GridRows s * ThumbHeight s).
Definition images_encode : Prop := ∀ img, ∃ b, Encode lib img = inr b ∧ b ≠ [].

(** The image of a cue: its cell of its sheet. *)
Definition image_of (c : VTTCue) (j : bytes) : Prop :=
  ∃ img, decode (Sprite c) = inr img ∧ cut_frame lib img (Region c) BIFMaxWidth = inr j ∧ j ≠ [].

Definition sliceable (c : VTTCue) : Prop :=
  spriteNamePattern (Sprite c) = true ∧
  ∃ img, decode (Sprite c) = inr img ∧ region_in lib img (Region c) = Region c ∧
    Empty (Region c) = false.

Lemma slice_loop_images (cues : list VTTCue) (cur : option (string * Img)) :
  images_encode → Forall sliceable cues →
  (∀ n img, cur = Some (n, img) → decode n = inr img) →
  ∃ jpegs, slice_loop lib decode cues BIFMaxWidth cur = inr jpegs ∧ Forall2 image_of cues jpegs.
Proof.
  intros Henc Hc. revert cur. induction Hc as [|c cues (Hp & img & Hd & Hr & He) _ IH]; intros cur Hcur.
  - by exists [].
  - cbn [slice_loop]. rewrite Hp. cbn [negb].
    assert (match cur with
            | Some (name, img0) => if String.eqb (Sprite c) name then inr img0 else decode (Sprite c)
            | None => decode (Sprite c) end = inr img) as ->.
    { destruct cur as [[n i]|]; [|done]. destruct (String.eqb_spec (Sprite c) n) as [E|]; [|done].
      specialize (Hcur n i eq_refl). congruence. }
    rewrite Hr, He.
    destruct (Henc (if (0 <? BIFMaxWidth) && (BIFMaxWidth <? Dx (Region c))
      then Scale lib (cropImage lib img (Region c)) BIFMaxWidth
        (if Z.quot (Dy (Region c) * BIFMaxWidth + Z.quot (Dx (Region c)) 2) (Dx (Region c)) <? 1 then 1
         else Z.quot (Dy (Region c) * BIFMaxWidth + Z.quot (Dx (Region c)) 2) (Dx (Region c)))
      else cropImage lib img (Region c))) as (j & Hj & Hne).
    assert (cut_frame lib img (Region c) BIFMaxWidth = inr j) as Hcut by (rewrite <- Hj; done).
    rewrite Hcut. destruct (IH (Some (Sprite c, img))) as (js & -> & Hf).
    { intros n i [= <- <-]. done. }
    exists (j :: js). split; [done|]. constructor; [|done]. by exists img.
Qed.

Context (Hs : valid_spec s = true) (Hfit : sheet_fits s) (Hd : 0 < d).
Context (Hdb : d * Second <= int64_max) (Hnames : Forall (λ n, spriteNamePattern n = true) names).
Context (Hlen : SpriteCount s d <= len names).
Context (Hsheets : sheets_decode) (Henc : images_encode).

Lemma name_at_in (i : Z) : 0 <= i < thumb_count s d → name_at s names i ∈ names.
Proof using Hs Hlen.
  intros Hi. pose proof (sprite_index s d i Hs Hi) as Hx. unfold name_at.
  destruct (lookup_lt_is_Some_2 names (Z.to_nat (i `div` ThumbsPerSprite s))) as [n Hn].
  { unfold len in Hlen. lia. }
  rewrite Hn. by eapply list_elem_of_lookup_2.
Qed.

Lemma layout_sliceable : Forall sliceable (layout s d names).
Proof using Hs Hsheets Hnames Hlen.
  apply Forall_lookup. intros i c [Hi ->]%layout_lookup.
  destruct (valid_spec_pos s Hs) as (Hiv & Hw & Hh & Hgc & Hgr).
  pose proof (name_at_in (Z.of_nat i) ltac:(lia)) as Hin.
  destruct (cell_bounds s (Z.of_nat i) Hs ltac:(lia)) as [Hcx Hcy].
  destruct (Hsheets _ Hin) as (img & Hdec & Hb). split.
  - rewrite Forall_forall in Hnames. by apply Hnames.
  - exists img. split; [done|]. unfold region_in. rewrite Hb. unfold layout_cue.
    cbn [Region MinX MinY]. unfold Add. cbn [MinX MinY MaxX MaxY]. rewrite !Z.add_0_r.
    assert (∀ x y : Z, Empty (mkRectangle x y (x + ThumbWidth s) (y + ThumbHeight s)) = false) as He.
    { intros x y. unfold Empty. cbn [MinX MinY MaxX MaxY]. apply orb_false_iff.
      split; apply Z.leb_gt; lia. }
    split; [|apply He]. apply Intersect_inside; cbn [MinX MinY MaxX MaxY]; [nia..|apply He].
Qed.

(** The index unit in milliseconds: the interval, or the whole of a video
    shorter than that. *)
Definition unit_ms : Z := Z.min d (IntervalSec s) * 1000.

Lemma first_interval (c0 : VTTCue) (cs : list VTTCue) : layout s d names = c0 :: cs →
  Milliseconds (cue_interval c0 cs) = unit_ms.
Proof using Hs Hd Hdb.
  intros E. destruct (valid_spec_pos s Hs) as (Hiv & _).
  pose proof (layout_length s d names) as HL. rewrite E in HL.
  assert ((layout s d names) !! 0%nat = Some c0) as H0 by (by rewrite E).
  apply layout_lookup in H0 as [H0 ->]. unfold Milliseconds, cue_interval, unit_ms.
  destruct cs as [|c1 cs].
  - assert (¬ 1 < thumb_count s d) as H1 by (simpl in HL; lia).
    rewrite thumb_count_lt in H1 by lia. unfold layout_cue. cbn [Start End_].
    unfold Second, Millisecond in *. rewrite wrap64_small, !Z.min_l by lia.
    change (Z.of_nat 0) with 0. rewrite Z.mul_0_l, Z.sub_0_r.
    replace (d * 1000000000) with (d * 1000 * 1000000) by lia. by apply Z.quot_mul.
  - assert ((layout s d names) !! 1%nat = Some c1) as H1 by (by rewrite E).
    apply layout_lookup in H1 as [H1 ->]. rewrite thumb_count_lt in H1 by lia.
    unfold layout_cue. cbn [Start End_]. unfold Second, Millisecond in *.
    rewrite wrap64_small, Z.min_r by lia.
    replace (_ - _) with (IntervalSec s * 1000 * 1000000) by lia. by apply Z.quot_mul.
Qed.

Lemma cue_unit (i : nat) (c : VTTCue) : layout s d names !! i = Some c →
  Z.quot (Milliseconds (Start c) + Z.quot unit_ms 2) unit_ms = Z.of_nat i.
Proof using Hs Hd.
  intros [Hi ->]%layout_lookup. destruct (valid_spec_pos s Hs) as (Hiv & _).
  assert (0 < unit_ms) as Hu by (unfold unit_ms; lia).
  assert (Milliseconds (Start (layout_cue s d (name_at s names (Z.of_nat i)) (Z.of_nat i)))
    = Z.of_nat i * unit_ms) as ->.
  { unfold Milliseconds, layout_cue, unit_ms. cbn [Start]. unfold Second, Millisecond.
    replace (_ * 1000000000) with (Z.of_nat i * IntervalSec s * 1000 * 1000000) by lia.
    rewrite Z.quot_mul by done. rewrite thumb_count_lt in Hi by lia.
    destruct i; [lia|]. rewrite Z.min_r by nia. lia. }
  rewrite (Z.quot_div_nonneg unit_ms 2), Z.quot_div_nonneg; try lia.
  - rewrite Z.add_comm, Z.div_add, Z.div_small by (Z.to_euclidean_division_equations; lia). lia.
  - Z.to_euclidean_division_equations. nia.
Qed.

Definition numbered (i : nat) (jpegs : list bytes) : list BIFFrame :=
  imap (λ k j, mkFrame (Z.of_nat (i + k)) j) jpegs.

Lemma index_frames_numbered (cues : list VTTCue) (jpegs : list bytes) (i : nat) (last : option Z) :
  length cues = length jpegs → drop i (layout s d names) = cues →
  Z.of_nat (length (layout s d names)) <= uint32_max →
  (∀ l, last = Some l → l < Z.of_nat i) →
  index_frames i unit_ms last cues jpegs = inr (numbered i jpegs).
Proof using Hs Hd.
  revert jpegs i last. induction cues as [|c cs IH]; intros [|j js] i last Hl Hdr Hmax Hlast;
    try done. cbn [index_frames].
  assert (layout s d names !! i = Some c) as Hc.
  { rewrite <- (Nat.add_0_r i), <- lookup_drop, Hdr. done. }
  rewrite (cue_unit i c Hc).
  pose proof (lookup_lt_Some _ _ _ Hc). rewrite wrapU32_small by (unfold in_uint32; lia).
  assert (match last with Some l => Z.of_nat i <=? l | None => false end = false) as ->.
  { destruct last as [l|]; [|done]. specialize (Hlast l eq_refl). lia. }
  rewrite (IH js (S i) (Some (Z.of_nat i))).
  - unfold numbered. cbn [imap]. rewrite Nat.add_0_r. do 2 f_equal.
    apply imap_ext. intros k b _. cbn. f_equal. lia.
  - simpl in Hl. lia.
  - rewrite <- Nat.add_1_r, <- drop_drop, Hdr. done.
  - done.
  - intros l [= <-]. lia.
Qed.
End Building.

Lemma numbered_lookup (jpegs : list bytes) (i : nat) (f : BIFFrame) :
  numbered 0 jpegs !! i = Some f ↔ Timestamp f = Z.of_nat i ∧ jpegs !! i = Some (JPEG f).
Proof.
  unfold numbered. rewrite list_lookup_imap, fmap_Some. split.
  - by intros (j & Hj & ->).
  - intros [Ht Hj]. exists (JPEG f). split; [done|]. destruct f. simpl in *. by subst.
Qed.

Lemma numbered_valid (m : Z) (jpegs : list bytes) :
  m ≠ 0 → jpegs ≠ [] → Forall (λ j, j ≠ []) jpegs → file_size (numbered 0 jpegs) <= uint32_max →
  bif_valid m (numbered 0 jpegs) ∧ Forall (λ f, in_uint32 (Timestamp f)) (numbered 0 jpegs).
Proof.
  intros Hm Hne Hj Hsz.
  assert (∀ i f, numbered 0 jpegs !! i = Some f → 8 * (1 + Z.of_nat i) <= uint32_max) as Hb.
  { intros i f Hf. apply lookup_lt_Some in Hf. unfold file_size, index_size, bifHeaderSize in Hsz.
    pose proof (len_nonneg (data (numbered 0 jpegs))). unfold len in *. lia. }
  split; [split; try done|].
  - by destruct jpegs.
  - intros i f g [Hf _]%numbered_lookup [Hg _]%numbered_lookup. lia.
  - intros f. rewrite last_lookup. intros Hf. pose proof (Hb _ _ Hf) as Hx.
    apply numbered_lookup in Hf as [Hf _]. unfold bifIndexEnd, uint32_max in *. lia.
  - apply Forall_lookup. intros i f [_ Hf]%numbered_lookup. rewrite Forall_lookup in Hj. by eapply Hj.
  - apply Forall_lookup. intros i f Hf. pose proof (Hb _ _ Hf) as Hx.
    apply numbered_lookup in Hf as [-> _]. unfold in_uint32. lia.
Qed.

Lemma thumb_count_pos (s : Spec) (d : Z) : 0 < IntervalSec s → 0 < d → 0 < thumb_count s d.
Proof. intros. apply thumb_count_lt; lia. Qed.

(** The whole pipeline: from the index [WriteVTT] wrote and sheets that
    decode, [BuildBIF] produces, unless the file would pass 4 GiB, a file whose
    reader sees one frame per cue, frame [i] at time unit [i], each the
    picture of its own cell; no cue is ever refused as uneven. *)
Lemma build_bif_frames {Img : Type} (lib : ImageLib Img) (decode : string → string + Img)
    (s : Spec) (d : Z) (names : list string)
    (Hs : valid_spec s = true) (Hfit : sheet_fits s) (Hd : 0 < d)
    (Hdb : d * Second <= int64_max) (Hu : unit_ms s d <= uint32_max)
    (Hnames : Forall (λ n, spriteNamePattern n = true) names) (Hlen : SpriteCount s d <= len names)
    (Hsheets : sheets_decode lib decode s names) (Henc : images_encode lib) :
  ∃ text jpegs, WriteVTT s d names = Some (inr text) ∧
    Forall2 (image_of lib decode) (layout s d names) jpegs ∧
    (file_size (numbered 0 jpegs) <= uint32_max →
     ∃ out, BuildBIF lib decode buffer_Write (inr text) [] = (out, None) ∧
       ReadBIF out = Some (unit_ms s d, numbered 0 jpegs)).
Proof.
  destruct (vtt_reads_layout s d names Hs Hfit Hdb) as (text & Hw & Hp);
    [by eapply Forall_impl, pattern_name_ok|done|].
  destruct (slice_loop_images lib decode (layout s d names) None Henc) as (jpegs & Hsl & Himg);
    [by apply layout_sliceable|done|].
  exists text, jpegs. split; [done|]. split; [done|]. intros Hsz.
  destruct (valid_spec_pos s Hs) as (Hiv & _).
  pose proof (thumb_count_pos s d Hiv Hd) as Hpos. pose proof (layout_length s d names) as HL.
  pose proof (Forall2_length _ _ _ Himg) as HlenJ.
  destruct (numbered_valid (unit_ms s d) jpegs) as [Hv Hts]; [| | |done|].
  { unfold unit_ms. lia. }
  { destruct jpegs; [simpl in HlenJ; lia|done]. }
  { eapply Forall2_Forall_r; [exact Himg|]. apply Forall_true. by intros c j (_ & _ & _ & ?). }
  exists (bif_file (unit_ms s d) (numbered 0 jpegs)). split.
  - unfold BuildBIF. rewrite Hp.
    destruct (layout s d names) as [|c0 cs] eqn:E; [simpl in HL; lia|].
    rewrite (first_interval s d names Hs Hd Hdb c0 cs E).
    assert ((unit_ms s d <=? 0) || (uint32_max <? unit_ms s d) = false) as ->.
    { apply orb_false_iff. split; [apply Z.leb_gt; unfold unit_ms; lia|by apply Z.ltb_ge]. }
    unfold SliceSprites. rewrite Hsl.
    rewrite (index_frames_numbered s d names Hs Hd); [| |by rewrite drop_0|..].
    + destruct (numbered 0 jpegs) eqn:En; [|rewrite <- En in *; by apply WriteBIF_buffer].
      by destruct (valid_nonempty _ _ Hv).
    + done.
    + rewrite E, HlenJ. unfold file_size, index_size, bifHeaderSize in Hsz.
      pose proof (len_nonneg (data (numbered 0 jpegs))). unfold len, numbered in Hsz.
      rewrite length_imap in Hsz. lia.
    + done.
  - apply ReadBIF_file; [|done|by apply valid_size in Hv]. unfold in_uint32, unit_ms in *. lia.
Qed.

(** A picture library on rectangles: a picture is its bounds, and encodes to
    one byte. *)
Definition rect_lib : ImageLib Rectangle :=
  mkImageLib _ (λ r, r) (λ _ r, r) (λ _ w h, mkRectangle 0 0 w h) (λ r, inr [chr (MinX r `mod` 256)]).

Lemma build_bif_frames_witness :
  ∃ text jpegs, WriteVTT Default 25 ["sprite_000.jpg"] = Some (inr text) ∧
    Forall2 (image_of rect_lib (λ _, inr (mkRectangle 0 0 3200 1800))) (layout Default 25 ["sprite_000.jpg"]) jpegs ∧
    (file_size (numbered 0 jpegs) <= uint32_max →
     ∃ out, BuildBIF rect_lib (λ _, inr (mkRectangle 0 0 3200 1800)) buffer_Write (inr text) [] = (out, None) ∧
       ReadBIF out = Some (unit_ms Default 25, numbered 0 jpegs)).
Proof.
  apply build_bif_frames.
  - reflexivity.
  - split; vm_compute; discriminate.
  - lia.
  - vm_compute. discriminate.
  - vm_compute. discriminate.
  - repeat constructor.
  - vm_compute. discriminate.
  - intros n _. eexists. split; reflexivity.
  - intros img. eexists. split; [reflexivity|discriminate].
Defined.
