(* ===== verification/TrickplayQueue.v ===== *)
(** The trickplay generation queue: [internal/trickplay/queue.go], with the
    run of one item of [generator.go], the status statements of
    [trickplay.sql] and the planner of [planner.go].

    The queue is a record changed under its mutex; goroutines interleave
    between its critical sections.  [step] is that interleaving: the worker
    [Run], any number of [Process] callers and of enqueuers, which signal the
    worker in a step of its own after the mutex is released. *)
From stdpp Require Import relations.
From S2P Require Import Prelude.
From S2P Require Import GoStrings.
From S2P Require Import GoBytes.
From S2P Require Import TrickplayVTT.

Local Open Scope Z_scope.

Definition DefaultMaxPending : Z := 20000.
Definition maxCandidateBatch : Z := DefaultMaxPending.

(** * The queue *)

(** [slot] and [wake] are channels of capacity one: whether they hold a
    token. *)
Record Queue := mkQueue {
  maxPending : Z;
  pending : list string;
  pendingSet : gset string;
  inflight : gset string;
  slot : bool;
  wake : bool
}.
#[export] Instance eta_Queue : Eta Queue :=
  λ q, mkQueue (maxPending q) (pending q) (pendingSet q) (inflight q) (slot q) (wake q).

Definition NewQueue : Queue := mkQueue DefaultMaxPending [] ∅ ∅ false false.
Definition WithMaxPending (q : Queue) (n : Z) : Queue :=
  if 0 <? n then q <| maxPending := n |> else q.

Definition knownLocked (q : Queue) (id : string) : bool :=
  bool_decide (id ∈ pendingSet q) || bool_decide (id ∈ inflight q).

Definition signal (q : Queue) : Queue := q <| wake := true |>.

Fixpoint enqueue_loop (q : Queue) (ids : list string) (added : Z) : Queue * Z :=
  match ids with
  | [] => (q, added)
  | id :: ids' =>
      if knownLocked q id then enqueue_loop q ids' added
      else if maxPending q <=? len (pending q) then (q, added)
      else
        let q' := q <| pending := pending q ++ [id] |> in
        let q' := q' <| pendingSet := {[ id ]} ∪ pendingSet q' |> in
        enqueue_loop q' ids' (added + 1)
  end.

(** What [Enqueue] does under the mutex; the flag says that it signals once it
    has released it. *)
Definition Enqueue_locked (q : Queue) (ids : list string) : Queue * Z * bool :=
  let '(q', added) := enqueue_loop q ids 0 in (q', added, 0 <? added).

(** The whole call, when nothing happens between the two. *)
Definition Enqueue (q : Queue) (ids : list string) : Queue * Z :=
  let '(q', added, signals) := Enqueue_locked q ids in
  (if signals then signal q' else q', added).

(** The slice without its first occurrence of [id]. *)
Fixpoint remove_first (id : string) (l : list string) : list string :=
  match l with
  | [] => []
  | p :: l' => if String.eqb p id then l' else p :: remove_first id l'
  end.

Definition EnqueueFront_locked (q : Queue) (id : string) : Queue * bool :=
  if bool_decide (id ∈ inflight q) then (q, false)
  else
    let q := if bool_decide (id ∈ pendingSet q)
             then q <| pending := remove_first id (pending q) |> else q in
    let q := q <| pending := id :: pending q |> in
    (q <| pendingSet := {[ id ]} ∪ pendingSet q |>, true).

Definition EnqueueFront (q : Queue) (id : string) : Queue :=
  let '(q', signals) := EnqueueFront_locked q id in if signals then signal q' else q'.

Definition Len (q : Queue) : Z := len (pending q).
Definition Has (q : Queue) (id : string) : bool := knownLocked q id.

Definition next (q : Queue) : Queue * option string :=
  match pending q with
  | [] => (q, None)
  | id :: rest =>
      let q := q <| pending := rest |> in
      let q := q <| pendingSet := pendingSet q ∖ {[ id ]} |> in
      (q <| inflight := {[ id ]} ∪ inflight q |>, Some id)
  end.

Definition claim (q : Queue) (id : string) : Queue * bool :=
  if knownLocked q id then (q, false)
  else (q <| inflight := {[ id ]} ∪ inflight q |>, true).

Definition finish (q : Queue) (id : string) : Queue :=
  q <| inflight := inflight q ∖ {[ id ]} |>.

Definition releaseSlot (q : Queue) : Queue := q <| slot := false |>.

(** * Goroutines

    What [Run] and [Process] do with an item they hold in flight: [acquire]
    takes the slot and then may wait for an idle moment; [generate] runs; the
    slot is released and the item finished.  A cancelled or expired wait goes
    straight on to finish. *)
Inductive Phase := Claimed | Holding | Generating | Released.
Record Thread := mkThread { t_item : string; t_phase : Phase }.

Inductive phase_step (id : string) : Queue → Phase → Queue → Phase → Prop :=
  | take_slot q : slot q = false → phase_step id q Claimed (q <| slot := true |>) Holding
  | wait_expired q : phase_step id q Claimed q Released
  | busy_cancelled q : phase_step id q Holding (releaseSlot q) Released
  | idle_now q : phase_step id q Holding q Generating
  | generated q : phase_step id q Generating (releaseSlot q) Released.

(** [Run]: about to look for work, blocked on [wake], working, or returned. *)
Inductive RunState := RunNext | RunWait | RunItem (t : Thread) | RunStopped.

(** [s_signals] counts the enqueuers that have released the mutex and not yet
    called [signal]. *)
Record Sys := mkSys {
  s_queue : Queue; s_run : RunState; s_procs : list Thread; s_signals : nat }.

Definition initial (max : Z) : Sys := mkSys (WithMaxPending NewQueue max) RunNext [] 0.

Definition owes (signals : bool) (n : nat) : nat := if signals then S n else n.

Inductive step : Sys → Sys → Prop :=
  | step_enqueue ids q q' added signals r ps n :
      Enqueue_locked q ids = (q', added, signals) →
      step (mkSys q r ps n) (mkSys q' r ps (owes signals n))
  | step_enqueue_front id q q' signals r ps n :
      EnqueueFront_locked q id = (q', signals) →
      step (mkSys q r ps n) (mkSys q' r ps (owes signals n))
  | step_signal q r ps n : step (mkSys q r ps (S n)) (mkSys (signal q) r ps n)
  | step_next q q' id ps n :
      next q = (q', Some id) →
      step (mkSys q RunNext ps n) (mkSys q' (RunItem (mkThread id Claimed)) ps n)
  | step_next_none q q' ps n :
      next q = (q', None) → step (mkSys q RunNext ps n) (mkSys q' RunWait ps n)
  | step_woken q ps n :
      wake q = true → step (mkSys q RunWait ps n) (mkSys (q <| wake := false |>) RunNext ps n)
  | step_cancelled q ps n : step (mkSys q RunWait ps n) (mkSys q RunStopped ps n)
  | step_run q q' id p p' ps n :
      phase_step id q p q' p' →
      step (mkSys q (RunItem (mkThread id p)) ps n) (mkSys q' (RunItem (mkThread id p')) ps n)
  | step_run_finish q id ps r n :
      r = RunNext ∨ r = RunStopped →
      step (mkSys q (RunItem (mkThread id Released)) ps n) (mkSys (finish q id) r ps n)
  | step_claim q q' id r ps n :
      claim q id = (q', true) →
      step (mkSys q r ps n) (mkSys q' r (mkThread id Claimed :: ps) n)
  | step_proc q q' id p p' r ps1 ps2 n :
      phase_step id q p q' p' →
      step (mkSys q r (ps1 ++ mkThread id p :: ps2) n) (mkSys q' r (ps1 ++ mkThread id p' :: ps2) n)
  | step_proc_finish q id r ps1 ps2 n :
      step (mkSys q r (ps1 ++ mkThread id Released :: ps2) n) (mkSys (finish q id) r (ps1 ++ ps2) n).

Definition run_threads (r : RunState) : list Thread :=
  match r with RunItem t => [t] | _ => [] end.
Definition threads (s : Sys) : list Thread := run_threads (s_run s) ++ s_procs s.

Definition holds_slot (t : Thread) : bool :=
  match t_phase t with Holding | Generating => true | _ => false end.
Definition holders (ts : list Thread) : list Thread := List.filter holds_slot ts.

(** * The invariant *)
Record queue_ok (q : Queue) (ts : list Thread) : Prop := {
  ok_nodup : NoDup (pending q);
  ok_set : ∀ id, id ∈ pendingSet q ↔ id ∈ pending q;
  ok_items : NoDup (t_item <$> ts);
  ok_inflight : ∀ id, id ∈ inflight q ↔ id ∈ t_item <$> ts;
  ok_disjoint : ∀ id, id ∈ pending q → id ∉ inflight q;
  ok_slot : length (holders ts) = if slot q then 1%nat else 0%nat
}.

Record sys_ok (s : Sys) : Prop := {
  sys_queue : queue_ok (s_queue s) (threads s);
  sys_wake : s_run s = RunWait → pending (s_queue s) ≠ [] →
    wake (s_queue s) = true ∨ (0 < s_signals s)%nat
}.

Lemma knownLocked_spec (q : Queue) (id : string) :
  knownLocked q id = true ↔ id ∈ pendingSet q ∨ id ∈ inflight q.
Proof. unfold knownLocked. rewrite orb_true_iff, !bool_decide_eq_true. done. Qed.
Lemma knownLocked_false (q : Queue) (id : string) :
  knownLocked q id = false ↔ id ∉ pendingSet q ∧ id ∉ inflight q.
Proof. unfold knownLocked. rewrite orb_false_iff, !bool_decide_eq_false. done. Qed.

(** Only these fields matter to the invariant. *)
Lemma queue_ok_wake (q : Queue) (ts : list Thread) (b : bool) :
  queue_ok (q <| wake := b |>) ts ↔ queue_ok q ts.
Proof. split; intros []; by constructor. Qed.

(** ** Enqueueing *)
Record enqueued (q q' : Queue) (ids new : list string) : Prop := {
  enq_pending : pending q' = pending q ++ new;
  enq_sub : sublist new ids;
  enq_fresh : ∀ id, id ∈ new → knownLocked q id = false;
  enq_nodup : NoDup new;
  enq_set : pendingSet q' = list_to_set new ∪ pendingSet q;
  enq_rest : inflight q' = inflight q ∧ slot q' = slot q ∧ maxPending q' = maxPending q;
  enq_cap : len (pending q') <= Z.max (len (pending q)) (maxPending q);
  enq_all : (∀ id, id ∈ ids → knownLocked q' id = true) ∨ maxPending q <= len (pending q')
}.

Lemma enqueue_loop_spec (ids : list string) (q : Queue) (added : Z) :
  ∃ new, enqueued q (enqueue_loop q ids added).1 ids new ∧
    (enqueue_loop q ids added).2 = added + len new ∧
    wake (enqueue_loop q ids added).1 = wake q.
Proof.
  revert q added. induction ids as [|id ids IH]; intros q added; cbn [enqueue_loop].
  - exists []. split; [|split; [rewrite len_nil; simpl; lia|done]]. split; simpl; try done.
    + by rewrite app_nil_r.
    + intros ? H. by apply elem_of_nil in H.
    + constructor.
    + set_solver.
    + lia.
    + left. intros ? H. by apply elem_of_nil in H.
  - destruct (knownLocked q id) eqn:Hk.
    { destruct (IH q added) as (new & [] & Hl & Hw). exists new. split; [|done]. split; try done.
      - by apply sublist_cons.
      - destruct enq_all0 as [Ha|Ha]; [left|by right]. intros x [->|Hx]%elem_of_cons; [|by apply Ha].
        apply knownLocked_spec. apply knownLocked_spec in Hk. rewrite enq_set0.
        destruct enq_rest0 as [-> _]. set_solver. }
    destruct (Z.leb_spec (maxPending q) (len (pending q))).
    { exists []. split; [|split; [rewrite len_nil; simpl; lia|done]]. split; simpl; try done.
      - by rewrite app_nil_r.
      - apply sublist_nil_l.
      - intros ? Hx. by apply elem_of_nil in Hx.
      - constructor.
      - set_solver.
      - lia.
      - right. lia. }
    set (q1 := q <| pending := pending q ++ [id] |> <| pendingSet := {[ id ]} ∪ pendingSet q |>).
    change (enqueue_loop _ ids (added + 1)) with (enqueue_loop q1 ids (added + 1)).
    destruct (IH q1 (added + 1)) as (new & He & Hl & Hw).
    destruct (enqueue_loop q1 ids (added + 1)) as [q2 added2].
    apply knownLocked_false in Hk as [Hk1 Hk2].
    exists (id :: new). split; [|split; [rewrite Hl, len_cons; lia|done]].
    assert (pending q1 = pending q ++ [id] ∧ pendingSet q1 = {[ id ]} ∪ pendingSet q ∧
      inflight q1 = inflight q ∧ slot q1 = slot q ∧ maxPending q1 = maxPending q ∧ wake q1 = wake q)
      as (Ep & Es & Ei & El & Em & Ew) by done.
    clearbody q1. destruct He. cbn [fst snd] in *. rewrite ?Ep, ?Es, ?Ei, ?El, ?Em, ?Ew in *.
    split.
    + by rewrite enq_pending0, <- (assoc_L (++)).
    + by apply sublist_skip.
    + intros x [->|Hx]%elem_of_cons; [by apply knownLocked_false|].
      specialize (enq_fresh0 x Hx). apply knownLocked_false in enq_fresh0 as [H1 H2].
      apply knownLocked_false. rewrite Es in H1. rewrite Ei in H2. set_solver.
    + constructor; [|done]. intros Hin. specialize (enq_fresh0 id Hin).
      apply knownLocked_false in enq_fresh0 as [H1 _]. set_solver.
    + rewrite enq_set0. set_solver.
    + done.
    + rewrite len_app in enq_cap0. change (len [id]) with 1 in enq_cap0. lia.
    + destruct enq_all0 as [Ha|Ha]; [left|by right]. intros x [->|Hx]%elem_of_cons; [|by apply Ha].
      apply knownLocked_spec. left. rewrite enq_set0. set_solver.
Qed.

Lemma Enqueue_locked_spec (q : Queue) (ids : list string) :
  let '(q', added, signals) := Enqueue_locked q ids in
  ∃ new, enqueued q q' ids new ∧ added = len new ∧ wake q' = wake q ∧
    (signals = false → pending q' = pending q).
Proof.
  destruct (enqueue_loop_spec ids q 0) as (new & He & Hl & Hw). unfold Enqueue_locked.
  destruct (enqueue_loop q ids 0) as [q' added]. cbn in *. rewrite Z.add_0_l in Hl. subst added.
  exists new. split; [done|]. split; [done|]. split; [done|]. intros Hp%Z.ltb_ge.
  destruct He. destruct new as [|x new]; [by rewrite app_nil_r in enq_pending0|].
  rewrite len_cons in Hp. pose proof (len_nonneg new). lia.
Qed.

Lemma enqueued_ok (q q' : Queue) (ids new : list string) (ts : list Thread) :
  enqueued q q' ids new → queue_ok q ts → queue_ok q' ts.
Proof.
  intros [] []. destruct enq_rest0 as (Hi & Hsl & _).
  assert (∀ x, x ∈ new → x ∉ pending q ∧ x ∉ inflight q) as Hf.
  { intros x Hx. specialize (enq_fresh0 x Hx). apply knownLocked_false in enq_fresh0 as [H1 H2].
    by rewrite ok_set0 in H1. }
  split; rewrite ?enq_pending0, ?Hi, ?Hsl; try done.
  - apply NoDup_app. split; [done|]. split; [|done]. intros x Hx Hn. by destruct (Hf x Hn).
  - intros x. rewrite enq_set0, elem_of_union, elem_of_list_to_set, elem_of_app, ok_set0. tauto.
  - intros x [Hx|Hx]%elem_of_app; [by apply ok_disjoint0|by apply Hf].
Qed.

Lemma remove_first_spec (id : string) (l : list string) : NoDup l →
  NoDup (remove_first id l) ∧ ∀ x, x ∈ remove_first id l ↔ x ∈ l ∧ x ≠ id.
Proof.
  induction 1 as [|p l Hp Hl [IH1 IH2]]; cbn [remove_first].
  - split; [constructor|]. intros x. rewrite elem_of_nil. tauto.
  - destruct (String.eqb_spec p id) as [->|Hne].
    + split; [done|]. intros x. rewrite elem_of_cons. split; [|tauto].
      intros Hx. split; [by right|]. congruence.
    + split; [constructor; [|done]; rewrite IH2; tauto|].
      intros x. rewrite !elem_of_cons, IH2. split; [|tauto].
      intros [->|[? ?]]; tauto.
Qed.

Lemma EnqueueFront_fields (q : Queue) (id : string) : id ∉ inflight q →
  let '(q', signals) := EnqueueFront_locked q id in
  pending q' = id :: (if bool_decide (id ∈ pendingSet q) then remove_first id (pending q)
                      else pending q) ∧
  pendingSet q' = {[ id ]} ∪ pendingSet q ∧ inflight q' = inflight q ∧ slot q' = slot q ∧
  signals = true.
Proof.
  intros Hi. unfold EnqueueFront_locked. rewrite (bool_decide_eq_false_2 _ Hi).
  by destruct (bool_decide (id ∈ pendingSet q)).
Qed.

Lemma EnqueueFront_running (q : Queue) (id : string) :
  id ∈ inflight q → EnqueueFront_locked q id = (q, false).
Proof. intros Hi. unfold EnqueueFront_locked. by rewrite bool_decide_eq_true_2. Qed.

Lemma EnqueueFront_ok (q : Queue) (id : string) (ts : list Thread) :
  queue_ok q ts → queue_ok (EnqueueFront_locked q id).1 ts.
Proof.
  intros Hok. destruct (decide (id ∈ inflight q)) as [Hi|Hi].
  { by rewrite EnqueueFront_running. }
  pose proof (EnqueueFront_fields q id Hi) as Hf.
  destruct (EnqueueFront_locked q id) as [q' signals]. cbn.
  destruct Hf as (Ep & Es & Ei & El & _). destruct Hok.
  destruct (remove_first_spec id (pending q) ok_nodup0) as [Hr1 Hr2].
  assert (∀ x, x ∈ pending q' ↔ x = id ∨ x ∈ pending q) as Hp.
  { intros x. rewrite Ep, elem_of_cons. case_bool_decide; [|done]. rewrite Hr2.
    destruct (decide (x = id)); tauto. }
  split; rewrite ?Ei, ?El; try done.
  - rewrite Ep. case_bool_decide as Hq; constructor; try done.
    + rewrite Hr2. tauto.
    + by rewrite <- ok_set0.
  - intros x. rewrite Hp, Es, elem_of_union, elem_of_singleton, ok_set0. done.
  - intros x [->|Hx]%Hp; [done|by apply ok_disjoint0].
Qed.

(** ** Goroutine steps *)
Lemma holders_app (a b : list Thread) : holders (a ++ b) = holders a ++ holders b.
Proof. apply List.filter_app. Qed.

Lemma holders_length_mid (l1 l2 : list Thread) (t : Thread) :
  length (holders (l1 ++ t :: l2)) =
    ((if holds_slot t then 1 else 0) + length (holders (l1 ++ l2)))%nat.
Proof.
  unfold holders. rewrite !List.filter_app, !length_app. simpl.
  destruct (holds_slot t); simpl; lia.
Qed.

Lemma items_mid (l1 l2 : list Thread) (t : Thread) :
  t_item <$> (l1 ++ t :: l2) ≡ₚ t_item t :: (t_item <$> (l1 ++ l2)).
Proof. by rewrite <- Permutation_middle. Qed.

(** A goroutine changes phase. *)
Lemma phase_step_ok (q q' : Queue) (id : string) (p p' : Phase) (l1 l2 : list Thread) :
  phase_step id q p q' p' →
  queue_ok q (l1 ++ mkThread id p :: l2) → queue_ok q' (l1 ++ mkThread id p' :: l2).
Proof.
  intros Hstep []. rewrite holders_length_mid in ok_slot0.
  assert (∀ x, x ∈ t_item <$> (l1 ++ mkThread id p' :: l2) ↔
               x ∈ t_item <$> (l1 ++ mkThread id p :: l2)) as Hin.
  { intros x. by rewrite !items_mid. }
  assert (NoDup (t_item <$> (l1 ++ mkThread id p' :: l2))) as Hnd.
  { rewrite items_mid in *. done. }
  inversion Hstep; subst; split; cbn; try done; try (intros x; by rewrite Hin);
    rewrite holders_length_mid; simpl in *;
    repeat match goal with
           | H : context [slot ?q] |- _ => destruct (slot q)
           | |- context [slot ?q] => destruct (slot q)
           end; first [lia | done].
Qed.

(** An item enters flight, out of the backlog or from outside. *)
Lemma claim_ok (q q' : Queue) (id : string) (l1 l2 : list Thread) :
  pendingSet q' = pendingSet q ∖ {[ id ]} → slot q' = slot q →
  inflight q' = {[ id ]} ∪ inflight q → NoDup (pending q') →
  (∀ x, x ∈ pending q' ↔ x ∈ pending q ∧ x ≠ id) → id ∉ inflight q →
  queue_ok q (l1 ++ l2) → queue_ok q' (l1 ++ mkThread id Claimed :: l2).
Proof.
  intros Hs Hl Hi Hn Hp Hid []. split.
  - done.
  - intros x. rewrite Hs, Hp, elem_of_difference, elem_of_singleton, ok_set0. done.
  - rewrite items_mid. constructor; [|done]. by rewrite <- ok_inflight0.
  - intros x. rewrite items_mid, elem_of_cons, Hi, elem_of_union, elem_of_singleton, ok_inflight0.
    done.
  - intros x [Hx Hne]%Hp. rewrite Hi. specialize (ok_disjoint0 x Hx). set_solver.
  - rewrite holders_length_mid, Hl. done.
Qed.

Lemma finish_ok (q : Queue) (id : string) (l1 l2 : list Thread) :
  queue_ok q (l1 ++ mkThread id Released :: l2) → queue_ok (finish q id) (l1 ++ l2).
Proof.
  intros []. rewrite holders_length_mid in ok_slot0.
  rewrite items_mid in ok_items0. apply NoDup_cons in ok_items0 as [Hid Hnd].
  assert (∀ x, x ∈ inflight q ↔ x = id ∨ x ∈ t_item <$> (l1 ++ l2)) as Hin.
  { intros x. by rewrite ok_inflight0, items_mid, elem_of_cons. }
  assert (inflight (finish q id) = inflight q ∖ {[ id ]}) as Ei by done.
  split; try done; rewrite Ei.
  - intros x. rewrite elem_of_difference, elem_of_singleton, Hin. split; [tauto|].
    intros Hx. split; [by right|]. intros ->. done.
  - intros x Hx. rewrite elem_of_difference. intros [Hx' _]. by apply (ok_disjoint0 x).
Qed.

Lemma next_ok (q q' : Queue) (id : string) (ps : list Thread) :
  next q = (q', Some id) → queue_ok q ps → queue_ok q' (mkThread id Claimed :: ps).
Proof.
  unfold next. destruct (pending q) as [|x rest] eqn:E; [done|]. intros [= <- ->] Hok.
  pose proof Hok as []. rewrite E in *. apply NoDup_cons in ok_nodup0 as [Hx Hr].
  apply (claim_ok q _ id [] ps); try done.
  - intros y. rewrite E. cbn. rewrite elem_of_cons. split; [|tauto].
    intros Hy. split; [by right|]. congruence.
  - apply ok_disjoint0. by left.
Qed.

Lemma claim_step_ok (q q' : Queue) (id : string) (l1 l2 : list Thread) :
  claim q id = (q', true) → queue_ok q (l1 ++ l2) → queue_ok q' (l1 ++ mkThread id Claimed :: l2).
Proof.
  unfold claim. destruct (knownLocked q id) eqn:Hk; [done|]. intros [= <-] Hok.
  apply knownLocked_false in Hk as [Hk1 Hk2]. pose proof Hok as [].
  apply (claim_ok q); try done.
  - cbn. apply set_eq. intros x. rewrite elem_of_difference, elem_of_singleton.
    split; [|tauto]. intros Hx. split; [done|]. by intros ->.
  - intros x. cbn. split; [|tauto]. intros Hx. split; [done|].
    intros ->. by rewrite ok_set0 in Hk1.
Qed.

Lemma enqueue_wakes (q q' : Queue) (signals : bool) (n : nat) :
  wake q' = wake q → (signals = false → pending q' = pending q) →
  (pending q ≠ [] → wake q = true ∨ (0 < n)%nat) →
  pending q' ≠ [] → wake q' = true ∨ (0 < owes signals n)%nat.
Proof.
  intros Hwk Hs Hw Hp. unfold owes. destruct signals; [right; lia|].
  rewrite Hwk. apply Hw. by rewrite <- Hs.
Qed.

Lemma step_ok (s s' : Sys) : sys_ok s → step s s' → sys_ok s'.
Proof.
  intros [Hq Hw] Hstep. unfold threads in *.
  inversion Hstep; subst; cbn [s_queue s_run s_procs s_signals run_threads app] in *; split;
    unfold threads; cbn [s_queue s_run s_procs s_signals run_threads app].
  - pose proof (Enqueue_locked_spec q ids) as He. rewrite H in He.
    destruct He as (new & He & _). by eapply enqueued_ok.
  - pose proof (Enqueue_locked_spec q ids) as He. rewrite H in He.
    destruct He as (new & _ & _ & Hwk & Hs). intros Hr. eapply enqueue_wakes; eauto.
  - pose proof (EnqueueFront_ok q id _ Hq) as He. by rewrite H in He.
  - intros Hr Hp. destruct (decide (id ∈ inflight q)) as [Hi|Hi].
    + rewrite (EnqueueFront_running q id Hi) in H. simplify_eq. by apply Hw.
    + pose proof (EnqueueFront_fields q id Hi) as Hf. rewrite H in Hf.
      destruct Hf as (_ & _ & _ & _ & ->). right. simpl. lia.
  - by apply queue_ok_wake.
  - intros _ _. by left.
  - by eapply next_ok.
  - done.
  - unfold next in H. destruct (pending q); by simplify_eq.
  - unfold next in H. intros _. destruct (pending q) eqn:E; simplify_eq. congruence.
  - by apply queue_ok_wake.
  - done.
  - done.
  - done.
  - by eapply (phase_step_ok q q' id p p' [] ps).
  - done.
  - pose proof (finish_ok q id [] ps Hq). by destruct H as [-> | ->].
  - by destruct H as [-> | ->].
  - by eapply claim_step_ok.
  - intros Hr Hp. unfold claim in H. destruct (knownLocked q id); simplify_eq. by apply Hw.
  - rewrite (assoc_L (++)) in *. by eapply phase_step_ok.
  - intros Hr Hp. inversion H; subst; by apply Hw.
  - rewrite (assoc_L (++)) in *. by eapply finish_ok.
  - intros Hr Hp. by apply Hw.
Qed.

Lemma initial_ok (max : Z) : sys_ok (initial max).
Proof.
  unfold initial, WithMaxPending. split; [|done].
  destruct (0 <? max); split; cbn; try constructor; try done; try set_solver.
Qed.

Lemma reachable_ok (max : Z) (s : Sys) : rtc step (initial max) s → sys_ok s.
Proof.
  intros H. remember (initial max) as s0. assert (sys_ok s0) as H0 by (subst; apply initial_ok).
  clear Heqs0. induction H as [|a b c Hab _ IH]; [done|]. apply IH. by eapply step_ok.
Qed.

(** C14: The queue's promise, however the worker, callers and enqueuers
    interleave: at most one generation runs at a time and it holds the slot;
    no item is queued twice, worked on twice, or queued while worked on; and
    no wake-up is lost: whenever the worker sleeps on a non-empty backlog, its
    wake-up token is in the channel, or an enqueuer has released the mutex and
    is about to put it there. *)
Theorem trickplay_queue_safe (max : Z) (s : Sys) (Hr : rtc step (initial max) s) :
  (length (List.filter (λ t, match t_phase t with Generating => true | _ => false end) (threads s)) <= 1)%nat ∧
  NoDup (pending (s_queue s)) ∧ NoDup (t_item <$> threads s) ∧
  (∀ id, id ∈ pending (s_queue s) → id ∉ t_item <$> threads s) ∧
  (s_run s = RunWait → pending (s_queue s) ≠ [] →
     wake (s_queue s) = true ∨ (0 < s_signals s)%nat).
Proof.
  destruct (reachable_ok max s Hr) as [[] Hw]. repeat split; try done.
  - assert (∀ ts, (length (List.filter (λ t, match t_phase t with Generating => true | _ => false end) ts)
      <= length (holders ts))%nat) as Hle.
    { induction ts as [|[id p] ts IH]; simpl; [done|]. unfold holders in *.
      destruct p; simpl; lia. }
    etrans; [apply Hle|]. rewrite ok_slot0. destruct (slot (s_queue s)); lia.
  - intros id Hid. rewrite <- ok_inflight0. by apply ok_disjoint0.
Qed.

(** Two items queued, the worker generating the first, a caller waiting for
    the slot with a third. *)
Definition busy_sys : Sys :=
  mkSys (mkQueue 20000 ["b"] {[ "b" ]} ({[ "c" ]} ∪ ({[ "a" ]} ∪ ∅)) true true)
        (RunItem (mkThread "a" Generating)) [mkThread "c" Claimed] 0.

(** The instant between the append and the signal: the worker sleeps, the
    backlog is not empty and the channel is. *)
Definition unsignalled_sys : Sys :=
  mkSys (mkQueue 20000 ["a"] {[ "a" ]} ∅ false false) RunWait [] 1.

Lemma trickplay_queue_safe_witness :
  rtc step (initial 0) busy_sys ∧ NoDup (pending (s_queue busy_sys)) ∧
  (∀ id, id ∈ pending (s_queue busy_sys) → id ∉ t_item <$> threads busy_sys) ∧
  rtc step (initial 0) unsignalled_sys ∧
  (wake (s_queue unsignalled_sys) = true ∨ (0 < s_signals unsignalled_sys)%nat).
Proof.
  assert (rtc step (initial 0) busy_sys) as Hr.
  { eapply rtc_l; [by eapply (step_enqueue ["a"; "b"; "a"]); reflexivity|].
    eapply rtc_l; [eapply step_next; reflexivity|].
    eapply rtc_l; [apply step_signal|].
    eapply rtc_l; [eapply step_run, take_slot; reflexivity|].
    eapply rtc_l; [eapply step_run, idle_now|].
    eapply rtc_l; [eapply (step_claim _ _ "c"); reflexivity|].
    apply rtc_refl. }
  assert (rtc step (initial 0) unsignalled_sys) as Hu.
  { eapply rtc_l; [eapply step_next_none; reflexivity|].
    eapply rtc_l; [eapply (step_enqueue_front "a"); reflexivity|]. apply rtc_refl. }
  destruct (trickplay_queue_safe 0 busy_sys Hr) as (_ & H1 & _ & H2 & _).
  destruct (trickplay_queue_safe 0 unsignalled_sys Hu) as (_ & _ & _ & _ & H3).
  exact (conj Hr (conj H1 (conj H2 (conj Hu (H3 eq_refl ltac:(discriminate)))))).
Defined.

(** What [Enqueue] adds: a duplicate-free subsequence of the ids offered,
    none of them queued or in flight before, appended in order and counted; it
    never passes the cap, and leaves an id out only when the backlog is full. *)
Lemma trickplay_enqueue_spec (q : Queue) (ids : list string) :
  let '(q', added) := Enqueue q ids in
  ∃ new, pending q' = pending q ++ new ∧ added = len new ∧ sublist new ids ∧ NoDup new ∧
    (∀ id, id ∈ new → knownLocked q id = false) ∧
    len (pending q') <= Z.max (len (pending q)) (maxPending q) ∧
    ((∀ id, id ∈ ids → knownLocked q' id = true) ∨ maxPending q <= len (pending q')).
Proof.
  pose proof (Enqueue_locked_spec q ids) as He. unfold Enqueue.
  destruct (Enqueue_locked q ids) as [[q' added] signals].
  destruct He as (new & [] & Hl & _). exists new. by destruct signals.
Qed.

(** * One item's run and its status row *)
Inductive Status := Pending | Done (sprites : Z) | Failed (reason : string) | Skipped (reason : string).

(** The row of an item in [trickplay_status], absent when never attempted. *)
Abbreviation row := (option Status).

Definition UpsertTrickplayPending (r : row) : row := Some Pending.
Definition MarkTrickplayDone (n : Z) (r : row) : row :=
  match r with Some _ => Some (Done n) | None => None end.
Definition MarkTrickplayFailed (reason : string) (r : row) : row :=
  match r with Some _ => Some (Failed reason) | None => None end.
Definition MarkTrickplaySkipped (reason : string) (r : row) : row := Some (Skipped reason).
Definition ResetInterruptedTrickplay (r : row) : row :=
  match r with Some Pending => None | _ => r end.

(** [PgStore.MarkFailed] and [MarkSkipped]: the reason is cut at 1000 bytes. *)
Definition cap_reason (reason : string) : string :=
  if 1000 <? slen reason then String.substring 0 1000 reason else reason.

Inductive GenError :=
  | ErrNoFile | ErrZeroDuration (itemID : string) | ErrOther (e : string).

Definition gen_error_text (e : GenError) : string :=
  match e with
  | ErrNoFile => "trickplay: item has no playable file"
  | ErrZeroDuration id => "trickplay: item has zero duration: " +:+ id
  | ErrOther e => e
  end.

(** [generateSprites] runs ffmpeg; it fails, panics, or names its sheets. *)
Inductive SpritesResult := SpritesErr (e : string) | SpritesPanic (v : string) | SpritesOk (names : list string).

(** The world one run meets: the lookup's answer, the outcome of each call. *)
Record GenEnv := mkGenEnv {
  ge_file : string + (string * Z);   (** [PrimaryFile]: path and seconds *)
  ge_upsert : bool;                  (** whether the statement succeeds *)
  ge_clear : option string;          (** [os.RemoveAll] *)
  ge_parts : option string;          (** [PrimaryParts] *)
  ge_sprites : SpritesResult;
  ge_write : option string;          (** [os.WriteFile] of the index *)
  ge_mark_done : bool;
  ge_mark_failed : bool
}.

Inductive GenResult := GenOk | GenErr (e : GenError) | GenPanic (v : string).

Section Generate.
Context (spec : Spec) (itemID : string) (env : GenEnv).

Definition markFailed (reason : string) (r : row) : row :=
  if ge_mark_failed env then MarkTrickplayFailed (cap_reason reason) r else r.

Definition write_error_text (e : WriteError) : string :=
  match e with
  | ErrInvalidSpec _ => "trickplay: invalid spec"
  | ErrTooFewSprites h n d =>
      "trickplay: have " +:+ Itoa h +:+ " sprites, need " +:+ Itoa n +:+ " for " +:+ Itoa d +:+ "s"
  end.

(** Everything after the row was set to pending. *)
Definition generate_artifacts (duration : Z) (r : row) : GenResult * row :=
  let fail reason := (GenErr (ErrOther reason), markFailed reason r) in
  match ge_clear env with
  | Some e => (GenErr (ErrOther e), markFailed ("clear output dir: " +:+ e) r)
  | None =>
      match ge_parts env with
      | Some e => (GenErr (ErrOther e), markFailed ("list parts: " +:+ e) r)
      | None =>
          match ge_sprites env with
          | SpritesErr e => fail e
          | SpritesPanic v => (GenPanic v, r)
          | SpritesOk names =>
              match WriteVTT spec duration names with
              | None => (GenPanic "index out of range", r)
              | Some (inl e) => fail (write_error_text e)
              | Some (inr vtt) =>
                  match ge_write env with
                  | Some e => (GenErr (ErrOther e), markFailed ("write vtt: " +:+ e) r)
                  | None =>
                      if ge_mark_done env
                      then (GenOk, MarkTrickplayDone (len names) r)
                      else (GenErr (ErrOther "mark done"), r)
                  end
              end
          end
      end
  end.

Definition Generate (r : row) : GenResult * row :=
  match ge_file env with
  | inl e => (GenErr (ErrOther ("trickplay lookup " +:+ itemID +:+ ": " +:+ e)), r)
  | inr (path, duration) =>
      if String.eqb path "" then (GenErr ErrNoFile, r)
      else if (duration <=? 0) || (duration <? IntervalSec spec)
      then (GenErr (ErrZeroDuration itemID), r)
      else if negb (ge_upsert env)
      then (GenErr (ErrOther "trickplay upsert pending"), r)
      else generate_artifacts duration (UpsertTrickplayPending r)
  end.

Inductive Outcome := OutcomeDone | OutcomeFailed | OutcomeSkipped | OutcomeDuplicate.

(** [Queue.generate]: [None] is the cancelled run.  [bookkeep] says whether
    the queue's own status write succeeds. *)
Definition generate (cancelled bookkeep : bool) (r : row) : option Outcome * row :=
  let write (f : row → row) (r : row) := if bookkeep then f r else r in
  match Generate r with
  | (GenPanic v, r') => (Some OutcomeFailed, write (MarkTrickplayFailed (cap_reason ("panic: " +:+ v))) r')
  | (GenOk, r') => (Some OutcomeDone, r')
  | (GenErr e, r') =>
      if cancelled then (None, write ResetInterruptedTrickplay r')
      else
        match e with
        | ErrNoFile | ErrZeroDuration _ =>
            (Some OutcomeSkipped, write (MarkTrickplaySkipped (cap_reason (gen_error_text e))) r')
        | ErrOther _ => (Some OutcomeFailed, r')
        end
  end.

(** What the row says after a run. *)
Definition row_matches (r r' : row) (o : option Outcome) : Prop :=
  match o with
  | Some OutcomeDone => ∃ n, r' = Some (Done n)
  | Some OutcomeSkipped => ∃ reason, r' = Some (Skipped reason)
  | Some OutcomeFailed => (∃ reason, r' = Some (Failed reason)) ∨ r' = r
  | None => r' ≠ Some Pending
  | Some OutcomeDuplicate => False
  end.

Lemma generate_artifacts_row (d : Z) (res : GenResult) (r' : row) :
  generate_artifacts d (Some Pending) = (res, r') →
  match res with
  | GenOk => ∃ n, r' = Some (Done n)
  | GenPanic _ => r' = Some Pending
  | GenErr e =>
      (∃ t, e = ErrOther t) ∧
      ((r' = Some Pending ∧ (ge_mark_failed env = false ∨ ge_mark_done env = false)) ∨
       ∃ reason, r' = Some (Failed reason))
  end.
Proof.
  unfold generate_artifacts, markFailed. intros H.
  destruct (ge_clear env); [|destruct (ge_parts env); [|destruct (ge_sprites env) as [?|?|names];
    [| |destruct (WriteVTT spec d names) as [[?|?]|]; [|destruct (ge_write env);
      [|destruct (ge_mark_done env) eqn:Hd]|]]]];
    simplify_eq; try done; try (by eexists); (split; [by eexists|]);
    destruct (ge_mark_failed env) eqn:?; cbn; eauto.
Qed.
End Generate.

(** After a run whose status writes succeed the row tells the outcome: done
    with sprites, skipped, failed (or untouched when the run stopped before
    its row was opened), and after a cancelled run never stuck at pending. *)
Lemma generate_row_matches (spec : Spec) (itemID : string) (env : GenEnv) (r r' : row)
    (cancelled : bool) (o : option Outcome)
    (Hdone : ge_mark_done env = true)
    (Hfailed : ge_mark_failed env = negb cancelled)
    (Hg : generate spec itemID env cancelled true r = (o, r')) :
  row_matches r r' o ∧ (r ≠ Some Pending → r' ≠ Some Pending).
Proof.
  unfold generate, Generate in Hg.
  destruct (ge_file env) as [e|[path d]].
  { destruct cancelled; simplify_eq; cbn; [|split; [by right|done]].
    destruct r as [[]|]; done. }
  destruct (String.eqb path "").
  { destruct cancelled; simplify_eq; cbn; [destruct r as [[]|]; done|].
    split; [by eexists|done]. }
  destruct ((d <=? 0) || (d <? IntervalSec spec)).
  { destruct cancelled; simplify_eq; cbn; [destruct r as [[]|]; done|].
    split; [by eexists|done]. }
  destruct (negb (ge_upsert env)).
  { destruct cancelled; simplify_eq; cbn; [|split; [by right|done]].
    destruct r as [[]|]; done. }
  destruct (generate_artifacts spec env d (UpsertTrickplayPending r)) as [res r1] eqn:Ha.
  apply generate_artifacts_row in Ha. destruct res as [|e|v].
  - destruct Ha as [n ->]. simplify_eq. split; [by eexists|done].
  - destruct Ha as [[t ->] [[-> Hbad]|[reason ->]]].
    + destruct cancelled; simplify_eq; [by split|]. cbn in Hfailed; destruct Hbad; congruence.
    + destruct cancelled; simplify_eq; cbn; [by split|]. split; [left; by eexists|done].
  - subst r1. simplify_eq. cbn. split; [left; by eexists|done].
Qed.

Definition sample_env : GenEnv :=
  mkGenEnv (inr ("/m/a.mkv", 25)) true None None (SpritesOk ["sprite_000.jpg"]) None true true.

Lemma generate_row_matches_witness :
  row_matches None (Some (Done 1)) (Some OutcomeDone) ∧ (None ≠ Some Pending → Some (Done 1) ≠ Some Pending).
Proof.
  apply (generate_row_matches Default "item" sample_env None (Some (Done 1)) false (Some OutcomeDone)).
  - reflexivity.
  - reflexivity.
  - vm_compute. reflexivity.
Defined.

(** When the final write fails the row stays pending although the sprites are
    on disk. *)
Example mark_done_failure_leaves_pending :
  generate Default "item"
    (mkGenEnv (inr ("/m/a.mkv", 25)) true None None (SpritesOk ["sprite_000.jpg"]) None false true)
    false true None = (Some OutcomeFailed, Some Pending).
Proof. vm_compute. reflexivity. Qed.

(** * The planner *)
Record CandidateFilter := mkFilter {
  LibraryID : option string; OnlyEnabled : bool; IncludeFailed : bool; Limit : Z
}.

Record LibraryCounts := mkCounts { Total : Z; Done_ : Z; Pending_ : Z; Failed_ : Z }.
Definition NewLibraryCounts (total done failed : Z) : LibraryCounts :=
  let pending := wrap64 (wrap64 (total - done) - failed) in
  let pending := if pending <? 0 then 0 else pending in
  mkCounts total done pending failed.

(** [PgStore.ListCandidates] bounds the limit before the query. *)
Definition candidate_limit (limit : Z) : Z :=
  let limit := if limit <=? 0 then 1 else limit in
  Z.min limit maxCandidateBatch.

Section Planner.
(** The candidate query, given the bounded limit. *)
Context (ListTrickplayCandidates : CandidateFilter → string + list string).

Definition ListCandidates (f : CandidateFilter) : string + list string :=
  ListTrickplayCandidates (mkFilter (LibraryID f) (OnlyEnabled f) (IncludeFailed f)
                                    (candidate_limit (Limit f))).

Definition AfterScan (q : Queue) (libraryID : string) : Queue * (string + Z) :=
  match ListCandidates (mkFilter (Some libraryID) true false (maxPending q)) with
  | inl e => (q, inl ("trickplay after scan: " +:+ e))
  | inr ids => let '(q', n) := Enqueue q ids in (q', inr n)
  end.

Definition QueueLibrary (q : Queue) (libraryID : string) (includeFailed : bool)
    : Queue * (string + Z) :=
  match ListCandidates (mkFilter (Some libraryID) false includeFailed (maxPending q)) with
  | inl e => (q, inl ("trickplay queue library: " +:+ e))
  | inr ids => let '(q', n) := Enqueue q ids in (q', inr n)
  end.

Definition ListBackfillCandidates (limit : Z) : string + list string :=
  ListCandidates (mkFilter None true false limit).
End Planner.

(** [Process]: the synchronous entry.  [acquired] is the outcome of the wait
    for the slot: [None] got it, otherwise whether the caller's own context
    had ended; [run] the generation. *)
Inductive ProcessResult := ProcOutcome (o : Outcome) | ProcCtxErr | ProcNotStarted.

Definition Process (q : Queue) (id : string) (acquired : option bool) (run : option Outcome)
    : Queue * ProcessResult :=
  match claim q id with
  | (q, false) => (q, ProcOutcome OutcomeDuplicate)
  | (q, true) =>
      match acquired with
      | Some true => (finish q id, ProcCtxErr)
      | Some false => (finish q id, ProcNotStarted)
      | None =>
          let q := q <| slot := true |> in
          let q := finish (releaseSlot q) id in
          (q, match run with Some o => ProcOutcome o | None => ProcCtxErr end)
      end
  end.
