(* ===== verification/Media.v ===== *)
(** Media files as the play decision sees them: [media.File] of
    [internal/domain/media/service.go], and the codec, container and audio
    stream vocabulary of [internal/transcode]. *)
From S2P Require Import Prelude.
From S2P Require Import GoStrings.
From S2P Require Import GoFloat.

Local Open Scope Z_scope.

(** * media.File

    [AudioStreams] is the file's JSONB column after [json.Unmarshal]: [None]
    when it is missing or does not parse.  Of the struct's fields, the ones the
    modelled code reads are kept. *)
Record sourceAudioStream := mkStream { st_Codec : string; st_Channels : Z }.

#[global] Instance sourceAudioStream_eq : EqDecision sourceAudioStream.
Proof. solve_decision. Defined.

Record File := mkFile {
  f_Container : ptr string;
  f_VideoCodec : ptr string;
  f_AudioCodec : ptr string;
  f_ResolutionW : ptr Z;
  f_ResolutionH : ptr Z;
  f_HDRType : ptr string;
  f_DVProfile : ptr Z;
  f_FrameRate : ptr float64;
  f_AudioStreams : option (list sourceAudioStream);
  f_VideoBitDepth : ptr Z;
  f_VideoProfile : ptr string;
  f_VideoLevel : ptr Z;
  f_IntegrityStatus : string
}.

#[global] Instance eta_File : Eta File := λ r,
  mkFile (f_Container r) (f_VideoCodec r) (f_AudioCodec r) (f_ResolutionW r) (f_ResolutionH r)
    (f_HDRType r) (f_DVProfile r) (f_FrameRate r) (f_AudioStreams r) (f_VideoBitDepth r)
    (f_VideoProfile r) (f_VideoLevel r) (f_IntegrityStatus r).

Definition IntegrityUnchecked : string := "unchecked".
Definition IntegrityOK : string := "ok".
Definition IntegrityDamaged : string := "damaged".

Definition deref (s : ptr string) : string := default "" s.
Definition derefInt (i : ptr Z) : Z := default 0 i.

(** * Codec and container names *)
Definition canonicalVideoCodec (codec : string) : string :=
  switch (ToLower codec)
    [(["h264"; "avc"; "avc1"], "h264");
     (["hevc"; "h265"; "hvc1"], "h265");
     (["av1"], "av1");
     (["vp9"], "vp9");
     (["mpeg4"], "mpeg4")]
    (ToLower codec).

Definition CanonicalAudioCodec (codec : string) : string :=
  switch (ToLower codec)
    [(["aac"], "aac");
     (["ac3"; "ac-3"], "ac3");
     (["eac3"; "e-ac-3"; "eac-3"], "eac3");
     (["truehd"], "truehd");
     (["dts"; "dts-hd"; "dtshd"], "dts");
     (["mp3"; "mp2"], "mp3");
     (["flac"], "flac");
     (["vorbis"], "vorbis");
     (["opus"], "opus")]
    (ToLower codec).

Definition canonicalContainer (container : string) : string :=
  switch (ToLower container)
    [(["matroska"; "mkv"], "mkv");
     (["mp4"; "m4v"; "mov"; "isom"], "mp4");
     (["avi"], "avi");
     (["ts"; "mpeg-ts"; "mpegts"], "ts")]
    (ToLower container).

Definition containerCarriesAudio (containerAlias audioAlias : string) : bool :=
  negb (String.eqb audioAlias "truehd" && String.eqb containerAlias "ts").

Definition isHDR (hdrType : string) : bool :=
  mem (ToLower hdrType) ["hdr10"; "hdr10plus"; "hlg"; "dolby_vision"].

(** * Audio streams ([internal/transcode/audio.go]) *)
Definition maxAACChannels : Z := 6.
Definition maxDolbyEncodeChannels : Z := 6.
Definition DolbyEncodeKbps : Z := 640.

Definition parseSourceAudioStreams (streams : option (list sourceAudioStream)) :
    list sourceAudioStream := default [] streams.

(** Slice indexing after the code's bounds check. *)
Definition SourceAudioChannels (audioStreams : option (list sourceAudioStream))
    (audioStreamIdx : Z) : Z :=
  let streams := parseSourceAudioStreams audioStreams in
  let i := if audioStreamIdx <? 0 then 0 else audioStreamIdx in
  if Z.of_nat (length streams) <=? i then 0
  else match streams !! Z.to_nat i with Some s => st_Channels s | None => 0 end.

Definition SourceAudioStreamCount (audioStreams : option (list sourceAudioStream)) : Z :=
  Z.of_nat (length (parseSourceAudioStreams audioStreams)).

Definition SourceAudioCodec (file : File) (audioStreamIdx : Z) : string :=
  let first := deref (f_AudioCodec file) in
  if audioStreamIdx <? 0 then first
  else
    let streams := parseSourceAudioStreams (f_AudioStreams file) in
    if audioStreamIdx <? Z.of_nat (length streams) then
      match streams !! Z.to_nat audioStreamIdx with Some s => st_Codec s | None => "" end
    else if (audioStreamIdx =? 0) && (Z.of_nat (length streams) =? 0) then first
    else "".

Definition TargetAudioChannels (sourceCh clientMax : Z) : Z :=
  if sourceCh <=? 0 then 2
  else
    let ch := sourceCh in
    let ch := if (0 <? clientMax) && (clientMax <? ch) then clientMax else ch in
    let ch := if maxAACChannels <? ch then maxAACChannels else ch in
    if ch <? 1 then 1 else ch.

Definition AACBitrateKbps (channels : Z) : Z :=
  if 2 <? channels then 64 * channels else 128.

Definition IsDolbyEncode (audioCodec : string) : bool :=
  String.eqb audioCodec "eac3" || String.eqb audioCodec "ac3".

Definition EncodesAudio (audioCodec : string) : bool :=
  String.eqb audioCodec "aac" || IsDolbyEncode audioCodec.

Definition DolbyEncodeChannels (sourceCh : Z) : Z :=
  Z.max 1 (Z.min sourceCh maxDolbyEncodeChannels).

(** * Lemmas *)

(** Canonicalising is idempotent when the table maps every result to itself. *)
Lemma switch_idem (cases : list (list string * string)) (s : string) :
  (∀ keys a, (keys, a) ∈ cases → ToLower a = a ∧ switch a cases a = a) →
  let r := switch (ToLower s) cases (ToLower s) in
  switch (ToLower r) cases (ToLower r) = r.
Proof.
  intros Hclosed r. unfold r.
  destruct (switch_cases (ToLower s) cases (ToLower s))
    as [(keys & a & Hin & _ & ->)|[-> Hn]].
  - destruct (Hclosed keys a Hin) as [-> ->]. done.
  - rewrite ToLower_idemp.
    destruct (switch_cases (ToLower s) cases (ToLower s))
      as [(keys & a & Hin & Hk & _)|[-> _]]; [|done].
    by destruct (Hn keys a Hin).
Qed.

Ltac table_closed :=
  intros ?? H; repeat (apply elem_of_cons in H as [[= -> ->]|H]; [by vm_compute|]);
  inversion H.

Lemma canonicalVideoCodec_idem (s : string) :
  canonicalVideoCodec (canonicalVideoCodec s) = canonicalVideoCodec s.
Proof. apply switch_idem. table_closed. Qed.

Lemma CanonicalAudioCodec_idem (s : string) :
  CanonicalAudioCodec (CanonicalAudioCodec s) = CanonicalAudioCodec s.
Proof. apply switch_idem. table_closed. Qed.

Lemma canonicalContainer_idem (s : string) :
  canonicalContainer (canonicalContainer s) = canonicalContainer s.
Proof. apply switch_idem. table_closed. Qed.

Lemma canonicalVideoCodec_lower (s : string) :
  ToLower (canonicalVideoCodec s) = canonicalVideoCodec s.
Proof.
  unfold canonicalVideoCodec at 1 2.
  match goal with |- ToLower (switch ?x ?cs ?d) = _ =>
    destruct (switch_cases x cs d) as [(keys & a & Hin & _ & ->)|[-> _]] end.
  - revert Hin. generalize keys a. clear. intros keys a H.
    repeat (apply elem_of_cons in H as [[= -> ->]|H]; [done|]). inversion H.
  - apply ToLower_idemp.
Qed.

Lemma TargetAudioChannels_range (sourceCh clientMax : Z) :
  1 <= TargetAudioChannels sourceCh clientMax <= maxAACChannels.
Proof.
  unfold TargetAudioChannels, maxAACChannels. repeat bcase; breflect; lia.
Qed.
