(* ===== verification/Capability.v ===== *)
(** Client capabilities: the [X-Client-Capabilities] header parser of
    [internal/transcode/capability.go], the profile/level vocabulary it stores
    ([profilelevel.go]) and the Dolby Vision profile list ([dolbyvision.go]). *)
From S2P Require Import Prelude.
From S2P Require Import GoStrings.
From S2P Require Import Media.

Local Open Scope Z_scope.

(** * Profiles and levels a client declares *)
Record VideoLimit := mkLimit { vl_Profile : string; vl_Level : Z }.
#[global] Instance VideoLimit_eq : EqDecision VideoLimit.
Proof. solve_decision. Defined.
#[global] Instance eta_VideoLimit : Eta VideoLimit := λ r, mkLimit (vl_Profile r) (vl_Level r).

Definition no_limit : VideoLimit := mkLimit "" 0.

Definition declared (l : VideoLimit) : bool :=
  negb (String.eqb (vl_Profile l) "") || (0 <? vl_Level l).

Definition profile_fields : list string := ["profile"; "maxprofile"].
Definition level_fields : list string := ["level"; "maxlevel"].

(** The prefix table is tried in order; a matching prefix whose rest is not a
    limit field goes on to the next prefix. *)
Fixpoint limitCodec_go (table : list (string * string)) (key : string) :
    option (string * string) :=
  match table with
  | [] => None
  | (pre, codec) :: table' =>
      match CutPrefix key pre with
      | Some rest =>
          if mem rest profile_fields then Some (codec, "profile")
          else if mem rest level_fields then Some (codec, "level")
          else limitCodec_go table' key
      | None => limitCodec_go table' key
      end
  end.
Definition limitCodec (key : string) : option (string * string) :=
  limitCodec_go [("h264", "h264"); ("avc", "h264"); ("hevc", "h265"); ("h265", "h265");
                 ("av1", "av1")] key.

Definition is_alnum (c : ascii) : bool := is_lower c || is_digit c.
Fixpoint keep_alnum (s : string) : string :=
  match s with
  | EmptyString => EmptyString
  | String c s' => if is_alnum c then String c (keep_alnum s') else keep_alnum s'
  end.
Definition normaliseProfile (name : string) : string := keep_alnum (ToLower name).

Definition profileRank (codec norm : string) : Z :=
  switch codec
    [(["h264"], switch norm
       [(["baseline"; "constrainedbaseline"], 1);
        (["main"], 2);
        (["high"; "progressivehigh"; "constrainedhigh"], 3);
        (["high10"; "high10intra"], 4);
        (["high422"; "high422intra"], 5);
        (["high444"; "high444predictive"; "high444intra"; "cavlc444"; "cavlc444intra"], 6)] 0);
     (["h265"], switch norm
       [(["main"; "mainstillpicture"], 1);
        (["main10"; "main10stillpicture"], 2);
        (["rext"; "main12"; "main42210"; "main444"; "main44410"; "scc"], 3)] 0);
     (["av1"], switch norm [(["main"], 1); (["high"], 2); (["professional"], 3)] 0)]
    0.

Definition profile_names (codec : string) : list string :=
  switch codec
    [(["h264"], [""; "baseline"; "main"; "high"; "high10"; "high422"; "high444"]);
     (["h265"], [""; "main"; "main10"; "rext"]);
     (["av1"], [""; "main"; "high"; "professional"])]
    [].

Definition canonicalProfile (codec norm : string) : string :=
  let rank := profileRank codec norm in
  let names := profile_names codec in
  if (rank <=? 0) || (Z.of_nat (length names) <=? rank) then ""
  else default "" (names !! Z.to_nat rank).

Definition parseClientLevel (codec val : string) : Z :=
  let val := TrimSpace val in
  match Cut val "." with
  | Some (major, minor) =>
      match Atoi major, Atoi minor with
      | Some ma, Some mi =>
          if (ma <=? 0) || (mi <? 0) || (9 <? mi) then 0 else wrap64 (ma * 10 + mi)
      | _, _ => 0
      end
  | None =>
      match Atoi val with
      | None => 0
      | Some n =>
          if n <=? 0 then 0
          else if n <? 10 then n * 10
          else if n <? 100 then n
          else if String.eqb codec "h265" && (Z.rem n 3 =? 0) then Z.quot n 3
          else 0
      end
  end.

(** * ClientCapabilities *)
Record ClientCapabilities := mkCaps {
  cc_VideoCodecs : list string;
  cc_AudioCodecs : list string;
  cc_Containers : list string;
  cc_MaxWidth : Z;
  cc_MaxHeight : Z;
  cc_MaxAudioChannels : Z;
  cc_MaxVideoBitDepth : Z;
  cc_MaxVP9BitDepth : Z;
  cc_SupportsHDR : bool;
  cc_SupportsHLG : ptr bool;
  cc_SupportsDV : bool;
  cc_DVProfiles : list string;
  cc_SupportsHEVC : bool;
  cc_SupportsAV1 : bool;
  cc_AcceptsOptimized : bool;
  cc_AudioPassthrough : list string;
  cc_VideoLimits : gmap string VideoLimit
}.

#[global] Instance eta_Caps : Eta ClientCapabilities := λ r,
  mkCaps (cc_VideoCodecs r) (cc_AudioCodecs r) (cc_Containers r) (cc_MaxWidth r)
    (cc_MaxHeight r) (cc_MaxAudioChannels r) (cc_MaxVideoBitDepth r) (cc_MaxVP9BitDepth r)
    (cc_SupportsHDR r) (cc_SupportsHLG r) (cc_SupportsDV r) (cc_DVProfiles r)
    (cc_SupportsHEVC r) (cc_SupportsAV1 r) (cc_AcceptsOptimized r) (cc_AudioPassthrough r)
    (cc_VideoLimits r).

(** [c.VideoLimits[codec]] of a missing key is the zero [VideoLimit]. *)
Definition VideoLimitFor (c : ClientCapabilities) (codec : string) : VideoLimit :=
  default no_limit (cc_VideoLimits c !! canonicalVideoCodec codec).

Definition setVideoLimit (c : ClientCapabilities) (codec field val : string) :
    ClientCapabilities :=
  let lim := default no_limit (cc_VideoLimits c !! codec) in
  let store (l : VideoLimit) := c <| cc_VideoLimits ::= insert codec l |> in
  if String.eqb field "profile" then
    let p := normaliseProfile val in
    if profileRank codec p =? 0 then c
    else store (lim <| vl_Profile := canonicalProfile codec p |>)
  else if String.eqb field "level" then
    let l := parseClientLevel codec val in
    if l <=? 0 then c else store (lim <| vl_Level := l |>)
  else store lim.

Definition SupportsVideoCodec (c : ClientCapabilities) (codec : string) : bool :=
  existsb (λ v, String.eqb (ToLower v) (ToLower codec)) (cc_VideoCodecs c).

Definition SupportsAudioCodec (c : ClientCapabilities) (codec : string) : bool :=
  existsb (λ v, String.eqb (ToLower v) (ToLower codec)) (cc_AudioCodecs c).

Definition PassesThroughAudio (c : ClientCapabilities) (codec : string) : bool :=
  mem (CanonicalAudioCodec codec) (cc_AudioPassthrough c).

Definition passthroughCodec (codec : string) : bool :=
  mem codec ["ac3"; "eac3"; "truehd"; "dts"].

Definition SupportsContainer (c : ClientCapabilities) (container : string) : bool :=
  let container := ToLower container in
  if existsb (λ v, String.eqb (ToLower v) container) (cc_Containers c) then true
  else match cc_Containers c with
       | [] => String.eqb container "mkv" || String.eqb container "mp4"
               || String.eqb container "mov"
       | _ => false
       end.

Definition SupportsDVProfile (c : ClientCapabilities) (key : string) : bool :=
  if String.eqb key "" then false else mem key (cc_DVProfiles c).

Definition HEVCMain8Only (c : ClientCapabilities) : bool :=
  String.eqb (vl_Profile (VideoLimitFor c "h265")) "main".

(** * Parsing *)

(** Leading digits, in 64-bit arithmetic; stops at the first non-digit. *)
Fixpoint parseInt_go (n : Z) (s : string) : Z :=
  match s with
  | EmptyString => n
  | String c s' => if is_digit c then parseInt_go (wrap64 (n * 10 + digitZ c)) s' else n
  end.
Definition parseInt (s : string) : Z := parseInt_go 0 s.

Definition flag (val : string) : bool := (0 <? parseInt val) || EqualFold val "true".

Definition dv_add (out : list string) (k : string) : list string :=
  if mem k out then out else out ++ [k].

Definition dv_adds (v : string) : list string :=
  switch (ToLower (TrimSpace v))
    [(["5"; "05"], ["5"]); (["7"; "07"], ["7"]);
     (["8"; "08"; "8.1"; "08.1"], ["8.1"]); (["8.4"; "08.4"], ["8.4"]);
     (["8.x"], ["8.1"; "8.4"])] [].

Definition parseDVProfiles (val : string) (vals : list string) : list string :=
  switch (ToLower (TrimSpace val))
    [([""; "0"; "false"], []); (["1"; "true"], ["5"; "8.1"; "8.4"])]
    (fold_left (λ out v, fold_left dv_add (dv_adds v) out) vals []).

Definition add_passthrough (caps : ClientCapabilities) (v : string) : ClientCapabilities :=
  let c := CanonicalAudioCodec (TrimSpace v) in
  if passthroughCodec c && negb (PassesThroughAudio caps c)
  then caps <| cc_AudioPassthrough ::= λ l, l ++ [c] |> else caps.

Definition flag_video_codec (caps : ClientCapabilities) (v : string) : ClientCapabilities :=
  switch (ToLower v)
    [(["h265"; "hevc"], caps <| cc_SupportsHEVC := true |>);
     (["av1"], caps <| cc_SupportsAV1 := true |>)] caps.

(** One [key=value] pair of the header. *)
Definition apply_pair (caps : ClientCapabilities) (key val : string) : ClientCapabilities :=
  let vals := Split val ":" in
  let n := parseInt val in
  if mem key ["videodecoder"] then
    fold_left flag_video_codec vals (caps <| cc_VideoCodecs ::= λ l, l ++ vals |>)
  else if mem key ["audiodecoder"] then caps <| cc_AudioCodecs ::= λ l, l ++ vals |>
  else if mem key ["audiopassthrough"] then fold_left add_passthrough vals caps
  else if mem key ["protocols"] then caps <| cc_Containers ::= λ l, l ++ vals |>
  else if mem key ["maxwidth"] then if 0 <? n then caps <| cc_MaxWidth := n |> else caps
  else if mem key ["maxheight"] then if 0 <? n then caps <| cc_MaxHeight := n |> else caps
  else if mem key ["maxaudiochannels"] then
    if 0 <? n then caps <| cc_MaxAudioChannels := n |> else caps
  else if mem key ["maxbitdepth"; "videobitdepth"] then
    if 0 <? n then caps <| cc_MaxVideoBitDepth := n |> else caps
  else if mem key ["vp9maxbitdepth"] then
    if 0 <? n then caps <| cc_MaxVP9BitDepth := n |> else caps
  else if mem key ["hdr"] then caps <| cc_SupportsHDR := flag val |>
  else if mem key ["hlg"] then caps <| cc_SupportsHLG := Some (flag val) |>
  else if mem key ["dovi"; "dolbyvision"] then
    let dv := parseDVProfiles val vals in
    caps <| cc_DVProfiles := dv |> <| cc_SupportsDV := negb (Nat.eqb (length dv) 0) |>
  else if mem key ["optimized"] then caps <| cc_AcceptsOptimized := flag val |>
  else match limitCodec key with
       | Some (codec, field) => setVideoLimit caps codec field val
       | None => caps
       end.

Definition apply_part (caps : ClientCapabilities) (part : string) : ClientCapabilities :=
  match Cut (TrimSpace part) "=" with
  | Some (k, v) => apply_pair caps (ToLower k) v
  | None => caps
  end.

Definition caps_defaults : ClientCapabilities :=
  mkCaps [] [] [] 1920 1080 6 8 0 false None false [] false false false [] ∅.

Definition is_pair_sep (c : ascii) : bool := Ascii.eqb c "&" || Ascii.eqb c ",".

Definition fill_codecs (caps : ClientCapabilities) : ClientCapabilities :=
  let caps := match cc_VideoCodecs caps with
              | [] => caps <| cc_VideoCodecs := ["h264"] |> | _ => caps end in
  match cc_AudioCodecs caps with
  | [] => caps <| cc_AudioCodecs := ["aac"] |> | _ => caps end.

Definition ParseCapabilities (header : string) : ClientCapabilities :=
  fill_codecs (fold_left apply_part (FieldsFunc is_pair_sep header) caps_defaults).
