(* ===== verification/Encoders.v ===== *)
(** Encoders: families and vendors ([internal/transcode/ffmpeg.go]), detection,
    overrides and fail-over ([hardware.go]), and what the HLS output contains
    ([videooutput.go]). *)
From S2P Require Import Prelude.
From S2P Require Import GoStrings.

(** An [Encoder] is a string in the code; any string can occur. *)
Abbreviation Encoder := string.

Definition EncoderNVENC : Encoder := "h264_nvenc".
Definition EncoderAMF : Encoder := "h264_amf".
Definition EncoderVAAPI : Encoder := "h264_vaapi".
Definition EncoderQSV : Encoder := "h264_qsv".
Definition EncoderSoftware : Encoder := "libx264".
Definition EncoderHEVCNVENC : Encoder := "hevc_nvenc".
Definition EncoderHEVCQSV : Encoder := "hevc_qsv".
Definition EncoderHEVCVAAPI : Encoder := "hevc_vaapi".
Definition EncoderHEVCAMF : Encoder := "hevc_amf".
Definition EncoderHEVCSoftware : Encoder := "libx265".
Definition EncoderAV1Software : Encoder := "libsvtav1".
Definition EncoderAV1NVENC : Encoder := "av1_nvenc".
Definition EncoderAV1QSV : Encoder := "av1_qsv".
Definition EncoderAV1VAAPI : Encoder := "av1_vaapi".
Definition EncoderAV1AMF : Encoder := "av1_amf".
Definition EncoderCopy : Encoder := "copy".

Definition IsNVENCEncoder (enc : Encoder) : bool :=
  mem enc [EncoderNVENC; EncoderHEVCNVENC; EncoderAV1NVENC].
Definition IsQSVEncoder (enc : Encoder) : bool :=
  mem enc [EncoderQSV; EncoderHEVCQSV; EncoderAV1QSV].
Definition IsVAAPIEncoder (enc : Encoder) : bool :=
  mem enc [EncoderVAAPI; EncoderHEVCVAAPI; EncoderAV1VAAPI].
Definition IsHEVCEncoder (enc : Encoder) : bool :=
  mem enc [EncoderHEVCNVENC; EncoderHEVCQSV; EncoderHEVCVAAPI; EncoderHEVCAMF;
           EncoderHEVCSoftware].
Definition IsAV1Encoder (enc : Encoder) : bool :=
  mem enc [EncoderAV1Software; EncoderAV1NVENC; EncoderAV1QSV; EncoderAV1VAAPI;
           EncoderAV1AMF].
Definition IsVideoCopy (encoder : Encoder) : bool := String.eqb encoder EncoderCopy.

(** * Picking an encoder *)
Definition BestEncoder (encoders : list Encoder) : Encoder :=
  match encoders with [] => EncoderSoftware | e :: _ => e end.
Definition BestH264Encoder (encoders : list Encoder) : Encoder :=
  default EncoderSoftware
    (find_first (λ e, negb (IsHEVCEncoder e) && negb (IsAV1Encoder e)) encoders).
Definition HasHEVCEncoder (encoders : list Encoder) : bool := existsb IsHEVCEncoder encoders.
Definition BestHEVCEncoder (encoders : list Encoder) : Encoder :=
  default "" (find_first IsHEVCEncoder encoders).
Definition HasAV1Encoder (encoders : list Encoder) : bool := existsb IsAV1Encoder encoders.
Definition BestAV1Encoder (encoders : list Encoder) : Encoder :=
  default "" (find_first IsAV1Encoder encoders).

Definition EncoderLabel (enc : Encoder) : string :=
  switch enc
    [([EncoderNVENC; EncoderHEVCNVENC; EncoderAV1NVENC], "NVIDIA GPU");
     ([EncoderAMF; EncoderHEVCAMF; EncoderAV1AMF], "AMD GPU");
     ([EncoderQSV; EncoderHEVCQSV; EncoderAV1QSV], "Intel Quick Sync");
     ([EncoderVAAPI; EncoderHEVCVAAPI; EncoderAV1VAAPI], "VA-API");
     ([EncoderSoftware; EncoderHEVCSoftware; EncoderAV1Software], "Software (CPU)")] enc.

Definition vendorClass (enc : Encoder) : string :=
  if IsNVENCEncoder enc then "nvenc"
  else if IsQSVEncoder enc then "qsv"
  else if IsVAAPIEncoder enc then "vaapi"
  else if mem enc [EncoderAMF; EncoderHEVCAMF; EncoderAV1AMF] then "amf"
  else "software".

Definition IsHardwareEncoder (enc : Encoder) : bool :=
  negb (String.eqb (vendorClass enc) "software") && negb (String.eqb enc "copy").

Definition codecFamily (enc : Encoder) : string :=
  if IsAV1Encoder enc then "av1" else if IsHEVCEncoder enc then "hevc" else "h264".

Definition encoderFamily (e : Encoder) : string :=
  if IsAV1Encoder e then "av1" else if IsHEVCEncoder e then "h265" else "h264".

Definition softwareEncoderForFamily (family : string) : Encoder :=
  switch family [(["av1"], EncoderAV1Software); (["hevc"], EncoderHEVCSoftware)]
    EncoderSoftware.

(** The loop of [FallbackEncoders]: [seen] is the set of encoders already
    taken (the primary to begin with). *)
Fixpoint fallback_loop (fam pv : string) (available seen : list Encoder) :
    list Encoder * list Encoder :=
  match available with
  | [] => ([], seen)
  | e :: rest =>
      if mem e seen || negb (String.eqb (codecFamily e) fam) || negb (IsHardwareEncoder e)
         || String.eqb (vendorClass e) pv
      then fallback_loop fam pv rest seen
      else let '(out, seen') := fallback_loop fam pv rest (e :: seen) in (e :: out, seen')
  end.

Definition FallbackEncoders (primary : Encoder) (available : list Encoder) : list Encoder :=
  if negb (IsHardwareEncoder primary) then []
  else
    let fam := codecFamily primary in
    let '(out, seen) := fallback_loop fam (vendorClass primary) available [primary] in
    let sw := softwareEncoderForFamily fam in
    if mem sw seen then out else out ++ [sw].

Definition FilterAvailable (wanted detected : list Encoder) : list Encoder :=
  let result := List.filter (λ e, mem e detected) wanted in
  match result with [] => [EncoderSoftware] | _ => result end.

(** * Detection

    [probe] is the one-second null encode of [probeEncoder] and [exists_] the
    [os.Stat] of a device file: I/O, so arguments. *)
Definition override_encoder (s : string) : option Encoder :=
  switch (TrimSpace (ToLower s))
    [(["nvenc"; "h264_nvenc"], Some EncoderNVENC); (["hevc_nvenc"], Some EncoderHEVCNVENC);
     (["av1_nvenc"], Some EncoderAV1NVENC); (["amf"; "h264_amf"], Some EncoderAMF);
     (["hevc_amf"], Some EncoderHEVCAMF); (["av1_amf"], Some EncoderAV1AMF);
     (["vaapi"; "h264_vaapi"], Some EncoderVAAPI); (["hevc_vaapi"], Some EncoderHEVCVAAPI);
     (["av1_vaapi"], Some EncoderAV1VAAPI); (["qsv"; "h264_qsv"], Some EncoderQSV);
     (["hevc_qsv"], Some EncoderHEVCQSV); (["av1_qsv"], Some EncoderAV1QSV);
     (["software"; "libx264"], Some EncoderSoftware);
     (["hevc_software"; "libx265"], Some EncoderHEVCSoftware);
     (["av1_software"; "libsvtav1"], Some EncoderAV1Software)] None.

Definition ParseOverride (override : string) : list Encoder :=
  let encoders := omap override_encoder (Split override ",") in
  match encoders with [] => [EncoderSoftware] | _ => encoders end.

Definition add_if (b : bool) (e : Encoder) : list Encoder := if b then [e] else [].

Definition DetectEncoders (goos : string) (exists_ : string → bool)
    (probe : string → bool) (override : string) : list Encoder :=
  if negb (String.eqb override "") then ParseOverride override
  else
    let linux := String.eqb goos "linux" in
    let skipNVENC := linux && negb (exists_ "/dev/nvidia0") && negb (exists_ "/dev/dxg") in
    let skipDRI := linux && negb (exists_ "/dev/dri/renderD128") in
    let nvenc := if negb skipNVENC
                 then add_if (probe "h264_nvenc") EncoderNVENC
                      ++ add_if (probe "hevc_nvenc") EncoderHEVCNVENC
                      ++ add_if (probe "av1_nvenc") EncoderAV1NVENC else [] in
    let amf := if String.eqb goos "windows"
               then add_if (probe "h264_amf") EncoderAMF
                    ++ add_if (probe "hevc_amf") EncoderHEVCAMF
                    ++ add_if (probe "av1_amf") EncoderAV1AMF else [] in
    let dri := if negb skipDRI
               then (if probe "h264_vaapi"
                     then EncoderVAAPI :: add_if (probe "hevc_vaapi") EncoderHEVCVAAPI
                          ++ add_if (probe "av1_vaapi") EncoderAV1VAAPI else [])
                    ++ (if probe "h264_qsv"
                        then EncoderQSV :: add_if (probe "hevc_qsv") EncoderHEVCQSV
                             ++ add_if (probe "av1_qsv") EncoderAV1QSV else [])
               else [] in
    nvenc ++ amf ++ dri ++ [EncoderSoftware].

(** * Video output *)
Record VideoOutput := mkVideoOutput {
  vo_HEVC : bool; vo_AV1 : bool; vo_ForcedFMP4 : bool; vo_TSSegments : bool
}.

Definition ResolveVideoOutput (encoder : Encoder)
    (sourceHEVC sourceAV1 forceFMP4 tsSegments : bool) : VideoOutput :=
  if IsVideoCopy encoder then mkVideoOutput sourceHEVC sourceAV1 forceFMP4 tsSegments
  else mkVideoOutput (IsHEVCEncoder encoder) (IsAV1Encoder encoder) forceFMP4 tsSegments.

Definition NeedsFMP4 (v : VideoOutput) : bool :=
  vo_AV1 v || vo_ForcedFMP4 v || (vo_HEVC v && negb (vo_TSSegments v)).
Definition SegExt (v : VideoOutput) : string := if NeedsFMP4 v then ".m4s" else ".ts".
Definition SegType (v : VideoOutput) : string := if NeedsFMP4 v then "fmp4" else "mpegts".
Definition TagV (v : VideoOutput) : string :=
  if vo_HEVC v && negb (NeedsFMP4 v) then ""
  else if vo_HEVC v then "hvc1"
  else if vo_AV1 v then "av01"
  else "".

(** * Lemmas *)
Lemma hardware_not_software_family (e : Encoder) (fam : string) :
  IsHardwareEncoder e = true → softwareEncoderForFamily fam ≠ e.
Proof.
  intros H <-. revert H. unfold softwareEncoderForFamily. simpl.
  repeat bcase; done.
Qed.

Lemma hardware_not_copy (e : Encoder) : IsHardwareEncoder e = true → IsVideoCopy e = false.
Proof.
  unfold IsHardwareEncoder, IsVideoCopy. rewrite andb_true_iff, !negb_true_iff.
  by intros [_ H].
Qed.

Lemma softwareEncoderForFamily_family (e : Encoder) :
  codecFamily (softwareEncoderForFamily (codecFamily e)) = codecFamily e.
Proof. unfold codecFamily at 2 3. repeat bcase; done. Qed.

Lemma softwareEncoderForFamily_not_copy (fam : string) :
  IsVideoCopy (softwareEncoderForFamily fam) = false.
Proof. unfold softwareEncoderForFamily. simpl. repeat bcase; done. Qed.

(** The family decides which codec an encoder writes. *)
Lemma codecFamily_output (a b : Encoder) :
  codecFamily a = codecFamily b →
  IsAV1Encoder a = IsAV1Encoder b ∧
  (IsAV1Encoder a = false → IsHEVCEncoder a = IsHEVCEncoder b).
Proof.
  unfold codecFamily. intros H.
  destruct (IsAV1Encoder a), (IsAV1Encoder b), (IsHEVCEncoder a), (IsHEVCEncoder b);
    simplify_eq; done.
Qed.

Lemma AV1_not_HEVC (e : Encoder) : IsAV1Encoder e = true → IsHEVCEncoder e = false.
Proof.
  unfold IsAV1Encoder. rewrite mem_spec. intros H.
  repeat (apply elem_of_cons in H as [->|H]; [done|]). inversion H.
Qed.

Lemma fallback_loop_spec (fam pv : string) (available seen : list Encoder) :
  let '(out, seen') := fallback_loop fam pv available seen in
  NoDup out ∧
  (∀ e, e ∈ out ↔ e ∈ available ∧ e ∉ seen ∧ codecFamily e = fam ∧
                  IsHardwareEncoder e = true ∧ vendorClass e ≠ pv) ∧
  (∀ e, e ∈ seen' ↔ e ∈ seen ∨ e ∈ out) ∧
  sublist out available.
Proof.
  revert seen. induction available as [|e rest IH]; intros seen; cbn [fallback_loop].
  - split_and!; [constructor|set_solver|set_solver|constructor].
  - destruct (mem e seen || _ || _ || _) eqn:E.
    + specialize (IH seen). destruct (fallback_loop _ _ rest seen) as [out seen'].
      destruct IH as (Hn & Ho & Hs & Hsub). split_and!; [done| |done|by constructor].
      intros x. rewrite Ho, elem_of_cons. split; [tauto|].
      intros ([->|?] & Hx & Hf & Hh & Hv); [|tauto]. exfalso.
      breflect. naive_solver congruence.
    + specialize (IH (e :: seen)). destruct (fallback_loop _ _ rest (e :: seen)) as [out seen'].
      destruct IH as (Hn & Ho & Hs & Hsub). breflect.
      destruct E as [[[E1 E2] E3] E4]. split_and!.
      * constructor; [|done]. rewrite Ho. set_solver.
      * intros x. rewrite !elem_of_cons, Ho. rewrite elem_of_cons.
        split; [naive_solver|]. intros (Hx & Hns & ? & ? & ?).
        destruct (decide (x = e)); naive_solver.
      * intros x. rewrite Hs. set_solver.
      * by constructor.
Qed.
