(* ===== verification/ProfileLevel.v ===== *)
(** Codec profiles and levels ([internal/transcode/profilelevel.go]): whether a
    file's video is over the client's limit, the level tables, the output size
    and bitrate a re-encode may use, and the encoder flags that hold it there. *)
From S2P Require Import Prelude.
From S2P Require Import GoStrings.
From S2P Require Import GoFloat.
From S2P Require Import Media.
From S2P Require Import Capability.
From S2P Require Import Encoders.

Local Open Scope Z_scope.

(** * Source levels *)
Definition VideoLevelTenths (codec : string) (raw : Z) : Z :=
  if raw <=? 0 then 0
  else switch (canonicalVideoCodec codec)
    [(["h264"], if raw =? 9 then 10 else raw);
     (["h265"], Z.quot raw 3);
     (["av1"], if 23 <? raw then 0 else (2 + Z.quot raw 4) * 10 + Z.rem raw 4)] 0.

Definition FormatLevel (tenths : Z) : string :=
  if Z.rem tenths 10 =? 0 then Itoa (Z.quot tenths 10)
  else Itoa (Z.quot tenths 10) +:+ "." +:+ Itoa (Z.rem tenths 10).

Definition levelDotted (tenths : Z) : string :=
  Itoa (Z.quot tenths 10) +:+ "." +:+ Itoa (Z.rem tenths 10).

Definition profileLabel (codec token : string) : string :=
  switch token
    [(["baseline"], "Baseline"); (["main"], "Main"); (["high"], "High");
     (["high10"], "High 10"); (["high422"], "High 4:2:2"); (["high444"], "High 4:4:4");
     (["main10"], "Main 10"); (["rext"], "RExt"); (["professional"], "Professional")] token.

(** (profileOver, levelOver) *)
Definition videoLimitExceeded (file : File) (caps : ClientCapabilities) : bool * bool :=
  let codec := canonicalVideoCodec (deref (f_VideoCodec file)) in
  let lim := VideoLimitFor caps codec in
  if negb (declared lim) then (false, false)
  else
    let profileOver :=
      match f_VideoProfile file with
      | Some p =>
          if negb (String.eqb (vl_Profile lim) "") then
            let src := profileRank codec (normaliseProfile p) in
            (0 <? src) && (profileRank codec (vl_Profile lim) <? src)
          else false
      | None => false
      end in
    let levelOver :=
      match f_VideoLevel file with
      | Some l =>
          if 0 <? vl_Level lim then
            let src := VideoLevelTenths codec l in
            (0 <? src) && (vl_Level lim <? src)
          else false
      | None => false
      end in
    (profileOver, levelOver).

(** * Level tables *)
Record levelSpec := mkLevel {
  ls_tenths : Z; ls_maxPicture : Z; ls_maxRate : Z; ls_maxKbps : Z
}.

Definition h264Levels : list levelSpec :=
  [mkLevel 10 (99 * 256) (1485 * 256) 64;
   mkLevel 11 (396 * 256) (3000 * 256) 192;
   mkLevel 12 (396 * 256) (6000 * 256) 384;
   mkLevel 13 (396 * 256) (11880 * 256) 768;
   mkLevel 20 (396 * 256) (11880 * 256) 2000;
   mkLevel 21 (792 * 256) (19800 * 256) 4000;
   mkLevel 22 (1620 * 256) (20250 * 256) 4000;
   mkLevel 30 (1620 * 256) (40500 * 256) 10000;
   mkLevel 31 (3600 * 256) (108000 * 256) 14000;
   mkLevel 32 (5120 * 256) (216000 * 256) 20000;
   mkLevel 40 (8192 * 256) (245760 * 256) 20000;
   mkLevel 41 (8192 * 256) (245760 * 256) 50000;
   mkLevel 42 (8704 * 256) (522240 * 256) 50000;
   mkLevel 50 (22080 * 256) (589824 * 256) 135000;
   mkLevel 51 (36864 * 256) (983040 * 256) 240000;
   mkLevel 52 (36864 * 256) (2073600 * 256) 240000;
   mkLevel 60 (139264 * 256) (4177920 * 256) 240000;
   mkLevel 61 (139264 * 256) (8355840 * 256) 480000;
   mkLevel 62 (139264 * 256) (16711680 * 256) 800000].

Definition hevcLevels : list levelSpec :=
  [mkLevel 10 36864 552960 128;
   mkLevel 20 122880 3686400 1500;
   mkLevel 21 245760 7372800 3000;
   mkLevel 30 552960 16588800 6000;
   mkLevel 31 983040 33177600 10000;
   mkLevel 40 2228224 66846720 12000;
   mkLevel 41 2228224 133693440 20000;
   mkLevel 50 8912896 267386880 25000;
   mkLevel 51 8912896 534773760 40000;
   mkLevel 52 8912896 1069547520 60000;
   mkLevel 60 35651584 1069547520 60000;
   mkLevel 61 35651584 2139095040 120000;
   mkLevel 62 35651584 4278190080 240000].

Definition av1Levels : list levelSpec :=
  [mkLevel 20 147456 4423680 1500;
   mkLevel 21 278784 8363520 3000;
   mkLevel 30 665856 19975680 6000;
   mkLevel 31 1065024 31950720 10000;
   mkLevel 40 2359296 70778880 12000;
   mkLevel 41 2359296 141557760 20000;
   mkLevel 50 8912896 267386880 30000;
   mkLevel 51 8912896 534773760 40000;
   mkLevel 52 8912896 1069547520 60000;
   mkLevel 53 8912896 1069547520 60000;
   mkLevel 60 35651584 1069547520 60000;
   mkLevel 61 35651584 2139095040 100000;
   mkLevel 62 35651584 4278190080 160000;
   mkLevel 63 35651584 4278190080 160000].

Definition level_table (codec : string) : option (list levelSpec) :=
  switch (canonicalVideoCodec codec)
    [(["h264"], Some h264Levels); (["h265"], Some hevcLevels); (["av1"], Some av1Levels)] None.

(** The last row at or below [tenths]; [None] is [found = false]. *)
Definition levelLimits (codec : string) (tenths : Z) : option levelSpec :=
  match level_table codec with
  | None => None
  | Some table =>
      fold_left (λ best s, if ls_tenths s <=? tenths then Some s else best) table None
  end.

(** * Pictures and levels *)
Definition pictureSamples (codec : string) (w h : Z) : Z :=
  if String.eqb (canonicalVideoCodec codec) "h264"
  then wrap64 (wrap64 (Z.quot (w + 15) 16 * Z.quot (h + 15) 16) * 256)
  else wrap64 (w * h).

Definition FitsLevel (codec : string) (tenths w h : Z) (fps : float64) : bool :=
  match levelLimits codec tenths with
  | None => true
  | Some spec =>
      if (w <=? 0) || (h <=? 0) then true
      else
        let samples := pictureSamples codec w h in
        if ls_maxPicture spec <? samples then false
        else f64_le0 fps
             || f64_leb (f64_mul (f64_of_Z samples) fps) (f64_of_Z (ls_maxRate spec))
  end.

(** [int(math.Round(float64(h) * aspect))], made even by rounding up. *)
Definition even_width (h : Z) (aspect : float64) : Z :=
  let w := round_of_f64 (f64_mul (f64_of_Z h) aspect) in
  w + Z.land w 1.

(** The search loop: [h] steps down by two while it is at least 2. *)
Fixpoint level_height_loop (fuel : nat) (codec : string) (tenths : Z) (aspect fps : float64)
    (h : Z) : Z :=
  match fuel with
  | O => 2
  | S fuel' =>
      if h <? 2 then 2
      else if FitsLevel codec tenths (even_width h aspect) h fps then h
      else level_height_loop fuel' codec tenths aspect fps (h - 2)
  end.

Definition level_height_fuel (srcH : Z) : nat := S (Z.to_nat (srcH / 2)).

Definition LevelMaxHeight (codec : string) (tenths srcW srcH : Z) (fps : float64) : Z :=
  if (tenths <=? 0) || (srcW <=? 0) || (srcH <=? 0) then 0
  else match levelLimits codec tenths with
       | None => 0
       | Some _ =>
           if FitsLevel codec tenths srcW srcH fps then 0
           else
             let aspect := f64_div (f64_of_Z srcW) (f64_of_Z srcH) in
             level_height_loop (level_height_fuel srcH) codec tenths aspect fps
               (Z.ldiff srcH 1)
       end.

Definition LevelMaxKbps (codec : string) (tenths : Z) : Z :=
  match levelLimits codec tenths with
  | None => 0
  | Some spec => if tenths <=? 0 then 0 else Z.quot (ls_maxKbps spec * 2) 3
  end.

(** * Output limits *)
Record OutputLimits := mkOutputLimits {
  ol_H264Profile : string;
  ol_H264Level : Z;
  ol_HEVCLevel : Z;
  ol_AV1Level : Z;
  ol_FrameRate : float64
}.

Definition IsZero (o : OutputLimits) : bool :=
  String.eqb (ol_H264Profile o) "" && (ol_H264Level o =? 0) && (ol_HEVCLevel o =? 0)
  && (ol_AV1Level o =? 0).

Definition OutputLimitsFor (caps : ClientCapabilities) (fps : float64) : OutputLimits :=
  let profile :=
    switch (vl_Profile (VideoLimitFor caps "h264"))
      [(["baseline"], "baseline"); (["main"], "main")] "" in
  let o := mkOutputLimits profile (vl_Level (VideoLimitFor caps "h264"))
             (vl_Level (VideoLimitFor caps "h265")) (vl_Level (VideoLimitFor caps "av1"))
             f64_zero in
  if negb (IsZero o) && f64_gt0 fps
  then mkOutputLimits (ol_H264Profile o) (ol_H264Level o) (ol_HEVCLevel o) (ol_AV1Level o) fps
  else o.

Definition LevelFor (o : OutputLimits) (codec : string) : Z :=
  switch (canonicalVideoCodec codec)
    [(["h264"], ol_H264Level o); (["h265"], ol_HEVCLevel o); (["av1"], ol_AV1Level o)] 0.

Definition outputLimitArgs (e : Encoder) (o : OutputLimits) (w h : Z) : list string :=
  let family := encoderFamily e in
  let args :=
    if String.eqb family "h264" && negb (String.eqb (ol_H264Profile o) "") then
      let p := ol_H264Profile o in
      let p := if String.eqb p "baseline" && mem e [EncoderAMF; EncoderVAAPI]
               then "constrained_baseline" else p in
      ["-profile:v"; p]
    else [] in
  let level := LevelFor o family in
  if (level <=? 0) || negb (FitsLevel family level w h (ol_FrameRate o)) then args
  else switch e
    [([EncoderAV1Software], args);
     ([EncoderHEVCSoftware], args ++ ["-x265-params"; "level-idc=" +:+ levelDotted level]);
     ([EncoderQSV; EncoderHEVCQSV; EncoderAV1QSV], args ++ ["-level"; Itoa level]);
     ([EncoderVAAPI; EncoderHEVCVAAPI], args ++ ["-level"; FormatLevel level])]
    (args ++ ["-level"; levelDotted level]).

(** * Lemmas *)

(** The table lookup takes the last row whose level does not exceed [tenths]. *)
Lemma fold_last_le (tenths : Z) (table : list levelSpec) (acc : option levelSpec) (s : levelSpec) :
  fold_left (λ best s, if ls_tenths s <=? tenths then Some s else best) table acc = Some s →
  (s ∈ table ∧ ls_tenths s <= tenths) ∨ acc = Some s.
Proof.
  revert acc. induction table as [|x table IH]; simpl; intros acc H; [by right|].
  destruct (IH _ H) as [[Hin Hle]|Hacc].
  - left. split; [by right|done].
  - destruct (ls_tenths x <=? tenths) eqn:E; [|by right].
    simplify_eq. breflect. left. split; [by left|done].
Qed.

Lemma levelLimits_Some (codec : string) (tenths : Z) (s : levelSpec) :
  levelLimits codec tenths = Some s →
  ∃ table, level_table codec = Some table ∧ s ∈ table ∧ ls_tenths s <= tenths.
Proof.
  unfold levelLimits. destruct (level_table codec) as [table|]; [|done].
  intros H. exists table. apply fold_last_le in H as [[??]|?]; done.
Qed.

Lemma level_height_loop_spec (fuel : nat) codec tenths aspect fps h :
  Z.even h = true → h < 2 * Z.of_nat fuel + 2 →
  let r := level_height_loop fuel codec tenths aspect fps h in
  Z.even r = true ∧ 2 <= r ∧
  (r = 2 ∨ (r <= h ∧ FitsLevel codec tenths (even_width r aspect) r fps = true)) ∧
  (∀ h', Z.even h' = true → r < h' <= h →
         FitsLevel codec tenths (even_width h' aspect) h' fps = false).
Proof.
  revert h. induction fuel as [|fuel IH]; intros h Heven Hfuel; cbn [level_height_loop].
  - split_and!; [done|lia|by left|intros; lia].
  - destruct (h <? 2) eqn:E1; breflect.
    { split_and!; [done|lia|by left|intros; lia]. }
    destruct (FitsLevel _ _ (even_width h aspect) h fps) eqn:E2.
    { split_and!; [done|lia|right; split; [lia|done]|intros; lia]. }
    destruct (IH (h - 2)) as (He & Hr & Hfit & Hmax).
    { by rewrite Z.even_sub, Heven. }
    { lia. }
    split_and!; [done|done| |].
    + destruct Hfit as [?|[??]]; [by left|right]. split; [|done]. lia.
    + intros h' He' Hh'. destruct (decide (h' = h)) as [->|]; [done|].
      apply Hmax; [done|]. split; [lia|].
      apply Z.even_spec in He' as [k ->], Heven as [k' ->]. lia.
Qed.

Lemma ldiff_1 (n : Z) : Z.ldiff n 1 = 2 * (n / 2).
Proof.
  change 1 with (Z.ones 1). rewrite Z.ldiff_ones_r by lia.
  rewrite Z.shiftl_mul_pow2, Z.shiftr_div_pow2 by lia. change (2 ^ 1) with 2. lia.
Qed.

Lemma ldiff_1_even (n : Z) : Z.even (Z.ldiff n 1) = true.
Proof. by rewrite ldiff_1, Z.even_mul. Qed.

Lemma ldiff_1_range (n : Z) : 0 <= n → n - 1 <= Z.ldiff n 1 <= n.
Proof. rewrite ldiff_1. intros H. pose proof (Z.div_mod n 2 ltac:(lia)).
  pose proof (Z.mod_pos_bound n 2 ltac:(lia)). lia.
Qed.

Lemma even_width_even (h : Z) (aspect : float64) : Z.even (even_width h aspect) = true.
Proof.
  unfold even_width. set (w := round_of_f64 _). change 1 with (Z.ones 1) at 1.
  rewrite Z.land_ones by lia. change (2 ^ 1) with 2. rewrite Zmod_even, Z.even_add.
  by destruct (Z.even w).
Qed.
