(* ===== verification/PlayDecision.v ===== *)
(** The play decision: [internal/transcode/decision.go] and [dolbyvision.go]
    ([Decide], [ForStack], [PlanDolbyVision]) and the reasons shown with it
    ([decision_reasons.go]). *)
From S2P Require Import Prelude.
From S2P Require Import GoStrings.
From S2P Require Import GoFloat.
From S2P Require Import Media.
From S2P Require Import Capability.
From S2P Require Import Encoders.
From S2P Require Import ProfileLevel.

Local Open Scope Z_scope.

(** * Data *)
Inductive Verdict :=
  | DecisionDirectPlay
  | DecisionDirectStream
  | DecisionTranscode
  | DecisionUnsupported
  | DecisionDamaged.
#[global] Instance Verdict_eq : EqDecision Verdict.
Proof. solve_decision. Defined.

Definition Verdict_String (d : Verdict) : string :=
  match d with
  | DecisionDirectPlay => "directPlay"
  | DecisionDirectStream => "directStream"
  | DecisionUnsupported => "unsupported"
  | DecisionDamaged => "damaged"
  | DecisionTranscode => "transcode"
  end.

Record ServerCaps := mkServerCaps {
  sc_MaxBitrateKbps : Z;
  sc_MaxWidth : Z;
  sc_MaxHeight : Z;
  sc_DVConvert : bool;
  sc_DVTonemap : bool
}.

Inductive DVMode := DVNone | DVKeep | DVToP81.
#[global] Instance DVMode_eq : EqDecision DVMode.
Proof. solve_decision. Defined.

(** * Dolby Vision *)
Definition DVProfileKey (f : File) : string :=
  let hdr := ToLower (deref (f_HDRType f)) in
  if String.eqb hdr "dolby_vision" then "5"
  else match f_DVProfile f with
       | None => ""
       | Some p =>
           if p =? 7 then
             if mem hdr ["hdr10"; "hdr10plus"] then "7" else ""
           else if p =? 8 then
             switch hdr [(["hdr10"; "hdr10plus"], "8.1"); (["hlg"], "8.4")] ""
           else ""
       end.

Definition PlanDolbyVision (f : File) (caps : ClientCapabilities) (canConvert : bool) : DVMode :=
  let key := DVProfileKey f in
  if String.eqb key "" then DVNone
  else if SupportsDVProfile caps key then DVKeep
  else if String.eqb key "7" && canConvert && SupportsDVProfile caps "8.1" then DVToP81
  else DVNone.

Definition clientSupportsHDR (caps : ClientCapabilities) (hdrType : string) : bool :=
  switch (ToLower hdrType)
    [(["dolby_vision"], SupportsDVProfile caps "5");
     (["hdr10"; "hdr10plus"], cc_SupportsHDR caps);
     (["hlg"], match cc_SupportsHLG caps with Some b => b | None => cc_SupportsHDR caps end)]
    false.

(** * The gates of [decide], by name *)
Section gates.
Context (file : File) (caps : ClientCapabilities).

Definition video_alias : string := canonicalVideoCodec (deref (f_VideoCodec file)).
Definition audio_alias : string := CanonicalAudioCodec (deref (f_AudioCodec file)).
Definition container_alias : string := canonicalContainer (deref (f_Container file)).
Definition hdr_type : string := deref (f_HDRType file).

Definition audio_only : bool :=
  String.eqb video_alias "" && negb (String.eqb audio_alias "").
Definition client_video : bool := audio_only || SupportsVideoCodec caps video_alias.
Definition src_channels : Z := SourceAudioChannels (f_AudioStreams file) (-1).
Definition channels_fit : bool :=
  (cc_MaxAudioChannels caps <=? 0) || (src_channels <=? 0)
  || (src_channels <=? cc_MaxAudioChannels caps).
Definition audio_playable : bool :=
  (SupportsAudioCodec caps audio_alias && channels_fit) || PassesThroughAudio caps audio_alias.
Definition client_audio : bool :=
  String.eqb audio_alias ""
  || (audio_playable && containerCarriesAudio container_alias audio_alias).
Definition client_container : bool := SupportsContainer caps container_alias.

Definition bit_depth_over : bool :=
  let bd := derefInt (f_VideoBitDepth file) in
  if 10 <=? bd then
    switch video_alias
      [(["h264"], true);
       (["h265"], cc_MaxVideoBitDepth caps <? bd);
       (["vp9"], (0 <? cc_MaxVP9BitDepth caps) && (cc_MaxVP9BitDepth caps <? bd))] false
  else false.

Definition limit_over : bool :=
  if negb audio_only then
    let '(profileOver, levelOver) := videoLimitExceeded file caps in profileOver || levelOver
  else false.

Definition size_over : bool :=
  let w := derefInt (f_ResolutionW file) in
  let h := derefInt (f_ResolutionH file) in
  ((0 <? w) && (0 <? cc_MaxWidth caps) && (cc_MaxWidth caps <? w))
  || ((0 <? h) && (0 <? cc_MaxHeight caps) && (cc_MaxHeight caps <? h)).
End gates.

(** Video that the HLS remux can carry. *)
Definition remuxable (videoAlias : string) : bool :=
  String.eqb videoAlias "h264" || String.eqb videoAlias "h265" || String.eqb videoAlias "av1".

Definition decide_ (file : File) (caps : ClientCapabilities) (serverCaps : ServerCaps) : Verdict :=
  if String.eqb (f_IntegrityStatus file) IntegrityDamaged then DecisionDamaged
  else if EqualFold (hdr_type file) "dolby_vision" && negb (SupportsDVProfile caps "5")
          && negb (sc_DVTonemap serverCaps) then DecisionUnsupported
  else
    let dv := PlanDolbyVision file caps (sc_DVConvert serverCaps) in
    if bool_decide (dv = DVNone) && isHDR (hdr_type file)
       && negb (clientSupportsHDR caps (hdr_type file)) then DecisionTranscode
    else if bit_depth_over file caps then DecisionTranscode
    else if limit_over file caps then DecisionTranscode
    else if size_over file caps then DecisionTranscode
    else if negb (client_video file caps) then DecisionTranscode
    else if client_audio file caps && client_container file caps
            && negb (bool_decide (dv = DVToP81)) then DecisionDirectPlay
    else if audio_only file || remuxable (video_alias file) then DecisionDirectStream
    else DecisionTranscode.

Definition Decide (file : File) (caps : ClientCapabilities) (serverCaps : ServerCaps) : Verdict :=
  let d := decide_ file caps serverCaps in
  if bool_decide (d = DecisionTranscode) && String.eqb (DVProfileKey file) "5"
     && negb (sc_DVTonemap serverCaps) then DecisionUnsupported
  else d.

(** [audioOnly] here tests the raw codec pointer, not its alias. *)
Definition ForStack (d : Verdict) (file : File) : Verdict :=
  if negb (bool_decide (d = DecisionDirectPlay)) then d
  else
    let videoAlias := video_alias file in
    let audioOnly := String.eqb videoAlias "" && negb (String.eqb (deref (f_AudioCodec file)) "") in
    if audioOnly || remuxable videoAlias then DecisionDirectStream else DecisionTranscode.

(** * Reasons *)
Inductive ReasonKind := ReasonFile | ReasonVideo | ReasonAudio | ReasonContainer.
Record Reason := mkReason { r_Kind : ReasonKind; r_Text : string }.

Definition videoCodecLabel (alias : string) : string :=
  switch alias
    [(["h264"], "H.264"); (["h265"], "HEVC"); (["av1"], "AV1"); (["vp9"], "VP9");
     (["vp8"], "VP8"); (["mpeg4"], "MPEG-4"); (["mpeg2video"], "MPEG-2"); (["vc1"], "VC-1")]
    (ToUpper alias).
Definition VideoCodecLabel (codec : string) : string := videoCodecLabel (canonicalVideoCodec codec).

Definition audioCodecLabel (alias : string) : string :=
  switch alias
    [(["aac"], "AAC"); (["ac3"], "AC-3"); (["eac3"], "E-AC-3"); (["truehd"], "TrueHD");
     (["dts"], "DTS"); (["mp3"], "MP3"); (["flac"], "FLAC"); (["vorbis"], "Vorbis");
     (["opus"], "Opus")] (ToUpper alias).
Definition AudioCodecLabel (codec : string) : string := audioCodecLabel (CanonicalAudioCodec codec).

Definition containerLabel (alias : string) : string :=
  switch alias [(["mkv"], "MKV"); (["mp4"], "MP4"); (["avi"], "AVI"); (["ts"], "MPEG-TS")]
    (ToUpper alias).

Definition hdrLabel (hdrType : string) : string :=
  switch (ToLower hdrType) [(["hdr10"], "HDR10"); (["hdr10plus"], "HDR10+"); (["hlg"], "HLG")]
    "HDR".

Definition dims (w h : Z) : string :=
  if (0 <? w) && (0 <? h) then Itoa w +:+ "×" +:+ Itoa h
  else if 0 <? h then Itoa h +:+ "p"
  else Itoa w +:+ "px wide".

Definition ChannelLabel (ch : Z) : string :=
  if ch =? 1 then "mono" else if ch =? 2 then "stereo" else if ch =? 3 then "2.1"
  else if ch =? 6 then "5.1" else if ch =? 7 then "6.1" else if ch =? 8 then "7.1"
  else Itoa ch +:+ "-channel".

Definition videoCodecSupported (caps : ClientCapabilities) (alias : string) : bool :=
  if SupportsVideoCodec caps alias then true
  else switch alias
    [(["h265"], cc_SupportsHEVC caps || SupportsVideoCodec caps "hevc");
     (["av1"], cc_SupportsAV1 caps)] false.

Section reasons.
Context (file : File) (caps : ClientCapabilities).
Let videoAlias := video_alias file.
Let audioAlias := audio_alias file.
Let containerAlias := container_alias file.
Let hdrType := hdr_type file.
Let note (k : ReasonKind) (b : bool) (text : string) : list Reason :=
  if b then [mkReason k text] else [].

Definition hdr_reason : list Reason :=
  if EqualFold hdrType "dolby_vision" && negb (SupportsDVProfile caps "5") then
    note ReasonVideo true "Dolby Vision profile 5 not supported by client (tonemapped to SDR)"
  else note ReasonVideo (isHDR hdrType && negb (clientSupportsHDR caps hdrType))
         (hdrLabel hdrType +:+ " not supported by client (tonemapped to SDR)").

Definition depth_reason : list Reason :=
  let bd := derefInt (f_VideoBitDepth file) in
  if 10 <=? bd then
    switch videoAlias
      [(["h264"], note ReasonVideo true (Itoa bd +:+ "-bit H.264 not decodable by client"));
       (["h265"], note ReasonVideo (cc_MaxVideoBitDepth caps <? bd)
                    (Itoa bd +:+ "-bit HEVC → client max " +:+ Itoa (cc_MaxVideoBitDepth caps)
                     +:+ "-bit"));
       (["vp9"], note ReasonVideo ((0 <? cc_MaxVP9BitDepth caps) && (cc_MaxVP9BitDepth caps <? bd))
                   (Itoa bd +:+ "-bit VP9 → client max " +:+ Itoa (cc_MaxVP9BitDepth caps)
                    +:+ "-bit"))] []
  else [].

Definition limit_reasons : list Reason :=
  let '(profileOver, levelOver) := videoLimitExceeded file caps in
  let lim := VideoLimitFor caps videoAlias in
  note ReasonVideo profileOver
    (videoCodecLabel videoAlias +:+ " " +:+ deref (f_VideoProfile file)
     +:+ " profile → client max " +:+ profileLabel videoAlias (vl_Profile lim))
  ++ note ReasonVideo levelOver
    (videoCodecLabel videoAlias +:+ " level "
     +:+ FormatLevel (VideoLevelTenths videoAlias (derefInt (f_VideoLevel file)))
     +:+ " → client max " +:+ FormatLevel (vl_Level lim)).

Definition size_reason : list Reason :=
  note ReasonVideo (size_over file caps)
    (dims (derefInt (f_ResolutionW file)) (derefInt (f_ResolutionH file))
     +:+ " exceeds client max " +:+ dims (cc_MaxWidth caps) (cc_MaxHeight caps)).

Definition video_reasons : list Reason :=
  if negb (audio_only file) && negb (String.eqb videoAlias "") then
    hdr_reason
    ++ note ReasonVideo (negb (videoCodecSupported caps videoAlias))
         (videoCodecLabel videoAlias +:+ " not supported by client")
    ++ depth_reason ++ limit_reasons ++ size_reason
  else [].

Definition audio_reason : list Reason :=
  if negb (String.eqb audioAlias "") then
    let srcCh := src_channels file in
    let passthrough := PassesThroughAudio caps audioAlias in
    if negb (SupportsAudioCodec caps audioAlias) && negb passthrough then
      note ReasonAudio true (audioCodecLabel audioAlias +:+ " audio not supported by client")
    else if negb (containerCarriesAudio containerAlias audioAlias) then
      note ReasonAudio true (audioCodecLabel audioAlias +:+ " audio in "
        +:+ containerLabel containerAlias +:+ " not supported by client")
    else note ReasonAudio (negb passthrough && (0 <? cc_MaxAudioChannels caps)
                           && (cc_MaxAudioChannels caps <? srcCh))
           (ChannelLabel srcCh +:+ " audio → client max "
            +:+ ChannelLabel (cc_MaxAudioChannels caps))
  else [].

Definition container_reason : list Reason :=
  note ReasonContainer
    (negb (String.eqb containerAlias "") && negb (SupportsContainer caps containerAlias))
    (containerLabel containerAlias +:+ " container not supported by client").

Definition remux_reason : list Reason :=
  note ReasonVideo
    ((negb (Nat.eqb (length audio_reason) 0) || negb (Nat.eqb (length container_reason) 0))
     && negb (audio_only file) && negb (String.eqb videoAlias "")
     && videoCodecSupported caps videoAlias && negb (remuxable videoAlias))
    (videoCodecLabel videoAlias +:+ " can't be remuxed for streaming").

Definition DecisionReasons : list Reason :=
  if String.eqb (f_IntegrityStatus file) IntegrityDamaged
  then [mkReason ReasonFile "File is damaged"]
  else video_reasons ++ audio_reason ++ container_reason ++ remux_reason.
End reasons.

Definition ReasonTexts (rs : list Reason) : list string := map r_Text rs.

Definition DecideWithReasons (file : File) (caps : ClientCapabilities) (serverCaps : ServerCaps) :
    Verdict * list string :=
  let d := Decide file caps serverCaps in
  if bool_decide (d = DecisionDirectPlay) then (d, [])
  else (d, ReasonTexts (DecisionReasons file caps)).

(** * Lemmas *)
Lemma DVProfileKey_5 (f : File) :
  DVProfileKey f = "5" ↔ EqualFold (hdr_type f) "dolby_vision" = true.
Proof.
  unfold DVProfileKey, EqualFold, hdr_type. change (ToLower "dolby_vision") with "dolby_vision".
  destruct (String.eqb_spec (ToLower (deref (f_HDRType f))) "dolby_vision"); [done|].
  split; [|done]. destruct (f_DVProfile f); [|done]. simpl. repeat bcase; done.
Qed.

(** The conditions under which the video has to be re-encoded. *)
Definition must_reencode (file : File) (caps : ClientCapabilities) (canConvert : bool) : bool :=
  (bool_decide (PlanDolbyVision file caps canConvert = DVNone) && isHDR (hdr_type file)
   && negb (clientSupportsHDR caps (hdr_type file)))
  || bit_depth_over file caps || limit_over file caps || size_over file caps
  || negb (client_video file caps).

(** Nothing but the container and the Dolby Vision layer may need adapting. *)
Definition plays_as_is (file : File) (caps : ClientCapabilities) (canConvert : bool) : bool :=
  client_audio file caps && client_container file caps
  && negb (bool_decide (PlanDolbyVision file caps canConvert = DVToP81)).

(** [Decide] as a table over named conditions. *)
Definition decide_table (file : File) (caps : ClientCapabilities) (s : ServerCaps) : Verdict :=
  let dv5 := String.eqb (DVProfileKey file) "5" && negb (sc_DVTonemap s) in
  if String.eqb (f_IntegrityStatus file) IntegrityDamaged then DecisionDamaged
  else if dv5 && negb (SupportsDVProfile caps "5") then DecisionUnsupported
  else if must_reencode file caps (sc_DVConvert s) then
    if dv5 then DecisionUnsupported else DecisionTranscode
  else if plays_as_is file caps (sc_DVConvert s) then DecisionDirectPlay
  else if audio_only file || remuxable (video_alias file) then DecisionDirectStream
  else if dv5 then DecisionUnsupported else DecisionTranscode.

Lemma Decide_decide_table (file : File) (caps : ClientCapabilities) (s : ServerCaps) :
  Decide file caps s = decide_table file caps s.
Proof.
  unfold Decide, decide_table, decide_, must_reencode, plays_as_is.
  assert (EqualFold (hdr_type file) "dolby_vision" = String.eqb (DVProfileKey file) "5") as ->.
  { apply eq_true_iff_eq. rewrite <- DVProfileKey_5. by rewrite String.eqb_eq. }
  generalize (client_audio file caps && client_container file caps).
  generalize (bool_decide (PlanDolbyVision file caps (sc_DVConvert s) = DVToP81)).
  generalize (bool_decide (PlanDolbyVision file caps (sc_DVConvert s) = DVNone)
              && isHDR (hdr_type file) && negb (clientSupportsHDR caps (hdr_type file))).
  generalize (bit_depth_over file caps) (limit_over file caps) (size_over file caps)
    (client_video file caps) (audio_only file || remuxable (video_alias file)).
  generalize (String.eqb (f_IntegrityStatus file) IntegrityDamaged)
    (String.eqb (DVProfileKey file) "5") (sc_DVTonemap s) (SupportsDVProfile caps "5").
  intros [] [] [] []; try reflexivity; intros [] [] [] [] []; try reflexivity;
    intros [] [] []; reflexivity.
Qed.

Ltac decide_cases :=
  rewrite Decide_decide_table; unfold decide_table;
  repeat match goal with
  | |- context [if ?b then _ else _] => destruct b eqn:?; simpl
  end.

Lemma must_reencode_false (file : File) (caps : ClientCapabilities) (cv : bool) :
  must_reencode file caps cv = false ↔
  (PlanDolbyVision file caps cv = DVNone → isHDR (hdr_type file) = true →
   clientSupportsHDR caps (hdr_type file) = true) ∧
  bit_depth_over file caps = false ∧ limit_over file caps = false ∧
  size_over file caps = false ∧ client_video file caps = true.
Proof.
  unfold must_reencode. rewrite !orb_false_iff, negb_false_iff.
  set (b := bool_decide _).
  assert (b = true ↔ PlanDolbyVision file caps cv = DVNone) as Hb by apply bool_decide_eq_true.
  destruct b, (isHDR (hdr_type file)), (clientSupportsHDR caps (hdr_type file)); simpl; naive_solver.
Qed.

Lemma plays_as_is_true (file : File) (caps : ClientCapabilities) (cv : bool) :
  plays_as_is file caps cv = true ↔
  client_audio file caps = true ∧ client_container file caps = true ∧
  PlanDolbyVision file caps cv ≠ DVToP81.
Proof.
  unfold plays_as_is. rewrite !andb_true_iff, negb_true_iff, bool_decide_eq_false. tauto.
Qed.

(** * What the play decision promises: exact characterisations of its verdicts,
    their monotonicity in the client's and the server's abilities, and how the
    listed reasons relate to the verdict. *)
(** [bsplit] splits the boolean conditions of [decide_table] in order. *)
Ltac bsplit :=
  repeat match goal with
  | |- context [if ?b then _ else _] => destruct b eqn:?; cbn [andb orb negb]
  end.

(** ** Verdicts *)

Lemma dv5_not_displayed (file : File) (caps : ClientCapabilities) (cv : bool) :
  DVProfileKey file = "5" → SupportsDVProfile caps "5" = false →
  must_reencode file caps cv = true.
Proof.
  intros Hk Hs. apply not_false_iff_true. intros [Hhdr _]%must_reencode_false.
  assert (ToLower (hdr_type file) = "dolby_vision") as Hl.
  { apply DVProfileKey_5, EqualFold_spec in Hk. exact Hk. }
  assert (PlanDolbyVision file caps cv = DVNone) as Hp.
  { unfold PlanDolbyVision. rewrite Hk, Hs. done. }
  assert (isHDR (hdr_type file) = true) as Hi by (unfold isHDR; by rewrite Hl).
  specialize (Hhdr Hp Hi). revert Hhdr. unfold clientSupportsHDR. rewrite Hl. simpl.
  by rewrite Hs.
Qed.

(** C1: Direct play, exactly: [Decide] answers DirectPlay if and only if the
    file is not damaged, its HDR (if any) is shown by the client itself or
    through its Dolby Vision profile, its bit depth, profile, level and size are
    within the client's limits, the client decodes its video (or it has none),
    plays its audio out of its container, reads the container, and no Dolby
    Vision conversion is planned. *)
Theorem decide_direct_play_iff (file : File) (caps : ClientCapabilities) (s : ServerCaps) :
  Decide file caps s = DecisionDirectPlay ↔
  f_IntegrityStatus file ≠ IntegrityDamaged ∧
  (PlanDolbyVision file caps (sc_DVConvert s) = DVNone → isHDR (hdr_type file) = true →
   clientSupportsHDR caps (hdr_type file) = true) ∧
  bit_depth_over file caps = false ∧ limit_over file caps = false ∧
  size_over file caps = false ∧ client_video file caps = true ∧
  client_audio file caps = true ∧ client_container file caps = true ∧
  PlanDolbyVision file caps (sc_DVConvert s) ≠ DVToP81.
Proof.
  rewrite Decide_decide_table. unfold decide_table.
  pose proof (must_reencode_false file caps (sc_DVConvert s)) as Hm.
  pose proof (plays_as_is_true file caps (sc_DVConvert s)) as Hp.
  destruct (String.eqb (f_IntegrityStatus file) IntegrityDamaged) eqn:Hd.
  { apply String.eqb_eq in Hd. split; [done|]. tauto. }
  apply String.eqb_neq in Hd.
  destruct (String.eqb (DVProfileKey file) "5" && _ && negb (SupportsDVProfile caps "5")) eqn:E.
  { split; [done|]. intros (_ & H). rewrite !andb_true_iff, negb_true_iff in E.
    destruct E as [[Hk%String.eqb_eq _] Hs%negb_true_iff].
    pose proof (dv5_not_displayed file caps (sc_DVConvert s) Hk Hs). naive_solver congruence. }
  destruct (must_reencode file caps (sc_DVConvert s)).
  { split; [by bsplit|]. intros. exfalso. naive_solver. }
  destruct (plays_as_is file caps (sc_DVConvert s)).
  { split; [|done]. naive_solver. }
  split; [by bsplit|]. intros. exfalso. naive_solver.
Qed.

(** A stream copy is always decodable: DirectStream is answered only when
    no re-encode is needed and the video is one the HLS remux carries (or there
    is no video at all); and conversely an undamaged file that needs no
    re-encode, is not playable as it is and is carriable gets DirectStream,
    unless it is profile 5 Dolby Vision the client cannot show. *)
Lemma decide_direct_stream_iff (file : File) (caps : ClientCapabilities) (s : ServerCaps) :
  Decide file caps s = DecisionDirectStream ↔
  f_IntegrityStatus file ≠ IntegrityDamaged ∧
  must_reencode file caps (sc_DVConvert s) = false ∧
  plays_as_is file caps (sc_DVConvert s) = false ∧
  (audio_only file = true ∨ remuxable (video_alias file) = true).
Proof.
  rewrite Decide_decide_table. unfold decide_table. rewrite <- orb_true_iff.
  destruct (String.eqb (f_IntegrityStatus file) IntegrityDamaged) eqn:Hd.
  { apply String.eqb_eq in Hd. split; [done|]. tauto. }
  apply String.eqb_neq in Hd.
  destruct (String.eqb (DVProfileKey file) "5" && _ && negb (SupportsDVProfile caps "5")) eqn:E.
  { split; [done|]. rewrite !andb_true_iff, negb_true_iff in E.
    destruct E as [[Hk%String.eqb_eq _] Hs%negb_true_iff].
    pose proof (dv5_not_displayed file caps (sc_DVConvert s) Hk Hs). naive_solver congruence. }
  destruct (must_reencode file caps (sc_DVConvert s)); [by bsplit; naive_solver|].
  destruct (plays_as_is file caps (sc_DVConvert s)); [naive_solver|].
  destruct (audio_only file || remuxable (video_alias file)); [naive_solver|].
  by bsplit; naive_solver.
Qed.

(** "Unsupported", exactly: an undamaged Dolby Vision profile 5 file on a
    server that cannot tone-map it, for a client that does not decode profile 5
    or would need a re-encode.  In particular no other file is ever refused, and
    a profile 5 file is never handed to an encoder that would mangle it. *)
Lemma decide_unsupported_iff (file : File) (caps : ClientCapabilities) (s : ServerCaps) :
  Decide file caps s = DecisionUnsupported ↔
  f_IntegrityStatus file ≠ IntegrityDamaged ∧ DVProfileKey file = "5" ∧
  sc_DVTonemap s = false ∧
  (SupportsDVProfile caps "5" = false ∨ must_reencode file caps (sc_DVConvert s) = true ∨
   (plays_as_is file caps (sc_DVConvert s) = false ∧ audio_only file = false ∧
    remuxable (video_alias file) = false)).
Proof.
  rewrite Decide_decide_table. unfold decide_table. rewrite <- orb_false_iff.
  rewrite <- String.eqb_neq, <- (String.eqb_eq (DVProfileKey file)).
  destruct (String.eqb (f_IntegrityStatus file) IntegrityDamaged); [naive_solver|].
  destruct (String.eqb (DVProfileKey file) "5"), (sc_DVTonemap s),
    (SupportsDVProfile caps "5"), (must_reencode file caps (sc_DVConvert s)),
    (plays_as_is file caps (sc_DVConvert s)), (audio_only file || remuxable (video_alias file));
    simpl; naive_solver.
Qed.

(** A stacked movie is never direct-played: [ForStack] turns DirectPlay into
    a remux exactly when the HLS remux can carry the video (or there is only
    audio), else into a transcode, and leaves every other verdict alone. *)
Lemma for_stack_spec (d : Verdict) (file : File) :
  ForStack d file ≠ DecisionDirectPlay ∧
  (d ≠ DecisionDirectPlay → ForStack d file = d) ∧
  (d = DecisionDirectPlay →
   (ForStack d file = DecisionDirectStream ↔
    remuxable (video_alias file) = true ∨
    (video_alias file = "" ∧ deref (f_AudioCodec file) ≠ "")) ∧
   (ForStack d file = DecisionDirectStream ∨ ForStack d file = DecisionTranscode)).
Proof.
  unfold ForStack. destruct (decide (d = DecisionDirectPlay)) as [->|Hd].
  - rewrite (bool_decide_eq_true_2 (DecisionDirectPlay = DecisionDirectPlay)) by done.
    cbn [negb]. rewrite <- (String.eqb_eq (video_alias file)), <- String.eqb_neq.
    destruct (String.eqb (video_alias file) ""), (String.eqb (deref (f_AudioCodec file)) ""),
      (remuxable (video_alias file)); cbn [andb orb negb]; naive_solver.
  - rewrite (bool_decide_eq_false_2 _ Hd). cbn [negb]. naive_solver.
Qed.

(** ** Monotonicity *)

(** 0 is "no limit declared". *)
Definition ceiling_le (a b : Z) : Prop := b <= 0 ∨ (0 < a ∧ a <= b).

Definition verdict_rank (d : Verdict) : Z :=
  match d with
  | DecisionDirectPlay => 0 | DecisionDirectStream => 1 | DecisionTranscode => 2
  | DecisionUnsupported => 3 | DecisionDamaged => 4
  end.

(** [b] can do everything [a] can; Dolby Vision lists, HLG answer and declared
    profile/level limits are the same. *)
Record caps_le (a b : ClientCapabilities) : Prop := {
  le_video : cc_VideoCodecs a ⊆ cc_VideoCodecs b;
  le_audio : cc_AudioCodecs a ⊆ cc_AudioCodecs b;
  le_pass : cc_AudioPassthrough a ⊆ cc_AudioPassthrough b;
  le_cont : cc_Containers a = cc_Containers b ∨
            (cc_Containers a ≠ [] ∧ cc_Containers a ⊆ cc_Containers b);
  le_width : ceiling_le (cc_MaxWidth a) (cc_MaxWidth b);
  le_height : ceiling_le (cc_MaxHeight a) (cc_MaxHeight b);
  le_channels : ceiling_le (cc_MaxAudioChannels a) (cc_MaxAudioChannels b);
  le_depth : cc_MaxVideoBitDepth a <= cc_MaxVideoBitDepth b;
  le_vp9 : ceiling_le (cc_MaxVP9BitDepth a) (cc_MaxVP9BitDepth b);
  le_hdr : cc_SupportsHDR a = true → cc_SupportsHDR b = true;
  le_hlg : cc_SupportsHLG a = cc_SupportsHLG b;
  le_dv : cc_DVProfiles a = cc_DVProfiles b;
  le_limits : cc_VideoLimits a = cc_VideoLimits b
}.

Lemma existsb_subseteq {A} (p : A → bool) (l k : list A) :
  l ⊆ k → existsb p l = true → existsb p k = true.
Proof. rewrite !existsb_exists_elem. naive_solver. Qed.

Section monotone.
Context (file : File) (a b : ClientCapabilities) (Hle : caps_le a b).

Lemma dv_same key : SupportsDVProfile b key = SupportsDVProfile a key.
Proof. unfold SupportsDVProfile. by rewrite (le_dv _ _ Hle). Qed.

Lemma plan_same cv : PlanDolbyVision file b cv = PlanDolbyVision file a cv.
Proof. unfold PlanDolbyVision. by rewrite !dv_same. Qed.

Lemma video_mono : client_video file a = true → client_video file b = true.
Proof.
  unfold client_video. rewrite !orb_true_iff. intros [?|H]; [by left|right].
  revert H. apply existsb_subseteq, Hle.
Qed.

Lemma audio_mono : client_audio file a = true → client_audio file b = true.
Proof.
  unfold client_audio, audio_playable, channels_fit.
  rewrite !orb_true_iff, !andb_true_iff, !orb_true_iff, !andb_true_iff, !orb_true_iff, !Z.leb_le.
  intros [?|[H Hc]]; [by left|right]. split; [|done].
  destruct H as [[Hs Hf]|Hp].
  - left. split; [revert Hs; apply existsb_subseteq, Hle|].
    destruct (le_channels _ _ Hle); lia.
  - right. unfold PassesThroughAudio in *. rewrite mem_spec in *. by apply Hle.
Qed.

Lemma container_mono : client_container file a = true → client_container file b = true.
Proof.
  unfold client_container, SupportsContainer.
  destruct (le_cont _ _ Hle) as [->|[Hne Hsub]]; [done|].
  destruct (existsb _ (cc_Containers a)) eqn:E.
  - by rewrite (existsb_subseteq _ _ _ Hsub E).
  - by destruct (cc_Containers a).
Qed.

Lemma hdr_mono : clientSupportsHDR a (hdr_type file) = true →
  clientSupportsHDR b (hdr_type file) = true.
Proof.
  unfold clientSupportsHDR. simpl. rewrite dv_same, <- (le_hlg _ _ Hle).
  pose proof (le_hdr _ _ Hle). repeat bcase; try done.
  destruct (cc_SupportsHLG a); auto.
Qed.

Lemma depth_mono : bit_depth_over file a = false → bit_depth_over file b = false.
Proof.
  unfold bit_depth_over. bcase; [|done]. simpl.
  pose proof (le_depth _ _ Hle). pose proof (le_vp9 _ _ Hle) as Hv. unfold ceiling_le in Hv.
  repeat bcase; try done; breflect; lia.
Qed.

Lemma limit_same : limit_over file b = limit_over file a.
Proof.
  unfold limit_over, videoLimitExceeded, VideoLimitFor. by rewrite (le_limits _ _ Hle).
Qed.

Lemma size_mono : size_over file a = false → size_over file b = false.
Proof.
  unfold size_over. pose proof (le_width _ _ Hle) as Hw. pose proof (le_height _ _ Hle) as Hh.
  unfold ceiling_le in Hw, Hh. breflect. lia.
Qed.

Lemma must_reencode_mono cv :
  must_reencode file a cv = false → must_reencode file b cv = false.
Proof.
  rewrite !must_reencode_false, plan_same, limit_same. intros (? & ? & ? & ? & ?).
  split_and!; auto using hdr_mono, depth_mono, size_mono, video_mono.
Qed.

Lemma plays_mono cv : plays_as_is file a cv = true → plays_as_is file b cv = true.
Proof.
  rewrite !plays_as_is_true, plan_same. intros (? & ? & ?).
  auto using audio_mono, container_mono.
Qed.
End monotone.

(** A more capable client never gets a worse verdict: for every file and
    server, if [b] decodes, carries, shows and accepts at least what [a] does,
    then [Decide]'s verdict for [b] is at least as good (direct play before
    stream copy before transcode before refusal). *)
Lemma decide_client_monotone (file : File) (a b : ClientCapabilities) (s : ServerCaps) :
  caps_le a b →
  verdict_rank (Decide file b s) <= verdict_rank (Decide file a s).
Proof.
  intros Hle. rewrite !Decide_decide_table. unfold decide_table.
  rewrite (dv_same a b Hle).
  pose proof (must_reencode_mono file a b Hle (sc_DVConvert s)) as Hm.
  pose proof (plays_mono file a b Hle (sc_DVConvert s)) as Hp.
  destruct (must_reencode file a _), (must_reencode file b _), (plays_as_is file a _),
    (plays_as_is file b _); try (specialize (Hm eq_refl)); try (specialize (Hp eq_refl));
    try discriminate; bsplit; simpl; lia.
Qed.

(** Server abilities only help: turning Dolby Vision conversion or
    tone-mapping on never makes a playable file refused, and the verdict of a
    file without a profile 5 layer does not depend on tone-mapping at all. *)
Lemma decide_server_monotone (file : File) (caps : ClientCapabilities) (s t : ServerCaps) :
  (sc_DVConvert s = true → sc_DVConvert t = true) →
  (sc_DVTonemap s = true → sc_DVTonemap t = true) →
  (Decide file caps t = DecisionUnsupported → Decide file caps s = DecisionUnsupported) ∧
  (DVProfileKey file ≠ "5" → sc_DVConvert s = sc_DVConvert t →
   Decide file caps s = Decide file caps t).
Proof.
  intros Hc Ht. split.
  - rewrite !decide_unsupported_iff. intros (Hd & Hk & Htm & H).
    assert (∀ cv, PlanDolbyVision file caps cv = PlanDolbyVision file caps (sc_DVConvert t)) as Hpl.
    { intros cv. unfold PlanDolbyVision. by rewrite Hk. }
    unfold must_reencode, plays_as_is in *. rewrite Hpl.
    split_and!; [done|done| |done]. destruct (sc_DVTonemap s); [|done]. by rewrite Ht in Htm.
  - intros Hk Hcv. rewrite !Decide_decide_table. unfold decide_table.
    apply String.eqb_neq in Hk. rewrite Hk, Hcv. done.
Qed.

(** ** Reasons *)

Lemma audio_reason_iff (file : File) (caps : ClientCapabilities) :
  audio_reason file caps = [] ↔ client_audio file caps = true.
Proof.
  unfold audio_reason, client_audio, audio_playable, channels_fit.
  destruct (String.eqb (audio_alias file) ""); cbn [negb orb]; [done|].
  destruct (PassesThroughAudio caps _), (SupportsAudioCodec caps _),
    (containerCarriesAudio _ _); cbn [negb andb orb];
    rewrite ?orb_true_r, ?andb_false_r; try done.
  rewrite andb_true_r, orb_false_r, !orb_true_iff, !Z.leb_le.
  destruct (Z.ltb_spec 0 (cc_MaxAudioChannels caps)), (Z.ltb_spec (cc_MaxAudioChannels caps)
    (src_channels file)); simpl; split; intros; try done; lia.
Qed.

Lemma container_reason_iff (file : File) (caps : ClientCapabilities) :
  container_alias file ≠ "" →
  container_reason file caps = [] ↔ client_container file caps = true.
Proof.
  intros Hc. unfold container_reason, client_container.
  apply String.eqb_neq in Hc. rewrite Hc. by destruct (SupportsContainer _ _).
Qed.

Lemma note_nil (k : ReasonKind) (b : bool) (t : string) :
  (if b then [mkReason k t] else []) = [] ↔ b = false.
Proof. by destruct b. Qed.

Lemma depth_reason_iff (file : File) (caps : ClientCapabilities) :
  depth_reason file caps = [] ↔ bit_depth_over file caps = false.
Proof. unfold depth_reason, bit_depth_over. simpl. repeat bcase; done. Qed.

Lemma limit_reasons_iff (file : File) (caps : ClientCapabilities) :
  audio_only file = false →
  limit_reasons file caps = [] ↔ limit_over file caps = false.
Proof.
  unfold limit_reasons, limit_over. intros ->. simpl.
  by destruct (videoLimitExceeded file caps) as [[] []].
Qed.

Lemma hdr_reason_iff (file : File) (caps : ClientCapabilities) :
  hdr_reason file caps = [] ↔
  (isHDR (hdr_type file) = true → clientSupportsHDR caps (hdr_type file) = true).
Proof.
  unfold hdr_reason.
  destruct (EqualFold (hdr_type file) "dolby_vision" && _) eqn:E; cycle 1.
  { by destruct (isHDR _), (clientSupportsHDR _ _); naive_solver. }
  rewrite andb_true_iff, negb_true_iff, EqualFold_spec in E. destruct E as [Hl Hs].
  change (ToLower "dolby_vision") with "dolby_vision" in Hl.
  split; [done|]. unfold isHDR, clientSupportsHDR. rewrite Hl. simpl. rewrite Hs. naive_solver.
Qed.

Lemma video_reasons_iff (file : File) (caps : ClientCapabilities) :
  video_alias file ≠ "" →
  video_reasons file caps = [] ↔
  (isHDR (hdr_type file) = true → clientSupportsHDR caps (hdr_type file) = true) ∧
  videoCodecSupported caps (video_alias file) = true ∧ bit_depth_over file caps = false ∧
  limit_over file caps = false ∧ size_over file caps = false.
Proof.
  intros Hv. apply String.eqb_neq in Hv.
  assert (audio_only file = false) as Hao by (unfold audio_only; by rewrite Hv).
  unfold video_reasons. rewrite Hao, Hv. simpl.
  rewrite !app_nil, hdr_reason_iff, depth_reason_iff, (limit_reasons_iff _ _ Hao).
  unfold size_reason. rewrite !note_nil, negb_false_iff. tauto.
Qed.

(** No spurious reasons without Dolby Vision: a file that direct-plays and
    has no Dolby Vision delivery planned is listed with no reason at all. *)
Lemma reasons_direct_play (file : File) (caps : ClientCapabilities) (s : ServerCaps) :
  Decide file caps s = DecisionDirectPlay →
  PlanDolbyVision file caps (sc_DVConvert s) = DVNone →
  DecisionReasons file caps = [].
Proof.
  rewrite decide_direct_play_iff. intros (Hd & Hh & Hb & Hl & Hs & Hv & Ha & Hc & _) Hp.
  unfold DecisionReasons. apply String.eqb_neq in Hd. rewrite Hd.
  assert (audio_reason file caps = []) as Hra by by apply audio_reason_iff.
  assert (container_reason file caps = []) as Hrc.
  { unfold container_reason. unfold client_container in Hc. rewrite Hc. by rewrite andb_false_r. }
  assert (remux_reason file caps = []) as Hrr by (unfold remux_reason; by rewrite Hra, Hrc).
  rewrite Hra, Hrc, Hrr, !app_nil_r.
  destruct (decide (video_alias file = "")) as [He|Hne].
  - unfold video_reasons. rewrite He. simpl. by rewrite andb_false_r.
  - apply video_reasons_iff; [done|]. split_and!; auto.
    unfold client_video, audio_only in Hv. apply String.eqb_neq in Hne. rewrite Hne in Hv.
    simpl in Hv. unfold videoCodecSupported. by rewrite Hv.
Qed.

(** Every verdict that costs something is explained: for a probed file
    (video codec and container known) and a client whose HEVC/AV1 flags say no
    more than its codec list, a DirectStream or Transcode verdict lists at least
    one reason, unless the only thing to adapt is a profile 7 layer. *)
Lemma reasons_explain (file : File) (caps : ClientCapabilities) (s : ServerCaps) :
  Decide file caps s = DecisionDirectStream ∨ Decide file caps s = DecisionTranscode →
  video_alias file ≠ "" → container_alias file ≠ "" →
  videoCodecSupported caps (video_alias file) = SupportsVideoCodec caps (video_alias file) →
  PlanDolbyVision file caps (sc_DVConvert s) ≠ DVToP81 →
  DecisionReasons file caps ≠ [].
Proof.
  intros Hdec Hv Hc Hflags Hp. unfold DecisionReasons.
  destruct (String.eqb _ IntegrityDamaged) eqn:Hd; [done|].
  rewrite !app_nil. intros (Hvr & Har & Hcr & _).
  apply video_reasons_iff in Hvr as (Hh & Hcodec & Hb & Hl & Hs); [|done].
  apply audio_reason_iff in Har. apply container_reason_iff in Hcr; [|done].
  assert (Decide file caps s = DecisionDirectPlay) as Heq; [|naive_solver congruence].
  apply decide_direct_play_iff. apply String.eqb_neq in Hd. split_and!; auto.
  unfold client_video. by rewrite <- Hflags, Hcodec, orb_true_r.
Qed.

(** ** Concrete inputs *)
Definition ex_file : File :=
  mkFile (Some "matroska") (Some "hevc") (Some "eac3") (Some 3840) (Some 2160)
    None None None (Some [mkStream "eac3" 6]) (Some 10) (Some "Main 10") (Some 153)
    "ok".
Definition ex_dv81 : File := ex_file <| f_HDRType := Some "hdr10" |> <| f_DVProfile := Some 8 |>.
Definition ex_web : ClientCapabilities := ParseCapabilities "".
Definition ex_tv : ClientCapabilities := ParseCapabilities
  "videoDecoder=h264:h265:av1,audioDecoder=aac:ac3:eac3,protocols=mkv:mp4,maxWidth=3840,maxHeight=2160,maxBitDepth=10,hdr=1".
Definition ex_dv_only : ClientCapabilities := ParseCapabilities
  "videoDecoder=h265,audioDecoder=eac3,protocols=mkv,maxWidth=3840,maxHeight=2160,maxBitDepth=10,dovi=8.1".
Definition ex_server : ServerCaps := mkServerCaps 0 0 0 false false.

Example ex_verdicts :
  Decide ex_file ex_tv ex_server = DecisionDirectPlay ∧
  Decide ex_file ex_web ex_server = DecisionTranscode ∧
  Decide (ex_file <| f_Container := Some "avi" |>) ex_tv ex_server = DecisionDirectStream ∧
  Decide (ex_file <| f_HDRType := Some "dolby_vision" |>) ex_tv ex_server = DecisionUnsupported.
Proof. by vm_compute. Qed.

(** A direct-played Dolby Vision 8.1 file whose client shows no plain HDR10 is
    listed as tone-mapped although nothing is: [DecisionReasons] is not empty
    when the file direct-plays. *)
Lemma reasons_direct_play_dv :
  Decide ex_dv81 ex_dv_only ex_server = DecisionDirectPlay ∧
  ReasonTexts (DecisionReasons ex_dv81 ex_dv_only)
    = ["HDR10 not supported by client (tonemapped to SDR)"].
Proof. by vm_compute. Qed.

(** The same text accompanies a stream copy, which is shown to the admin. *)
Lemma reasons_direct_stream_dv :
  DecideWithReasons (ex_dv81 <| f_Container := Some "avi" |>) ex_dv_only ex_server
  = (DecisionDirectStream,
     ["HDR10 not supported by client (tonemapped to SDR)";
      "AVI container not supported by client"]).
Proof. by vm_compute. Qed.

Lemma reasons_direct_play_witness : DecisionReasons ex_file ex_tv = [].
Proof. apply (reasons_direct_play ex_file ex_tv ex_server); by vm_compute. Defined.

Lemma reasons_explain_witness : DecisionReasons ex_file ex_web ≠ [].
Proof.
  apply (reasons_explain ex_file ex_web ex_server); try (by vm_compute). by right; vm_compute.
Defined.

(** Two clients, the second decoding more, at a higher resolution. *)
Definition ex_hd : ClientCapabilities :=
  mkCaps ["h264"] ["aac"; "eac3"] ["mkv"] 1920 1080 2 8 0 false None false [] false false false [] ∅.
Definition ex_uhd : ClientCapabilities :=
  mkCaps ["h264"; "h265"] ["aac"; "eac3"] ["mkv"; "mp4"] 3840 2160 6 10 0 true None false []
    true false false ["truehd"] ∅.

Lemma ex_hd_le_uhd : caps_le ex_hd ex_uhd.
Proof.
  split; simpl; unfold ceiling_le; try lia; try done; try (by left); set_solver.
Qed.

Lemma decide_client_monotone_witness :
  caps_le ex_hd ex_uhd ∧
  verdict_rank (Decide ex_file ex_uhd ex_server) <= verdict_rank (Decide ex_file ex_hd ex_server).
Proof. split; [apply ex_hd_le_uhd|apply decide_client_monotone, ex_hd_le_uhd]. Defined.

Lemma decide_server_monotone_witness :
  Decide ex_file ex_tv ex_server = Decide ex_file ex_tv (mkServerCaps 0 0 0 false true).
Proof.
  apply (decide_server_monotone ex_file ex_tv ex_server (mkServerCaps 0 0 0 false true));
    by vm_compute.
Defined.
