(* ===== verification/Quality.v ===== *)
(** Output quality ([internal/transcode/quality.go]) and the adaptive bitrate
    ladder with its master playlist ([abr.go]). *)
From S2P Require Import Prelude.
From S2P Require Import GoStrings.
From S2P Require Import GoFloat.
From S2P Require Import Media.
From S2P Require Import PlayDecision.

Local Open Scope Z_scope.

(** * Quality profiles *)
Record QualityProfile := mkQuality {
  q_Name : string; q_Bitrate : Z; q_MaxWidth : Z; q_MaxHeight : Z
}.

Definition Profiles : list QualityProfile :=
  [mkQuality "40 Mbps 4K" 40000 3840 2160;
   mkQuality "8 Mbps 1080p" 8000 1920 1080;
   mkQuality "4 Mbps 720p" 4000 1280 720;
   mkQuality "2 Mbps 720p" 2000 1280 720;
   mkQuality "1 Mbps 480p" 1000 854 480].

Definition smallest_profile : QualityProfile := mkQuality "1 Mbps 480p" 1000 854 480.

(** [int(float64(b) * ratio)] *)
Definition ScaleBitrateForHEVC (h264Bitrate : Z) : Z :=
  int_of_f64 (f64_mul (f64_of_Z h264Bitrate) f64_0_6).
Definition ScaleBitrateForAV1 (h264Bitrate : Z) : Z :=
  int_of_f64 (f64_mul (f64_of_Z h264Bitrate) f64_0_5).

Definition ProfileForBitrate (kbps : Z) : QualityProfile :=
  default (default smallest_profile (last Profiles))
    (find_first (λ p, q_Bitrate p <=? kbps) Profiles).

Definition SelectQuality (clientBitrateKbps clientMaxWidth clientMaxHeight sourceW sourceH : Z)
    (serverCaps : ServerCaps) : QualityProfile :=
  let effectiveBitrate :=
    if sc_MaxBitrateKbps serverCaps <=? 0 then 40000 else sc_MaxBitrateKbps serverCaps in
  let effectiveW := if sc_MaxWidth serverCaps <=? 0 then 3840 else sc_MaxWidth serverCaps in
  let effectiveH := if sc_MaxHeight serverCaps <=? 0 then 2160 else sc_MaxHeight serverCaps in
  let effectiveBitrate :=
    if (0 <? clientBitrateKbps) && (clientBitrateKbps <? effectiveBitrate)
    then clientBitrateKbps else effectiveBitrate in
  let effectiveW :=
    if (0 <? clientMaxWidth) && (clientMaxWidth <? effectiveW) then clientMaxWidth
    else effectiveW in
  let effectiveH :=
    if (0 <? clientMaxHeight) && (clientMaxHeight <? effectiveH) then clientMaxHeight
    else effectiveH in
  let effectiveW := if (0 <? sourceW) && (sourceW <? effectiveW) then sourceW else effectiveW in
  let effectiveH := if (0 <? sourceH) && (sourceH <? effectiveH) then sourceH else effectiveH in
  let effectiveBitrate :=
    if clientBitrateKbps <=? 0 then
      let bitrateH :=
        if (0 <? clientMaxHeight) && (effectiveH <? clientMaxHeight) then clientMaxHeight
        else effectiveH in
      match find_first (λ p, (q_MaxHeight p <=? bitrateH) && (q_Bitrate p <=? effectiveBitrate))
              Profiles with
      | Some p => q_Bitrate p
      | None => effectiveBitrate
      end
    else effectiveBitrate in
  let effectiveW := effectiveW - Z.rem effectiveW 2 in
  let effectiveH := effectiveH - Z.rem effectiveH 2 in
  mkQuality "custom" effectiveBitrate effectiveW effectiveH.

(** * The adaptive bitrate ladder *)
Record Rendition := mkRendition {
  rd_Label : string; rd_Height : Z; rd_Width : Z; rd_BitrateKbps : Z
}.

(** (Height, BitrateKbps), highest first. *)
Definition ladderTiers : list (Z * Z) :=
  [(2160, 40000); (1440, 16000); (1080, 8000); (720, 4000); (480, 1500); (360, 800)].

Definition audioAllowanceKbps : Z := 160.
Definition LadderH264 : string := "h264".
Definition LadderHEVC : string := "hevc".
Definition LadderAV1 : string := "av1".

Definition scaleBitrateForCodec (h264Bitrate : Z) (codec : string) : Z :=
  switch codec
    [([LadderHEVC], ScaleBitrateForHEVC h264Bitrate);
     ([LadderAV1], ScaleBitrateForAV1 h264Bitrate)] h264Bitrate.

Definition renditionAt (height refBitrateKbps : Z) (aspect : float64) (codec : string)
    (sourceBitrateKbps maxBitrateKbps : Z) : Rendition :=
  let br := scaleBitrateForCodec refBitrateKbps codec in
  let br := if (0 <? sourceBitrateKbps) && (sourceBitrateKbps <? br) then sourceBitrateKbps
            else br in
  let br := if (0 <? maxBitrateKbps) && (maxBitrateKbps <? br) then maxBitrateKbps else br in
  let w := round_of_f64 (f64_mul (f64_of_Z height) aspect) in
  let w := if negb (Z.rem w 2 =? 0) then w + 1 else w in
  mkRendition (Itoa height +:+ "p") height w br.

(** [seen] holds the bitrates already taken. *)
Fixpoint dedupe_loop (seen : list Z) (rs : list Rendition) : list Rendition :=
  match rs with
  | [] => []
  | r :: rs' =>
      if mem (rd_BitrateKbps r) seen then dedupe_loop seen rs'
      else r :: dedupe_loop (rd_BitrateKbps r :: seen) rs'
  end.
Definition dedupeByBitrate (rs : list Rendition) : list Rendition :=
  if Nat.ltb (length rs) 2 then rs else dedupe_loop [] rs.

Definition ladder_aspect (sourceW sourceH : Z) : float64 :=
  if (0 <? sourceW) && (0 <? sourceH) then f64_div (f64_of_Z sourceW) (f64_of_Z sourceH)
  else f64_div (f64_of_Z 16) (f64_of_Z 9).

Definition tier_kept (sourceH maxHeightCap : Z) (t : Z * Z) : bool :=
  (fst t <=? sourceH) && negb ((0 <? maxHeightCap) && (maxHeightCap <? fst t)).

Definition BuildLadder (sourceW sourceH sourceBitrateKbps : Z) (codec : string)
    (maxHeightCap maxBitrateKbps : Z) : list Rendition :=
  let sourceH := if sourceH <=? 0 then 1080 else sourceH in
  let aspect := ladder_aspect sourceW sourceH in
  let at_ (height br : Z) := renditionAt height br aspect codec sourceBitrateKbps maxBitrateKbps in
  let out := map (λ t, at_ (fst t) (snd t))
               (List.filter (tier_kept sourceH maxHeightCap) ladderTiers) in
  let out := match out with
             | [] => [at_ sourceH (snd (default (0, 0) (last ladderTiers)))]
             | _ => out
             end in
  dedupeByBitrate out.

(** * The master playlist *)
Definition AudioCodecString (codec : string) : string :=
  switch (CanonicalAudioCodec codec)
    [(["ac3"], "ac-3"); (["eac3"], "ec-3"); (["truehd"], "mlpa"); (["dts"], "mp4a.a9")]
    "mp4a.40.2".

Definition PassthroughAudioKbps (codec : string) : Z :=
  switch (CanonicalAudioCodec codec)
    [(["ac3"], 640); (["eac3"], 1024); (["truehd"], 6000); (["dts"], 4000)] 0.

Definition hevcCodecLevel (maxHeight : Z) : Z :=
  if 2160 <? maxHeight then 60 else if 1080 <? maxHeight then 51 else 41.
Definition av1CodecLevel (maxHeight : Z) : Z :=
  if 2160 <? maxHeight then 60 else if 1080 <? maxHeight then 51 else 40.

Definition av1SeqLevelIdx (tenths : Z) : Z :=
  let idx := (Z.quot tenths 10 - 2) * 4 + Z.rem tenths 10 in
  Z.max 0 (Z.min idx 23).

Definition MasterCodecs (ladderCodec : string) (maxHeight levelCap : Z) (audio : string) : string :=
  let audioStr := AudioCodecString audio in
  let cap (level : Z) := if (0 <? levelCap) && (levelCap <? level) then levelCap else level in
  switch ladderCodec
    [([LadderHEVC], "hvc1.1.6.L" +:+ Itoa (cap (hevcCodecLevel maxHeight) * 3) +:+ ".B0,"
                    +:+ audioStr);
     ([LadderAV1], "av01.0." +:+ pad2 (av1SeqLevelIdx (cap (av1CodecLevel maxHeight)))
                   +:+ "M.08," +:+ audioStr)] "".

Definition HEVCMasterCodecs (maxHeight : Z) : string := MasterCodecs LadderHEVC maxHeight 0 "".
Definition AV1MasterCodecs (maxHeight : Z) : string := MasterCodecs LadderAV1 maxHeight 0 "".

Definition variant_bandwidth (audioKbps : Z) (r : Rendition) : Z :=
  (rd_BitrateKbps r + audioKbps) * 1000.

Definition variant_entry (codecs : string) (audioKbps : Z) (variantPath : Rendition → string)
    (r : Rendition) : string :=
  "#EXT-X-STREAM-INF:BANDWIDTH=" +:+ Itoa (variant_bandwidth audioKbps r) +:+ ",RESOLUTION="
  +:+ Itoa (rd_Width r) +:+ "x" +:+ Itoa (rd_Height r)
  +:+ (if negb (String.eqb codecs "") then ",CODECS=" +:+ quoted codecs else "")
  +:+ newline +:+ variantPath r +:+ newline.

Definition BuildMasterPlaylistAudio (rends : list Rendition) (codecs : string) (audioKbps : Z)
    (variantPath : Rendition → string) : string :=
  let audioKbps := if audioKbps <=? 0 then audioAllowanceKbps else audioKbps in
  "#EXTM3U" +:+ newline +:+ "#EXT-X-VERSION:6" +:+ newline
  +:+ fold_right (λ r acc, variant_entry codecs audioKbps variantPath r +:+ acc) "" rends.

Definition BuildMasterPlaylist (rends : list Rendition) (codecs : string)
    (variantPath : Rendition → string) : string :=
  BuildMasterPlaylistAudio rends codecs 0 variantPath.

(** * What quality selection and the adaptive bitrate ladder promise. *)
(** ** SelectQuality *)

Lemma even_rem (n : Z) : 0 <= n → Z.even (n - Z.rem n 2) = true ∧ n - 1 <= n - Z.rem n 2 <= n.
Proof.
  intros H. rewrite Z.rem_mod_nonneg by lia.
  pose proof (Z.mod_pos_bound n 2 ltac:(lia)). split; [|lia].
  rewrite Z.even_sub, (Zmod_even n). by destruct (Z.even n).
Qed.

(** [within limit v]: [v] respects a limit that may be absent (0). *)
Definition within (limit v : Z) : Prop := 0 < limit → v <= limit.

Lemma cap_step (limit v : Z) :
  let r := if (0 <? limit) && (limit <? v) then limit else v in
  (0 < v → 0 < r) ∧ r <= v ∧ within limit r ∧ (r = v ∨ r = limit).
Proof. unfold within. simpl. bcase; breflect; lia. Qed.

Lemma cap_mono (limit v v' : Z) :
  v <= v' →
  (if (0 <? limit) && (limit <? v) then limit else v)
  <= (if (0 <? limit) && (limit <? v') then limit else v').
Proof. intros. repeat bcase; breflect; lia. Qed.

(** The selected quality never exceeds what anyone allows: width and height
    are even, at most the server's cap, the client's maximum and the source's
    size (each where declared), and at most one pixel below the tightest of
    them; the bitrate is positive and at most the server's and the client's. *)
Lemma select_quality_bounds (cb cw ch sw sh : Z) (s : ServerCaps) :
  let q := SelectQuality cb cw ch sw sh s in
  Z.even (q_MaxWidth q) = true ∧ Z.even (q_MaxHeight q) = true ∧
  0 <= q_MaxWidth q ∧ 0 <= q_MaxHeight q ∧
  within (sc_MaxWidth s) (q_MaxWidth q) ∧ within cw (q_MaxWidth q) ∧ within sw (q_MaxWidth q) ∧
  within (sc_MaxHeight s) (q_MaxHeight q) ∧ within ch (q_MaxHeight q) ∧
  within sh (q_MaxHeight q) ∧
  0 < q_Bitrate q ∧ within (sc_MaxBitrateKbps s) (q_Bitrate q) ∧ within cb (q_Bitrate q).
Proof.
  unfold SelectQuality. cbn [q_MaxWidth q_MaxHeight q_Bitrate].
  set (W0 := if sc_MaxWidth s <=? 0 then 3840 else sc_MaxWidth s).
  set (H0 := if sc_MaxHeight s <=? 0 then 2160 else sc_MaxHeight s).
  set (B0 := if sc_MaxBitrateKbps s <=? 0 then 40000 else sc_MaxBitrateKbps s).
  assert (0 < W0 ∧ within (sc_MaxWidth s) W0) as [HW0 HWs]
    by (unfold within, W0; bcase; breflect; lia).
  assert (0 < H0 ∧ within (sc_MaxHeight s) H0) as [HH0 HHs]
    by (unfold within, H0; bcase; breflect; lia).
  assert (0 < B0 ∧ within (sc_MaxBitrateKbps s) B0) as [HB0 HBs]
    by (unfold within, B0; bcase; breflect; lia).
  destruct (cap_step cw W0) as (Hw1 & Hw2 & Hw3 & _).
  set (W1 := if (0 <? cw) && (cw <? W0) then cw else W0) in *.
  destruct (cap_step sw W1) as (Hw4 & Hw5 & Hw6 & _).
  set (W2 := if (0 <? sw) && (sw <? W1) then sw else W1) in *.
  destruct (cap_step ch H0) as (Hh1 & Hh2 & Hh3 & _).
  set (H1 := if (0 <? ch) && (ch <? H0) then ch else H0) in *.
  destruct (cap_step sh H1) as (Hh4 & Hh5 & Hh6 & _).
  set (H2 := if (0 <? sh) && (sh <? H1) then sh else H1) in *.
  destruct (cap_step cb B0) as (Hb1 & Hb2 & Hb3 & _).
  set (B1 := if (0 <? cb) && (cb <? B0) then cb else B0) in *.
  destruct (even_rem W2 ltac:(lia)) as [HeW HrW], (even_rem H2 ltac:(lia)) as [HeH HrH].
  match goal with |- context [if cb <=? 0 then ?m else B1] =>
    assert (0 < (if cb <=? 0 then m else B1) ∧ (if cb <=? 0 then m else B1) <= B1) as [HB1 HB2]
  end.
  { bcase; [|lia].
    match goal with |- context [find_first ?p Profiles] =>
      destruct (find_first p Profiles) as [q|] eqn:Ef; [|lia] end.
    apply find_first_Some in Ef as [Hin Hq]. breflect.
    split; [|lia]. clear -Hin. unfold Profiles in Hin.
    repeat (apply elem_of_cons in Hin as [->|Hin]; [simpl; lia|]). inversion Hin. }
  unfold within in *. split_and!; try done; try lia.
Qed.

(** [ProfileForBitrate] picks the largest ladder profile whose bitrate
    fits, and the smallest profile when none does. *)
Lemma profile_for_bitrate_spec (kbps : Z) :
  let p := ProfileForBitrate kbps in
  p ∈ Profiles ∧
  (q_Bitrate p <= kbps ∨ (kbps < 1000 ∧ p = smallest_profile)) ∧
  (∀ q, q ∈ Profiles → q_Bitrate q <= kbps → q_MaxHeight q <= q_MaxHeight p).
Proof.
  unfold ProfileForBitrate. destruct (find_first _ Profiles) as [p|] eqn:E; simpl.
  - pose proof (find_first_Some _ _ _ E) as [Hin Hp]. breflect. split_and!; [done|by left|].
    intros q Hq Hqb. revert E. unfold Profiles in *. simpl.
    repeat (apply elem_of_cons in Hq as [->|Hq];
      [simpl in *; repeat (bcase; [intros [= <-]; simpl; breflect; lia|]); breflect; lia|]).
    inversion Hq.
  - rewrite find_first_None in E. split_and!.
    + right; right; right; right; left.
    + right. split; [|done]. specialize (E smallest_profile ltac:(by right;right;right;right;left)).
      breflect. simpl in E. lia.
    + intros q Hq Hqb. specialize (E q Hq). breflect. lia.
Qed.

(** ** The ladder *)

(** The bitrate of the rung at a tier. *)
Definition rung_bitrate (codec : string) (sb mb ref : Z) : Z :=
  rd_BitrateKbps (renditionAt 0 ref f64_zero codec sb mb).

Lemma renditionAt_bitrate h ref aspect codec sb mb :
  rd_BitrateKbps (renditionAt h ref aspect codec sb mb) = rung_bitrate codec sb mb ref.
Proof. done. Qed.

(** Scaling the tier bitrates keeps them positive, in order and no larger. *)
Lemma scaled_tiers (codec : string) (t u : Z * Z) :
  t ∈ ladderTiers → u ∈ ladderTiers →
  0 < scaleBitrateForCodec (snd t) codec <= snd t ∧
  (snd t <= snd u → scaleBitrateForCodec (snd t) codec <= scaleBitrateForCodec (snd u) codec).
Proof.
  assert (∀ f : Z → Z,
    forallb (λ t, (0 <? f (snd t)) && (f (snd t) <=? snd t)
       && forallb (λ u, negb (snd t <=? snd u) || (f (snd t) <=? f (snd u))) ladderTiers)
      ladderTiers = true →
    t ∈ ladderTiers → u ∈ ladderTiers →
    0 < f (snd t) <= snd t ∧ (snd t <= snd u → f (snd t) <= f (snd u))) as Hf.
  { intros f Hall Ht Hu. rewrite forallb_Forall_iff, Forall_forall in Hall.
    specialize (Hall t Ht). rewrite !andb_true_iff, forallb_Forall_iff, Forall_forall in Hall.
    destruct Hall as [[H1 H2] H3]. specialize (H3 u Hu). simpl in H3.
    rewrite orb_true_iff, negb_true_iff in H3. breflect. lia. }
  unfold scaleBitrateForCodec. simpl. repeat bcase.
  - apply (Hf ScaleBitrateForHEVC). by vm_compute.
  - apply (Hf ScaleBitrateForAV1). by vm_compute.
  - apply (Hf (λ z, z)). by vm_compute.
Qed.

Lemma rung_bitrate_spec codec sb mb t :
  t ∈ ladderTiers →
  0 < rung_bitrate codec sb mb (snd t) <= snd t ∧
  within sb (rung_bitrate codec sb mb (snd t)) ∧ within mb (rung_bitrate codec sb mb (snd t)).
Proof.
  intros Ht. destruct (scaled_tiers codec t t Ht Ht) as [Hs _].
  unfold rung_bitrate, renditionAt. cbn [rd_BitrateKbps].
  set (b := scaleBitrateForCodec _ _) in *.
  destruct (cap_step sb b) as (H1 & H2 & H3 & _).
  set (b1 := if (0 <? sb) && (sb <? b) then sb else b) in *.
  destruct (cap_step mb b1) as (H4 & H5 & H6 & _). unfold within in *. lia.
Qed.

Lemma rung_bitrate_mono codec sb mb t u :
  t ∈ ladderTiers → u ∈ ladderTiers → snd t <= snd u →
  rung_bitrate codec sb mb (snd t) <= rung_bitrate codec sb mb (snd u).
Proof.
  intros Ht Hu Hle. destruct (scaled_tiers codec t u Ht Hu) as [_ Hs]. specialize (Hs Hle).
  unfold rung_bitrate, renditionAt. cbn [rd_BitrateKbps]. by apply cap_mono, cap_mono.
Qed.

(** Deduplication keeps the first rung at each bitrate. *)
Lemma dedupe_loop_spec (seen : list Z) (rs : list Rendition) :
  sublist (dedupe_loop seen rs) rs ∧
  NoDup (map rd_BitrateKbps (dedupe_loop seen rs)) ∧
  (∀ r, r ∈ dedupe_loop seen rs → rd_BitrateKbps r ∉ seen) ∧
  (∀ r, r ∈ rs → rd_BitrateKbps r ∈ seen ∨
        ∃ r', r' ∈ dedupe_loop seen rs ∧ rd_BitrateKbps r' = rd_BitrateKbps r).
Proof.
  revert seen. induction rs as [|r rs IH]; intros seen; simpl.
  - split_and!; [constructor|constructor|set_solver|set_solver].
  - destruct (mem (rd_BitrateKbps r) seen) eqn:E; breflect.
    + destruct (IH seen) as (H1 & H2 & H3 & H4). split_and!; [by constructor|done|done|].
      intros x [->|Hx]%elem_of_cons; [by left|auto].
    + destruct (IH (rd_BitrateKbps r :: seen)) as (H1 & H2 & H3 & H4). simpl. split_and!.
      * by constructor.
      * constructor; [|done]. intros (x & Hb & Hx)%list_elem_of_fmap.
        apply (H3 x Hx). rewrite Hb. by left.
      * intros x [->|Hx]%elem_of_cons; [done|]. intros Hin. apply (H3 x Hx). by right.
      * intros x [->|Hx]%elem_of_cons; [right; exists r; split; [by left|done]|].
        destruct (H4 x Hx) as [[->|?]%elem_of_cons|(y & Hy & Hyb)].
        -- right. exists r. split; [by left|done].
        -- by left.
        -- right. exists y. split; [by right|done].
Qed.

Lemma dedupeByBitrate_spec (rs : list Rendition) :
  sublist (dedupeByBitrate rs) rs ∧
  NoDup (map rd_BitrateKbps (dedupeByBitrate rs)) ∧
  (∀ r, r ∈ rs → ∃ r', r' ∈ dedupeByBitrate rs ∧ rd_BitrateKbps r' = rd_BitrateKbps r).
Proof.
  unfold dedupeByBitrate. destruct (Nat.ltb_spec (length rs) 2).
  - split_and!; [done| |eauto].
    destruct rs as [|r [|r' rs]]; simpl in *; [constructor|by apply NoDup_singleton|lia].
  - destruct (dedupe_loop_spec [] rs) as (? & ? & _ & H4). split_and!; [done|done|].
    intros r Hr. destruct (H4 r Hr) as [Hn|?]; [inversion Hn|done].
Qed.

(** Rungs in order: taller ones first, never at a lower bitrate. *)
Definition rung_order (r1 r2 : Rendition) : Prop :=
  rd_Height r2 < rd_Height r1 ∧ rd_BitrateKbps r2 <= rd_BitrateKbps r1.
Definition rung_order_strict (r1 r2 : Rendition) : Prop :=
  rd_Height r2 < rd_Height r1 ∧ rd_BitrateKbps r2 < rd_BitrateKbps r1.

Lemma dedupe_strict (rs : list Rendition) :
  StronglySorted rung_order rs → StronglySorted rung_order_strict (dedupeByBitrate rs).
Proof.
  destruct (dedupeByBitrate_spec rs) as (Hsub & Hnd & _). intros Hs.
  apply (StronglySorted_sublist _ _ _ Hsub) in Hs. revert Hnd Hs.
  generalize (dedupeByBitrate rs). clear. intros l Hnd Hs.
  induction Hs as [|r l Hs IH Hr]; [constructor|].
  simpl in Hnd. apply NoDup_cons in Hnd as [Hn Hnd]. constructor; [by apply IH|].
  rewrite Forall_forall in *. intros x Hx. destruct (Hr x Hx) as [Hh Hb]. split; [done|].
  assert (rd_BitrateKbps x ≠ rd_BitrateKbps r); [|lia].
  intros Heq. apply Hn. rewrite <- Heq. by apply list_elem_of_fmap_2.
Qed.

Lemma tiers_sorted (codec : string) (sb mb : Z) (aspect : float64) (p : Z * Z → bool) :
  StronglySorted rung_order
    (map (λ t, renditionAt (fst t) (snd t) aspect codec sb mb) (List.filter p ladderTiers)).
Proof.
  assert (∀ l, StronglySorted (λ t u : Z * Z, fst u < fst t ∧ snd u <= snd t) l →
    l ⊆ ladderTiers →
    StronglySorted rung_order
      (map (λ t, renditionAt (fst t) (snd t) aspect codec sb mb) (List.filter p l))) as Hl.
  { intros l. induction 1 as [|t l Hs IH Ht]; intros Hsub; simpl; [constructor|].
    assert (l ⊆ ladderTiers) as Hl by set_solver.
    destruct (p t); [|by apply IH]. simpl. constructor; [by apply IH|].
    rewrite Forall_forall. rewrite Forall_forall in Ht. intros r (u & -> & Hu)%list_elem_of_fmap.
    apply list_elem_of_In, filter_In in Hu as [Hu _]. apply list_elem_of_In in Hu.
    destruct (Ht u Hu) as [Hh Hb]. split; [done|].
    rewrite !renditionAt_bitrate. apply rung_bitrate_mono; set_solver. }
  apply Hl; [|done]. repeat constructor; simpl; lia.
Qed.

Lemma renditionAt_width_even h ref aspect codec sb mb :
  Z.even (rd_Width (renditionAt h ref aspect codec sb mb)) = true.
Proof.
  unfold renditionAt. cbn [rd_Width]. set (w := round_of_f64 _).
  pose proof (Z.quot_rem w 2 ltac:(lia)) as Hq.
  pose proof (Z.rem_bound_abs w 2 ltac:(lia)).
  assert (Z.rem w 2 = 0 ∨ Z.rem w 2 = 1 ∨ Z.rem w 2 = -1) as [Hr|[Hr|Hr]] by lia;
    rewrite Hr in *; simpl; rewrite Hq.
  - rewrite Z.add_0_r, Z.even_mul. done.
  - replace (2 * Z.quot w 2 + 1 + 1) with (2 * (Z.quot w 2 + 1)) by lia. by rewrite Z.even_mul.
  - replace (2 * Z.quot w 2 + -1 + 1) with (2 * Z.quot w 2) by lia. by rewrite Z.even_mul.
Qed.

(** The source height [BuildLadder] works with. *)
Definition ladder_height (sourceH : Z) : Z := if sourceH <=? 0 then 1080 else sourceH.

Lemma ladder_rung sw sh sb codec cap mb r :
  r ∈ BuildLadder sw sh sb codec cap mb →
  ∃ h t, t ∈ ladderTiers ∧
    r = renditionAt h (snd t) (ladder_aspect sw (ladder_height sh)) codec sb mb ∧
    ((h = fst t ∧ tier_kept (ladder_height sh) cap t = true) ∨
     (h = ladder_height sh ∧ ∀ u, u ∈ ladderTiers → tier_kept (ladder_height sh) cap u = false)).
Proof.
  unfold BuildLadder. fold (ladder_height sh). set (H := ladder_height sh).
  set (out := map _ _). intros Hin.
  destruct out as [|r0 out0] eqn:Eo.
  - simpl in Hin. apply elem_of_cons in Hin as [->|Hin]; [|inversion Hin].
    exists H, (360, 800). split; [by vm_compute; do 5 right; left|]. split; [done|].
    right. split; [done|]. intros u Hu. apply not_true_iff_false. intros Hk.
    assert (u ∈ List.filter (tier_kept H cap) ladderTiers) as Hf.
    { apply list_elem_of_In, filter_In. split; [by apply list_elem_of_In|done]. }
    unfold out in Eo. destruct (List.filter _ _); [inversion Hf|done].
  - eapply elem_of_sublist in Hin; [|apply dedupeByBitrate_spec].
    rewrite <- Eo in Hin. apply list_elem_of_fmap in Hin as (t & -> & Ht).
    apply list_elem_of_In, filter_In in Ht as [Ht Hk]. apply list_elem_of_In in Ht.
    exists (fst t), t. naive_solver.
Qed.

(** The ladder is well formed for every source, codec, height cap and
    bitrate ceiling: it is never empty, its rungs strictly decrease in height
    and in bitrate, none is taller than the source, every width is even, and
    every bitrate is positive and within the source's bitrate and the
    administered ceiling. *)
Lemma ladder_well_formed (sw sh sb : Z) (codec : string) (cap mb : Z) :
  let l := BuildLadder sw sh sb codec cap mb in
  l ≠ [] ∧ StronglySorted rung_order_strict l ∧
  Forall (λ r, rd_Height r <= ladder_height sh ∧ Z.even (rd_Width r) = true ∧
               0 < rd_BitrateKbps r ∧ within sb (rd_BitrateKbps r) ∧
               within mb (rd_BitrateKbps r)) l.
Proof.
  intros l. split_and!.
  - unfold l, BuildLadder. set (out := match map _ _ with [] => _ | _ => _ end).
    assert (∃ r, r ∈ out) as [r Hr].
    { unfold out. destruct (map _ _) as [|r ?]; eexists; by left. }
    destruct (dedupeByBitrate_spec out) as (_ & _ & H). destruct (H r Hr) as (r' & Hr' & _).
    intros E. rewrite E in Hr'. inversion Hr'.
  - apply dedupe_strict. pose proof (tiers_sorted codec sb mb) as Hs.
    match goal with |- StronglySorted _ (match map ?f ?x with _ => _ end) =>
      specialize (Hs (ladder_aspect sw (ladder_height sh)) (tier_kept (ladder_height sh) cap));
      change (map f x) with (map (λ t, renditionAt (fst t) (snd t)
        (ladder_aspect sw (ladder_height sh)) codec sb mb)
        (List.filter (tier_kept (ladder_height sh) cap) ladderTiers)) end.
    destruct (map _ _); [repeat constructor|done].
  - apply Forall_forall. intros r (h & t & Ht & -> & Hk)%ladder_rung.
    pose proof (rung_bitrate_spec codec sb mb t Ht) as (Hb & Hsb & Hmb).
    rewrite renditionAt_bitrate. split_and!; [|apply renditionAt_width_even|lia|done|done].
    cbn [renditionAt rd_Height]. destruct Hk as [[-> Hk]|[-> _]]; [|lia].
    unfold tier_kept in Hk. breflect. lia.
Qed.

(** An operator's height cap that leaves a standard tier available is
    respected by every rung. *)
Lemma ladder_height_cap (sw sh sb : Z) (codec : string) (cap mb : Z) :
  360 <= cap → 360 <= ladder_height sh →
  Forall (λ r, rd_Height r <= cap) (BuildLadder sw sh sb codec cap mb).
Proof.
  intros Hc Hs. apply Forall_forall. intros r (h & t & Ht & -> & Hk)%ladder_rung.
  cbn [renditionAt rd_Height]. destruct Hk as [[-> Hk]|[_ Hk]].
  - unfold tier_kept in Hk. breflect. lia.
  - specialize (Hk (360, 800) ltac:(by do 5 right; left)).
    unfold tier_kept in Hk. simpl in Hk. breflect. lia.
Qed.

Lemma ladder_height_cap_witness :
  Forall (λ r, rd_Height r <= 720) (BuildLadder 3840 2160 30000 LadderHEVC 720 0).
Proof. apply ladder_height_cap; vm_compute; discriminate. Defined.

(** A cap below the lowest tier is ignored: the single fallback rung is at the
    source's height, not the cap. *)
Lemma ladder_cap_exceeded :
  BuildLadder 1920 1080 8000 LadderH264 240 0
  = [mkRendition "1080p" 1080 1920 800].
Proof. by vm_compute. Qed.
