(* ===== verification/CapabilityProps.v ===== *)
(** Invariants of the parsed client profile, of level arithmetic and of encoder
    fail-over. *)
From Stdlib Require Import SpecFloat.
From S2P Require Import Prelude.
From S2P Require Import GoStrings.
From S2P Require Import GoFloat.
From S2P Require Import Media.
From S2P Require Import Capability.
From S2P Require Import Encoders.
From S2P Require Import ProfileLevel.

Local Open Scope Z_scope.

(** ** The parsed profile *)

Definition dv_keys : list string := ["5"; "7"; "8.1"; "8.4"].
Definition passthrough_names : list string := ["ac3"; "eac3"; "truehd"; "dts"].

Definition limit_ok (codec : string) (l : VideoLimit) : Prop :=
  codec ∈ ["h264"; "h265"; "av1"] ∧ declared l = true ∧ 0 <= vl_Level l ∧
  (vl_Profile l ≠ "" → 0 < profileRank codec (vl_Profile l)).

(** What every profile satisfies while its header is being parsed. *)
Record caps_wf (c : ClientCapabilities) : Prop := {
  wf_width : 0 < cc_MaxWidth c;
  wf_height : 0 < cc_MaxHeight c;
  wf_channels : 0 < cc_MaxAudioChannels c;
  wf_depth : 0 < cc_MaxVideoBitDepth c;
  wf_vp9 : 0 <= cc_MaxVP9BitDepth c;
  wf_pass : NoDup (cc_AudioPassthrough c) ∧ cc_AudioPassthrough c ⊆ passthrough_names;
  wf_dv : NoDup (cc_DVProfiles c) ∧ cc_DVProfiles c ⊆ dv_keys;
  wf_dvflag : cc_SupportsDV c = true ↔ cc_DVProfiles c ≠ [];
  wf_limits : map_Forall limit_ok (cc_VideoLimits c)
}.

Lemma dv_add_ok (out : list string) (k : string) :
  k ∈ dv_keys → NoDup out ∧ out ⊆ dv_keys → NoDup (dv_add out k) ∧ dv_add out k ⊆ dv_keys.
Proof.
  intros Hk [Hn Hs]. unfold dv_add. bcase; [done|]. breflect. split; [|set_solver].
  apply NoDup_app. split_and!; [done|set_solver|apply NoDup_singleton].
Qed.

Lemma fold_left_inv {A B} (P : A → Prop) (Q : B → Prop) (f : A → B → A) (l : list B) (a : A) :
  (∀ a b, P a → Q b → P (f a b)) → (∀ b, b ∈ l → Q b) → P a → P (fold_left f l a).
Proof.
  intros Hf. revert a. induction l as [|b l IH]; simpl; intros a HQ Ha; [done|].
  apply IH; [intros; apply HQ; by right|]. apply Hf; [done|]. apply HQ. by left.
Qed.

(** Every result of a [switch] satisfies what each case and the default do. *)
Lemma switch_elim {A} (P : A → Prop) (x : string) (cases : list (list string * A)) (d : A) :
  Forall (λ c, P (snd c)) cases → P d → P (switch x cases d).
Proof.
  intros Hc Hd. destruct (switch_cases x cases d) as [(k & a & Hin & _ & ->)|[-> _]]; [|done].
  rewrite Forall_forall in Hc. apply (Hc (k, a) Hin).
Qed.

Lemma switch_elim_key {A} (P : A → Prop) (x : string) (cases : list (list string * A)) (d : A) :
  Forall (λ c, x ∈ fst c → P (snd c)) cases → P d → P (switch x cases d).
Proof.
  intros Hc Hd. destruct (switch_cases x cases d) as [(k & a & Hin & Hk & ->)|[-> _]]; [|done].
  rewrite Forall_forall in Hc. by apply (Hc (k, a) Hin).
Qed.

(** The side condition of [switch_elim], case by case. *)
Ltac forall_cases tac := repeat (apply Forall_cons_2; [cbn [snd]; tac|]); apply Forall_nil_2.

Lemma parseDVProfiles_ok (val : string) (vals : list string) :
  NoDup (parseDVProfiles val vals) ∧ parseDVProfiles val vals ⊆ dv_keys.
Proof.
  unfold parseDVProfiles.
  apply (switch_elim (λ l, NoDup l ∧ l ⊆ dv_keys)).
  - apply Forall_cons. split; [split; [constructor|set_solver]|].
    apply Forall_cons. split; [|constructor]. cbn [snd]. split; [|unfold dv_keys; set_solver].
    by apply (bool_decide_unpack _).
  - apply (fold_left_inv (λ l, NoDup l ∧ l ⊆ dv_keys) (λ _, True)); [|done|].
    + intros out v Hout _.
      apply (fold_left_inv (λ l, NoDup l ∧ l ⊆ dv_keys) (λ k, k ∈ dv_keys));
        [intros; by apply dv_add_ok| |done].
      intros k. unfold dv_adds. apply (switch_elim (λ l, k ∈ l → k ∈ dv_keys)); [|set_solver].
      forall_cases ltac:(unfold dv_keys; set_solver).
    + split; [constructor|set_solver].
Qed.

Lemma limitCodec_go_codec (table : list (string * string)) (key codec field : string) :
  limitCodec_go table key = Some (codec, field) →
  codec ∈ map snd table ∧ (field = "profile" ∨ field = "level").
Proof.
  induction table as [|[pre c] table IH]; cbn [limitCodec_go map snd]; [done|].
  rewrite elem_of_cons. destruct (CutPrefix key pre); [|naive_solver].
  repeat bcase; intros H; simplify_eq; auto. destruct (IH H). auto.
Qed.

Lemma limitCodec_codec (key codec field : string) :
  limitCodec key = Some (codec, field) →
  codec ∈ ["h264"; "h265"; "av1"] ∧ (field = "profile" ∨ field = "level").
Proof.
  unfold limitCodec. intros H. apply limitCodec_go_codec in H as [Hc Hf]. split; [|done].
  simpl in Hc. set_solver.
Qed.

Lemma canonicalProfile_rank (codec norm : string) :
  0 < profileRank codec norm →
  canonicalProfile codec norm ≠ "" ∧
  profileRank codec (canonicalProfile codec norm) = profileRank codec norm.
Proof.
  unfold canonicalProfile.
  assert (∀ r, r = profileRank codec norm → 0 < r →
    codec ∈ ["h264"; "h265"; "av1"] ∧ r ∈ [1; 2; 3; 4; 5; 6] ∧
    (codec ≠ "h264" → r ∈ [1; 2; 3])) as Hr.
  { intros r -> Hp. unfold profileRank in *. revert Hp.
    apply (switch_elim_key (λ r, 0 < r → codec ∈ ["h264"; "h265"; "av1"] ∧
      r ∈ [1; 2; 3; 4; 5; 6] ∧ (codec ≠ "h264" → r ∈ [1; 2; 3]))); [|lia].
    repeat (apply Forall_cons_2;
      [cbn [fst snd]; intros ->%list_elem_of_singleton;
       apply (switch_elim (λ r, 0 < r → _ ∧ r ∈ [1; 2; 3; 4; 5; 6] ∧ (_ → r ∈ [1; 2; 3])));
       [forall_cases ltac:(intros _; split_and!; [set_solver|set_solver|done || set_solver])|lia]|]).
    apply Forall_nil_2. }
  intros Hp. destruct (Hr _ eq_refl Hp) as (Hc & H6 & H3). revert H6 H3.
  generalize (profileRank codec norm) as r. intros r H6 H3.
  assert (∀ c, c ∈ ["h264"; "h265"; "av1"] → c = "h264" ∨ c = "h265" ∨ c = "av1") as Hcs
    by set_solver.
  destruct (Hcs codec Hc) as [->|[->| ->]].
  - clear -H6. repeat (apply elem_of_cons in H6 as [->|H6]; [by vm_compute|]). inversion H6.
  - specialize (H3 ltac:(done)). clear -H3.
    repeat (apply elem_of_cons in H3 as [->|H3]; [by vm_compute|]). inversion H3.
  - specialize (H3 ltac:(done)). clear -H3.
    repeat (apply elem_of_cons in H3 as [->|H3]; [by vm_compute|]). inversion H3.
Qed.

Lemma profileRank_nonneg (codec norm : string) : 0 <= profileRank codec norm.
Proof.
  unfold profileRank.
  apply (switch_elim (λ z, 0 <= z)); [|lia].
  forall_cases ltac:(apply (switch_elim (λ z, 0 <= z)); [forall_cases lia|lia]).
Qed.

Lemma setVideoLimit_limits (c : ClientCapabilities) (codec field val : string) :
  codec ∈ ["h264"; "h265"; "av1"] → field = "profile" ∨ field = "level" →
  map_Forall limit_ok (cc_VideoLimits c) →
  map_Forall limit_ok (cc_VideoLimits (setVideoLimit c codec field val)).
Proof.
  intros Hc Hf Hw. unfold setVideoLimit.
  assert (0 <= vl_Level (default no_limit (cc_VideoLimits c !! codec)) ∧
    (vl_Profile (default no_limit (cc_VideoLimits c !! codec)) ≠ "" →
     0 < profileRank codec (vl_Profile (default no_limit (cc_VideoLimits c !! codec)))))
    as [Hlev Hprof].
  { destruct (cc_VideoLimits c !! codec) as [l|] eqn:E; simpl; [|done].
    apply Hw in E as (_ & _ & ? & ?). done. }
  destruct Hf as [->| ->]; cbn [String.eqb]; simpl.
  - destruct (Z.eqb_spec (profileRank codec (normaliseProfile val)) 0) as [|Hne]; [done|].
    destruct (canonicalProfile_rank codec (normaliseProfile val)) as [Hnn Hrk].
    { pose proof (profileRank_nonneg codec (normaliseProfile val)). lia. }
    simpl. apply map_Forall_insert_2; [|done]. unfold limit_ok, declared. simpl.
    split_and!; [done| |done|].
    + apply String.eqb_neq in Hnn. by rewrite Hnn.
    + intros _. rewrite Hrk. pose proof (profileRank_nonneg codec (normaliseProfile val)). lia.
  - destruct (Z.leb_spec (parseClientLevel codec val) 0); [done|].
    simpl. apply map_Forall_insert_2; [|done]. unfold limit_ok, declared. simpl.
    split_and!; [done| |lia|done]. apply orb_true_iff. right. by apply Z.ltb_lt.
Qed.

Lemma add_passthrough_wf (c : ClientCapabilities) (v : string) :
  caps_wf c → caps_wf (add_passthrough c v).
Proof.
  intros []. unfold add_passthrough. bcase; [|by split]. breflect. destruct E as [Hp Hn].
  split; try done. simpl. unfold passthroughCodec in Hp. rewrite mem_spec in Hp.
  unfold PassesThroughAudio in Hn. rewrite CanonicalAudioCodec_idem, mem_false in Hn.
  destruct wf_pass0. split.
  - apply NoDup_app. split_and!; [done|set_solver|apply NoDup_singleton].
  - unfold passthrough_names. set_solver.
Qed.

Lemma flag_video_codec_wf (c : ClientCapabilities) (v : string) :
  caps_wf c → caps_wf (flag_video_codec c v).
Proof.
  intros Hc. unfold flag_video_codec. simpl. repeat bcase; [| |done]; destruct Hc; by split.
Qed.

Lemma fold_wf {B} (f : ClientCapabilities → B → ClientCapabilities) (l : list B)
    (c : ClientCapabilities) :
  (∀ c b, caps_wf c → caps_wf (f c b)) → caps_wf c → caps_wf (fold_left f l c).
Proof. intros Hf. by apply (fold_left_inv caps_wf (λ _, True)); auto. Qed.

Lemma setVideoLimit_wf (c : ClientCapabilities) (codec field val : string) :
  codec ∈ ["h264"; "h265"; "av1"] → field = "profile" ∨ field = "level" →
  caps_wf c → caps_wf (setVideoLimit c codec field val).
Proof.
  intros Hc Hf Hw.
  pose proof (setVideoLimit_limits c codec field val Hc Hf (wf_limits _ Hw)) as Hl. revert Hl.
  unfold setVideoLimit. repeat bcase; intros; destruct Hw; by split.
Qed.

Lemma apply_pair_wf (c : ClientCapabilities) (key val : string) :
  caps_wf c → caps_wf (apply_pair c key val).
Proof.
  intros Hw. unfold apply_pair.
  repeat (lazymatch goal with |- context [if mem key ?l then _ else _] =>
    destruct (mem key l) end);
    repeat (lazymatch goal with |- context [if 0 <? ?n then _ else _] =>
      destruct (Z.ltb_spec 0 n); [|done] end);
    try (destruct Hw; split; simpl; (done || lia)).
  - apply fold_wf; [apply flag_video_codec_wf|]. destruct Hw; by split.
  - apply fold_wf; [apply add_passthrough_wf|done].
  - pose proof (parseDVProfiles_ok val (Split val ":")) as Hdv.
    destruct Hw; split; simpl; try done.
    destruct (parseDVProfiles val (Split val ":")); naive_solver.
  - destruct (limitCodec key) as [[codec field]|] eqn:E; [|done].
    apply limitCodec_codec in E as [? ?]. by apply setVideoLimit_wf.
Qed.

(** C40: Whatever the header says, the parsed profile is well formed: both
    codec lists are non-empty, the size, channel and bit depth ceilings are
    positive, the passthrough list has no duplicates and only bitstreamable
    codecs, the Dolby Vision list has no duplicates and only known profile keys
    and agrees with its flag, and every recorded limit is a real one: for a
    known codec, declared, with a ranked profile. *)
Theorem parse_capabilities_wf (header : string) :
  let c := ParseCapabilities header in
  caps_wf c ∧ cc_VideoCodecs c ≠ [] ∧ cc_AudioCodecs c ≠ [].
Proof.
  unfold ParseCapabilities.
  assert (caps_wf (fold_left apply_part (FieldsFunc is_pair_sep header) caps_defaults)) as Hw.
  { apply fold_wf.
    - intros c part Hc. unfold apply_part. destruct (Cut _ _) as [[k v]|]; [|done].
      by apply apply_pair_wf.
    - split; simpl; try lia.
      + split; [constructor|set_solver].
      + split; [constructor|set_solver].
      + done.
      + apply map_Forall_empty. }
  revert Hw. generalize (fold_left apply_part (FieldsFunc is_pair_sep header) caps_defaults).
  intros c Hw. unfold fill_codecs.
  destruct (cc_VideoCodecs c) eqn:Ev; simpl; destruct (cc_AudioCodecs c) eqn:Ea; simpl;
    rewrite ?Ev, ?Ea; (split_and!; [destruct Hw; by split|done|done]).
Qed.

(** ** Levels *)

(** [LevelMaxHeight] finds the tallest output that fits: when it restricts
    the source (a positive answer) the height is even, at least 2 and no taller
    than the source, the picture at that height and the source's aspect fits the
    level (unless even the smallest candidate was all there was), and no taller
    even height fits.  When it answers 0, the source already fits or nothing is
    known to check. *)
Lemma level_max_height_spec (codec : string) (tenths srcW srcH : Z) (fps : float64) :
  let r := LevelMaxHeight codec tenths srcW srcH fps in
  let aspect := f64_div (f64_of_Z srcW) (f64_of_Z srcH) in
  (r = 0 ∧ (tenths <= 0 ∨ srcW <= 0 ∨ srcH <= 0 ∨ levelLimits codec tenths = None ∨
            FitsLevel codec tenths srcW srcH fps = true)) ∨
  (Z.even r = true ∧ 2 <= r ∧ r <= Z.max 2 srcH ∧
   FitsLevel codec tenths srcW srcH fps = false ∧
   (r = 2 ∨ FitsLevel codec tenths (even_width r aspect) r fps = true) ∧
   ∀ h, Z.even h = true → r < h <= srcH →
        FitsLevel codec tenths (even_width h aspect) h fps = false).
Proof.
  unfold LevelMaxHeight.
  destruct ((tenths <=? 0) || (srcW <=? 0) || (srcH <=? 0)) eqn:E; breflect; [left; naive_solver|].
  destruct (levelLimits codec tenths) as [spec|] eqn:El; [|left; naive_solver].
  destruct (FitsLevel codec tenths srcW srcH fps) eqn:Ef; [left; naive_solver|]. right.
  set (aspect := f64_div _ _).
  pose proof (ldiff_1_even srcH) as Hev. pose proof (ldiff_1_range srcH ltac:(lia)) as Hr.
  destruct (level_height_loop_spec (level_height_fuel srcH) codec tenths aspect fps
    (Z.ldiff srcH 1) Hev) as (H1 & H2 & H3 & H4).
  { unfold level_height_fuel. rewrite ldiff_1. pose proof (Z.div_mod srcH 2 ltac:(lia)).
    pose proof (Z.mod_pos_bound srcH 2 ltac:(lia)).
    rewrite Nat2Z.inj_succ, Z2Nat.id by (apply Z.div_pos; lia). lia. }
  split_and!; [done|done|lia|done|naive_solver|].
  intros h Hh [Hlt Hle]. apply H4; [done|]. split; [done|].
  apply Z.even_spec in Hh as [k ->]. rewrite ldiff_1. pose proof (Z.div_mod srcH 2 ltac:(lia)).
  pose proof (Z.mod_pos_bound srcH 2 ltac:(lia)). lia.
Qed.

(** Order on binary64 values below a finite bound. *)
Ltac cmp_cases :=
  repeat match goal with
  | |- context [Z.compare ?a ?b] => destruct (Z.compare_spec a b); subst
  | |- context [Pos.compare_cont Eq ?a ?b] =>
      change (Pos.compare_cont Eq a b) with (Pos.compare a b);
      destruct (Pos.compare_spec a b); subst
  end; simpl; try done; try lia.

Lemma SFleb_trans_finite (x : float64) (s1 s2 : bool) (m1 m2 : positive) (e1 e2 : Z) :
  SFleb x (S754_finite s1 m1 e1) = true →
  SFleb (S754_finite s1 m1 e1) (S754_finite s2 m2 e2) = true →
  SFleb x (S754_finite s2 m2 e2) = true.
Proof.
  unfold SFleb, SFcompare.
  destruct x as [s|s| |s m e]; destruct s1, s2; try destruct s; try done; cmp_cases.
Qed.

Lemma f64_leb_trans (x y z : float64) :
  (match y, z with S754_finite _ _ _, S754_finite _ _ _ => true | _, _ => false end) = true →
  f64_leb x y = true → f64_leb y z = true → f64_leb x z = true.
Proof. destruct y, z; try done. intros _. apply SFleb_trans_finite. Qed.

(** [row_le a b]: row [b] allows at least what row [a] allows. *)
Definition row_le (a b : levelSpec) : bool :=
  (ls_maxPicture a <=? ls_maxPicture b) && (ls_maxKbps a <=? ls_maxKbps b)
  && f64_leb (f64_of_Z (ls_maxRate a)) (f64_of_Z (ls_maxRate b))
  && match f64_of_Z (ls_maxRate a), f64_of_Z (ls_maxRate b) with
     | S754_finite _ _ _, S754_finite _ _ _ => true | _, _ => false end.

Fixpoint rows_sorted (l : list levelSpec) : bool :=
  match l with
  | [] => true
  | s :: l' => row_le s s && forallb (row_le s) l' && rows_sorted l'
  end.

Lemma tables_sorted (codec : string) (table : list levelSpec) :
  level_table codec = Some table → rows_sorted table = true.
Proof.
  unfold level_table. simpl. repeat bcase; intros [= <-]; by vm_compute.
Qed.

Lemma fold_rows_mono (t1 t2 : Z) (table : list levelSpec) (a1 : option levelSpec)
    (a2 : option levelSpec) (s1 : levelSpec) :
  t1 <= t2 → rows_sorted table = true →
  (∀ x, a1 = Some x → forallb (row_le x) table = true ∧ ∃ y, a2 = Some y ∧ row_le x y = true) →
  fold_left (λ best s, if ls_tenths s <=? t1 then Some s else best) table a1 = Some s1 →
  ∃ s2, fold_left (λ best s, if ls_tenths s <=? t2 then Some s else best) table a2 = Some s2 ∧
        row_le s1 s2 = true.
Proof.
  intros Ht. revert a1 a2. induction table as [|x table IH]; cbn [fold_left rows_sorted];
    intros a1 a2 Hs Ha Hf.
  { destruct (Ha s1 Hf) as (_ & y & -> & ?). eauto. }
  rewrite !andb_true_iff in Hs. destruct Hs as [[Hxx Hx] Hs].
  apply (IH _ (if ls_tenths x <=? t2 then Some x else a2) Hs) in Hf; [done|].
  intros z. destruct (Z.leb_spec (ls_tenths x) t1), (Z.leb_spec (ls_tenths x) t2); try lia.
  - intros [= <-]. eauto.
  - intros Hz. destruct (Ha z Hz) as [Hall _]. simpl in Hall. rewrite andb_true_iff in Hall.
    naive_solver.
  - intros Hz. destruct (Ha z Hz) as [Hall (y & -> & ?)]. simpl in Hall.
    rewrite andb_true_iff in Hall. naive_solver.
Qed.

Lemma levelLimits_mono (codec : string) (t1 t2 : Z) (s1 : levelSpec) :
  t1 <= t2 → levelLimits codec t1 = Some s1 →
  ∃ s2, levelLimits codec t2 = Some s2 ∧ row_le s1 s2 = true.
Proof.
  unfold levelLimits. intros Ht. destruct (level_table codec) as [table|] eqn:E; [|done].
  apply fold_rows_mono; [done|by eapply tables_sorted|done].
Qed.

(** A higher declared level only allows more: a picture that fits a level
    the codec has a row for fits every higher level, at any frame rate, and the
    re-encode bitrate cap does not shrink. *)
Lemma fits_level_mono (codec : string) (t1 t2 w h : Z) (fps : float64) :
  is_Some (levelLimits codec t1) → t1 <= t2 →
  (FitsLevel codec t1 w h fps = true → FitsLevel codec t2 w h fps = true) ∧
  (0 < t1 → LevelMaxKbps codec t1 <= LevelMaxKbps codec t2).
Proof.
  intros [s1 Hs1] Ht. destruct (levelLimits_mono codec t1 t2 s1 Ht Hs1) as (s2 & Hs2 & Hrow).
  unfold row_le in Hrow. rewrite !andb_true_iff, !Z.leb_le in Hrow.
  destruct Hrow as [[[Hpic Hkbps] Hrate] Hfin]. split.
  - unfold FitsLevel. rewrite Hs1, Hs2. destruct ((w <=? 0) || (h <=? 0)); [done|].
    destruct (Z.ltb_spec (ls_maxPicture s1) (pictureSamples codec w h)); [done|].
    destruct (Z.ltb_spec (ls_maxPicture s2) (pictureSamples codec w h)); [lia|].
    rewrite !orb_true_iff. intros [?|Hr]; [by left|right].
    by apply (f64_leb_trans _ _ _ Hfin).
  - intros Hp. unfold LevelMaxKbps. rewrite Hs1, Hs2. repeat bcase; breflect; try lia.
    apply Z.quot_le_mono; lia.
Qed.

(** The same limits without any level. *)
Definition profile_only (o : OutputLimits) : OutputLimits :=
  mkOutputLimits (ol_H264Profile o) 0 0 0 (ol_FrameRate o).

(** The encoder is never given a level its picture is over: the emitted
    flags are the profile flags followed by either nothing or one option with
    its value, and the latter only when the client declared a level for the
    encoder's codec and the output box at the source's frame rate fits it. *)
Lemma output_limit_args_safe (e : Encoder) (o : OutputLimits) (w h : Z) :
  ∃ lvl, outputLimitArgs e o w h = outputLimitArgs e (profile_only o) w h ++ lvl ∧
    (lvl = [] ∨
     length lvl = 2%nat ∧ 0 < LevelFor o (encoderFamily e) ∧
     FitsLevel (encoderFamily e) (LevelFor o (encoderFamily e)) w h (ol_FrameRate o) = true).
Proof.
  unfold outputLimitArgs.
  assert (LevelFor (profile_only o) (encoderFamily e) = 0) as ->.
  { unfold LevelFor. simpl. by repeat bcase. }
  cbn [ol_H264Profile profile_only Z.leb Z.compare orb].
  set (args := if String.eqb (encoderFamily e) "h264" && _ then _ else _).
  destruct ((LevelFor o (encoderFamily e) <=? 0) || _) eqn:E.
  { exists []. rewrite app_nil_r. by split; [|left]. }
  breflect. destruct E as [Hl Hf].
  match goal with |- context [switch e ?cs ?d] =>
    destruct (switch_cases e cs d) as [(k & a & Hin & _ & ->)|[-> _]] end.
  - repeat (apply elem_of_cons in Hin as [[= -> ->]|Hin];
      [first [ (exists []; rewrite app_nil_r; by split; [|left])
             | (eexists; split; [reflexivity|]; right; done)]|]).
    inversion Hin.
  - eexists. split; [reflexivity|]. by right.
Qed.

(** ** Encoder fail-over *)

(** Fail-over keeps the stream's format and leaves the failing device: for
    a hardware primary the list ends with the software encoder of the same
    codec family, has no duplicates, never contains the primary, contains
    otherwise only detected hardware encoders of another vendor, and every
    entry yields the same segment container, extension and codec tag as the
    primary.  A software or copy primary has no fallback. *)
Lemma fallback_encoders_spec (primary : Encoder) (available : list Encoder)
    (srcHEVC srcAV1 force ts : bool) :
  (IsHardwareEncoder primary = false → FallbackEncoders primary available = []) ∧
  (IsHardwareEncoder primary = true →
   ∃ hw, FallbackEncoders primary available
           = hw ++ [softwareEncoderForFamily (codecFamily primary)] ∧
     sublist hw available ∧ NoDup (FallbackEncoders primary available) ∧
     primary ∉ FallbackEncoders primary available ∧
     (∀ e, e ∈ hw → IsHardwareEncoder e = true ∧ vendorClass e ≠ vendorClass primary) ∧
     ∀ e, e ∈ FallbackEncoders primary available →
       ResolveVideoOutput e srcHEVC srcAV1 force ts
       = ResolveVideoOutput primary srcHEVC srcAV1 force ts).
Proof.
  unfold FallbackEncoders. split; intros Hp; rewrite Hp; cbn [negb]; [done|].
  pose proof (fallback_loop_spec (codecFamily primary) (vendorClass primary) available [primary])
    as Hl.
  destruct (fallback_loop _ _ available [primary]) as [hw seen].
  destruct Hl as (Hnd & Hhw & Hseen & Hsub).
  set (sw := softwareEncoderForFamily (codecFamily primary)).
  assert (sw ∉ hw) as Hsw.
  { intros H%Hhw. destruct H as (_ & _ & _ & H & _).
    by apply (hardware_not_software_family sw (codecFamily primary)) in H. }
  assert (sw ≠ primary) as Hsp by by apply hardware_not_software_family.
  destruct (mem sw seen) eqn:E.
  { apply mem_spec, Hseen in E. set_solver. }
  exists hw. split_and!; [done|done| |set_solver| |].
  - apply NoDup_app. split_and!; [done|set_solver|apply NoDup_singleton].
  - intros e He%Hhw. naive_solver.
  - intros e He. unfold ResolveVideoOutput.
    assert (codecFamily e = codecFamily primary ∧ IsVideoCopy e = false) as [Hf Hc].
    { apply elem_of_app in He as [He|He%list_elem_of_singleton].
      - apply Hhw in He as (_ & _ & ? & ? & _). by split; [|apply hardware_not_copy].
      - subst e sw. split; [apply softwareEncoderForFamily_family
                           |apply softwareEncoderForFamily_not_copy]. }
    rewrite Hc, (hardware_not_copy _ Hp).
    destruct (codecFamily_output e primary Hf) as [Ha Hh].
    destruct (IsAV1Encoder e) eqn:Ea.
    + by rewrite (AV1_not_HEVC e Ea), (AV1_not_HEVC primary), <- Ha.
    + by rewrite Hh, <- Ha.
Qed.

Lemma fits_level_mono_witness :
  FitsLevel "hevc" 40 1920 1080 f64_zero = true ∧ FitsLevel "hevc" 51 1920 1080 f64_zero = true.
Proof.
  split; [by vm_compute|].
  apply (fits_level_mono "hevc" 40 51 1920 1080 f64_zero); [by vm_compute; eexists|lia|by vm_compute].
Defined.

Lemma fallback_encoders_spec_witness :
  ∃ hw, FallbackEncoders "h264_nvenc" ["h264_nvenc"; "hevc_nvenc"; "h264_qsv"; "libx264"]
        = hw ++ ["libx264"].
Proof.
  destruct (fallback_encoders_spec "h264_nvenc"
    ["h264_nvenc"; "hevc_nvenc"; "h264_qsv"; "libx264"] false false false false) as [_ H].
  destruct (H ltac:(by vm_compute)) as (hw & Heq & _). exists hw. exact Heq.
Defined.
