(* ===== verification/Valkey.v ===== *)
(** The Valkey client ([internal/valkey/client.go]).

    The server and the go-redis driver are not part of the repository, so they
    are an interface: [Server] lists the commands the code issues, with the
    documented effect of each as a law on the observable keyspace [view].  The
    clients (rate limiter, leases, TOTP guards, segment tokens) are proved
    against the interface; [RefServer], at the end, is an executable instance
    that discharges the laws and on which witnesses run.

    Times are milliseconds.  A Lua script is one atomic step: the server runs
    its commands at one instant, so a script is a function composed of the
    commands at one [now]. *)
From S2P Require Import Prelude.
From S2P Require Import GoStrings.

Local Open Scope Z_scope.

(** * The keyspace as a client observes it *)
Inductive value :=
  | VStr (s : string)
  | VSet (m : gset string)
  | VZSet (z : gmap string Z).

(** A key's value and the instant it expires ([None]: never). *)
Record entry := mkEntry { e_val : value; e_deadline : option Z }.

(** The entry at a later instant: unchanged until its deadline, then gone. *)
Definition age (t : Z) (e : option entry) : option entry :=
  match e with
  | Some x =>
      match e_deadline x with
      | Some d => if t <? d then Some x else None
      | None => Some x
      end
  | None => None
  end.

(** A collection that became empty is no key at all. *)
Definition zentry (z : gmap string Z) (d : option Z) : option entry :=
  if decide (z = ∅) then None else Some (mkEntry (VZSet z) d).

(** The set held at a key, empty when there is no key. *)
Definition zset_of (e : option entry) : option (gmap string Z) :=
  match e with
  | None => Some ∅
  | Some (mkEntry (VZSet z) _) => Some z
  | _ => None
  end.
Definition set_of (e : option entry) : option (gset string) :=
  match e with
  | None => Some ∅
  | Some (mkEntry (VSet m) _) => Some m
  | _ => None
  end.
Definition deadline_of (e : option entry) : option Z := e ≫= e_deadline.

(** [s'] is [s] with [k] bound to [e], as seen at every instant from [now]. *)
Definition updated {S} (view : S → Z → string → option entry)
    (now : Z) (s s' : S) (k : string) (e : option entry) : Prop :=
  ∀ t, now ≤ t → ∀ k', view s' t k' = if decide (k' = k) then age t e else view s t k'.

(** * The interface

    One method per command the code issues; every law is the command's
    documented effect, on keys of the type the command works on. *)
Class Server (S : Type) := {
  view : S → Z → string → option entry;
  view_age : ∀ s now t k, now ≤ t → view s t k = age t (view s now k);

  c_get : S → Z → string → option string;
  c_get_none : ∀ s now k, view s now k = None → c_get s now k = None;
  c_get_some : ∀ s now k v d,
    view s now k = Some (mkEntry (VStr v) d) → c_get s now k = Some v;

  c_set : Z → string → string → Z → S → S;
  c_set_law : ∀ now k v ttl s, 0 < ttl →
    updated view now s (c_set now k v ttl s) k (Some (mkEntry (VStr v) (Some (now + ttl))));

  c_setnx : Z → string → string → Z → S → S * bool;
  c_setnx_free : ∀ now k v ttl s, 0 < ttl → view s now k = None →
    updated view now s (c_setnx now k v ttl s).1 k (Some (mkEntry (VStr v) (Some (now + ttl))))
    ∧ (c_setnx now k v ttl s).2 = true;
  c_setnx_held : ∀ now k v ttl s e, view s now k = Some e →
    (∀ t, now ≤ t → ∀ k', view (c_setnx now k v ttl s).1 t k' = view s t k')
    ∧ (c_setnx now k v ttl s).2 = false;

  c_del : Z → list string → S → S;
  c_del_law : ∀ now ks s t k', now ≤ t →
    view (c_del now ks s) t k' = if decide (k' ∈ ks) then None else view s t k';

  c_pexpire : Z → string → Z → S → S;
  c_pexpire_law : ∀ now k ttl s, 0 < ttl →
    updated view now s (c_pexpire now k ttl s) k
      ((λ e, mkEntry (e_val e) (Some (now + ttl))) <$> view s now k);

  c_incr : Z → string → S → S * Z;
  c_incr_law : ∀ now k s n d,
    (view s now k = None ∧ n = 0 ∧ d = None
     ∨ view s now k = Some (mkEntry (VStr (Itoa n)) d)) →
    0 ≤ n < int64_max →
    updated view now s (c_incr now k s).1 k (Some (mkEntry (VStr (Itoa (n + 1))) d))
    ∧ (c_incr now k s).2 = n + 1;

  c_sadd : Z → string → string → S → S;
  c_sadd_law : ∀ now k x s m, set_of (view s now k) = Some m →
    updated view now s (c_sadd now k x s) k
      (Some (mkEntry (VSet ({[x]} ∪ m)) (deadline_of (view s now k))));

  c_smembers : S → Z → string → list string;
  c_smembers_law : ∀ s now k m x, set_of (view s now k) = Some m →
    x ∈ c_smembers s now k ↔ x ∈ m;

  c_zremrangebyscore : Z → string → Z → S → S;
  c_zremrangebyscore_law : ∀ now k mx s z, zset_of (view s now k) = Some z →
    updated view now s (c_zremrangebyscore now k mx s) k
      (zentry (filter (λ p : string * Z, mx < p.2) z) (deadline_of (view s now k)));

  c_zcard : S → Z → string → Z;
  c_zcard_law : ∀ s now k z, zset_of (view s now k) = Some z →
    c_zcard s now k = Z.of_nat (size z);

  c_zadd : Z → string → Z → string → S → S;
  c_zadd_law : ∀ now k score x s z, zset_of (view s now k) = Some z →
    updated view now s (c_zadd now k score x s) k
      (zentry (<[x := score]> z) (deadline_of (view s now k)));

  (** Pops a member of least score; which one among equals is not used. *)
  c_zpopmin : Z → string → S → S;
  c_zpopmin_law : ∀ now k s z, zset_of (view s now k) = Some z →
    ∃ z', (z = ∅ ∧ z' = ∅
           ∨ ∃ x sc, z !! x = Some sc ∧ map_Forall (λ _ sc', sc ≤ sc') z ∧ z' = delete x z)
        ∧ updated view now s (c_zpopmin now k s) k (zentry z' (deadline_of (view s now k)));
}.
#[global] Hint Mode Server ! : typeclass_instances.

(** * Calls and their failures

    A call can fail because the caller's context ended or because the server
    was not reached; in both cases the command may or may not have run.  The
    environment chooses; the client only sees the error. *)
Inductive rerr := ErrCanceled | ErrDeadlineExceeded | ErrUnavailable.
Inductive fault := FOk | FLost (e : rerr) | FDown (e : rerr).

#[global] Instance rerr_eq_dec : EqDecision rerr.
Proof. solve_decision. Defined.

(** [errors.Is(err, context.Canceled) || errors.Is(err, context.DeadlineExceeded)] *)
Definition is_ctx_err (e : rerr) : bool :=
  match e with ErrCanceled | ErrDeadlineExceeded => true | ErrUnavailable => false end.

Definition call {S A} (f : fault) (cmd : S → S * A) (s : S) : S * (A + rerr) :=
  match f with
  | FOk => let '(s', a) := cmd s in (s', inl a)
  | FLost e => ((cmd s).1, inr e)
  | FDown e => (s, inr e)
  end.

Definition silent {S} (cmd : S → S) (s : S) : S * unit := (cmd s, tt).

Section Client.
Context {S : Type} `{Server S}.

(** ** The wrapped commands *)
Definition Set_ (f : fault) (now : Z) (key value : string) (ttl : Z) : S → S * (unit + rerr) :=
  call f (silent (c_set now key value ttl)).

(** [None] is [redis.Nil], the client's [ErrNotFound]. *)
Definition Get (f : fault) (now : Z) (key : string) (s : S) : option string + rerr :=
  (call f (λ s, (s, c_get s now key)) s).2.

Definition Del (f : fault) (now : Z) (keys : list string) : S → S * (unit + rerr) :=
  call f (silent (c_del now keys)).

Definition SetNX (f : fault) (now : Z) (key value : string) (ttl : Z) : S → S * (bool + rerr) :=
  call f (c_setnx now key value ttl).

Definition Expire (f : fault) (now : Z) (key : string) (ttl : Z) : S → S * (unit + rerr) :=
  call f (silent (c_pexpire now key ttl)).

Definition SAdd (f : fault) (now : Z) (key member : string) : S → S * (unit + rerr) :=
  call f (silent (c_sadd now key member)).

Definition SMembers (f : fault) (now : Z) (key : string) (s : S) : list string + rerr :=
  (call f (λ s, (s, c_smembers s now key)) s).2.

(** ** The compare-and-act scripts *)
Definition casDelete (now : Z) (key expected : string) (s : S) : S * Z :=
  if bool_decide (c_get s now key = Some expected) then (c_del now [key] s, 1) else (s, 0).

Definition casExpire (now : Z) (key expected : string) (ttl : Z) (s : S) : S * Z :=
  if bool_decide (c_get s now key = Some expected) then (c_pexpire now key ttl s, 1) else (s, 0).

Definition positive_reply (r : S * (Z + rerr)) : S * (bool + rerr) :=
  match r with
  | (s, inl n) => (s, inl (0 <? n))
  | (s, inr e) => (s, inr e)
  end.

Definition CompareAndDelete (f : fault) (now : Z) (key expected : string) (s : S) :
    S * (bool + rerr) :=
  positive_reply (call f (casDelete now key expected) s).

Definition CompareAndExpire (f : fault) (now : Z) (key expected : string) (ttl : Z) (s : S) :
    S * (bool + rerr) :=
  positive_reply (call f (casExpire now key expected ttl) s).

(** ** Shared lemmas *)
Lemma age_age (t t' : Z) (e : option entry) : t ≤ t' → age t' (age t e) = age t' e.
Proof.
  intros Ht. destruct e as [[v [d|]]|]; simpl; [|done|done].
  destruct (Z.ltb_spec t d); simpl; [done|]. destruct (Z.ltb_spec t' d); [lia|done].
Qed.

Lemma age_view (s : S) (t : Z) (k : string) : age t (view s t k) = view s t k.
Proof. symmetry. by apply view_age. Qed.

(** Keys that stay absent. *)
Lemma view_None_later (s : S) (now t : Z) (k : string) :
  now ≤ t → view s now k = None → view s t k = None.
Proof. intros Ht Hn. by rewrite (view_age s now t k Ht), Hn. Qed.

Lemma view_deadline (s : S) (t d : Z) (v : value) (k : string) :
  view s t k = Some (mkEntry v (Some d)) → t < d.
Proof.
  intros Hv. pose proof (age_view s t k) as Ha. rewrite Hv in Ha. simpl in Ha.
  destruct (Z.ltb_spec t d); [done|discriminate].
Qed.

Lemma view_later (s : S) (now t d : Z) (v : value) (k : string) :
  now ≤ t → view s now k = Some (mkEntry v (Some d)) →
  view s t k = if t <? d then Some (mkEntry v (Some d)) else None.
Proof. intros Ht Hv. by rewrite (view_age s now t k Ht), Hv. Qed.

Lemma updated_here (now : Z) (s s' : S) (k : string) (e : option entry) (t : Z) :
  updated view now s s' k e → now ≤ t → view s' t k = age t e.
Proof. intros Hu Ht. rewrite (Hu t Ht). by rewrite decide_True. Qed.

Lemma updated_other (now : Z) (s s' : S) (k k' : string) (e : option entry) (t : Z) :
  updated view now s s' k e → now ≤ t → k' ≠ k → view s' t k' = view s t k'.
Proof. intros Hu Ht Hk. rewrite (Hu t Ht). by rewrite decide_False. Qed.

(** The compare-and-act scripts leave a key that holds another value alone:
    what a lease relies on. *)
Definition unchanged (now : Z) (s s' : S) : Prop :=
  ∀ t, now ≤ t → ∀ k, view s' t k = view s t k.

Lemma unchanged_refl (now : Z) (s : S) : unchanged now s s.
Proof. intros t _ k. done. Qed.

Lemma call_cases {A} (f : fault) (cmd : S → S * A) (s : S) :
  (call f cmd s).1 = (cmd s).1 ∨ (call f cmd s).1 = s.
Proof. destruct f; simpl; [destruct (cmd s); by left|by left|by right]. Qed.

Lemma call_inl {A} (f : fault) (cmd : S → S * A) (s : S) (a : A) :
  (call f cmd s).2 = inl a → f = FOk ∧ (call f cmd s).1 = (cmd s).1 ∧ a = (cmd s).2.
Proof. destruct f; simpl; [|done|done]. destruct (cmd s). simpl. by intros [= ->]. Qed.

Lemma CompareAndDelete_other (f : fault) (now : Z) (key expected : string) (s : S) :
  c_get s now key ≠ Some expected → (CompareAndDelete f now key expected s).1 = s.
Proof.
  intros Hne. unfold CompareAndDelete, call, casDelete.
  rewrite bool_decide_false by done. by destruct f.
Qed.

Lemma CompareAndExpire_other (f : fault) (now : Z) (key expected : string) (ttl : Z) (s : S) :
  c_get s now key ≠ Some expected →
  (CompareAndExpire f now key expected ttl s).1 = s
  ∧ (CompareAndExpire f now key expected ttl s).2 ≠ inl true.
Proof.
  intros Hne. unfold CompareAndExpire, call, casExpire.
  rewrite bool_decide_false by done. by destruct f.
Qed.
End Client.

(** * A reference server

    The keyspace as a finite map of entries; expired entries are simply not
    seen.  It discharges every law of [Server], so a theorem over the interface
    is not vacuous, and it runs. *)
Module RefServer.
Abbreviation t := (gmap string entry).

Definition look (s : t) (now : Z) (k : string) : option entry := age now (s !! k).

Definition put (k : string) (e : option entry) (s : t) : t :=
  match e with Some x => <[k := x]> s | None => delete k s end.

Definition get (s : t) (now : Z) (k : string) : option string :=
  match look s now k with Some (mkEntry (VStr v) _) => Some v | _ => None end.

Definition setnx (now : Z) (k v : string) (ttl : Z) (s : t) : t * bool :=
  match look s now k with
  | Some _ => (s, false)
  | None => (put k (Some (mkEntry (VStr v) (Some (now + ttl)))) s, true)
  end.

Definition incr (now : Z) (k : string) (s : t) : t * Z :=
  let n := match get s now k with Some v => default 0 (Atoi v) | None => 0 end in
  (put k (Some (mkEntry (VStr (Itoa (n + 1))) (deadline_of (look s now k)))) s, n + 1).

Definition zget (s : t) (now : Z) (k : string) : gmap string Z :=
  default ∅ (zset_of (look s now k)).
Definition sget (s : t) (now : Z) (k : string) : gset string :=
  default ∅ (set_of (look s now k)).
Definition zput (now : Z) (k : string) (z : gmap string Z) (s : t) : t :=
  put k (zentry z (deadline_of (look s now k))) s.

(** The least-scored member, scanning the members in map order. *)
Definition least (z : gmap string Z) : option (string * Z) :=
  foldr (λ p best, match best with
                   | Some q => if p.2 <=? q.2 then Some p else best
                   | None => Some p
                   end) None (map_to_list z).

Definition zpopmin (now : Z) (k : string) (s : t) : t :=
  match least (zget s now k) with
  | Some p => zput now k (delete p.1 (zget s now k)) s
  | None => zput now k ∅ s
  end.

Lemma put_updated (now : Z) (k : string) (e : option entry) (s : t) :
  updated look now s (put k e s) k e.
Proof.
  intros t' _ k'. unfold look, put. case_decide as Hk; destruct e as [x|]; subst; cbv iota.
  - by rewrite lookup_insert_eq.
  - by rewrite lookup_delete_eq.
  - by rewrite lookup_insert_ne by congruence.
  - by rewrite lookup_delete_ne by congruence.
Qed.

Lemma look_age (s : t) (now t' : Z) (k : string) :
  now ≤ t' → look s t' k = age t' (look s now k).
Proof. intros Ht. unfold look. by rewrite age_age. Qed.

Lemma updated_id (now : Z) (s : t) (k : string) :
  updated look now s s k (look s now k).
Proof. intros t' Ht k'. case_decide; [subst; by apply look_age|done]. Qed.

Lemma least_foldr (l : list (string * Z)) :
  match foldr (λ p best, match best with
                   | Some q => if p.2 <=? q.2 then Some p else best
                   | None => Some p
                   end) None l with
  | Some p => p ∈ l ∧ ∀ q, q ∈ l → p.2 ≤ q.2
  | None => l = []
  end.
Proof.
  induction l as [|p l IH]; simpl; [done|]. destruct (foldr _ _ _) as [q|].
  - destruct IH as [Hq Hmin]. destruct (Z.leb_spec p.2 q.2) as [Hle|Hgt].
    + split; [left|]. intros r [->|Hr]%elem_of_cons; [lia|]. specialize (Hmin r Hr). lia.
    + split; [by right|]. intros r [->|Hr]%elem_of_cons; [lia|auto].
  - subst. split; [left|]. intros r [->|Hr]%elem_of_cons; [lia|by apply not_elem_of_nil in Hr].
Qed.

Lemma least_spec (z : gmap string Z) :
  match least z with
  | Some p => z !! p.1 = Some p.2 ∧ map_Forall (λ _ sc, p.2 ≤ sc) z
  | None => z = ∅
  end.
Proof.
  pose proof (least_foldr (map_to_list z)) as H. unfold least. destruct (foldr _ _ _) as [p|].
  - destruct H as [Hp Hmin]. destruct p as [x sc]. apply elem_of_map_to_list in Hp.
    split; [done|]. intros y sc' Hy. apply (Hmin (y, sc')). by apply elem_of_map_to_list.
  - by apply map_to_list_empty_iff.
Qed.

Lemma zput_updated (now : Z) (k : string) (z : gmap string Z) (s : t) :
  updated look now s (zput now k z s) k (zentry z (deadline_of (look s now k))).
Proof. apply put_updated. Qed.

Lemma zget_eq (s : t) (now : Z) (k : string) (z : gmap string Z) :
  zset_of (look s now k) = Some z → zget s now k = z.
Proof. unfold zget. by intros ->. Qed.

Lemma sget_eq (s : t) (now : Z) (k : string) (m : gset string) :
  set_of (look s now k) = Some m → sget s now k = m.
Proof. unfold sget. by intros ->. Qed.

Lemma del_spec (ks : list string) (s : t) (t' : Z) (k' : string) :
  look (foldr delete s ks) t' k' = if decide (k' ∈ ks) then None else look s t' k'.
Proof.
  unfold look. induction ks as [|k ks IH]; cbn [foldr].
  - by rewrite decide_False by apply not_elem_of_nil.
  - destruct (decide (k = k')) as [->|Hne].
    + rewrite lookup_delete_eq, decide_True; [done|left].
    + rewrite lookup_delete_ne by done. rewrite IH.
      destruct (decide (k' ∈ ks)) as [Hin|Hnin].
      * rewrite decide_True; [done|by right].
      * rewrite decide_False; [done|]. intros [?|?]%elem_of_cons; congruence.
Qed.

Lemma incr_spec (now : Z) (k : string) (s : t) (n : Z) (d : option Z) :
  (look s now k = None ∧ n = 0 ∧ d = None
   ∨ look s now k = Some (mkEntry (VStr (Itoa n)) d)) →
  0 ≤ n < int64_max →
  updated look now s (incr now k s).1 k (Some (mkEntry (VStr (Itoa (n + 1))) d))
  ∧ (incr now k s).2 = n + 1.
Proof.
  intros Hk Hn.
  assert (match get s now k with Some v => default 0 (Atoi v) | None => 0 end = n) as Hget.
  { unfold get. destruct Hk as [(-> & -> & ->)| ->]; [done|].
    by rewrite Atoi_Itoa by (unfold in_int64, int64_min, int64_max in *; lia). }
  assert (deadline_of (look s now k) = d) as Hd by (by destruct Hk as [(-> & -> & ->)| ->]).
  unfold incr. rewrite Hget, Hd. split; [apply put_updated|done].
Qed.

Lemma zpopmin_spec (now : Z) (k : string) (s : t) (z : gmap string Z) :
  zset_of (look s now k) = Some z →
  ∃ z', (z = ∅ ∧ z' = ∅
         ∨ ∃ x sc, z !! x = Some sc ∧ map_Forall (λ _ sc', sc ≤ sc') z ∧ z' = delete x z)
      ∧ updated look now s (zpopmin now k s) k (zentry z' (deadline_of (look s now k))).
Proof.
  intros Hz. unfold zpopmin. rewrite (zget_eq _ _ _ _ Hz).
  pose proof (least_spec z) as Hl. destruct (least z) as [[x sc]|].
  - destruct Hl as [Hx Hmin]. exists (delete x z). split; [right; by exists x, sc|].
    apply zput_updated.
  - subst z. exists ∅. split; [by left|]. apply zput_updated.
Qed.

Lemma setnx_spec (now : Z) (k v : string) (ttl : Z) (s : t) :
  match look s now k with
  | None => updated look now s (setnx now k v ttl s).1 k
              (Some (mkEntry (VStr v) (Some (now + ttl)))) ∧ (setnx now k v ttl s).2 = true
  | Some _ => setnx now k v ttl s = (s, false)
  end.
Proof.
  unfold setnx. destruct (look s now k); [done|]. split; [apply put_updated|done].
Qed.

#[global] Instance server : Server t.
Proof.
  refine (Build_Server t look look_age get _ _
    (λ now k v ttl, put k (Some (mkEntry (VStr v) (Some (now + ttl))))) _
    setnx _ _
    (λ _ ks s, foldr delete s ks) _
    (λ now k ttl s, put k ((λ e, mkEntry (e_val e) (Some (now + ttl))) <$> look s now k) s) _
    incr _
    (λ now k x s, put k (Some (mkEntry (VSet ({[x]} ∪ sget s now k))
                                 (deadline_of (look s now k)))) s) _
    (λ s now k, elements (sget s now k)) _
    (λ now k mx s, zput now k (filter (λ p : string * Z, mx < p.2) (zget s now k)) s) _
    (λ s now k, Z.of_nat (size (zget s now k))) _
    (λ now k score x s, zput now k (<[x := score]> (zget s now k)) s) _
    zpopmin _).
  - intros s now k Hv. unfold get. by rewrite Hv.
  - intros s now k v d Hv. unfold get. by rewrite Hv.
  - intros. apply put_updated.
  - intros now k v ttl s _ Hv. pose proof (setnx_spec now k v ttl s) as H. by rewrite Hv in H.
  - intros now k v ttl s e Hv. pose proof (setnx_spec now k v ttl s) as H. rewrite Hv in H.
    by rewrite H.
  - intros now ks s t' k' _. apply del_spec.
  - intros. apply put_updated.
  - intros. by apply incr_spec.
  - intros now k x s m Hm. rewrite (sget_eq _ _ _ _ Hm). apply put_updated.
  - intros s now k m x Hm. rewrite (sget_eq _ _ _ _ Hm). apply elem_of_elements.
  - intros now k mx s z Hz. rewrite (zget_eq _ _ _ _ Hz). apply zput_updated.
  - intros s now k z Hz. by rewrite (zget_eq _ _ _ _ Hz).
  - intros now k score x s z Hz. rewrite (zget_eq _ _ _ _ Hz). apply zput_updated.
  - intros now k s z. apply zpopmin_spec.
Defined.
End RefServer.
