(* ===== verification/RateLimit.v ===== *)
(** Rate limiting: [internal/valkey/ratelimit.go] and
    [internal/api/middleware/ratelimit.go].

    The two Lua scripts are functions over the server interface; [allow],
    [CheckFailures], [IncrFailure], [ResetFailures] and [Failures] add the Go
    error branches; [RateLimit] is the HTTP middleware.  Go instants and
    durations are nanoseconds, the server's clock is milliseconds.  Logging is
    not modelled; the fail-open counter is. *)
From S2P Require Import Prelude.
From S2P Require Import GoStrings.
From S2P Require Import Valkey.

Local Open Scope Z_scope.

(** [time.Time.UnixMilli], [time.Duration.Milliseconds] *)
Definition UnixMilli (t : Z) : Z := t / 1000000.
Definition Milliseconds (d : Z) : Z := Z.quot d 1000000.
Definition second : Z := 1000000000.

(** * The limiter *)
Section Limiter.
Context {S : Type} `{Server S}.

(** What the limiter acts on: the server, and how often [failOpenCounter] was
    called (never, when none is configured). *)
Record state := mkState { srv : S; failOpens : Z }.

#[global] Instance eta_state : Eta state := λ r, mkState (srv r) (failOpens r).

Record RateLimiter := mkRateLimiter { failOpenCounter : bool }.

Definition count_fail_open (r : RateLimiter) (st : state) : state :=
  if failOpenCounter r then st <| failOpens ::= Z.add 1 |> else st.

(** ** Sliding window

    [at_] is the server's clock when the script runs; [now] the caller's. *)
Definition window_member (now count : Z) : string := Itoa now +:+ String "-" (Itoa count).

Definition slidingWindowScript (at_ : Z) (key : string) (now window limit : Z) (s : S) :
    S * (Z * Z) :=
  let clearBefore := now - window in
  let s := c_zremrangebyscore at_ key clearBefore s in
  let count := c_zcard s at_ key in
  if limit <=? count then (s, (0, 0))
  else
    let s := c_zadd at_ key now (window_member now count) s in
    let s := c_pexpire at_ key window s in
    (s, (1, limit - count - 1)).

Record verdict := mkVerdict {
  allowed : bool; remaining : Z; resetAt : option Z; err : option rerr }.

(** [now] and [now'] are the two readings of the Go clock, around the call. *)
Definition allow (r : RateLimiter) (f : fault) (now at_ now' : Z)
    (key : string) (limit window : Z) (failClosed : bool) (st : state) : state * verdict :=
  let '(s, results) :=
    call f (slidingWindowScript at_ key (UnixMilli now) (Milliseconds window) limit) (srv st) in
  let st := st <| srv := s |> in
  match results with
  | inr e =>
      if is_ctx_err e then (st, mkVerdict false 0 None (Some e))
      else if failClosed then (st, mkVerdict false 0 None (Some e))
      else (count_fail_open r st, mkVerdict true 0 None None)
  | inl (ok, rem) => (st, mkVerdict (ok =? 1) rem (Some (now' + window)) None)
  end.

Definition Allow r f now at_ now' key limit window :=
  allow r f now at_ now' key limit window false.
Definition AllowFailClosed r f now at_ now' key limit window :=
  allow r f now at_ now' key limit window true.

(** ** Failure throttle *)
Definition failurePendingTTL : Z := 60 * second.
Definition failurePendingKey (key : string) : string := key +:+ ":pending".

(** Lua's [tonumber] on a reply: nil when there is no value or it is no number
    (the counter only ever holds a decimal integer). *)
Definition tonumber (v : option string) : option Z := v ≫= Atoi.

Definition failureReserveScript (at_ : Z) (key pkey : string) (limit now ttl : Z)
    (member : string) (s : S) : S * Z :=
  let s := c_zremrangebyscore at_ pkey now s in
  let failures := default 0 (tonumber (c_get s at_ key)) in
  let pending := c_zcard s at_ pkey in
  if limit <=? failures + pending then (s, -1)
  else
    let s := c_zadd at_ pkey (now + ttl) member s in
    let s := c_pexpire at_ pkey ttl s in
    (s, failures + pending).

Definition failureCommitScript (at_ : Z) (key pkey : string) (window : Z) (s : S) : S * Z :=
  let '(s, n) := c_incr at_ key s in
  let s := c_pexpire at_ key window s in
  let s := c_zpopmin at_ pkey s in
  (s, n).

(** [reservationID] draws the member from crypto/rand; [None] is its failure. *)
Definition CheckFailures (r : RateLimiter) (f : fault) (now at_ : Z) (key : string) (limit : Z)
    (reservationID : option string) (st : state) : state * (bool * option rerr) :=
  match reservationID with
  | None => (st, (false, Some ErrUnavailable))
  | Some member =>
      let '(s, res) :=
        call f (failureReserveScript at_ key (failurePendingKey key) limit (UnixMilli now)
                  (Milliseconds failurePendingTTL) member) (srv st) in
      let st := st <| srv := s |> in
      match res with
      | inr e =>
          if is_ctx_err e then (st, (false, Some e))
          else (count_fail_open r st, (true, None))
      | inl n => (st, (0 <=? n, None))
      end
  end.

Definition IncrFailure (f : fault) (at_ : Z) (key : string) (window : Z) (st : state) : state :=
  st <| srv := (call f (failureCommitScript at_ key (failurePendingKey key)
                          (Milliseconds window)) (srv st)).1 |>.

Definition ResetFailures (f : fault) (at_ : Z) (key : string) (st : state) : state :=
  st <| srv := (Del f at_ [key; failurePendingKey key] (srv st)).1 |>.

(** [Get(key).Int()]: a value that is no integer is an error like any other. *)
Definition Failures (r : RateLimiter) (f : fault) (at_ : Z) (key : string) (st : state) :
    state * (Z * option rerr) :=
  match Get f at_ key (srv st) with
  | inl None => (st, (0, None))
  | inl (Some v) =>
      match Atoi v with
      | Some n => (st, (n, None))
      | None => (count_fail_open r st, (0, None))
      end
  | inr e => if is_ctx_err e then (st, (0, Some e)) else (count_fail_open r st, (0, None))
  end.

(** * The middleware *)
Record RateLimitConfig := mkRateLimitConfig { Limit : Z; Window : Z; FailClosed : bool }.

(** Headers set on the way, then either the next handler runs or an error
    envelope is written. *)
Inductive response :=
  | Next
  | Error (status : Z) (code message : string).

Definition reset_headers (resetAt : option Z) (now'' : Z) : list (string * string) :=
  match resetAt with
  | Some t =>
      [("X-RateLimit-Reset", Itoa (t / second));
       ("Retry-After", Itoa (Z.quot (t - now'') second))]
  | None => []
  end.

(** [key] is what [keyFn] extracted; [now''] the clock read by [time.Until]. *)
Definition RateLimit (r : RateLimiter) (cfg : RateLimitConfig) (f : fault)
    (now at_ now' now'' : Z) (key : string) (st : state) :
    state * (list (string * string) * response) :=
  let allow := if FailClosed cfg then AllowFailClosed else Allow in
  let '(st, v) := allow r f now at_ now' key (Limit cfg) (Window cfg) st in
  match err v with
  | Some _ => (st, ([], Error 503 "RATE_LIMITER_UNAVAILABLE" "request cancelled"))
  | None =>
      let headers :=
        [("X-RateLimit-Limit", Itoa (Limit cfg)); ("X-RateLimit-Remaining", Itoa (remaining v))]
        ++ reset_headers (resetAt v) now'' in
      if negb (allowed v) then (st, (headers, Error 429 "RATE_LIMITED" "rate limit exceeded"))
      else (st, (headers, Next))
  end.
End Limiter.
#[global] Arguments state : clear implicits.
#[global] Arguments mkState {_} _ _.

(** [resolveLimit]: [raw] is the environment variable, empty when unset. *)
Definition resolveLimit (raw : string) (fallback : Z) : Z :=
  if String.eqb raw "" then fallback
  else match Atoi raw with
       | Some n => if n <=? 0 then fallback else n
       | None => fallback
       end.

(** [strconv.ParseBool] *)
Definition ParseBool (s : string) : option bool :=
  if mem s ["1"; "t"; "T"; "true"; "TRUE"; "True"] then Some true
  else if mem s ["0"; "f"; "F"; "false"; "FALSE"; "False"] then Some false
  else None.

Definition resolveBool (raw : string) (fallback : bool) : bool :=
  if String.eqb raw "" then fallback else default fallback (ParseBool raw).

Definition minute : Z := 60 * second.
Definition authLimitDefault : Z := 10.
Definition transcodeStartLimitDefault : Z := 10.

(** The endpoint classes; [env] is the process environment at start. *)
Section Limits.
Context (env : string → string).
Definition AuthLimit : RateLimitConfig :=
  mkRateLimitConfig (resolveLimit (env "OS_AUTH_RATE_LIMIT_PER_MIN") authLimitDefault) minute
    (resolveBool (env "OS_AUTH_RATE_LIMIT_FAIL_CLOSED") false).
Definition SessionLimit : RateLimitConfig := mkRateLimitConfig 1000 minute false.
Definition PairLimit : RateLimitConfig := mkRateLimitConfig 60 minute false.
Definition TranscodeStartLimit : RateLimitConfig :=
  mkRateLimitConfig
    (resolveLimit (env "OS_TRANSCODE_START_RATE_LIMIT_PER_MIN") transcodeStartLimitDefault)
    minute false.
Definition DiscoverLimit : RateLimitConfig := mkRateLimitConfig 60 minute false.
Definition SubtitlesLimit : RateLimitConfig := mkRateLimitConfig 30 minute false.
Definition ScrobbleLinkLimit : RateLimitConfig := mkRateLimitConfig 30 minute false.
Definition ArrWebhookLimit : RateLimitConfig := mkRateLimitConfig 120 minute false.
Definition DigestUnsubscribeLimit : RateLimitConfig := mkRateLimitConfig 30 minute false.
End Limits.

(** * What the rate limiter guarantees.

    The sliding window refines a list of accepted instants; hence no window of
    its length ever holds more than [limit] accepted requests, and a
    fail-closed limiter keeps that bound under any failure of the server.  Their
    witnesses are in [Throttle], with the failure throttle. *)
(** * Sorted sets *)
Notation above c := (filter (λ p : string * Z, c < p.2)).
Notation after c := (filter (λ x : Z, c < x)).

Lemma zset_of_zentry (z : gmap string Z) (d : option Z) : zset_of (zentry z d) = Some z.
Proof. unfold zentry. case_decide; by subst. Qed.

Lemma zentry_nonempty (z : gmap string Z) (d : option Z) :
  z ≠ ∅ → zentry z d = Some (mkEntry (VZSet z) d).
Proof. intros Hz. unfold zentry. by rewrite decide_False. Qed.

Lemma zentry_insert (z : gmap string Z) (x : string) (sc : Z) (d : option Z) :
  zentry (<[x := sc]> z) d = Some (mkEntry (VZSet (<[x := sc]> z)) d).
Proof. apply zentry_nonempty, insert_non_empty. Qed.

Lemma above_insert (c sc : Z) (x : string) (z : gmap string Z) :
  z !! x = None →
  size (above c (<[x := sc]> z)) = ((if decide (c < sc)%Z then 1 else 0) + size (above c z))%nat.
Proof.
  intros Hx. destruct (decide (c < sc)) as [Hc|Hc].
  - rewrite map_filter_insert_True by done. rewrite map_size_insert_None; [done|].
    apply map_lookup_filter_None. by left.
  - rewrite map_filter_insert_False by done. by rewrite delete_id.
Qed.

Lemma above_above (c c' : Z) (z : gmap string Z) :
  above c (above c' z) = above (c `max` c') z.
Proof.
  rewrite map_filter_filter. apply map_filter_ext. intros x sc _. simpl. lia.
Qed.

Lemma above_all (c : Z) (z : gmap string Z) :
  map_Forall (λ _ sc, c < sc) z → above c z = z.
Proof. intros Hz. apply map_filter_id. intros x sc Hx. by apply (Hz x sc). Qed.

(** * The commands on a sorted-set key *)
Section Commands.
Context {S : Type} `{Server S}.
Implicit Types (s : S) (z : gmap string Z) (d : option Z).

Lemma prune_now s t key mx z :
  zset_of (view s t key) = Some z →
  view (c_zremrangebyscore t key mx s) t key
  = age t (zentry (above mx z) (deadline_of (view s t key))).
Proof.
  intros Hz. by rewrite (updated_here _ _ _ _ _ t (c_zremrangebyscore_law t key mx s z Hz)).
Qed.

Lemma age_zentry_live (t : Z) z d :
  (∀ D, d = Some D → t < D) → age t (zentry z d) = zentry z d.
Proof.
  intros Hd. unfold zentry. case_decide; [done|]. simpl. destruct d as [D|]; [|done].
  by rewrite (proj2 (Z.ltb_lt t D) (Hd D eq_refl)).
Qed.

Lemma prune_spec s t0 t key mx z d :
  view s t0 key = zentry z d → t0 ≤ t →
  (∀ D, d = Some D → D ≤ t → above mx z = ∅) →
  view (c_zremrangebyscore t key mx s) t key = zentry (above mx z) d.
Proof.
  intros Hv Ht Hexp. pose proof (view_age s t0 t key Ht) as Ha. rewrite Hv in Ha.
  assert ((∃ D, d = Some D ∧ D ≤ t) ∨ ∀ D, d = Some D → t < D) as [(D & -> & HD)|Hd].
  { destruct d as [D|]; [|by right]. destruct (Z.ltb_spec t D) as [Hlt|Hge].
    - right. by intros ? [= <-].
    - left. by exists D. }
  - rewrite (Hexp D eq_refl HD). rewrite (prune_now s t key mx ∅).
    + rewrite map_filter_empty. unfold zentry. by rewrite !decide_True.
    + rewrite Ha. unfold zentry. case_decide; [done|]. simpl.
      by rewrite (proj2 (Z.ltb_ge t D) HD).
  - rewrite age_zentry_live in Ha by done. rewrite (prune_now s t key mx z).
    + rewrite Ha. unfold zentry at 2. case_decide as Hz.
      * subst. rewrite map_filter_empty. unfold zentry. by rewrite !decide_True.
      * by apply age_zentry_live.
    + by rewrite Ha, zset_of_zentry.
Qed.

Lemma zset_of_age (t : Z) z d : ∃ z', zset_of (age t (zentry z d)) = Some z'.
Proof.
  unfold zentry. case_decide; [by exists ∅|]. simpl. destruct d as [D|]; [|by exists z].
  destruct (t <? D); [by exists z|by exists ∅].
Qed.

Lemma prune_other s t0 t t' key key' mx z d :
  view s t0 key = zentry z d → t0 ≤ t → t ≤ t' → key' ≠ key →
  view (c_zremrangebyscore t key mx s) t' key' = view s t' key'.
Proof.
  intros Hv Ht Ht' Hk. destruct (zset_of_age t z d) as [z' Hz'].
  eapply updated_other; [|done|done]. apply c_zremrangebyscore_law with (z := z').
  by rewrite (view_age s t0 t key Ht), Hv.
Qed.

Lemma zcard_spec s t key z d :
  view s t key = zentry z d → c_zcard s t key = Z.of_nat (size z).
Proof. intros Hv. apply c_zcard_law. by rewrite Hv, zset_of_zentry. Qed.

Lemma zadd_pexpire_spec s t key sc x ttl z d :
  0 < ttl → view s t key = zentry z d →
  updated view t s (c_pexpire t key ttl (c_zadd t key sc x s)) key
    (zentry (<[x := sc]> z) (Some (t + ttl))).
Proof.
  intros Httl Hv t' Ht k'.
  assert (zset_of (view s t key) = Some z) as Hz by (by rewrite Hv, zset_of_zentry).
  pose proof (c_zadd_law t key sc x s z Hz) as Ha.
  rewrite (c_pexpire_law t key ttl _ Httl t' Ht k'). case_decide as Hk.
  - rewrite (updated_here _ _ _ _ _ t Ha (Z.le_refl _)), zentry_insert, zentry_insert.
    simpl. assert (deadline_of (view s t key) = None ∨ ∃ D, deadline_of (view s t key) = Some D ∧ t < D)
      as [->|(D & -> & HD)].
    { destruct (view s t key) as [[v [D|]]|] eqn:E; simpl; [right|by left|by left].
      exists D. split; [done|by eapply view_deadline]. }
    + done.
    + by rewrite (proj2 (Z.ltb_lt t D) HD).
  - by rewrite (updated_other _ _ _ _ _ _ _ Ha Ht Hk).
Qed.
End Commands.

(** * The sliding window refines a log of accepted instants *)

(** The specification: accept while fewer than [limit] accepted instants lie in
    the last [w] milliseconds. *)
Definition log_count (w now : Z) (log : list Z) : Z :=
  Z.of_nat (length (after (now - w) log)).
Definition log_accepts (limit w now : Z) (log : list Z) : bool := log_count w now log <? limit.
Definition log_step (limit w now : Z) (log : list Z) : list Z :=
  if log_accepts limit w now log then now :: log else log.

(** The sorted set [z] (expiring at [d]) stands for [log] at [last]. *)
Record stands_for (w last : Z) (log : list Z) (z : gmap string Z) (d : option Z) : Prop := {
  sf_member : ∀ x sc, z !! x = Some sc →
    0 ≤ sc ∧ last - w < sc ≤ last
    ∧ ∃ n, x = window_member sc n ∧ (sc = last → n < Z.of_nat (size z));
  sf_count : ∀ c, last - w ≤ c → size (above c z) = length (after c log);
  sf_expiry : ∀ D x sc, d = Some D → z !! x = Some sc → sc ≤ D - w }.

Section Window.
Context {S : Type} `{Server S}.
Implicit Types (s : S) (log : list Z).
Variables (key : string) (limit w : Z).
Hypothesis w_pos : 0 < w.

Definition windowed (last : Z) s log : Prop :=
  ∃ z d, view s last key = zentry z d ∧ stands_for w last log z d.

Lemma windowed_start (last : Z) s : view s last key = None → windowed last s [].
Proof.
  intros Hv. exists ∅, None. split; [by rewrite Hv|]. split.
  - intros x sc Hx. by rewrite lookup_empty in Hx.
  - intros c _. by rewrite map_filter_empty.
  - done.
Qed.

(** Moving on to [now]: entries that left the window are dropped, and the
    member the script would add is new. *)
Lemma stands_for_prune (last now : Z) log z d :
  stands_for w last log z d → last ≤ now → stands_for w now log (above (now - w) z) d.
Proof.
  intros [Hm Hc Hd] Hle. split.
  - intros x sc [Hx Hsc]%map_lookup_filter_Some. simpl in Hsc.
    destruct (Hm x sc Hx) as (H0 & Hr & n & -> & Hn). split; [done|]. split; [lia|].
    exists n. split; [done|]. intros ->. assert (now = last) as -> by lia.
    rewrite above_all; [by apply Hn|]. intros y sc' Hy. by apply (Hm y sc' Hy).
  - intros c Hcn. rewrite above_above, Z.max_l by lia. apply Hc. lia.
  - intros D x sc HD [Hx _]%map_lookup_filter_Some. by eapply Hd.
Qed.

Lemma stands_for_fresh (now : Z) log z d :
  stands_for w now log z d → 0 ≤ now → z !! window_member now (Z.of_nat (size z)) = None.
Proof.
  intros [Hm _ _] Hnow. destruct (z !! _) as [sc|] eqn:E; [|done]. exfalso.
  destruct (Hm _ _ E) as (H0 & _ & n & He & Hn).
  apply (Itoa_pair_inj "-") in He as [Hsc Hs]; [|done|done|done].
  specialize (Hn (eq_sym Hsc)). lia.
Qed.

Lemma stands_for_add (now : Z) log z d :
  stands_for w now log z d → 0 ≤ now →
  stands_for w now (now :: log)
    (<[window_member now (Z.of_nat (size z)) := now]> z) (Some (now + w)).
Proof.
  intros Hs Hnow. pose proof (stands_for_fresh _ _ _ _ Hs Hnow) as Hf.
  destruct Hs as [Hm Hc _]. split.
  - intros x sc Hx. rewrite map_size_insert_None by done.
    apply lookup_insert_Some in Hx as [[<- <-]|[_ Hx]].
    + split; [done|]. split; [lia|]. exists (Z.of_nat (size z)). split; [done|]. lia.
    + destruct (Hm x sc Hx) as (H0 & Hr & n & -> & Hn). split; [done|]. split; [lia|].
      exists n. split; [done|]. intros Hsc. specialize (Hn Hsc). lia.
  - intros c Hcn. rewrite above_insert by done. rewrite (Hc c Hcn).
    destruct (decide (c < now)) as [Hlt|Hge].
    + by rewrite filter_cons_True.
    + by rewrite filter_cons_False.
  - intros D x sc [= <-] Hx. apply lookup_insert_Some in Hx as [[_ <-]|[_ Hx]]; [lia|].
    destruct (Hm x sc Hx) as (_ & Hr & _). lia.
Qed.

(** One run of the script is one step of the specification. *)
Lemma script_refines (last now : Z) s log :
  windowed last s log → last ≤ now → 0 ≤ now →
  let '(s', reply) := slidingWindowScript now key now w limit s in
  windowed now s' (log_step limit w now log)
  ∧ reply = if log_accepts limit w now log
            then (1, limit - log_count w now log - 1) else (0, 0).
Proof.
  intros (z & d & Hv & Hz) Hle H0. unfold slidingWindowScript.
  pose proof (stands_for_prune last now log z d Hz Hle) as Hz'.
  assert (view (c_zremrangebyscore now key (now - w) s) now key
          = zentry (above (now - w) z) d) as Hv'.
  { apply prune_spec with (t0 := last) (z := z); [done|done|]. intros D HD Hexp.
    apply map_empty. intros x. apply map_lookup_filter_None. right. intros sc Hx. simpl.
    pose proof (sf_expiry _ _ _ _ _ Hz D x sc HD Hx). lia. }
  rewrite (zcard_spec _ _ _ _ _ Hv').
  assert (Z.of_nat (size (above (now - w) z)) = log_count w now log) as Hcount.
  { unfold log_count. rewrite <- (sf_count _ _ _ _ _ Hz' (now - w)) by lia.
    by rewrite above_above, Z.max_id. }
  unfold log_step, log_accepts. rewrite Hcount, Z.leb_antisym.
  destruct (Z.ltb_spec (log_count w now log) limit) as [Hlt|Hge]; simpl.
  - split; [|done]. rewrite <- Hcount.
    exists (<[window_member now (Z.of_nat (size (above (now - w) z))) := now]> (above (now - w) z)),
      (Some (now + w)).
    split; [|by eapply stands_for_add].
    rewrite (updated_here _ _ _ _ _ now (zadd_pexpire_spec _ _ _ _ _ _ _ _ w_pos Hv')) by lia.
    rewrite zentry_insert. simpl. by rewrite (proj2 (Z.ltb_lt now (now + w))) by lia.
  - split; [|done]. by exists (above (now - w) z), d.
Qed.

(** ** Requests under one key

    Requests reach the limiter in the order of their clock readings, and the
    server's clock is the caller's; each call may fail in any way. *)
Record request := mkRequest { rq_fault : fault; rq_now : Z; rq_now' : Z }.
Definition rq_ms (q : request) : Z := UnixMilli (rq_now q).
Definition in_order (last : Z) (qs : list request) : Prop :=
  StronglySorted Z.le (last :: (rq_ms <$> qs)).

Fixpoint serve (r : RateLimiter) (window : Z) (failClosed : bool) (qs : list request)
    (st : state S) : list (Z * verdict) :=
  match qs with
  | [] => []
  | q :: qs =>
      let '(st, v) := allow r (rq_fault q) (rq_now q) (rq_ms q) (rq_now' q) key limit window
                        failClosed st in
      (rq_ms q, v) :: serve r window failClosed qs st
  end.

Fixpoint spec_serve (window : Z) (qs : list request) (log : list Z) : list (Z * verdict) :=
  match qs with
  | [] => []
  | q :: qs =>
      let now := rq_ms q in
      let ok := log_accepts limit w now log in
      (now, mkVerdict ok (if ok then limit - log_count w now log - 1 else 0)
              (Some (rq_now' q + window)) None)
      :: spec_serve window qs (log_step limit w now log)
  end.

Definition accepted (vs : list (Z * verdict)) : list Z :=
  omap (λ p, if allowed p.2 then Some p.1 else None) vs.

Lemma in_order_cons (last : Z) (q : request) (qs : list request) :
  in_order last (q :: qs) → last ≤ rq_ms q ∧ in_order (rq_ms q) qs.
Proof.
  intros Ho. unfold in_order in Ho. rewrite fmap_cons in Ho.
  apply StronglySorted_inv in Ho as [Hs Hf]. inversion Hf; subst. done.
Qed.

Lemma serve_spec r window failClosed qs st last log :
  w = Milliseconds window → windowed last (srv st) log → 0 ≤ last → in_order last qs →
  Forall (λ q, rq_fault q = FOk) qs →
  serve r window failClosed qs st = spec_serve window qs log.
Proof.
  intros Hw. revert st last log. induction qs as [|q qs IH]; intros st last log Hwin H0 Ho Hf; [done|].
  apply in_order_cons in Ho as [Hle Ho]. inversion Hf as [|? ? Hq Hf']; subst.
  simpl. unfold allow, call. rewrite Hq, <- Hw.
  pose proof (script_refines last (rq_ms q) (srv st) log Hwin Hle ltac:(lia)) as Hstep.
  fold (rq_ms q). destruct (slidingWindowScript _ _ _ _ _ _) as [s' [ok rem]].
  destruct Hstep as [Hwin' Hr]. rewrite (IH _ (rq_ms q) (log_step limit w (rq_ms q) log));
    [|done|lia|done|done].
  destruct (log_accepts _ _ _ _); by simplify_eq.
Qed.

(** ** No window holds more than [limit] *)
Definition between (t : Z) (l : list Z) : list Z := filter (λ x, t - w < x ∧ x ≤ t) l.
Definition bounded (l : list Z) : Prop :=
  ∀ t, Z.of_nat (length (between t l)) ≤ 0 `max` limit.

Lemma log_step_bounded (now : Z) log :
  bounded log → Forall (λ x, x ≤ now) log → bounded (log_step limit w now log).
Proof.
  intros Hb Hle t. unfold log_step, log_accepts, log_count.
  destruct (Z.ltb_spec (Z.of_nat (length (after (now - w) log))) limit) as [Hlt|]; [|apply Hb].
  unfold between. destruct (decide (t - w < now ∧ now ≤ t)) as [Hin|Hout].
  - rewrite filter_cons_True by done. simpl.
    assert (length (between t log) ≤ length (after (now - w) log))%nat as Hsub.
    { apply sublist_length. unfold between.
      clear Hlt Hb. induction log as [|x log IH]; [done|]. inversion Hle; subst.
      rewrite !filter_cons. destruct (decide (t - w < x ∧ x ≤ t)); [|case_decide; auto using sublist_cons].
      rewrite decide_True by lia. constructor. auto. }
    unfold between in Hsub. lia.
  - rewrite filter_cons_False by done. apply Hb.
Qed.

Lemma submseteq_bounded (l l' : list Z) : l ⊆+ l' → bounded l' → bounded l.
Proof.
  intros [k Hk]%submseteq_Permutation Hb t. etrans; [|apply (Hb t)].
  unfold between. rewrite Hk, filter_app, length_app. lia.
Qed.

Lemma log_step_le (now : Z) log :
  Forall (λ x, x ≤ now) log → Forall (λ x, x ≤ now) (log_step limit w now log).
Proof. intros Hl. unfold log_step. case_match; [by constructor|done]. Qed.

Lemma Forall_le_weaken (a b : Z) (l : list Z) :
  a ≤ b → Forall (λ x, x ≤ a) l → Forall (λ x, x ≤ b) l.
Proof. intros Hab Hl. eapply Forall_impl; [exact Hl|]. intros x Hx. simpl in *. lia. Qed.

(** A fail-closed call lets a request through only when the script ran and
    accepted it. *)
Lemma allow_closed r f now now' window st log last :
  w = Milliseconds window → windowed last (srv st) log → last ≤ UnixMilli now →
  0 ≤ UnixMilli now →
  let '(st', v) := allow r f now (UnixMilli now) now' key limit window true st in
  (windowed last (srv st') log ∧ allowed v = false)
  ∨ windowed (UnixMilli now) (srv st') (log_step limit w (UnixMilli now) log)
    ∧ (allowed v = true → log_step limit w (UnixMilli now) log = UnixMilli now :: log).
Proof.
  intros Hw Hwin Hle H0. unfold allow, call. rewrite <- Hw.
  pose proof (script_refines last (UnixMilli now) (srv st) log Hwin Hle H0) as Hstep.
  destruct f as [|e|e].
  - destruct (slidingWindowScript _ _ _ _ _ _) as [s' [ok rem]]. destruct Hstep as [Hwin' Hr].
    right. split; [done|]. simpl. unfold log_step.
    by destruct (log_accepts _ _ _ _); simplify_eq.
  - destruct (slidingWindowScript _ _ _ _ _ _) as [s' rep]. destruct Hstep as [Hwin' _].
    destruct (is_ctx_err e); by right.
  - destruct (is_ctx_err e); by left.
Qed.

Lemma serve_closed_bounded r window qs st last now log :
  w = Milliseconds window → windowed last (srv st) log → last ≤ now → 0 ≤ now →
  in_order now qs → Forall (λ x, x ≤ now) log → bounded log →
  ∃ full, bounded full ∧ accepted (serve r window true qs st) ++ log ⊆+ full.
Proof.
  intros Hw. revert st last now log.
  induction qs as [|q qs IH]; intros st last now log Hwin Hle H0 Ho Hlog Hb; [by exists log|].
  apply in_order_cons in Ho as [Hnow Ho]. simpl.
  pose proof (allow_closed r (rq_fault q) (rq_now q) (rq_now' q) window st log last Hw Hwin
    ltac:(unfold rq_ms in *; lia) ltac:(unfold rq_ms in *; lia)) as Hstep.
  fold (rq_ms q) in Hstep. destruct (allow _ _ _ _ _ _ _ _ _ _) as [st' v].
  apply (Forall_le_weaken _ _ _ Hnow) in Hlog.
  destruct Hstep as [[Hwin' Hv]|[Hwin' Hv]].
  - destruct (IH st' last (rq_ms q) log Hwin' ltac:(lia) ltac:(lia) Ho Hlog Hb) as (full & Hf & Hsub).
    exists full. split; [done|]. simpl. by rewrite Hv.
  - destruct (IH st' (rq_ms q) (rq_ms q) _ Hwin' (Z.le_refl _) ltac:(lia) Ho (log_step_le _ _ Hlog)
      (log_step_bounded _ _ Hb Hlog)) as (full & Hf & Hsub).
    exists full. split; [done|]. simpl. etrans; [|exact Hsub].
    destruct (allowed v).
    + rewrite (Hv eq_refl). simpl. by rewrite Permutation_middle.
    + apply submseteq_app; [done|]. unfold log_step. case_match; [by constructor|done].
Qed.
End Window.

(** ** The properties *)

(** C12: on a reachable server the limiter answers exactly as the specification
    does: a request is accepted when fewer than [limit] accepted ones lie in
    the last window, and [remaining] counts what is left. *)
Theorem allow_refines {S} `{Server S} (key : string) (limit window last : Z) (r : RateLimiter)
    (failClosed : bool) (qs : list request) (st : state S) :
  0 < Milliseconds window → 0 ≤ last → view (srv st) last key = None →
  in_order last qs → Forall (λ q, rq_fault q = FOk) qs →
  serve key limit r window failClosed qs st
  = spec_serve limit (Milliseconds window) window qs [].
Proof.
  intros Hw H0 Hv Ho Hf. apply serve_spec with (last := last); try done.
  by apply windowed_start.
Qed.

(** With [failClosed], no stretch of time as long as the window ever holds
    more than [limit] accepted requests, whatever calls to the server fail. *)
Lemma fail_closed_window {S} `{Server S} (key : string) (limit window last : Z)
    (r : RateLimiter) (qs : list request) (st : state S) :
  0 < Milliseconds window → 0 ≤ last → view (srv st) last key = None → in_order last qs →
  ∀ t, Z.of_nat (length (between (Milliseconds window) t
         (accepted (serve key limit r window true qs st)))) ≤ 0 `max` limit.
Proof.
  intros Hw H0 Hv Ho.
  destruct (serve_closed_bounded key limit (Milliseconds window) Hw r window qs st last last [])
    as (full & Hb & Hsub); [done|by apply windowed_start|lia|done|done|constructor| |].
  - intros t. simpl. lia.
  - rewrite app_nil_r in Hsub. by apply (submseteq_bounded _ _ _ full).
Qed.

(** What the middleware does on each outcome: forward or 429 as the script
    says; 503 when the caller's context ended or the limiter fails closed; and
    otherwise forward, counting one fail-open when a counter is configured. *)
Lemma rate_limit_middleware {S} `{Server S} (r : RateLimiter) (cfg : RateLimitConfig)
    (f : fault) (now at_ now' now'' : Z) (key : string) (st : state S) :
  let '(st', (_, resp)) := RateLimit r cfg f now at_ now' now'' key st in
  match f with
  | FOk =>
      let script := slidingWindowScript at_ key (UnixMilli now) (Milliseconds (Window cfg))
                      (Limit cfg) (srv st) in
      st' = st <| srv := script.1 |>
      ∧ resp = if script.2.1 =? 1 then Next else Error 429 "RATE_LIMITED" "rate limit exceeded"
  | FLost e | FDown e =>
      if is_ctx_err e || FailClosed cfg
      then failOpens st' = failOpens st
           ∧ resp = Error 503 "RATE_LIMITER_UNAVAILABLE" "request cancelled"
      else failOpens st' = failOpens st + (if failOpenCounter r then 1 else 0) ∧ resp = Next
  end.
Proof.
  unfold RateLimit, Allow, AllowFailClosed, allow, call, count_fail_open.
  destruct f as [|e|e]; destruct (FailClosed cfg).
  1,2: destruct (slidingWindowScript _ _ _ _ _ _) as [s' [ok rem]]; simpl; by destruct (ok =? 1).
  all: destruct (is_ctx_err e); simpl; try done.
  all: destruct (failOpenCounter r); simpl; split; first [lia|done].
Qed.
