(* ===== verification/Throttle.v ===== *)
(** The brute-force throttle under concurrency.

    Attempts interleave freely: each reserves a slot ([CheckFailures]), and may
    later confirm a failure ([IncrFailure]) while its reservation is alive, or
    never (an infrastructure error).  The number of confirmed failures never
    passes the cap. *)
From S2P Require Import Prelude.
From S2P Require Import GoStrings.
From S2P Require Import Valkey.
From S2P Require Import RateLimit.

Local Open Scope Z_scope.

Lemma UnixMilli_mono (a b : Z) : a ≤ b → UnixMilli a ≤ UnixMilli b.
Proof. intros Hab. apply Z.div_le_mono; lia. Qed.

Lemma failurePendingKey_ne (key : string) : failurePendingKey key ≠ key.
Proof. apply app_String_ne. Qed.

Definition ttl_ms : Z := Milliseconds failurePendingTTL.

Section Throttle.
Context {S : Type} `{Server S}.
Variables (r : RateLimiter) (key : string) (limit window : Z).
Local Abbreviation pkey := (failurePendingKey key).
Local Abbreviation win := (Milliseconds window).

(** The server, the clock, the reservations of unfinished attempts (the instant
    each one expires), the reservation ids drawn so far and the failures
    confirmed so far. *)
Record world := mkWorld {
  w_st : state S; w_clock : Z; w_live : list Z; w_used : list string; w_fails : Z }.

Inductive step (W : world) : world → Prop :=
  | step_try now m st' ok e :
      w_clock W ≤ now → m ∉ w_used W →
      CheckFailures r FOk now (UnixMilli now) key limit (Some m) (w_st W) = (st', (ok, e)) →
      step W (mkWorld st' now
        (if ok : bool then (UnixMilli now + ttl_ms) :: w_live W else w_live W)
        (m :: w_used W) (w_fails W))
  | step_fail now x l1 l2 :
      w_clock W ≤ now → w_live W = l1 ++ x :: l2 → UnixMilli now < x →
      step W (mkWorld (IncrFailure FOk (UnixMilli now) key window (w_st W)) now
        (l1 ++ l2) (w_used W) (w_fails W + 1)).

(** ** The invariant *)
Record pending_ok (c : Z) (s : S) (live : list Z) (used : list string) (fails : Z)
    (z : gmap string Z) (d : option Z) : Prop := {
  po_view : view s c pkey = zentry z d;
  po_expiry : ∀ D x sc, d = Some D → z !! x = Some sc → sc ≤ D;
  po_score : ∀ x sc, z !! x = Some sc → sc ≤ c + ttl_ms;
  po_used : ∀ x sc, z !! x = Some sc → x ∈ used;
  po_cover : ∀ a, c ≤ a → (length (after a live) ≤ size (above a z))%nat;
  po_cap : fails + Z.of_nat (size z) ≤ limit }.

Definition counter_ok (horizon c : Z) (s : S) (fails : Z) : Prop :=
  fails = 0 ∧ view s c key = None
  ∨ 0 < fails ∧ ∃ D, horizon ≤ D ∧ view s c key = Some (mkEntry (VStr (Itoa fails)) (Some D)).

Definition invariant (horizon : Z) (W : world) : Prop :=
  let c := UnixMilli (w_clock W) in
  counter_ok horizon c (srv (w_st W)) (w_fails W)
  ∧ ∃ z d, pending_ok c (srv (w_st W)) (w_live W) (w_used W) (w_fails W) z d.

Lemma counter_later horizon c now s fails :
  c ≤ now → now < horizon → counter_ok horizon c s fails → counter_ok horizon now s fails.
Proof.
  intros Hle Hh [[-> Hv]|(Hf & D & HD & Hv)].
  - left. split; [done|]. by eapply view_None_later.
  - right. split; [done|]. exists D. split; [done|].
    rewrite (view_later s c now D _ key Hle Hv). by rewrite (proj2 (Z.ltb_lt now D)) by lia.
Qed.

Lemma counter_get horizon c s fails :
  counter_ok horizon c s fails → fails ≤ int64_max →
  default 0 (tonumber (c_get s c key)) = fails.
Proof.
  intros [[-> Hv]|(Hf & D & HD & Hv)] Hmax.
  - by rewrite (c_get_none _ _ _ Hv).
  - rewrite (c_get_some _ _ _ _ _ Hv). unfold tonumber. simpl.
    rewrite Atoi_Itoa; [done|]. unfold in_int64, int64_min. lia.
Qed.

Lemma counter_nonneg horizon c s fails : counter_ok horizon c s fails → 0 ≤ fails.
Proof. intros [[-> _]|[? _]]; lia. Qed.

Lemma counter_frame horizon c s s' fails :
  view s' c key = view s c key → counter_ok horizon c s fails → counter_ok horizon c s' fails.
Proof. intros Hv. unfold counter_ok. by rewrite Hv. Qed.

(** Pruning at [now] keeps the invariant. *)
Lemma pending_prune c now s live used fails z d :
  c ≤ now → pending_ok c s live used fails z d →
  pending_ok now (c_zremrangebyscore now pkey now s) live used fails (above now z) d.
Proof.
  intros Hle [Hv He Hs Hu Hc Hcap]. split.
  - eapply prune_spec; [done|done|]. intros D HD Hexp. apply map_empty. intros x.
    apply map_lookup_filter_None. right. intros sc Hx. simpl.
    specialize (He D x sc HD Hx). lia.
  - intros D x sc HD [Hx _]%map_lookup_filter_Some. by eapply He.
  - intros x sc [Hx _]%map_lookup_filter_Some. specialize (Hs x sc Hx). lia.
  - intros x sc [Hx _]%map_lookup_filter_Some. by eapply Hu.
  - intros a Ha. rewrite above_above, Z.max_l by lia. apply Hc. lia.
  - assert (size (above now z) ≤ size z)%nat; [|lia].
    apply map_subseteq_size, map_filter_subseteq.
Qed.

(** A granted reservation. *)
Lemma pending_reserve now s live used fails m z d :
  m ∉ used → fails + Z.of_nat (size z) < limit →
  pending_ok now s live used fails z d →
  pending_ok now (c_pexpire now pkey ttl_ms (c_zadd now pkey (now + ttl_ms) m s))
    ((now + ttl_ms) :: live) (m :: used) fails
    (<[m := now + ttl_ms]> z) (Some (now + ttl_ms)).
Proof.
  intros Hm Hlt [Hv He Hs Hu Hc Hcap].
  assert (z !! m = None) as Hf.
  { destruct (z !! m) eqn:E; [|done]. by apply Hu in E. }
  assert (∀ x sc, <[m := now + ttl_ms]> z !! x = Some sc → sc ≤ now + ttl_ms) as Hsc.
  { intros x sc [[_ <-]|[_ Hx]]%lookup_insert_Some; [lia|by eapply Hs]. }
  assert (0 < ttl_ms) as Httl by done.
  split.
  - rewrite (updated_here _ _ _ _ _ now (zadd_pexpire_spec _ _ _ _ _ _ _ _ Httl Hv)) by lia.
    rewrite zentry_insert. simpl. by rewrite (proj2 (Z.ltb_lt now (now + ttl_ms))) by lia.
  - intros D x sc [= <-]. apply Hsc.
  - done.
  - intros x sc [[<- _]|[_ Hx]]%lookup_insert_Some; [left|right; by eapply Hu].
  - intros a Ha. rewrite above_insert by done. rewrite filter_cons.
    specialize (Hc a Ha). destruct (decide (a < now + ttl_ms)); simpl; lia.
  - rewrite map_size_insert_None by done. lia.
Qed.

(** Retiring the least-scored reservation covers the attempt that ended. *)
Lemma cover_pop now live l1 x l2 (z : gmap string Z) y sc :
  (∀ a, now ≤ a → (length (after a live) ≤ size (above a z))%nat) →
  live = l1 ++ x :: l2 → now < x →
  z !! y = Some sc → map_Forall (λ _ sc', sc ≤ sc') z →
  ∀ a, now ≤ a → (length (after a (l1 ++ l2)) ≤ size (above a (delete y z)))%nat.
Proof.
  intros Hc -> Hx Hy Hmin a Ha. specialize (Hc a Ha) as Hca. specialize (Hc now (Z.le_refl _)).
  rewrite map_filter_delete. rewrite !filter_app, !filter_cons, !length_app in *.
  rewrite (decide_True _ _ Hx) in Hc. simpl in Hc.
  destruct (decide (a < sc)) as [Hsc|Hsc].
  - assert (above a z !! y = Some sc) as Hay by (by apply map_lookup_filter_Some).
    rewrite map_size_delete_Some by (by exists sc).
    destruct (decide (a < x)) as [Hax|Hax]; simpl in Hca; [lia|].
    assert (above now z = z) as Hnz by (apply above_all; intros ? ? Hq; specialize (Hmin _ _ Hq); simpl in *; lia).
    assert (above a z = z) as Haz by (apply above_all; intros ? ? Hq; specialize (Hmin _ _ Hq); simpl in *; lia).
    rewrite Haz. rewrite Hnz in Hc.
    assert (∀ l, length (after a l) ≤ length (after now l))%nat as Hmono.
    { intros l. apply sublist_length, sublist_filter_impl. lia. }
    pose proof (Hmono l1). pose proof (Hmono l2). lia.
  - rewrite (delete_id (above a z)).
    + destruct (decide (a < x)); simpl in Hca; lia.
    + apply map_lookup_filter_None. right. intros sc' Hq. simpl. by simplify_map_eq.
Qed.
Lemma try_invariant horizon W now m st' ok e :
  limit ≤ int64_max → UnixMilli now < horizon → invariant horizon W →
  w_clock W ≤ now → m ∉ w_used W →
  CheckFailures r FOk now (UnixMilli now) key limit (Some m) (w_st W) = (st', (ok, e)) →
  invariant horizon (mkWorld st' now
    (if ok : bool then (UnixMilli now + ttl_ms) :: w_live W else w_live W)
    (m :: w_used W) (w_fails W)).
Proof.
  intros Hlim Hh [Hcnt (z & d & Hp)] Hle Hm.
  pose proof (UnixMilli_mono _ _ Hle) as Hms. set (c := UnixMilli now) in *.
  pose proof (pending_prune _ _ _ _ _ _ _ _ Hms Hp) as Hp1.
  apply (counter_later _ _ c _ _ Hms Hh) in Hcnt.
  assert (view (c_zremrangebyscore c pkey c (srv (w_st W))) c key = view (srv (w_st W)) c key)
    as Hkey.
  { eapply prune_other; [apply Hp|done|lia|]. apply not_eq_sym, failurePendingKey_ne. }
  apply (counter_frame _ _ _ _ _ Hkey) in Hcnt.
  pose proof (counter_nonneg _ _ _ _ Hcnt) as H0. pose proof (po_cap _ _ _ _ _ _ _ Hp1) as Hcap.
  unfold CheckFailures, call, failureReserveScript. fold ttl_ms. fold c.
  rewrite (zcard_spec _ _ _ _ _ (po_view _ _ _ _ _ _ _ Hp1)).
  rewrite (counter_get _ _ _ _ Hcnt) by lia.
  destruct (Z.leb_spec limit (w_fails W + Z.of_nat (size (above c z)))) as [Hge|Hlt];
    intros Heq; [simplify_eq/=|].
  - split; [done|]. exists (above c z), d. destruct Hp1. split; simpl; try done.
    intros x sc Hx. right. eauto.
  - destruct (Z.leb_spec 0 (w_fails W + Z.of_nat (size (above c z)))); [|lia].
    simplify_eq/=. split.
    + eapply counter_frame; [|exact Hcnt]. simpl.
      eapply updated_other; [|apply Z.le_refl|apply not_eq_sym, failurePendingKey_ne].
      apply zadd_pexpire_spec with (z := above c z) (d := d); [done|apply Hp1].
    + eexists _, _. by apply pending_reserve with (d := d).
Qed.

(** While some attempt holds a live reservation, the zset is there. *)
Lemma pending_live c now s live used fails z d x :
  c ≤ now → pending_ok c s live used fails z d → x ∈ live → now < x →
  (∀ D, d = Some D → now < D) ∧ view s now pkey = zentry z d ∧ z ≠ ∅.
Proof.
  intros Hle [Hv He Hs Hu Hc Hcap] Hx Hlt.
  assert (size (above now z) ≠ 0)%nat as Hsize.
  { assert (length (after now live) ≠ 0)%nat; [|specialize (Hc now Hle); lia].
    intros Hz. apply nil_length_inv in Hz. apply (not_elem_of_nil x). rewrite <- Hz.
    by apply list_elem_of_filter. }
  apply map_size_ne_0_lookup in Hsize as [y Hy]. destruct (above now z !! y) as [sc|] eqn:E; [|by destruct Hy].
  apply map_lookup_filter_Some in E as [Ey Hsc]. simpl in Hsc.
  assert (∀ D, d = Some D → now < D) as Hd.
  { intros D HD. specialize (He D y sc HD Ey). lia. }
  split; [done|]. split.
  - rewrite (view_age s c now pkey Hle), Hv. by apply age_zentry_live.
  - intros ->. by rewrite lookup_empty in Ey.
Qed.

(** What the commit script does to the counter, and that it leaves the
    reservations to [ZPOPMIN]. *)
Lemma commit_counter horizon c s fails :
  0 < win → 0 ≤ fails < int64_max → counter_ok horizon c s fails →
  let s2 := c_pexpire c key win (c_incr c key s).1 in
  view s2 c key = Some (mkEntry (VStr (Itoa (fails + 1))) (Some (c + win)))
  ∧ ∀ t, c ≤ t → view s2 t pkey = view s t pkey.
Proof.
  intros Hw Hf Hcnt.
  assert (∃ d', (view s c key = None ∧ fails = 0 ∧ d' = None
     ∨ view s c key = Some (mkEntry (VStr (Itoa fails)) d')) ∧ ∀ D, d' = Some D → c < D)
    as (d' & Hd' & Hlive).
  { destruct Hcnt as [[-> Hv]|(_ & D & _ & Hv)].
    - exists None. split; [by left|done].
    - exists (Some D). split; [by right|]. intros ? [= <-]. by eapply view_deadline. }
  destruct (c_incr_law c key s fails d' Hd' Hf) as [Hincr _].
  pose proof (c_pexpire_law c key win (c_incr c key s).1 Hw) as Hexp.
  assert (view (c_incr c key s).1 c key = Some (mkEntry (VStr (Itoa (fails + 1))) d')) as Hv1.
  { rewrite (updated_here _ _ _ _ _ c Hincr) by lia. simpl. destruct d' as [D|]; [|done].
    by rewrite (proj2 (Z.ltb_lt c D) (Hlive D eq_refl)). }
  split.
  - rewrite (updated_here _ _ _ _ _ c Hexp) by lia. rewrite Hv1. simpl.
    by rewrite (proj2 (Z.ltb_lt c (c + win))) by lia.
  - intros t Ht. rewrite (updated_other _ _ _ _ _ _ _ Hexp Ht (failurePendingKey_ne key)).
    apply (updated_other _ _ _ _ _ _ _ Hincr Ht (failurePendingKey_ne key)).
Qed.

Lemma fail_invariant horizon W now x l1 l2 :
  limit ≤ int64_max → UnixMilli now < horizon → horizon ≤ UnixMilli now + win →
  invariant horizon W → w_clock W ≤ now → w_live W = l1 ++ x :: l2 → UnixMilli now < x →
  invariant horizon (mkWorld (IncrFailure FOk (UnixMilli now) key window (w_st W)) now
    (l1 ++ l2) (w_used W) (w_fails W + 1)).
Proof.
  intros Hlim Hh Hwin [Hcnt (z & d & Hp)] Hle Hlive Hx.
  pose proof (UnixMilli_mono _ _ Hle) as Hms. set (c := UnixMilli now) in *.
  apply (counter_later _ _ c _ _ Hms Hh) in Hcnt.
  pose proof (counter_nonneg _ _ _ _ Hcnt) as H0.
  destruct (pending_live _ c _ _ _ _ _ _ x Hms Hp) as (Hd & Hv & Hne);
    [rewrite Hlive; set_solver|done|].
  destruct Hp as [_ He Hs Hu Hc Hcap].
  assert (size z ≠ 0)%nat as Hsize by (by apply map_size_non_empty_iff).
  destruct (commit_counter horizon c (srv (w_st W)) (w_fails W)) as [Hkey Hpkey];
    [lia|lia|done|].
  unfold IncrFailure, call, failureCommitScript.
  destruct (c_incr c key (srv (w_st W))) as [s1 n] eqn:Ei. simpl in Hkey, Hpkey. cbn [fst].
  set (s2 := c_pexpire c key win s1) in *.
  rewrite <- (Hpkey c (Z.le_refl _)) in Hv.
  destruct (c_zpopmin_law c pkey s2 z) as (z' & Hz' & Hpop); [by rewrite Hv, zset_of_zentry|].
  destruct Hz' as [[-> _]|(y & sc & Hy & Hmin & ->)]; [done|].
  split.
  - right. simpl. split; [lia|]. exists (c + win). split; [lia|].
    rewrite <- Hkey. apply (updated_other _ _ _ _ _ _ _ Hpop (Z.le_refl _)).
    apply not_eq_sym, failurePendingKey_ne.
  - exists (delete y z), (deadline_of (view s2 c pkey)). split; simpl.
    + fold c. rewrite (updated_here _ _ _ _ _ c Hpop) by lia. rewrite Hv. apply age_zentry_live.
      intros D HD. apply Hd. unfold zentry in HD. by case_decide.
    + rewrite Hv. unfold zentry. case_decide; [done|]. simpl.
      intros D q sq HD [_ Hq]%lookup_delete_Some. by eapply He.
    + intros q sq [_ Hq]%lookup_delete_Some. specialize (Hs q sq Hq). fold c. lia.
    + intros q sq [_ Hq]%lookup_delete_Some. by eapply Hu.
    + eapply cover_pop; [|exact Hlive|exact Hx|exact Hy|exact Hmin].
      intros a Ha. apply Hc. fold c in Ha. lia.
    + rewrite map_size_delete_Some by (by exists sc). lia.
Qed.

Lemma step_clock W W' : step W W' → w_clock W ≤ w_clock W'.
Proof. by inversion 1. Qed.

Lemma steps_clock W W' : rtc step W W' → w_clock W ≤ w_clock W'.
Proof.
  induction 1 as [|W1 W2 W3 Hs _ IH]; [done|]. apply step_clock in Hs. lia.
Qed.

Lemma steps_invariant W0 W :
  limit ≤ int64_max → rtc step W0 W →
  invariant (UnixMilli (w_clock W0) + win) W0 →
  UnixMilli (w_clock W) < UnixMilli (w_clock W0) + win →
  invariant (UnixMilli (w_clock W0) + win) W.
Proof.
  intros Hlim Hs Hinv. revert W Hs.
  refine (rtc_ind_r (λ W, UnixMilli (w_clock W) < UnixMilli (w_clock W0) + win →
    invariant (UnixMilli (w_clock W0) + win) W) W0 (λ _, Hinv) _).
  intros W1 W2 Hs1 Hs2 IH Hh. pose proof (steps_clock _ _ Hs1) as H01. pose proof (step_clock _ _ Hs2) as H12.
  pose proof (UnixMilli_mono _ _ H12) as Hm. pose proof (UnixMilli_mono _ _ H01) as Hm0.
  specialize (IH ltac:(lia)).
  destruct Hs2 as [now m st' ok e Hle Hm' Hcheck|now x l1 l2 Hle Hlive Hx]; simpl in *.
  - by eapply try_invariant.
  - eapply fail_invariant; try done. lia.
Qed.

Lemma start_invariant st now horizon :
  0 ≤ limit → view (srv st) (UnixMilli now) key = None →
  view (srv st) (UnixMilli now) pkey = None →
  invariant horizon (mkWorld st now [] [] 0).
Proof.
  intros Hl Hk Hp. split; [by left|]. exists ∅, None. by split.
Qed.
End Throttle.
#[global] Arguments world : clear implicits.
#[global] Arguments mkWorld {_} _ _ _ _ _.

(** However the attempts interleave, within one failure window at most
    [limit] of them can be confirmed as failures. *)
Lemma failures_bounded {S} `{Server S} (r : RateLimiter) (key : string) (limit window now : Z)
    (st : state S) (W : world S) :
  0 ≤ limit ≤ int64_max →
  view (srv st) (UnixMilli now) key = None →
  view (srv st) (UnixMilli now) (failurePendingKey key) = None →
  rtc (step r key limit window) (mkWorld st now [] [] 0) W →
  UnixMilli (w_clock W) < UnixMilli now + Milliseconds window →
  w_fails W ≤ limit.
Proof.
  intros Hl Hk Hp Hs Hh.
  destruct (steps_invariant r key limit window _ W (proj2 Hl) Hs) as [_ (z & d & Hok)];
    [apply start_invariant; [apply Hl|done|done]|done|].
  pose proof (po_cap _ _ _ _ _ _ _ _ _ Hok). lia.
Qed.

(** A success wipes the slate: right after [ResetFailures], the next
    attempt at any later instant of the server is let through, whatever had
    piled up. *)
Lemma reset_unlocks {S} `{Server S} (r : RateLimiter) (key member : string)
    (limit now at_ at' : Z) (st : state S) :
  1 ≤ limit → at_ ≤ at' →
  (CheckFailures r FOk now at' key limit (Some member) (ResetFailures FOk at_ key st)).2
  = (true, None).
Proof.
  intros Hl Ht. unfold CheckFailures, ResetFailures, Del, call, silent, failureReserveScript.
  cbn [srv fst]. set (s1 := c_del at_ [key; failurePendingKey key] (srv st)).
  assert (∀ k, k ∈ [key; failurePendingKey key] → view s1 at' k = None) as Hnone.
  { intros k Hk. unfold s1. rewrite c_del_law by done. by rewrite decide_True. }
  assert (view s1 at' (failurePendingKey key) = zentry ∅ None) as Hp by (apply Hnone; set_solver).
  change (srv (st <| srv := s1 |>)) with s1.
  pose proof (prune_spec s1 at' at' (failurePendingKey key) (UnixMilli now) ∅ None Hp
    (Z.le_refl _) ltac:(done)) as Hp'.
  rewrite (zcard_spec _ _ _ _ _ Hp'), map_filter_empty, map_size_empty.
  assert (view (c_zremrangebyscore at' (failurePendingKey key) (UnixMilli now) s1) at' key = None)
    as Hk.
  { rewrite (prune_other s1 at' at' at' _ key _ _ _ Hp (Z.le_refl _) (Z.le_refl _)).
    - apply Hnone. set_solver.
    - apply not_eq_sym, failurePendingKey_ne. }
  rewrite (c_get_none _ _ _ Hk). simpl. change (0 + Z.of_nat 0) with 0.
  by rewrite (proj2 (Z.leb_gt limit 0)) by lia.
Qed.

(** ** Witnesses *)
Definition empty_state : state RefServer.t := mkState ∅ 0.

Definition demo_requests : list request :=
  [mkRequest FOk 1000000 1000000; mkRequest FOk 1000000 1000000;
   mkRequest FOk 5000000 5000000; mkRequest FOk 13000000 13000000].

Lemma allow_refines_witness :
  serve "k" 2 (mkRateLimiter true) 10000000 false demo_requests empty_state
  = spec_serve 2 10 10000000 demo_requests []
  ∧ (λ p, allowed p.2) <$> spec_serve 2 10 10000000 demo_requests [] = [true; true; false; true].
Proof.
  split; [|reflexivity].
  apply (allow_refines "k" 2 10000000 0); [reflexivity|lia|reflexivity| |].
  - unfold in_order, rq_ms, UnixMilli. vm_compute. repeat constructor; discriminate.
  - by repeat constructor.
Defined.

Definition faulty_requests : list request :=
  [mkRequest FOk 1000000 1000000; mkRequest (FLost ErrUnavailable) 2000000 2000000;
   mkRequest (FDown ErrUnavailable) 3000000 3000000; mkRequest FOk 4000000 4000000].

Lemma fail_closed_window_witness :
  accepted (serve "k" 2 (mkRateLimiter true) 10000000 true faulty_requests empty_state) = [1]
  ∧ ∀ t, Z.of_nat (length (between 10 t (accepted
      (serve "k" 2 (mkRateLimiter true) 10000000 true faulty_requests empty_state)))) ≤ 0 `max` 2.
Proof.
  split; [reflexivity|].
  apply (fail_closed_window "k" 2 10000000 0); [reflexivity|lia|reflexivity|].
  unfold in_order, rq_ms, UnixMilli. vm_compute. repeat constructor; discriminate.
Defined.

(** One attempt that reserves and fails under a cap of one. *)
Definition w0 : world RefServer.t := mkWorld empty_state 0 [] [] 0.
Definition w1 : world RefServer.t :=
  mkWorld (CheckFailures (mkRateLimiter true) FOk 0 0 "k" 1 (Some "a") empty_state).1 0
    [60000] ["a"] 0.
Definition w2 : world RefServer.t :=
  mkWorld (IncrFailure FOk 1 "k" (900 * second) (w_st w1)) 1000000 [] ["a"] 1.

Lemma failures_bounded_witness :
  rtc (step (mkRateLimiter true) "k" 1 (900 * second)) w0 w2 ∧ w_fails w2 ≤ 1.
Proof.
  assert (rtc (step (mkRateLimiter true) "k" 1 (900 * second)) w0 w2) as Hr.
  { apply rtc_l with w1.
    - apply (step_try (mkRateLimiter true) "k" 1 (900 * second) w0 0 "a" (w_st w1) true None);
        [simpl; lia|apply not_elem_of_nil|reflexivity].
    - apply rtc_once.
      apply (step_fail (mkRateLimiter true) "k" 1 (900 * second) w1 1000000 60000 [] []);
        [simpl; lia|reflexivity|reflexivity]. }
  split; [exact Hr|].
  apply (failures_bounded (mkRateLimiter true) "k" 1 (900 * second) 0 empty_state w2);
    [unfold int64_max; lia|reflexivity|reflexivity|exact Hr|reflexivity].
Defined.

Lemma reset_unlocks_witness :
  (CheckFailures (mkRateLimiter true) FOk 2000000 2 "k" 1 (Some "b") (w_st w2)).2 = (false, None)
  ∧ (CheckFailures (mkRateLimiter true) FOk 2000000 2 "k" 1 (Some "b")
       (ResetFailures FOk 2 "k" (w_st w2))).2 = (true, None).
Proof. split; [reflexivity|]. apply reset_unlocks; lia. Defined.
