(* ===== verification/Lease.v ===== *)
(** Distributed leases ([internal/valkey/lock.go]).

    A lease is a key set to a random per-holder token.  The operations are
    functions over the server interface; [Lock]'s polling loop runs on fuel,
    against the readings of the clock and the failures the environment chooses
    at each turn.  The property that matters: as long as the holder renews
    before its lease runs out, nobody else gets the key and nobody else's
    renewal or release touches it. *)
From S2P Require Import Prelude.
From S2P Require Import GoStrings.
From S2P Require Import Valkey.

Local Open Scope Z_scope.

(** Milliseconds. *)
Definition lockPollInterval : Z := 50.

Record Lease := mkLease { l_key : string; l_token : string; l_released : bool }.
#[global] Instance eta_Lease : Eta Lease := λ l, mkLease (l_key l) (l_token l) (l_released l).

Inductive lock_error := ErrLockTimeout | ErrServer (e : rerr) | ErrCtx (e : rerr).

Section Ops.
Context {S : Type} `{Server S}.

(** [lockToken] draws the token from crypto/rand; [None] is its failure. *)
Definition TryLock (f : fault) (at_ : Z) (key : string) (ttl : Z) (lockToken : option string)
    (s : S) : S * (option Lease * option rerr) :=
  match lockToken with
  | None => (s, (None, Some ErrUnavailable))
  | Some token =>
      match SetNX f at_ key token ttl s with
      | (s, inl true) => (s, (Some (mkLease key token false), None))
      | (s, inl false) => (s, (None, None))
      | (s, inr e) => (s, (None, Some e))
      end
  end.

(** One turn of [Lock]'s loop: what the other users of the server do before
    the attempt, what the attempt meets, what the clock reads after it, and
    whether the caller's context ends during the wait. *)
Record attempt := mkAttempt {
  a_others : S → S; a_fault : fault; a_at : Z; a_token : option string; a_now : Z;
  a_ctx : option rerr }.

Fixpoint Lock_loop (fuel : nat) (env : nat → attempt) (i : nat) (key : string) (ttl deadline : Z)
    (s : S) : option (S * (Lease + lock_error)) :=
  match fuel with
  | O => None
  | Datatypes.S fuel =>
      let a := env i in
      match TryLock (a_fault a) (a_at a) key ttl (a_token a) (a_others a s) with
      | (s, (_, Some e)) => Some (s, inr (ErrServer e))
      | (s, (Some l, None)) => Some (s, inl l)
      | (s, (None, None)) =>
          if deadline <=? a_now a then Some (s, inr ErrLockTimeout)
          else match a_ctx a with
               | Some e => Some (s, inr (ErrCtx e))
               | None => Lock_loop fuel env (i + 1) key ttl deadline s
               end
      end
  end.

Definition Lock (fuel : nat) (env : nat → attempt) (start : Z) (key : string) (ttl wait : Z) :
    S → option (S * (Lease + lock_error)) :=
  Lock_loop fuel env 0 key ttl (start + wait).

(** [once.Do]: only the first call deletes. *)
Definition Release (f : fault) (at_ : Z) (l : Lease) (s : S) : S * (Lease * option rerr) :=
  if l_released l then (s, (l, None))
  else
    match CompareAndDelete f at_ (l_key l) (l_token l) s with
    | (s, inl _) => (s, (l <| l_released := true |>, None))
    | (s, inr e) => (s, (l <| l_released := true |>, Some e))
    end.

(** One tick of [renew]; the flag is whether the loop goes on. *)
Definition renew_tick (f : fault) (at_ : Z) (ttl : Z) (l : Lease) (s : S) : S * bool :=
  match CompareAndExpire f at_ (l_key l) (l_token l) ttl s with
  | (s, inl ok) => (s, ok)
  | (s, inr _) => (s, true)
  end.

(** The ticker's period. *)
Definition renew_every (ttl : Z) : Z := let every := Z.quot ttl 3 in if every <=? 0 then ttl else every.

(** * Mutual exclusion *)

Definition held (t : Z) (s : S) (key token : string) (D : Z) : Prop :=
  view s t key = Some (mkEntry (VStr token) (Some D)).

Lemma held_get t s key token D : held t s key token D → c_get s t key = Some token.
Proof. apply c_get_some. Qed.

Lemma held_later t t' s key token D :
  held t s key token D → t ≤ t' → t' < D → held t' s key token D.
Proof.
  intros Hh Ht HD. unfold held. rewrite (view_later s t t' D _ key Ht Hh).
  by rewrite (proj2 (Z.ltb_lt t' D) HD).
Qed.

Lemma TryLock_held f t s key token D ttl tok :
  held t s key token D →
  let '(s', (l, _)) := TryLock f t key ttl tok s in l = None ∧ unchanged t s s'.
Proof.
  intros Hh. unfold TryLock. destruct tok as [tok|]; [|split; [done|apply unchanged_refl]].
  destruct (c_setnx_held t key tok ttl s _ Hh) as [Hs Hr]. unfold SetNX, call.
  destruct (c_setnx t key tok ttl s) as [s' b]; simpl in Hs, Hr. subst b.
  destruct f; simpl; (split; [done|]); first [exact Hs|apply unchanged_refl].
Qed.

Lemma Release_other f t s key token D l :
  held t s key token D → (l_key l = key → l_token l ≠ token) → l_key l = key →
  (Release f t l s).1 = s.
Proof.
  intros Hh Hne Hk. unfold Release. destruct (l_released l); [done|].
  pose proof (CompareAndDelete_other f t (l_key l) (l_token l) s) as Ho.
  destruct (CompareAndDelete f t (l_key l) (l_token l) s) as [s' r]. simpl in Ho.
  rewrite Ho; [by destruct r|]. rewrite Hk, (held_get _ _ _ _ _ Hh). intros [= He].
  by apply (Hne Hk).
Qed.

Lemma renew_other f t s key token D ttl l :
  held t s key token D → l_key l = key → l_token l ≠ token →
  (renew_tick f t ttl l s).1 = s.
Proof.
  intros Hh Hk Hne. unfold renew_tick.
  destruct (CompareAndExpire_other f t (l_key l) (l_token l) ttl s) as [Ho _].
  { rewrite Hk, (held_get _ _ _ _ _ Hh). intros [= He]. done. }
  destruct (CompareAndExpire f t (l_key l) (l_token l) ttl s) as [s' r]. simpl in Ho. subst s'.
  by destruct r.
Qed.

Lemma held_unchanged t s s' key token D : unchanged t s s' → held t s key token D → held t s' key token D.
Proof. intros Hu Hh. unfold held. by rewrite (Hu t (Z.le_refl _)). Qed.
End Ops.

(** ** One holder against everybody else

    Any number of other participants act on the key, each call possibly
    failing; the holder's own renewal ticks may fail too.  [y_until] is the
    expiry the holder last obtained. *)
Section Contention.
Context {S : Type} `{Server S}.
Implicit Types (s : S).
Variables (key token : string) (ttl : Z).
Hypothesis ttl_pos : 0 < ttl.

Record sys := mkSys { y_s : S; y_now : Z; y_until : Z }.

Definition extended (f : fault) (t until : Z) : Z :=
  match f with FDown _ => until | FOk | FLost _ => t + ttl end.

Inductive sys_step (Y : sys) : sys → Prop :=
  | other_try f t tok ttl' :
      y_now Y ≤ t < y_until Y →
      sys_step Y (mkSys (TryLock f t key ttl' tok (y_s Y)).1 t (y_until Y))
  | other_release f t l :
      y_now Y ≤ t < y_until Y → l_key l = key → l_token l ≠ token →
      sys_step Y (mkSys (Release f t l (y_s Y)).1 t (y_until Y))
  | other_renew f t ttl' l :
      y_now Y ≤ t < y_until Y → l_key l = key → l_token l ≠ token →
      sys_step Y (mkSys (renew_tick f t ttl' l (y_s Y)).1 t (y_until Y))
  | own_renew f t :
      y_now Y ≤ t < y_until Y →
      sys_step Y (mkSys (renew_tick f t ttl (mkLease key token false) (y_s Y)).1 t
        (extended f t (y_until Y))).

Definition safe (Y : sys) : Prop :=
  y_now Y < y_until Y ∧ held (y_now Y) (y_s Y) key token (y_until Y).

Lemma own_renew_held f t s D :
  held t s key token D → t < D →
  held t (renew_tick f t ttl (mkLease key token false) s).1 key token (extended f t D).
Proof.
  intros Hh HD. unfold renew_tick, CompareAndExpire, call, casExpire. simpl.
  rewrite (held_get _ _ _ _ _ Hh), bool_decide_true by done.
  pose proof (c_pexpire_law t key ttl s ttl_pos) as Hx.
  assert (held t (c_pexpire t key ttl s) key token (t + ttl)) as Hnew.
  { unfold held. rewrite (updated_here _ _ _ _ _ t Hx) by lia. rewrite Hh. simpl.
    by rewrite (proj2 (Z.ltb_lt t (t + ttl))) by lia. }
  by destruct f.
Qed.

Lemma sys_step_safe (Y Y' : sys) : sys_step Y Y' → safe Y → safe Y'.
Proof.
  intros Hs [Hlt Hh]. unfold safe. destruct Hs as [f t tok ttl' Ht|f t l Ht Hk Hne|f t ttl' l Ht Hk Hne|f t Ht];
    pose proof (held_later _ t _ _ _ _ Hh ltac:(lia) ltac:(lia)) as Ht'; simpl.
  - split; [lia|]. pose proof (TryLock_held f t _ _ _ _ ttl' tok Ht') as Hr.
    destruct (TryLock _ _ _ _ _ _) as [s' [l e]]. destruct Hr as [_ Hu].
    by eapply held_unchanged.
  - split; [lia|]. by rewrite (Release_other f t _ _ _ _ l Ht').
  - split; [lia|]. by rewrite (renew_other f t _ _ _ _ ttl' l Ht').
  - split; [destruct f; simpl; lia|]. apply own_renew_held; [done|lia].
Qed.

Lemma TryLock_granted f t s l e :
  (TryLock f t key ttl (Some token) s).2 = (Some l, e) →
  l = mkLease key token false ∧ held t (TryLock f t key ttl (Some token) s).1 key token (t + ttl)
  ∧ view s t key = None.
Proof.
  unfold TryLock, SetNX, call.
  destruct (view s t key) as [x|] eqn:Hv.
  - destruct (c_setnx_held t key token ttl s x Hv) as [_ Hr].
    destruct (c_setnx t key token ttl s) as [s' b]. simpl in Hr. subst. by destruct f.
  - destruct (c_setnx_free t key token ttl s ttl_pos Hv) as [Hu Hr].
    destruct (c_setnx t key token ttl s) as [s' b]. simpl in Hu, Hr. subst b.
    destruct f; simpl; try done. intros [= <- <-]. split; [done|]. split; [|done].
    unfold held. rewrite (updated_here _ _ _ _ _ t Hu) by lia. simpl.
    by rewrite (proj2 (Z.ltb_lt t (t + ttl))) by lia.
Qed.
End Contention.
#[global] Arguments mkSys {_} _ _ _.
#[global] Arguments mkAttempt {_} _ _ _ _ _ _.

(** C11: a granted lease is exclusive.  Until the expiry its holder last
    obtained, and whatever the others do and whatever fails, the key holds the
    holder's token: every other attempt to take it is refused, every other
    renewal reports the key lost, and no release but the holder's deletes it. *)
Theorem lease_exclusive {S} `{Server S} (key token : string) (ttl : Z) (f : fault) (t0 : Z) (s : S)
    (l : Lease) (e : option rerr) (Y : sys) :
  0 < ttl →
  (TryLock f t0 key ttl (Some token) s).2 = (Some l, e) →
  rtc (sys_step key token ttl) (mkSys (TryLock f t0 key ttl (Some token) s).1 t0 (t0 + ttl)) Y →
  ∀ t, y_now Y ≤ t < y_until Y →
    c_get (y_s Y) t key = Some token
    ∧ (∀ f' tok ttl', (TryLock f' t key ttl' tok (y_s Y)).2.1 = None)
    ∧ (∀ ttl' l', l_key l' = key → l_token l' ≠ token →
         renew_tick FOk t ttl' l' (y_s Y) = (y_s Y, false))
    ∧ (∀ f' l', l_key l' = key → l_token l' ≠ token → (Release f' t l' (y_s Y)).1 = y_s Y).
Proof.
  intros Httl Hl Hs t Ht.
  destruct (TryLock_granted key token ttl Httl f t0 s l e Hl) as (_ & Hh & _).
  assert (safe key token Y) as [_ HhY].
  { revert Hs. apply (rtc_ind_r (safe key token)).
    - split; [simpl; lia|done].
    - intros Y1 Y2 _ H12. by eapply sys_step_safe. }
  apply (held_later _ t) in HhY; [|lia|lia].
  split; [by eapply held_get|]. split; [|split].
  - intros f' tok ttl'. pose proof (TryLock_held f' t _ _ _ _ ttl' tok HhY) as Hr.
    destruct (TryLock f' t key ttl' tok (y_s Y)) as [s' [l' e']]. by destruct Hr.
  - intros ttl' l' Hk Hne. unfold renew_tick, CompareAndExpire, call, casExpire.
    rewrite Hk, (held_get _ _ _ _ _ HhY). rewrite bool_decide_false by congruence. done.
  - intros f' l' Hk Hne. by eapply Release_other.
Qed.

(** A holder that stops renewing does not keep the lease: from its expiry
    on, the next reachable attempt takes it. *)
Lemma lease_recovers {S} `{Server S} (key token token' : string) (ttl ttl' t0 t : Z) (f : fault)
    (s : S) (l : Lease) (e : option rerr) :
  0 < ttl → 0 < ttl' →
  (TryLock f t0 key ttl (Some token) s).2 = (Some l, e) → t0 + ttl ≤ t →
  (TryLock FOk t key ttl' (Some token') (TryLock f t0 key ttl (Some token) s).1).2
  = (Some (mkLease key token' false), None).
Proof.
  intros Httl Httl' Hl Ht.
  destruct (TryLock_granted key token ttl Httl f t0 s l e Hl) as (_ & Hh & _).
  set (s' := (TryLock f t0 key ttl (Some token) s).1) in *.
  assert (view s' t key = None) as Hn.
  { rewrite (view_later s' t0 t _ _ key ltac:(lia) Hh). by rewrite (proj2 (Z.ltb_ge t _)) by lia. }
  destruct (c_setnx_free t key token' ttl' s' Httl' Hn) as [_ Hr].
  unfold TryLock, SetNX, call. destruct (c_setnx t key token' ttl' s') as [s'' b].
  simpl in Hr. by subst.
Qed.

(** ** The polling loop *)
Section Polling.
Context {S : Type} `{Server S}.
Variables (env : nat → attempt (S := S)) (key : string) (ttl start wait : Z).

(** The server as attempt [i] finds it when every attempt before it was made. *)
Fixpoint found (i : nat) (s : S) : S :=
  a_others (env i)
    match i with
    | O => s
    | Datatypes.S j =>
        (TryLock (a_fault (env j)) (a_at (env j)) key ttl (a_token (env j)) (found j s)).1
    end.

(** Attempt [i] finds the key free. *)
Definition free_at (s : S) (i : nat) : Prop := view (found i s) (a_at (env i)) key = None.

(** The budget is not used up after attempt [i], nor the context ended. *)
Definition waits_on (i : nat) : Prop := a_now (env i) < start + wait ∧ a_ctx (env i) = None.

(** Attempt [i] draws a token and reaches the server. *)
Definition attempt_works (i : nat) : Prop := a_fault (env i) = FOk ∧ is_Some (a_token (env i)).

(** What [Lock]'s answer at attempt [n] says. *)
Definition answers (s : S) (n : nat) (s' : S) (res : Lease + lock_error) : Prop :=
  match res with
  | inl l =>
      free_at s n ∧ l_key l = key ∧ a_token (env n) = Some (l_token l)
      ∧ held (a_at (env n)) s' key (l_token l) (a_at (env n) + ttl)
  | inr ErrLockTimeout => ¬ free_at s n ∧ start + wait ≤ a_now (env n)
  | inr (ErrCtx e) => ¬ free_at s n ∧ a_now (env n) < start + wait ∧ a_ctx (env n) = Some e
  | inr (ErrServer e) => ¬ attempt_works n
  end.

Lemma TryLock_cases (f : fault) (t : Z) (tok : option string) (s : S) (ttl_pos : 0 < ttl) :
  match TryLock f t key ttl tok s with
  | (_, (_, Some _)) => ¬ (f = FOk ∧ is_Some tok)
  | (s', (Some l, None)) =>
      view s t key = None ∧ l_key l = key ∧ tok = Some (l_token l)
      ∧ held t s' key (l_token l) (t + ttl)
  | (_, (None, None)) => view s t key ≠ None
  end.
Proof.
  destruct tok as [tok|]; [|simpl; intros [_ [x Hx]]; done].
  pose proof (TryLock_granted key tok ttl ttl_pos f t s) as Hg.
  destruct (view s t key) as [x|] eqn:Hv.
  - unfold TryLock, SetNX, call in *.
    destruct (c_setnx_held t key tok ttl s x Hv) as [_ Hr].
    destruct (c_setnx t key tok ttl s) as [s' b]. simpl in Hr. subst. destruct f; simpl; naive_solver.
  - destruct (TryLock f t key ttl (Some tok) s) as [s' [[l|] [e|]]] eqn:He.
    + intros [-> _]. revert He. unfold TryLock, SetNX, call.
      by destruct (c_setnx t key tok ttl s) as [s2 []].
    + destruct (Hg l None eq_refl) as (-> & Hh & _). done.
    + intros [-> _]. revert He. unfold TryLock, SetNX, call.
      by destruct (c_setnx t key tok ttl s) as [s2 []].
    + exfalso. revert He. unfold TryLock, SetNX, call.
      destruct (c_setnx_free t key tok ttl s ttl_pos Hv) as [_ Hr].
      destruct (c_setnx t key tok ttl s) as [s2 b]. simpl in Hr. subst b. by destruct f.
Qed.

Hypotheses (ttl_pos : 0 < ttl) (started : start ≤ a_now (env 0%nat)).
Hypothesis ticks : ∀ i, a_now (env i) + lockPollInterval ≤ a_now (env (i + 1)%nat).

Lemma clock_advances i : start + lockPollInterval * Z.of_nat i ≤ a_now (env i).
Proof. induction i as [|i IH]; [lia|]. specialize (ticks i). rewrite Nat.add_1_r in ticks. lia. Qed.

(** The state [Lock_loop] hands attempt [i], before the others' changes. *)
Lemma Lock_loop_answers (s : S) fuel : ∀ i (s1 : S),
  a_others (env i) s1 = found i s → (0 < fuel)%nat →
  (Z.to_nat (wait / lockPollInterval) + 2 ≤ fuel + i)%nat →
  (∀ j, (j < i)%nat → ¬ free_at s j ∧ waits_on j) →
  ∃ n s' res, (n < fuel + i)%nat ∧ Lock_loop fuel env i key ttl (start + wait) s1 = Some (s', res)
  ∧ (∀ j, (j < n)%nat → ¬ free_at s j ∧ waits_on j) ∧ answers s n s' res.
Proof.
  induction fuel as [|fuel IH]; intros i s1 Hs Hpos Hf Hpre; [lia|]. simpl. rewrite Hs.
  pose proof (TryLock_cases (a_fault (env i)) (a_at (env i)) (a_token (env i)) (found i s) ttl_pos) as Hc.
  destruct (TryLock (a_fault (env i)) (a_at (env i)) key ttl (a_token (env i)) (found i s))
    as [s2 [[l|] [e|]]] eqn:He.
  - exists i, s2, (inr (ErrServer e)). repeat split; naive_solver lia.
  - exists i, s2, (inl l). split; [lia|]. split; [done|]. split; [done|]. exact Hc.
  - exists i, s2, (inr (ErrServer e)). repeat split; naive_solver lia.
  - destruct (Z.leb_spec (start + wait) (a_now (env i))) as [Hd|Hd].
    { exists i, s2, (inr ErrLockTimeout). split; [lia|]. done. }
    destruct (a_ctx (env i)) as [e|] eqn:Hx.
    { exists i, s2, (inr (ErrCtx e)). split; [lia|]. done. }
    assert (∀ j, (j < i + 1)%nat → ¬ free_at s j ∧ waits_on j) as Hpre'.
    { intros j Hj. destruct (decide (j = i)) as [->|]; [done|apply Hpre; lia]. }
    pose proof (clock_advances i) as Hclock. unfold lockPollInterval in *.
    pose proof (Z.div_mod wait 50 ltac:(lia)). pose proof (Z.mod_pos_bound wait 50 ltac:(lia)).
    destruct (IH (i + 1)%nat s2) as (n & s' & res & Hn & Hr); [|lia|lia|done|].
    { rewrite Nat.add_1_r. simpl. by rewrite He. }
    exists n, s', res. split; [lia|exact Hr].
Qed.
End Polling.

(** C39: [Lock] returns, and its answer is what its polling saw.  Whatever the
    other users of the server do between its attempts, as long as its clock
    advances by at least the poll interval from one attempt to the next (the
    ttl is positive and the budget not negative), it stops at some attempt
    [n < wait/50ms + 2].  Every attempt before [n] found the key held, within
    the budget and with the caller's context alive.  At [n] a lease means the
    key was free and now holds the lease's fresh token for the ttl;
    [ErrLockTimeout] means the key was held and the budget used up; the
    context's error means the key was held, the budget not used up and the
    context ended; a server error means the attempt drew no token or its
    command failed.  So a key found free at any attempt within the budget, by a
    caller still waiting and with working attempts up to it, is locked. *)
Theorem lock_terminates {S} `{Server S} (env : nat → attempt) (start : Z) (key : string)
    (ttl wait : Z) (s : S) :
  0 < ttl → 0 ≤ wait → start ≤ a_now (env 0%nat) →
  (∀ i, a_now (env i) + lockPollInterval ≤ a_now (env (i + 1)%nat)) →
  ∃ n s' res, (n < Z.to_nat (wait / lockPollInterval) + 2)%nat
  ∧ Lock (Z.to_nat (wait / lockPollInterval) + 2) env start key ttl wait s = Some (s', res)
  ∧ (∀ i, (i < n)%nat → ¬ free_at env key ttl s i ∧ waits_on env start wait i)
  ∧ answers env key ttl start wait s n s' res
  ∧ (∀ m, free_at env key ttl s m → (∀ i, (i < m)%nat → waits_on env start wait i) →
       (∀ i, (i ≤ m)%nat → attempt_works env i) → ∃ l, res = inl l).
Proof.
  intros Httl Hwait H0 Hstep.
  destruct (Lock_loop_answers env key ttl start wait Httl H0 Hstep s
    (Z.to_nat (wait / lockPollInterval) + 2) 0 s) as (n & s' & res & Hn & Hl & Hpre & Hans);
    [done|lia|lia|lia|].
  exists n, s', res. split; [lia|]. split; [exact Hl|]. split; [done|]. split; [done|].
  intros m Hm Hw Hok. assert (n ≤ m)%nat as Hle.
  { destruct (decide (n ≤ m)%nat); [done|]. destruct (Hpre m) as [Hx _]; [lia|done]. }
  destruct res as [l|[|e|e]]; [by exists l|..]; exfalso; simpl in Hans.
  - destruct Hans as [Hx Hd]. destruct (decide (n = m)) as [->|]; [done|].
    destruct (Hw n) as [? _]; lia.
  - by apply Hans, Hok.
  - destruct Hans as (Hx & _ & Hc). destruct (decide (n = m)) as [->|]; [done|].
    destruct (Hw n) as [_ ?]; [lia|congruence].
Qed.

(** ** Witnesses *)
Definition y0 : sys := mkSys (S := RefServer.t) (TryLock FOk 0 "leader" 30 (Some "a") ∅).1 0 30.
Definition y1 : sys :=
  mkSys (S := RefServer.t) (renew_tick FOk 10 30 (mkLease "leader" "a" false) (y_s y0)).1 10 40.
Definition y2 : sys :=
  mkSys (S := RefServer.t) (Release FOk 35 (mkLease "leader" "b" false) (y_s y1)).1 35 40.

Lemma lease_exclusive_witness :
  rtc (sys_step "leader" "a" 30) y0 y2 ∧ c_get (y_s y2) 39 "leader" = Some "a".
Proof.
  assert (rtc (sys_step "leader" "a" 30) y0 y2) as Hr.
  { apply rtc_l with y1.
    - apply (own_renew "leader" "a" 30 y0 FOk 10). simpl. lia.
    - apply rtc_once. apply (other_release "leader" "a" 30 y1 FOk 35); [simpl; lia|done|done]. }
  split; [exact Hr|].
  apply (lease_exclusive "leader" "a" 30 FOk 0 (∅ : RefServer.t) (mkLease "leader" "a" false) None y2);
    [lia|reflexivity|exact Hr|simpl; lia].
Defined.

Lemma lease_recovers_witness :
  (TryLock FOk 29 "k" 30 (Some "b") (TryLock FOk 0 "k" 30 (Some "a") (∅ : RefServer.t)).1).2
  = (None, None)
  ∧ (TryLock FOk 30 "k" 30 (Some "b") (TryLock FOk 0 "k" 30 (Some "a") (∅ : RefServer.t)).1).2
    = (Some (mkLease "k" "b" false), None).
Proof.
  split; [reflexivity|].
  apply (lease_recovers "k" "a" "b" 30 30 0 30 FOk (∅ : RefServer.t) (mkLease "k" "a" false) None);
    [lia|lia|reflexivity|lia].
Defined.

(** A key held by somebody else for 120 ms: under a budget of 100 ms the wait
    times out; under 200 ms the fourth poll gets the key. *)
Definition contended : RefServer.t := (TryLock FOk 0 "k" 120 (Some "a") ∅).1.
Definition polling (i : nat) : attempt (S := RefServer.t) :=
  mkAttempt id FOk (50 * Z.of_nat i) (Some "b") (50 * Z.of_nat i) None.

Example contended_times_out :
  (λ r : RefServer.t * (Lease + lock_error), r.2) <$> Lock 4 polling 0 "k" 30 100 contended
  = Some (inr ErrLockTimeout).
Proof. reflexivity. Qed.

Lemma lock_terminates_witness : ∃ n s' l,
  (n < 6)%nat ∧ Lock 6 polling 0 "k" 30 200 contended = Some (s', inl l)
  ∧ l = mkLease "k" "b" false ∧ (∀ i, (i < n)%nat → ¬ free_at polling "k" 30 contended i).
Proof.
  destruct (lock_terminates polling 0 "k" 30 200 contended)
    as (n & s' & res & Hn & Hl & Hpre & Hans & Hfree).
  - lia.
  - lia.
  - simpl. lia.
  - intros i. unfold lockPollInterval. simpl. lia.
  - change (Z.to_nat (200 / lockPollInterval) + 2)%nat with 6%nat in Hn, Hl.
    destruct (Hfree 3%nat) as [l ->].
    + reflexivity.
    + intros i Hi. split; [simpl; lia|done].
    + intros i _. by split; [|eexists].
    + exists n, s', l. split; [exact Hn|]. split; [exact Hl|]. split.
      * destruct Hans as (_ & Hk & Ht & _).
        assert (l_released l = false) as Hrel.
        { assert (Some (inl l) = (λ r : RefServer.t * (Lease + lock_error), r.2) <$>
            Lock 6 polling 0 "k" 30 200 contended) as He by (rewrite Hl; done).
          vm_compute in He. by injection He as ->. }
        destruct l. simpl in *. congruence.
      * intros i Hi. by apply Hpre.
Defined.
