(* ===== verification/SegToken.v ===== *)
(** HLS segment tokens ([internal/transcode/segtoken.go]).

    A token is a server key holding the session and user it stands for, with a
    four-hour idle timeout; a per-user set indexes the tokens so that they can
    all be revoked.  Calls of different managers interleave at the granularity
    of one server command, so operations made of several commands take the
    interference ([between]) of everybody else between them as an argument.

    [encoding/json] on the stored record is modelled on plain text (no quote,
    backslash, control character, [<], [>] or [&]): session ids and user ids
    are UUIDs.  Token generation ([uuid.New]) is an argument. *)
From S2P Require Import Prelude.
From S2P Require Import GoStrings.
From S2P Require Import Valkey.

Local Open Scope Z_scope.

(** Milliseconds: 4 hours. *)
Definition segTokenTTL : Z := 4 * 3600 * 1000.

Record segTokenData := mkSegTokenData { SessionID : string; UserID : string }.

Definition plain (c : ascii) : bool :=
  (32 <=? byteZ c) && (byteZ c <=? 126) && negb (mem (byteZ c) [34; 92; 60; 62; 38]).

Definition head_text : string := "{" +:+ dquote +:+ "session_id" +:+ dquote +:+ ":" +:+ dquote.
Definition mid_text : string := "," +:+ dquote +:+ "user_id" +:+ dquote +:+ ":" +:+ dquote.

Definition Marshal (d : segTokenData) : string :=
  head_text +:+ SessionID d +:+ dquote +:+ mid_text +:+ UserID d +:+ dquote +:+ "}".

Definition Unmarshal (raw : string) : option segTokenData :=
  rest ← CutPrefix raw head_text;
  '(sid, rest) ← Cut rest (chr 34);
  rest ← CutPrefix rest mid_text;
  '(uid, rest) ← Cut rest (chr 34);
  if String.eqb rest "}" && sforall plain sid && sforall plain uid
  then Some (mkSegTokenData sid uid) else None.

Definition segTokenKey (token : string) : string := "segment_token:" +:+ token.
Definition userIndexKey (userID : string) : string := "user_segtokens:" +:+ userID.

Inductive seg_error :=
  | ErrStore (e : rerr)
  | ErrInvalidOrExpired
  | ErrValidate (e : rerr)
  | ErrDecode
  | ErrList (e : rerr)
  | ErrDelete (e : rerr).

Section Ops.
Context {S : Type} `{Server S}.
Implicit Types (s : S) (t : Z) (token user : string).

(** [Issue]: store the token; then index it, best effort.  [t1], [t2], [t3] are
    the instants of the three commands. *)
Definition Issue (f1 f2 f3 : fault) (t1 t2 t3 : Z) (between1 between2 : S → S)
    (token sessionID userID : string) (s : S) : S * (string + seg_error) :=
  let b := Marshal (mkSegTokenData sessionID userID) in
  match Set_ f1 t1 (segTokenKey token) b segTokenTTL s with
  | (s, inr e) => (s, inr (ErrStore e))
  | (s, inl _) =>
      let s := between1 s in
      let idx := userIndexKey userID in
      match SAdd f2 t2 idx token s with
      | (s, inr _) => (s, inl token)
      | (s, inl _) => ((Expire f3 t3 idx segTokenTTL (between2 s)).1, inl token)
      end
  end.

(** [Validate]: look up, then refresh the token and its index, best effort. *)
Definition Validate (f1 f2 f3 : fault) (t1 t2 t3 : Z) (between1 between2 : S → S)
    (token : string) (s : S) : S * (segTokenData + seg_error) :=
  match Get f1 t1 (segTokenKey token) s with
  | inl None => (s, inr ErrInvalidOrExpired)
  | inr e => (s, inr (ErrValidate e))
  | inl (Some raw) =>
      match Unmarshal raw with
      | None => (s, inr ErrDecode)
      | Some data =>
          let s := (Expire f2 t2 (segTokenKey token) segTokenTTL (between1 s)).1 in
          let s := (Expire f3 t3 (userIndexKey (UserID data)) segTokenTTL (between2 s)).1 in
          (s, inl data)
      end
  end.

Definition Revoke (f : fault) (t : Z) (token : string) : S → S * (unit + rerr) :=
  Del f t [segTokenKey token].

(** [RevokeAllForUser]: list the index, then delete the listed tokens and the
    index. *)
Definition RevokeAllForUser (f1 f2 : fault) (t1 t2 : Z) (between : S → S) (userID : string)
    (s : S) : S * option seg_error :=
  let idx := userIndexKey userID in
  match SMembers f1 t1 idx s with
  | inr e => (s, Some (ErrList e))
  | inl [] => (s, None)
  | inl tokens =>
      match Del f2 t2 ((segTokenKey <$> tokens) ++ [idx]) (between s) with
      | (s, inr e) => (s, Some (ErrDelete e))
      | (s, inl _) => (s, None)
      end
  end.

(** * Encoding *)
Lemma plain_no_quote (s : string) :
  sforall plain s = true → sforall (λ c, negb (Ascii.eqb c (chr 34))) s = true.
Proof.
  intros Hs. eapply sforall_impl; [|exact Hs]. intros c Hc. apply negb_true_iff.
  destruct (Ascii.eqb_spec c (chr 34)) as [->|]; [by vm_compute in Hc|done].
Qed.

Lemma Unmarshal_Marshal (d : segTokenData) :
  sforall plain (SessionID d) = true → sforall plain (UserID d) = true →
  Unmarshal (Marshal d) = Some d.
Proof.
  intros Hs Hu. unfold Unmarshal, Marshal. rewrite CutPrefix_app.
  change (dquote +:+ mid_text +:+ UserID d +:+ dquote +:+ "}")
    with (String (chr 34) (mid_text +:+ UserID d +:+ String (chr 34) "}")).
  cbn [mbind option_bind]. rewrite (Cut_app _ _ _ (plain_no_quote _ Hs)).
  cbn [mbind option_bind]. rewrite CutPrefix_app.
  cbn [mbind option_bind]. rewrite (Cut_app _ _ _ (plain_no_quote _ Hu)).
  cbn [mbind option_bind]. rewrite Hs, Hu. by destruct d.
Qed.

Lemma key_disjoint (token user : string) : segTokenKey token ≠ userIndexKey user.
Proof. done. Qed.

#[global] Instance segTokenKey_inj : Inj (=) (=) segTokenKey.
Proof. intros a b. apply (inj (String.append _)). Qed.
#[global] Instance userIndexKey_inj : Inj (=) (=) userIndexKey.
Proof. intros a b. apply (inj (String.append _)). Qed.

(** * The index covers the tokens

    At instant [t]: every live token decodes, expires no later than a TTL from
    now, and is in its user's index, which lives at least as long. *)
Definition token_at (t : Z) (s : S) (token : string) (data : segTokenData) (d : Z) : Prop :=
  ∃ raw, view s t (segTokenKey token) = Some (mkEntry (VStr raw) (Some d))
         ∧ Unmarshal raw = Some data.

Definition index_at (t : Z) (s : S) (user : string) (m : gset string) (d : option Z) : Prop :=
  set_of (view s t (userIndexKey user)) = Some m ∧ deadline_of (view s t (userIndexKey user)) = d.

Record indexed (t : Z) (s : S) : Prop := {
  ix_token : ∀ token, view s t (segTokenKey token) = None
    ∨ ∃ data d, token_at t s token data d ∧ d ≤ t + segTokenTTL
        ∧ ∃ m D, view s t (userIndexKey (UserID data)) = Some (mkEntry (VSet m) (Some D))
                 ∧ token ∈ m ∧ d ≤ D;
  ix_index : ∀ user, view s t (userIndexKey user) = None
    ∨ ∃ m D, view s t (userIndexKey user) = Some (mkEntry (VSet m) (Some D))
             ∧ D ≤ t + segTokenTTL }.

Lemma indexed_later t t' s : indexed t s → t ≤ t' → indexed t' s.
Proof.
  intros [Ht Hi] Hle. split.
  - intros token. destruct (Ht token) as [Hn|(data & d & (raw & Hv & Hu) & Hd & m & D & Hm & Hin & HD)].
    { left. by eapply view_None_later. }
    destruct (Z.ltb_spec t' d) as [Hlt|Hge].
    + right. exists data, d. split; [|split; [lia|]].
      * exists raw. split; [|done]. rewrite (view_later s t t' d _ _ Hle Hv).
        by rewrite (proj2 (Z.ltb_lt t' d) Hlt).
      * exists m, D. rewrite (view_later s t t' D _ _ Hle Hm).
        by rewrite (proj2 (Z.ltb_lt t' D)) by lia.
    + left. rewrite (view_later s t t' d _ _ Hle Hv). by rewrite (proj2 (Z.ltb_ge t' d) Hge).
  - intros user. destruct (Hi user) as [Hn|(m & D & Hm & HD)].
    { left. by eapply view_None_later. }
    rewrite (view_later s t t' D _ _ Hle Hm). destruct (t' <? D); [|by left].
    right. exists m, D. split; [done|lia].
Qed.
(** ** What the operations leave behind

    Each operation here runs undisturbed, within one tick of the server's
    clock. *)
Lemma index_set t s user :
  indexed t s → ∃ m, set_of (view s t (userIndexKey user)) = Some m.
Proof.
  intros [_ Hi]. destruct (Hi user) as [->|(m & D & -> & _)]; by eexists.
Qed.

Lemma Issue_view t token sid uid s m k :
  set_of (view s t (userIndexKey uid)) = Some m →
  view (Issue FOk FOk FOk t t t id id token sid uid s).1 t k =
    if decide (k = userIndexKey uid)
    then Some (mkEntry (VSet ({[token]} ∪ m)) (Some (t + segTokenTTL)))
    else if decide (k = segTokenKey token)
    then Some (mkEntry (VStr (Marshal (mkSegTokenData sid uid))) (Some (t + segTokenTTL)))
    else view s t k.
Proof.
  intros Hm. unfold Issue, Set_, SAdd, Expire, call, silent. cbn [fst id].
  set (raw := Marshal (mkSegTokenData sid uid)). set (idx := userIndexKey uid) in *.
  assert (0 < segTokenTTL) as Httl by done. pose proof (Z.le_refl t) as Ht.
  pose proof (proj2 (Z.ltb_lt t (t + segTokenTTL)) ltac:(lia)) as Hlt.
  pose proof (c_set_law t (segTokenKey token) raw segTokenTTL s Httl) as H1.
  set (s1 := c_set _ _ _ _ s) in *.
  assert (view s1 t idx = view s t idx) as Hidx.
  { by apply (updated_other _ _ _ _ _ _ _ H1 Ht). }
  pose proof (c_sadd_law t idx token s1 m ltac:(by rewrite Hidx)) as H2.
  set (s2 := c_sadd _ _ _ s1) in *.
  assert (view s2 t idx
          = Some (mkEntry (VSet ({[token]} ∪ m)) (deadline_of (view s t idx)))) as Hidx2.
  { rewrite (updated_here _ _ _ _ _ t H2 Ht), Hidx. simpl.
    destruct (view s t idx) as [[v [D|]]|] eqn:E; simpl; [|done|done].
    by rewrite (proj2 (Z.ltb_lt t D) (view_deadline _ _ _ _ _ E)). }
  rewrite (c_pexpire_law t idx segTokenTTL s2 Httl t Ht k), Hidx2. simpl. rewrite Hlt.
  case_decide as Hk; [done|].
  rewrite (H2 t Ht k), decide_False by done. rewrite (H1 t Ht k). simpl. by rewrite Hlt.
Qed.

Lemma Issue_indexed t token sid uid s :
  sforall plain sid = true → sforall plain uid = true →
  indexed t s → indexed t (Issue FOk FOk FOk t t t id id token sid uid s).1.
Proof.
  intros Hsid Huid Hix. destruct (index_set t s uid Hix) as [m Hm].
  pose proof (λ k, Issue_view t token sid uid s m k Hm) as Hv. destruct Hix as [Htok Hidx].
  assert (0 < segTokenTTL) as Httl by done. split.
  - intros tok. rewrite Hv, decide_False by apply key_disjoint.
    destruct (decide (segTokenKey tok = segTokenKey token)) as [->%(inj segTokenKey)|Hne].
    + right. exists (mkSegTokenData sid uid), (t + segTokenTTL). split; [|split; [lia|]].
      * eexists. rewrite Hv, decide_False by apply key_disjoint. rewrite decide_True by done.
        split; [done|]. by apply Unmarshal_Marshal.
      * eexists _, _. rewrite Hv, decide_True by done. split; [done|]. split; [set_solver|lia].
    + destruct (Htok tok) as [Hn|(data & d & (raw & Hr & Hu) & Hd & m' & D & Hm' & Hin & HD)];
        [by left|]. right. exists data, d. split; [|split; [done|]].
      * exists raw. rewrite Hv, decide_False by apply key_disjoint. by rewrite decide_False.
      * rewrite Hv. case_decide as Hk.
        -- eexists _, _. split; [done|]. rewrite Hk in Hm'. rewrite Hm' in Hm. simplify_eq/=.
           split; [set_solver|lia].
        -- rewrite decide_False by (apply not_eq_sym, key_disjoint). by exists m', D.
  - intros user. rewrite Hv. case_decide as Hk.
    + right. eexists _, _. split; [done|lia].
    + rewrite decide_False by (apply not_eq_sym, key_disjoint). apply Hidx.
Qed.

Definition expire_at (t : Z) (e : entry) : entry := mkEntry (e_val e) (Some t).

Lemma Expire_view t key s k :
  view (Expire FOk t key segTokenTTL s).1 t k =
    if decide (k = key) then expire_at (t + segTokenTTL) <$> view s t key else view s t k.
Proof.
  unfold Expire, call, silent. cbn [fst].
  rewrite (c_pexpire_law t key segTokenTTL s ltac:(done) t (Z.le_refl t) k).
  case_decide; [|done]. destruct (view s t key) as [e|]; [|done]. simpl.
  by rewrite (proj2 (Z.ltb_lt t (t + segTokenTTL)) ltac:(unfold segTokenTTL; lia)).
Qed.

Lemma Validate_indexed t token s :
  indexed t s → indexed t (Validate FOk FOk FOk t t t id id token s).1.
Proof.
  intros Hix. pose proof Hix as [Htok Hidx]. unfold Validate, Get, call. cbn [snd].
  destruct (Htok token) as [Hn|(data & d & (raw & Hr & Hu) & Hd & m & D & Hm & Hin & HD)].
  { by rewrite (c_get_none _ _ _ Hn). }
  rewrite (c_get_some _ _ _ _ _ Hr), Hu. cbn [fst id].
  set (s1 := (Expire FOk t (segTokenKey token) segTokenTTL s).1).
  set (idx := userIndexKey (UserID data)) in *.
  assert (∀ k, view (Expire FOk t idx segTokenTTL s1).1 t k =
    if decide (k = idx) then Some (mkEntry (VSet m) (Some (t + segTokenTTL)))
    else if decide (k = segTokenKey token)
    then Some (mkEntry (VStr raw) (Some (t + segTokenTTL))) else view s t k) as Hv.
  { intros k. rewrite Expire_view. unfold s1. rewrite !Expire_view.
    rewrite (decide_False (P := idx = segTokenKey token)) by done. rewrite Hm, Hr. done. }
  split.
  - intros tok. rewrite Hv, decide_False by apply key_disjoint.
    destruct (decide (segTokenKey tok = segTokenKey token)) as [->%(inj segTokenKey)|Hne].
    + right. exists data, (t + segTokenTTL). split; [|split; [lia|]].
      * exists raw. rewrite Hv, decide_False by apply key_disjoint. by rewrite decide_True.
      * exists m, (t + segTokenTTL). rewrite Hv, decide_True by done. split; [done|].
        split; [done|lia].
    + destruct (Htok tok) as [Hn|(data' & d' & (raw' & Hr' & Hu') & Hd' & m' & D' & Hm' & Hin' & HD')];
        [by left|]. right. exists data', d'. split; [|split; [done|]].
      * exists raw'. rewrite Hv, decide_False by apply key_disjoint. by rewrite decide_False.
      * rewrite Hv. case_decide as Hk.
        -- unfold idx in Hk. apply (inj userIndexKey) in Hk. rewrite Hk in Hm'. fold idx in Hm'.
           rewrite Hm in Hm'. simplify_eq. eexists _, _. split; [done|]. split; [done|lia].
        -- rewrite decide_False by (apply not_eq_sym, key_disjoint). by exists m', D'.
  - intros user. rewrite Hv. case_decide as Hk.
    + right. eexists _, _. split; [done|lia].
    + rewrite decide_False by (apply not_eq_sym, key_disjoint). apply Hidx.
Qed.

(** Deleting any keys that are not some other live token's index keeps the
    invariant. *)
Lemma del_indexed t ks s :
  indexed t s →
  (∀ user tok data d, userIndexKey user ∈ ks → token_at t s tok data d → UserID data = user →
     segTokenKey tok ∈ ks) →
  indexed t (c_del t ks s).
Proof.
  intros [Htok Hidx] Hks. split.
  - intros tok. rewrite c_del_law by lia. case_decide as Hin; [by left|].
    destruct (Htok tok) as [Hn|(data & d & Ht & Hd & m & D & Hm & Hinm & HD)]; [by left|].
    right. exists data, d. split; [|split; [done|]].
    + destruct Ht as (raw & Hr & Hu). exists raw. rewrite c_del_law by lia.
      by rewrite decide_False.
    + exists m, D. rewrite c_del_law by lia. rewrite decide_False; [done|].
      intros Hbad. destruct Hin. by eapply Hks.
  - intros user. rewrite c_del_law by lia. case_decide; [by left|]. apply Hidx.
Qed.

Lemma Revoke_indexed f t token s : indexed t s → indexed t (Revoke f t token s).1.
Proof.
  intros Hix. unfold Revoke, Del.
  destruct (call_cases f (silent (c_del t [segTokenKey token])) s) as [->| ->]; [|done].
  apply del_indexed; [done|]. intros user tok data d [=]%list_elem_of_singleton.
Qed.

Lemma RevokeAll_indexed f1 f2 t user s :
  indexed t s → indexed t (RevokeAllForUser f1 f2 t t id user s).1.
Proof.
  intros Hix. unfold RevokeAllForUser.
  destruct (SMembers f1 t (userIndexKey user) s) as [[|tok toks]|e] eqn:Es; [done| |done].
  unfold Del. cbn [id].
  set (ks := (segTokenKey <$> tok :: toks) ++ [userIndexKey user]).
  assert (indexed t (call f2 (silent (c_del t ks)) s).1) as Hgoal.
  { destruct (call_cases f2 (silent (c_del t ks)) s) as [->| ->]; [|done].
    apply del_indexed; [done|]. intros user' tok' data d Hin Ht Hu.
    apply elem_of_app in Hin as [(x & [=] & _)%list_elem_of_fmap|Hin].
    apply list_elem_of_singleton, (inj userIndexKey) in Hin. subst user' user.
    apply elem_of_app. left. apply list_elem_of_fmap_2.
    unfold SMembers, call in Es. destruct f1; simplify_eq/=.
    destruct Ht as (raw & Hr & Hraw).
    destruct (ix_token _ _ Hix tok') as [Hn|(data' & d' & (raw' & Hr' & Hraw') & _ & m & D & Hm & Hinm & _)];
      [congruence|]. assert (data' = data) as -> by congruence.
    rewrite <- Es. apply (c_smembers_law _ _ _ m); [by rewrite Hm|done]. }
  by destruct (call f2 _ s) as [s' [?|?]].
Qed.

(** ** Runs *)
Inductive seg_step : Z * S → Z * S → Prop :=
  | do_issue t t' s token sid uid :
      t ≤ t' → sforall plain sid = true → sforall plain uid = true →
      seg_step (t, s) (t', (Issue FOk FOk FOk t' t' t' id id token sid uid s).1)
  | do_validate t t' s token :
      t ≤ t' → seg_step (t, s) (t', (Validate FOk FOk FOk t' t' t' id id token s).1)
  | do_revoke f t t' s token : t ≤ t' → seg_step (t, s) (t', (Revoke f t' token s).1)
  | do_revoke_all f1 f2 t t' s user :
      t ≤ t' → seg_step (t, s) (t', (RevokeAllForUser f1 f2 t' t' id user s).1).

Definition no_tokens (t : Z) (s : S) : Prop :=
  ∀ x, view s t (segTokenKey x) = None ∧ view s t (userIndexKey x) = None.

Lemma no_tokens_indexed t s : no_tokens t s → indexed t s.
Proof. intros Hn. split; intros x; left; apply Hn. Qed.

Lemma run_indexed ts ts' :
  rtc seg_step ts ts' → indexed ts.1 ts.2 → indexed ts'.1 ts'.2.
Proof.
  induction 1 as [|a b c Hs _ IH]; [done|]. intros Hix. apply IH.
  destruct Hs; simpl in *; pose proof (indexed_later _ _ _ Hix H0) as Hix'.
  - by apply Issue_indexed.
  - by apply Validate_indexed.
  - by apply Revoke_indexed.
  - by apply RevokeAll_indexed.
Qed.

(** ** Revocation *)
Definition revoke_keys (t : Z) (s : S) (user : string) : list string :=
  (segTokenKey <$> c_smembers s t (userIndexKey user)) ++ [userIndexKey user].

(** What [RevokeAllForUser] leaves, whether or not the index had members. *)
Lemma RevokeAll_view t user s :
  indexed t s →
  (RevokeAllForUser FOk FOk t t id user s).2 = None
  ∧ ∀ token, view (RevokeAllForUser FOk FOk t t id user s).1 t (segTokenKey token)
             = if decide (token ∈ c_smembers s t (userIndexKey user)) then None
               else view s t (segTokenKey token).
Proof.
  intros Hix. unfold RevokeAllForUser, SMembers, call. cbn [snd].
  destruct (c_smembers s t (userIndexKey user)) as [|tok toks].
  { split; [done|]. intros token. by rewrite decide_False by apply not_elem_of_nil. }
  unfold Del, call, silent. cbn [id fst snd]. split; [done|]. intros token.
  rewrite c_del_law by lia. set (l := tok :: toks).
  assert (segTokenKey token ∈ (segTokenKey <$> l) ++ [userIndexKey user] ↔ token ∈ l) as Hiff.
  { rewrite elem_of_app, list_elem_of_singleton. split.
    - by intros [(x & ->%(inj segTokenKey) & Hx)%list_elem_of_fmap|[=]].
    - intros Hx. left. by apply list_elem_of_fmap_2. }
  destruct (decide (token ∈ l)) as [Hin|Hnin].
  - rewrite decide_True; [done|by apply Hiff].
  - rewrite decide_False; [done|]. by rewrite Hiff.
Qed.

Lemma token_indexed t s token data d :
  indexed t s → token_at t s token data d → token ∈ c_smembers s t (userIndexKey (UserID data)).
Proof.
  intros Hix (raw & Hr & Hu).
  destruct (ix_token _ _ Hix token) as [Hn|(data' & d' & (raw' & Hr' & Hu') & _ & m & D & Hm & Hin & _)];
    [congruence|]. assert (data' = data) as -> by congruence.
  apply (c_smembers_law _ _ _ m); [by rewrite Hm|done].
Qed.

Lemma Validate_ok t token s data :
  indexed t s → (Validate FOk FOk FOk t t t id id token s).2 = inl data →
  ∃ d, token_at t s token data d.
Proof.
  intros Hix. unfold Validate, Get, call. cbn [snd].
  destruct (ix_token _ _ Hix token) as [Hn|(data' & d' & (raw & Hr & Hu) & _)].
  - by rewrite (c_get_none _ _ _ Hn).
  - rewrite (c_get_some _ _ _ _ _ Hr), Hu. intros [= <-]. exists d', raw. done.
Qed.
End Ops.

(** When nothing interferes, [RevokeAllForUser] reports success only with
    no live token of the user left: none validates, at that instant or later. *)
Lemma revoke_all_complete {S} `{Server S} (t0 t1 : Z) (s0 s : S) (user : string) (t : Z) :
  no_tokens t0 s0 → rtc seg_step (t0, s0) (t, s) → t ≤ t1 →
  let '(s', e) := RevokeAllForUser FOk FOk t1 t1 id user s in
  e = None
  ∧ ∀ t2 token data, t1 ≤ t2 →
      (Validate FOk FOk FOk t2 t2 t2 id id token s').2 = inl data → UserID data ≠ user.
Proof.
  intros Hn Hrun Ht. pose proof (run_indexed _ _ Hrun (no_tokens_indexed _ _ Hn)) as Hix.
  apply (indexed_later _ t1) in Hix; [|done]. simpl in Hix.
  pose proof (RevokeAll_indexed FOk FOk t1 user s Hix) as Hix'.
  destruct (RevokeAll_view t1 user s Hix) as [He Hv].
  destruct (RevokeAllForUser FOk FOk t1 t1 id user s) as [s' e]. simpl in *.
  split; [done|]. intros t2 token data H12 Hval Hu.
  destruct (Validate_ok t2 token s' data (indexed_later _ _ _ Hix' H12) Hval) as (d & raw & Hr & Hraw).
  destruct (ix_token _ _ Hix' token) as [Hno|(data' & d' & (raw' & Hr' & Hraw') & _)].
  { apply (view_None_later _ _ t2) in Hno; [congruence|done]. }
  rewrite (view_later _ _ t2 _ _ _ H12 Hr') in Hr.
  destruct (t2 <? d'); [|done]. assert (data' = data) as -> by congruence.
  rewrite Hv in Hr'. case_decide as Hin; [done|]. destruct Hin. rewrite <- Hu.
  apply (token_indexed t1 s token data d' Hix). by exists raw'.
Qed.

(** The TTL is an idle timeout: a token issued for a session validates to
    that session and user at every instant before four hours have passed since
    it was issued or last validated, and no longer. *)
Lemma seg_token_roundtrip {S} `{Server S} (t t' : Z) (s : S) (token sid uid : string)
    (m : gset string) :
  sforall plain sid = true → sforall plain uid = true →
  set_of (view s t (userIndexKey uid)) = Some m → t ≤ t' →
  let issued := (Issue FOk FOk FOk t t t id id token sid uid s).1 in
  let '(s', r) := Validate FOk FOk FOk t' t' t' id id token issued in
  if t' <? t + segTokenTTL
  then r = inl (mkSegTokenData sid uid)
       ∧ ∀ t'', t' ≤ t'' < t' + segTokenTTL →
           (Validate FOk FOk FOk t'' t'' t'' id id token s').2 = inl (mkSegTokenData sid uid)
  else r = inr ErrInvalidOrExpired ∧ s' = issued.
Proof.
  intros Hsid Huid Hm Ht issued.
  pose proof (Issue_view t token sid uid s m (segTokenKey token) Hm) as Hv. fold issued in Hv.
  rewrite decide_False, decide_True in Hv by done.
  pose proof (view_later _ _ t' _ _ _ Ht Hv) as Hv'.
  pose proof (Unmarshal_Marshal (mkSegTokenData sid uid) Hsid Huid) as Hu.
  unfold Validate at 1, Get, call. cbn [snd].
  destruct (t' <? t + segTokenTTL); [|by rewrite (c_get_none _ _ _ Hv')].
  rewrite (c_get_some _ _ _ _ _ Hv'), Hu. cbn [id UserID]. split; [done|].
  intros t'' Ht''. unfold Validate, Get, call. cbn [snd].
  set (s1 := (Expire FOk t' (segTokenKey token) segTokenTTL issued).1).
  assert (view (Expire FOk t' (userIndexKey uid) segTokenTTL s1).1 t' (segTokenKey token)
    = Some (mkEntry (VStr (Marshal (mkSegTokenData sid uid))) (Some (t' + segTokenTTL)))) as Hv1.
  { rewrite Expire_view, decide_False by done. unfold s1. rewrite Expire_view, decide_True by done.
    by rewrite Hv'. }
  apply (view_later _ _ t'') in Hv1; [|lia]. rewrite (proj2 (Z.ltb_lt t'' _)) in Hv1 by lia.
  by rewrite (c_get_some _ _ _ _ _ Hv1), Hu.
Qed.

(** ** Witnesses and the race *)
Definition user_a : string := "6f9619ff-8b86-4d01-b42d-00cf4fc964ff".
Definition issue_for (t : Z) (token : string) (s : RefServer.t) : RefServer.t :=
  (Issue FOk FOk FOk t t t id id token "session" user_a s).1.
Definition validate_at (t : Z) (token : string) (s : RefServer.t) : segTokenData + seg_error :=
  (Validate FOk FOk FOk t t t id id token s).2.

(** A token issued between the listing and the deletion escapes: the
    revocation reports success and deletes the index with the token's entry in
    it, so the token validates and no later revocation can find it. *)
Lemma revoke_all_race :
  let s1 := issue_for 0 "token-1" ∅ in
  let '(s2, e) := RevokeAllForUser FOk FOk 1 1 (issue_for 1 "token-2") user_a s1 in
  let '(s3, e') := RevokeAllForUser FOk FOk 2 2 id user_a s2 in
  e = None ∧ e' = None
  ∧ validate_at 3 "token-1" s3 = inr ErrInvalidOrExpired
  ∧ validate_at 3 "token-2" s3 = inl (mkSegTokenData "session" user_a).
Proof. vm_compute. done. Qed.

Lemma revoke_all_complete_witness :
  rtc (seg_step (S := RefServer.t)) (0, ∅) (5, issue_for 5 "token-1" ∅)
  ∧ validate_at 6 "token-1" (issue_for 5 "token-1" ∅) = inl (mkSegTokenData "session" user_a)
  ∧ let '(s', e) := RevokeAllForUser FOk FOk 7 7 id user_a (issue_for 5 "token-1" ∅) in
    e = None
    ∧ ∀ t2 token data, 7 ≤ t2 →
        (Validate FOk FOk FOk t2 t2 t2 id id token s').2 = inl data → UserID data ≠ user_a.
Proof.
  assert (rtc (seg_step (S := RefServer.t)) (0, ∅) (5, issue_for 5 "token-1" ∅)) as Hr.
  { apply rtc_once. apply do_issue; [lia|reflexivity|reflexivity]. }
  split; [exact Hr|]. split; [reflexivity|].
  apply (revoke_all_complete 0 7 (∅ : RefServer.t) (issue_for 5 "token-1" ∅) user_a 5);
    [intros x; split; reflexivity|exact Hr|lia].
Defined.

Lemma seg_token_roundtrip_witness :
  (Validate FOk FOk FOk 60000 60000 60000 id id "tok" (issue_for 0 "tok" ∅)).2
  = inl (mkSegTokenData "session" user_a).
Proof.
  assert (set_of (view (∅ : RefServer.t) 0 (userIndexKey user_a)) = Some ∅) as Hm by reflexivity.
  pose proof (seg_token_roundtrip 0 60000 (∅ : RefServer.t) "tok" "session" user_a ∅
    eq_refl eq_refl Hm ltac:(lia)) as Hw.
  unfold issue_for. cbv zeta in Hw.
  destruct (Validate FOk FOk FOk 60000 60000 60000 id id "tok" _) as [s' r]. exact (proj1 Hw).
Defined.
