(* ===== verification/TOTP.v ===== *)
(** TOTP second factor: [internal/auth/totp.go], [internal/valkey/totp_replay.go]
    and the code of [cmd/server/auth_service.go] that combines them.

    A code is matched to its time step; a guard spends the step.  There are two
    guards, one in the process's memory and one shared through the server; the
    service asks both.  [ReplayGuard] states what a guard promises; the two
    implementations discharge it and the service is proved against it.

    [hotp.ValidateCustom] (third party) is the parameter [hotp].  Go instants
    and durations are nanoseconds. *)
From S2P Require Import Prelude.
From S2P Require Import GoStrings.
From S2P Require Import Valkey.
From S2P Require Import RateLimit.
From S2P Require Import Throttle.

Local Open Scope Z_scope.

Definition Unix (t : Z) : Z := t / second.
Definition totpPeriod : Z := 30.
Definition totpSkew : Z := 1.

(** * Matching a code *)
Section Match.
Variable hotp : string → Z → string → option bool.

Fixpoint match_from (offs : list Z) (current : Z) (code secret : string) : option Z :=
  match offs with
  | [] => None
  | off :: offs =>
      let c := current + off in
      if c <? 0 then match_from offs current code secret
      else match hotp code c secret with
           | Some true => Some c
           | _ => match_from offs current code secret
           end
  end.

(** [MatchTOTPStep]: the steps of the skew window, in order. *)
Definition MatchTOTPStep (code secret : string) (now : Z) : option Z :=
  let code := TrimSpace code in
  if negb (Z.of_nat (String.length code) =? 6) then None
  else match_from [- totpSkew; 0; totpSkew] (Z.quot (Unix now) totpPeriod) code secret.
End Match.

(** * The replay guards *)
Definition memoryStepTTL : Z := 4 * totpPeriod * second.
Definition totpStepTTL : Z := 4 * 30 * second.

Record memoryStep := mkMemoryStep { ms_step : Z; ms_expiresAt : Z }.

(** The zero [lastSweep] is the zero [time.Time], longer ago than any duration. *)
Record MemoryTOTPReplayGuard := mkMemoryGuard {
  mg_last : gmap string memoryStep; mg_lastSweep : option Z }.

Definition sweep_due (lastSweep : option Z) (now ttl : Z) : bool :=
  match lastSweep with None => true | Some t => ttl <=? now - t end.

Definition memory_sweep (now : Z) (g : MemoryTOTPReplayGuard) : MemoryTOTPReplayGuard :=
  if sweep_due (mg_lastSweep g) now memoryStepTTL
  then mkMemoryGuard (filter (λ p : string * memoryStep, now < ms_expiresAt p.2) (mg_last g))
         (Some now)
  else g.

Definition memory_ConsumeTOTPStep (now : Z) (userID : string) (step : Z)
    (g : MemoryTOTPReplayGuard) : MemoryTOTPReplayGuard * bool :=
  let g := memory_sweep now g in
  let blocked :=
    match mg_last g !! userID with
    | Some e => (now <? ms_expiresAt e) && (step <=? ms_step e)
    | None => false
    end in
  if blocked then (g, false)
  else (mkMemoryGuard (<[userID := mkMemoryStep step (now + memoryStepTTL)]> (mg_last g))
          (mg_lastSweep g), true).

Section Shared.
Context {S : Type} `{Server S}.

Definition last_step_key (userID : string) : string := "totp:last_step:" +:+ userID.

Definition consumeStepScript (at_ : Z) (key step_arg : string) (ttl : Z) (s : S) : S * Z :=
  let last := tonumber (c_get s at_ key) in
  let step := Atoi step_arg in
  let stale := match last, step with Some l, Some n => n <=? l | _, _ => false end in
  if (stale : bool) then (s, 0) else (c_set at_ key step_arg ttl s, 1).

Definition shared_ConsumeTOTPStep (f : fault) (now : Z) (userID : string) (step : Z) (s : S) :
    S * (bool + rerr) :=
  match call f (consumeStepScript (UnixMilli now) (last_step_key userID) (Itoa step)
                  (Milliseconds totpStepTTL)) s with
  | (s, inl n) => (s, inl (n =? 1))
  | (s, inr e) => (s, inr e)
  end.
End Shared.

(** * What a guard promises

    [spent now g u l until]: at [now] the guard remembers, until [until], that
    user [u] spent step [l]. *)
Definition ms_ns : Z := 1000000.

Class ReplayGuard (G : Type) := {
  consume : fault → Z → string → Z → G → G * (bool + rerr);
  spent : Z → G → string → Z → Z → Prop;
  spent_new : ∀ f now u step g g', in_int64 step →
    consume f now u step g = (g', inl true) →
    ∃ until, now + totpStepTTL - ms_ns < until ∧ spent now g' u step until;
  spent_keep : ∀ f t0 now u u' step l until g g' r, in_int64 step →
    spent t0 g u l until → t0 ≤ now < until → consume f now u' step g = (g', r) →
    ∃ l' until', l ≤ l' ∧ until ≤ until' ∧ spent now g' u l' until';
  spent_refuse : ∀ f t0 now u step l until g g' r, in_int64 step →
    spent t0 g u l until → t0 ≤ now < until → step ≤ l → consume f now u step g = (g', r) →
    r ≠ inl true;
}.

(** ** The in-memory guard *)
Definition memory_spent (now : Z) (g : MemoryTOTPReplayGuard) (u : string) (l until : Z) : Prop :=
  mg_last g !! u = Some (mkMemoryStep l until) ∧ until ≤ now + memoryStepTTL.

Lemma sweep_keeps now g u l until :
  mg_last g !! u = Some (mkMemoryStep l until) → now < until →
  mg_last (memory_sweep now g) !! u = Some (mkMemoryStep l until).
Proof.
  intros Hg Hlt. unfold memory_sweep. case_match; [|done]. simpl.
  by apply map_lookup_filter_Some.
Qed.

Lemma memory_keep t0 now u u' step l until g :
  memory_spent t0 g u l until → t0 ≤ now < until →
  let '(g', ok) := memory_ConsumeTOTPStep now u' step g in
  ∃ l' until', l ≤ l' ∧ until ≤ until' ∧ memory_spent now g' u l' until'
    ∧ (u' = u → step ≤ l → ok = false).
Proof.
  intros [Hg Hu] Ht. unfold memory_ConsumeTOTPStep.
  pose proof (sweep_keeps now g u l until Hg ltac:(lia)) as Hs.
  destruct (decide (u' = u)) as [->|Hne].
  - rewrite Hs. simpl. rewrite (proj2 (Z.ltb_lt now until)) by lia. simpl.
    destruct (Z.leb_spec step l) as [Hle|Hgt].
    + exists l, until. split; [lia|]. split; [lia|]. split; [|done]. split; [done|lia].
    + exists step, (now + memoryStepTTL). split; [lia|]. split; [lia|]. split.
      * split; [by simplify_map_eq|lia].
      * lia.
  - assert (∀ g', mg_last g' !! u = Some (mkMemoryStep l until) →
      ∃ l' until', l ≤ l' ∧ until ≤ until' ∧ memory_spent now g' u l' until'
      ∧ (u' = u → step ≤ l → (false : bool) = false)) as Hsame.
    { intros g' Hg'. exists l, until. repeat split; try done; lia. }
    destruct (match _ with Some _ => _ | None => _ end).
    + destruct (Hsame _ Hs) as (l' & until' & ? & ? & ? & _). by exists l', until'.
    + destruct (Hsame (mkMemoryGuard (<[u' := mkMemoryStep step (now + memoryStepTTL)]>
        (mg_last (memory_sweep now g))) None)) as (l' & until' & ? & ? & [Hx ?] & _);
        [cbn [mg_last]; rewrite lookup_insert_ne by done; exact Hs|].
      exists l', until'. split; [done|]. split; [done|]. split; [by split|congruence].
Qed.

Lemma memory_new now u step g :
  let '(g', ok) := memory_ConsumeTOTPStep now u step g in
  ok = true → memory_spent now g' u step (now + memoryStepTTL).
Proof.
  unfold memory_ConsumeTOTPStep. destruct (match _ with Some _ => _ | None => _ end); [done|].
  intros _. split; [simpl; by simplify_map_eq|lia].
Qed.

#[global] Instance memory_guard : ReplayGuard MemoryTOTPReplayGuard.
Proof.
  refine (Build_ReplayGuard _
    (λ _ now u step g, let '(g', ok) := memory_ConsumeTOTPStep now u step g in (g', inl ok))
    memory_spent _ _ _).
  - intros _ now u step g g' _ Hc. pose proof (memory_new now u step g) as Hn.
    destruct (memory_ConsumeTOTPStep now u step g) as [g'' ok]. simplify_eq.
    eexists. split; [|by apply Hn]. unfold memoryStepTTL, totpStepTTL, totpPeriod, ms_ns. lia.
  - intros _ t0 now u u' step l until g g' r _ Hs Ht Hc.
    pose proof (memory_keep t0 now u u' step l until g Hs Ht) as Hk.
    destruct (memory_ConsumeTOTPStep now u' step g) as [g'' ok]. simplify_eq.
    destruct Hk as (l' & until' & ? & ? & ? & _). by exists l', until'.
  - intros _ t0 now u step l until g g' r _ Hs Ht Hle Hc.
    pose proof (memory_keep t0 now u u step l until g Hs Ht) as Hk.
    destruct (memory_ConsumeTOTPStep now u step g) as [g'' ok]. simplify_eq.
    destruct Hk as (_ & _ & _ & _ & _ & Hr). by rewrite Hr.
Defined.

(** ** The shared guard *)
Section SharedGuard.
Context {S : Type} `{Server S}.
Implicit Types (s : S).

Definition shared_spent (now : Z) s (u : string) (l until : Z) : Prop :=
  ∃ D, view s (UnixMilli now) (last_step_key u) = Some (mkEntry (VStr (Itoa l)) (Some D))
       ∧ until = D * ms_ns ∧ in_int64 l ∧ D ≤ UnixMilli now + Milliseconds totpStepTTL.

#[local] Instance last_step_key_inj : Inj (=) (=) last_step_key.
Proof. intros a b. apply (inj (String.append _)). Qed.

Lemma UnixMilli_lt (t D : Z) : t < D * ms_ns ↔ UnixMilli t < D.
Proof.
  unfold UnixMilli, ms_ns. split; intros Hlt.
  - apply Z.div_lt_upper_bound; lia.
  - pose proof (Z.mul_succ_div_gt t 1000000 ltac:(lia)). nia.
Qed.

Lemma script_set now u step s :
  updated view (UnixMilli now) s (c_set (UnixMilli now) (last_step_key u) (Itoa step)
    (Milliseconds totpStepTTL) s) (last_step_key u)
    (Some (mkEntry (VStr (Itoa step)) (Some (UnixMilli now + Milliseconds totpStepTTL)))).
Proof. by apply c_set_law. Qed.

Lemma script_fresh now u step s :
  in_int64 step →
  shared_spent now (c_set (UnixMilli now) (last_step_key u) (Itoa step)
    (Milliseconds totpStepTTL) s) u step ((UnixMilli now + Milliseconds totpStepTTL) * ms_ns).
Proof.
  intros Hstep. eexists. split; [|split; [done|split; [done|lia]]].
  rewrite (updated_here _ _ _ _ _ (UnixMilli now) (script_set now u step s)) by lia.
  change (Milliseconds totpStepTTL) with 120000. simpl.
  by rewrite (proj2 (Z.ltb_lt (UnixMilli now) (UnixMilli now + 120000))) by lia.
Qed.

Lemma shared_until now : now + totpStepTTL - ms_ns < (UnixMilli now + Milliseconds totpStepTTL) * ms_ns.
Proof.
  unfold UnixMilli, ms_ns, totpStepTTL, second.
  pose proof (Z.mul_succ_div_gt now 1000000 ltac:(lia)).
  change (Milliseconds (4 * 30 * 1000000000)) with 120000. lia.
Qed.

(** What the script does when the user's record is known. *)
Lemma shared_spent_later t0 now s u l until :
  shared_spent t0 s u l until → t0 ≤ now < until →
  shared_spent now s u l until ∧ c_get s (UnixMilli now) (last_step_key u) = Some (Itoa l).
Proof.
  intros (D & Hv & -> & Hl & HD) [Hle Hlt]. apply UnixMilli_lt in Hlt.
  pose proof (UnixMilli_mono _ _ Hle) as Hm.
  apply (view_later _ _ _ _ _ _ Hm) in Hv. rewrite (proj2 (Z.ltb_lt _ _) Hlt) in Hv.
  split; [|by eapply c_get_some]. exists D. repeat split; try done; try apply Hl. lia.
Qed.

Lemma script_keep t0 now u u' step l until s :
  in_int64 step → shared_spent t0 s u l until → t0 ≤ now < until →
  let '(s', n) := consumeStepScript (UnixMilli now) (last_step_key u') (Itoa step)
                    (Milliseconds totpStepTTL) s in
  (∃ l' until', l ≤ l' ∧ until ≤ until' ∧ shared_spent now s' u l' until')
  ∧ (u' = u → step ≤ l → n = 0).
Proof.
  intros Hstep Hs Ht. destruct (shared_spent_later _ _ _ _ _ _ Hs Ht) as [Hs' Hg].
  pose proof Hs' as (D & Hv & -> & Hl & HD).
  unfold consumeStepScript. rewrite (Atoi_Itoa step Hstep).
  destruct (decide (u' = u)) as [->|Hne].
  - rewrite Hg. unfold tonumber. cbn [mbind option_bind]. rewrite (Atoi_Itoa l Hl).
    destruct (Z.leb_spec step l) as [Hle|Hgt].
    + split; [|done]. by exists l, (D * ms_ns).
    + split; [|lia]. eexists step, _. split; [lia|]. split; [|by apply script_fresh].
      unfold ms_ns. lia.
  - cbv zeta. destruct (match tonumber _ with Some _ => _ | None => _ end).
    + split; [|done]. by exists l, (D * ms_ns).
    + split; [|congruence]. exists l, (D * ms_ns). split; [lia|]. split; [lia|].
      exists D. rewrite (updated_other _ _ _ _ _ _ _ (script_set now u' step s) (Z.le_refl _));
        [done|]. intros He. by apply (inj last_step_key) in He.
Qed.

#[global] Instance shared_guard : ReplayGuard S.
Proof.
  refine (Build_ReplayGuard _ shared_ConsumeTOTPStep shared_spent _ _ _).
  - intros f now u step s s' Hstep Hc. eexists. split; [apply shared_until|].
    unfold shared_ConsumeTOTPStep, call, consumeStepScript in Hc.
    destruct f; [|done|done]. cbv zeta in Hc.
    destruct (match tonumber _ with Some _ => _ | None => _ end); simplify_eq/=.
    by apply script_fresh.
  - intros f t0 now u u' step l until s s' r Hstep Hs Ht Hc.
    pose proof (script_keep t0 now u u' step l until s Hstep Hs Ht) as Hk.
    unfold shared_ConsumeTOTPStep, call in Hc.
    destruct (consumeStepScript _ _ _ _ s) as [s1 n]. destruct Hk as [Hk _].
    destruct f; simplify_eq/=; [done|done|].
    exists l, until. split; [lia|]. split; [lia|]. by eapply shared_spent_later.
  - intros f t0 now u step l until s s' r Hstep Hs Ht Hle Hc.
    pose proof (script_keep t0 now u u step l until s Hstep Hs Ht) as Hk.
    unfold shared_ConsumeTOTPStep, call in Hc.
    destruct (consumeStepScript _ _ _ _ s) as [s1 n]. destruct Hk as [_ Hk].
    rewrite Hk in Hc by done. by destruct f; simplify_eq/=.
Defined.
End SharedGuard.

(** * The service

    [locals i] is instance [i]'s in-process guard; [shared] the shared one,
    [wired] tells whether the service has one.  The local guard never errs. *)
Section Service.
Variable hotp : string → Z → string → option bool.
Context {Sh : Type} `{ReplayGuard Sh}.

Record service := mkService { sv_locals : nat → MemoryTOTPReplayGuard; sv_shared : Sh }.

Record submission := mkSubmission {
  sub_instance : nat; sub_fault : fault; sub_now : Z; sub_user : string;
  sub_code : string; sub_secret : string }.

Definition set_local (i : nat) (g : MemoryTOTPReplayGuard) (l : nat → MemoryTOTPReplayGuard) :
    nat → MemoryTOTPReplayGuard :=
  λ j, if decide (j = i) then g else l j.

Definition fresh_of (r : bool + rerr) : bool := match r with inl b => b | inr _ => false end.

Definition spendTOTPStep (wired : bool) (i : nat) (f : fault) (now : Z) (userID : string)
    (step : Z) (st : service) : service * bool :=
  let '(local, lr) := consume FOk now userID step (sv_locals st i) in
  let localFresh := fresh_of lr in
  let locals := set_local i local (sv_locals st) in
  if wired then
    match consume f now userID step (sv_shared st) with
    | (shared, inl fresh) => (mkService locals shared, fresh && localFresh)
    | (shared, inr _) => (mkService locals shared, localFresh)
    end
  else (mkService locals (sv_shared st), localFresh).

Definition validateTOTPOnce (wired : bool) (q : submission) (st : service) : service * bool :=
  match MatchTOTPStep hotp (sub_code q) (sub_secret q) (sub_now q) with
  | None => (st, false)
  | Some step => spendTOTPStep wired (sub_instance q) (sub_fault q) (sub_now q) (sub_user q) step st
  end.

(** The submissions that were accepted, with the step each one spent. *)
Fixpoint validate_all (wired : bool) (qs : list submission) (st : service) :
    list (submission * Z) :=
  match qs with
  | [] => []
  | q :: qs =>
      let '(st, ok) := validateTOTPOnce wired q st in
      let rest := validate_all wired qs st in
      match MatchTOTPStep hotp (sub_code q) (sub_secret q) (sub_now q) with
      | Some step => if ok then (q, step) :: rest else rest
      | None => rest
      end
  end.

(** ** A matched step lies in the skew window *)
Definition period (now : Z) : Z := Z.quot (Unix now) totpPeriod.

Lemma match_from_spec offs current code secret c :
  match_from hotp offs current code secret = Some c →
  0 ≤ c ∧ (∃ off, off ∈ offs ∧ c = current + off) ∧ hotp code c secret = Some true.
Proof.
  induction offs as [|off offs IH]; simpl; [done|].
  assert (match_from hotp offs current code secret = Some c →
    0 ≤ c ∧ (∃ off', off' ∈ off :: offs ∧ c = current + off') ∧ hotp code c secret = Some true) as IH'.
  { intros Hm. destruct (IH Hm) as (? & (o & ? & ?) & ?). split; [done|]. split; [|done].
    exists o. split; [by right|done]. }
  destruct (Z.ltb_spec (current + off) 0); [done|].
  destruct (hotp code (current + off) secret) as [[]|] eqn:E; try done.
  intros [= <-]. split; [lia|]. split; [|done]. exists off. split; [left|done].
Qed.

Lemma MatchTOTPStep_window code secret now step :
  MatchTOTPStep hotp code secret now = Some step →
  0 ≤ step ∧ period now - 1 ≤ step ≤ period now + 1.
Proof.
  unfold MatchTOTPStep. destruct (negb _); [done|].
  intros (H0 & (off & Hin & ->) & _)%match_from_spec. fold (period now).
  split; [done|]. unfold totpSkew in Hin.
  apply elem_of_cons in Hin as [->|[->|[->|Hin%not_elem_of_nil]%elem_of_cons]%elem_of_cons];
    [lia..|done].
Qed.

(** ** One guard never accepts a step twice *)
Definition sane (now : Z) : Prop := 0 ≤ now < 2 ^ 63.

Lemma period_bounds now : 0 ≤ now → period now = now / (30 * second).
Proof.
  intros H0. unfold period, Unix, totpPeriod, second.
  rewrite Z.quot_div_nonneg by (try apply Z.div_pos; lia).
  by rewrite Z.div_div by lia.
Qed.

Lemma step_int64 now step : sane now → 0 ≤ step → step ≤ period now + 1 → in_int64 step.
Proof.
  intros [H0 Hn] Hs Hp. rewrite period_bounds in Hp by done.
  pose proof (Z.div_le_upper_bound now (30 * second) (2 ^ 60) ltac:(unfold second; lia)
    ltac:(unfold second; lia)).
  unfold in_int64, int64_min, int64_max. lia.
Qed.

(** The user spent [L] at [tL], and the guard still remembers at least that, or
    so much time has passed that no code of that step can match. *)
Definition tracks {G} `{ReplayGuard G} (now : Z) (g : G) (u : string) (L tL : Z) : Prop :=
  L ≤ period tL + 1 ∧ 0 ≤ tL ≤ now
  ∧ (tL + totpStepTTL - ms_ns ≤ now
     ∨ ∃ t0 l until, t0 ≤ now ∧ L ≤ l ∧ tL + totpStepTTL - ms_ns < until ∧ spent t0 g u l until).

Lemma tracks_consume {G} `{ReplayGuard G} f t now g g' r u u' L tL step :
  tracks t g u L tL → t ≤ now → sane now → 0 ≤ step → period now - 1 ≤ step ≤ period now + 1 →
  consume f now u' step g = (g', r) →
  tracks now g' u L tL ∧ (u' = u → r = inl true → L < step).
Proof.
  intros (HL & HtL & Hcase) Hle Hsane Hstep Hwin Hc.
  assert (tL + totpStepTTL - ms_ns ≤ now → L < step) as Hold.
  { intros Hage. rewrite period_bounds in HL, Hwin by (unfold sane in *; lia).
    pose proof (Z.div_le_mono (tL + 3 * (30 * second)) now (30 * second) ltac:(unfold second; lia)
      ltac:(unfold totpStepTTL, ms_ns, second in *; lia)) as Hmono.
    rewrite Z.div_add in Hmono by (unfold second; lia). lia. }
  assert (tL + totpStepTTL - ms_ns ≤ now →
    tracks now g' u L tL ∧ (u' = u → r = inl true → L < step)) as Hdone.
  { intros Hage. split; [|by intros; apply Hold]. split; [done|]. split; [lia|]. by left. }
  destruct Hcase as [Hage|(t0 & l & until & Ht0 & Hl & Hu & Hs)]; [apply Hdone; lia|].
  destruct (Z.ltb_spec now until) as [Hlive|Hexp]; [|apply Hdone; lia].
  pose proof (step_int64 now step Hsane Hstep (proj2 Hwin)) as Hint.
  destruct (spent_keep f t0 now u u' step l until g g' r Hint Hs ltac:(lia) Hc)
    as (l' & until' & Hl' & Hu' & Hs').
  split.
  - split; [done|]. split; [lia|]. right. exists now, l', until'.
    split; [lia|]. split; [lia|]. split; [lia|done].
  - intros -> ->. destruct (Z.ltb_spec L step) as [?|Hbad]; [done|].
    by destruct (spent_refuse f t0 now u step l until g g' _ Hint Hs ltac:(lia) ltac:(lia) Hc).
Qed.

Lemma tracks_later {G} `{ReplayGuard G} t now g u L tL :
  tracks t g u L tL → t ≤ now → tracks now g u L tL.
Proof.
  intros (HL & HtL & Hcase) Hle. split; [done|]. split; [lia|].
  destruct Hcase as [?|(t0 & l & until & Ht0 & Hrest)]; [left; lia|].
  right. exists t0, l, until. split; [lia|exact Hrest].
Qed.

Lemma tracks_new {G} `{ReplayGuard G} f now g g' u step :
  sane now → 0 ≤ step → step ≤ period now + 1 →
  consume f now u step g = (g', inl true) → tracks now g' u step now.
Proof.
  intros Hsane Hstep Hwin Hc. pose proof (step_int64 now step Hsane Hstep Hwin) as Hint.
  destruct (spent_new f now u step g g' Hint Hc) as (until & Hu & Hs).
  split; [done|]. split; [unfold sane in *; lia|]. right. exists now, step, until.
  split; [lia|]. split; [lia|]. by split.
Qed.

(** ** Runs *)
Definition in_time (t : Z) (qs : list submission) : Prop :=
  StronglySorted Z.le (t :: (sub_now <$> qs)) ∧ Forall (λ q, sane (sub_now q)) qs.

Lemma in_time_cons t q qs :
  in_time t (q :: qs) → t ≤ sub_now q ∧ sane (sub_now q) ∧ in_time (sub_now q) qs.
Proof.
  intros [Hs Hf]. rewrite fmap_cons in Hs. apply StronglySorted_inv in Hs as [Hs Hle].
  inversion Hle; inversion Hf; subst. split; [done|]. split; [done|]. by split.
Qed.

Lemma StronglySorted_lt_cons (a b : Z) (l : list Z) :
  a < b → StronglySorted Z.lt (b :: l) → StronglySorted Z.lt (a :: b :: l).
Proof.
  intros Hab Hs. constructor; [done|]. constructor; [done|].
  apply StronglySorted_inv in Hs as [_ Hf]. eapply Forall_impl; [exact Hf|]. simpl. lia.
Qed.

Definition steps_of (sel : submission → bool) (l : list (submission * Z)) : list Z :=
  omap (λ p, if sel p.1 then Some p.2 else None) l.

(** A guard that every selected acceptance goes through makes the selected
    steps increase. *)
Lemma run_increasing {G} `{ReplayGuard G} (proj : service → G) (sel : submission → bool)
    (good : submission → Prop) (u : string) (wired : bool) :
  (∀ q, sel q = true → sub_user q = u) →
  (∀ q st st' ok step, good q → spendTOTPStep wired (sub_instance q) (sub_fault q) (sub_now q)
       (sub_user q) step st = (st', ok) →
     (proj st' = proj st ∧ sel q = false)
     ∨ ∃ f r, consume f (sub_now q) (sub_user q) step (proj st) = (proj st', r)
              ∧ (ok = true → r = inl true)) →
  ∀ qs t st L, Forall good qs → in_time t qs →
    (∀ l tl, L = Some (l, tl) → tracks t (proj st) u l tl) →
    StronglySorted Z.lt (from_option (λ p : Z * Z, [p.1]) [] L
                         ++ steps_of sel (validate_all wired qs st)).
Proof.
  intros Hsel Hstep qs. induction qs as [|q qs IH]; intros t st L Hgood Ht HL.
  { destruct L as [[l tl]|]; simpl; repeat constructor. }
  inversion Hgood as [|? ? Hq Hgood']; subst. apply in_time_cons in Ht as (Hle & Hsane & Ht').
  simpl. unfold validateTOTPOnce.
  destruct (MatchTOTPStep hotp (sub_code q) (sub_secret q) (sub_now q)) as [step|] eqn:Em.
  2:{ apply (IH (sub_now q)); [done|done|]. intros l tl Hl. by eapply tracks_later; [apply HL|]. }
  destruct (spendTOTPStep _ _ _ _ _ _ _) as [st' ok] eqn:Es.
  destruct (MatchTOTPStep_window _ _ _ _ Em) as [Hnn Hwin].
  destruct (Hstep q st st' ok step Hq Es) as [[Hproj Hs]|(f & r & Hc & Hr)].
  - assert (∀ l tl, L = Some (l, tl) → tracks (sub_now q) (proj st') u l tl) as HL'.
    { intros l tl Hl. rewrite Hproj. by eapply tracks_later; [apply HL|]. }
    specialize (IH _ _ _ Hgood' Ht' HL'). destruct ok; [|done]. simpl. by rewrite Hs.
  - assert (∀ l tl, L = Some (l, tl) → tracks (sub_now q) (proj st') u l tl
        ∧ (sub_user q = u → r = inl true → l < step)) as HL'.
    { intros l tl Hl. eapply tracks_consume; eauto. }
    destruct ok; simpl.
    2:{ apply (IH (sub_now q)); [done|done|]. intros l tl Hl. by apply HL'. }
    destruct (sel q) eqn:Hs; simpl.
    2:{ apply (IH (sub_now q)); [done|done|]. intros l tl Hl. by apply HL'. }
    rewrite (Hr eq_refl) in *.
    assert (tracks (sub_now q) (proj st') u step (sub_now q)) as Hnew.
    { rewrite <- (Hsel q Hs). eapply tracks_new; [done|done|lia|exact Hc]. }
    specialize (IH _ st' (Some (step, sub_now q)) Hgood' Ht' ltac:(intros ?? [= <- <-]; exact Hnew)).
    simpl in IH. destruct L as [[l tl]|]; simpl; [|exact IH].
    apply StronglySorted_lt_cons; [|exact IH]. by apply (HL' l tl); [|apply Hsel|].
Qed.
End Service.
#[global] Arguments mkService {_} _ _.

(** C13: one instance never accepts a user's time step twice, nor an older one
    than it already accepted, whatever happens to the shared guard: the steps
    it spends for the user strictly increase. *)
Theorem totp_no_replay_instance (hotp : string → Z → string → option bool) {Sh}
    `{ReplayGuard Sh} (wired : bool) (qs : list submission) (t : Z) (st : service (Sh := Sh))
    (i : nat) (u : string) :
  in_time t qs →
  StronglySorted Z.lt (steps_of (λ q, Nat.eqb (sub_instance q) i && String.eqb (sub_user q) u)
                         (validate_all hotp wired qs st)).
Proof.
  intros Ht. apply (run_increasing hotp (λ st, sv_locals st i) _ (λ _, True) u wired)
    with (t := t) (L := None); [| |by apply Forall_true|done|done].
  - intros q. breflect. tauto.
  - intros q st1 st' ok step _. unfold spendTOTPStep.
    destruct (consume FOk (sub_now q) (sub_user q) step (sv_locals st1 (sub_instance q)))
      as [local lr] eqn:Ec.
    assert (∀ ls, ls = set_local (sub_instance q) local (sv_locals st1) → (ok = true → fresh_of lr = true) →
      (ls i = sv_locals st1 i ∧ Nat.eqb (sub_instance q) i && String.eqb (sub_user q) u = false)
      ∨ ∃ f r, consume f (sub_now q) (sub_user q) step (sv_locals st1 i) = (ls i, r)
               ∧ (ok = true → r = inl true)) as Hcase.
    { intros ls -> Hok. unfold set_local. case_decide as Hi.
      - right. exists FOk, lr. rewrite Hi. split; [done|]. intros Ho. specialize (Hok Ho).
        by destruct lr as [[]|]; simplify_eq/=.
      - left. split; [done|]. apply andb_false_iff. left. apply Nat.eqb_neq. congruence. }
    destruct wired; [destruct (consume _ _ _ _ (sv_shared st1)) as [sh [fresh|e]]|];
      intros [= <- <-]; apply Hcase; try done. by intros [_ ?]%andb_true_iff.
Qed.

(** Across all instances, while the shared guard answers, a user's accepted
    steps strictly increase: an observed code cannot be replayed anywhere, at
    any time. *)
Lemma totp_no_replay_shared (hotp : string → Z → string → option bool) {Sh} `{ReplayGuard Sh}
    (qs : list submission) (t : Z) (st : service (Sh := Sh)) (u : string) :
  in_time t qs → Forall (λ q, ∀ st step, ∃ b,
    (consume (sub_fault q) (sub_now q) (sub_user q) step st).2 = inl b) qs →
  StronglySorted Z.lt (steps_of (λ q, String.eqb (sub_user q) u) (validate_all hotp true qs st)).
Proof.
  intros Ht Hok. apply (run_increasing hotp sv_shared _ (λ q, ∀ st step, ∃ b,
      (consume (sub_fault q) (sub_now q) (sub_user q) step st).2 = inl b) u true)
    with (t := t) (L := None); [|  |done|done|done].
  - intros q. by breflect.
  - intros q st1 st' ok step Hq. unfold spendTOTPStep.
    destruct (consume FOk (sub_now q) (sub_user q) step (sv_locals st1 (sub_instance q))) as [local lr].
    destruct (Hq (sv_shared st1) step) as [b Hb].
    destruct (consume (sub_fault q) (sub_now q) (sub_user q) step (sv_shared st1)) as [sh r] eqn:Ec.
    simpl in Hb. subst r. intros [= <- <-]. right. exists (sub_fault q), (inl b).
    split; [exact Ec|]. intros [-> _]%andb_true_iff. done.
Qed.

(** ** Witnesses *)
Definition demo_hotp (code : string) (c : Z) (secret : string) : option bool :=
  Some (String.eqb code (Itoa (100000 + c))).

(** A code typed twice on instance 0, then once more on instance 1, then the
    next code on instance 1. *)
Definition demo_submissions : list submission :=
  [mkSubmission 0 FOk (60 * second) "u" "100002" "s";
   mkSubmission 0 FOk (61 * second) "u" "100002" "s";
   mkSubmission 1 FOk (62 * second) "u" "100002" "s";
   mkSubmission 1 FOk (70 * second) "u" " 100003 " "s"].
Definition demo_service : service (Sh := RefServer.t) :=
  mkService (λ _, mkMemoryGuard ∅ None) (∅ : RefServer.t).

Lemma demo_in_time : in_time 0 demo_submissions.
Proof.
  split; [repeat constructor; discriminate|].
  repeat constructor; unfold sane, second; simpl; lia.
Qed.

Lemma totp_no_replay_instance_witness :
  steps_of (λ q, Nat.eqb (sub_instance q) 1 && String.eqb (sub_user q) "u")
    (validate_all demo_hotp false demo_submissions demo_service) = [2; 3]
  ∧ StronglySorted Z.lt (steps_of (λ q, Nat.eqb (sub_instance q) 1 && String.eqb (sub_user q) "u")
      (validate_all demo_hotp false demo_submissions demo_service)).
Proof.
  split; [reflexivity|].
  apply (totp_no_replay_instance demo_hotp false demo_submissions 0 demo_service 1 "u"), demo_in_time.
Defined.

Lemma totp_no_replay_shared_witness :
  steps_of (λ q, String.eqb (sub_user q) "u")
    (validate_all demo_hotp true demo_submissions demo_service) = [2; 3]
  ∧ StronglySorted Z.lt (steps_of (λ q, String.eqb (sub_user q) "u")
      (validate_all demo_hotp true demo_submissions demo_service)).
Proof.
  split; [reflexivity|].
  apply (totp_no_replay_shared demo_hotp demo_submissions 0 demo_service "u"); [apply demo_in_time|].
  assert (∀ now u step (s : RefServer.t), ∃ b, (shared_ConsumeTOTPStep FOk now u step s).2 = inl b)
    as Hok.
  { intros now u step s. unfold shared_ConsumeTOTPStep, call.
    destruct (consumeStepScript _ _ _ _ s) as [s' n]. by eexists. }
  repeat constructor; intros; apply Hok.
Defined.
