(* ===== verification/TOTPChallenge.v ===== *)
(** Login challenges and recovery codes: [internal/auth/totp_challenge.go],
    [internal/valkey/totp_challenge.go], the recovery codes of
    [internal/auth/totp.go], and [redeemTOTPChallenge] of
    [cmd/server/auth_service.go].

    A challenge is redeemed once: the shared record first, then the in-process
    one.  Recovery codes are drawn by rejection sampling from random bytes,
    which are an argument; [HashToken] (SHA-256) is a parameter. *)
From S2P Require Import Prelude.
From S2P Require Import GoStrings.
From S2P Require Import Valkey.
From S2P Require Import RateLimit.
From S2P Require Import Throttle.
From S2P Require Import TOTP.

Local Open Scope Z_scope.

Definition TOTPChallengeTTL : Z := 5 * minute.
Definition challengeBurnSlack : Z := minute.

(** * The guards *)
Record MemoryTOTPChallengeGuard := mkChallengeGuard {
  cg_spent : gmap string Z; cg_lastSweep : option Z }.

Definition challenge_sweep (now : Z) (g : MemoryTOTPChallengeGuard) : MemoryTOTPChallengeGuard :=
  if sweep_due (cg_lastSweep g) now TOTPChallengeTTL
  then mkChallengeGuard (filter (λ p : string * Z, now < p.2) (cg_spent g)) (Some now)
  else g.

Definition memory_RedeemTOTPChallenge (now : Z) (jti : string) (ttl : Z)
    (g : MemoryTOTPChallengeGuard) : MemoryTOTPChallengeGuard * bool :=
  let g := challenge_sweep now g in
  let blocked := match cg_spent g !! jti with Some exp => now <? exp | None => false end in
  if blocked then (g, false)
  else (mkChallengeGuard (<[jti := now + ttl]> (cg_spent g)) (cg_lastSweep g), true).

Definition challenge_key (jti : string) : string := "totp:challenge:" +:+ jti.

Section Redeem.
Context {S : Type} `{Server S}.
Implicit Types (s : S).

Definition shared_RedeemTOTPChallenge (f : fault) (now : Z) (jti : string) (ttl : Z) (s : S) :
    S * (bool + rerr) :=
  SetNX f (UnixMilli now) (challenge_key jti) "1" (Milliseconds ttl) s.

Record challenges := mkChallenges { ch_locals : nat → MemoryTOTPChallengeGuard; ch_shared : S }.

Definition set_challenge_local (i : nat) (g : MemoryTOTPChallengeGuard)
    (l : nat → MemoryTOTPChallengeGuard) : nat → MemoryTOTPChallengeGuard :=
  λ j, if decide (j = i) then g else l j.

Definition redeem_local (i : nat) (now : Z) (jti : string) (ttl : Z) (st : challenges) :
    challenges * bool :=
  let '(g, fresh) := memory_RedeemTOTPChallenge now jti ttl (ch_locals st i) in
  (mkChallenges (set_challenge_local i g (ch_locals st)) (ch_shared st), fresh).

(** [redeemTOTPChallenge] on instance [i]; [wired]: the shared guard is there. *)
Definition redeemTOTPChallenge (wired : bool) (i : nat) (f : fault) (now : Z) (jti : string)
    (expiresAt : Z) (st : challenges) : challenges * bool :=
  let ttl := expiresAt - now + challengeBurnSlack in
  if wired then
    match shared_RedeemTOTPChallenge f now jti ttl (ch_shared st) with
    | (shared, inl false) => (mkChallenges (ch_locals st) shared, false)
    | (shared, _) => redeem_local i now jti ttl (mkChallenges (ch_locals st) shared)
    end
  else redeem_local i now jti ttl st.

(** ** Redemptions in order *)
Record redemption := mkRedemption {
  rd_instance : nat; rd_fault : fault; rd_now : Z; rd_jti : string }.

(** The expiry of a challenge is a claim of its signed token. *)
Variable expiresAt : string → Z.

Fixpoint redeem_all (wired : bool) (qs : list redemption) (st : challenges) : list bool :=
  match qs with
  | [] => []
  | q :: qs =>
      let '(st, ok) := redeemTOTPChallenge wired (rd_instance q) (rd_fault q) (rd_now q)
                         (rd_jti q) (expiresAt (rd_jti q)) st in
      ok :: redeem_all wired qs st
  end.

(** Redemptions come in the order of the clock, while the token is accepted. *)
Definition timely (t : Z) (qs : list redemption) : Prop :=
  StronglySorted Z.le (t :: (rd_now <$> qs)) ∧ Forall (λ q, rd_now q ≤ expiresAt (rd_jti q)) qs.

Lemma timely_cons t q qs :
  timely t (q :: qs) → t ≤ rd_now q ≤ expiresAt (rd_jti q) ∧ timely (rd_now q) qs.
Proof.
  intros [Hs Hf]. rewrite fmap_cons in Hs. apply StronglySorted_inv in Hs as [Hs Hle].
  inversion Hle; inversion Hf; subst. split; [done|]. by split.
Qed.

(** ** The record of a redeemed challenge *)
Definition local_spent (jti : string) (g : MemoryTOTPChallengeGuard) : Prop :=
  cg_spent g !! jti = Some (expiresAt jti + challengeBurnSlack).
Definition local_free (jti : string) (g : MemoryTOTPChallengeGuard) : Prop :=
  cg_spent g !! jti = None.

Lemma memory_redeem now jti jti' g :
  now ≤ expiresAt jti' →
  let '(g', ok) := memory_RedeemTOTPChallenge now jti (expiresAt jti - now + challengeBurnSlack) g in
  (local_spent jti' g → local_spent jti' g' ∧ (jti = jti' → ok = false))
  ∧ (local_free jti' g → if decide (jti = jti') then local_spent jti' g' ∧ ok = true
                         else local_free jti' g').
Proof.
  intros Hnow. unfold memory_RedeemTOTPChallenge.
  assert (local_spent jti' g → local_spent jti' (challenge_sweep now g)) as Hs.
  { unfold local_spent, challenge_sweep. intros Hg. case_match; [|done]. simpl.
    apply map_lookup_filter_Some. split; [done|]. simpl.
    unfold challengeBurnSlack, minute, second. lia. }
  assert (local_free jti' g → local_free jti' (challenge_sweep now g)) as Hf.
  { unfold local_free, challenge_sweep. intros Hg. case_match; [|done]. simpl.
    apply map_lookup_filter_None. by left. }
  unfold local_spent, local_free in *.
  destruct (match cg_spent (challenge_sweep now g) !! jti with
            | Some exp => now <? exp | None => false end) eqn:E.
  - split; [by auto|]. intros Hg. specialize (Hf Hg). case_decide; [subst|done].
    by rewrite Hf in E.
  - cbn [cg_spent]. destruct (decide (jti = jti')) as [->|Hne].
    + split.
      * intros Hg. rewrite (Hs Hg) in E. apply Z.ltb_ge in E.
        unfold challengeBurnSlack, minute, second in E. lia.
      * intros _. split; [|done]. rewrite lookup_insert_eq. f_equal. lia.
    + rewrite lookup_insert_ne by done. split; [|done]. intros Hg. by split; [apply Hs|].
Qed.

(** Whatever the shared guard does, a redemption on instance [i] goes through
    the instance's record. *)
Lemma redeem_instance wired i f now jti jti' st :
  now ≤ expiresAt jti' →
  let '(st', ok) := redeemTOTPChallenge wired i f now jti (expiresAt jti) st in
  ∀ j, local_spent jti' (ch_locals st j) →
    local_spent jti' (ch_locals st' j) ∧ (i = j → jti = jti' → ok = false).
Proof.
  intros Hnow. unfold redeemTOTPChallenge, redeem_local.
  pose proof (memory_redeem now jti jti' (ch_locals st i) Hnow) as Hm.
  destruct wired; [destruct (shared_RedeemTOTPChallenge _ _ _ _ _) as [sh [[]|e]]|]; simpl;
    try destruct (memory_RedeemTOTPChallenge _ _ _ _) as [g fresh]; intros j Hj; simpl;
    try (by split); unfold set_challenge_local; destruct Hm as [Hm _]; case_decide as Hij;
    subst; try (by split); destruct (Hm Hj) as [? Hk]; by split; auto.
Qed.

Lemma redeem_instance_new wired i f now jti st :
  now ≤ expiresAt jti →
  let '(st', ok) := redeemTOTPChallenge wired i f now jti (expiresAt jti) st in
  ok = true → local_spent jti (ch_locals st' i).
Proof.
  intros Hnow. unfold redeemTOTPChallenge, redeem_local, memory_RedeemTOTPChallenge.
  assert (∀ g, cg_spent (mkChallengeGuard
    (<[jti := now + (expiresAt jti - now + challengeBurnSlack)]> (cg_spent g)) (cg_lastSweep g)) !! jti
    = Some (expiresAt jti + challengeBurnSlack)) as Hi.
  { intros g. simpl. rewrite lookup_insert_eq. f_equal. lia. }
  destruct wired; [destruct (shared_RedeemTOTPChallenge _ _ _ _ _) as [sh [[]|e]]|]; simpl;
    try done; destruct (match cg_spent _ !! jti with Some _ => _ | None => _ end); try done;
    intros _; unfold local_spent, set_challenge_local; simpl; rewrite decide_True by done;
    apply Hi.
Qed.

Definition accepted_on (i : nat) (jti : string) (qs : list redemption) (oks : list bool) : nat :=
  length (filter (λ p : redemption * bool, rd_instance p.1 = i ∧ rd_jti p.1 = jti ∧ p.2 = true)
            (zip qs oks)).

Lemma accepted_on_cons i jti q qs ok oks :
  accepted_on i jti (q :: qs) (ok :: oks)
  = ((if decide (rd_instance q = i ∧ rd_jti q = jti ∧ ok = true) then 1 else 0)
     + accepted_on i jti qs oks)%nat.
Proof.
  unfold accepted_on. cbn [zip zip_with].
  destruct (decide (rd_instance q = i ∧ rd_jti q = jti ∧ ok = true)) as [Hd|Hd].
  - by rewrite filter_cons_True by exact Hd.
  - by rewrite filter_cons_False by exact Hd.
Qed.

(** Once spent (or once the token is too old), no further redemption. *)
Lemma none_accepted wired qs t st i jti :
  timely t qs → local_spent jti (ch_locals st i) ∨ expiresAt jti < t →
  accepted_on i jti qs (redeem_all wired qs st) = 0%nat.
Proof.
  revert t st. induction qs as [|q qs IH]; intros t st Ht Hcase; [done|].
  apply timely_cons in Ht as [Hle Ht]. simpl.
  destruct (Z.leb_spec (rd_now q) (expiresAt jti)) as [Hnow|Hnow].
  - destruct Hcase as [Hs|?]; [|lia].
    pose proof (redeem_instance wired (rd_instance q) (rd_fault q) (rd_now q) (rd_jti q) jti st Hnow)
      as Hr.
    destruct (redeemTOTPChallenge _ _ _ _ _ _ _) as [st' ok]. destruct (Hr i Hs) as [Hs' Hok].
    rewrite accepted_on_cons, (IH _ _ Ht (or_introl Hs')).
    case_decide as Hd; [|done]. destruct Hd as (Hi & Hj & Ho). rewrite (Hok Hi Hj) in Ho. done.
  - destruct (redeemTOTPChallenge _ _ _ _ _ _ _) as [st' ok].
    rewrite accepted_on_cons, (IH _ _ Ht (or_intror Hnow)).
    case_decide as Hd; [|done]. destruct Hd as (_ & <- & _). lia.
Qed.

Lemma once_accepted wired qs t st i jti :
  timely t qs → (accepted_on i jti qs (redeem_all wired qs st) ≤ 1)%nat.
Proof.
  revert t st. induction qs as [|q qs IH]; intros t st Ht; [unfold accepted_on; simpl; lia|].
  apply timely_cons in Ht as [Hle Ht]. simpl.
  destruct (decide (rd_instance q = i ∧ rd_jti q = jti)) as [[<- <-]|Hne].
  - pose proof (redeem_instance_new wired (rd_instance q) (rd_fault q) (rd_now q) (rd_jti q) st
      ltac:(lia)) as Hnew.
    destruct (redeemTOTPChallenge _ _ _ _ _ _ _) as [st' ok]. rewrite accepted_on_cons.
    destruct ok.
    + rewrite (none_accepted wired qs _ st' _ _ Ht (or_introl (Hnew eq_refl))). case_decide; lia.
    + rewrite decide_False by naive_solver. simpl. eauto.
  - destruct (redeemTOTPChallenge _ _ _ _ _ _ _) as [st' ok]. rewrite accepted_on_cons.
    rewrite decide_False by naive_solver. simpl. eauto.
Qed.

(** ** Across instances, while the shared guard answers *)
#[local] Instance challenge_key_inj : Inj (=) (=) challenge_key.
Proof. intros a b. apply (inj (String.append _)). Qed.

Definition shared_held (jti : string) (t : Z) (s : S) : Prop :=
  ∃ d, view s (UnixMilli t) (challenge_key jti) = Some (mkEntry (VStr "1") (Some d))
       ∧ UnixMilli (expiresAt jti) < d.

Lemma redeem_ttl_pos now jti :
  now ≤ expiresAt jti → 0 < Milliseconds (expiresAt jti - now + challengeBurnSlack).
Proof.
  intros Hle. unfold Milliseconds, challengeBurnSlack, minute, second.
  rewrite Z.quot_div_nonneg by lia.
  pose proof (Z.div_le_mono (60 * 1000000000) (expiresAt jti - now + 60 * 1000000000) 1000000
    ltac:(lia) ltac:(lia)) as Hd. change (60 * 1000000000 / 1000000) with 60000 in Hd. lia.
Qed.

Lemma redeem_deadline now jti :
  now ≤ expiresAt jti →
  UnixMilli (expiresAt jti)
  < UnixMilli now + Milliseconds (expiresAt jti - now + challengeBurnSlack).
Proof.
  intros Hle. unfold Milliseconds, UnixMilli, challengeBurnSlack, minute, second.
  rewrite Z.quot_div_nonneg by lia.
  pose proof (Z.div_mod now 1000000 ltac:(lia)). pose proof (Z.mod_pos_bound now 1000000 ltac:(lia)).
  pose proof (Z.div_mod (expiresAt jti) 1000000 ltac:(lia)).
  pose proof (Z.mod_pos_bound (expiresAt jti) 1000000 ltac:(lia)).
  pose proof (Z.div_mod (expiresAt jti - now + 60 * 1000000000) 1000000 ltac:(lia)).
  pose proof (Z.mod_pos_bound (expiresAt jti - now + 60 * 1000000000) 1000000 ltac:(lia)). lia.
Qed.

Lemma shared_redeem t now jti jti' s :
  t ≤ now → now ≤ expiresAt jti → now ≤ expiresAt jti' →
  let '(s', r) := shared_RedeemTOTPChallenge FOk now jti
                    (expiresAt jti - now + challengeBurnSlack) s in
  (shared_held jti' t s → shared_held jti' now s' ∧ (jti = jti' → r = inl false))
  ∧ (view s (UnixMilli t) (challenge_key jti') = None →
     if decide (jti = jti') then shared_held jti' now s' ∧ r = inl true
     else view s' (UnixMilli now) (challenge_key jti') = None)
  ∧ ∃ b, r = inl b.
Proof.
  intros Ht Hj Hj'. unfold shared_RedeemTOTPChallenge, SetNX, call.
  pose proof (UnixMilli_mono _ _ Ht) as Hms. pose proof (UnixMilli_mono _ _ Hj') as Hms'.
  pose proof (redeem_ttl_pos now jti Hj) as Hpos. pose proof (redeem_deadline now jti Hj) as Hdl.
  set (ttl := Milliseconds _) in *. set (k := challenge_key jti).
  assert (shared_held jti' t s → shared_held jti' now s) as Hkeep.
  { intros (d & Hv & Hd). exists d. split; [|done]. rewrite (view_later _ _ _ _ _ _ Hms Hv).
    by rewrite (proj2 (Z.ltb_lt _ d)) by lia. }
  destruct (view s (UnixMilli now) k) as [e|] eqn:Ev.
  - destruct (c_setnx_held (UnixMilli now) k "1" ttl s e Ev) as [Hu Hr].
    destruct (c_setnx _ _ _ _ _) as [s' b]. simpl in Hu, Hr. subst b. split; [|split; [|by eexists]].
    + intros (d & Hv & Hd)%Hkeep. split; [|done]. exists d. by rewrite (Hu _ (Z.le_refl _)).
    + intros Hn. apply (view_None_later _ _ _ _ Hms) in Hn. case_decide; [subst jti'; unfold k in *; congruence|].
      by rewrite (Hu _ (Z.le_refl _)).
  - destruct (c_setnx_free (UnixMilli now) k "1" ttl s Hpos Ev) as [Hu Hr].
    destruct (c_setnx _ _ _ _ _) as [s' b]. simpl in Hu, Hr. subst b. split; [|split; [|by eexists]].
    + intros (d & Hv & Hd)%Hkeep. destruct (decide (jti = jti')) as [->|Hne].
      * unfold k in Ev. congruence.
      * split; [|done]. exists d. split; [|done].
        rewrite (updated_other _ _ _ _ _ _ _ Hu (Z.le_refl _)); [done|].
        intros He. by apply (inj challenge_key) in He.
    + intros Hn. apply (view_None_later _ _ _ _ Hms) in Hn. case_decide as Hd.
      * split; [|done]. eexists. split.
        -- rewrite <- Hd. fold k. rewrite (updated_here _ _ _ _ _ _ Hu (Z.le_refl _)). simpl.
           by rewrite (proj2 (Z.ltb_lt _ (UnixMilli now + ttl))) by lia.
        -- rewrite <- Hd. lia.
      * rewrite (updated_other _ _ _ _ _ _ _ Hu (Z.le_refl _)); [done|].
        intros He. by apply (inj challenge_key) in He.
Qed.

Definition answers (jti : string) (qs : list redemption) (oks : list bool) : list bool :=
  omap (λ p : redemption * bool, if String.eqb (rd_jti p.1) jti then Some p.2 else None) (zip qs oks).

(** One redemption, with the shared guard answering. *)
Lemma redeem_shared i t now jti jti' st :
  t ≤ now → now ≤ expiresAt jti → now ≤ expiresAt jti' →
  let '(st', ok) := redeemTOTPChallenge true i FOk now jti (expiresAt jti) st in
  (shared_held jti' t (ch_shared st) →
     shared_held jti' now (ch_shared st') ∧ (jti = jti' → ok = false))
  ∧ (view (ch_shared st) (UnixMilli t) (challenge_key jti') = None →
     (∀ j, local_free jti' (ch_locals st j)) →
     if decide (jti = jti') then shared_held jti' now (ch_shared st') ∧ ok = true
     else view (ch_shared st') (UnixMilli now) (challenge_key jti') = None
          ∧ ∀ j, local_free jti' (ch_locals st' j)).
Proof.
  intros Ht Hj Hj'. unfold redeemTOTPChallenge, redeem_local.
  pose proof (shared_redeem t now jti jti' (ch_shared st) Ht Hj Hj') as Hs.
  destruct (shared_RedeemTOTPChallenge _ _ _ _ _) as [sh r]. destruct Hs as (Hheld & Hfree & b & ->).
  pose proof (memory_redeem now jti jti' (ch_locals st i) Hj') as Hm.
  destruct b.
  - cbn [ch_locals ch_shared].
    destruct (memory_RedeemTOTPChallenge _ _ _ _) as [g fresh]. cbn [ch_locals ch_shared]. split.
    + intros Hh. destruct (Hheld Hh) as [? Hr]. split; [done|]. intros He. by specialize (Hr He).
    + intros Hn Hl. specialize (Hfree Hn). destruct Hm as [_ Hm]. specialize (Hm (Hl i)).
      destruct (decide (jti = jti')) as [He|He];
        [by destruct Hfree, Hm|]. split; [done|]. intros j. unfold set_challenge_local.
      case_decide; [done|apply Hl].
  - cbn [ch_locals ch_shared]. split; [intros [? _]%Hheld; by split|].
    intros Hn Hl. specialize (Hfree Hn).
    destruct (decide (jti = jti')) as [He|He]; [by destruct Hfree|]. by split.
Qed.

Lemma answers_cons jti q qs ok oks :
  answers jti (q :: qs) (ok :: oks)
  = (if String.eqb (rd_jti q) jti then [ok] else []) ++ answers jti qs oks.
Proof. unfold answers. simpl. by destruct (String.eqb (rd_jti q) jti). Qed.

(** Past the expiry, no redemption of the challenge is timely. *)
Lemma answers_expired qs t st jti :
  timely t qs → expiresAt jti < t → answers jti qs (redeem_all true qs st) = [].
Proof.
  revert t st. induction qs as [|q qs IH]; intros t st Ht Hexp; [done|].
  apply timely_cons in Ht as [Hle Ht]. cbn [redeem_all].
  destruct (redeemTOTPChallenge _ _ _ _ _ _ _) as [st' ok]. rewrite answers_cons.
  destruct (String.eqb_spec (rd_jti q) jti) as [<-|]; [lia|]. apply (IH (rd_now q)); [done|lia].
Qed.

Lemma answers_refused qs t st jti :
  timely t qs → Forall (λ q, rd_fault q = FOk) qs →
  shared_held jti t (ch_shared st) →
  Forall (λ b, b = false) (answers jti qs (redeem_all true qs st)).
Proof.
  revert t st. induction qs as [|q qs IH]; intros t st Ht Hf Hh; [constructor|].
  apply timely_cons in Ht as [Hle Ht]. inversion Hf as [|? ? Hq Hf']; subst. cbn [redeem_all]. rewrite Hq.
  destruct (Z.leb_spec (rd_now q) (expiresAt jti)) as [Hnow|Hnow].
  - pose proof (redeem_shared (rd_instance q) t (rd_now q) (rd_jti q) jti st ltac:(lia) ltac:(lia) Hnow)
      as Hr.
    destruct (redeemTOTPChallenge _ _ _ _ _ _ _) as [st' ok]. destruct Hr as [Hr _].
    destruct (Hr Hh) as [Hh' Hok]. rewrite answers_cons. apply Forall_app.
    split; [|by apply (IH (rd_now q))].
    destruct (String.eqb_spec (rd_jti q) jti); [|constructor]. constructor; [auto|constructor].
  - destruct (redeemTOTPChallenge _ _ _ _ _ _ _) as [st' ok]. rewrite answers_cons.
    destruct (String.eqb_spec (rd_jti q) jti) as [<-|]; [lia|]. simpl.
    by rewrite (answers_expired qs (rd_now q)).
Qed.

Lemma answers_first qs t st jti :
  timely t qs → Forall (λ q, rd_fault q = FOk) qs →
  view (ch_shared st) (UnixMilli t) (challenge_key jti) = None →
  (∀ j, local_free jti (ch_locals st j)) →
  answers jti qs (redeem_all true qs st) = []
  ∨ ∃ rest, answers jti qs (redeem_all true qs st) = true :: rest ∧ Forall (λ b, b = false) rest.
Proof.
  revert t st. induction qs as [|q qs IH]; intros t st Ht Hf Hv Hl; [by left|].
  apply timely_cons in Ht as [Hle Ht]. inversion Hf as [|? ? Hq Hf']; subst. cbn [redeem_all]. rewrite Hq.
  destruct (Z.leb_spec (rd_now q) (expiresAt jti)) as [Hnow|Hnow].
  - pose proof (redeem_shared (rd_instance q) t (rd_now q) (rd_jti q) jti st ltac:(lia) ltac:(lia) Hnow)
      as Hr.
    destruct (redeemTOTPChallenge _ _ _ _ _ _ _) as [st' ok]. destruct Hr as [_ Hr].
    specialize (Hr Hv Hl). rewrite answers_cons.
    destruct (String.eqb_spec (rd_jti q) jti) as [Hj|Hj].
    + rewrite decide_True in Hr by done. destruct Hr as [Hh ->]. right. eexists. split; [done|].
      by apply (answers_refused _ (rd_now q)).
    + rewrite decide_False in Hr by done. destruct Hr as [Hv' Hl']. by apply (IH (rd_now q)).
  - destruct (redeemTOTPChallenge _ _ _ _ _ _ _) as [st' ok]. rewrite answers_cons.
    destruct (String.eqb_spec (rd_jti q) jti) as [<-|]; [lia|]. simpl.
    left. by apply (answers_expired qs (rd_now q)).
Qed.
End Redeem.
#[global] Arguments mkChallenges {_} _ _.
#[global] Arguments challenges : clear implicits.

(** On one instance a login challenge is redeemed at most once while its
    token is accepted, whatever fails. *)
Lemma challenge_once {S} `{Server S} (expiresAt : string → Z) (wired : bool)
    (qs : list redemption) (t : Z) (st : challenges S) (i : nat) (jti : string) :
  timely expiresAt t qs →
  (accepted_on i jti qs (redeem_all expiresAt wired qs st) ≤ 1)%nat.
Proof. apply once_accepted. Qed.

(** With the shared guard answering, of all redemptions of a fresh
    challenge on all instances the first wins and every other one is refused. *)
Lemma challenge_first_wins {S} `{Server S} (expiresAt : string → Z) (qs : list redemption)
    (t : Z) (st : challenges S) (jti : string) :
  timely expiresAt t qs → Forall (λ q, rd_fault q = FOk) qs →
  view (ch_shared st) (UnixMilli t) (challenge_key jti) = None →
  (∀ j, cg_spent (ch_locals st j) !! jti = None) →
  answers jti qs (redeem_all expiresAt true qs st) = []
  ∨ ∃ rest, answers jti qs (redeem_all expiresAt true qs st) = true :: rest
            ∧ Forall (λ b, b = false) rest.
Proof. apply answers_first. Qed.

(** * Recovery codes *)
Definition recoveryAlphabet : string := "ABCDEFGHJKMNPQRSTUVWXYZ23456789".
Definition alphabet_len : Z := Z.of_nat (String.length recoveryAlphabet).

(** [recoveryAlphabet[i]] *)
Definition alphabet_at (i : Z) : ascii := default "A"%char (String.get (Z.to_nat i) recoveryAlphabet).

(** [randomRecoveryCode] with [n] characters to go: a byte at or over [max]
    would bias the remainder and is skipped.  [None]: the source of random
    bytes failed. *)
Fixpoint random_code (n : nat) (bytes : list Z) {struct bytes} : option (string * list Z) :=
  match n, bytes with
  | O, _ => Some (EmptyString, bytes)
  | S _, [] => None
  | S m, b :: bytes =>
      let max := alphabet_len * (256 / alphabet_len) in
      if max <=? b then random_code n bytes
      else match random_code m bytes with
           | Some (s, rest) => Some (String (alphabet_at (b `mod` alphabet_len)) s, rest)
           | None => None
           end
  end.
Definition randomRecoveryCode : list Z → option (string * list Z) := random_code 10.

Definition RecoveryCodeCount : Z := 10.

Definition display_code (raw : string) : string :=
  String.substring 0 5 raw +:+ "-" +:+ String.substring 5 (String.length raw - 5) raw.

Fixpoint keep_alnum (s : string) : string :=
  match s with
  | EmptyString => EmptyString
  | String c s' =>
      if is_upper c || is_digit c then String c (keep_alnum s') else keep_alnum s'
  end.
Definition NormalizeRecoveryCode (s : string) : string := keep_alnum (ToUpper s).

Section Recovery.
Variable HashToken : string → string.

Fixpoint GenerateRecoveryCodes (n : nat) (bytes : list Z) : option (list string * list string * list Z) :=
  match n with
  | O => Some ([], [], bytes)
  | S n =>
      match randomRecoveryCode bytes with
      | None => None
      | Some (raw, bytes) =>
          match GenerateRecoveryCodes n bytes with
          | None => None
          | Some (display, hashes, rest) =>
              Some (display_code raw :: display, HashToken raw :: hashes, rest)
          end
      end
  end.

Definition alnum (c : ascii) : bool := is_upper c || is_digit c.

Lemma alphabet_alnum : sforall alnum recoveryAlphabet = true.
Proof. reflexivity. Qed.

Lemma get_sforall (p : ascii → bool) (s : string) (i : nat) (c : ascii) :
  sforall p s = true → String.get i s = Some c → p c = true.
Proof.
  revert i. induction s as [|a s IH]; intros i; simpl; [by destruct i|].
  intros [Ha Hs]%andb_true_iff. destruct i; [by intros [= ->]|by apply IH].
Qed.

Lemma alphabet_at_alnum (i : Z) : alnum (alphabet_at i) = true.
Proof.
  unfold alphabet_at. destruct (String.get _ _) as [c|] eqn:E; [|done]. simpl.
  by eapply get_sforall; [apply alphabet_alnum|].
Qed.

Lemma random_code_spec (n : nat) (bytes rest : list Z) (s : string) :
  random_code n bytes = Some (s, rest) → String.length s = n ∧ sforall alnum s = true.
Proof.
  revert n s. induction bytes as [|b bytes IH]; intros n s.
  { destruct n; simpl; [|done]. by intros [= <- _]. }
  destruct n as [|n]; [by intros [= <- _]|]. cbn [random_code].
  destruct (_ <=? b); [apply IH|]. destruct (random_code n bytes) as [[s' r]|] eqn:E; [|done].
  intros [= <- <-]. destruct (IH n s' E) as [Hl Ha]. cbn [String.length sforall].
  by rewrite Hl, Ha, alphabet_at_alnum.
Qed.

Lemma upper_alnum (c : ascii) : alnum c = true → upper c = c ∧ upper (lower c) = c.
Proof. destruct c as [[] [] [] [] [] [] [] []]; vm_compute; by intros. Qed.

Lemma keep_alnum_app (a b : string) : keep_alnum (a +:+ b) = keep_alnum a +:+ keep_alnum b.
Proof.
  induction a as [|c a IH]; [done|]. change (String c a +:+ b) with (String c (a +:+ b)).
  cbn [keep_alnum]. destruct (is_upper c || is_digit c); [|done].
  change (String c (keep_alnum a) +:+ keep_alnum b) with (String c (keep_alnum a +:+ keep_alnum b)).
  by rewrite IH.
Qed.

Lemma smap_app (f : ascii → ascii) (a b : string) : smap f (a +:+ b) = smap f a +:+ smap f b.
Proof.
  induction a as [|c a IH]; [done|]. change (String c a +:+ b) with (String c (a +:+ b)).
  cbn [smap]. change (String (f c) (smap f a) +:+ smap f b) with (String (f c) (smap f a +:+ smap f b)).
  by rewrite IH.
Qed.

Lemma Normalize_alnum (s : string) :
  sforall alnum s = true → NormalizeRecoveryCode s = s ∧ NormalizeRecoveryCode (ToLower s) = s.
Proof.
  unfold NormalizeRecoveryCode, ToUpper, ToLower. induction s as [|c s IH]; [done|].
  cbn [sforall]. intros [Hc Hs]%andb_true_iff. destruct (IH Hs) as [IH1 IH2].
  destruct (upper_alnum c Hc) as [Hu Hul]. cbn [smap keep_alnum]. rewrite Hu, Hul.
  unfold alnum in Hc. by rewrite Hc, IH1, IH2.
Qed.

Lemma substring_split (s : string) (n : nat) :
  (n ≤ String.length s)%nat →
  String.substring 0 n s +:+ String.substring n (String.length s - n) s = s.
Proof.
  revert n. induction s as [|c s IH]; intros n Hn.
  - by destruct n.
  - destruct n as [|n]; cbn [String.substring String.length].
    + change ("" +:+ ?x) with x. simpl. clear.
      assert (∀ s, String.substring 0 (String.length s) s = s) as Hall.
      { induction s0 as [|a s0 IH0]; [done|]. simpl. by rewrite IH0. }
      by rewrite Hall.
    + cbn [String.length] in Hn. change (S (String.length s) - S n)%nat with (String.length s - n)%nat.
      change (String c ?a +:+ ?b) with (String c (a +:+ b)). rewrite IH by lia. done.
Qed.

Lemma Normalize_app (a b : string) :
  NormalizeRecoveryCode (a +:+ b) = NormalizeRecoveryCode a +:+ NormalizeRecoveryCode b.
Proof. unfold NormalizeRecoveryCode, ToUpper. by rewrite smap_app, keep_alnum_app. Qed.

Lemma Normalize_display (raw : string) :
  String.length raw = 10%nat → sforall alnum raw = true →
  NormalizeRecoveryCode (display_code raw) = raw
  ∧ NormalizeRecoveryCode (ToLower (display_code raw)) = raw.
Proof.
  intros Hl Ha. destruct (Normalize_alnum raw Ha) as [H1 H2]. unfold display_code.
  pose proof (substring_split raw 5 ltac:(lia)) as Hs.
  set (a := String.substring 0 5 raw) in *. set (b := String.substring 5 (String.length raw - 5) raw) in *.
  split.
  - rewrite !Normalize_app. change (NormalizeRecoveryCode "-") with "".
    change ("" +:+ NormalizeRecoveryCode b) with (NormalizeRecoveryCode b).
    by rewrite <- Normalize_app, Hs.
  - unfold ToLower in *. rewrite !smap_app, !Normalize_app.
    change (NormalizeRecoveryCode (smap lower "-")) with "".
    change ("" +:+ NormalizeRecoveryCode (smap lower b)) with (NormalizeRecoveryCode (smap lower b)).
    by rewrite <- Normalize_app, <- smap_app, Hs.
Qed.
End Recovery.

(** Every generated recovery code, typed back as shown or in lower case,
    hashes to the digest stored at its position. *)
Lemma recovery_codes_verify (HashToken : string → string) (n : nat) (bytes rest : list Z)
    (display hashes : list string) :
  GenerateRecoveryCodes HashToken n bytes = Some (display, hashes, rest) →
  length display = n
  ∧ Forall2 (λ d h, HashToken (NormalizeRecoveryCode d) = h
                    ∧ HashToken (NormalizeRecoveryCode (ToLower d)) = h) display hashes.
Proof.
  revert bytes display hashes. induction n as [|n IH]; intros bytes display hashes; simpl.
  - intros [= <- <- _]. by split.
  - unfold randomRecoveryCode. destruct (random_code 10 bytes) as [[raw bytes']|] eqn:E; [|done].
    destruct (GenerateRecoveryCodes HashToken n bytes') as [[[ds hs] r]|] eqn:Eg; [|done].
    intros [= <- <- <-]. destruct (IH _ _ _ Eg) as [Hl Hf].
    destruct (random_code_spec _ _ _ _ E) as [Hlen Ha].
    destruct (Normalize_display raw Hlen Ha) as [H1 H2].
    split; [simpl; by rewrite Hl|]. constructor; [|done]. by rewrite H1, H2.
Qed.

(** ** Witnesses *)
Lemma recovery_codes_verify_witness :
  ∃ display hashes rest,
    GenerateRecoveryCodes (λ s, "#" +:+ s) 1 [0; 255; 1; 2; 3; 250; 4; 5; 6; 7; 30; 247; 9]
    = Some (display, hashes, rest)
    ∧ display = ["ABCDE-FGH99"]
    ∧ Forall2 (λ d h, "#" +:+ NormalizeRecoveryCode d = h
                      ∧ "#" +:+ NormalizeRecoveryCode (ToLower d) = h) display hashes.
Proof.
  eexists _, _, _. split; [reflexivity|]. split; [reflexivity|].
  apply (recovery_codes_verify (λ s, "#" +:+ s) 1
    [0; 255; 1; 2; 3; 250; 4; 5; 6; 7; 30; 247; 9] [9] _ _ eq_refl).
Defined.

Definition demo_expiry (jti : string) : Z := 300 * second.
Definition no_challenges : challenges RefServer.t := mkChallenges (λ _, mkChallengeGuard ∅ None) ∅.
(** Two instances race for one challenge. *)
Definition demo_redemptions : list redemption :=
  [mkRedemption 1 FOk 1000000 "j"; mkRedemption 0 FOk 1000000 "j"; mkRedemption 1 FOk 2000000 "j"].

Lemma demo_timely : timely demo_expiry 0 demo_redemptions.
Proof. split; [repeat constructor; discriminate|]. repeat constructor; discriminate. Qed.

Lemma challenge_once_witness :
  (accepted_on 1 "j" demo_redemptions
     (redeem_all demo_expiry true demo_redemptions no_challenges) ≤ 1)%nat.
Proof. apply (challenge_once demo_expiry true demo_redemptions 0), demo_timely. Defined.

Lemma challenge_first_wins_witness :
  redeem_all demo_expiry true demo_redemptions no_challenges = [true; false; false]
  ∧ (answers "j" demo_redemptions (redeem_all demo_expiry true demo_redemptions no_challenges) = []
     ∨ ∃ rest, answers "j" demo_redemptions
                 (redeem_all demo_expiry true demo_redemptions no_challenges) = true :: rest
               ∧ Forall (λ b, b = false) rest).
Proof.
  split; [reflexivity|].
  apply (challenge_first_wins demo_expiry demo_redemptions 0 no_challenges "j");
    [apply demo_timely|repeat constructor|reflexivity|reflexivity].
Defined.
