(* ===== verification/Requests.v ===== *)
(** Media requests: [internal/requests/service.go] and
    [internal/requests/seasons.go], over the table operations of
    [internal/db/queries/requests.sql], [request_seasons.sql] and
    [request_downloads.sql].

    The table is a finite map from request id to row.  Each SQL statement is
    one atomic function on it, with the statement's WHERE clause as a guard.
    What the service asks elsewhere (the users row, TMDB, Sonarr, Radarr) and
    which of its database calls fail is an environment argument.  Rows carry
    the columns the modelled code reads or writes; the [seasons] JSON is the
    decoded list, empty for NULL. *)
From S2P Require Import Prelude.
From S2P Require Import GoStrings.

Local Open Scope Z_scope.

(** * Season selections *)
Definition hasRegularSeason (seasons : list Z) : bool := existsb (λ n, 0 <? n) seasons.

Definition SeasonsOverlap (a b : list Z) : bool :=
  match a, b with
  | [], [] => true
  | [], _ => hasRegularSeason b
  | _, [] => hasRegularSeason a
  | _, _ => existsb (λ n, mem n a) b
  end.

Fixpoint dedup (seen : list Z) (l : list Z) : list Z :=
  match l with
  | [] => []
  | n :: l => if mem n seen then dedup seen l else n :: dedup (n :: seen) l
  end.

(** [sort.Ints] *)
Definition sort_ints (l : list Z) : list Z := merge_sort Z.le l.

Definition normalizeSeasons (l : list Z) : list Z := sort_ints (dedup [] l).

(** * Rows *)
Inductive status :=
  | StatusPending | StatusApproved | StatusDeclined | StatusDownloading | StatusAvailable
  | StatusFailed.
#[global] Instance status_eq_dec : EqDecision status.
Proof. solve_decision. Defined.

Definition TypeMovie : string := "movie".
Definition TypeShow : string := "show".

Record MediaRequest := mkRequest {
  rq_UserID : string;
  rq_Type : string;
  rq_TmdbID : Z;
  rq_Title : string;
  rq_Status : status;
  rq_Seasons : list Z;
  rq_SeasonsAvailable : list Z;
  rq_RequestedServiceID : ptr string;
  rq_ServiceID : ptr string;
  rq_DecidedBy : ptr string;
  rq_AutoApproved : bool;
  rq_ArrItemID : ptr Z;
  rq_FulfilledItemID : ptr string;
  rq_CreatedAt : Z }.
#[global] Instance eta_MediaRequest : Eta MediaRequest := λ r,
  mkRequest (rq_UserID r) (rq_Type r) (rq_TmdbID r) (rq_Title r) (rq_Status r) (rq_Seasons r)
    (rq_SeasonsAvailable r) (rq_RequestedServiceID r) (rq_ServiceID r) (rq_DecidedBy r)
    (rq_AutoApproved r) (rq_ArrItemID r) (rq_FulfilledItemID r) (rq_CreatedAt r).

Abbreviation DB := (gmap string MediaRequest).

Definition RequestSeasons (r : MediaRequest) : list Z :=
  if negb (String.eqb (rq_Type r) TypeShow) then [] else normalizeSeasons (rq_Seasons r).

Definition CoversSeason (r : MediaRequest) (n : Z) : bool :=
  match RequestSeasons r with
  | [] => String.eqb (rq_Type r) TypeShow && (0 <? n)
  | seasons => mem n seasons
  end.

(** * The SQL statements *)

(** status IN ('pending', 'approved', 'downloading') *)
Definition is_active (st : status) : bool :=
  match st with StatusPending | StatusApproved | StatusDownloading => true | _ => false end.
(** status IN ('approved', 'downloading', 'failed') *)
Definition in_flight (st : status) : bool :=
  match st with StatusApproved | StatusDownloading | StatusFailed => true | _ => false end.

Definition has_status (st : status) (r : MediaRequest) : bool := bool_decide (rq_Status r = st).

(** UPDATE ... WHERE id = .. AND guard: the new table and the row count. *)
Definition update_where (id : string) (guard : MediaRequest → bool)
    (f : MediaRequest → MediaRequest) (db : DB) : DB * Z :=
  match db !! id with
  | Some r => if guard r then (<[id := f r]> db, 1) else (db, 0)
  | None => (db, 0)
  end.

Definition rows_where (p : MediaRequest → bool) (db : DB) : list (string * MediaRequest) :=
  filter (λ kr : string * MediaRequest, p kr.2 = true) (map_to_list db).

Definition same_title (user ty : string) (tmdb : Z) (r : MediaRequest) : bool :=
  String.eqb (rq_UserID r) user && String.eqb (rq_Type r) ty && (rq_TmdbID r =? tmdb).

Definition FindActiveRequestForUser (user ty : string) (tmdb : Z) (db : DB) :
    option (string * MediaRequest) :=
  head (rows_where (λ r, same_title user ty tmdb r && is_active (rq_Status r)) db).

Definition FindActiveRequestsForUserByTMDB (user : string) (tmdb : Z) (db : DB) :
    list (string * MediaRequest) :=
  rows_where (λ r, String.eqb (rq_UserID r) user && (rq_TmdbID r =? tmdb) && is_active (rq_Status r)) db.

Definition CountMediaRequestsForUser (user : string) (st : status) (db : DB) : Z :=
  Z.of_nat (length (rows_where (λ r, String.eqb (rq_UserID r) user && has_status st r) db)).

Definition CountRecentMediaRequestsForUser (user ty : string) (since : Z) (db : DB) : Z :=
  Z.of_nat (length (rows_where (λ r, String.eqb (rq_UserID r) user && String.eqb (rq_Type r) ty
    && (since <? rq_CreatedAt r) && negb (has_status StatusDeclined r)) db)).

(** The two unique partial indexes of migration 00028. *)
Definition unique_violation (new : MediaRequest) (db : DB) : bool :=
  existsb (λ kr : string * MediaRequest,
    let r := kr.2 in
    is_active (rq_Status r) && is_active (rq_Status new)
    && same_title (rq_UserID new) (rq_Type new) (rq_TmdbID new) r
    && ((String.eqb (rq_Type r) TypeMovie || bool_decide (rq_Seasons r = []))
        && (String.eqb (rq_Type new) TypeMovie || bool_decide (rq_Seasons new = []))
        || String.eqb (rq_Type r) TypeShow && negb (bool_decide (rq_Seasons r = []))
           && bool_decide (rq_Seasons r = rq_Seasons new)))
    (map_to_list db).

Definition ApproveMediaRequest (id svc : string) (decidedBy : ptr string) (auto : bool) : DB → DB * Z :=
  update_where id (has_status StatusPending) (λ r,
    r <| rq_Status := StatusApproved |> <| rq_ServiceID := Some svc |>
      <| rq_DecidedBy := decidedBy |> <| rq_AutoApproved := auto |>).

Definition DeclineMediaRequest (id : string) (decidedBy : ptr string) : DB → DB * Z :=
  update_where id (has_status StatusPending) (λ r,
    r <| rq_Status := StatusDeclined |> <| rq_DecidedBy := decidedBy |>).

Definition CancelMediaRequest (id user : string) : DB → DB * Z :=
  update_where id (λ r, String.eqb (rq_UserID r) user && has_status StatusPending r)
    (λ r, r <| rq_Status := StatusDeclined |>).

Definition SetMediaRequestArrItem (id : string) (n : ptr Z) : DB → DB * Z :=
  update_where id (λ _, true) (λ r, r <| rq_ArrItemID := n |>).

Definition MarkMediaRequestDownloading (id : string) : DB → DB * Z :=
  update_where id (has_status StatusApproved) (λ r, r <| rq_Status := StatusDownloading |>).

Definition MarkMediaRequestAvailable (id item : string) : DB → DB * Z :=
  update_where id (λ r, in_flight (rq_Status r)) (λ r,
    r <| rq_Status := StatusAvailable |> <| rq_FulfilledItemID := Some item |>).

Definition MarkMediaRequestSeasonAvailable (id : string) (season : Z) : DB → DB * Z :=
  update_where id (λ r, in_flight (rq_Status r) && negb (mem season (rq_SeasonsAvailable r)))
    (λ r, r <| rq_SeasonsAvailable := sort_ints (rq_SeasonsAvailable r ++ [season]) |>).

(** The transition into failed. *)
Definition FailMediaRequestDownload (id : string) : DB → DB * Z :=
  update_where id (λ r, has_status StatusApproved r || has_status StatusDownloading r)
    (λ r, r <| rq_Status := StatusFailed |>).

(** The NOT EXISTS clause of [RecoverMediaRequestDownload]: an active request
    of the same user for the same title whose seasons meet these. *)
Definition superseding (id : string) (mr : MediaRequest) (db : DB) : bool :=
  existsb (λ kr : string * MediaRequest,
    let o := kr.2 in
    same_title (rq_UserID mr) (rq_Type mr) (rq_TmdbID mr) o
    && negb (String.eqb kr.1 id) && is_active (rq_Status o)
    && (String.eqb (rq_Type o) TypeMovie || bool_decide (rq_Seasons o = [])
        || bool_decide (rq_Seasons mr = [])
        || existsb (λ n, mem n (rq_Seasons mr)) (rq_Seasons o)))
    (map_to_list db).

Definition RecoverMediaRequestDownload (id : string) (db : DB) : DB * Z :=
  update_where id (λ mr, has_status StatusFailed mr && negb (superseding id mr db))
    (λ r, r <| rq_Status := StatusDownloading |>) db.

(** * The service *)
Inductive req_error :=
  | ErrInvalidType | ErrInvalidTMDBID | ErrAlreadyRequested | ErrSeasonsAlreadyRequested
  | ErrTMDBLookupFailed | ErrNotFound | ErrNotPending | ErrNotOwner | ErrNoArrService
  | ErrArrServiceMismatch | ErrInvalidSeasons | ErrTooManyPending | ErrArrServiceDisabled
  | ErrArrAddFailed | ErrRequestsDisabled | ErrDB.

Inductive notice :=
  | ToUser (user typ title body : string)
  | ToAdmins (typ title body : string).

Record world := mkWorld { w_db : DB; w_notices : list notice }.
#[global] Instance eta_world : Eta world := λ w, mkWorld (w_db w) (w_notices w).

Definition Notify (user typ title body : string) (w : world) : world :=
  w <| w_notices ::= λ l, l ++ [ToUser user typ title body] |>.
Definition NotifyAdmins (typ title body : string) (w : world) : world :=
  w <| w_notices ::= λ l, l ++ [ToAdmins typ title body] |>.

Definition maxRequestSeasons : Z := 100.
Definition maxSeasonNumber : Z := 1000.
Definition maxPendingRequestsPerUser : Z := 25.

Record permissions := mkPermissions {
  p_Username : string; p_IsAdmin : bool; p_CanRequest : bool; p_MaxContentRating : ptr string;
  p_AutoApproveMovies : bool; p_AutoApproveTv : bool;
  p_RequestQuotaMovies : ptr Z; p_RequestQuotaTv : ptr Z }.

Record CreateInput := mkCreateInput {
  in_UserID : string; in_Type : string; in_TMDBID : Z; in_Seasons : list Z;
  in_RequestedServiceID : ptr string }.
#[global] Instance eta_CreateInput : Eta CreateInput := λ i,
  mkCreateInput (in_UserID i) (in_Type i) (in_TMDBID i) (in_Seasons i) (in_RequestedServiceID i).

(** ** Quotas *)
Record QuotaDefaults := mkQuotaDefaults { qd_Movies : Z; qd_TV : Z; qd_WindowDays : Z }.
Definition DefaultQuotaWindowDays : Z := 7.

(** [configured]: what the settings say, [None] when no source is wired. *)
Definition defaults (configured : option QuotaDefaults) : QuotaDefaults :=
  let d := default (mkQuotaDefaults 0 0 0) configured in
  mkQuotaDefaults (if qd_Movies d <? 0 then 0 else qd_Movies d)
    (if qd_TV d <? 0 then 0 else qd_TV d)
    (if qd_WindowDays d <=? 0 then DefaultQuotaWindowDays else qd_WindowDays d).

Definition quotaLimit (perm : permissions) (mediaType : string) (d : QuotaDefaults) : Z :=
  let '(override, def) :=
    if String.eqb mediaType TypeShow then (p_RequestQuotaTv perm, qd_TV d)
    else (p_RequestQuotaMovies perm, qd_Movies d) in
  match override with
  | Some n => if n <? 0 then 0 else n
  | None => def
  end.

(** Instants in seconds; [windowDays] is below 106,751 days, the range of a Go
    duration. *)
Definition quotaUsed (now : Z) (user mediaType : string) (windowDays : Z) (db : DB) : Z :=
  CountRecentMediaRequestsForUser user mediaType (now - windowDays * 24 * 3600) db.

(** [None]: the count failed. *)
Definition overQuota (count_ok : bool) (configured : option QuotaDefaults) (now : Z)
    (perm : permissions) (user mediaType : string) (db : DB) : option bool :=
  if p_IsAdmin perm then Some false
  else
    let d := defaults configured in
    let limit := quotaLimit perm mediaType d in
    if limit =? 0 then Some false
    else if negb count_ok then None
    else Some (limit <=? quotaUsed now user mediaType (qd_WindowDays d) db).

Record QuotaUsage := mkQuotaUsage { qu_Limit : Z; qu_Used : Z; qu_Remaining : ptr Z }.
Record QuotaStatus := mkQuotaStatus {
  qs_CanRequest : bool; qs_WindowDays : Z; qs_Movies : QuotaUsage; qs_TV : QuotaUsage }.

Definition quota_usage (configured : option QuotaDefaults) (now : Z) (perm : permissions)
    (user mediaType : string) (db : DB) : QuotaUsage :=
  let d := defaults configured in
  let used := quotaUsed now user mediaType (qd_WindowDays d) db in
  let limit := if p_IsAdmin perm then 0 else quotaLimit perm mediaType d in
  mkQuotaUsage limit used
    (if 0 <? limit then Some (if limit - used <? 0 then 0 else limit - used) else None).

(** [policy_ok], [count_ok]: the lookups did not fail; [perm]: [None] when the
    user is unknown. *)
Definition Quota (policy_ok count_ok : bool) (perm : option permissions)
    (configured : option QuotaDefaults) (now : Z) (user : string) (db : DB) : QuotaStatus + req_error :=
  if negb policy_ok then inr ErrDB
  else match perm with
  | None => inr ErrNotFound
  | Some perm =>
      if negb count_ok then inr ErrDB
      else
      inl (mkQuotaStatus (p_IsAdmin perm || p_CanRequest perm)
             (qd_WindowDays (defaults configured))
             (quota_usage configured now perm user TypeMovie db)
             (quota_usage configured now perm user TypeShow db))
  end.

Definition CanRequest (policy_ok : bool) (perm : option permissions) : bool + req_error :=
  if negb policy_ok then inr ErrDB
  else match perm with
  | None => inr ErrNotFound
  | Some perm => inl (p_IsAdmin perm || p_CanRequest perm)
  end.

Definition autoApproveEligible (perm : permissions) (i : CreateInput) : bool :=
  if p_IsAdmin perm then true
  else if match p_MaxContentRating perm with
          | Some r => negb (String.eqb r "") | None => false end then false
  else if match in_RequestedServiceID i with Some _ => true | None => false end then false
  else if String.eqb (in_Type i) TypeMovie then p_AutoApproveMovies perm
  else if String.eqb (in_Type i) TypeShow then p_AutoApproveTv perm
  else false.

(** ** Approval *)
Record ArrService := mkArrService { as_ID : string; as_Kind : string; as_Enabled : bool }.

(** What approving meets outside the requests table: the services table, what
    the arr instance answers to the add ([None]: it failed; else the item id),
    and which database calls succeed. *)
Record approve_env := mkApproveEnv {
  ae_service : string → option ArrService;
  ae_default : string → option ArrService;
  ae_dispatch : MediaRequest → ArrService → option Z;
  ae_get_ok : bool; ae_services_ok : bool;
  ae_approve_ok : bool; ae_link_ok : bool; ae_mark_ok : bool }.

Definition arrKindForType (t : string) : string :=
  if String.eqb t TypeMovie then "radarr" else "sonarr".

Definition resolveArrService (e : approve_env) (req : MediaRequest) (override : ptr string) :
    ArrService + req_error :=
  let wantKind := arrKindForType (rq_Type req) in
  let candidate := match override with Some _ => override | None => rq_RequestedServiceID req end in
  match candidate with
  | Some id =>
      if negb (ae_services_ok e) then inr ErrDB
      else match ae_service e id with
      | None => inr ErrNoArrService
      | Some svc =>
          if negb (String.eqb (as_Kind svc) wantKind) then inr ErrArrServiceMismatch
          else if negb (as_Enabled svc) then inr ErrArrServiceDisabled
          else inl svc
      end
  | None =>
      if negb (ae_services_ok e) then inr ErrDB
      else match ae_default e wantKind with None => inr ErrNoArrService | Some svc => inl svc end
  end.

Record ApproveInput := mkApproveInput {
  ai_RequestID : string; ai_AdminID : string; ai_ServiceID : ptr string }.

Definition approve (e : approve_env) (i : ApproveInput) (auto : bool) (w : world) :
    world * (MediaRequest + req_error) :=
  if negb (ae_get_ok e) then (w, inr ErrDB)
  else match w_db w !! ai_RequestID i with
  | None => (w, inr ErrNotFound)
  | Some req =>
      if negb (has_status StatusPending req) then (w, inr ErrNotPending)
      else
        match resolveArrService e req (ai_ServiceID i) with
        | inr err => (w, inr err)
        | inl svc =>
            match ae_dispatch e req svc with
            | None => (w, inr ErrArrAddFailed)
            | Some arrItemID =>
                let id := ai_RequestID i in
                let decidedBy := if auto then None else Some (ai_AdminID i) in
                if negb (ae_approve_ok e) then (w, inr ErrDB)
                else
                  let db := (ApproveMediaRequest id (as_ID svc) decidedBy auto (w_db w)).1 in
                  let db :=
                    if (0 <? arrItemID) && ae_link_ok e
                    then (SetMediaRequestArrItem id (Some (wrap32 arrItemID)) db).1 else db in
                  let db := if ae_mark_ok e then (MarkMediaRequestDownloading id db).1 else db in
                  let approved := default req (db !! id) in
                  let body :=
                    if auto
                    then quoted (rq_Title approved) +:+ " was approved automatically and is being downloaded."
                    else quoted (rq_Title approved) +:+ " is being downloaded." in
                  (Notify (rq_UserID approved) "request_approved" "Request approved" body
                     (w <| w_db := db |>), inl approved)
            end
        end
  end.

Definition Approve (e : approve_env) (i : ApproveInput) : world → world * (MediaRequest + req_error) :=
  approve e i false.

(** ** Creation *)
Record create_env := mkCreateEnv {
  ce_now : Z;
  ce_new_id : string;                      (* gen_random_uuid() *)
  ce_tmdb : bool;                          (* the TMDB agent is wired *)
  ce_perm : option permissions;            (* None: the lookup failed *)
  ce_pending_ok : bool; ce_dup_ok : bool; ce_quota_ok : bool; ce_insert_ok : bool;
  ce_quota : option QuotaDefaults;
  ce_snapshot : option (string * Z);       (* title and year *)
  ce_seasons : option (list Z);            (* the seasons TMDB lists *)
  ce_approve : approve_env }.

Definition typeNoun (mediaType : string) : string :=
  if String.eqb mediaType TypeShow then "TV" else "movie".
Definition titleWithYear (title : string) (year : Z) : string :=
  if 0 <? year then title +:+ " (" +:+ Itoa year +:+ ")" else title.

Definition checkDuplicate (dup_ok : bool) (i : CreateInput) (db : DB) : option req_error :=
  if negb dup_ok then Some ErrDB
  else if negb (String.eqb (in_Type i) TypeShow) then
    match FindActiveRequestForUser (in_UserID i) (in_Type i) (wrap32 (in_TMDBID i)) db with
    | Some _ => Some ErrAlreadyRequested
    | None => None
    end
  else if existsb (λ kr : string * MediaRequest,
            String.eqb (rq_Type kr.2) TypeShow && (rq_TmdbID kr.2 =? in_TMDBID i)
            && SeasonsOverlap (RequestSeasons kr.2) (in_Seasons i))
            (FindActiveRequestsForUserByTMDB (in_UserID i) (wrap32 (in_TMDBID i)) db)
  then Some ErrSeasonsAlreadyRequested
  else None.

Definition validateSeasons (listed : option (list Z)) (seasons : list Z) : option req_error :=
  match listed with
  | None => Some ErrTMDBLookupFailed
  | Some l => if forallb (λ n, mem n l) seasons then None else Some ErrInvalidSeasons
  end.

Record CreateResult := mkCreateResult { cr_ID : string; cr_Request : MediaRequest; cr_OverQuota : bool }.

(** The checks before the insert, in order; [inl]: the normalised input and
    the quota verdict ([None]: unknown). *)
Definition create_checks (e : create_env) (i : CreateInput) (db : DB) :
    (CreateInput * string * Z * option bool) + req_error :=
  if negb (mem (in_Type i) [TypeMovie; TypeShow]) then inr ErrInvalidType
  else if in_TMDBID i <=? 0 then inr ErrInvalidTMDBID
  else if negb (ce_tmdb e) then inr ErrTMDBLookupFailed
  else if maxRequestSeasons <? Z.of_nat (length (in_Seasons i)) then inr ErrInvalidSeasons
  else if existsb (λ sn, (sn <? 0) || (maxSeasonNumber <? sn)) (in_Seasons i) then inr ErrInvalidSeasons
  else
    let i := i <| in_Seasons := if String.eqb (in_Type i) TypeShow
                                then normalizeSeasons (in_Seasons i) else [] |> in
    if match ce_perm e with
       | Some p => negb (p_IsAdmin p) && negb (p_CanRequest p) | None => false end
    then inr ErrRequestsDisabled
    else if ce_pending_ok e
            && (maxPendingRequestsPerUser <=? CountMediaRequestsForUser (in_UserID i) StatusPending db)
    then inr ErrTooManyPending
    else
      match checkDuplicate (ce_dup_ok e) i db with
      | Some err => inr err
      | None =>
          let quota :=
            match ce_perm e with
            | Some p => overQuota (ce_quota_ok e) (ce_quota e) (ce_now e) p (in_UserID i) (in_Type i) db
            | None => None
            end in
          match ce_snapshot e with
          | None => inr ErrTMDBLookupFailed
          | Some (title, year) =>
              let seasons_error :=
                if String.eqb (in_Type i) TypeShow && negb (bool_decide (in_Seasons i = []))
                then validateSeasons (ce_seasons e) (in_Seasons i) else None in
              match seasons_error with
              | Some err => inr err
              | None => inl (i, title, year, quota)
              end
          end
      end.

Definition new_request (e : create_env) (i : CreateInput) (title : string) : MediaRequest :=
  mkRequest (in_UserID i) (in_Type i) (wrap32 (in_TMDBID i)) title StatusPending (in_Seasons i) []
    (in_RequestedServiceID i) None None false None None (ce_now e).

(** INSERT: refused by the unique indexes, or failing otherwise. *)
Definition CreateMediaRequest (e : create_env) (r : MediaRequest) (i : CreateInput) (db : DB) :
    DB + req_error :=
  if negb (ce_insert_ok e) then inr ErrDB
  else if unique_violation r db
  then inr (if String.eqb (in_Type i) TypeShow && negb (bool_decide (in_Seasons i = []))
            then ErrSeasonsAlreadyRequested else ErrAlreadyRequested)
  else inl (<[ce_new_id e := r]> db).

Definition created_notices (e : create_env) (i : CreateInput) (title : string) (year : Z)
    (over : bool) (w : world) : world :=
  let noun := typeNoun (in_Type i) in
  let body :=
    if over then quoted title +:+ " is over your " +:+ noun
                 +:+ " request limit and is awaiting admin approval."
    else quoted title +:+ " is awaiting admin approval." in
  let requester :=
    match ce_perm e with
    | Some p => if String.eqb (p_Username p) "" then "A user" else p_Username p
    | None => "A user"
    end in
  let adminBody := requester +:+ " requested " +:+ quoted (titleWithYear title year) in
  let adminBody := if over then adminBody +:+ " (over their " +:+ noun +:+ " quota)" else adminBody in
  NotifyAdmins "request_pending" "New request" adminBody
    (Notify (in_UserID i) "request_created" "Request submitted" body w).

Definition Create (e : create_env) (i : CreateInput) (w : world) : world * (CreateResult + req_error) :=
  match create_checks e i (w_db w) with
  | inr err => (w, inr err)
  | inl (i, title, year, quota) =>
      let req := new_request e i title in
      let over := default false quota in
      match CreateMediaRequest e req i (w_db w) with
      | inr err => (w, inr err)
      | inl db =>
          let w := w <| w_db := db |> in
          let queued := (created_notices e i title year over w,
                         inl (mkCreateResult (ce_new_id e) req over)) in
          match ce_perm e, quota with
          | Some p, Some false =>
              if autoApproveEligible p i then
                match approve (ce_approve e) (mkApproveInput (ce_new_id e) "" None) true w with
                | (w', inl approved) => (w', inl (mkCreateResult (ce_new_id e) approved false))
                | (_, inr _) => queued
                end
              else queued
          | _, _ => queued
          end
      end
  end.

(** ** Declining, cancelling, deleting *)
(** [get_ok]: the lookup that tells a missing row from a decided one. *)
Definition Decline (db_ok get_ok : bool) (id admin reason : string) (w : world) :
    world * (MediaRequest + req_error) :=
  if negb db_ok then (w, inr ErrDB)
  else
    let '(db, n) := DeclineMediaRequest id (Some admin) (w_db w) in
    match db !! id with
    | None => (w, inr (if get_ok then ErrNotFound else ErrNotPending))
    | Some declined =>
        if n =? 0 then (w, inr ErrNotPending)
        else
          let body := if String.eqb reason "" then "Your request was declined."
                      else "Your request was declined: " +:+ reason in
          (Notify (rq_UserID declined) "request_declined" ("Request declined: " +:+ rq_Title declined)
             body (w <| w_db := db |>), inl declined)
    end.

Definition Cancel (get_ok db_ok : bool) (id user : string) (w : world) : world * (unit + req_error) :=
  if negb get_ok then (w, inr ErrDB)
  else match w_db w !! id with
  | None => (w, inr ErrNotFound)
  | Some req =>
      if negb (String.eqb (rq_UserID req) user) then (w, inr ErrNotOwner)
      else if negb (has_status StatusPending req) then (w, inr ErrNotPending)
      else if negb db_ok then (w, inr ErrDB)
      else (w <| w_db := (CancelMediaRequest id user (w_db w)).1 |>, inl tt)
  end.

Definition Delete (db_ok : bool) (id : string) (w : world) : world * (unit + req_error) :=
  if negb db_ok then (w, inr ErrDB) else (w <| w_db ::= delete id |>, inl tt).

(** * Fulfilment *)

(** ** What TMDB and Sonarr say about seasons
    ([internal/metadata/tvseasons.go], [internal/arr/sonarr_seasons.go]) *)
Record TVSeasonSummary := mkTVSeason { ts_Number : Z; ts_EpisodeCount : Z; ts_AirDate : ptr Z }.
Record TVSeasonList := mkTVSeasonList {
  tl_Seasons : list TVSeasonSummary; tl_LastAiredSeason : Z; tl_LastAiredEpisode : Z }.

Definition tv_Season (l : TVSeasonList) (n : Z) : option TVSeasonSummary :=
  find_first (λ s, ts_Number s =? n) (tl_Seasons l).
Definition tv_Has (l : TVSeasonList) (n : Z) : bool :=
  match tv_Season l n with Some _ => true | None => false end.

Definition AiredEpisodes (l : TVSeasonList) (n now : Z) : Z :=
  match tv_Season l n with
  | None => 0
  | Some s =>
      if ts_EpisodeCount s <=? 0 then 0
      else if (n =? 0) || (tl_LastAiredSeason l <=? 0) then
        match ts_AirDate s with
        | Some d => if d <=? now then ts_EpisodeCount s else 0
        | None => 0
        end
      else if n <? tl_LastAiredSeason l then ts_EpisodeCount s
      else if n =? tl_LastAiredSeason l then
        if tl_LastAiredEpisode l <=? 0 then 0
        else Z.min (tl_LastAiredEpisode l) (ts_EpisodeCount s)
      else 0
  end.

Definition AiredSeasons (l : TVSeasonList) (now : Z) : list Z :=
  sort_ints (omap (λ s, if (0 <? ts_Number s) && (0 <? AiredEpisodes l (ts_Number s) now)
                        then Some (ts_Number s) else None) (tl_Seasons l)).

Record SeasonStatistics := mkSeasonStatistics { ss_EpisodeFileCount : Z; ss_EpisodeCount : Z }.
Record SeriesSeasonState := mkSeriesSeason {
  se_SeasonNumber : Z; se_Monitored : bool; se_Statistics : ptr SeasonStatistics }.
Record Series := mkSeries {
  sr_Monitored : bool; sr_Statistics : ptr SeasonStatistics; sr_Seasons : list SeriesSeasonState }.

Definition Aired (s : SeriesSeasonState) : bool :=
  match se_Statistics s with Some st => 0 <? ss_EpisodeCount st | None => false end.
Definition Complete (s : SeriesSeasonState) : bool :=
  Aired s && match se_Statistics s with
             | Some st => ss_EpisodeCount st <=? ss_EpisodeFileCount st | None => false end.
Definition series_Season (s : Series) (n : Z) : option SeriesSeasonState :=
  find_first (λ se, se_SeasonNumber se =? n) (sr_Seasons s).

(** ** Season progress *)
Record seasonProgress := mkProgress { sp_covered : list Z; sp_complete : list Z }.

(** What a pass knows: the library's episode counts, the linked Sonarr series
    and TMDB's season list ([None]: could not be had). *)
Record evaluator := mkEvaluator {
  ev_owned : Z → Z → Z;
  ev_series : MediaRequest → option Series;
  ev_tmdb : Z → option TVSeasonList;
  ev_now : Z }.

Definition progress (ev : evaluator) (r : MediaRequest) : option seasonProgress :=
  let requested := RequestSeasons r in
  let owned := ev_owned ev (rq_TmdbID r) in
  match ev_series ev r with
  | Some series =>
      let covered :=
        if bool_decide (requested = []) then
          sort_ints (omap (λ se, if (0 <? se_SeasonNumber se) && Aired se
                                 then Some (se_SeasonNumber se) else None) (sr_Seasons series))
        else requested in
      Some (mkProgress covered
        (List.filter (λ n, match series_Season series n with
                           | Some se => Complete se && (0 <? owned n) | None => false end) covered))
  | None =>
      match ev_tmdb ev (rq_TmdbID r) with
      | None => None
      | Some l =>
          let covered := if bool_decide (requested = []) then AiredSeasons l (ev_now ev) else requested in
          Some (mkProgress covered
            (List.filter (λ n, let aired := AiredEpisodes l n (ev_now ev) in
                               (0 <? aired) && (aired <=? owned n)) covered))
      end
  end.

(** [markAvailable]: the notice goes out whenever the statement did not fail. *)
Definition markAvailable (ok : bool) (id : string) (r : MediaRequest) (item : string) (w : world) :
    world * bool :=
  if negb ok then (w, false)
  else
    (Notify (rq_UserID r) "request_available" ("Now available: " +:+ rq_Title r)
       (quoted (rq_Title r) +:+ " is ready to watch.")
       (w <| w_db ::= λ db, (MarkMediaRequestAvailable id item db).1 |>), true).

Definition season_notice (r : MediaRequest) (n : Z) (w : world) : world :=
  Notify (rq_UserID r) "request_season_available"
    ("Season " +:+ Itoa n +:+ " now available: " +:+ rq_Title r)
    ("Season " +:+ Itoa n +:+ " of " +:+ quoted (rq_Title r) +:+ " is ready to watch.") w.

(** Recording the newly complete seasons; [season_ok] tells which statements
    succeed. *)
Fixpoint record_seasons (season_ok : Z → bool) (id : string) (r : MediaRequest) (all : bool)
    (newly : list Z) (w : world) : world :=
  match newly with
  | [] => w
  | n :: newly =>
      let w :=
        if season_ok n then
          let '(db, rows) := MarkMediaRequestSeasonAvailable id n (w_db w) in
          let w := w <| w_db := db |> in
          if (rows =? 1) && negb all then season_notice r n w else w
        else w in
      record_seasons season_ok id r all newly w
  end.

Definition applySeasonProgress (ok : bool) (season_ok : Z → bool) (id : string) (r : MediaRequest)
    (item : string) (p : seasonProgress) (w : world) : world * bool :=
  match sp_covered p with
  | [] => (w, false)
  | covered =>
      let all := forallb (λ n, mem n (sp_complete p)) covered in
      let newly := List.filter (λ n, mem n (sp_complete p) && negb (mem n (rq_SeasonsAvailable r))) covered in
      let w := record_seasons season_ok id r all newly w in
      if negb all then (w, false) else markAvailable ok id r item w
  end.

(** One pass over requests read earlier, in order.  Season numbers fit
    [int32], the column's type. *)
Fixpoint settle_shows (ok : bool) (season_ok : Z → bool) (ev : evaluator)
    (items : Z → option string) (reqs : list (string * MediaRequest)) (w : world) : world * Z :=
  match reqs with
  | [] => (w, 0)
  | (id, r) :: reqs =>
      let '(w, one) :=
        match items (rq_TmdbID r), progress ev r with
        | Some item, Some p =>
            let '(w, done) := applySeasonProgress ok season_ok id r item p w in
            (w, if (done : bool) then 1 else 0)
        | _, _ => (w, 0)
        end in
      let '(w, n) := settle_shows ok season_ok ev items reqs w in
      (w, one + n)
  end.

(** [ev]: [None] when the library's counts could not be read.  [budget]: how
    many requests are looked at before the pass's context ends. *)
Definition settleShowRequests (ok : bool) (season_ok : Z → bool) (ev : option evaluator) (budget : nat)
    (items : Z → option string) (reqs : list (string * MediaRequest)) (w : world) : world * Z :=
  match reqs, ev with
  | [], _ | _, None => (w, 0)
  | _, Some ev => settle_shows ok season_ok ev items (take budget reqs) w
  end.

(** The movies of a pass. *)
Fixpoint settle_movies (ok : bool) (items : Z → option string) (reqs : list (string * MediaRequest))
    (w : world) : world * Z :=
  match reqs with
  | [] => (w, 0)
  | (id, r) :: reqs =>
      let '(w, one) :=
        match items (rq_TmdbID r) with
        | Some item => let '(w, done) := markAvailable ok id r item w in (w, if (done : bool) then 1 else 0)
        | None => (w, 0)
        end in
      let '(w, n) := settle_movies ok items reqs w in
      (w, one + n)
  end.

(** [ListAllMediaRequests] with a status: one page of 500, newest first. *)
Definition newest_first (a b : string * MediaRequest) : Prop := rq_CreatedAt b.2 <= rq_CreatedAt a.2.
#[global] Instance newest_first_dec : RelDecision newest_first.
Proof. intros a b. unfold newest_first. apply _. Defined.
Definition list_page (st : status) (db : DB) : list (string * MediaRequest) :=
  take 500 (merge_sort newest_first (rows_where (has_status st) db)).

(** [list_ok]: which listings succeed. *)
Definition reconcile_list (list_ok : status → bool) (db : DB) : list (string * MediaRequest) :=
  mjoin ((λ st, if list_ok st then list_page st db else [])
         <$> [StatusApproved; StatusDownloading; StatusFailed]).

(** [ReconcileFulfillments]: [items ty tmdb] is the library row of a title. *)
Definition ReconcileFulfillments (list_ok : status → bool) (ok : bool) (season_ok : Z → bool)
    (ev : option evaluator) (budget : nat) (items : string → Z → option string) (w : world) : world * Z :=
  let active := reconcile_list list_ok (w_db w) in
  let is_show := λ kr : string * MediaRequest, String.eqb (rq_Type kr.2) TypeShow in
  let has_item := λ kr : string * MediaRequest,
    match items (rq_Type kr.2) (rq_TmdbID kr.2) with Some _ => true | None => false end in
  let '(w, n) := settle_movies ok (items TypeMovie) (List.filter (λ kr, negb (is_show kr)) active) w in
  let '(w, m) := settleShowRequests ok season_ok ev budget (items TypeShow)
                   (List.filter (λ kr, is_show kr && has_item kr) active) w in
  (w, n + m).

Definition MarkFulfilled (ok : bool) (season_ok : Z → bool) (ev : option evaluator) (budget : nat)
    (mediaType : string) (tmdb : Z) (item : string) (w : world) : world * Z :=
  let rows := rows_where (λ r, String.eqb (rq_Type r) mediaType && (rq_TmdbID r =? wrap32 tmdb)
                               && in_flight (rq_Status r)) (w_db w) in
  if String.eqb mediaType TypeShow
  then settleShowRequests ok season_ok ev budget (λ t, if t =? wrap32 tmdb then Some item else None) rows w
  else settle_movies ok (λ _, Some item) rows w.
