(* ===== verification/Downloads.v ===== *)
(** Download states of in-flight requests: [internal/requests/download_state.go]
    and the queue and history records of [internal/arr/queue.go] and
    [internal/arr/history.go].

    Records are taken after JSON decoding: sizes are [float64], instants are
    seconds, a missing value is [None]; the .NET time span of [timeleft] is its
    parsed duration.  Text is valid UTF-8. *)
From S2P Require Import Prelude.
From S2P Require Import GoStrings.
From S2P Require Import GoFloat.
From S2P Require Import Requests.

Local Open Scope Z_scope.

(** * Records *)
Record StatusMessage := mkStatusMessage { sm_Title : string; sm_Messages : list string }.
Record QueueEpisode := mkQueueEpisode { qe_SeasonNumber : Z; qe_EpisodeNumber : Z }.

Record QueueRecord := mkQueueRecord {
  q_ID : Z; q_MovieID : Z; q_SeriesID : Z; q_SeasonNumber : Z;
  q_Size : float64; q_SizeLeft : float64;
  q_TimeLeft : ptr Z; q_EstimatedCompletionTime : ptr Z;
  q_Status : string; q_TrackedDownloadStatus : string; q_TrackedDownloadState : string;
  q_StatusMessages : list StatusMessage; q_ErrorMessage : string;
  q_DownloadID : string; q_Episode : ptr QueueEpisode }.

Definition f64_one : float64 := f64_of_Z 1.

(** [QueueRecord.Progress] *)
Definition Progress (r : QueueRecord) : option float64 :=
  let size := q_Size r in
  let left := q_SizeLeft r in
  if f64_le0 size then None
  else
    let left := if f64_ltb left f64_zero then f64_zero else left in
    let p := f64_div (f64_sub size left) size in
    Some (if f64_ltb p f64_zero then f64_zero else if f64_ltb f64_one p then f64_one else p).

(** [QueueRecord.ETA] *)
Definition ETA (r : QueueRecord) (now : Z) : ptr Z :=
  match q_EstimatedCompletionTime r with
  | Some t => Some t
  | None => match q_TimeLeft r with Some d => Some (now + d) | None => None end
  end.

(** [QueueRecord.Messages] *)
Definition add_message (out : list string) (s : string) : list string :=
  let s := TrimSpace s in
  if String.eqb s "" || mem s out then out else out ++ [s].
Definition Messages (r : QueueRecord) : list string :=
  fold_left (λ out sm,
    match sm_Messages sm with
    | [] => add_message out (sm_Title sm)
    | ms => fold_left add_message ms out
    end) (q_StatusMessages r) (add_message [] (q_ErrorMessage r)).

(** Event names after canonicalisation; [EventOther] is any other name. *)
Inductive HistoryEventType :=
  | EventGrabbed | EventDownloadFailed | EventDownloadFolderImported | EventMovieFolderImported
  | EventSeriesFolderImported | EventDownloadIgnored | EventOther.
#[global] Instance event_eq_dec : EqDecision HistoryEventType.
Proof. solve_decision. Defined.

Definition IsImport (e : HistoryEventType) : bool :=
  match e with
  | EventDownloadFolderImported | EventMovieFolderImported | EventSeriesFolderImported => true
  | _ => false
  end.

(** [h_Data]: the string values of the event's data. *)
Record HistoryRecord := mkHistoryRecord {
  h_ID : Z; h_EventType : HistoryEventType; h_Date : Z; h_DownloadID : string;
  h_Data : list (string * string) }.

Fixpoint assoc (k : string) (l : list (string * string)) : option string :=
  match l with
  | [] => None
  | (k', v) :: l => if String.eqb k' k then Some v else assoc k l
  end.

Fixpoint first_text (keys : list string) (data : list (string * string)) : string :=
  match keys with
  | [] => ""
  | k :: keys =>
      match assoc k data with
      | Some s => if String.eqb (TrimSpace s) "" then first_text keys data else TrimSpace s
      | None => first_text keys data
      end
  end.
Definition Message (h : HistoryRecord) : string :=
  first_text ["message"; "reason"; "statusMessages"] (h_Data h).

(** * Download states *)
Inductive download_state :=
  | DownloadSearching | DownloadQueued | DownloadDownloading | DownloadImportPending
  | DownloadStalled | DownloadFailed.
#[global] Instance download_state_eq_dec : EqDecision download_state.
Proof. solve_decision. Defined.

(** [ds_State]: [None] is the empty string the aggregation starts from. *)
Record DownloadStatus := mkStatus {
  ds_State : option download_state; ds_Progress : ptr float64; ds_ETA : ptr Z;
  ds_SizeBytes : ptr Z; ds_Message : string; ds_Recovers : bool }.
#[global] Instance eta_DownloadStatus : Eta DownloadStatus := λ s,
  mkStatus (ds_State s) (ds_Progress s) (ds_ETA s) (ds_SizeBytes s) (ds_Message s) (ds_Recovers s).

(** ** Runes: a byte that is no UTF-8 continuation starts one. *)
Definition rune_start (c : ascii) : bool := negb (Z.land (byteZ c) 192 =? 128).
Fixpoint RuneCount (s : string) : Z :=
  match s with
  | EmptyString => 0
  | String c s' => (if rune_start c then 1 else 0) + RuneCount s'
  end.
(** The first [n] runes. *)
Fixpoint take_runes (n : Z) (s : string) : string :=
  match s with
  | EmptyString => EmptyString
  | String c s' =>
      if rune_start c then (if n <=? 0 then EmptyString else String c (take_runes (n - 1) s'))
      else String c (take_runes n s')
  end.
Definition ellipsis : string := String (chr 226) (String (chr 128) (String (chr 166) EmptyString)).

Definition maxDownloadMessage : Z := 300.
Definition clampMessage (s : string) : string :=
  let s := Join (Fields s) " " in
  if RuneCount s <=? maxDownloadMessage then s
  else take_runes (maxDownloadMessage - 1) s +:+ ellipsis.

(** ** One queue row *)
Definition first_message (msgs : list string) (fallback : string) : string :=
  match msgs with m :: _ => m | [] => fallback end.

Definition dash : string := String (chr 226) (String (chr 128) (String (chr 148) EmptyString)).

Definition queueRowState (r : QueueRecord) : download_state * string :=
  let tds := ToLower (TrimSpace (q_TrackedDownloadState r)) in
  let tst := ToLower (TrimSpace (q_TrackedDownloadStatus r)) in
  let st := ToLower (TrimSpace (q_Status r)) in
  let msgs := Messages r in
  let first := first_message msgs in
  let eqs := String.eqb in
  if eqs tds "failed" then (DownloadFailed, first "The download failed")
  else if eqs tds "failedpending" || eqs st "failed" then
    (DownloadStalled, first ("The download failed " +:+ dash +:+ " waiting for the app to handle it"))
  else if eqs tds "importblocked" then
    (DownloadStalled, first ("Import blocked " +:+ dash +:+ " needs a manual import"))
  else if eqs tds "ignored" then (DownloadStalled, first "The download was ignored")
  else if eqs tds "importpending" || eqs tds "importing" || eqs tds "imported" then
    if eqs tst "warning" || eqs tst "error"
    then (DownloadStalled, first "Import is waiting on a problem")
    else (DownloadImportPending, "")
  else if eqs tst "warning" || eqs tst "error" || eqs st "warning" || negb (bool_decide (msgs = [])) then
    (DownloadStalled, first "The download client reports a problem")
  else if eqs st "downloadclientunavailable" then
    (DownloadStalled, "The download client is unavailable")
  else if eqs st "paused" then (DownloadStalled, "Paused in the download client")
  else if eqs st "queued" then (DownloadQueued, "")
  else if eqs st "delay" then (DownloadQueued, "Held by a delay profile")
  else if eqs st "completed" then (DownloadImportPending, "")
  else if eqs st "downloading" then (DownloadDownloading, "")
  else match Progress r with
       | Some p => if f64_gt0 p then (DownloadDownloading, "") else (DownloadQueued, "")
       | None => (DownloadQueued, "")
       end.

(** [activeStateRank]: states missing from the map (and the empty one) are 0. *)
Definition activeStateRank (s : option download_state) : Z :=
  match s with
  | Some DownloadImportPending => 1
  | Some DownloadQueued => 2
  | Some DownloadDownloading => 3
  | Some DownloadStalled => 4
  | _ => 0
  end.

Definition is_failed (s : option download_state) : bool := bool_decide (s = Some DownloadFailed).

Definition worseState (a b : option download_state) : bool :=
  if is_failed a then negb (is_failed b)
  else if is_failed b then false
  else activeStateRank b <? activeStateRank a.

Definition labelled (msg : string) (r : QueueRecord) (withEpisode : bool) : string :=
  match q_Episode r with
  | Some e =>
      if String.eqb msg "" || negb withEpisode then msg
      else "S" +:+ pad2 (qe_SeasonNumber e) +:+ "E" +:+ pad2 (qe_EpisodeNumber e) +:+ ": " +:+ msg
  | None => msg
  end.

(** ** Aggregation *)
Record queueGroup := mkGroup {
  g_rows : list QueueRecord; g_state : option download_state; g_message : string }.

(** The grouping key of row [i]. *)
Definition group_key (i : Z) (r : QueueRecord) : string :=
  if String.eqb (q_DownloadID r) "" then "row:" +:+ Itoa (q_ID r) +:+ ":" +:+ Itoa i
  else q_DownloadID r.

(** Groups in order of first appearance. *)
Fixpoint add_to_group (key : string) (r : QueueRecord) (groups : list (string * list QueueRecord)) :
    list (string * list QueueRecord) :=
  match groups with
  | [] => [(key, [r])]
  | (k, rs) :: groups =>
      if String.eqb k key then (k, rs ++ [r]) :: groups else (k, rs) :: add_to_group key r groups
  end.
Fixpoint group_rows (i : Z) (rows : list QueueRecord) (groups : list (string * list QueueRecord)) :
    list (string * list QueueRecord) :=
  match rows with
  | [] => groups
  | r :: rows => group_rows (i + 1) rows (add_to_group (group_key i r) r groups)
  end.

(** The worst row's state and message. *)
Definition judge_group (label : bool) (rows : list QueueRecord) : queueGroup :=
  let '(st, msg) :=
    fold_left (λ (acc : option download_state * string) r,
      let '(st, msg) := queueRowState r in
      if bool_decide (acc.1 = None) || worseState (Some st) acc.1
      then (Some st, labelled msg r label) else acc) rows (None, "") in
  mkGroup rows st msg.

Definition worst_active (groups : list queueGroup) : option download_state :=
  fold_left (λ acc g, if activeStateRank acc <? activeStateRank (g_state g) then g_state g else acc)
    groups None.

(** Total and transferred size of the groups' first rows. *)
Definition sizes (groups : list queueGroup) : float64 * float64 :=
  fold_left (λ '(size, done_) g,
    match g_rows g with
    | r :: _ =>
        let s := q_Size r in
        if f64_gt0 s then
          let left := q_SizeLeft r in
          let left := if f64_ltb left f64_zero then f64_zero else left in
          let left := if f64_ltb s left then s else left in
          (f64_add size s, f64_add done_ (f64_sub s left))
        else (size, done_)
    | [] => (size, done_)
    end) groups (f64_zero, f64_zero).

Definition latest_eta (now : Z) (groups : list queueGroup) : ptr Z :=
  fold_left (λ (acc : ptr Z) g,
    match g_rows g with
    | r :: _ =>
        match ETA r now, acc with
        | Some eta, Some best => if best <? eta then Some eta else acc
        | Some eta, None => Some eta
        | None, _ => acc
        end
    | [] => acc
    end) groups None.

(** The chosen state's first reason. *)
Definition chosen_message (st : option download_state) (groups : list queueGroup) : string :=
  fold_left (λ msg g, if bool_decide (g_state g = st) && String.eqb msg "" then g_message g else msg)
    groups "".

Definition aggregateQueue (rows : list QueueRecord) (now : Z) (show : bool) : DownloadStatus :=
  let grouped := group_rows 0 rows [] in
  let total := Z.of_nat (length grouped) in
  let groups := (λ kg, judge_group (show && (1 <? total)) kg.2) <$> grouped in
  let failed := List.filter (λ g, is_failed (g_state g)) groups in
  let active := List.filter (λ g, negb (is_failed (g_state g))) groups in
  let none_active := bool_decide (active = []) in
  let pick := if none_active then failed else active in
  let state := if none_active then Some DownloadFailed else worst_active active in
  let '(size, done_) := sizes pick in
  let message := chosen_message state pick in
  let message :=
    if negb (bool_decide (failed = [])) && negb none_active then
      let note := Itoa (Z.of_nat (length failed)) +:+ " of " +:+ Itoa total +:+ " downloads failed" in
      if String.eqb message "" then note else message +:+ " (" +:+ note +:+ ")"
    else message in
  mkStatus state
    (if f64_gt0 size then Some (f64_div done_ size) else None)
    (if is_failed state then None else latest_eta now pick)
    (if f64_gt0 size then Some (int_of_f64 size) else None)
    (clampMessage message) (negb none_active).

(** ** Verdicts without a queue entry *)
(** Newest first; ties go to the higher id. *)
Definition newer (a b : HistoryRecord) : bool :=
  if h_Date a =? h_Date b then h_ID b <? h_ID a else h_Date b <? h_Date a.

Definition decisive (h : HistoryRecord) : bool :=
  bool_decide (h_EventType h = EventGrabbed) || bool_decide (h_EventType h = EventDownloadFailed)
  || IsImport (h_EventType h).

(** The head of the stable sort: the first row no other row is newer than. *)
Definition latestDownloadEvent (hist : list HistoryRecord) : option HistoryRecord :=
  fold_left (λ best h,
    match best with
    | None => Some h
    | Some b => if newer h b then Some h else best
    end) (List.filter decisive hist) None.

Definition idleStatus (app : string) (monitored hasFiles : bool) (hist : list HistoryRecord)
    (waiting : string) : DownloadStatus :=
  if hasFiles then
    mkStatus (Some DownloadImportPending) (Some f64_one) None None
      ("Downloaded " +:+ dash +:+ " waiting for the library scan") true
  else
    let latest := latestDownloadEvent hist in
    match latest with
    | Some h =>
        if bool_decide (h_EventType h = EventDownloadFailed) then
          let msg := Message h in
          let msg := if String.eqb msg "" then
                       "The download failed and " +:+ app +:+ " found nothing else to grab" else msg in
          mkStatus (Some DownloadFailed) None None None (clampMessage msg) false
        else if negb monitored then
          mkStatus (Some DownloadStalled) None None None ("Not monitored in " +:+ app) true
        else mkStatus (Some DownloadSearching) None None None waiting true
    | None =>
        if negb monitored then
          mkStatus (Some DownloadStalled) None None None ("Not monitored in " +:+ app) false
        else mkStatus (Some DownloadSearching) None None None waiting false
    end.

Record failedQueue := mkFailedQueue { fq_st : DownloadStatus; fq_downloads : list string }.

Definition newFailedQueue (st : DownloadStatus) (rows : list QueueRecord) : failedQueue :=
  mkFailedQueue st (List.filter (λ d, negb (String.eqb d "")) (q_DownloadID <$> rows)).

(** [None] is the nil receiver. *)
Definition judge (f : option failedQueue) (idle : DownloadStatus) (hist : list HistoryRecord) :
    DownloadStatus :=
  match f with
  | None => idle
  | Some f =>
      if bool_decide (ds_State idle = Some DownloadImportPending) then idle
      else match latestDownloadEvent hist with
           | None => fq_st f
           | Some h =>
               if IsImport (h_EventType h) then idle
               else if bool_decide (h_EventType h = EventGrabbed)
                       && negb (String.eqb (h_DownloadID h) "")
                       && negb (mem (h_DownloadID h) (fq_downloads f)) then idle
               else fq_st f
           end
  end.

Record Movie := mkMovie { mv_Monitored : bool; mv_HasFile : bool; mv_IsAvailable : bool; mv_Status : string }.

Definition movieWaiting (m : Movie) : string :=
  if mv_IsAvailable m then ""
  else switch (ToLower (mv_Status m))
         [(["tba"; "announced"], "Waiting for release (announced)");
          (["incinemas"], "Waiting for release (in cinemas)")] "".

Definition episodes_text (files count : Z) : string :=
  Itoa files +:+ " of " +:+ Itoa count +:+ " episodes downloaded".

Definition seriesIdleStatus (s : Series) (hist : list HistoryRecord) : DownloadStatus :=
  let '(files, count) :=
    match sr_Statistics s with
    | Some st => (ss_EpisodeFileCount st, ss_EpisodeCount st) | None => (0, 0) end in
  let waiting := if count =? 0 then "No episodes have aired yet"
                 else if 0 <? files then episodes_text files count else "" in
  idleStatus "Sonarr" (sr_Monitored s) ((0 <? count) && (count <=? files)) hist waiting.

Definition seasonsIdleStatus (s : Series) (hist : list HistoryRecord) (seasons : list Z) :
    DownloadStatus :=
  match seasons with
  | [] => seriesIdleStatus s hist
  | _ =>
      let found := omap (series_Season s) seasons in
      match found with
      | [] => seriesIdleStatus s hist
      | _ =>
          let monitored := sr_Monitored s && forallb se_Monitored found in
          let stats := omap se_Statistics found in
          let files := foldr (λ st n, ss_EpisodeFileCount st + n) 0 stats in
          let count := foldr (λ st n, ss_EpisodeCount st + n) 0 stats in
          let waiting := if count =? 0 then "No episodes of the requested seasons have aired yet"
                         else if 0 <? files then episodes_text files count else "" in
          idleStatus "Sonarr" monitored ((0 <? count) && (count <=? files)) hist waiting
      end
  end.

Definition queueRowsForSeasons (rows : list QueueRecord) (seasons : list Z) : list QueueRecord :=
  match seasons with
  | [] => rows
  | _ =>
      List.filter (λ r,
        let '(season, known) :=
          match q_Episode r with
          | Some e => (qe_SeasonNumber e, true)
          | None => (q_SeasonNumber r, 0 <? q_SeasonNumber r)
          end in
        negb known || mem season seasons) rows
  end.
