(* ===== verification/DownloadSync.v ===== *)
(** The download sync: [internal/requests/download_sync.go].

    One run reads the in-flight requests, groups them by arr instance, judges
    each against the instance's queue, files and history within a lookup
    budget, and writes the verdict back.  The HTTP answers of an instance and of
    TMDB are functions of an [instance] record. *)
From S2P Require Import Prelude.
From S2P Require Import GoStrings.
From S2P Require Import GoFloat.
From S2P Require Import Requests.
From S2P Require Import Downloads.

Local Open Scope Z_scope.

(** * One instance *)

(** An HTTP lookup: found, answered 404, or failed. *)
Inductive lookup (A : Type) := Found (a : A) | Gone | Unavailable.
Arguments Found {A} a.
Arguments Gone {A}.
Arguments Unavailable {A}.

Record instance := mkInstance {
  i_kind : string;
  i_now : Z;
  i_queue : list QueueRecord;
  i_movie_by_tmdb : Z → lookup Z;
  i_tvdb_id : Z → Z;                   (* 0 when TMDB is not wired or failed *)
  i_lookup_series : Z → lookup (Z * Z); (* TMDB and TVDB id of the match *)
  i_series_by_tvdb : Z → lookup Z;
  i_movie : Z → lookup Movie;
  i_series : Z → lookup Series;
  i_movie_history : Z → lookup (list HistoryRecord);
  i_series_history : Z → lookup (list HistoryRecord);
  i_season_history : Z → Z → lookup (list HistoryRecord);
  i_link_ok : bool }.                  (* storing an item id succeeds *)

#[global] Instance eta_instance : Eta instance := λ i,
  mkInstance (i_kind i) (i_now i) (i_queue i) (i_movie_by_tmdb i) (i_tvdb_id i) (i_lookup_series i)
    (i_series_by_tvdb i) (i_movie i) (i_series i) (i_movie_history i) (i_series_history i)
    (i_season_history i) (i_link_ok i).

(** What a run over one instance threads: the lookup budget and the world. *)
Record pass := mkPass { ps_budget : Z; ps_w : world }.
#[global] Instance eta_pass : Eta pass := λ p, mkPass (ps_budget p) (ps_w p).

Definition syncLookupBudget : Z := 60.

Definition spend (p : pass) : option pass :=
  if ps_budget p <=? 0 then None else Some (p <| ps_budget ::= Z.pred |>).

Definition appName (i : instance) : string :=
  if String.eqb (i_kind i) "sonarr" then "Sonarr" else "Radarr".

Definition relink (i : instance) (id : string) (n : Z) (p : pass) : pass :=
  let v := if 0 <? n then Some (wrap32 n) else None in
  if i_link_ok i
  then p <| ps_w ::= λ w, w <| w_db ::= λ db, (SetMediaRequestArrItem id v db).1 |> |>
  else p.

Definition resolveSeries (i : instance) (r : MediaRequest) : lookup Z :=
  let tvdbID := i_tvdb_id i (rq_TmdbID r) in
  if tvdbID <=? 0 then
    match i_lookup_series i (rq_TmdbID r) with
    | Found (tmdb, tvdb) =>
        if negb (tmdb =? rq_TmdbID r) || (tvdb <=? 0) then Gone else i_series_by_tvdb i tvdb
    | Gone => Gone
    | Unavailable => Unavailable
    end
  else i_series_by_tvdb i tvdbID.

(** [Some 0]: the instance does not manage the title. *)
Definition resolve_item (i : instance) (id : string) (r : MediaRequest) (p : pass) : pass * option Z :=
  match spend p with
  | None => (p, None)
  | Some p =>
      match (if String.eqb (rq_Type r) TypeMovie then i_movie_by_tmdb i (rq_TmdbID r)
             else resolveSeries i r) with
      | Gone => (p, Some 0)
      | Unavailable => (p, None)
      | Found n => (relink i id n p, Some n)
      end
  end.

Definition linkedItem (i : instance) (id : string) (r : MediaRequest) (p : pass) : pass * option Z :=
  match rq_ArrItemID r with
  | Some n => if 0 <? n then (p, Some n) else resolve_item i id r p
  | None => resolve_item i id r p
  end.

Definition history (i : instance) (r : MediaRequest) (item : Z) (p : pass) :
    pass * option (list HistoryRecord) :=
  match spend p with
  | None => (p, None)
  | Some p =>
      match (if String.eqb (rq_Type r) TypeMovie then i_movie_history i item
             else i_series_history i item) with
      | Gone => (p, Some [])
      | Unavailable => (p, None)
      | Found hist => (p, Some hist)
      end
  end.

Definition maxSeasonHistoryCalls : Z := 3.

Fixpoint season_histories (i : instance) (item : Z) (seasons : list Z) (out : list HistoryRecord)
    (p : pass) : pass * option (list HistoryRecord) :=
  match seasons with
  | [] => (p, Some out)
  | n :: seasons =>
      match spend p with
      | None => (p, None)
      | Some p =>
          match i_season_history i item n with
          | Gone => season_histories i item seasons out p
          | Unavailable => (p, None)
          | Found hist => season_histories i item seasons (out ++ hist) p
          end
      end
  end.

Definition seasonHistory (i : instance) (r : MediaRequest) (item : Z) (seasons : list Z) (p : pass) :
    pass * option (list HistoryRecord) :=
  let n := Z.of_nat (length seasons) in
  if (n =? 0) || (maxSeasonHistoryCalls <? n) then history i r item p
  else season_histories i item seasons [] p.

(** The queue rows of one item. *)
Definition byItem (i : instance) (item : Z) : list QueueRecord :=
  List.filter (λ q,
    let id := if String.eqb (i_kind i) "sonarr" then q_SeriesID q else q_MovieID q in
    (0 <? id) && (id =? item)) (i_queue i).

(** * One request's verdict *)
Definition not_there (app : string) : DownloadStatus :=
  mkStatus (Some DownloadStalled) None None None
    ("Not found in " +:+ app +:+ " " +:+ dash +:+ " it may have been removed there") false.
Definition removed (app : string) : DownloadStatus :=
  mkStatus (Some DownloadStalled) None None None
    ("No longer in " +:+ app +:+ " " +:+ dash +:+ " it was removed there") false.

Definition movie_status (i : instance) (id : string) (r : MediaRequest) (item : Z)
    (failedQ : option failedQueue) (p : pass) : pass * option DownloadStatus :=
  match spend p with
  | None => (p, None)
  | Some p =>
      match i_movie i item with
      | Gone => (relink i id 0 p, Some (removed "Radarr"))
      | Unavailable => (p, None)
      | Found m =>
          if mv_HasFile m then (p, Some (idleStatus "Radarr" (mv_Monitored m) true [] ""))
          else
            match history i r item p with
            | (p, None) => (p, None)
            | (p, Some hist) =>
                (p, Some (judge failedQ
                            (idleStatus "Radarr" (mv_Monitored m) false hist (movieWaiting m)) hist))
            end
      end
  end.

Definition series_status (i : instance) (id : string) (r : MediaRequest) (item : Z)
    (seasons : list Z) (failedQ : option failedQueue) (p : pass) : pass * option DownloadStatus :=
  match spend p with
  | None => (p, None)
  | Some p =>
      match i_series i item with
      | Gone => (relink i id 0 p, Some (removed "Sonarr"))
      | Unavailable => (p, None)
      | Found s =>
          let st := seasonsIdleStatus s [] seasons in
          if bool_decide (ds_State st = Some DownloadImportPending) then (p, Some st)
          else
            match seasonHistory i r item seasons p with
            | (p, None) => (p, None)
            | (p, Some hist) => (p, Some (judge failedQ (seasonsIdleStatus s hist seasons) hist))
            end
      end
  end.

(** [serviceSync.status]; [None] leaves the row untouched. *)
Definition request_status (i : instance) (id : string) (r : MediaRequest) (p : pass) :
    pass * option DownloadStatus :=
  match linkedItem i id r p with
  | (p, None) => (p, None)
  | (p, Some item) =>
      if item =? 0 then (p, Some (not_there (appName i)))
      else
        let seasons := RequestSeasons r in
        let rows := queueRowsForSeasons (byItem i item) seasons in
        let agg := aggregateQueue rows (i_now i) (String.eqb (rq_Type r) TypeShow) in
        let queued := negb (bool_decide (rows = [])) in
        if queued && negb (is_failed (ds_State agg)) then (p, Some agg)
        else
          let failedQ := if queued then Some (newFailedQueue agg rows) else None in
          if String.eqb (rq_Type r) TypeMovie then movie_status i id r item failedQ p
          else series_status i id r item seasons failedQ p
  end.

(** * Writing the verdict back *)
Record SyncResult := mkSyncResult {
  sy_Requests : Z; sy_Services : Z; sy_ServiceErrors : Z;
  sy_Updated : Z; sy_Failed : Z; sy_Recovered : Z; sy_Skipped : Z }.
#[global] Instance eta_SyncResult : Eta SyncResult := λ s,
  mkSyncResult (sy_Requests s) (sy_Services s) (sy_ServiceErrors s)
    (sy_Updated s) (sy_Failed s) (sy_Recovered s) (sy_Skipped s).

(** Which of the statements succeed, the requester's policy for the notices,
    and the service's name. *)
Record apply_env := mkApplyEnv {
  ap_fail_ok : bool; ap_recover_ok : bool; ap_update_ok : bool; ap_mark_ok : bool;
  ap_perm : option permissions; ap_service : string; ap_year : Z }.

Definition syncNoticeMessage : Z := 200.
Definition TrimSuffixDot (s : string) : string :=
  match srev s with
  | String c s' => if Ascii.eqb c "." then srev s' else s
  | EmptyString => s
  end.
Definition noticeReason (s : string) : string :=
  let s := TrimSuffixDot (clampMessage s) in
  if syncNoticeMessage <? RuneCount s then take_runes (syncNoticeMessage - 1) s +:+ ellipsis else s.

Definition notifyDownloadFailed (e : apply_env) (r : MediaRequest) (reason : string) (w : world) : world :=
  let reason := noticeReason reason in
  let title := titleWithYear (rq_Title r) (ap_year e) in
  let '(requester, isAdmin) :=
    match ap_perm e with
    | Some p => (if String.eqb (p_Username p) "" then "A user" else p_Username p, p_IsAdmin p)
    | None => ("A user", false)
    end in
  let w :=
    if isAdmin then w
    else Notify (rq_UserID r) "request_failed" ("Download failed: " +:+ rq_Title r)
           (quoted (rq_Title r)
            +:+ " couldn't be downloaded. An admin has been told and can retry it.") w in
  let adminBody := requester +:+ "'s request for " +:+ quoted title +:+ " failed in " +:+ ap_service e in
  NotifyAdmins "request_failed" "Request download failed"
    (if String.eqb reason "" then adminBody else adminBody +:+ ": " +:+ reason) w.

(** [UpdateMediaRequestDownload] touches only the download columns, which are
    not part of the modelled row: its row count says whether it was in flight. *)
Definition UpdateMediaRequestDownload (id : string) (db : DB) : DB * Z :=
  update_where id (λ r, in_flight (rq_Status r)) (λ r, r) db.

Definition write_back (e : apply_env) (id : string) (r : MediaRequest) (failed : bool) (w : world)
    (res : SyncResult) : world * SyncResult :=
  if negb (ap_update_ok e) then (w, res)
  else
    let '(db, n) := UpdateMediaRequestDownload id (w_db w) in
    let w := w <| w_db := db |> in
    let res := if n =? 1 then res <| sy_Updated ::= Z.add 1 |> else res in
    if has_status StatusApproved r && negb failed && ap_mark_ok e
    then (w <| w_db ::= λ db, (MarkMediaRequestDownloading id db).1 |>, res)
    else (w, res).

(** [applyDownloadStatus] for the row [r] read earlier. *)
Definition applyDownloadStatus (e : apply_env) (id : string) (r : MediaRequest) (st : DownloadStatus)
    (w : world) (res : SyncResult) : world * SyncResult :=
  let failed := is_failed (ds_State st) in
  if failed && negb (has_status StatusFailed r) then
    if negb (ap_fail_ok e) then (w, res)
    else
      let '(db, n) := FailMediaRequestDownload id (w_db w) in
      let w := w <| w_db := db |> in
      let res := res <| sy_Updated ::= Z.add 1 |> in
      if n =? 1
      then (notifyDownloadFailed e r (ds_Message st) w, res <| sy_Failed ::= Z.add 1 |>)
      else (w, res)
  else if has_status StatusFailed r && negb failed && ds_Recovers st then
    if negb (ap_recover_ok e) then (w, res)
    else
      let '(db, n) := RecoverMediaRequestDownload id (w_db w) in
      let w := w <| w_db := db |> in
      if n =? 1
      then (w, res <| sy_Updated ::= Z.add 1 |> <| sy_Recovered ::= Z.add 1 |>)
      else write_back e id r true w res
  else write_back e id r (failed || has_status StatusFailed r) w res.

(** * The run *)

(** One instance's requests, in order.  [alive]: the run's context has not
    ended when the request's turn comes; [wb]: the environment of each
    write-back. *)
Fixpoint sync_requests (i : instance) (wantType : string) (alive : string → bool)
    (wb : string → apply_env) (reqs : list (string * MediaRequest)) (p : pass) (res : SyncResult) :
    pass * SyncResult :=
  match reqs with
  | [] => (p, res)
  | (id, r) :: reqs =>
      let '(p, res) :=
        if negb (String.eqb (rq_Type r) wantType) then (p, res <| sy_Skipped ::= Z.succ |>)
        else if negb (alive id) then (p, res <| sy_Skipped ::= Z.succ |>)
        else
          match request_status i id r p with
          | (p, None) => (p, res <| sy_Skipped ::= Z.succ |>)
          | (p, Some st) =>
              let '(w, res) := applyDownloadStatus (wb id) id r st (ps_w p) res in
              (p <| ps_w := w |>, res)
          end in
      sync_requests i wantType alive wb reqs p res
  end.

Definition skip_all (reqs : list (string * MediaRequest)) (res : SyncResult) : SyncResult :=
  res <| sy_Skipped ::= Z.add (Z.of_nat (length reqs)) |>.

(** [true]: the instance was unusable (unknown kind, its key does not open, its
    queue cannot be read: [reach] is [None]). *)
Definition syncService (svc : ArrService) (reach : option instance) (alive : string → bool)
    (wb : string → apply_env) (reqs : list (string * MediaRequest)) (w : world) (res : SyncResult) :
    world * SyncResult * bool :=
  if negb (mem (as_Kind svc) ["sonarr"; "radarr"]) then (w, skip_all reqs res, true)
  else
    match reach with
    | None => (w, skip_all reqs res, true)
    | Some i =>
        let wantType := if String.eqb (as_Kind svc) "sonarr" then TypeShow else TypeMovie in
        let '(p, res) := sync_requests (i <| i_kind := as_Kind svc |>) wantType alive wb reqs
                           (mkPass syncLookupBudget w) res in
        (ps_w p, res, false)
    end.

Record SyncFilter := mkSyncFilter { sf_Kind : string; sf_TMDBID : Z; sf_ArrItemID : Z }.

Definition targeted (f : SyncFilter) : bool := (0 <? sf_TMDBID f) || (0 <? sf_ArrItemID f).

Definition filter_match (f : SyncFilter) (r : MediaRequest) : bool :=
  if negb (String.eqb (sf_Kind f) "") && negb (String.eqb (arrKindForType (rq_Type r)) (sf_Kind f))
  then false
  else if negb (targeted f) then true
  else match rq_ArrItemID r with
       | None => true
       | Some n => (0 <? sf_TMDBID f) && (rq_TmdbID r =? sf_TMDBID f)
                   || (0 <? sf_ArrItemID f) && (n =? sf_ArrItemID f)
       end.

(** What a run meets: whether the listing succeeds, which failed requests are
    recent enough, the listing's order (least recently checked first), the
    services table, the instances and when the context ends. *)
Record sync_env := mkSyncEnv {
  sn_list_ok : bool;
  sn_recent : string → bool;
  sn_order : list (string * MediaRequest) → list (string * MediaRequest);
  sn_service : string → option ArrService;
  sn_reach : string → option instance;
  sn_service_alive : string → bool;
  sn_alive : string → bool;
  sn_write : string → apply_env }.

Definition syncMaxRequests : nat := 500.

Definition ListMediaRequestsForDownloadSync (e : sync_env) (db : DB) : list (string * MediaRequest) :=
  take syncMaxRequests (sn_order e (List.filter (λ kr : string * MediaRequest,
    match rq_ServiceID kr.2 with Some _ => true | None => false end
    && in_flight (rq_Status kr.2)
    && (negb (has_status StatusFailed kr.2) || sn_recent e kr.1)) (map_to_list db))).

Definition on_service (svc : string) (kr : string * MediaRequest) : bool :=
  match rq_ServiceID kr.2 with Some s => String.eqb s svc | None => false end.

(** Distinct service ids in order of first appearance. *)
Fixpoint service_order (seen : list string) (rows : list (string * MediaRequest)) : list string :=
  match rows with
  | [] => []
  | kr :: rows =>
      match rq_ServiceID kr.2 with
      | Some s => if mem s seen then service_order seen rows else s :: service_order (s :: seen) rows
      | None => service_order seen rows
      end
  end.

Fixpoint sync_services (e : sync_env) (rows : list (string * MediaRequest)) (order : list string)
    (w : world) (res : SyncResult) : world * SyncResult :=
  match order with
  | [] => (w, res)
  | id :: order =>
      let reqs := List.filter (on_service id) rows in
      let '(w, res) :=
        if negb (sn_service_alive e id) then (w, skip_all reqs res)
        else
          match sn_service e id with
          | None => (w, skip_all reqs (res <| sy_ServiceErrors ::= Z.succ |>))
          | Some svc =>
              if negb (as_Enabled svc) then (w, skip_all reqs res)
              else
                let res := res <| sy_Services ::= Z.succ |> in
                let '(w, res, failed) :=
                  syncService svc (sn_reach e id) (sn_alive e) (sn_write e) reqs w res in
                (w, if (failed : bool) then res <| sy_ServiceErrors ::= Z.succ |> else res)
          end in
      sync_services e rows order w res
  end.

(** [SyncDownloads]; [None]: the listing failed. *)
Definition SyncDownloads (e : sync_env) (f : SyncFilter) (w : world) : world * option SyncResult :=
  if negb (sn_list_ok e) then (w, None)
  else
    let rows := List.filter (λ kr : string * MediaRequest, filter_match f kr.2)
                  (ListMediaRequestsForDownloadSync e (w_db w)) in
    let res := mkSyncResult (Z.of_nat (length rows)) 0 0 0 0 0 0 in
    let '(w, res) := sync_services e rows (service_order [] rows) w res in
    (w, Some res).
