(* ===== verification/RequestsProps.v ===== *)
(** The request service as guarded table statements.

    Season selections as sets; the moves of a request's status; every service
    operation is a sequence of statements ([stmt_step]); what a statement keeps:
    well-formedness of the table and the identity of its rows. *)
From S2P Require Import Prelude.
From S2P Require Import GoStrings.
From S2P Require Import Requests.
From S2P Require Import Downloads.
From S2P Require Import DownloadSync.

Local Open Scope Z_scope.

(** * Season selections *)
Lemma dedup_elem (seen l : list Z) (n : Z) : n ∈ dedup seen l ↔ n ∈ l ∧ n ∉ seen.
Proof.
  revert seen. induction l as [|m l IH]; intros seen; simpl.
  - split; [by intros ?%not_elem_of_nil|by intros [?%not_elem_of_nil _]].
  - destruct (mem m seen) eqn:E; breflect.
    + rewrite IH, elem_of_cons. naive_solver.
    + rewrite !elem_of_cons, IH, not_elem_of_cons. destruct (decide (n = m)) as [->|]; naive_solver.
Qed.

Lemma dedup_NoDup (seen l : list Z) : NoDup (dedup seen l).
Proof.
  revert seen. induction l as [|m l IH]; intros seen; simpl; [constructor|].
  case_match; [apply IH|]. constructor; [|apply IH]. rewrite dedup_elem, not_elem_of_cons. naive_solver.
Qed.

Lemma sort_ints_elem (l : list Z) (n : Z) : n ∈ sort_ints l ↔ n ∈ l.
Proof. unfold sort_ints. by rewrite merge_sort_Permutation. Qed.

Lemma normalizeSeasons_elem (l : list Z) (n : Z) : n ∈ normalizeSeasons l ↔ n ∈ l.
Proof.
  unfold normalizeSeasons. rewrite sort_ints_elem, dedup_elem. split; [by intros []|].
  intros Hn. split; [done|apply not_elem_of_nil].
Qed.

Lemma normalizeSeasons_nil (l : list Z) : normalizeSeasons l = [] ↔ l = [].
Proof.
  split; [|by intros ->]. intros Hn. destruct l as [|n l]; [done|].
  assert (n ∈ normalizeSeasons (n :: l)) as Hin by (apply normalizeSeasons_elem; left).
  rewrite Hn in Hin. by apply not_elem_of_nil in Hin.
Qed.

(** Stored as a set in ascending order. *)
Lemma normalizeSeasons_sorted (l : list Z) :
  StronglySorted Z.le (normalizeSeasons l) ∧ NoDup (normalizeSeasons l).
Proof.
  unfold normalizeSeasons, sort_ints. split.
  - apply (StronglySorted_merge_sort Z.le).
  - rewrite merge_sort_Permutation. apply dedup_NoDup.
Qed.

Lemma hasRegularSeason_spec (l : list Z) : hasRegularSeason l = true ↔ ∃ n, n ∈ l ∧ 0 < n.
Proof.
  unfold hasRegularSeason. rewrite existsb_exists_elem.
  split; intros (n & Hn & Hp); exists n; breflect; done.
Qed.

Lemma shared_season_spec (a b : list Z) :
  existsb (λ n, mem n a) b = true ↔ ∃ n, n ∈ a ∧ n ∈ b.
Proof.
  rewrite existsb_exists_elem. split; intros (n & Hn & Hp); exists n; breflect; done.
Qed.

(** The seasons a selection stands for. *)
Definition covers (sel : list Z) (n : Z) : Prop :=
  match sel with [] => 0 < n | _ => n ∈ sel end.

Lemma SeasonsOverlap_spec (a b : list Z) :
  SeasonsOverlap a b = true ↔ ∃ n, covers a n ∧ covers b n.
Proof.
  destruct a as [|x a], b as [|y b]; cbn [SeasonsOverlap covers].
  - split; [|done]. intros _. by exists 1.
  - rewrite hasRegularSeason_spec. naive_solver.
  - rewrite hasRegularSeason_spec. naive_solver.
  - rewrite shared_season_spec. done.
Qed.

Lemma CoversSeason_spec (r : MediaRequest) (n : Z) :
  rq_Type r = TypeShow → CoversSeason r n = true ↔ covers (RequestSeasons r) n.
Proof.
  intros Ht. unfold CoversSeason. destruct (RequestSeasons r) as [|m l]; simpl.
  - rewrite Ht. breflect. naive_solver.
  - by breflect.
Qed.

Lemma RequestSeasons_elem (r : MediaRequest) (n : Z) :
  rq_Type r = TypeShow → n ∈ RequestSeasons r ↔ n ∈ rq_Seasons r.
Proof. intros Ht. unfold RequestSeasons. rewrite Ht. simpl. apply normalizeSeasons_elem. Qed.

Lemma RequestSeasons_nil (r : MediaRequest) :
  rq_Type r = TypeShow → RequestSeasons r = [] ↔ rq_Seasons r = [].
Proof. intros Ht. unfold RequestSeasons. rewrite Ht. simpl. apply normalizeSeasons_nil. Qed.

(** The overlap test of the recovery statement is at least as strict. *)
Lemma overlap_recover (a b : MediaRequest) :
  rq_Type a = TypeShow → rq_Type b = TypeShow →
  SeasonsOverlap (RequestSeasons a) (RequestSeasons b) = true →
  bool_decide (rq_Seasons b = []) || bool_decide (rq_Seasons a = [])
    || existsb (λ n, mem n (rq_Seasons a)) (rq_Seasons b) = true.
Proof.
  intros Ha Hb (n & Hca & Hcb)%SeasonsOverlap_spec. breflect.
  destruct (decide (rq_Seasons b = [])) as [?|Hnb]; [by left; left|].
  destruct (decide (rq_Seasons a = [])) as [?|Hna]; [by left; right|]. right.
  apply shared_season_spec. exists n.
  rewrite <- (RequestSeasons_nil a Ha) in Hna. rewrite <- (RequestSeasons_nil b Hb) in Hnb.
  rewrite <- (RequestSeasons_elem a n Ha), <- (RequestSeasons_elem b n Hb).
  by destruct (RequestSeasons a), (RequestSeasons b).
Qed.

(** * Statements *)
Definition same_identity (r r' : MediaRequest) : Prop :=
  rq_UserID r' = rq_UserID r ∧ rq_Type r' = rq_Type r ∧ rq_TmdbID r' = rq_TmdbID r
  ∧ rq_Seasons r' = rq_Seasons r ∧ rq_CreatedAt r' = rq_CreatedAt r.

#[global] Instance same_identity_refl : Reflexive same_identity.
Proof. done. Qed.
#[global] Instance same_identity_trans : Transitive same_identity.
Proof. unfold same_identity. intros a b c. intuition congruence. Qed.

(** The moves a request's status can make. *)
Inductive move : status → status → Prop :=
  | move_approve : move StatusPending StatusApproved
  | move_decline : move StatusPending StatusDeclined
  | move_start : move StatusApproved StatusDownloading
  | move_fulfil st : in_flight st = true → move st StatusAvailable
  | move_fail st : st = StatusApproved ∨ st = StatusDownloading → move st StatusFailed
  | move_recover : move StatusFailed StatusDownloading.

(** Two active requests of a user for one title that ask for the same thing. *)
Definition conflict (a b : MediaRequest) : Prop :=
  rq_UserID a = rq_UserID b ∧ rq_Type a = rq_Type b ∧ rq_TmdbID a = rq_TmdbID b
  ∧ is_active (rq_Status a) = true ∧ is_active (rq_Status b) = true
  ∧ (rq_Type a = TypeShow → SeasonsOverlap (RequestSeasons a) (RequestSeasons b) = true).

Definition known_type (r : MediaRequest) : Prop := rq_Type r = TypeMovie ∨ rq_Type r = TypeShow.

(** What can happen to the rows of the table, short of a deletion. *)
Inductive row_step (db : DB) : DB → Prop :=
  | st_update id r r' :
      db !! id = Some r → same_identity r r' →
      rq_Status r' = rq_Status r ∨ move (rq_Status r) (rq_Status r') ∧ rq_Status r ≠ StatusFailed
        ∨ rq_Status r' = StatusAvailable ∧ in_flight (rq_Status r) = true →
      row_step db (<[id := r']> db)
  | st_insert id r :
      db !! id = None → rq_Status r = StatusPending → known_type r →
      (∀ id' r', db !! id' = Some r' → ¬ conflict r' r) → row_step db (<[id := r]> db)
  | st_recover id r r' :
      db !! id = Some r → same_identity r r' → rq_Status r = StatusFailed →
      rq_Status r' = StatusDownloading → superseding id r db = false →
      row_step db (<[id := r']> db).

(** The UPDATE statements of the service. *)
Inductive statement :=
  | SApprove (id svc : string) (decidedBy : ptr string) (auto : bool)
  | SDecline (id : string) (decidedBy : ptr string)
  | SCancel (id user : string)
  | SLink (id : string) (n : ptr Z)
  | SStart (id : string)
  | SAvailable (id item : string)
  | SSeason (id : string) (n : Z)
  | SFail (id : string)
  | SRecover (id : string)
  | SProgress (id : string).

Definition run_statement (s : statement) (db : DB) : DB :=
  (match s with
   | SApprove id svc d a => ApproveMediaRequest id svc d a db
   | SDecline id d => DeclineMediaRequest id d db
   | SCancel id u => CancelMediaRequest id u db
   | SLink id n => SetMediaRequestArrItem id n db
   | SStart id => MarkMediaRequestDownloading id db
   | SAvailable id item => MarkMediaRequestAvailable id item db
   | SSeason id n => MarkMediaRequestSeasonAvailable id n db
   | SFail id => FailMediaRequestDownload id db
   | SRecover id => RecoverMediaRequestDownload id db
   | SProgress id => UpdateMediaRequestDownload id db
   end).1.

(** One of the statements [P]. *)
Definition stmt_step (P : statement → Prop) (db db' : DB) : Prop :=
  ∃ s, P s ∧ db' = run_statement s db.

Lemma issue (P : statement → Prop) (s : statement) (db : DB) :
  P s → rtc (stmt_step P) db (run_statement s db).
Proof. intros Hs. apply rtc_once. by exists s. Qed.

(** Which status a statement gives which row: a row of [user] under [id]. *)
Definition statement_moves (s : statement) (id user : string) (st st' : status) : Prop :=
  match s with
  | SApprove id0 _ _ _ => id = id0 ∧ st = StatusPending ∧ st' = StatusApproved
  | SDecline id0 _ => id = id0 ∧ st = StatusPending ∧ st' = StatusDeclined
  | SCancel id0 u => id = id0 ∧ user = u ∧ st = StatusPending ∧ st' = StatusDeclined
  | SStart id0 => id = id0 ∧ st = StatusApproved ∧ st' = StatusDownloading
  | SAvailable id0 _ => id = id0 ∧ in_flight st = true ∧ st' = StatusAvailable
  | SFail id0 =>
      id = id0 ∧ (st = StatusApproved ∨ st = StatusDownloading) ∧ st' = StatusFailed
  | SRecover id0 => id = id0 ∧ st = StatusFailed ∧ st' = StatusDownloading
  | SLink _ _ | SSeason _ _ | SProgress _ => False
  end.

Lemma has_status_spec (st : status) (r : MediaRequest) : has_status st r = true ↔ rq_Status r = st.
Proof. apply bool_decide_eq_true. Qed.
#[export] Hint Rewrite has_status_spec : go_bool.

(** What an UPDATE leaves: the table as it was, or one row changed. *)
Lemma update_where_cases (id : string) guard f (db : DB) :
  (update_where id guard f db).1 = db
  ∨ ∃ r, db !! id = Some r ∧ guard r = true ∧ (update_where id guard f db).1 = <[id := f r]> db.
Proof.
  unfold update_where. destruct (db !! id) as [r|] eqn:E; [|by left].
  destruct (guard r) eqn:Eg; [right; by exists r|by left].
Qed.

(** A statement leaves the table as it was, or changes one row: its identity
    stays, and its status stays or moves as [statement_moves] says; the
    recovery saw no superseding request. *)
Lemma run_statement_cases (s : statement) (db : DB) :
  run_statement s db = db
  ∨ ∃ id r r', db !! id = Some r ∧ run_statement s db = <[id := r']> db ∧ same_identity r r'
      ∧ (rq_Status r' = rq_Status r ∨ statement_moves s id (rq_UserID r) (rq_Status r) (rq_Status r'))
      ∧ (rq_Status r = StatusFailed → rq_Status r' = StatusDownloading → superseding id r db = false).
Proof.
  destruct s as [id svc d a|id d|id u|id n|id|id item|id n|id|id|id];
    cbv beta iota delta [run_statement statement_moves];
    unfold ApproveMediaRequest, DeclineMediaRequest, CancelMediaRequest, SetMediaRequestArrItem,
      MarkMediaRequestDownloading, MarkMediaRequestAvailable, MarkMediaRequestSeasonAvailable,
      FailMediaRequestDownload, RecoverMediaRequestDownload, UpdateMediaRequestDownload;
    (match goal with |- context [update_where ?i ?g ?f ?d] =>
       destruct (update_where_cases i g f d) as [E|(r & Hr & Hg & E)] end; [by left|]);
    right; exists id, r; eexists; (split; [exact Hr|]); (split; [exact E|]); (split; [done|]); breflect;
    cbn; destruct (rq_Status r) eqn:Est;
    first [naive_solver
          |split; [left; exact Est|intros _ Hx; change (rq_Status r = StatusDownloading) in Hx; congruence]].
Qed.

Lemma statement_row_steps (s : statement) (db : DB) : rtc row_step db (run_statement s db).
Proof.
  destruct (run_statement_cases s db) as [->|(id & r & r' & Hr & -> & Hi & Hm & Hsup)];
    [apply rtc_refl|]. apply rtc_once.
  destruct Hm as [Hm|Hm]; [eapply st_update; [done|done|by left]|].
  destruct s as [id0 svc d a|id0 d|id0 u|id0 n|id0|id0 item|id0 n|id0|id0|id0]; cbn in Hm; try done.
  - destruct Hm as (_ & Hst & Hst'). eapply st_update; [done|done|]. right. left.
    rewrite Hst, Hst'. split; [constructor|done].
  - destruct Hm as (_ & Hst & Hst'). eapply st_update; [done|done|]. right. left.
    rewrite Hst, Hst'. split; [constructor|done].
  - destruct Hm as (_ & _ & Hst & Hst'). eapply st_update; [done|done|]. right. left.
    rewrite Hst, Hst'. split; [constructor|done].
  - destruct Hm as (_ & Hst & Hst'). eapply st_update; [done|done|]. right. left.
    rewrite Hst, Hst'. split; [constructor|done].
  - destruct Hm as (_ & Hst & Hst'). eapply st_update; [done|done|]. right. right. done.
  - destruct Hm as (_ & Hst & Hst'). eapply st_update; [done|done|]. right. left. rewrite Hst'.
    split; [by constructor|]. by destruct Hst as [-> | ->].
  - destruct Hm as (_ & Hst & Hst'). eapply st_recover; [done|done|done|done|by apply Hsup].
Qed.

Lemma stmts_row_steps (P : statement → Prop) (db db' : DB) :
  rtc (stmt_step P) db db' → rtc row_step db db'.
Proof.
  induction 1 as [|x y z (s & _ & ->) _ IH]; [apply rtc_refl|].
  etrans; [apply statement_row_steps|exact IH].
Qed.

(** The statements an approval, a fulfilment pass and a download sync issue. *)
Definition approving (id : string) (s : statement) : Prop :=
  match s with SApprove i _ _ _ | SLink i _ | SStart i => i = id | _ => False end.
Definition fulfilling (s : statement) : Prop :=
  match s with SAvailable _ _ | SSeason _ _ => True | _ => False end.
Definition syncing (s : statement) : Prop :=
  match s with SLink _ _ | SStart _ | SFail _ | SRecover _ | SProgress _ => True | _ => False end.

(** * Service operations are sequences of statements *)
Lemma covers_normalize (l : list Z) (n : Z) : covers (normalizeSeasons l) n ↔ covers l n.
Proof.
  pose proof (normalizeSeasons_nil l) as Hnil. pose proof (normalizeSeasons_elem l n) as Hel.
  unfold covers. destruct l as [|m l]; [done|].
  destruct (normalizeSeasons (m :: l)) eqn:E; [by destruct Hnil as [Hx _]; discriminate (Hx eq_refl)|].
  done.
Qed.

Lemma SeasonsOverlap_normalize (a b : list Z) :
  SeasonsOverlap a (normalizeSeasons b) = SeasonsOverlap a b.
Proof.
  apply eq_true_iff_eq. rewrite !SeasonsOverlap_spec.
  split; intros (n & Ha & Hb); exists n; (split; [done|]); by apply covers_normalize.
Qed.

Lemma rows_where_spec (p : MediaRequest → bool) (db : DB) (id : string) (r : MediaRequest) :
  (id, r) ∈ rows_where p db ↔ db !! id = Some r ∧ p r = true.
Proof.
  unfold rows_where. rewrite list_elem_of_filter, elem_of_map_to_list. simpl. tauto.
Qed.

Lemma same_title_spec user ty tmdb r :
  same_title user ty tmdb r = true ↔ rq_UserID r = user ∧ rq_Type r = ty ∧ rq_TmdbID r = tmdb.
Proof. unfold same_title. breflect. tauto. Qed.

Lemma checkDuplicate_sound (ok : bool) (i : CreateInput) (db : DB) (r : MediaRequest) :
  checkDuplicate ok i db = None → 0 < in_TMDBID i ≤ int32_max →
  rq_UserID r = in_UserID i → rq_Type r = in_Type i → rq_TmdbID r = wrap32 (in_TMDBID i) →
  rq_Seasons r = in_Seasons i → known_type r →
  ∀ id' r', db !! id' = Some r' → ¬ conflict r' r.
Proof.
  unfold checkDuplicate. intros Hc Ht Hu Hty Hid Hse Hk id' r' Hr' (Cu & Ct & Cm & Ca & _ & Co).
  assert (wrap32 (in_TMDBID i) = in_TMDBID i) as Hwrap.
  { apply wrap32_id. unfold int32_min. lia. }
  destruct ok; [|done]. cbn [negb] in Hc.
  destruct (String.eqb_spec (in_Type i) TypeShow) as [Hshow|Hmovie]; cbn [negb] in Hc.
  - destruct (existsb _ _) eqn:Ex in Hc; [done|]. clear Hc.
    apply not_true_iff_false in Ex. apply Ex. apply existsb_exists_elem. exists (id', r').
    split.
    + apply rows_where_spec. split; [done|]. breflect. split; [split; [congruence|congruence]|done].
    + cbn [snd]. breflect. split; [split; [congruence|congruence]|].
      assert (rq_Type r' = TypeShow) as Hr'show by congruence. specialize (Co Hr'show).
      unfold RequestSeasons in Co at 2. rewrite Hty, Hshow, Hse in Co. simpl in Co.
      by rewrite SeasonsOverlap_normalize in Co.
  - unfold FindActiveRequestForUser in Hc. destruct (rows_where _ db) as [|x l] eqn:El; [|done].
    assert ((id', r') ∈ rows_where (λ r0, same_title (in_UserID i) (in_Type i) (wrap32 (in_TMDBID i)) r0
      && is_active (rq_Status r0)) db) as Hin.
    { apply rows_where_spec. split; [done|]. apply andb_true_iff. split; [|done].
      apply same_title_spec. split; [congruence|split; congruence]. }
    rewrite El in Hin. by apply not_elem_of_nil in Hin.
Qed.

Lemma create_checks_ok (e : create_env) (i i' : CreateInput) (db : DB) title year quota :
  create_checks e i db = inl (i', title, year, quota) →
  (in_Type i' = TypeMovie ∨ in_Type i' = TypeShow) ∧ 0 < in_TMDBID i'
  ∧ in_TMDBID i' = in_TMDBID i ∧ in_UserID i' = in_UserID i ∧ in_Type i' = in_Type i
  ∧ in_RequestedServiceID i' = in_RequestedServiceID i
  ∧ checkDuplicate (ce_dup_ok e) i' db = None
  ∧ in_Seasons i' = (if String.eqb (in_Type i) TypeShow then normalizeSeasons (in_Seasons i) else [])
  ∧ quota = match ce_perm e with
            | Some p => overQuota (ce_quota_ok e) (ce_quota e) (ce_now e) p (in_UserID i) (in_Type i) db
            | None => None
            end.
Proof.
  unfold create_checks. intros Hc.
  destruct (mem (in_Type i) [TypeMovie; TypeShow]) eqn:Et; [|done]. cbn [negb] in Hc.
  destruct (Z.leb_spec (in_TMDBID i) 0) as [|Hpos]; [done|].
  destruct (ce_tmdb e); [|done]. cbn [negb] in Hc.
  destruct (maxRequestSeasons <? _); [done|]. destruct (existsb _ (in_Seasons i)); [done|].
  set (i0 := i <| in_Seasons := _ |>) in Hc.
  destruct (match ce_perm e with Some p => _ | None => false end); [done|].
  destruct (ce_pending_ok e && _); [done|].
  destruct (checkDuplicate (ce_dup_ok e) i0 db) eqn:Ed; [done|].
  destruct (ce_snapshot e) as [[t y]|]; [|done].
  destruct (if String.eqb (in_Type i0) TypeShow && _ then _ else _); [done|].
  simplify_eq/=. apply mem_spec in Et. split; [|done].
  apply elem_of_cons in Et as [->|[->|Hx%not_elem_of_nil]%elem_of_cons]; [by left|by right|done].
Qed.

Lemma approve_stmt e i auto w : rtc (stmt_step (approving (ai_RequestID i))) (w_db w) (w_db (approve e i auto w).1).
Proof.
  unfold approve. destruct (negb (ae_get_ok e)); [apply rtc_refl|].
  destruct (w_db w !! ai_RequestID i) as [req|]; [|apply rtc_refl].
  destruct (negb (has_status StatusPending req)); [apply rtc_refl|].
  destruct (resolveArrService e req (ai_ServiceID i)) as [svc|]; [|apply rtc_refl].
  destruct (ae_dispatch e req svc) as [n|]; [|apply rtc_refl].
  destruct (ae_approve_ok e); [|apply rtc_refl]. cbn [negb fst].
  set (db1 := (ApproveMediaRequest _ _ _ _ _).1).
  set (db2 := if (0 <? n) && ae_link_ok e then _ else _).
  assert (rtc (stmt_step (approving (ai_RequestID i))) (w_db w) db1) as H1 by (apply (issue _ (SApprove _ _ _ _)); done).
  assert (rtc (stmt_step (approving (ai_RequestID i))) db1 db2) as H2.
  { unfold db2. destruct ((0 <? n) && ae_link_ok e); [by apply (issue _ (SLink _ _))|apply rtc_refl]. }
  etrans; [exact H1|]. etrans; [exact H2|]. simpl.
  destruct (ae_mark_ok e); [by apply (issue _ (SStart _))|apply rtc_refl].
Qed.

Lemma created_notices_db e i t y o w : w_db (created_notices e i t y o w) = w_db w.
Proof. done. Qed.

(** A creation leaves the table as it was, or it made its checks, inserted
    the row, and possibly approved it. *)
Lemma Create_cases e i w :
  w_db (Create e i w).1 = w_db w
  ∨ ∃ i' title year quota db1,
      create_checks e i (w_db w) = inl (i', title, year, quota)
      ∧ CreateMediaRequest e (new_request e i' title) i' (w_db w) = inl db1
      ∧ rtc (stmt_step (approving (ce_new_id e))) db1 (w_db (Create e i w).1).
Proof.
  unfold Create.
  destruct (create_checks e i (w_db w)) as [[[[i' title] year] quota]|] eqn:Ec; [|by left].
  destruct (CreateMediaRequest e (new_request e i' title) i' (w_db w)) as [db1|] eqn:Ei; [|by left].
  right. exists i', title, year, quota, db1. split; [done|]. split; [done|].
  set (w1 := w <| w_db := db1 |>).
  destruct (ce_perm e) as [p|] eqn:Ep; [|apply rtc_refl].
  destruct quota as [[]|]; [apply rtc_refl| |apply rtc_refl].
  destruct (autoApproveEligible p i'); [|apply rtc_refl].
  pose proof (approve_stmt (ce_approve e) (mkApproveInput (ce_new_id e) "" None) true w1) as Ha.
  by destruct (approve _ _ _ w1) as [w' [a|]].
Qed.

Lemma Decline_op_stmt ok gok id a reason w :
  rtc (stmt_step (eq (SDecline id (Some a)))) (w_db w) (w_db (Decline ok gok id a reason w).1).
Proof.
  unfold Decline. destruct ok; [|apply rtc_refl]. cbn [negb].
  pose proof (issue (eq (SDecline id (Some a))) (SDecline id (Some a)) (w_db w) eq_refl) as Hs. unfold run_statement in Hs.
  destruct (DeclineMediaRequest id (Some a) (w_db w)) as [db n].
  destruct (db !! id); [|apply rtc_refl]. destruct (n =? 0); [apply rtc_refl|exact Hs].
Qed.

Lemma Cancel_op_stmt gok ok id u w : rtc (stmt_step (eq (SCancel id u))) (w_db w) (w_db (Cancel gok ok id u w).1).
Proof.
  unfold Cancel. destruct (negb gok); [apply rtc_refl|]. destruct (w_db w !! id); [|apply rtc_refl].
  destruct (negb (String.eqb _ _)); [apply rtc_refl|]. destruct (negb (has_status _ _)); [apply rtc_refl|].
  destruct ok; [by apply (issue _ (SCancel id u))|apply rtc_refl].
Qed.

Lemma markAvailable_stmt ok id r item w : rtc (stmt_step fulfilling) (w_db w) (w_db (markAvailable ok id r item w).1).
Proof. unfold markAvailable. destruct ok; [by apply (issue _ (SAvailable id item))|apply rtc_refl]. Qed.

Lemma record_seasons_stmt sok id r all newly w :
  rtc (stmt_step fulfilling) (w_db w) (w_db (record_seasons sok id r all newly w)).
Proof.
  revert w. induction newly as [|n newly IH]; intros w; [apply rtc_refl|]. cbn [record_seasons].
  etrans; [|apply IH]. destruct (sok n); [|apply rtc_refl].
  pose proof (issue fulfilling (SSeason id n) (w_db w) I) as Hs. unfold run_statement in Hs.
  destruct (MarkMediaRequestSeasonAvailable id n (w_db w)) as [db rows].
  by destruct ((rows =? 1) && negb all).
Qed.

Lemma applySeasonProgress_stmt ok sok id r item p w :
  rtc (stmt_step fulfilling) (w_db w) (w_db (applySeasonProgress ok sok id r item p w).1).
Proof.
  unfold applySeasonProgress. destruct (sp_covered p) as [|n l]; [apply rtc_refl|].
  destruct (negb _); [apply record_seasons_stmt|].
  etrans; [apply record_seasons_stmt|apply markAvailable_stmt].
Qed.

Lemma settle_shows_stmt ok sok ev items reqs w :
  rtc (stmt_step fulfilling) (w_db w) (w_db (settle_shows ok sok ev items reqs w).1).
Proof.
  revert w. induction reqs as [|[id r] reqs IH]; intros w; [apply rtc_refl|]. cbn [settle_shows].
  destruct (items (rq_TmdbID r)) as [item|].
  - destruct (progress ev r) as [p|].
    + pose proof (applySeasonProgress_stmt ok sok id r item p w) as Ha.
      destruct (applySeasonProgress _ _ _ _ _ _ _) as [w1 d]. specialize (IH w1).
      destruct (settle_shows _ _ _ _ _ _) as [w2 n]. simpl in *. by etrans.
    + specialize (IH w). by destruct (settle_shows _ _ _ _ _ _) as [w2 n].
  - specialize (IH w). by destruct (settle_shows _ _ _ _ _ _) as [w2 n].
Qed.

Lemma settleShowRequests_stmt ok sok ev n items reqs w :
  rtc (stmt_step fulfilling) (w_db w) (w_db (settleShowRequests ok sok ev n items reqs w).1).
Proof.
  unfold settleShowRequests. destruct reqs; [apply rtc_refl|]. destruct ev; [|apply rtc_refl].
  apply settle_shows_stmt.
Qed.

Lemma settle_movies_stmt ok items reqs w :
  rtc (stmt_step fulfilling) (w_db w) (w_db (settle_movies ok items reqs w).1).
Proof.
  revert w. induction reqs as [|[id r] reqs IH]; intros w; [apply rtc_refl|]. cbn [settle_movies].
  destruct (items (rq_TmdbID r)) as [item|].
  - pose proof (markAvailable_stmt ok id r item w) as Ha.
    destruct (markAvailable _ _ _ _ _) as [w1 d]. specialize (IH w1).
    destruct (settle_movies _ _ _ _) as [w2 n]. simpl in *. by etrans.
  - specialize (IH w). by destruct (settle_movies _ _ _ _) as [w2 n].
Qed.

Lemma Reconcile_stmt lok ok sok ev b items w :
  rtc (stmt_step fulfilling) (w_db w) (w_db (ReconcileFulfillments lok ok sok ev b items w).1).
Proof.
  unfold ReconcileFulfillments. set (ms := List.filter _ _). set (ss := List.filter _ _).
  pose proof (settle_movies_stmt ok (items TypeMovie) ms w) as Hm.
  destruct (settle_movies _ _ ms w) as [w1 n].
  pose proof (settleShowRequests_stmt ok sok ev b (items TypeShow) ss w1) as Hs.
  destruct (settleShowRequests _ _ _ _ _ ss w1) as [w2 m]. simpl in *. by etrans.
Qed.

Lemma MarkFulfilled_stmt ok sok ev b ty tmdb item w :
  rtc (stmt_step fulfilling) (w_db w) (w_db (MarkFulfilled ok sok ev b ty tmdb item w).1).
Proof.
  unfold MarkFulfilled. destruct (String.eqb ty TypeShow);
    [apply settleShowRequests_stmt|apply settle_movies_stmt].
Qed.

Lemma notifyDownloadFailed_db e r reason w : w_db (notifyDownloadFailed e r reason w) = w_db w.
Proof.
  unfold notifyDownloadFailed. destruct (ap_perm e) as [p|]; [|done]. by destruct (p_IsAdmin p).
Qed.

Lemma write_back_stmt e id r failed w res :
  rtc (stmt_step syncing) (w_db w) (w_db (write_back e id r failed w res).1).
Proof.
  unfold write_back. destruct (ap_update_ok e); [|apply rtc_refl]. cbn [negb].
  assert (rtc (stmt_step syncing) (w_db w) (UpdateMediaRequestDownload id (w_db w)).1) as Hu.
  { exact (issue syncing (SProgress id) (w_db w) I). }
  destruct (UpdateMediaRequestDownload id (w_db w)) as [db n]. simpl in Hu.
  destruct (has_status StatusApproved r && negb failed && ap_mark_ok e); [|exact Hu].
  etrans; [exact Hu|]. exact (issue syncing (SStart id) db I).
Qed.

Lemma applyDownloadStatus_stmt e id r st w res :
  rtc (stmt_step syncing) (w_db w) (w_db (applyDownloadStatus e id r st w res).1).
Proof.
  unfold applyDownloadStatus. destruct (is_failed (ds_State st) && negb (has_status StatusFailed r)).
  - destruct (ap_fail_ok e); [|apply rtc_refl]. cbn [negb].
    pose proof (issue syncing (SFail id) (w_db w) I) as Hf. unfold run_statement in Hf.
    destruct (FailMediaRequestDownload id (w_db w)) as [db n].
    destruct (n =? 1); [|exact Hf]. cbn [fst]. by rewrite notifyDownloadFailed_db.
  - destruct (has_status StatusFailed r && negb (is_failed (ds_State st)) && ds_Recovers st);
      [|apply write_back_stmt].
    destruct (ap_recover_ok e); [|apply rtc_refl]. cbn [negb].
    pose proof (issue syncing (SRecover id) (w_db w) I) as Hf. unfold run_statement in Hf.
    destruct (RecoverMediaRequestDownload id (w_db w)) as [db n].
    destruct (n =? 1); [exact Hf|]. etrans; [exact Hf|].
    exact (write_back_stmt e id r true (w <| w_db := db |>) res).
Qed.

(** ** The download sync *)
Lemma spend_world p p' : spend p = Some p' → ps_w p' = ps_w p.
Proof. unfold spend. destruct (ps_budget p <=? 0); [done|]. by intros [= <-]. Qed.

Lemma relink_stmt i id n p : rtc (stmt_step syncing) (w_db (ps_w p)) (w_db (ps_w (relink i id n p))).
Proof. unfold relink. destruct (i_link_ok i); [exact (issue syncing (SLink _ _) _ I)|apply rtc_refl]. Qed.

Lemma resolve_item_stmt i id r p :
  rtc (stmt_step syncing) (w_db (ps_w p)) (w_db (ps_w (resolve_item i id r p).1)).
Proof.
  unfold resolve_item. destruct (spend p) as [p'|] eqn:Es; [|apply rtc_refl].
  rewrite <- (spend_world _ _ Es).
  destruct (if String.eqb _ _ then _ else _); [apply relink_stmt|apply rtc_refl|apply rtc_refl].
Qed.

Lemma linkedItem_stmt i id r p :
  rtc (stmt_step syncing) (w_db (ps_w p)) (w_db (ps_w (linkedItem i id r p).1)).
Proof.
  unfold linkedItem. destruct (rq_ArrItemID r) as [n|]; [|apply resolve_item_stmt].
  destruct (0 <? n); [apply rtc_refl|apply resolve_item_stmt].
Qed.

Lemma history_world i r item p : ps_w (history i r item p).1 = ps_w p.
Proof.
  unfold history. destruct (spend p) as [p'|] eqn:Es; [|done]. rewrite <- (spend_world _ _ Es).
  by destruct (if String.eqb _ _ then _ else _).
Qed.

Lemma season_histories_world i item seasons out p :
  ps_w (season_histories i item seasons out p).1 = ps_w p.
Proof.
  revert out p. induction seasons as [|n seasons IH]; intros out p; [done|]. cbn [season_histories].
  destruct (spend p) as [p'|] eqn:Es; [|done]. rewrite <- (spend_world _ _ Es).
  destruct (i_season_history i item n); [apply IH|apply IH|done].
Qed.

Lemma seasonHistory_world i r item seasons p : ps_w (seasonHistory i r item seasons p).1 = ps_w p.
Proof.
  unfold seasonHistory. destruct (_ || _); [apply history_world|apply season_histories_world].
Qed.

Lemma movie_status_stmt i id r item fq p :
  rtc (stmt_step syncing) (w_db (ps_w p)) (w_db (ps_w (movie_status i id r item fq p).1)).
Proof.
  unfold movie_status. destruct (spend p) as [p'|] eqn:Es; [|apply rtc_refl].
  rewrite <- (spend_world _ _ Es).
  destruct (i_movie i item) as [m| |]; [|apply relink_stmt|apply rtc_refl].
  destruct (mv_HasFile m); [apply rtc_refl|]. pose proof (history_world i r item p') as Hh.
  destruct (history i r item p') as [p2 [hist|]]; cbn [fst] in *; rewrite Hh; apply rtc_refl.
Qed.

Lemma series_status_stmt i id r item seasons fq p :
  rtc (stmt_step syncing) (w_db (ps_w p)) (w_db (ps_w (series_status i id r item seasons fq p).1)).
Proof.
  unfold series_status. destruct (spend p) as [p'|] eqn:Es; [|apply rtc_refl].
  rewrite <- (spend_world _ _ Es).
  destruct (i_series i item) as [s| |]; [|apply relink_stmt|apply rtc_refl].
  case_bool_decide; [apply rtc_refl|]. pose proof (seasonHistory_world i r item seasons p') as Hh.
  destruct (seasonHistory i r item seasons p') as [p2 [hist|]]; cbn [fst] in *; rewrite Hh; apply rtc_refl.
Qed.

Lemma request_status_stmt i id r p :
  rtc (stmt_step syncing) (w_db (ps_w p)) (w_db (ps_w (request_status i id r p).1)).
Proof.
  unfold request_status. pose proof (linkedItem_stmt i id r p) as Hl.
  destruct (linkedItem i id r p) as [p' [item|]]; [|exact Hl]. cbn [fst] in Hl.
  destruct (item =? 0); [exact Hl|]. destruct (_ && _); [exact Hl|].
  etrans; [exact Hl|]. destruct (String.eqb _ _); [apply movie_status_stmt|apply series_status_stmt].
Qed.

Lemma sync_requests_stmt i ty alive wb reqs p res :
  rtc (stmt_step syncing) (w_db (ps_w p)) (w_db (ps_w (sync_requests i ty alive wb reqs p res).1)).
Proof.
  revert p res. induction reqs as [|[id r] reqs IH]; intros p res; [apply rtc_refl|].
  cbn [sync_requests]. destruct (negb (String.eqb (rq_Type r) ty)); [apply IH|].
  destruct (negb (alive id)); [apply IH|]. pose proof (request_status_stmt i id r p) as Hr.
  destruct (request_status i id r p) as [p1 [st|]]; cbn [fst] in Hr.
  - pose proof (applyDownloadStatus_stmt (wb id) id r st (ps_w p1) res) as Ha.
    destruct (applyDownloadStatus (wb id) id r st (ps_w p1) res) as [w2 res2]. cbn [fst] in Ha.
    etrans; [exact Hr|]. etrans; [exact Ha|]. exact (IH (p1 <| ps_w := w2 |>) res2).
  - etrans; [exact Hr|]. apply IH.
Qed.

Lemma syncService_stmt svc reach alive wb reqs w res :
  rtc (stmt_step syncing) (w_db w) (w_db (syncService svc reach alive wb reqs w res).1.1).
Proof.
  unfold syncService. destruct (negb _); [apply rtc_refl|]. destruct reach as [i|]; [|apply rtc_refl].
  set (i' := i <| i_kind := as_Kind svc |>). set (ty := if String.eqb _ _ then _ else _).
  pose proof (sync_requests_stmt i' ty alive wb reqs (mkPass syncLookupBudget w) res) as Hs.
  by destruct (sync_requests _ _ _ _ _ _ _) as [p res'].
Qed.

Lemma sync_services_stmt e rows order w res :
  rtc (stmt_step syncing) (w_db w) (w_db (sync_services e rows order w res).1).
Proof.
  revert w res. induction order as [|id order IH]; intros w res; [apply rtc_refl|].
  cbn [sync_services]. destruct (negb (sn_service_alive e id)); [apply IH|].
  destruct (sn_service e id) as [svc|]; [|apply IH]. destruct (negb (as_Enabled svc)); [apply IH|].
  set (reqs := List.filter _ rows). set (res1 := res <| sy_Services ::= Z.succ |>).
  pose proof (syncService_stmt svc (sn_reach e id) (sn_alive e) (sn_write e) reqs w res1) as Hs.
  destruct (syncService _ _ _ _ _ _ _) as [[w1 res2] failed]. cbn [fst] in Hs.
  etrans; [exact Hs|apply IH].
Qed.

Lemma SyncDownloads_stmt e f w : rtc (stmt_step syncing) (w_db w) (w_db (SyncDownloads e f w).1).
Proof.
  unfold SyncDownloads. destruct (negb (sn_list_ok e)); [apply rtc_refl|].
  set (rows := List.filter _ _). set (res := mkSyncResult _ _ _ _ _ _ _).
  pose proof (sync_services_stmt e rows (service_order [] rows) w res) as Hs.
  by destruct (sync_services _ _ _ _ _) as [w1 res1].
Qed.

(** * The service's operations

    Any operation, whatever its environment answers. *)
Inductive operation :=
  | OCreate (e : create_env) (i : CreateInput)
  | OApprove (e : approve_env) (i : ApproveInput)
  | ODecline (db_ok get_ok : bool) (id admin reason : string)
  | OCancel (get_ok db_ok : bool) (id user : string)
  | ODelete (db_ok : bool) (id : string)
  | OReconcile (list_ok : status → bool) (ok : bool) (season_ok : Z → bool) (ev : option evaluator)
      (budget : nat) (items : string → Z → option string)
  | OFulfil (ok : bool) (season_ok : Z → bool) (ev : option evaluator) (budget : nat)
      (mediaType : string) (tmdb : Z) (item : string)
  | OSync (e : sync_env) (f : SyncFilter).

Definition perform (o : operation) (w : world) : world :=
  match o with
  | OCreate e i => (Create e i w).1
  | OApprove e i => (Approve e i w).1
  | ODecline ok gok id admin reason => (Decline ok gok id admin reason w).1
  | OCancel gok ok id user => (Cancel gok ok id user w).1
  | ODelete ok id => (Delete ok id w).1
  | OReconcile lok ok sok ev b items => (ReconcileFulfillments lok ok sok ev b items w).1
  | OFulfil ok sok ev b ty tmdb item => (MarkFulfilled ok sok ev b ty tmdb item w).1
  | OSync e f => (SyncDownloads e f w).1
  end.

(** Title ids are 32-bit, as TMDB's are, and a new row's id is fresh. *)
Definition admissible (o : operation) (w : world) : Prop :=
  match o with
  | OCreate e i => in_TMDBID i ≤ int32_max ∧ w_db w !! ce_new_id e = None
  | _ => True
  end.

(** The UPDATE statements an operation issues. *)
Definition issues (o : operation) (s : statement) : Prop :=
  match o with
  | OCreate e _ => approving (ce_new_id e) s
  | OApprove _ i => approving (ai_RequestID i) s
  | ODecline _ _ id a _ => SDecline id (Some a) = s
  | OCancel _ _ id u => SCancel id u = s
  | ODelete _ _ => False
  | OReconcile _ _ _ _ _ _ | OFulfil _ _ _ _ _ _ _ => fulfilling s
  | OSync _ _ => syncing s
  end.

Definition inserted (o : operation) (db db1 : DB) : Prop :=
  ∃ e i i' title year quota, o = OCreate e i
    ∧ create_checks e i db = inl (i', title, year, quota)
    ∧ CreateMediaRequest e (new_request e i' title) i' db = inl db1.

(** An operation is its statements; a deletion deletes; a creation may insert
    first. *)
Lemma perform_cases (o : operation) (w : world) :
  rtc (stmt_step (issues o)) (w_db w) (w_db (perform o w))
  ∨ (∃ id, o = ODelete true id ∧ w_db (perform o w) = delete id (w_db w))
  ∨ ∃ db1, inserted o (w_db w) db1 ∧ rtc (stmt_step (issues o)) db1 (w_db (perform o w)).
Proof.
  destruct o as [e i|e i|ok gok id a r|gok ok id u|ok id|lok ok sok ev b items|ok sok ev b ty tm it|e f];
    cbn [perform issues].
  - destruct (Create_cases e i w) as [E|(i' & t & y & q & db1 & Hc & Hi & Hs)].
    + left. rewrite E. apply rtc_refl.
    + right. right. exists db1. split; [|exact Hs]. by exists e, i, i', t, y, q.
  - left. apply approve_stmt.
  - left. apply Decline_op_stmt.
  - left. apply Cancel_op_stmt.
  - unfold Delete. destruct ok; [|left; apply rtc_refl]. right. left. by exists id.
  - left. apply Reconcile_stmt.
  - left. apply MarkFulfilled_stmt.
  - left. apply SyncDownloads_stmt.
Qed.

(** ** Tables without clashing rows *)
Definition wish (r : MediaRequest) : string * string * Z := (rq_UserID r, rq_Type r, rq_TmdbID r).

(** Two active rows the unique indexes keep apart. *)
Definition twin (a b : MediaRequest) : Prop :=
  wish a = wish b ∧ is_active (rq_Status a) = true ∧ is_active (rq_Status b) = true
  ∧ (rq_Type a = TypeShow → rq_Seasons a = rq_Seasons b).

(** A clash is symmetric, between active rows of one title, no coarser than
    [conflict], and decided by what [same_identity] keeps. *)
Class Clash (C : MediaRequest → MediaRequest → Prop) := {
  clash_sym a b : C a b → C b a;
  clash_conflict a b : C a b → conflict a b;
  clash_update r r' o : same_identity r r' →
    (is_active (rq_Status r') = true → is_active (rq_Status r) = true) → C r' o → C r o }.

Definition clash_free (C : MediaRequest → MediaRequest → Prop) (db : DB) : Prop :=
  (∀ id r, db !! id = Some r → known_type r)
  ∧ ∀ id id' r r', db !! id = Some r → db !! id' = Some r' → id ≠ id' → ¬ C r r'.
Abbreviation well_formed := (clash_free conflict).

Lemma conflict_wish a b : conflict a b → wish a = wish b.
Proof. intros (Hu & Ht & Hm & _). unfold wish. congruence. Qed.

#[global] Instance conflict_clash : Clash conflict.
Proof.
  split; [|done|].
  - intros a b (Hu & Ht & Hm & Ha & Hb & Ho). repeat split; try done.
    intros Hs. rewrite SeasonsOverlap_spec. rewrite <- Ht in Hs.
    apply Ho, SeasonsOverlap_spec in Hs as (n & ? & ?). by exists n.
  - intros r r' o (Hu & Ht & Hm & Hs & _) Hact (Cu & Ct & Cm & Ca & Cb & Co).
    assert (RequestSeasons r' = RequestSeasons r) as Hrs by (unfold RequestSeasons; by rewrite Ht, Hs).
    split; [congruence|]. split; [congruence|]. split; [congruence|]. split; [by apply Hact|].
    split; [done|]. intros Hshow. rewrite <- Hrs. apply Co. congruence.
Qed.

Lemma SeasonsOverlap_refl (l : list Z) : SeasonsOverlap l l = true.
Proof.
  apply SeasonsOverlap_spec. destruct l as [|n l]; [by exists 1|].
  exists n. split; cbn; left.
Qed.

#[global] Instance twin_clash : Clash twin.
Proof.
  split.
  - intros a b (Hw & Ha & Hb & Hs). repeat split; try done. intros Ht. symmetry. apply Hs.
    unfold wish in Hw. congruence.
  - intros a b (Hw & Ha & Hb & Hs). unfold wish in Hw. injection Hw as Hu Ht Hm.
    repeat split; try done. intros Hshow. unfold RequestSeasons. rewrite (Hs Hshow), Ht.
    apply SeasonsOverlap_refl.
  - intros r r' o (Hu & Ht & Hm & Hs & _) Hact (Hw & Ha & Hb & Heq). unfold wish in *.
    repeat split; [unfold wish; congruence|by apply Hact|done|]. intros Hshow. rewrite <- Hs. apply Heq. congruence.
Qed.

Lemma well_formed_twin db : well_formed db → clash_free twin db.
Proof.
  intros [Hk Hc]. split; [done|]. intros id id' r r' Hr Hr' Hne Ht.
  apply (Hc id id' r r' Hr Hr' Hne). by apply (clash_conflict (C := twin)).
Qed.

Lemma active_move s s' : move s s' → s ≠ StatusFailed → is_active s' = true → is_active s = true.
Proof. by destruct 1. Qed.

(** The recovery guard rules out every conflict of the recovered row. *)
Lemma recover_no_conflict id r r' db o id' :
  known_type r → same_identity r r' → superseding id r db = false →
  db !! id' = Some o → id' ≠ id → known_type o → ¬ conflict r' o.
Proof.
  intros Hk (Hu & Ht & Hm & Hs & _) Hsup Ho Hne Hko (Cu & Ct & Cm & _ & Cb & Co).
  apply not_true_iff_false in Hsup. apply Hsup. apply existsb_exists_elem. exists (id', o).
  split; [by apply elem_of_map_to_list|]. cbn [fst snd].
  assert (same_title (rq_UserID r) (rq_Type r) (rq_TmdbID r) o = true) as ->.
  { apply same_title_spec. split; [congruence|split; congruence]. }
  rewrite (proj2 (String.eqb_neq _ _) Hne), Cb. cbn [negb andb].
  destruct Hko as [Hmov|Hshow]; [by rewrite Hmov|].
  assert (rq_Type r = TypeShow) as Hrs by congruence.
  rewrite Hshow. change (String.eqb TypeShow TypeMovie) with false. cbn [orb].
  apply overlap_recover; [done|done|]. specialize (Co ltac:(congruence)).
  unfold RequestSeasons in *. rewrite Ht, Hs in Co. exact Co.
Qed.

Section ClashFree.
Context (C : MediaRequest → MediaRequest → Prop) `{!Clash C}.

(** Replacing one row by one that clashes with no other row. *)
Lemma clash_free_insert db id r :
  clash_free C db → known_type r →
  (∀ id' o, db !! id' = Some o → id' ≠ id → ¬ C r o) → clash_free C (<[id := r]> db).
Proof.
  intros [Hk Hc] Hr Hno. split.
  - intros id' o [[_ <-]|[_ Ho]]%lookup_insert_Some; [done|by eapply Hk].
  - intros a b ra rb [[<- <-]|[Ha Hra]]%lookup_insert_Some [[<- <-]|[Hb Hrb]]%lookup_insert_Some Hab.
    + done.
    + by eapply Hno.
    + intros Hcf%clash_sym. revert Hcf. by eapply Hno.
    + by eapply Hc.
Qed.

Lemma clash_free_delete db id : clash_free C db → clash_free C (delete id db).
Proof.
  intros [Hk Hc]. split.
  - intros id' r [_ Hr]%lookup_delete_Some. by eapply Hk.
  - intros a b ra rb [_ Ha]%lookup_delete_Some [_ Hb]%lookup_delete_Some. by eapply Hc.
Qed.

Lemma row_clash_free db db' : row_step db db' → clash_free C db → clash_free C db'.
Proof.
  intros Hs [Hk Hc]. destruct Hs as [id r r' Hr Hi Hst|id r Hn Hp Ht Hno|id r r' Hr Hi Hf Hd Hsup].
  - apply clash_free_insert; [by split| |].
    + destruct Hi as (_ & Ht & _). unfold known_type. rewrite Ht. by eapply Hk.
    + intros id' o Ho Hne Hcf. apply (Hc id id' r o Hr Ho ltac:(congruence)).
      eapply clash_update; [exact Hi| |exact Hcf].
      destruct Hst as [->|[[Hm Hnf]|[-> _]]]; [done|by apply active_move|done].
  - apply clash_free_insert; [by split|done|]. intros id' o Ho _ Hcf%clash_sym%clash_conflict.
    by eapply Hno.
  - apply clash_free_insert; [by split| |].
    + destruct Hi as (_ & Ht & _). unfold known_type. rewrite Ht. by eapply Hk.
    + intros id' o Ho Hne Hcf%clash_conflict. revert Hcf.
      apply (recover_no_conflict id r r' db o id' (Hk id r Hr) Hi Hsup Ho Hne (Hk id' o Ho)).
Qed.

Lemma statement_clash_free s db : clash_free C db → clash_free C (run_statement s db).
Proof.
  pose proof (statement_row_steps s db) as Hs. revert Hs.
  generalize (run_statement s db). induction 1; [done|]. eauto using row_clash_free.
Qed.
End ClashFree.

(** ** The life cycle of a row *)

(** The status an operation may give a row of [user] under [id]. *)
Definition admits (st st' : status) : Prop :=
  st = StatusPending ∧ st' = StatusApproved ∨ st = StatusApproved ∧ st' = StatusDownloading.
Definition may (o : operation) (id user : string) (st st' : status) : Prop :=
  match o with
  | OCreate e _ => id = ce_new_id e ∧ admits st st'
  | OApprove _ i => id = ai_RequestID i ∧ admits st st'
  | ODecline _ _ id0 _ _ => id = id0 ∧ st = StatusPending ∧ st' = StatusDeclined
  | OCancel _ _ id0 u => id = id0 ∧ user = u ∧ st = StatusPending ∧ st' = StatusDeclined
  | ODelete _ _ => False
  | OReconcile _ _ _ _ _ _ | OFulfil _ _ _ _ _ _ _ => in_flight st = true ∧ st' = StatusAvailable
  | OSync _ _ =>
      st = StatusApproved ∧ st' = StatusDownloading
      ∨ (st = StatusApproved ∨ st = StatusDownloading) ∧ st' = StatusFailed
      ∨ st = StatusFailed ∧ st' = StatusDownloading
  end.

Lemma issues_may o s id user st st' :
  issues o s → statement_moves s id user st st' → may o id user st st'.
Proof. destruct o, s; cbn; unfold admits; intuition (subst; try done; simplify_eq; auto). Qed.

(** A final status is left by no operation. *)
Lemma may_not_final o id user st st' :
  may o id user st st' → st ≠ StatusDeclined ∧ st ≠ StatusAvailable.
Proof. destruct o; cbn; unfold admits; intros Hm; split; intros ->; intuition done. Qed.

Definition evolves (o : operation) (db db' : DB) : Prop :=
  ∀ id r, db !! id = Some r →
    ∃ r', db' !! id = Some r' ∧ same_identity r r'
      ∧ rtc (may o id (rq_UserID r)) (rq_Status r) (rq_Status r').

Lemma evolves_refl o db : evolves o db db.
Proof. intros id r Hr. exists r. split; [done|]. split; [done|apply rtc_refl]. Qed.

Lemma stmt_evolves o s db : issues o s → evolves o db (run_statement s db).
Proof.
  intros Ho. destruct (run_statement_cases s db) as [->|(id & r & r' & Hr & -> & Hi & Hm & _)];
    [apply evolves_refl|].
  intros id0 r0 Hr0. destruct (decide (id = id0)) as [->|Hne].
  - rewrite lookup_insert_eq. exists r'. simplify_eq. split; [done|]. split; [done|].
    destruct Hm as [->|Hm]; [apply rtc_refl|]. apply rtc_once. by eapply issues_may.
  - exists r0. rewrite lookup_insert_ne by done. split; [done|]. split; [done|apply rtc_refl].
Qed.

Lemma stmts_evolve o db db' : rtc (stmt_step (issues o)) db db' → evolves o db db'.
Proof.
  induction 1 as [db|db1 db2 db3 (s & Hs & ->) _ IH]; [apply evolves_refl|]. intros id r Hr.
  destruct (stmt_evolves o s db1 Hs id r Hr) as (r2 & Hr2 & Hi2 & Hm2).
  destruct (IH id r2 Hr2) as (r3 & Hr3 & Hi3 & Hm3). exists r3. split; [done|].
  split; [by etrans|]. etrans; [exact Hm2|]. by destruct Hi2 as [<- _].
Qed.

(** No statement makes a row. *)
Lemma stmts_no_new (P : statement → Prop) db db' id :
  rtc (stmt_step P) db db' → db !! id = None → db' !! id = None.
Proof.
  induction 1 as [|db1 db2 db3 (s & _ & ->) _ IH]; [done|]. intros Hn. apply IH.
  destruct (run_statement_cases s db1) as [->|(id' & r & r' & Hr & -> & _)]; [done|].
  rewrite lookup_insert_ne; [done|]. congruence.
Qed.
