(* ===== verification/RequestsSpec.v ===== *)
(** The properties of the request workflow.

    [flow_step] interleaves everything at the statements: any number of
    creations between their duplicate check and their insert, and any other
    operation's statements in any order.  A whole operation running alone is
    such a run ([perform_flow]). *)
From S2P Require Import Prelude.
From S2P Require Import GoStrings.
From S2P Require Import Requests.
From S2P Require Import Downloads.
From S2P Require Import DownloadSync.
From S2P Require Import RequestsProps.

Local Open Scope Z_scope.

(** * Operations interleaved at their statements *)

(** A creation that has made its checks and not inserted its row. *)
Record creation := mkCreation { cn_env : create_env; cn_in : CreateInput; cn_title : string }.
Definition cn_row (c : creation) : MediaRequest := new_request (cn_env c) (cn_in c) (cn_title c).

Record flow := mkFlow { fl_db : DB; fl_creating : list creation }.
Definition wishes (cs : list creation) : list (string * string * Z) := (λ c, wish (cn_row c)) <$> cs.

(** [alone]: between a creation's check and its insert, no other creation of
    the user for the title makes its check, and no failed request of theirs for
    it is recovered.  The other reads of a creation's checks may have seen any
    earlier table [db0]. *)
Inductive flow_step (alone : bool) : flow → flow → Prop :=
  | fl_check e i i' title year quota db0 db cs :
      in_TMDBID i ≤ int32_max → create_checks e i db0 = inl (i', title, year, quota) →
      checkDuplicate (ce_dup_ok e) i' db = None →
      (alone = true → wish (new_request e i' title) ∉ wishes cs) →
      flow_step alone (mkFlow db cs) (mkFlow db (mkCreation e i' title :: cs))
  | fl_insert c db db' cs1 cs2 :
      db !! ce_new_id (cn_env c) = None →
      CreateMediaRequest (cn_env c) (cn_row c) (cn_in c) db = inl db' →
      flow_step alone (mkFlow db (cs1 ++ c :: cs2)) (mkFlow db' (cs1 ++ cs2))
  | fl_give_up c db cs1 cs2 :
      flow_step alone (mkFlow db (cs1 ++ c :: cs2)) (mkFlow db (cs1 ++ cs2))
  | fl_run s db cs :
      (alone = true → ∀ id r, s = SRecover id → db !! id = Some r → wish r ∉ wishes cs) →
      flow_step alone (mkFlow db cs) (mkFlow (run_statement s db) cs)
  | fl_delete id db cs : flow_step alone (mkFlow db cs) (mkFlow (delete id db) cs).

Lemma stmts_flow alone P db db' :
  rtc (stmt_step P) db db' → rtc (flow_step alone) (mkFlow db []) (mkFlow db' []).
Proof.
  induction 1 as [|db1 db2 db3 (s & _ & ->) _ IH]; [apply rtc_refl|].
  eapply rtc_l; [|exact IH]. apply fl_run. intros _ id r _ _. by intros ?%not_elem_of_nil.
Qed.

(** An operation running alone is such a run. *)
Lemma perform_flow alone o w :
  admissible o w → rtc (flow_step alone) (mkFlow (w_db w) []) (mkFlow (w_db (perform o w)) []).
Proof.
  intros Ha. destruct (perform_cases o w) as [Hs|[(id & _ & ->)|(db1 & Hi & Hs)]].
  - by eapply stmts_flow.
  - apply rtc_once, fl_delete.
  - destruct Hi as (e & i & i' & title & year & quota & -> & Hc & Hi). destruct Ha as [Hmax Hn].
    pose proof (create_checks_ok _ _ _ _ _ _ _ Hc) as (_ & _ & _ & _ & _ & _ & Hdup & _).
    eapply rtc_l.
    { eapply (fl_check alone e i i' title year quota (w_db w) (w_db w) []); try done.
      intros _. by intros ?%not_elem_of_nil. }
    eapply rtc_l; [|by eapply stmts_flow].
    by apply (fl_insert alone (mkCreation e i' title) (w_db w) db1 [] []).
Qed.

(** ** What every interleaving keeps *)
Lemma insert_cases e r i db db' :
  CreateMediaRequest e r i db = inl db' →
  unique_violation r db = false ∧ db' = <[ce_new_id e := r]> db.
Proof.
  unfold CreateMediaRequest. destruct (negb _); [done|]. destruct (unique_violation r db); [done|].
  by intros [= <-].
Qed.

(** The unique indexes keep twins apart. *)
Lemma no_twin r db :
  unique_violation r db = false → known_type r → ∀ id o, db !! id = Some o → ¬ twin r o.
Proof.
  intros Hv Hk id o Ho (Hw & Ha & Hb & Hs). apply not_true_iff_false in Hv. apply Hv.
  unfold unique_violation. apply existsb_exists_elem. exists (id, o).
  split; [by apply elem_of_map_to_list|]. cbn [snd]. unfold wish in Hw. injection Hw as Hu Ht Hm.
  rewrite Ha, Hb. cbn [andb].
  assert (same_title (rq_UserID r) (rq_Type r) (rq_TmdbID r) o = true) as ->.
  { by apply same_title_spec. }
  cbn [andb]. destruct Hk as [Hmov|Hshow].
  - rewrite <- Ht, Hmov. done.
  - rewrite <- (Hs Hshow), <- Ht, Hshow. cbn. destruct (decide (rq_Seasons r = [])) as [->|Hne]; [done|].
    rewrite !(bool_decide_eq_false_2 (rq_Seasons r = [])) by done. by rewrite bool_decide_eq_true_2.
Qed.

(** A creation under way: its row is a new one, and with [alone] no active
    request conflicts with it. *)
Definition under_way (alone : bool) (db : DB) (c : creation) : Prop :=
  known_type (cn_row c)
  ∧ (alone = true → ∀ id r, db !! id = Some r → ¬ conflict r (cn_row c)).

Record flow_ok (alone : bool) (f : flow) : Prop := {
  ok_twins : clash_free twin (fl_db f);
  ok_creating : ∀ c, c ∈ fl_creating f → under_way alone (fl_db f) c;
  ok_alone : alone = true → well_formed (fl_db f) ∧ NoDup (wishes (fl_creating f)) }.

Lemma check_under_way alone e i i' title year quota db0 db :
  in_TMDBID i ≤ int32_max → create_checks e i db0 = inl (i', title, year, quota) →
  checkDuplicate (ce_dup_ok e) i' db = None → under_way alone db (mkCreation e i' title).
Proof.
  intros Hmax Hc Hdup.
  destruct (create_checks_ok _ _ _ _ _ _ _ Hc) as (Hty & Hpos & Htm & _). split; [exact Hty|].
  intros _. apply (checkDuplicate_sound (ce_dup_ok e) i'); try done. by rewrite Htm in *.
Qed.

(** Only the recovery makes a request active. *)
Lemma active_before s id u st st' :
  statement_moves s id u st st' → is_active st' = true →
  is_active st = true ∨ s = SRecover id ∧ st = StatusFailed.
Proof. destruct s; cbn; intros Hm Ha; intuition (subst; try done; auto). Qed.

(** No statement makes a conflict with a creation under way, but the recovery
    of a request for the same title. *)
Lemma statement_under_way alone s db c cs :
  c ∈ cs → under_way alone db c →
  (alone = true → ∀ id r, s = SRecover id → db !! id = Some r → wish r ∉ wishes cs) →
  under_way alone (run_statement s db) c.
Proof.
  intros Hc [Hk Hno] Hrec. split; [exact Hk|]. intros Ha.
  destruct (run_statement_cases s db) as [->|(id & r & r' & Hr & -> & Hi & Hm & _)]; [by apply Hno|].
  intros id' o [[<- <-]|[_ Ho]]%lookup_insert_Some; [|by eapply Hno].
  intros Hcf. apply (Hno Ha id r Hr). eapply clash_update; [exact Hi| |exact Hcf].
  destruct Hm as [->|Hm]; [done|]. intros [|[-> _]]%(active_before _ _ _ _ _ Hm); [done|].
  exfalso. apply (Hrec Ha id r eq_refl Hr).
  assert (wish r = wish (cn_row c)) as ->.
  { apply conflict_wish in Hcf. destruct Hi as (Hu & Ht & Hid & _).
    unfold wish in *. congruence. }
  apply list_elem_of_fmap. by exists c.
Qed.

Lemma insert_ok alone c db db' cs1 cs2 :
  CreateMediaRequest (cn_env c) (cn_row c) (cn_in c) db = inl db' →
  flow_ok alone (mkFlow db (cs1 ++ c :: cs2)) → flow_ok alone (mkFlow db' (cs1 ++ cs2)).
Proof.
  intros [Hv ->]%insert_cases [Htw Hcs Hal]. cbn [fl_db fl_creating] in *.
  destruct (Hcs c) as [Hk Hno]; [set_solver|]. split; cbn [fl_db fl_creating].
  - apply clash_free_insert; [apply _|done|done|]. intros id o Ho _. by eapply no_twin.
  - intros c' Hc'. destruct (Hcs c') as [Hk' Hno']; [set_solver|]. split; [done|].
    intros Ha id r [[_ <-]|[_ Hr]]%lookup_insert_Some; [|by eapply Hno'].
    intros Hw%conflict_wish. destruct (Hal Ha) as [_ Hnd]. unfold wishes in Hnd.
    rewrite <- Permutation_middle in Hnd. apply NoDup_cons in Hnd as [Hn _]. apply Hn.
    rewrite Hw. apply list_elem_of_fmap. by exists c'.
  - intros Ha. destruct (Hal Ha) as [Hw Hnd]. split.
    + apply clash_free_insert; [apply _|done|done|]. intros id o Ho _ Hcf%clash_sym.
      by eapply Hno.
    + unfold wishes in *. rewrite <- Permutation_middle in Hnd. by apply NoDup_cons in Hnd as [_ ?].
Qed.

Lemma give_up_ok alone c db cs1 cs2 :
  flow_ok alone (mkFlow db (cs1 ++ c :: cs2)) → flow_ok alone (mkFlow db (cs1 ++ cs2)).
Proof.
  intros [Htw Hcs Hal]. cbn [fl_db fl_creating] in *. split; cbn [fl_db fl_creating]; [done| |].
  - intros c' Hc'. apply Hcs. set_solver.
  - intros Ha. destruct (Hal Ha) as [Hw Hnd]. split; [done|].
    unfold wishes in *. rewrite <- Permutation_middle in Hnd. by apply NoDup_cons in Hnd as [_ ?].
Qed.

Lemma flow_step_ok alone f f' : flow_step alone f f' → flow_ok alone f → flow_ok alone f'.
Proof.
  destruct 1 as [e i i' title year quota db0 db cs Hmax Hc Hdup Hw|c db db' cs1 cs2 _ Hi|c db cs1 cs2
                |s db cs Hrec|id db cs]; intros Hok.
  - destruct Hok as [Htw Hcs Hal]. cbn [fl_db fl_creating] in *. split; [done| |].
    + intros c [->|Hin]%elem_of_cons; [by eapply check_under_way|by apply Hcs].
    + intros Ha. destruct (Hal Ha) as [Hwf Hnd]. split; [done|]. constructor; [by apply Hw|done].
  - by eapply insert_ok.
  - by eapply give_up_ok.
  - destruct Hok as [Htw Hcs Hal]. cbn [fl_db fl_creating] in *.
    split; cbn [fl_db fl_creating].
    + by apply statement_clash_free; [apply _|].
    + intros c Hin. eapply statement_under_way; [exact Hin|by apply Hcs|exact Hrec].
    + intros Ha. destruct (Hal Ha). split; [by apply statement_clash_free; [apply _|]|done].
  - destruct Hok as [Htw Hcs Hal]. cbn [fl_db fl_creating] in *.
    split; cbn [fl_db fl_creating].
    + by apply clash_free_delete.
    + intros c Hin. destruct (Hcs c Hin) as [Hk Hno]. split; [done|].
      intros Ha id' r [_ Hr]%lookup_delete_Some. by eapply Hno.
    + intros Ha. destruct (Hal Ha). split; [by apply clash_free_delete|done].
Qed.

Lemma flow_run_ok alone f f' :
  well_formed (fl_db f) → fl_creating f = [] → rtc (flow_step alone) f f' → flow_ok alone f'.
Proof.
  intros Hw Hc Hr. assert (flow_ok alone f) as Hf.
  { split; [by apply well_formed_twin|rewrite Hc; by intros c ?%not_elem_of_nil|].
    rewrite Hc. intros _. split; [done|constructor]. }
  clear Hw Hc. induction Hr; [done|]. eauto using flow_step_ok.
Qed.

(** * What a run keeps *)


(** C38: what one operation does to the table.  A request there before is still
    there under its owner, title and seasons, its status moved only as the
    operation may move it: a creation or an approval takes its own request
    from pending to approved and on to downloading; a decline takes its request
    from pending to declined, a cancellation too and only its owner's; a
    fulfilment takes a request in flight (approved, downloading or failed) to
    available; a download sync moves approved to downloading, either to failed
    and failed back to downloading.  So declined and available are final.  The
    exception is the deletion, which removes the request it names and nothing
    else, in any status.  Only a creation makes a row: its own, owned by its
    requester, pending or moved on as it may. *)
Theorem request_life_cycle (o : operation) (w : world) :
  admissible o w →
  let db' := w_db (perform o w) in
  (∀ id r, w_db w !! id = Some r →
     o = ODelete true id ∧ db' !! id = None
     ∨ ∃ r', db' !! id = Some r' ∧ same_identity r r'
         ∧ rtc (may o id (rq_UserID r)) (rq_Status r) (rq_Status r')
         ∧ (rq_Status r = StatusDeclined ∨ rq_Status r = StatusAvailable →
            rq_Status r' = rq_Status r))
  ∧ ∀ id r', w_db w !! id = None → db' !! id = Some r' →
      ∃ e i, o = OCreate e i ∧ id = ce_new_id e ∧ rq_UserID r' = in_UserID i
        ∧ rtc (may o id (in_UserID i)) StatusPending (rq_Status r').
Proof.
  intros Ha db'.
  assert (∀ id user st st', rtc (may o id user) st st' →
    st = StatusDeclined ∨ st = StatusAvailable → st' = st) as Hfin.
  { intros id user st st' Hm Hst. destruct Hm as [|x y z Hm _]; [done|].
    apply may_not_final in Hm as [? ?]. by destruct Hst. }
  assert (∀ db, rtc (stmt_step (issues o)) db db' → ∀ id r, db !! id = Some r →
    ∃ r', db' !! id = Some r' ∧ same_identity r r'
         ∧ rtc (may o id (rq_UserID r)) (rq_Status r) (rq_Status r')
         ∧ (rq_Status r = StatusDeclined ∨ rq_Status r = StatusAvailable →
            rq_Status r' = rq_Status r)) as Hev.
  { intros db Hs id r Hr. destruct (stmts_evolve o db db' Hs id r Hr) as (r' & Hr' & Hi & Hm).
    exists r'. repeat split; try done; try apply Hi. by apply Hfin with id (rq_UserID r). }
  destruct (perform_cases o w) as [Hs|[(id0 & -> & Hd)|(db1 & Hi & Hs)]].
  - split; [intros id r Hr; right; by apply (Hev (w_db w))|].
    intros id r' Hn Hr'. pose proof (stmts_no_new _ _ _ _ Hs Hn) as Hx. fold db' in Hx. congruence.
  - unfold db'. rewrite Hd. split.
    + intros id r Hr. destruct (decide (id0 = id)) as [->|Hne]; [left; by rewrite lookup_delete_eq|].
      right. exists r. rewrite lookup_delete_ne by done. split; [done|]. split; [done|].
      split; [apply rtc_refl|done].
    + intros id r' Hn [_ Hr']%lookup_delete_Some. congruence.
  - destruct Hi as (e & i & i' & title & year & quota & -> & Hc & [_ ->]%insert_cases).
    destruct Ha as [_ Hn0]. split.
    + intros id r Hr. right. apply (Hev _ Hs). rewrite lookup_insert_ne; [done|congruence].
    + intros id r' Hn Hr'. exists e, i. destruct (decide (id = ce_new_id e)) as [->|Hne].
      * pose proof (create_checks_ok _ _ _ _ _ _ _ Hc) as (_ & _ & _ & Hu & _).
        destruct (Hev _ Hs (ce_new_id e) (new_request e i' title)) as (r2 & Hr2 & Hid & Hm & _);
          [apply lookup_insert_eq|]. simplify_eq. destruct Hid as [Hid _]. cbn in Hid.
        rewrite Hid, Hu. split; [done|]. split; [done|]. split; [done|].
        cbn in Hm. by rewrite Hu in Hm.
      * assert (db' !! id = None) as Hx; [|congruence].
        apply (stmts_no_new _ _ _ id Hs). by rewrite lookup_insert_ne.
Qed.

(** * Witnesses: one user asks for season 1, then for season 2 of a show *)
Definition demo_env (id : string) : create_env :=
  mkCreateEnv 1000 id true (Some (mkPermissions "ann" false true None false false None None))
    true true true true None (Some ("The Show", 2020)) (Some [1; 2; 3])
    (mkApproveEnv (λ _, None) (λ _, None) (λ _ _, None) true true true true true).
Definition demo_input (seasons : list Z) : CreateInput := mkCreateInput "u" TypeShow 77 seasons None.
Definition demo_w0 : world := mkWorld ∅ [].
Definition demo_w1 : world := (Create (demo_env "a") (demo_input [1]) demo_w0).1.
Definition demo_w2 : world := (Create (demo_env "b") (demo_input [2; 2]) demo_w1).1.
Definition demo_row (season : Z) : MediaRequest :=
  mkRequest "u" TypeShow 77 "The Show" StatusPending [season] [] None None None false None None 1000.

(** A third request meeting season 2 is refused. *)
Example demo_refused :
  (Create (demo_env "c") (demo_input [2; 3]) demo_w2).2 = inr ErrSeasonsAlreadyRequested.
Proof. by vm_compute. Qed.

(** Two creations for overlapping seasons whose checks both come first: both
    are admitted, and season 2 is asked for twice. *)
Definition racing (id : string) (seasons : list Z) : creation :=
  mkCreation (demo_env id) (demo_input seasons) "The Show".

Lemma demo_check alone id wanted norm db cs :
  create_checks (demo_env id) (demo_input wanted) db
  = inl (demo_input norm, "The Show", 2020, Some false) →
  checkDuplicate true (demo_input norm) db = None →
  (alone = true → wish (cn_row (racing id norm)) ∉ wishes cs) →
  flow_step alone (mkFlow db cs) (mkFlow db (racing id norm :: cs)).
Proof.
  intros Hc Hd Hw. apply (fl_check alone (demo_env id) (demo_input wanted) _ _ 2020 (Some false) db);
    [by vm_compute|done..].
Qed.

Definition raced : flow :=
  mkFlow (<["b" := cn_row (racing "b" [2; 3])]> (<["a" := cn_row (racing "a" [1; 2])]> ∅)) [].

Example racing_requests :
  rtc (flow_step false) (mkFlow ∅ []) raced
  ∧ CoversSeason (cn_row (racing "a" [1; 2])) 2 = true
  ∧ CoversSeason (cn_row (racing "b" [2; 3])) 2 = true.
Proof.
  split; [|by vm_compute].
  eapply rtc_l; [by apply (demo_check false "a" [1; 2] [1; 2]); vm_compute|].
  eapply rtc_l; [by apply (demo_check false "b" [2; 3] [2; 3]); vm_compute|].
  eapply rtc_l; [eapply (fl_insert false (racing "a" [1; 2]) ∅ _ [racing "b" [2; 3]] []); [done|reflexivity]|].
  eapply rtc_l; [eapply (fl_insert false (racing "b" [2; 3]) _ _ [] []); [done|reflexivity]|]. apply rtc_refl.
Qed.

(** The same selection twice is stopped by the unique index. *)
Example racing_twins :
  CreateMediaRequest (demo_env "b") (cn_row (racing "b" [1; 2])) (demo_input [1; 2])
    (<["a" := cn_row (racing "a" [1; 2])]> ∅) = inr ErrSeasonsAlreadyRequested.
Proof. by vm_compute. Qed.

(** Both creations alone, an approval's statement between the first's insert
    and the second's. *)
Definition demo_flow : flow :=
  mkFlow (<["b" := demo_row 2]> (run_statement (SApprove "a" "svc" None false) (<["a" := demo_row 1]> ∅))) [].

Lemma demo_run : rtc (flow_step true) (mkFlow ∅ []) demo_flow.
Proof.
  assert (∀ c : creation, true = true → wish (cn_row c) ∉ wishes []) as Hno.
  { intros c _. by intros ?%not_elem_of_nil. }
  eapply rtc_l; [apply (demo_check true "a" [1] [1]); [by vm_compute|by vm_compute|apply Hno]|].
  eapply rtc_l; [eapply (fl_insert true (racing "a" [1]) ∅ _ [] []); [done|reflexivity]|].
  eapply rtc_l; [apply (demo_check true "b" [2; 2] [2]); [by vm_compute|by vm_compute|apply Hno]|].
  eapply rtc_l; [by apply (fl_run true (SApprove "a" "svc" None false))|].
  eapply rtc_l; [eapply (fl_insert true (racing "b" [2]) _ _ [] []); [done|reflexivity]|]. apply rtc_refl.
Qed.


Lemma request_life_cycle_witness :
  admissible (OCreate (demo_env "b") (demo_input [2; 2])) demo_w1
  ∧ perform (OCreate (demo_env "b") (demo_input [2; 2])) demo_w1 = demo_w2
  ∧ ∀ id r', w_db demo_w1 !! id = None → w_db demo_w2 !! id = Some r' → id = "b" ∧ rq_UserID r' = "u".
Proof.
  assert (admissible (OCreate (demo_env "b") (demo_input [2; 2])) demo_w1) as Ha.
  { split; by vm_compute. }
  split; [exact Ha|]. split; [done|]. intros id r' Hn Hr.
  destruct (proj2 (request_life_cycle _ demo_w1 Ha) id r' Hn Hr) as (e & i & He & Hid & Hu & _).
  injection He as <- <-. done.
Defined.

(** * Who skips the admin queue *)

Lemma update_where_Some id guard f db r :
  db !! id = Some r →
  update_where id guard f db = if guard r then (<[id := f r]> db, 1) else (db, 0).
Proof. intros Hr. unfold update_where. by rewrite Hr. Qed.

(** An approval answers with the row it leaves in the table. *)
Lemma approve_result e i auto w w' r :
  approve e i auto w = (w', inl r) →
  w_db w' !! ai_RequestID i = Some r
  ∧ (rq_Status r = StatusApproved ∨ rq_Status r = StatusDownloading) ∧ rq_AutoApproved r = auto.
Proof.
  unfold approve. destruct (ae_get_ok e); [|done]. cbn [negb].
  destruct (w_db w !! ai_RequestID i) as [req|] eqn:Er; [|done].
  destruct (has_status StatusPending req) eqn:Ep; [|done]. cbn [negb].
  destruct (resolveArrService e req (ai_ServiceID i)) as [svc|]; [|done].
  destruct (ae_dispatch e req svc) as [n|]; [|done].
  destruct (ae_approve_ok e); [|done]. cbn [negb].
  set (id := ai_RequestID i) in *. unfold ApproveMediaRequest.
  rewrite (update_where_Some id _ _ _ req Er), Ep. cbn [fst].
  set (r1 := req <| rq_Status := _ |> <| rq_ServiceID := _ |> <| rq_DecidedBy := _ |>
                 <| rq_AutoApproved := _ |>).
  set (db2 := if (0 <? n) && ae_link_ok e then _ else _).
  assert (∃ r2, db2 !! id = Some r2 ∧ rq_Status r2 = StatusApproved ∧ rq_AutoApproved r2 = auto)
    as (r2 & H2 & Hs2 & Ha2).
  { unfold db2. destruct ((0 <? n) && ae_link_ok e).
    - unfold SetMediaRequestArrItem. erewrite update_where_Some by apply lookup_insert_eq.
      cbn [fst]. eexists. split; [apply lookup_insert_eq|done].
    - eexists. split; [apply lookup_insert_eq|done]. }
  set (db3 := if ae_mark_ok e then _ else _).
  assert (∃ r3, db3 !! id = Some r3 ∧ (rq_Status r3 = StatusApproved ∨ rq_Status r3 = StatusDownloading)
            ∧ rq_AutoApproved r3 = auto) as (r3 & H3 & Hs3 & Ha3).
  { unfold db3. destruct (ae_mark_ok e); [|by exists r2; auto].
    unfold MarkMediaRequestDownloading. rewrite (update_where_Some id _ _ _ r2 H2).
    rewrite (proj2 (has_status_spec _ _) Hs2). cbn [fst].
    eexists. split; [apply lookup_insert_eq|]. split; [by right|done]. }
  intros Hres. rewrite H3 in Hres. cbn [default] in Hres. simplify_eq/=. done.
Qed.

(** The policy of an approval nobody was asked for. *)
Definition may_skip_queue (e : create_env) (i : CreateInput) (db : DB) (p : permissions) : Prop :=
  p_IsAdmin p = true
  ∨ (p_MaxContentRating p = None ∨ p_MaxContentRating p = Some "")
    ∧ in_RequestedServiceID i = None
    ∧ (in_Type i = TypeMovie ∧ p_AutoApproveMovies p = true
       ∨ in_Type i = TypeShow ∧ p_AutoApproveTv p = true)
    ∧ let d := defaults (ce_quota e) in
      let limit := quotaLimit p (in_Type i) d in
      limit = 0 ∨ quotaUsed (ce_now e) (in_UserID i) (in_Type i) (qd_WindowDays d) db < limit.

Lemma autoApproveEligible_spec p i :
  autoApproveEligible p i = true → p_IsAdmin p = false →
  (p_MaxContentRating p = None ∨ p_MaxContentRating p = Some "")
  ∧ in_RequestedServiceID i = None
  ∧ (in_Type i = TypeMovie ∧ p_AutoApproveMovies p = true
     ∨ in_Type i = TypeShow ∧ p_AutoApproveTv p = true).
Proof.
  unfold autoApproveEligible. intros He Ha. rewrite Ha in He.
  destruct (p_MaxContentRating p) as [c|].
  - destruct (String.eqb_spec c ""); [subst|done]. cbn [negb] in He.
    destruct (in_RequestedServiceID i); [done|].
    destruct (String.eqb_spec (in_Type i) TypeMovie); [by auto|].
    destruct (String.eqb_spec (in_Type i) TypeShow); [by auto|done].
  - destruct (in_RequestedServiceID i); [done|].
    destruct (String.eqb_spec (in_Type i) TypeMovie); [by auto|].
    destruct (String.eqb_spec (in_Type i) TypeShow); [by auto|done].
Qed.

Lemma overQuota_false ok cfg now p user ty db :
  overQuota ok cfg now p user ty db = Some false → p_IsAdmin p = false →
  quotaLimit p ty (defaults cfg) = 0
  ∨ quotaUsed now user ty (qd_WindowDays (defaults cfg)) db < quotaLimit p ty (defaults cfg).
Proof.
  unfold overQuota. intros Hq Ha. rewrite Ha in Hq.
  destruct (Z.eqb_spec (quotaLimit p ty (defaults cfg)) 0) as [|]; [by left|].
  destruct ok; [|done]. cbn [negb] in Hq. simplify_eq. right. breflect. lia.
Qed.

(** A created request is pending, unless its requester's policy is known
    and lets the request skip the queue (an admin; or an account without a
    rating cap, naming no service, auto-approved for the type and within its
    quota) and the approval went through; the answer is the row stored. *)
Lemma auto_approval_safe (e : create_env) (i : CreateInput) (w w' : world) (res : CreateResult) :
  Create e i w = (w', inl res) →
  w_db w' !! cr_ID res = Some (cr_Request res)
  ∧ (rq_Status (cr_Request res) = StatusPending ∧ rq_DecidedBy (cr_Request res) = None
     ∨ rq_AutoApproved (cr_Request res) = true ∧ cr_OverQuota res = false
       ∧ ∃ p, ce_perm e = Some p ∧ may_skip_queue e i (w_db w) p).
Proof.
  unfold Create.
  destruct (create_checks e i (w_db w)) as [[[[i' title] year] quota]|] eqn:Ec; [|done].
  apply create_checks_ok in Ec as (_ & _ & _ & Hu & Hty & Hsvc & _ & _ & Hq).
  unfold CreateMediaRequest. destruct (ce_insert_ok e); [|done]. cbn [negb].
  destruct (unique_violation _ _); [done|].
  set (req := new_request e i' title). set (w1 := w <| w_db := _ |>).
  assert (∀ b,
    (created_notices e i' title year b w1,
     @inl _ req_error (mkCreateResult (ce_new_id e) req b)) = (w', inl res) →
    w_db w' !! cr_ID res = Some (cr_Request res)
    ∧ (rq_Status (cr_Request res) = StatusPending ∧ rq_DecidedBy (cr_Request res) = None
       ∨ rq_AutoApproved (cr_Request res) = true ∧ cr_OverQuota res = false
         ∧ ∃ p, ce_perm e = Some p ∧ may_skip_queue e i (w_db w) p)) as Hqueued.
  { intros b Hb. simplify_eq. cbn [cr_ID cr_Request].
    rewrite created_notices_db. split; [apply lookup_insert_eq|by left]. }
  destruct (ce_perm e) as [p|] eqn:Ep; [|apply Hqueued].
  destruct quota as [[]|]; [apply Hqueued| |apply Hqueued].
  destruct (autoApproveEligible p i') eqn:Ee; [|apply Hqueued].
  destruct (approve _ _ _ w1) as [wa [ap|err]] eqn:Ea; [|apply Hqueued].
  apply approve_result in Ea as (Hl & _ & Hau). intros Hres. simplify_eq. split; [exact Hl|].
  right. split; [done|]. split; [done|]. exists p. split; [done|].
  unfold may_skip_queue. destruct (p_IsAdmin p) eqn:Hadm; [by left|]. right.
  apply autoApproveEligible_spec in Ee as (H1 & H2 & H3); [|done].
  symmetry in Hq. apply overQuota_false in Hq; [|done].
  rewrite Hsvc in H2. rewrite Hty in H3. split; [done|]. split; [done|]. split; [done|]. exact Hq.
Qed.

(** An account auto-approved for shows, within its quota of 2. *)
Definition demo_auto_env : create_env :=
  mkCreateEnv 1000 "a" true (Some (mkPermissions "ann" false true None false true None (Some 2)))
    true true true true None (Some ("The Show", 2020)) (Some [1; 2; 3])
    (mkApproveEnv (λ _, None) (λ _, Some (mkArrService "s" "sonarr" true)) (λ _ _, Some 5)
       true true true true true).

Lemma auto_approval_safe_witness :
  ∃ w' res, Create demo_auto_env (demo_input [1]) demo_w0 = (w', inl res)
    ∧ rq_Status (cr_Request res) = StatusDownloading
    ∧ w_db w' !! cr_ID res = Some (cr_Request res).
Proof.
  destruct (Create demo_auto_env (demo_input [1]) demo_w0) as [w' [res|err]] eqn:E; [|by vm_compute in E].
  exists w', res. split; [done|].
  split; [by vm_compute in E; simplify_eq|].
  exact (proj1 (auto_approval_safe demo_auto_env (demo_input [1]) demo_w0 w' res E)).
Defined.
