(* ===== verification/Fulfilment.v ===== *)
(** What a fulfilment pass does to one show request: which seasons it records,
    which notices go out and when the request becomes available, also when the
    row has moved on since the pass read it. *)
From S2P Require Import Prelude.
From S2P Require Import GoStrings.
From S2P Require Import Requests.
From S2P Require Import RequestsProps.

Local Open Scope Z_scope.

Definition season_message (r : MediaRequest) (n : Z) : notice :=
  ToUser (rq_UserID r) "request_season_available"
    ("Season " +:+ Itoa n +:+ " now available: " +:+ rq_Title r)
    ("Season " +:+ Itoa n +:+ " of " +:+ quoted (rq_Title r) +:+ " is ready to watch.").

Definition available_message (r : MediaRequest) : notice :=
  ToUser (rq_UserID r) "request_available" ("Now available: " +:+ rq_Title r)
    (quoted (rq_Title r) +:+ " is ready to watch.").

Lemma season_notice_notices r n w :
  w_notices (season_notice r n w) = w_notices w ++ [season_message r n].
Proof. done. Qed.

(** The seasons of [ns] not yet recorded on the row. *)
Definition unrecorded (cur : MediaRequest) (ns : list Z) : list Z :=
  List.filter (λ n, negb (mem n (rq_SeasonsAvailable cur))) ns.

(** A pass over a row changes nothing but its recorded seasons. *)
Definition only_seasons (id : string) (cur cur' : MediaRequest) (db db' : DB) : Prop :=
  db !! id = Some cur ∧ db' !! id = Some cur'
  ∧ cur' = cur <| rq_SeasonsAvailable := rq_SeasonsAvailable cur' |>
  ∧ ∀ id', id' ≠ id → db' !! id' = db !! id'.

Lemma only_seasons_refl id cur db : db !! id = Some cur → only_seasons id cur cur db db.
Proof. intros H. split; [done|]. split; [done|]. split; [by destruct cur|done]. Qed.

Lemma only_seasons_trans id a b c db1 db2 db3 :
  only_seasons id a b db1 db2 → only_seasons id b c db2 db3 → only_seasons id a c db1 db3.
Proof.
  intros (H1 & _ & E1 & O1) (_ & H3 & E2 & O2). split; [done|]. split; [done|]. split.
  - rewrite E2, E1. done.
  - intros id' Hne. rewrite O2 by done. by apply O1.
Qed.

(** Recording one season. *)
Lemma mark_season_spec id cur n db :
  db !! id = Some cur → in_flight (rq_Status cur) = true →
  ∃ cur', only_seasons id cur cur' db (MarkMediaRequestSeasonAvailable id n db).1
    ∧ (∀ m, m ∈ rq_SeasonsAvailable cur' ↔ m ∈ rq_SeasonsAvailable cur ∨ m = n)
    ∧ (MarkMediaRequestSeasonAvailable id n db).2
      = if mem n (rq_SeasonsAvailable cur) then 0 else 1.
Proof.
  intros Hl Hf. unfold MarkMediaRequestSeasonAvailable, update_where. rewrite Hl, Hf. cbn [andb].
  destruct (mem n (rq_SeasonsAvailable cur)) eqn:Em; cbn [negb fst snd]; breflect.
  - exists cur. split; [by apply only_seasons_refl|]. split; [naive_solver|done].
  - eexists. split.
    + split; [done|]. split; [apply lookup_insert_eq|]. split; [done|].
      intros id' Hne. by rewrite lookup_insert_ne.
    + split; [|done]. intros m. simpl. rewrite sort_ints_elem, elem_of_app, list_elem_of_singleton.
      done.
Qed.

Lemma unrecorded_cons cur n ns :
  unrecorded cur (n :: ns)
  = if mem n (rq_SeasonsAvailable cur) then unrecorded cur ns else n :: unrecorded cur ns.
Proof. unfold unrecorded. simpl. by destruct (mem n _). Qed.

(** Recording a season does not change what is unrecorded among others. *)
Lemma unrecorded_other cur cur' n ns :
  n ∉ ns → (∀ m, m ∈ rq_SeasonsAvailable cur' ↔ m ∈ rq_SeasonsAvailable cur ∨ m = n) →
  unrecorded cur' ns = unrecorded cur ns.
Proof.
  intros Hn Hav. apply filter_ext_elem. intros m Hm. f_equal. apply eq_true_iff_eq.
  rewrite !mem_spec, Hav. split; [intros [?| ->]; done|by left].
Qed.

(** One statement of a pass and its notice. *)
Lemma record_seasons_spec sok id r all ns w cur :
  NoDup ns → w_db w !! id = Some cur → in_flight (rq_Status cur) = true →
  ∃ cur', let w' := record_seasons sok id r all ns w in
    only_seasons id cur cur' (w_db w) (w_db w')
    ∧ (∀ m, m ∈ rq_SeasonsAvailable cur' ↔
            m ∈ rq_SeasonsAvailable cur ∨ m ∈ ns ∧ sok m = true)
    ∧ w_notices w' = w_notices w ++ (if all then [] else
        season_message r <$> List.filter sok (unrecorded cur ns)).
Proof.
  revert w cur. induction ns as [|n ns IH]; intros w cur Hnd Hl Hf.
  { exists cur. cbn. split; [by apply only_seasons_refl|]. split.
    - intros m. split; [by left|]. intros [?|[?%not_elem_of_nil _]]; done.
    - destruct all; by rewrite app_nil_r. }
  apply NoDup_cons in Hnd as [Hn Hnd]. cbn [record_seasons]. rewrite unrecorded_cons.
  destruct (sok n) eqn:Eok.
  - destruct (mark_season_spec id cur n (w_db w) Hl Hf) as (c1 & Ho1 & Ha1 & Hc1).
    destruct (MarkMediaRequestSeasonAvailable id n (w_db w)) as [db rows]. cbn [fst snd] in *.
    set (w1 := if (rows =? 1) && negb all then _ else _).
    assert (w_db w1 = db) as Hw1 by (unfold w1; by destruct ((rows =? 1) && negb all)).
    assert (in_flight (rq_Status c1) = true) as Hf1.
    { destruct Ho1 as (_ & _ & -> & _). exact Hf. }
    assert (w_db w1 !! id = Some c1) as Hl1 by (rewrite Hw1; apply Ho1).
    destruct (IH w1 c1 Hnd Hl1 Hf1) as (c2 & Ho2 & Ha2 & Hm2). exists c2. cbn zeta in *.
    split; [|split].
    + eapply only_seasons_trans; [exact Ho1|]. by rewrite <- Hw1.
    + intros m. rewrite Ha2, Ha1, elem_of_cons. split; [|tauto].
      intros [[?| ->]|[? ?]]; tauto.
    + rewrite Hm2, (unrecorded_other cur c1 n ns Hn Ha1). unfold w1. rewrite Hc1.
      destruct (mem n (rq_SeasonsAvailable cur)) eqn:Em.
      * done.
      * destruct all; [done|]. cbn [List.filter]. rewrite Eok. cbn.
        by rewrite season_notice_notices, <- (assoc_L (++)).
  - destruct (IH w cur Hnd Hl Hf) as (c2 & Ho2 & Ha2 & Hm2). exists c2. cbn zeta in *.
    split; [done|]. split.
    + intros m. rewrite Ha2, elem_of_cons. split; [tauto|].
      intros [?|[[->|?] ?]]; [by left|congruence|by right].
    + rewrite Hm2. destruct all; [done|].
      destruct (mem n (rq_SeasonsAvailable cur)); [done|]. cbn [List.filter]. by rewrite Eok.
Qed.

Lemma markAvailable_spec id r item w cur :
  w_db w !! id = Some cur → in_flight (rq_Status cur) = true →
  markAvailable true id r item w
  = (mkWorld (<[id := cur <| rq_Status := StatusAvailable |> <| rq_FulfilledItemID := Some item |>]>
                (w_db w)) (w_notices w ++ [available_message r]), true).
Proof.
  intros Hl Hf. unfold markAvailable, MarkMediaRequestAvailable, update_where, Notify, over, eta_world.
  cbn. rewrite Hl, Hf. done.
Qed.

(** The covered seasons a pass finds complete. *)
Definition complete_now (p : seasonProgress) : list Z :=
  List.filter (λ n, mem n (sp_complete p)) (sp_covered p).

(** One pass over a show request, read as [r] and now stored as the
    in-flight row [cur].  It records every covered season that is complete and
    whose statement succeeds; the request becomes available, with one notice
    for the whole, exactly when there is a covered season and all of them are
    complete; otherwise each newly recorded season is announced once, in
    order, and none that was recorded before.  No other row changes. *)
Lemma season_pass_spec (ok : bool) (sok : Z → bool) (id item : string) (r cur : MediaRequest)
    (p : seasonProgress) (w : world) :
  NoDup (sp_covered p) → w_db w !! id = Some cur → in_flight (rq_Status cur) = true →
  (∀ n, n ∈ rq_SeasonsAvailable r → n ∈ rq_SeasonsAvailable cur) →
  let '(w', done_) := applySeasonProgress ok sok id r item p w in
  let all := negb (bool_decide (sp_covered p = []))
             && forallb (λ n, mem n (sp_complete p)) (sp_covered p) in
  done_ = all && ok
  ∧ (∀ id', id' ≠ id → w_db w' !! id' = w_db w !! id')
  ∧ (∃ cur', w_db w' !! id = Some cur'
       ∧ (∀ m, m ∈ rq_SeasonsAvailable cur' ↔
               m ∈ rq_SeasonsAvailable cur
               ∨ m ∈ complete_now p ∧ m ∉ rq_SeasonsAvailable r ∧ sok m = true)
       ∧ rq_Status cur' = if done_ then StatusAvailable else rq_Status cur)
  ∧ w_notices w' = w_notices w ++
      (if all then (if ok then [available_message r] else [])
       else season_message r <$> List.filter sok (unrecorded cur (complete_now p))).
Proof.
  intros Hnd Hl Hf Hstale. unfold applySeasonProgress.
  destruct (sp_covered p) as [|c0 l0] eqn:Ecov.
  { cbn. unfold complete_now. rewrite Ecov. cbn. rewrite app_nil_r. split; [done|]. split; [done|].
    split; [|done]. exists cur. split; [done|]. split; [|done].
    intros m. split; [by left|]. intros [?|[?%not_elem_of_nil _]]; done. }
  rewrite <- Ecov in *. rewrite (bool_decide_eq_false_2 (sp_covered p = [])) by (by rewrite Ecov).
  cbn [negb andb]. clear c0 l0 Ecov.
  set (all := forallb _ _). set (newly := List.filter _ _).
  assert (NoDup newly) as Hnn by (unfold newly; by apply NoDup_List_filter).
  assert (∀ m, m ∈ newly ↔ m ∈ complete_now p ∧ m ∉ rq_SeasonsAvailable r) as Hnewly.
  { intros m. unfold newly, complete_now. rewrite !elem_of_List_filter. breflect. tauto. }
  assert (unrecorded cur newly = unrecorded cur (complete_now p)) as Hun.
  { unfold newly, complete_now, unrecorded. rewrite !List_filter_filter. apply filter_ext_elem.
    intros m _. apply eq_true_iff_eq. breflect. split; [tauto|].
    intros [? Hm]. pose proof (Hstale m). tauto. }
  destruct (record_seasons_spec sok id r all newly w cur Hnn Hl Hf) as (c1 & Ho & Ha & Hm).
  cbn zeta in Ho, Ha, Hm. rewrite Hun in Hm.
  set (w1 := record_seasons sok id r all newly w) in *.
  assert (∀ m, m ∈ rq_SeasonsAvailable c1 ↔ m ∈ rq_SeasonsAvailable cur
            ∨ m ∈ complete_now p ∧ m ∉ rq_SeasonsAvailable r ∧ sok m = true) as Ha'.
  { intros m. rewrite Ha, Hnewly. tauto. }
  destruct Ho as (_ & Hl1 & Hc1 & Hoth).
  assert (rq_Status c1 = rq_Status cur) as Hst by (by rewrite Hc1).
  destruct all; cbn [negb andb].
  - destruct ok.
    + rewrite (markAvailable_spec id r item w1 c1) by (done || by rewrite Hst). cbn [w_db w_notices].
      split; [done|]. split; [intros id' Hne; rewrite lookup_insert_ne by done; by apply Hoth|].
      split; [|by rewrite Hm, app_nil_r].
      eexists. split; [apply lookup_insert_eq|]. split; [exact Ha'|done].
    + split; [done|]. split; [done|]. split; [|done].
      exists c1. split; [done|]. split; [exact Ha'|done].
  - split; [done|]. split; [done|]. split; [|exact Hm].
    exists c1. split; [done|]. split; [exact Ha'|done].
Qed.

(** * What availability rests on *)

(** The regular seasons known to have aired: per Sonarr when the series is
    linked, else per TMDB. *)
Definition aired_season (ev : evaluator) (r : MediaRequest) (n : Z) : Prop :=
  match ev_series ev r with
  | Some s => ∃ se, se ∈ sr_Seasons s ∧ se_SeasonNumber se = n ∧ 0 < n ∧ Aired se = true
  | None => ∃ l, ev_tmdb ev (rq_TmdbID r) = Some l ∧ 0 < n ∧ (∃ t, t ∈ tl_Seasons l ∧ ts_Number t = n)
              ∧ 0 < AiredEpisodes l n (ev_now ev)
  end.

(** A season the library holds enough of. *)
Definition season_owned (ev : evaluator) (r : MediaRequest) (n : Z) : Prop :=
  0 < ev_owned ev (rq_TmdbID r) n
  ∧ match ev_series ev r with
    | Some s => ∃ se, series_Season s n = Some se ∧ Complete se = true
    | None => ∃ l, ev_tmdb ev (rq_TmdbID r) = Some l
                ∧ 0 < AiredEpisodes l n (ev_now ev) ≤ ev_owned ev (rq_TmdbID r) n
    end.

Lemma progress_complete ev r p n :
  progress ev r = Some p → n ∈ sp_complete p → n ∈ sp_covered p ∧ season_owned ev r n.
Proof.
  unfold progress, season_owned. destruct (ev_series ev r) as [s|].
  - intros [= <-]. cbn [sp_complete sp_covered]. rewrite elem_of_List_filter.
    intros [Hin Hc]. split; [done|]. destruct (series_Season s n) as [se|]; [|done].
    breflect. destruct Hc. split; [done|]. by exists se.
  - destruct (ev_tmdb ev (rq_TmdbID r)) as [l|]; [|done].
    intros [= <-]. cbn [sp_complete sp_covered]. rewrite elem_of_List_filter.
    intros [Hin Hc]. split; [done|]. breflect. destruct Hc. split; [lia|]. by exists l.
Qed.

Lemma progress_covered ev r p n :
  progress ev r = Some p →
  n ∈ sp_covered p ↔ (if bool_decide (RequestSeasons r = []) then aired_season ev r n
                      else n ∈ RequestSeasons r).
Proof.
  unfold progress, aired_season. destruct (ev_series ev r) as [s|].
  - intros [= <-]. cbn [sp_covered]. case_bool_decide; [|done].
    rewrite sort_ints_elem, list_elem_of_omap. split.
    + intros (se & Hse & Hn). destruct ((0 <? se_SeasonNumber se) && Aired se) eqn:E; [|done].
      breflect. destruct E. simplify_eq. by exists se.
    + intros (se & Hse & <- & Hpos & Ha). exists se. split; [done|].
      rewrite Ha, (proj2 (Z.ltb_lt _ _) Hpos). done.
  - destruct (ev_tmdb ev (rq_TmdbID r)) as [l|]; [|done].
    intros [= <-]. cbn [sp_covered]. case_bool_decide; [|done].
    unfold AiredSeasons. rewrite sort_ints_elem, list_elem_of_omap. split.
    + intros (t & Ht & Hn). destruct (_ && _) eqn:E in Hn; [|done].
      breflect. destruct E. simplify_eq. exists l. split; [done|]. split; [done|]. split; [by exists t|done].
    + intros (l' & Hl & Hpos & (t & Ht & <-) & Ha). simplify_eq. exists t. split; [done|].
      rewrite (proj2 (Z.ltb_lt _ _) Hpos), (proj2 (Z.ltb_lt _ _) Ha). done.
Qed.

(** When a pass makes a show request available, it covered at least one
    season, the library holds episodes of every season the request covers
    (each one complete in Sonarr, or every aired episode of it per TMDB), and
    a request for the whole series covers every regular season that has
    aired. *)
Lemma available_means_owned (ok : bool) (sok : Z → bool) (ev : evaluator) (id item : string)
    (r : MediaRequest) (p : seasonProgress) (w w' : world) :
  progress ev r = Some p → applySeasonProgress ok sok id r item p w = (w', true) →
  sp_covered p ≠ [] ∧ (∀ n, n ∈ sp_covered p → season_owned ev r n)
  ∧ (RequestSeasons r = [] → ∀ n, aired_season ev r n → season_owned ev r n)
  ∧ (∀ n, n ∈ RequestSeasons r → season_owned ev r n).
Proof.
  intros Hp Ha.
  assert (sp_covered p ≠ [] ∧ ∀ n, n ∈ sp_covered p → season_owned ev r n) as [Hne Hall].
  { unfold applySeasonProgress in Ha. destruct (sp_covered p) as [|c0 l0] eqn:Ecov; [done|].
    split; [done|]. destruct (forallb _ (c0 :: l0)) eqn:Eall; [|done].
    intros n Hn. eapply (progress_complete ev r p n Hp).
    rewrite List.forallb_forall in Eall. apply list_elem_of_In, Eall in Hn. by breflect. }
  split; [done|]. split; [done|]. split.
  - intros Hnil n Hn. apply Hall, (progress_covered ev r p n Hp).
    by rewrite bool_decide_eq_true_2.
  - intros n Hn. apply Hall, (progress_covered ev r p n Hp). case_bool_decide as Hnil; [|done].
    rewrite Hnil in Hn. by apply not_elem_of_nil in Hn.
Qed.

(** * Witnesses: seasons 1 and 2 requested, both complete, 1 announced before *)
Definition demo_request (avail : list Z) : MediaRequest :=
  mkRequest "u" TypeShow 77 "The Show" StatusDownloading [1; 2] avail None None None false (Some 5)
    None 1000.
Definition demo_pass_world (avail : list Z) : world := mkWorld {["a" := demo_request avail]} [].
Definition demo_progress (complete : list Z) : seasonProgress := mkProgress [1; 2] complete.

Lemma season_pass_spec_witness :
  (applySeasonProgress true (λ _, true) "a" (demo_request []) "item" (demo_progress [2])
     (demo_pass_world [1])).2 = false
  ∧ w_notices (applySeasonProgress true (λ _, true) "a" (demo_request []) "item" (demo_progress [2])
     (demo_pass_world [1])).1 = [season_message (demo_request []) 2].
Proof.
  pose proof (season_pass_spec true (λ _, true) "a" "item" (demo_request []) (demo_request [1])
    (demo_progress [2]) (demo_pass_world [1])) as H.
  destruct (applySeasonProgress _ _ _ _ _ _ _) as [w' d].
  destruct H as (Hd & _ & _ & Hn).
  - apply NoDup_ListNoDup. repeat constructor; set_solver.
  - reflexivity.
  - reflexivity.
  - intros n Hn%not_elem_of_nil. done.
  - split; [exact Hd|exact Hn].
Defined.

Definition demo_evaluator : evaluator :=
  mkEvaluator (λ _ _, 8) (λ _, None)
    (λ _, Some (mkTVSeasonList [mkTVSeason 1 8 None; mkTVSeason 2 10 None] 2 8)) 5000.

Lemma available_means_owned_witness :
  progress demo_evaluator (demo_request []) = Some (demo_progress [1; 2])
  ∧ season_owned demo_evaluator (demo_request []) 2.
Proof.
  assert (progress demo_evaluator (demo_request []) = Some (demo_progress [1; 2])) as Hp
    by reflexivity.
  split; [exact Hp|].
  apply (available_means_owned true (λ _, true) demo_evaluator "a" "item" (demo_request [])
    (demo_progress [1; 2]) (demo_pass_world []) _ Hp eq_refl).
  vm_compute. right. left.
Defined.
