(* ===== verification/DownloadsProps.v ===== *)
(** What the download states of in-flight requests mean: how the queue rows of
    one item collapse into one state, what a failed verdict rests on, and what
    writing a verdict back does to the request. *)
From S2P Require Import Prelude.
From S2P Require Import GoStrings.
From S2P Require Import GoFloat.
From S2P Require Import Requests.
From S2P Require Import Downloads.
From S2P Require Import DownloadSync.
From S2P Require Import RequestsProps.

Local Open Scope Z_scope.

(** * Picking the worst *)

(** A fold that keeps the element of highest rank. *)
Lemma fold_best {A X S : Type} (key : S → Z) (val : A → S) (st : X → S) (f : A → X → A) :
  (∀ a x, val (f a x) = if key (val a) <? key (st x) then st x else val a) →
  ∀ l a, let res := val (fold_left f l a) in
    (res = val a ∨ ∃ x, x ∈ l ∧ res = st x)
    ∧ key (val a) ≤ key res ∧ ∀ x, x ∈ l → key (st x) ≤ key res.
Proof.
  intros Hf. induction l as [|x l IH]; intros a; cbn zeta in *; simpl.
  - split; [by left|]. split; [lia|]. by intros x ?%not_elem_of_nil.
  - destruct (IH (f a x)) as (Hin & Hge & Hall). rewrite Hf in Hin, Hge.
    set (res := val (fold_left f l (f a x))) in *.
    split; [|split].
    + destruct (key (val a) <? key (st x)).
      * right. destruct Hin as [->|(y & ? & ?)]; [exists x|exists y]; set_solver.
      * destruct Hin as [?|(y & ? & ?)]; [by left|right; exists y; set_solver].
    + destruct (Z.ltb_spec (key (val a)) (key (st x))); lia.
    + intros y [->|Hy]%elem_of_cons; [|by apply Hall].
      destruct (Z.ltb_spec (key (val a)) (key (st x))); lia.
Qed.

(** The order of [worseState]. *)
Definition severity (s : option download_state) : Z :=
  if is_failed s then 5 else activeStateRank s.

Definition row_state (r : QueueRecord) : download_state := (queueRowState r).1.

Lemma rank_range s : 0 ≤ activeStateRank s ≤ 4.
Proof. destruct s as [[]|]; simpl; lia. Qed.

Lemma is_failed_spec s : is_failed s = true ↔ s = Some DownloadFailed.
Proof. apply bool_decide_eq_true. Qed.

Lemma worseState_severity a b : worseState a b = (severity b <? severity a).
Proof. by destruct a as [[]|], b as [[]|]. Qed.

(** A queue row always has one of the ranked states, or failed. *)
Lemma row_not_searching (r : QueueRecord) : row_state r ≠ DownloadSearching.
Proof.
  unfold row_state, queueRowState.
  repeat match goal with
         | |- context [if ?b then _ else _] => destruct b
         | |- context [match Progress r with _ => _ end] => destruct (Progress r)
         end; done.
Qed.

Lemma row_severity (r : QueueRecord) : 1 ≤ severity (Some (row_state r)).
Proof. pose proof (row_not_searching r) as Hn. by destruct (row_state r). Qed.

Lemma row_active (r : QueueRecord) :
  row_state r ≠ DownloadFailed → 1 ≤ activeStateRank (Some (row_state r)).
Proof. intros Hn. pose proof (row_severity r) as Hs. by destruct (row_state r). Qed.

(** The state of one download is its worst row's. *)
Lemma judge_group_spec label (rows : list QueueRecord) :
  rows ≠ [] →
  ∃ r, r ∈ rows ∧ g_state (judge_group label rows) = Some (row_state r)
    ∧ ∀ r', r' ∈ rows → severity (Some (row_state r')) ≤ severity (Some (row_state r)).
Proof.
  intros Hne. unfold judge_group. set (f := λ acc r, _).
  destruct (fold_best severity fst (λ r, Some (row_state r)) f) with (l := rows)
    (a := (@None download_state, "")) as (Hin & _ & Hall).
  { intros [b msg] r. unfold f, row_state. pose proof (row_severity r) as Hr. unfold row_state in Hr.
    destruct (queueRowState r) as [st m]. cbn [fst] in *. rewrite worseState_severity.
    case_bool_decide as Hb; cbn [orb fst].
    - subst b. rewrite (proj2 (Z.ltb_lt _ _)); [done|]. change (severity None) with 0. lia.
    - by destruct (severity b <? severity (Some st)). }
  cbn zeta in Hin, Hall.
  destruct (fold_left f rows (None, "")) as [st msg]. cbn [fst g_state] in *.
  destruct Hin as [->|(r & Hr & ->)].
  - destruct rows as [|r rows]; [done|]. specialize (Hall r ltac:(left)).
    pose proof (row_severity r). change (severity None) with 0 in Hall. lia.
  - exists r. done.
Qed.

Lemma worst_active_spec (groups : list queueGroup) :
  groups ≠ [] → (∀ g, g ∈ groups → 1 ≤ activeStateRank (g_state g)) →
  ∃ g, g ∈ groups ∧ worst_active groups = g_state g
    ∧ ∀ g', g' ∈ groups → activeStateRank (g_state g') ≤ activeStateRank (g_state g).
Proof.
  intros Hne Hpos. unfold worst_active. set (f := λ acc g, _).
  destruct (fold_best activeStateRank id g_state f ltac:(done) groups None) as (Hin & _ & Hall).
  cbn zeta in Hin, Hall. unfold id in *.
  destruct Hin as [Hn|(g & Hg & Hres)].
  - destruct groups as [|g groups]; [done|]. specialize (Hall g ltac:(left)).
    specialize (Hpos g ltac:(left)). rewrite Hn in Hall. simpl in Hall. lia.
  - exists g. rewrite Hres in Hall. done.
Qed.

(** * Grouping rows by download *)

(** Row [i] of the queue belongs to download [k]. *)
Definition row_of (rows : list QueueRecord) (k : string) (r : QueueRecord) : Prop :=
  ∃ i : nat, rows !! i = Some r ∧ group_key (Z.of_nat i) r = k.

(** Groups that hold exactly the rows seen so far. *)
Definition groups_ok (seen : string → QueueRecord → Prop) (gs : list (string * list QueueRecord)) : Prop :=
  NoDup gs.*1
  ∧ (∀ k rs, (k, rs) ∈ gs → rs ≠ [] ∧ ∀ r, r ∈ rs → seen k r)
  ∧ (∀ k r, seen k r → ∃ rs, (k, rs) ∈ gs ∧ r ∈ rs).

Lemma add_to_group_keys key r gs k :
  k ∈ (add_to_group key r gs).*1 ↔ k = key ∨ k ∈ gs.*1.
Proof.
  induction gs as [|[k0 rs] gs IH]; simpl; [set_solver|].
  destruct (String.eqb_spec k0 key) as [->|]; simpl; [set_solver|].
  rewrite !elem_of_cons, IH. tauto.
Qed.

Lemma add_to_group_NoDup key r gs : NoDup gs.*1 → NoDup (add_to_group key r gs).*1.
Proof.
  induction gs as [|[k0 rs] gs IH]; simpl; [intros _; apply NoDup_singleton|].
  intros [Hk Hnd]%NoDup_cons. destruct (String.eqb_spec k0 key) as [->|Hne]; simpl.
  - by apply NoDup_cons.
  - apply NoDup_cons. split; [|by apply IH]. rewrite add_to_group_keys. naive_solver.
Qed.

Lemma add_to_group_elem key r gs k rs :
  (k, rs) ∈ add_to_group key r gs →
  (k, rs) ∈ gs ∨ k = key ∧ (rs = [r] ∨ ∃ rs0, (k, rs0) ∈ gs ∧ rs = rs0 ++ [r]).
Proof.
  induction gs as [|[k0 rs0] gs IH]; simpl.
  - intros ?%list_elem_of_singleton. simplify_eq. right. split; [done|by left].
  - destruct (String.eqb_spec k0 key) as [->|Hne].
    + intros [?|?]%elem_of_cons; simplify_eq; [|left; by right].
      right. split; [done|]. right. exists rs0. split; [by left|done].
    + intros [?|Hin]%elem_of_cons; simplify_eq; [left; by left|].
      destruct (IH Hin) as [?|(-> & [->|(rs1 & ? & ->)])]; [left; by right|right; auto|].
      right. split; [done|]. right. exists rs1. split; [by right|done].
Qed.

Lemma add_to_group_in key r gs : ∃ rs, (key, rs) ∈ add_to_group key r gs ∧ r ∈ rs.
Proof.
  induction gs as [|[k0 rs0] gs (rs & H1 & H2)]; simpl.
  - exists [r]. split; left.
  - destruct (String.eqb_spec k0 key) as [->|Hne].
    + exists (rs0 ++ [r]). split; [left|set_solver].
    + exists rs. split; [by right|done].
Qed.

Lemma add_to_group_keep key r gs k rs r' :
  (k, rs) ∈ gs → r' ∈ rs → ∃ rs', (k, rs') ∈ add_to_group key r gs ∧ r' ∈ rs'.
Proof.
  induction gs as [|[k0 rs0] gs IH]; simpl; [by intros ?%not_elem_of_nil|].
  intros [?|Hin]%elem_of_cons Hr; simplify_eq.
  - destruct (String.eqb_spec k0 key) as [->|Hne].
    + exists (rs0 ++ [r]). split; [left|set_solver].
    + exists rs0. split; [left|done].
  - destruct (String.eqb_spec k0 key) as [->|Hne]; [exists rs; split; [by right|done]|].
    destruct (IH Hin Hr) as (rs' & ? & ?). exists rs'. split; [by right|done].
Qed.

Lemma add_to_group_ok seen key r gs :
  groups_ok seen gs → groups_ok (λ k r', seen k r' ∨ k = key ∧ r' = r) (add_to_group key r gs).
Proof.
  intros (Hnd & Hsound & Hcomplete). split; [by apply add_to_group_NoDup|]. split.
  - intros k rs [Hin|(-> & [->|(rs0 & Hin & ->)])]%add_to_group_elem.
    + destruct (Hsound k rs Hin) as [? Hs]. split; [done|]. intros r' Hr'. left. by apply Hs.
    + split; [done|]. intros r' ->%list_elem_of_singleton. by right.
    + destruct (Hsound _ rs0 Hin) as [? Hs]. split; [by destruct rs0|].
      intros r' [Hr'| ->%list_elem_of_singleton]%elem_of_app; [left; by apply Hs|by right].
  - intros k r' [Hs|[-> ->]]; [|apply add_to_group_in].
    destruct (Hcomplete k r' Hs) as (rs & Hin & Hr'). by eapply add_to_group_keep.
Qed.

Lemma groups_ok_ext (p q : string → QueueRecord → Prop) gs :
  (∀ k r, p k r ↔ q k r) → groups_ok p gs → groups_ok q gs.
Proof.
  intros He (H1 & H2 & H3). split; [done|]. split.
  - intros k rs Hin. destruct (H2 k rs Hin) as [? Hs]. split; [done|]. intros r Hr. by apply He, Hs.
  - intros k r Hq. by apply H3, He.
Qed.

Lemma row_of_snoc rows r k r' :
  row_of (rows ++ [r]) k r'
  ↔ row_of rows k r' ∨ k = group_key (Z.of_nat (length rows)) r ∧ r' = r.
Proof.
  unfold row_of. split.
  - intros (i & [Hi|(Hlen & Hi)]%lookup_app_Some & Hk); [left; by exists i|].
    apply list_lookup_singleton_Some in Hi as [Hi <-]. right.
    assert (i = length rows) as -> by lia. done.
  - intros [(i & Hi & Hk)|[-> ->]].
    + exists i. split; [by apply lookup_app_l_Some|done].
    + exists (length rows). split; [by apply list_lookup_middle|done].
Qed.

Lemma group_rows_ok rest : ∀ seen gs,
  groups_ok (row_of seen) gs →
  groups_ok (row_of (seen ++ rest)) (group_rows (Z.of_nat (length seen)) rest gs).
Proof.
  induction rest as [|r rest IH]; intros seen gs Hok; simpl; [by rewrite app_nil_r|].
  replace (seen ++ r :: rest) with ((seen ++ [r]) ++ rest) by (by rewrite <- (assoc_L (++))).
  replace (Z.of_nat (length seen) + 1) with (Z.of_nat (length (seen ++ [r])))
    by (rewrite length_app; simpl; lia).
  apply IH. eapply groups_ok_ext; [|by apply add_to_group_ok].
  intros k r'. by rewrite row_of_snoc.
Qed.

Lemma groups_spec (rows : list QueueRecord) : groups_ok (row_of rows) (group_rows 0 rows []).
Proof.
  apply (group_rows_ok rows [] []). split; [constructor|]. split.
  - by intros k rs ?%not_elem_of_nil.
  - intros k r (i & Hi & _). by rewrite lookup_nil in Hi.
Qed.

Lemma assoc_unique {A} (l : list (string * A)) k a b :
  NoDup l.*1 → (k, a) ∈ l → (k, b) ∈ l → a = b.
Proof.
  induction l as [|[k0 c] l IH]; simpl; [by intros _ ?%not_elem_of_nil|].
  intros [Hk Hnd]%NoDup_cons [?|Ha]%elem_of_cons [?|Hb]%elem_of_cons; simplify_eq; auto.
  - destruct Hk. apply list_elem_of_fmap. by exists (k0, b).
  - destruct Hk. apply list_elem_of_fmap. by exists (k0, a).
Qed.

(** * The state of a queue *)
Definition failed_download (rows : list QueueRecord) (k : string) : Prop :=
  ∃ r, row_of rows k r ∧ row_state r = DownloadFailed.

Lemma severity_failed s : is_failed s = false → severity s = activeStateRank s.
Proof. unfold severity. by intros ->. Qed.

(** One download of a queue. *)
Lemma download_state_spec label rows k rs :
  (k, rs) ∈ group_rows 0 rows [] →
  let s := g_state (judge_group label rs) in
  (is_failed s = true ↔ failed_download rows k)
  ∧ ∃ r, row_of rows k r ∧ s = Some (row_state r)
      ∧ ∀ r', row_of rows k r' → severity (Some (row_state r')) ≤ severity s.
Proof.
  intros Hin. destruct (groups_spec rows) as (Hnd & Hsound & Hcomplete).
  destruct (Hsound k rs Hin) as [Hne Hrs].
  assert (∀ r, row_of rows k r → r ∈ rs) as Hall.
  { intros r Hr. destruct (Hcomplete k r Hr) as (rs' & Hin' & Hr').
    by rewrite (assoc_unique _ k rs rs' Hnd Hin Hin'). }
  destruct (judge_group_spec label rs Hne) as (r & Hr & -> & Hmax). cbn zeta. split.
  - rewrite is_failed_spec. split.
    + intros [= Hs]. exists r. auto.
    + intros (r' & Hr' & Hs'). specialize (Hmax r' (Hall r' Hr')). rewrite Hs' in Hmax.
      change (severity (Some DownloadFailed)) with 5 in Hmax.
      destruct (row_state r); vm_compute in Hmax; done.
  - exists r. auto.
Qed.

(** The downloads that did not fail. *)
Definition active_groups (label : bool) (rows : list QueueRecord) : list queueGroup :=
  List.filter (λ g, negb (is_failed (g_state g)))
    ((λ kg : string * list QueueRecord, judge_group label kg.2) <$> group_rows 0 rows []).

Lemma active_groups_elem label rows g :
  g ∈ active_groups label rows ↔
  ∃ k rs, (k, rs) ∈ group_rows 0 rows [] ∧ g = judge_group label rs ∧ ¬ failed_download rows k.
Proof.
  unfold active_groups. rewrite elem_of_List_filter, list_elem_of_fmap, negb_true_iff. split.
  - intros [([k rs] & -> & Hin) Hf]. exists k, rs. split; [done|]. split; [done|].
    destruct (download_state_spec label rows k rs Hin) as [<- _]. cbn [snd] in Hf. by rewrite Hf.
  - intros (k & rs & Hin & -> & Hk). split; [by exists (k, rs)|].
    apply not_true_iff_false. by rewrite (proj1 (download_state_spec label rows k rs Hin)).
Qed.

(** The row an active download takes its state from. *)
Lemma active_group_row label rows k rs :
  (k, rs) ∈ group_rows 0 rows [] → ¬ failed_download rows k →
  ∃ r, row_of rows k r ∧ g_state (judge_group label rs) = Some (row_state r)
    ∧ row_state r ≠ DownloadFailed
    ∧ ∀ r', row_of rows k r' →
        activeStateRank (Some (row_state r')) ≤ activeStateRank (Some (row_state r)).
Proof.
  intros Hin Hk. destruct (download_state_spec label rows k rs Hin) as (_ & r & Hr & Hs & Hmax).
  assert (∀ r', row_of rows k r' → row_state r' ≠ DownloadFailed) as Hnf
    by (intros r' Hr' E; apply Hk; by exists r').
  exists r. split; [done|]. split; [done|]. split; [by apply Hnf|]. intros r' Hr'.
  specialize (Hmax r' Hr'). rewrite Hs in Hmax.
  rewrite !severity_failed in Hmax; [done|apply bool_decide_eq_false; intros [= E]; revert E; by apply Hnf..].
Qed.

(** The state of a queue, by cases on whether some download did not fail. *)
Lemma aggregateQueue_state (rows : list QueueRecord) (now : Z) (show : bool) :
  rows ≠ [] →
  ∃ s, let agg := aggregateQueue rows now show in
    ds_State agg = Some s
    ∧ (s = DownloadFailed ↔ ∀ k r, row_of rows k r → failed_download rows k)
    ∧ (s ≠ DownloadFailed →
       (∃ k r, row_of rows k r ∧ ¬ failed_download rows k ∧ row_state r = s)
       ∧ ∀ k r, row_of rows k r → ¬ failed_download rows k →
           activeStateRank (Some (row_state r)) ≤ activeStateRank (Some s))
    ∧ ds_Recovers agg = negb (bool_decide (s = DownloadFailed)).
Proof.
  intros Hne. destruct (groups_spec rows) as (_ & _ & Hcomplete).
  unfold aggregateQueue. cbn zeta. set (label := show && _).
  change (List.filter (λ g, negb _) _) with (active_groups label rows).
  set (active := active_groups label rows). case_bool_decide as Hnone.
  - exists DownloadFailed. destruct (sizes _) as [sz dn]. cbn [ds_State ds_Recovers].
    split; [done|]. split; [|done]. split; [|done]. intros _ k r Hr.
    destruct (Hcomplete k r Hr) as (rs & Hin & _).
    apply (download_state_spec label rows k rs Hin), not_false_iff_true. intros Hff.
    assert (judge_group label rs ∈ active) as Hg.
    { apply active_groups_elem. exists k, rs. split; [done|]. split; [done|].
      rewrite <- (proj1 (download_state_spec label rows k rs Hin)), Hff. done. }
    rewrite Hnone in Hg. by apply not_elem_of_nil in Hg.
  - destruct (worst_active_spec active Hnone) as (g & Hg & Hw & Hmax).
    { intros g (k & rs & Hin & -> & Hk)%active_groups_elem.
      destruct (active_group_row label rows k rs Hin Hk) as (r & _ & -> & Hr & _).
      by apply row_active. }
    apply active_groups_elem in Hg as (k & rs & Hin & -> & Hk).
    destruct (active_group_row label rows k rs Hin Hk) as (r & Hr & Hs & Hrs & _).
    exists (row_state r). destruct (sizes _) as [sz dn]. cbn [ds_State ds_Recovers].
    rewrite Hw, Hs. split; [done|]. split; [|split; [|by rewrite bool_decide_eq_false_2]].
    + split; [done|]. intros Hall. destruct Hk. by eapply Hall.
    + intros _. split; [by exists k, r|]. intros k' r' Hr' Hk'.
      destruct (Hcomplete k' r' Hr') as (rs' & Hin' & _).
      destruct (active_group_row label rows k' rs' Hin' Hk') as (r2 & _ & Hs2 & _ & Hmax2).
      specialize (Hmax2 r' Hr'). rewrite Hs in Hmax.
      specialize (Hmax (judge_group label rs')). rewrite Hs2 in Hmax. etrans; [exact Hmax2|].
      apply Hmax, active_groups_elem. by exists k', rs'.
Qed.

(** A non-empty queue reads as failed exactly when every download in it
    failed (a download fails when one of its rows does); otherwise its state is
    the worst state of a row among the downloads that did not fail.  Only a
    state that is not failed counts as evidence of recovery. *)
Lemma aggregate_queue_state (rows : list QueueRecord) (now : Z) (show : bool) :
  rows ≠ [] →
  ∃ s, let agg := aggregateQueue rows now show in
    ds_State agg = Some s
    ∧ (s = DownloadFailed ↔ ∀ k r, row_of rows k r → failed_download rows k)
    ∧ (s ≠ DownloadFailed →
       (∃ k r, row_of rows k r ∧ ¬ failed_download rows k ∧ row_state r = s)
       ∧ ∀ k r, row_of rows k r → ¬ failed_download rows k →
           activeStateRank (Some (row_state r)) ≤ activeStateRank (Some s))
    ∧ ds_Recovers agg = negb (bool_decide (s = DownloadFailed)).
Proof. apply aggregateQueue_state. Qed.

(** * What a failed verdict rests on *)

Lemma newer_trans a b c : newer a b = false → newer b c = false → newer a c = false.
Proof.
  unfold newer. repeat case_match; breflect; lia.
Qed.

Lemma newer_asym a b : newer a b = true → newer b a = false.
Proof. unfold newer. repeat case_match; breflect; lia. Qed.

(** The newest decisive event. *)
Lemma latestDownloadEvent_spec (hist : list HistoryRecord) (h : HistoryRecord) :
  latestDownloadEvent hist = Some h →
  h ∈ hist ∧ decisive h = true ∧ ∀ h', h' ∈ hist → decisive h' = true → newer h' h = false.
Proof.
  unfold latestDownloadEvent. set (f := λ best h, _). intros Hl.
  assert (∀ l best, fold_left f l best = Some h →
    (best = Some h ∨ h ∈ l) ∧ (∀ b, best = Some b → newer b h = false)
    ∧ ∀ h', h' ∈ l → newer h' h = false) as Hgen.
  { clear Hl. induction l as [|x l IH]; intros best Hb; cbn [fold_left] in Hb.
    - subst best. split; [by left|]. split; [|by intros ? ?%not_elem_of_nil].
      intros b [= ->]. unfold newer. repeat case_match; breflect; lia.
    - destruct (IH _ Hb) as (Hin & Hbest & Hall). unfold f in Hin, Hbest.
      destruct best as [b|].
      + destruct (newer x b) eqn:Ex.
        * pose proof (Hbest x eq_refl) as Hx. split; [|split].
          -- destruct Hin as [[= ->]|?]; right; [left|by right].
          -- intros b' [= <-]. eapply newer_trans; [apply (newer_asym x b Ex)|exact Hx].
          -- intros h' [->|?]%elem_of_cons; [done|by apply Hall].
        * pose proof (Hbest b eq_refl) as Hx. split; [|split].
          -- destruct Hin as [?|?]; [by left|right; by right].
          -- intros b' [= <-]. done.
          -- intros h' [->|?]%elem_of_cons; [by eapply newer_trans|by apply Hall].
      + pose proof (Hbest x eq_refl) as Hx. split; [|split].
        * destruct Hin as [[= ->]|?]; right; [left|by right].
        * done.
        * intros h' [->|?]%elem_of_cons; [done|by apply Hall]. }
  destruct (Hgen _ _ Hl) as ([?|Hin] & _ & Hall); [done|].
  apply elem_of_List_filter in Hin as [Hin Hd]. split; [done|]. split; [done|].
  intros h' Hin' Hd'. apply Hall, elem_of_List_filter. done.
Qed.

Lemma idleStatus_failed app mon files hist waiting :
  ds_State (idleStatus app mon files hist waiting) = Some DownloadFailed →
  files = false ∧ ∃ h, latestDownloadEvent hist = Some h ∧ h_EventType h = EventDownloadFailed.
Proof.
  unfold idleStatus. destruct files; [done|]. intros H. split; [done|].
  destruct (latestDownloadEvent hist) as [h|].
  - case_bool_decide; [by exists h|]. by destruct mon.
  - by destruct mon.
Qed.

Lemma seasonsIdle_is_idle s hist seasons :
  ∃ mon files waiting, seasonsIdleStatus s hist seasons = idleStatus "Sonarr" mon files hist waiting.
Proof.
  unfold seasonsIdleStatus, seriesIdleStatus.
  destruct seasons as [|n l]; [|destruct (omap (series_Season s) (n :: l)) as [|x found]];
    [destruct (sr_Statistics s) as [st|]..|]; eauto 10.
Qed.

(** The evidence a failed verdict needs besides the queue. *)
Definition failure_event (rows : list QueueRecord) (hist : list HistoryRecord) : Prop :=
  match latestDownloadEvent hist with
  | None => rows ≠ []
  | Some h =>
      h_EventType h = EventDownloadFailed
      ∨ rows ≠ [] ∧ h_EventType h = EventGrabbed
        ∧ (h_DownloadID h = "" ∨ h_DownloadID h ∈ q_DownloadID <$> rows)
  end.

Lemma judge_failed queued agg rows idle hist :
  (ds_State idle = Some DownloadFailed →
   ∃ h, latestDownloadEvent hist = Some h ∧ h_EventType h = EventDownloadFailed) →
  (queued = true → rows ≠ []) →
  ds_State (judge (if (queued : bool) then Some (newFailedQueue agg rows) else None) idle hist)
    = Some DownloadFailed →
  failure_event rows hist.
Proof.
  intros Hidle Hq. unfold failure_event.
  assert (ds_State idle = Some DownloadFailed → match latestDownloadEvent hist with
    | None => rows ≠ []
    | Some h => h_EventType h = EventDownloadFailed ∨ rows ≠ [] ∧ h_EventType h = EventGrabbed
                  ∧ (h_DownloadID h = "" ∨ h_DownloadID h ∈ q_DownloadID <$> rows) end) as Hi.
  { intros H. destruct (Hidle H) as (h & -> & ?). by left. }
  destruct queued; [|exact Hi]. specialize (Hq eq_refl). unfold judge.
  case_bool_decide as Hp; [by rewrite Hp|].
  destruct (latestDownloadEvent hist) as [h|] eqn:Eh; [|done].
  apply latestDownloadEvent_spec in Eh as (_ & Hd & _).
  destruct (IsImport (h_EventType h)) eqn:Ei; [exact Hi|].
  case_bool_decide as Hg; cbn [andb].
  - destruct (String.eqb_spec (h_DownloadID h) "") as [Hid|Hid]; cbn [negb andb]; [by auto|].
    destruct (mem (h_DownloadID h) _) eqn:Em; cbn [negb]; [|exact Hi]. intros _. right.
    split; [done|]. split; [done|]. right. breflect. cbn [fq_downloads newFailedQueue] in Em.
    by apply elem_of_List_filter in Em as [? _].
  - intros _. left. unfold decisive in Hd. rewrite Ei, (bool_decide_eq_false_2 _ Hg) in Hd.
    cbn [orb] in Hd. rewrite orb_false_r in Hd. by apply bool_decide_eq_true in Hd.
Qed.

(** A judged failure, with [queued] telling whether the queue had rows. *)
Lemma movie_status_failed i id r item agg rows queued p p' st :
  (queued = true → rows ≠ []) →
  movie_status i id r item (if (queued : bool) then Some (newFailedQueue agg rows) else None) p
    = (p', Some st) → ds_State st = Some DownloadFailed →
  ∃ m hist p1 p2, i_movie i item = Found m ∧ mv_HasFile m = false
    ∧ history i r item p1 = (p2, Some hist) ∧ failure_event rows hist.
Proof.
  intros Hq Hst Hf. unfold movie_status in Hst. destruct (spend p) as [p1|]; [|done].
  destruct (i_movie i item) as [m| |]; [|by simplify_eq|done].
  destruct (mv_HasFile m) eqn:Ehf; [by simplify_eq|].
  destruct (history i r item p1) as [p2 [hist|]] eqn:Eh; [|done]. injection Hst as <- <-.
  exists m, hist, p1, p2. split; [done|]. split; [done|]. split; [done|].
  eapply judge_failed; [|exact Hq|exact Hf].
  exact (λ Hi, proj2 (idleStatus_failed _ (mv_Monitored m) false hist (movieWaiting m) Hi)).
Qed.

Lemma series_status_failed i id r item seasons agg rows queued p p' st :
  (queued = true → rows ≠ []) →
  series_status i id r item seasons (if (queued : bool) then Some (newFailedQueue agg rows) else None) p
    = (p', Some st) → ds_State st = Some DownloadFailed →
  ∃ s hist p1 p2, i_series i item = Found s
    ∧ ds_State (seasonsIdleStatus s [] seasons) ≠ Some DownloadImportPending
    ∧ seasonHistory i r item seasons p1 = (p2, Some hist) ∧ failure_event rows hist.
Proof.
  intros Hq Hst Hf. unfold series_status in Hst. destruct (spend p) as [p1|]; [|done].
  destruct (i_series i item) as [s| |]; [|by simplify_eq|done].
  case_bool_decide as Hp; [simplify_eq; by rewrite Hf in Hp|].
  destruct (seasonHistory i r item seasons p1) as [p2 [hist|]] eqn:Eh; [|done].
  injection Hst as <- <-. exists s, hist, p1, p2.
  split; [done|]. split; [done|]. split; [done|]. eapply judge_failed; [|exact Hq|exact Hf].
  destruct (seasonsIdle_is_idle s hist seasons) as (mon & files & wt & ->).
  by intros [_ ?]%idleStatus_failed.
Qed.

(** The sync judges a request failed only when every download queued for
    its item failed, its files are not there, and the history read for it does
    not contradict that: the newest decisive event is a failure, or the queue
    holds failed downloads and nothing newer than them was grabbed or
    imported. *)
Lemma failed_verdict_evidence (i : instance) (id : string) (r : MediaRequest) (p p' : pass)
    (st : DownloadStatus) :
  request_status i id r p = (p', Some st) → ds_State st = Some DownloadFailed →
  ∃ item hist p1 p2,
    let rows := queueRowsForSeasons (byItem i item) (RequestSeasons r) in
    (∀ k q, row_of rows k q → failed_download rows k)
    ∧ failure_event rows hist
    ∧ if String.eqb (rq_Type r) TypeMovie
      then history i r item p1 = (p2, Some hist)
           ∧ ∃ m, i_movie i item = Found m ∧ mv_HasFile m = false
      else seasonHistory i r item (RequestSeasons r) p1 = (p2, Some hist)
           ∧ ∃ s, i_series i item = Found s
               ∧ ds_State (seasonsIdleStatus s [] (RequestSeasons r)) ≠ Some DownloadImportPending.
Proof.
  unfold request_status. destruct (linkedItem i id r p) as [p0 [item|]]; [|done].
  destruct (item =? 0); [by intros; simplify_eq|].
  set (rows := queueRowsForSeasons _ _). set (agg := aggregateQueue rows _ _).
  set (queued := negb (bool_decide (rows = []))).
  assert (queued = true → rows ≠ []) as Hq by (unfold queued; by case_bool_decide).
  intros Hv Hfailed. destruct (queued && negb (is_failed (ds_State agg))) eqn:Eq.
  { simplify_eq. rewrite Hfailed in Eq. by rewrite andb_false_r in Eq. }
  assert (∀ k q, row_of rows k q → failed_download rows k) as Hall.
  { intros k q Hkq. assert (rows ≠ []) as Hne.
    { intros E. destruct Hkq as (n & Hn & _). rewrite E in Hn. by rewrite lookup_nil in Hn. }
    destruct (aggregateQueue_state rows (i_now i) (String.eqb (rq_Type r) TypeShow) Hne)
      as (s & Hs & Hiff & _). cbn zeta in Hs. fold agg in Hs.
    unfold queued in Eq. rewrite (bool_decide_eq_false_2 _ Hne), Hs in Eq. cbn [negb andb] in Eq.
    apply negb_false_iff, is_failed_spec in Eq as [= ->]. exact (proj1 Hiff eq_refl k q Hkq). }
  destruct (String.eqb (rq_Type r) TypeMovie) eqn:Ety.
  - destruct (movie_status_failed _ _ _ _ _ rows queued _ _ _ Hq Hv Hfailed)
      as (m & hist & p1 & p2 & Hm & Hf & Hh & He).
    exists item, hist, p1, p2. fold rows. eauto 10.
  - destruct (series_status_failed _ _ _ _ _ _ rows queued _ _ _ Hq Hv Hfailed)
      as (s & hist & p1 & p2 & Hm & Hf & Hh & He).
    exists item, hist, p1, p2. fold rows. eauto 10.
Qed.

(** * Witnesses: a movie whose only download failed *)
Definition demo_queue_row (st : string) : QueueRecord :=
  mkQueueRecord 1 5 0 0 (f64_of_Z 100) (f64_of_Z 40) None None st "" "" [] "" "d1" None.
Definition demo_failed_row : QueueRecord :=
  mkQueueRecord 2 5 0 0 (f64_of_Z 100) (f64_of_Z 40) None None "" "" "failed" [] "" "d2" None.
Definition demo_instance : instance :=
  mkInstance "radarr" 0 [demo_failed_row] (λ _, Gone) (λ _, 0) (λ _, Gone) (λ _, Gone)
    (λ _, Found (mkMovie true false true "released")) (λ _, Gone)
    (λ _, Found [mkHistoryRecord 1 EventGrabbed 10 "d2" []]) (λ _, Gone) (λ _ _, Gone) true.
Definition demo_pass : pass := mkPass syncLookupBudget (mkWorld ∅ []).
Definition demo_movie : MediaRequest :=
  mkRequest "u" TypeMovie 77 "The Film" StatusDownloading [] [] None None None false (Some 5) None 1000.

Lemma aggregate_queue_state_witness :
  ∃ s, ds_State (aggregateQueue [demo_queue_row "paused"; demo_failed_row] 0 false) = Some s
    ∧ s = DownloadStalled.
Proof.
  destruct (aggregate_queue_state [demo_queue_row "paused"; demo_failed_row] 0 false)
    as (s & Hs & _); [done|].
  exists s. split; [exact Hs|]. vm_compute in Hs. congruence.
Defined.

Lemma failed_verdict_evidence_witness :
  (∃ st, (request_status demo_instance "a" demo_movie demo_pass).2 = Some st
     ∧ ds_State st = Some DownloadFailed)
  ∧ ∃ item hist, failure_event (queueRowsForSeasons (byItem demo_instance item) []) hist.
Proof.
  destruct (request_status demo_instance "a" demo_movie demo_pass) as [p' [st|]] eqn:E;
    [|by vm_compute in E].
  assert (ds_State st = Some DownloadFailed) as Hf by (vm_compute in E; by simplify_eq).
  split; [by exists st|].
  destruct (failed_verdict_evidence demo_instance "a" demo_movie demo_pass p' st E Hf)
    as (item & hist & _ & _ & _ & He & _).
  exists item, hist. exact He.
Defined.

(** * Writing a verdict back *)

(** The three status changes a verdict can cause: [r] is the row the pass read,
    [cur] the row stored now. *)
Definition verdict_fails (e : apply_env) (r cur : MediaRequest) (st : DownloadStatus) : bool :=
  is_failed (ds_State st) && negb (has_status StatusFailed r) && ap_fail_ok e
  && (has_status StatusApproved cur || has_status StatusDownloading cur).
Definition verdict_recovers (e : apply_env) (id : string) (r cur : MediaRequest)
    (st : DownloadStatus) (db : DB) : bool :=
  has_status StatusFailed r && negb (is_failed (ds_State st)) && ds_Recovers st && ap_recover_ok e
  && (has_status StatusFailed cur && negb (superseding id cur db)).
Definition verdict_starts (e : apply_env) (r cur : MediaRequest) (st : DownloadStatus) : bool :=
  negb (is_failed (ds_State st)) && has_status StatusApproved r && ap_update_ok e && ap_mark_ok e
  && has_status StatusApproved cur.

Definition set_status (r : MediaRequest) (s : status) : MediaRequest := r <| rq_Status := s |>.

Lemma set_status_same r : set_status r (rq_Status r) = r.
Proof. by destruct r. Qed.

Lemma update_where_found id guard f db (r : MediaRequest) :
  db !! id = Some r →
  update_where id guard f db
  = (<[id := if guard r then f r else r]> db, if guard r then 1 else 0).
Proof.
  intros Hr. unfold update_where. rewrite Hr. destruct (guard r); [done|]. by rewrite insert_id.
Qed.

Lemma write_back_spec e id r failed w res cur :
  w_db w !! id = Some cur →
  let '(w', res') := write_back e id r failed w res in
  w_db w' = <[id := if negb failed && has_status StatusApproved r && ap_update_ok e && ap_mark_ok e
                       && has_status StatusApproved cur
                    then set_status cur StatusDownloading else cur]> (w_db w)
  ∧ w_notices w' = w_notices w ∧ sy_Failed res' = sy_Failed res ∧ sy_Recovered res' = sy_Recovered res.
Proof.
  intros Hl. unfold write_back. destruct (ap_update_ok e); cbn [negb];
    [|by rewrite andb_false_r, insert_id].
  unfold UpdateMediaRequestDownload. rewrite (update_where_found _ _ _ _ _ Hl).
  assert ((if in_flight (rq_Status cur) then cur else cur) = cur) as -> by by destruct (in_flight _).
  rewrite insert_id by done. rewrite andb_true_r.
  destruct (has_status StatusApproved r), failed, (ap_mark_ok e); cbn [negb andb];
    try (split; [by rewrite insert_id|by destruct (in_flight _)]).
  unfold MarkMediaRequestDownloading, update_where, over, eta_world. cbn. rewrite Hl. destruct (has_status StatusApproved cur); (split; [|by destruct (in_flight _)]).
  - done.
  - cbn. by rewrite insert_id.
Qed.

(** Writing a verdict back changes one row and at most its status: to
    failed when the verdict is failed and the request was still approved or
    downloading, back to downloading on evidence that the download recovered
    and no newer request took its seasons, and from approved to downloading on
    any other verdict.  The failure notices go out exactly when this call
    moved the row to failed, however stale the row it was read from. *)
Lemma apply_verdict_spec (e : apply_env) (id : string) (r cur : MediaRequest)
    (st : DownloadStatus) (w : world) (res : SyncResult) :
  w_db w !! id = Some cur →
  let '(w', res') := applyDownloadStatus e id r st w res in
  let fails := verdict_fails e r cur st in
  let recovers := verdict_recovers e id r cur st (w_db w) in
  w_db w' = <[id := set_status cur
                      (if fails then StatusFailed
                       else if recovers || verdict_starts e r cur st then StatusDownloading
                       else rq_Status cur)]> (w_db w)
  ∧ w_notices w' = (if fails then w_notices (notifyDownloadFailed e r (ds_Message st) w)
                    else w_notices w)
  ∧ sy_Failed res' = sy_Failed res + Z.b2z fails
  ∧ sy_Recovered res' = sy_Recovered res + Z.b2z recovers.
Proof.
  intros Hl. unfold applyDownloadStatus, verdict_fails, verdict_recovers, verdict_starts.
  set (f := is_failed (ds_State st)). set (rf := has_status StatusFailed r).
  assert (∀ b : bool, (if b then set_status cur StatusDownloading else cur)
    = set_status cur (if b then StatusDownloading else rq_Status cur)) as Hset.
  { intros []; [done|by rewrite set_status_same]. }
  assert (rf = true → has_status StatusApproved r = false) as Hrf.
  { unfold rf. rewrite has_status_spec. unfold has_status. by intros ->. }
  destruct (f && negb rf) eqn:Efail; cbn [andb].
  - apply andb_true_iff in Efail as [-> Hnrf%negb_true_iff]. rewrite Hnrf. cbn [negb andb orb].
    destruct (ap_fail_ok e); cbn [negb andb]; [|by rewrite set_status_same, insert_id, !Z.add_0_r].
    unfold FailMediaRequestDownload. rewrite (update_where_found _ _ _ _ _ Hl).
    destruct (has_status StatusApproved cur || has_status StatusDownloading cur); cbn [Z.b2z].
    + change (1 =? 1) with true. cbn iota beta. split; [by rewrite notifyDownloadFailed_db|].
      split; [|split; simpl; lia].
      unfold notifyDownloadFailed. destruct (ap_perm e) as [p|]; [by destruct (p_IsAdmin p)|done].
    + rewrite set_status_same. simpl. split; [done|]. split; [done|]. lia.
  - destruct (rf && negb f && ds_Recovers st) eqn:Erec; cbn [andb].
    + apply andb_true_iff in Erec as [[Hr Hf%negb_true_iff]%andb_true_iff Hev].
      rewrite ?Hr, ?Hf, (Hrf Hr). cbn [negb andb orb].
      destruct (ap_recover_ok e); cbn [negb andb orb Z.b2z];
        [|by rewrite set_status_same, insert_id, !Z.add_0_r].
      unfold RecoverMediaRequestDownload. rewrite (update_where_found _ _ _ _ _ Hl).
      destruct (has_status StatusFailed cur && negb (superseding id cur (w_db w))); cbn [Z.b2z orb].
      * change (1 =? 1) with true. simpl. split; [done|]. split; [done|]. lia.
      * change (0 =? 1) with false. cbn iota. rewrite insert_id by done.
        match goal with |- context [write_back e id r true ?x res] => replace x with w by by destruct w end.
        pose proof (write_back_spec e id r true w res cur Hl) as Hw.
        destruct (write_back _ _ _ _ _ _) as [w' res']. destruct Hw as (Hd & Hn & H1 & H2).
        cbn [negb andb] in Hd. rewrite set_status_same, Hd, Hn, H1, H2. split; [done|]. split; [done|]. lia.
    + pose proof (write_back_spec e id r (f || rf) w res cur Hl) as Hw.
      destruct (write_back _ _ _ _ _ _) as [w' res']. destruct Hw as (Hd & Hn & H1 & H2).
      rewrite Hd, Hn, H1, H2, Hset.
      destruct f, rf; cbn [negb andb orb Z.b2z] in *; rewrite ?Hrf by done; rewrite ?Z.add_0_r; done.
Qed.

(** A verdict read against a stale row: the request was marked failed since. *)
Definition demo_apply_env : apply_env := mkApplyEnv true true true true None "Radarr" 2020.
Definition demo_failed_status : DownloadStatus :=
  mkStatus (Some DownloadFailed) None None None "No space left" false.

Lemma apply_verdict_spec_witness :
  w_notices (applyDownloadStatus demo_apply_env "a" demo_movie demo_failed_status
    (mkWorld {["a" := set_status demo_movie StatusFailed]} []) (mkSyncResult 0 0 0 0 0 0 0)).1 = []
  ∧ sy_Failed (applyDownloadStatus demo_apply_env "a" demo_movie demo_failed_status
      (mkWorld {["a" := demo_movie]} []) (mkSyncResult 0 0 0 0 0 0 0)).2 = 1.
Proof.
  split.
  - pose proof (apply_verdict_spec demo_apply_env "a" demo_movie (set_status demo_movie StatusFailed)
      demo_failed_status (mkWorld {["a" := set_status demo_movie StatusFailed]} [])
      (mkSyncResult 0 0 0 0 0 0 0) eq_refl) as H.
    destruct (applyDownloadStatus _ _ _ _ _ _) as [w' res']. exact (proj1 (proj2 H)).
  - pose proof (apply_verdict_spec demo_apply_env "a" demo_movie demo_movie
      demo_failed_status (mkWorld {["a" := demo_movie]} []) (mkSyncResult 0 0 0 0 0 0 0) eq_refl) as H.
    destruct (applyDownloadStatus _ _ _ _ _ _) as [w' res']. exact (proj1 (proj2 (proj2 H))).
Defined.
