(* ===== verification/ContentRating.v ===== *)
(** Content-rating ceilings: [internal/contentrating] and its SQL twin.

    The rank of an item is computed in SQL ([content_rating_rank], migrations
    00001 and 00016) in list queries and in Go ([Rank]) at the direct
    endpoints; a viewer's ceiling is always ranked in Go.  Proved: the two
    ladders agree on every string, so a list and a direct request hide the same
    items; and what an admin may set as a ceiling does restrict. *)
From S2P Require Import Prelude.
From S2P Require Import GoStrings.

Local Open Scope Z_scope.

Definition Rank (rating : string) : Z :=
  switch rating
    [([""], 4);
     (["G"; "TV-Y"; "TV-G"], 0);
     (["PG"; "TV-Y7"; "TV-PG"], 1);
     (["PG-13"; "TV-14"; "R-15"], 2);
     (["R"; "R-17+"], 3);
     (["NC-17"; "TV-MA"; "R+"; "R-18+"], 3);
     (["Rx"], 4)]
    4.

Definition knownCeilings : list string :=
  ["G"; "TV-Y"; "TV-G"; "PG"; "TV-Y7"; "TV-PG"; "PG-13"; "TV-14"; "R-15";
   "R"; "R-17+"; "NC-17"; "TV-MA"; "R+"; "R-18+"; "Rx"].

Definition IsKnownCeiling (rating : string) : bool := mem rating knownCeilings.

Definition IsAllowed (contentRating maxRating : string) : bool :=
  if String.eqb maxRating "" then true else Rank contentRating <=? Rank maxRating.

Definition MaxRatingRank (maxRating : string) : ptr Z :=
  if String.eqb maxRating "" then None else Some (Rank maxRating).

Definition AllRatings : list string :=
  ["G"; "PG"; "PG-13"; "R-15"; "R"; "R-17+"; "NC-17"; "R+"; "R-18+"; "Rx"].

(** [public.content_rating_rank(rating)]: the column may be NULL; arms are
    tried in order. *)
Definition content_rating_rank (rating : option string) : Z :=
  match rating with
  | None => 4
  | Some r =>
      if String.eqb r "" then 4
      else
        switch r
          [(["G"], 0); (["TV-Y"], 0); (["TV-G"], 0);
           (["PG"], 1); (["TV-Y7"], 1); (["TV-PG"], 1);
           (["PG-13"], 2); (["TV-14"], 2); (["R-15"], 2);
           (["R"], 3); (["R-17+"], 3);
           (["NC-17"], 3); (["TV-MA"], 3); (["R+"], 3); (["R-18+"], 3);
           (["Rx"], 4)]
          4
  end.

(** The filter of the list queries: [max_rating_rank IS NULL OR
    content_rating_rank(content_rating) <= max_rating_rank]. *)
Definition sql_visible (max_rating_rank : option Z) (content_rating : option string) : bool :=
  match max_rating_rank with
  | None => true
  | Some rk => content_rating_rank content_rating <=? rk
  end.

(** [SetContentRating]'s validation of the ceiling an admin sets: blank clears
    it, anything unknown is refused. *)
Definition validate_ceiling (body : ptr string) : string + ptr string :=
  match body with
  | None => inr None
  | Some raw =>
      let v := TrimSpace raw in
      if String.eqb v "" then inr None
      else if negb (IsKnownCeiling v) then inl ("unknown content rating " +:+ quoted v)
      else inr (Some v)
  end.

(** * Lockstep *)
Lemma rank_unknown (r : string) : r ∉ knownCeilings → Rank r = 4 ∧ content_rating_rank (Some r) = 4.
Proof.
  intros Hr. unfold Rank, content_rating_rank.
  assert (∀ l : list string, forallb (λ k, mem k knownCeilings) l = true → mem r l = false) as Hm.
  { intros l Hl. apply mem_false. intros Hin. apply forallb_Forall_iff in Hl.
    rewrite Forall_forall in Hl. by apply Hr, mem_spec, Hl. }
  destruct (String.eqb_spec r "") as [->|Hr0]; [done|].
  assert (mem r [""] = false) as H0 by (apply mem_false; by rewrite list_elem_of_singleton).
  cbn [switch]. rewrite H0, !Hm by (vm_compute; reflexivity). done.
Qed.

Lemma rank_lockstep (r : string) : content_rating_rank (Some r) = Rank r.
Proof.
  destruct (decide (r ∈ knownCeilings)) as [Hin|Hout].
  - unfold knownCeilings in Hin. rewrite !elem_of_cons in Hin.
    repeat (destruct Hin as [-> |Hin]; [by vm_compute|]). by apply elem_of_nil in Hin.
  - by destruct (rank_unknown r Hout) as [-> ->].
Qed.

(** Lists and direct requests agree: for every nullable item rating and
    every ceiling, the SQL filter with the Go-computed rank shows an item
    exactly when the Go check lets it through. *)
Lemma rating_filters_agree (content_rating : option string) (maxRating : string) :
  sql_visible (MaxRatingRank maxRating) content_rating =
  IsAllowed (default "" content_rating) maxRating.
Proof.
  unfold sql_visible, MaxRatingRank, IsAllowed.
  destruct (String.eqb maxRating ""); [done|].
  destruct content_rating as [r|]; [by rewrite rank_lockstep|]. done.
Qed.

(** What an admin can set restricts: a ceiling that passes validation is
    none, or a rating that hides every unrated or unknown item and whatever
    ranks above it; [Rx] alone, which ranks with the unrated, hides nothing. *)
Lemma accepted_ceiling_restricts (body : ptr string) (m : string)
    (Hv : validate_ceiling body = inr (Some m)) :
  m ∈ knownCeilings ∧
  (m ≠ "Rx" → ∀ cr, IsAllowed cr m = true → cr ∈ knownCeilings ∧ cr ≠ "Rx" ∧ Rank cr <= Rank m) ∧
  (m = "Rx" → ∀ cr, IsAllowed cr m = true).
Proof.
  unfold validate_ceiling in Hv. destruct body as [raw|]; [|done].
  destruct (String.eqb (TrimSpace raw) ""); [done|].
  destruct (IsKnownCeiling (TrimSpace raw)) eqn:Hk; [|done]. simpl in Hv. simplify_eq.
  unfold IsKnownCeiling in Hk. apply mem_spec in Hk. set (m := TrimSpace raw) in *.
  assert (String.eqb m "" = false) as Hne.
  { apply String.eqb_neq. intros E. rewrite E in Hk. apply mem_spec in Hk. vm_compute in Hk. done. } split; [done|]. split.
  - intros Hrx cr. unfold IsAllowed. rewrite Hne. intros Hle%Z.leb_le.
    assert (Rank m <= 3) as H3.
    { unfold knownCeilings in Hk. rewrite !elem_of_cons in Hk.
      repeat (destruct Hk as [-> |Hk]; [vm_compute; first [discriminate | done]|]).
      by apply elem_of_nil in Hk. }
    destruct (decide (cr ∈ knownCeilings)) as [Hin|Hout].
    + split; [done|]. split; [|done]. intros ->. change (Rank "Rx") with 4 in Hle. lia.
    + destruct (rank_unknown cr Hout) as [E _]. lia.
  - intros -> cr. unfold IsAllowed. apply Z.leb_le. change (Rank "Rx") with 4.
    destruct (decide (cr ∈ knownCeilings)) as [Hin|Hout].
    + unfold knownCeilings in Hin. rewrite !elem_of_cons in Hin.
      repeat (destruct Hin as [-> |Hin]; [vm_compute; discriminate|]). by apply elem_of_nil in Hin.
    + destruct (rank_unknown cr Hout) as [-> _]. done.
Qed.

Lemma accepted_ceiling_restricts_witness :
  validate_ceiling (Some " PG-13 ") = inr (Some "PG-13") ∧
  ("PG-13" ∈ knownCeilings ∧
   ("PG-13" ≠ "Rx" → ∀ cr, IsAllowed cr "PG-13" = true → cr ∈ knownCeilings ∧ cr ≠ "Rx" ∧ Rank cr <= Rank "PG-13") ∧
   ("PG-13" = "Rx" → ∀ cr, IsAllowed cr "PG-13" = true)).
Proof.
  split; [reflexivity|]. apply (accepted_ceiling_restricts (Some " PG-13 ")). reflexivity.
Defined.

Lemma AllRatings_ordered : StronglySorted Z.le (Rank <$> AllRatings) ∧ Forall (λ r, IsKnownCeiling r = true) AllRatings.
Proof. split; [vm_compute; repeat constructor; discriminate|]. by repeat constructor. Qed.

(** An unknown ceiling would lift the restriction: why it is refused. *)
Lemma unknown_ceiling_permissive (m cr : string) : m ∉ knownCeilings → IsAllowed cr m = true.
Proof.
  intros Hm. unfold IsAllowed. destruct (String.eqb m ""); [done|].
  destruct (rank_unknown m Hm) as [-> _]. apply Z.leb_le.
  destruct (decide (cr ∈ knownCeilings)) as [Hin|Hout].
  - unfold knownCeilings in Hin. rewrite !elem_of_cons in Hin.
    repeat (destruct Hin as [-> |Hin]; [vm_compute; discriminate|]). by apply elem_of_nil in Hin.
  - by destruct (rank_unknown cr Hout) as [-> _].
Qed.
