(* ===== verification/WatchLimit.v ===== *)
(** Parental watch limits: [internal/domain/watchlimit], with the admin setter
    and the report of [internal/api/v1/watchlimit.go].  The gates that enforce
    the limits are in WatchGates.v.

    Instants are microseconds since the epoch (a [timestamptz]).  The server's
    time zone is a parameter: its offset, in seconds east of UTC, at each
    instant. *)
From S2P Require Import Prelude.
From S2P Require Import GoStrings.

Local Open Scope Z_scope.

(** * The policy *)
Record Policy := mkPolicy {
  DailyLimitMinutes : ptr Z;
  AllowedStartMinute : ptr Z;
  AllowedEndMinute : ptr Z
}.
Definition no_policy : Policy := mkPolicy None None None.

Definition is_some {A} (p : ptr A) : bool := match p with Some _ => true | None => false end.

Definition Restricted (p : Policy) : bool :=
  is_some (DailyLimitMinutes p) || (is_some (AllowedStartMinute p) && is_some (AllowedEndMinute p)).

Inductive Reason := ReasonOutsideHours | ReasonDailyLimit.

(** * Local time *)
Definition micro : Z := 1000000.
Definition day_seconds : Z := 86400.

Section LocalTime.
Context (offset : Z → Z).

Definition local_seconds (now : Z) : Z := now `div` micro + offset now.
Definition Hour (now : Z) : Z := (local_seconds now `mod` day_seconds) `div` 3600.
Definition Minute (now : Z) : Z := (local_seconds now `mod` 3600) `div` 60.

(** The calendar day, as the number the [date] column orders by. *)
Definition LocalDay (now : Z) : Z := local_seconds now `div` day_seconds.

(** The window test for minute [nowMin] of the day. *)
Definition in_window (start stop nowMin : Z) : bool :=
  if start =? stop then true
  else if start <? stop then (start <=? nowMin) && (nowMin <? stop)
  else (start <=? nowMin) || (nowMin <? stop).

(** [None] allows; [Some] carries the reason. *)
Definition Evaluate (p : Policy) (usedSeconds now : Z) : option Reason :=
  let outside :=
    match AllowedStartMinute p, AllowedEndMinute p with
    | Some start, Some stop =>
        let nowMin := Hour now * 60 + Minute now in
        negb (in_window start stop nowMin)
    | _, _ => false
    end in
  if outside then Some ReasonOutsideHours
  else
    match DailyLimitMinutes p with
    | Some m => if wrap64 (m * 60) <=? usedSeconds then Some ReasonDailyLimit else None
    | None => None
    end.
End LocalTime.

(** * The store *)

(** [users.parent_user_id] by user, [user_watch_limit] by user, and
    [user_watch_usage] by user and day: seconds watched and the last tick. *)
Record DB := mkDB {
  users : gmap string (option string);
  limits : gmap string Policy;
  usage : gmap (string * Z) (Z * Z)
}.
#[export] Instance eta_DB : Eta DB := λ d, mkDB (users d) (limits d) (usage d).

Definition maxTickSeconds : Z := 30.

Definition effectiveOwner (db : DB) (userID : string) : option string :=
  match users db !! userID with
  | None => None
  | Some parent =>
      match limits db !! userID with
      | Some _ => Some userID
      | None => match parent with Some p => Some p | None => Some userID end
      end
  end.

Definition GetPolicy (db : DB) (userID : string) : Policy :=
  match effectiveOwner db userID with
  | Some owner => default no_policy (limits db !! owner)
  | None => no_policy
  end.

(** The statement fails when the user does not exist (foreign key) or a value
    breaks a check; [None] is that error. *)
Definition minute_ok (m : ptr Z) : bool :=
  match m with Some v => (0 <=? v) && (v <? 1440) | None => true end.
Definition policy_ok (p : Policy) : bool :=
  match DailyLimitMinutes p with Some v => (0 <=? v) && (v <=? int32_max) | None => true end &&
  minute_ok (AllowedStartMinute p) && minute_ok (AllowedEndMinute p).

Definition SetPolicy (db : DB) (userID : string) (p : Policy) : option DB :=
  if is_some (users db !! userID) && policy_ok p
  then Some (db <| limits := <[userID := p]> (limits db) |>)
  else None.

Definition TodayUsageSeconds (db : DB) (userID : string) (day : Z) : Z :=
  match effectiveOwner db userID with
  | Some owner => match usage db !! (owner, day) with Some (secs, _) => secs | None => 0 end
  | None => 0
  end.

(** [EXTRACT(EPOCH FROM interval)::int] of microseconds: rounded to the nearest
    second, halves away from zero. *)
Definition epoch_int (us : Z) : Z :=
  if us <? 0 then - ((- us + 500000) `div` micro) else (us + 500000) `div` micro.

Definition tick_delta (last now : Z) : Z :=
  Z.min (Z.max (epoch_int (now - last)) 0) maxTickSeconds.

Definition AddTick (db : DB) (userID : string) (day now : Z) : option (DB * Z) :=
  if negb (is_some (users db !! userID)) then None
  else
    let secs :=
      match usage db !! (userID, day) with
      | Some (secs, last) => secs + tick_delta last now
      | None => 0
      end in
    Some (db <| usage := <[(userID, day) := (secs, now)]> (usage db) |>, secs).

(** * The admin setter and the report *)

(** The admin setter's validation ([WatchLimitHandler.Set]). *)
Definition set_request_ok (p : Policy) : bool :=
  match DailyLimitMinutes p with Some v => 0 <=? v | None => true end &&
  minute_ok (AllowedStartMinute p) && minute_ok (AllowedEndMinute p) &&
  Bool.eqb (is_some (AllowedStartMinute p)) (is_some (AllowedEndMinute p)).

Section Report.
Context (offset : Z → Z).

(** The self-service report ([respondPolicy]): minutes left of the cap. *)
Definition remaining_minutes (db : DB) (userID : string) (now : Z) : ptr Z :=
  match DailyLimitMinutes (GetPolicy db userID) with
  | None => None
  | Some m =>
      let rem := m - Z.quot (TodayUsageSeconds db userID (LocalDay offset now)) 60 in
      Some (if rem <? 0 then 0 else rem)
  end.
End Report.

(** * Evaluation *)
(** The window as one arc of the clock face: minutes after the start, on a
    face of 1440, compared with the arc's length. *)
Lemma in_window_arc (start stop m : Z) :
  0 <= start < 1440 → 0 <= stop < 1440 → 0 <= m < 1440 →
  in_window start stop m = true ↔
  start = stop ∨ (m - start) `mod` 1440 < (stop - start) `mod` 1440.
Proof.
  intros Hs He Hm. unfold in_window.
  assert (∀ z, -1440 < z < 1440 → z `mod` 1440 = if z <? 0 then z + 1440 else z) as Hmod.
  { intros z Hz. destruct (Z.ltb_spec z 0).
    - symmetry. apply (Z.mod_unique _ _ (-1)); lia.
    - apply Z.mod_small. lia. }
  rewrite !Hmod by lia.
  destruct (Z.eqb_spec start stop); [naive_solver|].
  destruct (Z.ltb_spec start stop), (Z.ltb_spec (m - start) 0), (Z.ltb_spec (stop - start) 0);
    breflect; lia.
Qed.
Section EvaluateSpec.
Context (offset : Z → Z).

(** Minutes since local midnight. *)
Definition minute_of_day (now : Z) : Z := (local_seconds offset now `mod` day_seconds) `div` 60.

Lemma clock_minute (now : Z) : Hour offset now * 60 + Minute offset now = minute_of_day now.
Proof.
  unfold Hour, Minute, minute_of_day, day_seconds. generalize (local_seconds offset now). intros s.
  Z.to_euclidean_division_equations. lia.
Qed.

Lemma minute_of_day_range (now : Z) : 0 <= minute_of_day now < 1440.
Proof.
  unfold minute_of_day, day_seconds. pose proof (Z.mod_pos_bound (local_seconds offset now) 86400 ltac:(lia)).
  split; [apply Z.div_pos; lia|apply Z.div_lt_upper_bound; lia].
Qed.

End EvaluateSpec.

(** What the columns of [user_watch_limit] can hold. *)
Definition stored (p : Policy) : Prop := policy_ok p = true.

Lemma stored_minutes (p : Policy) : stored p →
  (∀ v, DailyLimitMinutes p = Some v → 0 <= v <= int32_max) ∧
  (∀ v, AllowedStartMinute p = Some v → 0 <= v < 1440) ∧
  (∀ v, AllowedEndMinute p = Some v → 0 <= v < 1440).
Proof.
  unfold stored, policy_ok, minute_ok. intros H.
  destruct (DailyLimitMinutes p), (AllowedStartMinute p), (AllowedEndMinute p);
    breflect; (split; [|split]); intros ? [= <-]; lia.
Qed.

Lemma wrap_minutes (v : Z) : 0 <= v <= int32_max → wrap64 (v * 60) = v * 60.
Proof.
  unfold int32_max. intros H. apply wrap64_id. unfold in_int64, int64_min, int64_max. lia.
Qed.

(** A stored policy read on the clock: playback is outside hours exactly
    when both bounds are set, differ, and the minute of the day lies off the
    arc from start to end, which may pass midnight; within hours it is refused
    for the daily limit exactly when the seconds used reach the cap. *)
Lemma evaluate_spec (offset : Z → Z) (p : Policy) (used now : Z) (Hp : stored p) :
  (Evaluate offset p used now = Some ReasonOutsideHours ↔
   ∃ start stop, AllowedStartMinute p = Some start ∧ AllowedEndMinute p = Some stop ∧ start ≠ stop ∧
     (stop - start) `mod` 1440 <= (minute_of_day offset now - start) `mod` 1440) ∧
  (Evaluate offset p used now = Some ReasonDailyLimit ↔
   Evaluate offset (mkPolicy None (AllowedStartMinute p) (AllowedEndMinute p)) used now = None ∧
   ∃ m, DailyLimitMinutes p = Some m ∧ m * 60 <= used).
Proof.
  destruct (stored_minutes p Hp) as (Hd & Hs & He). unfold Evaluate. cbn [AllowedStartMinute AllowedEndMinute DailyLimitMinutes].
  assert (∀ m, DailyLimitMinutes p = Some m → wrap64 (m * 60) = m * 60) as Hw
    by (intros m Hm; by apply wrap_minutes, Hd).
  rewrite clock_minute. pose proof (minute_of_day_range offset now) as Hm.
  destruct (AllowedStartMinute p) as [st|], (AllowedEndMinute p) as [en|].
  { pose proof (in_window_arc st en _ (Hs _ eq_refl) (He _ eq_refl) Hm) as Ha.
    destruct (in_window st en (minute_of_day offset now)); cbn [negb].
    - split.
      + split; [destruct (DailyLimitMinutes p); [destruct (wrap64 _ <=? used)|]; done|].
        intros (a & b & [= <-] & [= <-] & Hne & Hle). destruct Ha as [Ha _].
        destruct Ha; [done|done|lia].
      + destruct (DailyLimitMinutes p) as [m|]; [|naive_solver].
        rewrite (Hw m eq_refl). destruct (Z.leb_spec (m * 60) used); naive_solver lia.
    - split; [|naive_solver]. split; [|done]. intros _. exists st, en. repeat split; try done.
      + intros E. enough (false = true) by done. apply Ha. by left.
      + destruct (Z.leb_spec ((en - st) `mod` 1440) ((minute_of_day offset now - st) `mod` 1440)); [done|].
        enough (false = true) by done. apply Ha. by right. }
  all: destruct (DailyLimitMinutes p) as [m|]; [|naive_solver];
    rewrite (Hw m eq_refl); destruct (Z.leb_spec (m * 60) used); naive_solver lia.
Qed.

(** An overnight window, 22:00 to 06:00, at UTC; it is 23:00. *)
Lemma evaluate_spec_witness :
  let p := mkPolicy (Some 60) (Some 1320) (Some 360) in
  (Evaluate (λ _, 0) p 3600 (23 * 3600 * micro) = Some ReasonDailyLimit ↔
   Evaluate (λ _, 0) (mkPolicy None (AllowedStartMinute p) (AllowedEndMinute p)) 3600 (23 * 3600 * micro) = None ∧
   ∃ m, DailyLimitMinutes p = Some m ∧ m * 60 <= 3600).
Proof.
  apply (evaluate_spec (λ _, 0) (mkPolicy (Some 60) (Some 1320) (Some 360)) 3600 (23 * 3600 * micro)).
  reflexivity.
Defined.

(** * Accounting *)
Lemma tick_delta_range (last now : Z) : 0 <= tick_delta last now <= 30.
Proof. unfold tick_delta, maxTickSeconds. lia. Qed.

(** A tick counts at most the time that passed, rounded to whole seconds. *)
Lemma tick_delta_elapsed (last now : Z) :
  last <= now → tick_delta last now * micro <= now - last + 500000.
Proof.
  intros H. unfold tick_delta, epoch_int, maxTickSeconds, micro.
  destruct (Z.ltb_spec (now - last) 0); [lia|].
  pose proof (Z.mul_div_le (now - last + 500000) 1000000 ltac:(lia)).
  assert (0 <= (now - last + 500000) `div` 1000000) by (apply Z.div_pos; lia). lia.
Qed.

(** Rounding to whole seconds counts at most double the time that passed. *)
Lemma tick_delta_double (last now : Z) : last <= now → tick_delta last now * micro <= 2 * (now - last).
Proof.
  intros H. unfold tick_delta, epoch_int, maxTickSeconds, micro.
  destruct (Z.ltb_spec (now - last) 0); [lia|]. Z.to_euclidean_division_equations. lia.
Qed.

(** Seconds counted for a user's own row of a day. *)
Definition counted (d : DB) (u : string) (day : Z) : Z :=
  match usage d !! (u, day) with Some (secs, _) => secs | None => 0 end.

Lemma AddTick_counted (d d' : DB) (v u : string) (day' day now n : Z) :
  AddTick d v day' now = Some (d', n) →
  users d' = users d ∧ limits d' = limits d ∧
  (counted d' u day = counted d u day ∨
   v = u ∧ day' = day ∧ counted d u day <= counted d' u day <= counted d u day + 30).
Proof.
  unfold AddTick, counted. destruct (negb (is_some (users d !! v))); [done|]. intros [= <- <-].
  split; [done|]. split; [done|].
  change (usage (d <| usage := ?m |>)) with m.
  destruct (decide ((v, day') = (u, day))) as [[= -> ->]|Hne].
  - right. split; [done|]. split; [done|]. rewrite lookup_insert_eq.
    destruct (usage d !! (u, day)) as [[secs last]|]; [|lia].
    pose proof (tick_delta_range last now). lia.
  - left. by rewrite lookup_insert_ne.
Qed.

Lemma AddTick_row (d d' : DB) (u : string) (day now n : Z) :
  AddTick d u day now = Some (d', n) →
  usage d' !! (u, day) = Some (match usage d !! (u, day) with Some (secs, last) => secs + tick_delta last now | None => 0 end, now).
Proof.
  unfold AddTick. destruct (negb (is_some (users d !! u))); [done|]. intros [= <- _].
  change (usage (d <| usage := ?m |>)) with m. apply lookup_insert_eq.
Qed.

Lemma AddTick_other_row (d d' : DB) (v : string) (k : string * Z) (day now n : Z) :
  AddTick d v day now = Some (d', n) → k ≠ (v, day) → usage d' !! k = usage d !! k.
Proof.
  unfold AddTick. destruct (negb (is_some (users d !! v))); [done|]. intros [= <- _] Hk.
  change (usage (d <| usage := ?m |>)) with m. by apply lookup_insert_ne.
Qed.
