(* ===== verification/WatchGates.v ===== *)
(** The gates of the parental watch limits in [internal/api/v1]: the read memo
    ([watchlimit_memo.go]), [watchLimitBlocks] and the progress heartbeat
    ([items.go]), the accrual from served bytes ([usage_accrue.go]), and which
    handler is wired to which of them ([WithWatchLimit] of each).

    One request runs its reads at one instant and without another request in
    between; two requests that miss the memo at the same time, of which the
    later to answer leaves the older reading, are not modelled.  Proved: the daily cap, with what the memos of the three handlers
    let through, and the household budget a profile escapes. *)
From S2P Require Import Prelude.
From S2P Require Import GoStrings.
From S2P Require Import WatchLimit.

Local Open Scope Z_scope.

(** * The memo *)
Definition watchLimitMemoTTL : Z := 10 * micro.
Definition fresh (at_ now : Z) : bool := now - at_ <? watchLimitMemoTTL.

(** Policies with the instant they were read; usage with its day, too. *)
Record Memo := mkMemo { m_policy : gmap string (Policy * Z); m_usage : gmap string (Z * Z * Z) }.
Definition newWatchLimitMemo : Memo := mkMemo ∅ ∅.

(** A read that misses asks the store, which may fail; a failure is not kept. *)
Definition memo_GetPolicy (db : DB) (fails : bool) (u : string) (now : Z) (m : Memo) : Memo * option Policy :=
  let fetch :=
    if fails then (m, None)
    else (mkMemo (<[u := (GetPolicy db u, now)]> (m_policy m)) (m_usage m), Some (GetPolicy db u)) in
  match m_policy m !! u with
  | Some (p, at_) => if fresh at_ now then (m, Some p) else fetch
  | None => fetch
  end.

Definition memo_TodayUsageSeconds (db : DB) (fails : bool) (u : string) (day now : Z) (m : Memo) : Memo * option Z :=
  let fetch :=
    if fails then (m, None)
    else (mkMemo (m_policy m) (<[u := (day, TodayUsageSeconds db u day, now)]> (m_usage m)), Some (TodayUsageSeconds db u day)) in
  match m_usage m !! u with
  | Some (d, secs, at_) => if (d =? day) && fresh at_ now then (m, Some secs) else fetch
  | None => fetch
  end.

Definition store_AddTick (fails : bool) (u : string) (day now : Z) (db : DB) : DB :=
  if fails then db else match AddTick db u day now with Some (db', _) => db' | None => db end.

Definition memo_forget (u : string) (m : Memo) : Memo := mkMemo (m_policy m) (delete u (m_usage m)).

(** * The handlers *)
Inductive Handler := Items | Transcode | LiveTV | DownloadJobs.
#[export] Instance Handler_eq_dec : EqDecision Handler.
Proof. solve_decision. Defined.

(** Whose gate reads through a memo, and whose accruer does; download jobs have
    no accruer. *)
Definition memoised (h : Handler) : bool := match h with DownloadJobs => false | _ => true end.
Definition accrues_memoised (h : Handler) : option bool :=
  match h with Items | LiveTV => Some true | Transcode => Some false | DownloadJobs => None end.

(** Which of the store's calls fail when they are made. *)
Record Faults := mkFaults { policy_fails : bool; usage_fails : bool; tick_fails : bool }.
Definition no_faults : Faults := mkFaults false false false.

Definition wl_GetPolicy (memo : bool) (db : DB) (f : Faults) (u : string) (now : Z) (m : Memo) : Memo * option Policy :=
  if memo then memo_GetPolicy db (policy_fails f) u now m
  else (m, if policy_fails f then None else Some (GetPolicy db u)).
Definition wl_TodayUsageSeconds (memo : bool) (db : DB) (f : Faults) (u : string) (day now : Z) (m : Memo)
    : Memo * option Z :=
  if memo then memo_TodayUsageSeconds db (usage_fails f) u day now m
  else (m, if usage_fails f then None else Some (TodayUsageSeconds db u day)).
Definition wl_AddTick (memo : bool) (f : Faults) (u : string) (day now : Z) (m : Memo) (db : DB) : Memo * DB :=
  (if memo then memo_forget u m else m, store_AddTick (tick_fails f) u day now db).

Section Gates.
Context (offset : Z → Z).

(** [watchLimitBlocks]; also the transcode start's gate.  A failed policy read
    opens the gate, a failed usage read counts as zero. *)
Definition watchLimitBlocks (h : Handler) (db : DB) (f : Faults) (u : string) (now : Z) (m : Memo) : Memo * option Reason :=
  let '(m, policy) := wl_GetPolicy (memoised h) db f u now m in
  match policy with
  | None => (m, None)
  | Some policy =>
      if negb (Restricted policy) then (m, None)
      else
        let '(m, used) := wl_TodayUsageSeconds (memoised h) db f u (LocalDay offset now) now m in
        (m, Evaluate offset policy (default 0 used) now)
  end.

(** A 'playing' heartbeat: gate, then accrue; a failed usage read opens it. *)
Definition progress_gate (db : DB) (f : Faults) (u : string) (now : Z) (m : Memo) : Memo * DB * option Reason :=
  let '(m, policy) := wl_GetPolicy (memoised Items) db f u now m in
  match policy with
  | None => (m, db, None)
  | Some policy =>
      if negb (Restricted policy) then (m, db, None)
      else
        let day := LocalDay offset now in
        let '(m, used) := wl_TodayUsageSeconds (memoised Items) db f u day now m in
        match used with
        | Some used =>
            match Evaluate offset policy used now with
            | Some reason => (m, db, Some reason)
            | None => (wl_AddTick (memoised Items) f u day now m db, None)
            end
        | None => (wl_AddTick (memoised Items) f u day now m db, None)
        end
  end.

(** [usageAccruer.Tick]: the throttle, then a tick for a restricted user. *)
Definition usageAccrueInterval : Z := 15 * micro.

Definition accruer_Tick (memo : bool) (db : DB) (f : Faults) (u : string) (now : Z) (last : gmap string Z) (m : Memo)
    : gmap string Z * Memo * DB :=
  if match last !! u with Some t => now - t <? usageAccrueInterval | None => false end then (last, m, db)
  else
    let last := <[u := now]> last in
    let '(m, policy) := wl_GetPolicy memo db f u now m in
    match policy with
    | None => (last, m, db)
    | Some policy =>
        if negb (Restricted policy) then (last, m, db)
        else let '(m, db) := wl_AddTick memo f u (LocalDay offset now) now m db in (last, m, db)
    end.

(** * The server *)
Record Surface := mkSurface { s_memo : Memo; s_last : gmap string Z }.
Record Server := mkServer { surfaces : Handler → Surface; db : DB }.

Definition boot (d : DB) : Server := mkServer (λ _, mkSurface newWatchLimitMemo ∅) d.
Definition with_surface (h : Handler) (x : Surface) (s : Server) : Handler → Surface :=
  λ h', if decide (h' = h) then x else surfaces s h'.

(** A heartbeat, a request for bytes (gate, then accrual), a request that is
    only gated (a session start, a playlist, a download), an admin's change. *)
Inductive event :=
  | Beat (f : Faults) (u : string) (now : Z)
  | Serve (h : Handler) (f : Faults) (u : string) (now : Z)
  | Open (h : Handler) (f : Faults) (u : string) (now : Z)
  | AdminSet (u : string) (p : Policy).

Definition handle (s : Server) (e : event) : Server * option Reason :=
  match e with
  | Beat f u now =>
      let x := surfaces s Items in
      let '(m, d, r) := progress_gate (db s) f u now (s_memo x) in
      (mkServer (with_surface Items (mkSurface m (s_last x)) s) d, r)
  | Serve h f u now =>
      let x := surfaces s h in
      let '(m, r) := watchLimitBlocks h (db s) f u now (s_memo x) in
      match r, accrues_memoised h with
      | None, Some memo =>
          let '(last, m, d) := accruer_Tick memo (db s) f u now (s_last x) m in
          (mkServer (with_surface h (mkSurface m last) s) d, None)
      | _, _ => (mkServer (with_surface h (mkSurface m (s_last x)) s) (db s), r)
      end
  | Open h f u now =>
      let x := surfaces s h in
      let '(m, r) := watchLimitBlocks h (db s) f u now (s_memo x) in
      (mkServer (with_surface h (mkSurface m (s_last x)) s) (db s), r)
  | AdminSet u p =>
      if set_request_ok p
      then match SetPolicy (db s) u p with Some d => (mkServer (surfaces s) d, None) | None => (s, None) end
      else (s, None)
  end.

Definition handle_all (s : Server) (es : list event) : Server := foldl (λ s e, (handle s e).1) s es.

(** * What one event reads and writes *)
Definition verdict (p : Policy) (used now : Z) : option Reason :=
  if Restricted p then Evaluate offset p used now else None.

Definition policy_src (d : DB) (u : string) (now : Z) (m : Memo) (p : Policy) : Prop :=
  p = GetPolicy d u ∨ ∃ at_, m_policy m !! u = Some (p, at_) ∧ fresh at_ now = true.
Definition usage_src (d : DB) (u : string) (day now : Z) (m : Memo) (v : Z) : Prop :=
  v = TodayUsageSeconds d u day ∨ ∃ at_, m_usage m !! u = Some (day, v, at_) ∧ fresh at_ now = true.

(** A memo after a request of [u] at [now]: nothing new but what was read. *)
Record learnt (d : DB) (u : string) (now : Z) (m m' : Memo) : Prop := {
  learnt_policy : ∀ w p at_, m_policy m' !! w = Some (p, at_) →
    m_policy m !! w = Some (p, at_) ∨ w = u ∧ p = GetPolicy d u ∧ at_ = now;
  learnt_usage : ∀ w day v at_, m_usage m' !! w = Some (day, v, at_) →
    m_usage m !! w = Some (day, v, at_) ∨ w = u ∧ v = TodayUsageSeconds d u day ∧ at_ = now
}.

Lemma learnt_refl (d : DB) (u : string) (now : Z) (m : Memo) : learnt d u now m m.
Proof. split; auto. Qed.

Lemma learnt_trans (d : DB) (u : string) (now : Z) (m1 m2 m3 : Memo) :
  learnt d u now m1 m2 → learnt d u now m2 m3 → learnt d u now m1 m3.
Proof.
  intros [P1 U1] [P2 U2]. split.
  - intros w p at_ H. destruct (P2 _ _ _ H) as [H'|H']; [by apply P1|by right].
  - intros w day v at_ H. destruct (U2 _ _ _ _ H) as [H'|H']; [by apply U1|by right].
Qed.

Lemma learnt_forget (d : DB) (u : string) (now : Z) (m : Memo) : learnt d u now m (memo_forget u m).
Proof.
  split; [auto|]. intros w day v at_ H. left. unfold memo_forget in H. cbn [m_usage] in H.
  by apply lookup_delete_Some in H as [_ ?].
Qed.

Lemma wl_GetPolicy_spec (memo : bool) (d : DB) (f : Faults) (u : string) (now : Z) (m m' : Memo) (r : option Policy) :
  wl_GetPolicy memo d f u now m = (m', r) →
  learnt d u now m m' ∧ m_usage m' = m_usage m ∧
  match r with Some p => policy_src d u now m p | None => policy_fails f = true end.
Proof.
  unfold wl_GetPolicy, memo_GetPolicy. intros H.
  assert (policy_fails f = false → learnt d u now m (mkMemo (<[u := (GetPolicy d u, now)]> (m_policy m)) (m_usage m))) as Hl.
  { intros _. split; [|auto]. intros w p at_ Hw. cbn [m_policy] in Hw.
    apply lookup_insert_Some in Hw as [[<- [= <- <-]]|[_ ?]]; auto. }
  unfold policy_src.
  destruct memo; [destruct (m_policy m !! u) as [[p at_]|] eqn:E; [destruct (fresh at_ now) eqn:Ef|]|];
    try (destruct (policy_fails f) eqn:Ep); simplify_eq; split_and!; eauto using learnt_refl.
Qed.

Lemma wl_TodayUsageSeconds_spec (memo : bool) (d : DB) (f : Faults) (u : string) (day now : Z) (m m' : Memo)
    (r : option Z) :
  wl_TodayUsageSeconds memo d f u day now m = (m', r) →
  learnt d u now m m' ∧
  match r with Some v => usage_src d u day now m v | None => usage_fails f = true end.
Proof.
  unfold wl_TodayUsageSeconds, memo_TodayUsageSeconds. intros H.
  assert (learnt d u now m (mkMemo (m_policy m) (<[u := (day, TodayUsageSeconds d u day, now)]> (m_usage m)))) as Hl.
  { split; [auto|]. intros w day' v at_ Hw. cbn [m_usage] in Hw.
    apply lookup_insert_Some in Hw as [[<- [= <- <- <-]]|[_ ?]]; auto. }
  unfold usage_src.
  destruct memo; [destruct (m_usage m !! u) as [[[d' v] at_]|] eqn:E;
      [destruct (Z.eqb_spec d' day) as [->|]; [destruct (fresh at_ now) eqn:Ef|]|]|];
    cbn [andb] in H; try (destruct (usage_fails f) eqn:Ep); simplify_eq; split_and!; eauto using learnt_refl.
Qed.

(** The gate's verdict, when the reads it makes work. *)
Definition judged (d : DB) (u : string) (now : Z) (m : Memo) (r : option Reason) : Prop :=
  ∃ p v, policy_src d u now m p ∧ usage_src d u (LocalDay offset now) now m v ∧ r = verdict p v now.

Lemma usage_src_ext (d : DB) (u : string) (day now : Z) (m m' : Memo) (v : Z) :
  m_usage m' = m_usage m → usage_src d u day now m' v → usage_src d u day now m v.
Proof. unfold usage_src. by intros ->. Qed.

Lemma watchLimitBlocks_spec (h : Handler) (d : DB) (f : Faults) (u : string) (now : Z) (m m' : Memo) (r : option Reason) :
  watchLimitBlocks h d f u now m = (m', r) →
  learnt d u now m m' ∧ (policy_fails f = false → usage_fails f = false → judged d u now m r).
Proof.
  unfold watchLimitBlocks. intros H.
  destruct (wl_GetPolicy (memoised h) d f u now m) as [m1 [p|]] eqn:E1;
    apply wl_GetPolicy_spec in E1 as (L1 & U1 & S1); [|by simplify_eq; split; [|congruence]].
  destruct (Restricted p) eqn:ER; cbn [negb] in H.
  - destruct (wl_TodayUsageSeconds (memoised h) d f u (LocalDay offset now) now m1) as [m2 v] eqn:E2.
    apply wl_TodayUsageSeconds_spec in E2 as (L2 & S2). simplify_eq.
    split; [by eapply learnt_trans|]. intros _ Hu. destruct v as [v|]; [|congruence].
    exists p, v. split; [done|]. split; [by eapply usage_src_ext|]. unfold verdict. by rewrite ER.
  - simplify_eq. split; [done|]. intros _ _. exists p, (TodayUsageSeconds d u (LocalDay offset now)).
    split; [done|]. split; [by left|]. unfold verdict. by rewrite ER.
Qed.

(** How a request may change the tables: not at all, or by one tick of its
    user, and then it was let through. *)
Definition ticked (d d' : DB) (u : string) (now : Z) (r : option Reason) : Prop :=
  d' = d ∨ r = None ∧ ∃ n, AddTick d u (LocalDay offset now) now = Some (d', n).

Lemma wl_AddTick_spec (memo : bool) (d0 d d' : DB) (f : Faults) (u : string) (now : Z) (m m' : Memo) :
  wl_AddTick memo f u (LocalDay offset now) now m d = (m', d') →
  learnt d0 u now m m' ∧ ticked d d' u now None.
Proof.
  unfold wl_AddTick, store_AddTick, ticked. intros [= <- <-].
  split; [destruct memo; [apply learnt_forget|apply learnt_refl]|].
  destruct (tick_fails f); [by left|]. destruct (AddTick d u _ now) as [[d1 n]|] eqn:E; [right|by left]. eauto.
Qed.

Lemma progress_gate_spec (d d' : DB) (f : Faults) (u : string) (now : Z) (m m' : Memo) (r : option Reason) :
  progress_gate d f u now m = (m', d', r) →
  learnt d u now m m' ∧ ticked d d' u now r ∧ (policy_fails f = false → usage_fails f = false → judged d u now m r).
Proof.
  unfold progress_gate. intros H.
  destruct (wl_GetPolicy (memoised Items) d f u now m) as [m1 [p|]] eqn:E1;
    apply wl_GetPolicy_spec in E1 as (L1 & U1 & S1); [|by simplify_eq; split_and!; [done|by left|congruence]].
  destruct (Restricted p) eqn:ER; cbn [negb] in H.
  2: { simplify_eq. split_and!; [done|by left|]. intros _ _. exists p, (TodayUsageSeconds d' u (LocalDay offset now)).
       split; [done|]. split; [by left|]. unfold verdict. by rewrite ER. }
  destruct (wl_TodayUsageSeconds (memoised Items) d f u (LocalDay offset now) now m1) as [m2 v] eqn:E2.
  apply wl_TodayUsageSeconds_spec in E2 as (L2 & S2).
  pose proof (learnt_trans _ _ _ _ _ _ L1 L2) as L.
  destruct v as [v|].
  2: { destruct (wl_AddTick (memoised Items) f u (LocalDay offset now) now m2 d) as [m3 d3] eqn:E3.
       apply (wl_AddTick_spec _ d) in E3 as [L3 T3]. simplify_eq.
       split_and!; [by eapply learnt_trans|done|congruence]. }
  assert (judged d u now m (Evaluate offset p v now)) as HJ.
  { exists p, v. split; [done|]. split; [by eapply usage_src_ext|]. unfold verdict. by rewrite ER. }
  destruct (Evaluate offset p v now) as [reason|].
  - simplify_eq. split_and!; [done|by left|done].
  - destruct (wl_AddTick (memoised Items) f u (LocalDay offset now) now m2 d) as [m3 d3] eqn:E3.
    apply (wl_AddTick_spec _ d) in E3 as [L3 T3]. simplify_eq. split_and!; [by eapply learnt_trans|done|done].
Qed.

Lemma accruer_Tick_spec (memo : bool) (d d' : DB) (f : Faults) (u : string) (now : Z) (last last' : gmap string Z)
    (m m' : Memo) :
  accruer_Tick memo d f u now last m = (last', m', d') → learnt d u now m m' ∧ ticked d d' u now None.
Proof.
  unfold accruer_Tick. intros H. case_match; [simplify_eq; split; [apply learnt_refl|by left]|].
  destruct (wl_GetPolicy memo d f u now m) as [m1 [p|]] eqn:E1;
    apply wl_GetPolicy_spec in E1 as (L1 & _ & _); [|simplify_eq; split; [done|by left]].
  destruct (Restricted p); cbn [negb] in H; [|simplify_eq; split; [done|by left]].
  destruct (wl_AddTick memo f u (LocalDay offset now) now m1 d) as [m3 d3] eqn:E3.
  apply (wl_AddTick_spec _ d) in E3 as [L3 T3]. simplify_eq. split; [by eapply learnt_trans|done].
Qed.

Definition event_user (e : event) : string :=
  match e with Beat _ u _ | Serve _ _ u _ | Open _ _ u _ | AdminSet u _ => u end.
Definition event_instant (e : event) : option Z :=
  match e with Beat _ _ now | Serve _ _ _ now | Open _ _ _ now => Some now | AdminSet _ _ => None end.
Definition event_handler (e : event) : Handler :=
  match e with Beat _ _ _ | AdminSet _ _ => Items | Serve h _ _ _ | Open h _ _ _ => h end.
(** The reads of this event work: the gates are documented to fail open. *)
Definition reads_work (e : event) : Prop :=
  match e with
  | Beat f _ _ | Serve _ f _ _ | Open _ f _ _ => policy_fails f = false ∧ usage_fails f = false
  | AdminSet _ _ => True
  end.

Definition memo_of (s : Server) (h : Handler) : Memo := s_memo (surfaces s h).

(** The effect of one request on the server. *)
Record request_effect (s : Server) (e : event) (u : string) (now : Z) (s' : Server) (r : option Reason) : Prop := {
  eff_memo : learnt (db s) u now (memo_of s (event_handler e)) (memo_of s' (event_handler e));
  eff_others : ∀ h, h ≠ event_handler e → memo_of s' h = memo_of s h;
  eff_db : ticked (db s) (db s') u now r;
  eff_verdict : reads_work e → judged (db s) u now (memo_of s (event_handler e)) r
}.

Lemma with_surface_eq (h : Handler) (x : Surface) (s : Server) : with_surface h x s h = x.
Proof. unfold with_surface. by rewrite decide_True. Qed.
Lemma with_surface_ne (h h' : Handler) (x : Surface) (s : Server) : h' ≠ h → with_surface h x s h' = surfaces s h'.
Proof. intros H. unfold with_surface. by rewrite decide_False. Qed.

Lemma request_effect_intro (s : Server) (e : event) (u : string) (now : Z) (x : Surface) (d : DB) (r : option Reason) :
  learnt (db s) u now (memo_of s (event_handler e)) (s_memo x) → ticked (db s) d u now r →
  (reads_work e → judged (db s) u now (memo_of s (event_handler e)) r) →
  request_effect s e u now (mkServer (with_surface (event_handler e) x s) d) r.
Proof.
  intros HL HT HJ. split; try done.
  - unfold memo_of at 2. cbn [surfaces]. by rewrite with_surface_eq.
  - intros h Hne. unfold memo_of. cbn [surfaces]. by rewrite with_surface_ne.
Qed.

Lemma handle_request (s : Server) (e : event) (now : Z) :
  event_instant e = Some now → request_effect s e (event_user e) now (handle s e).1 (handle s e).2.
Proof.
  intros Hi. destruct e as [f u t|h f u t|h f u t|]; [| | |done]; injection Hi as ->; cbn [handle event_user].
  - destruct (progress_gate (db s) f u now (s_memo (surfaces s Items))) as [[m d] r] eqn:E.
    apply progress_gate_spec in E as (HL & HT & HJ). apply (request_effect_intro s (Beat f u now)); try done.
    intros [? ?]. by apply HJ.
  - destruct (watchLimitBlocks h (db s) f u now (s_memo (surfaces s h))) as [m r] eqn:E.
    apply watchLimitBlocks_spec in E as (HL & HJ).
    assert (reads_work (Serve h f u now) → judged (db s) u now (memo_of s h) r) as HJ' by (intros [? ?]; by apply HJ).
    destruct r as [r|]; [apply (request_effect_intro s (Serve h f u now)); [done|by left|done]|].
    destruct (accrues_memoised h) as [memo|]; [|apply (request_effect_intro s (Serve h f u now)); [done|by left|done]].
    destruct (accruer_Tick memo (db s) f u now (s_last (surfaces s h)) m) as [[l m2] d] eqn:E2.
    apply accruer_Tick_spec in E2 as (HL2 & HT).
    apply (request_effect_intro s (Serve h f u now)); [by eapply learnt_trans|done|done].
  - destruct (watchLimitBlocks h (db s) f u now (s_memo (surfaces s h))) as [m r] eqn:E.
    apply watchLimitBlocks_spec in E as (HL & HJ).
    apply (request_effect_intro s (Open h f u now)); [done|by left|]. intros [? ?]. by apply HJ.
Qed.
End Gates.

(** * The daily cap *)

(** One clock: the instants of the requests do not go back. *)
Fixpoint in_order (t : Z) (es : list event) : Prop :=
  match es with
  | [] => True
  | e :: es =>
      match event_instant e with Some now => t <= now ∧ in_order now es | None => in_order t es end
  end.
Fixpoint last_instant (t : Z) (es : list event) : Z :=
  match es with
  | [] => t
  | e :: es => last_instant (default t (event_instant e)) es
  end.

Section Cap.
Context (offset : Z → Z) (u : string) (pol : Policy) (m day : Z).
Hypothesis Hstored : stored pol.
Hypothesis Hm : DailyLimitMinutes pol = Some m.

(** A user with a policy of its own. *)
Definition own_policy (d : DB) : Prop := is_some (users d !! u) = true ∧ limits d !! u = Some pol.

Lemma own_policy_reads (d : DB) : own_policy d →
  GetPolicy d u = pol ∧ TodayUsageSeconds d u day = counted d u day.
Proof using Type.
  intros [Hu Hl]. unfold GetPolicy, TodayUsageSeconds, counted, effectiveOwner.
  destruct (users d !! u); [|done]. rewrite Hl. by rewrite Hl.
Qed.

(** Only usage below the cap lets a request through. *)
Lemma verdict_below (used now : Z) : verdict offset pol used now = None → used < m * 60.
Proof using Hm Hstored.
  destruct (stored_minutes pol Hstored) as (Hd & _). unfold verdict, Restricted. rewrite Hm. cbn [is_some orb].
  unfold Evaluate. rewrite Hm, wrap_minutes by auto. intros H.
  destruct (match AllowedStartMinute pol with Some _ => _ | None => _ end); [done|].
  destruct (Z.leb_spec (m * 60) used); [done|lia].
Qed.

Definition cap : Z := m * 60.

Record cap_inv (t : Z) (s : Server) : Prop := {
  inv_own : own_policy (db s);
  inv_policy : ∀ h p at_, m_policy (memo_of s h) !! u = Some (p, at_) → p = pol;
  inv_at : ∀ h d v at_, m_usage (memo_of s h) !! u = Some (d, v, at_) → at_ <= t;
  inv_count : counted (db s) u day < cap ∨
    cap <= counted (db s) u day <= cap + 48 ∧
    ∀ h v at_, m_usage (memo_of s h) !! u = Some (day, v, at_) → v < cap →
      ∃ t0 last, usage (db s) !! (u, day) = Some (counted (db s) u day, last) ∧ at_ <= t0 <= last ∧ last <= t ∧
        (counted (db s) u day - (cap + 29)) * micro <= 2 * (last - t0)
}.

Lemma boot_cap (t : Z) (d : DB) : own_policy d → counted d u day <= cap + 48 → cap_inv t (boot d).
Proof using Type.
  intros Ho Hc. split; [done|by intros h p at_ H|by intros h d' v at_ H|].
  cbn [db boot]. destruct (Z.lt_ge_cases (counted d u day) cap); [by left|right].
  split; [lia|]. by intros h v at_ H'.
Qed.

(** The counter through a step that leaves the row of [u] alone and lets the
    memos learn at most the current count. *)
Lemma cap_quiet (t now : Z) (s s' : Server) :
  cap_inv t s → t <= now → own_policy (db s') → usage (db s') !! (u, day) = usage (db s) !! (u, day) →
  (∀ h p at_, m_policy (memo_of s' h) !! u = Some (p, at_) →
     m_policy (memo_of s h) !! u = Some (p, at_) ∨ p = pol) →
  (∀ h d v at_, m_usage (memo_of s' h) !! u = Some (d, v, at_) →
     m_usage (memo_of s h) !! u = Some (d, v, at_) ∨ at_ = now ∧ (d = day → v = counted (db s) u day)) →
  cap_inv now s'.
Proof using Type.
  intros [Ho Hp Ha Hc] Ht Ho' Hrow HP HU. split.
  - done.
  - intros h p at_ H. destruct (HP _ _ _ H) as [H'|H']; [by eapply Hp|done].
  - intros h d v at_ H. destruct (HU _ _ _ _ H) as [H'|[-> _]]; [pose proof (Ha _ _ _ _ H'); lia|lia].
  - assert (counted (db s') u day = counted (db s) u day) as Hct by (unfold counted; by rewrite Hrow).
    rewrite Hct, Hrow. destruct Hc as [Hc|[Hb Hc]]; [by left|right]. split; [done|].
    intros h v at_ H Hv. destruct (HU _ _ _ _ H) as [H'|[-> Hd]]; [|specialize (Hd eq_refl); lia].
    destruct (Hc _ _ _ H' Hv) as (t0 & last & E1 & E2 & E3 & E4). exists t0, last. split_and!; try done; lia.
Qed.

(** A tick of [u] on that day, which a cached or read usage below the cap let
    through. *)
Lemma cap_tick (t now n : Z) (s s' : Server) (h0 : Handler) (v0 : Z) :
  cap_inv t s → t <= now → own_policy (db s') → AddTick (db s) u day now = Some (db s', n) →
  usage_src (db s) u day now (memo_of s h0) v0 → v0 < cap →
  (∀ h p at_, m_policy (memo_of s' h) !! u = Some (p, at_) →
     m_policy (memo_of s h) !! u = Some (p, at_) ∨ p = pol) →
  (∀ h d v at_, m_usage (memo_of s' h) !! u = Some (d, v, at_) →
     m_usage (memo_of s h) !! u = Some (d, v, at_) ∨ at_ = now ∧ (d = day → v = counted (db s) u day)) →
  cap_inv now s'.
Proof using Type.
  intros [Ho Hp Ha Hc] Ht Ho' HT Hsrc Hv0 HP HU.
  destruct (AddTick_counted _ _ u u day day now n HT) as (_ & _ & Hb).
  pose proof (AddTick_row _ _ _ _ _ _ HT) as Hrow.
  assert (usage (db s') !! (u, day) = Some (counted (db s') u day, now)) as Hrow'
    by (rewrite Hrow; unfold counted; by rewrite Hrow).
  split; [done| | |].
  - intros h p at_ H. destruct (HP _ _ _ H) as [H'|H']; [by eapply Hp|done].
  - intros h d v at_ H. destruct (HU _ _ _ _ H) as [H'|[-> _]]; [pose proof (Ha _ _ _ _ H'); lia|lia].
  - destruct Hc as [Hc|[Hb' Hc]].
    { destruct (Z.lt_ge_cases (counted (db s') u day) cap); [by left|right]. split; [lia|].
      intros h v at_ He Hv. assert (at_ <= now) by (destruct (HU _ _ _ _ He) as [H'|[-> _]]; [pose proof (Ha _ _ _ _ H'); lia|lia]).
      exists now, now. unfold micro. split_and!; try done; lia. }
    right. destruct (own_policy_reads (db s) Ho) as [_ Htu].
    destruct Hsrc as [Hsrc|(at0 & Hat0 & Hfresh)]; [rewrite Htu in Hsrc; lia|].
    destruct (Hc _ _ _ Hat0 Hv0) as (t0 & last & E1 & E2 & E3 & E4).
    rewrite E1 in Hrow. rewrite Hrow' in Hrow. injection Hrow as Hcount.
    pose proof (tick_delta_double last now ltac:(lia)) as Hdbl. pose proof (tick_delta_range last now) as Hrange.
    unfold fresh, watchLimitMemoTTL in Hfresh. apply Z.ltb_lt in Hfresh. rewrite Hcount. unfold micro in *.
    split; [lia|]. intros h v at_ H Hv. destruct (HU _ _ _ _ H) as [H'|[-> Hd]]; [|specialize (Hd eq_refl); lia].
    destruct (Hc _ _ _ H' Hv) as (t1 & last1 & F1 & F2 & F3 & F4). rewrite E1 in F1. injection F1 as <-.
    exists t1, now. rewrite Hrow', Hcount. split_and!; try done; try lia.
Qed.


Lemma cap_request (t now : Z) (s : Server) (e : event) :
  cap_inv t s → t <= now → event_instant e = Some now → reads_work e → cap_inv now (handle offset s e).1.
Proof using Hm Hstored.
  intros HI Ht Hi Hr. pose proof HI as [Ho Hp Ha Hc]. destruct (own_policy_reads (db s) Ho) as [Hgp Htu].
  destruct (handle_request offset s e now Hi) as [[LP LU] Hothers Hdb Hv].
  set (s' := (handle offset s e).1) in *.
  assert (∀ h p at_, m_policy (memo_of s' h) !! u = Some (p, at_) →
    m_policy (memo_of s h) !! u = Some (p, at_) ∨ p = pol) as HP.
  { intros h p at_ H. destruct (decide (h = event_handler e)) as [->|Hne]; [|rewrite Hothers in H by done; by left].
    destruct (LP _ _ _ H) as [H'|(<- & -> & _)]; [by left|by right]. }
  assert (∀ h d v at_, m_usage (memo_of s' h) !! u = Some (d, v, at_) →
    m_usage (memo_of s h) !! u = Some (d, v, at_) ∨ at_ = now ∧ (d = day → v = counted (db s) u day)) as HU.
  { intros h d v at_ H. destruct (decide (h = event_handler e)) as [->|Hne]; [|rewrite Hothers in H by done; by left].
    destruct (LU _ _ _ _ H) as [H'|(<- & -> & ->)]; [by left|right]. split; [done|by intros ->]. }
  destruct Hdb as [Hdb|[Hnone (n & Hn)]].
  { apply (cap_quiet t now s); rewrite ?Hdb; done. }
  destruct (AddTick_counted _ _ _ u _ day _ _ Hn) as (Hus & Hls & _).
  assert (own_policy (db s')) as Ho' by (destruct Ho; split; [by rewrite Hus|by rewrite Hls]).
  destruct (decide ((u, day) = (event_user e, LocalDay offset now))) as [Heq|Hne].
  - injection Heq as Heu Hd. destruct (Hv Hr) as (p & v & Hps & Hus' & Hvd).
    rewrite <- Heu in *. rewrite <- Hd in *.
    assert (p = pol) as -> by (destruct Hps as [->|(at_ & Hat & _)]; [done|by eapply Hp]).
    rewrite Hnone in Hvd. apply (cap_tick t now n s s' (event_handler e) v); try done. by eapply verdict_below.
  - apply (cap_quiet t now s); try done. by apply (AddTick_other_row _ _ _ _ _ _ _ Hn).
Qed.

Lemma cap_admin (t : Z) (s : Server) (w : string) (p : Policy) :
  cap_inv t s → w ≠ u → cap_inv t (handle offset s (AdminSet w p)).1.
Proof using Type.
  intros HI Hw. cbn [handle]. destruct (set_request_ok p); [|done]. unfold SetPolicy.
  destruct (is_some (users (db s) !! w) && policy_ok p); [|done]. cbn [fst].
  apply (cap_quiet t t s); try done; try lia; cbn [db]; try (intros; by left).
  destruct HI as [[Hu Hl] _ _ _]. split; [done|].
  change (limits ((db s) <| limits := ?x |>)) with x. by rewrite lookup_insert_ne.
Qed.

Lemma cap_run (t : Z) (s : Server) (es : list event) :
  cap_inv t s → in_order t es → Forall reads_work es → (∀ p, AdminSet u p ∉ es) →
  cap_inv (last_instant t es) (handle_all offset s es).
Proof using Hm Hstored.
  revert t s. induction es as [|e es IH]; intros t s HI Hord Hr Hne; [done|].
  apply Forall_cons in Hr as [He Hr]. cbn [in_order last_instant handle_all foldl] in *.
  assert (∀ p, AdminSet u p ∉ es) as Hne' by (intros p Hp; apply (Hne p); by right).
  destruct (event_instant e) as [now|] eqn:Ei; cbn [default].
  - destruct Hord as [Hle Hord]. apply IH; try done. by apply (cap_request t now).
  - apply IH; try done. destruct e as [| | |w p]; try done. apply cap_admin; [done|].
    intros ->. apply (Hne p). by left.
Qed.

(** Ten seconds later every memo has run out, and the count itself decides. *)
Lemma cap_refused (t now : Z) (s : Server) (e : event) :
  cap_inv t s → cap <= counted (db s) u day → t + watchLimitMemoTTL <= now → LocalDay offset now = day →
  event_user e = u → event_instant e = Some now → reads_work e → (handle offset s e).2 ≠ None.
Proof using Hm Hstored.
  intros [Ho Hp Ha _] Hge Hlate Hd Hu Hi Hr Hnone. destruct (own_policy_reads (db s) Ho) as [Hgp Htu].
  destruct (handle_request offset s e now Hi) as [_ _ _ Hv]. destruct (Hv Hr) as (p & v & Hps & Hus & Hvd).
  rewrite Hu, Hd in *.
  assert (p = pol) as -> by (destruct Hps as [->|(at_ & Hat & _)]; [done|by eapply Hp]).
  rewrite Hnone in Hvd. apply eq_sym, verdict_below in Hvd. unfold cap in Hge.
  destruct Hus as [->|(at_ & Hat & Hf)]; [lia|].
  pose proof (Ha _ _ _ _ Hat). unfold fresh in Hf. apply Z.ltb_lt in Hf. lia.
Qed.
End Cap.

(** C22: the daily cap of a user with a policy of its own (not a profile that is
    judged by its parent: [profile_usage_uncounted]), as long as nobody changes
    that policy and every read of a policy and of a usage works (a failed read
    opens the gate, by design).  Requests are handled one at a time, in the order
    of one clock, through the memos of the three handlers, from a server start.
    Then, whatever beats, requests and admin changes of other users happen, the
    seconds counted for a day pass the cap by at most 48 (one tick of 30 less a
    second, and what a ten-second-old reading lets through), and ten seconds
    after the last event every request of that day by a user at the cap is
    refused. *)
Theorem daily_cap_holds (offset : Z → Z) (d : DB) (es : list event) (u : string) (pol : Policy) (m day t : Z)
    (Ho : own_policy u pol d) (Hs : stored pol) (Hm : DailyLimitMinutes pol = Some m)
    (H0 : counted d u day <= m * 60 + 48)
    (Hord : in_order t es) (Hr : Forall reads_work es) (Hne : ∀ p, AdminSet u p ∉ es) :
  let s := handle_all offset (boot d) es in
  counted (db s) u day <= m * 60 + 48 ∧
  (m * 60 <= counted (db s) u day → ∀ e now, event_user e = u → event_instant e = Some now → reads_work e →
     LocalDay offset now = day → last_instant t es + watchLimitMemoTTL <= now → (handle offset s e).2 ≠ None).
Proof.
  cbv zeta. pose proof (boot_cap u pol m day t d Ho H0) as HI.
  pose proof (cap_run offset u pol m day Hs Hm t (boot d) es HI Hord Hr Hne) as HI'. split.
  - destruct (inv_count _ _ _ _ _ _ HI') as [H|[H _]]; unfold cap in H; lia.
  - intros Hge e now Hu Hi He Hd Hlate.
    by apply (cap_refused offset u pol m day Hs Hm (last_instant t es) now).
Qed.

(** A one-minute cap; the transcode handler's memo still holds the reading of
    44 s when the count is 60, so more segments are served, and one counted. *)
Definition sample_db : DB :=
  mkDB {[ "kid" := None ]} {[ "kid" := mkPolicy (Some 1) None None ]} {[ ("kid", 0) := (30, 0) ]}.
Definition sample_day : list event :=
  [Serve Transcode no_faults "kid" (14 * micro); Open Transcode no_faults "kid" (28 * micro);
   Beat no_faults "kid" (30 * micro); Serve Transcode no_faults "kid" (37 * micro);
   Serve Transcode no_faults "kid" (38 * micro)].

Lemma daily_cap_holds_witness :
  let s := handle_all (λ _, 0) (boot sample_db) sample_day in
  counted (db s) "kid" 0 = 67 ∧ (handle (λ _, 0) s (Beat no_faults "kid" (60 * micro))).2 ≠ None.
Proof.
  assert (Forall reads_work sample_day) as Hr by (repeat constructor).
  assert (∀ p, AdminSet "kid" p ∉ sample_day) as Hne.
  { intros p Hp. unfold sample_day in Hp. rewrite !elem_of_cons, elem_of_nil in Hp.
    decompose sum Hp; try discriminate; assumption. }
  assert (in_order 0 sample_day) as Hord by (repeat split; discriminate).
  assert (counted sample_db "kid" 0 <= 1 * 60 + 48) as H0 by (vm_compute; discriminate).
  destruct (daily_cap_holds (λ _, 0) sample_db sample_day "kid" (mkPolicy (Some 1) None None) 1 0 0
    (conj eq_refl eq_refl) eq_refl eq_refl H0 Hord Hr Hne) as [_ H].
  split; [vm_compute; reflexivity|].
  apply (H ltac:(vm_compute; discriminate) (Beat no_faults "kid" (60 * micro)) (60 * micro));
    try reflexivity; [split; reflexivity|vm_compute; discriminate].
Defined.

(** * A managed profile *)
Section Profile.
Context (offset : Z → Z) (c p : string).

(** A profile without a policy of its own, judged by its parent. *)
Definition profile_of (d : DB) : Prop := users d !! c = Some (Some p) ∧ c ≠ p ∧ limits d !! c = None.

Record profile_inv (d0 : DB) (s : Server) : Prop := {
  pr_users : users (db s) = users d0;
  pr_limits : limits (db s) = limits d0;
  pr_usage : ∀ day, usage (db s) !! (p, day) = usage d0 !! (p, day);
  pr_policy : ∀ h q at_, m_policy (memo_of s h) !! c = Some (q, at_) → q = GetPolicy d0 c;
  pr_used : ∀ h day v at_, m_usage (memo_of s h) !! c = Some (day, v, at_) → v = TodayUsageSeconds d0 c day
}.

Lemma profile_reads (d0 : DB) (s : Server) : profile_of d0 → profile_inv d0 s →
  GetPolicy (db s) c = GetPolicy d0 c ∧ ∀ day, TodayUsageSeconds (db s) c day = TodayUsageSeconds d0 c day.
Proof using Type.
  intros (Hc & Hp & Hl) [Hu Hls Hus _ _]. unfold GetPolicy, TodayUsageSeconds, effectiveOwner.
  rewrite Hu, Hls, Hc, Hl. split; [done|]. intros day. by rewrite Hus.
Qed.

Lemma profile_step (d0 : DB) (s : Server) (e : event) (now : Z) :
  profile_of d0 → profile_inv d0 s → event_user e = c → event_instant e = Some now →
  profile_inv d0 (handle offset s e).1.
Proof using Type.
  intros Hpr HI Hu Hi. pose proof HI as [I1 I2 I3 I4 I5]. destruct (profile_reads _ _ Hpr HI) as [Hgp Htu].
  destruct Hpr as (_ & Hcp & _).
  destruct (handle_request offset s e now Hi) as [[LP LU] Hothers Hdb _]. rewrite Hu in *.
  assert (users (db (handle offset s e).1) = users (db s) ∧ limits (db (handle offset s e).1) = limits (db s) ∧
    ∀ day, usage (db (handle offset s e).1) !! (p, day) = usage (db s) !! (p, day)) as (Ha & Hb & Hc).
  { destruct Hdb as [->|[_ (n & Hn)]]; [done|].
    destruct (AddTick_counted _ _ _ p _ 0 _ _ Hn) as (? & ? & _). split_and!; try done.
    intros day. apply (AddTick_other_row _ _ _ _ _ _ _ Hn). congruence. }
  split; [congruence|congruence|intros day; rewrite Hc; apply I3| |].
  - intros h q at_ H. destruct (decide (h = event_handler e)) as [->|Hne]; [|rewrite Hothers in H by done; by eapply I4].
    destruct (LP _ _ _ H) as [H'|(_ & -> & _)]; [by eapply I4|done].
  - intros h day v at_ H. destruct (decide (h = event_handler e)) as [->|Hne]; [|rewrite Hothers in H by done; by eapply I5].
    destruct (LU _ _ _ _ H) as [H'|(_ & -> & _)]; [by eapply I5|done].
Qed.

Lemma profile_run (d0 : DB) (s : Server) (es : list event) :
  profile_of d0 → profile_inv d0 s → Forall (λ e, event_user e = c ∧ event_instant e ≠ None) es →
  profile_inv d0 (handle_all offset s es).
Proof using Type.
  intros Hpr. revert s. induction es as [|e es IH]; intros s HI He; [done|].
  apply Forall_cons in He as [[Hu Hi] He]. cbn [handle_all foldl]. apply IH; [|done].
  destruct (event_instant e) as [now|] eqn:E; [|done]. by apply (profile_step d0 s e now).
Qed.

Lemma profile_verdict (d0 : DB) (s : Server) (e : event) (now : Z) :
  profile_of d0 → profile_inv d0 s → event_user e = c → event_instant e = Some now → reads_work e →
  (handle offset s e).2 = verdict offset (GetPolicy d0 c) (TodayUsageSeconds d0 c (LocalDay offset now)) now.
Proof using Type.
  intros Hpr HI Hu Hi Hr. destruct (profile_reads _ _ Hpr HI) as [Hgp Htu].
  destruct (handle_request offset s e now Hi) as [_ _ _ Hv]. destruct (Hv Hr) as (q & v & Hq & Hus & ->). rewrite Hu in *.
  assert (q = GetPolicy d0 c) as -> by (destruct Hq as [->|(at_ & H & _)]; [done|by eapply (pr_policy _ _ HI)]).
  assert (v = TodayUsageSeconds d0 c (LocalDay offset now)) as ->; [|done].
  destruct Hus as [->|(at_ & H & _)]; [done|by eapply (pr_used _ _ HI)].
Qed.
End Profile.

(** Where the shared budget leaks: a managed profile without a policy of
    its own is judged by its parent's policy and its parent's usage, but its
    ticks are written to a row of its own that nothing reads, so whatever it
    watches after a server start, however long, each of its beats and requests
    gets the verdict it would have got with nothing watched. *)
Lemma profile_usage_uncounted (offset : Z → Z) (d : DB) (es : list event) (c p : string) (e : event) (now : Z)
    (Hpr : profile_of c p d) (Hes : Forall (λ e, event_user e = c ∧ event_instant e ≠ None) es)
    (Hu : event_user e = c) (Hi : event_instant e = Some now) (Hr : reads_work e) :
  (handle offset (handle_all offset (boot d) es) e).2 = (handle offset (boot d) e).2.
Proof.
  assert (profile_inv c p d (boot d)) as H0 by (split; done).
  rewrite (profile_verdict offset c p d _ e now Hpr (profile_run offset c p d _ es Hpr H0 Hes) Hu Hi Hr).
  by rewrite (profile_verdict offset c p d _ e now Hpr H0 Hu Hi Hr).
Qed.

(** A child with a one-minute household cap, after an hour of heartbeats. *)
Definition profile_db : DB :=
  mkDB (<["kid" := Some "parent"]> {[ "parent" := None ]}) {[ "parent" := mkPolicy (Some 1) None None ]} ∅.
Definition hour_of_beats : list event := (λ i : nat, Beat no_faults "kid" (10 * Z.of_nat i * micro)) <$> seq 0 360.

Lemma profile_usage_uncounted_witness :
  let s := handle_all (λ _, 0) (boot profile_db) hour_of_beats in
  counted (db s) "kid" 0 = 3590 ∧
  (handle (λ _, 0) s (Beat no_faults "kid" (3600 * micro))).2 =
    (handle (λ _, 0) (boot profile_db) (Beat no_faults "kid" (3600 * micro))).2.
Proof.
  split; [vm_compute; reflexivity|].
  apply (profile_usage_uncounted (λ _, 0) profile_db hour_of_beats "kid" "parent" (Beat no_faults "kid" (3600 * micro)) (3600 * micro)).
  - split; [reflexivity|]. split; [discriminate|reflexivity].
  - unfold hour_of_beats. apply Forall_fmap, Forall_forall. intros i _. split; [reflexivity|discriminate].
  - reflexivity.
  - reflexivity.
  - split; reflexivity.
Defined.
