(* ===== verification/IntroMarkers.v ===== *)
(** Intro and credits markers: [internal/intromarker] ([align.go],
    [detector.go], [fpcalc.go], [ffmpeg.go], [store.go]) with the statements of
    [intro_markers.sql] and the table's constraints.

    Fingerprint frames are 32-bit words.  The external programs are
    parameters: what [fpcalc] prints and the black regions [ffmpeg] reports
    (their parsed times) are arguments of the definitions that use them. *)
From Stdlib Require Import SpecFloat.
From stdpp Require Import gmap.
From S2P Require Import Prelude.
From S2P Require Import GoStrings.
From S2P Require Import GoBytes.
From S2P Require Import GoFloat.

Local Open Scope Z_scope.

(** * Alignment of two fingerprints *)
Record alignment := mkAlignment { aStart : Z; bStart : Z; length_ : Z; score : float64 }.
#[export] Instance eta_alignment : Eta alignment :=
  λ x, mkAlignment (aStart x) (bStart x) (length_ x) (score x).

Definition matchBitThreshold : Z := 6.
Definition minIntroFrames : Z := 40.

(** [bits.OnesCount32] *)
Fixpoint ones (p : positive) : Z :=
  match p with
  | xH => 1
  | xO p' => ones p'
  | xI p' => 1 + ones p'
  end.
Definition OnesCount32 (x : Z) : Z := match x with Zpos p => ones p | _ => 0 end.

Definition distance (x y : Z) : Z := OnesCount32 (Z.lxor x y).

(** The locals of one offset's walk; [runStart] is -1 outside a run. *)
Record walk_state := mkWalk { runStart : Z; runSim : float64; runLen : Z; found : alignment }.

Definition emit (off : Z) (s : walk_state) : walk_state :=
  if runLen s >? length_ (found s) then
    mkWalk (runStart s) (runSim s) (runLen s)
      (mkAlignment (runStart s) (runStart s - off) (runLen s)
        (f64_sub (f64_of_Z 1) (f64_div (f64_div (runSim s) (f64_of_Z (runLen s))) (f64_of_Z 32))))
  else s.

Definition frame (off i d : Z) (s : walk_state) : walk_state :=
  if d <=? matchBitThreshold then
    let s := if runStart s <? 0 then mkWalk i f64_zero 0 (found s) else s in
    mkWalk (runStart s) (f64_add (runSim s) (f64_of_Z d)) (runLen s + 1) (found s)
  else if runStart s >=? 0 then
    let s := emit off s in mkWalk (-1) (runSim s) (runLen s) (found s)
  else s.

(** The loop over the overlapping window, from frames [i] and [i - off]. *)
Fixpoint walk (off i : Z) (a b : list Z) (s : walk_state) : walk_state :=
  match a, b with
  | x :: a', y :: b' => walk off (i + 1) a' b' (frame off i (distance x y) s)
  | _, _ => if runStart s >=? 0 then emit off s else s
  end.

(** One offset: the window starts at frame [off] of [a] or [-off] of [b]. *)
Definition align_offset (a b : list Z) (best : alignment) (off : Z) : alignment :=
  let '(iStart, jStart) := if off >=? 0 then (off, 0) else (0, - off) in
  found (walk off iStart (drop (Z.to_nat iStart) a) (drop (Z.to_nat jStart) b)
    (mkWalk (-1) f64_zero 0 best)).

Definition no_alignment : alignment := mkAlignment 0 0 0 f64_zero.

Definition alignPair (a b : list Z) : alignment :=
  if (len a =? 0) || (len b =? 0) then no_alignment
  else foldl (align_offset a b) no_alignment (seqZ (- (len b - 1)) (len a + len b - 1)).

(** * A season *)
Record cand := mkCand { cand_start : Z; cand_length : Z; cand_score : float64 }.
Record episodeIntro := mkIntro { startFrame : Z; lengthFrames : Z; intro_score : float64 }.
Definition no_intro : episodeIntro := mkIntro 0 0 f64_zero.

Definition clusterTol : Z := 16.
Definition cluster (cands : list cand) (c : cand) : list cand :=
  List.filter (λ x, Z.abs (cand_start x - cand_start c) <=? clusterTol) cands.

Definition sumZ : list Z → Z := foldl Z.add 0.

(** The mean of the largest cluster, the first of equal size. *)
Definition clusterBest (cands : list cand) : episodeIntro :=
  (foldl (λ '(best, bestCount) c,
     let cl := cluster cands c in
     if len cl >? bestCount then
       (mkIntro (Z.quot (sumZ (cand_start <$> cl)) (len cl)) (Z.quot (sumZ (cand_length <$> cl)) (len cl))
          (f64_div (foldl f64_add f64_zero (cand_score <$> cl)) (f64_of_Z (len cl))), len cl)
     else (best, bestCount))
   (no_intro, 0) cands).1.

(** The candidates of the episode at [i]: one alignment per other episode. *)
Definition candidates (fps : list (list Z)) (i : nat) (fp : list Z) : list cand :=
  omap (λ '(j, fq),
    if Nat.eqb i j then None
    else let al := alignPair fp fq in
         if length_ al <? minIntroFrames then None
         else Some (mkCand (aStart al) (length_ al) (score al)))
    (imap (λ j fq, (j, fq)) fps).

Definition detectSeasonIntros (fps : list (list Z)) : list episodeIntro :=
  if len fps <? 2 then (λ _, no_intro) <$> fps
  else imap (λ i fp,
         match candidates fps i fp with
         | [] => no_intro
         | cands => clusterBest cands
         end) fps.

(** * Fingerprints *)

(** The double nearest to 0.1238. *)
Definition fingerprintSecondsPerFrame : float64 := S754_finite false 8920730141895478 (-56).
Definition introFingerprintSeconds : Z := 600.
Definition creditsTailSeconds : Z := 360.

Definition framesToMs (frames : Z) : Z :=
  int_of_f64 (f64_mul (f64_mul (f64_of_Z frames) fingerprintSecondsPerFrame) (f64_of_Z 1000)).

Fixpoint parse_frames (parts : list string) : option (list Z) :=
  match parts with
  | [] => Some []
  | p :: parts' =>
      match Atoi (TrimSpace p) with
      | None => None
      | Some n => match parse_frames parts' with Some ns => Some (wrapU32 n :: ns) | None => None end
      end
  end.

Fixpoint fingerprint_line (lines : list string) : option (list Z) :=
  match lines with
  | [] => None
  | l :: lines' =>
      match CutPrefix (TrimSpace l) "FINGERPRINT=" with
      | None => fingerprint_line lines'
      | Some raw => parse_frames (Split raw ",")
      end
  end.

(** The scanner's error is not looked at: a line too long ends the lines. *)
Definition parseFpcalcOutput (s : string) : option (list Z) :=
  fingerprint_line (ScanLines MaxScanTokenSize s).1.

(** * The marker table *)
Record Marker := mkMarker { StartMS : Z; EndMS : Z; Source : string }.
Abbreviation markers := (gmap (string * string) Marker).

Definition marker_check (kind : string) (m : Marker) : bool :=
  (EndMS m >? StartMS m) && (StartMS m >=? 0) && mem kind ["intro"; "credits"] &&
  mem (Source m) ["auto"; "manual"; "chapter"].

(** [None]: a constraint of the table refuses the row. *)
Definition UpsertIntroMarker (item kind : string) (m : Marker) (db : markers) : option markers :=
  if marker_check kind m then Some (<[(item, kind) := m]> db) else None.
Definition DeleteIntroMarker (item kind : string) (db : markers) : markers := delete (item, kind) db.
Definition GetIntroMarkerSource (item kind : string) (db : markers) : option string :=
  Source <$> db !! (item, kind).

(** [Store.Upsert] and [Store.Delete]: an administrator's edit. *)
Definition Upsert (item kind : string) (startMS endMS : Z) (db : markers) : option markers :=
  if negb (String.eqb kind "intro") && negb (String.eqb kind "credits") then None
  else if (startMS <? 0) || (endMS <=? startMS) then None
  else UpsertIntroMarker item kind (mkMarker startMS endMS "manual") db.

(** Which reads and writes of the table fail. *)
Record Faults := mkFaults { read_fails : string → string → bool; write_fails : string → string → bool }.

Definition preserved (src : option string) : bool :=
  match src with Some s => String.eqb s "manual" || String.eqb s "chapter" | None => false end.

(** The table after the call; an error leaves it as it was. *)
Definition upsertAutoMarker (f : Faults) (item kind : string) (startMs endMs : Z) (db : markers) : markers :=
  if read_fails f item kind then db
  else if preserved (GetIntroMarkerSource item kind db) then db
  else if write_fails f item kind then db
  else default db (UpsertIntroMarker item kind (mkMarker startMs endMs "auto") db).

(** * Detection *)
Record Episode := mkEpisode {
  ep_id : string;
  DurationMS : option Z;
  (** [firstFilePath] *)
  ep_path : option string
}.

Section Detector.
(** [fpcalc]'s output for a file, and the [black_start] times [ffmpeg]
    reports, in order; [None] when the program fails. *)
Context (fpcalc : string → option string) (black_starts : string → Z → option (list float64)).
Context (faults : Faults).

Definition fingerprint (path : string) : option (list Z) := fpcalc path ≫= parseFpcalcOutput.

(** [earliestRel], below zero while nothing was reported. *)
Definition earliest (vs : list float64) : float64 :=
  foldl (λ e v, if f64_ltb e f64_zero || f64_ltb v e then v else e) (f64_of_Z (-1)) vs.

Definition blackdetect (path : string) (fileDurationSec tailSec : Z) : option Z :=
  let startSec := Z.max 0 (fileDurationSec - tailSec) in
  match black_starts path startSec with
  | None => None
  | Some vs =>
      let e := earliest vs in
      if f64_ltb e f64_zero then Some 0
      else Some (int_of_f64 (f64_mul (f64_add (f64_of_Z startSec) e) (f64_of_Z 1000)))
  end.

Definition detectCreditsForItem (db : markers) (ep : Episode) : markers :=
  match DurationMS ep with
  | None => db
  | Some d =>
      if d <=? 0 then db
      else match ep_path ep with
           | None => db
           | Some path =>
               match blackdetect path (Z.quot d 1000) creditsTailSeconds with
               | None => db
               | Some creditStartMs =>
                   if creditStartMs <=? 0 then db
                   else if (creditStartMs >=? d) || (d - creditStartMs >? creditsTailSeconds * 1000) then db
                   else upsertAutoMarker faults (ep_id ep) "credits" creditStartMs d db
               end
           end
  end.

(** An episode without a file or whose fingerprint failed has none. *)
Definition episode_fp (ep : Episode) : list Z := default [] (ep_path ep ≫= fingerprint).

Definition write_intro (db : markers) (p : Episode * episodeIntro) : markers :=
  let '(ep, intro) := p in
  if lengthFrames intro <? minIntroFrames then db
  else upsertAutoMarker faults (ep_id ep) "intro" (framesToMs (startFrame intro))
         (framesToMs (startFrame intro + lengthFrames intro)) db.

Definition DetectSeason (episodes : list Episode) (db : markers) : markers :=
  if len episodes <? 2 then foldl detectCreditsForItem db episodes
  else
    let intros := detectSeasonIntros (episode_fp <$> episodes) in
    foldl detectCreditsForItem (foldl write_intro db (zip episodes intros)) episodes.
End Detector.

(** * Alignment: the longest matching run *)

(** Frames [i] of [a] and [j] of [b] exist and are close. *)
Definition similar (a b : list Z) (i j : Z) : Prop :=
  0 <= i ∧ 0 <= j ∧ ∃ x y, a !! Z.to_nat i = Some x ∧ b !! Z.to_nat j = Some y ∧ distance x y <= matchBitThreshold.

(** [n] frames from [i] of [a] and [j] of [b] line up. *)
Definition matching_run (a b : list Z) (i j n : Z) : Prop :=
  0 <= n ∧ ∀ k, 0 <= k < n → similar a b (i + k) (j + k).

Lemma run_zero (a b : list Z) (i j : Z) : matching_run a b i j 0.
Proof. split; [lia|]. intros k Hk. lia. Qed.

Lemma run_snoc (a b : list Z) (i j n : Z) :
  matching_run a b i j n → similar a b (i + n) (j + n) → matching_run a b i j (n + 1).
Proof.
  intros [Hn H] Hs. split; [lia|]. intros k Hk. destruct (Z.eq_dec k n) as [->|]; [done|]. apply H. lia.
Qed.

Lemma run_unsnoc (a b : list Z) (i j n : Z) :
  matching_run a b i j n → 0 < n → matching_run a b i j (n - 1) ∧ similar a b (i + (n - 1)) (j + (n - 1)).
Proof.
  intros [Hn H] Hp. split; [split; [lia|]|]; [intros k Hk; apply H; lia|apply H; lia].
Qed.

Section Walk.
Context (a b : list Z) (off : Z).

Definition good (al : alignment) : Prop := matching_run a b (aStart al) (bStart al) (length_ al).

(** The length of the open run. *)
Definition open_len (s : walk_state) : Z := if runStart s >=? 0 then runLen s else 0.

(** What holds before frame [i]: the best is a run, the open run is one and
    ends here, and nothing on this diagonal that ends by [i] is longer. *)
Record walk_inv (i : Z) (s : walk_state) : Prop := {
  inv_good : good (found s);
  inv_start : runStart s >= 0 → runStart s = i - runLen s;
  inv_open : matching_run a b (i - open_len s) (i - off - open_len s) (open_len s);
  inv_ends : ∀ n, matching_run a b (i - n) (i - off - n) n → n <= open_len s;
  inv_past : ∀ e n, e <= i → matching_run a b (e - n) (e - off - n) n → n <= Z.max (length_ (found s)) (open_len s)
}.

Lemma open_len_eq (s : walk_state) :
  (runStart s >= 0 → open_len s = runLen s) ∧ (runStart s < 0 → open_len s = 0).
Proof. unfold open_len. destruct (Z.geb_spec (runStart s) 0); split; done || lia. Qed.

(** A run that ends after frame [i] uses it. *)
Lemma run_last (i n : Z) :
  matching_run a b (i + 1 - n) (i + 1 - off - n) n → 0 < n →
  similar a b i (i - off) ∧ matching_run a b (i - (n - 1)) (i - off - (n - 1)) (n - 1).
Proof.
  intros Hn Hpos. apply run_unsnoc in Hn as [Hn Hs]; [|done].
  replace (i + 1 - n + (n - 1)) with i in Hs by lia.
  replace (i + 1 - off - n + (n - 1)) with (i - off) in Hs by lia.
  replace (i - (n - 1)) with (i + 1 - n) by lia.
  by replace (i - off - (n - 1)) with (i + 1 - off - n) by lia.
Qed.

Lemma inv_match (i : Z) (s s' : walk_state) :
  walk_inv i s → similar a b i (i - off) → found s' = found s → runStart s' >= 0 →
  runStart s' = i + 1 - runLen s' → runLen s' = open_len s + 1 → walk_inv (i + 1) s'.
Proof.
  intros [Hg _ Hopen He Hp] Hs Hf Hpos Hst Hlen.
  destruct (open_len_eq s') as [Eo _]. specialize (Eo Hpos).
  assert (∀ n, matching_run a b (i + 1 - n) (i + 1 - off - n) n → n <= open_len s') as He'.
  { intros n Hn. destruct (Z_lt_le_dec 0 n) as [Hlt|]; [|destruct Hopen; lia].
    destruct (run_last i n Hn Hlt) as [_ Hn']. specialize (He _ Hn'). lia. }
  split; [by rewrite Hf|lia| |done|].
  - rewrite Eo, Hlen. replace (i + 1 - (open_len s + 1)) with (i - open_len s) by lia.
    replace (i + 1 - off - (open_len s + 1)) with (i - off - open_len s) by lia.
    apply run_snoc; [done|]. replace (i - open_len s + open_len s) with i by lia.
    by replace (i - off - open_len s + open_len s) with (i - off) by lia.
  - intros e n Hle Hn. destruct (Z.eq_dec e (i + 1)) as [->|]; [specialize (He' n Hn); lia|].
    specialize (Hp e n ltac:(lia) Hn). rewrite Hf. lia.
Qed.

Lemma inv_miss (i : Z) (s s' : walk_state) :
  walk_inv i s → ¬ similar a b i (i - off) → good (found s') → runStart s' < 0 →
  Z.max (length_ (found s)) (open_len s) <= length_ (found s') → walk_inv (i + 1) s'.
Proof.
  intros [_ _ _ He Hp] Hs Hg Hneg Hlen. destruct (open_len_eq s') as [_ Eo]. specialize (Eo Hneg).
  assert (∀ n, matching_run a b (i + 1 - n) (i + 1 - off - n) n → n <= 0) as He'.
  { intros n Hn. destruct (Z_lt_le_dec 0 n) as [Hlt|]; [|done].
    by destruct (run_last i n Hn Hlt) as [? _]. }
  split; rewrite ?Eo; [done|lia|apply run_zero|done|].
  intros e n Hle Hn. destruct (Z.eq_dec e (i + 1)) as [->|]; [specialize (He' n Hn); lia|].
  specialize (Hp e n ltac:(lia) Hn). lia.
Qed.

(** Closing a run keeps the better of it and the best. *)
Lemma emit_best (i : Z) (s : walk_state) :
  walk_inv i s → runStart s >= 0 →
  good (found (emit off s)) ∧ length_ (found (emit off s)) = Z.max (length_ (found s)) (open_len s).
Proof.
  intros [Hg Hst Hopen _ _] Hpos. destruct (open_len_eq s) as [Eo _]. rewrite (Eo Hpos) in *.
  specialize (Hst Hpos). unfold emit. destruct (runLen s >? length_ (found s)) eqn:E; cbn; split; [|lia|done|lia].
  unfold good. cbn. rewrite Hst. by replace (i - runLen s - off) with (i - off - runLen s) by lia.
Qed.

Lemma frame_inv (i d : Z) (s : walk_state) :
  0 <= i → walk_inv i s → (d <= matchBitThreshold ↔ similar a b i (i - off)) →
  walk_inv (i + 1) (frame off i d s).
Proof.
  intros Hi Hinv Hd. destruct (open_len_eq s) as [Hge Hlt]. pose proof (inv_start _ _ Hinv) as Hst.
  unfold frame. destruct (Z.leb_spec d matchBitThreshold) as [Hle|Hgt].
  - apply (inv_match i s); [done|by apply Hd| | | |]; destruct (Z.ltb_spec (runStart s) 0); cbn; try done; lia.
  - assert (¬ similar a b i (i - off)) as Hno by (intros H; apply Hd in H; lia).
    destruct (Z.geb_spec (runStart s) 0) as [Hpos|Hneg].
    + destruct (emit_best i s Hinv ltac:(lia)) as [Hg El].
      apply (inv_miss i s); [done|done|done|cbn; lia|cbn; lia].
    + apply (inv_miss i s); [done|done|apply Hinv|lia|]. rewrite (Hlt Hneg). destruct (inv_good _ _ Hinv). lia.
Qed.

Definition diagonal_best (best s : alignment) : Prop :=
  good s ∧ length_ best <= length_ s ∧ ∀ e n, matching_run a b (e - n) (e - off - n) n → n <= length_ s.

(** At the window's end the open run is closed. *)
Lemma walk_end (i : Z) (s : walk_state) :
  walk_inv i s → (∀ k, i <= k → ¬ similar a b k (k - off)) →
  diagonal_best (found s) (found (if runStart s >=? 0 then emit off s else s)).
Proof.
  intros Hinv Hno. destruct (open_len_eq s) as [Hge Hlt].
  assert (∀ e n, matching_run a b (e - n) (e - off - n) n → n <= Z.max (length_ (found s)) (open_len s)) as Hall.
  { intros e n Hn. destruct (Z_le_gt_dec e i) as [Hle|Hgt]; [by apply (inv_past _ _ Hinv e n)|].
    destruct (inv_open _ _ Hinv) as [? _]. destruct (Z_lt_le_dec 0 n) as [Hp|]; [|lia]. exfalso.
    replace (e - n) with (e - 1 + 1 - n) in Hn by lia. replace (e - off - n) with (e - 1 + 1 - off - n) in Hn by lia.
    destruct (run_last (e - 1) n Hn Hp) as [Hs _]. revert Hs. apply Hno. lia. }
  destruct (Z.geb_spec (runStart s) 0) as [Hpos|Hneg].
  - destruct (emit_best i s Hinv ltac:(lia)) as [Hg El]. unfold diagonal_best. rewrite El. split; [done|].
    split; [lia|done].
  - rewrite (Hlt Hneg) in Hall. destruct (inv_good _ _ Hinv) as [? _]. split; [apply Hinv|]. split; [lia|].
    intros e n Hn. specialize (Hall e n Hn). lia.
Qed.

Lemma similar_at (i j x y : Z) (a' b' : list Z) :
  0 <= i → 0 <= j → x :: a' = drop (Z.to_nat i) a → y :: b' = drop (Z.to_nat j) b →
  distance x y <= matchBitThreshold ↔ similar a b i j.
Proof.
  intros Hi Hj Ea Eb.
  assert (a !! Z.to_nat i = Some x) as Hx by (rewrite <- (Nat.add_0_r (Z.to_nat i)), <- lookup_drop, <- Ea; done).
  assert (b !! Z.to_nat j = Some y) as Hy by (rewrite <- (Nat.add_0_r (Z.to_nat j)), <- lookup_drop, <- Eb; done).
  unfold similar. split; [intros H; naive_solver|]. intros (_ & _ & x' & y' & Hx' & Hy' & H). congruence.
Qed.

Lemma similar_bounds (i j : Z) : similar a b i j → i < len a ∧ j < len b.
Proof.
  intros (Hi & Hj & x & y & Hx & Hy & _). apply lookup_lt_Some in Hx, Hy. unfold len. lia.
Qed.

Lemma drop_tail (i : Z) (x : Z) (a' l : list Z) :
  0 <= i → x :: a' = drop (Z.to_nat i) l → a' = drop (Z.to_nat (i + 1)) l.
Proof.
  intros Hi E. rewrite Z2Nat.inj_add by lia. rewrite <- drop_drop, <- E. done.
Qed.

Lemma drop_empty (i : Z) (l : list Z) : 0 <= i → [] = drop (Z.to_nat i) l → len l <= i.
Proof.
  intros Hi E. apply (f_equal length) in E. rewrite length_drop in E. unfold len. cbn in E. lia.
Qed.

Lemma frame_grows (i d : Z) (s : walk_state) :
  walk_inv i s → length_ (found s) <= length_ (found (frame off i d s)).
Proof.
  intros Hinv. unfold frame. bcase; [by destruct (runStart s <? 0)|].
  destruct (Z.geb_spec (runStart s) 0); [|lia]. cbn.
  destruct (emit_best i s Hinv ltac:(lia)) as [_ ->]. lia.
Qed.

Lemma walk_best (a' b' : list Z) (i : Z) (s : walk_state) :
  0 <= i → 0 <= i - off → a' = drop (Z.to_nat i) a → b' = drop (Z.to_nat (i - off)) b → walk_inv i s →
  diagonal_best (found s) (found (walk off i a' b' s)).
Proof.
  revert b' i s. induction a' as [|x a' IH]; intros b' i s Hi Hj Ea Eb Hinv; cbn [walk].
  - apply (walk_end i); [done|].
    intros k Hk Hs. apply drop_empty in Ea; [|done]. apply similar_bounds in Hs. lia.
  - destruct b' as [|y b'].
    + apply (walk_end i); [done|].
      intros k Hk Hs. apply drop_empty in Eb; [|done]. apply similar_bounds in Hs. lia.
    + pose proof (frame_inv i (distance x y) s Hi Hinv (similar_at i (i - off) x y a' b' Hi Hj Ea Eb)) as Hf.
      pose proof (frame_grows i (distance x y) s Hinv) as Hgrow.
      destruct (IH b' (i + 1) (frame off i (distance x y) s)) as (Hg & Hl & Hall); [lia|lia| | |done|].
      * by apply (drop_tail i x).
      * replace (i + 1 - off) with (i - off + 1) by lia. by apply (drop_tail (i - off) y).
      * split; [done|]. split; [lia|done].
Qed.

Lemma walk_init (i : Z) (best : alignment) :
  good best → i = 0 ∨ i - off = 0 → walk_inv i (mkWalk (-1) f64_zero 0 best).
Proof.
  intros Hg Hi. assert (∀ e n, e <= i → matching_run a b (e - n) (e - off - n) n → n <= 0) as Hno.
  { intros e n He [_ Hn]. destruct (Z_lt_le_dec 0 n) as [Hp|]; [|done].
    destruct (Hn 0 ltac:(lia)) as (? & ? & _). lia. }
  split; cbn [found runStart runLen]; [done|lia|apply run_zero| |].
  - intros n Hn. by apply (Hno i n).
  - intros e n He Hn. specialize (Hno e n He Hn). unfold open_len. cbn. lia.
Qed.

Lemma align_offset_best (best : alignment) : good best → diagonal_best best (align_offset a b best off).
Proof.
  intros Hg. unfold align_offset. destruct (Z.geb_spec off 0) as [H|H].
  - apply (walk_best _ _ off); [lia|lia|done|by rewrite Z.sub_diag|]. apply walk_init; [done|lia].
  - apply (walk_best _ _ 0); [lia|lia|done|done|]. apply walk_init; [done|lia].
Qed.
End Walk.

Lemma align_fold (a b : list Z) (offs : list Z) (best : alignment) :
  good a b best →
  let al := foldl (align_offset a b) best offs in
  good a b al ∧ length_ best <= length_ al ∧
  ∀ off e n, off ∈ offs → matching_run a b (e - n) (e - off - n) n → n <= length_ al.
Proof.
  revert best. induction offs as [|o offs IH]; intros best Hg; cbn [foldl].
  - split; [done|]. split; [lia|]. by intros ? ? ? []%not_elem_of_nil.
  - destruct (align_offset_best a b o best Hg) as (Hg' & Hl' & Hall).
    destruct (IH _ Hg') as (Hg'' & Hl'' & Hall'). split; [done|]. split; [lia|].
    intros off e n [->|Hin]%elem_of_cons Hn; [specialize (Hall e n Hn); lia|by apply (Hall' off e n)].
Qed.

Lemma alignPair_longest (a b : list Z) :
  let al := alignPair a b in
  matching_run a b (aStart al) (bStart al) (length_ al) ∧
  ∀ i j n, matching_run a b i j n → n <= length_ al.
Proof.
  cbv zeta. unfold alignPair. destruct ((len a =? 0) || (len b =? 0)) eqn:E.
  { split; [apply run_zero|]. intros i j n [Hn H]. destruct (Z_lt_le_dec 0 n) as [Hp|]; [|done].
    specialize (H 0 ltac:(lia)). pose proof (similar_bounds a b _ _ H). destruct H as (? & ? & _).
    apply orb_true_iff in E as [E%Z.eqb_eq|E%Z.eqb_eq]; lia. }
  apply orb_false_iff in E as [Ea%Z.eqb_neq Eb%Z.eqb_neq].
  destruct (align_fold a b (seqZ (- (len b - 1)) (len a + len b - 1)) no_alignment) as (Hg & Hl & Hall);
    [apply run_zero|]. split; [done|]. intros i j n Hn.
  destruct (Z_lt_le_dec 0 n) as [Hp|]; [|cbn in Hl; lia].
  destruct Hn as [Hn H]. pose proof (H 0 ltac:(lia)) as H0. pose proof (similar_bounds a b _ _ H0).
  destruct H0 as (? & ? & _). apply (Hall (i - j) (i + n) n).
  - apply elem_of_seqZ. lia.
  - replace (i + n - n) with i by lia. by replace (i + n - (i - j) - n) with j by lia.
Qed.

(** ** The reference: try every pair of starts *)
Fixpoint prefix_run (a b : list Z) : Z :=
  match a, b with
  | x :: a', y :: b' => if distance x y <=? matchBitThreshold then 1 + prefix_run a' b' else 0
  | _, _ => 0
  end.
Definition longest_match (a b : list Z) : Z :=
  foldr Z.max 0 (i ← seq 0 (length a); (λ j, prefix_run (drop i a) (drop j b)) <$> seq 0 (length b)).

Lemma foldr_max_spec (l : list Z) : (∀ x, x ∈ l → x <= foldr Z.max 0 l) ∧ (foldr Z.max 0 l = 0 ∨ foldr Z.max 0 l ∈ l).
Proof.
  induction l as [|y l [IH IH']]; cbn; [split; [by intros ? []%not_elem_of_nil|by left]|]. split.
  - intros x [->|Hx]%elem_of_cons; [lia|]. specialize (IH x Hx). lia.
  - destruct (Z.max_spec y (foldr Z.max 0 l)) as [[? ->]|[? ->]]; [|right; left].
    destruct IH' as [->|]; [by left|right; by right].
Qed.

Lemma prefix_run_spec (a b : list Z) (i j : Z) (a' b' : list Z) :
  0 <= i → 0 <= j → a' = drop (Z.to_nat i) a → b' = drop (Z.to_nat j) b →
  matching_run a b i j (prefix_run a' b') ∧ ∀ n, matching_run a b i j n → n <= prefix_run a' b'.
Proof.
  intros Hi Hj. revert b' i j Hi Hj. induction a' as [|x a' IH]; intros b' i j Hi Hj Ea Eb; cbn [prefix_run].
  - split; [apply run_zero|]. intros n [Hn H]. destruct (Z_lt_le_dec 0 n) as [Hp|]; [|done].
    specialize (H 0 ltac:(lia)). apply similar_bounds in H. apply drop_empty in Ea; lia.
  - destruct b' as [|y b'].
    + split; [apply run_zero|]. intros n [Hn H]. destruct (Z_lt_le_dec 0 n) as [Hp|]; [|done].
      specialize (H 0 ltac:(lia)). apply similar_bounds in H. apply drop_empty in Eb; lia.
    + pose proof (similar_at a b i j x y a' b' Hi Hj Ea Eb) as Hs.
      destruct (IH b' (i + 1) (j + 1)) as [[Hn Hrun] Hmax];
        [lia|lia|by apply (drop_tail i x)|by apply (drop_tail j y)|].
      destruct (Z.leb_spec (distance x y) matchBitThreshold) as [Hle|Hgt].
      * split.
        -- split; [lia|]. intros k Hk. destruct (Z.eq_dec k 0) as [->|]; [rewrite !Z.add_0_r; by apply Hs|].
           specialize (Hrun (k - 1) ltac:(lia)). by replace (i + 1 + (k - 1)) with (i + k) in Hrun by lia;
             replace (j + 1 + (k - 1)) with (j + k) in Hrun by lia.
        -- intros n [Hn' H]. enough (n - 1 <= prefix_run a' b') by lia.
           destruct (Z_lt_le_dec 0 n) as [Hp|]; [|lia]. apply Hmax. split; [lia|]. intros k Hk.
           specialize (H (k + 1) ltac:(lia)). by replace (i + (k + 1)) with (i + 1 + k) in H by lia;
             replace (j + (k + 1)) with (j + 1 + k) in H by lia.
      * split; [apply run_zero|]. intros n [Hn' H]. destruct (Z_lt_le_dec 0 n) as [Hp|]; [|done].
        specialize (H 0 ltac:(lia)). rewrite !Z.add_0_r in H. apply Hs in H. lia.
Qed.

(** C32: The offset search finds a longest stretch of the two fingerprints whose
    frames differ in at most six bits each: the frames it names line up, no
    stretch that lines up is longer, and its length is the one an exhaustive
    search over all pairs of starts finds. *)
Theorem align_pair_longest (a b : list Z) :
  let al := alignPair a b in
  matching_run a b (aStart al) (bStart al) (length_ al) ∧
  (∀ i j n, matching_run a b i j n → n <= length_ al) ∧
  length_ al = longest_match a b.
Proof.
  destruct (alignPair_longest a b) as [Hrun Hmax]. cbv zeta. split; [done|]. split; [done|].
  unfold longest_match. set (l := mbind _ _). destruct (foldr_max_spec l) as [Hle Hin].
  assert (∀ v, v ∈ l ↔ ∃ i j : nat, (i < length a)%nat ∧ (j < length b)%nat ∧ v = prefix_run (drop i a) (drop j b)) as Hl.
  { intros v. unfold l. rewrite list_elem_of_bind. setoid_rewrite list_elem_of_fmap. setoid_rewrite elem_of_seq.
    split; [intros (i & (j & -> & ?) & ?)|intros (i & j & ? & ? & ->)]; [exists i, j|exists i; split; [exists j|]];
      repeat split; lia || done. }
  apply Z.le_antisymm.
  - destruct (Z_lt_le_dec 0 (length_ (alignPair a b))) as [Hp|]; [|destruct Hin as [->|Hin]; [done|]].
    + destruct (proj2 Hrun 0 ltac:(lia)) as (Hi & Hj & x & y & Hx & Hy & _). rewrite !Z.add_0_r in *.
      apply lookup_lt_Some in Hx, Hy. set (i := Z.to_nat (aStart _)) in *. set (j := Z.to_nat (bStart _)) in *.
      apply (Z.le_trans _ (prefix_run (drop i a) (drop j b))); [|apply Hle, Hl; by exists i, j].
      by apply (prefix_run_spec a b (aStart (alignPair a b)) (bStart (alignPair a b))).
    + apply Hl in Hin as (i & j & _ & _ & ->). etrans; [done|].
      destruct (prefix_run_spec a b (Z.of_nat i) (Z.of_nat j) (drop i a) (drop j b)) as [[? _] _];
        [lia|lia|by rewrite Nat2Z.id|by rewrite Nat2Z.id|done].
  - destruct Hin as [->|Hin]; [apply Hrun|]. apply Hl in Hin as (i & j & _ & _ & ->).
    apply (Hmax (Z.of_nat i) (Z.of_nat j)).
    apply prefix_run_spec; [lia|lia|by rewrite Nat2Z.id|by rewrite Nat2Z.id].
Qed.

(** The last frame differs in 32 bits; of two equally long stretches the one
    at the smaller offset is kept. *)
Example align_ex :
  let al := alignPair [1; 2; 3] [7; 4294967295; 2; 3] in
  aStart al = 0 ∧ bStart al = 2 ∧ length_ al = 2.
Proof. by vm_compute. Qed.

(** * A season's markers *)

(** A stretch of at least the minimal length inside a fingerprint of [n]
    frames. *)
Definition in_fingerprint (n start length : Z) : Prop :=
  0 <= start ∧ minIntroFrames <= length ∧ start + length <= n.

Lemma sumZ_cons (x : Z) (l : list Z) : sumZ (x :: l) = x + sumZ l.
Proof.
  assert (∀ l acc, foldl Z.add acc l = acc + sumZ l) as H.
  { unfold sumZ. clear. induction l as [|y l IH]; intros acc; cbn [foldl]; [lia|]. rewrite IH, (IH (0 + y)). lia. }
  unfold sumZ at 1. cbn [foldl]. rewrite H. lia.
Qed.

Lemma sums_bounded (n : Z) (cl : list cand) :
  Forall (λ c, in_fingerprint n (cand_start c) (cand_length c)) cl →
  0 <= sumZ (cand_start <$> cl) ∧ minIntroFrames * len cl <= sumZ (cand_length <$> cl) ∧
  sumZ (cand_start <$> cl) + sumZ (cand_length <$> cl) <= n * len cl.
Proof.
  induction 1 as [|c cl (H1 & H2 & H3) _ (I1 & I2 & I3)]; [cbn; unfold len; cbn; lia|].
  rewrite !fmap_cons, !sumZ_cons, len_cons. lia.
Qed.

Lemma mean_bounded (n : Z) (cl : list cand) :
  Forall (λ c, in_fingerprint n (cand_start c) (cand_length c)) cl → 0 < len cl →
  in_fingerprint n (Z.quot (sumZ (cand_start <$> cl)) (len cl)) (Z.quot (sumZ (cand_length <$> cl)) (len cl)).
Proof.
  intros H Hl. destruct (sums_bounded n cl H) as (H1 & H2 & H3). unfold minIntroFrames in H2.
  rewrite !Z.quot_div_nonneg by lia. split; [apply Z.div_pos; lia|]. split.
  - apply Z.div_le_lower_bound; [done|]. unfold minIntroFrames. lia.
  - pose proof (Z.mul_div_le (sumZ (cand_start <$> cl)) (len cl) Hl).
    pose proof (Z.mul_div_le (sumZ (cand_length <$> cl)) (len cl) Hl). nia.
Qed.

Lemma clusterBest_bounded (n : Z) (cands : list cand) :
  cands ≠ [] → Forall (λ c, in_fingerprint n (cand_start c) (cand_length c)) cands →
  in_fingerprint n (startFrame (clusterBest cands)) (lengthFrames (clusterBest cands)).
Proof.
  intros Hne Hall. unfold clusterBest. set (step := λ '(best, bestCount) c, _).
  assert (∀ cs st, (0 <= st.2 ∧ (st.2 = 0 ∨ in_fingerprint n (startFrame st.1) (lengthFrames st.1))) →
    0 <= (foldl step st cs).2 ∧ st.2 <= (foldl step st cs).2 ∧
    ((foldl step st cs).2 = 0 ∨ in_fingerprint n (startFrame (foldl step st cs).1) (lengthFrames (foldl step st cs).1)) ∧
    ∀ c, c ∈ cs → len (cluster cands c) <= (foldl step st cs).2) as H.
  { induction cs as [|c cs IH]; intros st Hst; cbn [foldl].
    { split; [lia|]. split; [lia|]. split; [tauto|]. by intros ? []%not_elem_of_nil. }
    assert (len (cluster cands c) <= (step st c).2 ∧ st.2 <= (step st c).2 ∧ 0 <= (step st c).2 ∧
      ((step st c).2 = 0 ∨ in_fingerprint n (startFrame (step st c).1) (lengthFrames (step st c).1))) as (S1 & S2 & S3 & S4).
    { destruct st as [best count]. cbn [fst snd] in Hst. unfold step. cbn [fst snd].
      destruct (Z.gtb_spec (len (cluster cands c)) count); cbn [fst snd startFrame lengthFrames]; [|split; [lia|]; split; [lia|tauto]].
      split; [lia|]. split; [lia|]. split; [lia|]. right. apply mean_bounded; [|lia].
      apply Forall_forall. intros x Hx. apply elem_of_List_filter in Hx as [Hx _]. rewrite Forall_forall in Hall. by apply Hall. }
    destruct (IH (step st c) (conj S3 S4)) as (I1 & I2 & I3 & I4). split; [done|]. split; [lia|]. split; [done|].
    intros x [->|Hx]%elem_of_cons; [lia|by apply I4]. }
  destruct (H cands (no_intro, 0)) as (_ & _ & [E|Hin] & Hle); [cbn; lia| |done]. exfalso.
  destruct cands as [|c cs]; [done|]. specialize (Hle c (list_elem_of_here _ _)). rewrite E in Hle.
  assert (c ∈ cluster (c :: cs) c) as Hc.
  { apply elem_of_List_filter. split; [left|]. rewrite Z.sub_diag. done. }
  destruct (cluster (c :: cs) c); [by apply not_elem_of_nil in Hc|]. rewrite len_cons in Hle.
  pose proof (len_nonneg l). lia.
Qed.

Lemma candidates_bounded (fps : list (list Z)) (i : nat) (fp : list Z) :
  Forall (λ c, in_fingerprint (len fp) (cand_start c) (cand_length c)) (candidates fps i fp).
Proof.
  apply Forall_forall. intros c Hc. unfold candidates in Hc. apply list_elem_of_omap in Hc as ([j fq] & _ & Hc).
  destruct (Nat.eqb i j); [done|]. destruct (length_ (alignPair fp fq) <? minIntroFrames) eqn:E; [done|].
  injection Hc as <-. cbn. apply Z.ltb_ge in E. unfold in_fingerprint. destruct (alignPair_longest fp fq) as [[Hn H] _].
  unfold minIntroFrames in *. split; [|split; [done|]].
  - destruct (H 0 ltac:(lia)) as (? & _). lia.
  - specialize (H (length_ (alignPair fp fq) - 1) ltac:(lia)). apply similar_bounds in H. lia.
Qed.

Lemma detectSeasonIntros_bounded (fps : list (list Z)) (i : nat) (fp : list Z) (intro : episodeIntro) :
  fps !! i = Some fp → detectSeasonIntros fps !! i = Some intro → minIntroFrames <= lengthFrames intro →
  in_fingerprint (len fp) (startFrame intro) (lengthFrames intro).
Proof.
  intros Hfp Hi Hmin. unfold detectSeasonIntros in Hi. destruct (len fps <? 2).
  { rewrite list_lookup_fmap, Hfp in Hi. injection Hi as <-. unfold minIntroFrames in Hmin. cbn in Hmin. lia. }
  rewrite list_lookup_imap, Hfp in Hi. cbn in Hi. pose proof (candidates_bounded fps i fp) as H.
  destruct (candidates fps i fp) as [|c cs].
  - injection Hi as <-. unfold minIntroFrames in Hmin. cbn in Hmin. lia.
  - injection Hi as <-. by apply clusterBest_bounded.
Qed.

Section Season.
Context (fpcalc : string → option string) (black_starts : string → Z → option (list float64)) (faults : Faults).

Definition markers_ok (db : markers) : Prop := ∀ item kind m, db !! (item, kind) = Some m → marker_check kind m = true.

(** What detection may write for an episode: an intro inside its
    fingerprint, or credits that end the file and start in its tail. *)
Definition detected (ep : Episode) (kind : string) (m : Marker) : Prop :=
  Source m = "auto" ∧
  ((kind = "intro" ∧ ∃ start length, in_fingerprint (len (episode_fp fpcalc ep)) start length ∧
     StartMS m = framesToMs start ∧ EndMS m = framesToMs (start + length)) ∨
   (kind = "credits" ∧ DurationMS ep = Some (EndMS m) ∧ 0 < StartMS m < EndMS m ∧
     EndMS m - StartMS m <= creditsTailSeconds * 1000)).

(** Every difference between the tables is a detected marker over a row that
    was absent or automatic. *)
Definition detection (eps : list Episode) (db db' : markers) : Prop :=
  ∀ item kind, db' !! (item, kind) = db !! (item, kind) ∨
    preserved (GetIntroMarkerSource item kind db) = false ∧
    ∃ ep m, ep ∈ eps ∧ ep_id ep = item ∧ db' !! (item, kind) = Some m ∧
      marker_check kind m = true ∧ detected ep kind m.

Lemma detection_refl (eps : list Episode) (db : markers) : detection eps db db.
Proof. intros item kind. by left. Qed.

Lemma detection_trans (eps : list Episode) (db1 db2 db3 : markers) :
  detection eps db1 db2 → detection eps db2 db3 → detection eps db1 db3.
Proof.
  intros H12 H23 item kind. destruct (H23 item kind) as [E|(Hp & Hw)].
  - destruct (H12 item kind) as [E'|H']; [left; congruence|]. right. by rewrite E.
  - right. split; [|done]. unfold GetIntroMarkerSource in *.
    destruct (H12 item kind) as [E'|(Hp' & _)]; [by rewrite <- E'|done].
Qed.

Lemma detection_fold {A} (eps : list Episode) (f : markers → A → markers) (l : list A) (db : markers) :
  (∀ db x, x ∈ l → detection eps db (f db x)) → detection eps db (foldl f db l).
Proof.
  revert db. induction l as [|x l IH]; intros db H; cbn [foldl]; [apply detection_refl|].
  eapply detection_trans; [apply H; left|]. apply IH. intros db' y Hy. apply H. by right.
Qed.

Lemma upsertAuto_detection (eps : list Episode) (ep : Episode) (kind : string) (s e : Z) (db : markers) :
  ep ∈ eps → detected ep kind (mkMarker s e "auto") →
  detection eps db (upsertAutoMarker faults (ep_id ep) kind s e db).
Proof.
  intros Hin Hd item k. unfold upsertAutoMarker.
  destruct (read_fails _ _ _); [by left|]. destruct (preserved _) eqn:Hp; [by left|].
  destruct (write_fails _ _ _); [by left|]. unfold UpsertIntroMarker.
  destruct (marker_check kind _) eqn:Hc; [|by left]. unfold default. cbn [from_option id].
  destruct (decide ((ep_id ep, kind) = (item, k))) as [[= <- <-]|Hne]; [|left; by apply lookup_insert_ne].
  right. split; [done|]. exists ep, (mkMarker s e "auto"). by rewrite lookup_insert_eq.
Qed.

Lemma credits_detection (eps : list Episode) (ep : Episode) (db : markers) :
  ep ∈ eps → detection eps db (detectCreditsForItem black_starts faults db ep).
Proof.
  intros Hin. unfold detectCreditsForItem. destruct (DurationMS ep) as [d|] eqn:Ed; [|apply detection_refl].
  destruct (d <=? 0); [apply detection_refl|]. destruct (ep_path ep); [|apply detection_refl].
  destruct (blackdetect _ _ _ _) as [c|]; [|apply detection_refl].
  destruct (Z.leb_spec c 0); [apply detection_refl|].
  destruct ((c >=? d) || (d - c >? creditsTailSeconds * 1000)) eqn:E; [apply detection_refl|].
  apply orb_false_iff in E as [E1 E2]. apply upsertAuto_detection; [done|]. split; [done|]. right. cbn.
  split; [done|]. split; [done|]. lia.
Qed.

Lemma intro_detection (eps : list Episode) (p : Episode * episodeIntro) (db : markers) :
  p.1 ∈ eps →
  (minIntroFrames <= lengthFrames p.2 →
   in_fingerprint (len (episode_fp fpcalc p.1)) (startFrame p.2) (lengthFrames p.2)) →
  detection eps db (write_intro faults db p).
Proof.
  destruct p as [ep intro]. cbn. intros Hin Hb. destruct (Z.ltb_spec (lengthFrames intro) minIntroFrames) as [?|Hge];
    [apply detection_refl|]. apply upsertAuto_detection; [done|]. split; [done|]. left. split; [done|].
  exists (startFrame intro), (lengthFrames intro). by split; [apply Hb|].
Qed.

Lemma zip_intro (episodes : list Episode) (p : Episode * episodeIntro) :
  p ∈ zip episodes (detectSeasonIntros (episode_fp fpcalc <$> episodes)) →
  p.1 ∈ episodes ∧ (minIntroFrames <= lengthFrames p.2 →
    in_fingerprint (len (episode_fp fpcalc p.1)) (startFrame p.2) (lengthFrames p.2)).
Proof.
  intros Hp. apply list_elem_of_lookup_1 in Hp as [i Hi].
  apply lookup_zip_with_Some in Hi as (ep & intro & -> & He & Hin). cbn.
  split; [by eapply list_elem_of_lookup_2|]. intros Hmin.
  apply (detectSeasonIntros_bounded (episode_fp fpcalc <$> episodes) i); [by rewrite list_lookup_fmap, He|done|done].
Qed.

Lemma DetectSeason_detection (episodes : list Episode) (db : markers) :
  detection episodes db (DetectSeason fpcalc black_starts faults episodes db).
Proof.
  unfold DetectSeason. destruct (len episodes <? 2).
  - apply detection_fold. intros. by apply credits_detection.
  - cbv zeta. apply (detection_trans _ _ (foldl (write_intro faults) db
      (zip episodes (detectSeasonIntros (episode_fp fpcalc <$> episodes))))); apply detection_fold.
    + intros db' p Hp. apply zip_intro in Hp as [? ?]. by apply intro_detection.
    + intros. by apply credits_detection.
Qed.

(** Running detection over a season never touches a marker set by hand or
    read from chapters, keeps the table's constraints, and every marker it
    writes is an automatic one of an episode of the season: an intro inside
    that episode's fingerprint, or credits within the last six minutes that
    end with the file; whichever programs, reads or writes fail. *)
Lemma season_detection_safe (episodes : list Episode) (db : markers) :
  markers_ok db →
  let db' := DetectSeason fpcalc black_starts faults episodes db in
  markers_ok db' ∧
  (∀ item kind m, db !! (item, kind) = Some m → Source m = "manual" ∨ Source m = "chapter" →
     db' !! (item, kind) = Some m) ∧
  (∀ item kind m, db' !! (item, kind) = Some m → db !! (item, kind) ≠ Some m →
     ∃ ep, ep ∈ episodes ∧ ep_id ep = item ∧ detected ep kind m).
Proof.
  intros Hok db'. pose proof (DetectSeason_detection episodes db) as H. fold db' in H. split; [|split].
  - intros item kind m Hm. destruct (H item kind) as [E|(_ & ep & m' & _ & _ & E & Hc & _)].
    + apply (Hok item). congruence.
    + congruence.
  - intros item kind m Hm Hs. destruct (H item kind) as [E|(Hp' & _)]; [congruence|].
    unfold GetIntroMarkerSource, preserved in Hp'. rewrite Hm in Hp'. cbn in Hp'. by destruct Hs as [Hs|Hs]; rewrite Hs in Hp'.
  - intros item kind m Hm Hne. destruct (H item kind) as [E|(_ & ep & m' & ? & ? & E & _ & Hd)]; [congruence|].
    exists ep. split; [done|]. split; [done|]. by replace m with m' by congruence.
Qed.

(** Frame indices of the fingerprinted ten minutes convert to strictly
    increasing times. *)
Definition maxFrames : Z := 4900.

Fixpoint strictly (prev : Z) (l : list Z) : bool :=
  match l with
  | [] => true
  | x :: l' => (prev <? x) && strictly x l'
  end.

Lemma strictly_lt (p : Z) (l : list Z) (i j : nat) (x y : Z) :
  strictly p l = true → l !! i = Some x → l !! j = Some y → (i < j)%nat → x < y.
Proof.
  revert p i j. induction l as [|z l IH]; intros p i j H Hi Hj Hij; [done|].
  cbn in H. apply andb_true_iff in H as [Hp H]. destruct j as [|j]; [lia|]. destruct i as [|i]; [|by apply (IH z i j); [..|lia]].
  injection Hi as ->. clear Hij IH Hp p. revert x j H Hj. induction l as [|z l IH]; intros x j H Hj; [done|].
  cbn in H. apply andb_true_iff in H as [Hz%Z.ltb_lt H]. destruct j as [|j]; [by injection Hj as ->|].
  etrans; [done|]. by apply (IH z j).
Qed.

Lemma framesToMs_strictly : strictly (-1) ((λ n, framesToMs (Z.of_nat n)) <$> seq 0 4901) = true.
Proof. by vm_compute. Qed.

Lemma framesToMs_lookup (a : Z) :
  0 <= a → a <= maxFrames → ((λ n, framesToMs (Z.of_nat n)) <$> seq 0 4901) !! Z.to_nat a = Some (framesToMs a).
Proof.
  intros Ha Hm. unfold maxFrames in Hm. rewrite list_lookup_fmap, lookup_seq_lt by lia. cbn [fmap option_fmap option_map].
  by rewrite Nat.add_0_l, Z2Nat.id.
Qed.

Lemma framesToMs_lt (a b : Z) : 0 <= a → a < b → b <= maxFrames → framesToMs a < framesToMs b.
Proof.
  intros Ha Hab Hb. eapply strictly_lt; [apply framesToMs_strictly| | |].
  - apply framesToMs_lookup; [done|]. lia.
  - apply framesToMs_lookup; lia.
  - lia.
Qed.

Lemma framesToMs_nonneg (a : Z) : 0 <= a → a <= maxFrames → 0 <= framesToMs a.
Proof.
  intros Ha Hm. destruct (Z.eq_dec a 0) as [->|]; [by vm_compute|].
  pose proof (framesToMs_lt 0 a ltac:(lia) ltac:(lia) Hm) as H.
  assert (framesToMs 0 = 0) as E by (by vm_compute). lia.
Qed.

Lemma in_fingerprint_check (n start length : Z) :
  in_fingerprint n start length → n <= maxFrames →
  marker_check "intro" (mkMarker (framesToMs start) (framesToMs (start + length)) "auto") = true.
Proof.
  intros (H1 & H2 & H3) Hn. unfold minIntroFrames in H2.
  pose proof (framesToMs_lt start (start + length) ltac:(lia) ltac:(lia) ltac:(lia)).
  pose proof (framesToMs_nonneg start ltac:(lia) ltac:(lia)).
  unfold marker_check. cbn [StartMS EndMS Source]. rewrite !andb_true_iff. repeat split; lia || done.
Qed.


(** A write for another row leaves this one. *)
Lemma upsertAuto_other (item item' kind kind' : string) (s e : Z) (db : markers) :
  (item, kind) ≠ (item', kind') → upsertAutoMarker faults item kind s e db !! (item', kind') = db !! (item', kind').
Proof.
  intros Hne. unfold upsertAutoMarker, UpsertIntroMarker.
  destruct (read_fails _ _ _); [done|]. destruct (preserved _); [done|]. destruct (write_fails _ _ _); [done|].
  destruct (marker_check _ _); [|done]. by apply lookup_insert_ne.
Qed.

Lemma credits_keep_intro (db : markers) (ep : Episode) (item : string) :
  detectCreditsForItem black_starts faults db ep !! (item, "intro") = db !! (item, "intro").
Proof.
  unfold detectCreditsForItem. destruct (DurationMS ep) as [d|]; [|done]. destruct (d <=? 0); [done|].
  destruct (ep_path ep); [|done]. destruct (blackdetect _ _ _ _) as [c|]; [|done]. destruct (c <=? 0); [done|].
  destruct ((c >=? d) || _); [done|]. apply upsertAuto_other. congruence.
Qed.

Lemma credits_keep_intros (db : markers) (eps : list Episode) (item : string) :
  foldl (detectCreditsForItem black_starts faults) db eps !! (item, "intro") = db !! (item, "intro").
Proof.
  revert db. induction eps as [|ep eps IH]; intros db; cbn [foldl]; [done|]. by rewrite IH, credits_keep_intro.
Qed.

Lemma write_intro_other (db : markers) (p : Episode * episodeIntro) (item kind : string) :
  ep_id p.1 ≠ item → write_intro faults db p !! (item, kind) = db !! (item, kind).
Proof.
  destruct p as [ep intro]. cbn. intros Hne. destruct (_ <? _); [done|]. apply upsertAuto_other. congruence.
Qed.

Lemma write_intros_other (ps : list (Episode * episodeIntro)) (db : markers) (item kind : string) :
  item ∉ (λ p : Episode * episodeIntro, ep_id p.1) <$> ps →
  foldl (write_intro faults) db ps !! (item, kind) = db !! (item, kind).
Proof.
  revert db. induction ps as [|p ps IH]; intros db Hn; cbn [foldl]; [done|].
  rewrite fmap_cons in Hn. apply not_elem_of_cons in Hn as [Hp Hn]. rewrite IH by done. by apply write_intro_other.
Qed.

Lemma write_intro_row (db : markers) (ep : Episode) (intro : episodeIntro) (n : Z) :
  read_fails faults (ep_id ep) "intro" = false → write_fails faults (ep_id ep) "intro" = false →
  preserved (GetIntroMarkerSource (ep_id ep) "intro" db) = false →
  in_fingerprint n (startFrame intro) (lengthFrames intro) → n <= maxFrames →
  write_intro faults db (ep, intro) !! (ep_id ep, "intro") =
    Some (mkMarker (framesToMs (startFrame intro)) (framesToMs (startFrame intro + lengthFrames intro)) "auto").
Proof.
  intros Hr Hw Hp Hin Hn. unfold write_intro, upsertAutoMarker. pose proof Hin as (_ & Hlen & _).
  destruct (Z.ltb_spec (lengthFrames intro) minIntroFrames); [lia|]. rewrite Hr, Hp, Hw.
  unfold UpsertIntroMarker. rewrite (in_fingerprint_check n _ _ Hin Hn). apply lookup_insert_eq.
Qed.

Lemma zip_ids {B} (eps : list Episode) (xs : list B) : sublist ((λ p : Episode * B, ep_id p.1) <$> zip eps xs) (ep_id <$> eps).
Proof.
  revert xs. induction eps as [|e eps IH]; intros [|x xs]; cbn; [done|done|apply sublist_nil_l|].
  by apply sublist_skip.
Qed.

(** When no access to an episode's marker fails and the season alignment
    found an intro for it, that intro, converted to milliseconds, is its
    marker afterwards, unless a marker set by hand or read from chapters is
    kept. *)
Lemma season_intros_written (episodes : list Episode) (db : markers) (i : nat) (ep : Episode) (intro : episodeIntro) :
  NoDup (ep_id <$> episodes) → 2 <= len episodes →
  read_fails faults (ep_id ep) "intro" = false → write_fails faults (ep_id ep) "intro" = false →
  episodes !! i = Some ep → detectSeasonIntros (episode_fp fpcalc <$> episodes) !! i = Some intro →
  minIntroFrames <= lengthFrames intro → len (episode_fp fpcalc ep) <= maxFrames →
  preserved (GetIntroMarkerSource (ep_id ep) "intro" db) = false →
  DetectSeason fpcalc black_starts faults episodes db !! (ep_id ep, "intro") =
    Some (mkMarker (framesToMs (startFrame intro)) (framesToMs (startFrame intro + lengthFrames intro)) "auto").
Proof.
  intros Hnd Hlen Hr Hw Hep Hi Hmin Hmax Hp. unfold DetectSeason.
  destruct (Z.ltb_spec (len episodes) 2); [lia|]. cbv zeta. rewrite credits_keep_intros.
  pose proof (sublist_NoDup _ _ Hnd (zip_ids episodes (detectSeasonIntros (episode_fp fpcalc <$> episodes)))) as Hnd'.
  assert (zip episodes (detectSeasonIntros (episode_fp fpcalc <$> episodes)) !! i = Some (ep, intro)) as Hz
    by (apply lookup_zip_with_Some; eauto).
  apply list_elem_of_split_length in Hz as (l1 & l2 & E & _). rewrite E in Hnd' |- *.
  rewrite fmap_app, fmap_cons in Hnd'. apply NoDup_app in Hnd' as (_ & H1 & [H2 _]%NoDup_cons). cbn [fst] in *.
  rewrite foldl_app. cbn [foldl]. rewrite write_intros_other by done.
  apply (write_intro_row _ ep intro (len (episode_fp fpcalc ep))); [done|done| | |done].
  - unfold GetIntroMarkerSource in *. rewrite write_intros_other; [done|].
    intros Hin. apply (H1 _ Hin). left.
  - by apply (detectSeasonIntros_bounded (episode_fp fpcalc <$> episodes) i); [rewrite list_lookup_fmap, Hep|..].
Qed.
End Season.

(** * A season of two *)
Definition no_faults : Faults := mkFaults (λ _ _, false) (λ _ _, false).

Definition fp_text (n : nat) : string := "FINGERPRINT=" +:+ Join (repeat (Itoa 4) n) ",".
Definition fpcalc_ex (path : string) : option string := Some (fp_text (if String.eqb path "/a" then 50 else 45)).
Definition season_ex : list Episode := [mkEpisode "a" (Some 1000000) (Some "/a"); mkEpisode "b" None (Some "/b")].
Definition black_ex (path : string) (startSec : Z) : option (list float64) := Some [f64_of_Z 300; f64_of_Z 20].
Definition db_ex : markers := {[ ("b", "intro") := mkMarker 5 9 "manual" ]}.

(** The second episode's marker was set by hand. *)
Lemma season_detection_safe_witness :
  let db' := DetectSeason fpcalc_ex black_ex no_faults season_ex db_ex in
  markers_ok db' ∧ db' !! ("b", "intro") = Some (mkMarker 5 9 "manual") ∧
  db' !! ("a", "credits") = Some (mkMarker 660000 1000000 "auto").
Proof.
  destruct (season_detection_safe fpcalc_ex black_ex no_faults season_ex db_ex) as (Hok & Hkeep & _).
  - intros item kind m Hm. unfold db_ex in Hm. apply lookup_singleton_Some in Hm as [[= <- <-] <-]. done.
  - split; [exact Hok|]. split; [apply Hkeep; [done|by left]|by vm_compute].
Defined.

Lemma season_intros_written_witness :
  DetectSeason fpcalc_ex black_ex no_faults season_ex db_ex !! ("a", "intro") = Some (mkMarker 0 5571 "auto").
Proof.
  change (Some (mkMarker 0 5571 "auto")) with (Some (mkMarker (framesToMs 0) (framesToMs (0 + 45)) "auto")).
  apply (season_intros_written fpcalc_ex black_ex no_faults season_ex db_ex 0
    (mkEpisode "a" (Some 1000000) (Some "/a")) (mkIntro 0 45 (f64_of_Z 1)));
    [|by vm_compute..]. apply (bool_decide_unpack _). by vm_compute.
Defined.

(** A hand-set marker stored between the check and the automatic write is
    overwritten: nothing makes the two statements one. *)
Example race_overwrites_manual :
  let db0 : markers := ∅ in
  preserved (GetIntroMarkerSource "a" "intro" db0) = false ∧
  ∃ db1, Upsert "a" "intro" 100 200 db0 = Some db1 ∧
    (UpsertIntroMarker "a" "intro" (mkMarker 0 5571 "auto") db1 ≫= λ db2, db2 !! ("a", "intro")) = Some (mkMarker 0 5571 "auto").
Proof. split; [done|]. eexists. split; [reflexivity|]. by vm_compute. Qed.

(** Six differing bits count as close. *)
Example six_bits_match : distance 0 63 = 6 ∧ length_ (alignPair [0] [63]) = 1 ∧ length_ (alignPair [0] [127]) = 0.
Proof. by vm_compute. Qed.
