(* ===== verification/DVRSchedule.v ===== *)
(** DVR rules and the matcher: [internal/livetv/dvr.go], with the statements of
    [dvr.sql] and [ListEPGProgramsInWindow] of [live_tv.sql].

    Instants are nanoseconds since the epoch.  Seven calendar days before an
    instant, in the server's zone, is a parameter of the matcher.  Rules are
    kept in creation order and the guide in the order its query returns. *)
From S2P Require Import Prelude.
From S2P Require Import GoStrings.
From S2P Require Import GoBytes.

Local Open Scope Z_scope.

Definition Second : Z := 1000000000.
Definition Hour : Z := 3600 * Second.

(** * Data *)
Inductive ScheduleType :=
  | ScheduleTypeOnce | ScheduleTypeSeries | ScheduleTypeChannelBlock
  | UnknownType (text : string).
#[global] Instance ScheduleType_eq_dec : EqDecision ScheduleType.
Proof. solve_decision. Defined.

Record Schedule := mkSchedule {
  ID : nat;
  UserID : string;
  Type_ : ScheduleType;
  ProgramID : ptr string;
  ChannelID : ptr string;
  TitleMatch : ptr string;
  NewOnly : bool;
  TimeStart : ptr string;
  TimeEnd : ptr string;
  PaddingPreSec : Z;
  PaddingPostSec : Z;
  Priority : Z;
  RetentionDays : ptr Z;
  Enabled : bool
}.
#[export] Instance eta_Schedule : Eta Schedule := λ s,
  mkSchedule (ID s) (UserID s) (Type_ s) (ProgramID s) (ChannelID s) (TitleMatch s) (NewOnly s) (TimeStart s)
    (TimeEnd s) (PaddingPreSec s) (PaddingPostSec s) (Priority s) (RetentionDays s) (Enabled s).

Record EPGProgram := mkProgram {
  P_ID : string;
  P_ChannelID : string;
  P_Title : string;
  P_Subtitle : ptr string;
  P_SeasonNum : ptr Z;
  P_EpisodeNum : ptr Z;
  OriginalAirDate : ptr Z;
  P_StartsAt : Z;
  P_EndsAt : Z
}.

Inductive Status := Scheduled | RecordingNow | Completed | Failed | Cancelled | Superseded.
#[global] Instance Status_eq_dec : EqDecision Status.
Proof. solve_decision. Defined.

Record Recording := mkRecording {
  R_ID : nat;
  R_ScheduleID : ptr nat;
  R_UserID : string;
  R_ChannelID : string;
  R_ProgramID : ptr string;
  R_Title : string;
  R_Subtitle : ptr string;
  R_SeasonNum : ptr Z;
  R_EpisodeNum : ptr Z;
  R_Status : Status;
  R_StartsAt : Z;
  R_EndsAt : Z;
  R_FilePath : ptr string;
  R_ItemID : ptr string;
  R_Error : ptr string
}.
#[export] Instance eta_Recording : Eta Recording := λ r,
  mkRecording (R_ID r) (R_ScheduleID r) (R_UserID r) (R_ChannelID r) (R_ProgramID r) (R_Title r) (R_Subtitle r)
    (R_SeasonNum r) (R_EpisodeNum r) (R_Status r) (R_StartsAt r) (R_EndsAt r) (R_FilePath r) (R_ItemID r) (R_Error r).

(** * Bounds *)
Definition maxPaddingPreSec : Z := 15 * 60.
Definition maxPaddingPostSec : Z := 3 * 60 * 60.
Definition maxSchedulePriority : Z := 100.
Definition maxRetentionDays : Z := 3650.
Definition maxSchedulesPerUser : Z := 100.
Definition maxRecordingDuration : Z := 12 * Hour.
Definition matchHorizon : Z := 48 * Hour.

Definition clampPadding (v max : Z) : Z :=
  let v := if v <? 0 then 0 else v in
  let v := if v >? max then max else v in
  v * Second.

(** * Validation and the per-user cap *)
Definition set_text (p : ptr string) : bool := match p with Some s => negb (String.eqb s "") | None => false end.
Definition is_set {A} (p : ptr A) : bool := match p with Some _ => true | None => false end.

Definition type_ok (p : Schedule) : bool :=
  match Type_ p with
  | ScheduleTypeOnce => is_set (ProgramID p)
  | ScheduleTypeSeries => is_set (ChannelID p) && set_text (TitleMatch p)
  | ScheduleTypeChannelBlock => is_set (ChannelID p) && is_set (TimeStart p) && is_set (TimeEnd p)
  | UnknownType _ => false
  end.

(** [validateScheduleParams]: [true] when it returns no error. *)
Definition validateScheduleParams (p : Schedule) : bool :=
  type_ok p &&
  negb ((PaddingPreSec p <? 0) || (PaddingPreSec p >? maxPaddingPreSec)) &&
  negb ((PaddingPostSec p <? 0) || (PaddingPostSec p >? maxPaddingPostSec)) &&
  negb ((Priority p <? 0) || (Priority p >? maxSchedulePriority)) &&
  match RetentionDays p with
  | Some d => negb ((d <? 1) || (d >? maxRetentionDays))
  | None => true
  end.

(** A 'once' rule whose programme is in the guide and still to end. *)
Definition airing (guide : list EPGProgram) (now : Z) (s : Schedule) : bool :=
  match ProgramID s with
  | Some id => existsb (λ p, String.eqb (P_ID p) id && (P_EndsAt p >? now)) guide
  | None => false
  end.
Definition live (guide : list EPGProgram) (now : Z) (s : Schedule) : bool :=
  Enabled s && (negb (bool_decide (Type_ s = ScheduleTypeOnce)) || airing guide now s).

Definition CountLiveSchedulesForUser (guide : list EPGProgram) (now : Z) (user : string) (ss : list Schedule) : Z :=
  len (List.filter (λ s, String.eqb (UserID s) user && live guide now s) ss).

Definition scheduleLiveApprox (s : Schedule) : bool :=
  if negb (Enabled s) then false
  else if bool_decide (Type_ s = ScheduleTypeOnce) then is_set (ProgramID s) else true.

Inductive ScheduleError := ErrInvalidSchedule | ErrLimitReached | ErrNotFound.

Definition checkScheduleCap (guide : list EPGProgram) (now : Z) (user : string) (ss : list Schedule) : option ScheduleError :=
  if CountLiveSchedulesForUser guide now user ss >=? maxSchedulesPerUser then Some ErrLimitReached else None.

Definition with_default (v d : Z) : Z := if v =? 0 then d else v.

(** [CreateSchedule]; the database numbers the row and enables it. *)
Definition CreateSchedule (guide : list EPGProgram) (now : Z) (id : nat) (p : Schedule) (ss : list Schedule)
    : ScheduleError + list Schedule :=
  if negb (validateScheduleParams p) then inl ErrInvalidSchedule
  else match checkScheduleCap guide now (UserID p) ss with
       | Some e => inl e
       | None =>
           inr (ss ++ [mkSchedule id (UserID p) (Type_ p) (ProgramID p) (ChannelID p) (TitleMatch p) (NewOnly p)
                  (TimeStart p) (TimeEnd p) (with_default (PaddingPreSec p) 60) (with_default (PaddingPostSec p) 180)
                  (with_default (Priority p) 50) (RetentionDays p) true])
       end.

Definition GetSchedule (id : nat) (ss : list Schedule) : option Schedule := find_first (λ s, Nat.eqb (ID s) id) ss.

Definition SetScheduleEnabled (guide : list EPGProgram) (now : Z) (id : nat) (enabled : bool) (ss : list Schedule)
    : ScheduleError + list Schedule :=
  let write := (λ s, if Nat.eqb (ID s) id then s <| Enabled := enabled |> else s) <$> ss in
  if enabled then
    match GetSchedule id ss with
    | None => inl ErrNotFound
    | Some sc =>
        if negb (Enabled sc) then
          match checkScheduleCap guide now (UserID sc) ss with Some e => inl e | None => inr write end
        else inr write
    end
  else inr write.

(** The handler's owner check: a foreign row is not found. *)
Definition DeleteSchedule (caller : string) (id : nat) (ss : list Schedule) (rs : list Recording)
    : ScheduleError + (list Schedule * list Recording) :=
  match GetSchedule id ss with
  | Some sc =>
      if String.eqb (UserID sc) caller
      then inr (List.filter (λ s, negb (Nat.eqb (ID s) id)) ss,
                (λ r, if bool_decide (R_ScheduleID r = Some id) then r <| R_ScheduleID := None |> else r) <$> rs)
      else inl ErrNotFound
  | None => inl ErrNotFound
  end.

(** * Matching *)
Definition digit2 (a b : ascii) : option Z :=
  if is_digit a && is_digit b then Some (digitZ a * 10 + digitZ b) else None.

Definition parseHHMM (s : string) : option Z :=
  match of_string s with
  | [a; b; c; d; e] =>
      if negb (Ascii.eqb c ":") then None
      else match digit2 a b, digit2 d e with
           | Some h, Some m => if (h >=? 24) || (m >=? 60) then None else Some (h * 60 + m)
           | _, _ => None
           end
  | _ => None
  end.

(** [t.Hour()*60 + t.Minute()] of a UTC instant. *)
Definition minute_of_day (t : Z) : Z := (t `div` (60 * Second)) `mod` 1440.

Section Match.
Context (weekBefore : Z → Z).

Definition matches (now : Z) (sc : Schedule) (p : EPGProgram) : bool :=
  if match ChannelID sc with Some c => negb (String.eqb (P_ChannelID p) c) | None => false end then false
  else match Type_ sc with
       | ScheduleTypeOnce => match ProgramID sc with Some id => String.eqb (P_ID p) id | None => false end
       | ScheduleTypeSeries =>
           match TitleMatch sc with
           | None => false
           | Some t =>
               if String.eqb t "" then false
               else if negb (EqualFold (P_Title p) t) then false
               else if NewOnly sc then
                 match OriginalAirDate p with Some d => negb (d <? weekBefore now) | None => true end
               else true
           end
       | ScheduleTypeChannelBlock =>
           match TimeStart sc, TimeEnd sc with
           | Some ts, Some te =>
               match parseHHMM ts, parseHHMM te with
               | Some startMin, Some endMin =>
                   let progMin := minute_of_day (P_StartsAt p) in
                   if startMin <=? endMin then (progMin >=? startMin) && (progMin <? endMin)
                   else (progMin >=? startMin) || (progMin <? endMin)
               | _, _ => false
               end
           | _, _ => false
           end
       | UnknownType _ => false
       end.

(** ** The tables *)
Record DB := mkDB { schedules : list Schedule; guide : list EPGProgram; recordings : list Recording; next_id : nat }.

Definition by_priority (a b : Schedule) : Prop := Priority b <= Priority a.
#[global] Instance by_priority_dec : RelDecision by_priority.
Proof. intros a b. unfold by_priority. apply _. Defined.

(** Rows are kept in creation order. *)
Definition ListEnabledSchedules (now : Z) (db : DB) : list Schedule :=
  take 5000 (merge_sort by_priority (List.filter (live (guide db) now) (schedules db))).

Definition ListEPGProgramsInWindow (visible : string → bool) (from to : Z) (db : DB) : list EPGProgram :=
  List.filter (λ p, visible (P_ChannelID p) && (P_EndsAt p >? from) && (P_StartsAt p <? to)) (guide db).

Definition same_key (user program : string) (r : Recording) : bool :=
  String.eqb (R_UserID r) user && bool_decide (R_ProgramID r = Some program).

(** What the matcher asks to record. *)
Definition wanted (sc : Schedule) (p : EPGProgram) : option (Z * Z) :=
  let startsAt := P_StartsAt p - clampPadding (PaddingPreSec sc) maxPaddingPreSec in
  let endsAt := P_EndsAt p + clampPadding (PaddingPostSec sc) maxPaddingPostSec in
  if endsAt - startsAt >? maxRecordingDuration then None else Some (startsAt, endsAt).

(** The columns the conflict branch sets; the row keeps its channel. *)
Definition refresh (sc : Schedule) (p : EPGProgram) (startsAt endsAt : Z) (r : Recording) : Recording :=
  mkRecording (R_ID r) (Some (ID sc)) (R_UserID r) (R_ChannelID r) (R_ProgramID r) (P_Title p)
    (P_Subtitle p) (P_SeasonNum p) (P_EpisodeNum p) (R_Status r) startsAt endsAt
    (R_FilePath r) (R_ItemID r) (R_Error r).

(** [UpsertRecording]; [false]: no row is returned, which the caller sees as
    an error. *)
Definition UpsertRecording (sc : Schedule) (p : EPGProgram) (startsAt endsAt : Z) (db : DB) : DB * bool :=
  match find_first (same_key (UserID sc) (P_ID p)) (recordings db) with
  | Some old =>
      if bool_decide (R_Status old = Scheduled) then
        (mkDB (schedules db) (guide db)
           ((λ r, if same_key (UserID sc) (P_ID p) r then refresh sc p startsAt endsAt r else r) <$> recordings db)
           (next_id db), true)
      else (db, false)
  | None =>
      (mkDB (schedules db) (guide db)
         (recordings db ++ [mkRecording (next_id db) (Some (ID sc)) (UserID sc) (P_ChannelID p) (Some (P_ID p))
            (P_Title p) (P_Subtitle p) (P_SeasonNum p) (P_EpisodeNum p) Scheduled startsAt endsAt None None None])
         (S (next_id db)), true)
  end.

(** The table, the upserts that succeeded and those that did not. *)
Definition record_candidate (st : DB * Z * Z) (c : Schedule * EPGProgram) : DB * Z * Z :=
  let '(db, matched, conflicts) := st in
  match wanted c.1 c.2 with
  | None => st
  | Some (startsAt, endsAt) =>
      let '(db', ok) := UpsertRecording c.1 c.2 startsAt endsAt db in
      if ok then (db', matched + 1, conflicts) else (db', matched, conflicts + 1)
  end.

Definition match_candidates (now : Z) (ss : list Schedule) (ps : list EPGProgram) : list (Schedule * EPGProgram) :=
  sc ← ss; p ← List.filter (matches now sc) ps; [(sc, p)].

Definition Match (visible : string → bool) (now : Z) (db : DB) : DB * Z * Z :=
  let ss := ListEnabledSchedules now db in
  let ps := ListEPGProgramsInWindow visible now (now + matchHorizon) db in
  if (len ss =? 0) || (len ps =? 0) then (db, 0, 0)
  else foldl record_candidate (db, 0, 0) (match_candidates now ss ps).
End Match.

(** * Time-of-day blocks *)
Lemma parseHHMM_range (s : string) (m : Z) : parseHHMM s = Some m → 0 <= m < 1440.
Proof.
  unfold parseHHMM. destruct (of_string s) as [|a [|b [|c [|d [|e [|]]]]]]; try done.
  destruct (negb _); [done|]. unfold digit2.
  destruct (is_digit a && is_digit b) eqn:E1; [|done]. destruct (is_digit d && is_digit e) eqn:E2; [|done].
  destruct ((digitZ a * 10 + digitZ b >=? 24) || (digitZ d * 10 + digitZ e >=? 60)) eqn:E3; [done|].
  intros [= <-]. unfold is_digit in *. unfold digitZ in *. breflect. lia.
Qed.

Lemma block_minute_range (t : Z) : 0 <= minute_of_day t < 1440.
Proof. unfold minute_of_day. by apply Z.mod_pos_bound. Qed.

(** A time-of-day rule records a programme on its channel exactly when the
    UTC minute the programme starts at is reached from the rule's start before
    its end going round the day; a rule whose start and end coincide, or whose
    times are not HH:MM, records nothing. *)
Lemma block_is_circular (weekBefore : Z → Z) (now : Z) (sc : Schedule) (p : EPGProgram) (c ts te : string) :
  Type_ sc = ScheduleTypeChannelBlock → ChannelID sc = Some c → TimeStart sc = Some ts → TimeEnd sc = Some te →
  matches weekBefore now sc p = true ↔
  P_ChannelID p = c ∧ ∃ s e, parseHHMM ts = Some s ∧ parseHHMM te = Some e ∧
    (minute_of_day (P_StartsAt p) - s) `mod` 1440 < (e - s) `mod` 1440.
Proof.
  intros Ht Hc Hs He. unfold matches. rewrite Ht, Hc, Hs, He.
  destruct (String.eqb_spec (P_ChannelID p) c) as [->|Hne]; cbn [negb]; [|naive_solver].
  destruct (parseHHMM ts) as [s|] eqn:Es; [|naive_solver].
  destruct (parseHHMM te) as [e|] eqn:Ee; [|naive_solver].
  apply parseHHMM_range in Es, Ee. pose proof (block_minute_range (P_StartsAt p)) as Hm.
  set (m := minute_of_day (P_StartsAt p)) in *.
  assert (∀ x, - 1440 < x < 1440 → x `mod` 1440 = if x <? 0 then x + 1440 else x) as Hmod.
  { intros x Hx. destruct (Z.ltb_spec x 0); [|apply Z.mod_small; lia].
    rewrite <- (Z_mod_plus_full x 1 1440). apply Z.mod_small. lia. }
  assert (∀ b : bool, (b = true ↔ (m - s) `mod` 1440 < (e - s) `mod` 1440) →
    b = true ↔ c = c ∧ ∃ s' e', Some s = Some s' ∧ Some e = Some e' ∧ (m - s') `mod` 1440 < (e' - s') `mod` 1440) as Hwrap.
  { intros b ->. split; [intros H; split; [done|]; by exists s, e|]. intros (_ & s' & e' & [= <-] & [= <-] & H). done. }
  apply Hwrap. rewrite !Hmod by lia. clear Hwrap Hmod.
  destruct (Z.leb_spec s e), (Z.ltb_spec (m - s) 0), (Z.ltb_spec (e - s) 0); try lia;
    rewrite ?andb_true_iff, ?orb_true_iff; split; lia.
Qed.

Example midnight_block :
  let sc := mkSchedule 1 "u" ScheduleTypeChannelBlock None (Some "c") None false (Some "22:00") (Some "02:00") 0 0 50 None true in
  let at_ h m := mkProgram "p" "c" "t" None None None None ((h * 60 + m) * 60 * Second) 0 in
  matches (λ t, t) 0 sc (at_ 23 59) = true ∧ matches (λ t, t) 0 sc (at_ 1 59) = true ∧
  matches (λ t, t) 0 sc (at_ 2 0) = false ∧ matches (λ t, t) 0 sc (at_ 21 59) = false.
Proof. by vm_compute. Qed.

Lemma block_is_circular_witness :
  let sc := mkSchedule 1 "u" ScheduleTypeChannelBlock None (Some "c") None false (Some "22:00") (Some "02:00") 0 0 50 None true in
  matches (λ t, t) 0 sc (mkProgram "p" "c" "t" None None None None ((23 * 60 + 59) * 60 * Second) 0) = true.
Proof.
  apply (block_is_circular (λ t, t) 0 _ _ "c" "22:00" "02:00"); [done..|].
  split; [done|]. exists 1320, 120. split; [done|]. split; [done|]. by vm_compute.
Defined.

(** * The matcher *)
Lemma clampPadding_range (v max : Z) : 0 <= max → 0 <= clampPadding v max <= max * Second.
Proof. intros Hm. unfold clampPadding, Second.
  destruct (Z.ltb_spec v 0); [destruct (Z.gtb_spec 0 max)|destruct (Z.gtb_spec v max)]; lia. Qed.

Definition db_ok (db : DB) : Prop :=
  (∀ r, r ∈ recordings db → (R_ID r < next_id db)%nat) ∧
  NoDup (R_ID <$> recordings db) ∧
  (∀ i j r r' p, recordings db !! i = Some r → recordings db !! j = Some r' →
     R_UserID r = R_UserID r' → R_ProgramID r = Some p → R_ProgramID r' = Some p → i = j).

Lemma same_key_spec (user program : string) (r : Recording) :
  same_key user program r = true ↔ R_UserID r = user ∧ R_ProgramID r = Some program.
Proof. unfold same_key. rewrite andb_true_iff, String.eqb_eq, bool_decide_eq_true. done. Qed.

(** One candidate's effect on one row. *)
Definition rewrite_row (c : Schedule * EPGProgram) (r : Recording) : Recording :=
  match wanted c.1 c.2 with
  | Some (s, e) =>
      if same_key (UserID c.1) (P_ID c.2) r && bool_decide (R_Status r = Scheduled) then refresh c.1 c.2 s e r else r
  | None => r
  end.

(** The row a candidate inserts. *)
Definition new_row (id : nat) (c : Schedule * EPGProgram) (s e : Z) : Recording :=
  mkRecording id (Some (ID c.1)) (UserID c.1) (P_ChannelID c.2) (Some (P_ID c.2)) (P_Title c.2) (P_Subtitle c.2)
    (P_SeasonNum c.2) (P_EpisodeNum c.2) Scheduled s e None None None.

Lemma key_row (user program : string) (db : DB) (old r : Recording) :
  db_ok db → old ∈ recordings db → r ∈ recordings db →
  same_key user program old = true → same_key user program r = true → r = old.
Proof.
  intros (_ & _ & Hk) [i Hi]%list_elem_of_lookup_1 [j Hj]%list_elem_of_lookup_1 [? ?]%same_key_spec [? ?]%same_key_spec.
  assert (i = j) as -> by (apply (Hk i j old r program); congruence). congruence.
Qed.

(** Each upsert rewrites every row by [rewrite_row], or inserts. *)
Lemma upsert_cases (sc : Schedule) (p : EPGProgram) (s e : Z) (db : DB) :
  db_ok db → wanted sc p = Some (s, e) →
  let db' := (UpsertRecording sc p s e db).1 in
  schedules db' = schedules db ∧ guide db' = guide db ∧
  ((existsb (same_key (UserID sc) (P_ID p)) (recordings db) = true ∧ next_id db' = next_id db ∧
    recordings db' = rewrite_row (sc, p) <$> recordings db) ∨
   (existsb (same_key (UserID sc) (P_ID p)) (recordings db) = false ∧ next_id db' = S (next_id db) ∧
    recordings db' = recordings db ++ [new_row (next_id db) (sc, p) s e])).
Proof.
  intros Hok Hw. unfold UpsertRecording. destruct (find_first _ _) as [old|] eqn:Ef; cbv zeta.
  - apply find_first_Some in Ef as [Hin Hold].
    assert (existsb (same_key (UserID sc) (P_ID p)) (recordings db) = true) as Hex
      by (apply existsb_exists_elem; by exists old).
    assert (∀ r, r ∈ recordings db → rewrite_row (sc, p) r =
      if same_key (UserID sc) (P_ID p) r then (if bool_decide (R_Status old = Scheduled) then refresh sc p s e r else r) else r) as Hrow.
    { intros r Hr. unfold rewrite_row. cbn [fst snd]. rewrite Hw.
      destruct (same_key (UserID sc) (P_ID p) r) eqn:Ek; [|done]. cbn [andb].
      by rewrite (key_row _ _ db old r Hok Hin Hr Hold Ek). }
    destruct (bool_decide (R_Status old = Scheduled)) eqn:Es; cbn [fst schedules guide recordings next_id];
      (split; [done|]; split; [done|]; left; split; [done|]; split; [done|]).
    + apply list_fmap_ext. intros i r Hr. apply list_elem_of_lookup_2 in Hr. by rewrite Hrow.
    + transitivity (id <$> recordings db); [by rewrite list_fmap_id|].
      apply list_fmap_ext. intros i r Hr. apply list_elem_of_lookup_2 in Hr. rewrite Hrow by done. by destruct (same_key _ _ r).
  - cbn [fst schedules guide recordings next_id]. split; [done|]. split; [done|]. right. split; [|done].
    apply not_true_iff_false. intros (r & Hr & Hk)%existsb_exists_elem.
    rewrite find_first_None in Ef. specialize (Ef r Hr). congruence.
Qed.

(** What no upsert changes. *)
Definition identity (r : Recording) :=
  (R_ID r, R_UserID r, R_ChannelID r, R_ProgramID r, R_Status r, R_FilePath r, R_ItemID r, R_Error r).

Definition rewrite_all (cs : list (Schedule * EPGProgram)) (r : Recording) : Recording := foldl (λ r c, rewrite_row c r) r cs.

Lemma rewrite_row_identity (c : Schedule * EPGProgram) (r : Recording) : identity (rewrite_row c r) = identity r.
Proof. unfold rewrite_row. destruct (wanted c.1 c.2) as [[s e]|]; [|done]. by destruct (_ && _). Qed.

Lemma rewrite_all_identity (cs : list (Schedule * EPGProgram)) (r : Recording) : identity (rewrite_all cs r) = identity r.
Proof.
  revert r. induction cs as [|c cs IH]; intros r; [done|]. change (rewrite_all (c :: cs) r) with (rewrite_all cs (rewrite_row c r)).
  by rewrite IH, rewrite_row_identity.
Qed.

Lemma identity_key (user program : string) (r r' : Recording) :
  identity r = identity r' → same_key user program r = same_key user program r' ∧ R_Status r = R_Status r'.
Proof. unfold identity, same_key. intros [= _ -> _ -> -> _ _ _]. done. Qed.

(** A candidate overrides whatever other candidates wrote. *)
Lemma rewrite_row_absorbs (c : Schedule * EPGProgram) (r x : Recording) :
  identity x = identity r → rewrite_row c r = r ∨ rewrite_row c x = rewrite_row c r.
Proof.
  intros E. unfold rewrite_row. destruct (wanted c.1 c.2) as [[s e]|]; [|by left].
  destruct (identity_key (UserID c.1) (P_ID c.2) _ _ E) as [-> ->].
  destruct (_ && _); [right|by left]. unfold refresh. unfold identity in E. injection E. intros. f_equal; congruence.
Qed.

Lemma rewrite_row_stable (cs : list (Schedule * EPGProgram)) (c : Schedule * EPGProgram) (r : Recording) :
  rewrite_all cs r = r → rewrite_all (cs ++ [c]) (rewrite_row c r) = rewrite_row c r.
Proof.
  intros Hr. unfold rewrite_all. rewrite foldl_app. cbn [foldl]. fold (rewrite_all cs (rewrite_row c r)).
  destruct (rewrite_row_absorbs c r (rewrite_all cs (rewrite_row c r))) as [E|E]; [|rewrite E, Hr; done|done].
  by rewrite rewrite_all_identity, rewrite_row_identity.
Qed.

Definition key_present (c : Schedule * EPGProgram) (rs : list Recording) : Prop :=
  existsb (same_key (UserID c.1) (P_ID c.2)) rs = true.

Lemma key_present_map (c d : Schedule * EPGProgram) (rs : list Recording) :
  key_present c rs → key_present c (rewrite_row d <$> rs).
Proof.
  unfold key_present. rewrite !existsb_exists_elem. intros (r & Hr & Hk). exists (rewrite_row d r).
  split; [by apply list_elem_of_fmap_2|].
  by rewrite (proj1 (identity_key _ _ _ _ (rewrite_row_identity d r))).
Qed.

Lemma db_ok_map (db db' : DB) (c : Schedule * EPGProgram) :
  db_ok db → next_id db' = next_id db → recordings db' = rewrite_row c <$> recordings db → db_ok db'.
Proof.
  intros (Hid & Hnd & Hk) En Er. unfold db_ok. rewrite En, Er. split; [|split].
  - intros r (r0 & -> & Hr)%list_elem_of_fmap. pose proof (rewrite_row_identity c r0) as E. unfold identity in E.
    injection E as -> _ _ _ _ _ _ _. by apply Hid.
  - rewrite <- list_fmap_compose. rewrite (list_fmap_ext _ R_ID); [done|]. intros i r _. cbn.
    pose proof (rewrite_row_identity c r) as E. unfold identity in E. by injection E.
  - intros i j r r' p Hi Hj Eu Ep Ep'. rewrite list_lookup_fmap in Hi, Hj.
    destruct (recordings db !! i) as [x|] eqn:Hx; [|done]. destruct (recordings db !! j) as [y|] eqn:Hy; [|done].
    injection Hi as <-. injection Hj as <-. pose proof (rewrite_row_identity c x) as Ex. pose proof (rewrite_row_identity c y) as Ey.
    unfold identity in Ex, Ey. injection Ex as _ Ex1 _ Ex2 _ _ _ _. injection Ey as _ Ey1 _ Ey2 _ _ _ _.
    apply (Hk i j x y p); congruence.
Qed.

Lemma db_ok_insert (db db' : DB) (c : Schedule * EPGProgram) (s e : Z) :
  db_ok db → next_id db' = S (next_id db) → ¬ key_present c (recordings db) →
  recordings db' = recordings db ++ [new_row (next_id db) c s e] → db_ok db'.
Proof.
  intros (Hid & Hnd & Hk) En Hno Er. unfold db_ok. rewrite En, Er. split; [|split].
  - intros r [Hr| ->%list_elem_of_singleton]%elem_of_app; [specialize (Hid r Hr); lia|cbn; lia].
  - rewrite fmap_app. apply NoDup_app. split; [done|]. split; [|apply NoDup_singleton].
    intros x (r & -> & Hr)%list_elem_of_fmap Hin%list_elem_of_singleton. specialize (Hid r Hr). cbn in Hin. lia.
  - assert (∀ i r, recordings db !! i = Some r → R_UserID r = UserID c.1 → R_ProgramID r = Some (P_ID c.2) → False) as Hnew.
    { intros i r Hi Eu Ep. apply Hno. apply existsb_exists_elem. exists r. split; [by eapply list_elem_of_lookup_2|].
      by apply same_key_spec. }
    intros i j r r' p Hi Hj Eu Ep Ep'. apply lookup_snoc_Some in Hi as [[Hl Hi]|[-> <-]], Hj as [[Hl' Hj]|[-> <-]].
    + by apply (Hk i j r r' p).
    + exfalso. cbn in Eu, Ep'. apply (Hnew i r Hi Eu). congruence.
    + exfalso. cbn in Eu, Ep. apply (Hnew j r' Hj (eq_sym Eu)). congruence.
    + done.
Qed.

(** A row whose capture window some candidate among [cs] asked for. *)
Definition window_of (cs : list (Schedule * EPGProgram)) (r : Recording) : Prop :=
  R_Status r = Scheduled ∧
  ∃ c, c ∈ cs ∧ R_UserID r = UserID c.1 ∧ R_ProgramID r = Some (P_ID c.2) ∧ wanted c.1 c.2 = Some (R_StartsAt r, R_EndsAt r).

(** What holds of the tables after the candidates [cs]. *)
Record pass (db0 : DB) (cs : list (Schedule * EPGProgram)) (db : DB) : Prop := {
  pass_ok : db_ok db;
  pass_rules : schedules db = schedules db0 ∧ guide db = guide db0;
  pass_rows : ∀ i r0, recordings db0 !! i = Some r0 → recordings db !! i = Some (rewrite_all cs r0);
  pass_stable : ∀ r, r ∈ recordings db → rewrite_all cs r = r;
  pass_keys : ∀ c, c ∈ cs → wanted c.1 c.2 ≠ None → key_present c (recordings db);
  pass_windows : ∀ r, r ∈ recordings db → r ∈ recordings db0 ∨ window_of cs r
}.

Lemma window_mono (cs : list (Schedule * EPGProgram)) (c : Schedule * EPGProgram) (r : Recording) :
  window_of cs r → window_of (cs ++ [c]) r.
Proof.
  intros (Hs & d & Hd & H). split; [done|]. exists d. split; [|done]. apply elem_of_app. by left.
Qed.

Lemma rewrite_row_window (cs : list (Schedule * EPGProgram)) (c : Schedule * EPGProgram) (r : Recording) :
  rewrite_row c r = r ∨ window_of (cs ++ [c]) (rewrite_row c r).
Proof.
  unfold rewrite_row. destruct (wanted c.1 c.2) as [[s e]|] eqn:Ew; [|by left].
  destruct (same_key _ _ r && bool_decide (R_Status r = Scheduled)) eqn:E; [right|by left].
  apply andb_true_iff in E as [[Hu Hp]%same_key_spec Hs%bool_decide_eq_true]. split; [done|].
  exists c. split; [apply elem_of_app; right; left|]. cbn. by rewrite Ew.
Qed.

Lemma rewrite_all_snoc (cs : list (Schedule * EPGProgram)) (c : Schedule * EPGProgram) (r : Recording) :
  rewrite_all (cs ++ [c]) r = rewrite_row c (rewrite_all cs r).
Proof. unfold rewrite_all. by rewrite foldl_app. Qed.

Lemma pass_skip (db0 db : DB) (cs : list (Schedule * EPGProgram)) (c : Schedule * EPGProgram) :
  wanted c.1 c.2 = None → pass db0 cs db → pass db0 (cs ++ [c]) db.
Proof.
  intros Hw [H1 H2 H3 H4 H5 H6].
  assert (∀ r, rewrite_row c r = r) as Hid by (intros r; unfold rewrite_row; by rewrite Hw).
  split; [done|done| | | |].
  - intros i r0 Hr. rewrite rewrite_all_snoc, Hid. by apply H3.
  - intros r Hr. rewrite rewrite_all_snoc, Hid. by apply H4.
  - intros d [Hd| ->%list_elem_of_singleton]%elem_of_app Hne; [by apply H5|done].
  - intros r Hr. destruct (H6 r Hr) as [?|?]; [by left|right; by apply window_mono].
Qed.

Lemma pass_update (db0 db db' : DB) (cs : list (Schedule * EPGProgram)) (c : Schedule * EPGProgram) :
  pass db0 cs db → schedules db' = schedules db → guide db' = guide db → next_id db' = next_id db →
  recordings db' = rewrite_row c <$> recordings db → key_present c (recordings db) → pass db0 (cs ++ [c]) db'.
Proof.
  intros [H1 [H2 H2'] H3 H4 H5 H6] Es Eg En Er Hkey. split; [by apply (db_ok_map db db' c)|split; congruence| | | |]; rewrite Er.
  - intros i r0 Hr. by rewrite list_lookup_fmap, (H3 i r0 Hr), rewrite_all_snoc.
  - intros r (r0 & -> & Hr)%list_elem_of_fmap. apply rewrite_row_stable. by apply H4.
  - intros d [Hd| ->%list_elem_of_singleton]%elem_of_app Hne; apply key_present_map; [by apply H5|done].
  - intros r (r0 & -> & Hr)%list_elem_of_fmap. destruct (rewrite_row_window cs c r0) as [->|?]; [|by right].
    destruct (H6 r0 Hr) as [?|?]; [by left|right; by apply window_mono].
Qed.

Lemma new_row_other (id : nat) (s e : Z) (c : Schedule * EPGProgram) (cs : list (Schedule * EPGProgram)) (rs : list Recording) :
  (∀ d, d ∈ cs → wanted d.1 d.2 ≠ None → key_present d rs) → ¬ key_present c rs →
  rewrite_all cs (new_row id c s e) = new_row id c s e.
Proof.
  intros Hkeys Hno. induction cs as [|d cs IH] using rev_ind; [done|]. rewrite rewrite_all_snoc, IH.
  - unfold rewrite_row. destruct (wanted d.1 d.2) as [[s' e']|] eqn:Ew; [|done].
    destruct (same_key (UserID d.1) (P_ID d.2) (new_row id c s e)) eqn:Ek; [|done]. exfalso. apply Hno.
    apply same_key_spec in Ek as [Eu Ep]. cbn in Eu, Ep. injection Ep as Ep. unfold key_present. rewrite Eu, Ep.
    apply Hkeys; [apply elem_of_app; right; left|by rewrite Ew].
  - intros x Hx. apply Hkeys. apply elem_of_app. by left.
Qed.

Lemma pass_insert (db0 db db' : DB) (cs : list (Schedule * EPGProgram)) (c : Schedule * EPGProgram) (s e : Z) :
  pass db0 cs db → wanted c.1 c.2 = Some (s, e) → schedules db' = schedules db → guide db' = guide db →
  next_id db' = S (next_id db) → recordings db' = recordings db ++ [new_row (next_id db) c s e] →
  ¬ key_present c (recordings db) → pass db0 (cs ++ [c]) db'.
Proof.
  intros [H1 [H2 H2'] H3 H4 H5 H6] Hw Es Eg En Er Hno.
  assert (∀ r, r ∈ recordings db → rewrite_row c r = r) as Hsame.
  { intros r Hr. unfold rewrite_row. rewrite Hw. destruct (same_key _ _ r) eqn:Ek; [|done]. exfalso. apply Hno.
    apply existsb_exists_elem. by exists r. }
  split; [by apply (db_ok_insert db db' c s e)|split; congruence| | | |]; rewrite Er.
  - intros i r0 Hr. rewrite (lookup_app_l_Some _ _ _ _ (H3 i r0 Hr)), rewrite_all_snoc.
    f_equal. symmetry. apply Hsame. eapply list_elem_of_lookup_2. by apply (H3 i).
  - intros r [Hr| ->%list_elem_of_singleton]%elem_of_app; rewrite rewrite_all_snoc.
    + rewrite H4 by done. by apply Hsame.
    + rewrite (new_row_other _ _ _ _ _ (recordings db)) by done. unfold rewrite_row. rewrite Hw.
      by destruct (_ && _).
  - intros d [Hd| ->%list_elem_of_singleton]%elem_of_app Hne; unfold key_present; rewrite existsb_app.
    + rewrite (H5 d Hd Hne). done.
    + cbn. unfold same_key. cbn. rewrite String.eqb_refl, bool_decide_eq_true_2 by done. by rewrite orb_true_r.
  - intros r [Hr| ->%list_elem_of_singleton]%elem_of_app.
    + destruct (H6 r Hr) as [?|?]; [by left|right; by apply window_mono].
    + right. split; [done|]. exists c. split; [apply elem_of_app; right; left|]. done.
Qed.

Lemma pass_step (db0 : DB) (cs : list (Schedule * EPGProgram)) (c : Schedule * EPGProgram) (st : DB * Z * Z) :
  pass db0 cs st.1.1 → pass db0 (cs ++ [c]) (record_candidate st c).1.1.
Proof.
  destruct st as [[db m] k], c as [sc p]. cbn [fst]. intros H. unfold record_candidate. cbn [fst snd].
  destruct (wanted sc p) as [[s e]|] eqn:Ew; [|by apply pass_skip].
  destruct (upsert_cases sc p s e db (pass_ok _ _ _ H) Ew) as (Es & Eg & [(Hk & En & Er)|(Hk & En & Er)]);
    destruct (UpsertRecording sc p s e db) as [db' ok]; cbn [fst] in *.
  - assert (pass db0 (cs ++ [(sc, p)]) db') by (by apply (pass_update db0 db)). by destruct ok.
  - assert (pass db0 (cs ++ [(sc, p)]) db').
    { apply (pass_insert db0 db db' cs (sc, p) s e); try done. unfold key_present. cbn [fst snd]. congruence. }
    by destruct ok.
Qed.

Lemma pass_fold (db0 : DB) (cs done_ : list (Schedule * EPGProgram)) (st : DB * Z * Z) :
  pass db0 done_ st.1.1 → pass db0 (done_ ++ cs) (foldl record_candidate st cs).1.1.
Proof.
  revert done_ st. induction cs as [|c cs IH]; intros d st H; cbn [foldl]; [by rewrite app_nil_r|].
  replace (d ++ c :: cs) with ((d ++ [c]) ++ cs) by (by rewrite <- (assoc_L (++))). apply IH. by apply pass_step.
Qed.

Lemma pass_init (db : DB) : db_ok db → pass db [] db.
Proof.
  intros Hok. split; [done|done|done|done| |by left]. by intros c []%not_elem_of_nil.
Qed.

(** A pass that finds every key only rewrites rows. *)
Lemma pass_rewrites (db : DB) (cs : list (Schedule * EPGProgram)) (m k : Z) :
  db_ok db → (∀ c, c ∈ cs → wanted c.1 c.2 ≠ None → key_present c (recordings db)) →
  recordings (foldl record_candidate (db, m, k) cs).1.1 = rewrite_all cs <$> recordings db.
Proof.
  revert db m k. induction cs as [|c cs IH]; intros db m k Hok Hkeys; cbn [foldl].
  { change (rewrite_all []) with (@id Recording). by rewrite list_fmap_id. }
  destruct c as [sc p]. assert (wanted sc p ≠ None → key_present (sc, p) (recordings db)) as Hc by (apply (Hkeys (sc, p)); left).
  assert (∀ c, c ∈ cs → wanted c.1 c.2 ≠ None → key_present c (recordings db)) as Hcs by (intros; apply Hkeys; [by right|done]).
  unfold record_candidate at 2. cbn [fst snd]. destruct (wanted sc p) as [[s e]|] eqn:Ew.
  - destruct (upsert_cases sc p s e db Hok Ew) as (Es & Eg & [(_ & En & Er)|(Hk & _)]).
    + destruct (UpsertRecording sc p s e db) as [db' ok]. cbn [fst] in *.
      assert (∀ m k, recordings (foldl record_candidate (db', m, k) cs).1.1 = rewrite_all ((sc, p) :: cs) <$> recordings db) as H.
      { intros m' k'. rewrite IH; [|by apply (db_ok_map db db' (sc, p))|].
        - rewrite Er, <- list_fmap_compose. done.
        - intros c Hc' Hne. rewrite Er. apply key_present_map. by apply Hcs. }
      by destruct ok.
    + unfold key_present in Hc. cbn [fst snd] in Hc. rewrite Hc in Hk by done. done.
  - rewrite IH by done. apply list_fmap_ext. intros i r _. unfold rewrite_all. cbn [foldl]. f_equal.
    unfold rewrite_row. cbn [fst snd]. by rewrite Ew.
Qed.

Section MatchProps.
Context (weekBefore : Z → Z) (visible : string → bool) (now : Z).

(** An enabled rule and a programme of the window that it matches. *)
Definition match_of (db : DB) (sc : Schedule) (p : EPGProgram) : Prop :=
  sc ∈ ListEnabledSchedules now db ∧ p ∈ ListEPGProgramsInWindow visible now (now + matchHorizon) db ∧
  matches weekBefore now sc p = true.

Lemma match_candidates_spec (ss : list Schedule) (ps : list EPGProgram) (c : Schedule * EPGProgram) :
  c ∈ match_candidates weekBefore now ss ps ↔ c.1 ∈ ss ∧ c.2 ∈ ps ∧ matches weekBefore now c.1 c.2 = true.
Proof.
  unfold match_candidates. destruct c as [sc p]. rewrite list_elem_of_bind. setoid_rewrite list_elem_of_bind.
  setoid_rewrite elem_of_List_filter. setoid_rewrite list_elem_of_singleton. cbn [fst snd]. naive_solver.
Qed.

Definition run_candidates (db : DB) : list (Schedule * EPGProgram) :=
  match_candidates weekBefore now (ListEnabledSchedules now db)
    (ListEPGProgramsInWindow visible now (now + matchHorizon) db).

Lemma Match_fold (db : DB) : (Match weekBefore visible now db).1.1 = (foldl record_candidate (db, 0, 0) (run_candidates db)).1.1.
Proof.
  unfold Match, run_candidates. destruct ((len _ =? 0) || _) eqn:E; [|done].
  set (ss := ListEnabledSchedules now db) in *. set (ps := ListEPGProgramsInWindow _ _ _ db) in *.
  assert (match_candidates weekBefore now ss ps = []) as ->; [|done].
  destruct (match_candidates weekBefore now ss ps) as [|c cs] eqn:Ec; [done|].
  assert (c ∈ match_candidates weekBefore now ss ps) as Hc by (rewrite Ec; left).
  apply match_candidates_spec in Hc as (H1 & H2 & _). unfold len in E.
  destruct ss; [by apply not_elem_of_nil in H1|]. destruct ps; [by apply not_elem_of_nil in H2|done].
Qed.

Lemma Match_pass (db : DB) : db_ok db → pass db (run_candidates db) (Match weekBefore visible now db).1.1.
Proof. intros Hok. rewrite Match_fold. apply (pass_fold db (run_candidates db) [] (db, 0, 0)). by apply pass_init. Qed.

(** A pass of the matcher keeps the keys of the recordings table unique,
    leaves every recording that is no longer merely scheduled as it was, and
    leaves a recording for each (user, programme) some enabled rule wants;
    every row it adds or changes belongs to such a rule and programme, starts
    at most 15 minutes before the programme, ends at most 3 hours after it
    and lasts at most 12 hours. *)
Lemma match_recordings (db : DB) :
  db_ok db →
  let db' := (Match weekBefore visible now db).1.1 in
  db_ok db' ∧
  (∀ i r, recordings db !! i = Some r → R_Status r ≠ Scheduled → recordings db' !! i = Some r) ∧
  (∀ sc p, match_of db sc p → wanted sc p ≠ None →
     ∃ r, r ∈ recordings db' ∧ R_UserID r = UserID sc ∧ R_ProgramID r = Some (P_ID p)) ∧
  (∀ r, r ∈ recordings db' → r ∉ recordings db →
     R_Status r = Scheduled ∧ ∃ sc p, match_of db sc p ∧ R_UserID r = UserID sc ∧ R_ProgramID r = Some (P_ID p) ∧
       P_StartsAt p - 900 * Second <= R_StartsAt r <= P_StartsAt p ∧
       P_EndsAt p <= R_EndsAt r <= P_EndsAt p + 3 * Hour ∧
       R_EndsAt r - R_StartsAt r <= 12 * Hour).
Proof.
  intros Hok. cbv zeta. pose proof (Match_pass db Hok) as Hpass. set (db' := (Match weekBefore visible now db).1.1) in *.
  destruct Hpass as [H1 _ H3 _ H5 H6].
  split; [done|]. split; [|split].
  - intros i r Hi Hs. rewrite (H3 i r Hi). f_equal. assert (∀ cs, rewrite_all cs r = r) as H; [|apply H].
    induction cs as [|c cs IH] using rev_ind; [done|]. rewrite rewrite_all_snoc, IH. unfold rewrite_row.
    destruct (wanted _ _) as [[s e]|]; [|done]. by rewrite bool_decide_eq_false_2, andb_false_r.
  - intros sc p (Hsc & Hp & Hm) Hw. specialize (H5 (sc, p)). unfold key_present in H5.
    rewrite existsb_exists_elem in H5. destruct H5 as (r & Hr & [? ?]%same_key_spec);
      [by apply match_candidates_spec|done|]. by exists r.
  - intros r Hr Hnew. destruct (H6 r Hr) as [|(Hs & [sc p] & Hc & Hu & Hpid & Hw)]; [done|].
    apply match_candidates_spec in Hc as (Hsc & Hp & Hm). cbn [fst snd] in *.
    split; [done|]. exists sc, p. split; [done|]. split; [done|]. split; [done|].
    unfold wanted in Hw. destruct (_ >? _) eqn:E in Hw; [done|]. injection Hw as <- <-.
    pose proof (clampPadding_range (PaddingPreSec sc) maxPaddingPreSec ltac:(done)).
    pose proof (clampPadding_range (PaddingPostSec sc) maxPaddingPostSec ltac:(done)).
    unfold maxPaddingPreSec, maxPaddingPostSec, maxRecordingDuration, Hour in *. lia.
Qed.

(** The matcher is idempotent: a second pass over the same guide and
    rules at the same instant leaves the recordings as the first did. *)
Lemma match_idempotent (db : DB) :
  db_ok db →
  let db' := (Match weekBefore visible now db).1.1 in
  recordings (Match weekBefore visible now db').1.1 = recordings db'.
Proof.
  intros Hok. cbv zeta. pose proof (Match_pass db Hok) as Hpass. set (db' := (Match weekBefore visible now db).1.1) in *.
  destruct Hpass as [H1 [H2 H2'] _ H4 H5 _].
  assert (run_candidates db' = run_candidates db) as E.
  { unfold run_candidates, ListEnabledSchedules, ListEPGProgramsInWindow. by rewrite H2, H2'. }
  rewrite Match_fold, E, pass_rewrites by done.
  transitivity (id <$> recordings db'); [|by rewrite list_fmap_id].
  apply list_fmap_ext. intros i r Hr. apply H4. by eapply list_elem_of_lookup_2.
Qed.
End MatchProps.

(** * A guide, two rules of one user *)
Definition rule_ex (id : nat) (prio : Z) : Schedule :=
  mkSchedule id "u" ScheduleTypeSeries None (Some "c") (Some "News") false None None 60 20000 prio None true.
Definition program_ex : EPGProgram := mkProgram "p" "c" "NEWS" None None None None (10 * Hour) (11 * Hour).
Definition done_ex : Recording :=
  mkRecording 0 None "v" "c" (Some "p") "News" None None None Completed 0 1 None None None.
Definition dvr_ex : DB := mkDB [rule_ex 1 50; rule_ex 2 90] [program_ex] [done_ex] 1.

Lemma dvr_ex_ok : db_ok dvr_ex.
Proof.
  split; [intros r ->%list_elem_of_singleton; cbn; lia|]. split; [apply NoDup_singleton|].
  intros i j r r' p Hi Hj _ _ _. destruct i, j; done.
Qed.

Lemma match_recordings_witness :
  let db' := (Match (λ t, t) (λ _, true) 0 dvr_ex).1.1 in
  recordings db' !! 0%nat = Some done_ex ∧
  (R_StartsAt <$> recordings db' !! 1%nat, R_EndsAt <$> recordings db' !! 1%nat) = (Some (10 * Hour - 60 * Second), Some (14 * Hour)).
Proof.
  destruct (match_recordings (λ t, t) (λ _, true) 0 dvr_ex dvr_ex_ok) as (_ & Hkeep & _).
  split; [by apply Hkeep|by vm_compute].
Defined.

Lemma match_idempotent_witness :
  let db' := (Match (λ t, t) (λ _, true) 0 dvr_ex).1.1 in
  recordings (Match (λ t, t) (λ _, true) 0 db').1.1 = recordings db' ∧ length (recordings db') = 2%nat.
Proof. split; [exact (match_idempotent (λ t, t) (λ _, true) 0 dvr_ex dvr_ex_ok)|by vm_compute]. Defined.

(** A programme already being recorded, or cancelled, makes every later pass
    report a failed upsert: the guarded update returns no row. *)
Example known_recording_counts_as_conflict :
  let rec := mkRecording 0 None "u" "c" (Some "p") "News" None None None Cancelled 0 1 None None None in
  let '(_, matched, conflicts) := Match (λ t, t) (λ _, true) 0 (mkDB [rule_ex 1 50] [program_ex] [rec] 1) in
  matched = 0 ∧ conflicts = 1.
Proof. by vm_compute. Qed.

(** Two rules of one user: the rows keep the lower-priority rule, which is
    written last. *)
Example lower_priority_rule_kept :
  (R_ScheduleID <$> recordings (Match (λ t, t) (λ _, true) 0 dvr_ex).1.1 !! 1%nat) = Some (Some 1%nat).
Proof. by vm_compute. Qed.

(** A block with an impossible time passes validation and matches nothing. *)
Example bad_time_accepted :
  let sc := mkSchedule 1 "u" ScheduleTypeChannelBlock None (Some "c") None false (Some "25:00") (Some "x") 0 0 50 None true in
  validateScheduleParams sc = true ∧ ∀ p, matches (λ t, t) 0 sc p = false.
Proof. split; [done|]. intros p. unfold matches. cbn. by destruct (negb _). Qed.

(** * The cap on live rules *)
Inductive RuleOp :=
  | CreateRule (p : Schedule)
  | SetRule (id : nat) (enabled : bool)
  | DeleteRule (caller : string) (id : nat).

Definition fresh_id (ss : list Schedule) : nat := S (foldr Nat.max 0%nat (ID <$> ss)).

(** One request at instant [now]; a refused one changes nothing. *)
Definition rule_step (guide : list EPGProgram) (now : Z) (op : RuleOp) (ss : list Schedule) : list Schedule :=
  match op with
  | CreateRule p => match CreateSchedule guide now (fresh_id ss) p ss with inr ss' => ss' | inl _ => ss end
  | SetRule id enabled => match SetScheduleEnabled guide now id enabled ss with inr ss' => ss' | inl _ => ss end
  | DeleteRule caller id => match DeleteSchedule caller id ss [] with inr (ss', _) => ss' | inl _ => ss end
  end.

Fixpoint rule_run (guide : list EPGProgram) (now : Z) (ops : list (Z * RuleOp)) (ss : list Schedule) : Z * list Schedule :=
  match ops with
  | [] => (now, ss)
  | (dt, op) :: ops => rule_run guide (now + dt) ops (rule_step guide (now + dt) op ss)
  end.

Definition rules_ok (guide : list EPGProgram) (now : Z) (ss : list Schedule) : Prop :=
  NoDup (ID <$> ss) ∧ ∀ user, CountLiveSchedulesForUser guide now user ss <= maxSchedulesPerUser.

(** A rule that was over stays over. *)
Lemma live_antitone (guide : list EPGProgram) (now now' : Z) (s : Schedule) :
  now <= now' → live guide now' s = true → live guide now s = true.
Proof.
  intros Hle. unfold live. rewrite !andb_true_iff, !orb_true_iff. intros [He [Ht|Ha]]; [tauto|]. split; [done|]. right.
  unfold airing in *. destruct (ProgramID s); [|done]. apply existsb_exists_elem in Ha as (p & Hp & Hb).
  apply existsb_exists_elem. exists p. split; [done|]. breflect. split; [tauto|lia].
Qed.

Lemma filter_len_le {A} (f g : A → bool) (l : list A) :
  (∀ x, x ∈ l → f x = true → g x = true) → len (List.filter f l) <= len (List.filter g l).
Proof.
  intros H. induction l as [|x l IH]; [done|]. cbn [List.filter].
  assert (len (List.filter f l) <= len (List.filter g l)) as IH' by (apply IH; intros; apply H; [by right|done]).
  specialize (H x (list_elem_of_here _ _)). destruct (f x); [rewrite H by done; rewrite !len_cons; lia|].
  destruct (g x); rewrite ?len_cons; lia.
Qed.

Lemma count_antitone (guide : list EPGProgram) (now now' : Z) (user : string) (ss : list Schedule) :
  now <= now' → CountLiveSchedulesForUser guide now' user ss <= CountLiveSchedulesForUser guide now user ss.
Proof.
  intros Hle. apply filter_len_le. intros s _ [Hu Hl]%andb_true_iff. rewrite Hu. cbn. by apply (live_antitone _ _ now').
Qed.

Lemma fresh_id_new (ss : list Schedule) : fresh_id ss ∉ ID <$> ss.
Proof.
  unfold fresh_id. generalize (ID <$> ss) as l. intros l Hin.
  assert (∀ x, x ∈ l → (x <= foldr Nat.max 0 l)%nat) as H; [|specialize (H _ Hin); lia].
  clear. induction l as [|y l IH]; intros x; [by intros ?%not_elem_of_nil|]. cbn.
  intros [->|Hx]%elem_of_cons; [lia|]. specialize (IH x Hx). lia.
Qed.

Lemma checkScheduleCap_below (guide : list EPGProgram) (now : Z) (user : string) (ss : list Schedule) :
  checkScheduleCap guide now user ss = None → CountLiveSchedulesForUser guide now user ss < maxSchedulesPerUser.
Proof. unfold checkScheduleCap. destruct (Z.geb_spec (CountLiveSchedulesForUser guide now user ss) maxSchedulesPerUser); [done|lia]. Qed.

Lemma create_ok (guide : list EPGProgram) (now : Z) (p : Schedule) (ss ss' : list Schedule) :
  rules_ok guide now ss → CreateSchedule guide now (fresh_id ss) p ss = inr ss' → rules_ok guide now ss'.
Proof.
  intros [Hnd Hcap]. unfold CreateSchedule. destruct (negb _); [done|].
  destruct (checkScheduleCap _ _ _ _) eqn:Ec; [done|]. intros [= <-]. apply checkScheduleCap_below in Ec.
  set (s := mkSchedule _ _ _ _ _ _ _ _ _ _ _ _ _ _). split.
  - rewrite fmap_app. apply NoDup_app. split; [done|]. split; [|apply NoDup_singleton].
    intros x Hx ->%list_elem_of_singleton. by apply (fresh_id_new ss).
  - intros user. unfold CountLiveSchedulesForUser in *. rewrite List.filter_app, len_app. specialize (Hcap user).
    cbn [List.filter]. destruct (String.eqb_spec (UserID s) user) as [<-|]; cbn [andb]; [|rewrite len_nil; lia].
    change (UserID s) with (UserID p) in *. destruct (live guide now s); rewrite ?len_cons, len_nil; lia.
Qed.

(** Re-enabling one rule makes at most one more live. *)
Lemma enable_count (guide : list EPGProgram) (now : Z) (id : nat) (user : string) (ss : list Schedule) :
  NoDup (ID <$> ss) →
  CountLiveSchedulesForUser guide now user ((λ s, if Nat.eqb (ID s) id then s <| Enabled := true |> else s) <$> ss) <=
  CountLiveSchedulesForUser guide now user ss +
    (if existsb (λ s, Nat.eqb (ID s) id && String.eqb (UserID s) user && negb (Enabled s)) ss then 1 else 0).
Proof.
  unfold CountLiveSchedulesForUser. induction ss as [|s ss IH]; [done|].
  rewrite !fmap_cons. intros [Hs Hnd]%NoDup_cons. specialize (IH Hnd). cbn [List.filter existsb].
  destruct (Nat.eqb_spec (ID s) id) as [<-|Hne]; cbn [andb orb].
  - assert (existsb (λ x, Nat.eqb (ID x) (ID s) && String.eqb (UserID x) user && negb (Enabled x)) ss = false) as E.
    { apply not_true_iff_false. intros (x & Hx & Hb)%existsb_exists_elem. apply Hs. breflect.
      destruct Hb as [[Hb%Nat.eqb_eq _] _]. rewrite <- Hb. by apply list_elem_of_fmap_2. }
    rewrite E in *. rewrite orb_false_r.
    change (UserID (s <| Enabled := true |>)) with (UserID s).
    destruct (String.eqb (UserID s) user); cbn [andb]; [|lia].
    destruct (Enabled s) eqn:Ee.
    + assert (live guide now (s <| Enabled := true |>) = live guide now s) as -> by (unfold live; rewrite Ee; done).
      cbn [negb]. destruct (live guide now s); rewrite ?len_cons; lia.
    + assert (live guide now s = false) as -> by (unfold live; by rewrite Ee). cbn [negb].
      destruct (live guide now _); rewrite ?len_cons; lia.
  - destruct (String.eqb (UserID s) user && live guide now s); rewrite ?len_cons; lia.
Qed.

Lemma setter_ids (id : nat) (b : bool) (ss : list Schedule) :
  ID <$> ((λ s, if Nat.eqb (ID s) id then s <| Enabled := b |> else s) <$> ss) = ID <$> ss.
Proof.
  rewrite <- list_fmap_compose. apply list_fmap_ext. intros i s _. cbn. by destruct (Nat.eqb (ID s) id).
Qed.

Lemma enable_ok (guide : list EPGProgram) (now : Z) (id : nat) (b : bool) (ss ss' : list Schedule) :
  rules_ok guide now ss → SetScheduleEnabled guide now id b ss = inr ss' → rules_ok guide now ss'.
Proof.
  intros [Hnd Hcap]. unfold SetScheduleEnabled. destruct b.
  - destruct (GetSchedule id ss) as [sc|] eqn:Eg; [|done]. apply find_first_Some in Eg as [Hsc Hid%Nat.eqb_eq].
    assert (∀ user, existsb (λ s, Nat.eqb (ID s) id && String.eqb (UserID s) user && negb (Enabled s)) ss = true →
      user = UserID sc ∧ Enabled sc = false) as Hone.
    { intros user (s & Hs & Hb)%existsb_exists_elem. breflect. destruct Hb as [[Hb1%Nat.eqb_eq Hb2] Hb3].
      assert (s = sc) as ->; [|done]. apply list_elem_of_lookup_1 in Hs as [i Hi]. apply list_elem_of_lookup_1 in Hsc as [j Hj].
      assert (i = j) as ->; [|congruence]. apply (NoDup_lookup (ID <$> ss) i j (ID s)); [done|by rewrite list_lookup_fmap, Hi|].
      rewrite list_lookup_fmap, Hj. cbn. congruence. }
    intros Hw. assert (ss' = (λ s, if Nat.eqb (ID s) id then s <| Enabled := true |> else s) <$> ss ∧
      (Enabled sc = false → CountLiveSchedulesForUser guide now (UserID sc) ss < maxSchedulesPerUser)) as [-> Hbelow].
    { destruct (Enabled sc); cbn [negb] in Hw; [by injection Hw as <-|].
      destruct (checkScheduleCap _ _ _ _) eqn:Ec; [done|]. injection Hw as <-. split; [done|]. intros _.
      by apply checkScheduleCap_below. }
    split; [by rewrite setter_ids|]. intros user. etrans; [by apply enable_count|]. specialize (Hcap user).
    destruct (existsb _ ss) eqn:Ex; [|lia]. destruct (Hone user Ex) as [-> Hdis]. specialize (Hbelow Hdis). lia.
  - intros [= <-]. split; [by rewrite setter_ids|]. intros user. etrans; [|apply (Hcap user)].
    unfold CountLiveSchedulesForUser. clear. induction ss as [|s ss IH]; [done|]. rewrite fmap_cons. cbn [List.filter].
    destruct (Nat.eqb (ID s) id).
    + assert (live guide now (s <| Enabled := false |>) = false) as -> by done. rewrite andb_false_r.
      destruct (_ && _); rewrite ?len_cons; lia.
    + destruct (_ && _); rewrite ?len_cons; lia.
Qed.

Lemma delete_ok (guide : list EPGProgram) (now : Z) (caller : string) (id : nat) (ss ss' : list Schedule) (rs rs' : list Recording) :
  rules_ok guide now ss → DeleteSchedule caller id ss rs = inr (ss', rs') → rules_ok guide now ss'.
Proof.
  intros [Hnd Hcap]. unfold DeleteSchedule. destruct (GetSchedule id ss); [|done]. destruct (String.eqb _ _); [|done].
  intros [= <- _]. split.
  - eapply sublist_NoDup; [exact Hnd|]. clear. induction ss as [|s ss IH]; [done|]. cbn [List.filter fmap list_fmap].
    destruct (negb _); cbn; by constructor.
  - intros user. etrans; [|apply (Hcap user)]. unfold CountLiveSchedulesForUser. rewrite List_filter_filter.
    apply filter_len_le. intros x _ Hb. breflect. tauto.
Qed.

(** Whatever rules a user creates, re-enables, disables or deletes, and in
    whatever order, at no instant do more than a hundred of them count as able
    to record. *)
Lemma schedule_cap (guide : list EPGProgram) (now : Z) (ops : list (Z * RuleOp)) (ss : list Schedule) :
  rules_ok guide now ss → Forall (λ op, 0 <= op.1) ops →
  rules_ok guide (rule_run guide now ops ss).1 (rule_run guide now ops ss).2.
Proof.
  revert now ss. induction ops as [|[dt op] ops IH]; intros now ss Hok Hdt; cbn [rule_run]; [done|].
  apply Forall_cons in Hdt as [Hdt Hdts]. cbn in Hdt. apply IH; [|done].
  assert (rules_ok guide (now + dt) ss) as Hok'.
  { destruct Hok as [Hnd Hcap]. split; [done|]. intros user. etrans; [|apply (Hcap user)]. apply count_antitone. lia. }
  destruct op as [p|id b|caller id]; cbn [rule_step].
  - destruct (CreateSchedule _ _ _ _ _) eqn:E; [done|]. by eapply create_ok.
  - destruct (SetScheduleEnabled _ _ _ _ _) eqn:E; [done|]. by eapply enable_ok.
  - destruct (DeleteSchedule _ _ _ _) as [|[ss' rs']] eqn:E; [done|]. by eapply delete_ok.
Qed.

Lemma schedule_cap_witness :
  let ops := replicate 3 (1, CreateRule (rule_ex 0 50)) ++ [(5, SetRule 1 false); (0, SetRule 2 true)] in
  rules_ok [] (rule_run [] 0 ops []).1 (rule_run [] 0 ops []).2 ∧
  CountLiveSchedulesForUser [] 8 "u" (rule_run [] 0 ops []).2 = 0.
Proof.
  split.
  - apply schedule_cap; [split; [constructor|intros user; unfold CountLiveSchedulesForUser; cbn; unfold len; cbn; unfold maxSchedulesPerUser; lia]|].
    repeat constructor; cbn; lia.
  - by vm_compute.
Defined.
