(* ===== verification/DVRWorker.v ===== *)
(** The recording worker: [internal/livetv/dvr_worker.go], with the recording
    statements of [dvr.sql], the cancel handler and the retention purge.

    One process runs [Run]; its steps interleave, at the grain of one database
    statement, with users' cancellations, the matcher's upserts, the purge and
    the exits of the ffmpeg processes.  What the database, the tuner, ffmpeg
    and the media service answer is carried by the events. *)
From stdpp Require Import gmap.
From S2P Require Import Prelude.
From S2P Require Import GoStrings.
From S2P Require Import GoBytes.
From S2P Require Import DVRSchedule.

Local Open Scope Z_scope.

Definition maxConcurrentCaptures : Z := 8.
Definition maxCapturesPerUser : Z := 3.
Definition dvrEndGrace : Z := 30 * Second.
Definition dvrFinalizeRetryWindow : Z := 600 * Second.

(** [safeFilename] *)
Definition bad_char (c : ascii) : bool := mem (nat_of_ascii c) [60; 62; 58; 34; 47; 92; 124; 63; 42]%nat.
Definition safeFilename (s : string) : string :=
  to_string (take 180 ((λ c, if bad_char c then "-"%char else c) <$> of_string s)).

(** The output name: the title, the start's minute and the recording's id,
    whose first digits are taken to identify it. *)
Record Path := mkPath { path_title : string; path_minute : Z; path_id : nat }.
#[global] Instance Path_eq_dec : EqDecision Path.
Proof. solve_decision. Defined.
#[global] Instance Path_countable : Countable Path.
Proof.
  refine (inj_countable' (λ p, (path_title p, path_minute p, path_id p))
    (λ '(t, m, i), mkPath t m i) _). by intros [].
Defined.
Definition capture_path (r : Recording) : Path :=
  mkPath (safeFilename (R_Title r)) (R_StartsAt r `div` (60 * Second)) (R_ID r).
Definition path_text (p : Path) : string :=
  path_title p +:+ " - " +:+ Itoa (path_minute p) +:+ " [" +:+ Itoa (Z.of_nat (path_id p)) +:+ "].mp4".

Record Session := mkSession {
  s_user : string;
  s_path : Path;
  (** The exit code, once the reaper goroutine has it. *)
  s_exit : option Z;
  s_closed : bool;
  s_ends : Z;
  s_item : option string;
  finalizeFirstErr : option Z
}.
#[export] Instance eta_Session : Eta Session := λ s,
  mkSession (s_user s) (s_path s) (s_exit s) (s_closed s) (s_ends s) (s_item s) (finalizeFirstErr s).

(** * The statements *)
Definition GetRecording (id : nat) (rs : list Recording) : option Recording := find_first (λ r, Nat.eqb (R_ID r) id) rs.
Definition update (id : nat) (f : Recording → Recording) (rs : list Recording) : list Recording :=
  (λ r, if Nat.eqb (R_ID r) id then f r else r) <$> rs.

Definition set_status (st : Status) (r : Recording) : Recording :=
  mkRecording (R_ID r) (R_ScheduleID r) (R_UserID r) (R_ChannelID r) (R_ProgramID r) (R_Title r) (R_Subtitle r)
    (R_SeasonNum r) (R_EpisodeNum r) st (R_StartsAt r) (R_EndsAt r) (R_FilePath r) (R_ItemID r) (R_Error r).
Definition set_started (path : string) (r : Recording) : Recording :=
  mkRecording (R_ID r) (R_ScheduleID r) (R_UserID r) (R_ChannelID r) (R_ProgramID r) (R_Title r) (R_Subtitle r)
    (R_SeasonNum r) (R_EpisodeNum r) RecordingNow (R_StartsAt r) (R_EndsAt r) (Some path) (R_ItemID r) (R_Error r).
Definition set_completed (item : string) (r : Recording) : Recording :=
  mkRecording (R_ID r) (R_ScheduleID r) (R_UserID r) (R_ChannelID r) (R_ProgramID r) (R_Title r) (R_Subtitle r)
    (R_SeasonNum r) (R_EpisodeNum r) Completed (R_StartsAt r) (R_EndsAt r) (R_FilePath r) (Some item) (R_Error r).
Definition set_failed (msg : string) (r : Recording) : Recording :=
  mkRecording (R_ID r) (R_ScheduleID r) (R_UserID r) (R_ChannelID r) (R_ProgramID r) (R_Title r) (R_Subtitle r)
    (R_SeasonNum r) (R_EpisodeNum r) Failed (R_StartsAt r) (R_EndsAt r) (R_FilePath r) (R_ItemID r) (Some msg).

Definition SetRecordingStatus (id : nat) (st : Status) : list Recording → list Recording := update id (set_status st).
Definition SetRecordingCompleted (id : nat) (item : string) : list Recording → list Recording := update id (set_completed item).
Definition SetRecordingFailed (id : nat) (msg : string) : list Recording → list Recording := update id (set_failed msg).
Definition DeleteRecording (id : nat) (rs : list Recording) : list Recording :=
  List.filter (λ r, negb (Nat.eqb (R_ID r) id)) rs.

(** The guarded start: whether a row was updated. *)
Definition SetRecordingStartedFile (id : nat) (path : string) (rs : list Recording) : list Recording * bool :=
  match GetRecording id rs with
  | Some r => if bool_decide (R_Status r = Scheduled) then (update id (set_started path) rs, true) else (rs, false)
  | None => (rs, false)
  end.

Definition starts_first (a b : Recording) : Prop := R_StartsAt a <= R_StartsAt b.
#[global] Instance starts_first_dec : RelDecision starts_first.
Proof. intros a b. unfold starts_first. apply _. Defined.
Definition ListDueRecordings (upTo : Z) (rs : list Recording) : list Recording :=
  merge_sort starts_first (List.filter (λ r, bool_decide (R_Status r = Scheduled) && (R_StartsAt r <=? upTo)) rs).
Definition ListActiveRecordings (rs : list Recording) : list Recording :=
  List.filter (λ r, bool_decide (R_Status r = RecordingNow)) rs.
(** A recording past its rule's retention. *)
Definition expired (ss : list Schedule) (now : Z) (r : Recording) : bool :=
  bool_decide (R_Status r = Completed) &&
  match R_ScheduleID r with
  | Some sid =>
      existsb (λ s, Nat.eqb (ID s) sid &&
        match RetentionDays s with Some d => R_EndsAt r <? now - d * 24 * Hour | None => false end) ss
  | None => false
  end.

(** * The process *)

(** The write a finalization has decided on. *)
Inductive Outcome := WriteFailed (msg : string) | WriteCompleted (item : option string).

Inductive PC :=
  | Idle
  | Starting (due : list Recording)
  | Tuned (r : Recording) (exit : option Z) (due : list Recording)
  | Reaping (ids : list nat)
  | Finalizing (id : nat) (o : Outcome) (ids : list nat)
  | Honoring (ids : list nat)
  | Reconciling (ids : list nat).

Record Sys := mkSys {
  now : Z;
  db : DB;
  active : gmap nat Session;
  files : gmap Path Z;
  pc : PC;
  (** Captures begun, library items made, and recordings handed to
      post-processing, newest last. *)
  started : list nat;
  items : list nat;
  queued : list nat
}.
#[export] Instance eta_Sys : Eta Sys := λ s,
  mkSys (now s) (db s) (active s) (files s) (pc s) (started s) (items s) (queued s).

(** How the DVR library resolves. *)
Inductive Library := NoWiring | LibraryError | NoLibrary | LibraryID.

Inductive Event :=
  (** the worker *)
  | ETick (list_ok : bool)
  | EStart (open_ok fail_ok : bool)
  | EMark (write_ok left_file fail_ok : bool)
  | EReap
  | EFinalize (read_ok : bool) (lib : Library) (item : option string) (fail_ok : bool)
  | EWrite (ok fail_ok : bool)
  | EHonor (read_ok : bool)
  | ERestart (list_ok : bool)
  | EReconcile (ok : bool)
  (** the world *)
  | EExit (id : nat) (code size : Z)
  | ETimer (id : nat)
  | ECancel (caller : string) (id : nat)
  | EUpsert (sc : Schedule) (p : EPGProgram)
  | EPurge (id : nat)
  | EAdvance (dt : Z).

Definition with_rows (f : list Recording → list Recording) (s : Sys) : Sys :=
  s <| db := mkDB (schedules (db s)) (guide (db s)) (f (recordings (db s))) (next_id (db s)) |>.
Definition when (b : bool) (f : list Recording → list Recording) (s : Sys) : Sys := if b then with_rows f s else s.
Definition on_session (id : nat) (f : Session → Session) (s : Sys) : Sys := s <| active := alter f id (active s) |>.

Definition count (p : Session → bool) (a : gmap nat Session) : Z :=
  len (List.filter (λ kv : nat * Session, p kv.2) (map_to_list a)).
Definition user_captures (user : string) (a : gmap nat Session) : Z := count (λ x, String.eqb (s_user x) user) a.
Definition total_captures (a : gmap nat Session) : Z := Z.of_nat (size a).

(** The captures whose process has exited. *)
Definition exited (a : gmap nat Session) : list nat :=
  (List.filter (λ kv : nat * Session, is_set (s_exit kv.2)) (map_to_list a)).*1.

(** [startDueRecordings] for one due row, up to the status write; ffmpeg's
    [-n] makes it exit at once when the output exists. *)
Definition start_one (open_ok fail_ok : bool) (r : Recording) (due : list Recording) (s : Sys) : Sys :=
  let s := s <| pc := Starting due |> in
  if is_set (active s !! R_ID r) then s
  else if (total_captures (active s) >=? maxConcurrentCaptures) || (user_captures (R_UserID r) (active s) >=? maxCapturesPerUser) then
    if negb (now s <? R_EndsAt r) then when fail_ok (SetRecordingFailed (R_ID r) "capture limit reached") s else s
  else if open_ok then
    s <| pc := Tuned r (if is_set (files s !! capture_path r) then Some 1 else None) due |>
  else if now s <? R_EndsAt r then s
  else when fail_ok (SetRecordingFailed (R_ID r) "open channel stream") s.

(** The rest of [beginCapture].  An error is handled as a start failure, and
    the file ffmpeg may have opened stays. *)
Definition mark_started (write_ok left_file fail_ok : bool) (r : Recording) (exit : option Z) (due : list Recording)
    (s : Sys) : Sys :=
  let s := s <| pc := Starting due |> in
  if write_ok then
    let '(rows, ok) := SetRecordingStartedFile (R_ID r) (path_text (capture_path r)) (recordings (db s)) in
    if ok then
      (with_rows (λ _, rows) s)
        <| active := <[R_ID r := mkSession (R_UserID r) (capture_path r) exit false (R_EndsAt r) None None]> (active s) |>
        <| started := started s ++ [R_ID r] |>
    else s <| files := delete (capture_path r) (files s) |>
  else
    let s := if left_file then s <| files := <[capture_path r := 0]> (files s) |> else s in
    if now s <? R_EndsAt r then s
    else when fail_ok (SetRecordingFailed (R_ID r) "mark recording started") s.

(** The session leaves the active map, or waits for the next tick. *)
Definition drop_session (id : nat) (s : Sys) : Sys := s <| active := delete id (active s) |>.
Definition retry (fail_ok : bool) (id : nat) (s : Sys) : Sys :=
  match active s !! id with
  | None => s
  | Some ses =>
      let first := default (now s) (finalizeFirstErr ses) in
      let s := on_session id (λ x, x <| finalizeFirstErr := Some first |>) s in
      if now s - first <? dvrFinalizeRetryWindow then s
      else drop_session id (when fail_ok (SetRecordingFailed id "finalize retries exhausted") s)
  end.

(** [finalize] up to the status write. *)
Definition finalize_one (read_ok : bool) (lib : Library) (item : option string) (fail_ok : bool) (id : nat) (ids : list nat)
    (s : Sys) : Sys :=
  let s := s <| pc := Reaping ids |> in
  match active s !! id with
  | None => s
  | Some ses =>
      if negb read_ok then retry fail_ok id s
      else match GetRecording id (recordings (db s)) with
           | None => retry fail_ok id s
           | Some rec =>
               if negb (bool_decide (R_Status rec = RecordingNow)) then drop_session id s
               else if negb (bool_decide (s_exit ses = Some 0)) then s <| pc := Finalizing id (WriteFailed "ffmpeg exit") ids |>
               else if default 0 (files s !! s_path ses) =? 0 then
                 s <| pc := Finalizing id (WriteFailed "capture produced empty file") ids |>
               else match lib with
                    | NoWiring | NoLibrary => s <| pc := Finalizing id (WriteCompleted None) ids |>
                    | LibraryError => retry fail_ok id s
                    | LibraryID =>
                        match s_item ses with
                        | Some it => s <| pc := Finalizing id (WriteCompleted (Some it)) ids |>
                        | None =>
                            match item with
                            | None => retry fail_ok id s
                            | Some it =>
                                (on_session id (λ x, x <| s_item := Some it |>) s)
                                  <| items := items s ++ [id] |> <| pc := Finalizing id (WriteCompleted (Some it)) ids |>
                            end
                        end
                    end
           end
  end.

(** The status write.  An error marking a failure is ignored; one marking a
    completion is retried. *)
Definition finalize_write (ok fail_ok : bool) (id : nat) (o : Outcome) (ids : list nat) (s : Sys) : Sys :=
  let s := s <| pc := Reaping ids |> in
  match o with
  | WriteFailed msg => drop_session id (when ok (SetRecordingFailed id msg) s)
  | WriteCompleted item =>
      if ok then
        let s := with_rows (match item with Some it => SetRecordingCompleted id it | None => SetRecordingStatus id Completed end) s in
        (drop_session id s) <| queued := queued s ++ [id] |>
      else retry fail_ok id s
  end.

Definition honor_one (read_ok : bool) (id : nat) (ids : list nat) (s : Sys) : Sys :=
  let s := s <| pc := Honoring ids |> in
  match (if read_ok then GetRecording id (recordings (db s)) else None) with
  | Some r => if bool_decide (R_Status r = RecordingNow) then s else on_session id (λ x, x <| s_closed := true |>) s
  | None => s
  end.

(** The reaper goroutine's note. *)
Definition set_exit (code : Z) (x : Session) : Session := x <| s_exit := Some code |>.

Definition step (s : Sys) (e : Event) : Sys :=
  match e with
  | ETick ok =>
      match pc s with
      | Idle => s <| pc := Starting (if ok then ListDueRecordings (now s) (recordings (db s)) else []) |>
      | _ => s
      end
  | EStart open_ok fail_ok =>
      match pc s with Starting (r :: due) => start_one open_ok fail_ok r due s | _ => s end
  | EMark ok left_file fail_ok =>
      match pc s with Tuned r exit due => mark_started ok left_file fail_ok r exit due s | _ => s end
  | EReap => match pc s with Starting [] => s <| pc := Reaping (exited (active s)) |> | _ => s end
  | EFinalize ok lib item fail_ok =>
      match pc s with Reaping (id :: ids) => finalize_one ok lib item fail_ok id ids s | _ => s end
  | EWrite ok fail_ok =>
      match pc s with Finalizing id o ids => finalize_write ok fail_ok id o ids s | _ => s end
  | EHonor ok =>
      match pc s with
      | Reaping [] => s <| pc := Honoring (map_to_list (active s)).*1 |>
      | Honoring (id :: ids) => honor_one ok id ids s
      | Honoring [] => s <| pc := Idle |>
      | _ => s
      end
  | ERestart ok =>
      (s <| active := ∅ |>)
        <| pc := Reconciling (if ok then R_ID <$> ListActiveRecordings (recordings (db s)) else []) |>
  | EReconcile ok =>
      match pc s with
      | Reconciling (id :: ids) =>
          when ok (SetRecordingFailed id "interrupted by server restart") (s <| pc := Reconciling ids |>)
      | Reconciling [] => s <| pc := Idle |>
      | _ => s
      end
  | EExit id code size =>
      match active s !! id with
      | Some ses =>
          if is_set (s_exit ses) then s
          else (on_session id (set_exit code) s) <| files := <[s_path ses := Z.max 0 size]> (files s) |>
      | None => s
      end
  | ETimer id => on_session id (λ x, if now s >=? s_ends x + dvrEndGrace then x <| s_closed := true |> else x) s
  | ECancel caller id =>
      match GetRecording id (recordings (db s)) with
      | Some r => if String.eqb (R_UserID r) caller then with_rows (SetRecordingStatus id Cancelled) s else s
      | None => s
      end
  | EUpsert sc p => s <| db := (record_candidate (db s, 0, 0) (sc, p)).1.1 |>
  | EPurge id =>
      match GetRecording id (recordings (db s)) with
      | Some r => if expired (schedules (db s)) (now s) r then with_rows (DeleteRecording id) s else s
      | None => s
      end
  | EAdvance dt => s <| now := now s + Z.max 0 dt |>
  end.

Definition run (s : Sys) (es : list Event) : Sys := foldl step s es.
Definition boot (t : Z) (d : DB) : Sys := mkSys t d ∅ ∅ (Reconciling (R_ID <$> ListActiveRecordings (recordings d))) [] [] [].

(** * Counting captures *)
Lemma filter_len_perm {A} (f : A → bool) (l k : list A) : l ≡ₚ k → len (List.filter f l) = len (List.filter f k).
Proof.
  induction 1 as [|x l k _ IH|x y l|l k m _ IH1 _ IH2]; cbn [List.filter]; [done| | |congruence].
  - destruct (f x); rewrite ?len_cons; lia.
  - destruct (f x), (f y); rewrite ?len_cons; lia.
Qed.

Lemma count_insert (p : Session → bool) (a : gmap nat Session) (id : nat) (x : Session) :
  a !! id = None → count p (<[id := x]> a) = (if p x then 1 else 0) + count p a.
Proof.
  intros Hn. unfold count. rewrite (filter_len_perm _ _ _ (map_to_list_insert a id x Hn)).
  cbn [List.filter snd]. destruct (p x); rewrite ?len_cons; lia.
Qed.

Lemma count_delete (p : Session → bool) (a : gmap nat Session) (id : nat) (x : Session) :
  a !! id = Some x → count p a = (if p x then 1 else 0) + count p (delete id a).
Proof.
  intros Hx. rewrite <- (insert_delete_id a id x Hx) at 1. apply count_insert, lookup_delete_eq.
Qed.

Lemma count_delete_le (p : Session → bool) (a : gmap nat Session) (id : nat) : count p (delete id a) <= count p a.
Proof.
  destruct (a !! id) as [x|] eqn:E; [rewrite (count_delete p a id x E); destruct (p x); lia|].
  by rewrite (delete_id a id E).
Qed.

Lemma count_alter (p : Session → bool) (a : gmap nat Session) (id : nat) (f : Session → Session) :
  (∀ x, p (f x) = p x) → count p (alter f id a) = count p a.
Proof.
  intros Hf. destruct (a !! id) as [x|] eqn:E.
  - assert (alter f id a = <[id := f x]> (delete id a)) as ->.
    { apply map_eq. intros j. destruct (decide (j = id)) as [->|].
      - by rewrite lookup_alter_eq, E, lookup_insert_eq.
      - by rewrite lookup_alter_ne, lookup_insert_ne, lookup_delete_ne. }
    by rewrite count_insert, Hf, (count_delete p a id x E) by apply lookup_delete_eq.
  - assert (alter f id a = a) as ->; [|done]. apply map_eq. intros j. destruct (decide (j = id)) as [->|].
    + by rewrite lookup_alter_eq, E.
    + by rewrite lookup_alter_ne.
Qed.

Lemma total_count (a : gmap nat Session) : total_captures a = count (λ _, true) a.
Proof.
  unfold total_captures, count, len. rewrite <- length_map_to_list. f_equal. f_equal. symmetry.
  induction (map_to_list a) as [|x l IH]; [done|]. cbn [List.filter]. by rewrite IH.
Qed.

Lemma user_captures_empty (user : string) : user_captures user ∅ <= maxCapturesPerUser.
Proof. unfold user_captures, count. by rewrite map_to_list_empty. Qed.

(** ** The capture limits *)
Definition caps_ok (s : Sys) : Prop :=
  total_captures (active s) <= maxConcurrentCaptures ∧
  (∀ user, user_captures user (active s) <= maxCapturesPerUser) ∧
  match pc s with
  | Tuned r _ _ => active s !! R_ID r = None ∧ total_captures (active s) < maxConcurrentCaptures ∧
      user_captures (R_UserID r) (active s) < maxCapturesPerUser
  | _ => True
  end.

(** Two maps with the same counts and keys. *)
Definition same_load (a b : gmap nat Session) : Prop :=
  total_captures b = total_captures a ∧ (∀ user, user_captures user b = user_captures user a) ∧
  (∀ id, a !! id = None → b !! id = None).

Lemma same_load_alter (a : gmap nat Session) (id : nat) (f : Session → Session) :
  (∀ x, s_user (f x) = s_user x) → same_load a (alter f id a).
Proof.
  intros Hf. split; [|split].
  - rewrite !total_count. by apply count_alter.
  - intros user. apply count_alter. intros x. by rewrite Hf.
  - intros j Hj. destruct (decide (j = id)) as [->|]; [by rewrite lookup_alter_eq, Hj|by rewrite lookup_alter_ne].
Qed.
Lemma same_load_refl (a : gmap nat Session) : same_load a a.
Proof. done. Qed.

Lemma caps_load (s s' : Sys) : caps_ok s → same_load (active s) (active s') → pc s' = pc s → caps_ok s'.
Proof.
  intros (H1 & H2 & H3) (E1 & E2 & E3) Ep. unfold caps_ok. rewrite E1, Ep. split; [done|].
  split; [intros user; by rewrite E2|]. destruct (pc s); [done|done| |done|done|done|done].
  destruct H3 as (? & ? & ?). rewrite E2. split; [by apply E3|done].
Qed.

Definition not_tuned (p : PC) : Prop := match p with Tuned _ _ _ => False | _ => True end.
Lemma caps_pc (s s' : Sys) : caps_ok s → active s' = active s → not_tuned (pc s') → caps_ok s'.
Proof.
  intros (H1 & H2 & H3) Ea Hp. unfold caps_ok. rewrite Ea. split; [done|]. split; [done|]. by destruct (pc s').
Qed.
Lemma caps_fewer (s s' : Sys) (id : nat) : caps_ok s → active s' = delete id (active s) → not_tuned (pc s') → caps_ok s'.
Proof.
  intros (H1 & H2 & H3) Ea Hp. unfold caps_ok. rewrite Ea, total_count in *. split; [|split; [|by destruct (pc s')]].
  - pose proof (count_delete_le (λ _, true) (active s) id). lia.
  - intros user. pose proof (count_delete_le (λ x, String.eqb (s_user x) user) (active s) id). specialize (H2 user).
    unfold user_captures in *. lia.
Qed.

Lemma when_frame (b : bool) (f : list Recording → list Recording) (s : Sys) :
  active (when b f s) = active s ∧ pc (when b f s) = pc s ∧ started (when b f s) = started s ∧
  items (when b f s) = items s ∧ queued (when b f s) = queued s ∧ next_id (db (when b f s)) = next_id (db s) ∧
  files (when b f s) = files s ∧ now (when b f s) = now s.
Proof. by destruct b. Qed.

(** What a retried finalization leaves: the session with its first error
    noted, or no session. *)
Lemma retry_cases (fail_ok : bool) (id : nat) (s : Sys) :
  let s' := retry fail_ok id s in
  pc s' = pc s ∧ started s' = started s ∧ items s' = items s ∧ queued s' = queued s ∧
  ((∃ t, active s' = alter (λ x, x <| finalizeFirstErr := t |>) id (active s) ∧ db s' = db s) ∨
   (active s' = delete id (active s) ∧ ∃ b, db s' = db (when b (SetRecordingFailed id "finalize retries exhausted") s))).
Proof.
  cbv zeta. unfold retry. destruct (active s !! id) as [ses|] eqn:E.
  - set (first := default (now s) (finalizeFirstErr ses)). unfold on_session.
    destruct (_ <? _).
    + do 4 (split; [done|]). left. by exists (Some first).
    + do 4 (split; [by destruct fail_ok|]). right. split; [|exists fail_ok; by destruct fail_ok].
      assert (delete id (alter (λ x, x <| finalizeFirstErr := Some first |>) id (active s)) = delete id (active s)) as <-;
        [|by destruct fail_ok].
      apply map_eq. intros j. destruct (decide (j = id)) as [->|]; [by rewrite !lookup_delete_eq|].
      by rewrite !lookup_delete_ne, lookup_alter_ne.
  - do 4 (split; [done|]). left. exists None. split; [|done]. apply map_eq. intros j.
    destruct (decide (j = id)) as [->|]; [by rewrite lookup_alter_eq, E|by rewrite lookup_alter_ne].
Qed.

Lemma retry_caps (fail_ok : bool) (id : nat) (s : Sys) : not_tuned (pc s) → caps_ok s → caps_ok (retry fail_ok id s).
Proof.
  intros Hp Hc. destruct (retry_cases fail_ok id s) as (Ep & _ & _ & _ & [(t & Ea & _)|(Ea & _)]).
  - apply (caps_load s); [done| |done]. rewrite Ea. by apply same_load_alter.
  - apply (caps_fewer s _ id); [done|done|by rewrite Ep].
Qed.

Lemma start_caps (open_ok fail_ok : bool) (r : Recording) (due : list Recording) (s : Sys) :
  caps_ok s → caps_ok (start_one open_ok fail_ok r due s).
Proof.
  intros Hc. assert (caps_ok (s <| pc := Starting due |>)) as Hs by (by apply (caps_pc s)).
  assert (∀ b f, caps_ok (when b f (s <| pc := Starting due |>))) as Hw.
  { intros b f. apply (caps_load (s <| pc := Starting due |>)); [done| |by destruct b]. by destruct b. }
  unfold start_one. cbv zeta. change (active (s <| pc := Starting due |>)) with (active s).
  destruct (active s !! R_ID r) eqn:Ea; cbn [is_set]; [done|].
  destruct (Z.geb_spec (total_captures (active s)) maxConcurrentCaptures); cbn [orb]; [by destruct (negb _)|].
  destruct (Z.geb_spec (user_captures (R_UserID r) (active s)) maxCapturesPerUser); [by destruct (negb _)|].
  destruct open_ok; [|by destruct (_ <? _)]. destruct Hc as (H1 & H2 & _). split; [done|]. split; [done|].
  change (active s !! R_ID r = None ∧ total_captures (active s) < maxConcurrentCaptures ∧
    user_captures (R_UserID r) (active s) < maxCapturesPerUser). split; [done|]. split; lia.
Qed.

Lemma mark_caps (ok left_file fail_ok : bool) (r : Recording) (exit : option Z) (due : list Recording) (s : Sys) :
  pc s = Tuned r exit due → caps_ok s → caps_ok (mark_started ok left_file fail_ok r exit due s).
Proof.
  intros Ep Hc. assert (caps_ok (s <| pc := Starting due |>)) as Hs by (by apply (caps_pc s)).
  unfold mark_started. cbv zeta. destruct ok.
  - destruct (SetRecordingStartedFile _ _ _) as [rows started_ok]. destruct started_ok; [|by apply (caps_pc s)].
    destruct Hc as (H1 & H2 & H3). rewrite Ep in H3. destruct H3 as (Hn & H3 & H4).
    set (ses := mkSession _ _ _ _ _ _ _). split; [|split; [|done]].
    + change (total_captures (<[R_ID r := ses]> (active s)) <= maxConcurrentCaptures).
      rewrite total_count in *. rewrite count_insert by done. lia.
    + intros user. change (user_captures user (<[R_ID r := ses]> (active s)) <= maxCapturesPerUser).
      unfold user_captures in *. rewrite count_insert by done. specialize (H2 user). change (s_user ses) with (R_UserID r).
      destruct (String.eqb_spec (R_UserID r) user) as [<-|]; lia.
  - destruct left_file, fail_ok; destruct (_ <? _); by apply (caps_pc s).
Qed.

Lemma finalize_caps (read_ok : bool) (lib : Library) (item : option string) (fail_ok : bool) (id : nat) (ids : list nat) (s : Sys) :
  caps_ok s → caps_ok (finalize_one read_ok lib item fail_ok id ids s).
Proof.
  intros Hc. assert (∀ p, not_tuned p → caps_ok (s <| pc := p |>)) as Hs by (intros p Hp; by apply (caps_pc s)).
  assert (caps_ok (retry fail_ok id (s <| pc := Reaping ids |>))) as Hr by (apply retry_caps; [done|by apply Hs]).
  unfold finalize_one. cbv zeta. change (active (s <| pc := Reaping ids |>)) with (active s).
  destruct (active s !! id) as [ses|]; [|by apply Hs]. destruct (negb read_ok); [done|].
  destruct (GetRecording _ _) as [rec|]; [|done].
  destruct (negb (bool_decide (R_Status rec = RecordingNow))); [by apply (caps_fewer s _ id)|].
  destruct (negb (bool_decide (s_exit ses = Some 0))); [by apply Hs|].
  destruct (_ =? 0); [by apply Hs|]. destruct lib; [by apply Hs|done|by apply Hs|].
  destruct (s_item ses); [by apply Hs|]. destruct item as [it|]; [|done].
  apply (caps_load (s <| pc := Finalizing id (WriteCompleted (Some it)) ids |>)); [by apply Hs| |done].
  by apply same_load_alter.
Qed.

Lemma write_caps (ok fail_ok : bool) (id : nat) (o : Outcome) (ids : list nat) (s : Sys) :
  caps_ok s → caps_ok (finalize_write ok fail_ok id o ids s).
Proof.
  intros Hc. unfold finalize_write. cbv zeta. destruct o as [msg|item].
  - apply (caps_fewer s _ id); [done| |]; by destruct ok.
  - destruct ok; [by apply (caps_fewer s _ id)|]. apply retry_caps; [done|]. by apply (caps_pc s).
Qed.

Lemma step_caps (s : Sys) (e : Event) : caps_ok s → caps_ok (step s e).
Proof.
  intros Hc. destruct e; cbn [step].
  - destruct (pc s); try done. by apply (caps_pc s).
  - destruct (pc s) as [|[|r due]| | | | |]; try done. by apply start_caps.
  - destruct (pc s) eqn:Ep; try done. by apply mark_caps.
  - destruct (pc s) as [|[|r due]| | | | |]; try done. by apply (caps_pc s).
  - destruct (pc s) as [| | |[|i ids]| | |]; try done. by apply finalize_caps.
  - destruct (pc s); try done. by apply write_caps.
  - destruct (pc s) as [| | |[|i ids]| |[|i ids]|]; try done; [by apply (caps_pc s)|by apply (caps_pc s)|].
    unfold honor_one. cbv zeta. assert (caps_ok (s <| pc := Honoring ids |>)) as Hs by (by apply (caps_pc s)).
    destruct (if read_ok then _ else _) as [r|]; [|done]. destruct (bool_decide _); [done|].
    apply (caps_load (s <| pc := Honoring ids |>)); [done| |done]. by apply same_load_alter.
  - split; [done|]. split; [exact user_captures_empty|done].
  - destruct (pc s) as [| | | | | |[|i ids]]; try done; [by apply (caps_pc s)|]. apply (caps_pc s); by destruct ok.
  - destruct (active s !! id) as [ses|]; [|done]. destruct (is_set _); [done|].
    apply (caps_load s); [done| |done]. by apply same_load_alter.
  - apply (caps_load s); [done| |done]. apply same_load_alter. intros x. by destruct (_ >=? _).
  - destruct (GetRecording _ _); [|done]. destruct (String.eqb _ _); [|done]. by apply (caps_load s).
  - by apply (caps_load s).
  - destruct (GetRecording _ _); [|done]. destruct (expired _ _ _); [|done]. by apply (caps_load s).
  - by apply (caps_load s).
Qed.

Lemma run_invariant (P : Sys → Prop) (s : Sys) (es : list Event) :
  (∀ s e, P s → P (step s e)) → P s → P (run s es).
Proof. intros Hstep. revert s. induction es as [|e es IH]; intros s Hs; [done|]. apply IH. by apply Hstep. Qed.

(** Whatever the interleaving of the worker with users, the matcher, exits
    and restarts, the process never runs more than eight captures at once, nor
    more than three of one user. *)
Lemma dvr_capture_limits (t : Z) (d : DB) (es : list Event) :
  let s := run (boot t d) es in
  total_captures (active s) <= maxConcurrentCaptures ∧ ∀ user, user_captures user (active s) <= maxCapturesPerUser.
Proof.
  assert (caps_ok (run (boot t d) es)) as (H1 & H2 & _); [|done].
  apply run_invariant; [apply step_caps|]. split; [done|]. split; [exact user_captures_empty|done].
Qed.

(** * The life of a recording *)
Definition rank (st : Status) : nat := match st with Scheduled => 0 | RecordingNow => 1 | _ => 2 end.

(** What a step may do to the tables. *)
Inductive db_change (d : DB) : DB → Prop :=
  | dc_same : db_change d d
  | dc_end id st f : (2 <= rank st)%nat →
      (∀ r, R_ID (f r) = R_ID r ∧ R_UserID (f r) = R_UserID r ∧ R_ProgramID (f r) = R_ProgramID r ∧ R_Status (f r) = st) →
      db_change d (mkDB (schedules d) (guide d) (update id f (recordings d)) (next_id d))
  | dc_start id path : (SetRecordingStartedFile id path (recordings d)).2 = true →
      db_change d (mkDB (schedules d) (guide d) (SetRecordingStartedFile id path (recordings d)).1 (next_id d))
  | dc_upsert sc p : db_change d (record_candidate (d, 0, 0) (sc, p)).1.1
  | dc_delete id : db_change d (mkDB (schedules d) (guide d) (DeleteRecording id (recordings d)) (next_id d)).

Lemma DB_eta (d : DB) : mkDB (schedules d) (guide d) (recordings d) (next_id d) = d.
Proof. by destruct d. Qed.

Lemma change_failed (b : bool) (id : nat) (msg : string) (s s0 : Sys) :
  db s = db s0 → db_change (db s0) (db (when b (SetRecordingFailed id msg) s)).
Proof.
  intros E. rewrite <- E. destruct b; [|constructor].
  apply (dc_end (db s) id Failed (set_failed msg)); [done|done].
Qed.

Lemma retry_change (fail_ok : bool) (id : nat) (s s0 : Sys) : db s = db s0 → db_change (db s0) (db (retry fail_ok id s)).
Proof.
  intros E. destruct (retry_cases fail_ok id s) as (_ & _ & _ & _ & [(t & _ & ->)|(_ & b & ->)]).
  - rewrite E. constructor.
  - by apply change_failed.
Qed.

Lemma start_change (open_ok fail_ok : bool) (r : Recording) (due : list Recording) (s : Sys) :
  db_change (db s) (db (start_one open_ok fail_ok r due s)).
Proof.
  unfold start_one. cbv zeta. destruct (is_set _); [constructor|]. destruct (_ || _).
  - destruct (negb _); [by apply change_failed|constructor].
  - destruct open_ok; [constructor|]. destruct (_ <? _); [constructor|by apply change_failed].
Qed.

Lemma mark_change (ok left_file fail_ok : bool) (r : Recording) (exit : option Z) (due : list Recording) (s : Sys) :
  db_change (db s) (db (mark_started ok left_file fail_ok r exit due s)).
Proof.
  unfold mark_started. cbv zeta. destruct ok.
  - pose proof (dc_start (db s) (R_ID r) (path_text (capture_path r))) as H. change (db (s <| pc := Starting due |>)) with (db s).
    destruct (SetRecordingStartedFile _ _ _) as [rows []]; [by apply H|constructor].
  - destruct left_file; (destruct (_ <? _); [constructor|by apply change_failed]).
Qed.

Lemma finalize_change (read_ok : bool) (lib : Library) (item : option string) (fail_ok : bool) (id : nat) (ids : list nat) (s : Sys) :
  db_change (db s) (db (finalize_one read_ok lib item fail_ok id ids s)).
Proof.
  assert (db_change (db s) (db (retry fail_ok id (s <| pc := Reaping ids |>)))) as Hr by (by apply retry_change).
  unfold finalize_one. cbv zeta. destruct (active _ !! id) as [ses|]; [|constructor]. destruct (negb read_ok); [done|].
  destruct (GetRecording _ _) as [rec|]; [|done]. destruct (negb _); [constructor|]. destruct (negb _); [constructor|].
  destruct (_ =? 0); [constructor|]. destruct lib; [constructor|done|constructor|].
  destruct (s_item ses); [constructor|]. destruct item; [constructor|done].
Qed.

Lemma write_change (ok fail_ok : bool) (id : nat) (o : Outcome) (ids : list nat) (s : Sys) :
  db_change (db s) (db (finalize_write ok fail_ok id o ids s)).
Proof.
  unfold finalize_write. cbv zeta. destruct o as [msg|item].
  - pose proof (change_failed ok id msg (s <| pc := Reaping ids |>) s eq_refl) as H. by destruct ok.
  - destruct ok; [|by apply retry_change]. destruct item as [it|].
    + by apply (dc_end (db s) id Completed (set_completed it)).
    + by apply (dc_end (db s) id Completed (set_status Completed)).
Qed.

Lemma step_change (s : Sys) (e : Event) : db_change (db s) (db (step s e)).
Proof.
  destruct e; cbn [step].
  - destruct (pc s); constructor.
  - destruct (pc s) as [|[|r due]| | | | |]; try constructor. apply start_change.
  - destruct (pc s); try constructor. apply mark_change.
  - destruct (pc s) as [|[|r due]| | | | |]; constructor.
  - destruct (pc s) as [| | |[|i ids]| | |]; try constructor. apply finalize_change.
  - destruct (pc s); try constructor. apply write_change.
  - destruct (pc s) as [| | |[|i ids]| |[|i ids]|]; try constructor. unfold honor_one. cbv zeta.
    destruct (if read_ok then _ else _) as [r|]; [|constructor]. destruct (bool_decide _); constructor.
  - constructor.
  - destruct (pc s) as [| | | | | |[|i ids]]; try constructor. by apply change_failed.
  - destruct (active s !! id) as [ses|]; [|constructor]. destruct (is_set _); constructor.
  - constructor.
  - destruct (GetRecording _ _); [|constructor]. destruct (String.eqb _ _); [|constructor].
    by apply (dc_end (db s) id Cancelled (set_status Cancelled)).
  - apply dc_upsert.
  - destruct (GetRecording _ _); [|constructor]. destruct (expired _ _ _); constructor.
  - constructor.
Qed.

(** ** Rows only move forward *)
Definition forward (d d' : DB) : Prop :=
  (next_id d <= next_id d')%nat ∧
  ∀ r', r' ∈ recordings d' → (R_ID r' < next_id d)%nat →
    ∃ r, r ∈ recordings d ∧ R_ID r = R_ID r' ∧ (rank (R_Status r) <= rank (R_Status r'))%nat.

#[global] Instance forward_preorder : PreOrder forward.
Proof.
  split.
  - intros d. split; [lia|]. intros r' Hr _. by exists r'.
  - intros d1 d2 d3 [H12 H12'] [H23 H23']. split; [lia|]. intros r3 Hr3 Hlt.
    destruct (H23' r3 Hr3 ltac:(lia)) as (r2 & Hr2 & E2 & Hle2). destruct (H12' r2 Hr2 ltac:(lia)) as (r1 & Hr1 & E1 & Hle1).
    exists r1. split; [done|]. split; [congruence|lia].
Qed.

Lemma GetRecording_row (d : DB) (r : Recording) : db_ok d → r ∈ recordings d → GetRecording (R_ID r) (recordings d) = Some r.
Proof.
  intros (_ & Hnd & _) Hr. unfold GetRecording. revert Hnd Hr. generalize (recordings d) as rs.
  induction rs as [|x rs IH]; intros Hnd Hr; [by apply not_elem_of_nil in Hr|]. rewrite fmap_cons in Hnd.
  apply NoDup_cons in Hnd as [Hx Hnd]. cbn [find_first]. apply elem_of_cons in Hr as [->|Hr]; [by rewrite Nat.eqb_refl|].
  destruct (Nat.eqb_spec (R_ID x) (R_ID r)) as [E|]; [|by apply IH]. exfalso. apply Hx. rewrite E. by apply list_elem_of_fmap_2.
Qed.

Lemma GetRecording_in (id : nat) (rs : list Recording) (r : Recording) : GetRecording id rs = Some r → r ∈ rs ∧ R_ID r = id.
Proof. intros [? ?%Nat.eqb_eq]%find_first_Some. done. Qed.

Definition keeps_keys (f : Recording → Recording) : Prop :=
  ∀ r, R_ID (f r) = R_ID r ∧ R_UserID (f r) = R_UserID r ∧ R_ProgramID (f r) = R_ProgramID r.

Lemma update_ok (d : DB) (id : nat) (f : Recording → Recording) :
  db_ok d → keeps_keys f → db_ok (mkDB (schedules d) (guide d) (update id f (recordings d)) (next_id d)).
Proof.
  intros (Hid & Hnd & Hk) Hf. unfold db_ok, update. cbn [recordings next_id].
  set (g := λ r, if Nat.eqb (R_ID r) id then f r else r).
  assert (keeps_keys g) as Hg by (intros r; unfold g; destruct (Nat.eqb (R_ID r) id); [apply Hf|done]).
  split; [|split].
  - intros r (r0 & -> & Hr)%list_elem_of_fmap. rewrite (proj1 (Hg r0)). by apply Hid.
  - rewrite <- list_fmap_compose. rewrite (list_fmap_ext _ R_ID); [done|]. intros i r _. apply Hg.
  - intros i j r r' p Hi Hj Eu Ep Ep'. rewrite list_lookup_fmap in Hi, Hj.
    destruct (recordings d !! i) as [x|] eqn:Hx; [|done]. destruct (recordings d !! j) as [y|] eqn:Hy; [|done].
    injection Hi as <-. injection Hj as <-. destruct (Hg x) as (_ & E1 & E2), (Hg y) as (_ & E3 & E4).
    apply (Hk i j x y p); congruence.
Qed.

Lemma delete_row_ok (d : DB) (id : nat) :
  db_ok d → db_ok (mkDB (schedules d) (guide d) (DeleteRecording id (recordings d)) (next_id d)).
Proof.
  intros (Hid & Hnd & Hk). unfold db_ok, DeleteRecording. cbn [recordings next_id].
  assert (NoDup (R_ID <$> List.filter (λ r, negb (Nat.eqb (R_ID r) id)) (recordings d))) as Hnd'.
  { eapply sublist_NoDup; [exact Hnd|]. generalize (recordings d) as rs. induction rs as [|r rs IH]; [done|].
    cbn [List.filter fmap list_fmap]. destruct (negb _); cbn; by constructor. }
  split; [|split; [done|]].
  - intros r Hr. apply elem_of_List_filter in Hr as [Hr _]. by apply Hid.
  - intros i j r r' p Hi Hj Eu Ep Ep'. assert (r = r') as <-.
    { apply list_elem_of_lookup_2, elem_of_List_filter in Hi as [[x Hx]%list_elem_of_lookup_1 _].
      apply list_elem_of_lookup_2, elem_of_List_filter in Hj as [[y Hy]%list_elem_of_lookup_1 _].
      assert (x = y) as -> by (by apply (Hk x y r r' p)). congruence. }
    apply (NoDup_lookup _ i j (R_ID r) Hnd'); by rewrite list_lookup_fmap, ?Hi, ?Hj.
Qed.

Lemma update_forward (d : DB) (id : nat) (f : Recording → Recording) :
  (∀ r, r ∈ recordings d → R_ID r = id → R_ID (f r) = id ∧ (rank (R_Status r) <= rank (R_Status (f r)))%nat) →
  forward d (mkDB (schedules d) (guide d) (update id f (recordings d)) (next_id d)).
Proof.
  intros Hf. split; [done|]. cbn [recordings]. intros r' (r & -> & Hr)%list_elem_of_fmap _. exists r. split; [done|].
  destruct (Nat.eqb_spec (R_ID r) id) as [E|]; [|done]. destruct (Hf r Hr E). split; [congruence|done].
Qed.

Lemma change_forward (d d' : DB) : db_ok d → db_change d d' → db_ok d' ∧ forward d d'.
Proof.
  intros Hok [|id st f Hst Hf|id path Hs|sc p|id].
  - by split.
  - split; [apply update_ok; [done|]; intros r; by destruct (Hf r) as (? & ? & ? & _)|]. apply update_forward.
    intros r _ E. destruct (Hf r) as (-> & _ & _ & ->). split; [done|]. destruct (R_Status r); cbn; lia.
  - unfold SetRecordingStartedFile in *. destruct (GetRecording id _) as [r|] eqn:Eg; [|done].
    destruct (bool_decide (R_Status r = Scheduled)) eqn:Es; [|done]. apply bool_decide_eq_true in Es. cbn [fst].
    split; [by apply update_ok|]. apply update_forward. intros x Hx Ex.
    pose proof (GetRecording_row d x Hok Hx) as E. rewrite Ex, Eg in E. injection E as ->. rewrite Es. cbn. split; [done|lia].
  - unfold record_candidate. cbn [fst snd]. destruct (wanted sc p) as [[s e]|] eqn:Ew; [|done].
    destruct (upsert_cases sc p s e d Hok Ew) as (_ & _ & Hc). destruct (UpsertRecording sc p s e d) as [d1 b]. cbn [fst] in Hc.
    assert (db_ok d1 ∧ forward d d1) as H; [|by destruct b]. destruct Hc as [(_ & En & Er)|(Hk & En & Er)].
    + split; [by apply (db_ok_map d d1 (sc, p))|]. split; [lia|]. rewrite Er.
      intros r' (r & -> & Hr)%list_elem_of_fmap _. exists r. split; [done|].
      pose proof (rewrite_row_identity (sc, p) r) as E. unfold identity in E. injection E as E1 _ _ _ E2 _ _ _.
      rewrite E1, E2. done.
    + split; [apply (db_ok_insert d d1 (sc, p) s e); try done; unfold key_present; cbn [fst snd]; congruence|].
      split; [lia|]. rewrite Er. intros r' [Hr| ->%list_elem_of_singleton]%elem_of_app Hlt; [by exists r'|cbn in Hlt; lia].
  - split; [by apply delete_row_ok|]. split; [done|]. cbn [recordings].
    intros r' [Hr _]%elem_of_List_filter _. by exists r'.
Qed.

(** ** Captured once, filed once, queued once *)
Record once (s : Sys) : Prop := {
  on_db : db_ok (db s);
  on_started_nodup : NoDup (started s);
  on_started : ∀ id, id ∈ started s → (id < next_id (db s))%nat ∧
    ∀ r, r ∈ recordings (db s) → R_ID r = id → (1 <= rank (R_Status r))%nat;
  on_active : ∀ id ses, active s !! id = Some ses →
    id ∈ started s ∧ (s_item ses = None → id ∉ items s) ∧ id ∉ queued s;
  on_items : NoDup (items s) ∧ ∀ id, id ∈ items s → id ∈ started s;
  on_queued : NoDup (queued s) ∧ ∀ id, id ∈ queued s → id ∈ started s;
  on_pc : match pc s with Finalizing id _ _ => is_Some (active s !! id) | _ => True end
}.

Lemma started_forward (d d' : DB) (l : list nat) :
  forward d d' →
  (∀ id, id ∈ l → (id < next_id d)%nat ∧ ∀ r, r ∈ recordings d → R_ID r = id → (1 <= rank (R_Status r))%nat) →
  ∀ id, id ∈ l → (id < next_id d')%nat ∧ ∀ r, r ∈ recordings d' → R_ID r = id → (1 <= rank (R_Status r))%nat.
Proof.
  intros [Hn Hf] H id Hid. destruct (H id Hid) as [Hlt Hr]. split; [lia|]. intros r' Hr' <-.
  destruct (Hf r' Hr' Hlt) as (r & Hin & E & Hle). specialize (Hr r Hin E). lia.
Qed.

(** A step that begins, files and queues nothing. *)
Lemma once_mild (s s' : Sys) :
  once s → db_change (db s) (db s') → started s' = started s → items s' = items s → queued s' = queued s →
  (∀ id ses', active s' !! id = Some ses' → ∃ ses, active s !! id = Some ses ∧ s_item ses' = s_item ses) →
  match pc s' with Finalizing id _ _ => is_Some (active s' !! id) | _ => True end → once s'.
Proof.
  intros [H1 H2 H3 H4 H5 H6 _] Hd Es Ei Eq Ha Hp. destruct (change_forward _ _ H1 Hd) as [Hok Hf].
  split; rewrite ?Es, ?Ei, ?Eq; [done|done|by apply (started_forward (db s))| |done|done|done].
  intros id ses' (ses & Hs & Hi)%Ha. rewrite Hi. by apply H4.
Qed.

Lemma alter_item (a : gmap nat Session) (id : nat) (f : Session → Session) :
  (∀ x, s_item (f x) = s_item x) →
  ∀ j x', alter f id a !! j = Some x' → ∃ x, a !! j = Some x ∧ s_item x' = s_item x.
Proof.
  intros Hf j x' Hj. destruct (decide (j = id)) as [->|]; [|rewrite lookup_alter_ne in Hj by done; by exists x'].
  rewrite lookup_alter_eq in Hj. destruct (a !! id) as [x|]; [|done]. injection Hj as <-. by exists x.
Qed.
Lemma delete_item (a : gmap nat Session) (id : nat) :
  ∀ j x', delete id a !! j = Some x' → ∃ x, a !! j = Some x ∧ s_item x' = s_item x.
Proof. intros j x' Hj. apply lookup_delete_Some in Hj as [_ Hj]. by exists x'. Qed.
Lemma same_item (a : gmap nat Session) : ∀ j x', a !! j = Some x' → ∃ x, a !! j = Some x ∧ s_item x' = s_item x.
Proof. intros j x' Hj. by exists x'. Qed.

Lemma retry_once (fail_ok : bool) (id : nat) (ids : list nat) (s s0 : Sys) :
  once s0 → s = s0 <| pc := Reaping ids |> → once (retry fail_ok id s).
Proof.
  intros Ho ->. pose proof (retry_cases fail_ok id (s0 <| pc := Reaping ids |>)) as (Ep & Es & Ei & Eq & Hc).
  apply (once_mild s0); [done|by apply retry_change|done|done|done| |by rewrite Ep].
  destruct Hc as [(t & -> & _)|(-> & _)]; [by apply alter_item|apply delete_item].
Qed.

Lemma start_once (open_ok fail_ok : bool) (r : Recording) (due : list Recording) (s : Sys) :
  once s → once (start_one open_ok fail_ok r due s).
Proof.
  intros Ho. pose proof (start_change open_ok fail_ok r due s) as Hd.
  assert (started (start_one open_ok fail_ok r due s) = started s ∧ items (start_one open_ok fail_ok r due s) = items s ∧
    queued (start_one open_ok fail_ok r due s) = queued s ∧ active (start_one open_ok fail_ok r due s) = active s ∧
    match pc (start_one open_ok fail_ok r due s) with Finalizing id _ _ => False | _ => True end) as (Es & Ei & Eq & Ea & Hp).
  { unfold start_one. cbv zeta. destruct (is_set _); [done|]. destruct (_ || _); [destruct (negb _); [by destruct fail_ok|done]|].
    destruct open_ok; [done|]. destruct (_ <? _); [done|by destruct fail_ok]. }
  apply (once_mild s); [done|done|done|done|done|rewrite Ea; apply same_item|by destruct (pc _)].
Qed.

Lemma mark_once (ok left_file fail_ok : bool) (r : Recording) (exit : option Z) (due : list Recording) (s : Sys) :
  once s → once (mark_started ok left_file fail_ok r exit due s).
Proof.
  intros Ho. pose proof (mark_change ok left_file fail_ok r exit due s) as Hd. revert Hd.
  unfold mark_started. cbv zeta. destruct ok.
  - change (db (s <| pc := Starting due |>)) with (db s). unfold SetRecordingStartedFile.
    destruct (GetRecording (R_ID r) (recordings (db s))) as [r0|] eqn:Eg; cbv beta iota zeta;
      [|intros Hd; apply (once_mild s); done || apply same_item].
    destruct (bool_decide (R_Status r0 = Scheduled)) eqn:Est; cbv beta iota zeta;
      [|intros Hd; apply (once_mild s); done || apply same_item].
    apply bool_decide_eq_true in Est. apply GetRecording_in in Eg as [Hr0 Eid]. destruct Ho as [H1 H2 H3 H4 H5 H6 H7].
    intros Hd. destruct (change_forward _ _ H1 Hd) as [Hok' Hf].
    assert (R_ID r ∉ started s) as Hnew.
    { intros Hin. destruct (H3 _ Hin) as [_ H]. specialize (H r0 Hr0 Eid). rewrite Est in H. cbn in H. lia. }
    split; [done| | | | | |done].
    + apply NoDup_app. split; [done|]. split; [|apply NoDup_singleton]. intros x Hx ->%list_elem_of_singleton. done.
    + intros id [Hid| ->%list_elem_of_singleton]%elem_of_app; [by apply (started_forward (db s) _ (started s) Hf H3)|].
      split; [rewrite <- Eid; by apply H1|]. intros x (y & -> & Hy)%list_elem_of_fmap.
      destruct (Nat.eqb_spec (R_ID y) (R_ID r)); [intros _; cbn; lia|done].
    + intros id ses Hs. change (<[R_ID r := mkSession (R_UserID r) (capture_path r) exit false (R_EndsAt r) None None]> (active s) !! id = Some ses) in Hs.
      destruct (decide (id = R_ID r)) as [->|Hne].
      * split; [apply elem_of_app; right; left|]. split; [intros _ Hin; apply Hnew; by apply H5|intros Hin; apply Hnew; by apply H6].
      * rewrite lookup_insert_ne in Hs by done. destruct (H4 id ses Hs) as (? & ? & ?). split; [apply elem_of_app; by left|done].
    + destruct H5 as [? H5]. split; [done|]. intros id Hid. apply elem_of_app. left. by apply H5.
    + destruct H6 as [? H6]. split; [done|]. intros id Hid. apply elem_of_app. left. by apply H6.
  - intros Hd. apply (once_mild s); [done|done| | | | |]; destruct left_file, fail_ok; destruct (_ <? _); try done; apply same_item.
Qed.

Lemma finalize_once (read_ok : bool) (lib : Library) (item : option string) (fail_ok : bool) (id : nat) (ids : list nat) (s : Sys) :
  once s → once (finalize_one read_ok lib item fail_ok id ids s).
Proof.
  intros Ho. pose proof (retry_once fail_ok id ids _ s Ho eq_refl) as Hr.
  assert (∀ p, match p with Finalizing i _ _ => is_Some (active s !! i) | _ => True end → once (s <| pc := p |>)) as Hpc.
  { intros p Hp. apply (once_mild s); [done|constructor|done|done|done|apply same_item|done]. }
  unfold finalize_one. cbv zeta. change (active (s <| pc := Reaping ids |>)) with (active s).
  destruct (active s !! id) as [ses|] eqn:Ea; [|by apply Hpc]. destruct (negb read_ok); [done|].
  destruct (GetRecording _ _) as [rec|]; [|done].
  destruct (negb (bool_decide (R_Status rec = RecordingNow))).
  { apply (once_mild s); [done|constructor|done|done|done|apply delete_item|done]. }
  destruct (negb (bool_decide (s_exit ses = Some 0))); [by apply Hpc|].
  destruct (_ =? 0); [by apply Hpc|]. destruct lib; [by apply Hpc|done|by apply Hpc|].
  destruct (s_item ses) as [it|] eqn:Ei; [by apply Hpc|]. destruct item as [it|]; [|done].
  destruct Ho as [H1 H2 H3 H4 [H5 H5'] H6 _]. destruct (H4 id ses Ea) as (Hst & Hno & _). specialize (Hno Ei).
  set (s' := on_session id (λ x, x <| s_item := Some it |>) (s <| pc := Reaping ids |>) <| items := items s ++ [id] |> <| pc := Finalizing id (WriteCompleted (Some it)) ids |>).
  assert (active s' = alter (λ x, x <| s_item := Some it |>) id (active s)) as Ea' by done.
  change (once s'). split; [done|done|done| | |done|].
  - intros j ses'. rewrite Ea'. destruct (decide (j = id)) as [->|Hne].
    + rewrite lookup_alter_eq, Ea. intros [= <-]. split; [done|]. split; [done|]. by apply (H4 id ses).
    + rewrite lookup_alter_ne by done. intros Hj. destruct (H4 j ses' Hj) as (? & Hi & ?). split; [done|]. split; [|done].
      intros Hn [Hin|Hin%list_elem_of_singleton]%elem_of_app; [by apply Hi|done].
  - change (items s') with (items s ++ [id]). split.
    + apply NoDup_app. split; [done|]. split; [|apply NoDup_singleton]. by intros x Hx ->%list_elem_of_singleton.
    + intros j [Hj| ->%list_elem_of_singleton]%elem_of_app; [by apply H5'|done].
  - change (pc s') with (Finalizing id (WriteCompleted (Some it)) ids). cbv iota. rewrite Ea', lookup_alter_eq, Ea. by eexists.
Qed.

Lemma write_once (ok fail_ok : bool) (id : nat) (o : Outcome) (ids : list nat) (s : Sys) :
  pc s = Finalizing id o ids → once s → once (finalize_write ok fail_ok id o ids s).
Proof.
  intros Ep Ho. pose proof (write_change ok fail_ok id o ids s) as Hd. revert Hd. unfold finalize_write. cbv zeta.
  destruct o as [msg|item].
  - intros Hd. apply (once_mild s); [done|done| | | | |]; destruct ok; try done; apply delete_item.
  - destruct ok; [|intros _; by apply (retry_once fail_ok id ids _ s)].
    set (rows := match item with Some it => _ | None => _ end). intros Hd.
    destruct Ho as [H1 H2 H3 H4 H5 [H6 H6'] H7]. rewrite Ep in H7. destruct H7 as [ses Hs].
    destruct (change_forward _ _ H1 Hd) as [Hok' Hf]. destruct (H4 id ses Hs) as (Hst & _ & Hq).
    set (s' := drop_session id (with_rows rows (s <| pc := Reaping ids |>)) <| queued := queued s ++ [id] |>).
    assert (active s' = delete id (active s)) as Ea by done. assert (queued s' = queued s ++ [id]) as Eq by done.
    change (once s'). split; [done|done|by apply (started_forward (db s))| |done| |done].
    + intros j ses'. rewrite Ea, Eq. intros [Hne Hj]%lookup_delete_Some. destruct (H4 j ses' Hj) as (? & ? & Hjq).
      split; [done|]. split; [done|]. intros [?|Hin%list_elem_of_singleton]%elem_of_app; [done|congruence].
    + rewrite Eq. split.
      * apply NoDup_app. split; [done|]. split; [|apply NoDup_singleton]. by intros x Hx ->%list_elem_of_singleton.
      * intros j [Hj| ->%list_elem_of_singleton]%elem_of_app; [by apply H6'|done].
Qed.

Lemma step_once (s : Sys) (e : Event) : once s → once (step s e).
Proof.
  intros Ho. pose proof (step_change s e) as Hd.
  assert (∀ p, not_tuned p → match p with Finalizing _ _ _ => False | _ => True end → once (s <| pc := p |>)) as Hpc.
  { intros p _ Hp. apply (once_mild s); [done|constructor|done|done|done|apply same_item|by destruct p]. }
  assert (∀ d', db_change (db s) d' → once (s <| db := d' |>)) as Hdb.
  { intros d' Hd'. apply (once_mild s); [done|done|done|done|done|apply same_item|apply Ho]. }
  assert (∀ id f, (∀ x, s_item (f x) = s_item x) → once (on_session id f s)) as Hses.
  { intros id f Hf. apply (once_mild s); [done|constructor|done|done|done|by apply alter_item|].
    destruct Ho as [_ _ _ _ _ _ H7]. change (pc (on_session id f s)) with (pc s). destruct (pc s) as [| | | |i o l| |]; [done..| |done|done].
    destruct H7 as [x Hx]. change (active (on_session id f s)) with (alter f id (active s)).
    destruct (decide (i = id)) as [->|]; [rewrite lookup_alter_eq, Hx|rewrite lookup_alter_ne, Hx by done]; by eexists. }
  destruct e; cbn [step] in *.
  - destruct (pc s); try done. by apply Hpc.
  - destruct (pc s) as [|[|r due]| | | | |]; try done. by apply start_once.
  - destruct (pc s) eqn:Ep; try done. by apply mark_once.
  - destruct (pc s) as [|[|r due]| | | | |]; try done. by apply Hpc.
  - destruct (pc s) as [| | |[|i ids]| | |]; try done. by apply finalize_once.
  - destruct (pc s) eqn:Ep; try done. by apply write_once.
  - destruct (pc s) as [| | |[|i ids]| |[|i ids]|]; try done; [by apply Hpc|by apply Hpc|].
    unfold honor_one. cbv zeta. change (db (s <| pc := Honoring ids |>)) with (db s).
    destruct (if read_ok then _ else _) as [r|]; [|by apply Hpc]. destruct (bool_decide _); [by apply Hpc|].
    apply (once_mild (s <| pc := Honoring ids |>)); [by apply Hpc|constructor|done|done|done| |done]. by apply alter_item.
  - apply (once_mild s); [done|constructor|done|done|done| |done]. intros j x' Hx. change ((∅ : gmap nat Session) !! j = Some x') in Hx.
    by apply lookup_empty_Some in Hx.
  - destruct (pc s) as [| | | | | |[|i ids]]; try done; [by apply Hpc|].
    apply (once_mild s); [done|done| | | | |]; destruct ok; try done; apply same_item.
  - destruct (active s !! id) as [ses|] eqn:Ea; [|done]. destruct (is_set _); [done|].
    specialize (Hses id (set_exit code) (λ _, eq_refl)).
    apply (once_mild (on_session id (set_exit code) s)); [exact Hses|constructor|done|done|done|apply same_item|apply Hses].
  - apply Hses. intros x. by destruct (_ >=? _).
  - destruct (GetRecording _ _); [|done]. destruct (String.eqb _ _); [|done]. by apply Hdb.
  - by apply Hdb.
  - destruct (GetRecording _ _); [|done]. destruct (expired _ _ _); [|done]. by apply Hdb.
  - apply (once_mild s); [done|constructor|done|done|done|apply same_item|apply Ho].
Qed.

Lemma boot_once (t : Z) (d : DB) : db_ok d → once (boot t d).
Proof.
  intros Hok. split; [done|constructor| | | | |done].
  - by intros id []%not_elem_of_nil.
  - intros id ses H. change ((∅ : gmap nat Session) !! id = Some ses) in H. by apply lookup_empty_Some in H.
  - split; [constructor|]. by intros id []%not_elem_of_nil.
  - split; [constructor|]. by intros id []%not_elem_of_nil.
Qed.

Lemma run_app (s : Sys) (es es' : list Event) : run s (es ++ es') = run (run s es) es'.
Proof. apply foldl_app. Qed.

(** C3: Over any run of the worker and everything around it, a recording is
    captured at most once, makes at most one library item and is queued for
    post-processing at most once, and its status only moves forward: from
    scheduled to recording to an end, so nothing is ever armed again. *)
Theorem recording_captured_once (t : Z) (d : DB) (es es' : list Event) :
  db_ok d →
  let s := run (boot t d) es in
  let s' := run (boot t d) (es ++ es') in
  NoDup (started s) ∧ NoDup (items s) ∧ NoDup (queued s) ∧
  (∀ id, id ∈ items s ∨ id ∈ queued s → id ∈ started s) ∧
  (∀ r r', r ∈ recordings (db s) → r' ∈ recordings (db s') → R_ID r = R_ID r' →
     (rank (R_Status r) <= rank (R_Status r'))%nat).
Proof.
  intros Hok. cbv zeta. rewrite run_app.
  assert (once (run (boot t d) es)) as Ho by (apply run_invariant; [apply step_once|by apply boot_once]).
  revert Ho. generalize (run (boot t d) es) as s. clear. intros s Ho. destruct (on_items _ Ho), (on_queued _ Ho).
  split; [apply Ho|]. split; [done|]. split; [done|]. split; [naive_solver|].
  assert (once (run s es') ∧ forward (db s) (db (run s es'))) as [_ [_ Hf]].
  { apply (run_invariant (λ x, once x ∧ forward (db s) (db x))); [|by split].
    intros x e [Hx Hfx]. split; [by apply step_once|]. etrans; [done|].
    apply (change_forward (db x)); [apply Hx|apply step_change]. }
  intros r r' Hr Hr' E. destruct (on_db _ Ho) as (Hid & Hnd & Hk).
  destruct (Hf r' Hr') as (r0 & Hr0 & E0 & Hle); [rewrite <- E; by apply Hid|].
  assert (r0 = r) as ->; [|done]. pose proof (GetRecording_row (db s) r0 (on_db _ Ho) Hr0) as G.
  rewrite E0, <- E, (GetRecording_row (db s) r (on_db _ Ho) Hr) in G. by injection G.
Qed.

(** ** What finalization makes of a capture *)
Lemma GetRecording_update (id : nat) (f : Recording → Recording) (rs : list Recording) :
  (∀ r, R_ID (f r) = R_ID r) → GetRecording id (update id f rs) = f <$> GetRecording id rs.
Proof.
  intros Hf. induction rs as [|r rs IH]; [done|]. unfold GetRecording, update in *. cbn [fmap list_fmap find_first].
  destruct (Nat.eqb (R_ID r) id) eqn:E; [by rewrite Hf, E|]. by rewrite E.
Qed.

(** What the code means a finished capture to become. *)
Definition finished_as (ses : Session) (size : Z) (item : string) (r : Recording) : Recording :=
  if negb (bool_decide (R_Status r = RecordingNow)) then r
  else if negb (bool_decide (s_exit ses = Some 0)) then set_failed "ffmpeg exit" r
  else if size =? 0 then set_failed "capture produced empty file" r
  else set_completed item r.

(** When the statements succeed, finalizing an exited capture takes it out
    of the active map and leaves its row as the code means it: untouched, with
    no item, if it is no longer recording (a cancellation); failed if ffmpeg
    failed or wrote nothing; otherwise completed and linked to its one library
    item, and queued for post-processing. *)
Lemma capture_finalized (s : Sys) (id : nat) (ids : list nat) (ses : Session) (r : Recording) (item : string) (b : bool) :
  pc s = Reaping (id :: ids) → active s !! id = Some ses → s_item ses = None →
  GetRecording id (recordings (db s)) = Some r →
  let size := default 0 (files s !! s_path ses) in
  let s' := run s [EFinalize true LibraryID (Some item) b; EWrite true b] in
  let r' := finished_as ses size item r in
  active s' !! id = None ∧ pc s' = Reaping ids ∧ GetRecording id (recordings (db s')) = Some r' ∧
  (if bool_decide (R_Status r = RecordingNow ∧ s_exit ses = Some 0 ∧ size ≠ 0)
   then R_Status r' = Completed ∧ R_ItemID r' = Some item ∧ items s' = items s ++ [id] ∧ queued s' = queued s ++ [id]
   else R_Status r' ≠ RecordingNow ∧ items s' = items s ∧ queued s' = queued s).
Proof.
  intros Ep Ea Ei Eg size. cbv zeta. unfold run. cbn [foldl step]. rewrite Ep. cbv iota.
  unfold finalize_one. cbv zeta. change (active (s <| pc := Reaping ids |>)) with (active s). rewrite Ea. cbn [negb].
  change (db (s <| pc := Reaping ids |>)) with (db s). rewrite Eg. fold size.
  change (files (s <| pc := Reaping ids |>)) with (files s). fold size. unfold finished_as.
  destruct (bool_decide_reflect (R_Status r = RecordingNow)) as [Est|Est]; cbn [negb].
  2: { rewrite bool_decide_eq_false_2 by tauto. split; [apply lookup_delete_eq|]. by split. }
  destruct (bool_decide_reflect (s_exit ses = Some 0)) as [Ee|Ee]; cbn [negb].
  2: { rewrite bool_decide_eq_false_2 by tauto. split; [apply lookup_delete_eq|]. split; [done|].
       split; [|done]. change (GetRecording id (update id (set_failed "ffmpeg exit") (recordings (db s))) = Some (set_failed "ffmpeg exit" r)).
       by rewrite GetRecording_update, Eg. }
  destruct (Z.eqb_spec size 0) as [Ez|Ez].
  { rewrite bool_decide_eq_false_2 by tauto. split; [apply lookup_delete_eq|]. split; [done|].
    split; [|done]. change (GetRecording id (update id (set_failed "capture produced empty file") (recordings (db s))) = Some (set_failed "capture produced empty file" r)).
    by rewrite GetRecording_update, Eg. }
  rewrite Ei, bool_decide_eq_true_2 by done. split; [apply lookup_delete_eq|]. split; [done|]. split; [|done].
  change (GetRecording id (update id (set_completed item) (recordings (db s))) = Some (set_completed item r)).
  by rewrite GetRecording_update, Eg.
Qed.

(** * One evening *)
Definition show_ex (id : nat) (user : string) : Recording :=
  mkRecording id None user "c" (Some "p") "News: late" None None None Scheduled 0 (3600 * Second) None None None.
Definition db1 : DB := mkDB [] [] [show_ex 1 "u"] 2.

Lemma db1_ok : db_ok db1.
Proof.
  split; [intros r ->%list_elem_of_singleton; cbn; lia|]. split; [apply NoDup_singleton|].
  intros i j r r' p Hi Hj _ _ _. destruct i, j; done.
Qed.

(** Boot, capture to the end, reap. *)
Definition up_to_reap : list Event :=
  [EReconcile true; ETick true; EStart true true; EMark true true true; EReap; EHonor true; EHonor true; EHonor true;
   EExit 1 0 5000; ETick true; EReap].
Definition evening : list Event := up_to_reap ++ [EFinalize true LibraryID (Some "item") true; EWrite true true].

Lemma capture_finalized_witness :
  let s' := run (run (boot 0 db1) up_to_reap) [EFinalize true LibraryID (Some "item") true; EWrite true true] in
  active s' !! 1%nat = None ∧
  (R_Status <$> GetRecording 1 (recordings (db s')), items s') = (Some Completed, [1%nat]).
Proof.
  split; [|by vm_compute].
  destruct (capture_finalized (run (boot 0 db1) up_to_reap) 1 []
    (mkSession "u" (mkPath "News- late" 0 1) (Some 0) false (3600 * Second) None None)
    (set_started "News- late - 0 [1].mp4" (show_ex 1 "u")) "item" true) as [H _]; [by vm_compute..|exact H].
Defined.

Lemma recording_captured_once_witness :
  let s := run (boot 0 db1) evening in
  NoDup (items s) ∧ items s = [1%nat] ∧ queued s = [1%nat].
Proof.
  destruct (recording_captured_once 0 db1 evening [] db1_ok) as (_ & H & _). split; [exact H|by vm_compute].
Defined.

(** A cancellation that lands between the status check and the unguarded
    status write is overwritten. *)
Example cancel_overwritten :
  let s := run (boot 0 db1)
    (up_to_reap ++ [EFinalize true LibraryID (Some "item") true; ECancel "u" 1; EWrite true true]) in
  R_Status <$> GetRecording 1 (recordings (db s)) = Some Completed.
Proof. by vm_compute. Qed.

(** Cancelling a completed recording takes it out of the retention purge. *)
Example cancel_after_completion :
  let s := run (boot 0 db1) (evening ++ [ECancel "u" 1]) in
  R_Status <$> GetRecording 1 (recordings (db s)) = Some Cancelled.
Proof. by vm_compute. Qed.

(** An error marking a failed capture is not retried: the session goes and the
    row stays in 'recording' until a restart. *)
Example failure_write_not_retried :
  let s := run (boot 0 db1)
    ([EReconcile true; ETick true; EStart true true; EMark true true true; EReap; EHonor true; EHonor true; EHonor true;
      EExit 1 1 5000; ETick true; EReap; EFinalize true LibraryID None true; EWrite false true]) in
  R_Status <$> GetRecording 1 (recordings (db s)) = Some RecordingNow ∧ active s !! 1%nat = None.
Proof. by vm_compute. Qed.

(** An error in the write that starts a recording leaves ffmpeg's output, which
    the next attempt, under [-n], refuses to overwrite: the recording fails
    while its programme is still on. *)
Example start_error_costs_the_recording :
  let s := run (boot 0 db1)
    ([EReconcile true; ETick true; EStart true true; EMark false true true; EReap; EHonor true; EHonor true;
      EAdvance (5 * Second); ETick true; EStart true true; EMark true true true; EReap;
      EFinalize true LibraryID None true; EWrite true true]) in
  now s < 3600 * Second ∧ (R_Status <$> GetRecording 1 (recordings (db s))) = Some Failed.
Proof. by vm_compute. Qed.
