(* ===== verification/Concat.v ===== *)
(** Inputs handed to ffmpeg: the protocol allowlist and the server-built concat
    lists of [internal/ffsafe/ffsafe.go], and the choice of a stacked movie's
    inputs of [internal/transcode/parts.go].

    [read_concat] is a reference reader of the ffconcat script: one directive a
    line, tokens quoted as ffmpeg documents ([av_get_token]: a single quote
    opens a literal run up to the next one, a backslash outside quotes takes
    the next character). *)
From Stdlib Require Import SpecFloat.
From S2P Require Import Prelude.
From S2P Require Import GoStrings.
From S2P Require Import GoBytes.
From S2P Require Import GoFloat.

Local Open Scope Z_scope.

(** * Allowlists *)
Definition localProtocols : string := "file,pipe,crypto,data,subfile".
Definition networkProtocols : string := localProtocols +:+ ",http,https,tcp,tls".

Definition IsHTTPURL (input : string) : bool := HasPrefix input "http://" || HasPrefix input "https://".

Definition Whitelist (input : string) : string := if IsHTTPURL input then networkProtocols else localProtocols.
Definition InputProtocolArgs (input : string) : list string := ["-protocol_whitelist"; Whitelist input].

(** * Lists *)
Record ConcatPart := mkPart { Input : string; DurationSec : float64; InPointSec : float64; OutPointSec : float64 }.

Definition is_letter (c : ascii) : bool := is_upper c || is_lower c.
Definition backslash : ascii := chr 92.

Definition isAbsLocalPath (s : string) : bool :=
  HasPrefix s "/" ||
  match s with
  | String a (String b _) => Ascii.eqb a backslash && Ascii.eqb b backslash
  | _ => false
  end ||
  match s with
  | String a (String b (String c _)) =>
      Ascii.eqb b ":" && (Ascii.eqb c backslash || Ascii.eqb c "/") && is_letter a
  | _ => false
  end.

(** [strings.ContainsAny(s, "\r\n\x00")] *)
Definition line_break (c : ascii) : bool := Ascii.eqb c cr || Ascii.eqb c lf || Ascii.eqb c (chr 0).
Definition has_break (s : string) : bool := negb (sforall (λ c, negb (line_break c)) s).

Definition entry_ok (p : ConcatPart) : bool :=
  negb (String.eqb (Input p) "" || has_break (Input p)) && (IsHTTPURL (Input p) || isAbsLocalPath (Input p)).

(** [None] is an error; [Some true], all URLs; [Some false], all local. *)
Fixpoint check_rest (network : bool) (parts : list ConcatPart) : option bool :=
  match parts with
  | [] => Some network
  | p :: parts' =>
      if entry_ok p then
        if Bool.eqb (IsHTTPURL (Input p)) network then check_rest network parts' else None
      else None
  end.
Definition checkConcatParts (parts : list ConcatPart) : option bool :=
  match parts with
  | [] => None
  | p :: _ => check_rest (IsHTTPURL (Input p)) parts
  end.

Definition ConcatInputArgs (parts : list ConcatPart) : list string :=
  match checkConcatParts parts with
  | None => ["-f"; "concat"; "-protocol_whitelist"; localProtocols]
  | Some network =>
      ["-f"; "concat"; "-safe"; "0"; "-protocol_whitelist"; if network then networkProtocols else localProtocols]
  end.

(** ** Writing *)
Definition quote : ascii := chr 39.

(** [strings.ReplaceAll(s, "'", `'\''`)] *)
Fixpoint escape_quotes (s : string) : string :=
  match s with
  | EmptyString => EmptyString
  | String c s' =>
      if Ascii.eqb c quote
      then String quote (String backslash (String quote (String quote (escape_quotes s'))))
      else String c (escape_quotes s')
  end.

Definition pad3 (n : Z) : string :=
  if n <? 10 then "00" +:+ Itoa n else if n <? 100 then "0" +:+ Itoa n else Itoa n.

(** The nearest integer, ties to even, of [num / 2^k]. *)
Definition round_even (num k : Z) : Z :=
  let q := num `div` 2 ^ k in
  let r := num `mod` 2 ^ k in
  if 2 * r <? 2 ^ k then q else if 2 * r >? 2 ^ k then q + 1 else if Z.even q then q else q + 1.

(** [strconv.FormatFloat(x, 'f', 3, 64)] of a positive [x]: the exact value
    rounded to thousandths. *)
Definition FormatFloat3 (x : float64) : string :=
  match x with
  | S754_finite false m e =>
      let n := if 0 <=? e then Z.pos m * 1000 * 2 ^ e else round_even (Z.pos m * 1000) (- e) in
      Itoa (n `div` 1000) +:+ "." +:+ pad3 (n `mod` 1000)
  | _ => "+Inf"
  end.

Definition newline : string := String lf EmptyString.
Definition directive (name : string) (x : float64) : string :=
  if f64_gt0 x then name +:+ " " +:+ FormatFloat3 x +:+ newline else "".

Definition file_line (input : string) : string :=
  "file " +:+ String quote (escape_quotes input +:+ String quote newline).

Definition write_part (p : ConcatPart) : string :=
  file_line (Input p) +:+ directive "duration" (DurationSec p) +:+ directive "inpoint" (InPointSec p) +:+
  directive "outpoint" (OutPointSec p).

Definition concat_header : string := "ffconcat version 1.0" +:+ newline.

(** The script's text, [None] when the list is refused. *)
Definition WriteConcatList (parts : list ConcatPart) : option string :=
  match checkConcatParts parts with
  | None => None
  | Some _ => Some (concat_header +:+ foldr (λ p acc, write_part p +:+ acc) "" parts)
  end.

(** * Stacked movies *)
Record SourcePart := mkSource { FileID : string; FilePath : string; SourceURL : string; DurationMS : Z }.

Definition ms_to_sec (ms : Z) : float64 := f64_div (f64_of_Z ms) (f64_of_Z 1000).

Fixpoint parts_total (total : Z) (parts : list SourcePart) : option Z :=
  match parts with
  | [] => Some total
  | p :: parts' => if DurationMS p <=? 0 then None else parts_total (wrap64 (total + DurationMS p)) parts'
  end.
Definition PartsDurationSec (parts : list SourcePart) : float64 :=
  match parts_total 0 parts with Some t => ms_to_sec t | None => f64_zero end.

(** [inl tt]: some part is neither here nor offered; [inr (entries, remote)]. *)
Definition resolvePartInputs (parts : list SourcePart) (reachable : string → bool) : () + (list ConcatPart * bool) :=
  let allLocal := forallb (λ p, reachable (FilePath p)) parts in
  let allURL := forallb (λ p, negb (String.eqb (SourceURL p) "")) parts in
  if negb allLocal && negb allURL then inl tt
  else inr ((λ p, mkPart (if negb allLocal then SourceURL p else FilePath p) (ms_to_sec (DurationMS p)) f64_zero f64_zero) <$> parts,
            negb allLocal).

(** The part the target falls in, with the combined start of it; the probe of
    the file itself is a parameter. *)
Fixpoint part_at (probe : string → float64 → float64) (start target : float64) (parts : list SourcePart) : float64 :=
  match parts with
  | [] => target
  | p :: rest =>
      let dur := ms_to_sec (DurationMS p) in
      if f64_ltb target (f64_add start dur) || match rest with [] => true | _ => false end
      then f64_add start (probe (FilePath p) (f64_sub target start))
      else part_at probe (f64_add start dur) target rest
  end.
Definition FindPreviousKeyframeInParts (probe : string → float64 → float64) (parts : list SourcePart) (target : float64) : float64 :=
  if f64_le0 target then f64_zero
  else if f64_le0 (PartsDurationSec parts) then target
  else part_at probe f64_zero target parts.

(** * The reference reader *)
Fixpoint token_go (quoted : bool) (s acc : string) : string * string :=
  match s with
  | EmptyString => (srev acc, EmptyString)
  | String c s' =>
      if quoted then
        if Ascii.eqb c quote then token_go false s' acc else token_go true s' (String c acc)
      else if Ascii.eqb c quote then token_go true s' acc
      else if Ascii.eqb c backslash then
        match s' with String d s'' => token_go false s'' (String d acc) | EmptyString => (srev acc, EmptyString) end
      else if is_space c then (srev acc, s)
      else token_go false s' (String c acc)
  end.
Definition get_token (s : string) : string := (token_go false s "").1.

Fixpoint read_files (lines : list string) : list string :=
  match lines with
  | [] => []
  | l :: lines' =>
      match CutPrefix l "file " with
      | Some rest => get_token rest :: read_files lines'
      | None => read_files lines'
      end
  end.
Definition read_concat (text : string) : list string := read_files (Split text lf).

Example format_ex : FormatFloat3 (ms_to_sec 3599999) = "3599.999" ∧ FormatFloat3 (ms_to_sec 7) = "0.007" ∧
  FormatFloat3 (f64_div (f64_of_Z 1) (f64_of_Z 16)) = "0.062".
Proof. by vm_compute. Qed.

(** * The script names exactly its entries *)
Definition no_lf (s : string) : bool := sforall (λ c, negb (Ascii.eqb c lf)) s.

Lemma sapp_cons (c : ascii) (a b : string) : String c a +:+ b = String c (a +:+ b).
Proof. done. Qed.

Lemma token_escaped (s acc : string) : token_go true (escape_quotes s +:+ String quote "") acc = (srev acc +:+ s, "").
Proof.
  revert acc. induction s as [|c s IH]; intros acc; cbn [escape_quotes].
  - cbn. by rewrite sapp_nil_r.
  - destruct (Ascii.eqb c quote) eqn:E; rewrite !sapp_cons; cbn [token_go].
    + apply Ascii.eqb_eq in E as ->. change (Ascii.eqb quote quote) with true. cbn [token_go].
      change (Ascii.eqb backslash quote) with false. change (Ascii.eqb backslash backslash) with true.
      change (Ascii.eqb quote quote) with true. cbn [token_go]. rewrite IH, srev_snoc.
      by rewrite sapp_assoc.
    + rewrite E, IH, srev_snoc. by rewrite sapp_assoc.
Qed.

Lemma get_token_quoted (s : string) : get_token (String quote (escape_quotes s +:+ String quote "")) = s.
Proof. unfold get_token. cbn [token_go]. change (Ascii.eqb quote quote) with true. by rewrite token_escaped. Qed.

Lemma escape_no_lf (s : string) : no_lf s = true → no_lf (escape_quotes s) = true.
Proof.
  unfold no_lf. induction s as [|c s IH]; [done|]. cbn [escape_quotes sforall]. intros [Hc Hs]%andb_true_iff.
  destruct (Ascii.eqb c quote); cbn [sforall]; rewrite ?Hc; by apply IH.
Qed.

Lemma no_lf_app (a b : string) : no_lf (a +:+ b) = no_lf a && no_lf b.
Proof. apply sforall_app. Qed.

Lemma Itoa_no_lf (n : Z) : 0 <= n → no_lf (Itoa n) = true.
Proof.
  intros Hn. pose proof (Itoa_digits n Hn) as H. revert H. apply sforall_impl. intros c Hc.
  unfold is_digit in Hc. apply negb_true_iff, Ascii.eqb_neq. intros ->. done.
Qed.

Lemma round_even_nonneg (num k : Z) : 0 <= num → 0 <= k → 0 <= round_even num k.
Proof.
  intros Hn Hk. unfold round_even. pose proof (Z.div_pos num (2 ^ k) Hn ltac:(lia)).
  destruct (_ <? _); [done|]. destruct (_ >? _); [lia|]. destruct (Z.even _); lia.
Qed.

Lemma FormatFloat3_no_lf (x : float64) : no_lf (FormatFloat3 x) = true.
Proof.
  unfold FormatFloat3. destruct x as [| | |[] m e]; try done. set (n := if 0 <=? e then _ else _).
  assert (0 <= n) as Hn.
  { unfold n. destruct (Z.leb_spec 0 e); [pose proof (Z.pow_nonneg 2 e); lia|]. apply round_even_nonneg; lia. }
  rewrite !no_lf_app, Itoa_no_lf by (apply Z.div_pos; lia). cbn [andb].
  pose proof (Z.mod_pos_bound n 1000 ltac:(lia)). unfold pad3.
  destruct (_ <? 10); [|destruct (_ <? 100)]; rewrite ?no_lf_app, Itoa_no_lf by lia; done.
Qed.

Lemma read_directive (name : string) (x : float64) (rest : string) :
  no_lf name = true → (∀ t, CutPrefix (name +:+ " " +:+ t) "file " = None) →
  read_concat (directive name x +:+ rest) = read_concat rest.
Proof.
  intros Hn Hp. unfold directive. destruct (f64_gt0 x); [|done].
  unfold read_concat, newline. rewrite !sapp_assoc. rewrite <- !(sapp_assoc name), <- (sapp_assoc (name +:+ " ")).
  change (String lf "" +:+ rest) with (String lf rest). rewrite Split_app.
  - cbn [read_files]. rewrite sapp_assoc. by rewrite Hp.
  - change (no_lf ((name +:+ " ") +:+ FormatFloat3 x) = true). by rewrite !no_lf_app, Hn, FormatFloat3_no_lf.
Qed.

Lemma read_file_line (input rest : string) :
  no_lf input = true → read_concat (file_line input +:+ rest) = input :: read_concat rest.
Proof.
  intros Hn. unfold read_concat, file_line.
  assert (("file " +:+ String quote (escape_quotes input +:+ String quote newline)) +:+ rest =
    ("file " +:+ String quote (escape_quotes input +:+ String quote "")) +:+ String lf rest) as ->.
  { rewrite !sapp_assoc, !sapp_cons, !sapp_assoc. done. }
  rewrite Split_app.
  - cbn [read_files]. change (CutPrefix _ "file ") with (Some (String quote (escape_quotes input +:+ String quote ""))).
    cbv iota. by rewrite get_token_quoted.
  - change (no_lf ("file " +:+ String quote (escape_quotes input +:+ String quote "")) = true).
    rewrite no_lf_app. cbn [andb]. unfold no_lf at 2. cbn [sforall]. fold (no_lf (escape_quotes input +:+ String quote "")).
    by rewrite no_lf_app, escape_no_lf.
Qed.

Lemma read_part (p : ConcatPart) (rest : string) :
  no_lf (Input p) = true → read_concat (write_part p +:+ rest) = Input p :: read_concat rest.
Proof.
  intros Hn. unfold write_part. rewrite !sapp_assoc, read_file_line by done. f_equal.
  by rewrite !read_directive.
Qed.

Lemma check_rest_entries (network b : bool) (parts : list ConcatPart) :
  check_rest network parts = Some b →
  b = network ∧ Forall (λ p, entry_ok p = true ∧ IsHTTPURL (Input p) = network) parts.
Proof.
  induction parts as [|p parts IH]; cbn; [intros [= ->]; by split|].
  destruct (entry_ok p) eqn:E; [|done]. destruct (Bool.eqb_spec (IsHTTPURL (Input p)) network) as [Eu|]; [|done].
  intros [-> H]%IH. split; [done|]. by constructor.
Qed.

Lemma entry_no_lf (p : ConcatPart) : entry_ok p = true → no_lf (Input p) = true.
Proof.
  unfold entry_ok, has_break. intros [[_ H]%negb_true_iff%orb_false_iff _]%andb_true_iff. apply negb_false_iff in H.
  revert H. apply sforall_impl. intros c Hc. unfold line_break in Hc.
  apply negb_true_iff in Hc. apply orb_false_iff in Hc as [[_ Hc]%orb_false_iff _]. by rewrite Hc.
Qed.

(** A list the server writes is read back by ffmpeg's script syntax as
    exactly the given inputs, in order, whatever quotes or spaces they hold;
    every one is an absolute path or every one an http(s) URL, and the network
    protocols are allowed only in the second case.  A list that is refused is
    written nowhere and opened, if at all, without the unsafe mode. *)
Lemma concat_list_exact (parts : list ConcatPart) :
  match checkConcatParts parts with
  | Some network =>
      (∃ text, WriteConcatList parts = Some text ∧ read_concat text = Input <$> parts) ∧
      Forall (λ p, if network then IsHTTPURL (Input p) = true else IsHTTPURL (Input p) = false ∧ isAbsLocalPath (Input p) = true) parts ∧
      ConcatInputArgs parts =
        ["-f"; "concat"; "-safe"; "0"; "-protocol_whitelist"; if network then networkProtocols else localProtocols]
  | None => WriteConcatList parts = None ∧ "-safe" ∉ ConcatInputArgs parts ∧ networkProtocols ∉ ConcatInputArgs parts
  end.
Proof.
  unfold WriteConcatList, ConcatInputArgs. destruct (checkConcatParts parts) as [network|] eqn:E.
  2: { split; [done|]. split; apply (bool_decide_unpack _); by vm_compute. }
  assert (Forall (λ p, entry_ok p = true ∧ IsHTTPURL (Input p) = network) parts) as H.
  { unfold checkConcatParts in E. destruct parts as [|p ps]; [done|]. by apply check_rest_entries in E as [-> ?]. }
  split; [|split; [|done]].
  - eexists. split; [reflexivity|]. clear E. unfold read_concat at 1, concat_header, newline. rewrite !sapp_assoc.
    change (String lf "" +:+ foldr (λ p acc, write_part p +:+ acc) "" parts) with
      (String lf (foldr (λ p acc, write_part p +:+ acc) "" parts)).
    rewrite Split_app by done. cbn [read_files]. change (CutPrefix _ "file ") with (@None string). cbv iota.
    change (read_concat ("" +:+ foldr (λ p acc, write_part p +:+ acc) "" parts) = Input <$> parts).
    induction H as [|p ps [Hp _] _ IH]; [done|]. cbn [foldr]. change ("" +:+ (write_part p +:+ foldr (λ p acc, write_part p +:+ acc) "" ps)) with
      (write_part p +:+ foldr (λ p acc, write_part p +:+ acc) "" ps).
    rewrite read_part by (by apply entry_no_lf). rewrite fmap_cons. f_equal. exact IH.
  - eapply Forall_impl; [exact H|]. intros p [Hp Hu]. cbv beta. unfold entry_ok in Hp. destruct network; [done|].
    split; [done|]. rewrite Hu in Hp. by apply andb_true_iff in Hp as [_ ?].
Qed.

Example concat_ex :
  let parts := [mkPart "/m/Bob's film cd1.mkv" (ms_to_sec 5400000) f64_zero f64_zero; mkPart "/m/' file '/etc/passwd" f64_zero f64_zero f64_zero] in
  (read_concat <$> WriteConcatList parts) = Some ["/m/Bob's film cd1.mkv"; "/m/' file '/etc/passwd"] ∧
  WriteConcatList [mkPart "concat:/a|/b" f64_zero f64_zero f64_zero] = None ∧
  WriteConcatList [mkPart "/a" f64_zero f64_zero f64_zero; mkPart "http://h/b" f64_zero f64_zero f64_zero] = None.
Proof. by vm_compute. Qed.
