(* ===== verification/GoPath.v ===== *)
(** Go's [path] package on slash-separated paths: [Clean], [Dir], [Ext],
    [Base] and [Join]. *)
From S2P Require Import Prelude.
From S2P Require Import GoStrings.
From S2P Require Import GoBytes.

Local Open Scope Z_scope.

Definition slash : ascii := chr 47.
Definition sl : string := String slash "".

(** [strings.ReplaceAll] of one byte by another. *)
Definition ReplaceByte (a b : ascii) (s : string) : string := smap (λ c, if Ascii.eqb c a then b else c) s.

Definition rooted (p : string) : bool := HasPrefix p sl.

(** The elements left after [.], empty and [..] elements are applied; [stack]
    is the elements kept so far, last first. *)
Fixpoint clean_elems (root : bool) (elems stack : list string) : list string :=
  match elems with
  | [] => reverse stack
  | e :: elems' =>
      if String.eqb e "" || String.eqb e "." then clean_elems root elems' stack
      else if String.eqb e ".." then
        match stack with
        | x :: stack' =>
            if String.eqb x ".." then clean_elems root elems' (e :: stack) else clean_elems root elems' stack'
        | [] => clean_elems root elems' (if root then [] else [e])
        end
      else clean_elems root elems' (e :: stack)
  end.

(** [path.Clean] *)
Definition Clean (p : string) : string :=
  let body := Join (clean_elems (rooted p) (Split p slash) []) sl in
  if rooted p then sl +:+ body else if String.eqb body "" then "." else body.

(** The text after the last slash, and what precedes it with the slash. *)
Definition last_elem (p : string) : string :=
  match reverse (Split p slash) with e :: _ => e | [] => "" end.
Definition dir_part (p : string) : string :=
  match reverse (Split p slash) with
  | _ :: (_ :: _) as rest => Join (reverse rest) sl +:+ sl
  | _ => ""
  end.

(** [path.Dir] *)
Definition Dir (p : string) : string := Clean (dir_part p).

(** [path.Ext]: from the last dot of the last element on. *)
Definition Ext (p : string) : string :=
  match reverse (Split (last_elem p) ".") with
  | e :: _ :: _ => String "." e
  | _ => ""
  end.

(** [path.Base] *)
Fixpoint trim_slashes_rev (s : string) : string :=
  match s with
  | String c s' => if Ascii.eqb c slash then trim_slashes_rev s' else s
  | EmptyString => EmptyString
  end.
Definition Base (p : string) : string :=
  if String.eqb p "" then "."
  else let t := srev (trim_slashes_rev (srev p)) in
       if String.eqb t "" then sl else last_elem t.

(** [path.Join] of a path and a name. *)
Definition JoinPath (a b : string) : string := Clean (a +:+ sl +:+ b).

Example clean_ex :
  Clean "/a/../../b/./c//" = "/b/c" ∧ Clean "../a/.." = ".." ∧ Clean "" = "." ∧ Clean "/.." = "/" ∧
  Dir "/m/x/f.mkv" = "/m/x" ∧ Dir "f" = "." ∧ Dir "/f" = "/" ∧ Ext "/m.d/f" = "" ∧ Ext "/a/f.tar.gz" = ".gz" ∧
  Base "/a/b/" = "b" ∧ Base "//" = "/".
Proof. by vm_compute. Qed.

(** * Absolute clean paths: [path]'s functions on them, as lists of elements. *)
(** The path of the elements, from the root. *)
Fixpoint abs (es : list string) : string := match es with [] => "" | e :: es => sl +:+ e +:+ abs es end.

Definition no_byte (b : ascii) (s : string) : bool := sforall (λ c, negb (Ascii.eqb c b)) s.
Definition no_slash : string → bool := no_byte slash.
(** An element that [Clean] keeps. *)
Definition plain (e : string) : Prop := no_slash e = true ∧ e ≠ "" ∧ e ≠ "." ∧ e ≠ "..".

Lemma abs_app a b : abs (a ++ b) = abs a +:+ abs b.
Proof. induction a as [|e a IH]; [done|]. cbn [abs app]. rewrite IH, !sapp_assoc. done. Qed.
Lemma no_byte_app b s t : no_byte b (s +:+ t) = no_byte b s && no_byte b t.
Proof. apply sforall_app. Qed.

Lemma split_sep sep s : Split (String sep s) sep = "" :: Split s sep.
Proof. unfold Split. simpl. by rewrite Ascii.eqb_refl. Qed.
Lemma Split_abs es : Forall (λ e, no_slash e = true) es → Split (abs es) slash = "" :: es.
Proof.
  destruct es as [|e es]; [done|]. cbn [abs]. intros Hes. change (Split (String slash (e +:+ abs es)) slash = "" :: e :: es).
  rewrite split_sep. f_equal.
  revert e Hes. induction es as [|e' es IH]; intros e Hes; apply Forall_cons in Hes as [He Hes]; cbn [abs].
  - rewrite sapp_nil_r. by apply Split_last.
  - change (Split (e +:+ String slash (e' +:+ abs es)) slash = e :: e' :: es).
    rewrite Split_app by done. f_equal. by apply IH.
Qed.
Lemma Join_abs es : sl +:+ Join es sl = match es with [] => sl | _ => abs es end.
Proof.
  destruct es as [|e es]; [done|]. revert e. induction es as [|e' es IH]; intros e; [simpl; by rewrite sapp_nil_r|].
  specialize (IH e'). cbn [Join abs] in *. by rewrite IH.
Qed.

Lemma clean_plain root es stack : Forall plain es → clean_elems root es stack = reverse stack ++ es.
Proof.
  revert stack. induction es as [|e es IH]; intros stack Hes; simpl; [by rewrite app_nil_r|].
  apply Forall_cons in Hes as [(_ & H1 & H2 & H3) Hes].
  rewrite (proj2 (String.eqb_neq _ _) H1), (proj2 (String.eqb_neq _ _) H2), (proj2 (String.eqb_neq _ _) H3). simpl.
  rewrite IH by done. by rewrite reverse_cons, <-app_assoc.
Qed.
Lemma plain_no_slash es : Forall plain es → Forall (λ e, no_slash e = true) es.
Proof. intros H. eapply Forall_impl; [exact H|]. by intros e [? _]. Qed.

Lemma Clean_abs es : es ≠ [] → Forall plain es → Clean (abs es) = abs es.
Proof.
  intros Hn Hes. unfold Clean. rewrite Split_abs by (by apply plain_no_slash).
  assert (rooted (abs es) = true) as -> by (by destruct es).
  change (clean_elems true ("" :: es) []) with (clean_elems true es []).
  rewrite clean_plain, Join_abs by done. by destruct es.
Qed.

Lemma JoinPath_abs ds b : Forall plain ds → plain b → JoinPath (abs ds) b = abs (ds ++ [b]).
Proof.
  intros Hd Hb. unfold JoinPath. assert (abs ds +:+ sl +:+ b = abs (ds ++ [b])) as ->.
  { rewrite abs_app. cbn [abs]. by rewrite sapp_nil_r. }
  apply Clean_abs; [by destruct ds|]. by apply Forall_app; split; [|constructor].
Qed.

Section Element.
Variables (ds : list string) (b : string).
Hypothesis Hd : ds ≠ [].
Hypothesis Hds : Forall plain ds.
Hypothesis Hb : plain b.

Lemma Split_elem : Split (abs (ds ++ [b])) slash = "" :: ds ++ [b].
Proof. apply Split_abs, Forall_app. split; [by apply plain_no_slash|]. constructor; [apply Hb|done]. Qed.
Lemma last_elem_abs : last_elem (abs (ds ++ [b])) = b.
Proof. unfold last_elem. rewrite Split_elem. change ("" :: ds ++ [b]) with (("" :: ds) ++ [b]). by rewrite reverse_snoc. Qed.
Lemma last_elem_plain : last_elem b = b.
Proof. unfold last_elem. rewrite Split_last by apply Hb. done. Qed.
Lemma Ext_abs : Ext (abs (ds ++ [b])) = Ext b.
Proof. unfold Ext. by rewrite last_elem_abs, last_elem_plain. Qed.

Lemma Dir_abs : Dir (abs (ds ++ [b])) = abs ds.
Proof.
  unfold Dir, dir_part. rewrite Split_elem. change ("" :: ds ++ [b]) with (("" :: ds) ++ [b]). rewrite reverse_snoc.
  assert (∃ x l, reverse ("" :: ds) = x :: l) as (x & l & E).
  { destruct (reverse ("" :: ds)) as [|x l] eqn:E; [|by exists x, l]. apply (f_equal length) in E.
    rewrite length_reverse in E. done. }
  rewrite E, <-E, reverse_involutive.
  assert (Join ("" :: ds) sl = abs ds) as ->.
  { destruct ds as [|d l']; [done|]. cbn [Join]. apply (Join_abs (d :: l')). }
  unfold Clean. assert (rooted (abs ds +:+ sl) = true) as -> by (by destruct ds).
  assert (Split (abs ds +:+ sl) slash = "" :: ds ++ [""]) as ->.
  { assert (abs ds +:+ sl = abs (ds ++ [""])) as -> by (by rewrite abs_app).
    apply Split_abs, Forall_app. split; [by apply plain_no_slash|]. by constructor. }
  change (clean_elems true ("" :: ds ++ [""]) []) with (clean_elems true (ds ++ [""]) []).
  assert (∀ l stack, Forall plain l → clean_elems true (l ++ [""]) stack = reverse stack ++ l) as Hc.
  { clear. induction l as [|e l IH]; intros stack Hl; simpl; [by rewrite app_nil_r|].
    apply Forall_cons in Hl as [(_ & H1 & H2 & H3) Hl].
    rewrite (proj2 (String.eqb_neq _ _) H1), (proj2 (String.eqb_neq _ _) H2), (proj2 (String.eqb_neq _ _) H3). simpl.
    rewrite IH by done. by rewrite reverse_cons, <-app_assoc. }
  rewrite Hc, Join_abs by done. by destruct ds.
Qed.

Lemma Base_abs : Base (abs (ds ++ [b])) = b.
Proof.
  unfold Base.
  assert (abs (ds ++ [b]) ≠ "") as Hn by (by destruct ds).
  rewrite (proj2 (String.eqb_neq _ _) Hn).
  assert (trim_slashes_rev (srev (abs (ds ++ [b]))) = srev (abs (ds ++ [b]))) as ->.
  { rewrite abs_app. simpl. rewrite sapp_nil_r, srev_app.
    assert (no_slash (srev b) = true) as Hs by (unfold no_slash, no_byte; rewrite sforall_srev; apply Hb).
    change (String slash b) with (sl +:+ b). rewrite srev_app, sapp_assoc.
    destruct (srev b) as [|c r] eqn:E; [|simpl in *; apply andb_true_iff in Hs as [Hc _]; by rewrite (proj1 (negb_true_iff _) Hc)].
    destruct Hb as (_ & Hne & _). exfalso. apply Hne. by rewrite <-(srev_srev b), E. }
  rewrite srev_srev, (proj2 (String.eqb_neq _ _) Hn). apply last_elem_abs.
Qed.
End Element.

Lemma abs_inj es es' :
  Forall (λ e, no_slash e = true) es → Forall (λ e, no_slash e = true) es' → abs es = abs es' → es = es'.
Proof. intros H1 H2 E. assert ("" :: es = "" :: es') as [= ->]; [|done]. by rewrite <-!Split_abs, E. Qed.

(** ** Extensions *)
Lemma Split_snoc sep a b : no_byte sep b = true → ∃ l, l ≠ [] ∧ Split (a +:+ String sep b) sep = l ++ [b].
Proof.
  intros Hb. unfold Split. generalize "" as cur. induction a as [|c a IH]; intros cur; simpl.
  - rewrite Ascii.eqb_refl. exists [srev cur]. split; [done|]. simpl. f_equal. by apply Split_last.
  - destruct (Ascii.eqb c sep).
    + destruct (IH "") as (l & Hl & ->). by exists (srev cur :: l).
    + destruct (IH (String c cur)) as (l & Hl & ->). by exists l.
Qed.
Lemma Ext_app s e : no_slash s = true → no_slash e = true → no_byte "." e = true → Ext (s +:+ String "." e) = String "." e.
Proof.
  intros Hs He Hd. unfold Ext. 
  assert (last_elem (s +:+ String "." e) = s +:+ String "." e) as ->.
  { unfold last_elem. rewrite Split_last; [done|]. change (no_slash (s +:+ String "." e) = true).
    unfold no_slash in *. rewrite no_byte_app, Hs. simpl. done. }
  destruct (Split_snoc "." s e Hd) as (l & Hl & ->). rewrite reverse_snoc.
  destruct (reverse l) as [|x l'] eqn:E; [|done]. exfalso. apply Hl.
  rewrite <-(reverse_involutive l), E. done.
Qed.

Lemma Split_go_unsplit sep s cur : ∃ l x, split_go sep s cur = l ++ [x] ∧
  srev cur +:+ s = match l with [] => x | _ => Join l (String sep "") +:+ String sep x end.
Proof.
  revert cur. induction s as [|c s IH]; intros cur; simpl.
  - exists [], (srev cur). split; [done|]. by rewrite sapp_nil_r.
  - destruct (Ascii.eqb_spec c sep) as [->|].
    + destruct (IH "") as (l & x & -> & E). exists (srev cur :: l), x. split; [done|]. change (s = match l with [] => x | _ => Join l (String sep "") +:+ String sep x end) in E.
      rewrite E. destruct l as [|y l]; [done|]. cbn [Join]. rewrite !sapp_assoc. done.
    + destruct (IH (String c cur)) as (l & x & -> & E). exists l, x. split; [done|].
      rewrite <-E, srev_snoc, sapp_assoc. done.
Qed.
(** A name is what precedes its extension and the extension. *)
Lemma Ext_suffix b : no_slash b = true → ∃ x, b = x +:+ Ext b.
Proof.
  intros Hb. unfold Ext. assert (last_elem b = b) as -> by (unfold last_elem; by rewrite Split_last).
  destruct (Split_go_unsplit "." b "") as (l & x & E & Eb). unfold Split. rewrite E, reverse_snoc. simpl in Eb.
  destruct l as [|y l]; [exists b; simpl; by rewrite sapp_nil_r|].
  destruct (reverse (y :: l)) as [|z l'] eqn:Er.
  - apply (f_equal length) in Er. by rewrite length_reverse in Er.
  - by exists (Join (y :: l) ".").
Qed.
