(* ===== verification/MovieStack.v ===== *)
(** Stacked (multi-part) movies: [internal/domain/media/stack.go].

    Of a file, the columns the code reads.  Ids are the database's keys: the
    files handed in have distinct ones. *)
From S2P Require Import Prelude.
From S2P Require Import GoStrings.
From S2P Require Import GoBytes.
From S2P Require Import GoPath.

Local Open Scope Z_scope.

Record File := mkFile {
  ID : string;
  MediaItemID : string;
  FilePath : string;
  Edition : ptr string;
  PartIndex : ptr Z;
  DurationMS : ptr Z
}.
#[global] Instance File_eq_dec : EqDecision File.
Proof. solve_decision. Defined.

(** The grouping key's four parts, which the code joins with NUL bytes. *)
Abbreviation key := (string * string * string * string)%type.

Definition stackKey (f : File) : option key :=
  match PartIndex f with
  | None => None
  | Some n =>
      if n <=? 0 then None
      else
        let p := ReplaceByte (chr 92) slash (FilePath f) in
        let edition := match Edition f with Some e => ToLower (TrimSpace e) | None => "" end in
        Some (MediaItemID f, Dir p, edition, ToLower (Ext p))
  end.

Definition part (f : File) : Z := default 0 (PartIndex f).

(** The loop of [Stack]: the files of key [k], [None] when two claim one part. *)
Fixpoint collect (k : key) (files : list File) (seen : list Z) (parts : list File) : option (list File) :=
  match files with
  | [] => Some parts
  | g :: files' =>
      if bool_decide (stackKey g = Some k) then
        if mem (part g) seen then None else collect k files' (part g :: seen) (parts ++ [g])
      else collect k files' seen parts
  end.

Definition part_le (a b : File) : Prop := part a <= part b.
#[global] Instance part_le_dec : RelDecision part_le.
Proof. intros a b. unfold part_le. apply _. Defined.

(** [None] is nil. *)
Definition Stack (files : list File) (f : File) : option (list File) :=
  match stackKey f with
  | None => None
  | Some k =>
      match collect k files [] [] with
      | None => None
      | Some parts =>
          if len parts <? 2 then None
          else if existsb (λ p, String.eqb (ID p) (ID f)) parts then Some (merge_sort part_le parts)
          else None
      end
  end.

Definition IsStacked (files : list File) (f : File) : bool := match Stack files f with Some _ => true | None => false end.

(** [byID]: the last index of an id. *)
Fixpoint index_of (id : string) (files : list File) (i : nat) (found : option nat) : option nat :=
  match files with
  | [] => found
  | f :: files' => index_of id files' (S i) (if String.eqb (ID f) id then Some i else found)
  end.
Definition byID (files : list File) (id : string) : nat := default 0%nat (index_of id files 0 None).

(** The parts of a stack that are not yet placed. *)
Fixpoint place (files parts : list File) (out : list File) (placed : list nat) : list File * list nat :=
  match parts with
  | [] => (out, placed)
  | p :: parts' =>
      let j := byID files (ID p) in
      if mem j placed then place files parts' out placed else place files parts' (out ++ [p]) (j :: placed)
  end.

Fixpoint order_loop (files todo : list File) (i : nat) (out : list File) (placed : list nat) : list File :=
  match todo with
  | [] => out
  | f :: todo' =>
      if mem i placed then order_loop files todo' (S i) out placed
      else match Stack files f with
           | None => order_loop files todo' (S i) (out ++ [f]) (i :: placed)
           | Some parts => let '(out', placed') := place files parts out placed in order_loop files todo' (S i) out' placed'
           end
  end.

Definition OrderFiles (files : list File) : list File :=
  if len files <? 2 then files else order_loop files files 0 [] [].

Fixpoint duration_sum (total : Z) (parts : list File) : option Z :=
  match parts with
  | [] => Some total
  | p :: parts' =>
      match DurationMS p with
      | Some d => if d <=? 0 then None else duration_sum (wrap64 (total + d)) parts'
      | None => None
      end
  end.
Definition StackDurationMS (parts : list File) : option Z := match parts with [] => None | _ => duration_sum 0 parts end.

(** [samePtr] *)
Definition samePtr {A} `{EqDecision A} (a b : ptr A) : bool :=
  match a, b with
  | Some x, Some y => bool_decide (x = y)
  | None, None => true
  | _, _ => false
  end.

(** * The reference: a stack at its first file, everything else in place *)
Definition group (files : list File) (f : File) : list File := default [f] (Stack files f).

(** [f] is the first of [files] in its group. *)
Definition leads (files : list File) (f : File) : bool :=
  match find_first (λ g, bool_decide (g ∈ group files f)) files with
  | Some g => bool_decide (g = f)
  | None => false
  end.

Definition order_reference (files : list File) : list File :=
  f ← files; if leads files f then group files f else [].

Definition ids_ok (files : list File) : Prop := NoDup (ID <$> files).

(** * Stacks *)
Lemma ids_ok_inj (files : list File) (f g : File) : ids_ok files → f ∈ files → g ∈ files → ID f = ID g → f = g.
Proof.
  intros Hok [i Hi]%list_elem_of_lookup_1 [j Hj]%list_elem_of_lookup_1 E.
  assert (i = j) as ->; [|congruence].
  apply (NoDup_lookup (ID <$> files) i j (ID f)); [done|by rewrite list_lookup_fmap, Hi|].
  rewrite list_lookup_fmap, Hj. cbn. congruence.
Qed.

Lemma collect_spec (k : key) (files : list File) (seen : list Z) (parts out : list File) :
  collect k files seen parts = Some out →
  out = parts ++ List.filter (λ g, bool_decide (stackKey g = Some k)) files ∧
  (NoDup (part <$> parts) → (∀ z, z ∈ part <$> parts → z ∈ seen) → NoDup (part <$> out)).
Proof.
  revert seen parts. induction files as [|g files IH]; intros seen parts; cbn [collect List.filter].
  { intros [= <-]. split; [by rewrite app_nil_r|done]. }
  destruct (bool_decide (stackKey g = Some k)); [|by apply IH].
  destruct (mem (part g) seen) eqn:Em; [done|]. apply mem_false in Em. intros [E Hnd]%IH. split.
  { by rewrite E, <- (assoc_L (++)). }
  intros Hp Hs. apply Hnd; rewrite fmap_app.
  - apply NoDup_app. split; [done|]. split; [|apply NoDup_singleton].
    intros x Hx ->%list_elem_of_singleton. by apply Em, Hs.
  - intros z [Hz|Hz]%elem_of_app; [right; by apply Hs|]. apply list_elem_of_singleton in Hz as ->. left.
Qed.

(** A stack holds exactly the files of its key, each part once, in part
    order. *)
Lemma Stack_spec (files : list File) (f : File) (parts : list File) :
  ids_ok files → f ∈ files → Stack files f = Some parts →
  f ∈ parts ∧ (∀ g, g ∈ parts ↔ g ∈ files ∧ stackKey g = stackKey f) ∧
  StronglySorted (λ a b, part a < part b) parts ∧ (2 <= len parts).
Proof.
  intros Hok Hf. unfold Stack. destruct (stackKey f) as [k|] eqn:Ek; [|done].
  destruct (collect k files [] []) as [ps|] eqn:Ec; [|done]. apply collect_spec in Ec as [E Hnd].
  specialize (Hnd ltac:(constructor) ltac:(by intros z []%not_elem_of_nil)). rewrite app_nil_l in E.
  destruct (Z.ltb_spec (len ps) 2); [done|]. destruct (existsb _ ps) eqn:Ex; [|done]. intros [= <-].
  assert (∀ g, g ∈ merge_sort part_le ps ↔ g ∈ files ∧ stackKey g = Some k) as Hin.
  { intros g. rewrite merge_sort_Permutation, E, elem_of_List_filter, bool_decide_eq_true. done. }
  split; [by apply Hin|]. split; [done|]. split; [|unfold len in *; by rewrite merge_sort_Permutation].
  assert (StronglySorted part_le (merge_sort part_le ps)) as Hs.
  { apply StronglySorted_merge_sort; [intros a b c; unfold part_le; lia|intros a b; unfold part_le; lia]. }
  assert (NoDup (part <$> merge_sort part_le ps)) as Hnd' by (by rewrite merge_sort_Permutation).
  revert Hs Hnd'. generalize (merge_sort part_le ps) as l. clear. induction l as [|x l IH]; [constructor|].
  rewrite fmap_cons. intros [Hs Hx]%StronglySorted_inv [Hn Hnd]%NoDup_cons. constructor; [by apply IH|].
  rewrite Forall_forall in *. intros y Hy. specialize (Hx y Hy). unfold part_le in Hx.
  assert (part x ≠ part y); [|lia]. intros E. apply Hn. rewrite E. by apply list_elem_of_fmap_2.
Qed.

Lemma Stack_member (files : list File) (f g : File) (parts : list File) :
  Stack files f = Some parts → g ∈ parts → Stack files g = Some parts.
Proof.
  unfold Stack. destruct (stackKey f) as [k|] eqn:Ek; [|done].
  destruct (collect k files [] []) as [ps|] eqn:Ec; [|done]. pose proof (collect_spec _ _ _ _ _ Ec) as [E _].
  destruct (Z.ltb_spec (len ps) 2); [done|]. destruct (existsb _ ps); [|done]. intros [= <-].
  intros Hg. rewrite merge_sort_Permutation in Hg. pose proof Hg as Hg'. rewrite E, app_nil_l in Hg'.
  apply elem_of_List_filter in Hg' as [_ Hk%bool_decide_eq_true]. rewrite Hk, Ec.
  destruct (Z.ltb_spec (len ps) 2); [lia|].
  assert (existsb (λ p, String.eqb (ID p) (ID g)) ps = true) as ->; [|done].
  apply existsb_exists_elem. exists g. by rewrite String.eqb_refl.
Qed.

Section Order.
Context (files : list File) (Hok : ids_ok files).

Lemma group_self (f : File) : f ∈ files → f ∈ group files f.
Proof using Hok.
  intros Hf. unfold group. destruct (Stack files f) as [parts|] eqn:E; [|left].
  by apply (Stack_spec files f parts Hok Hf E).
Qed.

Lemma group_member (f g : File) : f ∈ files → g ∈ group files f → g ∈ files ∧ group files g = group files f.
Proof using Hok.
  intros Hf. unfold group. destruct (Stack files f) as [parts|] eqn:E; cbn [default from_option id].
  - intros Hg. destruct (Stack_spec files f parts Hok Hf E) as (_ & Hin & _). split; [by apply Hin|].
    by rewrite (Stack_member files f g parts E Hg).
  - intros ->%list_elem_of_singleton. by rewrite E.
Qed.

Lemma group_nodup (f : File) : f ∈ files → NoDup (group files f).
Proof using Hok.
  intros Hf. unfold group. destruct (Stack files f) as [parts|] eqn:E; [|apply NoDup_singleton].
  destruct (Stack_spec files f parts Hok Hf E) as (_ & _ & Hs & _). cbn. clear -Hs.
  induction Hs as [|x l Hs IH Hx]; [constructor|]. constructor; [|done]. intros Hin.
  rewrite Forall_forall in Hx. specialize (Hx x Hin). lia.
Qed.

Lemma index_of_app (id : string) (l : list File) (i : nat) (found : option nat) :
  id ∉ ID <$> l → index_of id l i found = found.
Proof using Type.
  revert i found. induction l as [|x l IH]; intros i found Hn; [done|]. rewrite fmap_cons in Hn.
  apply not_elem_of_cons in Hn as [Hx Hn]. cbn [index_of]. destruct (String.eqb_spec (ID x) id); [congruence|]. by apply IH.
Qed.

Lemma byID_index (j : nat) (f : File) : files !! j = Some f → byID files (ID f) = j.
Proof using Hok.
  intros Hj. unfold byID. assert (∀ l i found k, NoDup (ID <$> l) → l !! k = Some f →
    index_of (ID f) l i found = Some (i + k)%nat) as H; [|by rewrite (H files 0%nat None j)].
  induction l as [|x l IH]; intros i found k Hnd Hk; [done|]. rewrite fmap_cons in Hnd. apply NoDup_cons in Hnd as [Hx Hnd].
  cbn [index_of]. destruct k as [|k].
  - injection Hk as ->. rewrite String.eqb_refl, index_of_app by done. f_equal. lia.
  - rewrite (IH _ _ k Hnd Hk). f_equal. lia.
Qed.

(** The placed indices are those of the files of [S]. *)
Definition placed_are (placed : list nat) (S : list File) : Prop :=
  ∀ j f, files !! j = Some f → j ∈ placed ↔ f ∈ S.

Lemma place_all (parts out : list File) (placed : list nat) (S : list File) :
  placed_are placed S → NoDup parts → (∀ p, p ∈ parts → p ∈ files ∧ p ∉ S) →
  ∃ placed', place files parts out placed = (out ++ parts, placed') ∧ placed_are placed' (S ++ parts).
Proof using Hok.
  revert out placed S. induction parts as [|p parts IH]; intros out placed S Hp Hnd Hin; cbn [place].
  { exists placed. by rewrite !app_nil_r. }
  apply NoDup_cons in Hnd as [Hpn Hnd]. destruct (Hin p (list_elem_of_here _ _)) as [Hpf HpS].
  apply list_elem_of_lookup_1 in Hpf as [k Hk]. rewrite (byID_index k p Hk).
  assert (mem k placed = false) as ->.
  { apply mem_false. intros Hkp. apply HpS. by apply (Hp k p Hk). }
  destruct (IH (out ++ [p]) (k :: placed) (S ++ [p])) as (placed' & E & Hp'); [| done| |].
  - intros j f Hj. rewrite elem_of_cons, elem_of_app, list_elem_of_singleton, (Hp j f Hj).
    split; [intros [->|?]; [right; congruence|by left]|intros [?| ->]; [by right|left]].
    apply (NoDup_lookup (ID <$> files) j k (ID p)); [done|by rewrite list_lookup_fmap, Hj|by rewrite list_lookup_fmap, Hk].
  - intros q Hq. destruct (Hin q (list_elem_of_further _ _ _ Hq)). split; [done|].
    rewrite elem_of_app, list_elem_of_singleton. intros [?| ->]; done.
  - exists placed'. rewrite E, <- !(assoc_L (++)) in *. done.
Qed.

(** The files whose group some file of [pre] belongs to. *)
Definition groups_of (pre : list File) : list File := pre ≫= group files.

Lemma leads_iff (pre post : list File) (f : File) :
  files = pre ++ f :: post → leads files f = true ↔ f ∉ groups_of pre.
Proof using Hok.
  intros E. assert (f ∈ files) as Hf by (rewrite E; apply elem_of_app; right; left).
  unfold leads.
  replace (find_first _ files) with (find_first (λ g, bool_decide (g ∈ group files f)) (pre ++ f :: post)) by (by rewrite <- E).
  unfold groups_of. rewrite list_elem_of_bind.
  assert (∀ g, g ∈ pre → (g ∈ group files f ↔ f ∈ group files g)) as Hsym.
  { intros g Hg. assert (g ∈ files) as Hgf by (rewrite E; apply elem_of_app; by left). split; intros H.
    - destruct (group_member f g Hf H) as [_ ->]. by apply group_self.
    - destruct (group_member g f Hgf H) as [_ ->]. by apply group_self. }
  assert (f ∉ pre) as Hnpre.
  { pose proof Hok as Hnd. unfold ids_ok in Hnd. rewrite E, fmap_app, fmap_cons in Hnd.
    apply NoDup_app in Hnd. destruct Hnd as (_ & Hd & _). intros Hin. apply (Hd (ID f)); [by apply list_elem_of_fmap_2|left]. }
  clear E. induction pre as [|g pre IH]; cbn [app find_first].
  - rewrite (bool_decide_eq_true_2 (f ∈ group files f)) by (by apply group_self).
    rewrite bool_decide_eq_true_2 by done. split; [|done]. intros _ (x & _ & Hx). by apply not_elem_of_nil in Hx.
  - apply not_elem_of_cons in Hnpre as [Hne Hnpre]. specialize (IH ltac:(intros; apply Hsym; by right) Hnpre).
    destruct (bool_decide_reflect (g ∈ group files f)) as [Hg|Hg].
    + rewrite bool_decide_eq_false_2 by congruence. split; [done|]. intros H. exfalso. apply H. exists g.
      split; [by apply Hsym; [left|]|left].
    + rewrite IH. split; intros H (x & Hx & Hin); apply H.
      * apply elem_of_cons in Hin as [->|Hin]; [|by exists x]. exfalso. apply Hg. apply Hsym; [left|done].
      * exists x. split; [done|by right].
Qed.


(** A prefix's share of the reference order. *)
Definition order_of (pre : list File) : list File := pre ≫= λ f, if leads files f then group files f else [].

Lemma group_disjoint (pre post : list File) (f x : File) :
  files = pre ++ f :: post → leads files f = true → x ∈ group files f → x ∉ groups_of pre.
Proof using Hok.
  intros E Hl Hx Hin. apply (proj1 (leads_iff pre post f E) Hl).
  assert (f ∈ files) as Hf by (rewrite E; apply elem_of_app; right; left).
  unfold groups_of in *. apply list_elem_of_bind in Hin as (g & Hxg & Hg). apply list_elem_of_bind. exists g.
  split; [|done]. assert (g ∈ files) as Hgf by (rewrite E; apply elem_of_app; by left).
  destruct (group_member f x Hf Hx) as [_ E1]. destruct (group_member g x Hgf Hxg) as [_ E2].
  rewrite <- E2, E1. by apply group_self.
Qed.

Lemma group_absorbed (pre post : list File) (f x : File) :
  files = pre ++ f :: post → leads files f = false → x ∈ group files f → x ∈ groups_of pre.
Proof using Hok.
  intros E Hl Hx. assert (f ∈ groups_of pre) as Hin.
  { destruct (decide (f ∈ groups_of pre)) as [|Hn]; [done|]. apply (leads_iff pre post f E) in Hn. congruence. }
  unfold groups_of in *. apply list_elem_of_bind in Hin as (g & Hfg & Hg). apply list_elem_of_bind. exists g.
  split; [|done]. assert (g ∈ files) as Hgf by (rewrite E; apply elem_of_app; by left).
  destruct (group_member g f Hgf Hfg) as [_ <-]. done.
Qed.

Lemma order_of_spec (pre post : list File) :
  files = pre ++ post → NoDup (order_of pre) ∧ ∀ x, x ∈ order_of pre ↔ x ∈ groups_of pre.
Proof using Hok.
  revert post. induction pre as [|f pre IH] using rev_ind; intros post E; [split; [constructor|done]|].
  rewrite <- (assoc_L (++)) in E. destruct (IH _ E) as [Hnd Hin].
  assert (f ∈ files) as Hf by (rewrite E; apply elem_of_app; right; left).
  unfold order_of, groups_of in *. rewrite !bind_app. cbn [mbind list_bind]. rewrite !app_nil_r.
  destruct (leads files f) eqn:El.
  - split; [|intros x; rewrite !elem_of_app; by rewrite Hin]. apply NoDup_app. split; [done|]. split; [|by apply group_nodup].
    intros x Hx Hg. by apply (group_disjoint pre post f x E El Hg), Hin.
  - rewrite app_nil_r. split; [done|]. intros x. rewrite elem_of_app, Hin. split; [by left|].
    intros [?|Hg]; [done|]. by apply (group_absorbed pre post f x).
Qed.

Lemma order_loop_reference (todo pre out : list File) (placed : list nat) :
  files = pre ++ todo → out = order_of pre → placed_are placed (groups_of pre) →
  order_loop files todo (length pre) out placed = order_of files.
Proof using Hok.
  revert pre out placed. induction todo as [|f todo IH]; intros pre out placed E Eo Hp; cbn [order_loop].
  { rewrite Eo, E at 1. by rewrite app_nil_r. }
  assert (files !! length pre = Some f) as Hf by (rewrite E; apply list_lookup_middle; done).
  assert (files = (pre ++ [f]) ++ todo) as E' by (by rewrite E, <- (assoc_L (++))).
  assert (length (pre ++ [f]) = S (length pre)) as El by (rewrite length_app; cbn; lia).
  assert (groups_of (pre ++ [f]) = groups_of pre ++ group files f) as Eg.
  { unfold groups_of. rewrite bind_app. cbn [mbind list_bind]. by rewrite app_nil_r. }
  assert (order_of (pre ++ [f]) = out ++ (if leads files f then group files f else [])) as Eo'.
  { unfold order_of in *. rewrite bind_app, Eo. cbn [mbind list_bind]. by rewrite app_nil_r. }
  destruct (mem (length pre) placed) eqn:Em.
  - apply mem_spec in Em. apply (Hp _ f Hf) in Em. destruct (leads files f) eqn:Elead.
    { by apply (leads_iff pre todo f E) in Elead. }
    rewrite <- El. apply (IH (pre ++ [f]) out placed); [done|by rewrite Eo', app_nil_r|].
    intros j x Hj. rewrite (Hp j x Hj), Eg, elem_of_app. split; [by left|]. intros [?|Hx]; [done|].
    by apply (group_absorbed pre todo f x).
  - apply mem_false in Em. assert (leads files f = true) as Elead.
    { apply (leads_iff pre todo f E). intros Hin. apply Em. by apply (Hp _ f Hf). }
    rewrite Elead in Eo'. assert (f ∈ files) as Hin by (by eapply list_elem_of_lookup_2).
    destruct (Stack files f) as [parts|] eqn:Es.
    + assert (group files f = parts) as Egr by (unfold group; by rewrite Es).
      destruct (place_all parts out placed (groups_of pre)) as (placed' & -> & Hp'); [done|rewrite <- Egr; by apply group_nodup| |].
      * intros p Hpp. rewrite <- Egr in Hpp. split; [by apply (group_member f p Hin Hpp)|].
        by apply (group_disjoint pre todo f p E Elead).
      * rewrite <- El. apply (IH (pre ++ [f])); [done|by rewrite Eo', Egr|]. by rewrite Eg, Egr.
    + assert (group files f = [f]) as Egr by (unfold group; by rewrite Es).
      rewrite <- El. apply (IH (pre ++ [f])); [done|by rewrite Eo', Egr|]. rewrite Eg, Egr.
      intros j x Hj. rewrite elem_of_cons, elem_of_app, list_elem_of_singleton, (Hp j x Hj).
      split; [intros [->|?]; [right; congruence|by left]|intros [?| ->]; [by right|left]].
      apply (NoDup_lookup (ID <$> files) j (length pre) (ID f)); [done|by rewrite list_lookup_fmap, Hj|by rewrite list_lookup_fmap, Hf].
Qed.

Lemma order_of_files (x : File) : x ∈ groups_of files ↔ x ∈ files.
Proof using Hok.
  unfold groups_of. rewrite list_elem_of_bind. split.
  - intros (g & Hx & Hg). by apply (group_member g x Hg Hx).
  - intros Hx. exists x. split; [by apply group_self|done].
Qed.

(** The first file of a group leads it. *)
Lemma leader (f : File) : f ∈ files → ∃ g, g ∈ files ∧ leads files g = true ∧ group files g = group files f.
Proof using Hok.
  intros Hf. destruct (find_first (λ g, bool_decide (g ∈ group files f)) files) as [g|] eqn:E.
  - pose proof E as E'. apply find_first_Some in E' as [Hg Hm%bool_decide_eq_true]. exists g. split; [done|].
    destruct (group_member f g Hf Hm) as [_ Eg]. split; [|done]. unfold leads. rewrite Eg, E. by rewrite bool_decide_eq_true_2.
  - rewrite find_first_None in E. specialize (E f Hf). apply bool_decide_eq_false in E. by destruct (E (group_self f Hf)).
Qed.
End Order.

(** Listing a movie's files puts each stack's parts together, in part
    order, where its first file was, and leaves everything else in place: the
    loop computes the reference order, which has every file exactly once. *)
Lemma order_files_reference (files : list File) :
  ids_ok files →
  OrderFiles files = order_reference files ∧ OrderFiles files ≡ₚ files ∧
  ∀ f parts, f ∈ files → Stack files f = Some parts → ∃ l1 l2, OrderFiles files = l1 ++ parts ++ l2.
Proof.
  intros Hok. assert (OrderFiles files = order_of files files) as E.
  { unfold OrderFiles. destruct (Z.ltb_spec (len files) 2) as [Hl|].
    - destruct files as [|f [|g l]] eqn:Ef; [done| |unfold len in Hl; cbn in Hl; lia].
      destruct (leader [f] Hok f (list_elem_of_here _ _)) as (g & ->%list_elem_of_singleton & Hlead & _).
      unfold order_of. cbn [mbind list_bind]. rewrite Hlead, app_nil_r. unfold group.
      destruct (Stack [f] f) as [parts|] eqn:Es; [|done]. exfalso.
      destruct (Stack_spec [f] f parts Hok (list_elem_of_here _ _) Es) as (_ & Hin & Hs & H2).
      destruct parts as [|a [|b parts]]; [done|done|]. apply StronglySorted_inv in Hs as [_ Hs]. apply Forall_cons in Hs as [Hs _].
      assert (a = f) as -> by (by apply list_elem_of_singleton, Hin; left).
      assert (b = f) as -> by (by apply list_elem_of_singleton, Hin; right; left). lia.
    - apply (order_loop_reference files Hok files [] [] []); [done|done|]. intros j f _. split; intros Hn; by apply not_elem_of_nil in Hn. }
  destruct (order_of_spec files Hok files [] ltac:(by rewrite app_nil_r)) as [Hnd Hin]. split; [done|]. split.
  - rewrite E. apply NoDup_Permutation; [done|by eapply NoDup_fmap_1|]. intros x. rewrite Hin. by apply order_of_files.
  - intros f parts Hf Hs. destruct (leader files Hok f Hf) as (g & Hg & Hlead & Eg). rewrite E.
    apply list_elem_of_split in Hg as (l1 & l2 & El). exists (order_of files l1), (order_of files l2).
    unfold order_of. transitivity ((l1 ++ g :: l2) ≫= λ f, if leads files f then group files f else []); [by rewrite <- El|].
    rewrite bind_app. f_equal. cbn [mbind list_bind]. f_equal.
    rewrite Hlead, Eg. unfold group. by rewrite Hs.
Qed.

(** A movie in two parts, listed best first, beside a single-file version. *)
Definition file_ex (id path : string) (p : ptr Z) : File := mkFile id "m" path None p (Some 3000).
Definition movie_ex : list File :=
  [file_ex "4k" "/m/F (2001) - 4k.mkv" None; file_ex "b" "/m/F cd2.mkv" (Some 2); file_ex "x" "/n/F cd1.mkv" (Some 1);
   file_ex "a" "\m\F cd1.MKV" (Some 1)].

Lemma order_files_reference_witness :
  OrderFiles movie_ex ≡ₚ movie_ex ∧ ID <$> OrderFiles movie_ex = ["4k"; "a"; "b"; "x"].
Proof.
  split; [|by vm_compute]. refine (proj1 (proj2 (order_files_reference movie_ex _))).
  apply (bool_decide_unpack _). by vm_compute.
Defined.
