(* ===== verification/PortMap.v ===== *)
(** Remote access: the router's port mapping of [internal/portmap]
    ([portmap.go], [listen.go]) and the PCP messages of [pcp.go].

    Addresses are those of SafeHTTP.  The router answers through the events of
    a step: what discovery finds, what [AddMapping] grants, whether a delete
    succeeds.  The ports the router holds open are kept beside the mapper: a
    granted request opens its port until the lease ends, or for good when the
    lease is permanent, and a successful delete closes it.  [net.ParseIP] is a
    parameter.  Instants and durations are nanoseconds. *)
From stdpp Require Import gmap.
From S2P Require Import Prelude.
From S2P Require Import GoStrings.
From S2P Require Import GoBytes.
From S2P Require Import SafeHTTP.

Local Open Scope Z_scope.

Definition Second : Z := 1000000000.
Definition Minute : Z := 60 * Second.

(** * The listen address *)

(** Around the last colon. *)
Fixpoint cut_last_colon_rev (s acc : string) : option (string * string) :=
  match s with
  | EmptyString => None
  | String c s' => if Ascii.eqb c ":" then Some (srev s', acc) else cut_last_colon_rev s' (String c acc)
  end.

Definition no_byte (c : ascii) (s : string) : bool := sforall (λ x, negb (Ascii.eqb x c)) s.
Definition open_bracket : ascii := chr 91.
Definition close_bracket : ascii := chr 93.

(** [net.SplitHostPort] *)
Definition SplitHostPort (hostport : string) : option (string * string) :=
  match cut_last_colon_rev (srev hostport) "" with
  | None => None
  | Some (before, port) =>
      match before with
      | String c rest =>
          if Ascii.eqb c open_bracket then
            match Cut rest close_bracket with
            | Some (host, "") =>
                if no_byte open_bracket host && no_byte open_bracket port && no_byte close_bracket port then Some (host, port) else None
            | _ => None
            end
          else if no_byte ":" before && no_byte open_bracket hostport && no_byte close_bracket hostport then Some (before, port) else None
      | EmptyString => if no_byte open_bracket port && no_byte close_bracket port then Some ("", port) else None
      end
  end.

Definition ParseListenAddr (addr : string) : option (string * Z) :=
  match SplitHostPort (TrimSpace addr) with
  | None => None
  | Some (h, p) =>
      match Atoi p with
      | None => None
      | Some n => if (n <=? 0) || (n >? 65535) then None else Some (h, n)
      end
  end.

Example parse_listen_ex :
  ParseListenAddr ":7070" = Some ("", 7070) ∧ ParseListenAddr " [::]:7070 " = Some ("::", 7070) ∧
  ParseListenAddr "192.168.1.5:8443" = Some ("192.168.1.5", 8443) ∧ ParseListenAddr "::1:80" = None ∧
  ParseListenAddr "h:70000" = None ∧ ParseListenAddr "h" = None.
Proof. by vm_compute. Qed.

(** * Mappings *)
Record Mapping := mkMapping {
  Protocol : string; InternalIP : IP; InternalPort : Z; ExternalPort : Z; Lease : Z
}.
Record Granted := mkGranted { g_port : Z; g_lease : Z }.
Record Gateway := mkGateway { Method : string; LocalIP : option IP }.
Record Settings := mkSettings { s_Enabled : bool; s_ExternalPort : Z }.
#[global] Instance Settings_eq_dec : EqDecision Settings.
Proof. solve_decision. Defined.

Inductive State := StateDisabled | StateLoopbackOnly | StateStandby | StateNoGateway | StateMapped | StateError.
#[global] Instance State_eq_dec : EqDecision State.
Proof. solve_decision. Defined.

Record Config := mkConfig { ListenAddr : string; CfgLease : Z; CheckEvery : Z }.

Definition permanentReassert : Z := 30 * Minute.
Definition minBackoff : Z := Minute.
Definition maxBackoff : Z := 15 * Minute.

(** The fields of [Mapper] the Run goroutine owns; of the published status, the
    state and whether an error is shown. *)
Record Mapper := mkMapper {
  work_state : State;
  work_error : bool;
  gw : option Gateway;
  mapped : option Mapping;
  granted : Granted;
  renewAt : option Z;
  backoff : Z;
  retryAt : option Z;
  lastSeen : Settings
}.
#[export] Instance eta_Mapper : Eta Mapper := λ m,
  mkMapper (work_state m) (work_error m) (gw m) (mapped m) (granted m) (renewAt m) (backoff m) (retryAt m) (lastSeen m).

Definition New : Mapper := mkMapper StateStandby false None None (mkGranted 0 0) None 0 None (mkSettings false 0).

(** Open external ports and when they close, [None] for never. *)
Abbreviation Router := (gmap Z (option Z)).

Record World := mkWorld {
  w_discover : option (option Gateway);  (* [None]: no router; [Some None]: another error *)
  w_add : Mapping → option Granted;
  w_delete : bool
}.

(** A mapper and the router, with the requests made of it, newest last. *)
Record Sys := mkSys { m : Mapper; router : Router; requests : list Mapping }.
#[export] Instance eta_Sys : Eta Sys := λ s, mkSys (m s) (router s) (requests s).

Section Mapper.
Context (ParseIP : string → option IP).

Definition IsLoopbackHost (host : string) : bool :=
  EqualFold host "localhost" || match ParseIP host with Some ip => IsLoopback ip | None => false end.

Definition with_m (f : Mapper → Mapper) (s : Sys) : Sys := s <| m := f (m s) |>.

Definition setIdle (st : State) (err : bool) (x : Mapper) : Mapper := (x <| work_state := st |>) <| work_error := err |>.

(** [unmap]: with no gateway at hand the mapping is only forgotten. *)
Definition unmap (w : World) (s : Sys) : Sys :=
  let cur := mapped (m s) in
  let s := with_m (λ x, (x <| mapped := None |>) <| renewAt := None |>) s in
  match cur, gw (m s) with
  | Some c, Some _ =>
      let port := if g_port (granted (m s)) =? 0 then ExternalPort c else g_port (granted (m s)) in
      if w_delete w then s <| router := delete port (router s) |> else s
  | _, _ => s
  end.

Definition unmap_if (b : bool) (w : World) (s : Sys) : Sys := if b then unmap w s else s.
Definition is_mapped (s : Sys) : bool := match mapped (m s) with Some _ => true | None => false end.

Definition fail (now : Z) (st : State) (s : Sys) : Sys * Z :=
  let s := with_m (match mapped (m s) with None => setIdle st false | Some _ => λ x, x <| work_state := st |> end) s in
  let b := if backoff (m s) =? 0 then minBackoff else Z.min (backoff (m s) * 2) maxBackoff in
  (with_m (λ x, ((x <| work_error := true |>) <| backoff := b |>) <| retryAt := Some (now + b) |>) s, b).

(** From a known router on: the request and its outcome. *)
Definition request (cfg : Config) (w : World) (now : Z) (host : string) (port ext : Z) (g : Gateway) (s : Sys) : Sys * Z :=
  let internalIP := match ParseIP host with
                    | Some ip => if IsUnspecified ip then LocalIP g else Some ip
                    | None => LocalIP g
                    end in
  match internalIP with
  | None => fail now StateError s
  | Some ip =>
      let want := mkMapping "TCP" ip port ext (CfgLease cfg) in
      let s := s <| requests := requests s ++ [want] |> in
      match w_add w want with
      | None =>
          let lapsed := match mapped (m s), renewAt (m s) with
                        | Some _, Some t => (g_lease (granted (m s)) >? 0) && (now >? t + Z.quot (g_lease (granted (m s))) 2)
                        | _, _ => false
                        end in
          let s := with_m (λ x, (if lapsed then x <| mapped := None |> else x) <| gw := None |>) s in
          fail now StateError s
      | Some gr =>
          let gr := if g_port gr =? 0 then mkGranted ext (g_lease gr) else gr in
          let next := now + (if g_lease gr >? 0 then Z.quot (g_lease gr) 2 else permanentReassert) in
          let s := with_m (λ x, mkMapper StateMapped false (gw x) (Some want) gr (Some next) 0 None (lastSeen x)) s in
          (s <| router := <[g_port gr := if g_lease gr >? 0 then Some (now + g_lease gr) else None]> (router s) |>,
           Z.min (CheckEvery cfg) (next - now))
      end
  end.

Definition observe (st : Settings) (x : Mapper) : Mapper :=
  if bool_decide (st = lastSeen x) then x
  else ((x <| retryAt := None |>) <| backoff := 0 |>) <| lastSeen := st |>.

(** Discovery when no router is known, then the request. *)
Definition discover_and_request (cfg : Config) (w : World) (now : Z) (host : string) (port ext : Z) (s : Sys) : Sys * Z :=
  match gw (m s) with
  | Some g => request cfg w now host port ext g s
  | None =>
      match w_discover w with
      | Some (Some g) => request cfg w now host port ext g (with_m (λ x, x <| gw := Some g |>) s)
      | Some None => fail now StateError s
      | None => fail now StateNoGateway s
      end
  end.

(** The wait when nothing is due: a retry, then a renewal. *)
Definition pause (cfg : Config) (now : Z) (x : Mapper) : option Z :=
  let renewal := match mapped x, renewAt x with
                 | Some _, Some r => if now <? r then Some (Z.min (CheckEvery cfg) (r - now)) else None
                 | _, _ => None
                 end in
  match retryAt x with
  | Some t => if now <? t then Some (t - now) else renewal
  | None => renewal
  end.

(** [step]: the state after one check and how long to wait. *)
Definition step (cfg : Config) (st : Settings) (w : World) (now : Z) (s : Sys) : Sys * Z :=
  let s := with_m (observe st) s in
  if negb (s_Enabled st) then
    (with_m (setIdle StateDisabled false) (unmap_if (is_mapped s) w s), CheckEvery cfg)
  else match ParseListenAddr (ListenAddr cfg) with
       | None => (with_m (setIdle StateError true) s, CheckEvery cfg)
       | Some (host, port) =>
           if IsLoopbackHost host then
             (with_m (setIdle StateLoopbackOnly true) (unmap_if (is_mapped s) w s), CheckEvery cfg)
           else
             let ext := if s_ExternalPort st <=? 0 then port else s_ExternalPort st in
             let s := unmap_if (match mapped (m s) with Some c => negb (ExternalPort c =? ext) | None => false end) w s in
             match pause cfg now (m s) with
             | Some wait => (s, wait)
             | None => discover_and_request cfg w now host port ext s
             end
       end.

Definition shutdown (w : World) (s : Sys) : Sys := with_m (setIdle StateStandby false) (unmap_if (is_mapped s) w s).

(** [Run]: checks, kicks that drop the retry delay, and the end. *)
Inductive Event :=
  | EStep (st : Settings) (w : World) (dt : Z)
  | EKick
  | EStop (w : World).

Definition run_event (cfg : Config) (x : Sys * Z) (e : Event) : Sys * Z :=
  let '(s, now) := x in
  match e with
  | EStep st w dt => ((step cfg st w (now + dt) s).1, now + dt)
  | EKick => (with_m (λ x, x <| retryAt := None |>) s, now)
  | EStop w => (shutdown w s, now)
  end.
Definition run (cfg : Config) (es : list Event) (x : Sys * Z) : Sys * Z := foldl (run_event cfg) x es.


(** * What is requested *)
Definition request_ok (cfg : Config) (r : Mapping) : Prop :=
  Protocol r = "TCP" ∧ ExternalPort r ≠ 0 ∧
  ∃ host, ParseListenAddr (ListenAddr cfg) = Some (host, InternalPort r) ∧ IsLoopbackHost host = false.

(** A step adds at most one request, an acceptable one, and only when the
    setting is on. *)
Definition requests_grow (cfg : Config) (on : bool) (s s' : Sys) : Prop :=
  requests s' = requests s ∨ (on = true ∧ ∃ r, requests s' = requests s ++ [r] ∧ request_ok cfg r).

Lemma unmap_requests (b : bool) (w : World) (s : Sys) : requests (unmap_if b w s) = requests s.
Proof. unfold unmap_if, unmap. destruct b; [|done]. cbv zeta.
  change (gw (m (with_m (λ x, (x <| mapped := None |>) <| renewAt := None |>) s))) with (gw (m s)).
  destruct (mapped (m s)), (gw (m s)); try done. by destruct (w_delete w). Qed.

Lemma fail_requests (now : Z) (st : State) (s : Sys) : requests (fail now st s).1 = requests s.
Proof. done. Qed.

Lemma request_requests (cfg : Config) (w : World) (now : Z) (host : string) (port ext : Z) (g : Gateway) (s : Sys) :
  requests (request cfg w now host port ext g s).1 = requests s ∨
  ∃ ip, requests (request cfg w now host port ext g s).1 = requests s ++ [mkMapping "TCP" ip port ext (CfgLease cfg)].
Proof.
  unfold request. destruct (match ParseIP host with Some ip => _ | None => _ end) as [ip|]; [|by left].
  right. exists ip. cbv zeta. by destruct (w_add w _).
Qed.

Lemma step_requests (cfg : Config) (st : Settings) (w : World) (now : Z) (s : Sys) :
  requests_grow cfg (s_Enabled st) s (step cfg st w now s).1.
Proof.
  unfold step. cbv zeta. destruct (s_Enabled st); cbn [negb]; [|left; exact (unmap_requests _ w (with_m (observe st) s))].
  destruct (ParseListenAddr (ListenAddr cfg)) as [[host port]|] eqn:Ep; [|by left].
  destruct (IsLoopbackHost host) eqn:El; [left; exact (unmap_requests _ w (with_m (observe st) s))|].
  set (ext := if s_ExternalPort st <=? 0 then port else s_ExternalPort st). set (s1 := unmap_if _ w _).
  assert (requests s1 = requests s) as E1 by (exact (unmap_requests _ w (with_m (observe st) s))).
  destruct (pause cfg now (m s1)); [left; done|].
  assert (∀ g s2, requests s2 = requests s →
    requests_grow cfg true s (request cfg w now host port ext g s2).1) as Hreq.
  { intros g s2 E2. destruct (request_requests cfg w now host port ext g s2) as [E|[ip E]]; [left; congruence|right].
    split; [done|]. eexists. rewrite E, E2. split; [done|]. split; [done|]. split; [|by exists host].
    cbn. unfold ext. unfold ParseListenAddr in Ep. destruct (SplitHostPort _) as [[h p]|]; [|done].
    destruct (Atoi p) as [n|]; [|done]. destruct (Z.leb_spec n 0), (Z.gtb_spec n 65535); try done.
    cbn in Ep. injection Ep as <- <-. destruct (Z.leb_spec (s_ExternalPort st) 0); lia. }
  unfold discover_and_request. destruct (gw (m s1)) as [g|]; [by apply Hreq|].
  destruct (w_discover w) as [[g|]|]; [by apply Hreq|by left|by left].
Qed.

Definition enables (e : Event) : bool := match e with EStep st _ _ => s_Enabled st | _ => false end.

(** Over any run, every mapping asked of the router is TCP to the port
    the server listens on; none is asked while the setting is off, and none
    ever when the server listens on loopback only. *)
Lemma portmap_requests (cfg : Config) (es : list Event) (t : Z) (r : Mapping) :
  r ∈ requests (run cfg es (mkSys New ∅ [], t)).1 →
  Protocol r = "TCP" ∧
  (∃ host, ParseListenAddr (ListenAddr cfg) = Some (host, InternalPort r) ∧ IsLoopbackHost host = false) ∧
  existsb enables es = true.
Proof.
  assert (∀ es x, Forall (request_ok cfg) (requests x.1) →
    (∀ r, r ∈ requests (run cfg es x).1 → request_ok cfg r ∧ (r ∉ requests x.1 → existsb enables es = true))) as H.
  { clear. induction es as [|e es IH]; intros [s now] Hok.
    { intros r Hr. rewrite Forall_forall in Hok. split; [by apply Hok|]. intros H. by destruct H. }
    intros r Hr. cbn [run foldl existsb] in *. change (foldl (run_event cfg) ?x es) with (run cfg es x) in Hr.
    assert (requests_grow cfg (enables e) s (run_event cfg (s, now) e).1) as Hg.
    { destruct e as [st w dt| |w]; cbn [run_event]; [apply step_requests|by left|left].
      exact (unmap_requests _ w s). }
    destruct Hg as [E|(Hon & q & E & Hq)].
    - destruct (IH (run_event cfg (s, now) e)) with (r := r) as [H1 H2]; [by rewrite E|done|].
      split; [done|]. intros Hn. rewrite (H2 ltac:(by rewrite E)). by rewrite orb_true_r.
    - rewrite Hon. split; [|done].
      destruct (IH (run_event cfg (s, now) e)) with (r := r) as [H1 _]; [|done|done]. rewrite E. apply Forall_app. by split; [|constructor]. }
  intros Hr. destruct (H es (mkSys New ∅ [], t) ltac:(constructor) r Hr) as [(H1 & _ & H2) H3].
  split; [done|]. split; [done|]. apply H3. apply not_elem_of_nil.
Qed.


(** * Exactly one port, and none when off *)

(** The router maps the port asked for and honours deletes. *)
Definition healthy (w : World) : Prop :=
  w_delete w = true ∧ ∀ want, ∃ g, w_add w want = Some g ∧ (g_port g = 0 ∨ g_port g = ExternalPort want).
Definition healthy_event (e : Event) : Prop :=
  match e with EStep _ w _ => healthy w | EStop w => w_delete w = true | EKick => True end.

(** The router holds open what the mapper thinks it does. *)
Definition in_step (s : Sys) : Prop :=
  match mapped (m s) with
  | None => router s = ∅
  | Some c => ∃ exp, router s = {[ExternalPort c := exp]} ∧ gw (m s) ≠ None ∧ g_port (granted (m s)) = ExternalPort c
  end.

Lemma unmap_in_step (b : bool) (w : World) (s : Sys) :
  w_delete w = true → in_step s → in_step (unmap_if b w s) ∧ (b = true ∨ mapped (m s) = None → mapped (m (unmap_if b w s)) = None).
Proof.
  intros Hd Hin. unfold unmap_if. destruct b; [|split; [done|by intros [?|?]]]. unfold in_step, unmap in *. cbv zeta in *.
  change (gw (m (with_m (λ x, (x <| mapped := None |>) <| renewAt := None |>) s))) with (gw (m s)).
  change (granted (m (with_m (λ x, (x <| mapped := None |>) <| renewAt := None |>) s))) with (granted (m s)).
  destruct (mapped (m s)) as [c|]; [|done]. destruct Hin as (exp & Er & Hg & Ep). destruct (gw (m s)) as [g|]; [|done].
  rewrite Hd. split; [|done]. rewrite Ep.
  assert ((if ExternalPort c =? 0 then ExternalPort c else ExternalPort c) = ExternalPort c) as -> by (by destruct (_ =? 0)).
  change (delete (ExternalPort c) (router s) = ∅). rewrite Er. apply delete_singleton_eq.
Qed.

Lemma fail_frame (now : Z) (st : State) (s : Sys) :
  let s' := (fail now st s).1 in
  router s' = router s ∧ mapped (m s') = mapped (m s) ∧ gw (m s') = gw (m s) ∧ granted (m s') = granted (m s).
Proof.
  unfold fail. cbv zeta. cbn [fst]. destruct (mapped (m s)) as [c|] eqn:E; (split; [done|]; split; [exact E|]; by split).
Qed.

Lemma in_step_frame (s s' : Sys) :
  router s' = router s ∧ mapped (m s') = mapped (m s) ∧ gw (m s') = gw (m s) ∧ granted (m s') = granted (m s) →
  in_step s → in_step s'.
Proof. intros (E1 & E2 & E3 & E4). unfold in_step. by rewrite E1, E2, E3, E4. Qed.

Lemma fail_in_step (now : Z) (st : State) (s : Sys) : in_step s → in_step (fail now st s).1.
Proof. apply in_step_frame, fail_frame. Qed.

Lemma request_in_step (cfg : Config) (w : World) (now : Z) (host : string) (port ext : Z) (g : Gateway) (s : Sys) :
  healthy w → ext ≠ 0 → in_step s → gw (m s) ≠ None → (∀ c, mapped (m s) = Some c → ExternalPort c = ext) →
  in_step (request cfg w now host port ext g s).1.
Proof.
  intros [_ Hadd] Hext Hin Hgw Hport. unfold request. destruct (match ParseIP host with Some ip => _ | None => _ end) as [ip|];
    [|by apply fail_in_step]. cbv zeta. set (want := mkMapping "TCP" ip port ext (CfgLease cfg)).
  destruct (Hadd want) as (gr & -> & Hgr).
  set (gr' := if g_port gr =? 0 then _ else _). assert (g_port gr' = ext) as Egr.
  { unfold gr'. destruct (Z.eqb_spec (g_port gr) 0); [done|]. by destruct Hgr. }
  unfold in_step. cbn [fst].
  set (exp := if g_lease gr' >? 0 then _ else _).
  change (∃ e, <[g_port gr' := exp]> (router s) = {[ext := e]} ∧ gw (m s) ≠ None ∧ g_port gr' = ext).
  exists exp. rewrite Egr. split; [|done]. unfold in_step in Hin. destruct (mapped (m s)) as [c|] eqn:Em.
  - destruct Hin as (e & -> & _ & _). rewrite (Hport c eq_refl). apply insert_singleton_eq.
  - by rewrite Hin.
Qed.

Lemma discover_in_step (cfg : Config) (w : World) (now : Z) (host : string) (port ext : Z) (s : Sys) :
  healthy w → ext ≠ 0 → in_step s → (∀ c, mapped (m s) = Some c → ExternalPort c = ext) →
  in_step (discover_and_request cfg w now host port ext s).1.
Proof.
  intros Hw Hext Hin Hport. unfold discover_and_request. destruct (gw (m s)) as [g|] eqn:Eg.
  - apply request_in_step; [done|done|done|by rewrite Eg|done].
  - destruct (w_discover w) as [[g|]|]; [|by apply fail_in_step|by apply fail_in_step].
    apply request_in_step; [done|done| |done|done]. unfold in_step in *.
    change (mapped (m (with_m (λ x, x <| gw := Some g |>) s))) with (mapped (m s)).
    destruct (mapped (m s)); [|done]. destruct Hin as (exp & Er & Hg & Ep). by exists exp.
Qed.

Lemma observe_in_step (st : Settings) (s : Sys) : in_step s → in_step (with_m (observe st) s).
Proof.
  apply in_step_frame. split; [done|].
  change (m (with_m (observe st) s)) with (observe st (m s)). unfold observe. by destruct (bool_decide _).
Qed.

Lemma step_in_step (cfg : Config) (st : Settings) (w : World) (now : Z) (s : Sys) :
  healthy w → in_step s →
  in_step (step cfg st w now s).1 ∧ (s_Enabled st = false → mapped (m (step cfg st w now s).1) = None).
Proof.
  intros Hw Hin. unfold step. cbv zeta. set (s0 := with_m (observe st) s).
  assert (in_step s0) as Hin0 by (by apply observe_in_step).
  pose proof (proj1 Hw) as Hd.
  destruct (s_Enabled st); cbn [negb].
  2: { destruct (unmap_in_step (is_mapped s0) w s0 Hd Hin0) as [H1 H2].
       split; [exact H1|]. intros _. apply H2. unfold is_mapped. destruct (mapped (m s0)); [by left|by right]. }
  split; [|done]. destruct (ParseListenAddr (ListenAddr cfg)) as [[host port]|] eqn:Ep; [|done].
  destruct (IsLoopbackHost host). { exact (proj1 (unmap_in_step (is_mapped s0) w s0 Hd Hin0)). }
  set (ext := if s_ExternalPort st <=? 0 then port else s_ExternalPort st).
  assert (ext ≠ 0) as Hext.
  { unfold ext. unfold ParseListenAddr in Ep. destruct (SplitHostPort _) as [[h p]|]; [|done].
    destruct (Atoi p) as [n|]; [|done]. destruct (Z.leb_spec n 0), (Z.gtb_spec n 65535); try done.
    cbn in Ep. injection Ep as <- <-. destruct (Z.leb_spec (s_ExternalPort st) 0); lia. }
  set (b := match mapped (m s0) with Some c => negb (ExternalPort c =? ext) | None => false end).
  destruct (unmap_in_step b w s0 Hd Hin0) as [H1 H2]. destruct (pause cfg now _); [done|].
  apply discover_in_step; [done|done|done|]. intros c Hc. unfold b in *. destruct (mapped (m s0)) as [c0|] eqn:E0.
  - destruct (Z.eqb_spec (ExternalPort c0) ext) as [Ee|]; cbn [negb unmap_if] in *; [congruence|].
    rewrite H2 in Hc by (by left). done.
  - cbn [unmap_if] in Hc. congruence.
Qed.

(** As long as the router grants what it is asked and honours deletes, it
    never holds more than one port open for the server, and it holds none
    once the setting has been seen off or the process has stopped. *)
Lemma portmap_one_port (cfg : Config) (es : list Event) (t : Z) :
  Forall healthy_event es →
  (size (router (run cfg es (mkSys New ∅ [], t)).1) <= 1)%nat ∧
  (∀ es' e, es = es' ++ [e] → match e with EStep st _ _ => s_Enabled st = false | EStop _ => True | EKick => False end →
     router (run cfg es (mkSys New ∅ [], t)).1 = ∅).
Proof.
  assert (∀ x e, healthy_event e → in_step x.1 → in_step (run_event cfg x e).1 ∧
    (match e with EStep st _ _ => s_Enabled st = false | EStop _ => True | EKick => False end →
      mapped (m (run_event cfg x e).1) = None)) as Hev.
  { intros [s now] [st w dt| |w] He Hin; cbn [fst] in Hin.
    - exact (step_in_step cfg st w (now + dt) s He Hin).
    - by split.
    - cbn [run_event fst]. destruct (unmap_in_step (is_mapped s) w s He Hin) as [H1 H2]. split; [exact H1|].
      intros _. apply H2. unfold is_mapped. destruct (mapped (m s)); [by left|by right]. }
  assert (∀ es x, Forall healthy_event es → in_step x.1 → in_step (run cfg es x).1) as Hrun.
  { clear es. induction es as [|e es IH]; intros x He Hx; [done|]. apply Forall_cons in He as [He Hes].
    apply (IH (run_event cfg x e)); [done|]. by apply Hev. }
  intros He. split.
  - assert (in_step (run cfg es (mkSys New ∅ [], t)).1) as Hs by (by apply Hrun). unfold in_step in Hs.
    destruct (mapped _) as [c|]; [destruct Hs as (exp & -> & _); by rewrite map_size_singleton|rewrite Hs, map_size_empty; lia].
  - intros es' e -> Hoff. apply Forall_app in He as [He' [He _]%Forall_cons]. unfold run. rewrite foldl_app. cbn [foldl].
    set (x := foldl _ _ es'). assert (in_step x.1) as Hx by (by apply Hrun).
    destruct (Hev x e He Hx) as [H1 H2]. unfold in_step in H1. by rewrite H2 in H1.
Qed.
End Mapper.

(** * A home router *)
Definition cfg_ex : Config := mkConfig ":7070" (60 * Minute) (30 * Second).
Definition parse_ex (s : string) : option IP := None.
Definition gw_ex : Gateway := mkGateway "upnp" (Some [192; 168; 1; 5]).
Definition grants (lease : Z) : World := mkWorld (Some (Some gw_ex)) (λ want, Some (mkGranted (ExternalPort want) lease)) true.
Definition on_ex : Settings := mkSettings true 0.
Definition off_ex : Settings := mkSettings false 0.

Lemma grants_healthy (lease : Z) : healthy (grants lease).
Proof. split; [done|]. intros want. eexists. split; [reflexivity|by right]. Qed.

Lemma portmap_requests_witness :
  Protocol (mkMapping "TCP" [192; 168; 1; 5] 7070 7070 (60 * Minute)) = "TCP" ∧
  (run parse_ex cfg_ex [EStep on_ex (grants 0) 1] (mkSys New ∅ [], 0)).1.(requests) = [mkMapping "TCP" [192; 168; 1; 5] 7070 7070 (60 * Minute)].
Proof.
  split; [|by vm_compute].
  apply (portmap_requests parse_ex cfg_ex [EStep on_ex (grants 0) 1] 0 (mkMapping "TCP" [192; 168; 1; 5] 7070 7070 (60 * Minute))).
  vm_compute. left.
Defined.

(** Mapped, the port changed, then turned off. *)
Definition month_ex : list Event :=
  [EStep on_ex (grants (60 * Minute)) 0; EStep on_ex (grants (60 * Minute)) (31 * Minute);
   EStep (mkSettings true 8443) (grants (60 * Minute)) 1; EStep off_ex (grants (60 * Minute)) 1].

Lemma portmap_one_port_witness :
  router (run parse_ex cfg_ex month_ex (mkSys New ∅ [], 0)).1 = ∅.
Proof.
  destruct (portmap_one_port parse_ex cfg_ex month_ex 0) as [_ H].
  - repeat (apply Forall_cons; split; [apply grants_healthy|]). constructor.
  - apply (H [EStep on_ex (grants (60 * Minute)) 0; EStep on_ex (grants (60 * Minute)) (31 * Minute);
      EStep (mkSettings true 8443) (grants (60 * Minute)) 1] (EStep off_ex (grants (60 * Minute)) 1)); done.
Defined.

(** A renewal that fails drops the gateway; turning the setting off then only
    forgets the mapping.  The router was given a permanent one: the port stays
    open and nothing remembers it. *)
Definition refuses : World := mkWorld (Some (Some gw_ex)) (λ _, None) true.
Example permanent_port_left_open :
  let s := (run parse_ex cfg_ex
    [EStep on_ex (grants 0) 0; EStep on_ex refuses (31 * Minute); EStep off_ex refuses 1; EStop refuses] (mkSys New ∅ [], 0)).1 in
  router s !! 7070 = Some None ∧ mapped (m s) = None ∧ work_state (m s) = StateStandby.
Proof. by vm_compute. Qed.
