(* ===== verification/PCP.v ===== *)
(** Port Control Protocol messages: [internal/portmap/pcp.go], the MAP opcode.

    [read_request] is the server's side of RFC 6887 for the fields a MAP
    request carries; [pcp_response] lays out a server's answer. *)
From S2P Require Import Prelude.
From S2P Require Import GoStrings.
From S2P Require Import GoBytes.

Local Open Scope Z_scope.

Definition pcpVersion : Z := 2.
Definition pcpOpMap : Z := 1.
Definition pcpProtoTCP : Z := 6.
Definition pcpHeaderLen : nat := 24.
Definition pcpMapLen : nat := 36.

Definition pcpSuccess : Z := 0.
Definition pcpUnsuppVersion : Z := 1.

(** [ip.To4], [ip.To16] on the bytes of a [net.IP]. *)
Definition v4Prefix : bytes := replicate 10 (chr 0) ++ [chr 255; chr 255].
Definition To16 (ip : bytes) : bytes :=
  if bool_decide (length ip = 4%nat) then v4Prefix ++ ip else if bool_decide (length ip = 16%nat) then ip else [].
Definition To4 (ip : bytes) : bytes :=
  if bool_decide (length ip = 4%nat) then ip
  else if bool_decide (length ip = 16%nat) && bool_decide (take 12 ip = v4Prefix) then drop 12 ip else [].
Definition IPv4zero : bytes := v4Prefix ++ replicate 4 (chr 0).

(** [copy(b[off:end], src)] *)
Definition copy_to (off end_ : nat) (src b : bytes) : bytes := copy_at off (take (end_ - off) src) b.

Definition encodePCPMap (client nonce : bytes) (internalPort suggestedPort lifetime : Z) : bytes :=
  let b := replicate (pcpHeaderLen + pcpMapLen) (chr 0) in
  let b := copy_at 0 [chr pcpVersion; chr pcpOpMap] b in
  let b := copy_at 4 (be_split 4 lifetime) b in
  let b := copy_to 8 24 (To16 client) b in
  let b := copy_to 24 36 nonce b in
  let b := copy_at 36 [chr pcpProtoTCP] b in
  let b := copy_at 40 (be_split 2 internalPort) b in
  let b := copy_at 42 (be_split 2 suggestedPort) b in
  copy_to 44 60 IPv4zero b.

Record pcpMapResponse := mkResponse { lifetime : Z; externalPort : Z; externalIP : bytes }.

Inductive PCPError :=
  | errPCPUnsupported | errShort (n : Z) | errUnexpected (version opcode : Z) | pcpResultError (code : Z) | errPCPOtherNonce.

Definition byte_at (b : bytes) (i : nat) : Z := byteZ (nth i b (chr 0)).

Definition decodePCPMap (b nonce : bytes) : PCPError + pcpMapResponse :=
  if (2 <=? len b) && (byte_at b 0 =? 0) then inl errPCPUnsupported
  else if len b <? Z.of_nat (pcpHeaderLen + pcpMapLen) then inl (errShort (len b))
  else if negb (byte_at b 0 =? pcpVersion) || negb (byte_at b 1 =? Z.lor 128 pcpOpMap)
  then inl (errUnexpected (byte_at b 0) (byte_at b 1))
  else if negb (byte_at b 3 =? pcpSuccess) then
    if byte_at b 3 =? pcpUnsuppVersion then inl errPCPUnsupported else inl (pcpResultError (byte_at b 3))
  else
    let o := drop pcpHeaderLen b in
    if negb (bool_decide (slice 0 12 o = nonce)) then inl errPCPOtherNonce
    else inr (mkResponse (be_combine (slice 4 4 b)) (be_combine (slice 18 2 o)) (To4 (slice 20 16 o))).

(** [AddMapping]'s lease in seconds; 0 asks for an hour. *)
Definition lease_seconds (lease : Z) : Z :=
  let l := wrapU32 (Z.quot lease 1000000000) in if l =? 0 then 3600 else l.

(** [mapRequest]: the datagrams read before one that is not for another
    mapping; [None]: none came in time. *)
Fixpoint first_answer (nonce : bytes) (datagrams : list bytes) : option (PCPError + pcpMapResponse) :=
  match datagrams with
  | [] => None
  | d :: ds =>
      match decodePCPMap d nonce with
      | inl errPCPOtherNonce => first_answer nonce ds
      | r => Some r
      end
  end.

(** The receive timeouts of the resends within [timeout], doubling from one
    second; [fuel] bounds their number. *)
Fixpoint resends (fuel : nat) (elapsed wait timeout : Z) : list Z :=
  match fuel with
  | O => []
  | S fuel =>
      let next := Z.min (elapsed + wait) timeout in
      (next - elapsed) :: (if next <? timeout then resends fuel next (wait * 2) timeout else [])
  end.

(** * The other side *)
Record Request := mkRequest {
  q_client : bytes; q_nonce : bytes; q_protocol : Z; q_internal : Z; q_external : Z; q_address : bytes; q_lifetime : Z
}.

Definition read_request (b : bytes) : option Request :=
  if negb (len b =? 60) then None
  else if negb (byte_at b 0 =? 2) || negb (byte_at b 1 =? 1) then None
  else Some (mkRequest (slice 8 16 b) (slice 24 12 b) (byte_at b 36) (be_combine (slice 40 2 b)) (be_combine (slice 42 2 b))
               (slice 44 16 b) (be_combine (slice 4 4 b))).

Definition pcp_response (code life epoch : Z) (nonce : bytes) (internal external : Z) (address : bytes) : bytes :=
  [chr 2; chr 129; chr 0; chr code] ++ be_split 4 life ++ be_split 4 epoch ++ replicate 12 (chr 0) ++
  nonce ++ [chr 6; chr 0; chr 0; chr 0] ++ be_split 2 internal ++ be_split 2 external ++ (v4Prefix ++ address).

(** * The formats agree *)

(** Lists of a known length are written out, byte by byte. *)
Ltac explicit H l :=
  repeat (destruct l as [|? l]; [exfalso; cbn in H; lia|]);
  destruct l; [|exfalso; cbn in H; lia].

(** The request's layout over already encoded fields. *)
Definition layout (client nonce life internal external : bytes) : bytes :=
  [chr 2; chr 1; chr 0; chr 0] ++ life ++ client ++ nonce ++ [chr 6; chr 0; chr 0; chr 0] ++ internal ++ external ++ IPv4zero.

Lemma encode_layout (client nonce : bytes) (internal external life : Z) :
  length (To16 client) = 16%nat → length nonce = 12%nat →
  encodePCPMap client nonce internal external life =
    layout (To16 client) nonce (be_split 4 life) (be_split 2 internal) (be_split 2 external).
Proof.
  intros Hc Hn. unfold encodePCPMap, layout, copy_to.
  pose proof (length_be_split 4 life) as Hl. pose proof (length_be_split 2 internal) as Hi.
  pose proof (length_be_split 2 external) as He. revert Hc Hn Hl Hi He.
  generalize (To16 client) as C, (be_split 4 life) as L, (be_split 2 internal) as I, (be_split 2 external) as X.
  intros C L I X Hc Hn Hl Hi He.
  explicit Hc C. explicit Hn nonce. explicit Hl L. explicit Hi I. explicit He X. reflexivity.
Qed.

Lemma be_combine_split_small (n : nat) (z : Z) : 0 <= z < 2 ^ (8 * Z.of_nat n) → be_combine (be_split n z) = z.
Proof. intros H. unfold be_combine, be_split. rewrite reverse_involutive. by apply le_combine_split_small. Qed.

Lemma read_layout (client nonce life internal external : bytes) :
  length client = 16%nat → length nonce = 12%nat → length life = 4%nat → length internal = 2%nat → length external = 2%nat →
  read_request (layout client nonce life internal external) =
    Some (mkRequest client nonce 6 (be_combine internal) (be_combine external) IPv4zero (be_combine life)).
Proof.
  intros Hc Hn Hl Hi He.
  explicit Hc client. explicit Hn nonce. explicit Hl life. explicit Hi internal. explicit He external. reflexivity.
Qed.

Lemma decode_response (code life epoch : Z) (nonce n2 : bytes) (internal external : Z) (address : bytes) :
  0 <= code < 256 → length nonce = 12%nat → length address = 4%nat →
  decodePCPMap (pcp_response code life epoch nonce internal external address) n2 =
    if negb (code =? 0) then (if code =? 1 then inl errPCPUnsupported else inl (pcpResultError code))
    else if negb (bool_decide (nonce = n2)) then inl errPCPOtherNonce
    else inr (mkResponse (be_combine (be_split 4 life)) (be_combine (be_split 2 external)) address).
Proof.
  intros Hcode Hn Ha. unfold pcp_response.
  pose proof (length_be_split 4 life) as Hl. pose proof (length_be_split 4 epoch) as Hp.
  pose proof (length_be_split 2 internal) as Hi. pose proof (length_be_split 2 external) as He. revert Hl Hp Hi He.
  generalize (be_split 4 life) as L, (be_split 4 epoch) as P, (be_split 2 internal) as I, (be_split 2 external) as X.
  intros L P I X Hl Hp Hi He. explicit Hl L. explicit Hp P. explicit Hi I. explicit He X.
  explicit Hn nonce. explicit Ha address.
  assert (Hb : byteZ (chr code) = code) by (by apply byteZ_chr).
  unfold decodePCPMap, byte_at. cbn [nth app]. rewrite Hb. reflexivity.
Qed.

(** On the wire the client and a PCP server understand each other: the
    server reads from a request exactly the nonce, the ports, the lifetime and
    the address it was built from; of the server's answer the client takes the
    granted lifetime, port and address when the code is success and the nonce
    its own, sets an answer with another nonce aside, and turns every other
    code into an error, the version refusal into the fallback to NAT-PMP. *)
Lemma pcp_roundtrip (client nonce other address : bytes) (internal external life epoch code : Z) :
  length (To16 client) = 16%nat → length nonce = 12%nat → length other = 12%nat → length address = 4%nat →
  0 <= internal < 2 ^ 16 → 0 <= external < 2 ^ 16 → 0 <= life < 2 ^ 32 → 0 < code < 256 → other ≠ nonce →
  read_request (encodePCPMap client nonce internal external life) =
    Some (mkRequest (To16 client) nonce pcpProtoTCP internal external IPv4zero life)
  ∧ decodePCPMap (pcp_response 0 life epoch nonce internal external address) nonce = inr (mkResponse life external address)
  ∧ decodePCPMap (pcp_response 0 life epoch other internal external address) nonce = inl errPCPOtherNonce
  ∧ decodePCPMap (pcp_response code life epoch other internal external address) nonce =
      inl (if code =? pcpUnsuppVersion then errPCPUnsupported else pcpResultError code).
Proof.
  intros Hc Hn Ho Ha Hi He Hl Hcode Hne. split_and!.
  - rewrite encode_layout, read_layout by (done || apply length_be_split). by rewrite !be_combine_split_small.
  - rewrite decode_response by (done || lia). cbn [Z.eqb negb]. rewrite bool_decide_true by done. cbn [negb].
    by rewrite !be_combine_split_small.
  - rewrite decode_response by (done || lia). cbn [Z.eqb negb]. by rewrite bool_decide_false.
  - rewrite decode_response by (done || lia). rewrite (proj2 (Z.eqb_neq code 0)) by lia. cbn [negb].
    unfold pcpUnsuppVersion. by destruct (code =? 1).
Qed.

Lemma pcp_roundtrip_witness :
  let nonce := of_string "abcdefghijkl" in let address := of_string "1234" in
  decodePCPMap (pcp_response 0 7200 9 nonce 443 8443 address) nonce = inr (mkResponse 7200 8443 address).
Proof.
  intros nonce address.
  apply (pcp_roundtrip (of_string "abcd") nonce (of_string "ABCDEFGHIJKL") address 443 8443 7200 9 2); 
    try done; by apply (bool_decide_unpack _); vm_compute.
Defined.

(** A cut or foreign answer is an error, never a mapping. *)
Lemma decode_short (b nonce : bytes) : len b < 60 → ∃ e, decodePCPMap b nonce = inl e.
Proof.
  intros H. unfold decodePCPMap. change (Z.of_nat (pcpHeaderLen + pcpMapLen)) with 60.
  destruct (_ && _); [eauto|]. rewrite (proj2 (Z.ltb_lt _ _) H). eauto.
Qed.

Lemma resends_within (fuel : nat) (elapsed wait timeout : Z) :
  0 < wait → elapsed < timeout → Forall (λ w, 0 < w) (resends fuel elapsed wait timeout)
  ∧ elapsed + foldr Z.add 0 (resends fuel elapsed wait timeout) <= timeout.
Proof.
  revert elapsed wait. induction fuel as [|fuel IH]; intros e w Hw He; cbn [resends foldr]; [split; [done|lia]|].
  case_match eqn:E; cbn [foldr].
  - apply Z.ltb_lt in E. destruct (IH (Z.min (e + w) timeout) (w * 2)) as [H1 H2]; [lia|lia|].
    split; [constructor; [lia|done]|lia].
  - split; [constructor; [lia|constructor]|cbn; lia].
Qed.

(** With the timeout the gateway is built with, the waits are 1, 2 and 1 s. *)
Example default_resends : resends 4 0 1 4 = [1; 2; 1].
Proof. reflexivity. Qed.
