(* ===== verification/SHA256.v ===== *)
(** SHA-256 (FIPS 180-4) over byte slices, as [crypto/sha256.Sum256], and the
    hexadecimal text of [encoding/hex.EncodeToString]: what [HashToken] of
    [internal/auth/tokens.go] stores for a refresh token, an API key or a
    recovery code.  HMAC-SHA256 gives [HashUsernameForLog] of
    [internal/auth/crypto.go], the throttle key of a sign-in.

    Words are 32-bit integers in [Z]. *)
From S2P Require Import Prelude.
From S2P Require Import GoStrings.
From S2P Require Import GoBytes.

Local Open Scope Z_scope.

(** * 32-bit words *)
Definition word (z : Z) : Z := Z.land z 4294967295.
Definition rotr (n x : Z) : Z := Z.lor (Z.shiftr x n) (word (Z.shiftl x (32 - n))).
Definition not32 (x : Z) : Z := Z.lxor x 4294967295.
Definition sum32 (l : list Z) : Z := word (foldr Z.add 0 l).

Definition Ch (x y z : Z) : Z := Z.lxor (Z.land x y) (Z.land (not32 x) z).
Definition Maj (x y z : Z) : Z := Z.lxor (Z.lxor (Z.land x y) (Z.land x z)) (Z.land y z).
Definition Sigma0 (x : Z) : Z := Z.lxor (Z.lxor (rotr 2 x) (rotr 13 x)) (rotr 22 x).
Definition Sigma1 (x : Z) : Z := Z.lxor (Z.lxor (rotr 6 x) (rotr 11 x)) (rotr 25 x).
Definition sigma0 (x : Z) : Z := Z.lxor (Z.lxor (rotr 7 x) (rotr 18 x)) (Z.shiftr x 3).
Definition sigma1 (x : Z) : Z := Z.lxor (Z.lxor (rotr 17 x) (rotr 19 x)) (Z.shiftr x 10).

(** The constants of the standard: the first 32 bits of the fractional parts of
    the cube roots and of the square roots of the first primes. *)
Definition prime_below (n : nat) (k : Z) : bool :=
  forallb (λ d, negb (k `mod` Z.of_nat d =? 0)) (seq 2 (n - 2)).
Definition primes (bound : nat) : list Z :=
  filter (λ k, Is_true (prime_below (Z.to_nat k) k)) (Z.of_nat <$> seq 2 (bound - 2)).

(** The largest [r] with [r ^ 3 <= n], bit by bit. *)
Fixpoint cbrt_go (bits : nat) (n r : Z) : Z :=
  match bits with
  | O => r
  | S b =>
      let r' := r + 2 ^ Z.of_nat b in cbrt_go b n (if r' ^ 3 <=? n then r' else r)
  end.

Definition K256 : list Z :=
  Eval vm_compute in (λ p, word (cbrt_go 36 (p * 2 ^ 96) 0)) <$> primes 312.
Definition H256 : list Z :=
  Eval vm_compute in (λ p, word (Z.sqrt (p * 2 ^ 64))) <$> primes 20.

(** * Padding and blocks *)
Definition pad256 (msg : bytes) : bytes :=
  let l := len msg in
  let zeros := Z.to_nat ((55 - l) `mod` 64) in
  msg ++ [chr 128] ++ replicate zeros (chr 0) ++ be_split 8 (8 * l).

Fixpoint words_of (b : bytes) (n : nat) : list Z :=
  match n with
  | O => []
  | S n => be_combine (take 4 b) :: words_of (drop 4 b) n
  end.

(** The message schedule, the newest word first. *)
Fixpoint schedule_go (n : nat) (w : list Z) : list Z :=
  match n with
  | O => w
  | S n =>
      let at_ i := nth i w 0 in
      schedule_go n
        (sum32 [sigma1 (at_ 1%nat); at_ 6%nat; sigma0 (at_ 14%nat); at_ 15%nat] :: w)
  end.
Definition schedule256 (block : bytes) : list Z :=
  reverse (schedule_go 48 (reverse (words_of block 16))).

Definition round256 (s : list Z) (kw : Z * Z) : list Z :=
  match s with
  | [a; b; c; d; e; f; g; h] =>
      let t1 := sum32 [h; Sigma1 e; Ch e f g; kw.1; kw.2] in
      let t2 := sum32 [Sigma0 a; Maj a b c] in
      [word (t1 + t2); a; b; c; word (d + t1); e; f; g]
  | _ => s
  end.

Definition block256 (h : list Z) (block : bytes) : list Z :=
  zip_with (λ x y, word (x + y)) h (foldl round256 h (zip K256 (schedule256 block))).

Fixpoint blocks256 (n : nat) (h : list Z) (b : bytes) : list Z :=
  match n with
  | O => h
  | S n => blocks256 n (block256 h (take 64 b)) (drop 64 b)
  end.

Definition Sum256 (msg : bytes) : bytes :=
  let b := pad256 msg in
  concat (map (be_split 4) (blocks256 (Z.to_nat (len b / 64)) H256 b)).

(** * Hexadecimal text *)
Definition hex_digit (n : Z) : ascii := if n <? 10 then chr (48 + n) else chr (87 + n).
Fixpoint EncodeToString (b : bytes) : string :=
  match b with
  | [] => ""
  | c :: b =>
      String (hex_digit (byteZ c / 16)) (String (hex_digit (byteZ c `mod` 16)) (EncodeToString b))
  end.

(** [HashToken] *)
Definition HashToken (token : string) : string := EncodeToString (Sum256 (of_string token)).

(** [hmac.New(sha256.New, key)] over one message. *)
Definition hmac_block (key : bytes) : bytes :=
  let k := if len key >? 64 then Sum256 key else key in
  k ++ replicate (64 - length k) (chr 0).
Definition xor_pad (x : Z) (k : bytes) : bytes := map (λ c, chr (Z.lxor (byteZ c) x)) k.
Definition HMAC256 (key msg : bytes) : bytes :=
  let k := hmac_block key in
  Sum256 (xor_pad 92 k ++ Sum256 (xor_pad 54 k ++ msg)).

(** [HashUsernameForLog]: the first sixteen characters of the digest. *)
Definition HashUsernameForLog (pepper : bytes) (username : string) : string :=
  String.substring 0 16 (EncodeToString (HMAC256 pepper (of_string (ToLower (TrimSpace username))))).

Example HMAC256_jefe :
  EncodeToString (HMAC256 (of_string "Jefe") (of_string "what do ya want for nothing?"))
  = "5bdcc146bf60754e6a042426089575c75a003f089d2739839dec58b964ec3843".
Proof. vm_compute. reflexivity. Qed.
Example HashToken_abc :
  HashToken "abc" = "ba7816bf8f01cfea414140de5dae2223b00361a396177a9cb410ff61f20015ad".
Proof. vm_compute. reflexivity. Qed.
Example HashToken_empty :
  HashToken "" = "e3b0c44298fc1c149afbf4c8996fb92427ae41e4649b934ca495991b7852b855".
Proof. vm_compute. reflexivity. Qed.
Example HashToken_two_blocks :
  HashToken "abcdbcdecdefdefgefghfghighijhijkijkljklmklmnlmnomnopnopq"
  = "248d6a61d20638b8e5c026930c3e6039a33ce45964ff2167f6ecedd419db06c1".
Proof. vm_compute. reflexivity. Qed.
