(* ===== verification/Tokens.v ===== *)
(** The token maker: [internal/auth/tokens.go].

    A token is a set of claims sealed under the server's key.  The PASETO
    library and the UUID library are the interface [Paseto]: sealing and
    opening, the text of a time inside a token, the text of a UUID.  A UUID is
    its 128-bit value; [Nil] is 0.  Instants are nanoseconds. *)
From S2P Require Import Prelude.
From S2P Require Import GoStrings.
From S2P Require Import GoBytes.
From S2P Require Import RateLimit.
From S2P Require Import SHA256.

Local Open Scope Z_scope.

Definition UUID : Type := N.
Definition Nil : UUID := 0%N.
Definition uuid_ok (u : UUID) : Prop := (u < 2 ^ 128)%N.

(** * The libraries *)
Inductive value := VStr (s : string) | VTime (t : Z) | VList (l : list string).
Abbreviation Payload := (gmap string value).

Class Paseto := {
  seal : Payload → string;              (* [token.V4Encrypt(m.key, nil)] *)
  unseal : string → option Payload;     (* [parser.ParseV4Local(m.key, s, nil)] *)
  stamp : Z → Z;                        (* a time written to and read from a token *)
  uuid_String : UUID → string;
  uuid_Parse : string → option UUID
}.

Class PasetoLaws `{Paseto} := {
  unseal_seal p : unseal (seal p) = Some p;
  stamp_second t : stamp t ≤ t < stamp t + second;
  uuid_Parse_String u : uuid_ok u → uuid_Parse (uuid_String u) = Some u;
  uuid_String_ne u : uuid_String u ≠ ""
}.

(** * Claims *)
Definition AccessTokenTTL : Z := 60 * minute.
Definition RefreshTokenTTL : Z := 30 * 24 * 60 * minute.
Definition StreamTokenTTL : Z := 24 * 60 * minute.
Definition AssetTokenTTL : Z := 24 * 60 * minute.
Definition TOTPChallengeTTL : Z := 5 * minute.

Record Claims := mkClaims {
  UserID : UUID; Username : string; IsAdmin : bool; MaxContentRating : string;
  BlockedLabels : list string; AllowedLabels : list string; SessionEpoch : Z;
  IssuedAt : Z; ExpiresAt : Z; Purpose : string; FileID : option UUID; Switched : bool;
  TokenID : string; SessionID : UUID; APIKeyID : UUID; APIKeyScope : string }.
#[global] Instance Claims_eta : Eta Claims :=
  λ c, mkClaims (UserID c) (Username c) (IsAdmin c) (MaxContentRating c) (BlockedLabels c)
    (AllowedLabels c) (SessionEpoch c) (IssuedAt c) (ExpiresAt c) (Purpose c) (FileID c)
    (Switched c) (TokenID c) (SessionID c) (APIKeyID c) (APIKeyScope c).

Definition uuid_Nil (u : UUID) : bool := N.eqb u Nil.

(** [IsAPIKey], on claims that may be nil. *)
Definition IsAPIKey (c : option Claims) : bool :=
  match c with Some c => negb (uuid_Nil (APIKeyID c)) | None => false end.

(** [fmt.Sscanf(s, "%d", &epoch)]: blanks, a sign, digits; what does not scan or
    does not fit leaves the zero. *)
Fixpoint digit_run (s : string) : string :=
  match s with
  | String c s' => if is_digit c then String c (digit_run s') else ""
  | EmptyString => ""
  end.
Definition scan_digits (neg : bool) (s : string) : Z :=
  match digits_val 0 (digit_run s) with
  | Some n =>
      let z := if neg then - n else n in
      if decide (digit_run s = "") then 0 else if decide (in_int64 z) then z else 0
  | None => 0
  end.
Fixpoint scan_d (s : string) : Z :=
  match s with
  | EmptyString => 0
  | String c s' =>
      if bool_decide (c = chr 10) then 0
      else if is_space c then scan_d s'
      else if bool_decide (c = chr 45) then scan_digits true s'
      else if bool_decide (c = chr 43) then scan_digits false s'
      else scan_digits false s
  end.

Section Maker.
Context `{Paseto}.

(** * Issuing *)
Definition SetString (k v : string) : Payload → Payload := <[k := VStr v]>.
Definition SetTime (k : string) (t : Z) : Payload → Payload := <[k := VTime (stamp t)]>.
Definition set_if (b : bool) (f : Payload → Payload) (p : Payload) : Payload :=
  if b then f p else p.
Definition nonempty (s : string) : bool := bool_decide (s ≠ "").

Definition setSessionID (sid : UUID) : Payload → Payload :=
  set_if (negb (uuid_Nil sid)) (SetString "sid" (uuid_String sid)).
Definition setAPIKeyID (id : UUID) : Payload → Payload :=
  set_if (negb (uuid_Nil id)) (SetString "akid" (uuid_String id)).
Definition setLabelClaims (c : Claims) (p : Payload) : Payload :=
  let p := set_if (bool_decide (BlockedLabels c ≠ []))
             (<["blocked_labels" := VList (BlockedLabels c)]>) p in
  set_if (bool_decide (AllowedLabels c ≠ [])) (<["allowed_labels" := VList (AllowedLabels c)]>) p.

(** What the three makers write first. *)
Definition base_claims (now ttl : Z) (c : Claims) : Payload :=
  let p := SetTime "iat" now ∅ in
  let p := SetTime "nbf" now p in
  let p := SetTime "exp" (now + ttl) p in
  let p := SetString "user_id" (uuid_String (UserID c)) p in
  let p := SetString "username" (Username c) p in
  let p := SetString "is_admin" (if IsAdmin c then "true" else "false") p in
  let p := set_if (nonempty (MaxContentRating c))
             (SetString "max_content_rating" (MaxContentRating c)) p in
  let p := setLabelClaims c p in
  SetString "session_epoch" (Itoa (SessionEpoch c)) p.

Definition access_payload (now : Z) (c : Claims) : Payload :=
  let p := base_claims now AccessTokenTTL c in
  let p := set_if (Switched c) (SetString "switched" "true") p in
  setSessionID (SessionID c) p.
Definition IssueAccessToken (now : Z) (c : Claims) : string := seal (access_payload now c).

Definition stream_payload (now : Z) (c : Claims) (fileID : UUID) : Payload :=
  let p := base_claims now StreamTokenTTL c in
  let p := SetString "purpose" "stream" p in
  let p := SetString "file_id" (uuid_String fileID) p in
  let p := setSessionID (SessionID c) p in
  setAPIKeyID (APIKeyID c) p.
Definition IssueStreamToken (now : Z) (c : Claims) (fileID : UUID) : string :=
  seal (stream_payload now c fileID).

Definition asset_payload (now : Z) (c : Claims) : Payload :=
  let p := base_claims now AssetTokenTTL c in
  let p := SetString "purpose" "asset" p in
  let p := set_if (Switched c) (SetString "switched" "true") p in
  let p := setSessionID (SessionID c) p in
  setAPIKeyID (APIKeyID c) p.
Definition IssueAssetToken (now : Z) (c : Claims) : string := seal (asset_payload now c).

(** The random [jti] is an argument. *)
Definition challenge_payload (now : Z) (jti : UUID) (userID : UUID) (epoch : Z) : Payload :=
  let p := SetTime "iat" now ∅ in
  let p := SetTime "nbf" now p in
  let p := SetTime "exp" (now + TOTPChallengeTTL) p in
  let p := SetString "jti" (uuid_String jti) p in
  let p := SetString "user_id" (uuid_String userID) p in
  let p := SetString "session_epoch" (Itoa epoch) p in
  SetString "purpose" "totp_challenge" p.
Definition IssueTOTPChallengeToken (now : Z) (jti userID : UUID) (epoch : Z) : string :=
  seal (challenge_payload now jti userID epoch).

(** * Validation *)
Definition GetString (k : string) (p : Payload) : option string :=
  match p !! k with Some (VStr s) => Some s | _ => None end.
Definition GetTime (k : string) (p : Payload) : option Z :=
  match p !! k with Some (VTime t) => Some t | _ => None end.
Definition GetList (k : string) (p : Payload) : list string :=
  match p !! k with Some (VList l) => l | _ => [] end.
(** [s, _ := token.GetString(k)] *)
Definition str_or_empty (k : string) (p : Payload) : string := default "" (GetString k p).
(** A UUID claim, ignored when absent, empty or malformed. *)
Definition uuid_claim (k : string) (p : Payload) : option UUID :=
  let s := str_or_empty k p in if nonempty s then uuid_Parse s else None.

(** The zero [time.Time], 1 January of year 1. *)
Definition zero_time : Z := -62135596800 * second.

Inductive TokenError := ErrToken | ErrTokenExpired | ErrTokenNotYet | ErrNoUserID | ErrBadUserID.

Definition claims_of (userID : UUID) (exp : Z) (p : Payload) : Claims := {|
  UserID := userID; Username := str_or_empty "username" p;
  IsAdmin := bool_decide (str_or_empty "is_admin" p = "true");
  MaxContentRating := str_or_empty "max_content_rating" p;
  BlockedLabels := GetList "blocked_labels" p; AllowedLabels := GetList "allowed_labels" p;
  SessionEpoch := scan_d (str_or_empty "session_epoch" p);
  IssuedAt := default zero_time (GetTime "iat" p); ExpiresAt := exp;
  Purpose := str_or_empty "purpose" p; FileID := uuid_claim "file_id" p;
  Switched := bool_decide (str_or_empty "switched" p = "true");
  TokenID := str_or_empty "jti" p;
  SessionID := default Nil (uuid_claim "sid" p);
  APIKeyID := default Nil (uuid_claim "akid" p); APIKeyScope := "" |}.

Definition ValidateAccessToken (now : Z) (s : string) : Claims + TokenError :=
  match unseal s with
  | None => inr ErrToken
  | Some p =>
      match GetTime "exp" p with
      | None => inr ErrTokenExpired
      | Some exp =>
          if exp <? now then inr ErrTokenExpired
          else if match GetTime "nbf" p with Some nbf => now <? nbf | None => false end
          then inr ErrTokenNotYet
          else match GetString "user_id" p with
               | None => inr ErrNoUserID
               | Some u => match uuid_Parse u with
                           | None => inr ErrBadUserID
                           | Some userID => inl (claims_of userID exp p)
                           end
               end
      end
  end.

(** The three tokens of a sign-in. *)
Inductive Kind := KAccess | KStream (fileID : UUID) | KAsset.
Definition Issue (k : Kind) : Z → Claims → string :=
  match k with
  | KAccess => IssueAccessToken
  | KStream f => λ now c, IssueStreamToken now c f
  | KAsset => IssueAssetToken
  end.
Definition TTL (k : Kind) : Z :=
  match k with KAccess => AccessTokenTTL | KStream _ => StreamTokenTTL | KAsset => AssetTokenTTL end.

(** The claims a token of each kind carries. *)
Definition carried (k : Kind) (now : Z) (c : Claims) : Claims := {|
  UserID := UserID c; Username := Username c; IsAdmin := IsAdmin c;
  MaxContentRating := MaxContentRating c; BlockedLabels := BlockedLabels c;
  AllowedLabels := AllowedLabels c; SessionEpoch := SessionEpoch c;
  IssuedAt := stamp now; ExpiresAt := stamp (now + TTL k);
  Purpose := match k with KAccess => "" | KStream _ => "stream" | KAsset => "asset" end;
  FileID := match k with KStream f => Some f | _ => None end;
  Switched := match k with KStream _ => false | _ => Switched c end;
  TokenID := ""; SessionID := SessionID c;
  APIKeyID := match k with KAccess => Nil | _ => APIKeyID c end; APIKeyScope := "" |}.

(** [IssueRefreshToken] draws a UUID; its text is the token. *)
Definition refresh_raw (id : UUID) : string := uuid_String id.

End Maker.

(** * The text of an epoch *)
Lemma digit_run_digits (s : string) : sforall is_digit s = true → digit_run s = s.
Proof. induction s as [|c s IH]; [done|]. simpl. intros [-> Hs]%andb_true_iff. by rewrite IH. Qed.

Lemma digit_plain (c : ascii) : is_digit c = true →
  c ≠ chr 10 ∧ c ≠ chr 45 ∧ c ≠ chr 43 ∧ is_space c = false.
Proof.
  intros H. repeat split; try (intros ->; vm_compute in H; discriminate).
  pose proof (digits_no_space (String c "")) as Hs. simpl in Hs. rewrite H in Hs.
  specialize (Hs eq_refl). unfold no_space in Hs. simpl in Hs. by destruct (is_space c).
Qed.

Lemma scan_d_digits (s : string) (n : Z) (neg : bool) :
  sforall is_digit s = true → s ≠ "" → digits_val 0 s = Some n → in_int64 (if neg then - n else n) →
  scan_digits neg s = if neg then - n else n.
Proof.
  intros Hs Hne Hd Hn. unfold scan_digits. rewrite digit_run_digits, Hd by done.
  by rewrite decide_False, decide_True.
Qed.

Lemma scan_d_Itoa (z : Z) : in_int64 z → scan_d (Itoa z) = z.
Proof.
  intros Hz. destruct (Z.ltb_spec z 0) as [Hn|Hn].
  - destruct z as [|p|p]; [lia|lia|]. destruct (pretty_N_digits (N.pos p)) as (Hs & Hv & He).
    change (Itoa (Z.neg p)) with (String "-" (pretty (N.pos p))).
    change (scan_digits true (pretty (N.pos p)) = Z.neg p). by rewrite (scan_d_digits _ _ _ Hs He Hv).
  - rewrite Itoa_nonneg by done. destruct (pretty_N_digits (Z.to_N z)) as (Hs & Hv & He).
    rewrite Z2N.id in Hv by done. destruct (pretty (Z.to_N z)) as [|c s] eqn:E; [done|].
    pose proof Hs as Hc. simpl in Hc. apply andb_true_iff in Hc as [Hc _].
    destruct (digit_plain c Hc) as (H1 & H2 & H3 & H4). unfold scan_d.
    rewrite (bool_decide_false _ H1), H4, (bool_decide_false _ H2), (bool_decide_false _ H3).
    by rewrite (scan_d_digits _ _ false Hs He Hv).
Qed.

(** * Reading back what was written *)
Section Roundtrip.
Context `{PasetoLaws}.

Lemma lookup_set_if (b : bool) k v (p : Payload) :
  set_if b <[k := v]> p !! k = if b then Some v else p !! k.
Proof. unfold set_if. destruct b; [by rewrite lookup_insert_eq|done]. Qed.
Lemma pay_eq (k : string) v (p : Payload) : <[k := v]> p !! k = Some v.
Proof. apply lookup_insert_eq. Qed.
Lemma pay_ne (k : string) v (p : Payload) k' : k ≠ k' → <[k := v]> p !! k' = p !! k'.
Proof. apply lookup_insert_ne. Qed.
Lemma lookup_set_if_ne (b : bool) k v (p : Payload) k' :
  k ≠ k' → set_if b <[k := v]> p !! k' = p !! k'.
Proof. intros Hk. unfold set_if. destruct b; [by rewrite lookup_insert_ne|done]. Qed.

Lemma stamp_window (now t ttl : Z) : now <= t → t <= stamp (now + ttl) →
  (stamp (now + ttl) <? t) = false ∧ (t <? stamp now) = false.
Proof. intros. pose proof (stamp_second now). split; apply Z.ltb_ge; lia. Qed.

Lemma uuid_claim_spec (k : string) (p : Payload) (u : UUID) :
  uuid_ok u → p !! k = (if negb (uuid_Nil u) then Some (VStr (uuid_String u)) else None) →
  default Nil (uuid_claim k p) = u.
Proof.
  intros Hu Hk. unfold uuid_claim, str_or_empty, GetString. rewrite Hk.
  unfold uuid_Nil, nonempty. destruct (N.eqb_spec u Nil) as [->|]; [done|]. simpl.
  rewrite bool_decide_true by apply uuid_String_ne. by rewrite uuid_Parse_String.
Qed.

(** Whether the claims fit their Go types. *)
Definition claims_ok (k : Kind) (c : Claims) : Prop :=
  uuid_ok (UserID c) ∧ uuid_ok (SessionID c) ∧ uuid_ok (APIKeyID c) ∧ in_int64 (SessionEpoch c)
  ∧ match k with KStream f => uuid_ok f | _ => True end.

Definition payload (k : Kind) (now : Z) (c : Claims) : Payload :=
  match k with
  | KAccess => access_payload now c
  | KStream f => stream_payload now c f
  | KAsset => asset_payload now c
  end.
Lemma Issue_payload k now c : Issue k now c = seal (payload k now c).
Proof. by destruct k. Qed.

Ltac look :=
  unfold payload, access_payload, stream_payload, asset_payload, base_claims, setLabelClaims,
    setSessionID, setAPIKeyID, SetString, SetTime;
  repeat first
    [ rewrite pay_ne by discriminate | rewrite lookup_set_if_ne by discriminate
    | rewrite pay_eq | rewrite lookup_set_if | rewrite lookup_empty ].

Lemma payload_times k now c :
  payload k now c !! "exp" = Some (VTime (stamp (now + TTL k)))
  ∧ payload k now c !! "nbf" = Some (VTime (stamp now))
  ∧ payload k now c !! "iat" = Some (VTime (stamp now))
  ∧ payload k now c !! "user_id" = Some (VStr (uuid_String (UserID c))).
Proof. destruct k; look; done. Qed.

Ltac claim_read := unfold str_or_empty, uuid_claim, str_or_empty, GetString, GetList; look; simpl.

Lemma nonempty_empty (s : string) : nonempty s = false → s = "".
Proof. unfold nonempty. by destruct s. Qed.

Lemma carried_labels k now c :
  GetList "blocked_labels" (payload k now c) = BlockedLabels c
  ∧ GetList "allowed_labels" (payload k now c) = AllowedLabels c.
Proof.
  split; destruct k; claim_read; case_bool_decide as Hb; try done;
    destruct (BlockedLabels c), (AllowedLabels c); naive_solver.
Qed.

Lemma carried_identity k now c :
  str_or_empty "username" (payload k now c) = Username c
  ∧ bool_decide (str_or_empty "is_admin" (payload k now c) = "true") = IsAdmin c
  ∧ str_or_empty "max_content_rating" (payload k now c) = MaxContentRating c
  ∧ str_or_empty "session_epoch" (payload k now c) = Itoa (SessionEpoch c)
  ∧ str_or_empty "jti" (payload k now c) = "".
Proof.
  repeat split; destruct k; claim_read; try done; try (by destruct (IsAdmin c));
    destruct (nonempty (MaxContentRating c)) eqn:E; try done; by rewrite nonempty_empty.
Qed.

Lemma carried_sid k now c : uuid_ok (SessionID c) → uuid_ok (APIKeyID c) →
  default Nil (uuid_claim "sid" (payload k now c)) = SessionID c
  ∧ default Nil (uuid_claim "akid" (payload k now c))
    = match k with KAccess => Nil | _ => APIKeyID c end.
Proof.
  intros Hs Ha. split; destruct k; try (apply uuid_claim_spec; [done|]; by look); done.
Qed.

Lemma carried_purpose k now c : match k with KStream f => uuid_ok f | _ => True end →
  str_or_empty "purpose" (payload k now c) = Purpose (carried k now c)
  ∧ uuid_claim "file_id" (payload k now c) = FileID (carried k now c)
  ∧ bool_decide (str_or_empty "switched" (payload k now c) = "true") = Switched (carried k now c).
Proof.
  intros Hf. destruct k as [|f|]; claim_read; repeat split; try done; try (by destruct (Switched c)).
  unfold nonempty. rewrite bool_decide_true by apply uuid_String_ne. by apply uuid_Parse_String.
Qed.

Lemma carried_claims k now c : claims_ok k c →
  claims_of (UserID c) (stamp (now + TTL k)) (payload k now c) = carried k now c.
Proof.
  intros (Hu & Hs & Ha & He & Hf). unfold claims_of.
  destruct (payload_times k now c) as (_ & _ & Hiat & _), (carried_labels k now c) as [-> ->],
    (carried_identity k now c) as (-> & -> & -> & -> & ->), (carried_sid k now c Hs Ha) as [-> ->],
    (carried_purpose k now c Hf) as (-> & -> & ->).
  rewrite scan_d_Itoa by done. unfold GetTime. rewrite Hiat. done.
Qed.

(** Validation of a payload with its times and its user. *)
Lemma validate_seal (p : Payload) (t exp nbf : Z) (u : UUID) :
  p !! "exp" = Some (VTime exp) → p !! "nbf" = Some (VTime nbf) →
  p !! "user_id" = Some (VStr (uuid_String u)) → uuid_ok u →
  ValidateAccessToken t (seal p)
  = if exp <? t then inr ErrTokenExpired
    else if t <? nbf then inr ErrTokenNotYet else inl (claims_of u exp p).
Proof.
  intros He Hn Hi Hu. unfold ValidateAccessToken, GetTime. rewrite unseal_seal, He, Hn.
  case_match; [done|]. case_match; [done|]. unfold GetString. rewrite Hi.
  by rewrite uuid_Parse_String.
Qed.

(** The window in which a token of kind [k] issued at [now] is accepted. *)
Definition in_window (ttl now t : Z) : Prop := stamp now <= t <= stamp (now + ttl).

Lemma validate_issued (k : Kind) (now t : Z) (c cl : Claims) : claims_ok k c →
  ValidateAccessToken t (Issue k now c) = inl cl ↔ in_window (TTL k) now t ∧ cl = carried k now c.
Proof.
  intros Hc. destruct (payload_times k now c) as (He & Hn & _ & Hi).
  rewrite Issue_payload, (validate_seal _ _ _ _ (UserID c)) by (done || apply Hc).
  rewrite carried_claims by done. unfold in_window.
  destruct (Z.ltb_spec (stamp (now + TTL k)) t), (Z.ltb_spec t (stamp now)); split;
    try (intros [? ->]; first [lia | done]); intros [= <-]. split; [lia|done].
Qed.

Lemma validate_challenge (now t : Z) (jti u : UUID) (e : Z) (cl : Claims) : uuid_ok u →
  ValidateAccessToken t (IssueTOTPChallengeToken now jti u e) = inl cl →
  Purpose cl = "totp_challenge" ∧ TokenID cl = uuid_String jti ∧ UserID cl = u.
Proof.
  intros Hu. unfold IssueTOTPChallengeToken.
  rewrite (validate_seal _ _ (stamp (now + TOTPChallengeTTL)) (stamp now) u);
    [| unfold challenge_payload; by look ..| done].
  case_match; [done|]. case_match; [done|]. intros [= <-]. simpl. split; [|split; [|done]].
  all: claim_read; done.
Qed.

(** C36: a token says what it was issued to say, while it is accepted: for each
    kind, validation at time [t] of a token issued at [now] for claims that fit
    their types refuses it as expired after its lifetime, refuses it as not yet
    valid before it was issued (both to the second the token writes), and in
    between returns exactly the claims of that kind - the access token without
    an API key, the stream token bound to its file and never marked as
    switched, no token with an API key's scope. *)
Theorem token_roundtrip (k : Kind) (now t : Z) (c : Claims) : claims_ok k c →
  ValidateAccessToken t (Issue k now c)
  = if stamp (now + TTL k) <? t then inr ErrTokenExpired
    else if t <? stamp now then inr ErrTokenNotYet
    else inl (carried k now c).
Proof.
  intros Hc. destruct (payload_times k now c) as (He & Hn & _ & Hi).
  rewrite Issue_payload, (validate_seal _ _ _ _ (UserID c)) by (done || apply Hc).
  by rewrite carried_claims.
Qed.
End Roundtrip.

(** * An instance of the libraries' interface *)
#[global] Instance value_eq_dec : EqDecision value.
Proof. solve_decision. Defined.
#[global] Program Instance value_countable : Countable value :=
  inj_countable'
    (λ v, match v with VStr s => inl s | VTime t => inr (inl t) | VList l => inr (inr l) end)
    (λ x, match x with inl s => VStr s | inr (inl t) => VTime t | inr (inr l) => VList l end) _.
Next Obligation. by intros []. Qed.

Module Sample.
(** The text of a token is the number of its payload. *)
Definition number_text (n : N) : string := pretty n.
Definition text_number (s : string) : option N := Z.to_N <$> digits_val 0 s.
Lemma text_number_text n : text_number (number_text n) = Some n.
Proof.
  unfold text_number, number_text. destruct (pretty_N_digits n) as (_ & -> & _). simpl.
  by rewrite N2Z.id.
Qed.

#[global] Instance sample_paseto : Paseto := {
  seal p := number_text (N.pos (encode p));
  unseal s := n ← text_number s; match n with N.pos q => decode q | N0 => None end;
  stamp t := t `div` second * second;
  uuid_String := number_text;
  uuid_Parse := text_number }.
#[global] Instance sample_laws : PasetoLaws.
Proof.
  split.
  - intros p. unfold seal, unseal. simpl. rewrite text_number_text. simpl. apply decode_encode.
  - intros t. unfold stamp. simpl. pose proof (Z.div_mod t second). unfold second in *.
    pose proof (Z.mod_pos_bound t 1000000000). lia.
  - intros u _. apply text_number_text.
  - intros u. apply pretty_N_digits.
Qed.

Lemma sample_seal_ne (p : Payload) : seal p ≠ "".
Proof. simpl. unfold number_text. apply pretty_N_digits. Qed.

Definition sample_claims : Claims := {|
  UserID := 7%N; Username := "ada"; IsAdmin := false; MaxContentRating := "PG-13";
  BlockedLabels := ["horror"]; AllowedLabels := []; SessionEpoch := 3; IssuedAt := 0;
  ExpiresAt := 0; Purpose := ""; FileID := None; Switched := false; TokenID := "";
  SessionID := 9%N; APIKeyID := Nil; APIKeyScope := "" |}.
Lemma sample_claims_ok : claims_ok (KStream 5%N) sample_claims.
Proof. repeat split; vm_compute; congruence. Qed.
End Sample.

Lemma token_roundtrip_witness :
  ValidateAccessToken (60 * minute) (Issue (KStream 5%N) 0 Sample.sample_claims)
  = inl (carried (KStream 5%N) 0 Sample.sample_claims).
Proof.
  rewrite (token_roundtrip (KStream 5%N) 0 (60 * minute) Sample.sample_claims Sample.sample_claims_ok).
  reflexivity.
Defined.
