(* ===== verification/APIKey.v ===== *)
(** Personal API keys: [internal/auth/apikey.go].

    A key is ["osk_"] and 43 base62 digits of 32 random bytes (an argument).
    The digits are produced least significant first, padded and reversed, as
    the code does. *)
From S2P Require Import Prelude.
From S2P Require Import GoStrings.
From S2P Require Import GoBytes.
From S2P Require Import SHA256.

Local Open Scope Z_scope.

Definition APIKeyPrefix : string := "osk_".
Definition apiKeyBodyLen : nat := 43.
Definition apiKeyDisplayLen : nat := 8.
Definition APIKeyScopeFull : string := "full".
Definition APIKeyScopeReadOnly : string := "read_only".
Definition base62Alphabet : string :=
  "0123456789ABCDEFGHIJKLMNOPQRSTUVWXYZabcdefghijklmnopqrstuvwxyz".

Definition alphabet : bytes := of_string base62Alphabet.
(** [base62Alphabet[d]] for a digit [d] *)
Definition base62_char (d : Z) : ascii := nth (Z.to_nat d) alphabet "0"%char.

(** The loop [for n.Sign() > 0]: the digits of [n], least significant first;
    32 bytes have at most 256 of them. *)
Fixpoint base62_digits (fuel : nat) (n : Z) : bytes :=
  match fuel with
  | O => []
  | S fuel => if n <=? 0 then [] else base62_char (n `mod` 62) :: base62_digits fuel (n `div` 62)
  end.

(** [encodeBase62] *)
Definition encodeBase62 (b : bytes) (width : nat) : string :=
  let out := base62_digits (8 * length b) (be_combine b) in
  to_string (reverse (out ++ replicate (width - length out) "0"%char)).

(** [HashAPIKey] *)
Definition HashAPIKey (raw : string) : string := HashToken raw.

(** [APIKeyDisplayPrefix] *)
Definition APIKeyDisplayPrefix (raw : string) : string :=
  let n := (String.length APIKeyPrefix + apiKeyDisplayLen)%nat in
  if (String.length raw <=? n)%nat then raw else String.substring 0 n raw.

(** [GenerateAPIKey] on the random bytes drawn. *)
Definition GenerateAPIKey (random : bytes) : string * string * string :=
  let raw := APIKeyPrefix +:+ encodeBase62 random apiKeyBodyLen in
  (raw, HashAPIKey raw, APIKeyDisplayPrefix raw).

(** [LooksLikeAPIKey] *)
Definition LooksLikeAPIKey (s : string) : bool :=
  match CutPrefix s APIKeyPrefix with
  | None => false
  | Some body =>
      (String.length body =? apiKeyBodyLen)%nat && sforall (λ c, mem c alphabet) body
  end.

(** [ValidAPIKeyScope] *)
Definition ValidAPIKeyScope (scope : string) : bool :=
  String.eqb scope APIKeyScopeFull || String.eqb scope APIKeyScopeReadOnly.

(** * What a key means *)
Fixpoint index_in (c : ascii) (l : bytes) (i : Z) : Z :=
  match l with
  | [] => 0
  | x :: l => if Ascii.eqb x c then i else index_in c l (i + 1)
  end.
Definition base62_value (c : ascii) : Z := index_in c alphabet 0.

(** The number a base62 text stands for. *)
Definition decodeBase62 (s : string) : Z :=
  foldl (λ acc c, acc * 62 + base62_value c) 0 (of_string s).

Lemma base62_char_value (d : Z) : 0 <= d < 62 →
  base62_value (base62_char d) = d ∧ mem (base62_char d) alphabet = true.
Proof.
  intros Hd. assert (forallb (λ n, (base62_value (base62_char (Z.of_nat n)) =? Z.of_nat n)
    && mem (base62_char (Z.of_nat n)) alphabet) (seq 0 62) = true) as H by (vm_compute; done).
  rewrite forallb_forall in H. pose proof (H (Z.to_nat d) (proj2 (in_seq 62 0 (Z.to_nat d)) ltac:(lia))) as Hd'.
  rewrite Z2Nat.id in Hd' by lia. apply andb_true_iff in Hd' as [H1 H2].
  by apply Z.eqb_eq in H1.
Qed.

(** The value of digits, least significant first. *)
Fixpoint le_value (l : bytes) : Z :=
  match l with [] => 0 | c :: l => base62_value c + 62 * le_value l end.
#[local] Arguments base62_value : simpl never.
#[local] Arguments base62_char : simpl never.

Lemma le_value_app (a b : bytes) : le_value (a ++ b) = le_value a + 62 ^ len a * le_value b.
Proof.
  induction a as [|c a IH]; [change (len []) with 0; simpl app; simpl le_value; lia|].
  simpl. rewrite IH, len_cons.
  rewrite Z.pow_add_r by (pose proof (len_nonneg a); lia). lia.
Qed.

Lemma decode_reverse (l : bytes) : decodeBase62 (to_string (reverse l)) = le_value l.
Proof.
  unfold decodeBase62. rewrite of_to_string. induction l as [|c l IH]; [done|].
  rewrite reverse_cons, foldl_app, IH. simpl. lia.
Qed.

(** ** The digits of a number *)
Lemma base62_digits_spec (fuel : nat) (n : Z) : 0 <= n < 2 ^ Z.of_nat fuel →
  le_value (base62_digits fuel n) = n
  ∧ Forall (λ c, mem c alphabet = true) (base62_digits fuel n)
  ∧ ∀ w : nat, n < 62 ^ Z.of_nat w → (length (base62_digits fuel n) ≤ w)%nat.
Proof.
  revert n. induction fuel as [|fuel IH]; intros n Hn.
  { simpl. simpl in Hn. split; [lia|]. split; [constructor|]. intros; lia. }
  cbn [base62_digits]. destruct (Z.leb_spec n 0) as [Hz|Hz].
  { simpl. split; [lia|]. split; [constructor|]. intros; simpl; lia. }
  pose proof (Z.mod_pos_bound n 62 ltac:(lia)) as Hm. pose proof (Z.div_mod n 62 ltac:(lia)) as Hdm.
  assert (0 <= n `div` 62 < 2 ^ Z.of_nat fuel) as Hdiv.
  { split; [apply Z.div_pos; lia|]. apply Z.div_lt_upper_bound; [lia|].
    rewrite Nat2Z.inj_succ, Z.pow_succ_r in Hn by lia.
    pose proof (Z.pow_pos_nonneg 2 (Z.of_nat fuel)). lia. }
  destruct (IH _ Hdiv) as (Hv & Ha & Hl), (base62_char_value _ Hm) as [Hc1 Hc2].
  split; [cbn [le_value]; rewrite Hv, Hc1; lia|].
  split; [by constructor|]. intros [|w] Hw; [simpl in Hw; lia|]. simpl. apply le_n_S, Hl.
  apply Z.div_lt_upper_bound; [lia|]. by rewrite Nat2Z.inj_succ, Z.pow_succ_r in Hw by lia.
Qed.

Lemma le_value_zeros (n : nat) : le_value (replicate n "0"%char) = 0.
Proof. induction n as [|n IH]; [done|]. simpl. by rewrite IH. Qed.

Lemma sforall_to_string (p : ascii → bool) (b : bytes) :
  Forall (λ c, p c = true) b → sforall p (to_string b) = true.
Proof. induction 1 as [|c b Hc _ IH]; [done|]. simpl. by rewrite Hc, IH. Qed.
Lemma length_to_string (b : bytes) : String.length (to_string b) = length b.
Proof. induction b as [|c b IH]; [done|]. simpl. by rewrite IH. Qed.

Lemma HasPrefix_substring (n : nat) (s : string) : HasPrefix s (String.substring 0 n s) = true.
Proof.
  unfold HasPrefix. revert n. induction s as [|c s IH]; intros [|n]; try done.
  simpl. rewrite Ascii.eqb_refl. apply IH.
Qed.
Lemma length_substring (n : nat) (s : string) :
  (n ≤ String.length s)%nat → String.length (String.substring 0 n s) = n.
Proof. revert n. induction s as [|c s IH]; intros [|n] Hn; simpl in *; try lia. by rewrite IH by lia. Qed.

(** ** [encodeBase62] of 32 bytes *)
Lemma encodeBase62_32 (random : bytes) : length random = 32%nat →
  String.length (encodeBase62 random 43) = 43%nat
  ∧ sforall (λ c, mem c alphabet) (encodeBase62 random 43) = true
  ∧ decodeBase62 (encodeBase62 random 43) = be_combine random.
Proof.
  intros Hr. pose proof (be_combine_range random) as Hn. unfold len in Hn. rewrite Hr in Hn.
  unfold encodeBase62. rewrite Hr.
  destruct (base62_digits_spec (8 * 32) (be_combine random)) as (Hv & Ha & Hl); [done|].
  specialize (Hl 43%nat). set (out := base62_digits _ _) in *.
  assert (length out ≤ 43)%nat as Hle.
  { apply Hl. eapply Z.lt_trans; [apply Hn|]. vm_compute. done. }
  split; [|split].
  - rewrite length_to_string, length_reverse, length_app, length_replicate. lia.
  - apply sforall_to_string, Forall_reverse, Forall_app. split; [done|].
    by apply Forall_replicate.
  - rewrite decode_reverse, le_value_app, le_value_zeros, Hv. lia.
Qed.

(** A generated key is a key: 32 random bytes give ["osk_"] and exactly 43
    base62 digits, which [LooksLikeAPIKey] recognises, and the digits say the
    bytes back, so two keys are equal only when the bytes drawn were. *)
Lemma generated_key_exact (random : bytes) : length random = 32%nat →
  let '(raw, hash, display) := GenerateAPIKey random in
  LooksLikeAPIKey raw = true
  ∧ CutPrefix raw APIKeyPrefix = Some (encodeBase62 random apiKeyBodyLen)
  ∧ String.length raw = 47%nat
  ∧ be_split 32 (decodeBase62 (encodeBase62 random apiKeyBodyLen)) = random
  ∧ String.length display = 12%nat ∧ HasPrefix raw display = true
  ∧ hash = HashToken raw.
Proof.
  intros Hr. destruct (encodeBase62_32 random Hr) as (Hl & Ha & Hd). unfold GenerateAPIKey.
  assert (String.length (APIKeyPrefix +:+ encodeBase62 random apiKeyBodyLen) = 47%nat) as Hraw.
  { change (4 + String.length (encodeBase62 random 43) = 47)%nat. by rewrite Hl. }
  split; [|split; [apply CutPrefix_app|split; [exact Hraw|split; [|split; [|split; [|done]]]]]].
  - unfold LooksLikeAPIKey. rewrite CutPrefix_app. unfold apiKeyBodyLen. by rewrite Hl, Ha.
  - unfold apiKeyBodyLen. rewrite Hd. rewrite <- Hr. apply be_split_combine.
  - unfold APIKeyDisplayPrefix. rewrite Hraw. apply length_substring. rewrite Hraw. simpl. lia.
  - unfold APIKeyDisplayPrefix. rewrite Hraw. apply HasPrefix_substring.
Qed.

Lemma generated_key_exact_witness :
  LooksLikeAPIKey (GenerateAPIKey (replicate 32 "x"%char)).1.1 = true.
Proof. apply (generated_key_exact (replicate 32 "x"%char)). reflexivity. Defined.
