(* ===== verification/Auth.v ===== *)
(** Admitting requests: [internal/api/middleware/auth.go] and [apikey.go].

    A request is the part of it the middleware reads.  The two stores the
    middleware asks - epochs and sessions, API keys - are given by their
    answers at the moment of the request; [Sessions] supplies the first from
    the database.  Errors keep the distinctions the code acts on. *)
From S2P Require Import Prelude.
From S2P Require Import GoStrings.
From S2P Require Import GoBytes.
From S2P Require Import RateLimit.
From S2P Require Import SHA256.
From S2P Require Import Tokens.
From S2P Require Import APIKey.

Local Open Scope Z_scope.

(** * What the middleware asks *)
(** [ErrUserNotFound] and any other error. *)
Inductive uerr := UserGone | UserErr.
(** [ErrAPIKeyNotFound] and any other error. *)
Inductive kerr := KeyGone | KeyErr.

(** [SessionEpochReader], with the optional [SessionStateReader]. *)
Record EpochReader := {
  GetSessionEpoch : UUID → Z + uerr;
  GetSessionState : option (UUID → UUID → (Z * bool) + uerr) }.

Record APIKeyIdentity := {
  KeyID : UUID; id_UserID : UUID; Scope : string; id_Username : string; id_IsAdmin : bool;
  id_MaxContentRating : string; id_BlockedLabels : list string; id_AllowedLabels : list string;
  id_SessionEpoch : Z }.

(** [APIKeyResolver] *)
Record KeyResolver := {
  ResolveAPIKey : string → APIKeyIdentity + kerr;
  APIKeyState : UUID → UUID → (Z * bool) + uerr }.

Record Authenticator := { epochs : option EpochReader; keys : option KeyResolver }.

(** * Requests *)
Record Request := {
  Method : string;
  Authorization : string;          (* the header, "" when absent *)
  X_Api_Key : string;
  onscreen_at : option string;     (* the cookie *)
  q_token : string; q_view_as : string;
  URLParams : option (list (string * string));   (* chi's route context *)
  ctx : option Claims }.           (* [ClaimsFromContext] *)
#[global] Instance Request_eta : Eta Request := λ r,
  Build_Request (Method r) (Authorization r) (X_Api_Key r) (onscreen_at r) (q_token r)
    (q_view_as r) (URLParams r) (ctx r).

(** [WithClaims] *)
Definition WithClaims (r : Request) (c : Claims) : Request := r <| ctx := Some c |>.

Inductive autherr :=
  ErrBadToken (e : TokenError) | ErrPurpose | ErrStreamRoute | ErrStreamFile | ErrQueryPurpose
| errRevoked | ErrAPIKeyNotFound | ErrKeyLookup | errAPIKeyReadOnly.

Inductive Response :=
  Served (r : Request)   (* the next handler runs, on this request *)
| Refused (status : Z).

(** * Credentials *)
(** [presentedAPIKey] *)
Definition presentedAPIKey (r : Request) : option string :=
  match CutPrefix (Authorization r) "Bearer " with
  | Some rest =>
      let tok := TrimSpace rest in if HasPrefix tok APIKeyPrefix then Some tok else None
  | None => let k := TrimSpace (X_Api_Key r) in if nonempty k then Some k else None
  end.

(** [isReadMethod] *)
Definition isReadMethod (m : string) : bool := mem m ["GET"; "HEAD"; "OPTIONS"].

(** The key of the [apiKeyTouchInterval] throttle: when each was last written. *)
Definition apiKeyTouchInterval : Z := 5 * minute.
Definition touchAPIKey (now : Z) (keyID : UUID) (touched : gmap UUID Z) : gmap UUID Z * bool :=
  match touched !! keyID with
  | Some last => if now - last <? apiKeyTouchInterval then (touched, false)
                 else (<[keyID := now]> touched, true)
  | None => (<[keyID := now]> touched, true)
  end.

(** The claims [admitAPIKey] builds from a key. *)
Definition key_claims (now : Z) (id : APIKeyIdentity) : Claims := {|
  UserID := id_UserID id; Username := id_Username id; IsAdmin := id_IsAdmin id;
  MaxContentRating := id_MaxContentRating id; BlockedLabels := id_BlockedLabels id;
  AllowedLabels := id_AllowedLabels id; SessionEpoch := id_SessionEpoch id; IssuedAt := now;
  ExpiresAt := now; Purpose := ""; FileID := None; Switched := false; TokenID := "";
  SessionID := Nil; APIKeyID := KeyID id; APIKeyScope := Scope id |}.

(** [admitAPIKey] but for the write of [touchAPIKey], which changes no answer. *)
Definition admitAPIKey (a : Authenticator) (now : Z) (r : Request) (key : string) :
    Claims + autherr :=
  match keys a with
  | None => inr ErrAPIKeyNotFound
  | Some ks =>
      if negb (LooksLikeAPIKey key) then inr ErrAPIKeyNotFound
      else match ResolveAPIKey ks (HashAPIKey key) with
           | inr KeyGone => inr ErrAPIKeyNotFound
           | inr KeyErr => inr ErrKeyLookup
           | inl id =>
               if String.eqb (Scope id) APIKeyScopeReadOnly && negb (isReadMethod (Method r))
               then inr errAPIKeyReadOnly
               else inl (key_claims now id)
           end
  end.

(** [apiKeyStillValid] *)
Definition apiKeyStillValid (a : Authenticator) (c : Claims) : bool :=
  match keys a with
  | None => false
  | Some ks =>
      match APIKeyState ks (APIKeyID c) (UserID c) with
      | inr UserGone => false
      | inr UserErr => true
      | inl (epoch, live) => live && (epoch =? SessionEpoch c)
      end
  end.

(** [epochValid] *)
Definition epochValid (a : Authenticator) (c : Claims) : bool :=
  if negb (uuid_Nil (APIKeyID c)) then apiKeyStillValid a c
  else match epochs a with
       | None => true
       | Some er =>
           let check (current : Z) :=
             if SessionEpoch c =? 0 then current =? 0 else SessionEpoch c =? current in
           match (if uuid_Nil (SessionID c) then None else GetSessionState er) with
           | Some state =>
               match state (UserID c) (SessionID c) with
               | inl (current, live) => if negb live then false else check current
               | inr UserGone => false
               | inr UserErr => true
               end
           | None =>
               match GetSessionEpoch er (UserID c) with
               | inl current => check current
               | inr UserGone => false
               | inr UserErr => true
               end
           end
       end.

(** [SessionStillValid] *)
Definition SessionStillValid (a : Authenticator) (c : option Claims) : bool :=
  match c with Some c => epochValid a c | None => false end.

Section Middleware.
Context `{Paseto}.

(** [validateGeneralPurposeToken] *)
Definition validateGeneralPurposeToken (now : Z) (token : string) : Claims + autherr :=
  match ValidateAccessToken now token with
  | inr e => inr (ErrBadToken e)
  | inl c => if nonempty (Purpose c) then inr ErrPurpose else inl c
  end.

(** [extractClaims]: [inl None] is no credential. *)
Definition extractClaims (now : Z) (r : Request) : option Claims + autherr :=
  let check tok := match validateGeneralPurposeToken now tok with
                   | inl c => inl (Some c) | inr e => inr e end in
  match CutPrefix (Authorization r) "Bearer " with
  | Some token => check token
  | None =>
      match onscreen_at r with
      | Some v => if nonempty v then check v else inl None
      | None => inl None
      end
  end.

(** [fileScopedParam] *)
Fixpoint first_file_param (ps : list (string * string)) : string :=
  match ps with
  | [] => ""
  | (k, v) :: ps =>
      if mem (ToLower k) ["id"; "fileid"] && nonempty v then v else first_file_param ps
  end.
Definition fileScopedParam (r : Request) : string :=
  match URLParams r with None => "" | Some ps => first_file_param ps end.

(** [extractClaimsAllowQuery] *)
Definition extractClaimsAllowQuery (now : Z) (r : Request) : option Claims + autherr :=
  match extractClaims now r with
  | inl (Some c) => inl (Some c)
  | hdr =>
      if negb (nonempty (q_token r)) then hdr
      else match ValidateAccessToken now (q_token r) with
           | inr e => inr (ErrBadToken e)
           | inl c =>
               if String.eqb (Purpose c) "stream" then
                 let want := fileScopedParam r in
                 if negb (nonempty want) then inr ErrStreamRoute
                 else match FileID c with
                      | None => inr ErrStreamFile
                      | Some f => if String.eqb (uuid_String f) want then inl (Some c)
                                  else inr ErrStreamFile
                      end
               else if String.eqb (Purpose c) "asset" then inl (Some c)
               else inr ErrQueryPurpose
           end
  end.

(** The revocation check on extracted claims. *)
Definition not_revoked (a : Authenticator) (e : option Claims + autherr) : option Claims + autherr :=
  match e with
  | inl (Some c) => if epochValid a c then e else inr errRevoked
  | _ => e
  end.

(** [admit] *)
Definition admit_ (a : Authenticator) (now : Z) (r : Request) (allowQuery : bool) :
    option Claims + autherr :=
  match presentedAPIKey r with
  | Some key => match admitAPIKey a now r key with inl c => inl (Some c) | inr e => inr e end
  | None =>
      not_revoked a (if allowQuery then extractClaimsAllowQuery now r else extractClaims now r)
  end.

(** * The middleware *)
(** [writeAdmitError] *)
Definition writeAdmitError (e : option autherr) : Response :=
  match e with Some errAPIKeyReadOnly => Refused 403 | _ => Refused 401 end.

Definition Required_ (allowQuery : bool) (a : Authenticator) (now : Z) (r : Request) : Response :=
  match admit_ a now r allowQuery with
  | inl (Some c) => Served (WithClaims r c)
  | inl None => writeAdmitError None
  | inr e => writeAdmitError (Some e)
  end.
(** [Required] and [RequiredAllowQueryToken] *)
Definition Required : Authenticator → Z → Request → Response := Required_ false.
Definition RequiredAllowQueryToken : Authenticator → Z → Request → Response := Required_ true.

(** [Optional] *)
Definition Optional (a : Authenticator) (now : Z) (r : Request) : Response :=
  match extractClaims now r with
  | inl (Some c) => Served (if epochValid a c then WithClaims r c else r)
  | _ => Served r
  end.

(** [AdminRequired] *)
Definition admin_check (r : Request) : Response :=
  match ctx r with
  | Some c => if IsAdmin c then Served r else Refused 403
  | None => Refused 403
  end.
Definition AdminRequired (a : Authenticator) (now : Z) (r : Request) : Response :=
  let authenticate := match Required a now r with Served r => admin_check r | e => e end in
  match ctx r with
  | Some c => if nonempty (Purpose c) then authenticate else admin_check r
  | None => authenticate
  end.

(** [RefuseAPIKey] *)
Definition RefuseAPIKey (r : Request) : Response :=
  if match presentedAPIKey r with Some _ => true | None => false end || IsAPIKey (ctx r)
  then Refused 403 else Served r.

(** ** Viewing as another user *)
Record ImpersonatedUser := {
  im_ID : UUID; im_Username : string; im_IsAdmin : bool; im_MaxContentRating : string;
  im_BlockedLabels : list string; im_AllowedLabels : list string }.

(** [ViewAs], with the records the auditor is given: the real admin and the
    target. *)
Definition ViewAs (lookup : UUID → ImpersonatedUser + uerr) (audited : bool) (r : Request) :
    Response * list (UUID * UUID) :=
  if negb (nonempty (q_view_as r)) then (Served r, [])
  else if negb (String.eqb (Method r) "GET") then (Refused 403, [])
  else match ctx r with
       | None => (Refused 403, [])
       | Some caller =>
           if negb (IsAdmin caller) then (Refused 403, [])
           else match uuid_Parse (q_view_as r) with
                | None => (Refused 400, [])
                | Some targetID =>
                    match lookup targetID with
                    | inr UserGone => (Refused 404, [])
                    | inr UserErr => (Refused 500, [])
                    | inl target =>
                        let synth := caller <| UserID := im_ID target |>
                          <| Username := im_Username target |> <| IsAdmin := im_IsAdmin target |>
                          <| MaxContentRating := im_MaxContentRating target |>
                          <| SessionID := Nil |>
                          <| BlockedLabels := im_BlockedLabels target |>
                          <| AllowedLabels := im_AllowedLabels target |> in
                        (Served (WithClaims r synth),
                         if audited then [(UserID caller, im_ID target)] else [])
                    end
                end
       end.

End Middleware.

(** * Which carrier a token works in *)
Section Carriers.
Context `{PasetoLaws}.

(** The token in the [Authorization] header, else in the cookie. *)
Definition header_token (r : Request) : option string :=
  match CutPrefix (Authorization r) "Bearer " with
  | Some t => Some t
  | None => match onscreen_at r with
            | Some v => if nonempty v then Some v else None
            | None => None
            end
  end.

Lemma extractClaims_header now r :
  extractClaims now r
  = match header_token r with
    | Some tok => match validateGeneralPurposeToken now tok with
                  | inl c => inl (Some c) | inr e => inr e end
    | None => inl None
    end.
Proof.
  unfold extractClaims, header_token. destruct (CutPrefix _ _); [done|].
  destruct (onscreen_at r) as [v|]; [|done]. by destruct (nonempty v).
Qed.

(** What the server mints: the tokens of a sign-in and login challenges. *)
Inductive Minted := MToken (k : Kind) (now : Z) (c : Claims) | MChallenge (now : Z) (jti u : UUID) (e : Z).
Definition text_of (m : Minted) : string :=
  match m with
  | MToken k now c => Issue k now c
  | MChallenge now jti u e => IssueTOTPChallengeToken now jti u e
  end.
Definition minted_ok (m : Minted) : Prop :=
  match m with MToken k _ c => claims_ok k c | MChallenge _ _ u _ => uuid_ok u end.

Lemma validate_text_of m : minted_ok m → ∀ t c, ValidateAccessToken t (text_of m) = inl c →
  match m with
  | MToken k now c0 => in_window (TTL k) now t ∧ c = carried k now c0
  | MChallenge _ _ _ _ => Purpose c = "totp_challenge"
  end.
Proof.
  destruct m; simpl; intros Hm t c' Hv; [by apply validate_issued|].
  by apply validate_challenge in Hv as [? _].
Qed.

Lemma general_purpose (m : Minted) (t : Z) (c : Claims) : minted_ok m →
  validateGeneralPurposeToken t (text_of m) = inl c ↔
  ∃ now c0, m = MToken KAccess now c0 ∧ in_window AccessTokenTTL now t ∧ c = carried KAccess now c0.
Proof.
  intros Hm. unfold validateGeneralPurposeToken. split.
  - destruct (ValidateAccessToken t (text_of m)) as [c'|] eqn:E; [|done].
    apply (validate_text_of _ Hm) in E. destruct (nonempty (Purpose c')) eqn:Ep; [done|]. intros [= <-].
    apply nonempty_empty in Ep. destruct m as [[] now c0|]; simpl in E.
    + destruct E. eauto.
    + destruct E as [_ ->]. done.
    + destruct E as [_ ->]. done.
    + congruence.
  - intros (now & c0 & -> & Hw & ->). simpl.
    change (IssueAccessToken now c0) with (Issue KAccess now c0).
    by rewrite (proj2 (validate_issued KAccess now t c0 _ Hm) (conj Hw eq_refl)).
Qed.

Lemma serve_inv (a : Authenticator) (r r' : Request) (e : option Claims + autherr) :
  match not_revoked a e with
  | inl (Some c) => Served (WithClaims r c)
  | inl None => writeAdmitError None
  | inr e => writeAdmitError (Some e)
  end = Served r' ↔ ∃ c, e = inl (Some c) ∧ epochValid a c = true ∧ r' = WithClaims r c.
Proof.
  split.
  - unfold not_revoked. destruct e as [[c|]|[]]; simpl; try done. destruct (epochValid a c) eqn:E; [|done].
    intros [= <-]. eauto.
  - intros (c & -> & Hv & ->). simpl. by rewrite Hv.
Qed.

Lemma query_purpose (m : Minted) (t : Z) (r : Request) (c : Claims) : minted_ok m →
  header_token r = None → q_token r = text_of m → extractClaimsAllowQuery t r = inl (Some c) →
  ∃ k now c0, m = MToken k now c0 ∧ in_window (TTL k) now t ∧ c = carried k now c0
    ∧ match k with KAccess => False | KStream f => fileScopedParam r = uuid_String f | KAsset => True end.
Proof.
  intros Hm Hh Hq. unfold extractClaimsAllowQuery. rewrite extractClaims_header, Hh, Hq.
  case_match; [done|]. destruct (ValidateAccessToken t (text_of m)) as [c'|] eqn:E; [|done].
  apply (validate_text_of _ Hm) in E. destruct m as [k now c0|now jti u e].
  - destruct E as [Hw ->]. destruct k as [|f|]; simpl; [done| |].
    + case_match; [done|]. destruct (String.eqb_spec (uuid_String f) (fileScopedParam r)) as [Hf|]; [|done].
      intros [= <-]. by exists (KStream f), now, c0.
    + intros [= <-]. by exists KAsset, now, c0.
  - rewrite E. simpl. done.
Qed.

(** C8: a token works only in its own carrier.  Whatever the server minted
    (access, stream or asset token, or a login challenge), presented as a
    bearer or in the cookie it is let through to a general route exactly when
    it is an access token, inside its lifetime and not revoked; presented as a
    [?token=] with nothing in the header or cookie it opens no general route,
    and an asset route only for an asset token or for a stream token whose file
    is the one the route names, again inside its lifetime and not revoked. *)
Theorem carrier_matrix (a : Authenticator) (t : Z) (r r' : Request) (m : Minted) :
  minted_ok m → presentedAPIKey r = None →
  (header_token r = Some (text_of m) →
     Required a t r = Served r' ↔
     ∃ now c, m = MToken KAccess now c ∧ in_window AccessTokenTTL now t
       ∧ epochValid a (carried KAccess now c) = true ∧ r' = WithClaims r (carried KAccess now c))
  ∧ (header_token r = None → q_token r = text_of m →
     Required a t r = Refused 401
     ∧ (RequiredAllowQueryToken a t r = Served r' →
        ∃ k now c, m = MToken k now c ∧ in_window (TTL k) now t
          ∧ epochValid a (carried k now c) = true ∧ r' = WithClaims r (carried k now c)
          ∧ match k with
            | KAccess => False
            | KStream f => fileScopedParam r = uuid_String f
            | KAsset => True
            end)).
Proof.
  intros Hm Hk. unfold Required, RequiredAllowQueryToken, Required_, admit_. rewrite Hk. split.
  - intros Hh. rewrite serve_inv, extractClaims_header, Hh. split.
    + intros (c & He & Hv & ->). destruct (validateGeneralPurposeToken t (text_of m)) as [c'|] eqn:E;
        [|done]. apply general_purpose in E as (now & c0 & -> & Hw & ->); [|done].
      simplify_eq. by exists now, c0.
    + intros (now & c & -> & Hw & Hv & ->). exists (carried KAccess now c).
      rewrite (proj2 (general_purpose (MToken KAccess now c) t (carried KAccess now c) Hm)); [done|]. by exists now, c.
  - intros Hh Hq. rewrite extractClaims_header, Hh. split; [done|]. rewrite serve_inv.
    intros (c & He & Hv & ->).
    destruct (query_purpose m t r c Hm Hh Hq He) as (k & now & c0 & -> & Hw & -> & Hf).
    by exists k, now, c0.
Qed.

Lemma serve_key (a : Authenticator) (now : Z) (r r' : Request) (key : string) (q : bool) :
  presentedAPIKey r = Some key →
  Required_ q a now r = Served r' ↔
  ∃ ks id, keys a = Some ks ∧ LooksLikeAPIKey key = true ∧ ResolveAPIKey ks (HashAPIKey key) = inl id
    ∧ (Scope id = APIKeyScopeReadOnly → isReadMethod (Method r) = true)
    ∧ r' = WithClaims r (key_claims now id).
Proof.
  intros Hk. unfold Required_, admit_, admitAPIKey. rewrite Hk.
  destruct (keys a) as [ks|]; [|split; [done|by intros (? & ? & ? & _)]].
  destruct (LooksLikeAPIKey key) eqn:El; [|split; [done|by intros (? & ? & ? & ? & _)]]. simpl.
  destruct (ResolveAPIKey ks (HashAPIKey key)) as [id|[]] eqn:Er;
    [|split; [done|intros (? & ? & ? & ? & ? & _); congruence]..].
  destruct (String.eqb_spec (Scope id) APIKeyScopeReadOnly) as [Hs|Hs],
    (isReadMethod (Method r)) eqn:Em; simpl.
  2: { split; [done|]. intros (ks' & id' & ? & _ & Hr & Hm & ->).
    simplify_eq. rewrite Er in Hr. simplify_eq. by specialize (Hm Hs). }
  all: split; [intros [= <-]; by exists ks, id
              |intros (ks' & id' & [= <-] & _ & Hr & Hm & ->); rewrite Er in Hr; by simplify_eq].
Qed.

(** The key behind a token is there, and its owner's epoch is the one it was
    minted under; or the store cannot say. *)
Definition key_stands (a : Authenticator) (keyID user : UUID) (epoch : Z) : Prop :=
  ∃ ks, keys a = Some ks
    ∧ (APIKeyState ks keyID user = inl (epoch, true) ∨ APIKeyState ks keyID user = inr UserErr).

Lemma epochValid_key (a : Authenticator) (c : Claims) :
  APIKeyID c ≠ Nil → epochValid a c = true → key_stands a (APIKeyID c) (UserID c) (SessionEpoch c).
Proof.
  intros Hc. unfold epochValid, apiKeyStillValid, uuid_Nil.
  rewrite (proj2 (N.eqb_neq _ _) Hc). simpl. destruct (keys a) as [ks|] eqn:Ek; [|done].
  intros Hv. exists ks. split; [done|].
  destruct (APIKeyState ks (APIKeyID c) (UserID c)) as [[e live]|[]]; [|done|by right].
  left. apply andb_true_iff in Hv as [-> He]. apply Z.eqb_eq in He. by rewrite He.
Qed.

(** C37: an API key does what its scope says and nothing about the account.  A
    request that carries one in a header is let through by the middleware
    exactly when keys are enabled, the text has the form of a key, its hash
    resolves, and the method reads if the key is read-only; it then acts for the
    key's owner with the rights of the owner's row at this moment, whatever
    other credential it carries; and [RefuseAPIKey] refuses it, also where no
    authentication runs.  A stream or asset token minted from the claims the
    key was let through with names the key: presented as [?token=], it is let
    through only while [key_stands] - the key is there and the owner's epoch has
    not moved, or the store cannot answer (then it is let through, as a session's
    tokens are).  (Access tokens do not name the key; that no route mints one for a
    key is the router's table, which is not modelled.) *)
Theorem api_key_confined (a : Authenticator) (now : Z) (r : Request) (key : string) (q : bool) :
  presentedAPIKey r = Some key →
  (∀ r', Required_ q a now r = Served r' ↔
     ∃ ks id, keys a = Some ks ∧ LooksLikeAPIKey key = true
       ∧ ResolveAPIKey ks (HashAPIKey key) = inl id
       ∧ (Scope id = APIKeyScopeReadOnly → isReadMethod (Method r) = true)
       ∧ r' = WithClaims r (key_claims now id))
  ∧ RefuseAPIKey r = Refused 403
  ∧ (∀ r', Required_ q a now r = Served r' → RefuseAPIKey r' = Refused 403)
  ∧ ∀ r' c k t0, Required_ q a now r = Served r' → ctx r' = Some c → APIKeyID c ≠ Nil →
      k ≠ KAccess → claims_ok k c →
      ∀ a2 t r2 r3, presentedAPIKey r2 = None → header_token r2 = None →
        q_token r2 = Issue k t0 c → RequiredAllowQueryToken a2 t r2 = Served r3 →
        key_stands a2 (APIKeyID c) (UserID c) (SessionEpoch c).
Proof.
  intros Hk. split; [intros r'; by apply serve_key|]. split; [unfold RefuseAPIKey; by rewrite Hk|].
  split.
  - intros r' (ks & id & _ & _ & _ & _ & ->)%(serve_key _ _ _ _ _ _ Hk). unfold RefuseAPIKey.
    change (presentedAPIKey (WithClaims r (key_claims now id))) with (presentedAPIKey r).
    by rewrite Hk.
  - intros r' c k t0 _ _ Hn Hka Hok a2 t r2 r3 Hp Hh Hq.
    unfold RequiredAllowQueryToken, Required_, admit_. rewrite Hp, serve_inv.
    intros (c2 & He & Hv & _).
    destruct (query_purpose (MToken k t0 c) t r2 c2 Hok Hh Hq He) as (k' & t' & c' & [= <- <- <-] & _ & -> & _).
    assert (APIKeyID (carried k t0 c) = APIKeyID c) as Hid by (by destruct k).
    rewrite <- Hid in Hn. pose proof (epochValid_key a2 _ Hn Hv) as Hs. rewrite Hid in Hs. exact Hs.
Qed.

(** Viewing as another user only reads.  With [?view_as=], a handler runs
    only for a GET by an admin naming an existing user; it then sees the
    target's identity, rating and labels and no session of the admin's, and the
    audit trail names the real admin.  The epoch in those claims stays the
    admin's: a stream token minted on such a page is honoured only if the
    target's epoch happens to be the same number. *)
Lemma view_as_reads_only (lookup : UUID → ImpersonatedUser + uerr) (audited : bool)
    (r r' : Request) (log : list (UUID * UUID)) :
  nonempty (q_view_as r) = true → ViewAs lookup audited r = (Served r', log) →
  Method r = "GET"
  ∧ ∃ caller id target c, ctx r = Some caller ∧ IsAdmin caller = true
    ∧ uuid_Parse (q_view_as r) = Some id ∧ lookup id = inl target
    ∧ r' = WithClaims r c
    ∧ UserID c = im_ID target ∧ IsAdmin c = im_IsAdmin target
    ∧ MaxContentRating c = im_MaxContentRating target ∧ BlockedLabels c = im_BlockedLabels target
    ∧ AllowedLabels c = im_AllowedLabels target ∧ SessionID c = Nil
    ∧ log = (if audited then [(UserID caller, im_ID target)] else [])
    ∧ ∀ a er e f t, APIKeyID caller = Nil → epochs a = Some er →
        GetSessionEpoch er (im_ID target) = inl e →
        epochValid a (carried (KStream f) t c) = bool_decide (SessionEpoch caller = e).
Proof.
  intros Hv. unfold ViewAs. rewrite Hv. simpl.
  destruct (String.eqb_spec (Method r) "GET") as [Hg|]; [|done]. simpl.
  destruct (ctx r) as [caller|]; [|done]. destruct (IsAdmin caller) eqn:Ha; [|done]. simpl.
  destruct (uuid_Parse (q_view_as r)) as [id|]; [|done].
  destruct (lookup id) as [target|[]] eqn:El; [|done..]. intros [= <- <-]. split; [done|].
  eexists caller, id, target, _. repeat (split; [done|]). intros a er e f t Hk Her He.
  unfold epochValid. simpl. rewrite Hk. simpl. rewrite Her, He.
  destruct (Z.eqb_spec (SessionEpoch caller) 0) as [->|]; case_bool_decide;
    try subst; try (by apply Z.eqb_refl); by apply Z.eqb_neq.
Qed.
End Carriers.

(** * Concrete requests *)
Module AuthSample.
Import Tokens.Sample.
Definition reader : EpochReader := {|
  GetSessionEpoch _ := inl 3; GetSessionState := Some (λ _ sid, inl (3, bool_decide (sid = 9%N))) |}.
Definition identity : APIKeyIdentity := {|
  KeyID := 4%N; id_UserID := 7%N; Scope := "read_only"; id_Username := "ada"; id_IsAdmin := true;
  id_MaxContentRating := ""; id_BlockedLabels := []; id_AllowedLabels := []; id_SessionEpoch := 3 |}.
Definition a_key : string := (GenerateAPIKey (replicate 32 "x"%char)).1.1.
Definition resolver : KeyResolver := {|
  ResolveAPIKey h := if String.eqb h (HashAPIKey a_key) then inl identity else inr KeyGone;
  APIKeyState _ _ := inl (3, true) |}.
Definition auth : Authenticator := {| epochs := Some reader; keys := Some resolver |}.
Definition blank : Request := {|
  Method := "GET"; Authorization := ""; X_Api_Key := ""; onscreen_at := None; q_token := "";
  q_view_as := ""; URLParams := None; ctx := None |}.
Definition cookie_request (s : string) : Request := blank <| onscreen_at := Some s |>.
Definition key_request (m : string) : Request :=
  blank <| Method := m |> <| Authorization := "Bearer " +:+ a_key |>.
Definition admin : Claims := sample_claims <| IsAdmin := true |>.
Definition view_request : Request :=
  blank <| ctx := Some admin |> <| q_view_as := "8" |>.
Definition target : ImpersonatedUser := {|
  im_ID := 8%N; im_Username := "kid"; im_IsAdmin := false; im_MaxContentRating := "PG";
  im_BlockedLabels := []; im_AllowedLabels := ["kids"] |}.
Definition view_lookup (u : UUID) : ImpersonatedUser + uerr :=
  if N.eqb u 8 then inl target else inr UserGone.
End AuthSample.

Lemma carrier_matrix_witness :
  let m := MToken KAccess 0 Sample.sample_claims in
  let r := AuthSample.cookie_request (text_of m) in
  Required AuthSample.auth minute r = Served (WithClaims r (carried KAccess 0 Sample.sample_claims)).
Proof.
  intros m r. refine (proj2 (proj1 (carrier_matrix AuthSample.auth minute r _ m _ _) _) _).
  - repeat split; vm_compute; congruence.
  - reflexivity.
  - unfold header_token, nonempty. cbn [Authorization onscreen_at r].
    change (onscreen_at r) with (Some (text_of m)). change (CutPrefix (Authorization r) "Bearer ") with (@None string).
    cbv iota beta. rewrite bool_decide_true; [reflexivity|]. apply Sample.sample_seal_ne.
  - exists 0, Sample.sample_claims. split; [reflexivity|]. split; [|split; reflexivity].
    split; vm_compute; congruence.
Defined.

(** The key of [AuthSample] is revoked after it minted a stream token. *)
Definition revoked_auth : Authenticator :=
  {| epochs := Some AuthSample.reader;
     keys := Some {| ResolveAPIKey _ := inr KeyGone; APIKeyState _ _ := inl (3, false) |} |}.
Definition key_token : string :=
  Issue (KStream 5%N) 0 (key_claims 0 AuthSample.identity).
Definition stream_request : Request :=
  AuthSample.blank <| q_token := key_token |> <| URLParams := Some [("id", uuid_String 5%N)] |>.

Lemma api_key_confined_witness :
  (∃ r', Required_ false AuthSample.auth 0 (AuthSample.key_request "GET") = Served r')
  ∧ (¬ ∃ r', Required_ false AuthSample.auth 0 (AuthSample.key_request "POST") = Served r')
  ∧ ¬ ∃ r', RequiredAllowQueryToken revoked_auth 0 stream_request = Served r'.
Proof.
  assert (∀ m, presentedAPIKey (AuthSample.key_request m) = Some AuthSample.a_key) as Hp
    by (intros m; vm_compute; reflexivity).
  assert (ResolveAPIKey AuthSample.resolver (HashAPIKey AuthSample.a_key) = inl AuthSample.identity) as Hi
    by (vm_compute; reflexivity).
  pose proof (λ m, api_key_confined AuthSample.auth 0 (AuthSample.key_request m)
    AuthSample.a_key false (Hp m)) as Ht.
  assert (∀ r', Required_ false AuthSample.auth 0 (AuthSample.key_request "GET") = Served r' ↔
    r' = WithClaims (AuthSample.key_request "GET") (key_claims 0 AuthSample.identity)) as Hget.
  { intros r'. rewrite (proj1 (Ht "GET") r'). split.
    - intros (ks & id & [= <-] & _ & Hi' & _ & ->). rewrite Hi in Hi'. by injection Hi' as <-.
    - intros ->. exists AuthSample.resolver, AuthSample.identity. split; [reflexivity|].
      split; [vm_compute; reflexivity|]. split; [exact Hi|]. split; [intros _; reflexivity|reflexivity]. }
  split; [eexists; by apply Hget|]. split.
  - intros [r' Hr]. destruct (proj1 (proj1 (Ht "POST") r') Hr) as (ks & id & Hk & _ & Hi' & Hm & _).
    injection Hk as <-. rewrite Hi in Hi'. injection Hi' as <-. specialize (Hm eq_refl).
    vm_compute in Hm. discriminate.
  - intros [r' Hr]. destruct (Ht "GET") as (_ & _ & _ & Hs).
    destruct (Hs _ (key_claims 0 AuthSample.identity) (KStream 5%N) 0 (proj2 (Hget _) eq_refl) eq_refl
      ltac:(vm_compute; congruence) ltac:(done) ltac:(repeat split; vm_compute; congruence)
      revoked_auth 0 stream_request r' eq_refl eq_refl eq_refl Hr) as (ks & [= <-] & Hst).
    by destruct Hst.
Defined.

Lemma view_as_reads_only_witness :
  Method AuthSample.view_request = "GET".
Proof.
  refine (proj1 (view_as_reads_only AuthSample.view_lookup true AuthSample.view_request
    (WithClaims AuthSample.view_request
       (AuthSample.admin <| UserID := 8%N |> <| Username := "kid" |> <| IsAdmin := false |>
          <| MaxContentRating := "PG" |> <| SessionID := Nil |>
          <| BlockedLabels := [] |> <| AllowedLabels := ["kids"] |>))
    [(7%N, 8%N)] _ _)); vm_compute; reflexivity.
Defined.
