(* ===== verification/Sessions.v ===== *)
(** Sessions: the database statements behind a sign-in, and the operations that
    mint, rotate and revoke it.

    [cmd/server/auth_service.go] (sign-in, refresh, sign-out),
    [internal/api/v1/user_sessions.go], [password_reset.go] and [users.go] (the
    revocations), [cmd/server/user_service.go] and [adapter_session_epoch.go],
    over [internal/db/queries/sessions.sql], [users.sql] and
    [password_reset.sql].

    An operation is a program: a tree of statements, each answered before the
    next is chosen, as the Go code awaits each call.  [exec] runs one statement
    atomically on the database; the environment gives the clock, the random
    draws and whether the call failed before or after it took effect. *)
From S2P Require Import Prelude.
From S2P Require Import GoStrings.
From S2P Require Import GoBytes.
From S2P Require Import RateLimit.
From S2P Require Import SHA256.
From S2P Require Import Tokens.
From S2P Require Import Auth.

Local Open Scope Z_scope.

(** * Rows *)
Record User := mkUser {
  u_Username : string; PasswordHash : option string; u_IsAdmin : bool; u_SessionEpoch : Z;
  u_MaxContentRating : option string; u_BlockedLabels : list string;
  u_AllowedLabels : list string; TotpEnabled : bool }.
#[global] Instance User_eta : Eta User := λ u,
  mkUser (u_Username u) (PasswordHash u) (u_IsAdmin u) (u_SessionEpoch u) (u_MaxContentRating u)
    (u_BlockedLabels u) (u_AllowedLabels u) (TotpEnabled u).

Record Session := mkSession {
  s_user : UUID; token_hash : string; prev_token_hash : option string;
  client_name : option string; platform : option string; ip_addr : option string;
  created_at : Z; expires_at : Z; absolute_expires_at : option Z; last_seen : option Z }.
#[global] Instance Session_eta : Eta Session := λ s,
  mkSession (s_user s) (token_hash s) (prev_token_hash s) (client_name s) (platform s) (ip_addr s)
    (created_at s) (expires_at s) (absolute_expires_at s) (last_seen s).

Record ResetToken := mkReset {
  rt_user : UUID; rt_hash : string; rt_expires : Z; rt_used : option Z }.

#[global] Instance ResetToken_eta : Eta ResetToken := λ t,
  mkReset (rt_user t) (rt_hash t) (rt_expires t) (rt_used t).

Record DB := mkDB {
  users : gmap UUID User; sessions : gmap UUID Session; resets : gmap UUID ResetToken }.
#[global] Instance DB_eta : Eta DB := λ d, mkDB (users d) (sessions d) (resets d).

(** [SessionClient]: the device label of a request. *)
Record SessionClient := mkClient { cl_name : string; cl_platform : string; cl_IP : option string }.

(** A query's outcome: rows, [pgx.ErrNoRows], any other error. *)
Inductive result (A : Type) := Ok (a : A) | NoRows | DBErr.
#[global] Arguments Ok {A} _.
#[global] Arguments NoRows {A}.
#[global] Arguments DBErr {A}.
Definition is_ok {A} (r : result A) : bool := match r with Ok _ => true | _ => false end.

(** * Statements *)
Record NewSession := mkNew {
  n_user : UUID; n_hash : string; n_expires : Z; n_client : option SessionClient }.

Inductive stmt :=
| GetUser (id : UUID)
| GetUserByUsername (name : string)
| GetSessionByTokenHash (h : string)
| GetSessionByAnyTokenHash (h : string)
| CreateSession (p : NewSession)
| RotateSessionConditional (id : UUID) (newHash : string) (expires : Z) (oldHash : string)
| UpdateSessionClient (id : UUID) (c : SessionClient)
| DeleteSession (id : UUID)
| DeleteSessionsForUser (user : UUID)
| DeleteUserSession (id user : UUID)
| DeleteOtherSessionsForUser (user id : UUID)
| DeleteExpiredSessions
| BumpSessionEpoch (user : UUID)
| UpdateUserPassword (user : UUID) (hash : string)
| CountAdmins
| SetUserAdmin (user : UUID) (b : bool)
| DeleteUser (user : UUID)
| GetResetToken (h : string)
| MarkResetTokenUsed (id : UUID)
| InvalidateUserResetTokens (user : UUID)
(* not the database *)
| RevokeSegmentTokens (user : UUID)    (* Valkey: [RevokeAllForUser] *)
| CheckFailures (key : string)         (* Valkey: the failure throttle *)
| IncrFailure (key : string)
| ResetFailures (key : string)
| Now                                  (* [time.Now()] *)
| NewRandom                            (* [uuid.NewRandom()] *)
| GenerateFromPassword (pw : string).  (* bcrypt, salted *)

Definition answer (c : stmt) : Type :=
  match c with
  | GetUser _ => result User
  | GetUserByUsername _ => result (UUID * User)
  | GetSessionByTokenHash _ => result (UUID * Session)
  | GetSessionByAnyTokenHash _ => result (UUID * Session * bool)
  | CreateSession _ => result UUID
  | RotateSessionConditional _ _ _ _ => result Z
  | DeleteUserSession _ _ => result Session
  | DeleteOtherSessionsForUser _ _ => result Z
  | CountAdmins => result Z
  | GetResetToken _ => result (UUID * ResetToken)
  | MarkResetTokenUsed _ => result bool
  | CheckFailures _ => bool
  | Now => Z
  | NewRandom => option UUID
  | GenerateFromPassword _ => option string
  | _ => result unit
  end.

(** What the world does at one statement. *)
Inductive dbfault := FOk | FNone (* no effect, an error *) | FUnacked (* the effect, and an error *).
Record Env := mkEnv {
  e_fault : dbfault; e_now : Z; e_id : UUID; e_random : option UUID; e_allowed : bool;
  e_text : option string }.

Definition faulty {A} (f : dbfault) (d : DB) (r : DB * result A) : DB * result A :=
  match f with FOk => r | FNone => (d, DBErr) | FUnacked => (r.1, DBErr) end.

(** The first row that satisfies a condition, in the order of the index. *)
Definition pick {A} (P : A → bool) (m : gmap UUID A) : option (UUID * A) :=
  find_first (λ p : UUID * A, P p.2) (map_to_list m).
Definition row {A} (o : option A) : result A := match o with Some a => Ok a | None => NoRows end.

Definition live (now : Z) (s : Session) : bool := now <? expires_at s.
Definition under_cap (now : Z) (s : Session) : bool :=
  match absolute_expires_at s with None => true | Some t => now <? t end.
Definition day : Z := 24 * 60 * minute.

(** [nonEmpty] and [COALESCE] on the device label. *)
Definition nonEmpty (s : string) : option string := if String.eqb s "" then None else Some s.
Definition coalesce {A} (a b : option A) : option A := match a with Some _ => a | None => b end.

Definition hash_taken (h : string) (m : gmap UUID Session) : bool :=
  match pick (λ s, String.eqb (token_hash s) h) m with Some _ => true | None => false end.

(** The 90 days are the database's. *)
Definition new_session (e : Env) (p : NewSession) : Session := {|
  s_user := n_user p; token_hash := n_hash p; prev_token_hash := None;
  client_name := n_client p ≫= λ c, nonEmpty (cl_name c);
  platform := n_client p ≫= λ c, nonEmpty (cl_platform c);
  ip_addr := n_client p ≫= cl_IP;
  created_at := e_now e; expires_at := n_expires p;
  absolute_expires_at := Some (e_now e + 90 * day); last_seen := Some (e_now e) |}.

(** [LEAST($3, COALESCE(absolute_expires_at, $3))] *)
Definition rotated (now : Z) (newHash : string) (expires : Z) (s : Session) : Session :=
  s <| prev_token_hash := Some (token_hash s) |> <| token_hash := newHash |>
    <| expires_at := Z.min expires (default expires (absolute_expires_at s)) |>
    <| last_seen := Some now |>.

Definition relabelled (c : SessionClient) (s : Session) : Session :=
  s <| ip_addr := coalesce (cl_IP c) (ip_addr s) |>
    <| client_name := coalesce (nonEmpty (cl_name c)) (client_name s) |>
    <| platform := coalesce (nonEmpty (cl_platform c)) (platform s) |>.

Definition read {A} (d : DB) (r : result A) : DB * result A := (d, r).
Definition write (d : DB) : DB * result unit := (d, Ok tt).
Definition on_sessions (f : gmap UUID Session → gmap UUID Session) (d : DB) : DB :=
  d <| sessions ::= f |>.

(** One statement against the database, faults apart. *)
Definition query (c : stmt) (e : Env) (d : DB) : DB * answer c :=
  let now := e_now e in
  match c return DB * answer c with
  | GetUser id => read d (row (users d !! id))
  | GetUserByUsername name => read d (row (pick (λ u, String.eqb (u_Username u) name) (users d)))
  | GetSessionByTokenHash h =>
      read d (row (pick (λ s, String.eqb (token_hash s) h && live now s && under_cap now s) (sessions d)))
  | GetSessionByAnyTokenHash h =>
      read d (row ((λ p, (p, String.eqb (token_hash p.2) h)) <$>
        pick (λ s, (String.eqb (token_hash s) h || bool_decide (prev_token_hash s = Some h)) && live now s)
          (sessions d)))
  | CreateSession p =>
      match users d !! n_user p with
      | None => (d, DBErr)                                   (* the foreign key *)
      | Some _ =>
          if hash_taken (n_hash p) (sessions d) then (d, DBErr)   (* UNIQUE (token_hash) *)
          else (on_sessions <[e_id e := new_session e p]> d, Ok (e_id e))
      end
  | RotateSessionConditional id newHash expires oldHash =>
      match sessions d !! id with
      | Some s =>
          if negb (String.eqb (token_hash s) oldHash) then (d, Ok 0)
          else if hash_taken newHash (sessions d) then (d, DBErr)
          else (on_sessions <[id := rotated now newHash expires s]> d, Ok 1)
      | None => (d, Ok 0)
      end
  | UpdateSessionClient id c => write (on_sessions (alter (relabelled c) id) d)
  | DeleteSession id => write (on_sessions (delete id) d)
  | DeleteSessionsForUser u => write (on_sessions (filter (λ p, s_user p.2 ≠ u)) d)
  | DeleteUserSession id u =>
      match sessions d !! id with
      | Some s => if N.eqb (s_user s) u then (on_sessions (delete id) d, Ok s) else (d, NoRows)
      | None => (d, NoRows)
      end
  | DeleteOtherSessionsForUser u id =>
      (on_sessions (filter (λ p, ¬ (s_user p.2 = u ∧ p.1 ≠ id))) d,
       Ok (Z.of_nat (size (filter (λ p : UUID * Session, s_user p.2 = u ∧ p.1 ≠ id) (sessions d)))))
  | DeleteExpiredSessions => write (on_sessions (filter (λ p, now < expires_at p.2)) d)
  | BumpSessionEpoch u =>
      match users d !! u with
      | Some us =>
          if u_SessionEpoch us =? int64_max then (d, DBErr)
          else write (d <| users ::= <[u := us <| u_SessionEpoch ::= Z.succ |>]> |>)
      | None => write d
      end
  | UpdateUserPassword u h => write (d <| users ::= alter (λ us : User, us <| PasswordHash := Some h |>) u |>)
  | CountAdmins => read d (Ok (Z.of_nat (size (filter (λ p : UUID * User, u_IsAdmin p.2 = true) (users d)))))
  | SetUserAdmin u b => write (d <| users ::= alter (λ us : User, us <| u_IsAdmin := b |>) u |>)
  | DeleteUser u =>                                          (* ON DELETE CASCADE *)
      write (mkDB (delete u (users d)) (filter (λ p, s_user p.2 ≠ u) (sessions d))
               (filter (λ p, rt_user p.2 ≠ u) (resets d)))
  | GetResetToken h =>
      read d (row (pick (λ t, String.eqb (rt_hash t) h && bool_decide (rt_used t = None)
                              && (now <? rt_expires t)) (resets d)))
  | MarkResetTokenUsed id =>
      match resets d !! id with
      | Some t => if rt_used t then (d, Ok false)
                  else (d <| resets ::= <[id := t <| rt_used := Some now |>]> |>, Ok true)
      | None => (d, Ok false)
      end
  | InvalidateUserResetTokens u =>
      write (d <| resets ::= fmap (λ t : ResetToken, if N.eqb (rt_user t) u && negb (bool_decide (is_Some (rt_used t)))
                                        then t <| rt_used := Some now |> else t) |>)
  | RevokeSegmentTokens _ => write d
  | CheckFailures _ => (d, e_allowed e)
  | IncrFailure _ => write d
  | ResetFailures _ => write d
  | Now => (d, now)
  | NewRandom => (d, e_random e)
  | GenerateFromPassword _ => (d, e_text e)
  end.

(** The answers a fault can spoil. *)
Definition exec (c : stmt) (e : Env) (d : DB) : DB * answer c :=
  match c return DB * answer c → DB * answer c with
  | CheckFailures _ | Now | NewRandom | GenerateFromPassword _ => λ r, r
  | _ => faulty (e_fault e) d
  end (query c e d).

(** * Programs *)
Inductive prog (A : Type) := Ret (a : A) | Do (c : stmt) (k : answer c → prog A).
#[global] Arguments Ret {A} _.
#[global] Arguments Do {A} _ _.

Notation "'let!' x := c 'in' k" := (Do c (λ x, k))
  (at level 200, x name, c at level 100, k at level 200, right associativity).

(** A run to the end, one environment per statement. *)
Fixpoint run {A} (p : prog A) (es : list Env) (d : DB) : option (A * DB) :=
  match p, es with
  | Ret a, _ => Some (a, d)
  | Do c k, e :: es => let '(d', x) := exec c e d in run (k x) es d'
  | Do _ _, [] => None
  end.

(** * The answers of the operations *)
Record TokenPair := mkPair {
  AccessToken : string; RefreshToken : string; AssetToken : string; PairExpiresAt : Z;
  PairUserID : UUID; PairUsername : string; PairIsAdmin : bool }.

Inductive trigger := RefreshReuseSuperseded | RefreshReuseRotationRace.
Record ReuseTolerated := mkTolerated {
  t_user : UUID; t_session : UUID; t_trigger : trigger; t_seconds : Z;
  t_client : option string; t_platform : option string }.
Record ReuseError := mkReuse {
  r_user : UUID; r_session : UUID; r_trigger : trigger;
  SessionsDeleted : bool; EpochBumped : bool; r_seconds : option Z;
  r_client : option string; r_platform : option string }.

Inductive outcome :=
| OPair (p : TokenPair)
| OChallenge (token : string) (user : UUID) (name : string)
| OInvalidCredentials | OThrottled | ONoLocalPassword
| ORefreshInvalid | OTolerated (t : ReuseTolerated) | OReuse (r : ReuseError)
| OError                     (* the server could not answer: 500 or 503 *)
| ODone (cleared : bool)     (* success; whether the caller's cookies are cleared *)
| ORevoked (n : Z)
| ONotFound | OConflict | OBadRequest | OForbidden.

(** The HTTP status of [AuthHandler.Refresh] and whether it clears the cookies. *)
Definition refresh_response (o : outcome) : Z * bool :=
  match o with
  | OPair _ => (200, false)
  | ORefreshInvalid | OTolerated _ | OReuse _ => (401, true)
  | _ => (503, false)
  end.

Class Bcrypt := { CompareHashAndPassword : string → string → bool }.

Section Programs.
Context `{Paseto} `{Bcrypt}.

(** What the claims of a sign-in take from the user's row. *)
Definition user_claims (id : UUID) (u : User) (sid : UUID) : Claims := {|
  UserID := id; Username := u_Username u; IsAdmin := u_IsAdmin u;
  MaxContentRating := default "" (u_MaxContentRating u); BlockedLabels := u_BlockedLabels u;
  AllowedLabels := u_AllowedLabels u; SessionEpoch := u_SessionEpoch u;
  IssuedAt := zero_time; ExpiresAt := zero_time; Purpose := ""; FileID := None;
  Switched := false; TokenID := ""; SessionID := sid; APIKeyID := Nil; APIKeyScope := "" |}.

(** ** Refreshing *)
Definition refreshReuseGrace : Z := 120 * second.

Definition seconds_since (now last : Z) : Z := Z.max (Z.quot (now - last) second) 0.

(** [toleratedRefreshReuse], the clock read *)
Definition toleratedRefreshReuse (now : Z) (id : UUID) (s : Session) (t : trigger) :
    option ReuseTolerated :=
  match last_seen s with
  | None => None
  | Some last =>
      let since := now - last in
      if (refreshReuseGrace <=? since) || (since <=? - refreshReuseGrace) then None
      else Some (mkTolerated (s_user s) id t (seconds_since now last) (client_name s) (platform s))
  end.

(** [refreshReuseError] *)
Definition refreshReuseError (now : Z) (id : UUID) (s : Session) (t : trigger) (d b : bool) :
    ReuseError :=
  mkReuse (s_user s) id t d b ((λ last, seconds_since now last) <$> last_seen s)
    (client_name s) (platform s).

(** The theft response: both halves are tried, each outcome is reported. *)
Definition burn_family (id : UUID) (s : Session) (t : trigger) : prog outcome :=
  let! derr := DeleteSessionsForUser (s_user s) in
  let! berr := BumpSessionEpoch (s_user s) in
  let! _ := RevokeSegmentTokens (s_user s) in
  let! now := Now in
  Ret (OReuse (refreshReuseError now id s t (is_ok derr) (is_ok berr))).

(** [recordSessionClient] *)
Definition recordSessionClient {A} (client : option SessionClient) (id : UUID) (k : prog A) : prog A :=
  match client with
  | None => k
  | Some c => let! _ := UpdateSessionClient id c in k
  end.

(** From the rotation's answer on. *)
Definition refresh_rotated (client : option SessionClient) (hash newHash : string)
    (id : UUID) (session : Session) (pair : TokenPair) (rows : result Z) : prog outcome :=
  match rows with
  | Ok n =>
      if n =? 0 then
        let! raced := GetSessionByAnyTokenHash hash in
        let burn := burn_family id session RefreshReuseRotationRace in
        match raced with
        | Ok (rid, r, false) =>
            if N.eqb rid id then
              let! now := Now in
              match toleratedRefreshReuse now rid r RefreshReuseRotationRace with
              | Some e => Ret (OTolerated e)
              | None => burn
              end
            else burn
        | _ => burn
        end
      else recordSessionClient client id (Ret (OPair pair))
  | _ =>
      let! landed := GetSessionByAnyTokenHash newHash in
      match landed with
      | Ok (lid, _, true) => if N.eqb lid id then Ret (OPair pair) else Ret OError
      | _ => Ret OError
      end
  end.

(** From the user's row on: everything is minted before the rotation. *)
Definition refresh_mint (client : option SessionClient) (hash : string)
    (id : UUID) (session : Session) (user : User) : prog outcome :=
  let claims := user_claims (s_user session) user id in
  let! t1 := Now in
  let! t2 := Now in
  let! drawn := NewRandom in
  match drawn with
  | None => Ret OError
  | Some u =>
      let raw := refresh_raw u in
      let newHash := HashToken raw in
      let! t3 := Now in
      let expiry := t3 + RefreshTokenTTL in
      let pair := mkPair (IssueAccessToken t1 claims) raw (IssueAssetToken t2 claims) expiry
                    (s_user session) (u_Username user) (u_IsAdmin user) in
      let! rows := RotateSessionConditional id newHash expiry hash in
      refresh_rotated client hash newHash id session pair rows
  end.

(** [Refresh] *)
Definition Refresh (client : option SessionClient) (refreshToken : string) : prog outcome :=
  let hash := HashToken refreshToken in
  let! found := GetSessionByAnyTokenHash hash in
  match found with
  | NoRows => Ret ORefreshInvalid
  | DBErr => Ret OError
  | Ok (id, session, false) =>
      let! now := Now in
      match toleratedRefreshReuse now id session RefreshReuseSuperseded with
      | Some e => Ret (OTolerated e)
      | None => burn_family id session RefreshReuseSuperseded
      end
  | Ok (id, session, true) =>
      let! user := GetUser (s_user session) in
      match user with
      | NoRows => Ret ORefreshInvalid
      | DBErr => Ret OError
      | Ok user => refresh_mint client hash id session user
      end
  end.

(** ** Signing in *)
(** [issueTokenPair]: the mints cannot fail, so neither does what follows them. *)
Definition issueTokenPair (client : option SessionClient) (id : UUID) (user : User) : prog outcome :=
  let! drawn := NewRandom in
  match drawn with
  | None => Ret OError
  | Some u =>
      let raw := refresh_raw u in
      let! t := Now in
      let expiry := t + RefreshTokenTTL in
      let! created := CreateSession (mkNew id (HashToken raw) expiry client) in
      match created with
      | Ok sid =>
          let claims := user_claims id user sid in
          let! t1 := Now in
          let! t2 := Now in
          Ret (OPair (mkPair (IssueAccessToken t1 claims) raw (IssueAssetToken t2 claims) expiry
                 id (u_Username user) (u_IsAdmin user)))
      | _ => Ret OError
      end
  end.

(** The throttle key of a name. *)
Definition login_key (pepper : option bytes) (username : string) : string :=
  "ratelimit:auth_user:" +:+ match pepper with
                             | Some p => HashUsernameForLog p username
                             | None => ToLower (TrimSpace username)
                             end.

(** [LoginLocal], with the throttle wired. *)
Definition LoginLocal (pepper : option bytes) (client : option SessionClient)
    (username password : string) : prog outcome :=
  let key := login_key pepper username in
  let throttled (k : prog outcome) : prog outcome :=
    if nonempty username then
      let! allowed := CheckFailures key in
      if negb allowed then Ret OThrottled else k
    else k in
  let recordFailure (k : prog outcome) : prog outcome :=
    if nonempty username then let! _ := IncrFailure key in k else k in
  let resetFailures (k : prog outcome) : prog outcome :=
    if nonempty username then let! _ := ResetFailures key in k else k in
  throttled (
    let! found := GetUserByUsername username in
    match found with
    | NoRows => recordFailure (Ret OInvalidCredentials)
    | DBErr => Ret OError
    | Ok (id, user) =>
        match PasswordHash user with
        | None => recordFailure (Ret OInvalidCredentials)
        | Some h =>
            if negb (CompareHashAndPassword h password) then recordFailure (Ret OInvalidCredentials)
            else resetFailures (
              if TotpEnabled user then
                let! jti := NewRandom in
                match jti with
                | None => Ret OError
                | Some j =>
                    let! t := Now in
                    Ret (OChallenge (IssueTOTPChallengeToken t j id (u_SessionEpoch user)) id
                           (u_Username user))
                end
              else issueTokenPair client id user)
        end
    end).

(** ** Signing out *)
(** [Logout] *)
Definition Logout (refreshToken : string) : prog outcome :=
  let! found := GetSessionByTokenHash (HashToken refreshToken) in
  match found with
  | Ok (id, session) =>
      let! derr := DeleteSession id in
      if negb (is_ok derr) then Ret OError
      else let! _ := BumpSessionEpoch (s_user session) in Ret (ODone true)
  | _ => Ret (ODone true)
  end.

(** [revoke]: [RevokeMine] with the owner's own session as [current],
    [RevokeForUser] with the admin's when they look at themselves. *)
Definition revoke (owner sid current : UUID) : prog outcome :=
  let! deleted := DeleteUserSession sid owner in
  match deleted with
  | NoRows => Ret ONotFound
  | DBErr => Ret OError
  | Ok _ => Ret (ODone (negb (uuid_Nil current) && N.eqb sid current))
  end.
Definition RevokeMine (claims : Claims) (sid : UUID) : prog outcome :=
  revoke (UserID claims) sid (SessionID claims).
Definition RevokeForUser (claims : Claims) (target sid : UUID) : prog outcome :=
  if negb (IsAdmin claims) then Ret OForbidden
  else revoke target sid (if N.eqb target (UserID claims) then SessionID claims else Nil).

(** [RevokeOthers] *)
Definition RevokeOthers (claims : Claims) : prog outcome :=
  if uuid_Nil (SessionID claims) then Ret OConflict
  else let! n := DeleteOtherSessionsForUser (UserID claims) (SessionID claims) in
       match n with Ok n => Ret (ORevoked n) | _ => Ret OError end.

(** [RevokeAllForUser] of the handler *)
Definition RevokeAllForUser (claims : Claims) (target : UUID) : prog outcome :=
  if negb (IsAdmin claims) then Ret OForbidden
  else
    let! derr := DeleteSessionsForUser target in
    let! berr := BumpSessionEpoch target in
    let! _ := RevokeSegmentTokens target in
    if is_ok derr && is_ok berr then Ret (ODone (N.eqb target (UserID claims))) else Ret OError.

(** ** Changing a password or a role *)
Definition MinPasswordLength : nat := 12.
Definition ValidatePassword (pw : string) : bool := (MinPasswordLength <=? String.length pw)%nat.

(** Bump first, then delete; a failure answers 500 at once. *)
Definition revoke_after_change (target : UUID) (k : prog outcome) : prog outcome :=
  let! berr := BumpSessionEpoch target in
  if negb (is_ok berr) then Ret OError
  else
    let! derr := DeleteSessionsForUser target in
    if negb (is_ok derr) then Ret OError
    else let! _ := RevokeSegmentTokens target in k.

(** [PasswordResetHandler.ResetPassword] *)
Definition ResetPassword (token password : string) : prog outcome :=
  if negb (nonempty token) || negb (nonempty password) then Ret OBadRequest
  else if negb (ValidatePassword password) then Ret OBadRequest
  else
    let! found := GetResetToken (HashToken token) in
    match found with
    | Ok (tid, t) =>
        let! hashed := GenerateFromPassword password in
        match hashed with
        | None => Ret OError
        | Some pwHash =>
            let! won := MarkResetTokenUsed tid in
            match won with
            | Ok true =>
                let! perr := UpdateUserPassword (rt_user t) pwHash in
                if negb (is_ok perr) then Ret OError
                else
                  let! _ := InvalidateUserResetTokens (rt_user t) in
                  revoke_after_change (rt_user t) (Ret (ODone false))
            | Ok false => Ret OBadRequest
            | _ => Ret OError
            end
        end
    | _ => Ret OBadRequest
    end.

(** [UserHandler.ResetPassword], by an admin *)
Definition AdminResetPassword (target : UUID) (password : string) : prog outcome :=
  if negb (ValidatePassword password) then Ret OBadRequest
  else
    let! hashed := GenerateFromPassword password in
    match hashed with
    | None => Ret OError
    | Some pwHash =>
        let! perr := UpdateUserPassword target pwHash in
        if negb (is_ok perr) then Ret OError else revoke_after_change target (Ret (ODone false))
    end.

(** [UserHandler.SetAdmin]: the last admin cannot be demoted. *)
Definition SetAdmin (target : UUID) (b : bool) : prog outcome :=
  let set :=
    let! serr := SetUserAdmin target b in
    if negb (is_ok serr) then Ret OError else revoke_after_change target (Ret (ODone false)) in
  if b then set
  else
    let! n := CountAdmins in
    match n with
    | Ok n => if n <=? 1 then Ret OBadRequest else set
    | _ => Ret OError
    end.

(** [userService.ChangePassword]: [None] is success. *)
Definition change_password (user : UUID) (current next : string) (k : option outcome → prog outcome) :
    prog outcome :=
  let! found := GetUser user in
  match found with
  | Ok u =>
      match PasswordHash u with
      | None => k (Some ONoLocalPassword)
      | Some h =>
          if negb (CompareHashAndPassword h current) then k (Some OInvalidCredentials)
          else
            let! hashed := GenerateFromPassword next in
            match hashed with
            | None => k (Some OError)
            | Some pwHash =>
                let! perr := UpdateUserPassword user pwHash in
                k (if is_ok perr then None else Some OError)
            end
      end
  | _ => k (Some OError)
  end.

(** [UserHandler.ChangePassword], with the throttle wired *)
Definition ChangePassword (claims : Claims) (current next : string) : prog outcome :=
  let key := "ratelimit:pwchange:" +:+ uuid_String (UserID claims) in
  let finish (cleared : bool) :=
    let! berr := BumpSessionEpoch (UserID claims) in
    if negb (is_ok berr) then Ret OError
    else let! _ := RevokeSegmentTokens (UserID claims) in Ret (ODone cleared) in
  if Switched claims then Ret OForbidden
  else if negb (nonempty current) || negb (ValidatePassword next) || String.eqb next current
  then Ret OBadRequest
  else
    let! allowed := CheckFailures key in
    if negb allowed then Ret OThrottled
    else change_password (UserID claims) current next (λ err,
      match err with
      | Some OInvalidCredentials => let! _ := IncrFailure key in Ret OInvalidCredentials
      | Some o => Ret o
      | None =>
          let! _ := ResetFailures key in
          if uuid_Nil (SessionID claims) then
            let! derr := DeleteSessionsForUser (UserID claims) in
            if negb (is_ok derr) then Ret OError else finish true
          else
            let! n := DeleteOtherSessionsForUser (UserID claims) (SessionID claims) in
            if negb (is_ok n) then Ret OError else finish false
      end).

(** ** The middleware's reader *)
(** [sessionEpochAdapter] over the database, with what the query's call met. *)
Definition epoch_reader (ok : bool) (d : DB) : EpochReader := {|
  GetSessionEpoch u :=
    if ok then match users d !! u with Some us => inl (u_SessionEpoch us) | None => inr UserGone end
    else inr UserErr;
  Auth.GetSessionState := Some (λ u sid,
    if ok then
      match users d !! u with
      | Some us =>
          inl (u_SessionEpoch us,
               match sessions d !! sid with Some s => N.eqb (s_user s) u | None => false end)
      | None => inr UserGone
      end
    else inr UserErr) |}.
End Programs.
