(* ===== verification/SessionsSafe.v ===== *)
(** Sessions under concurrency.

    Any number of operations of [Sessions] run at once, one statement at a
    time, in any order, with any answer of the clock, any draw that is not a
    repetition and any failure of the database.  A refresh token is spent by at
    most one refresh; a revoked session and the tokens minted under it stay
    dead; no session outlives its cap. *)
From S2P Require Import Prelude.
From S2P Require Import GoStrings.
From S2P Require Import RateLimit.
From S2P Require Import SHA256.
From S2P Require Import Tokens.
From S2P Require Import Auth.
From S2P Require Import Sessions.

Local Open Scope Z_scope.

(** * The hashes in the table *)
Definition current (d : DB) (h : string) : Prop :=
  ∃ id s, sessions d !! id = Some s ∧ token_hash s = h.
Definition known (d : DB) (h : string) : Prop :=
  ∃ id s, sessions d !! id = Some s ∧ (token_hash s = h ∨ prev_token_hash s = Some h).

(** [d'] has no session and no hash that [d] has not. *)
Definition sub (d' d : DB) : Prop :=
  ∀ id s', sessions d' !! id = Some s' → ∃ s, sessions d !! id = Some s
    ∧ token_hash s' = token_hash s ∧ prev_token_hash s' = prev_token_hash s ∧ s_user s' = s_user s
    ∧ expires_at s' = expires_at s ∧ absolute_expires_at s' = absolute_expires_at s.

#[global] Instance sub_refl : Reflexive sub.
Proof. intros d id s Hs. by exists s. Qed.

Lemma sub_eq (d' d : DB) : sessions d' = sessions d → sub d' d.
Proof. intros He id s Hs. rewrite He in Hs. by exists s. Qed.
Lemma sub_filter (P : UUID * Session → Prop) `{∀ x, Decision (P x)} (d : DB) :
  sub (on_sessions (filter P) d) d.
Proof. intros id s. simpl. rewrite map_lookup_filter_Some. intros [Hs _]. by exists s. Qed.
Lemma sub_delete (id : UUID) (d : DB) : sub (on_sessions (delete id) d) d.
Proof. intros id' s. simpl. rewrite lookup_delete_Some. intros [_ Hs]. by exists s. Qed.

Lemma sub_current d' d h : sub d' d → current d' h → current d h.
Proof. intros Hs (id & s' & Hd & <-). destruct (Hs _ _ Hd) as (s & ? & -> & _). by exists id, s. Qed.
Lemma sub_known d' d h : sub d' d → known d' h → known d h.
Proof.
  intros Hs (id & s' & Hd & Hh). destruct (Hs _ _ Hd) as (s & ? & E1 & E2 & _).
  exists id, s. by rewrite <- E1, <- E2.
Qed.

(** [UNIQUE (token_hash)] *)
Definition unique (d : DB) : Prop :=
  ∀ id id' s s', sessions d !! id = Some s → sessions d !! id' = Some s' →
    token_hash s = token_hash s' → id = id'.
Lemma sub_unique d' d : sub d' d → unique d → unique d'.
Proof.
  intros Hs Hu id id' s s' Hd Hd' He. destruct (Hs _ _ Hd) as (t & Ht & E & _).
  destruct (Hs _ _ Hd') as (t' & Ht' & E' & _). apply (Hu id id' t t'); congruence.
Qed.

(** * What a statement does to the table *)
Definition plain (c : stmt) : bool :=
  match c with CreateSession _ | RotateSessionConditional _ _ _ _ => false | _ => true end.

Lemma query_plain (c : stmt) (e : Env) (d : DB) : plain c = true → sub (query c e d).1 d.
Proof.
  destruct c; intros Hp; try done; simpl; try (by apply sub_eq);
    try apply sub_filter; try apply sub_delete.
  1: { intros id' s'. simpl. rewrite lookup_alter_Some.
       intros [(-> & s & Hs & ->)|[_ Hs]]; [by exists s|by exists s']. }
  all: repeat case_match; try (by apply sub_eq). apply sub_delete.
Qed.

Lemma faulty_fst {A} (f : dbfault) (d : DB) (r : DB * result A) :
  (faulty f d r).1 = d ∨ (faulty f d r).1 = r.1.
Proof. destruct f; auto. Qed.

Lemma exec_plain (c : stmt) (e : Env) (d : DB) : plain c = true → sub (exec c e d).1 d.
Proof.
  intros Hp. assert ((exec c e d).1 = d ∨ (exec c e d).1 = (query c e d).1) as [->| ->].
  { destruct c; try (right; reflexivity); apply faulty_fst. }
  - reflexivity.
  - by apply query_plain.
Qed.

(** The two statements that write hashes. *)
Lemma exec_create (p : NewSession) (e : Env) (d : DB) :
  let '(d', a) := exec (CreateSession p) e d in
  d' = d ∧ (∀ id, a ≠ Ok id)
  ∨ d' = on_sessions <[e_id e := new_session e p]> d ∧ (a = Ok (e_id e) ∨ a = DBErr).
Proof.
  unfold exec, query. destruct (users d !! n_user p); [destruct (hash_taken _ _)|];
    destruct (e_fault e); simpl; auto.
Qed.

Lemma exec_rotate (id : UUID) (n : string) (x : Z) (o : string) (e : Env) (d : DB) :
  let '(d', a) := exec (RotateSessionConditional id n x o) e d in
  d' = d ∧ (a = Ok 0 ∨ a = DBErr)
  ∨ ∃ s, sessions d !! id = Some s ∧ token_hash s = o
      ∧ d' = on_sessions <[id := rotated (e_now e) n x s]> d ∧ (a = Ok 1 ∨ a = DBErr).
Proof.
  unfold exec, query. destruct (sessions d !! id) as [s|] eqn:Hs.
  - destruct (String.eqb_spec (token_hash s) o) as [Ho|]; simpl.
    + destruct (hash_taken _ _); destruct (e_fault e); simpl; eauto 10.
    + destruct (e_fault e); simpl; auto.
  - destruct (e_fault e); simpl; auto.
Qed.

Lemma pick_Some {A} (P : A → bool) (m : gmap UUID A) (x : UUID * A) :
  pick P m = Some x → m !! x.1 = Some x.2 ∧ P x.2 = true.
Proof.
  unfold pick. intros [Hx Hp]%find_first_Some. split; [|done].
  destruct x as [i a]. by apply elem_of_map_to_list in Hx.
Qed.

(** * The system *)
Inductive Req :=
| RqRefresh (client : option SessionClient) (token : string)
| RqLogin (pepper : option (list ascii)) (client : option SessionClient) (name password : string)
| RqSignIn (client : option SessionClient) (id : UUID) (user : User)   (* SSO, 2FA: the row was read before *)
| RqLogout (token : string)
| RqRevokeMine (c : Claims) (sid : UUID)
| RqRevokeForUser (c : Claims) (target sid : UUID)
| RqRevokeOthers (c : Claims)
| RqRevokeAll (c : Claims) (target : UUID)
| RqResetPassword (token password : string)
| RqAdminReset (target : UUID) (password : string)
| RqSetAdmin (target : UUID) (b : bool)
| RqChangePassword (c : Claims) (now_pw new_pw : string)
| RqDeleteUser (u : UUID)
| RqPurge.

Section System.
Context `{Paseto} `{Bcrypt}.

Definition prog_of (r : Req) : prog outcome :=
  match r with
  | RqRefresh c t => Refresh c t
  | RqLogin p c n w => LoginLocal p c n w
  | RqSignIn c id u => issueTokenPair c id u
  | RqLogout t => Logout t
  | RqRevokeMine c s => RevokeMine c s
  | RqRevokeForUser c t s => RevokeForUser c t s
  | RqRevokeOthers c => RevokeOthers c
  | RqRevokeAll c t => RevokeAllForUser c t
  | RqResetPassword t w => ResetPassword t w
  | RqAdminReset t w => AdminResetPassword t w
  | RqSetAdmin t b => SetAdmin t b
  | RqChangePassword c a b => ChangePassword c a b
  | RqDeleteUser u => Do (DeleteUser u) (λ a, Ret (if is_ok a then ODone false else OError))
  | RqPurge => Do DeleteExpiredSessions (λ _, Ret (ODone false))
  end.

Record Thread := mkThread { t_req : Req; t_prog : prog outcome }.
(** The hashes of the random values drawn so far, and the session ids used,
    are the history that says what a fresh draw is. *)
Record Sys := mkSys { db : DB; threads : list Thread; drawn : list string; ids : list UUID }.

Definition draw_hash (u : UUID) : string := HashToken (refresh_raw u).

(** [uuid.NewRandom] and [gen_random_uuid()] do not repeat. *)
Definition fresh (s : Sys) (c : stmt) (e : Env) : Prop :=
  match c with
  | NewRandom => ∀ u, e_random e = Some u → draw_hash u ∉ drawn s
  | CreateSession _ => e_id e ∉ ids s ∧ e_id e ≠ Nil
  | _ => True
  end.
Definition draws (c : stmt) (e : Env) : list string :=
  match c with NewRandom => match e_random e with Some u => [draw_hash u] | None => [] end | _ => [] end.
Definition draws_id (c : stmt) (e : Env) : list UUID :=
  match c with CreateSession _ => [e_id e] | _ => [] end.

Definition after (s : Sys) (i : nat) (r : Req) (c : stmt) (k : answer c → prog outcome) (e : Env) : Sys :=
  let '(d, a) := exec c e (db s) in
  mkSys d (<[i := mkThread r (k a)]> (threads s)) (draws c e ++ drawn s) (draws_id c e ++ ids s).

Inductive step (s : Sys) : Sys → Prop :=
| step_start r : step s (mkSys (db s) (threads s ++ [mkThread r (prog_of r)]) (drawn s) (ids s))
| step_exec i r c k e :
    threads s !! i = Some (mkThread r (Do c k)) → fresh s c e → step s (after s i r c k e).

(** A database at rest: nobody is running, and its hashes and ids are known. *)
Definition start (s : Sys) : Prop :=
  threads s = [] ∧ unique (db s) ∧ (∀ h, known (db s) h → h ∈ drawn s)
  ∧ (∀ id, is_Some (sessions (db s) !! id) → id ∈ ids s) ∧ sessions (db s) !! Nil = None.
Definition reachable (s : Sys) : Prop := ∃ s0, start s0 ∧ rtc step s0 s.

(** * What a running operation has drawn, tried to write and rotated *)
Record Ghost := mkGhost {
  own : list string; made : list string; tried : list string; rots : list (string * string) }.
Definition ghost0 : Ghost := mkGhost [] [] [] [].
Definition g_own (h : string) (g : Ghost) : Ghost := mkGhost (h :: own g) (made g) (tried g) (rots g).
Definition g_made (h : string) (g : Ghost) : Ghost := mkGhost (own g) (h :: made g) (tried g) (rots g).
Definition g_tried (h : string) (g : Ghost) : Ghost := mkGhost (own g) (made g) (h :: tried g) (rots g).
Definition g_rot (o n : string) (g : Ghost) : Ghost := mkGhost (own g) (made g) (tried g) ((o, n) :: rots g).
Definition used (g : Ghost) (h : string) : Prop := h ∈ made g ∨ h ∈ tried g.

(** The discipline of an operation towards the hashes: it writes only hashes it
    drew, each at most once, and what it may conclude from finding one. *)
Fixpoint proto (Q : Ghost → outcome → Prop) (p : prog outcome) (g : Ghost) : Prop :=
  match p with
  | Ret o => Q g o
  | Do c k =>
      match c return (answer c → prog outcome) → Prop with
      | NewRandom => λ k, proto Q (k None) g ∧
          ∀ u, proto Q (k (Some u)) (g_own (draw_hash u) g)
      | CreateSession p => λ k, n_hash p ∈ own g ∧ ¬ used g (n_hash p) ∧
          ∀ a, proto Q (k a) (g_made (n_hash p) g)
      | RotateSessionConditional _ n _ o => λ k, n ∈ own g ∧ ¬ used g n ∧
          (∀ a, a = Ok 0 ∨ a = DBErr → proto Q (k a) (g_tried n g)) ∧
          (∀ a, a = Ok 1 ∨ a = DBErr → proto Q (k a) (g_rot o n (g_tried n g)))
      | GetSessionByAnyTokenHash h => λ k, ∀ a,
          (∀ id s, a = Ok (id, s, true) → h ∈ own g → h ∈ made g ∨ ∃ o, (o, h) ∈ rots g) →
          proto Q (k a) g
      | c => λ k, ∀ a, proto Q (k a) g
      end k
  end.

(** What a refresh that answered with a pair has done. *)
Definition post (r : Req) (g : Ghost) (o : outcome) : Prop :=
  match r, o with
  | RqRefresh _ tok, OPair p => (HashToken tok, HashToken (RefreshToken p)) ∈ rots g
  | _, _ => True
  end.

(** ** Every operation keeps the discipline *)
Lemma issueTokenPair_proto (r : Req) (c : option SessionClient) (id : UUID) (u : User) (g : Ghost) :
  match r with RqRefresh _ _ => False | _ => True end →
  (∀ h, ¬ used g h) → proto (post r) (issueTokenPair c id u) g.
Proof.
  intros Hr Hg. assert (∀ g o, post r g o) as Hp by (intros g' o; by destruct r).
  unfold issueTokenPair. simpl. split; [apply Hp|]. intros v a. split; [left|]. split; [apply Hg|].
  intros [sid| |]; simpl; auto.
Qed.

Lemma burn_family_proto (Q : Ghost → outcome → Prop) id s t g :
  (∀ r, Q g (OReuse r)) → proto Q (burn_family id s t) g.
Proof. intros HQ. unfold burn_family. simpl. auto. Qed.

Lemma refresh_rotated_failed (Q : Ghost → outcome → Prop) c h n id s pair g (a : result Z) :
  (∀ o, match o with OPair _ => False | _ => True end → Q g o) →
  a = Ok 0 → proto Q (refresh_rotated c h n id s pair a) g.
Proof.
  intros HQ ->. unfold refresh_rotated. simpl. intros [[[rid r] []]| |] _;
    try (apply burn_family_proto; intros; by apply HQ).
  destruct (N.eqb rid id); [|apply burn_family_proto; intros; by apply HQ].
  simpl. intros now. destruct (toleratedRefreshReuse _ _ _ _); [by apply HQ|].
  apply burn_family_proto; intros; by apply HQ.
Qed.

Lemma refresh_rotated_error (Q : Ghost → outcome → Prop) c h n id s pair g :
  (∀ o, match o with OPair _ => False | _ => True end → Q g o) →
  ((n ∈ own g → n ∈ made g ∨ ∃ o, (o, n) ∈ rots g) → Q g (OPair pair)) →
  proto Q (refresh_rotated c h n id s pair DBErr) g.
Proof.
  intros HQ Hp. unfold refresh_rotated. simpl. intros [[[lid l] []]| |] Hl; try (by apply HQ).
  destruct (N.eqb lid id); [|by apply HQ]. apply Hp. by apply (Hl lid l).
Qed.

Lemma used0 (h : string) : ¬ used ghost0 h.
Proof. intros [Hh|Hh]; inversion Hh. Qed.

Lemma refresh_mint_proto c c' tok id s u :
  proto (post (RqRefresh c tok)) (refresh_mint c' (HashToken tok) id s u) ghost0.
Proof.
  assert (∀ g o, match o with OPair _ => False | _ => True end → post (RqRefresh c tok) g o) as HQ
    by (by intros g []).
  unfold refresh_mint. cbn [proto]. intros t1 t2. split; [done|]. intros v t3.
  set (h := HashToken (refresh_raw v)). set (g := g_own (draw_hash v) ghost0).
  split; [left|]. split; [apply used0|]. split.
  - intros a [->| ->]; [by apply refresh_rotated_failed; [apply HQ|]|].
    apply refresh_rotated_error; [apply HQ|]. intros Hl. exfalso.
    destruct Hl as [Hl|[o Hl]]; [left|inversion Hl..].
  - assert (post (RqRefresh c tok) (g_rot (HashToken tok) h (g_tried h g))
      (OPair (mkPair (IssueAccessToken t1 (user_claims (s_user s) u id)) (refresh_raw v)
                (IssueAssetToken t2 (user_claims (s_user s) u id)) (t3 + RefreshTokenTTL) (s_user s)
                (u_Username u) (u_IsAdmin u)))) as Hp by left.
    intros a [->| ->].
    + unfold refresh_rotated, recordSessionClient. simpl. destruct c'; simpl; [intros _|]; exact Hp.
    + apply refresh_rotated_error; [apply HQ|]. intros _. exact Hp.
Qed.

Lemma proto_other (Q : Ghost → outcome → Prop) (c : stmt) (k : answer c → prog outcome) (g : Ghost) :
  match c with
  | NewRandom | CreateSession _ | RotateSessionConditional _ _ _ _ | GetSessionByAnyTokenHash _ => False
  | _ => True
  end → (∀ a, proto Q (k a) g) → proto Q (Do c k) g.
Proof. by destruct c. Qed.

Lemma proto_random (Q : Ghost → outcome → Prop) (k : option UUID → prog outcome) (g : Ghost) :
  proto Q (k None) g →
  (∀ u, proto Q (k (Some u)) (g_own (draw_hash u) g)) →
  proto Q (Do NewRandom k) g.
Proof. done. Qed.

Ltac crush_step :=
  lazymatch goal with
  | |- True => exact I
  | |- ∀ _, _ => intros ?
  | |- _ ∧ _ => split
  | |- proto _ (Ret _) _ => exact I
  | |- proto _ (Do _ _) _ => first [apply proto_other; [exact I|intros ?] | apply proto_random]
  | |- proto _ (match ?x with _ => _ end) _ => destruct x
  end.

Lemma prog_of_proto (r : Req) : proto (post r) (prog_of r) ghost0.
Proof.
  destruct r as [c tok|pp c n w|c id u|tok|c sid|c t sid|c|c t|tok w|t w|t b|c a b|u|].
  - simpl. unfold Refresh. intros [[[id s] []]| |] _; cbn [proto]; try done.
    + intros [u| |]; [|done..]. apply refresh_mint_proto.
    + intros now. destruct (toleratedRefreshReuse _ _ _ _); [done|]. by apply burn_family_proto.
  - simpl. unfold LoginLocal. cbv zeta.
    repeat crush_step; (apply issueTokenPair_proto; [done|apply used0]).
  - apply issueTokenPair_proto; [done|apply used0].
  - simpl; unfold Logout; repeat crush_step.
  - simpl; unfold RevokeMine, revoke; repeat crush_step.
  - simpl; unfold RevokeForUser, revoke; repeat crush_step.
  - simpl; unfold RevokeOthers; repeat crush_step.
  - simpl; unfold RevokeAllForUser; repeat crush_step.
  - simpl; unfold ResetPassword, revoke_after_change; repeat crush_step.
  - simpl; unfold AdminResetPassword, revoke_after_change; repeat crush_step.
  - simpl; unfold SetAdmin, revoke_after_change; repeat crush_step.
  - simpl; unfold ChangePassword, change_password; repeat crush_step.
  - simpl. repeat crush_step.
  - simpl. repeat crush_step.
Qed.

(** ** The invariant *)
(** What an operation's bookkeeping says of the table. *)
Record local (D : list string) (d : DB) (g : Ghost) : Prop := {
  l_own h : h ∈ own g → h ∈ D;
  l_used h : h ∈ own g → known d h → used g h;
  l_cur h : h ∈ own g → current d h → h ∈ made g ∨ ∃ o, (o, h) ∈ rots g;
  l_ret o n : (o, n) ∈ rots g → o ∈ D ∧ ¬ current d o;
  l_self o n : (o, n) ∈ rots g → o ∈ own g → used g o }.
(** Two operations share no draw and no rotation. *)
Record apart (g g' : Ghost) : Prop := {
  a_own h : h ∈ own g → h ∈ own g' → False;
  a_spent o n : (o, n) ∈ rots g → o ∈ own g' → used g' o;
  a_once o n n' : (o, n) ∈ rots g → (o, n') ∈ rots g' → False }.
Record Inv (gs : list Ghost) (D : list string) (d : DB) : Prop := {
  i_unique : unique d;
  i_known h : known d h → h ∈ D;
  i_local i g : gs !! i = Some g → local D d g;
  i_apart i j g g' : i ≠ j → gs !! i = Some g → gs !! j = Some g' → apart g g' }.

Lemma current_known d h : current d h → known d h.
Proof. intros (id & s & Hs & Hh). exists id, s. by split; [|left]. Qed.

Lemma local_sub D d d' g : local D d g → sub d' d → local D d' g.
Proof.
  intros Hl Hs. split.
  - apply Hl.
  - intros h Ho Hk. by eapply l_used, sub_known.
  - intros h Ho Hk. by eapply l_cur, sub_current.
  - intros o n Hr. destruct (l_ret _ _ _ Hl o n Hr) as [? Hc]. split; [done|].
    intros Hd. by eapply Hc, sub_current.
  - apply Hl.
Qed.
Lemma Inv_sub gs D d d' : Inv gs D d → sub d' d → Inv gs D d'.
Proof.
  intros Hi Hs. split.
  - by eapply sub_unique, i_unique.
  - intros h Hk. by eapply i_known, sub_known.
  - intros i g Hg. by eapply local_sub; [eapply i_local|].
  - by eapply i_apart.
Qed.

(** One operation moves: the others have to see nothing they relied on. *)
Lemma Inv_update gs D d D' d' i g g' :
  Inv gs D d → gs !! i = Some g → unique d' → (∀ h, known d' h → h ∈ D') → local D' d' g' →
  (∀ j gj, j ≠ i → gs !! j = Some gj → local D d gj → apart g gj → apart gj g →
     local D' d' gj ∧ apart g' gj ∧ apart gj g') →
  Inv (<[i := g']> gs) D' d'.
Proof.
  intros Hi Hg Hu Hk Hl Ho.
  assert (∀ j gj, j ≠ i → gs !! j = Some gj → local D' d' gj ∧ apart g' gj ∧ apart gj g') as Hj.
  { intros j gj Hne Hgj. apply (Ho j); [done..|by eapply i_local| |].
    - by apply (i_apart _ _ _ Hi i j).
    - by apply (i_apart _ _ _ Hi j i). }
  split; [done|done|..].
  - intros j gj [(<- & <- & _)|[Hne Hgj]]%list_lookup_insert_Some; [done|]. by apply (Hj j).
  - intros j k gj gk Hjk [(<- & <- & _)|[Hne Hgj]]%list_lookup_insert_Some
      [(<- & <- & _)|[Hne' Hgk]]%list_lookup_insert_Some; [done|by apply (Hj k)|by apply (Hj j)|].
    by apply (i_apart _ _ _ Hi j k).
Qed.

Lemma Inv_start gs D d : Inv gs D d → Inv (gs ++ [ghost0]) D d.
Proof.
  intros Hi.
  assert (∀ j g, (gs ++ [ghost0]) !! j = Some g → g = ghost0 ∨ gs !! j = Some g) as Hj.
  { intros j g [?|[? Hx]]%lookup_app_Some; [by right|left]. by apply list_lookup_singleton_Some in Hx as [_ <-]. }
  split.
  - apply Hi.
  - apply Hi.
  - intros j g [->|Hg]%Hj; [|by eapply i_local]. split; simpl; intros *; by rewrite elem_of_nil.
  - intros i j g g' Hne [->|Hg]%Hj [->|Hg']%Hj; try (by eapply (i_apart _ _ _ Hi i j)).
    all: split; simpl; intros *; by rewrite elem_of_nil.
Qed.

Lemma Inv_draw gs D d i g h :
  Inv gs D d → gs !! i = Some g → h ∉ D → Inv (<[i := g_own h g]> gs) (h :: D) d.
Proof.
  intros Hi Hg Hh. pose proof (i_local _ _ _ Hi i g Hg) as Hl.
  assert (¬ known d h) as Hn by (intros Hk; by eapply Hh, i_known).
  eapply Inv_update; [done..|apply Hi| | |].
  - intros h' Hk. right. by eapply i_known.
  - split; simpl.
    + intros h' [->|Ho]%elem_of_cons; [left|right; by apply Hl].
    + intros h' [->|Ho]%elem_of_cons Hk; [done|]. by apply (l_used _ _ _ Hl).
    + intros h' [->|Ho]%elem_of_cons Hk; [by apply current_known in Hk|]. by apply (l_cur _ _ _ Hl).
    + intros o n Hr. destruct (l_ret _ _ _ Hl o n Hr). split; [by right|done].
    + intros o n Hr [->|Ho]%elem_of_cons; [by destruct (l_ret _ _ _ Hl h n Hr)|].
      by eapply (l_self _ _ _ Hl).
  - intros j gj _ _ Hlj A1 A2. split; [|split].
    + split; [intros; right; by apply Hlj|apply Hlj|apply Hlj| |apply Hlj].
      intros o n Hr. destruct (l_ret _ _ _ Hlj o n Hr). split; [by right|done].
    + split; [|apply A1|apply A1]. simpl.
      intros h' [->|Ho]%elem_of_cons Ho'; [by apply Hh, Hlj|by eapply A1].
    + split; [..|apply A2].
      * intros h' Ho [->|Ho']%elem_of_cons; [by apply Hh, Hlj|by eapply A2].
      * intros o n Hr [->|Ho']%elem_of_cons; [by destruct (l_ret _ _ _ Hlj h n Hr)|].
        by eapply (a_spent _ _ A2).
Qed.

(** A write of a hash of one's own, with the rotation it may complete. *)
Lemma Inv_write gs D d d' i g g' n :
  Inv gs D d → gs !! i = Some g → n ∈ own g → ¬ used g n → unique d' →
  (∀ h, known d' h → known d h ∨ h = n) → (∀ h, current d' h → current d h ∨ h = n) →
  own g' = own g → (∀ h, h ∈ made g → h ∈ made g') → (∀ h, used g h → used g' h) → used g' n →
  (∀ x, x ∈ rots g → x ∈ rots g') → (current d' n → n ∈ made g' ∨ ∃ o, (o, n) ∈ rots g') →
  (∀ o m, (o, m) ∈ rots g' → (o, m) ∈ rots g ∨ current d o ∧ ¬ current d' o) →
  Inv (<[i := g']> gs) D d'.
Proof.
  intros Hi Hg Hn Hun Hu Hk Hc Eo Hm Hus Hus' Hr Hcn Hnew.
  pose proof (i_local _ _ _ Hi i g Hg) as Hl.
  eapply Inv_update; [done..| | |].
  - intros h [Hh|Hh]%Hk; [by eapply i_known|subst; by apply Hl].
  - split; rewrite ?Eo.
    + apply Hl.
    + intros h Ho [Hh|Hh]%Hk; [by apply Hus, (l_used _ _ _ Hl)|by subst].
    + intros h Ho Hh. destruct (Hc h Hh) as [Hd| ->]; [|auto].
      destruct (l_cur _ _ _ Hl h Ho Hd) as [?|[o ?]]; eauto.
    + intros o m [Hro|[Hd Hd']]%Hnew.
      * destruct (l_ret _ _ _ Hl o m Hro). split; [done|]. intros [?| ->]%Hc; [done|].
        by eapply Hun, (l_self _ _ _ Hl).
      * split; [by eapply i_known, current_known|done].
    + intros o m [Hro|[Hd Hd']]%Hnew Ho; apply Hus; [by eapply (l_self _ _ _ Hl)|].
      by eapply (l_used _ _ _ Hl), current_known.
  - intros j gj Hj Hgj Hlj A1 A2. split; [|split].
    + split; [apply Hlj|..|apply Hlj].
      * intros h Ho [Hh|Hh]%Hk; [by apply (l_used _ _ _ Hlj)|]. subst. by destruct (a_own _ _ A1 n).
      * intros h Ho [Hh|Hh]%Hc; [by apply (l_cur _ _ _ Hlj)|]. subst. by destruct (a_own _ _ A1 n).
      * intros o m Hro. destruct (l_ret _ _ _ Hlj o m Hro). split; [done|].
        intros [?| ->]%Hc; [done|]. by eapply Hun, (a_spent _ _ A2).
    + split; rewrite ?Eo; [apply A1|..].
      * intros o m [Hro|[Hd _]]%Hnew Ho; [by eapply (a_spent _ _ A1)|].
        by eapply (l_used _ _ _ Hlj), current_known.
      * intros o m m' [Hro|[Hd _]]%Hnew Ho; [by eapply (a_once _ _ A1)|].
        by destruct (l_ret _ _ _ Hlj o m' Ho).
    + split; rewrite ?Eo; [apply A2|..].
      * intros o m Ho Hro. by eapply Hus, (a_spent _ _ A2).
      * intros o m m' Ho [Hro|[Hd _]]%Hnew; [by eapply (a_once _ _ A2)|].
        by destruct (l_ret _ _ _ Hlj o m Ho).
Qed.

Lemma insert_known d id s h :
  known (on_sessions <[id := s]> d) h → known d h ∨ token_hash s = h ∨ prev_token_hash s = Some h.
Proof.
  intros (id' & s' & Hs & Hh). simpl in Hs.
  apply lookup_insert_Some in Hs as [[<- <-]|[_ Hs]]; [by right|]. left. by exists id', s'.
Qed.
Lemma insert_current d id s h :
  current (on_sessions <[id := s]> d) h →
  (∃ id' s', id' ≠ id ∧ sessions d !! id' = Some s' ∧ token_hash s' = h) ∨ token_hash s = h.
Proof.
  intros (id' & s' & Hs & Hh). simpl in Hs.
  apply lookup_insert_Some in Hs as [[<- <-]|[Hne Hs]]; [by right|]. left. by exists id', s'.
Qed.
Lemma insert_unique d id s :
  unique d → ¬ current d (token_hash s) → unique (on_sessions <[id := s]> d).
Proof.
  intros Hu Hn i1 i2 s1 s2. simpl.
  intros [[<- <-]|[_ K1]]%lookup_insert_Some [[<- <-]|[_ K2]]%lookup_insert_Some He.
  - done.
  - destruct Hn. by exists i2, s2.
  - destruct Hn. by exists i1, s1.
  - by apply (Hu i1 i2 s1 s2).
Qed.

Lemma own_unused_unknown gs D d i g n :
  Inv gs D d → gs !! i = Some g → n ∈ own g → ¬ used g n → ¬ known d n.
Proof. intros Hi Hg Ho Hu Hk. eapply Hu, l_used; [by eapply i_local|done..]. Qed.

Lemma Inv_create gs D d d' i g n :
  Inv gs D d → gs !! i = Some g → n ∈ own g → ¬ used g n →
  (d' = d ∨ ∃ id s, d' = on_sessions <[id := s]> d ∧ token_hash s = n ∧ prev_token_hash s = None) →
  Inv (<[i := g_made n g]> gs) D d'.
Proof.
  intros Hi Hg Ho Hu Hd. pose proof (own_unused_unknown _ _ _ _ _ _ Hi Hg Ho Hu) as Hn.
  apply (Inv_write gs D d d' i g _ n); try done; simpl; try (by auto); try (by left; left);
    try (intros h [?|?]; [left; by right|by right]); try (intros; right; done).
  - destruct Hd as [->|(id & s & -> & E & _)]; [apply Hi|]. apply insert_unique; [apply Hi|].
    rewrite E. by intros ?%current_known.
  - destruct Hd as [->|(id & s & -> & E & E')]; [auto|].
    intros h [?|[?|?]]%insert_known; [auto|right; congruence|congruence].
  - destruct Hd as [->|(id & s & -> & E & E')]; [auto|].
    intros h [(id' & s' & _ & ? & ?)|?]%insert_current; [left; by exists id', s'|right; congruence].
Qed.

Lemma Inv_tried gs D d i g n :
  Inv gs D d → gs !! i = Some g → n ∈ own g → ¬ used g n → Inv (<[i := g_tried n g]> gs) D d.
Proof.
  intros Hi Hg Ho Hu. pose proof (own_unused_unknown _ _ _ _ _ _ Hi Hg Ho Hu) as Hn.
  apply (Inv_write gs D d d i g _ n); try done; simpl; try (by auto); try (by right; left);
    try (intros h [?|?]; [by left|right; by right]); try apply Hi. by intros ?%current_known.
Qed.

Lemma Inv_rotate gs D d i g o n id s now x :
  Inv gs D d → gs !! i = Some g → n ∈ own g → ¬ used g n →
  sessions d !! id = Some s → token_hash s = o →
  Inv (<[i := g_rot o n (g_tried n g)]> gs) D (on_sessions <[id := rotated now n x s]> d).
Proof.
  intros Hi Hg Ho Hu Hs Hh. pose proof (own_unused_unknown _ _ _ _ _ _ Hi Hg Ho Hu) as Hn.
  assert (current d o) as Hco by (by exists id, s).
  apply (Inv_write gs D d _ i g _ n); try done; simpl; try (by auto); try (by right; left);
    try (intros h [?|?]; [by left|right; by right]); try (intros; right; done).
  - apply insert_unique; [apply Hi|]. simpl. by intros ?%current_known.
  - intros h [?|[?|[= ?]]]%insert_known; [auto|auto|]. left. subst. by apply current_known.
  - intros h [(id' & s' & _ & ? & ?)|?]%insert_current; [left; by exists id', s'|auto].
  - intros _. right. exists o. left.
  - intros o' m [[= -> ->]|Hr]%elem_of_cons; [right|by left]. split; [done|].
    intros [(id' & s' & Hne & Hs' & He)|He]%insert_current; simpl in *.
    + apply Hne. apply (i_unique _ _ _ Hi id' id s' s); congruence.
    + apply Hn. rewrite He. by apply current_known.
Qed.

(** ** Every step keeps the invariant *)
Lemma lookup_answer (h : string) (e : Env) (d : DB) id s b :
  (exec (GetSessionByAnyTokenHash h) e d).2 = Ok (id, s, b) →
  sessions d !! id = Some s ∧ live (e_now e) s = true
  ∧ b = String.eqb (token_hash s) h ∧ (b = false → prev_token_hash s = Some h).
Proof.
  unfold exec, query. destruct (e_fault e); [|done..]. simpl.
  destruct (pick _ (sessions d)) as [[id' s']|] eqn:Ep; [|done]. intros [= <- <- <-].
  apply pick_Some in Ep as [Hs Hp]. simpl in *. apply andb_true_iff in Hp as [Hp Hl].
  repeat split; try done. intros Hb. rewrite Hb in Hp. by apply bool_decide_eq_true in Hp.
Qed.

Definition cur_at (d : DB) (id : UUID) (h : string) : Prop :=
  ∃ s, sessions d !! id = Some s ∧ token_hash s = h.
Lemma sub_cur_at d' d id h : sub d' d → cur_at d' id h → cur_at d id h.
Proof. intros Hs (s' & Hd & <-). destruct (Hs _ _ Hd) as (s & ? & -> & _). by exists s. Qed.
Lemma insert_cur_at d id s id' h :
  cur_at (on_sessions <[id := s]> d) id' h → cur_at d id' h ∨ token_hash s = h.
Proof.
  intros (s' & Hs & Hh). simpl in Hs.
  apply lookup_insert_Some in Hs as [[<- <-]|[_ Hs]]; [by right|]. left. by exists s'.
Qed.

(** How one step of an operation can move the hashes. *)
Record moves (d d' : DB) (g g' : Ghost) (new : list string) : Prop := {
  m_cur id h : cur_at d' id h → cur_at d id h ∨ h ∈ own g ∧ ¬ used g h;
  m_used h : used g h → used g' h;
  m_own h : h ∈ own g' → h ∈ own g ∨ h ∈ new;
  m_rots o n : (o, n) ∈ rots g' → (o, n) ∈ rots g ∨ current d o }.

Lemma exec_inv s gs i g r c k e :
  Inv gs (drawn s) (db s) → gs !! i = Some g → proto (post r) (Do c k) g → fresh s c e →
  let '(d, a) := exec c e (db s) in
  ∃ g', Inv (<[i := g']> gs) (draws c e ++ drawn s) d ∧ proto (post r) (k a) g'
    ∧ moves (db s) d g g' (draws c e).
Proof.
  intros Hi Hg Hp Hf.
  assert (plain c = true → c ≠ NewRandom →
    (match c with NewRandom | CreateSession _ | RotateSessionConditional _ _ _ _
                | GetSessionByAnyTokenHash _ => False | _ => True end ∨ proto (post r) (k (exec c e (db s)).2) g) →
    let '(d, a) := exec c e (db s) in
    ∃ g', Inv (<[i := g']> gs) (draws c e ++ drawn s) d ∧ proto (post r) (k a) g'
      ∧ moves (db s) d g g' (draws c e)) as Hplain.
  { intros Hc Hne Hk. pose proof (exec_plain c e (db s) Hc) as Hs.
    destruct (exec c e (db s)) as [d a] eqn:E. exists g. rewrite list_insert_id by done.
    assert (draws c e = []) as -> by by destruct c. split; [by eapply Inv_sub|].
    split; [destruct Hk as [Hk|Hk]; [|done]; destruct c; try done; apply Hp|].
    split; auto. intros id h Hc'. left. by eapply sub_cur_at. }
  destruct c; try (by (apply Hplain; [done|done|left])).
  - apply Hplain; [done|done|right]. apply Hp. intros id s' Ha Ho.
    apply lookup_answer in Ha as (Hs & _ & Hb & _). symmetry in Hb. apply String.eqb_eq in Hb.
    eapply l_cur; [by eapply i_local|done|by exists id, s'].
  - destruct Hp as (Ho & Hu & Hk). pose proof (exec_create p e (db s)) as He.
    destruct (exec (CreateSession p) e (db s)) as [d a]. exists (g_made (n_hash p) g).
    split; [|split; [apply Hk|]].
    + eapply Inv_create; [done..|].
      destruct He as [[-> _]|[-> _]]; [by left|right]. by exists (e_id e), (new_session e p).
    + split; simpl; auto.
      * destruct He as [[-> _]|[-> _]]; [auto|]. intros id h [?|<-]%insert_cur_at; auto.
      * intros h [?|?]; [left; by right|by right].
  - destruct Hp as (Ho & Hu & Hk0 & Hk1). pose proof (exec_rotate id newHash expires oldHash e (db s)) as He.
    destruct (exec (RotateSessionConditional id newHash expires oldHash) e (db s)) as [d a].
    destruct He as [[-> Ha]|(s0 & Hs & Hh & -> & Ha)].
    + exists (g_tried newHash g). split; [by apply Inv_tried|]. split; [auto|].
      split; simpl; auto. intros h [?|?]; [by left|right; by right].
    + exists (g_rot oldHash newHash (g_tried newHash g)). split; [by eapply Inv_rotate|].
      split; [auto|]. split; simpl; auto.
      * intros id' h [?|<-]%insert_cur_at; auto.
      * intros h [?|?]; [by left|right; by right].
      * intros o n [[= -> ->]|?]%elem_of_cons; [right|by left]. by exists id, s0.
  - simpl in *. destruct Hp as [Hk0 Hk1]. destruct (e_random e) as [u|] eqn:Eu.
    + exists (g_own (draw_hash u) g). split; [apply Inv_draw; auto|]. split; [apply Hk1|].
      split; simpl; auto. intros h [->|?]%elem_of_cons; [right; left|by left].
    + exists g. rewrite list_insert_id by done. split; [done|]. split; [done|]. by split; auto.
Qed.

Definition Good (gs : list Ghost) (s : Sys) : Prop :=
  Inv gs (drawn s) (db s) ∧ length gs = length (threads s)
  ∧ ∀ i th g, threads s !! i = Some th → gs !! i = Some g → proto (post (t_req th)) (t_prog th) g.
Definition SysInv (s : Sys) : Prop := ∃ gs, Good gs s.

(** A step changes the bookkeeping of one operation, or adds an empty one. *)
Lemma step_Good gs (s s' : Sys) : Good gs s → step s s' →
  ∃ gs', Good gs' s' ∧ ((db s' = db s ∧ drawn s' = drawn s ∧ gs' = gs ++ [ghost0])
    ∨ ∃ i g g' new, gs !! i = Some g ∧ gs' = <[i := g']> gs ∧ drawn s' = new ++ drawn s
        ∧ (∀ h, h ∈ new → h ∉ drawn s) ∧ moves (db s) (db s') g g' new).
Proof.
  intros (Hi & Hl & Hp) [r|i r c k e Ht Hf].
  - exists (gs ++ [ghost0]). split; [|by left]. split; [by apply Inv_start|]. simpl.
    split; [rewrite !length_app; simpl; lia|].
    intros j th g [Hj|[? Hj]]%lookup_app_Some Hg.
    + apply lookup_app_Some in Hg as [Hg|[Hge _]]; [by eapply Hp|].
      apply lookup_lt_Some in Hj. lia.
    + apply list_lookup_singleton_Some in Hj as [Hj <-].
      apply lookup_app_Some in Hg as [Hg|[_ Hg]]; [apply lookup_lt_Some in Hg; lia|].
      apply list_lookup_singleton_Some in Hg as [_ <-]. apply prog_of_proto.
  - destruct (lookup_lt_is_Some_2 gs i) as [g Hg]; [rewrite Hl; by eapply lookup_lt_Some|].
    pose proof (exec_inv s gs i g r c k e Hi Hg (Hp _ _ _ Ht Hg) Hf) as Hx.
    unfold after. destruct (exec c e (db s)) as [d a]. destruct Hx as (g' & Hi' & Hp' & Hm).
    exists (<[i := g']> gs). split.
    + split; [exact Hi'|]. simpl. split; [by rewrite !length_insert|].
      intros j th gj [(<- & <- & _)|[Hne Hj]]%list_lookup_insert_Some
        [(? & <- & _)|[? Hgj]]%list_lookup_insert_Some; try done. by eapply Hp.
    + right. exists i, g, g', (draws c e). repeat split; try done; try apply Hm.
      intros h Hh. destruct c; try (by inversion Hh). simpl in *.
      destruct (e_random e) as [u|] eqn:Eu; [|by inversion Hh].
      apply list_elem_of_singleton in Hh as ->. by apply Hf.
Qed.

Lemma step_SysInv (s s' : Sys) : SysInv s → step s s' → SysInv s'.
Proof. intros [gs Hg] Hs. destruct (step_Good gs s s' Hg Hs) as (gs' & ? & _). by exists gs'. Qed.

(** ** A hash that has been in the table is never written again *)
Definition Old (h : string) (gs : list Ghost) (s : Sys) : Prop :=
  h ∈ drawn s ∧ ∀ i g, gs !! i = Some g → h ∈ own g → used g h.

Lemma known_Old gs s h : Good gs s → known (db s) h → Old h gs s.
Proof.
  intros (Hi & _) Hk. split; [by eapply i_known|]. intros i g Hg Ho.
  by eapply l_used; [eapply i_local|..].
Qed.

Lemma step_Old gs (s s' : Sys) h : Good gs s → Old h gs s → step s s' →
  ∃ gs', Good gs' s' ∧ Old h gs' s' ∧ (∀ id, cur_at (db s') id h → cur_at (db s) id h)
    ∧ ∀ i g' n, gs' !! i = Some g' → (h, n) ∈ rots g' →
        (∃ g, gs !! i = Some g ∧ (h, n) ∈ rots g) ∨ current (db s) h.
Proof.
  intros Hg [Hd Ho] Hs. destruct (step_Good gs s s' Hg Hs) as (gs' & Hg' & Hc).
  exists gs'. split; [done|].
  destruct Hc as [(Edb & Ed & ->)|(i & g & g' & new & Hgi & -> & Ed & Hnew & Hm)].
  - rewrite Edb. split; [|split; [done|]].
    + split; [by rewrite Ed|]. intros j gj [Hj|[_ Hj]]%lookup_app_Some; [by eapply Ho|].
      apply list_lookup_singleton_Some in Hj as [_ <-]. simpl. by rewrite elem_of_nil.
    + intros j gj n [Hj|[_ Hj]]%lookup_app_Some Hr; [left; eauto|].
      apply list_lookup_singleton_Some in Hj as [_ <-]. simpl in Hr. by rewrite elem_of_nil in Hr.
  - split; [|split].
    + split; [rewrite Ed; apply elem_of_app; by right|].
      intros j gj [(<- & <- & _)|[_ Hj]]%list_lookup_insert_Some Hh; [|by eapply Ho].
      destruct (m_own _ _ _ _ _ Hm h Hh) as [?|?]; [|by destruct (Hnew h)].
      by eapply m_used, Ho.
    + intros id Hid. destruct (m_cur _ _ _ _ _ Hm id h Hid) as [?|[Hh Hu]]; [done|].
      destruct Hu. by eapply Ho.
    + intros j gj n [(<- & <- & _)|[_ Hj]]%list_lookup_insert_Some Hr; [|left; eauto].
      destruct (m_rots _ _ _ _ _ Hm h n Hr) as [?|?]; [left; eauto|by right].
Qed.

Lemma cur_at_current d h : current d h ↔ ∃ id, cur_at d id h.
Proof. unfold current, cur_at. naive_solver. Qed.

Lemma steps_Old gs (s s' : Sys) h : Good gs s → Old h gs s → rtc step s s' →
  ∃ gs', Good gs' s' ∧ Old h gs' s' ∧ ∀ id, cur_at (db s') id h → cur_at (db s) id h.
Proof.
  intros Hg Ho Hs. revert gs Hg Ho. induction Hs as [s|s s1 s2 Hst _ IH]; intros gs Hg Ho; [eauto|].
  destruct (step_Old gs s s1 h Hg Ho Hst) as (gs1 & Hg1 & Ho1 & Hc & _).
  destruct (IH gs1 Hg1 Ho1) as (gs2 & ? & ? & ?). exists gs2. eauto.
Qed.

(** Once it is current nowhere, no operation started later rotates it. *)
Lemma steps_gone N gs (s s' : Sys) h : Good gs s → Old h gs s → ¬ current (db s) h →
  (∀ i g n, gs !! i = Some g → (h, n) ∈ rots g → (i < N)%nat) → rtc step s s' →
  ∃ gs', Good gs' s' ∧ ¬ current (db s') h
    ∧ ∀ i g n, gs' !! i = Some g → (h, n) ∈ rots g → (i < N)%nat.
Proof.
  intros Hg Ho Hn Hr Hs. revert gs Hg Ho Hn Hr.
  induction Hs as [s|s s1 s2 Hst _ IH]; intros gs Hg Ho Hn Hr; [eauto|].
  destruct (step_Old gs s s1 h Hg Ho Hst) as (gs1 & Hg1 & Ho1 & Hc & Hrot).
  apply (IH gs1 Hg1 Ho1).
  - intros [id Hid]%cur_at_current. apply Hn, cur_at_current. eauto.
  - intros i g n Hgi Hin. destruct (Hrot i g n Hgi Hin) as [(g0 & ? & ?)|?]; [eauto|done].
Qed.

Lemma reachable_SysInv (s : Sys) : reachable s → SysInv s.
Proof.
  intros (s0 & (Ht & Hu & Hk & _) & Hs). assert (SysInv s0) as H0'.
  { exists []. unfold Good. rewrite Ht. split; [|by split]. by split. }
  clear Ht Hu Hk. induction Hs as [s0|s0 s1 s2 Hst _ IH]; [done|]. by apply IH, (step_SysInv s0).
Qed.

(** C6: a refresh token is spent once.  In any interleaving of any operations,
    with any failures of the database - a rotation that commits and reports an
    error included - two refreshes that both answered with tokens presented
    tokens with different hashes, or they are the same request; and the token
    such a refresh presented is current on no session any more. *)
Theorem refresh_one_shot (s : Sys) (i j : nat) ci cj ti tj pi pj :
  reachable s →
  threads s !! i = Some (mkThread (RqRefresh ci ti) (Ret (OPair pi))) →
  threads s !! j = Some (mkThread (RqRefresh cj tj) (Ret (OPair pj))) →
  (HashToken ti = HashToken tj → i = j) ∧ ¬ current (db s) (HashToken ti).
Proof.
  intros (gs & Hi & Hl & Hp)%reachable_SysInv Hti Htj.
  destruct (lookup_lt_is_Some_2 gs i) as [gi Hgi]; [rewrite Hl; by eapply lookup_lt_Some|].
  destruct (lookup_lt_is_Some_2 gs j) as [gj Hgj]; [rewrite Hl; by eapply lookup_lt_Some|].
  pose proof (Hp _ _ _ Hti Hgi) as Hri. pose proof (Hp _ _ _ Htj Hgj) as Hrj. simpl in Hri, Hrj.
  split; [|apply (l_ret _ _ _ (i_local _ _ _ Hi i gi Hgi) _ _ Hri)]. intros He.
  destruct (decide (i = j)); [done|]. exfalso. rewrite He in Hri.
  by eapply (a_once _ _ (i_apart _ _ _ Hi i j _ _ n Hgi Hgj)).
Qed.

(** ** Sessions and epochs *)
Lemma exec_ids c e d id :
  is_Some (sessions (exec c e d).1 !! id) → is_Some (sessions d !! id) ∨ id ∈ draws_id c e.
Proof.
  intros [s Hs]. destruct (decide (plain c = true)) as [Hc|Hc].
  - destruct (exec_plain c e d Hc id s Hs) as (s' & ? & _). left. by exists s'.
  - destruct c as [| | | |p|id' n x o| | | | | | | | | | | | | | | | | | | | |]; try done.
    + pose proof (exec_create p e d) as He. destruct (exec _ e d) as [d' a].
      destruct He as [[-> _]|[-> _]]; [by left; exists s|]. simpl in *.
      apply lookup_insert_Some in Hs as [[<- _]|[_ Hs]]; [right; left|by left; exists s].
    + pose proof (exec_rotate id' n x o e d) as He. destruct (exec _ e d) as [d' a].
      destruct He as [[-> _]|(s0 & H0' & _ & -> & _)]; [by left; exists s|]. simpl in *.
      apply lookup_insert_Some in Hs as [[<- _]|[_ Hs]]; left; [by exists s0|by exists s].
Qed.

Definition gone (id : UUID) (s : Sys) : Prop := id ∈ ids s ∧ sessions (db s) !! id = None.
Lemma step_gone id (s s' : Sys) : gone id s → step s s' → gone id s'.
Proof.
  intros [Hi Hn] [r|i r c k e Ht Hf]; [done|]. pose proof (exec_ids c e (db s) id) as Hx.
  unfold after, gone. destruct (exec c e (db s)) as [d a]. simpl in *.
  split; [apply elem_of_app; by right|]. apply eq_None_not_Some. intros Hs.
  destruct (Hx Hs) as [[? ?]|Hd]; [congruence|]. destruct c; try (by inversion Hd).
  apply list_elem_of_singleton in Hd as ->. by destruct Hf.
Qed.
Lemma steps_gone_id id (s s' : Sys) : gone id s → rtc step s s' → gone id s'.
Proof. intros Hg Hs. induction Hs as [|s s1 s2 Hst _ IH]; [done|]. by eapply IH, step_gone. Qed.

(** Every session of a reachable state has an id of the history. *)
Lemma reachable_ids (s : Sys) id : reachable s → is_Some (sessions (db s) !! id) → id ∈ ids s.
Proof.
  intros (s0 & (_ & _ & _ & Hi & _) & Hs).
  assert (∀ id, is_Some (sessions (db s0) !! id) → id ∈ ids s0) as H0' by done. clear Hi.
  revert id. induction Hs as [|s s1 s2 Hst _ IH]; [done|]. apply IH. intros id.
  destruct Hst as [r|i r c k e Ht Hf]; [apply H0'|]. pose proof (exec_ids c e (db s) id) as Hx.
  unfold after. destruct (exec c e (db s)) as [d a]. simpl in *.
  intros Hs. apply elem_of_app. destruct (Hx Hs); auto.
Qed.

(** [u]'s epoch has passed [n], or the user is gone. *)
Definition passed (u : UUID) (n : Z) (d : DB) : Prop :=
  ∀ us, users d !! u = Some us → n < u_SessionEpoch us.

Lemma query_passed c e d u n : passed u n d → passed u n (query c e d).1.
Proof.
  intros Hp. destruct c; simpl; try done; try (repeat case_match; done).
  - destruct (users d !! user) as [us|] eqn:E; [|done]. case_match; [done|]. intros us'. simpl.
    intros [[-> <-]|[_ Hu]]%lookup_insert_Some; [|by apply Hp]. simpl. specialize (Hp us E). lia.
  - intros us'. simpl. rewrite lookup_alter_Some.
    intros [(-> & us & Hu & ->)|[_ Hu]]; [by apply (Hp us)|by apply Hp].
  - intros us'. simpl. rewrite lookup_alter_Some.
    intros [(-> & us & Hu & ->)|[_ Hu]]; [by apply (Hp us)|by apply Hp].
  - intros us'. simpl. rewrite lookup_delete_Some. intros [_ Hu]. by apply Hp.
Qed.
Lemma exec_passed c e d u n : passed u n d → passed u n (exec c e d).1.
Proof.
  intros Hp. assert ((exec c e d).1 = d ∨ (exec c e d).1 = (query c e d).1) as [->| ->].
  { destruct c; try (right; reflexivity); apply faulty_fst. }
  - done.
  - by apply query_passed.
Qed.
Lemma steps_passed u n (s s' : Sys) : passed u n (db s) → rtc step s s' → passed u n (db s').
Proof.
  intros Hp Hs. induction Hs as [|s s1 s2 Hst _ IH]; [done|]. apply IH.
  destruct Hst as [r|i r c k e Ht Hf]; [done|]. pose proof (exec_passed c e (db s) u n Hp) as Hx.
  unfold after. by destruct (exec c e (db s)).
Qed.

(** The middleware with its store answering from the state. *)
Definition auth_with (up : bool) (s : Sys) : Authenticator :=
  {| epochs := Some (epoch_reader up (db s)); keys := None |}.


(** The accepted risk: while the lookup fails, a token of a sign-in is honoured. *)
Lemma epochValid_outage (s : Sys) (c : Claims) :
  APIKeyID c = Nil → epochValid (auth_with false s) c = true.
Proof.
  intros Hk. unfold epochValid. rewrite Hk. simpl. by destruct (uuid_Nil (SessionID c)).
Qed.

Lemma epochValid_gone (s : Sys) (c : Claims) :
  APIKeyID c = Nil → SessionID c ≠ Nil → sessions (db s) !! SessionID c = None →
  epochValid (auth_with true s) c = false.
Proof.
  intros Hk Hn Hs. unfold epochValid, uuid_Nil. rewrite Hk, (proj2 (N.eqb_neq _ _) Hn). simpl.
  rewrite Hs. repeat case_match; by simplify_eq.
Qed.

Lemma epochValid_passed (s : Sys) (c : Claims) :
  APIKeyID c = Nil → 0 <= SessionEpoch c → passed (UserID c) (SessionEpoch c) (db s) →
  epochValid (auth_with true s) c = false.
Proof.
  intros Hk He Hp. unfold epochValid. rewrite Hk. simpl.
  destruct (uuid_Nil (SessionID c));
    match goal with |- context [match ?x with Some us => inl _ | None => _ end] =>
      destruct x as [us|] eqn:Hu end; try done; specialize (Hp us Hu).
  - destruct (Z.eqb_spec (SessionEpoch c) 0); apply Z.eqb_neq; lia.
  - destruct (negb _); [done|]. destruct (Z.eqb_spec (SessionEpoch c) 0); apply Z.eqb_neq; lia.
Qed.

(** C7: signing out is final, as far as the store can be asked.  Once a session
    of the table is gone - revoked, signed out, swept with its family, expired -
    then in every later state no request started since, with the token that was
    current on it, gets a new pair, whatever fails; and an access, asset or
    stream token that names it is refused exactly when the epoch lookup
    answers: while it fails the token is honoured again, the risk the
    middleware's comment accepts.  Once a user's epoch has been bumped, the same
    holds of every token minted for the user before, whatever session it names.
    (A token of an API key is checked against the key: [api_key_confined].) *)
Theorem sign_out_final (s s1 s2 : Sys) (sid : UUID) (se : Session) :
  reachable s → sessions (db s) !! sid = Some se → sid ≠ Nil →
  rtc step s s1 → rtc step s1 s2 →
  (sessions (db s1) !! sid = None →
     (∀ i c tok p, threads s2 !! i = Some (mkThread (RqRefresh c tok) (Ret (OPair p))) →
        HashToken tok = token_hash se → (i < length (threads s1))%nat)
     ∧ ∀ up cl, APIKeyID cl = Nil → SessionID cl = sid → epochValid (auth_with up s2) cl = negb up)
  ∧ (∀ u us up cl, users (db s) !! u = Some us → passed u (u_SessionEpoch us) (db s1) →
       APIKeyID cl = Nil → UserID cl = u → 0 <= SessionEpoch cl <= u_SessionEpoch us →
       epochValid (auth_with up s2) cl = negb up).
Proof.
  intros Hr Hse Hnil H1 H2'. split.
  - intros Hgone. destruct (reachable_SysInv s Hr) as [gs Hg].
    assert (known (db s) (token_hash se)) as Hk by (apply current_known; by exists sid, se).
    destruct (steps_Old gs s s1 _ Hg (known_Old _ _ _ Hg Hk) H1) as (gs1 & Hg1 & Ho1 & Hc1).
    assert (¬ current (db s1) (token_hash se)) as Hn1.
    { intros [id Hid]%cur_at_current. destruct (Hc1 id Hid) as (se' & Hs' & He).
      assert (id = sid) as -> by (destruct Hg as [Hi _]; by apply (i_unique _ _ _ Hi id sid se' se)).
      destruct Hid as (x & Hx & _). congruence. }
    split.
    + destruct (steps_gone (length (threads s1)) gs1 s1 s2 _ Hg1 Ho1 Hn1) as (gs2 & Hg2 & _ & Hb);
        [|done|].
      { intros i g n Hgi _. destruct Hg1 as (_ & Hl & _). rewrite <- Hl. by eapply lookup_lt_Some. }
      intros i c tok p Ht He. destruct Hg2 as (_ & Hl & Hp).
      destruct (lookup_lt_is_Some_2 gs2 i) as [g Hgi]; [rewrite Hl; by eapply lookup_lt_Some|].
      pose proof (Hp _ _ _ Ht Hgi) as Hpost. simpl in Hpost. rewrite He in Hpost. by eapply Hb.
    + intros [] cl Hk' <-; [|by apply epochValid_outage]. apply epochValid_gone; [done..|].
      assert (reachable s1) as Hr1 by (destruct Hr as (s0 & ? & ?); exists s0; split; [done|by etrans]).
      assert (SessionID cl ∈ ids s) as Hin by (apply reachable_ids; [done|by eexists]).
      assert (gone (SessionID cl) s1) as Hgo.
      { split; [|done]. clear -H1 Hin. induction H1 as [|s s' s1 Hst _ IH]; [done|]. apply IH.
        destruct Hst; [done|]. unfold after. destruct (exec c e (db s)). simpl.
        apply elem_of_app. by right. }
      by apply (steps_gone_id _ _ _ Hgo H2').
  - intros u us [] cl Hu Hp Hk <- [He1 He2]; [|by apply epochValid_outage].
    apply epochValid_passed; [done..|].
    apply (steps_passed _ _ s1 s2); [|done]. intros us' Hu'. specialize (Hp us' Hu'). lia.
Qed.
End System.

(** * Schedules *)
Inductive action := AStart (r : Req) | AExec (i : nat) (e : Env).

Section Schedules.
Context `{Paseto} `{Bcrypt}.

Definition fresh_b (s : Sys) (c : stmt) (e : Env) : bool :=
  match c with
  | NewRandom => match e_random e with Some u => negb (mem (draw_hash u) (drawn s)) | None => true end
  | CreateSession _ => negb (mem (e_id e) (ids s)) && negb (uuid_Nil (e_id e))
  | _ => true
  end.
Fixpoint sched (l : list action) (s : Sys) : option Sys :=
  match l with
  | [] => Some s
  | AStart r :: l => sched l (mkSys (db s) (threads s ++ [mkThread r (prog_of r)]) (drawn s) (ids s))
  | AExec i e :: l =>
      match threads s !! i with
      | Some (mkThread r (Do c k)) => if fresh_b s c e then sched l (after s i r c k e) else None
      | _ => None
      end
  end.

Lemma fresh_b_fresh s c e : fresh_b s c e = true → fresh s c e.
Proof.
  destruct c; try done; simpl.
  - intros [H1 H2']%andb_true_iff. apply negb_true_iff in H1, H2'.
    split; [by apply mem_false|]. by apply N.eqb_neq.
  - intros Hm u Hu. rewrite Hu in Hm. apply negb_true_iff in Hm. by apply mem_false.
Qed.

Lemma sched_steps (l : list action) (s s' : Sys) : sched l s = Some s' → rtc step s s'.
Proof.
  revert s. induction l as [|[r|i e] l IH]; intros s; simpl.
  - by intros [= ->].
  - intros Hs. eapply rtc_l; [apply (step_start s r)|]. by apply IH.
  - destruct (threads s !! i) as [[r [|c k]]|] eqn:Et; [done| |done].
    destruct (fresh_b s c e) eqn:Ef; [|done]. intros Hs. apply fresh_b_fresh in Ef.
    eapply rtc_l; [by apply (step_exec s i r c k e)|]. by apply IH.
Qed.
End Schedules.

Module RunSample.
(** Libraries for runs: the texts of the tokens do not matter here. *)
#[global] Instance run_paseto : Paseto := {
  seal _ := "sealed"; unseal _ := None; stamp t := t; uuid_String u := pretty u;
  uuid_Parse _ := None }.
#[global] Instance run_bcrypt : Bcrypt := { CompareHashAndPassword h p := String.eqb h p }.

Definition ada : User := mkUser "ada" (Some "old-password") true 3 None [] [] false.
Definition laptop : Session :=
  mkSession 1%N (HashToken "tok") None (Some "laptop") None None 0 (30 * day) (Some (90 * day)) (Some 0).
Definition db0 : DB := mkDB {[ 1%N := ada ]} {[ 9%N := laptop ]} ∅.
Definition s0 : Sys := mkSys db0 [] [HashToken "tok"] [9%N].
Definition at_ (t : Z) (v : UUID) : Env := mkEnv FOk t 40%N (Some v) true (Some "new-password").

Lemma s0_start : start s0.
Proof.
  assert (∀ id s, sessions (db s0) !! id = Some s → id = 9%N ∧ s = laptop) as Hx.
  { intros id s. simpl. intros [<- <-]%lookup_singleton_Some. done. }
  split; [done|]. split; [|split; [|split]].
  - intros id id' s s' [-> _]%Hx [-> _]%Hx _. done.
  - intros h (id & s & [-> ->]%Hx & [<-|Hh]); [left|done].
  - intros id [s [-> _]%Hx]. left.
  - done.
Qed.

(** Two refreshes with the same token race; the second loses. *)
Definition race : list action :=
  [AStart (RqRefresh None "tok"); AStart (RqRefresh None "tok");
   AExec 0 (at_ 5 0%N); AExec 1 (at_ 5 0%N); AExec 0 (at_ 5 0%N); AExec 1 (at_ 5 0%N);
   AExec 0 (at_ 5 0%N); AExec 0 (at_ 5 0%N); AExec 0 (at_ 5 77%N); AExec 0 (at_ 5 0%N);
   AExec 0 (at_ 6 0%N);
   AExec 1 (at_ 6 0%N); AExec 1 (at_ 6 0%N); AExec 1 (at_ 6 78%N); AExec 1 (at_ 6 0%N);
   AExec 1 (at_ 7 0%N); AExec 1 (at_ 7 0%N); AExec 1 (at_ 7 0%N)].
Definition raced : Sys := default s0 (sched race s0).
Definition pair77 : TokenPair := mkPair "sealed" "77" "sealed" (5 + RefreshTokenTTL) 1%N "ada" true.

Lemma raced_reachable : reachable raced.
Proof.
  exists s0. split; [apply s0_start|]. apply (sched_steps race). vm_compute. reflexivity.
Qed.

(** The laptop signs out. *)
Definition signing_out : list action :=
  [AStart (RqLogout "tok"); AExec 0 (at_ 5 0%N); AExec 0 (at_ 5 0%N); AExec 0 (at_ 5 0%N)].
Definition signed_out : Sys := default s0 (sched signing_out s0).
Lemma signed_out_steps : rtc step s0 signed_out.
Proof. apply (sched_steps signing_out). vm_compute. reflexivity. Qed.
End RunSample.

Lemma refresh_one_shot_witness :
  threads RunSample.raced !! 1%nat
    = Some (mkThread (RqRefresh None "tok") (Ret (OTolerated
        (mkTolerated 1%N 9%N RefreshReuseRotationRace 0 (Some "laptop") None))))
  ∧ ¬ current (db RunSample.raced) (HashToken "tok").
Proof.
  split; [vm_compute; reflexivity|].
  refine (proj2 (refresh_one_shot RunSample.raced 0 0 None None "tok" "tok"
    RunSample.pair77 RunSample.pair77 RunSample.raced_reachable _ _)); vm_compute; reflexivity.
Defined.

Lemma sign_out_final_witness :
  epochValid (auth_with true RunSample.signed_out) (user_claims 1%N RunSample.ada 9%N) = false
  ∧ epochValid (auth_with true RunSample.signed_out) (user_claims 1%N RunSample.ada Nil) = false
  ∧ epochValid (auth_with false RunSample.signed_out) (user_claims 1%N RunSample.ada 9%N) = true.
Proof.
  destruct (sign_out_final RunSample.s0 RunSample.signed_out RunSample.signed_out 9%N RunSample.laptop)
    as [H1 H2].
  - exists RunSample.s0. split; [apply RunSample.s0_start|apply rtc_refl].
  - reflexivity.
  - discriminate.
  - apply RunSample.signed_out_steps.
  - apply rtc_refl.
  - split.
    + refine (proj2 (H1 _) true _ _ _); [vm_compute; reflexivity|reflexivity|reflexivity].
    + split; [|refine (proj2 (H1 _) false _ _ _); [vm_compute; reflexivity|reflexivity|reflexivity]].
      apply (H2 1%N RunSample.ada true); [reflexivity| |reflexivity|reflexivity|simpl; lia].
      intros us Hu. vm_compute in Hu. injection Hu as <-. simpl. lia.
Defined.
