(* ===== verification/SessionsSpec.v ===== *)
(** What the session operations do when they run: the lifetime of a session,
    a refresh on its own, a refresh against a failing database, the revocation
    of one device; and three concrete interleavings. *)
From S2P Require Import Prelude.
From S2P Require Import GoStrings.
From S2P Require Import RateLimit.
From S2P Require Import SHA256.
From S2P Require Import Tokens.
From S2P Require Import Auth.
From S2P Require Import Sessions.
From S2P Require Import SessionsSafe.

Local Open Scope Z_scope.

(** * The ceiling of a session *)
Definition capped (d : DB) : Prop :=
  ∀ id s t, sessions d !! id = Some s → absolute_expires_at s = Some t → expires_at s <= t.
(** A creation asks for no more than the ceiling: the app's clock is less than
    60 days ahead of the database's. *)
Definition within_cap (c : stmt) (e : Env) : Prop :=
  match c with CreateSession p => n_expires p <= e_now e + 90 * day | _ => True end.

Lemma sub_capped d' d : sub d' d → capped d → capped d'.
Proof.
  intros Hs Hc id s t Hid Ha. destruct (Hs id s Hid) as (s0 & H0 & _ & _ & _ & -> & E).
  apply (Hc id s0 t); congruence.
Qed.
Lemma insert_capped d id s :
  capped d → (∀ t, absolute_expires_at s = Some t → expires_at s <= t) →
  capped (on_sessions <[id := s]> d).
Proof.
  intros Hc Hs id' s' t. simpl. intros [[<- <-]|[_ Hx]]%lookup_insert_Some Ha; [by apply Hs|].
  by apply (Hc id' s' t).
Qed.

Lemma exec_capped (c : stmt) (e : Env) (d : DB) :
  capped d → within_cap c e → capped (exec c e d).1.
Proof.
  intros Hc Hw. destruct (decide (plain c = true)) as [Hp|Hp].
  { by eapply sub_capped; [apply exec_plain|]. }
  destruct c; try done.
  - pose proof (exec_create p e d) as He. destruct (exec _ e d) as [d' a].
    destruct He as [[-> _]|[-> _]]; [done|]. apply insert_capped; [done|].
    simpl in *. intros t [= <-]. lia.
  - pose proof (exec_rotate id newHash expires oldHash e d) as He. destruct (exec _ e d) as [d' a].
    destruct He as [[-> _]|(s0 & _ & _ & -> & _)]; [done|]. apply insert_capped; [done|].
    simpl. intros t ->. simpl. lia.
Qed.

(** What a later database still says of a session of an earlier one. *)
Definition same_cap (d d' : DB) : Prop :=
  ∀ id s s', sessions d !! id = Some s → sessions d' !! id = Some s' →
    absolute_expires_at s' = absolute_expires_at s ∧ s_user s' = s_user s.

Lemma exec_same_cap (c : stmt) (e : Env) (d : DB) :
  (∀ p, c = CreateSession p → sessions d !! e_id e = None) → same_cap d (exec c e d).1.
Proof.
  intros Hf id s s' Hs Hs'. destruct (decide (plain c = true)) as [Hp|Hp].
  { destruct (exec_plain c e d Hp id s' Hs') as (s0 & H0 & _ & _ & ? & _ & ?). by simplify_eq. }
  destruct c; try done.
  - pose proof (exec_create p e d) as He. destruct (exec _ e d) as [d' a].
    destruct He as [[-> _]|[-> _]]; simpl in *; [by simplify_eq|].
    apply lookup_insert_Some in Hs' as [[<- <-]|[_ Hs']]; [|by simplify_eq].
    rewrite (Hf p eq_refl) in Hs. done.
  - pose proof (exec_rotate id0 newHash expires oldHash e d) as He. destruct (exec _ e d) as [d' a].
    destruct He as [[-> _]|(s0 & H0 & _ & -> & _)]; simpl in *; [by simplify_eq|].
    apply lookup_insert_Some in Hs' as [[<- <-]|[_ Hs']]; by simplify_eq.
Qed.

(** Statements one after the other, whoever issues them. *)
Fixpoint execs (l : list (stmt * Env)) (d : DB) : DB :=
  match l with [] => d | (c, e) :: l => execs l (exec c e d).1 end.
Fixpoint admissible (l : list (stmt * Env)) (d : DB) : Prop :=
  match l with
  | [] => True
  | (c, e) :: l =>
      within_cap c e ∧ admissible l (exec c e d).1
  end.

Lemma execs_capped l d : capped d → admissible l d → capped (execs l d).
Proof.
  revert d. induction l as [|[c e] l IH]; intros d Hc; [done|]. simpl. intros [Hw Ha].
  by apply IH; [apply exec_capped|].
Qed.

(** No session outlives its ceiling.  Whatever statements run, in any order
    and with any failures, a session's expiry stays at or below its ceiling, so
    a refresh token resolves to a session - by its current or by its previous
    hash - only before that ceiling, though the query does not test it; and no
    statement moves the ceiling, or the owner, of a session that is there. *)
Lemma session_cap (l : list (stmt * Env)) (d : DB) :
  capped d → admissible l d →
  capped (execs l d)
  ∧ (∀ h e id s b t, (exec (GetSessionByAnyTokenHash h) e (execs l d)).2 = Ok (id, s, b) →
      absolute_expires_at s = Some t → e_now e < t)
  ∧ ∀ c e, (∀ p, c = CreateSession p → sessions (execs l d) !! e_id e = None) →
      same_cap (execs l d) (exec c e (execs l d)).1.
Proof.
  intros Hc Ha. pose proof (execs_capped l d Hc Ha) as Hl. split; [done|]. split.
  - intros h e id s b t (Hs & Hlive & _)%lookup_answer Ht. specialize (Hl id s t Hs Ht).
    unfold live in Hlive. apply Z.ltb_lt in Hlive. lia.
  - intros c e. apply exec_same_cap.
Qed.

(** * A refresh on its own *)
#[global] Instance dbfault_eq_dec : EqDecision dbfault.
Proof. solve_decision. Defined.
#[local] Opaque HashToken IssueAccessToken IssueAssetToken RefreshTokenTTL.
Section Alone.
Context `{Paseto} `{Bcrypt}.

(** A world that answers: the clock stands at [now], the draw is [v]. *)
Definition calm (now : Z) (v : UUID) : Env := mkEnv FOk now Nil (Some v) true None.
Definition alone (p : prog outcome) (now : Z) (v : UUID) (d : DB) : option (outcome * DB) :=
  run p (replicate 12 (calm now v)) d.

Definition found (now : Z) (tok : string) (d : DB) : result (UUID * Session * bool) :=
  (query (GetSessionByAnyTokenHash (HashToken tok)) (calm now Nil) d).2.

(** The table after the theft response. *)
Definition burnt (u : UUID) (us : User) (d : DB) : DB :=
  mkDB (<[u := us <| u_SessionEpoch ::= Z.succ |>]> (users d))
       (filter (λ p, s_user p.2 ≠ u) (sessions d)) (resets d).
Definition relabel (client : option SessionClient) (id : UUID) (d : DB) : DB :=
  match client with Some c => on_sessions (alter (relabelled c) id) d | None => d end.

(** Rotated less than two minutes ago, or ahead, by the row's stamp. *)
Definition recent (now : Z) (s : Session) : bool :=
  match last_seen s with Some last => Z.abs (now - last) <? refreshReuseGrace | None => false end.

Lemma run_calm {A} now v n (c : stmt) (k : answer c → prog A) (d : DB) :
  run (Do c k) (replicate (S n) (calm now v)) d
  = let '(d', x) := query c (calm now v) d in run (k x) (replicate n (calm now v)) d'.
Proof. by destruct c. Qed.

Lemma run_calm1 {A} now v (c : stmt) (k : answer c → prog A) es (d : DB) :
  run (Do c k) (calm now v :: es) d
  = let '(d', x) := query c (calm now v) d in run (k x) es d'.
Proof. by destruct c. Qed.

Lemma tolerated_recent now id s t :
  is_Some (toleratedRefreshReuse now id s t) ↔ recent now s = true.
Proof.
  unfold toleratedRefreshReuse, recent. destruct (last_seen s) as [last|]; [|split; [by intros [? ?]|done]].
  destruct (Z.ltb_spec (Z.abs (now - last)) refreshReuseGrace);
    destruct (Z.leb_spec refreshReuseGrace (now - last)), (Z.leb_spec (now - last) (- refreshReuseGrace));
    simpl; try lia; (split; [try done; by intros [? ?]|try done; by eexists]).
Qed.

Lemma hash_taken_current h d : hash_taken h (sessions d) = true → current d h.
Proof.
  unfold hash_taken. destruct (pick _ _) as [[id s]|] eqn:Ep; [|done]. intros _.
  apply pick_Some in Ep as [Hs Hh]. exists id, s. split; [done|]. by apply String.eqb_eq.
Qed.

Lemma burn_family_alone now v n id s t us d :
  users d !! s_user s = Some us → u_SessionEpoch us < int64_max →
  run (burn_family id s t) (replicate (4 + n) (calm now v)) d
  = Some (OReuse (refreshReuseError now id s t true true), burnt (s_user s) us d).
Proof.
  intros Hu He. unfold burn_family. simpl plus.
  rewrite run_calm. cbn [query write fst snd]. unfold write.
  rewrite run_calm. cbn [query fst snd]. 
  change (users (on_sessions (filter (λ p : UUID * Session, s_user p.2 ≠ s_user s)) d)) with (users d).
  rewrite Hu.
  rewrite (proj2 (Z.eqb_neq _ _)) by lia. unfold write.
  rewrite run_calm. cbn [query]. unfold write. rewrite run_calm. done.
Qed.

Lemma refresh_mint_alone client h now v n id s us d :
  sessions d !! id = Some s → token_hash s = h → ¬ current d (HashToken (refresh_raw v)) →
  ∃ p, run (refresh_mint client h id s us) (replicate (6 + n) (calm now v)) d
    = Some (OPair p, relabel client id (on_sessions
        <[id := rotated now (HashToken (RefreshToken p)) (now + RefreshTokenTTL) s]> d))
    ∧ RefreshToken p = refresh_raw v
    ∧ AccessToken p = IssueAccessToken now (user_claims (s_user s) us id)
    ∧ AssetToken p = IssueAssetToken now (user_claims (s_user s) us id).
Proof.
  intros Hs Hh Hf.
  exists (mkPair (IssueAccessToken now (user_claims (s_user s) us id)) (refresh_raw v)
    (IssueAssetToken now (user_claims (s_user s) us id)) (now + RefreshTokenTTL)
    (s_user s) (u_Username us) (u_IsAdmin us)). split.
  - unfold refresh_mint. simpl plus. do 2 (rewrite run_calm; cbn [query]).
    rewrite run_calm. cbn [query]. change (e_random (calm now v)) with (Some v). cbv beta iota zeta.
    rewrite run_calm. cbn [query]. rewrite run_calm. cbn [query]. rewrite Hs.
    rewrite (proj2 (String.eqb_eq _ _) Hh). simpl negb. cbv iota.
    destruct (hash_taken (HashToken (refresh_raw v)) (sessions d)) eqn:Et;
      [by apply hash_taken_current in Et|].
    unfold refresh_rotated. simpl Z.eqb. cbv iota. unfold recordSessionClient.
    destruct client; [rewrite run_calm|]; reflexivity.
  - done.
Qed.

(** C9: what a refresh does, when the database answers and no other request
    interferes.  An unknown or expired token is refused and nothing changes; a
    current token is exchanged: the answer carries the user's row as it is now
    and names the same session, and the session's hash moves on, its previous
    one kept; the token it replaced is refused without consequence for two
    minutes, and after that it ends every session of the user and moves the
    user's epoch.  In every case the refresh comes to an end. *)
Theorem refresh_alone (client : option SessionClient) (tok : string) (now : Z) (v : UUID) (d : DB) :
  (∀ id s, sessions d !! id = Some s →
     ∃ us, users d !! s_user s = Some us ∧ u_SessionEpoch us < int64_max) →
  ¬ current d (HashToken (refresh_raw v)) →
  match found now tok d with
  | NoRows => alone (Refresh client tok) now v d = Some (ORefreshInvalid, d)
  | Ok (id, s, true) => ∃ us p, users d !! s_user s = Some us
      ∧ alone (Refresh client tok) now v d
        = Some (OPair p, relabel client id (on_sessions
            <[id := rotated now (HashToken (RefreshToken p)) (now + RefreshTokenTTL) s]> d))
      ∧ RefreshToken p = refresh_raw v
      ∧ AccessToken p = IssueAccessToken now (user_claims (s_user s) us id)
      ∧ AssetToken p = IssueAssetToken now (user_claims (s_user s) us id)
  | Ok (id, s, false) => ∃ us, users d !! s_user s = Some us ∧
      if recent now s then ∃ t, alone (Refresh client tok) now v d = Some (OTolerated t, d)
      else ∃ r, alone (Refresh client tok) now v d = Some (OReuse r, burnt (s_user s) us d)
           ∧ SessionsDeleted r = true ∧ EpochBumped r = true ∧ r_session r = id
  | DBErr => False
  end.
Proof.
  intros Hfk Hfresh. unfold found, alone, Refresh. change 12%nat with (S 11).
  rewrite run_calm. set (q := query (GetSessionByAnyTokenHash (HashToken tok)) (calm now v) d).
  assert (q = (d, q.2)) as Hq by done.
  change (query (GetSessionByAnyTokenHash (HashToken tok)) (calm now Nil) d) with q. rewrite Hq.
  assert (∀ id s b, q.2 = Ok (id, s, b) → sessions d !! id = Some s
    ∧ b = String.eqb (token_hash s) (HashToken tok)) as Hrow.
  { intros id s b Ha. by apply (lookup_answer (HashToken tok) (calm now v)) in Ha as (? & _ & ? & _). }
  destruct q.2 as [[[id s] b]| |] eqn:Eq; simpl snd; [|done|].
  2: { clear -Eq. subst q. cbn [query read snd] in Eq. unfold read in Eq. simpl in Eq.
       by destruct (pick _ _). }
  destruct (Hrow id s b eq_refl) as [Hs Hb]. destruct (Hfk id s Hs) as (us & Hu & He).
  destruct b; [|exists us; split; [done|]; destruct (recent now s) eqn:Er].
  - exists us. rewrite run_calm. cbn [query]. unfold read, row. rewrite Hu.
    symmetry in Hb. apply String.eqb_eq in Hb.
    destruct (refresh_mint_alone client (HashToken tok) now v 4 id s us d Hs Hb Hfresh)
      as (p & Hp & ? & ? & ?). by exists p.
  - rewrite run_calm. cbn [query]. change (e_now (calm now v)) with now.
    apply (tolerated_recent now id s RefreshReuseSuperseded) in Er as [t Ht]. rewrite Ht. by exists t.
  - rewrite run_calm. cbn [query]. change (e_now (calm now v)) with now.
    destruct (toleratedRefreshReuse now id s RefreshReuseSuperseded) eqn:Et.
    { assert (recent now s = true) by (by apply (tolerated_recent now id s RefreshReuseSuperseded); eexists).
      congruence. }
    eexists. split; [by apply (burn_family_alone now v 6 id s _ us d)|]. done.
Qed.

(** ** Against a failing database *)
Definition flaky (f : dbfault) (now : Z) (v : UUID) : Env := mkEnv f now Nil (Some v) true None.
(** The calls of a refresh that meet a fault: the lookup, the user, the
    rotation, and the second lookup after a rotation that reported an error. *)
Definition flaky_run (f1 f2 f3 f4 : dbfault) (p : prog outcome) (now : Z) (v : UUID) (d : DB) :=
  run p ([flaky f1 now v; flaky f2 now v] ++ replicate 4 (calm now v)
         ++ [flaky f3 now v; flaky f4 now v; calm now v]) d.

Lemma pick_unique {A} (P : A → bool) (m : gmap UUID A) id a :
  m !! id = Some a → P a = true → (∀ id' a', m !! id' = Some a' → P a' = true → id' = id) →
  pick P m = Some (id, a).
Proof.
  intros Hm HP Hu. destruct (pick P m) as [[id' a']|] eqn:Ep.
  - apply pick_Some in Ep as [Hm' HP']. simpl in *. pose proof (Hu _ _ Hm' HP'). subst.
    by simplify_eq.
  - unfold pick in Ep. rewrite find_first_None in Ep.
    specialize (Ep (id, a) (proj2 (elem_of_map_to_list _ _ _) Hm)). simpl in Ep. congruence.
Qed.

(** The rotated row answers to its new hash, and alone. *)
Lemma landed_lookup now v id s d n x :
  sessions d !! id = Some s → ¬ known d n → now < x →
  (∀ t, absolute_expires_at s = Some t → now < t) →
  let d' := on_sessions <[id := rotated now n x s]> d in
  (query (GetSessionByAnyTokenHash n) (calm now v) d').2 = Ok (id, rotated now n x s, true).
Proof.
  intros Hs Hn Hx Hc d'. cbn [query]. unfold read. simpl snd.
  rewrite (pick_unique _ _ id (rotated now n x s)).
  - simpl. by rewrite String.eqb_refl.
  - apply lookup_insert_eq.
  - simpl. rewrite String.eqb_refl. simpl. unfold live. simpl. apply Z.ltb_lt.
    destruct (absolute_expires_at s) as [t|]; simpl; [specialize (Hc t eq_refl)|]; lia.
  - intros id' s'. simpl. intros [[<- _]|[_ Hs']]%lookup_insert_Some; [done|].
    intros [Hh _]%andb_true_iff. destruct Hn. exists id', s'. split; [done|].
    apply orb_true_iff in Hh as [Hh|Hh]; [left; by apply String.eqb_eq|right].
    by apply bool_decide_eq_true in Hh.
Qed.

Lemma lookup_flaky f now v h d :
  exec (GetSessionByAnyTokenHash h) (flaky f now v) d
  = (d, match f with FOk => (query (GetSessionByAnyTokenHash h) (calm now v) d).2 | _ => DBErr end).
Proof. by destruct f. Qed.
Lemma user_flaky f now v u d :
  exec (GetUser u) (flaky f now v) d = (d, match f with FOk => row (users d !! u) | _ => DBErr end).
Proof. by destruct f. Qed.
Lemma rotate_flaky f now v id n x o s d :
  sessions d !! id = Some s → token_hash s = o → ¬ current d n →
  exec (RotateSessionConditional id n x o) (flaky f now v) d
  = (match f with FNone => d | _ => on_sessions <[id := rotated now n x s]> d end,
     match f with FOk => Ok 1 | _ => DBErr end).
Proof.
  intros Hs Ho Hn. unfold exec. cbn [query]. rewrite Hs. rewrite (proj2 (String.eqb_eq _ _) Ho).
  destruct (hash_taken n (sessions d)) eqn:Et; [by apply hash_taken_current in Et|]. by destruct f.
Qed.

(** The part of a refresh between the user's row and the rotation's answer. *)
Lemma refresh_mint_flaky client h now v id s us d f3 es :
  sessions d !! id = Some s → token_hash s = h → ¬ current d (HashToken (refresh_raw v)) →
  ∃ p, RefreshToken p = refresh_raw v ∧
    run (refresh_mint client h id s us) (replicate 4 (calm now v) ++ flaky f3 now v :: es) d
    = run (refresh_rotated client h (HashToken (refresh_raw v)) id s p
             (match f3 with FOk => Ok 1 | _ => DBErr end)) es
        (match f3 with FNone => d
         | _ => on_sessions <[id := rotated now (HashToken (refresh_raw v)) (now + RefreshTokenTTL) s]> d end).
Proof.
  intros Hs Hh Hf.
  exists (mkPair (IssueAccessToken now (user_claims (s_user s) us id)) (refresh_raw v)
    (IssueAssetToken now (user_claims (s_user s) us id)) (now + RefreshTokenTTL)
    (s_user s) (u_Username us) (u_IsAdmin us)). split; [done|].
  unfold refresh_mint. cbn [replicate app]. do 2 (rewrite run_calm1; cbn [query]).
  rewrite run_calm1. cbn [query]. change (e_random (calm now v)) with (Some v). cbv beta iota zeta.
  rewrite run_calm1. cbn [query run]. by rewrite (rotate_flaky _ _ _ _ _ _ _ s).
Qed.

(** ** Against any answers whatever

    What a program did, call by call: which statement, and what it was
    answered - by whatever table the others had left, or by a failure. *)
Record event := Ev { ev_stmt : stmt; ev_answer : answer ev_stmt }.
Fixpoint plays {A} (p : prog A) : list event → A → Prop :=
  match p with
  | Ret a => λ tr o, tr = [] ∧ o = a
  | Do c k => λ tr o, ∃ r tr', tr = Ev c r :: tr' ∧ plays (k r) tr' o
  end.

(** A thread of the system that has answered played its program. *)
Lemma step_plays (s s' : Sys) i r p :
  step s s' → threads s !! i = Some (mkThread r p) →
  ∃ p', threads s' !! i = Some (mkThread r p') ∧
    ∀ tr o, plays p' tr o → ∃ tr', plays p tr' o.
Proof.
  intros Hs Hi. destruct Hs as [r0|j r0 c k e Hj _].
  - exists p. cbn [threads]. rewrite lookup_app_l by (by eapply lookup_lt_Some). split; [done|]. eauto.
  - unfold after. destruct (exec c e (db s)) as [d a] eqn:E. cbn [threads].
    destruct (decide (i = j)) as [->|Hne].
    + exists (k a). rewrite Hj in Hi. simplify_eq. split.
      * apply list_lookup_insert_eq. by eapply lookup_lt_Some.
      * intros tr o Hp. exists (Ev c a :: tr), a, tr. done.
    + exists p. rewrite list_lookup_insert_ne by done. split; [done|]. eauto.
Qed.

Lemma thread_plays (s s' : Sys) i r p o :
  rtc step s s' → threads s !! i = Some (mkThread r p) →
  threads s' !! i = Some (mkThread r (Ret o)) → ∃ tr, plays p tr o.
Proof.
  intros Hr. revert p. induction Hr as [s|s s1 s' Hs _ IH]; intros p Hi Ho.
  - exists []. rewrite Hi in Ho. by simplify_eq.
  - destruct (step_plays s s1 i r p Hs Hi) as (p' & Hi' & Hback).
    destruct (IH p' Hi' Ho) as [tr Htr]. by eapply Hback.
Qed.

(** What a refresh was told that is a verdict on its token: unknown or expired,
    superseded, its user gone, or its rotation found the row changed. *)
Definition verdict (h : string) (ev : event) : Prop :=
  ev = Ev (GetSessionByAnyTokenHash h) NoRows
  ∨ (∃ id s, ev = Ev (GetSessionByAnyTokenHash h) (Ok (id, s, false)))
  ∨ (∃ u, ev = Ev (GetUser u) NoRows)
  ∨ ∃ id n x, ev = Ev (RotateSessionConditional id n x h) (Ok 0).

(** The burn of a family answers with the reuse error, or fails. *)
Lemma rotated_refused client h n id s p rows tr o :
  plays (refresh_rotated client h n id s p rows) tr o → refresh_response o = (401, true) → rows = Ok 0.
Proof.
  unfold refresh_rotated. destruct rows as [m| |].
  - destruct (Z.eqb_spec m 0) as [->|]; [done|]. unfold recordSessionClient.
    destruct client as [c|]; cbn [plays]; [intros (r & tr' & _ & _ & ->)|intros [_ ->]]; done.
  - cbn [plays]. intros (r & tr' & _ & Hp).
    destruct r as [[[lid x] []]| |]; cbn [plays] in Hp; [destruct (N.eqb lid id)|..];
      destruct Hp as [_ ->]; done.
  - cbn [plays]. intros (r & tr' & _ & Hp).
    destruct r as [[[lid x] []]| |]; cbn [plays] in Hp; [destruct (N.eqb lid id)|..];
      destruct Hp as [_ ->]; done.
Qed.

(** Whatever the other requests do in between and whatever fails, a refresh
    refuses (401, the cookies cleared) only after an answered [verdict]. *)
Lemma refused_on_verdict client tok tr o :
  plays (Refresh client tok) tr o → refresh_response o = (401, true) →
  ∃ ev, ev ∈ tr ∧ verdict (HashToken tok) ev.
Proof.
  unfold Refresh. cbn [plays]. intros (r & tr1 & -> & Hp) Ho.
  destruct r as [[[id s] []]| |].
  - cbn [plays] in Hp. destruct Hp as (us & tr2 & -> & Hp).
    destruct us as [us| |]; [|by exists (Ev (GetUser (s_user s)) NoRows); split; [set_solver|right; right; left; eauto]
                             |by destruct Hp as [_ ->]].
    unfold refresh_mint in Hp. cbn [plays] in Hp. destruct Hp as (t1 & tr3 & -> & t2 & tr4 & -> & dr & tr5 & -> & Hp).
    destruct dr as [u|]; [|by destruct Hp as [_ ->]]. cbn [plays] in Hp.
    destruct Hp as (t3 & tr6 & -> & rows & tr7 & -> & Hp).
    pose proof (rotated_refused _ _ _ _ _ _ _ _ _ Hp Ho) as ->.
    eexists. split; [do 6 apply list_elem_of_further; apply list_elem_of_here|].
    right; right; right. do 3 eexists. reflexivity.
  - exists (Ev (GetSessionByAnyTokenHash (HashToken tok)) (Ok (id, s, false))).
    split; [set_solver|]. right. left. eauto.
  - exists (Ev (GetSessionByAnyTokenHash (HashToken tok)) NoRows). split; [set_solver|by left].
  - by destruct Hp as [_ ->].
Qed.

(** C10: an outage alone is not a verdict on a refresh token.  Whatever the other
    requests do between a refresh's calls and whatever fails, it refuses (401,
    the cookies cleared) only if some call was answered that the token is
    unknown or superseded, that its user is gone, or that the rotation found the
    row changed.  (In the last case it has lost a race; the lookup it then makes
    decides between a tolerated loser and a stolen token, and if that one fails
    the sign-in is burnt as stolen: [fault_burns_family].)  Run alone, with the
    current token of a living user, and faults at any of its calls: no answer
    to the lookup or to the user's row leaves the table untouched and answers
    503, the cookies kept; a rotation that fails without effect does too; a
    rotation that took effect though it reported an error still answers with
    the new pair, unless the second lookup fails as well - then 503 is answered
    although the token is spent; and with no fault the pair is answered. *)
Theorem refresh_faults (client : option SessionClient) (tok : string) (f1 f2 f3 f4 : dbfault)
    (now : Z) (v : UUID) (id : UUID) (s : Session) (us : User) (d : DB) :
  found now tok d = Ok (id, s, true) → users d !! s_user s = Some us →
  (∀ t, absolute_expires_at s = Some t → now < t) → ¬ known d (HashToken (refresh_raw v)) →
  (∀ tr o, plays (Refresh client tok) tr o → refresh_response o = (401, true) →
     ∃ ev, ev ∈ tr ∧ verdict (HashToken tok) ev) ∧
  let newHash := HashToken (refresh_raw v) in
  let d' := on_sessions <[id := rotated now newHash (now + RefreshTokenTTL) s]> d in
  let kept o := flaky_run f1 f2 f3 f4 (Refresh client tok) now v d = Some (o, d)
                ∧ refresh_response o = (503, false) in
  match f1, f2, f3 with
  | FOk, FOk, FOk => ∃ p d2, flaky_run f1 f2 f3 f4 (Refresh client tok) now v d = Some (OPair p, d2)
      ∧ cur_at d2 id (HashToken (RefreshToken p)) ∧ RefreshToken p = refresh_raw v
  | FOk, FOk, FUnacked =>
      if decide (f4 = FOk)
      then ∃ p, flaky_run f1 f2 f3 f4 (Refresh client tok) now v d = Some (OPair p, d')
             ∧ RefreshToken p = refresh_raw v
      else flaky_run f1 f2 f3 f4 (Refresh client tok) now v d = Some (OError, d')
  | _, _, _ => kept OError
  end.
Proof.
  intros Hf Hu Hcap Hk. split; [intros tr o; apply refused_on_verdict|]. intros newHash d' kept.
  assert (¬ current d newHash) as Hc by (intros ?; by eapply Hk, current_known).
  apply (lookup_answer _ (calm now Nil)) in Hf as Hrow. destruct Hrow as (Hs & _ & Hb & _).
  symmetry in Hb. apply String.eqb_eq in Hb.
  assert ((query (GetSessionByAnyTokenHash (HashToken tok)) (calm now v) d).2 = Ok (id, s, true)) as Hq by done.
  destruct (refresh_mint_flaky client (HashToken tok) now v id s us d f3
    [flaky f4 now v; calm now v] Hs Hb Hc) as (p & Hp & Hmint).
  unfold kept, flaky_run, Refresh. cbn [app run]. rewrite lookup_flaky, Hq.
  destruct f1; [|by split..]. cbn [run]. rewrite user_flaky, Hu. destruct f2; [|by split..].
  unfold row. rewrite Hmint. destruct f3.
  - unfold refresh_rotated. simpl Z.eqb. cbv iota. unfold recordSessionClient.
    assert (cur_at d' id (HashToken (RefreshToken p))) as Hcur.
    { rewrite Hp. eexists. split; [apply lookup_insert_eq|done]. }
    exists p. fold newHash d'. destruct client as [c|]; cbn [run]; [|by exists d'].
    destruct (exec (UpdateSessionClient id c) (flaky f4 now v) d') as [d2 a] eqn:E. exists d2.
    split; [done|]. split; [|done]. destruct Hcur as (s' & Hs' & Hh).
    unfold exec in E. cbn [query] in E. destruct f4; injection E as <- <-; [|by exists s'|].
    all: exists (relabelled c s'); split; [|done]; simpl in *; by rewrite lookup_alter_eq, Hs'.
  - unfold refresh_rotated. cbn [run]. rewrite lookup_flaky.
    assert ((query (GetSessionByAnyTokenHash (HashToken (refresh_raw v))) (calm now v) d).2 = NoRows) as Hn.
    { cbn [query]. unfold read. simpl. destruct (pick _ _) as [[id' s']|] eqn:Ep; [|done].
      exfalso. apply pick_Some in Ep as [Hs' [Hh _]%andb_true_iff]. apply Hk. exists id', s'.
      split; [done|]. apply orb_true_iff in Hh as [Hh|Hh]; [left; by apply String.eqb_eq|right].
      by apply bool_decide_eq_true in Hh. }
    rewrite Hn. by destruct f4.
  - unfold refresh_rotated. cbn [run]. rewrite lookup_flaky. fold newHash d'.
    assert (now < now + RefreshTokenTTL) as Hlt.
    { change (now < now + 30 * 24 * 60 * (60 * 1000000000)). lia. }
    pose proof (landed_lookup now v id s d newHash _ Hs Hk Hlt Hcap) as Hland.
    cbv zeta in Hland. fold d' in Hland. rewrite Hland.
    destruct f4; simpl decide; [|done..]. rewrite N.eqb_refl. by exists p.
Qed.

(** ** Revoking devices *)
Definition reader_auth (d : DB) : Authenticator :=
  {| epochs := Some (epoch_reader true d); keys := None |}.

Lemma epochValid_ext d d' (cl : Claims) :
  users d' = users d → APIKeyID cl = Nil →
  (∀ s, sessions d' !! SessionID cl = Some s → sessions d !! SessionID cl = Some s) →
  (∀ s, sessions d !! SessionID cl = Some s → s_user s = UserID cl →
     sessions d' !! SessionID cl = Some s) →
  epochValid (reader_auth d') cl = epochValid (reader_auth d) cl.
Proof.
  intros Hu Hk H1 H2'. unfold epochValid. rewrite Hk. simpl. rewrite Hu.
  destruct (uuid_Nil (SessionID cl)); [done|].
  match goal with |- context [match ?x with Some us => inl _ | None => _ end] =>
    destruct x as [us|]; [|done] end.
  destruct (sessions d !! SessionID cl) as [s|] eqn:E.
  - destruct (N.eqb_spec (s_user s) (UserID cl)) as [Es|Es].
    + rewrite (H2' s eq_refl Es). by rewrite (proj2 (N.eqb_eq _ _) Es).
    + destruct (sessions d' !! SessionID cl) as [s'|] eqn:E'; [|done].
      specialize (H1 s' eq_refl). simplify_eq. by rewrite (proj2 (N.eqb_neq _ _) Es).
  - destruct (sessions d' !! SessionID cl) as [s'|] eqn:E'; [|done].
    by specialize (H1 s' eq_refl).
Qed.

(** A device is revoked, and only that device.  Revoking a session the
    owner does not have - anybody else's included - answers 404 and changes
    nothing; otherwise exactly that session goes, cookies are cleared exactly
    when it is the caller's own, its tokens are refused from then on and the
    tokens of every other session keep their standing.  Signing out the others
    keeps the caller's session and every other user's, ends all the rest of the
    caller's, and answers their number; without a session of its own the caller
    gets 409 and nothing happens. *)
Lemma revocation_scoped (owner sid cur : UUID) (cl : Claims) (now : Z) (v : UUID) (d : DB) :
  (match sessions d !! sid with
   | Some s =>
       if decide (s_user s = owner) then
         alone (revoke owner sid cur) now v d
           = Some (ODone (negb (uuid_Nil cur) && N.eqb sid cur), on_sessions (delete sid) d)
       else alone (revoke owner sid cur) now v d = Some (ONotFound, d)
   | None => alone (revoke owner sid cur) now v d = Some (ONotFound, d)
   end)
  ∧ (∀ c, APIKeyID c = Nil → SessionID c = sid → sid ≠ Nil →
       epochValid (reader_auth (on_sessions (delete sid) d)) c = false)
  ∧ (∀ c, APIKeyID c = Nil → SessionID c ≠ sid →
       epochValid (reader_auth (on_sessions (delete sid) d)) c = epochValid (reader_auth d) c)
  ∧ (if decide (SessionID cl = Nil) then alone (RevokeOthers cl) now v d = Some (OConflict, d)
     else ∃ n d', alone (RevokeOthers cl) now v d = Some (ORevoked n, d')
       ∧ n = Z.of_nat (size (sessions d)) - Z.of_nat (size (sessions d'))
       ∧ users d' = users d
       ∧ ∀ id s, sessions d' !! id = Some s ↔
           sessions d !! id = Some s ∧ (s_user s = UserID cl → id = SessionID cl)).
Proof.
  split; [|split; [|split]].
  - unfold alone, revoke. change 12%nat with (S 11). rewrite run_calm. cbn [query].
    destruct (sessions d !! sid) as [s|]; [|done].
    destruct (decide (s_user s = owner)) as [E|E];
      [by rewrite (proj2 (N.eqb_eq _ _) E)|by rewrite (proj2 (N.eqb_neq _ _) E)].
  - intros c Hk Hs Hn. apply (epochValid_gone (mkSys (on_sessions (delete sid) d) [] [] [])); [done|congruence|].
    simpl. rewrite Hs. apply lookup_delete_eq.
  - intros c Hk Hs. apply epochValid_ext; [done|done|..]; intros s; simpl.
    + by intros [_ ?]%lookup_delete_Some.
    + intros ? _. by rewrite lookup_delete_ne.
  - unfold alone, RevokeOthers, uuid_Nil. case_decide as Hn.
    { by rewrite Hn. }
    rewrite (proj2 (N.eqb_neq _ _) Hn). change 12%nat with (S 11). rewrite run_calm. cbn [query].
    eexists _, _. split; [reflexivity|]. split; [|split; [done|]].
    + simpl. set (P := λ p : UUID * Session, s_user p.2 = UserID cl ∧ p.1 ≠ SessionID cl).
      rewrite <- (map_filter_union_complement P (sessions d)) at 2.
      rewrite map_size_disj_union by apply map_disjoint_filter_complement.
      change (filter (λ p : UUID * Session, ¬ (s_user p.2 = UserID cl ∧ p.1 ≠ SessionID cl)) (sessions d))
        with (filter (λ p : UUID * Session, ¬ P p) (sessions d)). unfold P. lia.
    + intros id s. simpl. rewrite map_lookup_filter_Some. simpl. 
      split; intros [Hs Hx]; (split; [done|]).
      * intros E. destruct (decide (id = SessionID cl)); [done|]. by destruct Hx.
      * intros [E Hne]. auto.
Qed.
End Alone.

(** * Witnesses *)
Module SpecSample.
Import RunSample.
Lemma db0_capped : capped db0.
Proof. intros id s t. simpl. intros [<- <-]%lookup_singleton_Some [= <-]. vm_compute. discriminate. Qed.
Lemma db0_users id s : sessions db0 !! id = Some s →
  ∃ us, users db0 !! s_user s = Some us ∧ u_SessionEpoch us < int64_max.
Proof. simpl. intros [<- <-]%lookup_singleton_Some. exists ada. split; [reflexivity|]. vm_compute. reflexivity. Qed.
Lemma db0_known h : known db0 h → h = HashToken "tok".
Proof.
  intros (id & s & Hs & Hh). simpl in Hs. apply lookup_singleton_Some in Hs as [<- <-].
  destruct Hh as [<-|Hh]; [done|discriminate].
Qed.
Lemma fresh77 : ¬ known db0 (HashToken (refresh_raw 77%N)).
Proof. intros Hk%db0_known. vm_compute in Hk. discriminate. Qed.
End SpecSample.

Lemma session_cap_witness :
  let l := [(RotateSessionConditional 9%N "next" (200 * day) (HashToken "tok"), calm 5 0%N)] in
  capped (execs l RunSample.db0) ∧ is_Some (sessions (execs l RunSample.db0) !! 9%N).
Proof.
  intros l. split; [|eexists; vm_compute; reflexivity].
  refine (proj1 (session_cap l RunSample.db0 SpecSample.db0_capped _)). by simpl.
Defined.

Lemma refresh_alone_witness :
  ∃ p d', alone (Refresh None "tok") 5 77%N RunSample.db0 = Some (OPair p, d').
Proof.
  pose proof (refresh_alone None "tok" 5 77%N RunSample.db0 SpecSample.db0_users) as Ht.
  assert (found 5 "tok" RunSample.db0 = Ok (9%N, RunSample.laptop, true)) as E
    by (vm_compute; reflexivity).
  rewrite E in Ht. destruct Ht as (us & p & _ & Ha & _).
  - intros Hc. by apply SpecSample.fresh77, current_known.
  - eexists _, _. exact Ha.
Defined.

Lemma refresh_faults_witness :
  (∃ d', flaky_run FOk FOk FUnacked FNone (Refresh None "tok") 5 77%N RunSample.db0 = Some (OError, d'))
  ∧ (∃ ev, ev ∈ [Ev (GetSessionByAnyTokenHash (HashToken "tok")) NoRows] ∧ verdict (HashToken "tok") ev)
  ∧ flaky_run FNone FOk FOk FOk (Refresh None "tok") 5 77%N RunSample.db0
    = Some (OError, RunSample.db0).
Proof.
  pose proof (λ f1 f2 f3 f4, refresh_faults None "tok" f1 f2 f3 f4 5 77%N 9%N RunSample.laptop RunSample.ada
    RunSample.db0 ltac:(vm_compute; reflexivity) eq_refl
    ltac:(intros t [= <-]; vm_compute; reflexivity) SpecSample.fresh77) as Ht.
  split.
  - eexists. exact (proj2 (Ht FOk FOk FUnacked FNone)).
  - split; [|exact (proj1 (proj2 (Ht FNone FOk FOk FOk)))].
    refine (proj1 (Ht FOk FOk FOk FOk) _ ORefreshInvalid _ eq_refl).
    exists NoRows, []. split; [reflexivity|]. split; reflexivity.
Defined.

(** * Three interleavings *)
Module Races.
Import RunSample.
Definition link : ResetToken := mkReset 1%N (HashToken "link") (30 * day) None.
Definition exec_n (i n : nat) (e : Env) : list action := replicate n (AExec i e).

(** A sign-in that checked the old password before a reset creates its session
    after the reset has swept the table; its refresh token works. *)
Definition s_reset : Sys :=
  mkSys (mkDB {[ 1%N := ada ]} ∅ {[ 2%N := link ]}) [] [] [].
Definition login_during_reset : list action :=
  [AStart (RqLogin None None "ada" "old-password"); AStart (RqResetPassword "link" "new-password")]
  ++ exec_n 0 5 (at_ 5 70%N) ++ exec_n 1 8 (at_ 6 0%N) ++ exec_n 0 3 (at_ 7 0%N)
  ++ [AStart (RqRefresh None "70")] ++ exec_n 2 7 (at_ 8 71%N).
Definition answers (o : option Sys) : list (option outcome) :=
  match o with
  | Some s => (λ t, match t_prog t with Ret o => Some o | _ => None end) <$> threads s
  | None => []
  end.
Example login_survives_reset :
  match answers (sched login_during_reset s_reset) with
  | [Some (OPair _); Some (ODone false); Some (OPair p)] => RefreshToken p = "71"
  | _ => False
  end
  ∧ PasswordHash <$> (sched login_during_reset s_reset ≫= λ s, users (db s) !! 1%N)
    = Some (Some "new-password").
Proof. vm_compute. split; reflexivity. Qed.

(** Two admins demote each other at the same time: both checks count two. *)
Definition s_admins : Sys := mkSys (mkDB {[ 1%N := ada; 2%N := ada ]} ∅ ∅) [] [] [].
Definition mutual_demotion : list action :=
  [AStart (RqSetAdmin 1%N false); AStart (RqSetAdmin 2%N false); AExec 0 (at_ 5 0%N);
   AExec 1 (at_ 5 0%N)] ++ exec_n 0 4 (at_ 6 0%N) ++ exec_n 1 4 (at_ 6 0%N).
Example no_admin_left :
  answers (sched mutual_demotion s_admins) = [Some (ODone false); Some (ODone false)]
  ∧ (λ s, (query CountAdmins (at_ 7 0%N) (db s)).2) <$> sched mutual_demotion s_admins = Some (Ok 0).
Proof. vm_compute. split; reflexivity. Qed.

(** Two devices' requests race with the same token; the loser's second lookup
    meets a fault, and the sign-in is burnt with the winner's new token: neither
    can be used again. *)
Definition lost_race_and_fault : list action :=
  [AStart (RqRefresh None "tok"); AStart (RqRefresh None "tok")] ++ exec_n 0 6 (at_ 5 60%N)
  ++ exec_n 1 7 (at_ 6 61%N) ++ exec_n 0 1 (at_ 7 60%N) ++ exec_n 0 1 (flaky FNone 7 60%N)
  ++ exec_n 0 4 (at_ 8 0%N).
Example fault_burns_family :
  match answers (sched lost_race_and_fault s0) with
  | [Some (OReuse _); Some (OPair _)] => True
  | _ => False
  end
  ∧ (λ s, size (sessions (db s))) <$> sched lost_race_and_fault s0 = Some 0%nat.
Proof. vm_compute. by split. Qed.

(** A thief who refreshes twice before the owner returns is not noticed: only
    the immediately previous hash is kept. *)
Definition stolen_twice : list action :=
  [AStart (RqRefresh None "tok")] ++ exec_n 0 7 (at_ 5 50%N)
  ++ [AStart (RqRefresh None "50")] ++ exec_n 1 7 (at_ 6 51%N)
  ++ [AStart (RqRefresh None "tok")] ++ exec_n 2 1 (at_ (1 * day) 0%N).
Example second_theft_unnoticed :
  match answers (sched stolen_twice s0) with
  | [Some (OPair _); Some (OPair _); Some ORefreshInvalid] => True
  | _ => False
  end
  ∧ (λ s, size (sessions (db s))) <$> sched stolen_twice s0 = Some 1%nat.
Proof. vm_compute. by split. Qed.
End Races.
