(* ===== verification/Continuation.v ===== *)
(** Continuing a transcode past a defect of its source:
    [internal/transcode/continuation.go].

    ffmpeg can end cleanly well before the end of a damaged source.  The worker
    then starts it again past the defect and stitches the new segments onto the
    playlist the client is reading.  The playlist functions are translated as
    they are; the loop runs against an environment that gives the outcome of
    every file operation, of the store and of each ffmpeg run, and records every
    version of [index.m3u8] a client could read. *)
From S2P Require Import Prelude.
From S2P Require Import GoStrings.
From S2P Require Import GoBytes.
From S2P Require Import GoFloat.

Local Open Scope Z_scope.

(** * The decision to go on *)
Definition shortCompletionMarginSec : float64 := f64_of_Z 12.
Definition maxContinuations : nat := 24.
Definition continuationSkipStepSec : float64 := f64_of_Z 4.
Definition maxContinuationSkipSec : float64 := f64_of_Z 60.

(** [shortOfSource] *)
Definition shortOfSource (producedEndSec sourceDurSec : float64) : bool :=
  f64_gt0 sourceDurSec
  && f64_ltb producedEndSec (f64_sub sourceDurSec shortCompletionMarginSec).

(** [continuationSkip] *)
Definition continuationSkip (progressed : bool) (currentSkip : float64) : float64 * bool :=
  if progressed then (f64_zero, false)
  else let next := f64_add currentSkip continuationSkipStepSec in
       (next, f64_ltb maxContinuationSkipSec next).

(** * The playlist text *)
Definition ENDLIST : string := "#EXT-X-ENDLIST".
Definition DISCONTINUITY : string := "#EXT-X-DISCONTINUITY".

Definition playlistGlobalTags : list string :=
  ["#EXTM3U"; "#EXT-X-VERSION"; "#EXT-X-TARGETDURATION"; "#EXT-X-MEDIA-SEQUENCE";
   "#EXT-X-PLAYLIST-TYPE"; "#EXT-X-INDEPENDENT-SEGMENTS"; ENDLIST].

(** [playlistTag] *)
Definition playlistTag (line : string) : string :=
  if negb (HasPrefix line "#") then ""
  else match Cut line ":" with Some (tag, _) => tag | None => line end.

Definition scanned (playlist : string) : list string := (ScanLines MaxScanTokenSize playlist).1.

(** The duration of one scanned line, when it carries one. *)
Definition extinf (line : string) : option float64 :=
  match CutPrefix (TrimSpace line) "#EXTINF:" with
  | None => None
  | Some v => ParseFloat (TrimSpace match Cut v "," with Some (a, _) => a | None => v end)
  end.

(** [playlistDurationSec] *)
Definition playlistDurationSec (playlist : string) : float64 :=
  foldl (λ total line, match extinf line with Some f => f64_add total f | None => total end)
    f64_zero (scanned playlist).

Definition blank (l : string) : bool := String.eqb (TrimSpace l) "".

(** [extractSegmentBody] *)
Definition body_line (l : string) : bool :=
  negb (blank l) && negb (mem (playlistTag (TrimSpace l)) playlistGlobalTags).
Definition extractSegmentBody (playlist : string) : list string :=
  List.filter body_line (scanned playlist).

(** [strings.TrimRight] of one byte. *)
Fixpoint trim_left_byte (c : ascii) (s : string) : string :=
  match s with
  | String x s' => if Ascii.eqb x c then trim_left_byte c s' else s
  | EmptyString => s
  end.
Definition TrimRightByte (c : ascii) (s : string) : string := srev (trim_left_byte c (srev s)).

Definition is_end (l : string) : bool := String.eqb (TrimSpace l) ENDLIST.

(** The loop that drops the blank tail. *)
Fixpoint drop_while {A} (p : A → bool) (l : list A) : list A :=
  match l with
  | x :: l' => if p x then drop_while p l' else l
  | [] => []
  end.
Definition drop_blank_tail (l : list string) : list string := reverse (drop_while blank (reverse l)).

(** [stitchPlaylist] *)
Definition stitched_lines (prefix : string) (contBody : list string) (ended : bool) : list string :=
  let kept := drop_blank_tail
    (List.filter (λ l, negb (is_end l)) (Split (TrimRightByte lf prefix) lf)) in
  kept ++ (if bool_decide (contBody = []) then [] else DISCONTINUITY :: contBody)
       ++ (if ended then [ENDLIST] else []).
Definition stitchPlaylist (prefix : string) (contBody : list string) (ended : bool) : string :=
  Join (stitched_lines prefix contBody ended) newline +:+ newline.

(** * Running the continuation *)
(** One ffmpeg run: what the stitching goroutine reads of [cont.m3u8] each time
    it looks ([None]: no such file yet), what is there at the end, and whether
    ffmpeg exited by itself. *)
Record RunResult := { ticks : list (option string); cont_end : option string; selfExited : bool }.

Record Env := {
  sourceDur : float64;                    (* the parts' length, or what ffprobe says *)
  StartOffsetSec : float64;
  read_ok : nat → bool;                   (* of the n-th read of [index.m3u8] *)
  write_ok : nat → bool;                  (* of the n-th write of [index.m3u8] *)
  session_live : nat → bool;              (* [w.store.Get], per attempt *)
  HighestSegment : nat → Z;               (* [HighestSegmentIndex], per attempt *)
  ffmpeg : nat → float64 → Z → RunResult }.

Record World := mkWorld {
  index : option string;                  (* [index.m3u8] *)
  reads : nat; writes : nat;
  versions : list string;                 (* every content written, in order *)
  runs : list (float64 * Z);              (* start offset and first number of each ffmpeg *)
  io_ok : bool }.                         (* whether the last file operation succeeded *)
#[global] Instance World_eta : Eta World := λ w,
  mkWorld (index w) (reads w) (writes w) (versions w) (runs w) (io_ok w).

Section Run.
Variable e : Env.

(** [os.ReadFile(indexPath)] *)
Definition readIndex (w : World) : World * option string :=
  let got := if read_ok e (reads w) then index w else None in
  (w <| reads ::= S |> <| io_ok := bool_decide (is_Some got) |>, got).

(** [writeFileAtomic(indexPath, data)]: a rename, so a reader sees one version or the next. *)
Definition writeIndex (w : World) (data : string) : World * bool :=
  let ok := write_ok e (writes w) in
  let w := w <| writes ::= S |> <| io_ok := ok |> in
  (if ok then w <| index := Some data |> <| versions ::= λ l, l ++ [data] |> else w, ok).

(** The stitching goroutine, one look. *)
Definition stitch (prefix : string) (w : World) (cont : option string) : World :=
  match cont with
  | None => w
  | Some body => (writeIndex w (stitchPlaylist prefix (extractSegmentBody body) false)).1
  end.

(** The loop, from the attempt [S (maxContinuations - n)] on. *)
Fixpoint extend (n : nat) (extraSkip : float64) (w : World) : World :=
  match n with
  | O => w
  | S n' =>
      let attempt := (maxContinuations - n')%nat in
      match readIndex w with
      | (w, None) => w
      | (w, Some pl) =>
          let producedEnd := f64_add (StartOffsetSec e) (playlistDurationSec pl) in
          if negb (shortOfSource producedEnd (sourceDur e)) then w
          else if negb (session_live e attempt) then w
          else
            let prefix := stitchPlaylist pl [] false in
            match writeIndex w prefix with
            | (w, false) => w
            | (w, true) =>
                let seekTo := f64_add producedEnd extraSkip in
                let startNum := HighestSegment e attempt + 1 in
                let w := w <| runs ::= λ l, l ++ [(seekTo, startNum)] |> in
                let r := ffmpeg e attempt seekTo startNum in
                let w := foldl (stitch prefix) w (ticks r) in
                if negb (selfExited r) then w
                else
                  let body := extractSegmentBody (default "" (cont_end r)) in
                  let merged := stitchPlaylist prefix body false in
                  let w := (writeIndex w merged).1 in
                  let newProduced := f64_add (StartOffsetSec e) (playlistDurationSec merged) in
                  let progressed := f64_ltb (f64_add producedEnd (f64_of_Z 1)) newProduced in
                  match continuationSkip progressed extraSkip with
                  | (_, true) => w
                  | (skip, false) => extend n' skip w
                  end
            end
      end
  end.

(** The deferred close: every path past the first strip goes through it. *)
Definition close_playlist (w : World) : World :=
  match readIndex w with
  | (w, Some pl) =>
      if Contains pl ENDLIST then w
      else (writeIndex w (TrimRightByte lf pl +:+ newline +:+ ENDLIST +:+ newline)).1
  | (w, None) => w
  end.

(** [continueShortSession] *)
Definition continueShortSession (w : World) : World :=
  match readIndex w with
  | (w, None) => w
  | (w, Some pl0) =>
      let '(w, ok) :=
        if Contains pl0 ENDLIST then writeIndex w (stitchPlaylist pl0 [] false) else (w, true) in
      if negb ok then w
      else close_playlist
             (if f64_le0 (sourceDur e) then w else extend maxContinuations f64_zero w)
  end.

End Run.

#[global] Arguments readIndex : simpl never.
#[global] Arguments writeIndex : simpl never.

(** * Playlists as lists of lines *)
Definition Lines (v : string) : list string := Split v lf.
(** A player reads a segment on a line that is neither blank nor a tag. *)
Definition is_uri (l : string) : bool := negb (blank l) && negb (HasPrefix (TrimSpace l) "#").
Definition segs (v : string) : list string := List.filter is_uri (Lines v).
Definition ended (v : string) : bool := existsb is_end (Lines v).

Definition no_lf (s : string) : Prop := sforall (λ c, negb (Ascii.eqb c lf)) s = true.

Lemma split_go_snoc (a cur : string) : split_go lf (a +:+ newline) cur = split_go lf a cur ++ [""].
Proof.
  revert cur. induction a as [|c a IH]; intros cur.
  - done.
  - change (String c a +:+ newline) with (String c (a +:+ newline)). cbn [split_go].
    destruct (Ascii.eqb c lf); by rewrite IH.
Qed.
Lemma Lines_snoc (a : string) : Lines (a +:+ newline) = Lines a ++ [""].
Proof. apply split_go_snoc. Qed.

Lemma no_lf_snoc (c : ascii) (s : string) : Ascii.eqb c lf = false → no_lf (srev s) → no_lf (srev (String c s)).
Proof.
  intros Hc Hs. unfold no_lf. rewrite srev_snoc, sforall_app. unfold no_lf in Hs. rewrite Hs.
  simpl. by rewrite Hc.
Qed.
Lemma split_go_no_lf (s cur : string) : no_lf (srev cur) → Forall no_lf (split_go lf s cur).
Proof.
  revert cur. induction s as [|c s IH]; intros cur Hc; simpl; [by constructor|].
  destruct (Ascii.eqb c lf) eqn:E; [constructor; [done|by apply IH]|].
  apply IH. by apply no_lf_snoc.
Qed.
Lemma Lines_no_lf (s : string) : Forall no_lf (Lines s).
Proof. by apply split_go_no_lf. Qed.

(** Lines put together are found again. *)
Lemma Lines_Join (l : list string) : l ≠ [] → Forall no_lf l → Lines (Join l newline +:+ newline) = l ++ [""].
Proof.
  intros Hne Hl. induction l as [|x [|y l] IH]; [done| |]; inversion Hl; subst.
  - rewrite Lines_snoc. unfold Lines. by rewrite Split_last.
  - change (Join (x :: y :: l) newline) with (x +:+ String lf (Join (y :: l) newline)).
    rewrite sapp_assoc. change (String lf (Join (y :: l) newline) +:+ newline)
      with (String lf (Join (y :: l) newline +:+ newline)).
    unfold Lines. rewrite Split_app by done.
    change ((x :: y :: l) ++ [""]) with (x :: ((y :: l) ++ [""])). f_equal. by apply IH.
Qed.

Lemma srev_nl (t : string) : srev (String lf t) = srev t +:+ newline.
Proof. apply srev_snoc. Qed.
Lemma Lines_srev_trimmed (t : string) :
  ∃ k, Lines (srev t) = Lines (srev (trim_left_byte lf t)) ++ replicate k "".
Proof.
  induction t as [|c t [k IH]]; [by exists O|].
  cbn [trim_left_byte]. destruct (Ascii.eqb c lf) eqn:E.
  - apply Ascii.eqb_eq in E. subst. exists (S k).
    rewrite srev_nl, Lines_snoc, IH, <- app_assoc. f_equal. symmetry. apply replicate_cons_app.
  - exists O. by rewrite app_nil_r.
Qed.
Lemma Lines_trimmed (s : string) : ∃ k, Lines s = Lines (TrimRightByte lf s) ++ replicate k "".
Proof. pose proof (Lines_srev_trimmed (srev s)) as H. by rewrite srev_srev in H. Qed.

(** Properties of lines that blank lines do not have. *)
Lemma filter_blanks (p : string → bool) (k : nat) (l : list string) :
  p "" = false → List.filter p (l ++ replicate k "") = List.filter p l.
Proof.
  intros Hp. rewrite List.filter_app. induction k; simpl; [by rewrite app_nil_r|by rewrite Hp].
Qed.
Lemma existsb_filter {A} (p : A → bool) (l : list A) :
  existsb p l = negb (bool_decide (List.filter p l = [])).
Proof. induction l as [|x l IH]; simpl; [done|]. by destruct (p x). Qed.

Lemma drop_while_suffix {A} (p : A → bool) (l : list A) :
  ∃ h, l = h ++ drop_while p l ∧ Forall (λ x, p x = true) h.
Proof.
  induction l as [|x l (h & Hl & Hh)]; [by exists []|]. simpl. destruct (p x) eqn:E.
  - exists (x :: h). split; [simpl; by f_equal|by constructor].
  - by exists [].
Qed.
Lemma drop_blank_tail_eq (l : list string) :
  ∃ t, l = drop_blank_tail l ++ t ∧ Forall (λ x, blank x = true) t.
Proof.
  destruct (drop_while_suffix blank (reverse l)) as (h & Hl & Hh). exists (reverse h).
  split; [|by apply Forall_reverse]. unfold drop_blank_tail.
  by rewrite <- reverse_app, <- Hl, reverse_involutive.
Qed.

Definition nonblank_prop (p : string → bool) : Prop := ∀ l, blank l = true → p l = false.

Lemma filter_Forall_nil {A} (p q : A → bool) (l : list A) :
  (∀ x, p x = true → q x = false) → Forall (λ x, p x = true) l → List.filter q l = [].
Proof. intros Hpq. induction 1 as [|x l Hx _ IH]; simpl; [done|]. by rewrite (Hpq x Hx). Qed.

Lemma filter_keep_blanks (k : nat) :
  List.filter (λ l, negb (is_end l)) (replicate k "") = replicate k "".
Proof. induction k as [|k IH]; simpl; [done|]. by rewrite IH. Qed.

(** What [kept] keeps of the playlist. *)
Lemma kept_filter (p : string → bool) (v : string) : nonblank_prop p →
  List.filter p (drop_blank_tail
    (List.filter (λ l, negb (is_end l)) (Split (TrimRightByte lf v) lf)))
  = List.filter p (List.filter (λ l, negb (is_end l)) (Lines v)).
Proof.
  intros Hp. destruct (Lines_trimmed v) as [k Hk]. rewrite Hk.
  set (L := List.filter _ (Split _ _)).
  assert (List.filter (λ l, negb (is_end l)) (Lines (TrimRightByte lf v) ++ replicate k "")
          = L ++ replicate k "") as ->.
  { rewrite List.filter_app, filter_keep_blanks. done. }
  rewrite filter_blanks by (by apply Hp). destruct (drop_blank_tail_eq L) as (t & HL & Ht).
  rewrite HL at 2. rewrite List.filter_app, (filter_Forall_nil blank p t), app_nil_r; done.
Qed.

(** Every line of a stitched playlist is one line. *)
Lemma Forall_filter {A} (P : A → Prop) (p : A → bool) (l : list A) : Forall P l → Forall P (List.filter p l).
Proof. induction 1; simpl; [constructor|]. destruct (p x); [by constructor|done]. Qed.
Lemma stitched_no_lf (v : string) (body : list string) (b : bool) :
  Forall no_lf body → Forall no_lf (stitched_lines v body b).
Proof.
  intros Hb. unfold stitched_lines. apply Forall_app. split.
  - set (L := List.filter _ _). destruct (drop_blank_tail_eq L) as (t & HL & _).
    assert (Forall no_lf L) as H by apply Forall_filter, Lines_no_lf.
    rewrite HL, Forall_app in H. apply H.
  - apply Forall_app. split; [|by destruct b; repeat constructor].
    case_bool_decide; [constructor|]. by constructor.
Qed.

(** The lines with a property that blank lines lack. *)
Lemma stitch_filter (p : string → bool) (v : string) (body : list string) (b : bool) :
  nonblank_prop p → Forall no_lf body →
  List.filter p (Lines (stitchPlaylist v body b)) = List.filter p (stitched_lines v body b).
Proof.
  intros Hp Hb. unfold stitchPlaylist. destruct (stitched_lines v body b) as [|x l] eqn:E.
  - change (Lines (Join [] newline +:+ newline)) with [""; ""]. simpl. by rewrite (Hp "" eq_refl).
  - rewrite Lines_Join; [|done|rewrite <- E; by apply stitched_no_lf].
    rewrite List.filter_app. simpl. by rewrite (Hp "" eq_refl), app_nil_r.
Qed.

Lemma is_uri_nonblank : nonblank_prop is_uri.
Proof. intros l Hl. unfold is_uri. by rewrite Hl. Qed.
Lemma is_end_blank (l : string) : blank l = true → is_end l = false.
Proof. unfold blank, is_end. intros ->%String.eqb_eq. done. Qed.
Lemma is_end_not_uri (l : string) : is_end l = true → is_uri l = false.
Proof. unfold is_end, is_uri. intros ->%String.eqb_eq. by rewrite andb_false_r. Qed.
Lemma filter_uri_not_end (l : list string) :
  List.filter is_uri (List.filter (λ l, negb (is_end l)) l) = List.filter is_uri l.
Proof.
  induction l as [|x l IH]; simpl; [done|]. destruct (is_end x) eqn:E; simpl; rewrite IH; [|done].
  by rewrite (is_end_not_uri x E).
Qed.
Lemma filter_end_not_end (l : list string) :
  List.filter is_end (List.filter (λ l, negb (is_end l)) l) = [].
Proof. induction l as [|x l IH]; simpl; [done|]. destruct (is_end x) eqn:E; simpl; [done|]. by rewrite E. Qed.

(** Stitching keeps the listed segments and adds those of the body. *)
Lemma segs_stitch (v : string) (body : list string) (b : bool) : Forall no_lf body →
  segs (stitchPlaylist v body b) = segs v ++ List.filter is_uri body.
Proof.
  intros Hb. unfold segs. rewrite stitch_filter by (done || apply is_uri_nonblank).
  unfold stitched_lines. rewrite !List.filter_app, kept_filter by apply is_uri_nonblank.
  rewrite filter_uri_not_end. f_equal.
  assert (List.filter is_uri (if b then [ENDLIST] else []) = []) as -> by by destruct b.
  rewrite app_nil_r. by case_bool_decide; subst.
Qed.
Lemma ended_stitch (v : string) (body : list string) : Forall no_lf body →
  existsb is_end body = false → ended (stitchPlaylist v body false) = false.
Proof.
  intros Hb He. unfold ended. rewrite existsb_filter.
  rewrite stitch_filter by (done || exact is_end_blank). unfold stitched_lines.
  rewrite !List.filter_app, kept_filter by exact is_end_blank. rewrite filter_end_not_end.
  rewrite existsb_filter in He. apply negb_false_iff, bool_decide_eq_true in He.
  apply negb_false_iff, bool_decide_eq_true. simpl. rewrite app_nil_r.
  by case_bool_decide; subst.
Qed.

(** The lines taken from the continuation's playlist. *)
Lemma no_lf_drop_cr (r : string) : no_lf r → no_lf (drop_cr r).
Proof.
  intros Hr. unfold drop_cr. destruct (srev r) as [|c t] eqn:E; [done|].
  destruct (Ascii.eqb c cr); [|done]. unfold no_lf in *.
  rewrite <- (sforall_srev _ r), E in Hr. simpl in Hr. apply andb_true_iff in Hr as [_ Hr].
  by rewrite sforall_srev.
Qed.
Lemma raw_lines_no_lf (s cur : string) : no_lf (srev cur) → Forall no_lf (raw_lines s cur).
Proof.
  revert cur. induction s as [|c s IH]; intros cur Hc; simpl.
  - destruct (String.eqb cur ""); repeat constructor. done.
  - destruct (Ascii.eqb c lf) eqn:E; [constructor; [done|by apply IH]|].
    apply IH. by apply no_lf_snoc.
Qed.
Lemma scanned_no_lf (s : string) : Forall no_lf (scanned s).
Proof.
  unfold scanned, ScanLines. assert (Forall no_lf (raw_lines s "")) as H by by apply raw_lines_no_lf.
  revert H. generalize (raw_lines s ""). induction l as [|r l IH]; simpl; [constructor|].
  intros [Hr Hl]%Forall_cons. destruct (MaxScanTokenSize <=? slen r); [constructor|].
  specialize (IH Hl). destruct (scan_raw MaxScanTokenSize l). simpl in *.
  constructor; [by apply no_lf_drop_cr|done].
Qed.
Lemma body_no_lf (s : string) : Forall no_lf (extractSegmentBody s).
Proof. apply Forall_filter, scanned_no_lf. Qed.
Lemma body_not_ended (s : string) : existsb is_end (extractSegmentBody s) = false.
Proof.
  unfold extractSegmentBody. induction (scanned s) as [|l ls IH]; simpl; [done|].
  destruct (body_line l) eqn:E; simpl; [|done]. rewrite IH, orb_false_r.
  unfold is_end. apply String.eqb_neq. intros Heq. unfold body_line in E. rewrite Heq in E.
  by rewrite andb_false_r in E.
Qed.

(** * What a client can see *)
(** Successive versions of the playlist, from [a] to [b]: none is terminated,
    and each lists the segments of the one before. *)
Fixpoint chain (a : string) (l : list string) (b : string) : Prop :=
  match l with
  | [] => a = b
  | v :: l => ended v = false ∧ segs a `prefix_of` segs v ∧ chain v l b
  end.
Lemma chain_app (a b c : string) (l l' : list string) : chain a l b → chain b l' c → chain a (l ++ l') c.
Proof.
  revert a. induction l as [|v l IH]; simpl; intros a; [by intros ->|].
  intros (H1 & H2 & H3) H. eauto.
Qed.

(** ffmpeg's own playlist only grows while a run lasts. *)
Fixpoint growing (last : list string) (l : list (option string)) : Prop :=
  match l with
  | [] => True
  | None :: l => growing last l
  | Some c :: l =>
      List.filter is_uri last `prefix_of` List.filter is_uri (extractSegmentBody c)
      ∧ growing (extractSegmentBody c) l
  end.
Definition run_grows (r : RunResult) : Prop := growing [] (ticks r ++ [Some (default "" (cont_end r))]).

(** * The run *)
Section Properties.
Variable e : Env.

(** From [w] to [w'] the playlist was only extended. *)
Definition Adv (w w' : World) : Prop :=
  ∃ a l b, index w = Some a ∧ index w' = Some b ∧ versions w' = versions w ++ l ∧ chain a l b.

Lemma Adv_refl (w w' : World) (a : string) :
  index w = Some a → index w' = Some a → versions w' = versions w → Adv w w'.
Proof. intros H1 H2 H3. exists a, [], a. by rewrite H3, app_nil_r. Qed.
Lemma Adv_trans (w1 w2 w3 : World) : Adv w1 w2 → Adv w2 w3 → Adv w1 w3.
Proof.
  intros (a & l & b & H1 & H2 & H3 & H4) (a' & l' & c & H1' & H2' & H3' & H4').
  assert (a' = b) as -> by congruence. exists a, (l ++ l'), c. rewrite H3', H3, app_assoc.
  split_and!; [done..|]. by eapply chain_app.
Qed.

Lemma readIndex_same (w : World) : let w' := (readIndex e w).1 in
  index w' = index w ∧ versions w' = versions w ∧ runs w' = runs w
  ∧ (∀ pl, (readIndex e w).2 = Some pl → index w = Some pl ∧ io_ok w' = true)
  ∧ ((readIndex e w).2 = None → io_ok w' = false).
Proof.
  unfold readIndex. cbn. destruct (if read_ok e (reads w) then index w else None) as [pl|] eqn:E.
  - split_and!; try done. intros ? [= <-]. by destruct (read_ok e (reads w)).
  - by split_and!.
Qed.

Lemma writeIndex_cases (w : World) (d : string) :
  runs (writeIndex e w d).1 = runs w ∧ io_ok (writeIndex e w d).1 = (writeIndex e w d).2
  ∧ ((writeIndex e w d).2 = true ∧ index (writeIndex e w d).1 = Some d
       ∧ versions (writeIndex e w d).1 = versions w ++ [d]
     ∨ (writeIndex e w d).2 = false ∧ index (writeIndex e w d).1 = index w
       ∧ versions (writeIndex e w d).1 = versions w).
Proof. unfold writeIndex. destruct (write_ok e (writes w)); simpl; auto 6. Qed.

Lemma write_adv (w : World) (cur d : string) :
  index w = Some cur → ended d = false → segs cur `prefix_of` segs d → Adv w (writeIndex e w d).1.
Proof.
  intros Hc He Hs. destruct (writeIndex_cases w d) as (_ & _ & [(_ & H1 & H2)|(_ & H1 & H2)]).
  - exists cur, [d], d. by rewrite H1, H2.
  - apply Adv_refl with cur; congruence.
Qed.

Lemma stitch_prefix_ended (pl : string) : ended (stitchPlaylist pl [] false) = false.
Proof. by apply ended_stitch. Qed.
Lemma segs_prefix (pl : string) : segs (stitchPlaylist pl [] false) = segs pl.
Proof. rewrite segs_stitch by constructor. by rewrite app_nil_r. Qed.

Lemma ticks_adv (prefix : string) (l : list (option string)) (last : list string) (w : World) (cur : string) :
  index w = Some cur → segs cur `prefix_of` segs prefix ++ List.filter is_uri last →
  growing last l → Adv w (foldl (stitch e prefix) w l).
Proof.
  revert last w cur. induction l as [|[c|] l IH]; intros last w cur Hw Hs Hg; simpl.
  - by apply Adv_refl with cur.
  - destruct Hg as [Hlc Hg]. set (d := stitchPlaylist prefix (extractSegmentBody c) false).
    assert (segs d = segs prefix ++ List.filter is_uri (extractSegmentBody c)) as Hd.
    { apply segs_stitch, body_no_lf. }
    assert (segs cur `prefix_of` segs d) as Hcd.
    { rewrite Hd. etrans; [exact Hs|]. by apply prefix_app. }
    assert (ended d = false) as He by (apply ended_stitch; [apply body_no_lf|apply body_not_ended]).
    pose proof (write_adv w cur d Hw He Hcd) as Ha. apply (Adv_trans _ _ _ Ha).
    destruct (writeIndex_cases w d) as (_ & _ & [(_ & H1 & _)|(_ & H1 & _)]).
    + apply (IH (extractSegmentBody c) _ d); [done|by rewrite Hd|done].
    + apply (IH (extractSegmentBody c) _ cur); [congruence|by rewrite <- Hd|done].
  - by apply (IH last w cur).
Qed.

Lemma growing_app (l l' : list (option string)) (last : list string) : growing last (l ++ l') → growing last l.
Proof. revert last. induction l as [|[c|] l IH]; simpl; [done| |auto]. intros last [H1 H2]. eauto. Qed.

Lemma extend_adv (n : nat) : (∀ a s k, run_grows (ffmpeg e a s k)) →
  ∀ skip w cur, index w = Some cur → Adv w (extend e n skip w).
Proof.
  intros Hr. induction n as [|n IH]; intros skip w cur Hw; cbn [extend]; [by apply Adv_refl with cur|].
  destruct (readIndex_same w) as (H1 & H2 & _ & H4 & _).
  destruct (readIndex e w) as [w1 [pl|]]; cbn [fst snd] in *; [|apply Adv_refl with cur; congruence].
  destruct (H4 pl eq_refl) as [Hpl _]. assert (pl = cur) as -> by congruence.
  assert (Adv w w1) as Ha by (apply Adv_refl with cur; congruence). apply (Adv_trans _ _ _ Ha).
  destruct (negb _); [apply Adv_refl with cur; congruence|].
  destruct (negb _); [apply Adv_refl with cur; congruence|].
  set (prefix := stitchPlaylist cur [] false).
  assert (Adv w1 (writeIndex e w1 prefix).1) as Hb.
  { apply write_adv with cur; [congruence|apply stitch_prefix_ended|]. unfold prefix. by rewrite segs_prefix. }
  apply (Adv_trans _ _ _ Hb).
  destruct (writeIndex_cases w1 prefix) as (_ & _ & [(E & H1' & _)|(E & H1' & _)]);
    destruct (writeIndex e w1 prefix) as [w2 ok]; cbn [fst snd] in *; subst ok; cbn match;
    [|apply Adv_refl with cur; congruence].
  match goal with |- context [foldl (stitch e prefix) ?w3 (ticks ?r)] =>
    set (r' := r) in *; set (w3' := w3) in * end.
  assert (Adv w2 w3') as Hc by by apply Adv_refl with prefix. apply (Adv_trans _ _ _ Hc).
  assert (segs prefix `prefix_of` segs prefix ++ List.filter is_uri []) as Hp by (simpl; by rewrite app_nil_r).
  assert (run_grows r') as Hg by apply Hr.
  destruct (negb _).
  { apply ticks_adv with [] prefix; [done..|]. exact (growing_app _ _ _ Hg). }
  pose proof (ticks_adv prefix _ [] w3' prefix H1' Hp Hg) as Hd. rewrite foldl_app in Hd.
  change (foldl (stitch e prefix) ?w [Some ?c])
    with (writeIndex e w (stitchPlaylist prefix (extractSegmentBody c) false)).1 in Hd.
  destruct (continuationSkip _ _) as [s [|]]; [exact Hd|]. apply (Adv_trans _ _ _ Hd).
  destruct Hd as (_ & _ & b & _ & Hb' & _). by apply (IH s _ b).
Qed.

(** ** The runs of ffmpeg *)
Definition skip_ok (skip : float64) : Prop := ∃ k, 0 <= k <= 15 ∧ skip = f64_of_Z (4 * k).
(** A seek goes to the end of what was produced, and at most a minute further. *)
Definition seek_ok (seekTo : float64) : Prop := ∃ pl k, 0 <= k <= 15
  ∧ seekTo = f64_add (f64_add (StartOffsetSec e) (playlistDurationSec pl)) (f64_of_Z (4 * k)).

Lemma skip_next (progressed : bool) (skip : float64) : skip_ok skip →
  (continuationSkip progressed skip).2 = false → skip_ok (continuationSkip progressed skip).1.
Proof.
  intros (k & Hk & ->). destruct progressed; [by exists 0|].
  assert (∃ n : nat, k = Z.of_nat n ∧ (n < 16)%nat) as (n & -> & Hn) by (exists (Z.to_nat k); lia).
  do 15 (destruct n as [|n]; [intros _; match goal with |- context [f64_of_Z (4 * Z.of_nat ?n)] =>
    exists (Z.of_nat n + 1); split; [lia|vm_compute; reflexivity] end|]).
  assert (n = O) as -> by lia. done.
Qed.

Lemma runs_ticks (prefix : string) (l : list (option string)) (w : World) :
  runs (foldl (stitch e prefix) w l) = runs w.
Proof.
  revert w. induction l as [|[c|] l IH]; intros w; simpl; [done| |done].
  rewrite IH. apply writeIndex_cases.
Qed.

(** From [w] to [w'] at most [n] runs were started, each at a proper place. *)
Definition starts (n : nat) (w w' : World) : Prop :=
  ∃ new, runs w' = runs w ++ new ∧ (length new <= n)%nat ∧ Forall (λ r, seek_ok r.1) new.
Lemma starts_none (n : nat) (w w' : World) : runs w' = runs w → starts n w w'.
Proof. intros H. exists []. rewrite app_nil_r. split_and!; [done|apply Nat.le_0_l|done]. Qed.
Lemma starts_one (n : nat) (w w2 w' : World) (r : float64 * Z) :
  runs w2 = runs w ++ [r] → seek_ok r.1 → starts n w2 w' → starts (S n) w w'.
Proof.
  intros H2 Hr (new & H & Hl & Hf). exists (r :: new). rewrite H, H2, <- app_assoc.
  split_and!; [done|simpl; lia|by constructor].
Qed.

Lemma extend_runs (n : nat) (skip : float64) (w : World) : skip_ok skip → starts n w (extend e n skip w).
Proof.
  revert skip w. induction n as [|n IH]; intros skip w Hs; cbn [extend]; [by apply starts_none|].
  destruct (readIndex_same w) as (_ & _ & H3 & _).
  destruct (readIndex e w) as [w1 [pl|]]; cbn [fst snd] in H3; [|by apply starts_none].
  destruct (negb _); [by apply starts_none|]. destruct (negb _); [by apply starts_none|].
  destruct (writeIndex_cases w1 (stitchPlaylist pl [] false)) as (H4 & _).
  destruct (writeIndex e w1 _) as [w2 [|]]; cbn [fst snd] in H4; [|apply starts_none; congruence].
  cbv zeta. set (seekTo := f64_add _ skip). set (num := HighestSegment e _ + 1).
  set (w3 := w2 <| runs ::= λ l, l ++ [(seekTo, num)] |>).
  apply (starts_one n w w3 _ (seekTo, num)).
  { simpl. congruence. }
  { destruct Hs as (k & Hk & ->). by exists pl, k. }
  destruct (negb _); [apply starts_none, runs_ticks|].
  match goal with |- context [continuationSkip ?p skip] =>
    pose proof (skip_next p skip Hs) as Hn; destruct (continuationSkip p skip) as [s [|]] end;
  match goal with |- context [writeIndex e ?w ?d] =>
    destruct (writeIndex_cases w d) as (Hw & _); rewrite runs_ticks in Hw;
    set (w4 := (writeIndex e w d).1) in * end.
  - by apply starts_none.
  - destruct (IH s w4 (Hn eq_refl)) as (new & H1 & H2). exists new. by rewrite H1, Hw.
Qed.

(** ** The close *)
Lemma HasPrefix_app (s t : string) : HasPrefix (s +:+ t) s = true.
Proof. unfold HasPrefix. by rewrite CutPrefix_app. Qed.
Lemma Contains_mid (a s b : string) : Contains (a +:+ s +:+ b) s = true.
Proof.
  induction a as [|c a IH].
  - change ("" +:+ s +:+ b) with (s +:+ b). pose proof (HasPrefix_app s b) as H.
    destruct (s +:+ b); simpl in *; by rewrite H.
  - change (String c a +:+ s +:+ b) with (String c (a +:+ s +:+ b)). simpl. by rewrite IH, orb_true_r.
Qed.

Definition close_text (pl : string) : string := TrimRightByte lf pl +:+ newline +:+ ENDLIST +:+ newline.

Lemma close_terminated (w : World) : let w' := close_playlist e w in
  (io_ok w' = true → ∃ pl, index w' = Some pl ∧ Contains pl ENDLIST = true)
  ∧ runs w' = runs w
  ∧ ∀ pl, index w = Some pl →
      versions w' = versions w ∨ versions w' = versions w ++ [close_text pl].
Proof.
  unfold close_playlist. destruct (readIndex_same w) as (H1 & H2 & H3 & H4 & H5).
  destruct (readIndex e w) as [w1 [pl|]]; cbn [fst snd] in *.
  - destruct (H4 pl eq_refl) as [Hpl Hok]. destruct (Contains pl ENDLIST) eqn:E.
    { split_and!; [intros _; exists pl; split; [congruence|done]|done|by left]. }
    fold (close_text pl).
    destruct (writeIndex_cases w1 (close_text pl)) as (Hr & Hio & [(Ho & Hi & Hv)|(Ho & Hi & Hv)]).
    + split_and!; [|congruence|].
      * intros _. exists (close_text pl). split; [done|].
        unfold close_text. rewrite <- sapp_assoc. apply Contains_mid.
      * intros pl' Hpl'. assert (pl' = pl) as -> by congruence. right. congruence.
    + split_and!; [congruence|congruence|]. intros pl' _. left. congruence.
  - split_and!; [intros H; by rewrite (H5 eq_refl) in H|done|by left].
Qed.
End Properties.

(** The strip that precedes everything else. *)
Definition strip (e : Env) (w : World) (pl0 : string) : World * bool :=
  if Contains pl0 ENDLIST then writeIndex e w (stitchPlaylist pl0 [] false) else (w, true).
Lemma strip_adv (e : Env) (w : World) (pl0 : string) : index w = Some pl0 →
  Adv w (strip e w pl0).1 ∧ runs (strip e w pl0).1 = runs w
  ∧ ((strip e w pl0).2 = false → io_ok (strip e w pl0).1 = false).
Proof.
  intros Hw. unfold strip. destruct (Contains pl0 ENDLIST).
  - destruct (writeIndex_cases e w (stitchPlaylist pl0 [] false)) as (-> & -> & _).
    split; [|done]. apply write_adv with pl0; [done|apply stitch_prefix_ended|]. by rewrite segs_prefix.
  - split; [by apply Adv_refl with pl0|done].
Qed.

(** The part between the strip and the close. *)
Lemma middle_adv (e : Env) (w : World) (cur : string) :
  index w = Some cur → (∀ a s k, run_grows (ffmpeg e a s k)) →
  let w' := if f64_le0 (sourceDur e) then w else extend e maxContinuations f64_zero w in
  Adv w w' ∧ starts e maxContinuations w w'.
Proof.
  intros Hw Hg. cbv zeta. destruct (f64_le0 _).
  - split; [by apply Adv_refl with cur|by apply starts_none].
  - split; [by apply extend_adv with cur|apply extend_runs].
    exists 0. split; [lia|vm_compute; reflexivity].
Qed.

(** C28: A session continued past a defect starts ffmpeg at most 24 times, each
    time at the end of what was produced or at most a minute past it.  While it
    goes on no version of the playlist a client can read is marked as ended and
    none drops a segment listed before; and whatever path it leaves by -
    finished, probe failed, client gone, killed, given up - unless the last file
    operation itself failed, the playlist it leaves behind is marked as ended. *)
Theorem continuation_terminated (e : Env) (w : World) (pl0 : string) :
  index w = Some pl0 → versions w = [] → runs w = [] →
  (∀ a s k, run_grows (ffmpeg e a s k)) →
  let w' := continueShortSession e w in
  (length (runs w') <= maxContinuations)%nat ∧ Forall (λ r, seek_ok e r.1) (runs w')
  ∧ (io_ok w' = true → ∃ pl, index w' = Some pl ∧ Contains pl ENDLIST = true)
  ∧ ∃ mid last, chain pl0 mid last
      ∧ (versions w' = mid ∨ versions w' = mid ++ [close_text last]).
Proof.
  intros Hi Hv Hr Hg. unfold continueShortSession.
  destruct (readIndex_same e w) as (H1 & H2 & H3 & H4 & H5).
  destruct (readIndex e w) as [w1 [pl|]]; cbn [fst snd] in *.
  2: { rewrite H3, Hr. split_and!; [apply Nat.le_0_l|done|intros H; by rewrite (H5 eq_refl) in H|].
       exists [], pl0. split; [done|]. left. congruence. }
  destruct (H4 pl eq_refl) as [Hpl Hio1]. assert (pl = pl0) as -> by congruence.
  fold (strip e w1 pl0). destruct (strip_adv e w1 pl0) as (Ha & Hs & Hf); [congruence|].
  destruct (strip e w1 pl0) as [w2 ok]; cbn [fst snd] in *. rewrite H3, Hr in Hs.
  destruct Ha as (a & l & b & E1 & E2 & E3 & E4). assert (a = pl0) as -> by congruence.
  destruct ok; cbn [negb].
  2: { rewrite Hs. split_and!; [apply Nat.le_0_l|done|intros H; by rewrite (Hf eq_refl) in H|].
       exists l, b. split; [done|]. left. by rewrite E3, H2, Hv. }
  destruct (middle_adv e w2 b E2 Hg) as [(a' & l' & b' & F1 & F2 & F3 & F4) (new & Hn & Hl & Hk)].
  assert (a' = b) as -> by congruence. rewrite Hs in Hn. rewrite app_nil_l in Hn.
  set (w3 := if f64_le0 _ then w2 else _) in *.
  destruct (close_terminated e w3) as (C1 & C2 & C3). rewrite C2, Hn.
  repeat (split; [assumption|]). exists (l ++ l'), b'. split; [by eapply chain_app|].
  assert (versions w3 = l ++ l') as <-; [|exact (C3 b' F2)]. by rewrite F3, E3, H2, Hv.
Qed.

(** * A source that stops at 40 of 100 seconds *)
Module Sample.

Definition text (l : list string) : string := Join l newline +:+ newline.
Definition seg (i : Z) : list string := ["#EXTINF:4.000000,"; "seg" +:+ Itoa i +:+ ".ts"].
Definition segments (from n : nat) : list string := seq (from) n ≫= λ i, seg (Z.of_nat i).
Definition first_run : string :=
  text (["#EXTM3U"; "#EXT-X-VERSION:6"; "#EXT-X-TARGETDURATION:4"; "#EXT-X-MEDIA-SEQUENCE:0"]
        ++ segments 0 10 ++ [ENDLIST]).

(** ffmpeg produces nothing from before 56 seconds and everything up to 100
    from there on; segment [n] is written at number [n]. *)
Definition demo_ffmpeg (attempt : nat) (seekTo : float64) (startNum : Z) : RunResult :=
  if f64_ltb seekTo (f64_of_Z 56) then {| ticks := [None]; cont_end := None; selfExited := true |}
  else
    let n := Z.to_nat ((100 - int_of_f64 seekTo) / 4) in
    let from := Z.to_nat startNum in
    {| ticks := [None; Some (text (segments from (n / 2)))];
       cont_end := Some (text (segments from n ++ [ENDLIST])); selfExited := true |}.
Definition demo : Env := {|
  sourceDur := f64_of_Z 100; StartOffsetSec := f64_zero;
  read_ok := λ _, true; write_ok := λ _, true; session_live := λ _, true;
  HighestSegment := λ a, if (a <=? 5)%nat then 9 else 20;
  ffmpeg := demo_ffmpeg |}.
Definition start : World := mkWorld (Some first_run) 0 0 [] [] true.

Lemma segments_app (from n m : nat) : segments from (n + m) = segments from n ++ segments (from + n) m.
Proof. unfold segments. by rewrite seq_app, bind_app. Qed.

(** The defect is passed at 56 seconds, after four attempts.  The skipped 16
    seconds are not counted as produced, so the finished stream still looks
    short: the last 16 seconds are transcoded, and played, again. *)
Example tail_played_twice :
  (λ r, int_of_f64 r.1) <$> runs (continueShortSession demo start) = [40; 44; 48; 52; 56; 84]
  ∧ (length ∘ segs <$> index (continueShortSession demo start)) = Some 25%nat
  ∧ (demo_ffmpeg 6 (f64_of_Z 84) 21).(cont_end) = Some (text (segments 21 4 ++ [ENDLIST])).
Proof. vm_compute. done. Qed.

(** With nothing beyond the defect the session gives up after sixteen runs. *)
Example gives_up :
  length (runs (continueShortSession
    {| sourceDur := f64_of_Z 100; StartOffsetSec := f64_zero; read_ok := λ _, true; write_ok := λ _, true;
       session_live := λ _, true; HighestSegment := λ _, 9;
       ffmpeg := λ _ _ _, {| ticks := []; cont_end := None; selfExited := true |} |} start)) = 16%nat.
Proof. vm_compute. done. Qed.

(** A run whose continuation is one segment, seen half written and complete. *)
Definition small_run : RunResult := {|
  ticks := [None; Some (text (seg 10)); Some (text (seg 10 ++ seg 11))];
  cont_end := Some (text (seg 10 ++ seg 11 ++ [ENDLIST])); selfExited := true |}.
Definition small : Env := {|
  sourceDur := f64_of_Z 55; StartOffsetSec := f64_zero;
  read_ok := λ _, true; write_ok := λ _, true; session_live := λ _, true;
  HighestSegment := λ _, 9; ffmpeg := λ _ _ _, small_run |}.
Lemma small_grows : run_grows small_run.
Proof.
  unfold run_grows, small_run. cbn [ticks cont_end default app].
  repeat match goal with
  | |- growing _ (Some _ :: _) => split; [vm_compute; eexists; reflexivity|]
  | |- growing _ (None :: _) => change (growing ?a (None :: ?l)) with (growing a l)
  end. done.
Qed.

Lemma continuation_terminated_witness :
  (length (runs (continueShortSession small start)) <= maxContinuations)%nat
  ∧ io_ok (continueShortSession small start) = true
  ∧ ∃ pl, index (continueShortSession small start) = Some pl ∧ Contains pl ENDLIST = true.
Proof.
  destruct (continuation_terminated small start first_run eq_refl eq_refl eq_refl (λ _ _ _, small_grows))
    as (H1 & _ & H3 & _).
  assert (io_ok (continueShortSession small start) = true) as Hio by (vm_compute; reflexivity).
  split; [exact H1|]. split; [exact Hio|exact (H3 Hio)].
Defined.
End Sample.
