(* ===== verification/TransKV.v ===== *)
(** The keyspace transcode sessions live in.

    [internal/transcode/session.go] keeps sessions, workers, queues and counters
    in Valkey as JSON.  Values are taken after decoding.  The server is not part
    of the repository: [KVServer] is any server whose commands have their
    documented effect on the keyspace ([effect]), and [RefKV] is one.

    An operation is a program: a tree of commands, each awaited before the next
    is chosen.  [run] runs one client's program while other clients act between
    its commands and any call may fail, before or after it took effect. *)
From S2P Require Import Prelude.
From S2P Require Import GoStrings.
From S2P Require Import GoFloat.
From S2P Require Import Encoders.
From S2P Require Import PlayDecision.
From S2P Require Import Quality.
From S2P Require Import Tokens.

Local Open Scope Z_scope.

(** * What is stored

    Instants are milliseconds.  The fields of a session and of a job that no
    modelled operation reads or changes are one field, [s_media] and [j_media]. *)
Record Session := mkSession {
  s_ID : string; s_UserID : UUID; s_MediaItemID : UUID; s_WorkerID : string; s_WorkerAddr : string;
  s_Decision : string; s_PositionMS : Z; s_CreatedAt : Z; s_LastActivityAt : Z; s_SegToken : string;
  s_HEVCOutput : bool; s_AV1Output : bool; s_TSSegments : bool; s_FMP4Segments : bool;
  s_ABR : bool; s_ABRRenditions : list Rendition; s_DurationMS : Z; s_FrameRate : float64; s_StartSeg : Z;
  s_ParentID : string; s_Incarnation : Z; s_SelectedRendition : string; s_NeedsToneMap : bool;
  s_AudioPassthroughCodec : string; s_AudioEncodeCodec : string; s_media : string }.
#[global] Instance Session_eta : Eta Session := λ s,
  mkSession (s_ID s) (s_UserID s) (s_MediaItemID s) (s_WorkerID s) (s_WorkerAddr s) (s_Decision s)
    (s_PositionMS s) (s_CreatedAt s) (s_LastActivityAt s) (s_SegToken s) (s_HEVCOutput s)
    (s_AV1Output s) (s_TSSegments s) (s_FMP4Segments s) (s_ABR s) (s_ABRRenditions s)
    (s_DurationMS s) (s_FrameRate s) (s_StartSeg s) (s_ParentID s) (s_Incarnation s) (s_SelectedRendition s)
    (s_NeedsToneMap s) (s_AudioPassthroughCodec s) (s_AudioEncodeCodec s) (s_media s).

(** The zero [time.Time], and [IsZero]. *)
Definition no_time : Z := -62135596800000.
Definition IsZero (t : Z) : bool := t =? no_time.

Record WorkerRegistration := mkWorker {
  w_ID : string; w_Addr : string; w_Capabilities : list string; w_MaxSessions : Z;
  w_ActiveSessions : Z; w_ActiveCostCenti : Z; w_HasGPUTonemap : bool; w_Features : list string }.
#[global] Instance WorkerRegistration_eta : Eta WorkerRegistration := λ w,
  mkWorker (w_ID w) (w_Addr w) (w_Capabilities w) (w_MaxSessions w) (w_ActiveSessions w)
    (w_ActiveCostCenti w) (w_HasGPUTonemap w) (w_Features w).

Record TranscodeJob := mkJob {
  j_SessionID : string; j_Incarnation : Z; j_StartOffsetSec : float64; j_Decision : string;
  j_Encoder : Encoder; j_Width : Z; j_Height : Z; j_BitrateKbps : Z; j_AudioCodec : string;
  j_NeedsToneMap : bool; j_PreferHEVC : bool; j_PreferAV1 : bool; j_ForceFMP4 : bool;
  j_AudioPassthrough : bool; j_BurnSubtitle : option (Z * Z); j_DolbyVision : DVMode;
  j_DVProfileKey : string; j_CostCenti : Z; j_media : string }.
#[global] Instance TranscodeJob_eta : Eta TranscodeJob := λ j,
  mkJob (j_SessionID j) (j_Incarnation j) (j_StartOffsetSec j) (j_Decision j) (j_Encoder j)
    (j_Width j) (j_Height j) (j_BitrateKbps j) (j_AudioCodec j) (j_NeedsToneMap j) (j_PreferHEVC j)
    (j_PreferAV1 j) (j_ForceFMP4 j) (j_AudioPassthrough j) (j_BurnSubtitle j) (j_DolbyVision j)
    (j_DVProfileKey j) (j_CostCenti j) (j_media j).

(** ** Keys and lifetimes *)
Definition sessionTTL : Z := 4 * 60 * 60 * 1000.
Definition heartbeatTTL : Z := 10 * 1000.
Definition workerTTL : Z := 15 * 1000.

Definition sessionIndexKey : string := "transcode:sessions".
Definition workerIndexKey : string := "transcode:workers".
Definition globalQueueKey : string := "transcode:queue".
Definition sessionKey (id : string) : string := "transcode:session:" +:+ id.
Definition heartbeatKey (id : string) : string := "transcode:heartbeat:" +:+ id.
Definition workerKey (id : string) : string := "worker:" +:+ id.
Definition workerQueueKey (addr : string) : string := "transcode:queue:worker:" +:+ addr.
Definition dispatchCounterKey (addr : string) : string := "transcode:dispatched:" +:+ addr.
Definition dispatchCostKey (addr : string) : string := "transcode:dispatched-cost:" +:+ addr.

(** * The keyspace *)
Inductive Val := VSession (s : Session) | VWorker (r : WorkerRegistration) | VText (s : string).

(** String keys with their expiry, how often each was written, sets, lists and
    integer keys. *)
Record KS := mkKS {
  vals : gmap string (Val * Z); touches : gmap string N; sets : gmap string (gset string);
  lists : gmap string (list TranscodeJob); ints : gmap string (Z * option Z) }.
#[global] Instance KS_eta : Eta KS := λ k, mkKS (vals k) (touches k) (sets k) (lists k) (ints k).

Definition get (ks : KS) (now : Z) (k : string) : option Val :=
  match vals ks !! k with Some (v, d) => if now <? d then Some v else None | None => None end.
Definition touch (ks : KS) (k : string) : N := default 0%N (touches ks !! k).
Definition members (ks : KS) (k : string) : gset string := default ∅ (sets ks !! k).
Definition queue (ks : KS) (k : string) : list TranscodeJob := default [] (lists ks !! k).
Definition int_at (ks : KS) (now : Z) (k : string) : option Z :=
  match ints ks !! k with
  | Some (n, Some d) => if now <? d then Some n else None
  | Some (n, None) => Some n
  | None => None
  end.

Definition put (k : string) (v : Val) (d : Z) (ks : KS) : KS :=
  ks <| vals ::= <[k := (v, d)]> |> <| touches ::= <[k := (touch ks k + 1)%N]> |>.
Definition del (k : string) (ks : KS) : KS :=
  ks <| vals ::= delete k |> <| touches ::= <[k := (touch ks k + 1)%N]> |>.

(** ** Commands *)
Inductive cmd :=
| GET (k : string) | SET (k : string) (v : Val) (ttl : Z) | SETNX (k : string) (v : Val) (ttl : Z)
| DEL (k : string)
| WATCH (k : string)                                   (* notes the key's version *)
| EXEC (k : string) (seen : N) (v : Val) (ttl : Z)     (* MULTI, SET, EXEC after a GET that answered *)
| SADD (k x : string) | SREM (k x : string) | SMEMBERS (k : string)
| RPUSH (k : string) (j : TranscodeJob) | BLPOP (ks : list string)
| INCRBY (k : string) (d : Z) | GETINT (k : string) | EXPIRE (k : string) (ttl : Z)
| DELINT (k : string).

Definition raw (c : cmd) : Type :=
  match c with
  | GET _ => option Val
  | SETNX _ _ _ | EXEC _ _ _ _ => bool
  | WATCH _ => N
  | SMEMBERS _ => list string
  | BLPOP _ => option TranscodeJob
  | INCRBY _ _ => Z
  | GETINT _ => option Z
  | _ => unit
  end.

(** The head of the first list that has one. *)
Fixpoint blpop (keys : list string) (ks : KS) : KS * option TranscodeJob :=
  match keys with
  | [] => (ks, None)
  | k :: keys =>
      match queue ks k with
      | j :: js => (ks <| lists ::= <[k := js]> |>, Some j)
      | [] => blpop keys ks
      end
  end.

(** What each command is documented to do.  [EXEC] aborts when the watched key
    was written, deleted or expired in between. *)
Definition effect (c : cmd) (now : Z) (ks : KS) : KS * raw c :=
  match c return KS * raw c with
  | GET k => (ks, get ks now k)
  | SET k v ttl => (put k v (now + ttl) ks, tt)
  | SETNX k v ttl =>
      match get ks now k with Some _ => (ks, false) | None => (put k v (now + ttl) ks, true) end
  | DEL k => (del k ks, tt)
  | WATCH k => (ks, touch ks k)
  | EXEC k seen v ttl =>
      if (touch ks k =? seen)%N && bool_decide (is_Some (get ks now k))
      then (put k v (now + ttl) ks, true) else (ks, false)
  | SADD k x => (ks <| sets ::= <[k := {[x]} ∪ members ks k]> |>, tt)
  | SREM k x => (ks <| sets ::= <[k := members ks k ∖ {[x]}]> |>, tt)
  | SMEMBERS k => (ks, elements (members ks k))
  | RPUSH k j => (ks <| lists ::= <[k := queue ks k ++ [j]]> |>, tt)
  | BLPOP keys => blpop keys ks
  | INCRBY k d =>
      let n := default 0 (int_at ks now k) + d in
      let deadline := match int_at ks now k with
                      | Some _ => match ints ks !! k with Some (_, dl) => dl | None => None end
                      | None => None
                      end in
      (ks <| ints ::= <[k := (n, deadline)]> |>, n)
  | GETINT k => (ks, int_at ks now k)
  | EXPIRE k ttl =>
      (match int_at ks now k with
       | Some n => ks <| ints ::= <[k := (n, Some (now + ttl))]> |>
       | None => ks
       end, tt)
  | DELINT k => (ks <| ints ::= delete k |>, tt)
  end.

(** The order in which [SMEMBERS] lists a set is the server's. *)
Definition answers (c : cmd) : raw c → raw c → Prop :=
  match c return raw c → raw c → Prop with
  | SMEMBERS _ => λ a b, a ≡ₚ b
  | _ => λ a b, a = b
  end.

Class KVServer (S : Type) := {
  keyspace : S → KS;
  perform : ∀ c : cmd, Z → S → S * raw c;
  perform_effect : ∀ c now s,
    keyspace (perform c now s).1 = (effect c now (keyspace s)).1
    ∧ answers c (perform c now s).2 (effect c now (keyspace s)).2 }.
#[global] Hint Mode KVServer ! : typeclass_instances.

(** A server that is its keyspace. *)
#[global] Instance RefKV : KVServer KS.
Proof. refine {| keyspace := id; perform := effect |}. intros [] now s; done. Defined.

(** * Programs *)
Inductive reply (A : Type) := Got (a : A) | Failed.
#[global] Arguments Got {A} _.
#[global] Arguments Failed {A}.

(** Effects outside the store. *)
Inductive action :=
| Kill (sessionID : string)             (* [KillSession] of the embedded worker, if there is one *)
| RemoveAll (dir : string)
| RemoveAllLater (dir : string)         (* after 30 seconds *)
| RevokeToken (token : string)          (* [SegmentTokenManager.Revoke] *)
| StampRestart (childID : string)       (* [abrLastRestart.Store] *)
| Unlock (childID : string).

(** What a handler asks of its process and of the workers. *)
Inductive question :=
| QLock (childID : string)              (* the rung lock is obtained *)
| QLastRestart (childID : string)       (* [abrLastRestart.Load] *)
| QHead (workerAddr dirName ext : string)    (* the encode head *)
| QReady (workerAddr dirName name : string)  (* the file can be served *)
| QCancelled.                           (* the request is cancelled *)
Definition said (q : question) : Type :=
  match q with QLastRestart _ => option Z | QHead _ _ _ => Z | _ => bool end.

Inductive prog (A : Type) :=
| Ret (a : A)
| Do (c : cmd) (k : reply (raw c) → prog A)
| Clock (k : Z → prog A)                        (* [time.Now()] *)
| Act (a : action) (k : prog A)
| Ask (q : question) (k : said q → prog A).
#[global] Arguments Ret {A} _.
#[global] Arguments Do {A} _ _.
#[global] Arguments Clock {A} _.
#[global] Arguments Act {A} _ _.
#[global] Arguments Ask {A} _ _.

Notation "'let!' x := c 'in' k" := (Do c (λ x, k))
  (at level 200, x name, c at level 100, k at level 200, right associativity).

Fixpoint bind {A B} (p : prog A) (f : A → prog B) : prog B :=
  match p with
  | Ret a => f a
  | Do c k => Do c (λ r, bind (k r) f)
  | Clock k => Clock (λ t, bind (k t) f)
  | Act a k => Act a (bind k f)
  | Ask q k => Ask q (λ b, bind (k b) f)
  end.
Notation "'let*' x := p 'in' k" := (bind p (λ x, k))
  (at level 200, x pattern, p at level 100, k at level 200, right associativity).

(** ** Running one program among others *)
(** Every lock is obtained, every file there. *)
Definition yes (q : question) : said q :=
  match q with QLastRestart _ => None | QHead _ _ _ => 0 | QCancelled => false | _ => true end.

Inductive outage := Up | Lost (* the effect, and an error *) | Down (* no effect, an error *).
Record Moment (S : Type) := mkMoment {
  meddle : S → S;         (* what other clients did since the last step *)
  at_ : Z;                (* the instant of the step *)
  outage_ : outage;
  answer_ : ∀ q, said q }.
#[global] Arguments mkMoment {S} _ _ _ _.
#[global] Arguments meddle {S} _.
#[global] Arguments at_ {S} _.
#[global] Arguments outage_ {S} _.
#[global] Arguments answer_ {S} _.

(** What the program did, in order, with the keyspace before and after. *)
Inductive event := ECmd (c : cmd) (now : Z) (pre post : KS) | EAct (a : action).

Section Run.
Context {S : Type} `{KVServer S}.

Definition call (o : outage) (c : cmd) (now : Z) (s : S) : S * reply (raw c) :=
  match o with
  | Up => let r := perform c now s in (r.1, Got r.2)
  | Lost => ((perform c now s).1, Failed)
  | Down => (s, Failed)
  end.

Fixpoint run {A} (p : prog A) (ms : list (Moment S)) (s : S) : option (A * S * list event) :=
  match p, ms with
  | Ret a, _ => Some (a, s, [])
  | _, [] => None
  | Do c k, m :: ms =>
      let s1 := meddle m s in
      let '(s2, r) := call (outage_ m) c (at_ m) s1 in
      match run (k r) ms s2 with
      | Some (a, s3, tr) => Some (a, s3, ECmd c (at_ m) (keyspace s1) (keyspace s2) :: tr)
      | None => None
      end
  | Clock k, m :: ms => run (k (at_ m)) ms (meddle m s)
  | Act a k, m :: ms =>
      match run k ms (meddle m s) with Some (x, s', tr) => Some (x, s', EAct a :: tr) | None => None end
  | Ask q k, m :: ms => run (k (answer_ m q)) ms (meddle m s)
  end.
End Run.

(** * What other clients can do *)
(** A key whose version did not change was not written. *)
Definition rely (ks ks' : KS) : Prop :=
  ∀ k, (touch ks k <= touch ks' k)%N ∧ (touch ks' k = touch ks k → vals ks' !! k = vals ks !! k).

#[global] Instance rely_preorder : PreOrder rely.
Proof.
  split; [intros ks k; by split|]. intros a b c H1 H2 k.
  destruct (H1 k) as [L1 E1], (H2 k) as [L2 E2]. split; [lia|].
  intros E. rewrite E2, E1; [done|lia|lia].
Qed.

Lemma touch_put k v d ks k' : touch (put k v d ks) k' = if decide (k = k') then (touch ks k + 1)%N else touch ks k'.
Proof.
  unfold touch, put. simpl. case_decide; subst; [by rewrite lookup_insert_eq|by rewrite lookup_insert_ne].
Qed.
Lemma touch_del k ks k' : touch (del k ks) k' = if decide (k = k') then (touch ks k + 1)%N else touch ks k'.
Proof.
  unfold touch, del. simpl. case_decide; subst; [by rewrite lookup_insert_eq|by rewrite lookup_insert_ne].
Qed.
Lemma rely_put k v d ks : rely ks (put k v d ks).
Proof.
  intros k'. rewrite touch_put. case_decide; subst; [split; [lia|intros E; lia]|].
  split; [done|]. intros _. simpl. by rewrite lookup_insert_ne.
Qed.
Lemma rely_del k ks : rely ks (del k ks).
Proof.
  intros k'. rewrite touch_del. case_decide; subst; [split; [lia|intros E; lia]|].
  split; [done|]. intros _. simpl. by rewrite lookup_delete_ne.
Qed.
Lemma rely_eq ks ks' : vals ks' = vals ks → touches ks' = touches ks → rely ks ks'.
Proof. intros Hv Ht k. unfold touch. by rewrite Hv, Ht. Qed.

(** Every command of any client is such a change. *)
Lemma effect_rely (c : cmd) (now : Z) (ks : KS) : rely ks (effect c now ks).1.
Proof.
  destruct c; simpl; try (by apply rely_eq); try apply rely_put; try apply rely_del.
  - destruct (get ks now k); [reflexivity|apply rely_put].
  - destruct (_ && _); [apply rely_put|reflexivity].
  - induction ks0 as [|k ks' IH]; simpl; [reflexivity|]. destruct (queue ks k); [apply IH|by apply rely_eq].
  - destruct (int_at ks now k); [by apply rely_eq|reflexivity].
Qed.

Section Rely.
Context {S : Type} `{KVServer S}.

Lemma perform_rely c now (s : S) : rely (keyspace s) (keyspace (perform c now s).1).
Proof. destruct (perform_effect c now s) as [-> _]. apply effect_rely. Qed.

Definition fair (m : Moment S) : Prop := ∀ s, rely (keyspace s) (keyspace (meddle m s)).

(** Commands of other clients, one after the other, are a fair disturbance. *)
Lemma fair_commands (l : list (cmd * Z)) o t b :
  fair (mkMoment (λ s, foldl (λ s (p : cmd * Z), (perform p.1 p.2 s).1) s l) t o b).
Proof.
  unfold fair. simpl. induction l as [|[c now] l IH]; intros s; simpl; [reflexivity|].
  etrans; [apply (perform_rely c now)|apply IH].
Qed.
End Rely.

(** * Inverting runs *)
Section Inversion.
Context {S : Type} `{KVServer S}.

Lemma run_Do {A} c (k : reply (raw c) → prog A) (ms : list (Moment S)) (s : S) a s' tr :
  run (Do c k) ms s = Some (a, s', tr) →
  ∃ m ms' s2 r tr', ms = m :: ms' ∧ call (outage_ m) c (at_ m) (meddle m s) = (s2, r)
    ∧ run (k r) ms' s2 = Some (a, s', tr')
    ∧ tr = ECmd c (at_ m) (keyspace (meddle m s)) (keyspace s2) :: tr'.
Proof.
  destruct ms as [|m ms]; [done|]. simpl. destruct (call _ _ _ _) as [s2 r] eqn:E.
  destruct (run (k r) ms s2) as [[[a1 s1] tr1]|] eqn:E2; [|done].
  intros [= -> -> <-]. by exists m, ms, s2, r, tr1.
Qed.

Lemma run_Clock {A} (k : Z → prog A) (ms : list (Moment S)) (s : S) a s' tr :
  run (Clock k) ms s = Some (a, s', tr) →
  ∃ m ms', ms = m :: ms' ∧ run (k (at_ m)) ms' (meddle m s) = Some (a, s', tr).
Proof. destruct ms as [|m ms]; [done|]. simpl. intros E. by exists m, ms. Qed.

Lemma call_Got o c now (s s2 : S) r :
  call o c now s = (s2, Got r) →
  keyspace s2 = (effect c now (keyspace s)).1 ∧ answers c r (effect c now (keyspace s)).2.
Proof.
  destruct o; simpl; try done. intros [= <- <-]. apply perform_effect.
Qed.
Lemma call_any o c now (s s2 : S) r :
  call o c now s = (s2, r) →
  keyspace s2 = (effect c now (keyspace s)).1 ∨ keyspace s2 = keyspace s.
Proof. destruct o; simpl; intros [= <- <-]; [left|left|by right]; apply perform_effect. Qed.
Lemma call_rely o c now (s s2 : S) r :
  call o c now s = (s2, r) → rely (keyspace s) (keyspace s2).
Proof. intros E. destruct (call_any _ _ _ _ _ _ E) as [->| ->]; [apply effect_rely|reflexivity]. Qed.

(** A command that only reads. *)
Lemma call_reads o c now (s s2 : S) r :
  (effect c now (keyspace s)).1 = keyspace s → call o c now s = (s2, r) → keyspace s2 = keyspace s.
Proof. intros Hc E. destruct (call_any _ _ _ _ _ _ E) as [->| ->]; done. Qed.

(** A session read under a watch is the one found when the version is the same. *)
Lemma rely_get ks ks' k v now now' :
  rely ks ks' → touch ks' k = touch ks k → get ks now k = Some v → is_Some (get ks' now' k) →
  get ks' now' k = Some v.
Proof.
  intros Hr Ht Hg [v' Hg']. destruct (Hr k) as [_ He]. unfold get in *. rewrite (He Ht) in *.
  destruct (vals ks !! k) as [[x d]|]; [|done].
  destruct (now <? d); [|done]. by destruct (now' <? d).
Qed.
End Inversion.

(** A trace without effect on the keyspace. *)
Definition still (ev : event) : Prop :=
  match ev with ECmd _ _ pre post => post = pre | EAct _ => True end.

(** A run of [Ret] is over. *)
Lemma run_Ret {S} `{KVServer S} {A} (a : A) (ms : list (Moment S)) (s : S) a' s' tr :
  run (Ret a) ms s = Some (a', s', tr) → a' = a ∧ s' = s ∧ tr = [].
Proof. destruct ms; by intros [= <- <- <-]. Qed.
Ltac ret_inv H := apply run_Ret in H as (-> & -> & ->); simpl.

(** * Programs that end *)
Fixpoint ends {A} (n : nat) (p : prog A) : Prop :=
  match p, n with
  | Ret _, _ => True
  | _, O => False
  | Do c k, S n => ∀ r, ends n (k r)
  | Clock k, S n => ∀ t, ends n (k t)
  | Act _ k, S n => ends n k
  | Ask _ k, S n => ∀ b, ends n (k b)
  end.

Lemma ends_Ret {A} (n : nat) (a : A) : ends n (Ret a).
Proof. by destruct n. Qed.

Lemma ends_mono {A} (n m : nat) (p : prog A) : (n <= m)%nat → ends n p → ends m p.
Proof.
  revert n m. induction p as [a|c k IH|k IH|a k IH|q k IH]; intros n m Hnm Hn;
    destruct n as [|n], m as [|m]; simpl in *; try done; try lia; intros;
    (eapply IH; [|eauto]; lia).
Qed.

(** A program that ends after [n] steps has a result once it is given them. *)
Lemma ends_run {S} `{KVServer S} {A} (p : prog A) (ms : list (Moment S)) (s : S) :
  ends (length ms) p → ∃ a s' tr, run p ms s = Some (a, s', tr).
Proof.
  revert ms s. induction p as [a|c k IH|k IH|a k IH|q k IH]; intros [|m ms] s He;
    simpl in *; try done; eauto; try (apply IH; exact He || apply He).
  - destruct (call (outage_ m) c (at_ m) (meddle m s)) as [s2 r].
    destruct (IH r ms s2 (He r)) as (a & s' & tr & ->). eauto.
  - destruct (IH ms (meddle m s) He) as (x & s' & tr & ->). eauto.
Qed.

(** * Keeping an invariant of the keyspace

    A program conforms when it issues only allowed commands, given what the
    answers tell; a store whose other clients keep the invariant then keeps it
    throughout. *)
Section Conform.
Variable allowed : cmd → Prop.
Variable learn : ∀ c, raw c → Prop.

Fixpoint conf {A} (Q : A → Prop) (p : prog A) : Prop :=
  match p with
  | Ret a => Q a
  | Do c k => allowed c ∧ (∀ a, learn c a → conf Q (k (Got a))) ∧ conf Q (k Failed)
  | Clock k => ∀ t, conf Q (k t)
  | Act _ k => conf Q k
  | Ask _ k => ∀ b, conf Q (k b)
  end.

Lemma conf_bind {A B} (Q : B → Prop) (p : prog A) (f : A → prog B) :
  conf (λ a, conf Q (f a)) p → conf Q (bind p f).
Proof.
  induction p; simpl; auto. intros (H1 & H2 & H3). auto.
Qed.
Lemma conf_mono {A} (Q R : A → Prop) (p : prog A) : (∀ a, Q a → R a) → conf Q p → conf R p.
Proof. intros HQ. induction p; simpl; auto. intros (H1 & H2 & H3). auto. Qed.

(** A command after which anything may be answered. *)
Lemma conf_any {A} (Q : A → Prop) c (k : reply (raw c) → prog A) :
  allowed c → (∀ r, conf Q (k r)) → conf Q (Do c k).
Proof. intros Ha Hk. by split_and!; auto. Qed.

Context {S : Type} `{KVServer S}.
Variable Inv : KS → Prop.
Hypothesis keeps : ∀ c now ks, Inv ks → allowed c →
  Inv (effect c now ks).1 ∧ ∀ a, answers c a (effect c now ks).2 → learn c a.

Definition event_ok (ev : event) : Prop :=
  match ev with ECmd c _ pre post => allowed c ∧ Inv pre ∧ Inv post | EAct _ => True end.

Lemma conf_run {A} (Q : A → Prop) (p : prog A) (ms : list (Moment S)) (s : S) a s' tr :
  Forall (λ m, ∀ s, Inv (keyspace s) → Inv (keyspace (meddle m s))) ms →
  Inv (keyspace s) → conf Q p → run p ms s = Some (a, s', tr) →
  Q a ∧ Inv (keyspace s') ∧ Forall event_ok tr.
Proof.
  revert ms s a s' tr. induction p as [x|c k IH|k IH|x k IH|q k IH]; intros ms s a s' tr Hf Hi Hc Hr.
  - ret_inv Hr. by split_and!.
  - destruct Hc as (Ha & Hl & Hfail).
    apply run_Do in Hr as (m & ms' & s2 & r & tr' & -> & Hcall & Hr & ->).
    apply Forall_cons in Hf as [Hm Hf]. specialize (Hm s Hi).
    destruct (keeps c (at_ m) _ Hm Ha) as [Hk Hlearn].
    assert (Inv (keyspace s2)) as Hi2. { destruct (call_any _ _ _ _ _ _ Hcall) as [->| ->]; done. }
    assert (conf Q (k r)) as Hc'.
    { destruct r as [x|]; [|done]. apply Hl, Hlearn. by apply call_Got in Hcall as [_ Hans]. }
    destruct (IH r ms' s2 a s' tr' Hf Hi2 Hc' Hr) as (H1 & H2 & H3). split_and!; try done. by constructor.
  - apply run_Clock in Hr as (m & ms' & -> & Hr). apply Forall_cons in Hf as [Hm Hf].
    exact (IH _ _ _ _ _ _ Hf (Hm _ Hi) (Hc _) Hr).
  - destruct ms as [|m ms]; [done|]. simpl in Hr. apply Forall_cons in Hf as [Hm Hf].
    destruct (run k ms (meddle m s)) as [[[b s2] tr2]|] eqn:E; [|done]. injection Hr as <- <- <-.
    destruct (IH ms (meddle m s) b s2 tr2 Hf (Hm s Hi) Hc E) as (H1 & H2 & H3). split_and!; try done. by constructor.
  - destruct ms as [|m ms]; [done|]. apply Forall_cons in Hf as [Hm Hf].
    exact (IH _ _ _ _ _ _ Hf (Hm _ Hi) (Hc _) Hr).
Qed.
End Conform.

(** * Any number of programs at once

    A state is the store and what is left of each client's program; a step
    lets one client go on, at any instant and whatever becomes of its call. *)
Section Pool.
Context {S : Type} `{KVServer S}.

Inductive advance {A} : prog A → S → prog A → S → Prop :=
| adv_do c k o now s s' r : call o c now s = (s', r) → advance (Do c k) s (k r) s'
| adv_clock k t s : advance (Clock k) s (k t) s
| adv_act a k s : advance (Act a k) s k s
| adv_ask q k b s : advance (Ask q k) s (k b) s.

Inductive pool_step {A} : list (prog A) * S → list (prog A) * S → Prop :=
| pool_advance ps i p p' s s' :
    ps !! i = Some p → advance p s p' s' → pool_step (ps, s) (<[i := p']> ps, s').

(** What holds of every client's rest and of the store is kept by every step. *)
Lemma pool_conf {A} (allowed : cmd → Prop) (learn : ∀ c, raw c → Prop) (Inv : KS → Prop)
    (keeps : ∀ c now ks, Inv ks → allowed c →
      Inv (effect c now ks).1 ∧ ∀ a, answers c a (effect c now ks).2 → learn c a)
    (Q : A → Prop) (st st' : list (prog A) * S) :
  rtc pool_step st st' →
  Forall (conf allowed learn Q) st.1 ∧ Inv (keyspace st.2) →
  Forall (conf allowed learn Q) st'.1 ∧ Inv (keyspace st'.2).
Proof.
  induction 1 as [|x y z Hstep _ IH]; [done|]. intros [Hc Hi]. apply IH. clear IH.
  destruct Hstep as [ps i p p' s s' Hp Hadv]. simpl in *.
  pose proof (proj1 (Forall_lookup _ _) Hc i p Hp) as Hcp.
  assert (conf allowed learn Q p' ∧ Inv (keyspace s')) as [H1 H2]; [|split; [by apply Forall_insert|done]].
  destruct Hadv as [c k o now s s' r Hcall| | |]; simpl in Hcp; auto.
  destruct Hcp as (Ha & Hl & Hf). destruct (keeps c now (keyspace s) Hi Ha) as [Hk Hlearn].
  split; [|destruct (call_any _ _ _ _ _ _ Hcall) as [->| ->]; done].
  destruct r as [x|]; [|done]. apply Hl, Hlearn. by apply call_Got in Hcall as [_ Hans].
Qed.

(** A schedule played out: which client goes on, and when; every call goes
    through and every question is answered with [yes]. *)
Definition turn {A} (p : prog A) (now : Z) (s : S) : prog A * S :=
  match p with
  | Ret a => (Ret a, s)
  | Do c k => let r := perform c now s in (k (Got r.2), r.1)
  | Clock k => (k now, s)
  | Act _ k => (k, s)
  | Ask q k => (k (yes q), s)
  end.
Fixpoint play {A} (sched : list (nat * Z)) (ps : list (prog A)) (s : S) : list (prog A) * S :=
  match sched with
  | [] => (ps, s)
  | (i, now) :: sched =>
      match ps !! i with
      | Some p => let r := turn p now s in play sched (<[i := r.1]> ps) r.2
      | None => play sched ps s
      end
  end.

Lemma turn_advance {A} (p : prog A) now s : (∃ a, p = Ret a) ∨ advance p s (turn p now s).1 (turn p now s).2.
Proof.
  destruct p as [a|c k|k|a k|q k]; [left; by exists a|right..]; simpl; try by constructor.
  by apply (adv_do c k Up now).
Qed.
Lemma play_pool {A} sched (ps : list (prog A)) s : rtc pool_step (ps, s) (play sched ps s).
Proof.
  revert ps s. induction sched as [|[i now] sched IH]; intros ps s; simpl; [done|].
  destruct (ps !! i) as [p|] eqn:E; [|apply IH].
  destruct (turn_advance p now s) as [[a ->]|Ha].
  - simpl. rewrite list_insert_id by done. apply IH.
  - eapply rtc_l; [by eapply pool_advance|]. apply IH.
Qed.
End Pool.

(** * A rely/guarantee logic for the programs of [TransKV]: what holds when a
    program returns, and of everything it did, while other clients change the
    keyspace as the rely allows. *)
(** The actions a program may take. *)
Fixpoint acting {A} (T : action → Prop) (p : prog A) : Prop :=
  match p with
  | Ret _ => True
  | Do _ k => ∀ r, acting T (k r)
  | Clock k => ∀ t, acting T (k t)
  | Act a k => T a ∧ acting T k
  | Ask _ k => ∀ b, acting T (k b)
  end.
Lemma acting_bind {A B} T (p : prog A) (f : A → prog B) :
  acting T p → (∀ a, acting T (f a)) → acting T (bind p f).
Proof. induction p; simpl; auto. intros [H1 H2]. auto. Qed.
Lemma acting_all {A} (T : action → Prop) (p : prog A) : (∀ a, T a) → acting T p.
Proof. intros HT. induction p; simpl; auto. Qed.

Section WP.
Variable R : KS → KS → Prop.        (* what others may do between two steps *)
Variable G : event → Prop.          (* what the program does *)
Variable flaky : Prop.              (* calls may fail *)
Variable during : Z → Prop.         (* the instants of its steps *)

Fixpoint wp {A} (p : prog A) (Q : A → KS → Prop) (ks : KS) : Prop :=
  match p with
  | Ret a => Q a ks
  | Do c k => ∀ ks1 now, R ks ks1 → during now →
      let e := effect c now ks1 in
      G (ECmd c now ks1 e.1)
      ∧ (∀ a, answers c a e.2 → wp (k (Got a)) Q e.1)
      ∧ (flaky → G (ECmd c now ks1 ks1) ∧ wp (k Failed) Q e.1 ∧ wp (k Failed) Q ks1)
  | Clock k => ∀ ks1 now, R ks ks1 → during now → wp (k now) Q ks1
  | Act a k => ∀ ks1, R ks ks1 → G (EAct a) ∧ wp k Q ks1
  | Ask q k => ∀ ks1 b, R ks ks1 → wp (k b) Q ks1
  end.

Lemma wp_mono {A} (p : prog A) (P Q : A → KS → Prop) ks :
  (∀ a ks, P a ks → Q a ks) → wp p P ks → wp p Q ks.
Proof.
  intros HPQ. revert ks. induction p as [a|c k IH|k IH|a k IH|q k IH]; intros ks; simpl; auto.
  - intros Hw ks1 now Hr Hd. destruct (Hw ks1 now Hr Hd) as (H1 & H2 & H3).
    split; [done|]. split; [by auto|]. intros Hf. destruct (H3 Hf) as (H4 & H5 & H6). auto.
  - intros Hw ks1 Hr. destruct (Hw ks1 Hr). auto.
Qed.

Lemma wp_bind {A B} (p : prog A) (f : A → prog B) (Q : B → KS → Prop) ks :
  wp p (λ a, wp (f a) Q) ks → wp (bind p f) Q ks.
Proof.
  revert ks. induction p as [a|c k IH|k IH|a k IH|q k IH]; intros ks; simpl; auto.
  - intros Hw ks1 now Hr Hd. destruct (Hw ks1 now Hr Hd) as (H1 & H2 & H3).
    split; [done|]. split; [by auto|]. intros Hf. destruct (H3 Hf) as (H4 & H5 & H6). auto.
  - intros Hw ks1 Hr. destruct (Hw ks1 Hr). auto.
Qed.

(** A command whose failure is no different from its answers. *)
Lemma wp_do {A} c (k : reply (raw c) → prog A) (Q : A → KS → Prop) ks :
  (∀ ks1 now, R ks ks1 → during now →
     G (ECmd c now ks1 (effect c now ks1).1) ∧ (flaky → G (ECmd c now ks1 ks1))
     ∧ (∀ a, answers c a (effect c now ks1).2 → wp (k (Got a)) Q (effect c now ks1).1)
     ∧ (flaky → ∀ ks2, ks2 = (effect c now ks1).1 ∨ ks2 = ks1 → wp (k Failed) Q ks2)) →
  wp (Do c k) Q ks.
Proof.
  intros Hw ks1 now Hr Hd. destruct (Hw ks1 now Hr Hd) as (H1 & H2 & H3 & H4).
  split; [done|]. split; [done|]. intros Hf. split_and!; [by auto|apply H4; auto..].
Qed.

(** ** Programs that keep an invariant *)
Section Frame.
Variable allowed : cmd → Prop.
Variable learn : ∀ c, raw c → Prop.
Variable Inv : KS → Prop.
Hypothesis stable : ∀ ks ks', R ks ks' → Inv ks → Inv ks'.
Hypothesis keeps : ∀ c now ks, during now → Inv ks → allowed c →
  Inv (effect c now ks).1 ∧ ∀ a, answers c a (effect c now ks).2 → learn c a.
Hypothesis guarded : ∀ c now pre post, allowed c → Inv pre → G (ECmd c now pre post).

Lemma wp_conf {A} (Q : A → Prop) (p : prog A) ks :
  acting (λ a, G (EAct a)) p → conf allowed learn Q p → Inv ks → wp p (λ a ks, Q a ∧ Inv ks) ks.
Proof.
  revert ks. induction p as [a|c k IH|k IH|a k IH|q k IH]; intros ks Ht Hc Hi; simpl in *.
  - done.
  - destruct Hc as (Ha & Hl & Hf). intros ks1 now Hr Hd. pose proof (stable _ _ Hr Hi) as Hi1.
    destruct (keeps c now ks1 Hd Hi1 Ha) as [Hk Hlearn].
    split; [by auto|]. split; [intros a Hans; apply IH; auto|].
    intros _. split; [by auto|]. split; apply IH; auto.
  - intros ks1 now Hr _. apply IH; eauto.
  - destruct Ht as [Ht1 Ht2]. intros ks1 Hr. split; [done|]. apply IH; eauto.
  - intros ks1 b Hr. apply IH; eauto.
Qed.
End Frame.

(** ** Soundness *)
Context {S : Type} `{KVServer S}.

Definition abides (m : Moment S) : Prop :=
  (∀ s, R (keyspace s) (keyspace (meddle m s))) ∧ (outage_ m = Up ∨ flaky) ∧ during (at_ m).

Lemma wp_run {A} (p : prog A) (Q : A → KS → Prop) ms (s : S) a s' tr :
  Forall abides ms → wp p Q (keyspace s) → run p ms s = Some (a, s', tr) →
  Q a (keyspace s') ∧ Forall G tr.
Proof.
  revert ms s a s' tr. induction p as [x|c k IH|k IH|x k IH|q k IH]; intros ms s a s' tr Hf Hw Hr.
  - ret_inv Hr. split; [exact Hw|constructor].
  - apply run_Do in Hr as (m & ms' & s2 & r & tr' & -> & Hcall & Hr & ->).
    apply Forall_cons in Hf as [(Hm & Ho & Hd) Hf].
    destruct (Hw _ _ (Hm s) Hd) as (HG & Hgot & Hfail).
    assert (G (ECmd c (at_ m) (keyspace (meddle m s)) (keyspace s2)) ∧ wp (k r) Q (keyspace s2)) as [HG2 Hw2].
    { destruct r as [x|].
      - apply call_Got in Hcall as [-> Hans]. split; [exact HG|by apply Hgot].
      - assert flaky as Hfl. { destruct Ho as [Ho|]; [|done]. rewrite Ho in Hcall. by injection Hcall. }
        destruct (Hfail Hfl) as (H1 & H2 & H3). destruct (call_any _ _ _ _ _ _ Hcall) as [->| ->]; done. }
    destruct (IH r ms' s2 a s' tr' Hf Hw2 Hr) as [HQ Htr]. split; [done|]. by constructor.
  - apply run_Clock in Hr as (m & ms' & -> & Hr). apply Forall_cons in Hf as [(Hm & Ho & Hd) Hf].
    exact (IH _ _ _ _ _ _ Hf (Hw _ _ (Hm s) Hd) Hr).
  - destruct ms as [|m ms]; [done|]. simpl in Hr. apply Forall_cons in Hf as [(Hm & Ho & Hd) Hf].
    destruct (run k ms (meddle m s)) as [[[b s2] tr2]|] eqn:E; [|done]. injection Hr as <- <- <-.
    destruct (Hw _ (Hm s)) as [HG Hw']. destruct (IH ms (meddle m s) b s2 tr2 Hf Hw' E) as [HQ Htr].
    split; [done|]. by constructor.
  - destruct ms as [|m ms]; [done|]. apply Forall_cons in Hf as [(Hm & Ho & Hd) Hf].
    exact (IH _ _ _ _ _ _ Hf (Hw _ _ (Hm s)) Hr).
Qed.
End WP.
