(* ===== verification/TransStore.v ===== *)
(** The transcode session store: [SessionStore] of
    [internal/transcode/session.go], as programs over [TransKV]. *)
From S2P Require Import Prelude.
From S2P Require Import GoStrings.
From S2P Require Import Tokens.
From S2P Require Import TransKV.

Local Open Scope Z_scope.

(** * Reading and writing whole sessions *)
(** An outcome: done, [ErrNotFound], any other error. *)
Inductive outcome (A : Type) := Fine (a : A) | NotFound | Broken.
#[global] Arguments Fine {A} _.
#[global] Arguments NotFound {A}.
#[global] Arguments Broken {A}.

(** [Create]: the error of [SAdd] is not looked at. *)
Definition Create (sess : Session) : prog bool :=
  let! r := SET (sessionKey (s_ID sess)) (VSession sess) sessionTTL in
  match r with
  | Failed => Ret false
  | Got _ => let! _ := SADD sessionIndexKey (s_ID sess) in Ret true
  end.

(** The reply to a GET of a session, decoded. *)
Definition decode (r : reply (option Val)) : outcome Session :=
  match r with
  | Got (Some (VSession s)) => Fine s
  | Got None => NotFound
  | _ => Broken
  end.

(** [Get] *)
Definition Get (id : string) : prog (outcome Session) :=
  let! r := GET (sessionKey id) in Ret (decode r).

(** [Delete] *)
Definition Delete (id : string) : prog unit :=
  let! _ := SREM sessionIndexKey id in
  let! _ := DEL (sessionKey id) in Ret tt.

(** The pipeline of GETs over the index. *)
Fixpoint get_all (ids : list string) : prog (list (string * reply (option Val))) :=
  match ids with
  | [] => Ret []
  | id :: ids =>
      let! r := GET (sessionKey id) in
      let* rest := get_all ids in Ret ((id, r) :: rest)
  end.

(** The error of [pipe.Exec] is that of the first command without an answer; a
    missing key counts as one, and is let pass. *)
Definition answered (r : reply (option Val)) : bool := match r with Got (Some _) => true | _ => false end.
Definition pipe_failed (rs : list (string * reply (option Val))) : bool :=
  match find_first (λ p : string * reply (option Val), negb (answered p.2)) rs with
  | Some (_, Failed) => true
  | _ => false
  end.

(** The loop over the replies: entries without an answer leave the index. *)
Fixpoint sweep (rs : list (string * reply (option Val))) : prog (list (string * Session)) :=
  match rs with
  | [] => Ret []
  | (id, Got (Some (VSession s))) :: rs => let* rest := sweep rs in Ret ((id, s) :: rest)
  | (_, Got (Some _)) :: rs => sweep rs
  | (id, _) :: rs => let! _ := SREM sessionIndexKey id in sweep rs
  end.

(** The index and its sessions; [None] is an error. *)
Definition scan : prog (option (list (string * reply (option Val)))) :=
  let! r := SMEMBERS sessionIndexKey in
  match r with
  | Failed => Ret None
  | Got ids => let* rs := get_all ids in Ret (if pipe_failed rs then None else Some rs)
  end.

(** [List] *)
Definition List_ : prog (option (list Session)) :=
  let* rs := scan in
  match rs with
  | None => Ret None
  | Some rs => let* l := sweep rs in Ret (Some (map snd l))
  end.

(** [ListByUserItem] *)
Definition ListByUserItem (user item : UUID) : prog (option (list Session)) :=
  let* l := List_ in
  Ret (option_map (List.filter (λ s, N.eqb (s_UserID s) user && N.eqb (s_MediaItemID s) item)) l).

(** [ActiveSessionWindow] *)
Definition ActiveSessionWindow : Z := 2 * 60 * 1000.
Definition active_at (s : Session) : Z :=
  if IsZero (s_LastActivityAt s) then s_CreatedAt s else s_LastActivityAt s.
(** A session that [CountByUser] counts. *)
Definition counted (now : Z) (user : UUID) (s : Session) : bool :=
  N.eqb (s_UserID s) user && String.eqb (s_ParentID s) "" && (now - active_at s <=? ActiveSessionWindow).

(** [CountByUser] *)
Definition CountByUser (user : UUID) : prog (option Z) :=
  let* l := List_ in
  match l with
  | None => Ret None
  | Some l => Clock (λ now, Ret (Some (Z.of_nat (length (List.filter (counted now user) l)))))
  end.

(** ** The per-user cap *)
Inductive created := Created | AtCap | CreateFailed | Cancelled.
Definition capLockKey (user : string) : string := "transcode:caplock:" +:+ user.
Definition capLockTTL : Z := 5 * 1000.

(** [for i := 0; i < 40; i++]: the lock, or the reason to go on without it. *)
Fixpoint cap_lock (n : nat) (key : string) : prog bool :=
  match n with
  | O => Ret false
  | S n =>
      let! r := SETNX key (VText "1") capLockTTL in
      match r with
      | Failed => Ret false
      | Got true => Ret true
      | Got false => cap_lock n key
      end
  end.

(** [CreateWithUserCap]; [user] is the printed user ID.  The caller's context is
    not cancelled meanwhile. *)
Definition CreateWithUserCap (user : string) (sess : Session) (maxPerUser : Z) : prog created :=
  let create := let* ok := Create sess in Ret (if ok : bool then Created else CreateFailed) in
  if maxPerUser <=? 0 then create
  else
    let key := capLockKey user in
    let* acquired := cap_lock 40 key in
    if acquired : bool then
      let* active := CountByUser (s_UserID sess) in
      let* r := if match active with Some n => maxPerUser <=? n | None => false end
                then Ret AtCap else create in
      let! _ := DEL key in Ret r
    else create.

(** * Changing a session in place *)
(** The changes [mutateSession] is called with. *)
Inductive mutation :=
| TouchActivity
| UpdatePosition (user item : UUID) (positionMS : Z)
| SetWorkerInfo (workerID workerAddr : string) (hevcOutput av1Output : bool)
| SetSelectedRendition (rungLabel : string).

(** The function passed, at the instant it reads; [None] is
    [errSkipSessionMutation]. *)
Definition apply (m : mutation) (now : Z) (s : Session) : option Session :=
  match m with
  | TouchActivity => Some (s <| s_LastActivityAt := now |>)
  | UpdatePosition user item pos =>
      if negb (N.eqb (s_MediaItemID s) item) || negb (N.eqb (s_UserID s) user) then None
      else Some (s <| s_PositionMS := pos |> <| s_LastActivityAt := now |>)
  | SetWorkerInfo id addr hevc av1 =>
      Some (s <| s_WorkerID := id |> <| s_WorkerAddr := addr |>
              <| s_HEVCOutput := hevc |> <| s_AV1Output := av1 |>)
  | SetSelectedRendition label =>
      if String.eqb (s_SelectedRendition s) label && (now - s_LastActivityAt s <? 2000) then None
      else Some (s <| s_SelectedRendition := label |> <| s_LastActivityAt := now |>)
  end.

Inductive mutated := Written | Skipped | Gone | MutateError | Contended.

Definition maxAttempts : nat := 5.

(** One transaction: WATCH, GET, the change, EXEC; a lost one is retried. *)
Fixpoint transact (n : nat) (id : string) (m : mutation) : prog mutated :=
  match n with
  | O => Ret Contended
  | S n =>
      let! w := WATCH (sessionKey id) in
      match w with
      | Failed => Ret MutateError
      | Got seen =>
          let! r := GET (sessionKey id) in
          match decode r with
          | NotFound => Ret Gone
          | Broken => Ret MutateError
          | Fine s =>
              Clock (λ now,
                match apply m now s with
                | None => Ret Skipped
                | Some s' =>
                    let! x := EXEC (sessionKey id) seen (VSession s') sessionTTL in
                    match x with
                    | Failed => Ret MutateError
                    | Got true => Ret Written
                    | Got false => transact n id m
                    end
                end)
          end
      end
  end.

(** [mutateSession] *)
Definition mutateSession (id : string) (m : mutation) : prog mutated := transact maxAttempts id m.

(** * Operations by media item *)
(** [DeleteByMedia]: the sessions deleted; [None] is an error. *)
Fixpoint delete_matching (user item : UUID) (rs : list (string * reply (option Val))) : prog (list Session) :=
  match rs with
  | [] => Ret []
  | (id, Got (Some (VSession s))) :: rs =>
      if N.eqb (s_MediaItemID s) item && N.eqb (s_UserID s) user then
        let! _ := SREM sessionIndexKey id in
        let! _ := DEL (sessionKey id) in
        let* rest := delete_matching user item rs in Ret (s :: rest)
      else delete_matching user item rs
  | (_, Got (Some _)) :: rs => delete_matching user item rs
  | (id, _) :: rs => let! _ := SREM sessionIndexKey id in delete_matching user item rs
  end.
Definition DeleteByMedia (user item : UUID) : prog (option (list Session)) :=
  let* rs := scan in
  match rs with
  | None => Ret None
  | Some rs => let* l := delete_matching user item rs in Ret (Some l)
  end.

(** [UpdatePositionByMedia]: the first session of the item is changed. *)
Fixpoint position_first (user item : UUID) (pos : Z) (rs : list (string * reply (option Val))) : prog unit :=
  match rs with
  | [] => Ret tt
  | (id, Got (Some (VSession s))) :: rs =>
      if negb (N.eqb (s_MediaItemID s) item) || negb (N.eqb (s_UserID s) user)
      then position_first user item pos rs
      else let* _ := mutateSession id (UpdatePosition user item pos) in Ret tt
  | (_, Got (Some _)) :: rs => position_first user item pos rs
  | (id, _) :: rs => let! _ := SREM sessionIndexKey id in position_first user item pos rs
  end.
Definition UpdatePositionByMedia (user item : UUID) (pos : Z) : prog bool :=
  let* rs := scan in
  match rs with
  | None => Ret false
  | Some rs => let* _ := position_first user item pos rs in Ret true
  end.

(** * Heartbeats *)
(** [SetHeartbeat] *)
Definition SetHeartbeat (id : string) : prog bool :=
  let! r := SET (heartbeatKey id) (VText "1") heartbeatTTL in
  Ret match r with Got _ => true | Failed => false end.

(** [IsAlive]: [None] is an error. *)
Definition IsAlive (id : string) : prog (option bool) :=
  let! r := GET (heartbeatKey id) in
  Ret match r with Got (Some _) => Some true | Got None => Some false | Failed => None end.

(** * A change is one atomic step *)
Section Atomic.
Context {S : Type} `{KVServer S}.

(** The event replaces the session [id] holds at that instant by the change
    applied to it, and renews its lifetime. *)
Definition changes (id : string) (m : mutation) (ev : event) : Prop :=
  ∃ seen now pre s t s', apply m t s = Some s'
    ∧ get pre now (sessionKey id) = Some (VSession s)
    ∧ ev = ECmd (EXEC (sessionKey id) seen (VSession s') sessionTTL) now pre
             (put (sessionKey id) (VSession s') (now + sessionTTL) pre).

Definition one_change (id : string) (m : mutation) (tr : list event) : Prop :=
  ∃ tr1 ev, tr = tr1 ++ [ev] ∧ Forall still tr1 ∧ changes id m ev.

Definition accounted (id : string) (m : mutation) (r : mutated) (tr : list event) : Prop :=
  match r with
  | Written => one_change id m tr
  | MutateError => Forall still tr ∨ one_change id m tr
  | Skipped | Gone | Contended => Forall still tr
  end.

Lemma accounted_cons id m r ev tr : still ev → accounted id m r tr → accounted id m r (ev :: tr).
Proof.
  intros He. assert (∀ tr, one_change id m tr → one_change id m (ev :: tr)) as Ho.
  { intros tr' (tr1 & x & -> & H1 & H2). exists (ev :: tr1), x.
    split; [done|]. split; [by constructor|done]. }
  destruct r; simpl; auto; [by constructor..|]. intros [Hs|Hs]; [left; by constructor|right; auto].
Qed.

Lemma decode_Fine r s : decode r = Fine s → r = Got (Some (VSession s)).
Proof. destruct r as [[[]|]|]; simpl; try done. by intros [= ->]. Qed.

Lemma EXEC_effect k seen v ttl now ks :
  (effect (EXEC k seen v ttl) now ks = (put k v (now + ttl) ks, true)
   ∧ touch ks k = seen ∧ is_Some (get ks now k))
  ∨ effect (EXEC k seen v ttl) now ks = (ks, false).
Proof.
  simpl. destruct (N.eqb_spec (touch ks k) seen) as [E|E]; simpl; [|by right].
  case_bool_decide; [by left|by right].
Qed.

(** The session read under the watch is the one [EXEC] would replace. *)
Lemma seen_current id seen x (m2 m3 m4 : Moment S) (s1 s2 : S) :
  fair m2 → fair m3 → fair m4 →
  touch (keyspace s1) (sessionKey id) = seen →
  keyspace s2 = keyspace (meddle m2 s1) →
  get (keyspace (meddle m2 s1)) (at_ m2) (sessionKey id) = Some (VSession x) →
  let ks := keyspace (meddle m4 (meddle m3 s2)) in
  touch ks (sessionKey id) = seen → is_Some (get ks (at_ m4) (sessionKey id)) →
  get ks (at_ m4) (sessionKey id) = Some (VSession x).
Proof.
  intros F2 F3 F4 Hseen Hs2 Hget ks Ht Hl. set (k2 := keyspace (meddle m2 s1)) in *.
  assert (rely k2 ks) as R. { rewrite <- Hs2. etrans; [apply F3|apply F4]. }
  assert (seen <= touch k2 (sessionKey id))%N as L. { rewrite <- Hseen. apply F2. }
  destruct (R (sessionKey id)) as [L2 _].
  apply (rely_get k2 ks _ _ (at_ m2)); [done|lia|by symmetry|done].
Qed.

(** What one [EXEC] amounts to. *)
Lemma exec_accounted id m seen x x' t o now (s s4 : S) e :
  let k := sessionKey id in let ks := keyspace s in
  let ev := ECmd (EXEC k seen (VSession x') sessionTTL) now ks (keyspace s4) in
  call o (EXEC k seen (VSession x') sessionTTL) now s = (s4, e) → apply m t x = Some x' →
  (touch ks k = seen → is_Some (get ks now k) → get ks now k = Some (VSession x)) →
  match e with
  | Got true => one_change id m [ev]
  | Got false => still ev
  | Failed => still ev ∨ one_change id m [ev]
  end.
Proof.
  intros k ks ev Hc Ha Hcur.
  assert (keyspace s4 = put k (VSession x') (now + sessionTTL) ks → touch ks k = seen →
    is_Some (get ks now k) → one_change id m [ev]) as Hone.
  { intros Hk Ht Hl. exists [], ev. split; [done|]. split; [constructor|].
    unfold ev. rewrite Hk. by exists seen, now, ks, x, t, x'; auto. }
  destruct (EXEC_effect k seen (VSession x') sessionTTL now ks) as [(E & Ht & Hl)|E]; unfold k, ks in E;
    (destruct e as [b|]; [apply call_Got in Hc as [Hk Hb]|apply call_any in Hc as [Hk|Hk]]);
    unfold k in Hk; try (rewrite E in Hk; cbn [fst] in Hk);
    try (unfold k in Hb; rewrite E in Hb; cbn [snd answers] in Hb; subst b).
  - by apply Hone.
  - right. by apply Hone.
  - by left.
  - exact Hk.
  - by left.
  - by left.
Qed.

Lemma transact_accounted n id m ms (s : S) r s' tr :
  Forall fair ms → run (transact n id m) ms s = Some (r, s', tr) → accounted id m r tr.
Proof.
  revert ms s r s' tr. induction n as [|n IH]; intros ms s r s' tr Hf Hr; cbn [transact] in Hr.
  { ret_inv Hr; constructor. }
  apply run_Do in Hr as (m1 & ms1 & s1 & w & tr1 & -> & Hc1 & Hr & ->).
  apply Forall_cons in Hf as [_ Hf].
  pose proof (call_reads _ (WATCH (sessionKey id)) _ _ _ _ eq_refl Hc1) as Hs1.
  apply accounted_cons; [exact Hs1|].
  destruct w as [seen|]; [|ret_inv Hr; by repeat constructor].
  apply call_Got in Hc1 as [_ Hseen]. simpl in Hseen. rewrite <- Hs1 in Hseen.
  apply run_Do in Hr as (m2 & ms2 & s2 & g & tr2 & -> & Hc2 & Hr & ->).
  apply Forall_cons in Hf as [Hf2 Hf].
  pose proof (call_reads _ (GET (sessionKey id)) _ _ _ _ eq_refl Hc2) as Hs2.
  apply accounted_cons; [exact Hs2|].
  destruct (decode g) as [x| |] eqn:Hg; [|ret_inv Hr; constructor|ret_inv Hr; by repeat constructor].
  apply decode_Fine in Hg as ->. apply call_Got in Hc2 as [_ Hget]. simpl in Hget.
  apply run_Clock in Hr as (m3 & ms3 & -> & Hr). apply Forall_cons in Hf as [Hf3 Hf].
  destruct (apply m (at_ m3) x) as [x'|] eqn:Ha; [|ret_inv Hr; constructor].
  apply run_Do in Hr as (m4 & ms4 & s4 & e & tr4 & -> & Hc4 & Hr & ->).
  apply Forall_cons in Hf as [Hf4 Hf].
  pose proof (exec_accounted id m seen x x' (at_ m3) _ _ _ _ _ Hc4 Ha
    (seen_current id seen x m2 m3 m4 s1 s2 Hf2 Hf3 Hf4 (eq_sym Hseen) Hs2 (eq_sym Hget))) as He.
  destruct e as [[|]|].
  - by ret_inv Hr.
  - apply accounted_cons; [exact He|]. by eapply IH.
  - ret_inv Hr. destruct He as [He|He]; [left; by repeat constructor|by right].
Qed.

Lemma transact_ends n id m : ends (4 * n) (transact n id m).
Proof.
  induction n as [|n IH]; [done|]. replace (4 * Datatypes.S n)%nat with (4 + 4 * n)%nat by lia.
  cbn [transact ends Nat.add]. intros [w|]; [|done]. intros g. destruct (decode g) as [x| |]; [|done..].
  intros t. destruct (apply m t x); [|done]. intros [[|]|]; [apply ends_Ret|exact IH|apply ends_Ret].
Qed.

(** Nobody else writes the key, and the calls go through. *)
Definition alone (k : string) (d : Z) (m : Moment S) : Prop :=
  outage_ m = Up ∧ at_ m < d
  ∧ ∀ s, touch (keyspace (meddle m s)) k = touch (keyspace s) k
         ∧ vals (keyspace (meddle m s)) !! k = vals (keyspace s) !! k.

Lemma transact_alone n id m ms (s : S) x d r s' tr :
  vals (keyspace s) !! sessionKey id = Some (VSession x, d) →
  Forall (alone (sessionKey id) d) ms →
  run (transact (Datatypes.S n) id m) ms s = Some (r, s', tr) → r = Written ∨ r = Skipped.
Proof.
  intros Hv Hf Hr. cbn [transact] in Hr.
  apply run_Do in Hr as (m1 & ms1 & s1 & w & tr1 & -> & Hc1 & Hr & ->).
  apply Forall_cons in Hf as [(U1 & D1 & A1) Hf]. rewrite U1 in Hc1.
  pose proof (call_reads _ (WATCH (sessionKey id)) _ _ _ _ eq_refl Hc1) as Hs1.
  destruct w as [seen|]; [|done]. apply call_Got in Hc1 as [_ Hseen]. simpl in Hseen.
  apply run_Do in Hr as (m2 & ms2 & s2 & g & tr2 & -> & Hc2 & Hr & ->).
  apply Forall_cons in Hf as [(U2 & D2 & A2) Hf]. rewrite U2 in Hc2.
  pose proof (call_reads _ (GET (sessionKey id)) _ _ _ _ eq_refl Hc2) as Hs2.
  destruct g as [g|]; [|done]. apply call_Got in Hc2 as [_ Hget]. simpl in Hget.
  assert (vals (keyspace s2) !! sessionKey id = Some (VSession x, d)) as Hv2.
  { rewrite Hs2, (proj2 (A2 _)), Hs1, (proj2 (A1 _)). exact Hv. }
  assert (touch (keyspace s2) (sessionKey id) = seen) as Ht2.
  { rewrite Hs2, (proj1 (A2 _)), Hs1. by symmetry. }
  assert (g = Some (VSession x)) as ->.
  { rewrite Hget. unfold get. rewrite <- Hs2, Hv2. by destruct (Z.ltb_spec (at_ m2) d); [|lia]. }
  cbn [decode] in Hr. apply run_Clock in Hr as (m3 & ms3 & -> & Hr).
  apply Forall_cons in Hf as [(_ & _ & A3) Hf].
  destruct (apply m (at_ m3) x) as [x'|]; [|ret_inv Hr; by right].
  apply run_Do in Hr as (m4 & ms4 & s4 & e & tr4 & -> & Hc4 & Hr & ->).
  apply Forall_cons in Hf as [(U4 & D4 & A4) Hf]. rewrite U4 in Hc4.
  destruct e as [b|]; [|done]. apply call_Got in Hc4 as [_ Hb].
  set (ks := keyspace (meddle m4 (meddle m3 s2))) in *.
  assert (touch ks (sessionKey id) = seen) as Ht4. { unfold ks. by rewrite (proj1 (A4 _)), (proj1 (A3 _)). }
  assert (is_Some (get ks (at_ m4) (sessionKey id))) as Hl4.
  { unfold get, ks. rewrite (proj2 (A4 _)), (proj2 (A3 _)), Hv2. by destruct (Z.ltb_spec (at_ m4) d); [|lia]. }
  simpl in Hb. rewrite Ht4, N.eqb_refl, bool_decide_true in Hb by done. simpl in Hb. subst b.
  ret_inv Hr. by left.
Qed.
End Atomic.

(** C25: However other clients act between its commands and whatever call is
    lost, changing a session in place is one atomic step: the operation writes at
    most once, what it writes is the change applied to the very session the key
    holds at that instant - never to one read earlier, and never to one that is
    gone - and its answer says whether it wrote, unless a call got no answer.  It
    ends within 20 commands, and when nobody else writes the session it does not
    lose its transaction. *)
Theorem mutation_atomic {S} `{KVServer S} (id : string) (m : mutation) (ms : list (Moment S)) (s : S) :
  Forall fair ms → (20 <= length ms)%nat →
  ∃ r s' tr, run (mutateSession id m) ms s = Some (r, s', tr) ∧ accounted id m r tr
    ∧ ∀ x d, vals (keyspace s) !! sessionKey id = Some (VSession x, d) →
        Forall (alone (sessionKey id) d) ms → r = Written ∨ r = Skipped.
Proof.
  intros Hf Hl.
  destruct (ends_run (mutateSession id m) ms s) as (r & s' & tr & Hr).
  { apply (ends_mono 20); [done|]. apply (transact_ends maxAttempts). }
  exists r, s', tr. split; [exact Hr|]. split; [exact (transact_accounted maxAttempts id m ms s r s' tr Hf Hr)|].
  intros x d Hv Ha. exact (transact_alone 4 id m ms s x d r s' tr Hv Ha Hr).
Qed.

(** * A touch races the worker's stamp *)
Module Sample.
Definition s1 : Session := {|
  s_ID := "s1"; s_UserID := 7%N; s_MediaItemID := 3%N; s_WorkerID := ""; s_WorkerAddr := "";
  s_Decision := "transcode"; s_PositionMS := 0; s_CreatedAt := 1000; s_LastActivityAt := no_time;
  s_SegToken := "tok"; s_HEVCOutput := true; s_AV1Output := false; s_TSSegments := false;
  s_FMP4Segments := false; s_ABR := false; s_ABRRenditions := []; s_DurationMS := 0;
  s_FrameRate := GoFloat.f64_zero;
  s_StartSeg := 0; s_ParentID := ""; s_Incarnation := 0; s_SelectedRendition := "";
  s_NeedsToneMap := false; s_AudioPassthroughCodec := ""; s_AudioEncodeCodec := ""; s_media := "" |}.
Definition ks1 : KS := mkKS {[ sessionKey "s1" := (VSession s1, 100000) ]} ∅ {[ sessionIndexKey := {["s1"]} ]} ∅ ∅.

(** The worker's stamp, as another client's commands. *)
Definition stamped : Session := s1 <| s_WorkerID := "w" |> <| s_WorkerAddr := "10.0.0.2:9000" |>.
Definition stamp (ks : KS) : KS :=
  foldl (λ s (p : cmd * Z), (perform p.1 p.2 s).1) ks
    [(EXEC (sessionKey "s1") 0 (VSession stamped) sessionTTL, 2000)].
Definition quiet (t : Z) : Moment KS := mkMoment (λ s, s) t Up yes.
(** It lands between the touch's read and its write. *)
Definition race : list (Moment KS) :=
  [quiet 2000; quiet 2000; mkMoment stamp 2001 Up yes] ++ replicate 17 (quiet 2002).

(** The touch is retried on the stamped session: both changes survive. *)
Example both_survive :
  match run (mutateSession "s1" TouchActivity) race ks1 with
  | Some (r, ks, _) => r = Written
      ∧ get ks 3000 (sessionKey "s1") = Some (VSession (stamped <| s_LastActivityAt := 2002 |>))
  | None => False
  end.
Proof. vm_compute. done. Qed.

Lemma quiet_fair (t : Z) : fair (quiet t).
Proof. intros s. change (rely (keyspace s) (keyspace s)). reflexivity. Qed.
Lemma race_fair : Forall fair race.
Proof.
  unfold race. apply Forall_app. split; [|apply Forall_replicate, quiet_fair].
  apply Forall_cons. split; [apply quiet_fair|]. apply Forall_cons. split; [apply quiet_fair|].
  apply Forall_singleton.
  exact (fair_commands [(EXEC (sessionKey "s1") 0 (VSession stamped) sessionTTL, 2000)] Up 2001 yes).
Qed.
Lemma mutation_atomic_witness :
  ∃ r ks tr, run (mutateSession "s1" TouchActivity) race ks1 = Some (r, ks, tr)
    ∧ accounted "s1" TouchActivity r tr.
Proof.
  destruct (mutation_atomic "s1" TouchActivity race ks1 race_fair ltac:(simpl; lia)) as (r & ks & tr & H1 & H2 & _).
  exists r, ks, tr. split; [exact H1|exact H2].
Defined.

(** A listing forgets a live session: an expired entry is read first, so the
    pipeline's error passes for a missing key, and the reply of the other is
    lost. *)
Definition ks2 : KS := ks1 <| sets := {[ sessionIndexKey := {["gone"; "s1"]} ]} |>.
Definition lost_second : list (Moment KS) :=
  [quiet 2000; quiet 2000; mkMoment (λ s, s) 2000 Lost yes] ++ replicate 5 (quiet 2001).
Example listing_forgets_live_session :
  match run List_ lost_second ks2 with
  | Some (l, ks, _) => l = Some []
      ∧ get ks 3000 (sessionKey "s1") = Some (VSession s1)
      ∧ members ks sessionIndexKey = ∅
  | None => False
  end.
Proof. vm_compute. done. Qed.
End Sample.
