(* ===== verification/Dispatch.v ===== *)
(** Dispatching transcode jobs to workers: the registry, the queues and the
    choice of a worker, of [internal/transcode/session.go]. *)
From S2P Require Import Prelude.
From S2P Require Import GoStrings.
From S2P Require Import GoFloat.
From S2P Require Import Media.
From S2P Require Import Encoders.
From S2P Require Import PlayDecision.
From S2P Require Import Quality.
From S2P Require Import TransKV.

Local Open Scope Z_scope.

(** * What a job needs *)
Definition WorkerFeatureBurnSubtitles : string := "burn_in_subtitles".
Definition WorkerFeatureAudioPassthrough : string := "audio_passthrough".
Definition WorkerFeatureDolbyVision : string := "dolby_vision".
Definition WorkerFeatureDVConvert : string := "dolby_vision_p7_to_p81".
Definition WorkerFeatureDVTonemap : string := "dolby_vision_p5_tonemap".
Definition WorkerFeatureAudioDolbyEncode : string := "audio_dolby_encode".

Record JobNeeds := mkNeeds { ToneMap : bool; PreferAV1 : bool; PreferHEVC : bool; Features : list string }.

(** [ReshapesDolbyVision] *)
Definition ReshapesDolbyVision (j : TranscodeJob) : bool :=
  String.eqb (j_DVProfileKey j) "5" && bool_decide (j_DolbyVision j = DVNone) && j_NeedsToneMap j.

Definition feature_if (b : bool) (f : string) : list string := if b then [f] else [].

(** [jobNeeds] *)
Definition jobNeeds (j : TranscodeJob) : JobNeeds :=
  mkNeeds (j_NeedsToneMap j) (j_PreferAV1 j) (j_PreferHEVC j)
    (feature_if (bool_decide (is_Some (j_BurnSubtitle j))) WorkerFeatureBurnSubtitles
     ++ match j_DolbyVision j with
        | DVNone => []
        | DVKeep => [WorkerFeatureDolbyVision]
        | DVToP81 => [WorkerFeatureDolbyVision; WorkerFeatureDVConvert]
        end
     ++ feature_if (ReshapesDolbyVision j) WorkerFeatureDVTonemap
     ++ feature_if (j_AudioPassthrough j) WorkerFeatureAudioPassthrough
     ++ feature_if (IsDolbyEncode (j_AudioCodec j)) WorkerFeatureAudioDolbyEncode).

(** [ForcesFMP4] *)
Definition ForcesFMP4 (j : TranscodeJob) : bool :=
  j_ForceFMP4 j || (j_AudioPassthrough j && String.eqb (j_AudioCodec j) "copy")
  || (negb (bool_decide (j_DolbyVision j = DVNone)) && IsVideoCopy (j_Encoder j)).

(** [hasAllFeatures] *)
Definition hasAllFeatures (have want : list string) : bool := forallb (λ f, mem f have) want.

(** [workersWithFeatures] *)
Definition workersWithFeatures (workers : list WorkerRegistration) (features : list string) :
    list WorkerRegistration :=
  match features with
  | [] => workers
  | _ => List.filter (λ w, hasAllFeatures (w_Features w) features) workers
  end.

(** ** Costs, in hundredths of a 1080p transcode *)
(** [JobCostCenti] *)
Definition JobCostCenti (width height : Z) (decision : string) : Z :=
  if mem decision ["remux"; "directPlay"; "directStream"] then 25
  else
    let px := wrap64 (width * height) in
    if px <=? 0 then 100
    else let cost := Z.quot (wrap64 (px * 100)) (1920 * 1080) in if cost <? 25 then 25 else cost.

(** [BurnInCostCenti] *)
Definition BurnInCostCenti (cost : Z) : Z := Z.quot (cost * 3) 2.

(** * Choosing a worker *)
Definition gpuScoreBonus : Z := 1000000000000.
Definition capMatchBonus : Z := 1000000000.
Definition loadScoreUnit : Z := 100000.

(** [hasEncoderPrefix] *)
Definition hasEncoderPrefix (caps : list string) (codec : string) : bool :=
  existsb (λ c, HasPrefix c (codec +:+ "_")) caps.

(** [isGPUEncoder] *)
Definition isGPUEncoder (enc : Encoder) : bool :=
  mem enc [EncoderNVENC; EncoderHEVCNVENC; EncoderAMF; EncoderQSV; EncoderVAAPI].

Definition at_count_cap (w : WorkerRegistration) : bool :=
  (0 <? w_MaxSessions w) && (w_MaxSessions w <=? w_ActiveSessions w).
Definition budget_of (w : WorkerRegistration) : Z :=
  let budget := w_MaxSessions w * 100 in if budget <=? 0 then 100 else budget.
Definition headroom (w : WorkerRegistration) : Z :=
  let avail := budget_of w - w_ActiveCostCenti w in if avail <? 0 then 0 else avail.
Definition fracPerMille (w : WorkerRegistration) : Z := Z.quot (headroom w * 1000) (budget_of w).

(** The capability matches of a worker, and whether it has a GPU. *)
Definition cap_matches (w : WorkerRegistration) (needs : JobNeeds) : Z :=
  (if ToneMap needs && w_HasGPUTonemap w then 1 else 0)
  + (if PreferAV1 needs && hasEncoderPrefix (w_Capabilities w) "av1" then 1 else 0)
  + (if PreferHEVC needs && hasEncoderPrefix (w_Capabilities w) "hevc" then 1 else 0).
Definition has_gpu (w : WorkerRegistration) : bool := existsb isGPUEncoder (w_Capabilities w).

(** [workerScore] *)
Definition workerScore (w : WorkerRegistration) (needs : JobNeeds) : Z :=
  if at_count_cap w then 0
  else
    let score := fracPerMille w * loadScoreUnit + headroom w in
    let score := if ToneMap needs && w_HasGPUTonemap w then score + capMatchBonus else score in
    let score := if PreferAV1 needs && hasEncoderPrefix (w_Capabilities w) "av1"
                 then score + capMatchBonus else score in
    let score := if PreferHEVC needs && hasEncoderPrefix (w_Capabilities w) "hevc"
                 then score + capMatchBonus else score in
    if has_gpu w then score + gpuScoreBonus else score.

(** [selectWorker], of a list that is not empty. *)
Fixpoint select_from (best : WorkerRegistration) (bestScore : Z) (ws : list WorkerRegistration)
    (needs : JobNeeds) : WorkerRegistration :=
  match ws with
  | [] => best
  | w :: ws =>
      let s := workerScore w needs in
      if bestScore <? s then select_from w s ws needs else select_from best bestScore ws needs
  end.
Definition selectWorker (ws : list WorkerRegistration) (needs : JobNeeds) : option WorkerRegistration :=
  match ws with
  | [] => None                                     (* not called so; Go panics *)
  | w :: ws => Some (select_from w (workerScore w needs) ws needs)
  end.

(** * The registry and the queues *)
(** [RegisterWorker] *)
Definition RegisterWorker (reg : WorkerRegistration) : prog bool :=
  let! r := SET (workerKey (w_ID reg)) (VWorker reg) workerTTL in
  match r with
  | Failed => Ret false
  | Got _ => let! _ := SADD workerIndexKey (w_ID reg) in Ret true
  end.

(** [ListWorkers]: an entry whose GET gives no answer leaves the index. *)
Fixpoint list_workers (ids : list string) : prog (list WorkerRegistration) :=
  match ids with
  | [] => Ret []
  | id :: ids =>
      let! r := GET (workerKey id) in
      match r with
      | Got (Some (VWorker reg)) => let* rest := list_workers ids in Ret (reg :: rest)
      | Got (Some _) => list_workers ids
      | _ => let! _ := SREM workerIndexKey id in list_workers ids
      end
  end.
Definition ListWorkers : prog (option (list WorkerRegistration)) :=
  let! r := SMEMBERS workerIndexKey in
  match r with
  | Failed => Ret None
  | Got ids => let* ws := list_workers ids in Ret (Some ws)
  end.

(** [FleetHasFeature], [FleetCanEncode] *)
Definition FleetHasFeature (feature : string) : prog bool :=
  let* ws := ListWorkers in
  Ret match ws with
      | None => false
      | Some ws => bool_decide (workersWithFeatures ws [feature] ≠ [])
      end.
Definition FleetCanEncode (codec : string) : prog bool :=
  let* ws := ListWorkers in
  Ret match ws with None => false | Some ws => existsb (λ w, hasEncoderPrefix (w_Capabilities w) codec) ws end.

(** The in-flight counters folded into each registration. *)
Definition fold_in (w : WorkerRegistration) (n c : reply (option Z)) : WorkerRegistration :=
  let w := match n with Got (Some n) => w <| w_ActiveSessions ::= Z.add n |> | _ => w end in
  match c with Got (Some c) => w <| w_ActiveCostCenti ::= Z.add c |> | _ => w end.
Fixpoint fold_counters (ws : list WorkerRegistration) : prog (list WorkerRegistration) :=
  match ws with
  | [] => Ret []
  | w :: ws =>
      let! n := GETINT (dispatchCounterKey (w_Addr w)) in
      let! c := GETINT (dispatchCostKey (w_Addr w)) in
      let* rest := fold_counters ws in Ret (fold_in w n c :: rest)
  end.

Inductive dispatched := ToWorker (addr : string) | ToGlobal | NoCapableWorker | DispatchFailed.

(** [EnqueueJob] *)
Definition EnqueueJob (j : TranscodeJob) : prog bool :=
  let! r := RPUSH globalQueueKey j in Ret match r with Got _ => true | Failed => false end.

Definition costed (j : TranscodeJob) : TranscodeJob :=
  let cost := JobCostCenti (j_Width j) (j_Height j) (j_Decision j) in
  j <| j_CostCenti := if bool_decide (is_Some (j_BurnSubtitle j)) then BurnInCostCenti cost else cost |>.

(** The counters of the chosen worker are raised, then the job is pushed. *)
Definition push_to (addr : string) (j : TranscodeJob) : prog dispatched :=
  let! _ := INCRBY (dispatchCounterKey addr) 1 in
  let! _ := EXPIRE (dispatchCounterKey addr) workerTTL in
  let! _ := INCRBY (dispatchCostKey addr) (j_CostCenti j) in
  let! _ := EXPIRE (dispatchCostKey addr) workerTTL in
  let! r := RPUSH (workerQueueKey addr) j in
  Ret match r with Got _ => ToWorker addr | Failed => DispatchFailed end.

(** [DispatchJob] *)
Definition DispatchJob (j : TranscodeJob) : prog dispatched :=
  let* ws := ListWorkers in
  match default [] ws with
  | [] =>
      if bool_decide (Features (jobNeeds j) = []) then
        let* ok := EnqueueJob j in Ret (if ok : bool then ToGlobal else DispatchFailed)
      else Ret NoCapableWorker
  | ws =>
      let* ws := fold_counters ws in
      let needs := jobNeeds j in
      match selectWorker (workersWithFeatures ws (Features needs)) needs with
      | None => Ret NoCapableWorker
      | Some best => push_to (w_Addr best) (costed j)
      end
  end.

(** [AckDispatch] *)
Definition AckDispatch (addr : string) (costCenti : Z) : prog unit :=
  let key := dispatchCounterKey addr in
  let! v := INCRBY key (-1) in
  let rest :=
    if costCenti <=? 0 then Ret tt
    else
      let ck := dispatchCostKey addr in
      let! v := INCRBY ck (- costCenti) in
      match v with
      | Got v => if v <=? 0 then let! _ := DELINT ck in Ret tt else Ret tt
      | Failed => Ret tt
      end in
  match v with
  | Got v => if v <=? 0 then let! _ := DELINT key in rest else rest
  | Failed => rest
  end.

(** [DequeueJob], at the moment it returns: its own queue first. *)
Definition DequeueJob (addr : string) : prog (reply (option TranscodeJob)) :=
  let! r := BLPOP [workerQueueKey addr; globalQueueKey] in Ret r.

(** One turn of the worker's [jobLoop]: a job taken off a queue is counted and
    acknowledged before it runs. *)
Definition job_cost (j : TranscodeJob) : TranscodeJob :=
  if j_CostCenti j =? 0 then j <| j_CostCenti := JobCostCenti (j_Width j) (j_Height j) (j_Decision j) |> else j.
Definition take_job (addr : string) (active maxSessions : Z) : prog (option TranscodeJob) :=
  if maxSessions <=? active then Ret None
  else
    let* r := DequeueJob addr in
    match r with
    | Got (Some j) =>
        let j := job_cost j in let* _ := AckDispatch addr (j_CostCenti j) in Ret (Some j)
    | _ => Ret None
    end.

(** * What dispatching promises: the order in which workers are preferred, and
    that a job reaches no worker without the features it needs. *)
(** * The tiers *)
(** Where a worker stands: a GPU, the capabilities that match, the share of its
    budget that is free, the amount that is free.  A worker at its session cap
    stands last. *)
Record standing := mkStanding { st_gpu : Z; st_caps : Z; st_share : Z; st_free : Z }.
Definition standing_of (w : WorkerRegistration) (needs : JobNeeds) : standing :=
  if at_count_cap w then mkStanding 0 0 0 0
  else mkStanding (if has_gpu w then 1 else 0) (cap_matches w needs) (fracPerMille w) (headroom w).

(** The strict lexicographic order. *)
Definition below (a b : standing) : Prop :=
  st_gpu a < st_gpu b
  ∨ st_gpu a = st_gpu b ∧ (st_caps a < st_caps b
    ∨ st_caps a = st_caps b ∧ (st_share a < st_share b
      ∨ st_share a = st_share b ∧ st_free a < st_free b)).

(** A registration with counters in range. *)
Definition sane (w : WorkerRegistration) : Prop := w_MaxSessions w < 1000 ∧ 0 <= w_ActiveCostCenti w.

Lemma headroom_bounds w : sane w → 0 <= headroom w < loadScoreUnit ∧ headroom w <= budget_of w ∧ 0 < budget_of w.
Proof.
  intros [H1 H2]. unfold headroom, budget_of, loadScoreUnit.
  destruct (Z.leb_spec (w_MaxSessions w * 100) 0); destruct (Z.ltb_spec 0 0); repeat case_match; lia.
Qed.

Lemma fracPerMille_bounds w : sane w → 0 <= fracPerMille w <= 1000.
Proof.
  intros Hs. destruct (headroom_bounds w Hs) as (H1 & H2 & H3). unfold fracPerMille.
  split; [apply Z.quot_pos; lia|].
  apply Z.le_trans with (Z.quot (budget_of w * 1000) (budget_of w)); [apply Z.quot_le_mono; lia|].
  rewrite Z.mul_comm, Z.quot_mul; lia.
Qed.

Lemma cap_matches_bounds w needs : 0 <= cap_matches w needs <= 3.
Proof. unfold cap_matches. repeat case_match; lia. Qed.

Definition weigh (a : standing) : Z :=
  st_gpu a * gpuScoreBonus + st_caps a * capMatchBonus + st_share a * loadScoreUnit + st_free a.

(** The score is the standing, its tiers weighted. *)
Lemma workerScore_weigh w needs : workerScore w needs = weigh (standing_of w needs).
Proof.
  unfold workerScore, weigh, standing_of, cap_matches.
  destruct (at_count_cap w), (ToneMap needs && w_HasGPUTonemap w),
    (PreferAV1 needs && hasEncoderPrefix (w_Capabilities w) "av1"),
    (PreferHEVC needs && hasEncoderPrefix (w_Capabilities w) "hevc"), (has_gpu w);
    cbn [st_gpu st_caps st_share st_free]; lia.
Qed.

Definition in_tiers (a : standing) : Prop :=
  0 <= st_gpu a <= 1 ∧ 0 <= st_caps a <= 3 ∧ 0 <= st_share a <= 1000 ∧ 0 <= st_free a < loadScoreUnit.

Lemma standing_in_tiers w needs : sane w → in_tiers (standing_of w needs).
Proof.
  intros Hs. pose proof (headroom_bounds w Hs) as [H1 _]. pose proof (fracPerMille_bounds w Hs) as H2.
  pose proof (cap_matches_bounds w needs) as H3. unfold standing_of, in_tiers, loadScoreUnit in *.
  destruct (at_count_cap w), (has_gpu w); simpl; lia.
Qed.

(** No tier can make up for a higher one. *)
Lemma weigh_below a b : in_tiers a → in_tiers b → (weigh a < weigh b ↔ below a b).
Proof.
  unfold in_tiers, weigh, below, gpuScoreBonus, capMatchBonus, loadScoreUnit. lia.
Qed.

Lemma select_from_spec best bs ws needs :
  bs = workerScore best needs →
  let r := select_from best bs ws needs in
  (r = best ∧ Forall (λ w, workerScore w needs <= bs) ws)
  ∨ ∃ pre post, ws = pre ++ r :: post ∧ bs < workerScore r needs
      ∧ Forall (λ w, workerScore w needs < workerScore r needs) pre
      ∧ Forall (λ w, workerScore w needs <= workerScore r needs) post.
Proof.
  revert best bs. induction ws as [|w ws IH]; intros best bs Hb; cbn [select_from]; [by left|].
  destruct (Z.ltb_spec bs (workerScore w needs)) as [Hlt|Hge].
  - right. destruct (IH w _ eq_refl) as [[E Hf]|(pre & post & E & Hlt' & H1 & H2)].
    + exists [], ws. rewrite E. by split_and!.
    + exists (w :: pre), post. split_and!; [by rewrite E at 1|lia|by constructor|done].
  - destruct (IH best bs Hb) as [[E Hf]|(pre & post & E & Hlt' & H1 & H2)].
    + left. split; [done|]. by constructor.
    + right. exists (w :: pre), post. split_and!; [by rewrite E at 1|done| |done]. constructor; [lia|done].
Qed.

Lemma selectWorker_spec ws needs :
  ws ≠ [] → ∃ best pre post, selectWorker ws needs = Some best ∧ ws = pre ++ best :: post
    ∧ Forall (λ w, workerScore w needs < workerScore best needs) pre
    ∧ Forall (λ w, workerScore w needs <= workerScore best needs) post.
Proof.
  destruct ws as [|w ws]; [done|]. intros _. cbn [selectWorker]. eexists.
  destruct (select_from_spec w _ ws needs eq_refl) as [[E Hf]|(pre & post & E & Hlt & H1 & H2)].
  - exists [], ws. split; [done|]. rewrite E. by split_and!.
  - exists (w :: pre), post. split_and!; [done|by rewrite E at 1|by constructor|done].
Qed.

(** The order the scores put workers in, for registrations within the bounds of
    [sane]: the worker chosen from a list that is not empty is the first of those
    that stand highest when GPU availability is compared first, then the number
    of capabilities that match the job, then the free share of the cost budget,
    then the free amount.  A worker at its session cap stands lowest on every
    tier, below a free one without a GPU, and is still chosen when no other
    stands higher ([Sample.full_worker_chosen]). *)
Lemma select_worker_tiers (ws : list WorkerRegistration) (needs : JobNeeds)
    (Hne : ws ≠ []) (Hs : Forall sane ws) :
  ∃ best pre post, selectWorker ws needs = Some best ∧ ws = pre ++ best :: post
    ∧ Forall (λ w, below (standing_of w needs) (standing_of best needs)) pre
    ∧ Forall (λ w, ¬ below (standing_of best needs) (standing_of w needs)) post.
Proof.
  destruct (selectWorker_spec ws needs Hne) as (best & pre & post & E & Ews & H1 & H2).
  exists best, pre, post. split; [done|]. split; [done|].
  rewrite Ews, Forall_app, Forall_cons in Hs. destruct Hs as (S1 & Sb & S2).
  pose proof (standing_in_tiers best needs Sb) as Tb.
  split; eapply Forall_impl; try (apply Forall_and; split; [exact S1|exact H1]);
    try (apply Forall_and; split; [exact S2|exact H2]); intros w [Hw Hlt]; simpl in Hlt;
    pose proof (weigh_below _ _ (standing_in_tiers w needs Hw) Tb) as W;
    pose proof (weigh_below _ _ Tb (standing_in_tiers w needs Hw)) as W';
    rewrite !workerScore_weigh in Hlt; [by apply W|]. intros Hb%W'. lia.
Qed.

Module Sample.
Definition worker (addr : string) (caps : list string) (max active cost : Z) : WorkerRegistration :=
  mkWorker addr addr caps max active cost false [].
Definition no_needs : JobNeeds := mkNeeds false false false [].
Definition hevc_needs : JobNeeds := mkNeeds false false true [].
Definition fleet : list WorkerRegistration :=
  [worker "cpu" ["libx264"] 16 0 0; worker "busy" ["h264_nvenc"; "libx264"] 4 3 390;
   worker "gpu" ["h264_nvenc"; "hevc_nvenc"; "libx264"] 4 3 395; worker "full" ["h264_nvenc"] 2 2 0].

Lemma select_worker_tiers_witness : ∃ best pre post,
  selectWorker fleet hevc_needs = Some best ∧ fleet = pre ++ best :: post
  ∧ Forall (λ w, below (standing_of w hevc_needs) (standing_of best hevc_needs)) pre
  ∧ Forall (λ w, ¬ below (standing_of best hevc_needs) (standing_of w hevc_needs)) post.
Proof.
  apply (select_worker_tiers fleet hevc_needs); [discriminate|]. repeat constructor; cbn; lia.
Defined.

Example loaded_gpu_beats_idle_cpu : selectWorker fleet no_needs = Some (worker "busy" ["h264_nvenc"; "libx264"] 4 3 390).
Proof. vm_compute. reflexivity. Qed.

(** A worker at its cap still wins over one that has a slot left but no budget,
    when it is listed first: both score nothing. *)
Example full_worker_chosen :
  let full := worker "full" ["libx264"] 2 2 50 in
  let free := worker "free" ["libx264"] 4 1 400 in
  at_count_cap full = true ∧ at_count_cap free = false ∧ selectWorker [full; free] no_needs = Some full.
Proof. by vm_compute. Qed.

(** A GPU whose only encoders are the AV1 or HEVC ones of VAAPI counts as none. *)
Example vaapi_hevc_is_no_gpu :
  has_gpu (worker "vaapi" ["hevc_vaapi"; "av1_vaapi"; "libx264"] 4 0 0) = false.
Proof. by vm_compute. Qed.
End Sample.
