(* ===== verification/DispatchSafe.v ===== *)
(** No worker is handed a job it lacks a feature for, whatever the
    interleaving of the clients and the failures of the store. *)
From S2P Require Import Prelude.
From S2P Require Import GoStrings.
From S2P Require Import GoFloat.
From S2P Require Import Media.
From S2P Require Import Encoders.
From S2P Require Import PlayDecision.
From S2P Require Import Quality.
From S2P Require Import TransKV.
From S2P Require Import Dispatch.

Local Open Scope Z_scope.

Lemma workerQueueKey_inj a b : workerQueueKey a = workerQueueKey b → a = b.
Proof. unfold workerQueueKey. intros E. by simplify_eq/=. Qed.
Lemma workerQueueKey_not_global a : workerQueueKey a ≠ globalQueueKey.
Proof. unfold workerQueueKey, globalQueueKey. intros E. by simplify_eq/=. Qed.

Lemma hasAllFeatures_nil fs : hasAllFeatures fs [] = true.
Proof. done. Qed.
Lemma workersWithFeatures_all ws fs : Forall (λ w, hasAllFeatures (w_Features w) fs = true) (workersWithFeatures ws fs).
Proof.
  destruct fs as [|f fs]; simpl; [by apply Forall_true|].
  apply List.Forall_forall. intros w Hw. by apply List.filter_In in Hw as [_ ?].
Qed.
Lemma workersWithFeatures_incl ws fs w : List.In w (workersWithFeatures ws fs) → List.In w ws.
Proof. destruct fs; simpl; [done|]. intros Hw. by apply List.filter_In in Hw as [? _]. Qed.

Lemma select_from_In best bs ws needs : List.In (select_from best bs ws needs) (best :: ws).
Proof.
  revert best bs. induction ws as [|w ws IH]; intros best bs; cbn [select_from]; [by left|].
  destruct (bs <? workerScore w needs).
  - right. apply IH.
  - destruct (IH best bs) as [E|Hin]; [by left|right; by right].
Qed.
Lemma selectWorker_In ws needs w : selectWorker ws needs = Some w → List.In w ws.
Proof. destruct ws as [|w0 ws]; [done|]. intros [= <-]. apply select_from_In. Qed.

Section Features.
(** What the worker at an address can do. *)
Variable feats : string → list string.

Definition fits (addr : string) (j : TranscodeJob) : Prop :=
  hasAllFeatures (feats addr) (Features (jobNeeds j)) = true.
(** A registration that says so. *)
Definition truthful (r : WorkerRegistration) : Prop := w_Features r = feats (w_Addr r).
Definition truthful_val (v : Val) : Prop := match v with VWorker r => truthful r | _ => True end.

(** Every queue holds what its readers can run. *)
Definition queues_fit (ks : KS) : Prop :=
  (∀ addr, Forall (fits addr) (queue ks (workerQueueKey addr)))
  ∧ Forall (λ j, Features (jobNeeds j) = []) (queue ks globalQueueKey)
  ∧ map_Forall (λ _ p, truthful_val p.1) (vals ks).

Definition allowed (c : cmd) : Prop :=
  match c with
  | SET _ v _ | SETNX _ v _ | EXEC _ _ v _ => truthful_val v
  | RPUSH k j => (∃ addr, k = workerQueueKey addr ∧ fits addr j)
                 ∨ (k = globalQueueKey ∧ Features (jobNeeds j) = [])
  | BLPOP ks => ∃ addr, ks = [workerQueueKey addr; globalQueueKey]
  | _ => True
  end.
Definition learn (c : cmd) : raw c → Prop :=
  match c return raw c → Prop with
  | GET _ => λ v, ∀ r, v = Some (VWorker r) → truthful r
  | BLPOP ks => λ o, ∀ addr j, ks = [workerQueueKey addr; globalQueueKey] → o = Some j → fits addr j
  | _ => λ _, True
  end.

Lemma fits_featureless addr j : Features (jobNeeds j) = [] → fits addr j.
Proof. unfold fits. by intros ->. Qed.
Lemma jobNeeds_costed j c : jobNeeds (j <| j_CostCenti := c |>) = jobNeeds j.
Proof. by destruct j. Qed.

Lemma queue_insert ks k l k' :
  queue (ks <| lists ::= <[k := l]> |>) k' = if decide (k = k') then l else queue ks k'.
Proof.
  unfold queue. simpl. case_decide; subst; [by rewrite lookup_insert_eq|by rewrite lookup_insert_ne].
Qed.

Lemma fit_put k v d ks : queues_fit ks → truthful_val v → queues_fit (put k v d ks).
Proof.
  intros (H1 & H2 & H3) Hv. unfold queues_fit, queue, put in *. simpl. split; [done|]. split; [done|].
  by apply map_Forall_insert_2.
Qed.
Lemma fit_vals ks ks' :
  (∀ k, queue ks' k = queue ks k) → vals ks' = vals ks → queues_fit ks → queues_fit ks'.
Proof.
  intros Hq Hv (H1 & H2 & H3). unfold queues_fit. rewrite Hv, Hq. split; [|done]. intros addr. by rewrite Hq.
Qed.

Lemma fit_push k j ks : queues_fit ks → allowed (RPUSH k j) → queues_fit (effect (RPUSH k j) 0 ks).1.
Proof.
  intros (H1 & H2 & H3) Ha. unfold queues_fit. cbn [effect fst]. rewrite !queue_insert.
  destruct Ha as [(addr & -> & Hf)|[-> Hn]].
  - rewrite decide_False by apply workerQueueKey_not_global. split; [|done].
    intros a. rewrite queue_insert. case_decide as E; [|apply H1].
    apply workerQueueKey_inj in E as ->. apply Forall_app_2; [apply H1|by repeat constructor].
  - rewrite decide_True by done. split; [|split; [apply Forall_app_2; [done|by repeat constructor]|done]].
    intros a. rewrite queue_insert, decide_False; [apply H1|].
    intros E. by apply (workerQueueKey_not_global a).
Qed.

Lemma fit_pop addr ks :
  queues_fit ks →
  let p := blpop [workerQueueKey addr; globalQueueKey] ks in
  queues_fit p.1 ∧ ∀ j, p.2 = Some j → fits addr j.
Proof.
  intros Hi. pose proof Hi as (H1 & H2 & H3). pose proof (H1 addr) as Ha. unfold blpop.
  destruct (queue ks (workerQueueKey addr)) as [|j js] eqn:E1;
    [destruct (queue ks globalQueueKey) as [|j js] eqn:E2|]; cbn [fst snd].
  - split; [exact Hi|by intros].
  - apply Forall_cons in H2 as [Hj Hjs]. split; [|intros j' [= <-]; by apply fits_featureless].
    unfold queues_fit. rewrite queue_insert, decide_True by done. split; [|done].
    intros a. rewrite queue_insert, decide_False; [apply H1|]. intros E. by apply (workerQueueKey_not_global a).
  - apply Forall_cons in Ha as [Hj Hjs]. split; [|intros j' [= <-]; done].
    unfold queues_fit. rewrite queue_insert, decide_False by apply workerQueueKey_not_global.
    split; [|done]. intros a. rewrite queue_insert. case_decide as E; [|apply H1].
    by apply workerQueueKey_inj in E as ->.
Qed.

Lemma get_fit ks now k r : queues_fit ks → get ks now k = Some (VWorker r) → truthful r.
Proof.
  intros (_ & _ & H3) Hg. unfold get in Hg. destruct (vals ks !! k) as [[v d]|] eqn:E; [|done].
  destruct (now <? d); [|done]. injection Hg as ->. exact (H3 _ _ E).
Qed.

(** Every allowed command keeps the queues fit, and tells only the truth. *)
Lemma fit_keeps c now ks : queues_fit ks → allowed c →
  queues_fit (effect c now ks).1 ∧ ∀ a, answers c a (effect c now ks).2 → learn c a.
Proof.
  intros Hi Ha. destruct c; try (split; [|done]);
    try (by cbn [effect fst]; apply (fit_vals ks)); try (by cbn [effect fst]; apply fit_put).
  - split; [done|]. intros a -> r Hr. by apply (get_fit ks now k).
  - simpl. destruct (get ks now k); [done|by apply fit_put].
  - destruct Hi as (H1 & H2 & H3). split; [done|]. split; [done|]. simpl. by apply map_Forall_delete.
  - simpl. destruct (_ && _); [by apply fit_put|done].
  - by apply fit_push.
  - destruct Ha as [addr ->]. destruct (fit_pop addr ks Hi) as [Hp Hj]. split; [exact Hp|].
    intros a -> b j E Ho. assert (addr = b) as <- by (apply workerQueueKey_inj; congruence). by apply Hj.
  - simpl. destruct (int_at ks now k); [by apply (fit_vals ks)|done].
Qed.

Lemma empty_fits : queues_fit (mkKS ∅ ∅ ∅ ∅ ∅).
Proof.
  unfold queues_fit, queue. cbn [lists vals]. split; [|split; [|apply map_Forall_empty]];
    intros; rewrite lookup_empty; apply Forall_nil_2.
Qed.

(** ** The operations conform *)
Notation conforms := (conf allowed learn).

Lemma list_workers_conf ids : conforms (Forall truthful) (list_workers ids).
Proof.
  induction ids as [|id ids IH]; simpl; [constructor|]. split; [done|].
  split; [|by auto]. intros [[s|r|t]|] Hl; auto; simpl; auto.
  apply conf_bind. eapply conf_mono; [|exact IH]. simpl. intros ws Hws. constructor; auto.
Qed.
Lemma ListWorkers_conf : conforms (λ o, Forall truthful (default [] o)) ListWorkers.
Proof.
  unfold ListWorkers. split; [done|]. split; [|by constructor]. intros ids _.
  apply conf_bind. eapply conf_mono; [|apply list_workers_conf]. done.
Qed.

Lemma fold_counters_conf ws : Forall truthful ws → conforms (Forall truthful) (fold_counters ws).
Proof.
  induction 1 as [|w ws Hw Hws IH]; [constructor|]. cbn [fold_counters].
  assert (∀ n c, conforms (Forall truthful) (let* rest := fold_counters ws in Ret (fold_in w n c :: rest))) as Hrest.
  { intros n c. apply conf_bind. eapply conf_mono; [|exact IH]. intros rest Hr. simpl.
    constructor; [|done]. destruct n as [[]|], c as [[]|]; done. }
  do 2 (apply conf_any; [done|]; intros). apply Hrest.
Qed.

Lemma push_to_conf addr j : fits addr j → conforms (λ _, True) (push_to addr j).
Proof. intros Hf. cbn. repeat split; auto; left; eauto. Qed.

Lemma DispatchJob_conf j : conforms (λ _, True) (DispatchJob j).
Proof.
  unfold DispatchJob. apply conf_bind. eapply conf_mono; [|apply ListWorkers_conf]. cbn beta.
  intros o Ho. destruct (default [] o) as [|w ws].
  - case_bool_decide as E; [|done]. cbn. repeat split; auto.
  - apply conf_bind. eapply conf_mono; [|by apply fold_counters_conf]. cbn beta. intros ws' Hws'.
    destruct (selectWorker _ _) as [best|] eqn:Es; [|done]. apply selectWorker_In in Es.
    apply push_to_conf. unfold fits, costed. rewrite jobNeeds_costed.
    pose proof (proj1 (List.Forall_forall _ _) (workersWithFeatures_all ws' (Features (jobNeeds j))) best Es) as Hb.
    apply workersWithFeatures_incl in Es.
    rewrite <- (proj1 (List.Forall_forall _ _) Hws' best Es). exact Hb.
Qed.

Lemma RegisterWorker_conf r : truthful r → conforms (λ _, True) (RegisterWorker r).
Proof. intros Hr. cbn. repeat split; auto. Qed.

Lemma AckDispatch_conf addr cost : conforms (λ _, True) (AckDispatch addr cost).
Proof.
  unfold AckDispatch. split; [done|].
  assert (conforms (λ _, True) (if cost <=? 0 then Ret tt else
    let! v := INCRBY (dispatchCostKey addr) (- cost) in
    match v with
    | Got v => if v <=? 0 then let! _ := DELINT (dispatchCostKey addr) in Ret tt else Ret tt
    | Failed => Ret tt
    end)) as Hr.
  { destruct (cost <=? 0); [done|]. split; [done|]. split; [|done]. intros v _. by destruct (v <=? 0). }
  split; [|exact Hr]. intros v _. destruct (v <=? 0); [split; [done|]; split; [intros _ _|]; exact Hr|exact Hr].
Qed.

Lemma DequeueJob_conf addr : conforms (λ r, ∀ j, r = Got (Some j) → fits addr j) (DequeueJob addr).
Proof.
  split; [by exists addr|]. split; [|by intros]. intros o Hl j [= ->]. by apply (Hl addr).
Qed.

Lemma take_job_conf addr active max :
  conforms (λ o, ∀ j, o = Some j → active < max ∧ fits addr j) (take_job addr active max).
Proof.
  unfold take_job. destruct (Z.leb_spec max active); [by intros j [=]|].
  apply conf_bind. eapply conf_mono; [|apply DequeueJob_conf]. cbn beta.
  intros [[j|]|] Hf; [|by intros j [=]..]. specialize (Hf j eq_refl).
  cbv zeta. apply conf_bind. eapply conf_mono; [|apply AckDispatch_conf]. intros _ _ j' [= <-]. split; [done|].
  unfold fits, job_cost. case_match; [by rewrite jobNeeds_costed|done].
Qed.

Lemma FleetHasFeature_conf f : conforms (λ _, True) (FleetHasFeature f).
Proof. apply conf_bind. eapply conf_mono; [|apply ListWorkers_conf]. done. Qed.
Lemma FleetCanEncode_conf c : conforms (λ _, True) (FleetCanEncode c).
Proof. apply conf_bind. eapply conf_mono; [|apply ListWorkers_conf]. done. Qed.

(** ** Clients *)
(** What the API servers and the workers ask of the store. *)
Inductive op :=
| ODispatch (j : TranscodeJob)
| ORegister (r : WorkerRegistration)
| OTake (addr : string) (active maxSessions : Z)
| OAck (addr : string) (costCenti : Z)
| OFleet (feature codec : string).

(** The jobs a client was handed, each with the address it reads for. *)
Fixpoint client (ops : list op) : prog (list (string * TranscodeJob)) :=
  match ops with
  | [] => Ret []
  | ODispatch j :: ops => let* _ := DispatchJob j in client ops
  | ORegister r :: ops => let* _ := RegisterWorker r in client ops
  | OTake addr active max :: ops =>
      let* o := take_job addr active max in
      let* l := client ops in
      Ret match o with Some j => (addr, j) :: l | None => l end
  | OAck addr cost :: ops => let* _ := AckDispatch addr cost in client ops
  | OFleet feature codec :: ops =>
      let* _ := FleetHasFeature feature in let* _ := FleetCanEncode codec in client ops
  end.
Definition honest (o : op) : Prop := match o with ORegister r => truthful r | _ => True end.

Lemma client_conf ops : Forall honest ops → conforms (Forall (λ p, fits p.1 p.2)) (client ops).
Proof.
  induction 1 as [|o ops Ho Hops IH]; [constructor|].
  destruct o as [j|r|addr active max|addr cost|f c]; cbn [client]; apply conf_bind;
    (eapply conf_mono; [|first [apply DispatchJob_conf|apply take_job_conf|apply AckDispatch_conf
      |by apply RegisterWorker_conf|apply FleetHasFeature_conf]]); cbn beta; try (intros; exact IH).
  - intros o Hj. apply conf_bind. eapply conf_mono; [|exact IH]. simpl. intros l Hl.
    destruct o as [j|]; [|done]. constructor; [by apply Hj|done].
  - intros _ _. apply conf_bind. eapply conf_mono; [|apply FleetCanEncode_conf]. intros; exact IH.
Qed.

(** C24: no worker is handed a job it lacks a feature for.  Start any number of
    clients on an empty store, each dispatching jobs, registering workers
    (truthfully about what the address supports), taking jobs off queues and
    acknowledging them, in any order; let them interleave command by command,
    with any clock and with calls that fail before or after taking effect.  At
    every moment every job in a worker's queue asks only for features of that
    worker, the global queue holds only jobs that need none, and every job a
    client was handed asks only for features of the address it read for. *)
Theorem dispatch_features_hard {S : Type} `{KVServer S} (clients : list (list op)) (s0 s : S)
    (ps : list (prog (list (string * TranscodeJob))))
    (Hempty : keyspace s0 = mkKS ∅ ∅ ∅ ∅ ∅)
    (Hhonest : Forall (Forall honest) clients)
    (Hsteps : rtc pool_step (map client clients, s0) (ps, s)) :
  (∀ addr, Forall (fits addr) (queue (keyspace s) (workerQueueKey addr)))
  ∧ Forall (λ j, Features (jobNeeds j) = []) (queue (keyspace s) globalQueueKey)
  ∧ ∀ i l, ps !! i = Some (Ret l) → Forall (λ p, fits p.1 p.2) l.
Proof.
  destruct (pool_conf allowed learn queues_fit fit_keeps
    (Forall (λ p, fits p.1 p.2)) _ _ Hsteps) as [Hps (H1 & H2 & _)].
  - simpl. split; [|rewrite Hempty; apply empty_fits].
    apply Forall_map. eapply Forall_impl; [exact Hhonest|]. apply client_conf.
  - split; [done|]. split; [done|]. intros i l Hi. exact (proj1 (Forall_lookup _ _) Hps i _ Hi).
Qed.
End Features.

Module Sample.
Definition worker (addr : string) (fs : list string) : WorkerRegistration :=
  mkWorker addr addr ["libx264"] 4 0 0 false fs.
Definition plain_job (id : string) : TranscodeJob :=
  mkJob id 0 (f64_of_Z 0) "transcode" "libx264" 1920 1080 8000 "aac" false false false false false None DVNone "" 0 "".
Definition burn_job (id : string) : TranscodeJob := (plain_job id) <| j_BurnSubtitle := Some (1920, 1080) |>.

Definition feats (addr : string) : list string :=
  if String.eqb addr "new:1" then [WorkerFeatureBurnSubtitles] else [].
Definition empty : KS := mkKS ∅ ∅ ∅ ∅ ∅.
Definition ms (n : nat) : list (Moment KS) := replicate n (mkMoment id 1000 Up yes).

(** The burn-in goes to the one worker that can, though another is idle. *)
Definition fleet : list op :=
  [ORegister (worker "old:1" []); ORegister (worker "new:1" [WorkerFeatureBurnSubtitles]);
   ODispatch (burn_job "b"); ODispatch (burn_job "c")].
Example burn_in_routed :
  (λ r : _ * KS * _, (length (queue r.1.2 (workerQueueKey "new:1")), length (queue r.1.2 (workerQueueKey "old:1"))))
    <$> run (client fleet) (ms 60) empty = Some (2%nat, 0%nat).
Proof. vm_compute. reflexivity. Qed.
(** With nobody who can, it goes nowhere. *)
Example burn_in_refused :
  (λ r : _ * KS * _, r.1.1) <$> run (DispatchJob (burn_job "b")) (ms 9) empty = Some NoCapableWorker.
Proof. vm_compute. reflexivity. Qed.

(** One client's whole run is a run of the pool. *)
Lemma rtc_go {A} (p p' p'' : prog A) (s s' s'' : KS) :
  advance p s p' s' → rtc pool_step ([p'], s') ([p''], s'') → rtc pool_step ([p], s) ([p''], s'').
Proof. intros Ha Hr. eapply rtc_l; [|exact Hr]. exact (pool_advance [p] 0 p p' s s' eq_refl Ha). Qed.

Lemma dispatch_features_hard_witness : ∃ j ks,
  rtc pool_step ([client [ODispatch (plain_job "a"); OTake "old:1" 0 4]], empty) ([Ret [("old:1", j)]], ks)
  ∧ Forall (λ p, fits feats p.1 p.2) [("old:1", j)].
Proof.
  assert (∃ j ks, rtc pool_step ([client [ODispatch (plain_job "a"); OTake "old:1" 0 4]], empty)
    ([Ret [("old:1", j)]], ks)) as (j & ks & Hr).
  { do 2 eexists. repeat (eapply rtc_go; [eapply (adv_do _ _ Up 1000); reflexivity|]). apply rtc_refl. }
  exists j, ks. split; [exact Hr|].
  destruct (@dispatch_features_hard feats KS RefKV [[ODispatch (plain_job "a"); OTake "old:1" 0 4]] empty ks
    [Ret [("old:1", j)]] eq_refl ltac:(repeat constructor) Hr) as (_ & _ & Hl).
  exact (Hl 0%nat _ eq_refl).
Defined.
End Sample.
