(* ===== verification/AbrTimeline.v ===== *)
(** The predicted timeline of an adaptive stream and the names of its rungs:
    the pure part of [internal/api/v1/transcode_abr.go]. *)
From Stdlib Require Import SpecFloat.
From S2P Require Import Prelude.
From S2P Require Import GoStrings.
From S2P Require Import GoFloat.
From S2P Require Import GoPath.
From S2P Require Import Media.
From S2P Require Import Encoders.
From S2P Require Import Quality.
From S2P Require Import TransKV.

Local Open Scope Z_scope.

(** * Rungs *)
(** [Session.VideoOutput], [abrIsFMP4], [abrSegExt] *)
Definition VideoOutput_of (s : Session) : VideoOutput :=
  mkVideoOutput (s_HEVCOutput s) (s_AV1Output s) (s_FMP4Segments s) (s_TSSegments s).
Definition abrIsFMP4 (s : Session) : bool := NeedsFMP4 (VideoOutput_of s).
Definition abrSegExt (fmp4 : bool) : string := if fmp4 then ".m4s" else ".ts".

(** [abrLadderCap] *)
Definition abrLadderCap (requestedHeight autoMax hardCap : Z) : Z :=
  let ceiling := if requestedHeight =? 0 then autoMax else requestedHeight in
  if (0 <? hardCap) && ((ceiling =? 0) || (hardCap <? ceiling)) then hardCap else ceiling.

(** [abrChildID], [findRung] *)
Definition abrChildID (parentID rungLabel : string) : string := Base parentID +:+ "-r" +:+ rungLabel.
Definition findRung (rends : list Rendition) (label : string) : option Rendition :=
  find_first (λ r, String.eqb (rd_Label r) label) rends.

(** [abrRungAudioCodec], [abrAudioCodec], [abrAudioKbps], [abrRungFMP4Audio] *)
Definition abrRungAudioCodec (parent : Session) : string :=
  if negb (String.eqb (s_AudioPassthroughCodec parent) "") then "copy"
  else if IsDolbyEncode (s_AudioEncodeCodec parent) then s_AudioEncodeCodec parent
  else "aac".
Definition abrAudioCodec (parent : Session) : string :=
  if negb (String.eqb (s_AudioPassthroughCodec parent) "") then s_AudioPassthroughCodec parent
  else if IsDolbyEncode (s_AudioEncodeCodec parent) then s_AudioEncodeCodec parent
  else "".
Definition abrAudioKbps (parent : Session) : Z :=
  if negb (String.eqb (s_AudioPassthroughCodec parent) "") then PassthroughAudioKbps (s_AudioPassthroughCodec parent)
  else if IsDolbyEncode (s_AudioEncodeCodec parent) then DolbyEncodeKbps
  else 0.
Definition abrRungFMP4Audio (parent : Session) : bool :=
  mem (s_AudioPassthroughCodec parent) ["truehd"; "dts"].

(** * The timeline *)
Definition SegmentDuration : Z := 4.

(** [math.Ceil] *)
Definition f64_ceil (x : float64) : float64 :=
  match x with
  | S754_finite s m e =>
      if 0 <=? e then x
      else
        let q := Z.pos m / 2 ^ (- e) in
        let r := Z.pos m mod 2 ^ (- e) in
        if s then if q =? 0 then S754_zero true else f64_of_Z (- q)
        else f64_of_Z (if r =? 0 then q else q + 1)
  | _ => x
  end.

(** [abrSegmentBoundarySec] *)
Definition abrSegmentBoundarySec (segIdx : Z) (fps : float64) : float64 :=
  let segDur := f64_of_Z SegmentDuration in
  let at_ := f64_mul (f64_of_Z segIdx) segDur in
  if f64_le0 fps then at_ else f64_div (f64_ceil (f64_mul at_ fps)) fps.

Definition seconds (durationMS : Z) : float64 := f64_div (f64_of_Z durationMS) (f64_of_Z 1000).

Definition maxPredictedSegments : Z := 50000.
(** [predictedSegmentCount], from segment [i] on; the loop leaves at the hard
    stop, so this fuel is never spent. *)
Fixpoint count_from (fuel : nat) (i : Z) (fps total : float64) : Z :=
  match fuel with
  | O => i
  | S fuel =>
      if (0 <? i) && f64_leb total (abrSegmentBoundarySec i fps) then i
      else if maxPredictedSegments <? i then i
      else count_from fuel (i + 1) fps total
  end.
Definition predictedSegmentCount (durationMS : Z) (fps : float64) : Z :=
  if durationMS <=? 0 then 0
  else count_from (Z.to_nat (maxPredictedSegments + 2)) 0 fps (seconds durationMS).

(** The entries of [buildPredictedVariantPlaylist]: each segment's index and
    length.  Its loop has no hard stop; [None] says it is not done after
    [fuel] turns. *)
Definition seg_end (i : Z) (fps total : float64) : float64 :=
  let e := abrSegmentBoundarySec (i + 1) fps in if f64_ltb total e then total else e.
Definition seg_dur (i : Z) (fps total : float64) : float64 :=
  f64_sub (seg_end i fps total) (abrSegmentBoundarySec i fps).
Fixpoint variant_from (fuel : nat) (i : Z) (fps total : float64) : option (list (Z * float64)) :=
  match fuel with
  | O => None
  | S fuel =>
      if (0 <? i) && f64_leb total (abrSegmentBoundarySec i fps) then Some []
      else
        let dur := seg_dur i fps total in
        if f64_le0 dur then Some []
        else if f64_leb total (seg_end i fps total) then Some [(i, dur)]
        else cons (i, dur) <$> variant_from fuel (i + 1) fps total
  end.
Definition buildPredictedVariantPlaylist (fuel : nat) (durationMS : Z) (fps : float64) : option (list (Z * float64)) :=
  variant_from fuel 0 fps (seconds durationMS).

(** ** The count is the length of the playlist *)
Lemma SFcompare_refl x y c : SFcompare x y = Some c → SFcompare x x = Some Eq.
Proof.
  destruct x as [[]|[]| |[] m e]; simpl; try done; rewrite ?Z.compare_refl, ?Pos.compare_refl;
    unfold Pos.compare; rewrite ?Pos.compare_cont_refl; done.
Qed.
Lemma f64_ltb_refl_l x y : f64_ltb x y = true → f64_leb x x = true.
Proof.
  unfold f64_ltb, f64_leb, SFltb, SFleb. destruct (SFcompare x y) as [c|] eqn:E; [|done].
  by rewrite (SFcompare_refl _ _ _ E).
Qed.
Lemma f64_ltb_leb x y : f64_ltb x y = true → f64_leb x y = true.
Proof. unfold f64_ltb, f64_leb, SFltb, SFleb. by destruct (SFcompare x y) as [[]|]. Qed.

(** A segment ends at the end of the media exactly when the next one would
    begin there. *)
Lemma seg_end_total i fps total :
  f64_leb total (seg_end i fps total) = f64_leb total (abrSegmentBoundarySec (i + 1) fps).
Proof.
  unfold seg_end. destruct (f64_ltb total (abrSegmentBoundarySec (i + 1) fps)) eqn:E; [|done].
  by rewrite (f64_ltb_refl_l _ _ E), (f64_ltb_leb _ _ E).
Qed.

Section Prediction.
Variables (fps total : float64).
Notation over i := (f64_leb total (abrSegmentBoundarySec i fps)).

Lemma count_from_spec k fuel i :
  0 <= i → i + Z.of_nat k <= maxPredictedSegments → (k < fuel)%nat →
  (∀ j, 0 < j → i <= j < i + Z.of_nat k → over j = false) → 0 < i + Z.of_nat k → over (i + Z.of_nat k) = true →
  count_from fuel i fps total = i + Z.of_nat k.
Proof.
  revert fuel i. induction k as [|k IH]; intros fuel i Hi Hm Hf Hlow Hpos Hend; (destruct fuel as [|fuel]; [lia|]);
    cbn [count_from].
  - rewrite Z.add_0_r in *. rewrite Hend. by destruct (Z.ltb_spec 0 i); [|lia].
  - assert ((0 <? i) && over i = false) as ->.
    { destruct (Z.ltb_spec 0 i); [|done]. apply Hlow; lia. }
    destruct (Z.ltb_spec maxPredictedSegments i); [lia|].
    rewrite (IH fuel (i + 1)); [lia|lia|lia|lia| |lia|].
    + intros j H1 H2. apply Hlow; lia.
    + by replace (i + 1 + Z.of_nat k) with (i + Z.of_nat (S k)) by lia.
Qed.

Lemma variant_from_spec k fuel i :
  0 <= i → (k < fuel)%nat →
  (∀ j, 0 < j → i <= j <= i + Z.of_nat k → over j = false) → over (i + Z.of_nat k + 1) = true →
  (∀ j, i <= j <= i + Z.of_nat k → f64_le0 (seg_dur j fps total) = false) →
  ∃ l, variant_from fuel i fps total = Some l ∧ map fst l = seqZ i (Z.of_nat k + 1).
Proof.
  revert fuel i. induction k as [|k IH]; intros fuel i Hi Hf Hlow Hend Hdur; (destruct fuel as [|fuel]; [lia|]);
    cbn [variant_from];
    (assert ((0 <? i) && over i = false) as -> by (destruct (Z.ltb_spec 0 i); [apply Hlow; lia|done]));
    rewrite Hdur by lia; rewrite seg_end_total.
  - rewrite Z.add_0_r in Hend. rewrite Hend. by eexists.
  - rewrite Hlow by lia. destruct (IH fuel (i + 1)) as (l & -> & Hl); [lia|lia| | | |].
    + intros j H1 H2. apply Hlow; lia.
    + by replace (i + 1 + Z.of_nat k + 1) with (i + Z.of_nat (S k) + 1) by lia.
    + intros j H2. apply Hdur; lia.
    + eexists. split; [done|]. simpl map. rewrite Hl. rewrite (seqZ_cons i) by lia. f_equal. f_equal; lia.
Qed.
End Prediction.

(** The segment index the server refuses is the first one its playlist does
    not list.  For a stream whose media ends before the hard stop of 50,000
    segments and in which every predicted segment has a positive length, the
    predicted playlist ends, lists the segments 0, 1, ... in order, and lists
    exactly as many as [predictedSegmentCount] counts. *)
Lemma predicted_count_exact (durationMS n : Z) (fps : float64)
    (Hd : 0 < durationMS) (Hn : 0 < n <= maxPredictedSegments)
    (Hlast : f64_leb (seconds durationMS) (abrSegmentBoundarySec n fps) = true)
    (Hbefore : ∀ i, 0 < i < n → f64_leb (seconds durationMS) (abrSegmentBoundarySec i fps) = false)
    (Hlen : ∀ i, 0 <= i < n → f64_le0 (seg_dur i fps (seconds durationMS)) = false) :
  predictedSegmentCount durationMS fps = n
  ∧ ∃ l, buildPredictedVariantPlaylist (Z.to_nat n) durationMS fps = Some l ∧ map fst l = seqZ 0 n.
Proof.
  split.
  - unfold predictedSegmentCount. destruct (Z.leb_spec durationMS 0); [lia|].
    rewrite (count_from_spec _ _ (Z.to_nat n)); [lia|lia|lia|lia| |lia|].
    + intros j H1 H2. apply Hbefore. lia.
    + by replace (0 + Z.of_nat (Z.to_nat n)) with n by lia.
  - destruct (variant_from_spec fps (seconds durationMS) (Z.to_nat (n - 1)) (Z.to_nat n) 0) as (l & Hl & Hm); [lia|lia| | | |].
    + intros j H1 H2. apply Hbefore. lia.
    + by replace (0 + Z.of_nat (Z.to_nat (n - 1)) + 1) with n by lia.
    + intros j H2. apply Hlen. lia.
    + exists l. split; [done|]. rewrite Hm. f_equal. lia.
Qed.

Lemma count_from_bounded fuel i fps total :
  i <= maxPredictedSegments + 1 → count_from fuel i fps total <= Z.max i (maxPredictedSegments + 1).
Proof.
  revert i. induction fuel as [|fuel IH]; intros i Hi; cbn [count_from]; [lia|].
  destruct (_ && _); [lia|]. destruct (Z.ltb_spec maxPredictedSegments i); [lia|].
  pose proof (IH (i + 1) ltac:(lia)). lia.
Qed.
Lemma predicted_count_bounded durationMS fps : predictedSegmentCount durationMS fps <= maxPredictedSegments + 1.
Proof.
  unfold predictedSegmentCount. destruct (durationMS <=? 0); [unfold maxPredictedSegments; lia|].
  pose proof (count_from_bounded (Z.to_nat (maxPredictedSegments + 2)) 0 fps (seconds durationMS)
    ltac:(unfold maxPredictedSegments; lia)). unfold maxPredictedSegments in *. lia.
Qed.

Module Sample.
(** 23.976 frames a second. *)
Definition ntsc : float64 := f64_div (f64_of_Z 24000) (f64_of_Z 1001).

Definition all_below (n : Z) (p : Z → bool) : bool := forallb p (seqZ 0 n).
Lemma all_below_spec n p : all_below n p = true → ∀ i, 0 <= i < n → p i = true.
Proof.
  intros Hp i Hi. unfold all_below in Hp. rewrite forallb_forall in Hp.
  apply Hp, list_elem_of_In, elem_of_seqZ. lia.
Qed.

Lemma predicted_count_exact_witness :
  predictedSegmentCount 60500 ntsc = 16
  ∧ ∃ l, buildPredictedVariantPlaylist 16 60500 ntsc = Some l ∧ map fst l = seqZ 0 16.
Proof.
  apply (predicted_count_exact 60500 16 ntsc); [lia|unfold maxPredictedSegments; lia|vm_compute; reflexivity| |].
  - intros i Hi. apply negb_true_iff.
    pose proof (all_below_spec 16 (λ i, (i =? 0) || negb (f64_leb (seconds 60500) (abrSegmentBoundarySec i ntsc)))
      ltac:(vm_compute; reflexivity) i ltac:(lia)) as Hp. cbv beta in Hp.
    destruct (Z.eqb_spec i 0); [lia|exact Hp].
  - intros i Hi. apply negb_true_iff.
    exact (all_below_spec 16 (λ i, negb (f64_le0 (seg_dur i ntsc (seconds 60500)))) ltac:(vm_compute; reflexivity) i Hi).
Defined.

(** A declared length of 300 hours: the count stops at its ceiling, the
    playlist goes on past it. *)
Example hard_stop_is_one_sided :
  predictedSegmentCount (300 * 3600 * 1000) f64_zero <= maxPredictedSegments + 1
  ∧ variant_from 1 60000 f64_zero (seconds (300 * 3600 * 1000)) = None.
Proof. split; [apply predicted_count_bounded|vm_compute; reflexivity]. Qed.
End Sample.
