(* ===== verification/AbrRung.v ===== *)
(** Rung children of an adaptive stream: starting, restarting, serving and
    tearing them down, of [internal/api/v1/transcode_abr.go] and
    [internal/api/v1/transcode.go], and the worker's side of it, of
    [internal/transcode/worker.go].

    Directories are named relative to the segment base directory. *)
From S2P Require Import Prelude.
From S2P Require Import GoStrings.
From S2P Require Import GoFloat.
From S2P Require Import Media.
From S2P Require Import Encoders.
From S2P Require Import PlayDecision.
From S2P Require Import Quality.
From S2P Require Import Tokens.
From S2P Require Import TransKV.
From S2P Require Import TransStore.
From S2P Require Import Dispatch.
From S2P Require Import AbrTimeline.

Local Open Scope Z_scope.

(** * Incarnations *)
(** [SessionDirName], [DirName] *)
Definition SessionDirName (sessionID : string) (incarnation : Z) : string :=
  if incarnation <=? 0 then sessionID else sessionID +:+ "-i" +:+ Itoa incarnation.
Definition DirName (s : Session) : string := SessionDirName (s_ID s) (s_Incarnation s).

(** [watchdogVerdict] *)
Inductive watchdogDecision := watchdogKeep | watchdogStoreError | watchdogGone | watchdogSuperseded | watchdogIdle.
Definition idleKillThreshold : Z := 60 * 1000.
Definition watchdogVerdict (sess : outcome Session) (jobIncarnation now : Z) : watchdogDecision :=
  match sess with
  | NotFound => watchdogGone
  | Broken => watchdogStoreError
  | Fine s =>
      if negb (s_Incarnation s =? jobIncarnation) then watchdogSuperseded
      else
        let anchor := active_at s in
        if negb (IsZero anchor) && (idleKillThreshold <? now - anchor) then watchdogIdle else watchdogKeep
  end.

(** One tick of the heartbeat loop of [runJob]: whether ffmpeg goes on. *)
Definition watchdog_tick (job : TranscodeJob) : prog bool :=
  let* sess := Get (j_SessionID job) in
  Clock (λ now,
    match watchdogVerdict sess (j_Incarnation job) now with
    | watchdogKeep => let* _ := SetHeartbeat (j_SessionID job) in Ret true
    | watchdogStoreError => Ret true
    | _ => Ret false
    end).

(** [wipeSessionDir], after its delay; a look a minute until the deadline. *)
Definition sessionDirWipeMaxWait : Z := 30 * 60 * 1000.
Fixpoint wipe_loop (n : nat) (deadline : Z) (sessionID : string) (incarnation : Z) : prog unit :=
  match n with
  | O => Ret tt
  | S n =>
      let* sess := Get sessionID in
      let remove := Act (RemoveAll (SessionDirName sessionID incarnation)) (Ret tt) in
      match sess with
      | NotFound => remove
      | Broken => Clock (λ now, if deadline <? now then Ret tt else wipe_loop n deadline sessionID incarnation)
      | Fine s =>
          if negb (s_Incarnation s =? incarnation) then remove
          else Clock (λ now, if deadline <? now then remove else wipe_loop n deadline sessionID incarnation)
      end
  end.
Definition wipeSessionDir (sessionID : string) (incarnation : Z) : prog unit :=
  Clock (λ now, wipe_loop 32 (now + sessionDirWipeMaxWait) sessionID incarnation).

(** The processes [KillSession] kills, of the running ones by directory name. *)
Definition killed_by (sessionID key : string) : bool :=
  String.eqb key sessionID || HasPrefix key (sessionID +:+ "-i").

(** [strings.TrimSuffix] *)
Definition TrimSuffix (s suf : string) : string :=
  match CutPrefix (srev s) (srev suf) with Some r => srev r | None => s end.

(** * Starting and restarting a rung *)
Definition abrAnySeg : Z := -1.
Definition abrSeekLookahead : Z := 6.
Definition abrMinRestartInterval : Z := 2 * 1000.
Definition abrRestartKey (childID : string) : string := "transcode:abrrestart:" +:+ childID.

(** [abrReachableSoon] *)
Definition abrReachableSoon (head localSeg : Z) : bool :=
  if localSeg <? 0 then false
  else if head <? 0 then localSeg <=? abrSeekLookahead
  else localSeg <=? head + abrSeekLookahead.

Section Rungs.
(** What a child session and its job take over from the parent unread: the
    source, its parts, the audio track and the output limits. *)
Variables child_media job_media : Session → string.
(** [WithABRLock] was called. *)
Variable withABRLock : bool.

(** [claimForcedRestart] *)
Definition claim_local (childID : string) : prog bool :=
  Ask (QLastRestart childID) (λ last, Clock (λ now,
    match last with
    | Some t => if now - t <? abrMinRestartInterval then Ret false
                else Act (StampRestart childID) (Ret true)
    | None => Act (StampRestart childID) (Ret true)
    end)).
Definition claimForcedRestart (childID : string) : prog bool :=
  if withABRLock then
    let! r := SETNX (abrRestartKey childID) (VText "1") abrMinRestartInterval in
    match r with Got fresh => Ret fresh | Failed => claim_local childID end
  else claim_local childID.

Definition childSession (parent : Session) (childID : string) (startSeg incarnation now : Z) : Session := {|
  s_ID := childID; s_UserID := s_UserID parent; s_MediaItemID := s_MediaItemID parent; s_WorkerID := "";
  s_WorkerAddr := ""; s_Decision := "transcode"; s_PositionMS := 0; s_CreatedAt := now;
  s_LastActivityAt := no_time; s_SegToken := s_SegToken parent; s_HEVCOutput := false; s_AV1Output := false;
  s_TSSegments := false; s_FMP4Segments := false; s_ABR := false; s_ABRRenditions := []; s_DurationMS := 0;
  s_FrameRate := f64_zero; s_StartSeg := startSeg; s_ParentID := s_ID parent; s_Incarnation := incarnation;
  s_SelectedRendition := ""; s_NeedsToneMap := false; s_AudioPassthroughCodec := "";
  s_AudioEncodeCodec := ""; s_media := child_media parent |}.

Definition childJob (parent : Session) (rung : Rendition) (childID : string) (startSeg incarnation : Z) : TranscodeJob := {|
  j_SessionID := childID; j_Incarnation := incarnation;
  j_StartOffsetSec := abrSegmentBoundarySec startSeg (s_FrameRate parent); j_Decision := "transcode";
  j_Encoder := ""; j_Width := rd_Width rung; j_Height := rd_Height rung; j_BitrateKbps := rd_BitrateKbps rung;
  j_AudioCodec := abrRungAudioCodec parent; j_NeedsToneMap := s_NeedsToneMap parent;
  j_PreferHEVC := s_HEVCOutput parent; j_PreferAV1 := s_AV1Output parent; j_ForceFMP4 := abrIsFMP4 parent;
  j_AudioPassthrough := abrRungFMP4Audio parent; j_BurnSubtitle := None; j_DolbyVision := DVNone;
  j_DVProfileKey := ""; j_CostCenti := 0; j_media := job_media parent |}.

(** How [ensureRungChild] came out; the code drops this. *)
Inductive rung_outcome :=
| Busy | Covered | Limited | CreateError | ParentGone | DispatchError
| Restarted (startSeg incarnation : Z).

(** The child there is will do. *)
Definition covers (child : option Session) (globalSeg : Z) (forceRestart : bool) : bool :=
  match child with
  | Some c => (globalSeg =? abrAnySeg) || (negb forceRestart && (s_StartSeg c <=? globalSeg))
  | None => false
  end.

(** Tear down the child there is; the incarnation of its successor. *)
Definition retire (childID : string) (child : option Session) : prog Z :=
  match child with
  | None => Ret 0
  | Some c =>
      Act (Kill childID)
        (let* _ := Delete childID in
         Act (RemoveAll (SessionDirName childID (s_Incarnation c))) (Ret (s_Incarnation c + 1)))
  end.

(** Create the session, look for the parent again, dispatch the job. *)
Definition start_rung (parent : Session) (rung : Rendition) (childID : string)
    (startSeg incarnation now : Z) : prog rung_outcome :=
  let* ok := Create (childSession parent childID startSeg incarnation now) in
  if negb ok then Ret CreateError
  else
    let* p := Get (s_ID parent) in
    match p with
    | Fine _ =>
        let* d := DispatchJob (childJob parent rung childID startSeg incarnation) in
        Ret match d with
            | NoCapableWorker | DispatchFailed => DispatchError
            | _ => Restarted startSeg incarnation
            end
    | _ => let* _ := Delete childID in Ret ParentGone
    end.

(** The body of [ensureRungChild], under the rung lock. *)
Definition ensure_locked (parent : Session) (rung : Rendition) (childID : string)
    (globalSeg : Z) (forceRestart : bool) : prog rung_outcome :=
  let* r := Get childID in
  let child := match r with Fine c => Some c | _ => None end in
  if covers child globalSeg forceRestart then Ret Covered
  else
    let* go := if forceRestart && bool_decide (is_Some child) then claimForcedRestart childID else Ret true in
    if negb go then Ret Limited
    else
      let startSeg := if globalSeg =? abrAnySeg then 0 else globalSeg in
      let* incarnation := retire childID child in
      Clock (λ now, start_rung parent rung childID startSeg incarnation now).

(** [ensureRungChild] *)
Definition ensureRungChild (parent : Session) (rung : Rendition) (childID : string)
    (globalSeg : Z) (forceRestart : bool) : prog rung_outcome :=
  Ask (QLock childID) (λ ok,
    if negb ok then Ret Busy
    else let* o := ensure_locked parent rung childID globalSeg forceRestart in
         Act (Unlock childID) (Ret o)).

(** * Serving a segment *)
Definition abrColdStartWait : Z := 30 * 1000.
Definition abrImminentWait : Z := 10 * 1000.
Definition abrProducedWait : Z := 4 * 1000.

(** [waitRungSegment]: a poll every 150 ms, so [budget/150 + 1] are enough. *)
Fixpoint poll_rung (n : nat) (deadline : Z) (childID localName : string) : prog bool :=
  match n with
  | O => Ret false
  | S n =>
      Clock (λ now,
        if deadline <=? now then Ret false
        else
          let* r := Get childID in
          let '(addr, dir) := match r with
                              | Fine c => (s_WorkerAddr c, DirName c)
                              | _ => ("", childID)
                              end in
          Ask (QReady addr dir localName) (λ ready : bool,
            if ready then Ret true
            else
              let* _ := mutateSession childID TouchActivity in
              Ask QCancelled (λ stop : bool,
                if stop then Ret false else poll_rung n deadline childID localName)))
  end.
Definition waitRungSegment (childID localName : string) (budget : Z) : prog bool :=
  Clock (λ now, poll_rung (Z.to_nat (budget / 150 + 1)) (now + budget) childID localName).

(** [fmt.Sprintf] of [seg%05d] and the extension, of a number that is not negative *)
Definition pad5 (n : Z) : string :=
  let s := Itoa n in
  match (String.length s) with
  | 1%nat => "0000" +:+ s | 2%nat => "000" +:+ s | 3%nat => "00" +:+ s | 4%nat => "0" +:+ s | _ => s
  end.
Definition seg_name (localSeg : Z) (ext : string) : string := "seg" +:+ pad5 localSeg +:+ ext.

Inductive response := Status (code : Z) | ServeFile (child : Session) (name : string).

(** The answer, and how the forced restarts came out. *)
Definition answer : Type := response * list rung_outcome.
Definition error (code : Z) (log : list rung_outcome) : prog answer := Ret (Status code, log).

(** The last part: the child is read again, stamped, and its file served. *)
Definition serve (childID : string) (child : Session) (localName : string) (log : list rung_outcome) : prog answer :=
  let* f := Get childID in
  let child := match f with Fine x => x | _ => child end in
  let* _ := mutateSession childID TouchActivity in
  Ret (ServeFile child localName, log).

(** The wait for the file, with one restart when it does not come. *)
Definition await (parent : Session) (rung : Rendition) (childID ext : string) (globalSeg : Z)
    (child : Session) (head localSeg : Z) (log : list rung_outcome) : prog answer :=
  let localName := seg_name localSeg ext in
  let wait := if 0 <=? head then if localSeg <=? head then abrProducedWait else abrImminentWait
              else abrColdStartWait in
  let* ready := waitRungSegment childID localName wait in
  if ready : bool then serve childID child localName log
  else
    let* o := ensureRungChild parent rung childID globalSeg true in
    let log := log ++ [o] in
    let* r := Get childID in
    match r with
    | Fine child =>
        let localName := seg_name 0 ext in
        let* ready := waitRungSegment childID localName abrColdStartWait in
        if ready : bool then serve childID child localName log else error 503 log
    | _ => error 503 log
    end.

Definition variant_segment (parent : Session) (rung : Rendition) (childID ext : string) (globalSeg : Z) : prog answer :=
  let* _ := ensureRungChild parent rung childID globalSeg false in
  let* r := Get childID in
  match r with
  | Fine child =>
      let localSeg := globalSeg - s_StartSeg child in
      Ask (QHead (s_WorkerAddr child) (DirName child) ext) (λ head : Z,
        if abrReachableSoon head localSeg
        then await parent rung childID ext globalSeg child head localSeg []
        else
          let* o := ensureRungChild parent rung childID globalSeg true in
          let* r := Get childID in
          match r with
          | Fine child => await parent rung childID ext globalSeg child head 0 [o]
          | _ => error 503 [o]
          end)
  | _ => error 503 []
  end.

Definition variant_init (parent : Session) (rung : Rendition) (childID : string) : prog answer :=
  let* _ := ensureRungChild parent rung childID abrAnySeg false in
  let* ready := waitRungSegment childID "init.mp4" abrColdStartWait in
  if negb ready then error 503 []
  else
    let* r := Get childID in
    match r with
    | Fine child => let* _ := mutateSession childID TouchActivity in Ret (ServeFile child "init.mp4", [])
    | _ => error 503 []
    end.

(** [ABRVariantSegment], once the segment token is accepted; [name] is the last
    element of the path. *)
Definition ABRVariantSegment (sessionID rungLabel name : string) : prog answer :=
  let* p := Get sessionID in
  match p with
  | Fine parent =>
      if negb (s_ABR parent) then error 404 []
      else
        match findRung (s_ABRRenditions parent) rungLabel with
        | None => error 404 []
        | Some rung =>
            let* _ := mutateSession sessionID (SetSelectedRendition rungLabel) in
            let childID := abrChildID sessionID rungLabel in
            let ext := abrSegExt (abrIsFMP4 parent) in
            if String.eqb name "init.mp4" then variant_init parent rung childID
            else
              match Atoi (TrimSuffix name ext) with
              | None => error 400 []
              | Some globalSeg =>
                  let total := predictedSegmentCount (s_DurationMS parent) (s_FrameRate parent) in
                  if globalSeg <? 0 then error 400 []
                  else if (0 <? total) && (total <=? globalSeg) then error 404 []
                  else variant_segment parent rung childID ext globalSeg
              end
        end
  | _ => error 404 []
  end.

(** * Tearing down *)
(** [cleanupRungChildren] *)
Fixpoint cleanup_rungs (parentID : string) (rends : list Rendition) : prog unit :=
  match rends with
  | [] => Ret tt
  | rd :: rends =>
      let childID := abrChildID parentID (rd_Label rd) in
      let* r := Get childID in
      let dir := match r with Fine c => DirName c | _ => childID end in
      Act (Kill childID)
        (let* _ := Delete childID in
         Act (RemoveAllLater dir) (cleanup_rungs parentID rends))
  end.
Definition cleanupRungChildren (parent : Session) : prog unit := cleanup_rungs (s_ID parent) (s_ABRRenditions parent).

(** [tearDown] *)
Definition tearDown (sess : Session) (fallbackToken : string) : prog unit :=
  Act (Kill (s_ID sess))
    (let* _ := if s_ABR sess then cleanupRungChildren sess else Ret tt in
     let token := if String.eqb (s_SegToken sess) "" then fallbackToken else s_SegToken sess in
     let rest := let* _ := Delete (s_ID sess) in Act (RemoveAllLater (GoPath.Base (s_ID sess))) (Ret tt) in
     if String.eqb token "" then rest else Act (RevokeToken token) rest).

(** [Stop], of an authenticated user *)
Definition Stop (user : UUID) (isAdmin : bool) (sessionID token : string) : prog Z :=
  let* r := Get sessionID in
  match r with
  | Fine sess =>
      if negb (N.eqb (s_UserID sess) user) && negb isAdmin then Ret 403
      else let* _ := tearDown sess token in Ret 204
  | _ => Ret 204
  end.

(** [supersedeUserItem] *)
Fixpoint tear_down_all (l : list Session) : prog unit :=
  match l with [] => Ret tt | p :: l => let* _ := tearDown p "" in tear_down_all l end.
Definition supersedeUserItem (user item : UUID) : prog unit :=
  let* prior := ListByUserItem user item in
  match prior with None => Ret tt | Some l => tear_down_all l end.
End Rungs.
