(* ===== verification/AbrRungProps.v ===== *)
(** What serving the rungs of an adaptive stream promises: a restart takes a
    fresh incarnation and disarms the old run, and the file served is the
    segment asked for. *)
From S2P Require Import Prelude.
From S2P Require Import GoStrings.
From S2P Require Import GoFloat.
From S2P Require Import Media.
From S2P Require Import Encoders.
From S2P Require Import PlayDecision.
From S2P Require Import Quality.
From S2P Require Import Tokens.
From S2P Require Import TransKV.
From S2P Require Import TransStore.
From S2P Require Import Dispatch.
From S2P Require Import AbrTimeline.
From S2P Require Import AbrRung.

Local Open Scope Z_scope.

Lemma sessionKey_inj a b : sessionKey a = sessionKey b → a = b.
Proof. unfold sessionKey. intros E. by simplify_eq/=. Qed.
Lemma restartKey_not_session a b : abrRestartKey a ≠ sessionKey b.
Proof. unfold abrRestartKey, sessionKey. intros E. by simplify_eq/=. Qed.

Lemma suffixed_ne (id s : string) : s ≠ "" → id +:+ s ≠ id.
Proof. intros Hs. induction id as [|c id IH]; [done|]. intros [= E]. auto. Qed.
Lemma SessionDirName_inj id i j : 0 <= i → 0 <= j → SessionDirName id i = SessionDirName id j → i = j.
Proof.
  unfold SessionDirName. intros Hi Hj. destruct (Z.leb_spec i 0), (Z.leb_spec j 0); try lia; intros E.
  - by apply eq_sym, suffixed_ne in E.
  - by apply suffixed_ne in E.
  - do 2 apply (inj (String.app _)) in E. by apply Itoa_inj.
Qed.

(** * Programs that do not write string keys *)
(** A job pushed is [j], with its cost. *)
Definition same_job (j j' : TranscodeJob) : Prop := ∃ cost, j' = j <| j_CostCenti := cost |>.
Definition plain (P : TranscodeJob → Prop) (c : cmd) : Prop :=
  match c with
  | SET _ _ _ | SETNX _ _ _ | EXEC _ _ _ _ | DEL _ => False
  | RPUSH _ j => P j
  | _ => True
  end.
Notation anything := (λ _ _, True).
Notation plainly P := (conf (plain P) anything (λ _, True)).

Lemma conf_impl {A} (a1 a2 : cmd → Prop) (l1 l2 : ∀ c, raw c → Prop) (Q : A → Prop) (p : prog A) :
  (∀ c, a1 c → a2 c) → (∀ c a, l2 c a → l1 c a) → conf a1 l1 Q p → conf a2 l2 Q p.
Proof.
  intros Ha Hl. induction p as [a|c k IH|k IH|a k IH|q k IH]; simpl; auto.
  intros (H1 & H2 & H3). auto 6.
Qed.

Lemma list_workers_plain P ids : plainly P (list_workers ids).
Proof.
  induction ids as [|id ids IH]; [done|]. cbn [list_workers].
  apply conf_any; [done|]. intros [[[s|r|t]|]|]; try exact IH; try (by apply conf_any).
  apply conf_bind. by eapply conf_mono; [|exact IH].
Qed.
Lemma fold_counters_plain P ws : plainly P (fold_counters ws).
Proof.
  induction ws as [|w ws IH]; [done|]. cbn [fold_counters]. do 2 (apply conf_any; [done|]; intros).
  apply conf_bind. by eapply conf_mono; [|exact IH].
Qed.
Lemma DispatchJob_plain (P : TranscodeJob → Prop) j :
  (∀ cost, P (j <| j_CostCenti := cost |>)) → plainly P (DispatchJob j).
Proof.
  intros HP. assert (P j) as Hj. { specialize (HP (j_CostCenti j)). by destruct j. }
  unfold DispatchJob, ListWorkers. apply conf_bind, conf_any; [done|]. intros [ids|]; cbn [conf].
  - apply conf_bind. eapply conf_mono; [|apply (list_workers_plain P)]. intros ws _. cbn [conf default].
    destruct ws as [|w ws].
    + case_bool_decide; [|done]. cbn. auto.
    + apply conf_bind. eapply conf_mono; [|apply (fold_counters_plain P)]. intros ws' _.
      destruct (selectWorker _ _); [|done]. unfold push_to, costed.
      do 4 (apply conf_any; [done|]; intros). apply conf_any; [apply HP|]. by intros [].
  - case_bool_decide; [|done]. cbn. auto.
Qed.

(** It does nothing but issue commands. *)
Lemma DispatchJob_acting T j : acting T (DispatchJob j).
Proof.
  assert (∀ ids, acting T (list_workers ids)) as Hl.
  { induction ids as [|id ids IH]; [done|]. cbn [list_workers acting]. intros [[[s|r|t]|]|]; try done; try (intros ?; exact IH).
    apply acting_bind; [exact IH|done]. }
  assert (∀ ws, acting T (fold_counters ws)) as Hf.
  { induction ws as [|w ws IH]; [done|]. cbn [fold_counters acting]. intros n c. apply acting_bind; [exact IH|done]. }
  unfold DispatchJob, ListWorkers. apply acting_bind.
  - intros [ids|]; [|done]. apply acting_bind; [apply Hl|done].
  - intros ws. destruct (default [] ws) as [|w l]; [by case_bool_decide|].
    apply acting_bind; [apply Hf|]. intros ws'. by destruct (selectWorker _ _).
Qed.

(** * The child's place in the stream *)
Section Rungs.
Variables child_media job_media : Session → string.
Variable withABRLock : bool.
Variable childID : string.
Notation key := (sessionKey childID).
Notation ensure := (ensureRungChild child_media job_media withABRLock).

Definition start_of (v : Val) : option Z := match v with VSession s => Some (s_StartSeg s) | _ => None end.
(** Where the child under the key starts, alive or not. *)
Definition start_at (ks : KS) : option Z :=
  match vals ks !! key with Some (v, _) => start_of v | None => None end.
(** Nobody else moves, creates or removes the child. *)
Definition still_child (ks ks' : KS) : Prop := start_at ks' = start_at ks.

(** A program that leaves the child where it is. *)
Definition stays (v : option Z) (c : cmd) : Prop :=
  match c with
  | SET k x _ | SETNX k x _ | EXEC k _ x _ => k = key → start_of x = v
  | DEL k => k ≠ key
  | _ => True
  end.
Definition finds (v : option Z) (c : cmd) : raw c → Prop :=
  match c return raw c → Prop with
  | GET k => λ a, k = key → ∀ s, a = Some (VSession s) → v = Some (s_StartSeg s)
  | _ => λ _, True
  end.

Lemma start_put k x d ks : start_at (put k x d ks) = if decide (k = key) then start_of x else start_at ks.
Proof.
  unfold start_at, put. simpl. case_decide; subst; [by rewrite lookup_insert_eq|by rewrite lookup_insert_ne].
Qed.
Lemma start_get ks now s : get ks now key = Some (VSession s) → start_at ks = Some (s_StartSeg s).
Proof.
  unfold get, start_at. destruct (vals ks !! key) as [[v d]|]; [|done]. destruct (now <? d); [|done].
  by intros [= ->].
Qed.

Lemma stays_keeps v c now ks : start_at ks = v → stays v c →
  start_at (effect c now ks).1 = v ∧ ∀ a, answers c a (effect c now ks).2 → finds v c a.
Proof.
  intros Hv Hs. split.
  - assert (∀ k x d, (k = key → start_of x = v) → start_at (put k x d ks) = v) as Hput.
    { intros k x d Hk. rewrite start_put. case_decide; auto. }
    destruct c; simpl in *; auto.
    + destruct (get ks now k); simpl; auto.
    + unfold start_at, del. simpl. by rewrite lookup_delete_ne.
    + destruct (_ && _); simpl; auto.
    + clear Hs. induction ks0 as [|k l IH]; simpl; [done|]. by destruct (queue ks k).
    + by destruct (int_at ks now k).
  - destruct c; simpl; try done. intros a -> -> s Hg. rewrite <- Hv. by eapply start_get.
Qed.

Notation stably v := (conf (stays v) (finds v)).

Lemma plain_stays v P c : plain P c → stays v c.
Proof. by destruct c. Qed.

Lemma DispatchJob_stays v j : stably v (λ _, True) (DispatchJob j).
Proof.
  apply (conf_impl (plain (λ _, True)) _ anything); [apply plain_stays|done|by apply DispatchJob_plain].
Qed.

(** No change moves a session. *)
Lemma apply_start m now s s' : apply m now s = Some s' → s_StartSeg s' = s_StartSeg s.
Proof. destruct s, m; simpl; repeat case_match; by intros [= <-]. Qed.

Lemma transact_stays v n id m : stably v (λ _, True) (transact n id m).
Proof.
  induction n as [|n IH]; [done|]. cbn [transact]. apply conf_any; [done|]. intros [seen|]; [|done].
  split; [done|]. split; [|done]. intros a Hl. destruct (decode (Got a)) as [x| |] eqn:Ed; [|done..].
  apply decode_Fine in Ed. injection Ed as ->. intros t. destruct (apply m t x) as [x'|] eqn:Ha; [|done].
  apply conf_any; [|by intros [[|]|]]. intros E. rewrite (Hl E x eq_refl). simpl. by rewrite (apply_start _ _ _ _ Ha).
Qed.

Lemma poll_rung_stays v n deadline name : stably v (λ _, True) (poll_rung n deadline childID name).
Proof.
  induction n as [|n IH]; [done|]. cbn [poll_rung]. intros now. destruct (deadline <=? now); [done|].
  apply conf_bind, conf_any; [done|]. intros r. cbn [conf].
  destruct (match decode r with Fine c => _ | _ => _ end) as [addr dir].
  intros [|]; [done|]. apply conf_bind. eapply conf_mono; [|apply transact_stays]. intros _ _ [|]; [done|exact IH].
Qed.

(** ** In the logic *)
Notation safe := (wp still_child (λ _, True) True (λ _, True)).

Lemma safe_stays {A} v (Q : A → Prop) (p : prog A) ks :
  stably v Q p → start_at ks = v → safe p (λ a ks, Q a ∧ start_at ks = v) ks.
Proof.
  intros Hc Hv. apply (wp_conf _ _ _ _ (stays v) (finds v) (λ ks, start_at ks = v)); auto; [| |by apply acting_all].
  - intros ks1 ks2 Hr <-. exact Hr.
  - intros c now ks1 _. apply stays_keeps.
Qed.

(** A program about which nothing need be known. *)
Lemma safe_any {A} (p : prog A) ks : safe p (λ _ _, True) ks.
Proof.
  revert ks. induction p as [a|c k IH|k IH|a k IH|q k IH]; intros ks; simpl; auto 6.
Qed.

(** Reading the child tells where it is. *)
Lemma safe_Get ks : safe (Get childID) (λ r ks, ∀ s, r = Fine s → start_at ks = Some (s_StartSeg s)) ks.
Proof.
  unfold Get. apply wp_do. intros ks1 now Hr _. do 2 (split; [done|]).
  split; [|intros _ ks2 _ s; done]. intros a -> s Hs. apply decode_Fine in Hs. injection Hs as Hs.
  by eapply start_get.
Qed.

Definition moved (g : Z) (o : rung_outcome) (ks : KS) : Prop :=
  ∀ st i, o = Restarted st i → st = g ∧ start_at ks = Some g.

Lemma start_rung_moved parent rung g inc now ks :
  safe (start_rung child_media job_media parent rung childID g inc now) (moved g) ks.
Proof.
  unfold start_rung. apply wp_bind. unfold Create. apply wp_do. intros ks1 t Hr _. do 2 (split; [done|]).
  split; [|intros _ ks2 _ st i; done]. intros [] _. cbn [effect fst].
  apply wp_do. intros ks2 t2 Hr2 _. do 2 (split; [done|]).
  assert (start_at ks2 = Some g) as H2.
  { rewrite Hr2. change (s_ID (childSession _ _ _ _ _ _)) with childID. rewrite start_put.
    by rewrite decide_True. }
  assert (∀ ks, start_at ks = Some g → safe
    (let* p := Get (s_ID parent) in
     match p with
     | Fine _ =>
         let* d := DispatchJob (childJob job_media parent rung childID g inc) in
         Ret match d with NoCapableWorker | DispatchFailed => DispatchError | _ => Restarted g inc end
     | _ => let* _ := Delete childID in Ret ParentGone
     end) (moved g) ks) as Hrest.
  { intros ks3 H3. apply wp_bind. eapply wp_mono; [|apply (safe_stays (Some g) (λ _, True)); [|exact H3]; by apply conf_any].
    intros p ks4 [_ H4]. destruct p as [s| |].
    - apply wp_bind. eapply wp_mono; [|apply (safe_stays (Some g)); [apply DispatchJob_stays|exact H4]].
      intros d ks5 [_ H5]. intros st i E. destruct d; try discriminate E; injection E as <- <-; by split.
    - apply wp_bind. eapply wp_mono; [|apply safe_any]. intros ? ? _ st i [=].
    - apply wp_bind. eapply wp_mono; [|apply safe_any]. intros ? ? _ st i [=]. }
  split; [intros a _|intros _ ks3 [->| ->]]; cbn [wp negb]; apply Hrest; exact H2.
Qed.

Lemma ensure_moved parent rung g force ks : 0 <= g → safe (ensure parent rung childID g force) (moved g) ks.
Proof.
  intros Hg. unfold ensureRungChild. intros ks1 [|] Hr; [|intros st i [=]]. cbn [negb].
  apply wp_bind. apply (wp_mono _ _ _ _ _ (moved g)).
  { intros o ks2 Hm ks3 Hr3. split; [done|]. intros st i E. destruct (Hm st i E) as [-> <-]. by split. }
  unfold ensure_locked. apply wp_bind. eapply wp_mono; [|apply safe_any]. intros r ks2 _. cbv zeta.
  destruct (covers _ _ _); [intros st i [=]|].
  apply wp_bind. eapply wp_mono; [|apply safe_any]. intros [|] ks3 _; [|intros st i [=]]. cbn [negb].
  destruct (Z.eqb_spec g abrAnySeg) as [->|_]; [done|].
  apply wp_bind. eapply wp_mono; [|apply safe_any]. intros inc ks4 _ ks5 now _ _. apply start_rung_moved.
Qed.

(** ** The file served *)
(** The forced restarts asked for were all carried out. *)
Definition granted (log : list rung_outcome) : Prop := Forall (λ o, ∃ st i, o = Restarted st i) log.
(** The file is the segment [g] of the stream. *)
Definition right_file (ext : string) (g : Z) (a : answer) : Prop :=
  granted a.2 → ∀ child name, a.1 = ServeFile child name →
  ∃ l, name = seg_name l ext ∧ s_StartSeg child + l = g.

Lemma serve_right ext g child l log ks :
  (granted log → start_at ks = Some (s_StartSeg child) ∧ s_StartSeg child + l = g) →
  safe (serve childID child (seg_name l ext) log) (λ a _, right_file ext g a) ks.
Proof.
  intros Hc. unfold serve. apply wp_bind. unfold Get. apply wp_do. intros ks1 now Hr _. do 2 (split; [done|]).
  assert (∀ r ks', (∀ s, decode r = Fine s → start_at ks1 = Some (s_StartSeg s)) →
    safe (let child := match decode r with Fine x => x | _ => child end in
      let* _ := mutateSession childID TouchActivity in Ret (ServeFile child (seg_name l ext), log))
      (λ a _, right_file ext g a) ks') as Hrest.
  { intros r ks' Hd. cbv zeta. apply wp_bind. eapply wp_mono; [|apply safe_any]. intros _ ? _ Hg c name [= <- <-].
    destruct (Hc Hg) as [Hs Hl]. exists l. split; [done|].
    destruct (decode r) as [x| |] eqn:E; [|done..]. specialize (Hd x eq_refl). unfold still_child in Hr. congruence. }
  split.
  - intros a ->. apply Hrest. intros s Hs. apply decode_Fine in Hs. injection Hs as Hs. by eapply start_get.
  - intros _ ks2 _. by apply (Hrest Failed).
Qed.

Lemma wait_safe v name budget ks :
  start_at ks = v → safe (waitRungSegment childID name budget) (λ _ ks, start_at ks = v) ks.
Proof.
  intros Hv. eapply wp_mono; [|apply (safe_stays v (λ _, True)); [|exact Hv]].
  - intros a ks1 [_ H]. exact H.
  - intros now. apply poll_rung_stays.
Qed.

Lemma await_right parent rung ext g child head l log ks :
  0 <= g → start_at ks = Some (s_StartSeg child) → (granted log → s_StartSeg child + l = g) →
  safe (await child_media job_media withABRLock parent rung childID ext g child head l log)
    (λ a _, right_file ext g a) ks.
Proof.
  intros Hg Hs Hl. unfold await. cbv zeta. apply wp_bind. eapply wp_mono; [|by apply wait_safe].
  intros [|] ks1 H1.
  - apply serve_right. intros Hgr. split; [exact H1|by apply Hl].
  - apply wp_bind. eapply wp_mono; [|by apply ensure_moved]. intros o ks2 Hm. cbv zeta.
    apply wp_bind. eapply wp_mono; [|apply (safe_stays (start_at ks2) (λ r, ∀ s, r = Fine s → start_at ks2 = Some (s_StartSeg s)));
      [|done]].
    + intros r ks3 [Hr H3]. destruct r as [c| |]; [|intros _ ? ? [=]..].
      apply wp_bind. eapply wp_mono; [|by apply wait_safe]. intros [|] ks4 H4; [|intros _ ? ? [=]].
      apply serve_right. intros Hgr. specialize (Hr c eq_refl). split; [congruence|].
      apply Forall_app in Hgr as [_ Hgr]. apply Forall_singleton in Hgr as (st & i & E).
      destruct (Hm st i E) as [_ Hst]. rewrite Hst in Hr. injection Hr as <-. lia.
    + split; [done|]. split; [|done]. intros a Hf s E. apply decode_Fine in E. injection E as ->. by apply Hf.
Qed.

Lemma variant_segment_right parent rung ext g ks :
  0 <= g →
  safe (variant_segment child_media job_media withABRLock parent rung childID ext g) (λ a _, right_file ext g a) ks.
Proof.
  intros Hg. unfold variant_segment. apply wp_bind. eapply wp_mono; [|apply safe_any]. intros _ ks1 _.
  apply wp_bind. eapply wp_mono; [|apply safe_Get]. intros [c| |] ks2 H2; [|intros _ ? ? [=]..].
  specialize (H2 c eq_refl). intros ks3 head H3. unfold still_child in H3. rewrite H2 in H3.
  destruct (abrReachableSoon head (g - s_StartSeg c)); [apply await_right; [done|done|intros; lia]|].
  apply wp_bind. eapply wp_mono; [|by apply ensure_moved]. intros o ks4 Hm.
  apply wp_bind. eapply wp_mono; [|apply (safe_stays (start_at ks4) (λ r, ∀ s, r = Fine s → start_at ks4 = Some (s_StartSeg s)));
    [|done]].
  - intros r ks5 [Hr H5]. destruct r as [c'| |]; [|intros _ ? ? [=]..]. specialize (Hr c' eq_refl).
    apply await_right; [done|congruence|]. intros Hgr. apply Forall_singleton in Hgr as (st & i & E).
    destruct (Hm st i E) as [_ Hst]. rewrite Hst in Hr. injection Hr as <-. lia.
  - split; [done|]. split; [|done]. intros a Hf s E. apply decode_Fine in E. injection E as ->. by apply Hf.
Qed.
End Rungs.

(** Others stamp workers, positions and activity, but leave the rung child
    where it is; calls may fail. *)
Definition child_left_alone {S : Type} `{KVServer S} (childID : string) (m : Moment S) : Prop :=
  abides (still_child childID) True (λ _, True) m.

(** The number of the file served.  When the request for segment [g] is answered
    with a file, while nobody else moves the child and the restarts it asked for
    were carried out, the file's number counted from where the child began is
    [g] - whatever calls to the store fail, wherever the encode head is
    reported, and however the waits come out.  What the file of that number
    holds is the subject of [AbrRungFiles]. *)
Lemma rung_segment_number {S : Type} `{KVServer S} (child_media job_media : Session → string) (withABRLock : bool)
    (sessionID label name : string) (ms : list (Moment S)) (s s' : S)
    (child : Session) (file : string) (log : list rung_outcome) (tr : list event)
    (Hname : name ≠ "init.mp4")
    (Hothers : Forall (child_left_alone (abrChildID sessionID label)) ms)
    (Hrun : run (ABRVariantSegment child_media job_media withABRLock sessionID label name) ms s
            = Some ((ServeFile child file, log), s', tr))
    (Hgranted : granted log) :
  ∃ ext g l, mem ext [".ts"; ".m4s"] = true ∧ Atoi (TrimSuffix name ext) = Some g
    ∧ file = seg_name l ext ∧ s_StartSeg child + l = g.
Proof.
  set (Q := λ (a : answer) (_ : KS), granted a.2 → ∀ child file, a.1 = ServeFile child file →
    ∃ ext g l, mem ext [".ts"; ".m4s"] = true ∧ Atoi (TrimSuffix name ext) = Some g
      ∧ file = seg_name l ext ∧ s_StartSeg child + l = g).
  assert (∀ ks, wp (still_child (abrChildID sessionID label)) (λ _, True) True (λ _, True)
    (ABRVariantSegment child_media job_media withABRLock sessionID label name) Q ks) as Hw.
  { intros ks. unfold ABRVariantSegment. apply wp_bind. eapply wp_mono; [|apply safe_any].
    intros [parent| |] ks1 _; [|intros _ ? ? [=]..].
    destruct (s_ABR parent); [|intros _ ? ? [=]]. cbn [negb].
    destruct (findRung _ _) as [rung|]; [|intros _ ? ? [=]].
    apply wp_bind. eapply wp_mono; [|apply safe_any]. intros _ ks2 _. cbv zeta.
    destruct (String.eqb_spec name "init.mp4"); [done|].
    destruct (Atoi _) as [g|] eqn:Eg; [|intros _ ? ? [=]].
    destruct (Z.ltb_spec g 0); [intros _ ? ? [=]|]. destruct (_ && _); [intros _ ? ? [=]|].
    eapply wp_mono; [|apply variant_segment_right; done].
    intros a ks3 Ha Hg c f E. destruct (Ha Hg c f E) as (l & Hf & Hl).
    exists (abrSegExt (abrIsFMP4 parent)), g, l. split; [by destruct (abrIsFMP4 parent)|]. done. }
  destruct (wp_run _ _ _ _ _ Q ms s _ s' tr Hothers (Hw _) Hrun) as [HQ _].
  exact (HQ Hgranted child file eq_refl).
Qed.

(** * A restart *)
Section Restart.
Variables child_media job_media : Session → string.
Variable withABRLock : bool.
Variable childID : string.
Variables (x : Session) (d : Z).      (* the child there is, and its expiry *)
Notation key := (sessionKey childID).
Notation inc := (s_Incarnation x + 1).

(** Nobody else writes the child; the calls go through, before it expires. *)
Definition same_child (ks ks' : KS) : Prop := vals ks' !! key = vals ks !! key.
(** The successor's jobs carry the new incarnation, and only the old run's
    directory is removed. *)
Definition restarts (ev : event) : Prop :=
  match ev with
  | ECmd (RPUSH _ j) _ _ _ => j_SessionID j = childID ∧ j_Incarnation j = inc
  | EAct (RemoveAll dir) => dir = SessionDirName childID (s_Incarnation x)
  | EAct (Kill id) => id = childID
  | _ => True
  end.
Definition child_is (ks : KS) : Prop := vals ks !! key = Some (VSession x, d).
Definition successor (st : Z) (ks : KS) : Prop :=
  ∃ y t, vals ks !! key = Some (VSession y, t) ∧ s_ID y = childID ∧ s_StartSeg y = st ∧ s_Incarnation y = inc.
Definition restarted (o : rung_outcome) (ks : KS) : Prop := ∀ st i, o = Restarted st i → i = inc ∧ successor st ks.

Notation calm := (wp same_child restarts False (λ now, now < d)).

(** Commands that leave the child's value alone and push only its jobs. *)
Definition quietly (c : cmd) : Prop :=
  match c with
  | SET k _ _ | SETNX k _ _ | EXEC k _ _ _ | DEL k => k ≠ key
  | RPUSH _ j => j_SessionID j = childID ∧ j_Incarnation j = inc
  | _ => True
  end.
Lemma vals_put k v e ks : k ≠ key → vals (put k v e ks) !! key = vals ks !! key.
Proof. intros Hk. unfold put. simpl. by rewrite lookup_insert_ne. Qed.
Lemma quietly_keeps P : (∀ ks ks', same_child ks ks' → P ks → P ks') →
  ∀ c now ks, P ks → quietly c → P (effect c now ks).1 ∧ ∀ a, answers c a (effect c now ks).2 → anything c a.
Proof.
  intros HP c now ks Hp Hq. split; [|done]. apply (HP ks); [|done]. unfold same_child.
  destruct c; simpl in *; try done; try (by apply vals_put).
  - destruct (get ks now k); [done|by apply vals_put].
  - unfold del. simpl. by rewrite lookup_delete_ne.
  - destruct (_ && _); [by apply vals_put|done].
  - clear Hq. induction ks0 as [|k l IH]; simpl; [done|]. by destruct (queue ks k).
  - by destruct (int_at ks now k).
Qed.

Lemma calm_quietly {A} P (Q : A → Prop) (p : prog A) ks :
  (∀ ks ks', same_child ks ks' → P ks → P ks') → acting (λ a, restarts (EAct a)) p →
  conf quietly anything Q p → P ks → calm p (λ a ks, Q a ∧ P ks) ks.
Proof.
  intros HP Hact Hc Hp. apply (wp_conf _ _ _ _ quietly anything P); auto.
  - intros c now ks1 _. by apply quietly_keeps.
  - by intros [] ? ? ?.
Qed.

(** Commands that push nothing. *)
Definition no_push (c : cmd) : Prop := match c with RPUSH _ _ => False | _ => True end.
Lemma calm_free {A} (p : prog A) ks :
  acting (λ a, restarts (EAct a)) p → conf no_push anything (λ _, True) p → calm p (λ _ _, True) ks.
Proof.
  intros Ht Hc. eapply wp_mono; [|apply (wp_conf _ _ _ _ no_push anything (λ _, True)); [done|done| |exact Ht|exact Hc|done]].
  - done.
  - by intros [] ? ? ?.
Qed.
Lemma Delete_free id ks : calm (Delete id) (λ _ _, True) ks.
Proof. apply calm_free; simpl; auto 7. Qed.

Lemma plain_quietly c : plain (λ j, j_SessionID j = childID ∧ j_Incarnation j = inc) c → quietly c.
Proof. by destruct c. Qed.
Lemma Dispatch_quietly parent rung st :
  conf quietly anything (λ _, True) (DispatchJob (childJob job_media parent rung childID st inc)).
Proof.
  apply (conf_impl (plain (λ j, j_SessionID j = childID ∧ j_Incarnation j = inc)) _ anything);
    [apply plain_quietly|done|by apply DispatchJob_plain].
Qed.

Lemma successor_stable st ks ks' : same_child ks ks' → successor st ks → successor st ks'.
Proof. intros E (y & t & Hy & H). exists y, t. by rewrite E. Qed.
Lemma child_is_stable ks ks' : same_child ks ks' → child_is ks → child_is ks'.
Proof. unfold child_is, same_child. congruence. Qed.

Lemma start_rung_restarted parent rung st now ks :
  calm (start_rung child_media job_media parent rung childID st inc now) restarted ks.
Proof.
  unfold start_rung. apply wp_bind. unfold Create. apply wp_do. intros ks1 t Hr Ht. do 2 (split; [done|]).
  split; [|intros []]. intros [] _. change (s_ID (childSession _ _ _ _ _ _)) with childID. cbn [effect fst].
  assert (successor st (put key (VSession (childSession child_media parent childID st inc now)) (t + sessionTTL) ks1)) as Hs.
  { eexists _, _. unfold put. simpl. rewrite lookup_insert_eq. by split_and!. }
  apply wp_do. intros ks2 t2 Hr2 Ht2. do 2 (split; [done|]). split; [|intros []]. intros [] _.
  apply (successor_stable _ _ ks2 Hr2) in Hs. cbn [effect fst wp negb].
  apply wp_bind. eapply wp_mono; [|apply (calm_quietly (successor st) (λ _, True));
    [apply successor_stable|done|by apply conf_any|exact Hs]].
  intros p ks3 [_ H3]. destruct p as [s| |]; [|apply wp_bind; (eapply wp_mono; [|apply Delete_free]); intros ? ? _ ? ? [=]..].
  apply wp_bind. eapply wp_mono; [|apply (calm_quietly (successor st) (λ _, True));
    [apply successor_stable|apply DispatchJob_acting|apply Dispatch_quietly|exact H3]].
  intros o ks4 [_ H4] st' i E. destruct o; try discriminate E; injection E as <- <-; by split.
Qed.

Lemma claim_quietly : conf quietly anything (λ _, True) (claimForcedRestart withABRLock childID).
Proof.
  assert (conf quietly anything (λ _, True) (claim_local childID)) as Hl.
  { intros last now. destruct last as [t|]; [destruct (_ <? _)|]; done. }
  unfold claimForcedRestart. destruct withABRLock; [|done].
  split; [apply restartKey_not_session|]. split; [done|exact Hl].
Qed.
Lemma claim_acting : acting (λ a, restarts (EAct a)) (claimForcedRestart withABRLock childID).
Proof.
  assert (acting (λ a, restarts (EAct a)) (claim_local childID)) as Hl.
  { intros last now. destruct last as [t|]; [destruct (_ <? _)|]; done. }
  unfold claimForcedRestart. destruct withABRLock; [|done]. intros [|]; done.
Qed.

Lemma retire_calm ks : calm (retire childID (Some x)) (λ i _, i = inc) ks.
Proof.
  intros ks1 _. split; [done|]. apply wp_bind. eapply wp_mono; [|apply Delete_free].
  intros _ ks2 _ ks3 _. done.
Qed.

Lemma ensure_restarted parent rung g force ks :
  child_is ks → calm (ensureRungChild child_media job_media withABRLock parent rung childID g force) restarted ks.
Proof.
  intros Hx. unfold ensureRungChild. intros ks1 [|] Hr; [|intros ? ? [=]]. cbn [negb].
  apply (child_is_stable _ _ Hr) in Hx. apply wp_bind. apply (wp_mono _ _ _ _ _ restarted).
  { intros o ks2 Hm ks3 Hr3. split; [done|]. intros st i E. destruct (Hm st i E) as [-> Hs].
    split; [done|]. by apply (successor_stable _ ks2). }
  unfold ensure_locked, Get. apply wp_bind, wp_do. intros ks2 now Hr2 Hd. do 2 (split; [done|]).
  split; [|intros []]. apply (child_is_stable _ _ Hr2) in Hx. intros a ->. cbn [decode wp effect fst snd].
  assert (get ks2 now key = Some (VSession x)) as ->.
  { unfold get. rewrite Hx. by destruct (Z.ltb_spec now d); [|lia]. }
  cbn [decode]. destruct (covers _ _ _); [intros ? ? [=]|].
  apply wp_bind. apply (wp_mono _ _ _ _ _ (λ _ _, True)).
  - intros [|] ks3 _; [|intros ? ? [=]]. cbn [negb]. apply wp_bind. eapply wp_mono; [|apply retire_calm].
    intros i ks4 -> ks5 t _ _. apply start_rung_restarted.
  - destruct (_ && _); [|done].
    eapply wp_mono; [|apply (calm_quietly child_is (λ _, True)); [apply child_is_stable|apply claim_acting|apply claim_quietly|exact Hx]].
    done.
Qed.
End Restart.

(** Nobody else writes the child, and the calls go through before [d]. *)
Definition child_calm {S : Type} `{KVServer S} (childID : string) (d : Z) (m : Moment S) : Prop :=
  abides (same_child childID) False (λ now, now < d) m.

(** C26: restarting a rung disarms the run it replaces, when the store answers.
    The child is stored with an incarnation [i] that is not negative, every call
    of the request goes through before the child expires, and nobody else writes
    it.  Then a restart, which runs under the rung lock, stores under the same
    ID a child that starts where it was asked to, of incarnation [i + 1]; every
    job it queues carries that incarnation, and the only directory it removes is
    the old run's.  The heartbeat of every run up to incarnation [i] then finds
    itself superseded, and none of their directories is the one the new run
    writes to.  (Of a failed read of the child the code makes a missing child,
    and a second run starts in the directory of the live one:
    [failed_read_reuses_directory].) *)
Theorem rung_restart_supersedes {S : Type} `{KVServer S} (child_media job_media : Session → string) (withABRLock : bool)
    (parent x : Session) (rung : Rendition) (childID : string) (g st i d now : Z) (force : bool)
    (ms : list (Moment S)) (s s' : S) (tr : list event)
    (Hchild : vals (keyspace s) !! sessionKey childID = Some (VSession x, d))
    (Hinc : 0 <= s_Incarnation x)
    (Hcalm : Forall (child_calm childID d) ms)
    (Hrun : run (ensureRungChild child_media job_media withABRLock parent rung childID g force) ms s
            = Some (Restarted st i, s', tr)) :
  i = s_Incarnation x + 1
  ∧ Forall (restarts childID x) tr
  ∧ ∃ y t, vals (keyspace s') !! sessionKey childID = Some (VSession y, t)
      ∧ s_StartSeg y = st ∧ DirName y = SessionDirName childID i
      ∧ ∀ k, 0 <= k <= s_Incarnation x →
          watchdogVerdict (Fine y) k now = watchdogSuperseded ∧ SessionDirName childID k ≠ DirName y.
Proof.
  destruct (wp_run _ _ _ _ _ _ ms s _ s' tr Hcalm
    (ensure_restarted child_media job_media withABRLock childID x d parent rung g force _ Hchild) Hrun) as [HQ Htr].
  destruct (HQ st i eq_refl) as (-> & y & t & Hy & Hid & Hst & Hi).
  split; [done|]. split; [done|]. exists y, t. unfold DirName. rewrite Hid, Hi. split_and!; try done.
  intros k Hk. split.
  - simpl. rewrite Hi. by destruct (Z.eqb_spec (s_Incarnation x + 1) k); [lia|].
  - intros E. apply SessionDirName_inj in E; lia.
Qed.

Module Sample.
Definition no_media (_ : Session) : string := "".
Definition rung720 : Rendition := mkRendition "720p" 720 1280 4000.
Definition parent : Session := {|
  s_ID := "p"; s_UserID := 7%N; s_MediaItemID := 3%N; s_WorkerID := ""; s_WorkerAddr := "";
  s_Decision := "transcode"; s_PositionMS := 0; s_CreatedAt := 500; s_LastActivityAt := no_time;
  s_SegToken := "tok"; s_HEVCOutput := false; s_AV1Output := false; s_TSSegments := false;
  s_FMP4Segments := false; s_ABR := true; s_ABRRenditions := [rung720]; s_DurationMS := 1300000;
  s_FrameRate := f64_zero; s_StartSeg := 0; s_ParentID := ""; s_Incarnation := 0;
  s_SelectedRendition := ""; s_NeedsToneMap := false; s_AudioPassthroughCodec := "";
  s_AudioEncodeCodec := ""; s_media := "" |}.
Definition rung_child : Session := childSession no_media parent "p-r720p" 0 0 600.
Definition ks0 : KS :=
  mkKS {[ sessionKey "p" := (VSession parent, 900000); sessionKey "p-r720p" := (VSession rung_child, 900000) ]}
    ∅ {[ sessionIndexKey := {["p"; "p-r720p"]} ]} ∅ ∅.
Definition quiet : Moment KS := mkMoment (λ s, s) 1000 Up yes.

Lemma quiet_calm n : Forall (child_calm "p-r720p" 900000) (replicate n quiet).
Proof. apply Forall_replicate. split; [by intros s|]. split; [by left|]. simpl. lia. Qed.
Lemma quiet_alone n : Forall (child_left_alone (abrChildID "p" "720p")) (replicate n quiet).
Proof. apply Forall_replicate. split; [by intros s|]. split; [by left|done]. Qed.

Lemma child_there : vals (keyspace ks0) !! sessionKey "p-r720p" = Some (VSession rung_child, 900000).
Proof. reflexivity. Qed.

(** A seek to segment 300 of a child that encodes from 0. *)
Definition seek (ks : KS) : option (answer * KS * list event) :=
  run (ABRVariantSegment no_media no_media true "p" "720p" "300.ts") (replicate 60 quiet) ks.

Lemma rung_segment_number_witness : ∃ child file log ks tr,
  seek ks0 = Some ((ServeFile child file, log), ks, tr) ∧ granted log
  ∧ ∃ ext g l, mem ext [".ts"; ".m4s"] = true ∧ Atoi (TrimSuffix "300.ts" ext) = Some g
    ∧ file = seg_name l ext ∧ s_StartSeg child + l = g.
Proof.
  assert (match seek ks0 with Some ((ServeFile _ _, log), _, _) => log = [Restarted 300 1] | _ => False end) as Hs
    by (vm_compute; reflexivity).
  destruct (seek ks0) as [[[[[code|child file] log] ks] tr]|] eqn:E; [destruct Hs| |destruct Hs].
  assert (granted log) as Hg. { rewrite Hs. apply Forall_singleton. by eexists _, _. }
  exists child, file, log, ks, tr. split; [reflexivity|]. split; [exact Hg|].
  exact (rung_segment_number no_media no_media true "p" "720p" "300.ts" (replicate 60 quiet) ks0 ks child file _ tr
    ltac:(discriminate) (quiet_alone 60) E Hg).
Defined.

(** The same seek two seconds after another: the restart is refused, and the
    first segment of the stream is served as segment 300. *)
Definition just_restarted : KS := put (abrRestartKey "p-r720p") (VText "1") 2500 ks0.
Example refused_restart_serves_wrong_segment :
  match seek just_restarted with
  | Some ((ServeFile child file, log), _, _) => log = [Limited] ∧ file = "seg00000.ts" ∧ s_StartSeg child = 0
  | _ => False
  end.
Proof. vm_compute. done. Qed.

Lemma rung_restart_supersedes_witness : ∃ ks tr,
  run (ensureRungChild no_media no_media true parent rung720 "p-r720p" 300 true) (replicate 30 quiet) ks0
    = Some (Restarted 300 1, ks, tr)
  ∧ Forall (restarts "p-r720p" rung_child) tr.
Proof.
  set (r := run _ _ _).
  assert (match r with Some (o, _, _) => o = Restarted 300 1 | None => False end) as Hs by (vm_compute; reflexivity).
  destruct r as [[[o ks] tr]|] eqn:E; [|destruct Hs]. rewrite Hs in E |- *.
  exists ks, tr. split; [reflexivity|].
  destruct (rung_restart_supersedes no_media no_media true parent rung_child rung720 "p-r720p" 300 300 1 900000 2000 true
    (replicate 30 quiet) ks0 ks tr child_there ltac:(simpl; lia) (quiet_calm 30) E) as (_ & H & _). exact H.
Defined.

(** The child's read fails: a second run starts in the live run's directory,
    and neither is superseded. *)
Definition blip : list (Moment KS) := [quiet; mkMoment (λ s, s) 1000 Down yes] ++ replicate 30 quiet.
Example failed_read_reuses_directory :
  match run (ensureRungChild no_media no_media true parent rung720 "p-r720p" 20 false) blip ks0 with
  | Some (o, ks, _) =>
      o = Restarted 20 0 ∧ length (queue ks globalQueueKey) = 1%nat
      ∧ match get ks 1000 (sessionKey "p-r720p") with
        | Some (VSession y) => DirName y = DirName rung_child ∧ watchdogVerdict (Fine y) (s_Incarnation rung_child) 1000 = watchdogKeep
        | _ => False
        end
  | None => False
  end.
Proof. vm_compute. done. Qed.

(** A stop meets a starting rung: the children are deleted before the parent,
    so the rung still finds its parent and its child outlives both. *)
Definition no_child : KS := del (sessionKey "p-r720p") ks0.
Definition racers : list (prog unit) :=
  [let* _ := ensureRungChild no_media no_media true parent rung720 "p-r720p" 5 false in Ret tt; tearDown parent ""].
Definition sched : list (nat * Z) :=
  replicate 3 (0%nat, 1000) ++ replicate 7 (1%nat, 1001) ++ replicate 8 (0%nat, 1002) ++ replicate 4 (1%nat, 1003).
Example orphan_child :
  let st := play sched racers no_child in
  st.1 = [Ret tt; Ret tt] ∧ get st.2 1004 (sessionKey "p") = None
  ∧ length (queue st.2 globalQueueKey) = 1%nat
  ∧ match get st.2 1004 (sessionKey "p-r720p") with
    | Some (VSession y) => watchdogVerdict (Fine y) 0 1004 = watchdogKeep
    | _ => False
    end.
Proof. vm_compute. done. Qed.
End Sample.
