(* ===== verification/AbrRungFiles.v ===== *)
(** What the files of a rung hold: the runs queued for one rung child over time
    write to the directory of their incarnation, and the file a segment request
    is answered with was written by runs that give it the number asked for. *)
From S2P Require Import Prelude.
From S2P Require Import GoStrings.
From S2P Require Import GoFloat.
From S2P Require Import Media.
From S2P Require Import Encoders.
From S2P Require Import PlayDecision.
From S2P Require Import Quality.
From S2P Require Import Tokens.
From S2P Require Import TransKV.
From S2P Require Import TransStore.
From S2P Require Import Dispatch.
From S2P Require Import AbrTimeline.
From S2P Require Import AbrRung.
From S2P Require Import AbrRungProps.

Local Open Scope Z_scope.

Section Files.
Variables child_media job_media : Session → string.
Variable withABRLock : bool.
Variable childID : string.
Variable x : Session.     (* the child there is when the request comes *)
Variable g : Z.           (* the segment asked for *)
Variable T : Z.           (* the request's calls are over before [T] *)
Notation key := (sessionKey childID).

(** Which run the child under the key is of, and whether it lasts to [T]. *)
Definition spot (ks : KS) : option (string * Z * Z * bool) :=
  match vals ks !! key with
  | Some (VSession y, t) => Some (s_ID y, s_StartSeg y, s_Incarnation y, T <=? t)
  | _ => None
  end.
(** Nobody else replaces, moves or removes the child. *)
Definition spot_same (ks ks' : KS) : Prop := spot ks' = spot ks.
(** Everything happens before [T], and a session written now lasts to [T]. *)
Definition window (now : Z) : Prop := T - sessionTTL <= now < T.

(** The run of [x], or one started for segment [g] since. *)
Definition ours (st i : Z) : Prop :=
  st = s_StartSeg x ∧ i = s_Incarnation x ∨ st = g ∧ s_Incarnation x < i.
Definition placed (ks : KS) : Prop := ∃ st i, spot ks = Some (childID, st, i, true) ∧ ours st i.
Definition settled (ks : KS) : Prop := placed ks ∨ spot ks = None.

(** [j] is a run of the child from segment [st] on, of incarnation [i]. *)
Definition run_of (st i : Z) (j : TranscodeJob) : Prop :=
  ∃ parent rung, same_job (childJob job_media parent rung childID st i) j.
Definition new_run (j : TranscodeJob) : Prop := ∃ i, run_of g i j ∧ s_Incarnation x < i.
Definition queues (ev : event) : Prop :=
  match ev with ECmd (RPUSH _ j) _ _ _ => new_run j | _ => True end.

Notation ok := (wp spot_same queues False window).

Lemma placed_stable ks ks' : spot_same ks ks' → placed ks → placed ks'.
Proof. unfold placed, spot_same. by intros ->. Qed.
Lemma settled_stable ks ks' : spot_same ks ks' → settled ks → settled ks'.
Proof. unfold settled, placed, spot_same. by intros ->. Qed.

(** ** Programs that leave the child where it is *)
Definition spot_of (y : Session) : option (string * Z * Z * bool) :=
  Some (s_ID y, s_StartSeg y, s_Incarnation y, true).
Definition holds (v : option (string * Z * Z * bool)) (c : cmd) : Prop :=
  match c with
  | SET k _ _ | SETNX k _ _ | DEL k => k ≠ key
  | EXEC k _ y ttl => k = key → ∃ s, y = VSession s ∧ v = spot_of s ∧ ttl = sessionTTL
  | RPUSH _ j => new_run j
  | _ => True
  end.
Definition sees (v : option (string * Z * Z * bool)) (c : cmd) : raw c → Prop :=
  match c return raw c → Prop with
  | GET k => λ a, k = key → ∀ s, a = Some (VSession s) →
      ∃ b, v = Some (s_ID s, s_StartSeg s, s_Incarnation s, b)
  | _ => λ _, True
  end.

Lemma spot_put k v e ks : k ≠ key → spot (put k v e ks) = spot ks.
Proof. intros Hk. unfold spot, put. simpl. by rewrite lookup_insert_ne. Qed.
Lemma spot_put_here y now ks :
  window now → spot (put key (VSession y) (now + sessionTTL) ks) = spot_of y.
Proof.
  intros [Hw _]. unfold spot, put, spot_of. simpl. rewrite lookup_insert_eq.
  by rewrite (proj2 (Z.leb_le T (now + sessionTTL))) by lia.
Qed.
Lemma spot_get ks now s :
  get ks now key = Some (VSession s) → ∃ b, spot ks = Some (s_ID s, s_StartSeg s, s_Incarnation s, b).
Proof.
  unfold get, spot. destruct (vals ks !! key) as [[v d]|]; [|done]. destruct (now <? d); [|done].
  intros [= ->]. by eexists.
Qed.

Lemma holds_keeps v c now ks :
  window now → spot ks = v → holds v c →
  spot (effect c now ks).1 = v ∧ ∀ a, answers c a (effect c now ks).2 → sees v c a.
Proof.
  intros Hw Hv Hh. split.
  - destruct c; simpl in *; try done; try (by rewrite spot_put).
    + destruct (get ks now k); [done|]. simpl. by rewrite spot_put.
    + unfold spot, del. simpl. by rewrite lookup_delete_ne.
    + destruct (_ && _); [|done]. simpl. destruct (decide (k = key)) as [->|Hk]; [|by rewrite spot_put].
      destruct (Hh eq_refl) as (s & -> & -> & ->). by apply spot_put_here.
    + clear Hh. induction ks0 as [|k l IH]; simpl; [done|]. by destruct (queue ks k).
    + by destruct (int_at ks now k).
  - destruct c; simpl; try done. intros a -> -> s Hg. rewrite <- Hv. by eapply spot_get.
Qed.

Notation holding v := (conf (holds v) (sees v)).

Lemma ok_holding {A} v (Q : A → Prop) (p : prog A) ks :
  holding v Q p → spot ks = v → ok p (λ a ks, Q a ∧ spot ks = v) ks.
Proof.
  intros Hc Hv. apply (wp_conf _ _ _ _ (holds v) (sees v) (λ ks, spot ks = v)); auto.
  - intros ks1 ks2 -> <-. done.
  - intros c now ks1. apply holds_keeps.
  - by intros [] ? ? ?.
  - by apply acting_all.
Qed.

Lemma apply_spot m now s s' : apply m now s = Some s' → spot_of s' = spot_of s.
Proof. unfold spot_of. destruct s, m; simpl; repeat case_match; by intros [= <-]. Qed.

(** A child that is there lasts. *)
Definition lasts (v : option (string * Z * Z * bool)) : Prop := ∀ q, v = Some q → q.2 = true.

Lemma transact_holds v n id m : lasts v → holding v (λ _, True) (transact n id m).
Proof.
  intros Ht. induction n as [|n IH]; [done|]. cbn [transact]. apply conf_any; [done|]. intros [seen|]; [|done].
  split; [done|]. split; [|done]. intros a Hl. destruct (decode (Got a)) as [y| |] eqn:Ed; [|done..].
  apply decode_Fine in Ed. injection Ed as ->. intros t. destruct (apply m t y) as [y'|] eqn:Ha; [|done].
  apply conf_any; [|by intros [[|]|]]. intros E. exists y'. split; [done|]. split; [|done].
  destruct (Hl E y eq_refl) as [b Hb]. specialize (Ht _ Hb). simpl in Ht. subst b.
  rewrite (apply_spot _ _ _ _ Ha). exact Hb.
Qed.

Lemma poll_rung_holds v n deadline name :
  lasts v → holding v (λ _, True) (poll_rung n deadline childID name).
Proof.
  intros Ht. induction n as [|n IH]; [done|]. cbn [poll_rung]. intros now. destruct (deadline <=? now); [done|].
  apply conf_bind, conf_any; [done|]. intros r. cbn [conf].
  destruct (match decode r with Fine c => _ | _ => _ end) as [addr dir].
  intros [|]; [done|]. apply conf_bind. eapply conf_mono; [|by apply transact_holds].
  intros _ _ [|]; [done|exact IH].
Qed.

(** ** The steps of a request *)
Lemma lasting st i : lasts (Some (childID, st, i, true)).
Proof. by intros q [= <-]. Qed.

Lemma ok_placed {A} (p : prog A) ks :
  (∀ v, lasts v → holding v (λ _, True) p) →
  placed ks → ok p (λ _ ks, placed ks) ks.
Proof.
  intros Hp (st & i & Hs & Ho). eapply wp_mono; [|apply (ok_holding _ (λ _, True) p ks (Hp _ (lasting st i)) Hs)].
  intros a ks' [_ Hs']. by exists st, i.
Qed.

(** Reading the child that is there. *)
Definition is_ours (c : Session) : Prop := s_ID c = childID ∧ ours (s_StartSeg c) (s_Incarnation c).
Lemma ok_Get_placed ks :
  placed ks → ok (Get childID) (λ r ks, placed ks ∧ ∃ c, r = Fine c ∧ is_ours c) ks.
Proof.
  intros (st & i & Hs & Ho). unfold Get. apply wp_do. intros ks1 now Hr Hw. do 2 (split; [done|]).
  split; [|intros []]. intros a ->. simpl. unfold spot_same in Hr. rewrite <- Hr in Hs.
  split; [by exists st, i|]. unfold spot in Hs. unfold get.
  destruct (vals ks1 !! key) as [[[y|?|?] t]|]; try done. injection Hs as Hid Hst Hi Ht.
  apply Z.leb_le in Ht. destruct (Z.ltb_spec now t) as [_|]; [|destruct Hw; lia].
  exists y. split; [done|]. split; [done|]. by rewrite Hst, Hi.
Qed.
Lemma ok_Get_settled ks :
  settled ks → ok (Get childID) (λ r ks, ∀ c, r = Fine c → placed ks ∧ is_ours c) ks.
Proof.
  intros [Hp|Hn].
  - eapply wp_mono; [|by apply ok_Get_placed]. intros r ks' [Hp' (c & -> & Hc)] c' [= <-]. done.
  - eapply wp_mono; [|apply (ok_holding None (λ r, ∀ c, r = Fine c → False)); [|exact Hn]].
    + intros r ks' [Hr _] c E. by destruct (Hr c E).
    + split; [done|]. split; [|done]. intros a Hl c E. apply decode_Fine in E. injection E as ->.
      by destruct (Hl eq_refl c eq_refl).
Qed.

(** Commands that queue nothing. *)
Lemma ok_quiet {A} (Q : A → Prop) (p : prog A) ks :
  conf no_push (λ _ _, True) Q p → ok p (λ a _, Q a) ks.
Proof.
  intros Hc. eapply wp_mono; [|apply (wp_conf _ _ _ _ no_push (λ _ _, True) (λ _, True)); [done|done| |by apply acting_all|exact Hc|done]].
  - by intros a ks' [? _].
  - by intros [] ? ? ?.
Qed.

Lemma Delete_settled ks : ok (Delete childID) (λ _ ks, settled ks) ks.
Proof.
  unfold Delete. apply wp_do. intros ks1 now _ _. do 2 (split; [done|]). split; [|intros []].
  intros a _. apply wp_do. intros ks2 now2 _ _. do 2 (split; [done|]). split; [|intros []].
  intros b _. right. unfold spot. simpl. by rewrite lookup_delete_eq.
Qed.

Lemma start_rung_settled parent rung i now ks :
  s_Incarnation x < i →
  ok (start_rung child_media job_media parent rung childID g i now) (λ _ ks, settled ks) ks.
Proof.
  intros Hi. unfold start_rung. apply wp_bind. unfold Create. apply wp_do. intros ks1 t Hr Ht. do 2 (split; [done|]).
  split; [|intros []]. intros [] _. change (s_ID (childSession _ _ _ _ _ _)) with childID. cbn [effect fst].
  set (y := childSession child_media parent childID g i now).
  assert (placed (put key (VSession y) (t + sessionTTL) ks1)) as Hp.
  { exists g, i. split; [by apply spot_put_here|]. by right. }
  apply wp_do. intros ks2 t2 Hr2 _. do 2 (split; [done|]). split; [|intros []]. intros a _.
  apply (placed_stable _ _ Hr2) in Hp. cbn [effect fst wp negb].
  apply wp_bind. eapply wp_mono; [|apply ok_placed; [|exact Hp]; intros v _; by apply conf_any].
  intros p ks3 H3. destruct p as [s| |].
  - apply wp_bind. eapply wp_mono; [|apply ok_placed; [|exact H3]].
    + intros o ks4 H4. by left.
    + intros v _. apply (conf_impl (plain new_run) _ (λ _ _, True)); [by intros []|done|].
      apply DispatchJob_plain. intros cost. exists i. split; [|done]. exists parent, rung. by exists cost.
  - apply wp_bind. eapply wp_mono; [|apply Delete_settled]. done.
  - apply wp_bind. eapply wp_mono; [|apply Delete_settled]. done.
Qed.

Lemma claim_holds v : holding v (λ _, True) (claimForcedRestart withABRLock childID).
Proof.
  assert (holding v (λ _, True) (claim_local childID)) as Hl.
  { intros last now. destruct last as [t|]; [destruct (_ <? _)|]; done. }
  unfold claimForcedRestart. destruct withABRLock; [|done].
  split; [apply restartKey_not_session|]. split; [done|exact Hl].
Qed.

Hypothesis g_pos : 0 <= g.

Lemma ensure_settled parent rung force ks :
  placed ks →
  ok (ensureRungChild child_media job_media withABRLock parent rung childID g force) (λ _ ks, settled ks) ks.
Proof using g_pos.
  intros Hx. unfold ensureRungChild. intros ks1 [|] Hr; apply (placed_stable _ _ Hr) in Hx; [|by left].
  cbn [negb]. apply wp_bind. apply (wp_mono _ _ _ _ _ (λ _ ks, settled ks)).
  { intros o ks2 Hm ks3 Hr3. split; [done|]. by eapply settled_stable. }
  unfold ensure_locked. apply wp_bind. eapply wp_mono; [|by apply ok_Get_placed].
  intros r ks2 [H2 (c & -> & Hid & Ho)]. cbv zeta. destruct (covers _ _ _); [by left|].
  apply wp_bind. apply (wp_mono _ _ _ _ _ (λ _ ks, placed ks)).
  - intros [|] ks3 H3; [|by left]. cbn [negb].
    destruct (Z.eqb_spec g abrAnySeg) as [E|_]; [unfold abrAnySeg in E; lia|].
    apply wp_bind. eapply wp_mono; [|apply (ok_quiet (λ i, i = s_Incarnation c + 1)); simpl; auto 7].
    intros i ks4 -> ks5 now _ _. apply start_rung_settled. destruct Ho as [[_ ->]|[_ ?]]; lia.
  - destruct (_ && _); [|done]. apply ok_placed; [|done]. intros v _. apply claim_holds.
Qed.

(** ** The file served *)
Definition serves_ours (a : answer) : Prop :=
  ∀ c f, a.1 = ServeFile c f → is_ours c.

Lemma serve_ours child name log ks :
  placed ks → is_ours child → ok (serve childID child name log) (λ a _, serves_ours a) ks.
Proof.
  intros Hp Hc. unfold serve. apply wp_bind. eapply wp_mono; [|by apply ok_Get_placed].
  intros r ks1 [H1 (c & -> & Hc')]. cbv zeta. apply wp_bind.
  eapply wp_mono; [|apply ok_placed; [|exact H1]; intros v Hv; by apply transact_holds].
  intros _ ks2 _ c2 f [= <- _]. exact Hc'.
Qed.

Lemma wait_placed name budget ks :
  placed ks → ok (waitRungSegment childID name budget) (λ _ ks, placed ks) ks.
Proof. intros Hp. apply ok_placed; [|done]. intros v Hv now. by apply poll_rung_holds. Qed.

Lemma await_ours parent rung ext child head l log ks :
  placed ks → is_ours child →
  ok (await child_media job_media withABRLock parent rung childID ext g child head l log)
    (λ a _, serves_ours a) ks.
Proof using g_pos.
  intros Hp Hc. unfold await. cbv zeta. apply wp_bind. eapply wp_mono; [|by apply wait_placed].
  intros [|] ks1 H1; [by apply serve_ours|].
  apply wp_bind. eapply wp_mono; [|by apply ensure_settled]. intros o ks2 H2. cbv zeta.
  apply wp_bind. eapply wp_mono; [|by apply ok_Get_settled]. intros r ks3 H3.
  destruct r as [c| |]; [|intros ? ? [=]..]. destruct (H3 c eq_refl) as [Hp3 Hc3].
  apply wp_bind. eapply wp_mono; [|by apply wait_placed].
  intros [|] ks4 H4; [by apply serve_ours|intros ? ? [=]].
Qed.

Lemma variant_segment_ours parent rung ext ks :
  placed ks →
  ok (variant_segment child_media job_media withABRLock parent rung childID ext g) (λ a _, serves_ours a) ks.
Proof using g_pos.
  intros Hp. unfold variant_segment. apply wp_bind. eapply wp_mono; [|by apply ensure_settled].
  intros o1 ks1 H1. apply wp_bind. eapply wp_mono; [|by apply ok_Get_settled]. intros r ks2 H2.
  destruct r as [c| |]; [|intros ? ? [=]..]. destruct (H2 c eq_refl) as [Hp2 Hc2].
  intros ks3 head Hr3. apply (placed_stable _ _ Hr3) in Hp2.
  destruct (abrReachableSoon _ _); [by apply await_ours|].
  apply wp_bind. eapply wp_mono; [|by apply ensure_settled]. intros o ks4 H4.
  apply wp_bind. eapply wp_mono; [|by apply ok_Get_settled]. intros r ks5 H5.
  destruct r as [c'| |]; [|intros ? ? [=]..]. destruct (H5 c' eq_refl) as [Hp5 Hc5]. by apply await_ours.
Qed.
End Files.

(** * The whole request *)
(** The jobs a request queued. *)
Definition pushed (tr : list event) : list TranscodeJob :=
  omap (λ ev, match ev with ECmd (RPUSH _ j) _ _ _ => Some j | _ => None end) tr.
(** The directory a job's run writes to. *)
Definition job_dir (j : TranscodeJob) : string := SessionDirName (j_SessionID j) (j_Incarnation j).

(** Nobody else replaces, moves or removes the child; every call goes through,
    before [T] and after what is written now lasts to [T]. *)
Definition child_undisturbed {S : Type} `{KVServer S} (childID : string) (T : Z) (m : Moment S) : Prop :=
  abides (spot_same childID T) False (window T) m.

Lemma undisturbed_left_alone {S : Type} `{KVServer S} childID T (m : Moment S) :
  child_undisturbed childID T m → child_left_alone childID m.
Proof.
  intros (Hm & Ho & _). split; [|split; [by destruct Ho; [left|done]|done]]. intros s.
  specialize (Hm s). unfold spot_same, spot in Hm. unfold still_child, start_at.
  destruct (vals (keyspace (meddle m s)) !! _) as [[[y|?|?] t]|],
    (vals (keyspace s) !! _) as [[[y'|?|?] t']|]; simpl; congruence.
Qed.

Lemma run_dir job_media childID st i j :
  run_of job_media childID st i j → job_dir j = SessionDirName childID i.
Proof. by intros (parent & rung & cost & ->). Qed.

Lemma pushed_queues job_media childID x g tr j :
  Forall (queues job_media childID x g) tr → j ∈ pushed tr → new_run job_media childID x g j.
Proof.
  intros Ht (ev & Hev & Hj)%list_elem_of_omap. rewrite Forall_forall in Ht. specialize (Ht ev Hev).
  destruct ev as [[] ? ? ?|]; try done. by injection Hj as ->.
Qed.


(** A seek to segment 300 of a child that encodes from 0: the old run was
    queued before, the new one is queued by the request. *)
Definition first_run : TranscodeJob :=
  childJob Sample.no_media Sample.parent Sample.rung720 "p-r720p" 0 0.

Lemma undisturbed_quiet n : Forall (child_undisturbed "p-r720p" 900000) (replicate n Sample.quiet).
Proof.
  apply Forall_replicate. split; [by intros s|]. split; [by left|].
  split; [vm_compute; discriminate|vm_compute; reflexivity].
Qed.

Lemma names_300 ext :
  ext ∈ [".ts"; ".m4s"] → Atoi (TrimSuffix "300.ts" ext) = None ∨ Atoi (TrimSuffix "300.ts" ext) = Some 300.
Proof.
  rewrite !elem_of_cons. intros [->|[->|Hx]].
  - right. vm_compute. reflexivity.
  - left. vm_compute. reflexivity.
  - by apply elem_of_nil in Hx.
Qed.

