(* ===== verification/M3U.v ===== *)
(** Extended M3U playlists: [internal/m3u/m3u.go]. *)
From Stdlib Require Import SpecFloat.
From S2P Require Import Prelude.
From S2P Require Import GoStrings.
From S2P Require Import GoBytes.
From S2P Require Import GoFloat.
From S2P Require Import GoPath.

Local Open Scope Z_scope.

Definition MaxEntries : Z := 10000.

Record Entry := mkEntry { Line : Z; Path : string; Seconds : Z; Artist : string; Title : string }.
#[global] Instance Entry_eta : Eta Entry := λ e, mkEntry (Line e) (Path e) (Seconds e) (Artist e) (Title e).

(** * Decoding *)
(** [utf8.Valid] *)
Definition cont (b : Z) : bool := (128 <=? b) && (b <=? 191).
Definition within (lo hi b : Z) : bool := (lo <=? b) && (b <=? hi).
Fixpoint utf8_valid (s : list Z) : bool :=
  match s with
  | [] => true
  | b0 :: s =>
      if b0 <? 128 then utf8_valid s
      else match s with
      | [] => false
      | b1 :: s1 =>
          if within 194 223 b0 then cont b1 && utf8_valid s1
          else match s1 with
          | [] => false
          | b2 :: s2 =>
              if b0 =? 224 then within 160 191 b1 && cont b2 && utf8_valid s2
              else if b0 =? 237 then within 128 159 b1 && cont b2 && utf8_valid s2
              else if within 225 239 b0 then cont b1 && cont b2 && utf8_valid s2
              else match s2 with
              | [] => false
              | b3 :: s3 =>
                  (if b0 =? 240 then within 144 191 b1
                   else if b0 =? 244 then within 128 143 b1
                   else within 241 243 b0 && cont b1)
                  && cont b2 && cont b3 && utf8_valid s3
              end
          end
      end
  end.
Definition byte_values (s : string) : list Z := byteZ <$> String.list_ascii_of_string s.

(** [strings.Builder.WriteRune] of a rune below 256 *)
Definition latin1_rune (b : Z) : list Z := if b <? 128 then [b] else [192 + b / 64; 128 + b mod 64].
Definition of_values (l : list Z) : string := String.string_of_list_ascii (chr <$> l).

Definition trimBOM (s : string) : string :=
  match CutPrefix s (of_values [239; 187; 191]) with Some r => r | None => s end.

(** [Decode]; [None] is [ErrNotUTF8]. *)
Definition Decode (data : string) (latin1 : bool) : option string :=
  let data := trimBOM data in
  if utf8_valid (byte_values data) then Some data
  else if negb latin1 then None
  else Some (of_values (byte_values data ≫= latin1_rune)).

(** * Parsing *)
(** The tokens of a scanner with [scanLines]: each line, and the length up to
    the end of its terminator's first byte when that is a carriage return. *)
Fixpoint lines_go (s cur : string) : list (string * Z) :=
  match s with
  | EmptyString => if String.eqb cur "" then [] else [(srev cur, slen cur)]
  | String c s' =>
      if Ascii.eqb c lf then (srev cur, slen cur) :: lines_go s' ""
      else if Ascii.eqb c cr then
        match s' with
        | String c2 s2 =>
            if Ascii.eqb c2 lf then (srev cur, slen cur + 1) :: lines_go s2 ""
            else (srev cur, slen cur + 1) :: lines_go s' ""
        | EmptyString => [(srev cur, slen cur + 1)]
        end
      else lines_go s' (String c cur)
  end.

Definition maxLine : Z := 1048576.

(** [cutPrefixFold] *)
Fixpoint cut_fold (s pre : string) {struct pre} : option string :=
  match pre, s with
  | EmptyString, _ => Some s
  | String p pre', String c s' => if Ascii.eqb (lower p) (lower c) then cut_fold s' pre' else None
  | String _ _, EmptyString => None
  end.

(** The display text of an entry, taken apart. *)
Definition split_display (display : string) : string * string :=
  let display := TrimSpace display in
  match CutStr display " - " with
  | Some (a, t) => (TrimSpace a, TrimSpace t)
  | None => ("", display)
  end.

(** [parseExtinf] *)
Definition extinf_seconds (head : string) : Z :=
  match Fields head with
  | f :: _ =>
      match ParseFloat f with
      | Some n => if f64_leb f64_zero n then int_of_f64 (f64_add n f64_0_5) else -1
      | None => -1
      end
  | [] => -1
  end.
Definition parseExtinf (rest : string) : Entry :=
  let '(head, display) := match Cut rest "," with Some p => p | None => (rest, "") end in
  let '(artist, title) := split_display display in
  mkEntry 0 "" (extinf_seconds head) artist title.

Inductive parsed := Entries (l : list Entry) | TooManyEntries | ReadError.

(** The loop; [out] holds the entries so far, last first. *)
Fixpoint parse_lines (ls : list (string * Z)) (line : Z) (pending : option Entry) (out : list Entry) : parsed :=
  match ls with
  | [] => Entries (reverse out)
  | (l, n) :: ls =>
      if maxLine <=? n then ReadError
      else
        let line := line + 1 in
        let s := TrimSpace l in
        if String.eqb s "" then parse_lines ls line pending out
        else if HasPrefix s "#" then
          match cut_fold s "#EXTINF:" with
          | Some rest => parse_lines ls line (Some (parseExtinf rest)) out
          | None => parse_lines ls line pending out
          end
        else
          let e := default (mkEntry 0 "" (-1) "" "") pending in
          if MaxEntries <=? Z.of_nat (length out) then TooManyEntries
          else parse_lines ls line None (e <| Line := line |> <| Path := s |> :: out)
  end.

(** [Parse] *)
Definition Parse (text : string) : parsed := parse_lines (lines_go text "") 0 None [].

(** * Paths *)
Inductive Kind := KindRelative | KindAbsolute | KindURL.

Definition is_letter (c : ascii) : bool := is_upper c || is_lower c.
(** [isScheme] *)
Definition isScheme (s : string) : bool :=
  match s with
  | String c s' =>
      negb (String.eqb s' "") && is_letter c
      && sforall (λ c, is_letter c || is_digit c || mem (String c "") ["+"; "-"; "."]) s'
  | EmptyString => false
  end.

(** [isDrivePath], [IsAbs] *)
Definition isDrivePath (p : string) : bool :=
  match p with String d (String c _) => Ascii.eqb c ":" && is_letter d | _ => false end.
Definition backslash : ascii := chr 92.
Definition IsAbs (p : string) : bool :=
  HasPrefix p sl || HasPrefix p (String backslash (String backslash "")) || isDrivePath p.

(** [url.PathUnescape]; [None] is an error. *)
Definition hex_val (c : ascii) : option Z :=
  if is_digit c then Some (digitZ c)
  else let b := byteZ (lower c) in if within 97 102 b then Some (b - 87) else None.
Fixpoint PathUnescape (s : string) : option string :=
  match s with
  | EmptyString => Some ""
  | String c s' =>
      if Ascii.eqb c "%" then
        match s' with
        | String a (String b s'') =>
            match hex_val a, hex_val b with
            | Some x, Some y => String (chr (16 * x + y)) <$> PathUnescape s''
            | _, _ => None
            end
        | _ => None
        end
      else String c <$> PathUnescape s'
  end.

(** [Classify] *)
Definition file_path (rest : string) : string :=
  let '(host, fp) := match Cut rest slash with Some p => p | None => (rest, "") end in
  let fp := default fp (PathUnescape fp) in
  if negb (String.eqb host "") && negb (EqualFold host "localhost") then
    String backslash (String backslash host) +:+ String backslash (ReplaceByte slash backslash fp)
  else if isDrivePath fp then fp
  else sl +:+ fp.
Definition by_path (p : string) : string * Kind := (p, if IsAbs p then KindAbsolute else KindRelative).
Definition Classify (p : string) : string * Kind :=
  match CutStr p "://" with
  | Some (scheme, rest) =>
      if isScheme scheme then
        if EqualFold scheme "file" then by_path (file_path rest) else (p, KindURL)
      else by_path p
  | None => by_path p
  end.

(** [Components], [FoldedComponents] *)
Definition Components (p : string) : list string :=
  List.filter (λ s, negb (String.eqb s "."))
    (FieldsFunc (λ c, Ascii.eqb c slash || Ascii.eqb c backslash) p).
Definition FoldedComponents (p : string) : list string := map ToLower (Components p).

(** [Join] *)
Definition has_byte (c : ascii) (s : string) : bool := negb (sforall (λ x, negb (Ascii.eqb x c)) s).
Definition Join_ (base rel : string) : string :=
  if String.eqb base "" then ""
  else
    let windows := has_byte backslash base && negb (has_byte slash base) in
    let baseSlash := ReplaceByte backslash slash base in
    let relSlash := ReplaceByte backslash slash rel in
    let joined := Clean (baseSlash +:+ sl +:+ relSlash) in
    let joined := if HasPrefix baseSlash (sl +:+ sl) && negb (HasPrefix joined (sl +:+ sl))
                  then sl +:+ joined else joined in
    if windows then ReplaceByte slash backslash joined else joined.

(** [TrailingMatch], of the components last first *)
Fixpoint common_prefix (a b : list string) (max : nat) : nat :=
  match max, a, b with
  | S max, x :: a, y :: b => if String.eqb x y then S (common_prefix a b max) else O
  | _, _, _ => O
  end.
Definition TrailingMatch (a b : list string) (max : nat) : nat := common_prefix (reverse a) (reverse b) max.

(** * Writing *)
(** The replacer of [oneLine]. *)
Fixpoint unbroken (s : string) : string :=
  match s with
  | EmptyString => ""
  | String c s' =>
      if Ascii.eqb c cr then
        match s' with
        | String c2 s2 => if Ascii.eqb c2 lf then String " " (unbroken s2) else String " " (unbroken s')
        | EmptyString => " "
        end
      else if Ascii.eqb c lf then String " " (unbroken s')
      else String c (unbroken s')
  end.
(** [oneLine] *)
Definition oneLine (s : string) : string :=
  if negb (has_byte cr s || has_byte lf s) then TrimSpace s else TrimSpace (unbroken s).

Record Song := mkSong { so_seconds : Z; so_artist : string; so_title : string; so_path : string }.

(** What an entry says besides its path. *)
Definition display_of (s : Song) : string :=
  let display := oneLine (so_title s) in
  let a := oneLine (so_artist s) in
  if String.eqb a "" then display else a +:+ " - " +:+ display.
Definition shown_seconds (n : Z) : Z := if n <? 0 then -1 else n.

(** [Writer.Entry] *)
Definition entry_text (s : Song) : string :=
  let p := oneLine (so_path s) in
  if String.eqb p "" then ""
  else "#EXTINF:" +:+ Itoa (shown_seconds (so_seconds s)) +:+ "," +:+ display_of s +:+ newline +:+ p +:+ newline.

(** [NewWriter], then the entries, on a writer that does not fail. *)
Fixpoint entries_text (l : list Song) : string :=
  match l with [] => "" | s :: l => entry_text s +:+ entries_text l end.
Definition write (l : list Song) : string := "#EXTM3U" +:+ newline +:+ entries_text l.

(** * What an M3U playlist written by the server says when it is read back. *)
(** * Text on one line *)
Definition unbroken_byte (c : ascii) : bool := negb (Ascii.eqb c lf) && negb (Ascii.eqb c cr).
Definition one_line (s : string) : Prop := sforall unbroken_byte s = true.

(** A fact of every byte of a text holds of what is left after trimming. *)
Lemma sforall_trim_left p s : sforall p s = true → sforall p (trim_left s) = true.
Proof.
  induction s as [|c s IH]; [done|]. simpl. intros [Hc Hs]%andb_true_iff.
  destruct (is_space c); [auto|]. simpl. by rewrite Hc, Hs.
Qed.
Lemma sforall_TrimSpace p s : sforall p s = true → sforall p (TrimSpace s) = true.
Proof.
  intros H. unfold TrimSpace. rewrite sforall_srev. apply sforall_trim_left.
  rewrite sforall_srev. by apply sforall_trim_left.
Qed.

Lemma trim_left_head s : match trim_left s with String c _ => is_space c = false | EmptyString => True end.
Proof. induction s as [|c s IH]; [done|]. simpl. by destruct (is_space c) eqn:E. Qed.

(** Trimming on the right leaves a trimmed left end alone. *)
Lemma trim_left_suffix s : ∃ pre, s = pre +:+ trim_left s.
Proof.
  induction s as [|c s [pre IH]]; [by exists ""|]. simpl. destruct (is_space c); [|by exists ""].
  exists (String c pre). by rewrite IH at 1.
Qed.
Lemma TrimSpace_is_trimmed s : trimmed (TrimSpace s) = true.
Proof.
  unfold trimmed, TrimSpace. apply andb_true_iff. split.
  - destruct (trim_left_suffix (srev (trim_left s))) as [pre E].
    apply (f_equal srev) in E. rewrite srev_srev, srev_app in E.
    pose proof (trim_left_head s) as H. rewrite E in H.
    destruct (srev (trim_left (srev (trim_left s)))) as [|c r]; [done|]. simpl in H. by rewrite H.
  - rewrite srev_srev. pose proof (trim_left_head (srev (trim_left s))) as H.
    destruct (trim_left _); [done|]. by rewrite H.
Qed.

Lemma unbroken_one_line s : one_line (unbroken s).
Proof.
  unfold one_line. assert (∀ n s, (String.length s <= n)%nat → sforall unbroken_byte (unbroken s) = true) as H.
  2: { by apply (H (String.length s)). }
  induction n as [|n IH]; intros [|c s'] Hl; try done; [simpl in Hl; lia|]. cbn [unbroken]. simpl in Hl.
  destruct (Ascii.eqb_spec c cr) as [->|Hcr].
  - destruct s' as [|c2 s2]; [done|]. simpl in Hl. destruct (Ascii.eqb c2 lf); cbn [sforall]; apply IH; simpl; lia.
  - destruct (Ascii.eqb_spec c lf) as [->|Hlf]; [apply IH; lia|]. cbn [sforall]. rewrite IH by lia.
    unfold unbroken_byte. apply Ascii.eqb_neq in Hcr as ->. apply Ascii.eqb_neq in Hlf as ->. done.
Qed.

Lemma oneLine_spec s : one_line (oneLine s) ∧ trimmed (oneLine s) = true.
Proof.
  unfold oneLine. destruct (negb _) eqn:E; (split; [apply sforall_TrimSpace|apply TrimSpace_is_trimmed]).
  - apply negb_true_iff, orb_false_iff in E as [E1 E2]. unfold has_byte in E1, E2.
    apply negb_false_iff in E1, E2. clear - E1 E2. induction s as [|c s IH]; [done|]. simpl in *.
    apply andb_true_iff in E1 as [H1 E1], E2 as [H2 E2]. unfold unbroken_byte at 1. by rewrite H1, H2, IH.
  - apply unbroken_one_line.
Qed.
Lemma one_line_app a b : one_line (a +:+ b) ↔ one_line a ∧ one_line b.
Proof. unfold one_line. rewrite sforall_app, andb_true_iff. done. Qed.

(** ** Scanning *)
Lemma lines_go_line a rest cur :
  one_line a → lines_go (a +:+ newline +:+ rest) cur = (srev cur +:+ a, slen cur + slen a) :: lines_go rest "".
Proof.
  revert cur. induction a as [|c a IH]; intros cur.
  - intros _. cbn. by rewrite sapp_nil_r, Z.add_0_r.
  - unfold one_line. cbn [sforall]. intros [Hc Ha]%andb_true_iff.
    unfold unbroken_byte in Hc. apply andb_true_iff in Hc as [H1 H2]. apply negb_true_iff in H1, H2.
    change (String c a +:+ newline +:+ rest) with (String c (a +:+ newline +:+ rest)).
    cbn [lines_go]. rewrite H1, H2, (IH (String c cur) Ha), srev_snoc, sapp_assoc.
    f_equal. f_equal. unfold slen. cbn [String.length]. lia.
Qed.

(** ** Trimming the right end *)
Lemma trim_left_app a b :
  match b with String c _ => is_space c = false | EmptyString => False end → trim_left (a +:+ b) = trim_left a +:+ b.
Proof.
  intros Hb. induction a as [|c a IH].
  - destruct b as [|c b]; [done|]. simpl. by rewrite Hb.
  - simpl. by destruct (is_space c).
Qed.
Definition rtrim (d : string) : string := srev (trim_left (srev d)).
Lemma TrimSpace_prefixed a d c a' :
  a = String c a' → is_space c = false → match srev a with String c _ => is_space c = false | EmptyString => False end →
  TrimSpace (a +:+ d) = a +:+ rtrim d.
Proof.
  intros -> Hc Hend. unfold TrimSpace, rtrim. rewrite (trim_left_id (String c a' +:+ d)) by done.
  by rewrite srev_app, trim_left_app, srev_app, srev_srev.
Qed.
Lemma TrimSpace_left d : match d with String c _ => is_space c = false | EmptyString => True end → TrimSpace d = rtrim d.
Proof. intros H. unfold TrimSpace. rewrite (trim_left_id d) by exact H. done. Qed.
Lemma trimmed_left d : trimmed d = true → match d with String c _ => is_space c = false | EmptyString => True end.
Proof. unfold trimmed. intros [H _]%andb_true_iff. destruct d; [done|]. by apply negb_true_iff. Qed.
Lemma trimmed_right d : trimmed d = true → match srev d with String c _ => is_space c = false | EmptyString => True end.
Proof. unfold trimmed. intros [_ H]%andb_true_iff. destruct (srev d); [done|]. by apply negb_true_iff. Qed.

(** Trimmed text around anything is trimmed. *)
Lemma trimmed_around a m b : a ≠ "" → b ≠ "" → trimmed a = true → trimmed b = true → trimmed (a +:+ m +:+ b) = true.
Proof.
  intros Ha Hb Hta Htb. unfold trimmed. apply andb_true_iff. split.
  - apply trimmed_left in Hta. destruct a as [|c a]; [done|]. simpl. by rewrite Hta.
  - apply trimmed_right in Htb. rewrite !srev_app. destruct (srev b) as [|c r] eqn:E.
    + by rewrite <- (srev_srev b), E in Hb.
    + simpl. by rewrite Htb.
Qed.

(** * The display text *)
Lemma display_left s : match display_of s with String c _ => is_space c = false | EmptyString => True end.
Proof.
  unfold display_of. destruct (String.eqb_spec (oneLine (so_artist s)) "") as [_|Ha].
  - apply trimmed_left, oneLine_spec.
  - pose proof (trimmed_left _ (proj2 (oneLine_spec (so_artist s)))) as H.
    by destruct (oneLine (so_artist s)).
Qed.
Lemma display_one_line s : one_line (display_of s).
Proof.
  unfold display_of. destruct (String.eqb _ ""); [apply oneLine_spec|].
  rewrite one_line_app. split; [apply oneLine_spec|]. rewrite one_line_app. split; [done|apply oneLine_spec].
Qed.
Lemma split_display_rtrim s : split_display (rtrim (display_of s)) = split_display (display_of s).
Proof.
  unfold split_display. rewrite <- (TrimSpace_left (display_of s)) by apply display_left.
  by rewrite (TrimSpace_trimmed (TrimSpace _)) by apply TrimSpace_is_trimmed.
Qed.

(** A text with a dash between spaces in it. *)
Definition has_dash (s : string) : bool := Contains s " - ".
(** The artist and the title come back when the first separator is the one
    written between them. *)
Definition separable (s : Song) : Prop :=
  oneLine (so_title s) ≠ ""
  ∧ (if String.eqb (oneLine (so_artist s)) "" then has_dash (oneLine (so_title s)) = false
     else CutStr (oneLine (so_artist s) +:+ " - " +:+ oneLine (so_title s)) " - "
          = Some (oneLine (so_artist s), oneLine (so_title s))).
Lemma split_display_exact s :
  separable s → split_display (display_of s) = (oneLine (so_artist s), oneLine (so_title s)).
Proof.
  intros [Ht Hs]. unfold split_display, display_of. destruct (oneLine_spec (so_artist s)) as [_ Hta].
  destruct (oneLine_spec (so_title s)) as [_ Htt].
  destruct (String.eqb_spec (oneLine (so_artist s)) "") as [E|Ha].
  - rewrite TrimSpace_trimmed by done. unfold has_dash in Hs.
    destruct (CutStr (oneLine (so_title s)) " - ") as [[a t]|] eqn:Ec; [|by rewrite E].
    exfalso. rewrite Contains_CutStr, Ec in Hs. done.
  - rewrite (TrimSpace_trimmed (_ +:+ _)) by by apply trimmed_around.
    rewrite Hs. by rewrite !TrimSpace_trimmed.
Qed.

(** * The seconds *)
Lemma Itoa_no_space n : 0 <= n → no_space (Itoa n) = true ∧ Itoa n ≠ "".
Proof.
  intros Hn. split; [by apply digits_no_space, Itoa_digits|].
  rewrite Itoa_nonneg by done. apply pretty_N_digits.
Qed.
Lemma seconds_back n : n < 2 ^ 52 → extinf_seconds (Itoa (shown_seconds n)) = shown_seconds n.
Proof.
  intros Hn. unfold shown_seconds. destruct (Z.ltb_spec n 0); [by vm_compute|].
  unfold extinf_seconds. destruct (Itoa_no_space n) as [Hs He]; [done|].
  assert (Fields (Itoa n) = [Itoa n]) as -> by by apply (fields_go_word (Itoa n) "").
  rewrite ParseFloat_Itoa by lia. rewrite f64_of_Z_nonneg by lia. by rewrite half_up by lia.
Qed.

(** * Reading what was written *)
(** The entry a song is read as, found on the given line. *)
Definition read_as (line : Z) (s : Song) : Entry :=
  let '(artist, title) := split_display (display_of s) in
  mkEntry line (oneLine (so_path s)) (shown_seconds (so_seconds s)) artist title.

(** The lines of an entry. *)
Definition extinf_line (s : Song) : string :=
  "#EXTINF:" +:+ Itoa (shown_seconds (so_seconds s)) +:+ "," +:+ display_of s.

Definition writable (s : Song) : Prop :=
  HasPrefix (oneLine (so_path s)) "#" = false
  ∧ so_seconds s < 2 ^ 52
  ∧ slen (extinf_line s) < maxLine ∧ slen (oneLine (so_path s)) < maxLine.
Definition written (s : Song) : bool := negb (String.eqb (oneLine (so_path s)) "").

Lemma Itoa_one_line n : -1 <= n → one_line (Itoa n).
Proof.
  intros Hn. destruct (Z.eq_dec n (-1)) as [->|]; [done|].
  unfold one_line. eapply sforall_impl; [|apply Itoa_digits; lia].
  intros c Hc. unfold unbroken_byte. unfold is_digit in Hc.
  destruct (Ascii.eqb_spec c lf) as [->|_]; [done|]. by destruct (Ascii.eqb_spec c cr) as [->|_].
Qed.
Lemma shown_range n : -1 <= shown_seconds n.
Proof. unfold shown_seconds. destruct (Z.ltb_spec n 0); lia. Qed.

Lemma extinf_one_line s : one_line (extinf_line s).
Proof.
  unfold extinf_line. rewrite !one_line_app. split_and!; try done; [apply Itoa_one_line, shown_range|apply display_one_line].
Qed.

(** No comma in a number. *)
Lemma Itoa_no_comma n : -1 <= n → sforall (λ c, negb (Ascii.eqb c ",")) (Itoa n) = true.
Proof.
  intros Hn. destruct (Z.eq_dec n (-1)) as [->|]; [done|].
  eapply sforall_impl; [|apply Itoa_digits; lia].
  intros c Hc. by destruct (Ascii.eqb_spec c ",") as [->|_].
Qed.

(** The [#EXTINF] line, as the scanner hands it over. *)
Lemma extinf_parsed s : so_seconds s < 2 ^ 52 →
  ∃ s', TrimSpace (extinf_line s) = String "#" s'
    ∧ cut_fold (String "#" s') "#EXTINF:" = Some (Itoa (shown_seconds (so_seconds s)) +:+ "," +:+ rtrim (display_of s))
    ∧ ∀ line, (parseExtinf (Itoa (shown_seconds (so_seconds s)) +:+ "," +:+ rtrim (display_of s))) <| Line := line |> <| Path := oneLine (so_path s) |>
        = read_as line s.
Proof.
  intros Hs. set (n := Itoa (shown_seconds (so_seconds s))).
  assert (extinf_line s = ("#EXTINF:" +:+ n +:+ ",") +:+ display_of s) as ->.
  { unfold extinf_line. fold n. by rewrite !sapp_assoc. }
  erewrite TrimSpace_prefixed; [|reflexivity|reflexivity|by rewrite !srev_app].
  rewrite !sapp_assoc. eexists. split; [reflexivity|]. split; [by cbn|]. intros line.
  unfold parseExtinf, read_as. change ("," +:+ ?x) with (String "," x). rewrite Cut_app by apply Itoa_no_comma, shown_range.
  rewrite split_display_rtrim. unfold n. rewrite seconds_back by done.
  by destruct (split_display (display_of s)).
Qed.

Lemma parse_entry s rest line pending out :
  writable s → written s = true → Z.of_nat (length out) < MaxEntries →
  parse_lines (lines_go (entry_text s +:+ rest) "") line pending out
  = parse_lines (lines_go rest "") (line + 2) None (read_as (line + 2) s :: out).
Proof.
  intros (Hp & Hs & H1 & H2) Hw Hn. unfold written in Hw. apply negb_true_iff in Hw.
  unfold entry_text. rewrite Hw.
  assert (("#EXTINF:" +:+ Itoa (shown_seconds (so_seconds s)) +:+ "," +:+ display_of s +:+ newline
    +:+ oneLine (so_path s) +:+ newline) +:+ rest
    = extinf_line s +:+ newline +:+ (oneLine (so_path s) +:+ newline +:+ rest)) as ->.
  { unfold extinf_line. by rewrite !sapp_assoc. }
  destruct (oneLine_spec (so_path s)) as [Ho Ht].
  rewrite (lines_go_line (extinf_line s)) by apply extinf_one_line. rewrite lines_go_line by done.
  change (srev "" +:+ ?x) with x. change (slen "" + ?x) with (0 + x). rewrite !Z.add_0_l.
  cbn [parse_lines]. destruct (Z.leb_spec maxLine (slen (extinf_line s))); [lia|].
  destruct (Z.leb_spec maxLine (slen (oneLine (so_path s)))); [lia|].
  destruct (extinf_parsed s Hs) as (s' & -> & -> & Hr). cbn [String.eqb].
  change (HasPrefix (String "#" s') "#") with true. cbn iota.
  rewrite TrimSpace_trimmed by done. rewrite Hw, Hp. cbn [default].
  destruct (Z.leb_spec MaxEntries (Z.of_nat (length out))); [lia|].
  rewrite Hr. f_equal; [lia|]. f_equal. f_equal. lia.
Qed.

Lemma parse_entries l line pending out :
  Forall writable l → Z.of_nat (length out) + Z.of_nat (length (List.filter written l)) <= MaxEntries →
  parse_lines (lines_go (entries_text l) "") line pending out
  = Entries (reverse out ++ imap (λ i s, read_as (line + 2 + 2 * Z.of_nat i) s) (List.filter written l)).
Proof.
  revert line pending out. induction l as [|s l IH]; intros line pending out Hw Hn.
  - cbn. by rewrite app_nil_r.
  - apply Forall_cons in Hw as [Hs Hw]. cbn [entries_text List.filter] in *.
    destruct (written s) eqn:E.
    + cbn [length] in Hn. rewrite parse_entry by (done || lia). rewrite IH; [|done|cbn [length]; lia].
      rewrite reverse_cons, <- app_assoc. cbn [imap app]. f_equal. f_equal. f_equal.
      * f_equal. lia.
      * apply imap_ext. intros i x _. cbn. f_equal. lia.
    + unfold entry_text. unfold written in E. apply negb_false_iff in E. rewrite E.
      apply (IH line pending out Hw Hn).
Qed.

Lemma parse_written (l : list Song) :
  Forall writable l → Z.of_nat (length (List.filter written l)) <= MaxEntries →
  Parse (write l) = Entries (imap (λ i s, read_as (3 + 2 * Z.of_nat i) s) (List.filter written l)).
Proof.
  intros Hw Hn. unfold Parse, write. change ("#EXTM3U" +:+ newline +:+ ?x) with ("#EXTM3U" +:+ newline +:+ x).
  rewrite lines_go_line by done. cbn [parse_lines]. change (maxLine <=? _) with false. cbn iota.
  change (String.eqb (TrimSpace (srev "" +:+ "#EXTM3U")) "") with false.
  change (HasPrefix (TrimSpace (srev "" +:+ "#EXTM3U")) "#") with true.
  change (cut_fold (TrimSpace (srev "" +:+ "#EXTM3U")) "#EXTINF:") with (@None string). cbn iota.
  rewrite parse_entries; [done|done|cbn [length]; lia].
Qed.

(** C19: an exported playlist reads back as what was put into it.  For songs
    that can be written ([writable]: the path, brought to one line, does not
    begin with the comment character [#], the path and the EXTINF line are
    shorter than the reader's line limit, the duration is below 2^52 seconds),
    at most [MaxEntries] of them with a path: reading the written playlist gives
    exactly one entry per song whose path is not blank, in order, on the expected
    line, and no other entry, with the path and the duration (a negative one
    reads as unknown), every line break in a text having become a space.  The
    artist and the title come back when the separator between them is
    unambiguous ([separable]).  Outside these conditions it does not hold: a path
    that begins with [#] is lost ([Sample.hash_path_lost]), an artist with the
    separator in the name is cut short ([Sample.dashed_artist]). *)
Theorem m3u_roundtrip (l : list Song)
    (Hw : Forall writable l)
    (Hn : Z.of_nat (length (List.filter written l)) <= MaxEntries) :
  Parse (write l) = Entries (imap (λ i s, read_as (3 + 2 * Z.of_nat i) s) (List.filter written l))
  ∧ ∀ s line, Path (read_as line s) = oneLine (so_path s)
      ∧ Seconds (read_as line s) = shown_seconds (so_seconds s)
      ∧ (separable s → Artist (read_as line s) = oneLine (so_artist s) ∧ Title (read_as line s) = oneLine (so_title s)).
Proof.
  split.
  - by apply parse_written.
  - intros s line. unfold read_as. destruct (split_display (display_of s)) as [a t] eqn:E. cbn.
    split_and!; try done. intros Hs. rewrite split_display_exact in E by done. by injection E as <- <-.
Qed.

Module Sample.
Definition nl : string := newline.
Definition songs : list Song :=
  [mkSong 215 "Kate Bush" ("Running" +:+ nl +:+ "#EXTINF:1,x" +:+ nl +:+ "/etc/passwd") "Kate Bush/01.flac";
   mkSong (-5) "" "Untitled" "  "; mkSong 0 "" "Solo" "C:\Music\solo.mp3"].

Lemma m3u_roundtrip_witness :
  Parse (write songs) = Entries (imap (λ i s, read_as (3 + 2 * Z.of_nat i) s) (List.filter written songs))
  ∧ ∀ s line, Path (read_as line s) = oneLine (so_path s)
      ∧ Seconds (read_as line s) = shown_seconds (so_seconds s)
      ∧ (separable s → Artist (read_as line s) = oneLine (so_artist s) ∧ Title (read_as line s) = oneLine (so_title s)).
Proof.
  apply (m3u_roundtrip songs).
  - repeat constructor.
  - discriminate.
Defined.

Example songs_read :
  Parse (write songs) = Entries
    [mkEntry 3 "Kate Bush/01.flac" 215 "Kate Bush" "Running #EXTINF:1,x /etc/passwd";
     mkEntry 5 "C:\Music\solo.mp3" 0 "" "Solo"].
Proof. vm_compute. reflexivity. Qed.

(** A file name that begins with the comment character is lost, and what was
    said of it is then said of the next one. *)
Example hash_path_lost :
  Parse (write [mkSong 10 "" "First" "#1 Crush.mp3"; mkSong 20 "" "Second" ""; mkSong 30 "" "" "b.mp3"])
  = Entries [mkEntry 5 "b.mp3" 30 "" ""]
  ∧ Parse (write [mkSong 10 "" "First" "#1 Crush.mp3"] +:+ "b.mp3") = Entries [mkEntry 4 "b.mp3" 10 "" "First"].
Proof. vm_compute. done. Qed.

(** An artist name with the separator in it is cut short. *)
Example dashed_artist :
  Parse (write [mkSong 10 "Earth - Wind" "Fire" "a.mp3"]) = Entries [mkEntry 3 "a.mp3" 10 "Earth" "Wind - Fire"].
Proof. vm_compute. reflexivity. Qed.
End Sample.
