(* ===== verification/M3UImport.v ===== *)
(** Playlist export and import: [internal/api/v1/playlists_m3u.go] and
    [internal/db/queries/playlist_m3u.sql].

    The statements are functions of the tables; the files are listed in the
    order of their paths and the tracks in that of their IDs. *)
From S2P Require Import Prelude.
From S2P Require Import GoStrings.
From S2P Require Import GoBytes.
From S2P Require Import GoPath.
From S2P Require Import Tokens.
From S2P Require Import M3U.

Local Open Scope Z_scope.

Definition m3uCandidateCap : nat := 50000.
Definition m3uSuffixDepth : nat := 3.

(** * What the caller may see *)
(** [media_files] joined with [media_items]. *)
Record FileRow := mkFileRow {
  fr_path : string; fr_item : UUID; fr_title : string; fr_active : bool; fr_deleted : bool;
  fr_library : UUID; fr_rank : Z }.
(** A track of [media_items] with its first credited artist (or its album's)
    and the artist of its album. *)
Record TrackRow := mkTrackRow {
  tr_id : UUID; tr_title : string; tr_artist : string; tr_album_artist : string;
  tr_track : bool; tr_deleted : bool; tr_library : UUID; tr_rank : Z }.
Record Library := mkLibrary { lib_ID : UUID; lib_ScanPaths : list string }.

(** [m3uVisibility]; [labels_ok] is [media_item_labels_permitted] for the
    caller's lists. *)
Record Visibility := mkVisibility {
  libraryIDs : option (list UUID); maxRank : option Z; labels_ok : UUID → bool }.
Definition granted_library (v : Visibility) (l : UUID) : bool :=
  match libraryIDs v with None => true | Some ids => existsb (N.eqb l) ids end.
Definition within_rank (v : Visibility) (rank : Z) : bool :=
  match maxRank v with None => true | Some m => rank <=? m end.

Definition file_visible (v : Visibility) (f : FileRow) : bool :=
  fr_active f && negb (fr_deleted f) && granted_library v (fr_library f) && within_rank v (fr_rank f)
  && labels_ok v (fr_item f).
Definition track_visible (v : Visibility) (t : TrackRow) : bool :=
  tr_track t && negb (tr_deleted t) && granted_library v (tr_library t) && within_rank v (tr_rank t)
  && labels_ok v (tr_id t).

(** What follows the last slash of either kind. *)
Definition basename (p : string) : string :=
  last_elem (ReplaceByte backslash slash p).

(** [FindM3UFilesByPath], [FindM3UFilesByBasename], [FindM3UTracksByTitle] *)
Definition FindM3UFilesByPath (v : Visibility) (files : list FileRow) (paths : list string) : list FileRow :=
  List.filter (λ f, mem (fr_path f) paths && file_visible v f) files.
Definition FindM3UFilesByBasename (v : Visibility) (files : list FileRow) (basenames : list string) : list FileRow :=
  take m3uCandidateCap (List.filter (λ f, mem (ToLower (basename (fr_path f))) basenames && file_visible v f) files).
Definition FindM3UTracksByTitle (v : Visibility) (tracks : list TrackRow) (titles : list string) : list TrackRow :=
  take m3uCandidateCap (List.filter (λ t, mem (ToLower (tr_title t)) titles && track_visible v t) tracks).

(** * Export *)
(** [libraryRelativePath] *)
Definition trim_right_slashes (s : string) : string := srev (trim_slashes_rev (srev s)).
Fixpoint best_root (fp : string) (roots : list string) (best : string) : string :=
  match roots with
  | [] => best
  | root :: roots =>
      let rt := trim_right_slashes (ReplaceByte backslash slash root) in
      best_root fp roots
        (if String.eqb rt "" then best
         else if HasPrefix fp (rt +:+ sl) && (slen best <? slen rt) then rt else best)
  end.
Definition libraryRelativePath (filePath : string) (roots : list string) : string :=
  let fp := ReplaceByte backslash slash filePath in
  let best := best_root fp roots "" in
  if String.eqb best "" then filePath
  else default "" (CutPrefix fp (best +:+ sl)).

(** One row of [ListM3UExportRows]. *)
Record ExportRow := mkExportRow {
  ex_id : UUID; ex_type : string; ex_title : string; ex_artist : string; ex_path : string;
  ex_file_ms : option Z; ex_item_ms : option Z; ex_roots : list string }.

(** The loop of [ExportM3U] *)
Definition export_song (absolute : bool) (row : ExportRow) : Song :=
  let p := if absolute then ex_path row else libraryRelativePath (ex_path row) (ex_roots row) in
  let ms := match ex_file_ms row with
            | Some n => if n <=? 0 then ex_item_ms row else Some n
            | None => ex_item_ms row
            end in
  let secs := match ms with Some n => if 0 <? n then (n + 500) / 1000 else -1 | None => -1 end in
  let artist := if mem (ex_type row) ["track"; "episode"] then ex_artist row else "" in
  mkSong secs artist (ex_title row) p.
Definition ExportM3U (absolute : bool) (rows : list ExportRow) : string := write (map (export_song absolute) rows).

(** * Import *)
Inductive method := ByPath | ByRelative | BySuffix | ByTags.
Record Match := mkMatch { m_item : UUID; m_title : string; m_method : method }.

(** The candidates of an entry, in the order tried. *)
Definition candidates (roots : list string) (baseDir : string) (c : string * Kind) : list (string * method) :=
  match c.2 with
  | KindURL => []
  | KindAbsolute => [(c.1, ByPath)]
  | KindRelative =>
      let bases := if String.eqb baseDir "" then roots else baseDir :: roots in
      List.filter (λ p : string * method, negb (String.eqb p.1 "")) (map (λ b, (Join_ b c.1, ByRelative)) bases)
  end.
(** The row of a path; paths are unique. *)
Definition row_of (rows : list FileRow) (p : string) : option FileRow :=
  find_first (λ f, String.eqb (fr_path f) p) rows.
Fixpoint first_hit (rows : list FileRow) (cs : list (string * method)) : option Match :=
  match cs with
  | [] => None
  | (p, m) :: cs =>
      match row_of rows p with
      | Some f => Some (mkMatch (fr_item f) (fr_title f) m)
      | None => first_hit rows cs
      end
  end.

(** The folded components of an entry, last first, when there are any. *)
Definition last_comp (comps : list string) : option string :=
  match reverse comps with c :: _ => Some c | [] => None end.

(** The candidate with the longest shared end, the first of several. *)
Fixpoint best_suffix (ec : list string) (need : nat) (list_ : list FileRow) (best : option FileRow) (bestN : nat) :
    option FileRow :=
  match list_ with
  | [] => best
  | f :: fs =>
      let n := TrailingMatch ec (FoldedComponents (fr_path f)) m3uSuffixDepth in
      if Nat.leb need n && Nat.ltb bestN n then best_suffix ec need fs (Some f) n
      else best_suffix ec need fs best bestN
  end.
Definition suffix_match (rows : list FileRow) (p : string) : option Match :=
  let ec := FoldedComponents p in
  match last_comp ec with
  | None => None
  | Some b =>
      let need := Nat.min 2 (length ec) in
      let list_ := List.filter (λ f, bool_decide (last_comp (FoldedComponents (fr_path f)) = Some b)) rows in
      if Nat.eqb need 1 && negb (Nat.eqb (length list_) 1) then None
      else (λ f, mkMatch (fr_item f) (fr_title f) BySuffix) <$> best_suffix ec need list_ None 0
  end.

Definition tag_match (rows : list TrackRow) (e : Entry) : option Match :=
  if String.eqb (Title e) "" then None
  else
    let list_ := List.filter (λ t, String.eqb (ToLower (tr_title t)) (ToLower (Title e))) rows in
    let pick :=
      if String.eqb (Artist e) "" then match list_ with [t] => Some t | _ => None end
      else find_first (λ t, EqualFold (tr_artist t) (Artist e) || EqualFold (tr_album_artist t) (Artist e)) list_ in
    (λ t, mkMatch (tr_id t) (tr_title t) ByTags) <$> pick.

(** What is left to try for an entry. *)
Definition open (c : string * Kind) (m : option Match) : bool :=
  match c.2, m with KindURL, _ | _, Some _ => false | _, None => true end.

(** The passes of [resolveM3U], each on the rows its query answered. *)
Definition roots_of (v : Visibility) (libs : list Library) : list string :=
  concat (map lib_ScanPaths (List.filter (λ l, granted_library v (lib_ID l)) libs)).
Definition classes_of (entries : list Entry) : list (string * Kind) := map (λ e, Classify (Path e)) entries.
Definition cands_of (roots : list string) (baseDir : string) (entries : list Entry) : list (list (string * method)) :=
  map (candidates roots baseDir) (classes_of entries).
Definition pass1 (byPath : list FileRow) (cands : list (list (string * method))) : list (option Match) :=
  map (first_hit byPath) cands.
Definition wanted_bases (classes : list (string * Kind)) (ms : list (option Match)) : list string :=
  omap (λ p : (string * Kind) * option Match,
    if open p.1 p.2 then last_comp (FoldedComponents p.1.1) else None) (zip classes ms).
Definition pass2 (byBase : list FileRow) (classes : list (string * Kind)) (ms : list (option Match)) : list (option Match) :=
  zip_with (λ (c : string * Kind) m, if open c m then suffix_match byBase c.1 else m) classes ms.
Definition wanted_titles (entries : list Entry) (classes : list (string * Kind)) (ms : list (option Match)) : list string :=
  omap (λ p : Entry * ((string * Kind) * option Match),
    if open p.2.1 p.2.2 && negb (String.eqb (Title p.1) "") then Some (ToLower (Title p.1)) else None)
    (zip entries (zip classes ms)).
Definition pass3 (byTitle : list TrackRow) (entries : list Entry) (classes : list (string * Kind))
    (ms : list (option Match)) : list (option Match) :=
  zip_with (λ e (p : (string * Kind) * option Match), if open p.1 p.2 then tag_match byTitle e else p.2)
    entries (zip classes ms).

(** [resolveM3U] on tables that do not change meanwhile: the match of each
    entry. *)
Definition resolveM3U (libs : list Library) (files : list FileRow) (tracks : list TrackRow) (v : Visibility)
    (entries : list Entry) (baseDir : string) : list (option Match) :=
  let classes := classes_of entries in
  let cands := cands_of (roots_of v libs) baseDir entries in
  let ms1 := pass1 (FindM3UFilesByPath v files (map fst (concat cands))) cands in
  let ms2 := pass2 (FindM3UFilesByBasename v files (wanted_bases classes ms1)) classes ms1 in
  pass3 (FindM3UTracksByTitle v tracks (wanted_titles entries classes ms2)) entries classes ms2.

(** [itemIDs]: each matched item once, in order. *)
Fixpoint distinct (l seen : list UUID) : list UUID :=
  match l with
  | [] => []
  | x :: l => if existsb (N.eqb x) seen then distinct l seen else x :: distinct l (x :: seen)
  end.
Definition itemIDs (ms : list (option Match)) : list UUID := distinct (map m_item (omap id ms)) [].

(** * What importing a playlist may match, and that an exported one imports as
    itself. *)
(** * Each entry on its own *)
Lemma zip_with_lookup_Some {A B C} (f : A → B → C) l k i z :
  zip_with f l k !! i = Some z ↔ ∃ x y, l !! i = Some x ∧ k !! i = Some y ∧ z = f x y.
Proof. rewrite lookup_zip_with_Some. naive_solver. Qed.

Lemma find_first_in {A} (p : A → bool) l x : find_first p l = Some x → List.In x l ∧ p x = true.
Proof.
  induction l as [|y l IH]; simpl; [done|]. destruct (p y) eqn:E; [intros [= ->]; auto|]. intros H. by destruct (IH H); auto.
Qed.

Lemma find_first_only {A} (p : A → bool) l x :
  List.In x l → p x = true → (∀ y, List.In y l → p y = true → y = x) → find_first p l = Some x.
Proof.
  intros Hx Hp Hu. destruct (find_first p l) as [y|] eqn:E.
  - apply find_first_in in E as [H1 H2]. by rewrite (Hu y).
  - exfalso. induction l as [|y l IH]; [done|]. simpl in E. destruct (p y) eqn:Ey; [done|].
    destruct Hx as [->|Hx]; [by rewrite Hp in Ey|]. apply IH; [done| |done]. intros z Hz. apply Hu. by right.
Qed.

Section Matching.
Variables (libs : list Library) (files : list FileRow) (tracks : list TrackRow) (v : Visibility) (baseDir : string).
Definition roots : list string := roots_of v libs.

(** What a match of an entry may be. *)
Definition justified (e : Entry) (m : Match) : Prop :=
  let c := Classify (Path e) in
  match m_method m with
  | ByPath => c.2 = KindAbsolute
      ∧ ∃ f, List.In f files ∧ file_visible v f = true ∧ fr_item f = m_item m ∧ fr_path f = c.1
  | ByRelative => c.2 = KindRelative
      ∧ ∃ f b, List.In f files ∧ file_visible v f = true ∧ fr_item f = m_item m
          ∧ List.In b (baseDir :: roots) ∧ fr_path f = Join_ b c.1
  | BySuffix => c.2 ≠ KindURL
      ∧ ∃ f, List.In f files ∧ file_visible v f = true ∧ fr_item f = m_item m
          ∧ let ec := FoldedComponents c.1 in
            ec ≠ [] ∧ (Nat.min 2 (length ec) <= TrailingMatch ec (FoldedComponents (fr_path f)) m3uSuffixDepth)%nat
  | ByTags => c.2 ≠ KindURL
      ∧ ∃ t, List.In t tracks ∧ track_visible v t = true ∧ tr_id t = m_item m
          ∧ ToLower (tr_title t) = ToLower (Title e) ∧ Title e ≠ ""
          ∧ (Artist e = "" ∨ ToLower (tr_artist t) = ToLower (Artist e) ∨ ToLower (tr_album_artist t) = ToLower (Artist e))
  end.

Lemma by_path_visible paths f :
  List.In f (FindM3UFilesByPath v files paths) → List.In f files ∧ file_visible v f = true.
Proof. unfold FindM3UFilesByPath. rewrite filter_In, andb_true_iff. tauto. Qed.
Lemma In_take {A} n (l : list A) x : List.In x (take n l) → List.In x l.
Proof. intros H. rewrite <- (take_drop n l). apply in_or_app. by left. Qed.
Lemma by_basename_visible names f :
  List.In f (FindM3UFilesByBasename v files names) → List.In f files ∧ file_visible v f = true.
Proof. intros H%In_take. rewrite filter_In, andb_true_iff in H. tauto. Qed.
Lemma by_title_visible titles t :
  List.In t (FindM3UTracksByTitle v tracks titles) → List.In t tracks ∧ track_visible v t = true.
Proof. intros H%In_take. rewrite filter_In, andb_true_iff in H. tauto. Qed.

Lemma first_hit_Some rows cs m :
  first_hit rows cs = Some m →
  ∃ p f, List.In (p, m_method m) cs ∧ List.In f rows ∧ fr_path f = p ∧ fr_item f = m_item m.
Proof.
  induction cs as [|[p me] cs IH]; simpl; [done|]. destruct (row_of rows p) as [f|] eqn:E.
  - intros [= <-]. apply find_first_in in E as [Hf Hp]. apply String.eqb_eq in Hp. exists p, f. auto.
  - intros H. destruct (IH H) as (p' & f & H1 & H2). exists p', f. tauto.
Qed.

Lemma pass1_justified paths e m :
  first_hit (FindM3UFilesByPath v files paths) (candidates roots baseDir (Classify (Path e))) = Some m →
  justified e m.
Proof.
  intros H. apply first_hit_Some in H as (p & f & Hc & Hf & Hp & Hi). apply by_path_visible in Hf as [Hf Hv].
  unfold candidates in Hc. unfold justified. destruct (Classify (Path e)) as [q []]; cbn [fst snd] in *.
  - apply filter_In in Hc as [Hc _]. apply in_map_iff in Hc as (b & [= <- <-] & Hb). split; [done|].
    exists f, b. repeat split; try done. destruct (String.eqb baseDir ""); [by right|exact Hb].
  - destruct Hc as [[= <- <-]|[]]. split; [done|]. by exists f.
  - destruct Hc.
Qed.

Lemma best_suffix_Some ec need l best n f :
  best_suffix ec need l best n = Some f →
  best = Some f ∨ List.In f l ∧ (need <= TrailingMatch ec (FoldedComponents (fr_path f)) m3uSuffixDepth)%nat.
Proof.
  revert best n. induction l as [|g l IH]; intros best n; cbn [best_suffix]; [by left|].
  destruct (Nat.leb_spec need (TrailingMatch ec (FoldedComponents (fr_path g)) m3uSuffixDepth)); cbn [andb].
  - destruct (Nat.ltb _ _); intros H1; destruct (IH _ _ H1) as [E|[H2 H3]]; auto.
    + injection E as ->. right. split; [by left|done].
    + right. split; [by right|done].
    + right. split; [by right|done].
  - intros H1. destruct (IH _ _ H1) as [E|[H2 H3]]; auto. right. split; [by right|done].
Qed.

Lemma suffix_justified names e m :
  (Classify (Path e)).2 ≠ KindURL →
  suffix_match (FindM3UFilesByBasename v files names) (Classify (Path e)).1 = Some m → justified e m.
Proof.
  intros Hk. unfold suffix_match. set (ec := FoldedComponents _).
  destruct (last_comp ec) as [b|] eqn:Eb; [|done]. destruct (_ && _); [done|].
  destruct (best_suffix _ _ _ _ _) as [f|] eqn:Ef; [|done]. intros [= <-].
  apply best_suffix_Some in Ef as [[=]|[Hf Hn]]. apply filter_In in Hf as [Hf _].
  apply by_basename_visible in Hf as [Hf Hv]. unfold justified. cbn [m_method m_item]. split; [done|].
  exists f. fold ec. repeat split; try done. intros E. by rewrite E in Eb.
Qed.

Lemma tag_justified titles e m :
  (Classify (Path e)).2 ≠ KindURL →
  tag_match (FindM3UTracksByTitle v tracks titles) e = Some m → justified e m.
Proof.
  intros Hk. unfold tag_match. destruct (String.eqb_spec (Title e) "") as [|Ht]; [done|].
  set (l := List.filter _ _). intros H.
  assert (∃ t, List.In t l ∧ m = mkMatch (tr_id t) (tr_title t) ByTags
    ∧ (Artist e = "" ∨ EqualFold (tr_artist t) (Artist e) || EqualFold (tr_album_artist t) (Artist e) = true))
    as (t & Hl & -> & Ha).
  { destruct (String.eqb_spec (Artist e) "") as [Ea|Ea].
    - destruct l as [|t [|]]; [done| |done]. injection H as <-. exists t. simpl. auto.
    - destruct (find_first _ l) as [t|] eqn:Ef; [|done]. injection H as <-.
      apply find_first_in in Ef as [H1 H2]. exists t. auto. }
  apply filter_In in Hl as [Hl Hm]. apply by_title_visible in Hl as [Hl Hv]. apply String.eqb_eq in Hm.
  unfold justified. cbn [m_method m_item]. split; [done|]. exists t. repeat split; try done.
  destruct Ha as [Ha|Ha]; [by left|]. apply orb_true_iff in Ha as [Ha|Ha]; apply EqualFold_spec in Ha; auto.
Qed.

Lemma distinct_spec l seen : NoDup (distinct l seen) ∧ ∀ x, List.In x (distinct l seen) → List.In x l ∧ ¬ List.In x seen.
Proof.
  revert seen. induction l as [|y l IH]; intros seen; simpl; [split; [constructor|done]|].
  destruct (existsb (N.eqb y) seen) eqn:E.
  - destruct (IH seen) as [H1 H2]. split; [done|]. intros x Hx. destruct (H2 x Hx). auto.
  - destruct (IH (y :: seen)) as [H1 H2].
    assert (¬ List.In y seen) as Hy.
    { intros Hy. apply Bool.not_true_iff_false in E. apply E, existsb_exists. exists y. by rewrite N.eqb_refl. }
    split.
    + constructor; [|done]. rewrite list_elem_of_In. intros Hx. destruct (H2 y Hx) as [_ H3]. apply H3. by left.
    + intros x [<-|Hx]; [auto|]. destruct (H2 x Hx) as [H3 H4]. split; [auto|]. intros H5. apply H4. by right.
Qed.

#[local] Instance Kind_eq_dec : EqDecision Kind.
Proof. solve_decision. Defined.
Lemma open_url c (q : option Match) : c.2 = KindURL → open c q = false.
Proof. unfold open. by intros ->. Qed.
Lemma open_some c m : open c (Some m) = false.
Proof. unfold open. by destruct (c.2). Qed.
Lemma open_none c : c.2 ≠ KindURL → open c None = true.
Proof. unfold open. by destruct (c.2). Qed.

Lemma resolve_length (entries : list Entry) : length (resolveM3U libs files tracks v entries baseDir) = length entries.
Proof. unfold resolveM3U, pass1, pass2, pass3, cands_of, classes_of. cbv zeta. repeat rewrite ?length_zip_with, ?length_map. lia. Qed.

Lemma resolve_justified (entries : list Entry) i e m :
  entries !! i = Some e → resolveM3U libs files tracks v entries baseDir !! i = Some (Some m) →
  (Classify (Path e)).2 ≠ KindURL ∧ justified e m.
Proof.
  intros He Hm. unfold resolveM3U, pass1, pass2, pass3, cands_of, classes_of in Hm. fold roots in Hm. cbv zeta in Hm.
  apply zip_with_lookup_Some in Hm as (e' & [c m2] & He' & Hz & Hm). rewrite He in He'. injection He' as <-.
  apply lookup_zip_with_Some in Hz as (c' & m2' & [= -> ->] & Hc & Hm2). rewrite list_lookup_fmap, He in Hc.
  injection Hc as <-.
  apply zip_with_lookup_Some in Hm2 as (c1 & m1 & Hc1 & Hm1 & ->).
  rewrite list_lookup_fmap, He in Hc1. injection Hc1 as <-.
  rewrite !list_lookup_fmap, He in Hm1. injection Hm1 as <-. cbn [fst snd] in Hm.
  set (h := first_hit _ _) in *. assert (∀ m, h = Some m → justified e m) as H1 by (intros; by eapply pass1_justified).
  destruct (Kind_eq_dec ((Classify (Path e)).2) KindURL) as [Hk|Hk].
  { assert (h = None) as Hh by (unfold h, candidates; by rewrite Hk). rewrite Hh in Hm; cbn beta in Hm; rewrite !(open_url _ _ Hk) in Hm; done. }
  split; [done|]. clearbody h. destruct h as [m1|].
  + rewrite !open_some in Hm. cbv beta iota in Hm. injection Hm as ->. by apply H1.
  + rewrite (open_none _ Hk) in Hm. destruct (suffix_match _ _) as [m2|] eqn:Es.
    * rewrite open_some in Hm. injection Hm as ->. by eapply suffix_justified.
    * rewrite (open_none _ Hk) in Hm. by eapply tag_justified.
Qed.

(** C21: an import can only name items the caller could open, and only for a
    reason.  Every match of an entry is a file or track that passes the
    caller's visibility: by its exact absolute path, by the path joined to the
    given directory or to a root of a library granted to the caller, by the
    last two components (or a bare file name) of the path, or by a track's title and, when one
    is given, artist.  A web address never matches, and no item is added
    twice. *)
Theorem import_only_visible (entries : list Entry) :
  length (resolveM3U libs files tracks v entries baseDir) = length entries
  ∧ (∀ i e m, entries !! i = Some e → resolveM3U libs files tracks v entries baseDir !! i = Some (Some m) →
       (Classify (Path e)).2 ≠ KindURL ∧ justified e m)
  ∧ NoDup (itemIDs (resolveM3U libs files tracks v entries baseDir)).
Proof.
  split; [|split; [|apply distinct_spec]].
  - apply resolve_length.
  - intros i e m. apply resolve_justified.
Qed.

(** * Importing what was exported *)
Lemma resolve_by_path (entries : list Entry) i e p f :
  entries !! i = Some e → Classify (Path e) = (p, KindAbsolute) →
  List.In f files → file_visible v f = true → fr_path f = p →
  (∀ g, List.In g files → fr_path g = p → g = f) →
  resolveM3U libs files tracks v entries baseDir !! i = Some (Some (mkMatch (fr_item f) (fr_title f) ByPath)).
Proof.
  intros He Hc Hf Hv Hp Hu. unfold resolveM3U, pass1, pass2, pass3, cands_of, classes_of. cbv zeta.
  set (byPath := FindM3UFilesByPath _ _ _).
  assert (first_hit byPath (candidates roots baseDir (Classify (Path e))) = Some (mkMatch (fr_item f) (fr_title f) ByPath)) as Hh.
  { rewrite Hc. unfold candidates. cbn [fst snd first_hit].
    assert (row_of byPath p = Some f) as ->; [|done]. unfold row_of. apply find_first_only.
    - unfold byPath, FindM3UFilesByPath. apply filter_In. split; [done|]. rewrite Hv, andb_true_r. apply mem_spec, list_elem_of_In.
      apply in_map_iff. exists (p, ByPath). split; [done|]. apply in_concat. exists (candidates roots baseDir (Classify (Path e))). split.
      + apply in_map, in_map_iff. exists e. split; [done|]. apply list_elem_of_In. by eapply list_elem_of_lookup_2.
      + rewrite Hc. by left.
    - by apply String.eqb_eq.
    - intros g Hg Hg'. apply String.eqb_eq in Hg'. apply by_path_visible in Hg as [Hg _]. by apply Hu. }
  rewrite !lookup_zip_with, !list_lookup_fmap, He. cbn [fmap option_fmap option_map mbind option_bind].
  fold roots. rewrite Hh. cbn [fst snd]. rewrite !open_some. done.
Qed.
End Matching.

(** The exported song is a line of its own that names the file absolutely. *)
Record exportable (files : list FileRow) (v : Visibility) (row : ExportRow) (f : FileRow) : Prop := {
  exp_writable : writable (export_song true row);
  exp_oneLine : oneLine (ex_path row) = ex_path row;
  exp_abs : HasPrefix (ex_path row) sl = true;
  exp_in : List.In f files;
  exp_visible : file_visible v f = true;
  exp_path : fr_path f = ex_path row;
  exp_item : fr_item f = ex_id row }.

Lemma Classify_rooted p : HasPrefix p sl = true → Classify p = (p, KindAbsolute).
Proof.
  intros H. assert (by_path p = (p, KindAbsolute)) as Hb by (unfold by_path, IsAbs; by rewrite H).
  unfold Classify. destruct (CutStr p "://") as [[sch r]|] eqn:E; [|done].
  assert (isScheme sch = false) as ->; [|done].
  destruct p as [|c p]; [done|]. unfold HasPrefix, sl in H. cbn [CutPrefix] in H.
  destruct (Ascii.eqb_spec slash c) as [<-|]; [|done]. cbn in E.
  destruct (CutStr p "://") as [[s' r']|]; [|done]. injection E as <- <-. cbn [isScheme].
  change (is_letter slash) with false. by rewrite andb_false_r.
Qed.

(** C35: what one server exports with absolute paths, it imports again as the
    same items in the same order, each found by its path - for every caller
    who may see them, whatever the playlist's other text and whatever base
    directory is given. *)
Theorem export_import_same libs files tracks v baseDir (rows : list ExportRow) (fs : list FileRow)
    (Hu : ∀ f g, List.In f files → List.In g files → fr_path f = fr_path g → f = g)
    (Hr : Forall2 (exportable files v) rows fs)
    (Hn : Z.of_nat (length rows) <= MaxEntries) :
  ∃ entries, Parse (ExportM3U true rows) = Entries entries
  ∧ let ms := resolveM3U libs files tracks v entries baseDir in
    ms = map (λ f, Some (mkMatch (fr_item f) (fr_title f) ByPath)) fs
    ∧ itemIDs ms = distinct (map ex_id rows) [].
Proof.
  assert (List.filter written (map (export_song true) rows) = map (export_song true) rows) as Hw.
  { clear Hn. induction Hr as [|row f rows fs Hx _ IH]; [done|]. cbn [map List.filter]. rewrite IH.
    assert (written (export_song true row) = true) as ->; [|done]. unfold written. cbn [so_path export_song].
    rewrite (exp_oneLine _ _ _ _ Hx). pose proof (exp_abs _ _ _ _ Hx). by destruct (ex_path row). }
  eexists. split.
  { unfold ExportM3U. apply parse_written.
    - apply Forall_fmap. clear Hn Hw. induction Hr as [|row f rows fs Hx _ IH]; constructor; [by eapply exp_writable|done].
    - by rewrite Hw, length_map. }
  rewrite Hw. set (entries := imap _ _). cbv zeta.
  assert (resolveM3U libs files tracks v entries baseDir = map (λ f, Some (mkMatch (fr_item f) (fr_title f) ByPath)) fs) as ->.
  { apply list_eq_same_length with (length fs); [by rewrite length_map| |].
    - rewrite resolve_length. unfold entries. rewrite length_imap, length_map. by eapply Forall2_length.
    - intros i x y Hi Hx Hy. rewrite list_lookup_fmap in Hy. destruct (fs !! i) as [f|] eqn:Ef; [|done].
      injection Hy as <-. destruct (Forall2_lookup_r _ _ _ _ _ Hr Ef) as (row & Hrow & He).
      rewrite (resolve_by_path libs files tracks v baseDir entries i (read_as (3 + 2 * Z.of_nat i) (export_song true row)) (ex_path row) f) in Hx;
        [by injection Hx as <-| | |by destruct He..|].
      + unfold entries. by rewrite list_lookup_imap, list_lookup_fmap, Hrow.
      + assert (Path (read_as (3 + 2 * Z.of_nat i) (export_song true row)) = oneLine (ex_path row)) as ->
          by (unfold read_as; by destruct (split_display _)). rewrite (exp_oneLine _ _ _ _ He). apply Classify_rooted. by destruct He.
      + intros g Hg Hp. apply Hu; [done|by destruct He|]. rewrite Hp. symmetry. by destruct He. }
  split; [done|]. unfold itemIDs. f_equal. clear Hn Hw entries. induction Hr as [|row f rows fs Hx _ IH]; [done|].
  cbn. f_equal; [by destruct Hx|exact IH].
Qed.


Module Sample.
Definition lib : UUID := 7%N.
Definition file1 : FileRow := mkFileRow "/music/Kate Bush/01.flac" 1%N "Running" true false lib 0.
Definition file2 : FileRow := mkFileRow "/music/Solo.mp3" 2%N "Solo" true false lib 0.
Definition hidden : FileRow := mkFileRow "/private/secret.mp3" 3%N "Secret" true false 8%N 0.
Definition files : list FileRow := [file1; file2; hidden].
Definition caller : Visibility := mkVisibility (Some [lib]) (Some 2) (λ _, true).
Definition libs : list Library := [mkLibrary lib ["/music"]; mkLibrary 8%N ["/private"]].
Definition row1 : ExportRow :=
  mkExportRow 1%N "track" "Running" "Kate Bush" "/music/Kate Bush/01.flac" (Some 215400) None ["/music"].
Definition row2 : ExportRow := mkExportRow 2%N "movie" "Solo" "" "/music/Solo.mp3" None None ["/music"].
Definition rows : list ExportRow := [row2; row1; row2].

(** An exported list, read back and imported. *)
Definition imported (absolute : bool) (baseDir : string) (l : list ExportRow) : option (list (option Match)) :=
  match Parse (ExportM3U absolute l) with
  | Entries es => Some (resolveM3U libs files [] caller es baseDir)
  | _ => None
  end.

(** With absolute paths; with library-relative ones; and that of a file of
    another library, which the caller may not see. *)
Example imported_rows :
  imported true "" rows = Some (map (λ f, Some (mkMatch (fr_item f) (fr_title f) ByPath)) [file2; file1; file2])
  ∧ imported false "" rows = Some (map (λ f, Some (mkMatch (fr_item f) (fr_title f) ByRelative)) [file2; file1; file2])
  ∧ imported true "" [mkExportRow 3%N "track" "Secret" "" "/private/secret.mp3" None None []] = Some [None].
Proof. vm_compute. done. Qed.

Lemma export_import_same_witness :
  ∃ entries, Parse (ExportM3U true rows) = Entries entries
  ∧ let ms := resolveM3U libs files [] caller entries "/mnt" in
    ms = map (λ f, Some (mkMatch (fr_item f) (fr_title f) ByPath)) [file2; file1; file2]
    ∧ itemIDs ms = distinct (map ex_id rows) [].
Proof.
  apply (export_import_same libs files [] caller "/mnt" rows [file2; file1; file2]).
  - intros f g [<-|[<-|[<-|[]]]] [<-|[<-|[<-|[]]]] H; (reflexivity || discriminate H).
  - repeat (apply Forall2_cons; split; [split; [vm_compute; auto|reflexivity|reflexivity|simpl; auto|reflexivity|reflexivity|reflexivity]|]).
    apply Forall2_nil. exact I.
  - vm_compute. discriminate.
Defined.
End Sample.
