(* ===== verification/Labels.v ===== *)
(** Labels of items and the restriction built on them: [internal/itemlabel] and
    its SQL twin (migrations 00047 and 00061).

    A label list is stored normalised.  A viewer may be barred from some labels
    and confined to others; an item counts as carrying the labels of its
    ancestors as well.  The rule is written twice, in Go ([Permits]) and in SQL
    ([media_item_labels_walk]); the second is what every query uses. *)
From S2P Require Import Prelude.
From S2P Require Import GoStrings.
From S2P Require Import GoBytes.
From S2P Require Import Tokens.

Local Open Scope Z_scope.

Definition MaxLen : Z := 64.
Definition MaxPerItem : Z := 50.
Definition MaxPerUser : Z := 32.

Definition Normalize (s : string) : string := ToLower (Join (FieldsFunc is_space s) " ").

(** [utf8.RuneCountInString] of valid UTF-8: the bytes that begin a rune. *)
Fixpoint rune_count (s : string) : Z :=
  match s with
  | EmptyString => 0
  | String c s => (if (128 <=? byteZ c) && (byteZ c <? 192) then 0 else 1) + rune_count s
  end.
Definition is_control (c : ascii) : bool := (byteZ c <? 32) || (byteZ c =? 127).

(** [sort.Strings] orders by bytes. *)
Fixpoint byte_le (a b : string) : bool :=
  match a, b with
  | EmptyString, _ => true
  | String _ _, EmptyString => false
  | String x a, String y b => (byteZ x <? byteZ y) || ((byteZ x =? byteZ y) && byte_le a b)
  end.
#[global] Instance byte_le_dec : RelDecision (λ a b, byte_le a b = true).
Proof. intros a b. apply bool_eq_dec. Defined.
Definition sort_strings (l : list string) : list string := merge_sort (λ a b, byte_le a b = true) l.

Inductive label_error := TooLong (l : string) | HasControl (l : string) | TooMany.

(** The loop of [NormalizeList]; [out] is built in reverse. *)
Fixpoint normalize_from (input out : list string) : label_error + list string :=
  match input with
  | [] => inr (reverse out)
  | raw :: input =>
      let l := Normalize raw in
      if String.eqb l "" then normalize_from input out
      else if MaxLen <? rune_count l then inl (TooLong l)
      else if negb (sforall (λ c, negb (is_control c)) l) then inl (HasControl l)
      else if mem l out then normalize_from input out
      else normalize_from input (l :: out)
  end.
Definition NormalizeList (input : list string) (max : Z) : label_error + list string :=
  match normalize_from input [] with
  | inl e => inl e
  | inr out => if max <? len out then inl TooMany else inr (sort_strings out)
  end.

(** * The restriction *)
Record Filter := mkFilter { Blocked : list string; Allowed : list string }.
Definition Active (f : Filter) : bool := (0 <? len (Blocked f)) || (0 <? len (Allowed f)).
Definition overlap (a b : list string) : bool := existsb (λ x, mem x b) a.
Definition Permits (f : Filter) (effective : list string) : bool :=
  if negb (Active f) then true
  else if existsb (λ b, mem b effective) (Blocked f) then false
  else if len (Allowed f) =? 0 then true
  else existsb (λ a, mem a effective) (Allowed f).

(** An empty list is NULL to the queries. *)
Definition BlockedArg (f : Filter) : ptr (list string) := if len (Blocked f) =? 0 then None else Some (Blocked f).
Definition AllowedArg (f : Filter) : ptr (list string) := if len (Allowed f) =? 0 then None else Some (Allowed f).
Definition unit_separator : string := String (chr 31) "".
Definition Key (f : Filter) : string :=
  if negb (Active f) then ""
  else "b:" +:+ Join (Blocked f) unit_separator +:+ "|a:" +:+ Join (Allowed f) unit_separator.

(** [Claims.LabelFilter] *)
Definition LabelFilter (c : option Claims) : Filter :=
  match c with Some c => mkFilter (BlockedLabels c) (AllowedLabels c) | None => mkFilter [] [] end.

(** * The SQL twin *)
(** What [media_items] holds of a row: its labels and its parent. *)
Definition Ancestry : Type := UUID → option (list string * option UUID).
Definition cardinality (l : option (list string)) : Z := len (default [] l).

(** The loop over the parents, at most [fuel] of them: no row found ends it. *)
Fixpoint ancestors_labels (rows : Ancestry) (fuel : nat) (p : option UUID) (eff : list string) : list string :=
  match fuel, p with
  | S fuel, Some id =>
      match rows id with
      | Some (pl, p') => ancestors_labels rows fuel p' (eff ++ pl)
      | None => eff
      end
  | _, _ => eff
  end.
Definition walk_depth : nat := 4.
Definition media_item_labels_walk (rows : Ancestry) (item_labels : list string) (item_parent : option UUID)
    (blocked allowed : option (list string)) : bool :=
  if (cardinality blocked =? 0) && (cardinality allowed =? 0) then true
  else
    let eff := ancestors_labels rows walk_depth item_parent item_labels in
    if (0 <? cardinality blocked) && overlap eff (default [] blocked) then false
    else if (0 <? cardinality allowed) && negb (overlap eff (default [] allowed)) then false
    else true.
Definition media_item_labels_permitted (rows : Ancestry) (item_labels : list string) (item_parent : option UUID)
    (blocked allowed : option (list string)) : bool :=
  (cardinality blocked =? 0) && (cardinality allowed =? 0)
  || media_item_labels_walk rows item_labels item_parent blocked allowed.
Definition media_item_id_labels_permitted (rows : Ancestry) (id : UUID) (blocked allowed : option (list string)) : bool :=
  (cardinality blocked =? 0) && (cardinality allowed =? 0)
  || match rows id with
     | Some (labels, parent) => media_item_labels_permitted rows labels parent blocked allowed
     | None => false
     end.

(** The labels an item counts as carrying. *)
Definition effective_labels (rows : Ancestry) (id : UUID) : option (list string) :=
  match rows id with
  | Some (labels, parent) => Some (ancestors_labels rows walk_depth parent labels)
  | None => None
  end.

(** * Proofs *)
Lemma overlap_comm a b : overlap a b = overlap b a.
Proof.
  unfold overlap. apply eq_true_iff_eq. rewrite !existsb_exists. setoid_rewrite mem_spec.
  setoid_rewrite list_elem_of_In. naive_solver.
Qed.
Lemma len_zero {A} (l : list A) : (len l =? 0) = bool_decide (l = []).
Proof. destruct l; [done|]. unfold len. simpl length. case_bool_decide; [done|]. apply Z.eqb_neq. lia. Qed.
Lemma len_pos {A} (l : list A) : (0 <? len l) = negb (bool_decide (l = [])).
Proof. destruct l; [done|]. unfold len. simpl length. case_bool_decide; [done|]. apply Z.ltb_lt. lia. Qed.
Lemma cardinality_arg (l : list string) : cardinality (if len l =? 0 then None else Some l) = len l.
Proof. rewrite len_zero. case_bool_decide; by subst. Qed.
Lemma default_arg (l : list string) : default [] (if len l =? 0 then None else Some l) = l.
Proof. rewrite len_zero. case_bool_decide; by subst. Qed.

(** The walk applied to a restriction is the Go rule on the effective labels. *)
Lemma walk_Permits rows labels parent f :
  media_item_labels_permitted rows labels parent (BlockedArg f) (AllowedArg f)
  = Permits f (ancestors_labels rows walk_depth parent labels).
Proof.
  unfold media_item_labels_permitted, media_item_labels_walk, BlockedArg, AllowedArg, Permits, Active.
  rewrite !cardinality_arg, !default_arg. set (eff := ancestors_labels _ _ _ _).
  rewrite !len_zero, !len_pos. change (existsb (λ b, mem b eff) (Blocked f)) with (overlap (Blocked f) eff).
  change (existsb (λ b, mem b eff) (Allowed f)) with (overlap (Allowed f) eff).
  rewrite (overlap_comm eff (Blocked f)), (overlap_comm eff (Allowed f)).
  destruct (Blocked f) as [|b bs], (Allowed f) as [|a al]; try done;
    repeat (rewrite bool_decide_eq_false_2 by done); repeat (rewrite bool_decide_eq_true_2 by done); cbn [negb andb orb].
  - by destruct (overlap (a :: al) eff).
  - destruct (overlap (b :: bs) eff); [done|]. by destruct (overlap (a :: al) eff).
Qed.

(** ** The byte order *)
Lemma byte_le_total a b : byte_le a b = true ∨ byte_le b a = true.
Proof.
  revert b. induction a as [|x a IH]; intros [|y b]; simpl; auto.
  destruct (Z.ltb_spec (byteZ x) (byteZ y)); auto. destruct (Z.ltb_spec (byteZ y) (byteZ x)); auto.
  assert (byteZ x = byteZ y) as -> by lia. rewrite Z.eqb_refl. simpl. apply IH.
Qed.
Lemma byte_le_trans a b c : byte_le a b = true → byte_le b c = true → byte_le a c = true.
Proof.
  revert b c. induction a as [|x a IH]; intros [|y b] [|z c]; simpl; try done.
  rewrite !orb_true_iff, !andb_true_iff, !Z.ltb_lt, !Z.eqb_eq.
  intros [H1|[H1 H2]] [H3|[H3 H4]]; [left; lia..|]. right. split; [lia|by eapply IH].
Qed.

(** ** Normalising is stable *)
Definition word (w : string) : Prop := no_space w = true ∧ w ≠ "".

Lemma srev_word w : word w → word (srev w).
Proof.
  intros [H1 H2]. split; [unfold no_space; by rewrite sforall_srev|]. intros E. apply H2. by rewrite <- (srev_srev w), E.
Qed.
Lemma fields_go_words s cur : no_space cur = true → Forall word (fields_go is_space s cur).
Proof.
  assert (∀ c, no_space c = true → Forall word (if String.eqb c "" then [] else [srev c])) as Hw.
  { intros c Hc. destruct (String.eqb_spec c "") as [|Hne]; [constructor|]. repeat constructor; by apply srev_word. }
  revert cur. induction s as [|c s IH]; intros cur Hc; cbn [fields_go]; [by apply Hw|].
  destruct (is_space c) eqn:E; [apply Forall_app; split; [by apply Hw|by apply IH]|].
  apply IH. unfold no_space in *. cbn [sforall]. by rewrite E.
Qed.
Lemma fields_go_split a rest cur :
  no_space a = true → srev cur +:+ a ≠ "" →
  fields_go is_space (a +:+ " " +:+ rest) cur = (srev cur +:+ a) :: fields_go is_space rest "".
Proof.
  revert cur. induction a as [|c a IH]; intros cur Hn Hne.
  - rewrite sapp_nil_r in Hne |- *. change ("" +:+ " " +:+ rest) with (String " " rest). cbn [fields_go].
    change (is_space " ") with true. cbn iota. by destruct (String.eqb_spec cur "") as [->|].
  - unfold no_space in Hn. cbn [sforall] in Hn. apply andb_true_iff in Hn as [Hc Hn]. apply negb_true_iff in Hc.
    change (String c a +:+ ?x) with (String c (a +:+ x)). cbn [fields_go]. rewrite Hc.
    assert (srev (String c cur) +:+ a = srev cur +:+ String c a) as He by (rewrite srev_snoc, sapp_assoc; done).
    rewrite IH, He by (try done; by rewrite He). done.
Qed.
Lemma Fields_Join ws : Forall word ws → Fields (Join ws " ") = ws.
Proof.
  unfold Fields, FieldsFunc. induction 1 as [|w ws [H1 H2] Hws IH]; [done|].
  destruct ws as [|w' ws]; [by apply fields_go_word|]. change (Join (w :: w' :: ws) " ") with (w +:+ " " +:+ Join (w' :: ws) " ").
  rewrite fields_go_split by done. by rewrite IH.
Qed.
Lemma ToLower_app a b : ToLower (a +:+ b) = ToLower a +:+ ToLower b.
Proof. induction a as [|c a IH]; [done|]. unfold ToLower in *. simpl. by rewrite IH. Qed.
Lemma ToLower_Join ws : ToLower (Join ws " ") = Join (map ToLower ws) " ".
Proof.
  induction ws as [|w ws IH]; [done|]. destruct ws as [|w' ws]; [done|].
  change (Join (w :: w' :: ws) " ") with (w +:+ " " +:+ Join (w' :: ws) " "). by rewrite !ToLower_app, IH.
Qed.
Lemma lower_space c : is_space (lower c) = is_space c.
Proof. destruct c as [[] [] [] [] [] [] [] []]; vm_compute; reflexivity. Qed.
Lemma ToLower_word w : word w → word (ToLower w).
Proof.
  intros [H1 H2]. split; [|by rewrite ToLower_empty]. clear H2. unfold no_space, ToLower in *.
  induction w as [|c w IH]; [done|]. cbn [sforall smap] in *. rewrite lower_space. apply andb_true_iff in H1 as [-> H1]. by apply IH.
Qed.
Lemma Normalize_idemp s : Normalize (Normalize s) = Normalize s.
Proof.
  assert (∀ s, Normalize s = ToLower (Join (Fields s) " ")) as Hn by done. rewrite (Hn s), ToLower_Join, Hn.
  rewrite Fields_Join, ToLower_Join, map_map; [f_equal; apply map_ext, ToLower_idemp|].
  apply Forall_map. eapply Forall_impl; [by apply fields_go_words|apply ToLower_word].
Qed.

(** ** What [NormalizeList] returns *)
Definition good_label (x : string) : Prop :=
  Normalize x = x ∧ x ≠ "" ∧ rune_count x <= MaxLen ∧ sforall (λ c, negb (is_control c)) x = true.

Lemma normalize_from_spec input out l :
  normalize_from input out = inr l → Forall good_label out → NoDup out →
  Forall good_label l ∧ NoDup l ∧ ∀ x, x ∈ l ↔ x ∈ out ∨ x ≠ "" ∧ x ∈ map Normalize input.
Proof.
  revert out. induction input as [|raw input IH]; intros out; cbn [normalize_from].
  - intros [= <-] Hg Hn. split; [by rewrite reverse_Permutation|]. split; [by rewrite reverse_Permutation|].
    intros x. rewrite reverse_Permutation. split; [by left|]. intros [?|[_ ?%elem_of_nil]]; done.
  - destruct (String.eqb_spec (Normalize raw) "") as [He|He].
    { intros H Hg Hn. destruct (IH _ H Hg Hn) as (H1 & H2 & H3). split; [done|]. split; [done|]. intros x.
      rewrite H3. cbn [map]. rewrite elem_of_cons, He. naive_solver. }
    destruct (Z.ltb_spec MaxLen (rune_count (Normalize raw))) as [|Hl]; [done|].
    destruct (sforall _ _) eqn:Ec; [|done]. cbn [negb]. destruct (mem (Normalize raw) out) eqn:Em; intros H Hg Hn.
    + destruct (IH _ H Hg Hn) as (H1 & H2 & H3). split; [done|]. split; [done|]. intros x.
      apply mem_spec in Em. rewrite H3. cbn [map]. rewrite elem_of_cons. naive_solver.
    + apply mem_false in Em. destruct (IH _ H) as (H1 & H2 & H3).
      { constructor; [|done]. split; [by apply Normalize_idemp|done]. }
      { by constructor. }
      split; [done|]. split; [done|]. intros x. rewrite H3. cbn [map]. rewrite !elem_of_cons. naive_solver.
Qed.

(** The stored form of a list of labels. *)
Definition canonical (max : Z) (l : list string) : Prop :=
  StronglySorted (λ a b, byte_le a b = true) l ∧ NoDup l ∧ len l <= max ∧ Forall good_label l.

Lemma sort_strings_perm l : sort_strings l ≡ₚ l.
Proof. apply merge_sort_Permutation. Qed.
Lemma sort_strings_sorted l : StronglySorted (λ a b, byte_le a b = true) (sort_strings l).
Proof.
  apply StronglySorted_merge_sort; [intros a b c; apply byte_le_trans|intros a b; apply byte_le_total].
Qed.

Lemma NormalizeList_spec input max l :
  NormalizeList input max = inr l →
  canonical max l ∧ ∀ x, x ∈ l ↔ x ≠ "" ∧ x ∈ map Normalize input.
Proof.
  unfold NormalizeList. destruct (normalize_from input []) as [|out] eqn:E; [done|].
  destruct (Z.ltb_spec max (len out)) as [|Hm]; [done|]. intros [= <-].
  destruct (normalize_from_spec _ _ _ E) as (H1 & H2 & H3); [constructor|constructor|]. split.
  - split; [apply sort_strings_sorted|]. split; [by rewrite sort_strings_perm|].
    split; [unfold len in *; by rewrite sort_strings_perm|]. by rewrite sort_strings_perm.
  - intros x. rewrite sort_strings_perm, H3, elem_of_nil. naive_solver.
Qed.
