(* ===== verification/Catalog.v ===== *)
(** The tables behind libraries, labels and playlists, the statements the code
    runs on them, and programs of such statements.

    A statement is atomic; between two statements of a program other requests
    may change the tables ([meddle]), and each may fail, with or without its
    effect.  Queries: [library_access.sql], [labels.sql], [collections.sql],
    [playlists.sql], [playlist_m3u.sql] and the smart-playlist query of
    [media.sql]; functions: migrations 00016 and 00061. *)
From S2P Require Import Prelude.
From S2P Require Import GoStrings.
From S2P Require Import GoBytes.
From S2P Require Import GoFloat.
From S2P Require Import ContentRating.
From S2P Require Import Tokens.
From S2P Require Import M3U.
From S2P Require Import M3UImport.
From S2P Require Import Labels.

Local Open Scope Z_scope.

(** * Tables *)
Record LibraryRow := mkLib {
  lb_id : UUID; lb_name : string; lb_paths : list string; lb_private : bool; lb_auto_grant : bool; lb_deleted : bool }.
Record UserRow := mkUserRow {
  us_parent : option UUID; us_inherit : bool; us_admin : bool; us_blocked : list string; us_allowed : list string }.
(** Ratings in tenths ([numeric(3,1)]); [md_artist] is the first credited
    artist of a track. *)
Record Media := mkMedia {
  md_id : UUID; md_library : UUID; md_type : string; md_title : string; md_sort : string; md_year : option Z;
  md_rating : option Z; md_genres : list string; md_content_rating : option string; md_labels : list string;
  md_parent : option UUID; md_artist : option string; md_ms : option Z; md_deleted : bool }.
Record File := mkFile {
  fl_path : string; fl_item : UUID; fl_active : bool; fl_part : option Z; fl_created : Z; fl_ms : option Z }.

(** [SmartPlaylistRules] *)
Record SmartPlaylistRules := mkRules {
  Types : list string; Genres : list string; YearMin : ptr Z; YearMax : ptr Z; RatingMin : ptr float64; Limit : ptr Z }.
Record Collection := mkColl {
  co_id : UUID; co_user : option UUID; co_name : string; co_desc : option string; co_type : string;
  co_rules : option SmartPlaylistRules; co_updated : Z }.
Record Member := mkMember { mb_coll : UUID; mb_item : UUID; mb_pos : Z }.

(** Libraries and users by ID, media in the order of their sort titles, files
    in that of their paths. *)
Record DB := mkDB {
  libraries : list LibraryRow; users : gmap UUID UserRow; access : gset (UUID * UUID);
  media : list Media; files : list File; collections : gmap UUID Collection; members : list Member }.
#[global] Instance Media_eta : Eta Media := λ m, mkMedia (md_id m) (md_library m) (md_type m) (md_title m) (md_sort m)
  (md_year m) (md_rating m) (md_genres m) (md_content_rating m) (md_labels m) (md_parent m) (md_artist m) (md_ms m)
  (md_deleted m).
#[global] Instance Collection_eta : Eta Collection := λ c, mkColl (co_id c) (co_user c) (co_name c) (co_desc c)
  (co_type c) (co_rules c) (co_updated c).
#[global] Instance Member_eta : Eta Member := λ m, mkMember (mb_coll m) (mb_item m) (mb_pos m).
#[global] Instance DB_eta : Eta DB := λ d, mkDB (libraries d) (users d) (access d) (media d) (files d) (collections d)
  (members d).

Definition media_row (d : DB) (id : UUID) : option Media := find_first (λ m, N.eqb (md_id m) id) (media d).
Definition ancestry (d : DB) : Ancestry := λ id, (λ m, (md_labels m, md_parent m)) <$> media_row d id.

(** * What a query lets its caller see *)
Record Vis := mkVis {
  v_libs : option (list UUID); v_rank : option Z; v_blocked : option (list string); v_allowed : option (list string) }.
Definition labels_pass (d : DB) (v : Vis) (m : Media) : bool :=
  media_item_labels_permitted (ancestry d) (md_labels m) (md_parent m) (v_blocked v) (v_allowed v).
Definition in_libs (libs : option (list UUID)) (l : UUID) : bool :=
  match libs with None => true | Some ids => mem l ids end.
(** The three conditions of every listing, the first where it is asked. *)
Definition row_passes (d : DB) (v : Vis) (m : Media) : bool :=
  negb (md_deleted m) && in_libs (v_libs v) (md_library m)
  && sql_visible (v_rank v) (md_content_rating m) && labels_pass d v m.

(** ** Library access *)
(** The account whose grants count. *)
Definition effective_owner (d : DB) (u : UUID) : option UUID :=
  (λ r, match us_parent r with Some p => if us_inherit r then p else u | None => u end) <$> users d !! u.
Definition library_allowed (d : DB) (u : UUID) (l : LibraryRow) : bool :=
  negb (lb_deleted l)
  && (negb (lb_private l)
      || match effective_owner d u with Some o => bool_decide ((o, lb_id l) ∈ access d) | None => false end).

(** ** Members of a collection *)
Definition of_coll (c : UUID) (d : DB) : list Member := List.filter (λ m, N.eqb (mb_coll m) c) (members d).
Definition member_le (a b : Member) : Prop :=
  mb_pos a < mb_pos b ∨ (mb_pos a = mb_pos b ∧ (mb_item a <= mb_item b)%N).
#[global] Instance member_le_dec : RelDecision member_le.
Proof. intros a b. unfold member_le. apply _. Defined.
Definition ordered (c : UUID) (d : DB) : list Member := merge_sort member_le (of_coll c d).

(** The rows of a listing, before its page is cut. *)
Definition visible_members (d : DB) (c : UUID) (v : Vis) : list (Member * Media) :=
  omap (λ mb, match media_row d (mb_item mb) with
              | Some m => if row_passes d v m then Some (mb, m) else None
              | None => None
              end) (ordered c d).
Definition page {A} (lim off : Z) (l : list A) : list A :=
  let l := drop (Z.to_nat off) l in if lim =? 0 then l else take (Z.to_nat lim) l.

Definition max_position (c : UUID) (d : DB) : option Z :=
  match map mb_pos (of_coll c d) with [] => None | p :: ps => Some (fold_left Z.max ps p) end.
Definition next_position (c : UUID) (d : DB) : Z := match max_position c d with Some p => p + 1 | None => 0 end.
Definition is_member (c i : UUID) (d : DB) : bool := existsb (λ m, N.eqb (mb_item m) i) (of_coll c d).

(** [AppendCollectionItems]: positions follow the list given, present ones are
    skipped. *)
Fixpoint append_from (c : UUID) (base : Z) (ids : list UUID) (d : DB) : DB :=
  match ids with
  | [] => d
  | i :: ids =>
      append_from c (base + 1) ids
        (if is_member c i d then d else d <| members ::= λ l, l ++ [mkMember c i base] |>)
  end.

(** The rank of an item in a list, counted from 0. *)
Fixpoint index_of (i : UUID) (ids : list UUID) (n : Z) : option Z :=
  match ids with [] => None | x :: ids => if N.eqb x i then Some n else index_of i ids (n + 1) end.
Definition reordered (c : UUID) (ids : list UUID) (m : Member) : Member :=
  if N.eqb (mb_coll m) c then match index_of (mb_item m) ids 0 with Some n => m <| mb_pos := n |> | None => m end
  else m.

(** ** Playlists as files *)
Definition file_first (a b : File) : Prop :=
  match fl_part a, fl_part b with
  | None, Some _ => True
  | Some _, None => False
  | Some x, Some y => x < y ∨ (x = y ∧ fl_created a <= fl_created b)
  | None, None => fl_created a <= fl_created b
  end.
#[global] Instance file_first_dec : RelDecision file_first.
Proof. intros a b. unfold file_first. destruct (fl_part a), (fl_part b); apply _. Defined.
Definition first_file (d : DB) (item : UUID) : option File :=
  head (merge_sort file_first (List.filter (λ f, N.eqb (fl_item f) item && fl_active f) (files d))).
Definition parent_of (d : DB) (m : Media) : option Media := match md_parent m with Some p => media_row d p | None => None end.
Definition grandparent (d : DB) (m : Media) : option Media :=
  match parent_of d m with Some p => parent_of d p | None => None end.
Definition artist_of (d : DB) (m : Media) : string :=
  match md_artist m with Some a => a | None => default "" (md_title <$> grandparent d m) end.
Definition library_row (d : DB) (id : UUID) : option LibraryRow := find_first (λ l, N.eqb (lb_id l) id) (libraries d).
Definition export_row (d : DB) (v : Vis) (id : UUID) : option ExportRow :=
  match media_row d id with
  | Some m =>
      match library_row d (md_library m), first_file d id with
      | Some l, Some f =>
          if row_passes d v m
          then Some (mkExportRow id (md_type m) (md_title m) (artist_of d m) (fl_path f) (fl_ms f) (md_ms m) (lb_paths l))
          else None
      | _, _ => None
      end
  | None => None
  end.

(** The joined rows of an import, and what its queries test. *)
Definition file_rows (d : DB) : list FileRow :=
  omap (λ f, (λ m, mkFileRow (fl_path f) (fl_item f) (md_title m) (fl_active f) (md_deleted m) (md_library m)
                     (content_rating_rank (md_content_rating m))) <$> media_row d (fl_item f)) (files d).
Definition track_rows (d : DB) : list TrackRow :=
  map (λ m, mkTrackRow (md_id m) (md_title m) (artist_of d m) (default "" (md_title <$> grandparent d m))
              (String.eqb (md_type m) "track") (md_deleted m) (md_library m)
              (content_rating_rank (md_content_rating m))) (media d).
Definition visibility_of (d : DB) (v : Vis) : Visibility :=
  mkVisibility (v_libs v) (v_rank v)
    (λ id, match media_row d id with Some m => labels_pass d v m | None => false end).

(** ** The smart-playlist query *)
Record SmartQuery := mkSmart {
  sq_libs : list UUID; sq_types : list string; sq_genre : option string; sq_ymin : option Z; sq_ymax : option Z;
  sq_rating : option Z;  (* in hundredths *) sq_limit : Z; sq_vis : Vis }.
Definition null_or {A} (o : option A) (p : A → bool) : bool := match o with None => true | Some x => p x end.
(** A comparison with a NULL column is not true. *)
Definition col_test {A} (o : option A) (p : A → bool) : bool := match o with Some x => p x | None => false end.
Definition smart_match (d : DB) (q : SmartQuery) (m : Media) : bool :=
  mem (md_library m) (sq_libs q) && mem (md_type m) (sq_types q) && negb (md_deleted m)
  && null_or (sq_genre q) (λ g, mem g (md_genres m))
  && null_or (sq_ymin q) (λ y, col_test (md_year m) (λ x, y <=? x))
  && null_or (sq_ymax q) (λ y, col_test (md_year m) (λ x, x <=? y))
  && null_or (sq_rating q) (λ r, col_test (md_rating m) (λ x, r <=? 10 * x))
  && sql_visible (v_rank (sq_vis q)) (md_content_rating m) && labels_pass d (sq_vis q) m.

(** ** Label edits *)
Definition relabel (d : DB) (ids : list UUID) (f : list string → list string) (p : list string → bool) : DB :=
  d <| media ::= map (λ m, if mem (md_id m) ids && negb (md_deleted m) && p (md_labels m)
                           then m <| md_labels ::= f |> else m) |>.
Definition relabelled_count (d : DB) (ids : list UUID) (p : list string → bool) : Z :=
  len (List.filter (λ m, mem (md_id m) ids && negb (md_deleted m) && p (md_labels m)) (media d)).
Definition merged (labels l : list string) : list string := sort_strings (remove_dups (l ++ labels)).
Definition add_changes (labels : list string) (max : Z) (l : list string) : bool :=
  negb (bool_decide (l = merged labels l)) && (len (merged labels l) <=? max).
Definition removed (labels l : list string) : list string :=
  sort_strings (List.filter (λ x, negb (mem x labels)) l).

(** * Statements *)
Record NewCollection := mkNew {
  nc_user : option UUID; nc_name : string; nc_desc : option string; nc_type : string; nc_rules : option SmartPlaylistRules }.

Inductive stmt :=
| ListMyPlaylists (user : UUID)
| GetCollection (id : UUID)
| CreateCollection (p : NewCollection)
| UpdateCollection (id : UUID) (name : string) (desc : option string)
| DeleteCollection (id : UUID)
| ListCollectionItems (c : UUID) (v : Vis) (lim off : Z)
| CountCollectionItems (c : UUID) (v : Vis)
| AddCollectionItem (c i : UUID)
| RemoveCollectionItem (c i : UUID)
| ReorderPlaylistItems (c : UUID) (ids : list UUID)
| AppendCollectionItems (c : UUID) (ids : list UUID)
| GetMediaItem (id : UUID)
| ListMediaItemsForSmartPlaylist (q : SmartQuery)
| ListM3UExportRows (ids : list UUID) (v : Vis)
| ListLibraries
| FilesByPath (v : Vis) (paths : list string)
| FilesByBasename (v : Vis) (names : list string)
| TracksByTitle (v : Vis) (titles : list string)
| HasLibraryAccess (u l : UUID)
| ListAllowedLibraryIDsForUser (u : UUID)
| ListLibraryAccessByUser (u : UUID)
| GrantLibraryAccess (u l : UUID)
| GrantAutoLibrariesToUser (u : UUID)
| RevokeAllLibraryAccessForUser (u : UUID)
| ItemLabelsPermitted (id : UUID) (blocked allowed : option (list string))
| FilterLabelPermittedItems (ids : list UUID) (blocked allowed : option (list string))
| SetMediaItemLabels (id : UUID) (labels : list string)
| AddMediaItemLabels (ids : list UUID) (labels : list string) (max : Z)
| RemoveMediaItemLabels (ids : list UUID) (labels : list string).

(** [None] for a row asked for is [pgx.ErrNoRows]. *)
Definition answer (c : stmt) : Type :=
  match c with
  | ListMyPlaylists _ => list Collection
  | GetCollection _ | UpdateCollection _ _ _ => option Collection
  | CreateCollection _ => Collection
  | ListCollectionItems _ _ _ _ => list (Member * Media)
  | CountCollectionItems _ _ => Z
  | AddCollectionItem _ _ => option Member
  | GetMediaItem _ => option Media
  | ListMediaItemsForSmartPlaylist _ => list Media
  | ListM3UExportRows _ _ => list ExportRow
  | ListLibraries => list LibraryRow
  | FilesByPath _ _ | FilesByBasename _ _ => list FileRow
  | TracksByTitle _ _ => list TrackRow
  | HasLibraryAccess _ _ | ItemLabelsPermitted _ _ _ => bool
  | ListAllowedLibraryIDsForUser _ | ListLibraryAccessByUser _ | FilterLabelPermittedItems _ _ _ => list UUID
  | SetMediaItemLabels _ _ | AddMediaItemLabels _ _ _ | RemoveMediaItemLabels _ _ => Z
  | _ => unit
  end.

Inductive reply (A : Type) := Got (a : A) | Failed.
#[global] Arguments Got {A} _.
#[global] Arguments Failed {A}.

(** Newest first, then by name. *)
Definition newest_first (a b : Collection) : Prop :=
  co_updated b < co_updated a ∨ (co_updated a = co_updated b ∧ byte_le (co_name a) (co_name b) = true).
#[global] Instance newest_first_dec : RelDecision newest_first.
Proof. intros a b. unfold newest_first. apply _. Defined.
Definition isPlaylistType (t : string) : bool := String.eqb t "playlist" || String.eqb t "smart_playlist".
Definition my_playlists (d : DB) (u : UUID) : list Collection :=
  merge_sort newest_first (List.filter (λ c, bool_decide (co_user c = Some u) && isPlaylistType (co_type c))
                             (snd <$> map_to_list (collections d))).

Definition read {A} (d : DB) (a : A) : DB * reply A := (d, Got a).
Definition write (d : DB) : DB * reply unit := (d, Got tt).

(** One statement, at the instant [now]; [id] is the ID the database would
    generate.  A reference to a row that is not there is an error. *)
Definition query (c : stmt) (now : Z) (id : UUID) (d : DB) : DB * reply (answer c) :=
  match c return DB * reply (answer c) with
  | ListMyPlaylists u => read d (my_playlists d u)
  | GetCollection i => read d (collections d !! i)
  | CreateCollection p =>
      let c := mkColl id (nc_user p) (nc_name p) (nc_desc p) (nc_type p) (nc_rules p) now in
      match collections d !! id with
      | Some _ => (d, Failed)
      | None => (d <| collections ::= <[id := c]> |>, Got c)
      end
  | UpdateCollection i name desc =>
      match collections d !! i with
      | Some c => let c := c <| co_name := name |> <| co_desc := desc |> <| co_updated := now |> in
                  (d <| collections ::= <[i := c]> |>, Got (Some c))
      | None => read d None
      end
  | DeleteCollection i =>
      write (d <| collections ::= delete i |> <| members ::= List.filter (λ m, negb (N.eqb (mb_coll m) i)) |>)
  | ListCollectionItems c v lim off => read d (page lim off (visible_members d c (mkVis None (v_rank v) (v_blocked v) (v_allowed v))))
  | CountCollectionItems c v => read d (len (visible_members d c v))
  | AddCollectionItem c i =>
      match collections d !! c, media_row d i with
      | Some _, Some _ =>
          if is_member c i d then read d None
          else let m := mkMember c i (next_position c d) in (d <| members ::= λ l, l ++ [m] |>, Got (Some m))
      | _, _ => (d, Failed)
      end
  | RemoveCollectionItem c i =>
      write (d <| members ::= List.filter (λ m, negb (N.eqb (mb_coll m) c && N.eqb (mb_item m) i)) |>)
  | ReorderPlaylistItems c ids => write (d <| members ::= map (reordered c ids) |>)
  | AppendCollectionItems c ids =>
      match collections d !! c with
      | Some _ => if forallb (λ i, bool_decide (is_Some (media_row d i))) ids
                  then write (append_from c (next_position c d) ids d) else (d, Failed)
      | None => (d, Failed)
      end
  | GetMediaItem i =>
      read d (match media_row d i with Some m => if md_deleted m then None else Some m | None => None end)
  | ListMediaItemsForSmartPlaylist q => read d (take (Z.to_nat (sq_limit q)) (List.filter (smart_match d q) (media d)))
  | ListM3UExportRows ids v => read d (omap (export_row d v) ids)
  | ListLibraries => read d (List.filter (λ l, negb (lb_deleted l)) (libraries d))
  | FilesByPath v paths => read d (FindM3UFilesByPath (visibility_of d v) (file_rows d) paths)
  | FilesByBasename v names => read d (FindM3UFilesByBasename (visibility_of d v) (file_rows d) names)
  | TracksByTitle v titles => read d (FindM3UTracksByTitle (visibility_of d v) (track_rows d) titles)
  | HasLibraryAccess u l => read d (existsb (λ r, N.eqb (lb_id r) l && library_allowed d u r) (libraries d))
  | ListAllowedLibraryIDsForUser u => read d (remove_dups (map lb_id (List.filter (library_allowed d u) (libraries d))))
  | ListLibraryAccessByUser u => read d (snd <$> List.filter (λ p : UUID * UUID, N.eqb p.1 u) (elements (access d)))
  | GrantLibraryAccess u l =>
      match users d !! u, library_row d l with
      | Some _, Some _ => write (d <| access ::= λ s, {[(u, l)]} ∪ s |>)
      | _, _ => (d, Failed)
      end
  | GrantAutoLibrariesToUser u =>
      match users d !! u with
      | Some _ => write (d <| access ::= λ s, list_to_set ((λ l, (u, lb_id l)) <$>
                          List.filter (λ l, lb_auto_grant l && negb (lb_deleted l)) (libraries d)) ∪ s |>)
      | None => (d, Failed)
      end
  | RevokeAllLibraryAccessForUser u => write (d <| access ::= filter (λ p, p.1 ≠ u) |>)
  | ItemLabelsPermitted i b a => read d (media_item_id_labels_permitted (ancestry d) i b a)
  | FilterLabelPermittedItems ids b a =>
      read d (md_id <$> List.filter (λ m, mem (md_id m) ids
                && media_item_labels_permitted (ancestry d) (md_labels m) (md_parent m) b a) (media d))
  | SetMediaItemLabels i labels => (relabel d [i] (λ _, labels) (λ _, true), Got (relabelled_count d [i] (λ _, true)))
  | AddMediaItemLabels ids labels max =>
      (relabel d ids (merged labels) (add_changes labels max), Got (relabelled_count d ids (add_changes labels max)))
  | RemoveMediaItemLabels ids labels =>
      (relabel d ids (removed labels) (λ l, overlap l labels), Got (relabelled_count d ids (λ l, overlap l labels)))
  end.

(** * Programs *)
Inductive prog (A : Type) := Ret (a : A) | Do (c : stmt) (k : reply (answer c) → prog A).
#[global] Arguments Ret {A} _.
#[global] Arguments Do {A} _ _.
Notation "'let!' x := c 'in' k" := (Do c (λ x, k))
  (at level 200, x name, c at level 100, k at level 200, right associativity).
Fixpoint bind {A B} (p : prog A) (f : A → prog B) : prog B :=
  match p with Ret a => f a | Do c k => Do c (λ r, bind (k r) f) end.
Notation "'let*' x := p 'in' k" := (bind p (λ x, k))
  (at level 200, x pattern, p at level 100, k at level 200, right associativity).

Inductive outage := Up | Lost (* the effect, and an error *) | Down (* no effect, an error *).
Record Moment := mkMoment {
  meddle : DB → DB;         (* what other requests did since the last statement *)
  at_ : Z; new_id : UUID; outage_ : outage }.

Definition call (c : stmt) (m : Moment) (d : DB) : DB * reply (answer c) :=
  let r := query c (at_ m) (new_id m) d in
  match outage_ m with Up => r | Lost => (r.1, Failed) | Down => (d, Failed) end.

(** A run to the end, with the tables around each of its statements. *)
Fixpoint run {A} (p : prog A) (ms : list Moment) (d : DB) : option (A * DB * list (DB * DB)) :=
  match p, ms with
  | Ret a, _ => Some (a, d, [])
  | Do _ _, [] => None
  | Do c k, m :: ms =>
      let d1 := meddle m d in
      let '(d2, r) := call c m d1 in
      match run (k r) ms d2 with Some (a, d3, tr) => Some (a, d3, (d1, d2) :: tr) | None => None end
  end.

(** Nobody else, and nothing fails. *)
Definition quiet (now : Z) (fresh : UUID) : Moment := mkMoment (λ d, d) now fresh Up.

(** The statements a program runs at most. *)
Inductive takes {A} : prog A → nat → Prop :=
| takes_ret a n : takes (Ret a) n
| takes_do c k n : (∀ r, takes (k r) n) → takes (Do c k) (S n).
Lemma takes_runs {A} (p : prog A) n ms d : takes p n → (n <= length ms)%nat → is_Some (run p ms d).
Proof.
  intros Ht. revert ms d. induction Ht as [a n|c k n _ IH]; intros ms d Hl; [by destruct ms; eexists|].
  destruct ms as [|m ms]; simpl in Hl; [lia|]. cbn [run]. destruct (call c m (meddle m d)) as [d2 r].
  destruct (IH r ms d2) as [[[a d3] tr] ->]; [lia|]. by eexists.
Qed.

(** * Running programs of statements: composition, and what holds at every step
    whatever fails and whoever else is at work. *)
(** * Runs on tables that nobody else changes *)
Definition alone (m : Moment) : Prop := ∀ d, meddle m d = d.
Definition up (m : Moment) : Prop := outage_ m = Up.

Lemma run_ret {A} (a : A) ms d : run (Ret a) ms d = Some (a, d, []).
Proof. by destruct ms. Qed.

Lemma run_bind {A B} (p : prog A) (f : A → prog B) ms d b d' tr :
  run (bind p f) ms d = Some (b, d', tr) ↔
  ∃ a d1 tr1 ms1 tr2, run p ms d = Some (a, d1, tr1) ∧ ms1 = drop (length tr1) ms
    ∧ run (f a) ms1 d1 = Some (b, d', tr2) ∧ tr = tr1 ++ tr2.
Proof.
  revert ms d tr. induction p as [a|c k IH]; intros ms d tr; cbn [bind].
  - rewrite run_ret. split.
    + intros H. exists a, d, [], ms, tr. done.
    + by intros (a' & d1 & tr1 & ms1 & tr2 & [= <- <- <-] & -> & H & ->).
  - destruct ms as [|m ms]; cbn [run].
    { split; [done|]. by intros (a & d1 & tr1 & ms1 & tr2 & H & _). }
    destruct (call c m (meddle m d)) as [d2 r]. split.
    + destruct (run (bind (k r) f) ms d2) as [[[b' d3] tr']|] eqn:E; [|done]. intros [= -> -> <-].
      apply IH in E as (a & d1 & tr1 & ms1 & tr2 & H1 & -> & H2 & ->). rewrite H1.
      exists a, d1, ((meddle m d, d2) :: tr1), (drop (length tr1) ms), tr2. done.
    + intros (a & d1 & tr1 & ms1 & tr2 & H1 & -> & H2 & ->).
      destruct (run (k r) ms d2) as [[[a' d3] tr']|] eqn:E; [|done]. injection H1 as <- <- <-.
      assert (run (bind (k r) f) ms d2 = Some (b, d', tr' ++ tr2)) as ->; [|done].
      apply IH. exists a', d3, tr', (drop (length tr') ms), tr2. done.
Qed.


(** * Invariants and guarantees *)
(** Every statement the program may make satisfies [Q], when what it is answered
    satisfies [R]. *)
Inductive only {A} (Q : stmt → Prop) (R : ∀ c, answer c → Prop) : prog A → Prop :=
| only_ret a : only Q R (Ret a)
| only_do c k : Q c → (∀ r, match r with Got a => R c a | Failed => True end → only Q R (k r)) → only Q R (Do c k).
#[export] Hint Constructors only : catalog.

Lemma only_bind {A B} Q R (p : prog A) (f : A → prog B) : only Q R p → (∀ a, only Q R (f a)) → only Q R (bind p f).
Proof. intros Hp Hf. induction Hp; cbn [bind]; [apply Hf|]. constructor; auto. Qed.
Lemma only_impl {A} (Q Q' : stmt → Prop) R (p : prog A) : (∀ c, Q c → Q' c) → only Q R p → only Q' R p.
Proof. intros HQ. induction 1; constructor; auto. Qed.
Lemma takes_bind {A B} (p : prog A) (f : A → prog B) n n' :
  takes p n → (∀ a, takes (f a) n') → takes (bind p f) (n + n').
Proof.
  intros Hp Hf. induction Hp as [a n|c k n _ IH]; cbn [bind]; [|by constructor].
  assert (∀ A (q : prog A) k j, takes q k → takes q (k + j)) as Hw.
  { intros A' q k j. induction 1; [constructor|]. simpl. by constructor. }
  rewrite Nat.add_comm. by apply Hw.
Qed.

#[export] Instance true_reflexive {A} : Reflexive (λ _ _ : A, True).
Proof. by intros x. Qed.

Section Invariant.
Context (I : DB → Prop) (J : UUID → Prop) (G : DB → DB → Prop) (R : ∀ c, answer c → Prop) `{!Reflexive G}.
(** Statements keep the invariant, stay within the guarantee and answer what
    they should, when the IDs the database generates are as they should. *)
Definition keeps (c : stmt) : Prop := ∀ now i d, J i → I d →
  I (query c now i d).1 ∧ G d (query c now i d).1
  ∧ match (query c now i d).2 with Got a => R c a | Failed => True end.
Definition others_keep (ms : list Moment) : Prop := Forall (λ m, (∀ d, I d → I (meddle m d)) ∧ J (new_id m)) ms.

Lemma prog_invariant {A} (p : prog A) ms d a d' tr :
  only keeps R p → others_keep ms → I d → run p ms d = Some (a, d', tr) →
  I d' ∧ Forall (λ s, I s.1 ∧ I s.2 ∧ G s.1 s.2) tr.
Proof.
  intros Hp. revert ms d tr. induction Hp as [x|c k Hc _ IH]; intros ms d tr Hm Hd.
  - rewrite run_ret. by intros [= <- <- <-].
  - destruct ms as [|m ms]; [done|]. apply Forall_cons in Hm as [[Hm Hj] Hms]. cbn [run].
    destruct (call c m (meddle m d)) as [d2 r] eqn:E.
    assert (I d2 ∧ G (meddle m d) d2 ∧ match r with Got a => R c a | Failed => True end) as (H1 & H2 & H3).
    { pose proof (Hc (at_ m) (new_id m) _ Hj (Hm _ Hd)) as (H1 & H2 & H3). unfold call in E.
      destruct (query c (at_ m) (new_id m) (meddle m d)) as [d3 r3]. destruct (outage_ m); injection E as <- <-; auto. }
    destruct (run (k r) ms d2) as [[[a' d3] tr']|] eqn:Er; [|done]. intros [= <- <- <-].
    destruct (IH r H3 ms d2 tr' Hms H1 Er) as [H4 H5]. split; [done|]. constructor; [|done]. simpl. auto.
Qed.
End Invariant.
