(* ===== verification/Gates.v ===== *)
(** Who may see a library and an item, and the admin's label endpoints.

    - [internal/domain/library/service.go]: the grants of a user;
    - [internal/api/v1/label_gate.go]: the check of one item;
    - [internal/api/v1/labels.go]: the labels of items. *)
From stdpp Require Import fin_sets.
From S2P Require Import Prelude.
From S2P Require Import GoStrings.
From S2P Require Import GoBytes.
From S2P Require Import ContentRating.
From S2P Require Import Tokens.
From S2P Require Import Labels.
From S2P Require Import Catalog.

Local Open Scope Z_scope.

(** * Library access *)
(** [AllowedLibraryIDs]: [Got None] is no filtering. *)
Definition AllowedLibraryIDs (userID : UUID) (isAdmin : bool) : prog (reply (option (list UUID))) :=
  if isAdmin then Ret (Got None)
  else
    let! r := ListAllowedLibraryIDsForUser userID in
    match r with Got ids => Ret (Got (Some ids)) | Failed => Ret Failed end.
Definition CanAccessLibrary (userID libraryID : UUID) (isAdmin : bool) : prog (reply bool) :=
  if isAdmin then Ret (Got true) else let! r := HasLibraryAccess userID libraryID in Ret r.

(** [ListForUser]; the error is dropped of what it was. *)
Definition ListForUser (userID : UUID) (isAdmin : bool) : prog (reply (list LibraryRow)) :=
  if isAdmin then let! r := ListLibraries in Ret r
  else
    let! a := ListAllowedLibraryIDsForUser userID in
    match a with
    | Failed => Ret Failed
    | Got [] => Ret (Got [])
    | Got allowed =>
        let! l := ListLibraries in
        match l with
        | Got libs => Ret (Got (List.filter (λ r, mem (lb_id r) allowed) libs))
        | Failed => Ret Failed
        end
    end.

(** The toggles of the Users tab. *)
Definition ListAccessForUser (userID : UUID) (isAdmin : bool) : prog (reply (list (LibraryRow * bool))) :=
  let! l := ListLibraries in
  match l with
  | Failed => Ret Failed
  | Got libs =>
      if isAdmin then Ret (Got (map (λ r, (r, true)) libs))
      else
        let! g := ListLibraryAccessByUser userID in
        match g with
        | Failed => Ret Failed
        | Got granted => Ret (Got (map (λ r, (r, mem (lb_id r) granted)) libs))
        end
  end.
Fixpoint grant_each (userID : UUID) (ids : list UUID) : prog bool :=
  match ids with
  | [] => Ret true
  | l :: ids => let! r := GrantLibraryAccess userID l in
                match r with Got _ => grant_each userID ids | Failed => Ret false end
  end.
(** [ReplaceAccessForUser]: whether it ended without an error. *)
Definition ReplaceAccessForUser (userID : UUID) (libraryIDs : list UUID) : prog bool :=
  let! r := RevokeAllLibraryAccessForUser userID in
  match r with Got _ => grant_each userID libraryIDs | Failed => Ret false end.

(** * One item *)
(** [labelsPermit]; [gate] tells whether a gate is on the context. *)
Definition labelsPermit (gate : bool) (claims : Claims) (itemID : UUID) : prog bool :=
  let f := LabelFilter (Some claims) in
  if negb (Active f) then Ret true
  else if negb gate then Ret false
  else let! r := ItemLabelsPermitted itemID (BlockedArg f) (AllowedArg f) in
       match r with Got ok => Ret ok | Failed => Ret false end.
(** [labelPermittedSet]; [None] is no restriction. *)
Definition labelPermittedSet (gate : bool) (claims : Claims) (ids : list UUID) : prog (option (list UUID)) :=
  let f := LabelFilter (Some claims) in
  if negb (Active f) then Ret None
  else if negb gate || (len ids =? 0) then Ret (Some [])
  else let! r := FilterLabelPermittedItems ids (BlockedArg f) (AllowedArg f) in
       match r with Got kept => Ret (Some kept) | Failed => Ret (Some []) end.
Definition inLabelSet (set : option (list UUID)) (id : UUID) : bool :=
  match set with None => true | Some s => mem id s end.
(** How the handlers that hold a list use the set, row by row. *)
Definition row_shown (claims : Claims) (set : option (list UUID)) (m : Media) : bool :=
  negb (negb (IsAllowed (default "" (md_content_rating m)) (MaxContentRating claims))
        || negb (inLabelSet set (md_id m))).
Definition itemPermitted (gate : bool) (claims : option Claims) (itemID : UUID) (contentRating : string) : prog bool :=
  match claims with
  | None => Ret true
  | Some c => if IsAllowed contentRating (MaxContentRating c) then labelsPermit gate c itemID else Ret false
  end.
Definition viewerRestricted (claims : option Claims) : bool :=
  match claims with
  | None => false
  | Some c => negb (String.eqb (MaxContentRating c) "") || Active (LabelFilter claims)
  end.

(** What the queries of a listing are given for a caller. *)
Definition caller_vis (libs : option (list UUID)) (claims : option Claims) : Vis :=
  mkVis libs (claims ≫= λ c, MaxRatingRank (MaxContentRating c))
    (BlockedArg (LabelFilter claims)) (AllowedArg (LabelFilter claims)).

(** * Answers *)
Inductive resp (A : Type) := Status (code : Z) | Body (code : Z) (a : A).
#[global] Arguments Status {A} _.
#[global] Arguments Body {A} _ _.

(** [itemAddAllowed]: [None] lets the add go on.  [wired] tells whether the
    library check is there. *)
Definition itemAddAllowed {A} (wired gate : bool) (claims : option Claims) (item : Media) : prog (option (resp A)) :=
  match claims with
  | None => Ret (Some (Status 401))
  | Some c =>
      let* a := (if wired then CanAccessLibrary (UserID c) (md_library item) (IsAdmin c) else Ret (Got true)) in
      match a with
      | Failed => Ret (Some (Status 500))
      | Got false => Ret (Some (Status 404))
      | Got true =>
          let* ok := itemPermitted gate claims (md_id item) (default "" (md_content_rating item)) in
          Ret (if ok then None else Some (Status 404))
      end
  end.

(** * The admin label endpoints *)
Definition maxBulkLabelItems : Z := 500.
Definition is_admin (claims : option Claims) : bool := match claims with Some c => IsAdmin c | None => false end.

(** [SetItem]; [None] is a path or a body that does not parse. *)
Definition SetItem (claims : option Claims) (id : option UUID) (body : option (list string)) : prog (resp (list string)) :=
  if negb (is_admin claims) then Ret (Status 403)
  else match id, body with
  | None, _ | _, None => Ret (Status 400)
  | Some id, Some labels =>
      match NormalizeList labels MaxPerItem with
      | inl _ => Ret (Status 422)
      | inr labels =>
          let! n := SetMediaItemLabels id labels in
          match n with
          | Failed => Ret (Status 500)
          | Got n => if n =? 0 then Ret (Status 404) else Ret (Body 200 labels)
          end
      end
  end.

(** [parseUniqueIDs] *)
Fixpoint unique_ids (raw : list (option UUID)) (seen : list UUID) : option (list UUID) :=
  match raw with
  | [] => Some []
  | None :: _ => None
  | Some u :: raw => if mem u seen then None else cons u <$> unique_ids raw (u :: seen)
  end.
Record ApplyBody := mkApply { ap_ids : list (option UUID); ap_add : list string; ap_remove : list string }.
(** [Apply]: the numbers of items added to and removed from. *)
Definition Apply (claims : option Claims) (body : option ApplyBody) : prog (resp (Z * Z)) :=
  if negb (is_admin claims) then Ret (Status 403)
  else match body with
  | None => Ret (Status 400)
  | Some b =>
      if (len (ap_ids b) =? 0) || (maxBulkLabelItems <? len (ap_ids b)) then Ret (Status 400)
      else match unique_ids (ap_ids b) [] with
      | None => Ret (Status 400)
      | Some ids =>
          match NormalizeList (ap_add b) MaxPerItem, NormalizeList (ap_remove b) MaxPerItem with
          | inl _, _ | _, inl _ => Ret (Status 422)
          | inr add, inr remove =>
              if (len add =? 0) && (len remove =? 0) then Ret (Status 400)
              else
                let* removed := (if 0 <? len remove then let! r := RemoveMediaItemLabels ids remove in Ret r
                                 else Ret (Got 0)) in
                match removed with
                | Failed => Ret (Status 500)
                | Got removed =>
                    let* added := (if 0 <? len add then let! r := AddMediaItemLabels ids add MaxPerItem in Ret r
                                   else Ret (Got 0)) in
                    match added with Failed => Ret (Status 500) | Got added => Ret (Body 200 (added, removed)) end
                end
          end
      end
  end.

(** * The label restriction is one rule wherever it is applied, label lists stay
    in their stored form, and library access is one relation. *)
(** * One item and the listings *)
(** What the listings ask of the row of an item, its library aside. *)
Definition listed (d : DB) (cl : Claims) (m : Media) : bool :=
  sql_visible (v_rank (caller_vis None (Some cl))) (md_content_rating m) && labels_pass d (caller_vis None (Some cl)) m.

Lemma labels_pass_Permits d libs cl m :
  labels_pass d (caller_vis libs (Some cl)) m
  = Permits (LabelFilter (Some cl)) (ancestors_labels (ancestry d) walk_depth (md_parent m) (md_labels m)).
Proof. unfold labels_pass, caller_vis. cbn [v_blocked v_allowed]. apply walk_Permits. Qed.

Lemma inactive_permits f l : Active f = false → Permits f l = true.
Proof. unfold Permits. by intros ->. Qed.
Lemma id_walk d id m f :
  media_row d id = Some m → Active f = true →
  media_item_id_labels_permitted (ancestry d) id (BlockedArg f) (AllowedArg f)
  = Permits f (ancestors_labels (ancestry d) walk_depth (md_parent m) (md_labels m)).
Proof.
  intros Hm Ha. unfold media_item_id_labels_permitted. unfold ancestry at 1. rewrite Hm. cbn.
  rewrite walk_Permits. unfold BlockedArg, AllowedArg. rewrite !cardinality_arg.
  unfold Active in Ha. rewrite !len_pos in Ha. rewrite !len_zero. by do 2 case_bool_decide.
Qed.

(** The database's answer to the gate's question. *)
Lemma labelsPermit_run gate cl id ms d b d' tr :
  Forall alone ms → run (labelsPermit gate cl id) ms d = Some (b, d', tr) →
  d' = d ∧ ∀ m, media_row d id = Some m →
    let P := labels_pass d (caller_vis None (Some cl)) m in
    (b = true → P = true) ∧ (gate = true → Forall up ms → b = P).
Proof.
  intros Ha. unfold labelsPermit. destruct (Active (LabelFilter (Some cl))) eqn:E; cbn [negb].
  - destruct gate; cbn [negb]; [|rewrite run_ret; intros [= <- <- <-]; split; [done|]; intros m Hm; split; done].
    destruct ms as [|m0 ms]; [done|]. apply Forall_cons in Ha as [Ha _]. cbn [run]. rewrite Ha.
    assert (∀ m, media_row d id = Some m →
      media_item_id_labels_permitted (ancestry d) id (BlockedArg (LabelFilter (Some cl))) (AllowedArg (LabelFilter (Some cl)))
      = labels_pass d (caller_vis None (Some cl)) m) as Hp by (intros m Hm; by rewrite labels_pass_Permits, (id_walk d id m)).
    unfold call. destruct (outage_ m0) eqn:Eo; cbn [query fst snd read]; rewrite run_ret; intros [= <- <- <-];
      (split; [done|]); intros m Hm; cbv zeta; rewrite <- (Hp m Hm); split; try done;
      intros _ Hu; apply Forall_cons in Hu as [Hu _]; unfold up in Hu; by rewrite Hu in Eo.
  - rewrite run_ret. intros [= <- <- <-]. split; [done|]. intros m Hm. cbv zeta. rewrite labels_pass_Permits.
    by rewrite inactive_permits.
Qed.

Lemma media_row_in d id m : media_row d id = Some m → m ∈ media d ∧ md_id m = id.
Proof. unfold media_row. intros [H1 H2]%find_first_Some. split; [done|]. by apply N.eqb_eq. Qed.
Lemma media_row_unique d m : NoDup (map md_id (media d)) → m ∈ media d → media_row d (md_id m) = Some m.
Proof.
  unfold media_row. induction (media d) as [|x l IH]; cbn [map find_first]; [by intros _ ?%elem_of_nil|].
  intros [Hx Hn]%NoDup_cons [->|Hm]%elem_of_cons; [by rewrite N.eqb_refl|].
  destruct (N.eqb_spec (md_id x) (md_id m)) as [E|]; [|by apply IH].
  exfalso. apply Hx. rewrite E. apply list_elem_of_In, in_map. by apply list_elem_of_In.
Qed.

(** A batched check that cannot be made leaves an empty set, not none. *)
Lemma labelPermittedSet_run gate cl ids ms d set d' tr m :
  Forall alone ms → media_row d (md_id m) = Some m → NoDup (map md_id (media d)) →
  run (labelPermittedSet gate cl ids) ms d = Some (set, d', tr) →
  d' = d ∧ (inLabelSet set (md_id m) = true → labels_pass d (caller_vis None (Some cl)) m = true).
Proof.
  intros Ha Hm Hnd. unfold labelPermittedSet.
  destruct (Active (LabelFilter (Some cl))) eqn:E; cbn [negb orb].
  2: { rewrite run_ret. intros [= <- <- <-]. split; [done|]. intros _.
       by rewrite labels_pass_Permits, inactive_permits. }
  destruct (negb gate || (len ids =? 0)); [rewrite run_ret; by intros [= <- <- <-]|].
  destruct ms as [|m0 ms]; [done|]. apply Forall_cons in Ha as [Ha _]. cbn [run]. rewrite Ha. unfold call.
  destruct (outage_ m0); cbn [query fst snd read]; rewrite run_ret; intros [= <- <- <-]; [|done..].
  split; [done|]. unfold inLabelSet.
  change (media_item_labels_permitted (ancestry d) (md_labels ?x) (md_parent ?x) _ _)
    with (labels_pass d (caller_vis None (Some cl)) x).
  rewrite mem_spec, list_elem_of_fmap. intros (x & Hx & Hin). apply list_elem_of_In, filter_In in Hin.
  destruct Hin as [Hx1 [_ Hx2]%andb_true_iff].
  apply list_elem_of_In, (media_row_unique _ _ Hnd) in Hx1. rewrite <- Hx, Hm in Hx1. by injection Hx1 as ->.
Qed.

Lemma set_agrees d cl m ids ms set d' tr :
  media_row d (md_id m) = Some m → md_id m ∈ ids → NoDup (map md_id (media d)) →
  Forall alone ms → Forall up ms → run (labelPermittedSet true cl ids) ms d = Some (set, d', tr) →
  inLabelSet set (md_id m) = labels_pass d (caller_vis None (Some cl)) m.
Proof.
  intros Hm Hin Hnd Ha Hu. unfold labelPermittedSet.
  destruct (Active (LabelFilter (Some cl))) eqn:E; cbn [negb orb].
  2: { rewrite run_ret. intros [= <- <- <-]. cbn [inLabelSet].
       by rewrite labels_pass_Permits, inactive_permits. }
  destruct ids as [|i ids]; [by apply elem_of_nil in Hin|].
  change (len (i :: ids) =? 0) with (Z.of_nat (S (length ids)) =? 0).
  destruct (Z.eqb_spec (Z.of_nat (S (length ids))) 0); [lia|]. destruct ms as [|m0 ms]; [done|].
  apply Forall_cons in Ha as [Ha _]. apply Forall_cons in Hu as [Hu _].
  cbn [run]. rewrite Ha. unfold call, up in *. rewrite Hu. cbn [query fst snd read]. rewrite run_ret.
  intros [= <- <- <-]. unfold inLabelSet.
  change (media_item_labels_permitted (ancestry d) (md_labels ?x) (md_parent ?x) _ _)
    with (labels_pass d (caller_vis None (Some cl)) x).
  apply eq_true_iff_eq. rewrite mem_spec, list_elem_of_fmap.
  setoid_rewrite list_elem_of_In. setoid_rewrite filter_In. split.
  - intros (x & Hx & [Hx1 Hx2]). apply andb_true_iff in Hx2 as [_ Hx2].
    apply list_elem_of_In, (media_row_unique _ _ Hnd) in Hx1. rewrite <- Hx, Hm in Hx1. by injection Hx1 as ->.
  - intros Hp. exists m. split; [done|]. split; [apply list_elem_of_In; by apply media_row_in in Hm as [? _]|].
    apply andb_true_iff. split; [by apply mem_spec|done].
Qed.

(** C16: hiding an item by its rating or its labels - its own or those of up to
    four ancestors - is one rule.  For every item in the table, caller and
    restriction: the conditions in every listing query are the rating ceiling
    and the filter over those labels; the check made of a single item, and the
    row test of the handlers that hold a list (the rating, and the batched label
    check), give that verdict when the gate is there and the database answers;
    and a check that cannot be made - no gate, or a failed query - never shows
    what the rule hides, so nothing a listing hides can be opened directly.
    (Nobody else writes while a check is made.) *)
Theorem label_gate_agrees (d : DB) (cl : Claims) (m : Media) (gate b : bool) (ms : list Moment) d' tr
    (Hm : media_row d (md_id m) = Some m)
    (Ha : Forall alone ms)
    (Hr : run (itemPermitted gate (Some cl) (md_id m) (default "" (md_content_rating m))) ms d = Some (b, d', tr)) :
  (b = true → listed d cl m = true)
  ∧ (gate = true → Forall up ms → b = listed d cl m)
  ∧ listed d cl m = IsAllowed (default "" (md_content_rating m)) (MaxContentRating cl)
      && Permits (LabelFilter (Some cl)) (default [] (effective_labels (ancestry d) (md_id m)))
  ∧ (∀ g ids ms2 set d2 tr2, NoDup (map md_id (media d)) → Forall alone ms2 →
       run (labelPermittedSet g cl ids) ms2 d = Some (set, d2, tr2) →
       (row_shown cl set m = true → listed d cl m = true)
       ∧ (md_id m ∈ ids → g = true → Forall up ms2 → row_shown cl set m = listed d cl m)).
Proof.
  assert (sql_visible (v_rank (caller_vis None (Some cl))) (md_content_rating m)
          = IsAllowed (default "" (md_content_rating m)) (MaxContentRating cl)) as Hs.
  { unfold caller_vis. cbn [v_rank mbind option_bind]. apply rating_filters_agree. }
  unfold listed. rewrite Hs. unfold itemPermitted in Hr.
  assert ((b = true → IsAllowed (default "" (md_content_rating m)) (MaxContentRating cl) && labels_pass d (caller_vis None (Some cl)) m = true)
    ∧ (gate = true → Forall up ms → b = IsAllowed (default "" (md_content_rating m)) (MaxContentRating cl)
                                        && labels_pass d (caller_vis None (Some cl)) m)) as [H1 H2].
  { destruct (IsAllowed _ _); [|rewrite run_ret in Hr; injection Hr as <- <- <-; done].
    destruct (labelsPermit_run _ _ _ _ _ _ _ _ Ha Hr) as [_ H]. exact (H m Hm). }
  split; [done|]. split; [done|]. split.
  { f_equal. rewrite labels_pass_Permits. f_equal. unfold effective_labels, ancestry at 2. by rewrite Hm. }
  intros g ids ms2 set d2 tr2 Hnd Ha2 Hset. unfold row_shown. rewrite negb_orb, !negb_involutive. split.
  - intros [-> Hin]%andb_true_iff. by apply (labelPermittedSet_run _ _ _ _ _ _ _ _ _ Ha2 Hm Hnd Hset).
  - intros Hin -> Hu. f_equal. by apply (set_agrees _ _ _ _ _ _ _ _ Hm Hin Hnd Ha2 Hu Hset).
Qed.

(** * The stored form of the labels *)
Definition labels_stored (d : DB) : Prop := Forall (λ m, canonical MaxPerItem (md_labels m)) (media d).

Lemma relabel_stored d ids f p :
  labels_stored d → (∀ l, canonical MaxPerItem l → p l = true → canonical MaxPerItem (f l)) → labels_stored (relabel d ids f p).
Proof.
  intros Hd Hf. unfold labels_stored, relabel in *. cbn [media]. apply Forall_map. eapply Forall_impl; [exact Hd|].
  intros m Hm. destruct (_ && _) eqn:E; [|done]. apply andb_true_iff in E as [_ E]. by apply Hf.
Qed.
Lemma merged_stored labels l :
  Forall good_label labels → canonical MaxPerItem l → add_changes labels MaxPerItem l = true →
  canonical MaxPerItem (merged labels l).
Proof.
  intros Hg (_ & _ & _ & Hl) [_ Hm]%andb_true_iff. unfold merged in *. split; [apply sort_strings_sorted|].
  split; [rewrite sort_strings_perm; apply NoDup_remove_dups|]. split; [by apply Z.leb_le|].
  rewrite sort_strings_perm. apply Forall_forall. intros x. rewrite elem_of_remove_dups, elem_of_app. intros Hx.
  rewrite Forall_forall in Hl, Hg. destruct Hx; auto.
Qed.
Lemma removed_stored labels l : canonical MaxPerItem l → canonical MaxPerItem (removed labels l).
Proof.
  intros (_ & Hn & Hm & Hl). unfold removed. split; [apply sort_strings_sorted|].
  assert (sublist (List.filter (λ x, negb (mem x labels)) l) l) as Hs.
  { clear. induction l as [|x l IH]; [done|]. simpl. destruct (negb _); by constructor. }
  split; [rewrite sort_strings_perm; by eapply sublist_NoDup|]. split.
  - unfold len in *. rewrite sort_strings_perm. apply sublist_length in Hs. lia.
  - rewrite sort_strings_perm. rewrite Forall_forall in *. intros x. rewrite list_elem_of_In, filter_In, <- list_elem_of_In.
    intros [Hx _]. by apply Hl.
Qed.

(** What the label endpoints may ask of the database. *)
Definition label_stmt (c : stmt) : Prop :=
  match c with
  | SetMediaItemLabels _ l => canonical MaxPerItem l
  | AddMediaItemLabels _ l max => canonical MaxPerItem l ∧ max = MaxPerItem
  | RemoveMediaItemLabels _ _ => True
  | _ => False
  end.
Lemma label_stmt_keeps c : label_stmt c → keeps labels_stored (λ _, True) (λ _ _, True) (λ _ _, True) c.
Proof.
  intros Hc now i d _ Hd. split; [|split; [done|by destruct (query _ _ _ _).2]]. destruct c; try done; cbn [query fst].
  - by apply relabel_stored.
  - destruct Hc as [(_ & _ & _ & Hc) ->]. apply relabel_stored; [done|]. intros l. by apply merged_stored.
  - apply relabel_stored; [done|]. intros l Hl _. by apply removed_stored.
Qed.
Lemma normalized_canonical input max l : NormalizeList input max = inr l → canonical max l.
Proof. intros H. by apply NormalizeList_spec in H as [H _]. Qed.

Lemma SetItem_only cl id body : only label_stmt (λ _ _, True) (SetItem cl id body).
Proof.
  unfold SetItem. destruct (negb _); [constructor|]. destruct id as [id|], body as [l|]; try constructor.
  destruct (NormalizeList l MaxPerItem) eqn:E; [constructor|]. constructor; [by eapply normalized_canonical|].
  intros [n|] _; [|constructor]. destruct (n =? 0); constructor.
Qed.
Lemma Apply_only cl body : only label_stmt (λ _ _, True) (Apply cl body).
Proof.
  unfold Apply. destruct (negb _); [constructor|]. destruct body as [b|]; [|constructor]. destruct (_ || _); [constructor|].
  destruct (unique_ids _ _) as [ids|]; [|constructor].
  destruct (NormalizeList (ap_add b) MaxPerItem) as [|add] eqn:Ea; [constructor|].
  destruct (NormalizeList (ap_remove b) MaxPerItem) as [|rem] eqn:Er; [constructor|].
  destruct (_ && _); [constructor|]. apply only_bind; [destruct (0 <? len rem); repeat constructor|].
  intros [r|]; [|constructor]. apply only_bind; [|intros [n|]; constructor].
  destruct (0 <? len add); [|constructor]. constructor; [split; [by eapply normalized_canonical|done]|].
  intros a _. constructor.
Qed.

(** Labels stay in the one form that comparing them relies on.  Whatever is
    sent to the label endpoints, whatever fails half way and whoever else
    writes, every item's stored labels are lower-case and single-spaced,
    sorted, distinct, at most 50 of at most 64 characters each; and a list that
    is accepted holds exactly the labels sent, normalised. *)
Lemma label_lists_canonical (d : DB) (ms : list Moment)
    (Hd : labels_stored d)
    (Hm : Forall (λ m, ∀ d, labels_stored d → labels_stored (meddle m d)) ms) :
  (∀ cl id body r d' tr, run (SetItem cl id body) ms d = Some (r, d', tr) → labels_stored d'
     ∧ ∀ code l, r = Body code l → code = 200 ∧ canonical MaxPerItem l
         ∧ ∀ x, x ∈ l ↔ x ≠ "" ∧ x ∈ map Normalize (default [] body))
  ∧ ∀ cl body r d' tr, run (Apply cl body) ms d = Some (r, d', tr) → labels_stored d'.
Proof.
  assert (∀ A (p : prog A) a d' tr, only label_stmt (λ _ _, True) p → run p ms d = Some (a, d', tr) → labels_stored d') as Hrun.
  { intros A p a d' tr Hp Hr. destruct (prog_invariant labels_stored (λ _, True) (λ _ _, True) (λ _ _, True) p ms d a d' tr) as [H _]; [|by apply Forall_forall; rewrite Forall_forall in Hm; auto|done..].
    eapply only_impl; [apply label_stmt_keeps|done]. }
  split; [|intros cl body r d' tr Hr; eapply Hrun; [apply Apply_only|exact Hr]].
  intros cl id body r d' tr Hr. split; [eapply Hrun; [apply SetItem_only|exact Hr]|].
  intros code l ->. unfold SetItem in Hr. destruct (negb _); [rewrite run_ret in Hr; congruence|].
  destruct id as [id|], body as [b|]; try (rewrite run_ret in Hr; congruence).
  destruct (NormalizeList b MaxPerItem) as [|l0] eqn:E; [rewrite run_ret in Hr; congruence|].
  destruct ms as [|m ms']; [done|]. cbn [run] in Hr. destruct (call _ m _) as [d2 [n|]]; [|rewrite run_ret in Hr; congruence].
  destruct (n =? 0); rewrite run_ret in Hr; [congruence|]. injection Hr as <- <- <- <-. split; [done|].
  apply (NormalizeList_spec _ _ _ E).
Qed.

(** * Library access *)
Definition may_see (d : DB) (u : UUID) (adm : bool) (l : UUID) : Prop :=
  adm = true ∨ ∃ r, r ∈ libraries d ∧ lb_id r = l ∧ library_allowed d u r = true.

(** Which libraries a user may open is one relation, however it is asked:
    the check of one library, the set a listing is filtered by and the list of
    libraries shown all agree; a user without grants sees only public
    libraries, a deleted library is nobody's but an admin's, and a managed
    profile that inherits has exactly its parent's grants. *)
Lemma library_access_agree (d : DB) (u l : UUID) (adm : bool) (m0 m1 : Moment)
    (Ha : Forall alone [m0; m1]) (Hu : Forall up [m0; m1]) :
  ∃ b ids libs tr1 tr2 tr3,
    run (CanAccessLibrary u l adm) [m0; m1] d = Some (Got b, d, tr1)
  ∧ run (AllowedLibraryIDs u adm) [m0; m1] d = Some (Got ids, d, tr2)
  ∧ run (ListForUser u adm) [m0; m1] d = Some (Got libs, d, tr3)
  ∧ (b = true ↔ may_see d u adm l)
  ∧ (in_libs ids l = true ↔ may_see d u adm l)
  ∧ (∀ r, r ∈ libs ↔ r ∈ libraries d ∧ lb_deleted r = false ∧ may_see d u adm (lb_id r))
  ∧ (∀ r, adm = false → library_allowed d u r = true ↔
       lb_deleted r = false ∧ (lb_private r = false ∨ ∃ o, effective_owner d u = Some o ∧ (o, lb_id r) ∈ access d)).
Proof.
  apply Forall_cons in Ha as [Ha0 Ha]. apply Forall_cons in Ha as [Ha1 _].
  apply Forall_cons in Hu as [Hu0 Hu]. apply Forall_cons in Hu as [Hu1 _]. unfold up in *.
  assert (∀ r, library_allowed d u r = true ↔
       lb_deleted r = false ∧ (lb_private r = false ∨ ∃ o, effective_owner d u = Some o ∧ (o, lb_id r) ∈ access d)) as Hl.
  { intros r. unfold library_allowed. rewrite andb_true_iff, orb_true_iff, !negb_true_iff.
    destruct (effective_owner d u) as [o|]; [rewrite bool_decide_eq_true|]; naive_solver. }
  destruct adm; unfold CanAccessLibrary, AllowedLibraryIDs, ListForUser.
  - cbn [run]. rewrite Ha0. unfold call. rewrite Hu0. cbn [query fst snd read run].
    do 6 eexists. do 3 (split; [reflexivity|]). unfold may_see. cbn [in_libs]. split; [naive_solver|]. split; [naive_solver|].
    split; [|done]. intros r. rewrite list_elem_of_In, filter_In, <- list_elem_of_In, negb_true_iff. naive_solver.
  - assert (∀ i, existsb (λ r, N.eqb (lb_id r) i && library_allowed d u r) (libraries d) = true ↔ may_see d u false i) as H1.
    { intros i. unfold may_see. rewrite existsb_exists. split.
      - intros (r & Hr & [He Hr2]%andb_true_iff). right. exists r. rewrite list_elem_of_In. by apply N.eqb_eq in He.
      - intros [|(r & Hr & He & Hr2)]; [done|]. exists r. rewrite <- list_elem_of_In. split; [done|].
        apply andb_true_iff. by rewrite N.eqb_eq. }
    set (ids := remove_dups (map lb_id (List.filter (library_allowed d u) (libraries d)))).
    assert (∀ i, i ∈ ids ↔ may_see d u false i) as H2.
    { intros i. unfold ids, may_see. rewrite elem_of_remove_dups, list_elem_of_In, in_map_iff. split.
      - intros (r & He & [Hr Hr2]%filter_In). right. exists r. by rewrite list_elem_of_In.
      - intros [|(r & Hr & He & Hr2)]; [done|]. exists r. rewrite filter_In, <- list_elem_of_In. done. }
    cbn [run]. rewrite Ha0. unfold call. rewrite Hu0. cbn [query fst snd read run]. fold ids.
    eexists _, (Some ids). cbn [in_libs]. setoid_rewrite mem_spec. destruct ids as [|i0 ids'] eqn:Ei.
    + do 4 eexists. do 3 (split; [reflexivity|]). split; [apply H1|]. split; [apply H2|]. split; [|done].
      intros r. split; [by intros ?%elem_of_nil|]. intros (_ & _ & H%H2). by apply elem_of_nil in H.
    + cbn [run]. rewrite Ha1. unfold call. rewrite Hu1. cbn [query fst snd read run].
      do 4 eexists. do 3 (split; [reflexivity|]). split; [apply H1|]. split; [apply H2|]. split; [|done].
      intros r. rewrite list_elem_of_In, filter_In, filter_In, <- list_elem_of_In, negb_true_iff, mem_spec, H2. naive_solver.
Qed.

Lemma grant_each_run u ids ms d ok d' tr :
  Forall alone ms → run (grant_each u ids) ms d = Some (ok, d', tr) →
  (∀ p, p ∈ access d' → p ∈ access d ∨ p.1 = u ∧ p.2 ∈ ids) ∧ (∀ p, p ∈ access d → p ∈ access d')
  ∧ (ok = true → ∀ l, l ∈ ids → (u, l) ∈ access d').
Proof.
  intros Ha. revert ms d tr Ha. induction ids as [|l ids IH]; intros ms d tr Ha; cbn [grant_each].
  - rewrite run_ret. intros [= <- <- <-]. split; [by left|]. split; [done|]. by intros _ l ?%elem_of_nil.
  - destruct ms as [|m ms]; [done|]. apply Forall_cons in Ha as [Ha Hms]. cbn [run]. rewrite Ha.
    assert (∀ d2 r, call (GrantLibraryAccess u l) m d = (d2, r) →
      (d2 = d ∨ d2 = d <| access ::= λ s, {[(u, l)]} ∪ s |>) ∧ (r = Failed ∨ (u, l) ∈ access d2)) as Hc.
    { intros d2 r. unfold call. cbn [query].
      destruct (users d !! u), (library_row d l), (outage_ m); intros [= <- <-]; cbn; auto.
      split; [auto|]. right. set_solver. }
    destruct (call _ m d) as [d2 r] eqn:E. destruct (Hc _ _ eq_refl) as [H1 H2].
    assert ((∀ p, p ∈ access d2 → p ∈ access d ∨ p.1 = u ∧ p.2 ∈ l :: ids) ∧ (∀ p, p ∈ access d → p ∈ access d2)) as [H3 H4].
    { destruct H1 as [-> | ->]; [auto|]. cbn. split; [|set_solver]. intros p [->%elem_of_singleton|]%elem_of_union; [|by left].
      right. split; [done|]. cbn. set_solver. }
    destruct r as [[]|].
    + destruct H2 as [|H2]; [done|]. destruct (run (grant_each u ids) ms d2) as [[[ok2 d3] tr3]|] eqn:Er; [|done].
      intros [= <- <- <-]. destruct (IH _ _ _ Hms Er) as (H5 & H6 & H7). split; [|split; [auto|]].
      * intros p Hp. destruct (H5 p Hp) as [H|[H H']]; [auto|]. right. set_solver.
      * intros -> x [->|Hx]%elem_of_cons; auto.
    + rewrite run_ret. intros [= <- <- <-]. split; [done|]. split; [done|]. done.
Qed.

(** Replacing a user's grants: exactly the list when it succeeds; when it does
    not, the grants of before or some of the list - never both, and never
    another user's. *)
Lemma replace_access u ids ms d ok d' tr :
  Forall alone ms → run (ReplaceAccessForUser u ids) ms d = Some (ok, d', tr) →
  (∀ v l, v ≠ u → (v, l) ∈ access d' ↔ (v, l) ∈ access d)
  ∧ (ok = true → ∀ l, (u, l) ∈ access d' ↔ l ∈ ids)
  ∧ (access d' = access d ∨ ∀ l, (u, l) ∈ access d' → l ∈ ids).
Proof.
  intros Ha. unfold ReplaceAccessForUser. destruct ms as [|m ms]; [done|]. apply Forall_cons in Ha as [Ha Hms].
  cbn [run]. rewrite Ha. set (d1 := d <| access ::= filter (λ p, p.1 ≠ u) |>).
  assert (∀ p, p ∈ access d1 ↔ p.1 ≠ u ∧ p ∈ access d) as Hd1.
  { intros p. change (access d1) with (filter (λ p : UUID * UUID, p.1 ≠ u) (access d)). by rewrite elem_of_filter. }
  assert (∀ d2 r, call (RevokeAllLibraryAccessForUser u) m d = (d2, r) → d2 = d ∧ r = Failed ∨ d2 = d1) as Hc.
  { intros d2 r. unfold call. cbn [query write]. destruct (outage_ m); intros [= <- <-]; auto. }
  destruct (call _ m d) as [d2 r] eqn:E. destruct (Hc _ _ eq_refl) as [[-> ->]| ->].
  { rewrite run_ret. intros [= <- <- <-]. split; [done|]. split; [done|]. by left. }
  assert (∀ x tr2, run (grant_each u ids) ms d1 = Some (x, d', tr2) → (∀ v l, v ≠ u → (v, l) ∈ access d' ↔ (v, l) ∈ access d)
    ∧ (x = true → ∀ l, (u, l) ∈ access d' ↔ l ∈ ids) ∧ ∀ l, (u, l) ∈ access d' → l ∈ ids) as Hg.
  { intros x tr2 Hr. destruct (grant_each_run _ _ _ _ _ _ _ Hms Hr) as (H5 & H6 & H7).
    assert (∀ l, (u, l) ∈ access d' → l ∈ ids) as H8 by (intros l [[H _]%Hd1|[_ H]]%H5; [by cbn in H|done]).
    split; [|split; [|done]].
    - intros v l Hv. split; [intros [[_ H]%Hd1|[H _]]%H5; done|]. intros H. apply H6, Hd1. done.
    - intros -> l. split; [apply H8|by apply H7]. }
  destruct r as [[]|].
  - destruct (run (grant_each u ids) ms d1) as [[[x d3] tr3]|] eqn:Er; [|done]. intros [= <- <- <-].
    destruct (Hg _ _ eq_refl) as (H1 & H2 & H3). auto.
  - rewrite run_ret. intros [= <- <- <-]. split; [intros v l Hv; rewrite Hd1; naive_solver|]. split; [done|].
    right. intros l [H _]%Hd1. by cbn in H.
Qed.

Module Sample.
Definition lib_public : LibraryRow := mkLib 10%N "Films" ["/films"] false false false.
Definition lib_private : LibraryRow := mkLib 11%N "Home" ["/home"] true false false.
Definition show : Media := mkMedia 1%N 10%N "show" "Show" "show" None None [] (Some "PG") ["horror"] None None None false.
Definition season : Media := mkMedia 2%N 10%N "season" "S1" "s1" None None [] None [] (Some 1%N) None None false.
Definition episode : Media := mkMedia 3%N 10%N "episode" "E1" "e1" None None [] (Some "PG") ["kids"] (Some 2%N) None None false.
Definition db : DB :=
  mkDB [lib_public; lib_private]
    (<[1%N := mkUserRow None false false [] []]> (<[2%N := mkUserRow (Some 1%N) true false [] []]> ∅))
    {[(1%N, 11%N)]} [episode; season; show] [] ∅ [].
Definition viewer (blocked allowed : list string) : Claims :=
  mkClaims 2%N "kid" false "PG" blocked allowed 0 0 0 "" None false "" 0%N 0%N "".
Definition now : Moment := quiet 0 0%N.

(** An episode of a barred show is hidden; one of a permitted show is not. *)
Example inherited_label :
  run (itemPermitted true (Some (viewer ["horror"] [])) 3%N "PG") [now] db = Some (false, db, [(db, db)])
  ∧ run (itemPermitted true (Some (viewer [] ["horror"])) 3%N "PG") [now] db = Some (true, db, [(db, db)])
  ∧ run (itemPermitted false (Some (viewer [] ["horror"])) 3%N "PG") [now] db = Some (false, db, []).
Proof. vm_compute. done. Qed.

Definition down : Moment := mkMoment id 0 0%N Down.

Lemma label_gate_agrees_witness :
  false = listed db (viewer ["horror"] []) episode
  ∧ (∀ set d2 tr2, run (labelPermittedSet true (viewer ["horror"] []) [3%N]) [now] db = Some (set, d2, tr2) →
       row_shown (viewer ["horror"] []) set episode = false)
  ∧ (run (labelPermittedSet true (viewer ["horror"] []) [3%N]) [down] db = Some (Some [], db, [(db, db)])
     ∧ (row_shown (viewer ["horror"] []) (Some []) episode = true → listed db (viewer ["horror"] []) episode = true)).
Proof.
  destruct (label_gate_agrees db (viewer ["horror"] []) episode true false [now] db [(db, db)])
    as (_ & H1 & _ & H2); [reflexivity|repeat constructor|vm_compute; reflexivity|].
  assert (NoDup (map md_id (media db))) as Hnd by (vm_compute; repeat constructor; set_solver).
  split; [apply H1; repeat constructor|]. split.
  - intros set d2 tr2 Hr.
    rewrite (proj2 (H2 true [3%N] [now] set d2 tr2 Hnd ltac:(repeat constructor) Hr)
      ltac:(apply list_elem_of_here) eq_refl ltac:(repeat constructor)).
    symmetry. apply H1; repeat constructor.
  - assert (run (labelPermittedSet true (viewer ["horror"] []) [3%N]) [down] db = Some (Some [], db, [(db, db)])) as Hd
      by (vm_compute; reflexivity).
    split; [exact Hd|].
    exact (proj1 (H2 true [3%N] [down] (Some []) db [(db, db)] Hnd ltac:(repeat constructor) Hd)).
Defined.

Lemma label_lists_canonical_witness :
  (∀ cl id body r d' tr, run (SetItem cl id body) [now] (db <| media := [season] |>) = Some (r, d', tr) → labels_stored d'
     ∧ ∀ code l, r = Body code l → code = 200 ∧ canonical MaxPerItem l
         ∧ ∀ x, x ∈ l ↔ x ≠ "" ∧ x ∈ map Normalize (default [] body))
  ∧ ∀ cl body r d' tr, run (Apply cl body) [now] (db <| media := [season] |>) = Some (r, d', tr) → labels_stored d'.
Proof.
  apply (label_lists_canonical (db <| media := [season] |>) [now]).
  - constructor; [|constructor]. split; [constructor|]. split; [constructor|]. split; [vm_compute; discriminate|constructor].
  - constructor; [|constructor]. intros d Hd. exact Hd.
Defined.

Definition admin : Claims := mkClaims 9%N "root" true "" [] [] 0 0 0 "" None false "" 0%N 0%N "".
(** A label to be removed and added ends up present. *)
Example relabelled :
  (λ x, (x.1.1, md_labels <$> media x.1.2)) <$>
    run (Apply (Some admin) (Some (mkApply [Some 1%N; Some 3%N] ["  New  Label "; "HORROR"] ["kids"; "horror"]))) [now; now] db
  = Some (Body 200 (2, 2), [["horror"; "new label"]; []; ["horror"; "new label"]]).
Proof. vm_compute. done. Qed.

Lemma library_access_agree_witness :
  ∃ b ids libs tr1 tr2 tr3,
    run (CanAccessLibrary 2%N 11%N false) [now; now] db = Some (Got b, db, tr1)
  ∧ run (AllowedLibraryIDs 2%N false) [now; now] db = Some (Got ids, db, tr2)
  ∧ run (ListForUser 2%N false) [now; now] db = Some (Got libs, db, tr3)
  ∧ (b = true ↔ may_see db 2%N false 11%N)
  ∧ (in_libs ids 11%N = true ↔ may_see db 2%N false 11%N)
  ∧ (∀ r, r ∈ libs ↔ r ∈ libraries db ∧ lb_deleted r = false ∧ may_see db 2%N false (lb_id r))
  ∧ (∀ r, false = false → library_allowed db 2%N r = true ↔
       lb_deleted r = false ∧ (lb_private r = false ∨ ∃ o, effective_owner db 2%N = Some o ∧ (o, lb_id r) ∈ access db)).
Proof.
  apply (library_access_agree db 2%N 11%N false now now); repeat constructor.
Defined.

(** An ID of no library among the grants: what follows it is not granted, and
    what the user had is gone. *)
Example unknown_library_loses_grants :
  (λ x, (x.1.1, elements (access x.1.2))) <$>
    run (ReplaceAccessForUser 1%N [10%N; 77%N; 11%N]) [now; now; now; now] db = Some (false, [(1%N, 10%N)]).
Proof. vm_compute. done. Qed.
(** The toggles show a public library as not enabled. *)
Example public_shown_disabled :
  (λ x, (λ r : reply (list (LibraryRow * bool)), match r with Got l => map snd l | Failed => [] end) x.1.1) <$>
    run (ListAccessForUser 1%N false) [now; now] db = Some [false; true].
Proof. vm_compute. done. Qed.
End Sample.
