(* ===== verification/Playlists.v ===== *)
(** Playlists: [internal/api/v1/playlists.go] and the handlers of
    [playlists_m3u.go].

    Every handler is a program of statements ([Catalog]).  A path parameter or
    a body arrives parsed: [None] is one that does not parse.  [wired] tells
    whether the library check is there, [gate] whether the label gate is. *)
From S2P Require Import Prelude.
From S2P Require Import GoStrings.
From S2P Require Import GoBytes.
From S2P Require Import GoFloat.
From S2P Require Import GoPath.
From S2P Require Import Tokens.
From S2P Require Import ContentRating.
From S2P Require Import Labels.
From S2P Require Import M3U.
From S2P Require Import M3UImport.
From S2P Require Import Catalog.
From S2P Require Import Gates.

Local Open Scope Z_scope.

(** A request: its caller, and what the server is wired with. *)
Record Ctx := mkCtx { claims : option Claims; wired : bool; gate : bool }.

(** [loadOwned] *)
Definition owned_by (u : UUID) (c : Collection) : bool :=
  isPlaylistType (co_type c) && bool_decide (co_user c = Some u).
Definition loadOwned (x : Ctx) (id : option UUID) : prog (Z + (UUID * Collection)) :=
  match id, claims x with
  | None, _ => Ret (inl 400)
  | _, None => Ret (inl 401)
  | Some id, Some cl =>
      let! r := GetCollection id in
      match r with
      | Failed => Ret (inl 500)
      | Got None => Ret (inl 404)
      | Got (Some col) => if owned_by (UserID cl) col then Ret (inr (id, col)) else Ret (inl 404)
      end
  end.
Notation "'owned!' ( i , c ) := p 'in' k" :=
  (bind p (λ r, match r with inl code => Ret (Status code) | inr (i, c) => k end))
  (at level 200, i name, c name, p at level 100, k at level 200, right associativity).

(** [allowedLibraries] *)
Definition allowedLibraries (x : Ctx) : prog (reply (option (list UUID))) :=
  match wired x, claims x with
  | true, Some cl => AllowedLibraryIDs (UserID cl) (IsAdmin cl)
  | _, _ => Ret (Got None)
  end.

(** * Reading *)
Definition List_ (x : Ctx) : prog (resp (list Collection)) :=
  match claims x with
  | None => Ret (Status 401)
  | Some cl => let! r := ListMyPlaylists (UserID cl) in
               match r with Got rows => Ret (Body 200 rows) | Failed => Ret (Status 500) end
  end.

(** [libraryIDsForUser] *)
Definition libraryIDsForUser (allowed : option (list UUID)) : list UUID :=
  match allowed with None => [Nil] | Some ids => ids end.

Definition smart_limit (rules : SmartPlaylistRules) : Z :=
  match Limit rules with Some n => if 0 <? n then Z.min n 500 else 50 | None => 50 end.
Definition smart_query (x : Ctx) (rules : SmartPlaylistRules) (libIDs : list UUID) : SmartQuery := {|
  sq_libs := libIDs; sq_types := Types rules; sq_genre := head (Genres rules);
  sq_ymin := wrap32 <$> YearMin rules; sq_ymax := wrap32 <$> YearMax rules;
  sq_rating := (λ r, int_of_f64 (f64_mul r (f64_of_Z 100))) <$> RatingMin rules;
  sq_limit := smart_limit rules; sq_vis := caller_vis None (claims x) |}.
Definition no_rules : SmartPlaylistRules := mkRules [] [] None None None None.

(** An item of a playlist, and its place in it. *)
Abbreviation Placed := (Media * Z)%type.
Definition number_from {A} (l : list A) : list (A * Z) := imap (λ i a, (a, Z.of_nat i)) l.

(** [resolveSmartPlaylist] *)
Definition resolveSmartPlaylist (x : Ctx) (col : Collection) (allowed : option (list UUID)) : prog (reply (list Placed)) :=
  let rules := default no_rules (co_rules col) in
  match Types rules, libraryIDsForUser allowed with
  | [], _ | _, [] => Ret (Got [])
  | _, libIDs =>
      let! r := ListMediaItemsForSmartPlaylist (smart_query x rules libIDs) in
      match r with Got rows => Ret (Got (number_from rows)) | Failed => Ret Failed end
  end.

(** [respond.ParseLimit] and [parseInt32] on the query's text *)
Definition collectionItemsPageDefault : Z := 5000.
Definition ParseLimit (raw : string) (defaultLimit maxLimit : Z) : Z :=
  let defaultLimit := if defaultLimit <=? 0 then 50 else defaultLimit in
  let maxLimit := if maxLimit <=? 0 then 200 else maxLimit in
  if String.eqb raw "" then wrap32 defaultLimit
  else match Atoi raw with
       | Some n => if 0 <? n then wrap32 (Z.min n maxLimit) else wrap32 defaultLimit
       | None => wrap32 defaultLimit
       end.
Definition parseInt32 (s : string) (def : Z) : Z :=
  if String.eqb s "" then def
  else match Atoi s with
       | Some n => if n <? 0 then def else if int32_max <? n then int32_max else n
       | None => def
       end.

(** [Items]: the rows and the total. *)
Definition Items (x : Ctx) (id : option UUID) (limit offset : string) : prog (resp (list Placed * Z)) :=
  owned! (id, col) := loadOwned x id in
  let* a := allowedLibraries x in
  match a with
  | Failed => Ret (Status 500)
  | Got allowed =>
      if String.eqb (co_type col) "smart_playlist" then
        let* s := resolveSmartPlaylist x col allowed in
        match s with Got out => Ret (Body 200 (out, len out)) | Failed => Ret (Status 500) end
      else
        let v := caller_vis None (claims x) in
        let! r := ListCollectionItems id v (ParseLimit limit collectionItemsPageDefault collectionItemsPageDefault)
                    (parseInt32 offset 0) in
        match r with
        | Failed => Ret (Status 500)
        | Got rows =>
            let out := (λ p : Member * Media, (p.2, mb_pos p.1)) <$>
                         List.filter (λ p : Member * Media, in_libs allowed (md_library p.2)) rows in
            let! n := CountCollectionItems id (caller_vis allowed (claims x)) in
            Ret (Body 200 (out, match n with Got n => n | Failed => 0 end))
        end
  end.

(** * Changing *)
Record CreateBody := mkCreate { cr_name : string; cr_desc : option string; cr_rules : option SmartPlaylistRules }.
Definition Create (x : Ctx) (body : option CreateBody) : prog (resp Collection) :=
  match claims x, body with
  | None, _ => Ret (Status 401)
  | _, None => Ret (Status 400)
  | Some cl, Some b =>
      let name := TrimSpace (cr_name b) in
      if String.eqb name "" then Ret (Status 400)
      else
        let! r := CreateCollection (mkNew (Some (UserID cl)) name (cr_desc b)
                    (match cr_rules b with Some _ => "smart_playlist" | None => "playlist" end) (cr_rules b)) in
        match r with Got col => Ret (Body 201 col) | Failed => Ret (Status 500) end
  end.
Definition Update (x : Ctx) (id : option UUID) (body : option (string * option string)) : prog (resp Collection) :=
  owned! (id, col) := loadOwned x id in
  match body with
  | None => Ret (Status 400)
  | Some (bname, bdesc) =>
      let name := if String.eqb (TrimSpace bname) "" then co_name col else TrimSpace bname in
      let desc := match bdesc with None => co_desc col | _ => bdesc end in
      let! r := UpdateCollection id name desc in
      match r with Got (Some col) => Ret (Body 200 col) | _ => Ret (Status 500) end
  end.
Definition Delete (x : Ctx) (id : option UUID) : prog (resp unit) :=
  owned! (id, col) := loadOwned x id in
  let! r := DeleteCollection id in
  match r with Got _ => Ret (Status 204) | Failed => Ret (Status 500) end.
Definition AddItem (x : Ctx) (id : option UUID) (body : option (option UUID)) : prog (resp unit) :=
  owned! (id, col) := loadOwned x id in
  match body with
  | None | Some None => Ret (Status 400)
  | Some (Some itemID) =>
      let! m := GetMediaItem itemID in
      match m with
      | Failed => Ret (Status 500)
      | Got None => Ret (Status 404)
      | Got (Some mi) =>
          let* refused := itemAddAllowed (wired x) (gate x) (claims x) mi in
          match refused with
          | Some answer => Ret answer
          | None => let! r := AddCollectionItem id itemID in
                    match r with Got _ => Ret (Status 204) | Failed => Ret (Status 500) end
          end
      end
  end.
Definition RemoveItem (x : Ctx) (id itemID : option UUID) : prog (resp unit) :=
  owned! (id, col) := loadOwned x id in
  match itemID with
  | None => Ret (Status 400)
  | Some itemID => let! r := RemoveCollectionItem id itemID in
                   match r with Got _ => Ret (Status 204) | Failed => Ret (Status 404) end
  end.
Definition Reorder (x : Ctx) (id : option UUID) (body : option (list (option UUID))) : prog (resp unit) :=
  owned! (id, col) := loadOwned x id in
  match body ≫= λ raw, unique_ids raw [] with
  | None => Ret (Status 400)
  | Some ids => let! r := ReorderPlaylistItems id ids in
                match r with Got _ => Ret (Status 204) | Failed => Ret (Status 500) end
  end.

(** * Export *)
(** [visibility] *)
Definition visibility (x : Ctx) : prog (reply Vis) :=
  let* a := allowedLibraries x in
  Ret (match a with Got allowed => Got (caller_vis allowed (claims x)) | Failed => Failed end).

(** The items exported, in order. *)
Definition export_ids (x : Ctx) (id : UUID) (col : Collection) (vis : Vis) : prog (reply (list UUID)) :=
  if String.eqb (co_type col) "smart_playlist" then
    let* r := resolveSmartPlaylist x col (v_libs vis) in
    Ret (match r with Got items => Got ((λ p : Placed, md_id p.1) <$> items) | Failed => Failed end)
  else
    let! r := ListCollectionItems id vis MaxEntries 0 in
    Ret (match r with
         | Got rows => Got ((λ p : Member * Media, md_id p.2) <$>
                        List.filter (λ p : Member * Media, in_libs (v_libs vis) (md_library p.2)) rows)
         | Failed => Failed
         end).
(** The handler [ExportM3U]: the text of the file. *)
Definition export_m3u (x : Ctx) (id : option UUID) (absolute : bool) : prog (resp string) :=
  owned! (id, col) := loadOwned x id in
  let* v := visibility x in
  match v with
  | Failed => Ret (Status 500)
  | Got vis =>
      let* i := export_ids x id col vis in
      match i with
      | Failed => Ret (Status 500)
      | Got [] => Ret (Body 200 (ExportM3U absolute []))
      | Got ids => let! r := ListM3UExportRows ids vis in
                   match r with Got rows => Ret (Body 200 (ExportM3U absolute rows)) | Failed => Ret (Status 500) end
      end
  end.

(** * Import *)
Definition library_of (l : LibraryRow) : Library := mkLibrary (lb_id l) (lb_paths l).
(** The filters of a [Visibility] on libraries; labels are the database's. *)
Definition only_libs (vis : Vis) : Visibility := mkVisibility (v_libs vis) None (λ _, true).

(** The lookups of the first pass, at most 5000 paths each. *)
Definition lookup_batch : nat := 5000.
Fixpoint files_by_path (fuel : nat) (vis : Vis) (paths : list string) : prog (reply (list FileRow)) :=
  match fuel, paths with
  | O, _ | _, [] => Ret (Got [])
  | S fuel, _ =>
      let! r := FilesByPath vis (take lookup_batch paths) in
      match r with
      | Failed => Ret Failed
      | Got rows => let* rest := files_by_path fuel vis (drop lookup_batch paths) in
                    Ret (match rest with Got more => Got (rows ++ more) | Failed => Failed end)
      end
  end.
(** [resolveM3U], statement by statement. *)
Definition resolve (vis : Vis) (entries : list Entry) (baseDir : string) : prog (reply (list (option Match))) :=
  let! l := ListLibraries in
  match l with
  | Failed => Ret Failed
  | Got libs =>
      let classes := classes_of entries in
      let cands := cands_of (roots_of (only_libs vis) (library_of <$> libs)) baseDir entries in
      let paths := map fst (concat cands) in
      let* r1 := files_by_path (length paths) vis paths in
      match r1 with
      | Failed => Ret Failed
      | Got byPath =>
          let ms1 := pass1 byPath cands in
          let bases := wanted_bases classes ms1 in
          let* r2 := (if len bases =? 0 then Ret (Got []) else let! r := FilesByBasename vis bases in Ret r) in
          match r2 with
          | Failed => Ret Failed
          | Got byBase =>
              let ms2 := pass2 byBase classes ms1 in
              let titles := wanted_titles entries classes ms2 in
              let* r3 := (if len titles =? 0 then Ret (Got []) else let! r := TracksByTitle vis titles in Ret r) in
              Ret (match r3 with Got byTitle => Got (pass3 byTitle entries classes ms2) | Failed => Failed end)
          end
      end
  end.

(** What is uploaded: the form does not parse, is too big, or has a file - its
    name, and what was read of it - or none. *)
Inductive upload :=
| UTooBig | UBadForm
| UForm (file : option (string * option string)) (name base_dir : string).
Definition m3uMaxBytes : Z := 1048576.
Definition m3uReportCap : Z := 500.

Fixpoint take_runes (n : nat) (s : string) : string :=
  match s with
  | EmptyString => EmptyString
  | String c s =>
      if (128 <=? byteZ c) && (byteZ c <? 192) then String c (take_runes n s)
      else match n with O => EmptyString | S n => String c (take_runes n s) end
  end.
Definition TrimSuffix (s suf : string) : string := match CutPrefix (srev s) (srev suf) with Some r => srev r | None => s end.
Definition import_name (form filename : string) : string :=
  let name := TrimSpace form in
  let name := if String.eqb name ""
              then TrimSpace (TrimSuffix (Base (ReplaceByte backslash slash filename)) (Ext filename)) else name in
  let name := if String.eqb name "" then "Imported playlist" else name in
  if 200 <? rune_count name then take_runes 200 name else name.

(** The reading of the file: the code of a refusal, or its entries. *)
Definition read_upload (filename : string) (data : option string) : Z + list Entry :=
  let ext := ToLower (Ext filename) in
  if negb (String.eqb ext ".m3u") && negb (String.eqb ext ".m3u8") then inl 400
  else match data with
  | None => inl 400
  | Some data =>
      if m3uMaxBytes <? slen data then inl 413
      else match Decode data (String.eqb ext ".m3u") with
      | None => inl 400
      | Some text => match Parse text with Entries es => inr es | TooManyEntries => inl 413 | ReadError => inl 400 end
      end
  end.

Record MatchLine := mkMatchLine { ml_line : Z; ml_entry : string; ml_item : UUID; ml_title : string; ml_method : method }.
Record UnmatchedLine := mkUnmatched { ul_line : Z; ul_entry : string; ul_url : bool }.
Record ImportResponse := mkImport {
  im_playlist : Collection; Total : Z; Matched : Z; Unmatched : Z; Added : Z; ByMethod : list method;
  Matches : list MatchLine; MatchesTruncated : bool; UnmatchedEntries : list UnmatchedLine; UnmatchedTruncated : bool }.
#[global] Instance ImportResponse_eta : Eta ImportResponse := λ r, mkImport (im_playlist r) (Total r) (Matched r)
  (Unmatched r) (Added r) (ByMethod r) (Matches r) (MatchesTruncated r) (UnmatchedEntries r) (UnmatchedTruncated r).

(** One turn of the loop of the report; [ByMethod] holds one method a match,
    and its counts are theirs. *)
Definition report_entry (out : ImportResponse) (p : Entry * option Match) : ImportResponse :=
  let e := p.1 in
  match p.2 with
  | None =>
      let out := out <| Unmatched ::= Z.succ |> in
      if len (UnmatchedEntries out) <? m3uReportCap
      then out <| UnmatchedEntries ::= λ l, l ++ [mkUnmatched (Line e) (Path e)
                   (match (Classify (Path e)).2 with KindURL => true | _ => false end)] |>
      else out <| UnmatchedTruncated := true |>
  | Some m =>
      let out := out <| Matched ::= Z.succ |> <| ByMethod ::= cons (m_method m) |> in
      if len (Matches out) <? m3uReportCap
      then out <| Matches ::= λ l, l ++ [mkMatchLine (Line e) (Path e) (m_item m) (m_title m) (m_method m)] |>
      else out <| MatchesTruncated := true |>
  end.
Definition report (col : Collection) (entries : list Entry) (ms : list (option Match)) : ImportResponse :=
  fold_left report_entry (zip entries ms)
    (mkImport col (len entries) 0 0 (len (itemIDs ms)) [] [] false [] false).

(** Once the playlist exists: its items, or its removal. *)
Definition fill (col : Collection) (ids : list UUID) : prog bool :=
  if len ids =? 0 then Ret true
  else let! r := AppendCollectionItems (co_id col) ids in
       match r with
       | Got _ => Ret true
       | Failed => let! _ := DeleteCollection (co_id col) in Ret false
       end.
Definition ImportM3U (x : Ctx) (u : upload) : prog (resp ImportResponse) :=
  match claims x, u with
  | None, _ => Ret (Status 401)
  | _, UTooBig => Ret (Status 413)
  | _, UBadForm | _, UForm None _ _ => Ret (Status 400)
  | Some cl, UForm (Some (filename, data)) form_name base_dir =>
      match read_upload filename data with
      | inl code => Ret (Status code)
      | inr entries =>
          let* v := visibility x in
          match v with
          | Failed => Ret (Status 500)
          | Got vis =>
              let* m := resolve vis entries (TrimSpace base_dir) in
              match m with
              | Failed => Ret (Status 500)
              | Got ms =>
                  let! c := CreateCollection (mkNew (Some (UserID cl)) (import_name form_name filename) None "playlist" None) in
                  match c with
                  | Failed => Ret (Status 500)
                  | Got col =>
                      let* ok := fill col (itemIDs ms) in
                      Ret (if ok then Body 201 (report col entries ms) else Status 500)
                  end
              end
          end
      end
  end.

(** * The routes under /api/v1/playlists *)
Inductive request :=
| RList
| RCreate (body : option CreateBody)
| RUpdate (id : option UUID) (body : option (string * option string))
| RDelete (id : option UUID)
| RItems (id : option UUID) (limit offset : string)
| RAddItem (id : option UUID) (body : option (option UUID))
| RRemoveItem (id itemID : option UUID)
| RReorder (id : option UUID) (body : option (list (option UUID)))
| RExport (id : option UUID) (absolute : bool)
| RImport (u : upload).
Definition code_of {A} (r : resp A) : Z := match r with Status c | Body c _ => c end.
Definition coded {A} (p : prog (resp A)) : prog Z := bind p (λ r, Ret (code_of r)).
Definition serve (x : Ctx) (r : request) : prog Z :=
  match r with
  | RList => coded (List_ x)
  | RCreate b => coded (Create x b)
  | RUpdate id b => coded (Update x id b)
  | RDelete id => coded (Delete x id)
  | RItems id l o => coded (Items x id l o)
  | RAddItem id b => coded (AddItem x id b)
  | RRemoveItem id i => coded (RemoveItem x id i)
  | RReorder id b => coded (Reorder x id b)
  | RExport id a => coded (export_m3u x id a)
  | RImport u => coded (ImportM3U x u)
  end.
