(* ===== verification/PlaylistsSafe.v ===== *)
(** Nobody's playlist is changed by anybody else. *)
From S2P Require Import Prelude.
From S2P Require Import GoStrings.
From S2P Require Import Tokens.
From S2P Require Import Labels.
From S2P Require Import M3UImport.
From S2P Require Import Catalog.
From S2P Require Import Gates.
From S2P Require Import Playlists.

Local Open Scope Z_scope.

(** * Members of one collection *)
Lemma filter_filter_sub {A} (p q : A → bool) l : (∀ x, p x = true → q x = true) → List.filter p (List.filter q l) = List.filter p l.
Proof.
  intros H. induction l as [|x l IH]; [done|]. cbn [List.filter]. destruct (q x) eqn:Eq; cbn [List.filter]; rewrite ?IH; [done|].
  destruct (p x) eqn:Ep; [|done]. by rewrite H in Eq.
Qed.
Lemma filter_all {A} (p : A → bool) l : (∀ x, x ∈ l → p x = true) → List.filter p l = l.
Proof.
  induction l as [|x l IH]; intros H; [done|]. cbn [List.filter]. rewrite H by set_solver. f_equal. apply IH. set_solver.
Qed.
Lemma filter_none {A} (p : A → bool) l : (∀ x, x ∈ l → p x = false) → List.filter p l = [].
Proof.
  induction l as [|x l IH]; intros H; [done|]. cbn [List.filter]. rewrite H by set_solver. apply IH. set_solver.
Qed.

Lemma members_over f d : members (d <| members ::= f |>) = f (members d).
Proof. done. Qed.
Lemma collections_over f d : collections (d <| collections ::= f |>) = f (collections d).
Proof. done. Qed.
Lemma of_coll_drop c d (p : Member → bool) :
  (∀ m, mb_coll m = c → p m = true) → of_coll c (d <| members ::= List.filter p |>) = of_coll c d.
Proof. intros H. apply filter_filter_sub. intros x Hx. apply H. by apply N.eqb_eq. Qed.
Lemma of_coll_snoc c d m : mb_coll m ≠ c → of_coll c (d <| members ::= λ l, l ++ [m] |>) = of_coll c d.
Proof.
  intros H. unfold of_coll. rewrite members_over. rewrite List.filter_app. cbn [List.filter].
  destruct (N.eqb_spec (mb_coll m) c); [done|]. apply app_nil_r.
Qed.
Lemma reordered_coll c ids m : mb_coll (reordered c ids m) = mb_coll m.
Proof. unfold reordered. destruct (N.eqb _ _); [|done]. by destruct (index_of _ _ _). Qed.
Lemma of_coll_reordered c c0 ids d : c0 ≠ c → of_coll c (d <| members ::= map (reordered c0 ids) |>) = of_coll c d.
Proof.
  intros H. unfold of_coll. rewrite members_over. induction (members d) as [|m l IH]; [done|]. cbn [map List.filter].
  rewrite reordered_coll. destruct (N.eqb_spec (mb_coll m) c) as [E|]; [|done]. rewrite IH. f_equal. unfold reordered.
  destruct (N.eqb_spec (mb_coll m) c0); [congruence|done].
Qed.
Lemma append_from_coll c c0 ids base d : c0 ≠ c → of_coll c (append_from c0 base ids d) = of_coll c d.
Proof.
  intros H. revert base d. induction ids as [|i ids IH]; intros base d; [done|]. cbn [append_from]. rewrite IH.
  destruct (is_member c0 i d); [done|]. by apply of_coll_snoc.
Qed.
(** An append changes the members only. *)
Lemma append_from_rest c0 ids base d :
  let d' := append_from c0 base ids d in
  libraries d' = libraries d ∧ users d' = users d ∧ access d' = access d ∧ media d' = media d ∧ files d' = files d
  ∧ collections d' = collections d.
Proof.
  revert base d. induction ids as [|i ids IH]; intros base d; [done|]. cbn [append_from].
  destruct (is_member c0 i d); [apply IH|]. destruct (IH (base + 1) (d <| members ::= λ l, l ++ [mkMember c0 i base] |>)) as (H1&H2&H3&H4&H5&H6).
  done.
Qed.

(** * Isolation *)
(** IDs are not reused: every ID ever given to a collection belongs to one
    account and one kind, and [owner] tells which. *)
Section Isolation.
Variable owner : UUID → option UUID * bool.
Variable u : UUID.

Definition consistent (d : DB) : Prop :=
  ∀ c col, collections d !! c = Some col → (co_user col, isPlaylistType (co_type col)) = owner c.
Definition mine (c : UUID) : Prop := owner c = (Some u, true).

(** What the requests of [u] may do to the tables. *)
Definition within_mine (d d' : DB) : Prop :=
  (∀ c, ¬ mine c → collections d' !! c = collections d !! c ∧ of_coll c d' = of_coll c d)
  ∧ libraries d' = libraries d ∧ users d' = users d ∧ access d' = access d ∧ media d' = media d ∧ files d' = files d.
#[export] Instance within_mine_reflexive : Reflexive within_mine.
Proof. by intros d. Qed.

Definition playlist_stmt (c : stmt) : Prop :=
  match c with
  | CreateCollection p => nc_user p = Some u ∧ isPlaylistType (nc_type p) = true
  | UpdateCollection c _ _ | DeleteCollection c | AddCollectionItem c _ | RemoveCollectionItem c _
  | ReorderPlaylistItems c _ | AppendCollectionItems c _ => mine c
  | GrantLibraryAccess _ _ | GrantAutoLibrariesToUser _ | RevokeAllLibraryAccessForUser _
  | SetMediaItemLabels _ _ | AddMediaItemLabels _ _ _ | RemoveMediaItemLabels _ _ => False
  | _ => True
  end.
Definition honest (c : stmt) : answer c → Prop :=
  match c return answer c → Prop with
  | GetCollection i => λ a, ∀ col, a = Some col → (co_user col, isPlaylistType (co_type col)) = owner i
  | CreateCollection p => λ a, mine (co_id a)
  | _ => λ _, True
  end.

Lemma playlist_stmt_keeps c : playlist_stmt c → keeps consistent mine within_mine honest c.
Proof.
  intros Hc now i d Hj Hd.
  destruct c; try done; cbn [query read write fst snd]; try (split; [done|split; [done|done]]).
  - split; [done|]. split; [done|]. intros col. apply Hd.
  - destruct Hc as [Hc1 Hc2]. destruct (collections d !! i) eqn:E; [done|]. cbn [fst snd]. split; [|split; [|done]].
    + intros c col. rewrite collections_over. intros [[<- <-]|[_ H]]%lookup_insert_Some; [|by apply Hd]. cbn. by rewrite Hc1, Hc2, Hj.
    + split; [|done]. intros c Hn. rewrite collections_over. split; [|done]. apply lookup_insert_ne. by intros <-.
  - destruct (collections d !! id) as [col|] eqn:E; [|done]. cbv zeta. cbn [fst snd]. split; [|split; [|done]].
    + intros c col'. rewrite collections_over. intros [[<- <-]|[_ H]]%lookup_insert_Some; [|by apply Hd]. cbn. by apply (Hd id col).
    + split; [|done]. intros c Hn. rewrite collections_over. split; [|done]. apply lookup_insert_ne. by intros <-.
  - split; [|split; [|done]].
    + intros c col. change (collections _) with (delete id (collections d)). intros [_ H]%lookup_delete_Some. by apply Hd.
    + split; [|done]. intros c Hn. assert (id ≠ c) by (by intros <-). split; [by apply (lookup_delete_ne (collections d))|].
      change (of_coll c d) with (of_coll c (d <| collections ::= delete id |>)). apply of_coll_drop. intros m <-. apply negb_true_iff, N.eqb_neq. congruence.
  - destruct (collections d !! c), (media_row d i0); try done. destruct (is_member c i0 d); [done|]. split; [done|].
    split; [|done]. split; [|done]. intros c' Hn. split; [done|]. apply of_coll_snoc. cbn. by intros ->.
  - split; [done|]. split; [|done]. split; [|done]. intros c' Hn. split; [done|]. apply of_coll_drop. intros m <-.
    apply negb_true_iff, andb_false_iff. left. apply N.eqb_neq. by intros <-.
  - split; [done|]. split; [|done]. split; [|done]. intros c' Hn. split; [done|]. apply of_coll_reordered. by intros <-.
  - destruct (collections d !! c); [|done]. destruct (forallb _ ids); [|done]. unfold write. cbn [fst snd].
    destruct (append_from_rest c ids (next_position c d) d) as (H1&H2&H3&H4&H5&H6). split; [|split; [|done]].
    + unfold consistent. by rewrite H6.
    + split; [|done]. intros c' Hn. rewrite H6. split; [done|]. apply append_from_coll. by intros <-.
Qed.

(** ** Every request keeps to its caller's playlists *)
Variable x : Ctx.
Abbreviation fine := (only playlist_stmt honest).

(** Case by case through a program, as long as its statements only read. *)
Ltac fine_step :=
  match goal with
  | |- fine (Ret _) => apply only_ret
  | |- fine (Do _ _) => apply only_do; [exact Logic.I|intros ? _]
  | |- fine (bind _ _) => apply only_bind; [|intros ?]
  | |- fine (match ?e with _ => _ end) => destruct e
  end.
Ltac fine_tac := repeat (fine_step || (progress cbv zeta)).

Lemma allowedLibraries_fine : fine (allowedLibraries x).
Proof. unfold allowedLibraries, AllowedLibraryIDs. fine_tac. Qed.
Lemma resolveSmart_fine col a : fine (resolveSmartPlaylist x col a).
Proof. unfold resolveSmartPlaylist. fine_tac. Qed.
Lemma visibility_fine : fine (visibility x).
Proof. unfold visibility. apply only_bind; [apply allowedLibraries_fine|]. intros a. fine_tac. Qed.
Lemma itemAddAllowed_fine {A} mi : fine (itemAddAllowed (A := A) (wired x) (gate x) (claims x) mi).
Proof. unfold itemAddAllowed, CanAccessLibrary, itemPermitted, labelsPermit. fine_tac. Qed.
Lemma files_by_path_fine n v paths : fine (files_by_path n v paths).
Proof.
  revert paths. induction n as [|n IH]; intros paths; cbn [files_by_path]; [by destruct paths; constructor|].
  destruct paths as [|p ps]; fine_tac. apply IH.
Qed.
Lemma resolve_fine v es b : fine (resolve v es b).
Proof. unfold resolve. fine_tac. apply files_by_path_fine. Qed.
Lemma export_ids_fine id col v : fine (export_ids x id col v).
Proof. unfold export_ids. fine_tac. apply resolveSmart_fine. Qed.

Hypothesis caller : ∀ cl, claims x = Some cl → UserID cl = u.

Lemma owned_fine {A} id (k : UUID → Collection → prog (resp A)) :
  (∀ i c, mine i → fine (k i c)) → fine (owned! (i, c) := loadOwned x id in k i c).
Proof.
  intros Hk. unfold loadOwned. destruct id as [id|]; [|constructor]. destruct (claims x) as [cl|] eqn:Ec; [|constructor].
  cbn [bind]. apply only_do; [exact Logic.I|]. intros [[col|]|] Hr; [|constructor..]. cbn [honest] in Hr.
  destruct (owned_by (UserID cl) col) eqn:E; [|constructor]. cbn [bind]. apply Hk. unfold mine.
  rewrite <- (Hr col eq_refl). unfold owned_by in E. apply andb_true_iff in E as [-> E%bool_decide_eq_true].
  by rewrite E, (caller cl eq_refl).
Qed.

Lemma serve_fine r : fine (serve x r).
Proof.
  destruct r; cbn [serve]; unfold coded; (apply only_bind; [|intros ?; constructor]).
  - unfold List_. fine_tac.
  - unfold Create. destruct (claims x) as [cl|] eqn:Ec, body as [b|]; try constructor. cbv zeta.
    destruct (String.eqb _ _); [constructor|]. apply only_do; [|intros ? _; fine_tac].
    cbn. rewrite (caller cl eq_refl). split; [done|]. by destruct (cr_rules b).
  - apply owned_fine. intros i c Hm. destruct body as [[n d]|]; [|constructor]. cbv zeta.
    apply only_do; [done|]. intros ? _. fine_tac.
  - apply owned_fine. intros i c Hm. apply only_do; [done|]. intros ? _. fine_tac.
  - apply owned_fine. intros i c Hm. apply only_bind; [apply allowedLibraries_fine|]. intros a. fine_tac.
    apply resolveSmart_fine.
  - apply owned_fine. intros i c Hm. destruct body as [[it|]|]; try constructor; [exact Logic.I|].
    intros [[mi|]|] _; try constructor. apply only_bind; [apply itemAddAllowed_fine|]. intros [|]; [constructor|].
    apply only_do; [done|]. intros ? _. fine_tac.
  - apply owned_fine. intros i c Hm. destruct itemID; [|constructor]. apply only_do; [done|]. intros ? _. fine_tac.
  - apply owned_fine. intros i c Hm. destruct (_ ≫= _); [|constructor]. apply only_do; [done|]. intros ? _. fine_tac.
  - apply owned_fine. intros i c Hm. apply only_bind; [apply visibility_fine|]. intros [v|]; [|constructor].
    apply only_bind; [apply export_ids_fine|]. intros a. fine_tac.
  - unfold ImportM3U. destruct (claims x) as [cl|] eqn:Ec; [|constructor].
    destruct u0 as [| |[[fname data]|] nm bd]; try constructor. destruct (read_upload fname data) as [|es]; [constructor|].
    apply only_bind; [apply visibility_fine|]. intros [v|]; [|constructor].
    apply only_bind; [apply resolve_fine|]. intros [ms|]; [|constructor].
    apply only_do; [cbn; by rewrite (caller cl eq_refl)|]. intros [col|] Hr; [|constructor]. cbn [honest] in Hr.
    apply only_bind; [|intros ?; constructor]. unfold fill. destruct (_ =? 0); [constructor|].
    apply only_do; [done|]. intros [|] _; [constructor|]. apply only_do; [done|]. intros ? _. constructor.
Qed.
End Isolation.

(** C15: a request only ever changes its caller's own playlists.  Whatever the
    request, whatever fails during it, and whoever else - the same account
    included - changes the tables between its statements: none of its own
    writes touches another account's playlist, a collection that is not a
    playlist, or any other table; and a caller who is not signed in changes
    nothing.  So requests of different accounts never disturb one another. *)
Theorem playlist_writes_owned (owner : UUID → option UUID * bool) (x : Ctx) (r : request) (d : DB) (ms : list Moment) code d' tr
    (Hd : consistent owner d)
    (Hm : others_keep (consistent owner)
            (λ i, match claims x with Some cl => mine owner (UserID cl) i | None => True end) ms)
    (Hr : run (serve x r) ms d = Some (code, d', tr)) :
  consistent owner d'
  ∧ match claims x with
    | Some cl => Forall (λ s, within_mine owner (UserID cl) s.1 s.2
        ∧ ∀ v, v ≠ UserID cl → ∀ c, mine owner v c → collections s.2 !! c = collections s.1 !! c ∧ of_coll c s.2 = of_coll c s.1) tr
    | None => code = 400 ∨ code = 401
    end.
Proof.
  destruct (claims x) as [cl|] eqn:Ec.
  - assert (only (playlist_stmt owner (UserID cl)) (honest owner (UserID cl)) (serve x r)) as Ho
      by (apply serve_fine; intros cl' E; rewrite Ec in E; by injection E as ->).
    destruct (prog_invariant (consistent owner) (mine owner (UserID cl)) (within_mine owner (UserID cl)) (honest owner (UserID cl))
                (serve x r) ms d code d' tr) as [H1 H2]; try done.
    { eapply only_impl; [|exact Ho]. apply playlist_stmt_keeps. }
    split; [done|]. eapply Forall_impl; [exact H2|]. intros [s1 s2] (_ & _ & Hg). split; [done|].
    intros v Hv c Hc. apply Hg. unfold mine in *. rewrite Hc. congruence.
  - assert (∀ A (p : prog (resp A)) c0, (∀ ms d, run p ms d = Some (Status c0, d, [])) → run (coded p) ms d = Some (code, d', tr) → code = c0 ∧ d' = d) as Hst.
    { intros A p c0 Hp Hrun. unfold coded in Hrun. apply run_bind in Hrun as (a & d1 & tr1 & ms1 & tr2 & H1 & _ & H2 & _).
      rewrite Hp in H1. injection H1 as <- <- <-. rewrite run_ret in H2. by injection H2 as <- <- _. }
    assert (∀ A id (k : UUID → Collection → prog (resp A)),
      ∃ c0, (c0 = 400 ∨ c0 = 401) ∧ ∀ ms d, run (owned! (i, c) := loadOwned x id in k i c) ms d = Some (Status c0, d, [])) as Hown.
    { intros A id k. unfold loadOwned. rewrite Ec. destruct id; eexists; (split; [|intros; apply run_ret]); auto. }
    assert (∃ c0, (c0 = 400 ∨ c0 = 401) ∧ (code = c0 ∧ d' = d)) as (c0 & H0 & -> & ->); [|done].
    destruct r; cbn [serve] in Hr.
    all: try (exists 401; split; [by right|]; eapply Hst; [|exact Hr]; intros; unfold List_, Create, ImportM3U; rewrite Ec; apply run_ret).
    all: edestruct Hown as (c0 & Hc0 & H); exists c0; split; [exact Hc0|]; eapply Hst; [apply H|exact Hr].
Qed.

Module Sample.
Definition cl1 : Claims := mkClaims 1%N "ann" false "" [] [] 0 0 0 "" None false "" 0%N 0%N "".
Definition ann : Ctx := mkCtx (Some cl1) true true.
Definition song (i : UUID) : Media := mkMedia i 10%N "track" "Song" "song" None None [] None [] None (Some "Band") (Some 1000) false.
Definition lib : LibraryRow := mkLib 10%N "Music" ["/music"] false false false.
Definition list_of (i u : UUID) : Collection := mkColl i (Some u) "List" None "playlist" None 0.
Definition db : DB :=
  mkDB [lib] (<[1%N := mkUserRow None false false [] []]> ∅) ∅ [song 5%N; song 6%N; song 7%N]
    [mkFile "/music/5.mp3" 5%N true None 0 None; mkFile "/music/6.mp3" 6%N true None 0 None;
     mkFile "/music/7.mp3" 7%N true None 0 None]
    (<[50%N := list_of 50%N 1%N]> (<[51%N := list_of 51%N 2%N]> ∅))
    [mkMember 50%N 5%N 0; mkMember 50%N 6%N 1; mkMember 51%N 5%N 0].
Definition owner (c : UUID) : option UUID * bool := (Some (if N.eqb c 51%N then 2%N else 1%N), true).
Definition m0 : Moment := quiet 0 60%N.

Example foreign_list_is_not_found :
  (λ a, a.1.1) <$> run (serve ann (RDelete (Some 51%N))) [m0; m0] db = Some 404
  ∧ (λ a, (a.1.1, elements (dom (collections a.1.2)), members a.1.2)) <$> run (serve ann (RDelete (Some 50%N))) [m0; m0] db
    = Some (204, [51%N], [mkMember 51%N 5%N 0]).
Proof. vm_compute. done. Qed.

Lemma playlist_writes_owned_witness :
  ∃ code d' tr, run (serve ann (RDelete (Some 50%N))) [m0; m0] db = Some (code, d', tr)
  ∧ consistent owner d'
  ∧ Forall (λ s, within_mine owner 1%N s.1 s.2
        ∧ ∀ v, v ≠ 1%N → ∀ c, mine owner v c → collections s.2 !! c = collections s.1 !! c ∧ of_coll c s.2 = of_coll c s.1) tr.
Proof.
  do 3 eexists. split; [reflexivity|].
  eapply (playlist_writes_owned owner ann (RDelete (Some 50%N)) db [m0; m0]).
  - intros c col. cbn. rewrite !lookup_insert_Some. intros [[<- <-]|[_ [[<- <-]|[_ H]]]]; [reflexivity..|by rewrite lookup_empty in H].
  - repeat constructor; exact (λ d H, H).
  - reflexivity.
Defined.
End Sample.
