(* ===== verification/PlaylistsProps.v ===== *)
(** A playlist is a list: what adding, removing, ordering and importing do to
    what it shows. *)
From S2P Require Import Prelude.
From S2P Require Import GoStrings.
From S2P Require Import GoBytes.
From S2P Require Import Tokens.
From S2P Require Import Labels.
From S2P Require Import M3U.
From S2P Require Import M3UImport.
From S2P Require Import Catalog.
From S2P Require Import Gates.
From S2P Require Import Playlists.
From S2P Require Import PlaylistsSafe.

Local Open Scope Z_scope.

(** * The order *)
(** What a playlist holds, in the order it is listed. *)
Definition contents (c : UUID) (d : DB) : list UUID := mb_item <$> ordered c d.
(** An item is in a collection once, at a non-negative place. *)
Definition members_ok (d : DB) : Prop :=
  NoDup ((λ m, (mb_coll m, mb_item m)) <$> members d).

Lemma member_le_total a b : member_le a b ∨ member_le b a.
Proof. unfold member_le. lia. Qed.
Lemma ordered_perm c d : ordered c d ≡ₚ of_coll c d.
Proof. apply merge_sort_Permutation. Qed.
Lemma ordered_sorted c d : StronglySorted member_le (ordered c d).
Proof.
  apply StronglySorted_merge_sort; [intros x y z; unfold member_le; lia|intros x y; apply member_le_total].
Qed.
Lemma in_ordered c d m : m ∈ ordered c d ↔ m ∈ members d ∧ mb_coll m = c.
Proof.
  rewrite ordered_perm. unfold of_coll. rewrite list_elem_of_In, filter_In, <- list_elem_of_In, N.eqb_eq. done.
Qed.
(** A sorted list of the same members is the listing. *)
Lemma ordered_unique c d l : StronglySorted member_le l → l ≡ₚ of_coll c d → ordered c d = l.
Proof.
  intros Hs Hp. eapply (StronglySorted_unique_strong member_le); [|apply ordered_sorted|done|by rewrite ordered_perm].
  intros x y Hx Hy. rewrite Hp, <- ordered_perm in Hy. apply in_ordered in Hx as [_ Hx], Hy as [_ Hy].
  unfold member_le. destruct x, y; cbn in *. intros. f_equal; [congruence|lia|lia].
Qed.
Lemma ordered_of_coll c d d' : of_coll c d' = of_coll c d → ordered c d' = ordered c d.
Proof. unfold ordered. by intros ->. Qed.

(** * Adding *)
Lemma StronglySorted_add {A} (R : A → A → Prop) l a :
  StronglySorted R l → (∀ x, x ∈ l → R x a) → StronglySorted R (l ++ [a]).
Proof.
  induction l as [|y l IH]; intros Hs Ha; simpl; [repeat constructor|]. apply StronglySorted_inv in Hs as [Hs Hy].
  constructor; [apply IH; [done|set_solver]|]. apply Forall_app. split; [done|]. repeat constructor. apply Ha. by left.
Qed.
Lemma fold_max_above ps p q : q ∈ p :: ps → q <= fold_left Z.max ps p.
Proof.
  assert (∀ ps p, p <= fold_left Z.max ps p) as Hge.
  { intros qs. induction qs as [|x qs IH]; intros y; simpl; [lia|]. specialize (IH (Z.max y x)). lia. }
  revert p. induction ps as [|x ps IH]; intros p Hq; simpl.
  - apply list_elem_of_singleton in Hq. lia.
  - rewrite !elem_of_cons in Hq. destruct Hq as [->|[->|Hq]]; [specialize (Hge ps (Z.max p x)); lia..|].
    apply IH. by right.
Qed.
Lemma next_above c d m : m ∈ ordered c d → mb_pos m < next_position c d.
Proof.
  rewrite ordered_perm. unfold next_position, max_position. intros Hm.
  assert (mb_pos m ∈ map mb_pos (of_coll c d)) as Hp by (apply list_elem_of_In, in_map; by apply list_elem_of_In).
  destruct (map mb_pos (of_coll c d)) as [|p ps]; [by apply elem_of_nil in Hp|]. apply fold_max_above in Hp. lia.
Qed.
Lemma ordered_add c d m :
  mb_coll m = c → (∀ x, x ∈ ordered c d → mb_pos x < mb_pos m) →
  ordered c (d <| members ::= λ l, l ++ [m] |>) = ordered c d ++ [m].
Proof.
  intros Hc Hm. apply ordered_unique.
  - apply StronglySorted_add; [apply ordered_sorted|]. intros x Hx. left. by apply Hm.
  - unfold of_coll. rewrite members_over, List.filter_app. cbn [List.filter]. rewrite Hc, N.eqb_refl.
    by rewrite ordered_perm.
Qed.
Lemma is_member_contents c i d : is_member c i d = mem i (contents c d).
Proof.
  apply eq_true_iff_eq. unfold is_member, contents. rewrite mem_spec, ordered_perm, existsb_exists, list_elem_of_fmap.
  setoid_rewrite <- list_elem_of_In. setoid_rewrite N.eqb_eq. naive_solver.
Qed.

(** What an append adds. *)
Fixpoint new_items (seen ids : list UUID) : list UUID :=
  match ids with
  | [] => []
  | i :: ids => if mem i seen then new_items seen ids else i :: new_items (seen ++ [i]) ids
  end.
Lemma append_contents c base ids d :
  (∀ x, x ∈ ordered c d → mb_pos x < base) →
  contents c (append_from c base ids d) = contents c d ++ new_items (contents c d) ids.
Proof.
  revert base d. induction ids as [|i ids IH]; intros base d Hb; cbn [append_from new_items]; [by rewrite app_nil_r|].
  rewrite is_member_contents. destruct (mem i (contents c d)); [apply IH; intros x Hx; specialize (Hb x Hx); lia|].
  assert (ordered c (d <| members ::= λ l, l ++ [mkMember c i base] |>) = ordered c d ++ [mkMember c i base]) as Ho
    by (by apply ordered_add).
  assert (contents c (d <| members ::= λ l, l ++ [mkMember c i base] |>) = contents c d ++ [i]) as Hc
    by (unfold contents; by rewrite Ho, fmap_app).
  rewrite IH, Hc; [by rewrite <- app_assoc|]. intros x. rewrite Ho, elem_of_app, list_elem_of_singleton.
  intros [Hx| ->]; [specialize (Hb x Hx)|cbn]; lia.
Qed.
Lemma new_items_nodup seen ids : NoDup ids → (∀ i, i ∈ ids → i ∉ seen) → new_items seen ids = ids.
Proof.
  revert seen. induction ids as [|i ids IH]; intros seen Hn Hs; [done|]. apply NoDup_cons in Hn as [Hi Hn]. cbn [new_items].
  assert (mem i seen = false) as -> by (apply mem_false, Hs; by left). f_equal. apply IH; [done|].
  intros j Hj. rewrite elem_of_app, list_elem_of_singleton. intros [H| ->]; [|done]. by apply (Hs j); [right|].
Qed.

(** * Removing and ordering *)
Lemma sublist_filter {A} (p : A → bool) l : sublist (List.filter p l) l.
Proof. induction l as [|x l IH]; [done|]. simpl. destruct (p x); by constructor. Qed.
Lemma Permutation_filter {A} (p : A → bool) l k : l ≡ₚ k → List.filter p l ≡ₚ List.filter p k.
Proof.
  induction 1; simpl; [done| | |by eapply perm_trans].
  - destruct (p x); [by constructor|done].
  - destruct (p x), (p y); first [reflexivity|apply perm_swap].
Qed.
Lemma filter_comm {A} (p q : A → bool) l : List.filter p (List.filter q l) = List.filter q (List.filter p l).
Proof. induction l as [|x l IH]; [done|]. simpl. destruct (q x) eqn:Eq, (p x) eqn:Ep; simpl; rewrite ?Eq, ?Ep, ?IH; done. Qed.
Lemma ordered_filter c d (p : Member → bool) :
  ordered c (d <| members ::= List.filter p |>) = List.filter p (ordered c d).
Proof.
  apply ordered_unique.
  - eapply StronglySorted_sublist; [apply sublist_filter|apply ordered_sorted].
  - unfold of_coll. rewrite members_over, filter_comm. apply Permutation_filter, ordered_perm.
Qed.
Lemma contents_remove c i d :
  contents c (d <| members ::= List.filter (λ m, negb (N.eqb (mb_coll m) c && N.eqb (mb_item m) i)) |>)
  = List.filter (λ j, negb (N.eqb j i)) (contents c d).
Proof.
  unfold contents. rewrite ordered_filter.
  assert (∀ m, m ∈ ordered c d → mb_coll m = c) as Hc by (intros m Hm; by apply in_ordered in Hm as [_ Hm]).
  induction (ordered c d) as [|m l IH]; [done|]. cbn [List.filter fmap list_fmap]. rewrite (Hc m) by (by left).
  rewrite N.eqb_refl. cbn [andb]. assert (∀ m, m ∈ l → mb_coll m = c) as Hc' by (intros; apply Hc; by right).
  destruct (N.eqb (mb_item m) i); cbn [negb fmap list_fmap]; rewrite <- (IH Hc'); done.
Qed.

(** The members of a collection ordered by a list. *)
Fixpoint placed (c : UUID) (have : UUID → bool) (ids : list UUID) (n : Z) : list Member :=
  match ids with
  | [] => []
  | i :: ids => if have i then mkMember c i n :: placed c have ids (n + 1) else placed c have ids (n + 1)
  end.
Lemma placed_items c have ids n : mb_item <$> placed c have ids n = List.filter have ids.
Proof. revert n. induction ids as [|i ids IH]; intros n; [done|]. cbn. destruct (have i); cbn; by rewrite IH. Qed.
Lemma placed_from c have ids n m : m ∈ placed c have ids n → mb_coll m = c ∧ n <= mb_pos m ∧ mb_item m ∈ ids.
Proof.
  revert n. induction ids as [|i ids IH]; intros n; cbn [placed]; [by intros ?%elem_of_nil|].
  destruct (have i); [intros [->|H]%elem_of_cons; [cbn; split_and!; [done|lia|by left]|]|intros H];
    destruct (IH _ H) as (H1 & H2 & H3); split_and!; try done; try lia; by right.
Qed.
Lemma placed_sorted c have ids n : StronglySorted member_le (placed c have ids n).
Proof.
  revert n. induction ids as [|i ids IH]; intros n; cbn [placed]; [constructor|]. destruct (have i); [|apply IH].
  constructor; [apply IH|]. apply Forall_forall. intros m Hm. apply placed_from in Hm as (_ & H & _). left. cbn. lia.
Qed.
Lemma placed_nodup c have ids n : NoDup ids → NoDup (placed c have ids n).
Proof.
  revert n. induction ids as [|i ids IH]; intros n; cbn [placed]; [constructor|]. intros [Hi Hn]%NoDup_cons.
  destruct (have i); [|by apply IH]. constructor; [|by apply IH]. intros H. apply placed_from in H as (_ & _ & H). done.
Qed.
Lemma placed_index c have ids n m :
  NoDup ids → m ∈ placed c have ids n ↔
  mb_coll m = c ∧ have (mb_item m) = true ∧ index_of (mb_item m) ids n = Some (mb_pos m).
Proof.
  revert n. induction ids as [|i ids IH]; intros n Hn; cbn [placed index_of].
  { split; [by intros ?%elem_of_nil|naive_solver]. }
  apply NoDup_cons in Hn as [Hi Hn]. specialize (IH (n + 1) Hn).
  destruct (N.eqb_spec i (mb_item m)) as [->|Hne].
  - assert (m ∉ placed c have ids (n + 1)) as Hm by (intros (_ & _ & H)%placed_from; done).
    destruct (have (mb_item m)) eqn:E.
    + rewrite elem_of_cons. split; [intros [->|H]; [done|done]|]. intros (H1 & _ & [= H3]). left. destruct m; cbn in *. congruence.
    + split; [done|]. by intros (_ & H & _).
  - destruct (have i); [|done]. rewrite elem_of_cons, IH. split; [intros [->|H]; done|auto].
Qed.

Lemma index_of_elem i ids n : i ∈ ids → is_Some (index_of i ids n).
Proof.
  revert n. induction ids as [|j ids IH]; intros n; [by intros ?%elem_of_nil|]. cbn [index_of].
  destruct (N.eqb_spec j i) as [->|Hne]; [by eexists|]. intros [->|H]%elem_of_cons; [done|by apply IH].
Qed.
Lemma members_ok_coll c d : members_ok d → NoDup (of_coll c d) ∧ ∀ m m', m ∈ of_coll c d → m' ∈ of_coll c d → mb_item m = mb_item m' → m = m'.
Proof.
  unfold members_ok, of_coll. induction (members d) as [|m l IH]; cbn [fmap list_fmap List.filter]; [by split; [constructor|intros ?? ?%elem_of_nil]|].
  intros [Hm Hn]%NoDup_cons. destruct (IH Hn) as [H1 H2]. destruct (N.eqb_spec (mb_coll m) c) as [E|E]; [|done].
  assert (∀ m', m' ∈ List.filter (λ x, N.eqb (mb_coll x) c) l → mb_item m ≠ mb_item m') as Hne.
  { intros m' Hm' He. apply Hm. apply list_elem_of_In, filter_In in Hm' as [Hm' Hc%N.eqb_eq].
    apply list_elem_of_fmap. exists m'. split; [by rewrite E, Hc, He|by apply list_elem_of_In]. }
  split; [constructor; [|done]; intros H; by apply (Hne m H)|].
  intros x y [->|Hx]%elem_of_cons [->|Hy]%elem_of_cons He; [done| | |by apply H2].
  - by destruct (Hne y Hy).
  - by destruct (Hne x Hx).
Qed.

(** An order that names every item is the new order. *)
Lemma contents_reorder c ids d :
  members_ok d → NoDup ids → (∀ i, i ∈ contents c d → i ∈ ids) →
  contents c (d <| members ::= map (reordered c ids) |>) = List.filter (λ i, mem i (contents c d)) ids.
Proof.
  intros Hok Hn Hall. destruct (members_ok_coll c d Hok) as [Hnd Hinj].
  unfold contents at 1. rewrite (ordered_unique c _ (placed c (λ i, mem i (contents c d)) ids 0)); [apply placed_items|apply placed_sorted|].
  assert (of_coll c (d <| members ::= map (reordered c ids) |>) = map (reordered c ids) (of_coll c d)) as ->.
  { unfold of_coll. rewrite members_over. clear. induction (members d) as [|m l IH]; [done|]. cbn [map List.filter].
    rewrite reordered_coll. destruct (N.eqb (mb_coll m) c); cbn [map]; by rewrite IH. }
  assert (∀ m, m ∈ of_coll c d → mb_coll m = c ∧ ∃ n, index_of (mb_item m) ids 0 = Some n ∧ reordered c ids m = mkMember c (mb_item m) n) as Hre.
  { intros m Hm. assert (mb_item m ∈ contents c d) as Hi by (unfold contents; rewrite ordered_perm; apply list_elem_of_fmap; by exists m).
    destruct (index_of_elem _ _ 0 (Hall _ Hi)) as [n Hidx]. apply list_elem_of_In, filter_In in Hm as [_ Hc%N.eqb_eq].
    split; [done|]. exists n. split; [done|]. unfold reordered. rewrite Hc, N.eqb_refl, Hidx. destruct m; cbn in *. by subst. }
  apply NoDup_Permutation; [by apply placed_nodup| |].
  - apply NoDup_fmap_2_strong; [|done]. intros x y Hx Hy He. apply Hinj; [done|done|].
    destruct (Hre _ Hx) as (_ & n & _ & E1), (Hre _ Hy) as (_ & n' & _ & E2). rewrite E1, E2 in He. by injection He.
  - intros m. rewrite placed_index, mem_spec by done. unfold contents. rewrite ordered_perm. setoid_rewrite list_elem_of_fmap. split.
    + intros (Hc & (y & Hy1 & Hy2) & Hidx). exists y. split; [|done]. destruct (Hre _ Hy2) as (_ & n & H1 & ->).
      rewrite <- Hy1, Hidx in H1. injection H1 as <-. destruct m; cbn in *. congruence.
    + intros (y & -> & Hy). destruct (Hre _ Hy) as (_ & n & H1 & ->). cbn. split; [done|]. split; [by exists y|done].
Qed.

(** * Members stay unique *)
Lemma members_ok_snoc c i n d : members_ok d → is_member c i d = false → members_ok (d <| members ::= λ l, l ++ [mkMember c i n] |>).
Proof.
  intros Hok Hi. unfold members_ok. rewrite members_over, fmap_app. apply NoDup_app. split; [done|]. split; [|by repeat constructor; set_solver].
  intros p Hp. cbn. rewrite list_elem_of_singleton. intros ->. apply list_elem_of_fmap in Hp as (m & [= -> ->] & Hm).
  apply Bool.not_true_iff_false in Hi. apply Hi. unfold is_member, of_coll. apply existsb_exists. exists m.
  rewrite filter_In, <- list_elem_of_In, !N.eqb_refl. done.
Qed.
Lemma members_ok_append c base ids d : members_ok d → members_ok (append_from c base ids d).
Proof.
  revert base d. induction ids as [|i ids IH]; intros base d Hok; cbn [append_from]; [done|]. apply IH.
  destruct (is_member c i d) eqn:E; [done|]. by apply members_ok_snoc.
Qed.
Lemma members_ok_filter p d : members_ok d → members_ok (d <| members ::= List.filter p |>).
Proof.
  unfold members_ok. rewrite members_over. intros H. eapply sublist_NoDup; [exact H|]. clear H.
  induction (members d) as [|m l IH]; [constructor|]. cbn [List.filter]. destruct (p m); cbn [fmap list_fmap]; by constructor.
Qed.
Lemma members_ok_reorder c ids d : members_ok d → members_ok (d <| members ::= map (reordered c ids) |>).
Proof.
  unfold members_ok. rewrite members_over. intros H. assert (∀ l, (λ m, (mb_coll m, mb_item m)) <$> map (reordered c ids) l = (λ m, (mb_coll m, mb_item m)) <$> l) as ->; [|done].
  intros l. induction l as [|m l IH]; [done|]. cbn [map fmap list_fmap]. rewrite reordered_coll. f_equal; [|exact IH].
  f_equal. unfold reordered. destruct (N.eqb _ _); [|done]. by destruct (index_of _ _ _).
Qed.

(** * Runs that nobody disturbs *)
Definition not_lost (m : Moment) : Prop := outage_ m ≠ Lost.

Lemma owned_run {A} x id (k : UUID → Collection → prog (resp A)) ms d a d' tr :
  Forall alone ms → run (owned! (i, c) := loadOwned x id in k i c) ms d = Some (a, d', tr) →
  (∃ code, a = Status code ∧ 400 <= code ∧ d' = d)
  ∨ ∃ m ms' cl i col tr', ms = m :: ms' ∧ claims x = Some cl ∧ id = Some i ∧ collections d !! i = Some col
      ∧ owned_by (UserID cl) col = true ∧ run (k i col) ms' d = Some (a, d', tr').
Proof.
  intros Ha. unfold loadOwned. destruct id as [i|]; [|cbn [bind]; rewrite run_ret; intros [= <- <- <-]; left; by eexists].
  destruct (claims x) as [cl|]; [|cbn [bind]; rewrite run_ret; intros [= <- <- <-]; left; by eexists].
  cbn [bind]. destruct ms as [|m ms]; [done|]. apply Forall_cons in Ha as [Ha _]. cbn [run]. rewrite Ha.
  assert (∃ r, call (GetCollection i) m d = (d, r) ∧ (r = Failed ∨ r = Got (collections d !! i))) as (r & -> & Hr).
  { unfold call. cbn [query read]. destruct (outage_ m); eexists; (split; [reflexivity|auto]). }
  destruct Hr as [-> | ->]; [cbn [bind]; rewrite run_ret; intros [= <- <- <-]; left; by eexists|].
  destruct (collections d !! i) as [col|] eqn:Ec; [|cbn [bind]; rewrite run_ret; intros [= <- <- <-]; left; by eexists].
  destruct (owned_by (UserID cl) col) eqn:Eo; cbn [bind]; [|rewrite run_ret; intros [= <- <- <-]; left; by eexists].
  destruct (run (k i col) ms d) as [[[a' d3] tr']|] eqn:E; [|done]. intros [= <- <- <-]. right.
  exists m, ms, cl, i, col, tr'. done.
Qed.

(** A last statement whose answer is only whether it failed. *)
Lemma last_run {A} (c : stmt) (f : reply (answer c) → prog A) m ms d a d' tr :
  alone m → run (Do c f) (m :: ms) d = Some (a, d', tr) → (∀ r, ∃ a, f r = Ret a) →
  (outage_ m = Up ∧ d' = (query c (at_ m) (new_id m) d).1 ∧ f (query c (at_ m) (new_id m) d).2 = Ret a)
  ∨ (outage_ m = Lost ∧ d' = (query c (at_ m) (new_id m) d).1 ∧ f Failed = Ret a)
  ∨ (outage_ m = Down ∧ d' = d ∧ f Failed = Ret a).
Proof.
  intros Ha Hr Hf. cbn [run] in Hr. rewrite Ha in Hr. unfold call in Hr. destruct (outage_ m).
  - left. destruct (Hf (query c (at_ m) (new_id m) d).2) as [a' Ea]. destruct (query c _ _ d) as [d2 r]. cbn [fst snd] in *.
    rewrite Ea in *. rewrite run_ret in Hr. by injection Hr as <- <- _.
  - right. left. destruct (Hf Failed) as [a' Ea]. cbn [fst] in *. rewrite Ea in *. rewrite run_ret in Hr. by injection Hr as <- <- _.
  - right. right. destruct (Hf Failed) as [a' Ea]. rewrite Ea in *. rewrite run_ret in Hr. by injection Hr as <- <- _.
Qed.

(** * A playlist is a list *)
(** What one does to a list of items. *)
Inductive edit := EAdd (i : UUID) | ERemove (i : UUID) | EReorder (ids : list UUID) | EClear.
Definition edit_request (c : UUID) (e : edit) : request :=
  match e with
  | EAdd i => RAddItem (Some c) (Some (Some i))
  | ERemove i => RRemoveItem (Some c) (Some i)
  | EReorder ids => RReorder (Some c) (Some (Some <$> ids))
  | EClear => RDelete (Some c)
  end.
Definition edited (e : edit) (l : list UUID) : list UUID :=
  match e with
  | EAdd i => if mem i l then l else l ++ [i]
  | ERemove i => List.filter (λ j, negb (N.eqb j i)) l
  | EReorder ids => List.filter (λ i, mem i l) ids
  | EClear => []
  end.
(** An order names every item. *)
Definition full_order (e : edit) (l : list UUID) : Prop :=
  match e with EReorder ids => ∀ i, i ∈ l → i ∈ ids | _ => True end.

Lemma unique_ids_some ids seen l : unique_ids (Some <$> ids) seen = Some l → l = ids ∧ NoDup ids ∧ ∀ i, i ∈ ids → i ∉ seen.
Proof.
  revert seen l. induction ids as [|i ids IH]; intros seen l; cbn [fmap list_fmap unique_ids].
  { intros [= <-]. split; [done|]. split; [constructor|]. intros i. by intros ?%elem_of_nil. }
  destruct (mem i seen) eqn:E; [done|]. apply mem_false in E.
  destruct (unique_ids (Some <$> ids) (i :: seen)) as [l'|] eqn:Eu; [|done]. intros [= <-].
  destruct (IH _ _ Eu) as (-> & Hn & Hs). split; [done|]. split.
  - constructor; [|done]. intros Hi. apply (Hs i Hi). by left.
  - intros j [->|Hj]%elem_of_cons; [done|]. intros H. apply (Hs j Hj). by right.
Qed.

(** The statement behind an edit. *)
Definition edit_stmt (c : UUID) (e : edit) : stmt :=
  match e with
  | EAdd i => AddCollectionItem c i
  | ERemove i => RemoveCollectionItem c i
  | EReorder ids => ReorderPlaylistItems c ids
  | EClear => DeleteCollection c
  end.
Lemma edit_stmt_spec c e now fresh d :
  members_ok d → match e with EReorder ids => NoDup ids | _ => True end →
  let d' := (query (edit_stmt c e) now fresh d).1 in
  members_ok d' ∧ (full_order e (contents c d) → (query (edit_stmt c e) now fresh d).2 = Failed ∨ contents c d' = edited e (contents c d)).
Proof.
  intros Hok He. destruct e as [i|i|ids|]; cbn [edit_stmt query write fst snd edited].
  - destruct (collections d !! c), (media_row d i); try (split; [done|by left]).
    rewrite is_member_contents. destruct (mem i (contents c d)) eqn:E; [split; [done|by right]|]. cbn [fst snd]. split.
    + apply members_ok_snoc; [done|]. by rewrite is_member_contents.
    + intros _. right. unfold contents. rewrite ordered_add, fmap_app; [done|done|]. intros y Hy. cbn. by apply next_above.
  - split; [by apply members_ok_filter|]. intros _. right. apply contents_remove.
  - split; [by apply members_ok_reorder|]. intros Hf. right. by apply contents_reorder.
  - split; [by apply (members_ok_filter _ (d <| collections ::= delete c |>))|]. intros _. right.
    unfold contents. change (d <| collections ::= delete c |> <| members ::= ?f |>) with ((d <| collections ::= delete c |>) <| members ::= f |>).
    rewrite ordered_filter, filter_none; [done|]. intros m Hm. apply in_ordered in Hm as [_ ->]. by rewrite N.eqb_refl.
Qed.

(** ** Programs that only read *)
Definition is_read (c : stmt) : Prop := ∀ now i d, (query c now i d).1 = d.
Abbreviation reads := (only is_read (λ _ _, True)).
Lemma reads_same {A} (p : prog A) ms d a d' tr :
  reads p → Forall alone ms → run p ms d = Some (a, d', tr) → d' = d.
Proof.
  intros Hp Ha Hr.
  destruct (prog_invariant (λ x, x = d) (λ _, True) (λ _ _, True) (λ _ _, True) p ms d a d' tr) as [H _]; try done.
  - eapply only_impl; [|exact Hp]. intros c Hc now i d0 _ ->. split; [apply Hc|]. split; [done|]. by destruct (query _ _ _ _).2.
  - eapply Forall_impl; [exact Ha|]. intros m Hm. split; [|done]. intros d0 ->. apply Hm.
Qed.
Ltac reads_step :=
  match goal with
  | |- reads (Ret _) => apply only_ret
  | |- reads (Do _ _) => apply only_do; [by intros ???|intros ? _]
  | |- reads (bind _ _) => apply only_bind; [|intros ?]
  | |- reads (match ?e with _ => _ end) => destruct e
  end.
Ltac reads_tac := repeat (reads_step || (progress cbv zeta)).
Lemma itemAddAllowed_reads {A} w g cl mi : reads (itemAddAllowed (A := A) w g cl mi).
Proof. unfold itemAddAllowed, CanAccessLibrary, itemPermitted, labelsPermit. reads_tac. Qed.
Lemma allowedLibraries_reads x : reads (allowedLibraries x).
Proof. unfold allowedLibraries, AllowedLibraryIDs. reads_tac. Qed.
Lemma visibility_reads x : reads (visibility x).
Proof. unfold visibility. apply only_bind; [apply allowedLibraries_reads|]. intros a. reads_tac. Qed.
Lemma files_by_path_reads n v paths : reads (files_by_path n v paths).
Proof.
  revert paths. induction n as [|n IH]; intros paths; cbn [files_by_path]; [by destruct paths; constructor|].
  destruct paths as [|p ps]; reads_tac. apply IH.
Qed.
Lemma resolve_reads v es b : reads (resolve v es b).
Proof. unfold resolve. reads_tac. apply files_by_path_reads. Qed.

(** ** What refuses an addition *)
Lemma itemAddAllowed_refuses {A} w g cl mi ms d (a : resp A) d' tr :
  run (itemAddAllowed w g cl mi) ms d = Some (Some a, d', tr) → ∃ code, a = Status code ∧ 400 <= code.
Proof.
  unfold itemAddAllowed. destruct cl as [cl|]; [|rewrite run_ret; intros [= <- _ _]; by eexists].
  intros (r & d1 & tr1 & ms1 & tr2 & _ & _ & H & _)%run_bind.
  destruct r as [[]|]; [|rewrite run_ret in H; injection H as <- _ _; by eexists..].
  apply run_bind in H as (ok & d2 & tr3 & ms2 & tr4 & _ & _ & H & _). rewrite run_ret in H. destruct ok; [done|].
  injection H as <- _ _. by eexists.
Qed.

(** A last statement answered 204, or with a refusal. *)
Lemma edit_last (st : stmt) (bad : Z) m ms d (a : resp unit) d' tr :
  alone m → 400 <= bad →
  run (Do st (λ r, match r with Got _ => Ret (Status 204) | Failed => Ret (Status bad) end)) (m :: ms) d = Some (a, d', tr) →
  let r := query st (at_ m) (new_id m) d in
  (outage_ m = Up ∧ d' = r.1 ∧ (code_of a < 400 ↔ r.2 ≠ Failed)) ∨ (outage_ m = Lost ∧ d' = r.1 ∧ 400 <= code_of a)
  ∨ (outage_ m = Down ∧ d' = d ∧ 400 <= code_of a).
Proof.
  intros Ha Hb Hr. cbv zeta. apply last_run in Hr; [|done|by intros []; eexists].
  destruct Hr as [(H1 & -> & H3)|[(H1 & -> & H3)|(H1 & -> & H3)]]; [left|right; left|right; right]; (split; [done|]); (split; [done|]).
  - destruct (query st _ _ d).2; injection H3 as <-; cbn; split; done || lia.
  - by injection H3 as <-.
  - by injection H3 as <-.
Qed.

(** An addition: refused without a change, or its last statement. *)
Lemma run_add x c i ms d (a : resp unit) d' tr :
  Forall alone ms →
  run (let! m := GetMediaItem i in
       match m with
       | Failed => Ret (Status 500)
       | Got None => Ret (Status 404)
       | Got (Some mi) =>
           let* refused := itemAddAllowed (wired x) (gate x) (claims x) mi in
           match refused with
           | Some answer => Ret answer
           | None => let! r := AddCollectionItem c i in
                     match r with Got _ => Ret (Status 204) | Failed => Ret (Status 500) end
           end
       end) ms d = Some (a, d', tr) →
  (∃ code, a = Status code ∧ 400 <= code ∧ d' = d)
  ∨ ∃ m ms' tr', m ∈ ms ∧ alone m ∧
      run (Do (AddCollectionItem c i) (λ r, match r with Got _ => Ret (Status 204) | Failed => Ret (Status 500) end)) (m :: ms') d
      = Some (a, d', tr').
Proof.
  intros Ha Hr. destruct ms as [|m ms]; [done|]. pose proof Ha as Ha0. apply Forall_cons in Ha as [Ha Hms].
  cbn [run] in Hr. rewrite Ha in Hr.
  assert (∃ r, call (GetMediaItem i) m d = (d, r)) as [r Er] by (unfold call; destruct (outage_ m); by eexists).
  rewrite Er in Hr. clear Er. destruct (run _ ms d) as [[[a' d3] tr']|] eqn:E; [|done]. injection Hr as -> -> _.
  destruct r as [[mi|]|]; [|rewrite run_ret in E; injection E as <- <- _; left; by eexists..].
  apply run_bind in E as (refused & d1 & tr1 & ms1 & tr2 & H1 & -> & H2 & _).
  pose proof (reads_same _ _ _ _ _ _ (itemAddAllowed_reads _ _ _ _) Hms H1) as ->.
  destruct refused as [ans|].
  - rewrite run_ret in H2. injection H2 as <- <- _. apply itemAddAllowed_refuses in H1 as (code & -> & Hc). left. by eexists.
  - right. destruct (drop (length tr1) ms) as [|m2 ms2] eqn:Ed; [done|]. exists m2, ms2, tr2.
    assert (m2 ∈ ms) as Hin.
    { rewrite <- (take_drop (length tr1) ms), Ed. apply elem_of_app. right. by left. }
    split; [by right|]. split; [|done]. rewrite Forall_forall in Hms. by apply Hms.
Qed.

(** The run of an edit: refused without a change, or its statement. *)
Lemma edit_run x c e ms d code d' tr :
  Forall alone ms → run (serve x (edit_request c e)) ms d = Some (code, d', tr) →
  (400 <= code ∧ d' = d)
  ∨ ∃ m, m ∈ ms ∧ match e with EReorder ids => NoDup ids | _ => True end
      ∧ let r := query (edit_stmt c e) (at_ m) (new_id m) d in
        (outage_ m = Up ∧ d' = r.1 ∧ (code < 400 ↔ r.2 ≠ Failed)) ∨ (outage_ m = Lost ∧ d' = r.1 ∧ 400 <= code)
        ∨ (outage_ m = Down ∧ d' = d ∧ 400 <= code).
Proof.
  intros Ha Hr. assert (∃ (a : resp unit) tr', code = code_of a ∧
    run (match e with EAdd i => AddItem x (Some c) (Some (Some i)) | ERemove i => RemoveItem x (Some c) (Some i)
         | EReorder ids => Reorder x (Some c) (Some (Some <$> ids)) | EClear => Delete x (Some c) end) ms d = Some (a, d', tr'))
    as (a & tr' & -> & H).
  { destruct e; cbn [edit_request serve] in Hr; unfold coded in Hr; apply run_bind in Hr as (a & d1 & tr1 & ms1 & tr2 & H1 & _ & H2 & _);
      rewrite run_ret in H2; injection H2 as <- <- _; by exists a, tr1. }
  clear Hr.
  destruct e as [i|i|ids|]; destruct (owned_run _ _ _ _ _ _ _ _ Ha H) as [(code & -> & Hc & ->)|(m & ms' & cl & i' & col & tr2 & -> & Hcl & [= <-] & Hcol & Ho & Hk)];
    try (by left); apply Forall_cons in Ha as [Ha Hms].
  - destruct (run_add _ _ _ _ _ _ _ _ Hms Hk) as [(code & -> & Hc & ->)|(m2 & ms2 & tr3 & Hm2 & Ha2 & H2)]; [by left|].
    right. exists m2. split; [by right|]. split; [done|]. cbv zeta. by apply edit_last in H2.
  - destruct ms' as [|m2 ms2]; [done|]. apply Forall_cons in Hms as [Ha2 Hms].
    right. exists m2. split; [by right; left|]. split; [done|]. cbv zeta. by apply edit_last in Hk.
  - destruct (unique_ids (Some <$> ids) []) as [ids'|] eqn:Eu.
    + cbn [mbind option_bind] in Hk. rewrite Eu in Hk. apply unique_ids_some in Eu as (-> & Hn & _).
      destruct ms' as [|m2 ms2]; [done|]. apply Forall_cons in Hms as [Ha2 Hms].
      right. exists m2. split; [by right; left|]. split; [done|]. cbv zeta. by apply edit_last in Hk.
    + cbn [mbind option_bind] in Hk. rewrite Eu, run_ret in Hk. injection Hk as <- <- _. by left.
  - destruct ms' as [|m2 ms2]; [done|]. apply Forall_cons in Hms as [Ha2 Hms].
    right. exists m2. split; [by right; left|]. split; [done|]. cbv zeta. by apply edit_last in Hk.
Qed.

(** C17: a playlist is a list.  However its rows and positions lie in the table,
    what it shows is a list of distinct items, and each request of its owner
    that succeeds does to that list what it says: adding puts an item at the
    end unless it is there, removing takes it out and moves nothing else, an
    order that names every item becomes the order, deleting empties it.  A
    request that is refused or fails before its effect changes nothing. *)
Theorem playlist_is_list (x : Ctx) (c : UUID) (e : edit) (ms : list Moment) (d : DB) code d' tr
    (Hok : members_ok d)
    (Ha : Forall alone ms)
    (Hr : run (serve x (edit_request c e)) ms d = Some (code, d', tr)) :
  members_ok d' ∧ NoDup (contents c d')
  ∧ (code < 400 → full_order e (contents c d) → contents c d' = edited e (contents c d))
  ∧ (400 <= code → Forall not_lost ms → contents c d' = contents c d).
Proof.
  assert (∀ d, members_ok d → NoDup (contents c d)) as Hnd.
  { intros d0 H0. destruct (members_ok_coll c d0 H0) as [H1 H2]. unfold contents. apply NoDup_fmap_2_strong; [|by rewrite ordered_perm].
    intros y z Hy Hz. rewrite ordered_perm in Hy, Hz. by apply H2. }
  assert (∀ st now fresh, (query st now fresh d).2 = Failed → match st with CreateCollection _ => False | _ => True end → (query st now fresh d).1 = d) as Hfail.
  { intros st now fresh. destruct st; cbn [query read write fst snd]; try done; repeat case_match; done. }
  destruct (edit_run _ _ _ _ _ _ _ _ Ha Hr) as [[Hc ->]|(m & Hm & He & H)].
  { split; [done|]. split; [by apply Hnd|]. split; [intros; lia|done]. }
  destruct (edit_stmt_spec c e (at_ m) (new_id m) d Hok He) as [H1 H2]. cbv zeta in H.
  destruct H as [(Hu & -> & H3)|[(Hl & -> & H3)|(Hd & -> & H3)]].
  - split; [done|]. split; [by apply Hnd|]. split.
    + intros Hc Hf. apply H3 in Hc. by destruct (H2 Hf).
    + intros Hc _. rewrite Hfail; [done| |by destruct e]. destruct (query _ _ _ d).2; [|done]. assert (code < 400) by (by apply H3). lia.
  - split; [done|]. split; [by apply Hnd|]. split; [intros; lia|]. intros _ Hn. rewrite Forall_forall in Hn. by apply Hn in Hm.
  - split; [done|]. split; [by apply Hnd|]. split; [intros; lia|done].
Qed.

Module Sample.
Import PlaylistsSafe.Sample.

(** The requests of the owner, one after another. *)
Fixpoint after (es : list edit) (d : DB) : DB :=
  match es with
  | [] => d
  | e :: es => match run (serve ann (edit_request 50%N e)) [m0; m0; m0; m0; m0] d with Some (_, d', _) => after es d' | None => d end
  end.
Example a_session :
  contents 50%N (after [EAdd 7%N] db) = [5%N; 6%N; 7%N]
  ∧ contents 50%N (after [EAdd 7%N; ERemove 5%N; EAdd 5%N; EAdd 6%N] db) = [6%N; 7%N; 5%N]
  ∧ contents 50%N (after [EAdd 7%N; EReorder [7%N; 6%N; 5%N]] db) = [7%N; 6%N; 5%N]
  ∧ contents 51%N (after [EAdd 7%N; EClear] db) = [5%N].
Proof. vm_compute. done. Qed.
(** An order that leaves an item out can tie with it. *)
Example partial_order :
  contents 50%N (after [EReorder [6%N]] db) = [5%N; 6%N].
Proof. vm_compute. done. Qed.

Lemma playlist_is_list_witness :
  ∃ code d' tr, run (serve ann (edit_request 50%N (EReorder [6%N; 5%N]))) [m0; m0] db = Some (code, d', tr)
  ∧ members_ok d' ∧ NoDup (contents 50%N d')
  ∧ (code < 400 → full_order (EReorder [6%N; 5%N]) (contents 50%N db) → contents 50%N d' = edited (EReorder [6%N; 5%N]) (contents 50%N db))
  ∧ (400 <= code → Forall not_lost [m0; m0] → contents 50%N d' = contents 50%N db).
Proof.
  do 3 eexists. split; [reflexivity|]. eapply (playlist_is_list ann 50%N (EReorder [6%N; 5%N]) [m0; m0] db).
  - unfold members_ok. cbn. repeat (constructor; [set_solver|]). constructor.
  - repeat constructor.
  - reflexivity.
Defined.

(** An administrator's smart playlist asks for the library whose ID is nil, and
    is empty whatever its rules. *)
Definition admin : Ctx := mkCtx (Some (mkClaims 1%N "root" true "" [] [] 0 0 0 "" None false "" 0%N 0%N "")) true true.
Definition smart : DB := db <| collections ::= <[52%N :=
  mkColl 52%N (Some 1%N) "All" None "smart_playlist" (Some (mkRules ["track"] [] None None None None)) 0]> |>.
Definition shown (x : Ctx) : option (list UUID * Z) :=
  match run (Items x (Some 52%N) "" "") [m0; m0; m0] smart with
  | Some (Body 200 (l, n), _, _) => Some ((λ p : Placed, md_id p.1) <$> l, n)
  | _ => None
  end.
Example admin_smart_playlist_empty : shown ann = Some ([5%N; 6%N; 7%N], 3) ∧ shown admin = Some ([], 0).
Proof. vm_compute. done. Qed.
End Sample.
