(* ===== verification/PlaylistsImport.v ===== *)
(** An import makes the whole playlist or none, and reports every line. *)
From S2P Require Import Prelude.
From S2P Require Import GoStrings.
From S2P Require Import GoBytes.
From S2P Require Import Tokens.
From S2P Require Import Labels.
From S2P Require Import M3U.
From S2P Require Import M3UImport.
From S2P Require Import Catalog.
From S2P Require Import Gates.
From S2P Require Import Playlists.
From S2P Require Import PlaylistsSafe.
From S2P Require Import PlaylistsProps.

Local Open Scope Z_scope.

(** * The matches, statement by statement *)
Definition paths_unique (rows : list FileRow) : Prop :=
  ∀ f g, f ∈ rows → g ∈ rows → fr_path f = fr_path g → f = g.

Lemma row_of_same rows rows' p :
  paths_unique rows → (∀ f, fr_path f = p → f ∈ rows ↔ f ∈ rows') → paths_unique rows' → row_of rows p = row_of rows' p.
Proof.
  intros Hu Hs Hu'. unfold row_of.
  destruct (find_first _ rows) as [f|] eqn:E.
  - symmetry. apply find_first_Some in E as [Hf Hp]. pose proof Hp as Hp'. apply String.eqb_eq in Hp'.
    apply find_first_only; [by apply list_elem_of_In, Hs|done|]. intros g Hg Hgp. apply String.eqb_eq in Hgp.
    apply list_elem_of_In in Hg. apply Hu'; [done|by apply Hs|congruence].
  - symmetry. apply find_first_None. intros g Hg. destruct (String.eqb_spec (fr_path g) p) as [Hp|]; [|done].
    rewrite find_first_None in E. apply Hs in Hg; [|done]. specialize (E g Hg). cbn in E. by rewrite Hp, String.eqb_refl in E.
Qed.
Lemma first_hit_same rows rows' cs :
  (∀ p, p ∈ map fst cs → row_of rows p = row_of rows' p) → first_hit rows cs = first_hit rows' cs.
Proof.
  induction cs as [|[p m] cs IH]; intros H; [done|]. cbn [first_hit map fst] in *. rewrite (H p) by (by left).
  destruct (row_of rows' p); [done|]. apply IH. intros q Hq. apply H. by right.
Qed.

(** A read that was answered was answered from the table. *)
Lemma got_read {A} (c : stmt) (k : reply (answer c) → prog A) ms d a d' tr :
  is_read c → Forall alone ms → run (Do c k) ms d = Some (a, d', tr) →
  ∃ m ms' tr' r, ms = m :: ms' ∧ (r = Failed ∨ r = (query c (at_ m) (new_id m) d).2)
    ∧ run (k r) ms' d = Some (a, d', tr') ∧ Forall alone ms'.
Proof.
  intros Hc Ha Hr. destruct ms as [|m ms]; [done|]. apply Forall_cons in Ha as [Ha Hms]. cbn [run] in Hr. rewrite Ha in Hr.
  unfold call in Hr. pose proof (Hc (at_ m) (new_id m) d) as Hd. destruct (query c (at_ m) (new_id m) d) as [d2 r0] eqn:Eq.
  cbn [fst] in *. subst d2. destruct (outage_ m).
  - destruct (run (k r0) ms d) as [[[a' d3] tr']|] eqn:E; [|done]. injection Hr as -> -> _. exists m, ms, tr', r0.
    rewrite Eq. auto.
  - destruct (run (k Failed) ms d) as [[[a' d3] tr']|] eqn:E; [|done]. injection Hr as -> -> _. exists m, ms, tr', Failed. auto.
  - destruct (run (k Failed) ms d) as [[[a' d3] tr']|] eqn:E; [|done]. injection Hr as -> -> _. exists m, ms, tr', Failed. auto.
Qed.

Lemma by_path_in v files paths f : f ∈ FindM3UFilesByPath v files paths ↔ f ∈ files ∧ fr_path f ∈ paths ∧ file_visible v f = true.
Proof.
  unfold FindM3UFilesByPath. rewrite list_elem_of_In, filter_In, <- list_elem_of_In, andb_true_iff, mem_spec. done.
Qed.

(** The batches together find what one lookup would. *)
Lemma files_by_path_run n v paths ms d rows d' tr :
  (length paths <= n)%nat → Forall alone ms → run (files_by_path n v paths) ms d = Some (Got rows, d', tr) →
  ∀ f, f ∈ rows ↔ f ∈ FindM3UFilesByPath (visibility_of d v) (file_rows d) paths.
Proof.
  revert paths ms rows d' tr. induction n as [|n IH]; intros paths ms rows d' tr Hl Ha; cbn [files_by_path].
  { destruct paths; [|simpl in Hl; lia]. rewrite run_ret. intros [= <- _ _] f. rewrite by_path_in. split; [by intros ?%elem_of_nil|].
    by intros (_ & ?%elem_of_nil & _). }
  destruct paths as [|p ps] eqn:Ep.
  { rewrite run_ret. intros [= <- _ _] f. rewrite by_path_in. split; [by intros ?%elem_of_nil|]. by intros (_ & ?%elem_of_nil & _). }
  rewrite <- Ep in *. assert (paths ≠ []) as Hne by congruence. clear p ps Ep. intros Hr.
  apply got_read in Hr as (m & ms' & tr' & r & -> & Hq & Hr & Ha'); [|by intros ???|done].
  destruct r as [rows1|]; [|rewrite run_ret in Hr; congruence]. destruct Hq as [|Hq]; [done|]. cbn [query read snd] in Hq. injection Hq as ->.
  apply run_bind in Hr as (rest & d1 & tr1 & ms1 & tr2 & H1 & -> & H2 & _).
  pose proof (reads_same _ _ _ _ _ _ (files_by_path_reads _ _ _) Ha' H1) as ->. rewrite run_ret in H2.
  destruct rest as [more|]; [|congruence]. injection H2 as <- _ _.
  assert (length (drop lookup_batch paths) <= n)%nat as Hl'.
  { rewrite length_drop. unfold lookup_batch. destruct paths; [done|]. simpl in Hl. simpl length. lia. }
  specialize (IH _ _ _ _ _ Hl' Ha' H1). intros f. rewrite elem_of_app, IH, !by_path_in.
  rewrite <- (take_drop lookup_batch paths) at 3. rewrite elem_of_app. naive_solver.
Qed.

Definition live_libraries (d : DB) : list Library := library_of <$> List.filter (λ l, negb (lb_deleted l)) (libraries d).

(** Asked of tables nobody changes, the passes give the matches of the
    specification. *)
Lemma resolve_run vis entries baseDir ms d out d' tr :
  paths_unique (file_rows d) → Forall alone ms → run (resolve vis entries baseDir) ms d = Some (Got out, d', tr) →
  out = resolveM3U (live_libraries d) (file_rows d) (track_rows d) (visibility_of d vis) entries baseDir.
Proof.
  intros Hu Ha Hr. unfold resolve in Hr.
  apply got_read in Hr as (m & ms1 & tr1 & r & -> & Hq & Hr & Ha1); [|by intros ???|done].
  destruct r as [libs|]; [|rewrite run_ret in Hr; congruence]. destruct Hq as [|Hq]; [done|]. cbn [query read snd] in Hq. injection Hq as ->.
  cbv zeta in Hr. apply run_bind in Hr as (r1 & d1 & tr2 & ms2 & tr3 & H1 & -> & Hr & _).
  pose proof (reads_same _ _ _ _ _ _ (files_by_path_reads _ _ _) Ha1 H1) as ->.
  destruct r1 as [byPath|]; [|rewrite run_ret in Hr; congruence].
  pose proof (files_by_path_run _ _ _ _ _ _ _ _ (le_n _) Ha1 H1) as Hin.
  unfold resolveM3U. cbv zeta. fold (live_libraries d) in *.
  change (roots_of (only_libs vis) (live_libraries d)) with (roots_of (visibility_of d vis) (live_libraries d)) in *.
  set (cands := cands_of _ _ _) in *. set (classes := classes_of entries) in *.
  set (rows := FindM3UFilesByPath (visibility_of d vis) (file_rows d) (map fst (concat cands))) in *.
  assert (pass1 byPath cands = pass1 rows cands) as Hp1.
  { assert (paths_unique rows) as Hu1 by (intros f g Hf Hg; apply by_path_in in Hf as [Hf _], Hg as [Hg _]; by apply Hu).
    assert (paths_unique byPath) as Hu2 by (intros f g Hf%Hin Hg%Hin; by apply Hu1).
    apply map_ext_in. intros cs Hcs. apply first_hit_same. intros p Hp. apply row_of_same; [done| |done]. intros f _. apply Hin. }
  rewrite Hp1 in Hr. set (ms1' := pass1 rows cands) in *. set (bases := wanted_bases classes ms1') in *.
  assert (Forall alone (drop (length tr2) ms1)) as Ha2 by (by apply Forall_drop).
  apply run_bind in Hr as (r2 & d2 & tr4 & ms3 & tr5 & H2 & -> & Hr & _).
  assert (d2 = d) as -> by (eapply reads_same; [|exact Ha2|exact H2]; reads_tac).
  destruct r2 as [byBase|]; [|rewrite run_ret in Hr; congruence].
  assert (byBase = FindM3UFilesByBasename (visibility_of d vis) (file_rows d) bases) as ->.
  { destruct (Z.eqb_spec (len bases) 0) as [E|].
    - rewrite run_ret in H2. injection H2 as <- _. destruct bases; [|unfold len in E; simpl in E; lia].
      unfold FindM3UFilesByBasename. rewrite filter_none; [by rewrite take_nil|done].
    - apply got_read in H2 as (m2 & ms4 & tr6 & r & _ & Hq & H2 & _); [|by intros ???|done]. rewrite run_ret in H2.
      injection H2 as -> _. destruct Hq as [|Hq]; [done|]. cbn [query read snd] in Hq. by injection Hq. }
  set (ms2' := pass2 _ classes ms1') in *. set (titles := wanted_titles entries classes ms2') in *.
  assert (Forall alone (drop (length tr4) (drop (length tr2) ms1))) as Ha3 by (by apply Forall_drop).
  apply run_bind in Hr as (r3 & d3 & tr6 & ms4 & tr7 & H3 & -> & Hr & _). rewrite run_ret in Hr.
  destruct r3 as [byTitle|]; [|congruence]. injection Hr as <- _ _. f_equal.
  destruct (Z.eqb_spec (len titles) 0) as [E|].
  - rewrite run_ret in H3. injection H3 as <- _. destruct titles; [|unfold len in E; simpl in E; lia].
    unfold FindM3UTracksByTitle. rewrite filter_none; [by rewrite take_nil|done].
  - apply got_read in H3 as (m2 & ms5 & tr8 & r & _ & Hq & H3 & _); [|by intros ???|done]. rewrite run_ret in H3.
    injection H3 as -> _. destruct Hq as [|Hq]; [done|]. cbn [query read snd] in Hq. by injection Hq.
Qed.

(** * The report *)
Lemma report_entry_playlist out p : im_playlist (report_entry out p) = im_playlist out.
Proof. unfold report_entry. destruct (p.2); cbv zeta; by case_match. Qed.
Lemma report_playlist col entries ms : im_playlist (report col entries ms) = col.
Proof.
  unfold report. assert (∀ l out, im_playlist (fold_left report_entry l out) = im_playlist out) as H.
  { intros l. induction l as [|p l IH]; intros out; [done|]. cbn [fold_left]. by rewrite IH, report_entry_playlist. }
  by rewrite H.
Qed.

Definition match_line (p : Entry * option Match) : option MatchLine :=
  match p.2 with Some m => Some (mkMatchLine (Line p.1) (Path p.1) (m_item m) (m_title m) (m_method m)) | None => None end.
Definition unmatched_line (p : Entry * option Match) : option UnmatchedLine :=
  match p.2 with
  | Some _ => None
  | None => Some (mkUnmatched (Line p.1) (Path p.1) (match (Classify (Path p.1)).2 with KindURL => true | _ => false end))
  end.
Definition capped {A} (l : list A) : list A := take (Z.to_nat m3uReportCap) l.

Lemma len_snoc {A} (l : list A) x : len (l ++ [x]) = len l + 1.
Proof. unfold len. rewrite length_app. simpl. lia. Qed.
Lemma len_capped {A} (l : list A) : (len (capped l) <? m3uReportCap) = (len l <? m3uReportCap).
Proof. unfold len, capped, m3uReportCap. rewrite length_take. apply eq_true_iff_eq. rewrite !Z.ltb_lt. lia. Qed.
Lemma capped_snoc {A} (l : list A) x : len l < m3uReportCap → capped l ++ [x] = capped (l ++ [x]).
Proof.
  unfold len, capped, m3uReportCap. intros H. rewrite !take_ge by (rewrite ?length_app; simpl; lia). done.
Qed.
Lemma capped_full {A} (l : list A) x : m3uReportCap <= len l → capped (l ++ [x]) = capped l.
Proof. unfold len, capped, m3uReportCap. intros H. rewrite take_app_le by lia. done. Qed.

#[local] Opaque capped m3uReportCap.
Ltac report_close :=
  lazymatch goal with
  | |- capped _ ++ _ = capped _ => by apply capped_snoc
  | |- capped _ = capped (_ ++ _) => by rewrite capped_full
  | |- (_ <? _) = _ => apply eq_true_iff_eq; rewrite !Z.ltb_lt; lia
  | |- true = _ => symmetry; apply Z.ltb_lt; lia
  | |- _ => first [reflexivity | lia]
  end.

(** Every line of the file is reported: counted on one side, and shown there
    unless 500 were before it. *)
Lemma report_lines l out :
  Matched out = 0 → Unmatched out = 0 → Matches out = [] → UnmatchedEntries out = [] →
  MatchesTruncated out = false → UnmatchedTruncated out = false → ByMethod out = [] →
  let r := fold_left report_entry l out in
  Total r = Total out ∧ Added r = Added out
  ∧ Matched r = len (omap match_line l) ∧ Matches r = capped (omap match_line l)
  ∧ MatchesTruncated r = (m3uReportCap <? len (omap match_line l))
  ∧ Unmatched r = len (omap unmatched_line l) ∧ UnmatchedEntries r = capped (omap unmatched_line l)
  ∧ UnmatchedTruncated r = (m3uReportCap <? len (omap unmatched_line l))
  ∧ ByMethod r = reverse (ml_method <$> omap match_line l).
Proof.
  intros H1 H2 H3 H4 H5 H6 H7. cbv zeta. induction l as [|[e o] l IH] using rev_ind; [by cbn; rewrite H1, H2, H3, H4, H5, H6, H7|].
  rewrite fold_left_app. set (r := fold_left report_entry l out) in *. destruct IH as (I1&I2&I3&I4&I5&I6&I7&I8&I9).
  rewrite !omap_app. change (fold_left report_entry [(e, o)] r) with (report_entry r (e, o)). unfold report_entry. cbn [fst snd].
  clearbody r. destruct r as [pl t ma un ad bm mt mtr ue utr]. cbn in I1, I2, I3, I4, I5, I6, I7, I8, I9. subst t ad ma mt mtr un ue utr bm.
  destruct o as [m|]; cbn [omap list_omap match_line unmatched_line fst snd]; rewrite ?app_nil_r; cbv zeta.
  - cbn -[len]. rewrite len_capped, fmap_app, reverse_app, len_snoc.
    destruct (Z.ltb_spec (len (omap match_line l)) m3uReportCap) as [Hl|Hl]; cbn; split_and!; report_close.
  - cbn -[len]. rewrite len_capped, len_snoc.
    destruct (Z.ltb_spec (len (omap unmatched_line l)) m3uReportCap) as [Hl|Hl]; cbn; split_and!; report_close.
Qed.
#[local] Transparent capped m3uReportCap.
Lemma report_exact col entries ms :
  length ms = length entries →
  let r := report col entries ms in
  Total r = len entries ∧ Matched r + Unmatched r = Total r ∧ Added r = len (itemIDs ms) ∧ Added r <= Matched r
  ∧ len (Matches r) = Z.min 500 (Matched r) ∧ (MatchesTruncated r = true ↔ 500 < Matched r)
  ∧ len (UnmatchedEntries r) = Z.min 500 (Unmatched r) ∧ (UnmatchedTruncated r = true ↔ 500 < Unmatched r)
  ∧ len (ByMethod r) = Matched r.
Proof.
  intros Hl. cbv zeta. unfold report.
  destruct (report_lines (zip entries ms) (mkImport col (len entries) 0 0 (len (itemIDs ms)) [] [] false [] false)) as (H1&H2&H3&H4&H5&H6&H7&H8&H9); try done.
  rewrite H1, H2, H3, H4, H5, H6, H7, H8, H9. cbn [Total Added]. split; [done|]. split.
  { assert (∀ l : list (Entry * option Match), len (omap match_line l) + len (omap unmatched_line l) = len l) as ->.
    { unfold len. induction l as [|[e [m|]] l IH]; cbn in *; lia. }
    unfold len. rewrite length_zip_with. f_equal. lia. }
  split; [done|]. split.
  { assert (∀ (es : list Entry) os, length os = length es → len (omap match_line (zip es os)) = len (omap id os)) as Ho.
    { unfold len. induction es as [|e es IH]; intros [|o os] Ho; try done. injection Ho as Ho. specialize (IH os Ho).
      cbn in *. destruct o; cbn; lia. }
    rewrite (Ho entries ms Hl).
    unfold itemIDs, len. apply inj_le. destruct (distinct_spec (map m_item (omap id ms)) []) as [Hn Hs].
    rewrite <- (length_map m_item). apply submseteq_length, NoDup_submseteq; [done|]. intros i Hi. apply list_elem_of_In in Hi.
    apply list_elem_of_In. by apply Hs. }
  unfold capped, len, m3uReportCap. rewrite !length_take, !Z.ltb_lt, length_reverse, length_fmap. split_and!; lia.
Qed.

(** * All or nothing *)
Definition failing (m : Moment) : bool := match outage_ m with Up => false | _ => true end.
(** At most one statement fails. *)
Definition one_failure (ms : list Moment) : Prop := (length (List.filter failing ms) <= 1)%nat.

(** A matched item is in the tables. *)
Lemma matched_exists libs d v entries b i :
  i ∈ itemIDs (resolveM3U libs (file_rows d) (track_rows d) v entries b) → is_Some (media_row d i).
Proof.
  intros Hi. unfold itemIDs in Hi. apply list_elem_of_In in Hi.
  destruct (distinct_spec (map m_item (omap id (resolveM3U libs (file_rows d) (track_rows d) v entries b))) []) as [_ H].
  apply H in Hi as [Hi _]. apply in_map_iff in Hi as (m & <- & Hm). apply list_elem_of_In, list_elem_of_omap in Hm as (o & Ho & [= ->]).
  apply list_elem_of_lookup in Ho as [k Hk]. pose proof (lookup_lt_Some _ _ _ Hk) as Hlt. rewrite resolve_length in Hlt.
  apply lookup_lt_is_Some in Hlt as [e He]. destruct (resolve_justified _ _ _ _ _ _ _ _ _ He Hk) as [_ Hj].
  assert (∀ f, List.In f (file_rows d) → fr_item f = m_item m → is_Some (media_row d (m_item m))) as Hf.
  { intros f Hf <-. apply list_elem_of_In in Hf. unfold file_rows in Hf. apply list_elem_of_omap in Hf as (x & _ & Hx).
    destruct (media_row d (fl_item x)) eqn:E; [|done]. injection Hx as <-. cbn. rewrite E. by eexists. }
  unfold justified in Hj. destruct (m_method m).
  - destruct Hj as (_ & f & H1 & _ & H2 & _). by apply (Hf f).
  - destruct Hj as (_ & f & _ & H1 & _ & H2 & _). by apply (Hf f).
  - destruct Hj as (_ & f & H1 & _ & H2 & _). by apply (Hf f).
  - destruct Hj as (_ & t & H1 & _ & <- & _). apply list_elem_of_In in H1. unfold track_rows in H1.
    apply list_elem_of_In, in_map_iff in H1 as (x & <- & Hx). cbn. apply list_elem_of_In in Hx.
    destruct (media_row d (md_id x)) eqn:E; [by eexists|]. unfold media_row in E. rewrite find_first_None in E.
    specialize (E x Hx). cbn in E. by rewrite N.eqb_refl in E.
Qed.

(** The new playlist with its items taken away again. *)
Lemma undone c col d d1 :
  collections d !! c = None → of_coll c d = [] →
  (d1 = d <| collections ::= <[c := col]> |> ∨ ∃ base ids, d1 = append_from c base ids (d <| collections ::= <[c := col]> |>)) →
  (query (DeleteCollection c) 0 0%N d1).1 = d.
Proof.
  intros Hc Hm Hd. cbn [query write fst].
  assert (∀ base ids d0, List.filter (λ m, negb (N.eqb (mb_coll m) c)) (members (append_from c base ids d0))
          = List.filter (λ m, negb (N.eqb (mb_coll m) c)) (members d0)) as Happ.
  { intros base ids. revert base. induction ids as [|i ids IH]; intros base d0; [done|]. cbn [append_from]. rewrite IH.
    destruct (is_member c i d0); [done|]. rewrite members_over, List.filter_app. cbn. by rewrite N.eqb_refl, app_nil_r. }
  assert (List.filter (λ m, negb (N.eqb (mb_coll m) c)) (members d) = members d) as Hall.
  { apply filter_all. intros m Hi. apply negb_true_iff, N.eqb_neq. intros E.
    assert (m ∈ of_coll c d) as Hbad; [|rewrite Hm in Hbad; by apply elem_of_nil in Hbad].
    apply list_elem_of_In, filter_In. split; [by apply list_elem_of_In|by apply N.eqb_eq]. }
  assert (libraries d1 = libraries d ∧ users d1 = users d ∧ access d1 = access d ∧ media d1 = media d ∧ files d1 = files d
    ∧ collections d1 = <[c := col]> (collections d)
    ∧ List.filter (λ m, negb (N.eqb (mb_coll m) c)) (members d1) = members d) as (H1&H2&H3&H4&H5&H6&H7).
  { destruct Hd as [-> |(base & ids & ->)]; [done|].
    destruct (append_from_rest c ids base (d <| collections ::= <[c := col]> |>)) as (H1&H2&H3&H4&H5&H6).
    rewrite H1, H2, H3, H4, H5, H6, Happ. done. }
  destruct d1, d; cbn in *. subst. f_equal. by apply delete_insert_id.
Qed.

(** Filling the new playlist. *)
Lemma fill_run col ids ms d0 d ok d' tr :
  d = d0 <| collections ::= <[co_id col := col]> |> → collections d0 !! co_id col = None → of_coll (co_id col) d0 = [] →
  NoDup ids → Forall (λ i, is_Some (media_row d0 i)) ids → Forall alone ms → run (fill col ids) ms d = Some (ok, d', tr) →
  if ok then collections d' = <[co_id col := col]> (collections d0) ∧ contents (co_id col) d' = ids
             ∧ (∀ c, c ≠ co_id col → of_coll c d' = of_coll c d0) ∧ media d' = media d0
  else Forall not_lost ms → one_failure ms → d' = d0.
Proof.
  intros -> Hc Hm Hn Hex Ha. unfold fill. set (c := co_id col) in *. set (d := d0 <| collections ::= <[c := col]> |>).
  assert (contents c d = []) as Hcont.
  { unfold contents. enough (ordered c d = []) as -> by done. apply Permutation_nil_r. rewrite ordered_perm. unfold d. rewrite <- Hm. done. }
  destruct (Z.eqb_spec (len ids) 0) as [E|E].
  { rewrite run_ret. intros [= <- <- <-]. destruct ids; [|unfold len in E; simpl in E; lia]. by rewrite Hcont. }
  destruct ms as [|m ms]; [done|]. apply Forall_cons in Ha as [Ha Hms]. cbn [run]. rewrite Ha.
  assert (∃ d2 r, call (AppendCollectionItems c ids) m d = (d2, r) ∧
    ((r = Got tt ∧ d2 = append_from c (next_position c d) ids d)
     ∨ (r = Failed ∧ failing m = true ∧ (not_lost m → d2 = d)))) as (d2 & r & -> & H).
  { assert (collections d !! c = Some col) as Hcd by (unfold d; rewrite collections_over; apply lookup_insert_eq).
    assert (forallb (λ i, bool_decide (is_Some (media_row d i))) ids = true) as Hall.
    { apply forallb_forall. intros i Hi. apply bool_decide_eq_true. rewrite Forall_forall in Hex. by apply Hex, list_elem_of_In. }
    unfold call, not_lost, failing. cbn [query write]. rewrite Hcd, Hall.
    destruct (outage_ m); do 2 eexists; (split; [reflexivity|]); auto. right. done. }
  destruct H as [(-> & ->)|(-> & Hf & Hd2)].
  - rewrite run_ret. intros [= <- <- <-].
    destruct (append_from_rest c ids (next_position c d) d) as (_&_&_&H4&_&H6). rewrite H6, H4. split; [done|]. split; [|split; [|done]].
    + rewrite append_contents by (intros y Hy; by apply next_above). rewrite Hcont. apply new_items_nodup; [done|].
      intros i _. by apply not_elem_of_nil.
    + intros c' Hne. by rewrite append_from_coll.
  - destruct ms as [|m2 ms2]; [done|]. apply Forall_cons in Hms as [Ha2 _]. cbn [run]. rewrite Ha2.
    destruct (call (DeleteCollection c) m2 d2) as [d3 r3] eqn:E3. intros [= <- <- <-] Hl H1.
    apply Forall_cons in Hl as [Hl Hl2]. unfold one_failure in H1. cbn [List.filter] in H1. rewrite Hf in H1. cbn [length] in H1.
    assert (outage_ m2 = Up) as Hup.
    { unfold failing in H1 at 1. destruct (outage_ m2); [done|..]; cbn [length] in H1; lia. }
    unfold call in E3. rewrite Hup in E3. injection E3 as <- _. apply (undone c col d0); [done|done|]. left. by apply Hd2.
Qed.

(** The last statements of an import. *)
Lemma create_and_fill owner name libs vis entries bd m ms d r d' tr :
  let matches := resolveM3U libs (file_rows d) (track_rows d) vis entries bd in
  Forall alone (m :: ms) → collections d !! new_id m = None ∧ of_coll (new_id m) d = [] →
  run (let! c := CreateCollection (mkNew (Some owner) name None "playlist" None) in
       match c with
       | Failed => Ret (Status 500)
       | Got col => let* ok := fill col (itemIDs matches) in Ret (if ok then Body 201 (report col entries matches) else Status 500)
       end) (m :: ms) d = Some (r, d', tr) →
  match r with
  | Status code => 400 <= code ∧ (Forall not_lost (m :: ms) → one_failure (m :: ms) → d' = d)
  | Body code rep =>
      let col := im_playlist rep in let c := co_id col in
      code = 201 ∧ co_user col = Some owner ∧ co_type col = "playlist" ∧ collections d !! c = None
      ∧ collections d' = <[c := col]> (collections d) ∧ (∀ c', c' ≠ c → of_coll c' d' = of_coll c' d) ∧ media d' = media d
      ∧ contents c d' = itemIDs matches ∧ rep = report col entries matches
  end.
Proof.
  intros matches Ha [Hc Hm]. apply Forall_cons in Ha as [Ha Hms]. cbn [run]. rewrite Ha.
  set (col := mkColl (new_id m) (Some owner) name None "playlist" None (at_ m)).
  assert (∃ d2 r2, call (CreateCollection (mkNew (Some owner) name None "playlist" None)) m d = (d2, r2) ∧
    ((r2 = Got col ∧ failing m = false ∧ d2 = d <| collections ::= <[co_id col := col]> |>) ∨ (r2 = Failed ∧ (not_lost m → d2 = d))))
    as (d2 & r2 & -> & H).
  { unfold call, not_lost, failing. cbn [query]. rewrite Hc. destruct (outage_ m); do 2 eexists; (split; [reflexivity|]); auto. right. done. }
  destruct H as [(-> & Hup & ->)|(-> & Hd2)].
  - destruct (run _ ms _) as [[[a d3] tr3]|] eqn:E; [|done]. intros [= -> -> _].
    apply run_bind in E as (ok & d4 & tr4 & ms4 & tr5 & Hfill & _ & H & _). rewrite run_ret in H. injection H as <- <- _.
    pose proof (fill_run col (itemIDs matches) ms d _ ok d4 tr4 eq_refl Hc Hm) as Hf.
    assert (NoDup (itemIDs matches)) as Hn by apply distinct_spec.
    assert (Forall (λ i, is_Some (media_row d i)) (itemIDs matches)) as Hex.
    { apply Forall_forall. intros i Hi. by eapply matched_exists. }
    specialize (Hf Hn Hex Hms Hfill). destruct ok.
    + destruct Hf as (H1 & H2 & H3 & H4). cbv zeta. assert (im_playlist (report col entries matches) = col) as -> by apply report_playlist. done.
    + split; [done|]. intros Hl Ho. apply Forall_cons in Hl as [_ Hl]. apply Hf; [done|].
      unfold one_failure in *. cbn [List.filter] in Ho. by rewrite Hup in Ho.
  - rewrite run_ret. intros [= <- <- _]. split; [done|]. intros Hl _. apply Forall_cons in Hl as [Hl _]. by apply Hd2.
Qed.
Lemma read_upload_code fname data code : read_upload fname data = inl code → 400 <= code.
Proof.
  unfold read_upload. destruct (negb _ && _); [by intros [= <-]|]. destruct data; [|by intros [= <-]].
  destruct (_ <? _); [by intros [= <-]|]. destruct (Decode _ _); [|by intros [= <-]].
  destruct (Parse _); by intros [= <-].
Qed.

(** What is known of an import that ended. *)
Definition import_outcome (x : Ctx) (u : upload) (ms : list Moment) (d d' : DB) (r : resp ImportResponse) : Prop :=
  match r with
  | Status code => 400 <= code ∧ (Forall not_lost ms → one_failure ms → d' = d)
  | Body code rep =>
      let col := im_playlist rep in let c := co_id col in
      code = 201 ∧ ∃ cl filename data name base_dir entries vis,
        claims x = Some cl ∧ u = UForm (Some (filename, Some data)) name base_dir ∧ read_upload filename (Some data) = inr entries
        ∧ co_user col = Some (UserID cl) ∧ co_type col = "playlist" ∧ collections d !! c = None
        ∧ collections d' = <[c := col]> (collections d) ∧ (∀ c', c' ≠ c → of_coll c' d' = of_coll c' d) ∧ media d' = media d
        ∧ let matches := resolveM3U (live_libraries d) (file_rows d) (track_rows d) (visibility_of d vis) entries (TrimSpace base_dir) in
          contents c d' = itemIDs matches ∧ rep = report col entries matches
  end.

(** C20: an import makes the whole playlist or none.  When it answers that the
    playlist was created, that is a new playlist of the caller's that lists
    exactly the items the entries matched, each once, in the order of the file,
    and nothing else has changed; when it answers anything else - a bad file, a
    database that failed at any one of its statements - the tables are what
    they were. *)
Theorem import_all_or_nothing (x : Ctx) (u : upload) (ms : list Moment) (d : DB) r d' tr
    (Hu : paths_unique (file_rows d))
    (Ha : Forall alone ms)
    (Hf : Forall (λ m, collections d !! new_id m = None ∧ of_coll (new_id m) d = []) ms)
    (Hr : run (ImportM3U x u) ms d = Some (r, d', tr)) :
  import_outcome x u ms d d' r.
Proof.
  unfold ImportM3U in Hr.
  destruct (claims x) as [cl|] eqn:Ecl; [|rewrite run_ret in Hr; by injection Hr as <- <- _].
  destruct u as [| |[[fname data]|] nm bd]; try (rewrite run_ret in Hr; by injection Hr as <- <- _).
  destruct (read_upload fname data) as [code|entries] eqn:Eu.
  { rewrite run_ret in Hr. injection Hr as <- <- _. apply read_upload_code in Eu. by split. }
  destruct data as [data|]; [|unfold read_upload in Eu; by destruct (negb _ && _)].
  apply run_bind in Hr as (v & d1 & tr1 & ms1 & tr2 & H1 & -> & Hr & _).
  pose proof (reads_same _ _ _ _ _ _ (visibility_reads _) Ha H1) as ->.
  assert (Forall alone (drop (length tr1) ms)) as Ha1 by by apply Forall_drop.
  destruct v as [vis|]; [|rewrite run_ret in Hr; by injection Hr as <- <- _].
  apply run_bind in Hr as (o & d2 & tr3 & ms2 & tr4 & H2 & -> & Hr & _).
  pose proof (reads_same _ _ _ _ _ _ (resolve_reads _ _ _) Ha1 H2) as ->.
  destruct o as [out|]; [|rewrite run_ret in Hr; by injection Hr as <- <- _].
  pose proof (resolve_run _ _ _ _ _ _ _ _ Hu Ha1 H2) as ->. clear H1 H2.
  rewrite drop_drop in Hr. set (n := (length tr1 + length tr3)%nat) in Hr.
  destruct (drop n ms) as [|m ms3] eqn:Ed; [done|].
  assert (Forall alone (m :: ms3)) as Ha3 by (rewrite <- Ed; by apply Forall_drop).
  assert (m ∈ ms) as Hm by (rewrite <- (take_drop n ms), Ed; apply elem_of_app; right; by left).
  eapply create_and_fill in Hr; [|exact Ha3|by rewrite Forall_forall in Hf; apply Hf].
  destruct r as [code|code rep].
  - destruct Hr as [Hc Hr]. split; [done|]. intros Hl Hone. apply Hr.
    + rewrite <- Ed. by apply Forall_drop.
    + rewrite <- Ed. unfold one_failure in *. rewrite <- (take_drop n ms), List.filter_app, length_app in Hone. lia.
  - destruct Hr as (-> & H1 & H2 & H3 & H4 & H5 & H6 & H7 & H8). split; [done|].
    exists cl, fname, data, nm, bd, entries, vis. cbv zeta. by split_and!.
Qed.

Module Sample.
Import PlaylistsSafe.Sample.
Definition file : string := ExportM3U true
  [mkExportRow 6%N "track" "Song" "Band" "/music/6.mp3" None None []; mkExportRow 5%N "track" "Song" "Band" "/music/5.mp3" None None [];
   mkExportRow 6%N "track" "Song" "Band" "/music/6.mp3" None None []].
Definition up : upload := UForm (Some ("mix.m3u8", Some file)) "" "".

Definition imported (ms : list Moment) : option (Z * list UUID * string) :=
  match run (ImportM3U ann up) ms db with
  | Some (r, d', _) => Some (code_of r, contents 60%N d', default "" (co_name <$> collections d' !! 60%N))
  | None => None
  end.
Definition down : Moment := mkMoment (λ d, d) 0 60%N Down.

(** The file's name names the playlist; with the append refused nothing stays. *)
Example imported_list :
  imported [m0; m0; m0; m0; m0] = Some (201, [6%N; 5%N], "mix") ∧ imported [m0; m0; m0; m0; down; m0] = Some (500, [], "").
Proof. vm_compute. done. Qed.
(** The removal runs under the request's own context: when the client hangs up
    during the append it fails as well, and an empty playlist stays. *)
Example cancelled_import_leaves_playlist : imported [m0; m0; m0; m0; down; down] = Some (500, [], "mix").
Proof. vm_compute. done. Qed.

Lemma import_all_or_nothing_witness :
  ∃ r d' tr, run (ImportM3U ann up) [m0; m0; m0; m0; down; m0] db = Some (r, d', tr)
  ∧ import_outcome ann up [m0; m0; m0; m0; down; m0] db d' r.
Proof.
  do 3 eexists. split; [reflexivity|]. eapply (import_all_or_nothing ann up [m0; m0; m0; m0; down; m0] db).
  - assert (∀ f, f ∈ file_rows db → f ∈ [mkFileRow "/music/5.mp3" 5%N "Song" true false 10%N 4;
      mkFileRow "/music/6.mp3" 6%N "Song" true false 10%N 4; mkFileRow "/music/7.mp3" 7%N "Song" true false 10%N 4]) as H by done.
    intros f g Hf%H Hg%H. rewrite !elem_of_cons in Hf, Hg.
    destruct Hf as [->|[->|[->|Hf]]]; [..|by apply elem_of_nil in Hf];
      (destruct Hg as [->|[->|[->|Hg]]]; [..|by apply elem_of_nil in Hg]); (reflexivity || discriminate).
  - repeat constructor.
  - repeat constructor.
  - reflexivity.
Defined.
End Sample.
