(* ===== verification/DVRCommercials.v ===== *)
(** Commercial breaks of a recording: [internal/livetv/dvr_commercials.go].

    The black and silent stretches ffmpeg reports, or the list comskip wrote,
    become breaks; [keepSegments] is what a cut keeps.  Seconds are [float64] as
    in the code, breaks are [int64] milliseconds.  Running the two programs is
    in [DVRPostprocess]. *)
From Stdlib Require Import SpecFloat.
From S2P Require Import Prelude.
From S2P Require Import GoStrings.
From S2P Require Import GoBytes.
From S2P Require Import GoFloat.

Local Open Scope Z_scope.

(** * Settings and data *)
Definition CommercialsOff : string := "off".
Definition CommercialsMark : string := "mark".
Definition CommercialsCut : string := "cut".
Definition CommercialSourceComskip : string := "comskip".
Definition CommercialSourceHeuristic : string := "heuristic".

Record CommercialBreak := mkBreak { StartMS : Z; EndMS : Z }.

(** Durations in nanoseconds.  The thresholds handed to ffmpeg's filters are not
    used here. *)
Record HeuristicParams := mkHeuristic {
  MinOverlap : Z; MergeGap : Z; MaxAdLen : Z; MinPodLen : Z; MaxPodLen : Z; MinAdsPerPod : Z; MinProgramLen : Z }.
Definition second : Z := 1000000000.
Definition DefaultHeuristicParams : HeuristicParams :=
  mkHeuristic 100000000 second (120 * second) (30 * second) (360 * second) 2 (180 * second).

Record timeSpan := mkSpan { start : float64; end_ : float64 }.

(** [Duration.Seconds] *)
Definition Seconds (d : Z) : float64 :=
  f64_add (f64_of_Z (Z.quot d second)) (f64_div (f64_of_Z (Z.rem d second)) (f64_of_Z 1000000000)).

(** [math.Max] and [math.Min] *)
Definition f64_is_zero (x : float64) : bool := match x with S754_zero _ => true | _ => false end.
Definition f64_sign (x : float64) : bool :=
  match x with S754_zero s | S754_infinity s | S754_finite s _ _ => s | S754_nan => false end.
Definition f64_max (x y : float64) : float64 :=
  match x, y with
  | S754_infinity false, _ | _, S754_infinity false => S754_infinity false
  | S754_nan, _ | _, S754_nan => S754_nan
  | _, _ => if f64_is_zero x && f64_is_zero y then (if f64_sign x then y else x) else if f64_ltb y x then x else y
  end.
Definition f64_min (x y : float64) : float64 :=
  match x, y with
  | S754_infinity true, _ | _, S754_infinity true => S754_infinity true
  | S754_nan, _ | _, S754_nan => S754_nan
  | _, _ => if f64_is_zero x && f64_is_zero y then (if f64_sign x then x else y) else if f64_ltb x y then x else y
  end.

(** * What the filters print *)
Definition tab : ascii := chr 9.
(** [strings.TrimLeft(s, " \t")] and [s[:strings.IndexAny(s, " \t|")]]. *)
Fixpoint trim_blanks (s : string) : string :=
  match s with
  | String c s' => if Ascii.eqb c " " || Ascii.eqb c tab then trim_blanks s' else s
  | EmptyString => s
  end.
Fixpoint up_to_mark (s : string) : string :=
  match s with
  | String c s' => if Ascii.eqb c " " || Ascii.eqb c tab || Ascii.eqb c "|" then "" else String c (up_to_mark s')
  | EmptyString => s
  end.

Definition f64_finite (x : float64) : bool :=
  match x with S754_nan | S754_infinity _ => false | _ => true end.

Definition floatAfter (line key : string) : option float64 :=
  match CutStr line key with
  | None => None
  | Some (_, rest) =>
      match ParseFloat (up_to_mark (trim_blanks rest)) with
      | Some v => if f64_finite v then Some v else None
      | None => None
      end
  end.

Record detected := mkDetected { openSilence : float64; black : list timeSpan; silence : list timeSpan }.
Definition detect_line (d : detected) (line : string) : detected :=
  if Contains line "black_start:" then
    match floatAfter line "black_start:", floatAfter line "black_end:" with
    | Some s, Some e =>
        if f64_ltb s e then mkDetected (openSilence d) (black d ++ [mkSpan s e]) (silence d) else d
    | _, _ => d
    end
  else if Contains line "silence_start:" then
    match floatAfter line "silence_start:" with
    | Some s => mkDetected (f64_max s f64_zero) (black d) (silence d)
    | None => d
    end
  else if Contains line "silence_end:" then
    mkDetected (f64_of_Z (-1)) (black d)
      match floatAfter line "silence_end:" with
      | Some e =>
          if f64_leb f64_zero (openSilence d) && f64_ltb (openSilence d) e
          then silence d ++ [mkSpan (openSilence d) e] else silence d
      | None => silence d
      end
  else d.

(** Lines up to a megabyte; a longer one ends the reading. *)
Definition parseDetectOutput (stderr : string) (durationSec : float64) : list timeSpan * list timeSpan :=
  let d := fold_left detect_line (fst (ScanLines 1048576 stderr)) (mkDetected (f64_of_Z (-1)) [] []) in
  (black d,
   if f64_leb f64_zero (openSilence d) && f64_ltb (openSilence d) durationSec
   then silence d ++ [mkSpan (openSilence d) durationSec] else silence d).

(** * Classification *)
(** [sort.Slice] by start; where starts are equal the order given is kept. *)
Definition starts_le (a b : timeSpan) : Prop := Is_true (negb (f64_ltb (start b) (start a))).
#[global] Instance starts_le_dec : RelDecision starts_le.
Proof. intros a b. unfold starts_le. apply _. Defined.
Definition sort_spans (l : list timeSpan) : list timeSpan := merge_sort starts_le l.

Section Classify.
Variable hp : HeuristicParams.

Fixpoint overlaps (b : timeSpan) (silence : list timeSpan) : list timeSpan :=
  match silence with
  | [] => []
  | s :: silence' =>
      if f64_leb (end_ b) (start s) then []
      else
        let lo := f64_max (start b) (start s) in
        let hi := f64_min (end_ b) (end_ s) in
        if f64_leb (Seconds (MinOverlap hp)) (f64_sub hi lo) then mkSpan lo hi :: overlaps b silence'
        else overlaps b silence'
  end.
Definition transitions (black silence : list timeSpan) : list timeSpan :=
  concat (map (λ b, overlaps b (sort_spans silence)) (sort_spans black)).

(** [last] is the transition being extended. *)
Fixpoint merge_from (last : timeSpan) (ts : list timeSpan) : list timeSpan :=
  match ts with
  | [] => [last]
  | t :: ts' =>
      if f64_leb (f64_sub (start t) (end_ last)) (Seconds (MergeGap hp))
      then merge_from (mkSpan (start last) (f64_max (end_ last) (end_ t))) ts'
      else last :: merge_from t ts'
  end.

Fixpoint segments_from (prev : float64) (merged : list timeSpan) (durationSec : float64) : list timeSpan :=
  match merged with
  | [] => [mkSpan prev durationSec]
  | t :: merged' => mkSpan prev (start t) :: segments_from (end_ t) merged' durationSec
  end.

Definition segLen (s : timeSpan) : float64 := f64_sub (end_ s) (start s).
Definition short (s : timeSpan) : bool := negb (f64_ltb (Seconds (MaxAdLen hp)) (segLen s)).
Definition programme (s : timeSpan) : bool := f64_leb (Seconds (MinProgramLen hp)) (segLen s).

(** How many short segments a list begins with. *)
Fixpoint short_prefix (l : list timeSpan) : nat :=
  match l with s :: l' => if f64_leb (segLen s) (Seconds (MaxAdLen hp)) then S (short_prefix l') else O | [] => O end.

Definition round_ms (x : float64) : Z := round_of_f64 (f64_mul x (f64_of_Z 1000)).

(** The break of the segments [i] to [j], when they are a pod. *)
Definition pod (segs : list timeSpan) (i j : nat) : option CommercialBreak :=
  match i, segs !! i, segs !! j, segs !! (i - 1)%nat, segs !! S j with
  | S _, Some si, Some sj, Some before, Some after =>
      if programme before && programme after && (MinAdsPerPod hp <=? Z.of_nat (j - i) + 1) then
        let podLen := f64_sub (end_ sj) (start si) in
        if f64_leb (Seconds (MinPodLen hp)) podLen && f64_leb podLen (Seconds (MaxPodLen hp))
        then Some (mkBreak (round_ms (start si)) (round_ms (end_ sj))) else None
      else None
  | _, _, _, _, _ => None
  end.

(** The loop over the segments, from [i]; each turn passes one at least. *)
Fixpoint pods (fuel : nat) (segs : list timeSpan) (i : nat) : list CommercialBreak :=
  match fuel, segs !! i with
  | S fuel, Some s =>
      if negb (short s) then pods fuel segs (S i)
      else
        let j := (i + short_prefix (drop (S i) segs))%nat in
        match pod segs i j with
        | Some b => b :: pods fuel segs (S j)
        | None => pods fuel segs (S j)
        end
  | _, _ => []
  end.

Definition segments (black silence : list timeSpan) (durationSec : float64) : option (list timeSpan) :=
  match transitions black silence with
  | [] | [_] => None
  | trans =>
      match sort_spans trans with
      | t :: ts => Some (segments_from f64_zero (merge_from t ts) durationSec)
      | [] => None
      end
  end.

Definition classifyBreaks (black silence : list timeSpan) (durationSec : float64) : list CommercialBreak :=
  if f64_le0 durationSec then []
  else match segments black silence durationSec with
       | Some segs => pods (length segs) segs 0
       | None => []
       end.
End Classify.

(** * What comskip wrote *)
Definition lines (s : string) : list string := Split s lf.
Definition parse_edl_line (line : string) : option CommercialBreak :=
  match Fields line with
  | a :: b :: rest =>
      match ParseFloat a, ParseFloat b with
      | Some s, Some e =>
          match rest with
          | action :: _ =>
              if negb (String.eqb action "0") && negb (String.eqb action "3") then None
              else Some (mkBreak (round_ms s) (round_ms e))
          | [] => Some (mkBreak (round_ms s) (round_ms e))
          end
      | _, _ => None
      end
  | _ => None
  end.
Definition parseEDL (s : string) : list CommercialBreak := omap parse_edl_line (lines s).

(** The text after the last [ AT ]. *)
Definition after_last (sep s : string) : option string :=
  match CutStr (srev s) (srev sep) with Some (r, _) => Some (srev r) | None => None end.
Definition frame_ms (fps : float64) (x : float64) : Z := round_of_f64 (f64_mul (f64_div x fps) (f64_of_Z 1000)).
Definition comskip_line (st : float64 * list CommercialBreak) (raw : string) : float64 * list CommercialBreak :=
  let '(fps, out) := st in
  let line := TrimSpace raw in
  if HasPrefix line "FILE PROCESSING COMPLETE" then
    match after_last " AT " line with
    | Some t =>
        match ParseFloat (TrimSpace t) with
        | Some v => if f64_gt0 v then (f64_div v (f64_of_Z 100), out) else st
        | None => st
        end
    | None => st
    end
  else match Fields line with
       | [a; b] =>
           if f64_le0 fps then st
           else match ParseFloat a, ParseFloat b with
                | Some a, Some b => (fps, out ++ [mkBreak (frame_ms fps a) (frame_ms fps b)])
                | _, _ => st
                end
       | _ => st
       end.
Definition parseComskipTxt (s : string) : option (list CommercialBreak) :=
  let '(fps, out) := fold_left comskip_line (lines s) (f64_zero, []) in
  if f64_le0 fps then None else Some out.

Definition clamp (durMS : Z) (b : CommercialBreak) : CommercialBreak :=
  mkBreak (if StartMS b <? 0 then 0 else StartMS b)
    (if (0 <? durMS) && (durMS <? EndMS b) then durMS else EndMS b).
Definition long_enough (b : CommercialBreak) : bool := negb (wrap64 (EndMS b - StartMS b) <? 1000).
Definition break_le (a b : CommercialBreak) : Prop := StartMS a <= StartMS b.
#[global] Instance break_le_dec : RelDecision break_le.
Proof. intros a b. unfold break_le. apply _. Defined.
Fixpoint merge_breaks (last : CommercialBreak) (l : list CommercialBreak) : list CommercialBreak :=
  match l with
  | [] => [last]
  | b :: l' =>
      if StartMS b <=? EndMS last
      then merge_breaks (mkBreak (StartMS last) (if EndMS last <? EndMS b then EndMS b else EndMS last)) l'
      else last :: merge_breaks b l'
  end.
Definition clampBreaks (input : list CommercialBreak) (durationSec : float64) : list CommercialBreak :=
  let durMS := int_of_f64 (f64_mul durationSec (f64_of_Z 1000)) in
  match merge_sort break_le (List.filter long_enough (map (clamp durMS) input)) with
  | [] => []
  | b :: l => merge_breaks b l
  end.

(** * What a cut keeps *)
Definition ms_sec (ms : Z) : float64 := f64_div (f64_of_Z ms) (f64_of_Z 1000).
Fixpoint keep_from (pos : float64) (breaks : list CommercialBreak) (durationSec : float64) : list timeSpan :=
  match breaks with
  | [] => if f64_ltb pos durationSec then [mkSpan pos durationSec] else []
  | b :: breaks' =>
      let s := ms_sec (StartMS b) in
      let e := ms_sec (EndMS b) in
      let rest := keep_from (if f64_ltb pos e then e else pos) breaks' durationSec in
      if f64_ltb pos s then mkSpan pos s :: rest else rest
  end.
Definition keepSegments (breaks : list CommercialBreak) (durationSec : float64) : list timeSpan :=
  keep_from f64_zero breaks durationSec.

(** * Examples *)
Module Sample.
Definition stderr : string :=
  "[blackdetect @ 0x1] black_start:200 black_end:201.5 black_duration:1.5" +:+ newline +:+
  "[silencedetect @ 0x2] silence_start: 200.2" +:+ newline +:+
  "[silencedetect @ 0x2] silence_end: 201.4 | silence_duration: 1.2" +:+ newline +:+
  "[blackdetect @ 0x1] black_start:230 black_end:231" +:+ newline +:+
  "[silencedetect @ 0x2] silence_start: 230" +:+ newline +:+
  "[silencedetect @ 0x2] silence_end: 231 | silence_duration: 1" +:+ newline +:+
  "[blackdetect @ 0x1] black_start:260 black_end:261" +:+ newline +:+
  "[silencedetect @ 0x2] silence_start: 259" +:+ newline +:+
  "[silencedetect @ 0x2] silence_end: 262 | silence_duration: 3" +:+ newline +:+
  "[silencedetect @ 0x2] silence_start: 590".
Definition spans := parseDetectOutput stderr (f64_of_Z 600).

(** Two adverts of half a minute between three and five minutes of programme. *)
Example one_pod :
  classifyBreaks DefaultHeuristicParams (fst spans) (snd spans) (f64_of_Z 600) = [mkBreak 201400 260000].
Proof. vm_compute. reflexivity. Qed.

Example edl_read :
  clampBreaks (parseEDL ("10.5 20 0" +:+ newline +:+ "19 30.25 3" +:+ newline +:+ "40 50 1" +:+ newline +:+ "100 100.5 0" +:+ newline +:+ "590 700 3"))
    (f64_of_Z 600) = [mkBreak 10500 30250; mkBreak 590000 600000].
Proof. vm_compute. reflexivity. Qed.

Example txt_read :
  parseComskipTxt ("FILE PROCESSING COMPLETE 53999 FRAMES AT 2500" +:+ newline +:+ "-------------------" +:+ newline +:+ "250 1000")
    = Some [mkBreak 10000 40000] ∧ parseComskipTxt "1 2" = None.
Proof. vm_compute. done. Qed.
End Sample.

(** * What the breaks of a recording are: the pods found by the heuristic are
    exactly the maximal runs of short segments the comment describes, and
    clamping a list of breaks keeps the time they cover. *)
(** * Pods *)
Section Pods.
Variable hp : HeuristicParams.
Variable segs : list timeSpan.

Definition advert (s : timeSpan) : Prop := f64_leb (segLen s) (Seconds (MaxAdLen hp)) = true.

(** Segments [i] to [j] are adverts, and neither neighbour is. *)
Definition maximal_run (i j : nat) : Prop :=
  (i <= j < length segs)%nat
  ∧ (∀ k s, (i <= k <= j)%nat → segs !! k = Some s → advert s)
  ∧ (∀ s, (0 < i)%nat → segs !! (i - 1)%nat = Some s → ¬ advert s)
  ∧ (∀ s, segs !! S j = Some s → ¬ advert s).

(** The third rule of the comment above [classifyBreaks]. *)
Definition is_pod (i j : nat) (b : CommercialBreak) : Prop :=
  maximal_run i j ∧ (0 < i)%nat ∧ MinAdsPerPod hp <= Z.of_nat (j - i) + 1
  ∧ ∃ si sj before after,
      segs !! i = Some si ∧ segs !! j = Some sj ∧ segs !! (i - 1)%nat = Some before ∧ segs !! S j = Some after
      ∧ programme hp before = true ∧ programme hp after = true
      ∧ f64_leb (Seconds (MinPodLen hp)) (f64_sub (end_ sj) (start si)) = true
      ∧ f64_leb (f64_sub (end_ sj) (start si)) (Seconds (MaxPodLen hp)) = true
      ∧ b = mkBreak (round_ms (start si)) (round_ms (end_ sj)).

Lemma pod_Some i j b :
  pod hp segs i j = Some b ↔
  (0 < i)%nat ∧ MinAdsPerPod hp <= Z.of_nat (j - i) + 1
  ∧ ∃ si sj before after,
      segs !! i = Some si ∧ segs !! j = Some sj ∧ segs !! (i - 1)%nat = Some before ∧ segs !! S j = Some after
      ∧ programme hp before = true ∧ programme hp after = true
      ∧ f64_leb (Seconds (MinPodLen hp)) (f64_sub (end_ sj) (start si)) = true
      ∧ f64_leb (f64_sub (end_ sj) (start si)) (Seconds (MaxPodLen hp)) = true
      ∧ b = mkBreak (round_ms (start si)) (round_ms (end_ sj)).
Proof.
  unfold pod. split.
  - destruct i as [|i]; [done|].
    destruct (segs !! S i) as [si|], (segs !! j) as [sj|], (segs !! (S i - 1)%nat) as [before|],
      (segs !! S j) as [after|]; try done.
    bcase; [|done]. bcase; [|done]. intros [= <-]. breflect. destruct E as [[E1 E2] E3], E0 as [E4 E5].
    split; [lia|]. split; [done|]. exists si, sj, before, after. done.
  - intros (Hi & Hn & si & sj & before & after & E1 & E2 & E3 & E4 & H1 & H2 & H3 & H4 & ->).
    destruct i as [|i]; [lia|]. rewrite E1, E2, E3, E4, H1, H2, H3, H4.
    simpl. rewrite (proj2 (Z.leb_le _ _) Hn). done.
Qed.

Hypothesis lengths : ∀ s, s ∈ segs → segLen s ≠ S754_nan.
Hypothesis limit : Seconds (MaxAdLen hp) ≠ S754_nan.

Lemma leb_or_gtb (x y : float64) : x ≠ S754_nan → y ≠ S754_nan → f64_leb x y = negb (f64_ltb y x).
Proof.
  assert (∀ m m', Pos.compare_cont Eq m m' = CompOpp (Pos.compare_cont Eq m' m)) as Hc.
  { intros m m'. apply (Pos.compare_antisym m' m). }
  unfold f64_leb, f64_ltb, SFleb, SFltb, SFcompare. intros Hx Hy.
  destruct x as [[]|[]| |[] m e], y as [[]|[]| |[] m' e']; try done;
    rewrite (Z.compare_antisym e e'), (Hc m m'); destruct (e ?= e')%Z; simpl; try done;
    by destruct (Pos.compare_cont Eq m' m).
Qed.
Lemma short_advert s : s ∈ segs → short hp s = true ↔ advert s.
Proof. intros Hs. unfold short, advert. by rewrite <-leb_or_gtb by auto. Qed.

Lemma short_prefix_spec (i : nat) :
  let n := short_prefix hp (drop i segs) in
  (∀ k s, (i <= k < i + n)%nat → segs !! k = Some s → advert s)
  ∧ (∀ s, segs !! (i + n)%nat = Some s → ¬ advert s) ∧ (i <= length segs → i + n <= length segs)%nat.
Proof.
  remember (drop i segs) as l eqn:El. revert i El. induction l as [|s l IH]; intros i El; simpl.
  - apply (f_equal length) in El. rewrite length_drop in El. simpl in El.
    split; [lia|]. split; [|lia]. intros s Hs. apply lookup_lt_Some in Hs. lia.
  - assert (segs !! i = Some s) as Hs by (rewrite <-(Nat.add_0_r i), <-lookup_drop, <-El; done).
    assert (l = drop (S i) segs) as El' by (rewrite <-Nat.add_1_r, <-drop_drop, <-El; done).
    destruct (f64_leb _ _) eqn:E.
    + destruct (IH (S i) El') as (H1 & H2 & H3). rewrite Nat.add_succ_r. split; [|split].
      * intros k s' Hk Hs'. destruct (decide (k = i)) as [->|]; [by simplify_eq|]. apply (H1 k); [lia|done].
      * intros s' Hs'. by apply H2.
      * apply lookup_lt_Some in Hs. lia.
    + rewrite Nat.add_0_r. split; [lia|]. split; [|done]. intros s' Hs'. simplify_eq. unfold advert. by rewrite E.
Qed.

(** The run that starts at a short segment whose left neighbour is not one. *)
Lemma run_unique i j j' : maximal_run i j → maximal_run i j' → j = j'.
Proof.
  intros (H1 & H2 & _ & H4) (H1' & H2' & _ & H4').
  destruct (lt_eq_lt_dec j j') as [[L|]|L]; [exfalso|done|exfalso].
  - destruct (lookup_lt_is_Some_2 segs (S j)) as [s Hs]; [lia|]. apply (H4 s Hs), (H2' (S j) s); [lia|done].
  - destruct (lookup_lt_is_Some_2 segs (S j')) as [s Hs]; [lia|]. apply (H4' s Hs), (H2 (S j') s); [lia|done].
Qed.

Definition later (p q : nat * nat) : Prop := (p.2 < q.1)%nat.
(** The pods from segment [i] on, each with its segments. *)
Definition pods_of (i : nat) (out : list CommercialBreak) : Prop :=
  ∃ ijs, Forall2 (λ p b, is_pod p.1 p.2 b) ijs out
    ∧ StronglySorted later ijs ∧ Forall (λ p, i <= p.1 <= p.2)%nat ijs
    ∧ ∀ i' j' b, (i <= i')%nat → is_pod i' j' b → (i', j') ∈ ijs.

Lemma pods_of_none i : (length segs <= i)%nat → pods_of i [].
Proof. intros Hi. exists []. split_and!; [constructor..|]. intros i' j' b Hii ((H & _) & _). lia. Qed.

Lemma pods_of_skip i s out : segs !! i = Some s → ¬ advert s → pods_of (S i) out → pods_of i out.
Proof.
  intros Hs Hn (ijs & H1 & H2 & H3 & H4). exists ijs. split_and!; [done..| |].
  - eapply Forall_impl; [exact H3|]. simpl. lia.
  - intros i' j' b Hi Hp. apply (H4 i' j' b); [|done]. destruct Hp as ((Hr & Ha & _) & _).
    destruct (decide (i' = i)) as [->|]; [|lia]. exfalso. apply Hn, (Ha i); [lia|done].
Qed.

(** No run starts inside another. *)
Lemma run_starts i j i' j' : maximal_run i j → maximal_run i' j' → (i <= i')%nat → i' = i ∨ (j < i')%nat.
Proof.
  intros (H1 & H2 & _ & _) (H1' & _ & H3' & _) Hi.
  destruct (decide (i' = i)); [by left|]. right. apply Nat.nle_gt. intros Hle.
  destruct (lookup_lt_is_Some_2 segs (i' - 1)) as [s Hs]; [lia|].
  apply (H3' s); [lia|done|]. apply (H2 (i' - 1)%nat); [lia|done].
Qed.

Lemma pods_of_run i j out :
  maximal_run i j → pods_of (S j) out → pods_of i match pod hp segs i j with Some b => b :: out | None => out end.
Proof.
  intros Hrun (ijs & H1 & H2 & H3 & H4).
  assert (Forall (λ p, i <= p.1 <= p.2)%nat ijs) as H3'.
  { eapply Forall_impl; [exact H3|]. simpl. destruct Hrun as [? _]. lia. }
  assert (∀ i' j' b, (i <= i')%nat → is_pod i' j' b → (i' = i ∧ j' = j ∧ pod hp segs i j = Some b) ∨ (i', j') ∈ ijs) as H5.
  { intros i' j' b Hi Hp. pose proof Hp as [Hr Hb]. destruct (run_starts i j i' j' Hrun Hr Hi) as [->|Hlt].
    - left. rewrite <-(run_unique i j j' Hrun Hr) in *. by rewrite pod_Some.
    - right. by apply (H4 i' j' b). }
  destruct (pod hp segs i j) as [b|] eqn:E.
  - exists ((i, j) :: ijs). split_and!.
    + constructor; [|done]. split; [done|]. by apply pod_Some.
    + constructor; [done|]. eapply Forall_impl; [exact H3|]. unfold later. simpl. lia.
    + constructor; [|done]. simpl. destruct Hrun as [? _]. lia.
    + intros i' j' b' Hi Hp. destruct (H5 i' j' b' Hi Hp) as [(-> & -> & _)|H]; [left|by right].
  - exists ijs. split_and!; [done..|]. intros i' j' b' Hi Hp. by destruct (H5 i' j' b' Hi Hp) as [(_ & _ & ?)|H].
Qed.

Lemma pods_spec fuel i :
  (length segs <= i + fuel)%nat →
  (∀ s s', (0 < i)%nat → segs !! (i - 1)%nat = Some s → segs !! i = Some s' → advert s' → ¬ advert s) →
  pods_of i (pods hp fuel segs i).
Proof.
  revert i. induction fuel as [|fuel IH]; intros i Hf Hl; cbn [pods]; [apply pods_of_none; lia|].
  destruct (segs !! i) as [s|] eqn:Hs; [|by apply pods_of_none, lookup_ge_None].
  pose proof (short_advert s (list_elem_of_lookup_2 _ _ _ Hs)) as Hsh.
  destruct (short hp s) eqn:Es; cbn [negb].
  2:{ assert (¬ advert s) as Hn by (rewrite <-Hsh; done). apply (pods_of_skip i s); [done..|].
    apply IH; [lia|]. intros s1 s2 _ H1 _ _. replace (S i - 1)%nat with i in H1 by lia. by simplify_eq. }
  destruct (short_prefix_spec (S i)) as (P1 & P2 & P3). set (j := (i + short_prefix hp (drop (S i) segs))%nat) in *.
  assert (i < length segs)%nat as Hi by (by apply lookup_lt_Some in Hs).
  apply pods_of_run.
  - split; [unfold j; lia|]. split; [|split].
    + intros k s' Hk Hs'. destruct (decide (k = i)) as [->|]; [simplify_eq; by apply Hsh|].
      apply (P1 k); [unfold j in Hk; lia|done].
    + intros s' H0 Hs'. apply (Hl s' s); [done..|by apply Hsh].
    + intros s' Hs'. apply P2. done.
  - apply IH; [unfold j; lia|]. intros s1 s2 _ _ H2 Ha. exfalso. by apply (P2 s2).
Qed.
End Pods.

(** C33: the built-in detector marks exactly the pods of the recording: maximal
    runs of segments no longer than an advert, with programme on both sides,
    enough adverts and a length within the bounds; in order, each once. *)
Theorem classify_breaks_pods (hp : HeuristicParams) (black silence : list timeSpan) (durationSec : float64) :
  f64_le0 durationSec = false → Seconds (MaxAdLen hp) ≠ S754_nan →
  match segments hp black silence durationSec with
  | None => classifyBreaks hp black silence durationSec = []
  | Some segs => (∀ s, s ∈ segs → segLen s ≠ S754_nan) →
      ∃ ijs, Forall2 (λ p b, is_pod hp segs p.1 p.2 b) ijs (classifyBreaks hp black silence durationSec)
        ∧ StronglySorted later ijs ∧ (∀ i j b, is_pod hp segs i j b → (i, j) ∈ ijs)
  end.
Proof.
  intros Hd Hm. unfold classifyBreaks. rewrite Hd. destruct (segments _ _ _ _) as [segs|]; [|done]. intros Hs.
  destruct (pods_spec hp segs Hs Hm (length segs) 0) as (ijs & H1 & H2 & _ & H4); [lia|intros; lia|].
  exists ijs. split_and!; [done..|]. intros i j b Hp. apply (H4 i j b); [lia|done].
Qed.

(** * Clamping *)
Definition covers (b : CommercialBreak) (t : Z) : Prop := StartMS b <= t < EndMS b.
Definition apart (a b : CommercialBreak) : Prop := EndMS a < StartMS b.
Definition moderate (b : CommercialBreak) : Prop := - 2 ^ 62 <= StartMS b < 2 ^ 62 ∧ - 2 ^ 62 <= EndMS b < 2 ^ 62.

Lemma merge_breaks_spec last l :
  StronglySorted break_le (last :: l) → Forall (λ b, StartMS b + 1000 <= EndMS b) (last :: l) →
  let out := merge_breaks last l in
  StronglySorted apart out ∧ Forall (λ b, StartMS last <= StartMS b ∧ StartMS b + 1000 <= EndMS b) out
  ∧ (∀ t, Exists (λ b, covers b t) out ↔ Exists (λ b, covers b t) (last :: l))
  ∧ ∀ M, Forall (λ b, EndMS b <= M) (last :: l) → Forall (λ b, EndMS b <= M) out.
Proof.
  revert last. induction l as [|b l IH]; intros last Hs Hl; cbn [merge_breaks].
  { split_and!; [by repeat constructor|constructor; [|done]|done|done]. apply Forall_cons in Hl as [? _]. lia. }
  apply StronglySorted_inv in Hs as [Hs H1]. apply Forall_cons in H1 as [H1 H2]. unfold break_le in H1.
  apply Forall_cons in Hl as [L1 Hl]. apply Forall_cons in Hl as [L2 Hl].
  pose proof (StronglySorted_inv Hs) as [Hs' H3].
  destruct (StartMS b <=? EndMS last) eqn:E; breflect.
  - set (x := mkBreak _ _).
    assert (StartMS x = StartMS last ∧ EndMS x = Z.max (EndMS last) (EndMS b)) as [Ex1 Ex2].
    { split; [done|]. simpl. bcase; breflect; lia. }
    destruct (IH x) as (P1 & P2 & P3 & P4).
    { constructor; [done|]. eapply Forall_impl; [exact H3|]. unfold break_le. intros y Hy. lia. }
    { constructor; [lia|done]. }
    split_and!; [done|by rewrite Ex1 in P2| |].
    + intros t. rewrite P3, !Exists_cons. unfold covers. rewrite Ex1, Ex2. clear -H1 E L1 L2. 
      split; [intros [?|?]|intros [?|[?|?]]]; auto; lia.
    + intros M HM. apply P4. apply Forall_cons in HM as [M1 HM]. apply Forall_cons in HM as [M2 HM].
      constructor; [lia|done].
  - destruct (IH b) as (P1 & P2 & P3 & P4); [done|by constructor|]. split_and!.
    + constructor; [done|]. eapply Forall_impl; [exact P2|]. unfold apart. simpl. lia.
    + constructor; [lia|]. eapply Forall_impl; [exact P2|]. simpl. lia.
    + intros t. by rewrite !(Exists_cons _ last), P3.
    + intros M HM. apply Forall_cons in HM as [M1 HM]. constructor; [done|by apply P4].
Qed.

Lemma clamp_spec durMS b :
  moderate b → - 2 ^ 62 <= durMS < 2 ^ 62 →
  (long_enough (clamp durMS b) = true ↔ StartMS (clamp durMS b) + 1000 <= EndMS (clamp durMS b))
  ∧ 0 <= StartMS (clamp durMS b) ∧ (0 < durMS → EndMS (clamp durMS b) <= durMS).
Proof.
  intros [Hb1 Hb2] Hd. unfold long_enough, clamp. simpl.
  rewrite wrap64_id by (unfold in_int64, int64_min, int64_max; repeat bcase; breflect; lia).
  split; [rewrite negb_true_iff, Z.ltb_ge; lia|]. repeat bcase; breflect; lia.
Qed.

Lemma break_le_sorted l : StronglySorted break_le (merge_sort break_le l).
Proof. apply StronglySorted_merge_sort; [intros a b c; unfold break_le; lia|intros a b; unfold break_le; lia]. Qed.

(** C34: clamping keeps exactly the time of the breaks that last at least one
    second inside the file; shorter ones are dropped, whatever they cover
    ([Witness.short_break_dropped]), not only the empty and inverted ones of the
    comment.  What is left is in order, apart, inside the file, and at least a
    second long each.  (Break times and the duration stay within 2^62 ms, clear
    of overflow.) *)
Theorem clamp_breaks_exact (input : list CommercialBreak) (durationSec : float64) :
  let durMS := int_of_f64 (f64_mul durationSec (f64_of_Z 1000)) in
  let out := clampBreaks input durationSec in
  Forall moderate input → - 2 ^ 62 <= durMS < 2 ^ 62 →
  StronglySorted apart out
  ∧ Forall (λ b, 0 <= StartMS b ∧ StartMS b + 1000 <= EndMS b ∧ (0 < durMS → EndMS b <= durMS)) out
  ∧ ∀ t, Exists (λ b, covers b t) out ↔
         Exists (λ b, covers (clamp durMS b) t ∧ StartMS (clamp durMS b) + 1000 <= EndMS (clamp durMS b)) input.
Proof.
  intros durMS out Hm Hd. unfold out, clampBreaks. fold durMS. rewrite Forall_forall in Hm.
  set (kept := List.filter long_enough (map (clamp durMS) input)).
  assert (∀ b, b ∈ merge_sort break_le kept ↔ ∃ a, a ∈ input ∧ b = clamp durMS a ∧ StartMS b + 1000 <= EndMS b) as Hk.
  { intros b. unfold kept. rewrite merge_sort_Permutation, elem_of_List_filter, list_elem_of_fmap. split.
    - intros [(a & -> & Ha) Hl]. exists a. split_and!; [done..|]. by apply (clamp_spec _ _ (Hm _ Ha) Hd).
    - intros (a & Ha & -> & Hl). split; [eauto|]. by apply (clamp_spec _ _ (Hm _ Ha) Hd). }
  assert (∀ t, Exists (λ b, covers b t) (merge_sort break_le kept) ↔
    Exists (λ b, covers (clamp durMS b) t ∧ StartMS (clamp durMS b) + 1000 <= EndMS (clamp durMS b)) input) as Ht.
  { intros t. rewrite !Exists_exists. split; [intros (b & Hb & Hc)|intros (a & Ha & Hc & Hl)].
    - apply Hk in Hb as (a & Ha & -> & Hl). eauto.
    - exists (clamp durMS a). split; [apply Hk; eauto|done]. }
  pose proof (break_le_sorted kept) as Hs. destruct (merge_sort break_le kept) as [|b l] eqn:E.
  { split_and!; [constructor..|]. intros t. by rewrite <-Ht. }
  assert (Forall (λ x, 0 <= StartMS x ∧ StartMS x + 1000 <= EndMS x ∧ (0 < durMS → EndMS x <= durMS)) (b :: l)) as Hall.
  { apply Forall_forall. intros x Hx. apply Hk in Hx as (a & Ha & -> & Hl).
    destruct (clamp_spec durMS a (Hm _ Ha) Hd) as (_ & ? & ?). done. }
  destruct (merge_breaks_spec b l Hs) as (P1 & P2 & P3 & P4); [eapply Forall_impl; [exact Hall|naive_solver]|].
  split_and!; [done| |intros t; by rewrite P3, Ht].
  apply Forall_cons in Hall as [[H0 _] Hall0].
  destruct (decide (0 < durMS)) as [Hpos|]; [|eapply Forall_impl; [exact P2|]; simpl; lia].
  assert (Forall (λ x, EndMS x <= durMS) (merge_breaks b l)) as P5.
  { apply P4. apply Forall_forall. intros x Hx. apply Hk in Hx as (a & Ha & -> & _). by apply (clamp_spec durMS a (Hm _ Ha) Hd). }
  rewrite Forall_forall in *. intros x Hx. specialize (P2 x Hx). specialize (P5 x Hx). simpl in *. lia.
Qed.

Module Witness.
Definition hp := DefaultHeuristicParams.
Definition segs_ex : list timeSpan :=
  Eval vm_compute in default [] (segments hp (fst Sample.spans) (snd Sample.spans) (f64_of_Z 600)).
Lemma segs_ex_eq : segments hp (fst Sample.spans) (snd Sample.spans) (f64_of_Z 600) = Some segs_ex.
Proof. vm_compute. reflexivity. Qed.
Lemma segs_ex_numbers : forallb (λ s, match segLen s with S754_nan => false | _ => true end) segs_ex = true.
Proof. vm_compute. reflexivity. Qed.

Lemma classify_breaks_pods_witness :
  ∃ ijs, Forall2 (λ p b, is_pod hp segs_ex p.1 p.2 b) ijs
           (classifyBreaks hp (fst Sample.spans) (snd Sample.spans) (f64_of_Z 600)).
Proof.
  pose proof (classify_breaks_pods hp (fst Sample.spans) (snd Sample.spans) (f64_of_Z 600)) as H.
  rewrite segs_ex_eq in H. destruct H as (ijs & H1 & _); [vm_compute; reflexivity|vm_compute; discriminate| |by exists ijs].
  intros s Hin Hn. pose proof segs_ex_numbers as Hs. rewrite forallb_Forall_iff, Forall_forall in Hs.
  specialize (Hs s Hin). by rewrite Hn in Hs.
Defined.

Example short_break_dropped :
  clampBreaks [mkBreak 5000 5999; mkBreak 7000 8000; mkBreak (-500) 900] (f64_of_Z 600) = [mkBreak 7000 8000].
Proof. vm_compute. reflexivity. Qed.

Definition edl : list CommercialBreak := [mkBreak 19000 30250; mkBreak (-5) 20000; mkBreak 590000 700000].
Lemma clamp_breaks_exact_witness :
  clampBreaks edl (f64_of_Z 600) = [mkBreak 0 30250; mkBreak 590000 600000]
  ∧ StronglySorted apart (clampBreaks edl (f64_of_Z 600)).
Proof.
  split; [vm_compute; reflexivity|].
  refine (proj1 (clamp_breaks_exact edl (f64_of_Z 600) _ _)); [|vm_compute; split; congruence].
  repeat constructor; unfold moderate; simpl; lia.
Defined.
End Witness.
