(* ===== verification/DVRPostprocess.v ===== *)
(** Post-processing of recordings: [internal/livetv/dvr_postprocess.go] and
    [dvr_ffmpeg.go], the store of [cmd/server/adapter_dvr_postprocess.go] and
    the statements of [dvr_postprocess.sql].

    A job is a program of steps on files and tables.  Each step may fail, with
    or without its effect, and the process may die before any of them.  ffmpeg
    writes anything it likes to its output, comskip prints and the script does
    what it likes: these are part of a step's [Turn].  What ffprobe reads from a
    file's bytes is the parameter [ffprobe].  Paths are absolute. *)
From Stdlib Require Import SpecFloat.
From S2P Require Import Prelude.
From S2P Require Import GoStrings.
From S2P Require Import GoBytes.
From S2P Require Import GoFloat.
From S2P Require Import GoPath.
From S2P Require Import Concat.
From S2P Require Import DVRSchedule.
From S2P Require Import DVRWorker.
From S2P Require Import DVRCommercials.

Local Open Scope Z_scope.

(** * Settings, jobs and tables *)
Inductive JobKind := PostProcessFull | PostProcessDetect.
Inductive JobStatus := PostProcessQueued | PostProcessProcessing | PostProcessProcessed | PostProcessFailed.
#[global] Instance JobKind_eq_dec : EqDecision JobKind.
Proof. solve_decision. Defined.
#[global] Instance JobStatus_eq_dec : EqDecision JobStatus.
Proof. solve_decision. Defined.

Record PostProcessSettings := mkSettings {
  Remux : bool; Container : string; Transcode : bool; Codec : string; Quality : string; DeleteOriginal : bool;
  Commercials : string }.
Definition rewrites (s : PostProcessSettings) : bool := Remux s || Transcode s.

Record Config := mkConfig {
  ScriptPath : string; ComskipPath : string; ComskipINI : string;
  Settings : PostProcessSettings; Encoders : list string; Heuristic : HeuristicParams }.

Record Job := mkJob {
  j_Kind : JobKind; j_Status : JobStatus; j_Message : option string; j_Original : option string; j_Queued : Z }.
#[global] Instance Job_eta : Eta Job := λ j, mkJob (j_Kind j) (j_Status j) (j_Message j) (j_Original j) (j_Queued j).

(** A row of [media_files]; 0 is the nil ID. *)
Record FileRow := mkRow {
  mf_path : string; mf_size : Z; mf_container : option string; mf_video : option string; mf_audio : option string;
  mf_ms : option Z; mf_hash : option string; mf_active : bool; mf_missing : option Z }.

Record mediaInfo := mkInfo {
  DurationSec : float64; FormatName : string; VideoCodec : string; AudioCodec : string; HasVideo : bool; HasAudio : bool }.
(** ffprobe's JSON, decoded: streams as type and codec. *)
Record RawProbe := mkRaw { raw_streams : list (string * string); raw_duration : string; raw_format : string }.

Inductive node := Dir_ | Reg (data : string).
#[global] Instance node_eq_dec : EqDecision node.
Proof. solve_decision. Defined.

Record World := mkWorld {
  fs : gmap string node; recordings : list Recording; media_files : gmap N FileRow; jobs : gmap nat Job;
  markers : gmap N (list (CommercialBreak * string)) }.
#[global] Instance World_eta : Eta World := λ w, mkWorld (fs w) (recordings w) (media_files w) (jobs w) (markers w).

Record SwapFileParams := mkSwap {
  sw_Recording : nat; sw_File : N; sw_Path : string; sw_Size : Z; sw_Container : string; sw_Video : string;
  sw_Audio : string; sw_MS : Z; sw_Original : option string }.

(** * ffprobe and the check of an output *)
Definition first_of (kind : string) (l : list (string * string)) : option string :=
  snd <$> find_first (λ s, String.eqb s.1 kind) l.
Definition parseProbe (r : RawProbe) : mediaInfo :=
  let v := first_of "video" (raw_streams r) in
  let a := first_of "audio" (raw_streams r) in
  mkInfo
    match ParseFloat (raw_duration r) with
    | Some d => match d with S754_nan => f64_zero | _ => d end
    | None => f64_zero
    end
    match Cut (raw_format r) "," with Some (x, _) => x | None => raw_format r end
    (default "" v) (default "" a) (bool_decide (is_Some v)) (bool_decide (is_Some a)).

(** [fmt]'s [%.nf] of a finite number. *)
Definition Fixed (prec : nat) (x : float64) : string :=
  match x with
  | S754_finite s m e =>
      let p := 10 ^ Z.of_nat prec in
      let n := if 0 <=? e then Z.pos m * p * 2 ^ e else round_even (Z.pos m * p) (- e) in
      let frac := Itoa (n `mod` p) in
      (if s then "-" else "") +:+ Itoa (n `div` p) +:+ "." +:+ Repeat "0" (prec - String.length frac) +:+ frac
  | S754_zero s => (if s then "-" else "") +:+ "0." +:+ Repeat "0" prec
  | S754_infinity s => if s then "-Inf" else "+Inf"
  | S754_nan => "NaN"
  end.

Definition f64_abs (x : float64) : float64 :=
  match x with
  | S754_zero _ => S754_zero false | S754_infinity _ => S754_infinity false
  | S754_finite _ m e => S754_finite false m e | S754_nan => S754_nan
  end.
(** The double nearest to 0.02. *)
Definition durationTolerance : float64 := f64_div (f64_of_Z 2) (f64_of_Z 100).

(** [None] is no error. *)
Definition verifyOutput (src out : mediaInfo) (expectedSec : float64) : option string :=
  if f64_le0 (DurationSec out) then Some "output has no duration"
  else if f64_gt0 expectedSec
          && f64_ltb (f64_mul expectedSec durationTolerance) (f64_abs (f64_sub (DurationSec out) expectedSec))
  then Some ("output runs " +:+ Fixed 1 (DurationSec out) +:+ "s, expected " +:+ Fixed 1 expectedSec +:+ "s")
  else if HasVideo src && negb (HasVideo out) then Some "output lost its video stream"
  else if HasAudio src && negb (HasAudio out) then Some "output lost its audio stream"
  else None.

(** * Command lines *)
Definition partSuffix : string := ".part".
Definition TrimSuffix (s suf : string) : string :=
  match CutPrefix (srev s) (srev suf) with Some r => srev r | None => s end.
Definition inputFormatFor (path : string) : string :=
  let e := ToLower (Ext (TrimSuffix path partSuffix)) in
  if mem e [".mp4"; ".m4v"; ".mov"] then "mov"
  else if mem e [".mkv"] then "matroska"
  else if mem e [".ts"; ".m2ts"] then "mpegts" else "".
Definition inputArgs (path : string) : list string :=
  (if String.eqb (inputFormatFor path) "" then [] else ["-f"; inputFormatFor path])
  ++ InputProtocolArgs path ++ ["-i"; path].

Definition containerFormat (c : string) : string * string :=
  if String.eqb c "mp4" then ("mp4", ".mp4") else ("matroska", ".mkv").
Definition outputArgs (container out : string) : list string :=
  let muxer := fst (containerFormat container) in
  ["-avoid_negative_ts"; "make_zero"] ++ (if String.eqb muxer "mp4" then ["-movflags"; "+faststart"] else [])
  ++ ["-f"; muxer; out].
Definition quiet : list string := ["-nostdin"; "-hide_banner"; "-loglevel"; "error"; "-y"].
Definition stream_maps : list string := ["-map"; "0:v:0"; "-map"; "0:a?"; "-dn"; "-sn"].
Definition remuxArgs (src out container : string) : list string :=
  quiet ++ ["-fflags"; "+genpts"] ++ inputArgs src ++ stream_maps ++ ["-c"; "copy"] ++ outputArgs container out.

Definition crfFor (codec quality : string) : Z :=
  let base := if String.eqb quality "high" then 20 else if String.eqb quality "small" then 26 else 23 in
  if String.eqb codec "hevc" then base + 2 else base.
Definition softwareEncoder (codec : string) : string := if String.eqb codec "hevc" then "libx265" else "libx264".
Definition encoderCandidates (codec : string) (active : list string) : list string :=
  let prefix := if String.eqb codec "hevc" then "hevc_" else "h264_" in
  List.filter (λ e, match CutPrefix e prefix with
                    | Some kind => negb (HasSuffix e "_vaapi") && mem kind ["nvenc"; "qsv"; "amf"]
                    | None => false
                    end) active ++ [softwareEncoder codec].
Definition videoEncodeArgs (enc codec quality : string) : list string :=
  let q := Itoa (crfFor codec quality) in
  if HasSuffix enc "_nvenc" then
    ["-c:v"; enc; "-preset"; "p5"; "-rc"; "vbr"; "-cq"; q; "-b:v"; "0"; "-pix_fmt"; "yuv420p"]
  else if HasSuffix enc "_qsv" then
    ["-c:v"; enc; "-preset"; "medium"; "-global_quality"; q; "-pix_fmt"; "nv12"]
  else if HasSuffix enc "_amf" then
    ["-c:v"; enc; "-quality"; "balanced"; "-rc"; "cqp"; "-qp_i"; q; "-qp_p"; q]
    ++ (if String.eqb codec "h264" then ["-qp_b"; q] else []) ++ ["-pix_fmt"; "yuv420p"]
  else ["-c:v"; enc; "-preset"; "medium"; "-crf"; q; "-pix_fmt"; "yuv420p"].
Definition transcodeArgs (src out container enc codec quality : string) : list string :=
  quiet ++ ["-fflags"; "+genpts"] ++ inputArgs src ++ stream_maps ++ ["-vf"; "bwdif=mode=send_frame:deint=interlaced"]
  ++ videoEncodeArgs enc codec quality
  ++ (if String.eqb (fst (containerFormat container)) "mp4" && String.eqb codec "hevc" then ["-tag:v"; "hvc1"] else [])
  ++ ["-c:a"; "copy"] ++ outputArgs container out.
Definition cutArgs (parts : list ConcatPart) (listPath out container : string) : list string :=
  quiet ++ ConcatInputArgs parts ++ ["-i"; listPath] ++ stream_maps ++ ["-c"; "copy"] ++ outputArgs container out.

(** The last line a program wrote, to 300 bytes, of the 64 KiB that are kept. *)
Definition take_bytes (n : nat) (s : string) : string := String.substring 0 n s.
Definition lastLine (s : string) : string :=
  let l := TrimSpace (default "" (last (Split (TrimSpace s) lf))) in
  if 300 <? slen l then take_bytes 300 l else l.
Definition capped (s : string) : string := take_bytes 65536 s.

(** * Steps *)
Inductive stat := StFile (size : Z) | StDir | StNone.
Inductive exit_code := ExitOK | ExitCode (n : Z) (msg : string) | NotRun (msg : string).
(** What a run of comskip left: how it ended, what it printed, and the two lists
    it may have written. *)
Record Comskip := mkComskip { cs_exit : exit_code; cs_out : string; cs_edl : option string; cs_txt : option string }.

Inductive step :=
  | Stat (p : string) | Rename (from to : string) | Remove (p : string) | MkdirAll (p : string)
  | NewUUID | CtxErr
  | RunFFmpeg (args : list string) | ProbeMedia (p : string) | RunDetect (p : string) | RunComskip (ini p : string)
  | WriteList (text : string) | RunScript (script p : string)
  | QRecording (id : nat) | QJob (id : nat) | QEnqueue (id : nat) (k : JobKind) | QClaim
  | QMessage (id : nat) (msg : string) | QFinish (id : nat) (st : JobStatus) (msg : string) | QFailInterrupted
  | QFileID (path : string) | QSwap (p : SwapFileParams)
  | QMarkers (file : N) (source : string) (breaks : list CommercialBreak).

Definition answer (s : step) : Type :=
  match s with
  | Stat _ => stat
  | NewUUID | RunDetect _ | WriteList _ => string
  | CtxErr => option string
  | ProbeMedia _ => mediaInfo
  | RunComskip _ _ => Comskip
  | QRecording _ => Recording
  | QJob _ => option Job
  | QEnqueue _ _ => bool
  | QClaim => option (nat * Job)
  | QFailInterrupted => Z
  | QFileID _ => N
  | _ => unit
  end.

(** Go's [value, error]. *)
Inductive result (A : Type) := Ok (a : A) | Err (msg : string).
#[global] Arguments Ok {A} a.
#[global] Arguments Err {A} msg.

(** Whether a step takes effect and whether it says so. *)
Inductive outage := Up | Lost (* the effect, and an error *) | Down (* no effect, an error *).
Record Turn := mkTurn {
  t_outage : outage; t_err : string; t_now : Z;
  t_exit : bool;                 (* of ffmpeg and the script *)
  t_output : option string;      (* what ffmpeg left at its output *)
  t_text : string;               (* what a program printed; the name of a temporary list *)
  t_uuid : string;
  t_ctx : option string;         (* the error of the context *)
  t_comskip : Comskip;
  t_files : gmap string node     (* the files after the script *)
}.

Section Process.
Variable ffprobe : string → option RawProbe.

Definition put_file (p x : string) (w : World) : World :=
  match fs w !! p with Some Dir_ => w | _ => w <| fs := <[p := Reg x]> (fs w) |> end.

Definition file_id (path : string) (w : World) : N :=
  match find_first (λ r : N * FileRow, String.eqb (mf_path r.2) path) (map_to_list (media_files w)) with
  | Some (id, _) => id
  | None => 0%N
  end.
Definition set_path (path : string) (r : Recording) : Recording := r <| R_FilePath := Some path |>.
Definition non_empty (s : string) : option string := if String.eqb s "" then None else Some s.
Definition coalesce {A} (new old : option A) : option A := match new with Some _ => new | None => old end.

(** [RepointMediaFile] *)
Definition repoint (p : SwapFileParams) (r : FileRow) : FileRow :=
  mkRow (sw_Path p) (sw_Size p) (non_empty (sw_Container p)) (coalesce (non_empty (sw_Video p)) (mf_video r))
    (coalesce (non_empty (sw_Audio p)) (mf_audio r))
    (coalesce (if 0 <? sw_MS p then Some (sw_MS p) else None) (mf_ms r)) None true None.
(** The path of a file is unique. *)
Definition path_taken (id : N) (path : string) (w : World) : bool :=
  existsb (λ r : N * FileRow, negb (N.eqb r.1 id) && String.eqb (mf_path r.2) path) (map_to_list (media_files w)).

(** [SwapRecordingFile]: one transaction. *)
Definition swap (p : SwapFileParams) (w : World) : World * result unit :=
  let w1 := w <| recordings ::= update (sw_Recording p) (set_path (sw_Path p)) |> in
  let w2 := w1 <| jobs ::= alter (λ j, j <| j_Original := sw_Original p |>) (sw_Recording p) |> in
  if N.eqb (sw_File p) 0 then (w2, Ok ())
  else match media_files w !! sw_File p with
       | None => (w, Err "media file row disappeared")
       | Some r =>
           if path_taken (sw_File p) (sw_Path p) w then (w, Err "media file path: duplicate key")
           else (w2 <| media_files ::= <[sw_File p := repoint p r]> |>, Ok ())
       end.

Definition busy (j : Job) : bool := mem (j_Status j) [PostProcessQueued; PostProcessProcessing].
Definition enqueue (id : nat) (k : JobKind) (now : Z) (w : World) : World * result bool :=
  match GetRecording id (recordings w) with
  | None => (w, Err "foreign key")
  | Some _ =>
      match jobs w !! id with
      | Some j =>
          if busy j then (w, Ok false)
          else (w <| jobs ::= <[id := mkJob k PostProcessQueued None (j_Original j) now]> |>, Ok true)
      | None => (w <| jobs ::= <[id := mkJob k PostProcessQueued None None now]> |>, Ok true)
      end
  end.
Definition queued_first (a b : nat * Job) : Prop := j_Queued a.2 <= j_Queued b.2.
#[global] Instance queued_first_dec : RelDecision queued_first.
Proof. intros a b. unfold queued_first. apply _. Defined.
Definition next_queued (w : World) : option (nat * Job) :=
  head (merge_sort queued_first
    (List.filter (λ r : nat * Job, bool_decide (j_Status r.2 = PostProcessQueued)) (map_to_list (jobs w)))).
Definition claim (w : World) : World * option (nat * Job) :=
  match next_queued w with
  | None => (w, None)
  | Some (id, j) =>
      let j' := j <| j_Status := PostProcessProcessing |> in
      (w <| jobs ::= <[id := j']> |>, Some (id, j'))
  end.
Definition fail_interrupted (j : Job) : Job :=
  if bool_decide (j_Status j = PostProcessProcessing)
  then j <| j_Status := PostProcessFailed |> <| j_Message := Some "interrupted by server restart" |> else j.

(** The constraints of [commercial_markers]. *)
Definition marker_ok (b : CommercialBreak) : bool := (0 <=? StartMS b) && (StartMS b <? EndMS b).
Definition replace_markers (file : N) (source : string) (breaks : list CommercialBreak) (w : World) : World * result unit :=
  if bool_decide (breaks = []) then (w <| markers ::= delete file |>, Ok ())
  else if negb (forallb marker_ok breaks) || negb (bool_decide (is_Some (media_files w !! file))) then (w, Err "constraint")
  else (w <| markers ::= <[file := map (λ b, (b, source)) breaks]> |>, Ok ()).

(** What a step does when nothing is in its way. *)
Definition effect (s : step) (t : Turn) (w : World) : World * result (answer s) :=
  match s return World * result (answer s) with
  | Stat p => (w, Ok match fs w !! p with Some (Reg x) => StFile (slen x) | Some Dir_ => StDir | None => StNone end)
  | Rename a b =>
      match fs w !! a, fs w !! b with
      | Some (Reg x), Some Dir_ => (w, Err "file exists")
      | Some (Reg x), _ => (w <| fs := <[b := Reg x]> (delete a (fs w)) |>, Ok ())
      | _, _ => (w, Err "no such file")
      end
  | Remove p =>
      match fs w !! p with
      | Some (Reg _) => (w <| fs ::= delete p |>, Ok ())
      | _ => (w, Err "no such file")
      end
  | MkdirAll p =>
      match fs w !! p with
      | Some (Reg _) => (w, Err "not a directory")
      | _ => (w <| fs ::= <[p := Dir_]> |>, Ok ())
      end
  | NewUUID => (w, Ok (t_uuid t))
  | CtxErr => (w, Ok (t_ctx t))
  | RunFFmpeg args =>
      (match last args, t_output t with Some out, Some x => put_file out x w | _, _ => w end,
       if t_exit t then Ok ()
       else Err match t_ctx t with Some e => e | None => "ffmpeg: " +:+ t_err t +:+ ": " +:+ lastLine (capped (t_text t)) end)
  | ProbeMedia p =>
      (w, match fs w !! p with
          | Some (Reg x) => match ffprobe x with Some r => Ok (parseProbe r) | None => Err "ffprobe" end
          | _ => Err "ffprobe"
          end)
  | RunDetect _ => (w, if t_exit t then Ok (t_text t) else Err ("detect run: " +:+ t_err t))
  | RunComskip _ _ => (w, Ok (t_comskip t))
  | WriteList _ => (w, Ok (t_text t))
  | RunScript _ _ => (w <| fs := t_files t |>, if t_exit t then Ok () else Err (t_err t))
  | QRecording id => (w, match GetRecording id (recordings w) with Some r => Ok r | None => Err "no rows" end)
  | QJob id => (w, Ok (jobs w !! id))
  | QEnqueue id k => enqueue id k (t_now t) w
  | QClaim => let '(w', r) := claim w in (w', Ok r)
  | QMessage id msg => (w <| jobs ::= alter (λ j, j <| j_Message := Some msg |>) id |>, Ok ())
  | QFinish id st msg =>
      (w <| jobs ::= alter (λ j, j <| j_Status := st |> <| j_Message := non_empty msg |>) id |>, Ok ())
  | QFailInterrupted =>
      (w <| jobs ::= fmap fail_interrupted |>,
       Ok (Z.of_nat (length (List.filter (λ r : nat * Job, bool_decide (j_Status r.2 = PostProcessProcessing))
                               (map_to_list (jobs w))))))
  | QFileID path => (w, Ok (file_id path w))
  | QSwap p => swap p w
  | QMarkers f src bs => replace_markers f src bs w
  end.

(** Steps whose failures are in their turn already. *)
Definition sheltered (s : step) : bool := match s with NewUUID | CtxErr | RunFFmpeg _ => true | _ => false end.
Definition perform (s : step) (t : Turn) (w : World) : World * result (answer s) :=
  if sheltered s then effect s t w
  else match t_outage t with
  | Up => effect s t w
  | Lost => ((effect s t w).1, Err (t_err t))
  | Down => (w, Err (t_err t))
  end.

(** * Programs *)
Inductive prog (A : Type) := Ret (a : A) | Do (s : step) (k : result (answer s) → prog A).
#[global] Arguments Ret {A} a.
#[global] Arguments Do {A} s k.
Fixpoint bind {A B} (p : prog A) (f : A → prog B) : prog B :=
  match p with Ret a => f a | Do s k => Do s (λ r, bind (k r) f) end.

(** A run: what each step did and the world it found; [None] when the process
    died before the end, that is when the turns ran out. *)
Fixpoint run {A} (p : prog A) (ts : list Turn) (w : World) : option A * World * list (step * World) :=
  match p, ts with
  | Ret a, _ => (Some a, w, [])
  | _, [] => (None, w, [])
  | Do s k, t :: ts =>
      let '(w', r) := perform s t w in
      let '(a, w2, tr) := run (k r) ts w' in (a, w2, (s, w) :: tr)
  end.
End Process.
Notation "'let!' x := c 'in' k" := (Do c (λ x, k))
  (at level 200, x pattern, c at level 100, k at level 200, right associativity).
Notation "'let*' x := p 'in' k" := (bind p (λ x, k))
  (at level 200, x pattern, p at level 100, k at level 200, right associativity).

(** * The job *)
Definition plural (n : Z) (noun : string) : string :=
  if n =? 1 then "1 " +:+ noun else Itoa n +:+ " " +:+ noun +:+ "s".
Definition breaksNote (n : Z) (verb : string) : string :=
  if n =? 0 then "no commercials found" else plural n "commercial break" +:+ " " +:+ verb.
Definition containerLabel (c : string) : string := if String.eqb c "mp4" then "MP4" else "MKV".
Definition codecLabel (c : string) : string := if String.eqb c "hevc" then "HEVC" else "H.264".
(** [Duration.Round(time.Second)] and [Duration.String] of whole seconds. *)
Definition round_second (d : Z) : Z :=
  let q := Z.abs d + 500000000 in (if d <? 0 then -1 else 1) * (q / second).
Definition seconds_string (n : Z) : string :=
  let a := Z.abs n in
  (if n <? 0 then "-" else "") +:+ (if 3600 <=? a then Itoa (a / 3600) +:+ "h" else "")
  +:+ (if 60 <=? a then Itoa (a / 60 `mod` 60) +:+ "m" else "") +:+ Itoa (a `mod` 60) +:+ "s".
Definition fmtDuration (sec : float64) : string :=
  seconds_string (round_second (int_of_f64 (f64_mul sec (f64_of_Z second)))).

Definition stem (src : string) : string := TrimSuffix (Base src) (Ext src).
Definition tempPath (src step container : string) : string :=
  JoinPath (Dir src) ("." +:+ stem src +:+ ".onscreen-" +:+ step +:+ snd (containerFormat container) +:+ partSuffix).
Definition OriginalsDirName : string := ".dvr-originals".

Definition numbered (path : string) (i : string) : string :=
  TrimSuffix path (Ext path) +:+ " (" +:+ i +:+ ")" +:+ Ext path.
Fixpoint try_numbers (n : nat) (i : Z) (path : string) : prog string :=
  match n with
  | O => let! u := NewUUID in Ret (numbered path (take_bytes 8 match u with Ok u => u | Err _ => "" end))
  | S n =>
      let! r := Stat (numbered path (Itoa i)) in
      match r with Ok StNone => Ret (numbered path (Itoa i)) | _ => try_numbers n (i + 1) path end
  end.
Definition uniquePath (path : string) : prog string :=
  let! r := Stat path in
  match r with Ok StNone => Ret path | _ => try_numbers 998 2 path end.

Section Job.
Variable cfg : Config.

Definition progress (id : nat) (msg : string) : prog () := let! _ := QMessage id msg in Ret ().

(** ** Commercials *)
Definition runComskip (path : string) (durationSec : float64) : prog (string + list CommercialBreak) :=
  let! r := RunComskip (ComskipINI cfg) path in
  Ret match r with
      | Err e => inl e
      | Ok c =>
          let read (ok : bool) :=
            match cs_edl c with
            | Some b => inr (clampBreaks (parseEDL b) durationSec)
            | None =>
                match cs_txt c with
                | Some b => match parseComskipTxt b with
                            | Some breaks => inr (clampBreaks breaks durationSec)
                            | None => inl "comskip .txt has no frame-rate header"
                            end
                | None => if ok then inl "comskip wrote neither an .edl nor a .txt file (check output_edl / output_txt in the ini)"
                          else inr []
                end
            end in
          let failed msg := inl ("comskip: " +:+ msg +:+ ": " +:+ lastLine (capped (cs_out c))) in
          match cs_exit c with
          | ExitOK => read true
          | ExitCode n msg => if n =? 1 then read false else failed msg
          | NotRun msg => failed msg
          end
      end.
Definition heuristicCommercials (path : string) (info : mediaInfo) : prog (string + list CommercialBreak) :=
  if negb (HasVideo info) || negb (HasAudio info) || f64_le0 (DurationSec info) then Ret (inr [])
  else let! r := RunDetect path in
       Ret match r with
           | Err e => inl e
           | Ok stderr =>
               let '(black, silence) := parseDetectOutput stderr (DurationSec info) in
               inr (classifyBreaks (Heuristic cfg) black silence (DurationSec info))
           end.
Definition detectCommercials (path : string) (info : mediaInfo) : prog (string + list CommercialBreak * string) :=
  if negb (String.eqb (ComskipPath cfg) "") then
    let* r := runComskip path (DurationSec info) in
    Ret match r with inl e => inl e | inr b => inr (b, CommercialSourceComskip) end
  else
    let* r := heuristicCommercials path info in
    Ret match r with inl e => inl e | inr b => inr (b, CommercialSourceHeuristic) end.

Definition processDetect (id : nat) (src : string) (info : mediaInfo) (file : N) : prog (JobStatus * string) :=
  if N.eqb file 0 then Ret (PostProcessFailed, "recording has no library item to attach commercial markers to")
  else
    let* _ := progress id "Detecting commercials" in
    let* r := detectCommercials src info in
    match r with
    | inl e => Ret (PostProcessFailed, "commercial detection failed: " +:+ e)
    | inr (breaks, source) =>
        let! m := QMarkers file source breaks in
        Ret match m with
            | Err e => (PostProcessFailed, "save commercial markers: " +:+ e)
            | Ok _ => (PostProcessProcessed, breaksNote (len breaks) "marked")
            end
    end.

(** ** Rewriting *)
Fixpoint try_encoders (id : nat) (src out : string) (set : PostProcessSettings) (codec : string)
    (encs : list string) (lastErr : string) : prog (string + string) :=
  match encs with
  | [] => Ret (inl ("transcode failed: " +:+ lastErr))
  | enc :: encs =>
      let* _ := progress id ("Transcoding to " +:+ codecLabel codec +:+ " (" +:+ enc +:+ ")") in
      let! r := RunFFmpeg (transcodeArgs src out (Container set) enc codec (Quality set)) in
      match r with
      | Ok _ => Ret (inr ("transcoded to " +:+ codecLabel codec +:+ " " +:+ containerLabel (Container set) +:+ " with " +:+ enc))
      | Err e =>
          let! c := CtxErr in
          match c with
          | Ok (Some e) => Ret (inl e)
          | _ => let! _ := Remove out in try_encoders id src out set codec encs e
          end
      end
  end.
Definition rewrite (id : nat) (src out : string) (set : PostProcessSettings) (srcInfo : mediaInfo) : prog (string + string) :=
  let label := containerLabel (Container set) in
  if negb (Transcode set) then
    let* _ := progress id ("Remuxing to " +:+ label) in
    let! r := RunFFmpeg (remuxArgs src out (Container set)) in
    Ret match r with Ok _ => inr ("remuxed to " +:+ label) | Err e => inl ("remux failed: " +:+ e) end
  else
    let codec := if String.eqb (Codec set) "hevc" then "hevc" else "h264" in
    if negb (HasVideo srcInfo) then Ret (inl "transcode failed: the recording has no video")
    else try_encoders id src out set codec (encoderCandidates codec (Encoders cfg)) "".

(** The file left and what was read from it, or the error. *)
Definition probe_and_verify (from : mediaInfo) (out : string) (expectedSec : float64) : prog (string + mediaInfo) :=
  let! r := ProbeMedia out in
  Ret match r with
      | Err e => inl e
      | Ok info => match verifyOutput from info expectedSec with Some e => inl e | None => inr info end
      end.

Definition span_sum (keep : list timeSpan) : float64 :=
  fold_left (λ a k, f64_add a (f64_sub (end_ k) (start k))) keep f64_zero.
Definition cut_parts (work : string) (keep : list timeSpan) : list ConcatPart :=
  map (λ k, mkPart (Clean work) f64_zero (start k) (end_ k)) keep.
(** The temporary file, when one was begun, and the outcome. *)
Definition cut (id : nat) (src work : string) (info : mediaInfo) (breaks : list CommercialBreak) (container : string)
    : prog (option string * (string + mediaInfo * float64)) :=
  match keepSegments breaks (DurationSec info) with
  | [] => Ret (None, inl "nothing would be left")
  | keep =>
      let* _ := progress id "Cutting commercials" in
      match WriteConcatList (cut_parts work keep) with
      | None => Ret (None, inl "concat list refused")
      | Some text =>
          let! l := WriteList text in
          match l with
          | Err e => Ret (None, inl e)
          | Ok listPath =>
              let out := tempPath src "cut" container in
              let! r := RunFFmpeg (cutArgs (cut_parts work keep) listPath out container) in
              match r with
              | Err e => Ret (Some out, inl ("cut failed: " +:+ e))
              | Ok _ =>
                  let* v := probe_and_verify info out (span_sum keep) in
                  Ret (Some out, match v with
                                 | inl e => inl ("cut file failed verification: " +:+ e)
                                 | inr i => inr (i, f64_sub (DurationSec info) (span_sum keep))
                                 end)
              end
          end
      end
  end.

(** ** Swapping the result in *)
Definition final_name (src container : string) : string :=
  TrimSuffix src (Ext src) +:+ snd (containerFormat container).
Definition restoreOriginal (src : string) (keptAt : option string) : prog () :=
  match keptAt with Some k => let! _ := Rename k src in Ret () | None => Ret () end.
Definition move_aside (src : string) (set : PostProcessSettings) : prog (string + option string) :=
  if DeleteOriginal set then Ret (inr None)
  else
    let dir := JoinPath (Dir src) OriginalsDirName in
    let! d := MkdirAll dir in
    match d with
    | Err e => Ret (inl ("originals folder: " +:+ e))
    | Ok _ =>
        let* keptAt := uniquePath (JoinPath dir (Base src)) in
        let! r := Rename src keptAt in
        Ret match r with Err e => inl ("move capture aside: " +:+ e) | Ok _ => inr (Some keptAt) end
    end.
Definition swap_params (id : nat) (file : N) (final : string) (size : Z) (info : mediaInfo) (keptAt : option string)
    : SwapFileParams :=
  mkSwap id file final size (FormatName info) (VideoCodec info) (AudioCodec info)
    (int_of_f64 (f64_mul (DurationSec info) (f64_of_Z 1000))) keptAt.
Definition drop_original (src final : string) (set : PostProcessSettings) : prog () :=
  if DeleteOriginal set && negb (String.eqb final src) then let! _ := Remove src in Ret () else Ret ().
Definition swap_in (id : nat) (src work final : string) (file : N) (set : PostProcessSettings) (info : mediaInfo)
    (keptAt : option string) : prog (string + string) :=
  let! r := Rename work final in
  match r with
  | Err e =>
      let* _ := restoreOriginal src keptAt in
      Ret (inl ("move processed file into place: " +:+ e))
  | Ok _ =>
      let! s := Stat final in
      match s with
      | Err e => Ret (inl ("stat processed file: " +:+ e))
      | Ok StNone => Ret (inl "stat processed file: no such file")
      | Ok st =>
          let size := match st with StFile n => n | _ => 0 end in
          let! u := QSwap (swap_params id file final size info keptAt) in
          match u with
          | Err e =>
              if String.eqb final src then Ret (inl ("update database: " +:+ e))
              else
                let! _ := Rename final work in
                let* _ := restoreOriginal src keptAt in
                Ret (inl ("update database: " +:+ e))
          | Ok _ => let* _ := drop_original src final set in Ret (inr final)
          end
      end
  end.
Definition commit (id : nat) (src work : string) (file : N) (set : PostProcessSettings) (info : mediaInfo)
    : prog (string + string) :=
  let name := final_name src (Container set) in
  let* final := if String.eqb name src then Ret name else uniquePath name in
  let* k := move_aside src set in
  match k with
  | inl e => Ret (inl e)
  | inr keptAt => swap_in id src work final file set info keptAt
  end.

(** ** The whole pipeline *)
(** The file worked on, what was read from it, the notes and the temporary files
    so far. *)
Record Stage := mkStage { work : string; workInfo : mediaInfo; notes : list string; temps : list string }.
#[global] Instance Stage_eta : Eta Stage := λ s, mkStage (work s) (workInfo s) (notes s) (temps s).
Definition note (n : string) (s : Stage) : Stage := s <| notes ::= λ l, l ++ [n] |>.

Definition rewrite_stage (id : nat) (src : string) (srcInfo : mediaInfo) : prog (string * list string + Stage) :=
  let set := Settings cfg in
  if rewrites set then
    let out := tempPath src "process" (Container set) in
    let* r := rewrite id src out set srcInfo in
    match r with
    | inl e => Ret (inl (e, [out]))
    | inr n =>
        let* v := probe_and_verify srcInfo out (DurationSec srcInfo) in
        Ret match v with
            | inl e => inl ("processed file failed verification: " +:+ e, [out])
            | inr info => inr (mkStage out info [n] [out])
            end
    end
  else Ret (inr (mkStage src srcInfo [] [])).

Definition wants_detection (set : PostProcessSettings) : bool :=
  String.eqb (Commercials set) CommercialsMark || String.eqb (Commercials set) CommercialsCut.
(** The breaks and their source, when the detection ran. *)
Definition detect_stage (id : nat) (s : Stage) : prog (Stage * option (list CommercialBreak * string)) :=
  if wants_detection (Settings cfg) then
    let* _ := progress id "Detecting commercials" in
    let* d := detectCommercials (work s) (workInfo s) in
    Ret match d with
        | inl e => (note ("commercial detection failed: " +:+ e) s, None)
        | inr found => (s, Some found)
        end
  else Ret (s, None).

(** Whether the breaks were cut out. *)
Definition cut_stage (id : nat) (src : string) (s : Stage) (breaks : list CommercialBreak) : prog (Stage * bool) :=
  let set := Settings cfg in
  if String.eqb (Commercials set) CommercialsCut && (0 <? len breaks) then
    if negb (rewrites set) then
      Ret (note "commercials marked, not cut (cutting needs remux or transcode)" s, false)
    else
      let* r := cut id src (work s) (workInfo s) breaks (Container set) in
      let '(out, v) := r in
      let s := s <| temps ::= λ l, l ++ match out with Some o => [o] | None => [] end |> in
      Ret match v, out with
          | inr (info, removed), Some o =>
              (note (plural (len breaks) "commercial break" +:+ " removed (" +:+ fmtDuration removed +:+ ")")
                 (s <| work := o |> <| workInfo := info |>), true)
          | inl e, _ => (note ("commercials marked, not cut: " +:+ e) s, false)
          | _, None => (s, false)
          end
  else Ret (s, false).

Definition save_markers (file : N) (found : option (list CommercialBreak * string)) (cut : bool) (s : Stage) : prog Stage :=
  match found with
  | None => Ret s
  | Some (breaks, source) =>
      if negb (N.eqb file 0) then
        let! m := QMarkers file source (if cut then [] else breaks) in
        Ret match m with
            | Err e => note ("save commercial markers: " +:+ e) s
            | Ok _ => if cut then s else note (breaksNote (len breaks) "marked") s
            end
      else if negb cut && (0 <? len breaks) then
        Ret (note "commercials found but not saved: the recording has no library item" s)
      else Ret s
  end.
Definition run_script (id : nat) (path : string) (s : Stage) : prog (JobStatus * string) :=
  let done s := (PostProcessProcessed, Join (if bool_decide (notes s = []) then ["nothing to do"] else notes s) "; ") in
  if String.eqb (ScriptPath cfg) "" then Ret (done s)
  else
    let* _ := progress id "Running post-processing script" in
    let! r := RunScript (ScriptPath cfg) path in
    Ret match r with
        | Err e => (PostProcessFailed, Join (notes (note ("script failed: " +:+ e) s)) "; ")
        | Ok _ => done (note "script ran" s)
        end.

(** Where the recording is in the end, or the error. *)
Definition save_stage (id : nat) (src : string) (file : N) (s : Stage) : prog (string + string) :=
  if String.eqb (work s) src then Ret (inr src)
  else
    let* _ := progress id "Saving" in
    let* c := commit id src (work s) file (Settings cfg) (workInfo s) in
    Ret match c with inl e => inl ("could not replace the recording: " +:+ e) | inr final => inr final end.

Fixpoint remove_temps (l : list string) : prog () :=
  match l with [] => Ret () | t :: l => let! _ := Remove t in remove_temps l end.
Definition cleaning {A} (temps : list string) (a : A) : prog A := let* _ := remove_temps temps in Ret a.

Definition processFull (id : nat) (src : string) (srcInfo : mediaInfo) (file : N) : prog (JobStatus * string) :=
  let* r := rewrite_stage id src srcInfo in
  match r with
  | inl (e, temps) => cleaning temps (PostProcessFailed, e)
  | inr s =>
      let* d := detect_stage id s in
      let '(s, found) := d in
      let* c := match found with Some (breaks, _) => cut_stage id src s breaks | None => Ret (s, false) end in
      let '(s, was_cut) := c in
      let* f := save_stage id src file s in
      match f with
      | inl e => cleaning (temps s) (PostProcessFailed, e)
      | inr final =>
          let* s := save_markers file found was_cut s in
          let* out := run_script id final s in
          cleaning (temps s) out
      end
  end.

Definition process (id : nat) (kind : JobKind) : prog (JobStatus * string) :=
  let! r := QRecording id in
  match r with
  | Err _ => Ret (PostProcessFailed, "recording not found")
  | Ok rec =>
      match R_Status rec, R_FilePath rec with
      | Completed, Some src =>
          if String.eqb src "" then Ret (PostProcessFailed, "recording is not a completed capture")
          else
            let! st := Stat src in
            match st with
            | Ok (StFile _) =>
                let! i := ProbeMedia src in
                match i with
                | Err e => Ret (PostProcessFailed, "could not read the recording: " +:+ e)
                | Ok srcInfo =>
                    let! f := QFileID src in
                    match f with
                    | Err e => Ret (PostProcessFailed, "look up library file: " +:+ e)
                    | Ok file =>
                        match kind with
                        | PostProcessDetect => processDetect id src srcInfo file
                        | PostProcessFull => processFull id src srcInfo file
                        end
                    end
                end
            | _ => Ret (PostProcessFailed, "recording file is missing")
            end
      | _, _ => Ret (PostProcessFailed, "recording is not a completed capture")
      end
  end.

(** Whether a job was run. *)
Definition runOne : prog bool :=
  let! c := QClaim in
  match c with
  | Ok (Some (id, job)) =>
      let* r := process id (j_Kind job) in
      let! _ := QFinish id r.1 r.2 in Ret true
  | _ => Ret false
  end.

(** ** Queueing *)
Inductive enqueue_error := EnqueueFailed (msg : string) | Ineligible (msg : string) | Busy.
Definition QueueAfterCapture (id : nat) : prog () :=
  let set := Settings cfg in
  if negb (rewrites set) && negb (wants_detection set) && String.eqb (ScriptPath cfg) "" then Ret ()
  else let! _ := QEnqueue id PostProcessFull in Ret ().
Definition already_processed (j : option Job) : bool :=
  match j with
  | Some j => bool_decide (j_Status j = PostProcessProcessed) && bool_decide (j_Kind j = PostProcessFull)
  | None => false
  end.
Definition queue_job (id : nat) (kind : JobKind) : prog (option enqueue_error) :=
  let! q := QEnqueue id kind in
  Ret match q with Err e => Some (EnqueueFailed ("enqueue: " +:+ e)) | Ok false => Some Busy | Ok true => None end.
Definition Enqueue (id : nat) (kind : JobKind) : prog (option enqueue_error) :=
  let! r := QRecording id in
  match r with
  | Err e => Ret (Some (EnqueueFailed ("get recording: " +:+ e)))
  | Ok rec =>
      match R_Status rec, R_FilePath rec with
      | Completed, Some (String _ _) =>
          match kind with
          | PostProcessDetect => queue_job id kind
          | PostProcessFull =>
              let! j := QJob id in
              match j with
              | Err e => Ret (Some (EnqueueFailed ("get job: " +:+ e)))
              | Ok j =>
                  if already_processed j then Ret (Some (Ineligible "it has already been processed"))
                  else queue_job id kind
              end
          end
      | _, _ => Ret (Some (Ineligible "only a completed recording can be processed"))
      end
  end.
End Job.
