(* ===== verification/DVRPostprocessSafe.v ===== *)
(** Post-processing never loses a recording.

    A crash logic for the programs of [DVRPostprocess]: an invariant of every
    world a run passes through, so that it holds wherever the process dies, and
    what holds at the end and where the operator's script is started. *)
From S2P Require Import Prelude.
From S2P Require Import GoStrings.
From S2P Require Import GoBytes.
From S2P Require Import GoFloat.
From S2P Require Import GoPath.
From S2P Require Import Concat.
From S2P Require Import DVRSchedule.
From S2P Require Import DVRWorker.
From S2P Require Import DVRCommercials.
From S2P Require Import DVRPostprocess.

Local Open Scope Z_scope.

Definition is_script (s : step) : bool := match s with RunScript _ _ => true | _ => false end.
(** What a run did up to the first start of the script. *)
Fixpoint before_script (tr : list (step * World)) : list (step * World) :=
  match tr with
  | [] => []
  | x :: tr => x :: if is_script x.1 then [] else before_script tr
  end.
Definition scripted (tr : list (step * World)) : bool := existsb (λ x : step * World, is_script x.1) tr.

(** * Steps that change the files of a list only *)
Definition original_of (id : nat) (w : World) : option string := jobs w !! id ≫= j_Original.
Definition within (X : list string) (w w' : World) : Prop :=
  (∀ q, q ∉ X → fs w' !! q = fs w !! q) ∧ recordings w' = recordings w ∧ media_files w' = media_files w
  ∧ ∀ id, original_of id w' = original_of id w ∧ (is_Some (jobs w !! id) → is_Some (jobs w' !! id)).
#[export] Instance within_preorder X : PreOrder (within X).
Proof.
  split; [intros w; by repeat split|]. intros a b c (H1 & H2 & H3 & H4) (K1 & K2 & K3 & K4).
  split; [intros q Hq; by rewrite K1, H1|]. split; [by rewrite K2|]. split; [by rewrite K3|].
  intros id. destruct (H4 id), (K4 id). split; [congruence|auto].
Qed.

Section Logic.
Variable ffprobe : string → option RawProbe.
Variable allowed : Turn → Prop.
Variable I : World → Prop.
Variable S_ : step → World → Prop.
Local Abbreviation perform := (perform ffprobe).
Local Abbreviation run := (run ffprobe).

Fixpoint wpc {A} (p : prog A) (Q : A → World → Prop) (w : World) : Prop :=
  I w ∧ match p with
        | Ret a => Q a w
        | Do s k =>
            if is_script s then S_ s w else ∀ t, allowed t → wpc (k (perform s t w).2) Q (perform s t w).1
        end.

Lemma wpc_inv {A} (p : prog A) Q w : wpc p Q w → I w.
Proof. by destruct p as [a|s k]; intros [H _]. Qed.

Lemma wpc_bind {A B} (p : prog A) (f : A → prog B) Q w :
  wpc p (λ a, wpc (f a) Q) w → wpc (bind p f) Q w.
Proof.
  revert w. induction p as [a|s k IH]; intros w [Hi H]; cbn [bind]; [done|]. split; [done|].
  destruct (is_script s); [done|]. intros t Ht. apply IH. by apply H.
Qed.
Lemma wpc_mono {A} (p : prog A) (P Q : A → World → Prop) w : (∀ a w, I w → P a w → Q a w) → wpc p P w → wpc p Q w.
Proof.
  intros HPQ. revert w. induction p as [a|s k IH]; intros w [Hi H]; (split; [done|]); [auto|].
  destruct (is_script s); [done|]. intros t Ht. apply IH. by apply H.
Qed.

Lemma wpc_run {A} (p : prog A) Q w ts :
  wpc p Q w → Forall allowed ts →
  let '(a, w', tr) := run p ts w in
  Forall (λ x : step * World, I x.2 ∧ (is_script x.1 = true → S_ x.1 x.2)) (before_script tr)
  ∧ (scripted tr = false → I w' ∧ ∀ x, a = Some x → Q x w').
Proof.
  revert w ts. induction p as [a|s k IH]; intros w ts Hp Hts; cbn [DVRPostprocess.run].
  { destruct Hp as [Hi H]. split; [constructor|]. intros _. split; [done|]. by intros x [= <-]. }
  destruct ts as [|t ts]; [destruct Hp as [Hi H]; split; [constructor|]; intros _; by split|].
  apply Forall_cons in Hts as [Ht Hts]. destruct Hp as [Hi H].
  destruct (perform s t w) as [w' r] eqn:E. destruct (is_script s) eqn:Es.
  - destruct (run (k r) ts w') as [[a w2] tr]. cbn [before_script fst scripted existsb]. rewrite Es.
    split; [|done]. constructor; [by split|constructor].
  - specialize (H t Ht). rewrite E in H. specialize (IH r w' ts H Hts).
    destruct (run (k r) ts w') as [[a w2] tr]. cbn [before_script fst scripted existsb]. rewrite Es.
    destruct IH as [H1 H2]. split; [|done]. constructor; [|done]. simpl. rewrite Es. by split.
Qed.

(** ** Steps that change the files of a list only *)
Definition mild_step (X : list string) (s : step) : bool :=
  match s with
  | Stat _ | NewUUID | CtxErr | ProbeMedia _ | RunDetect _ | RunComskip _ _ | WriteList _
  | QMessage _ _ | QFileID _ | QRecording _ | QJob _ | QMarkers _ _ _ => true
  | RunFFmpeg args => match last args with Some out => mem out X | None => true end
  | Remove p => mem p X
  | _ => false
  end.
Fixpoint mild {A} (X : list string) (R : A → Prop) (p : prog A) : Prop :=
  match p with Ret a => R a | Do s k => mild_step X s = true ∧ ∀ r, mild X R (k r) end.

Lemma mild_bind {A B} X (R : A → Prop) (R' : B → Prop) (p : prog A) (f : A → prog B) :
  mild X R p → (∀ a, R a → mild X R' (f a)) → mild X R' (bind p f).
Proof. intros Hp Hf. induction p as [a|s k IH]; cbn [bind]; [by apply Hf|]. destruct Hp as [Hs Hk]. split; auto. Qed.
Lemma mild_mono {A} X (R R' : A → Prop) (p : prog A) : (∀ a, R a → R' a) → mild X R p → mild X R' p.
Proof. intros HR. induction p as [a|s k IH]; intros Hp; [by apply HR|]. destruct Hp as [Hs Hk]. split; auto. Qed.

Lemma effect_within X s t w : mild_step X s = true → within X w (effect ffprobe s t w).1.
Proof.
  assert (∀ f, within X w (w <| fs := f |>) ↔ ∀ q, q ∉ X → f !! q = fs w !! q) as Hf.
  { intros f. split; [by intros [H _]|]. intros H. by split. }
  destruct s; simpl; try done; intros Hm.
  - apply mem_spec in Hm. destruct (fs w !! p) as [[|x]|]; try done. simpl. apply Hf. intros q Hq.
    apply lookup_delete_ne. intros ->. done.
  - destruct (last args) as [out|]; [|done]. destruct (t_output t) as [x|]; [|done]. unfold put_file.
    apply mem_spec in Hm. destruct (fs w !! out) as [[|y]|]; try done; apply Hf; intros q Hq; apply lookup_insert_ne; by intros ->.
  - split; [done|]. split; [done|]. split; [done|]. intros i. unfold original_of. simpl.
    rewrite lookup_alter. case_decide; subst; by destruct (jobs w !! _).
  - unfold replace_markers. repeat case_match; done.
Qed.
Lemma perform_within X s t w : mild_step X s = true → within X w (perform s t w).1.
Proof.
  intros Hm. unfold DVRPostprocess.perform. pose proof (effect_within X s t w Hm).
  destruct (sheltered s); [done|]. by destruct (t_outage t).
Qed.

Lemma mild_wpc {A} X (R : A → Prop) (p : prog A) (Q : A → World → Prop) w :
  (∀ w', within X w w' → I w') → mild X R p → (∀ a w', within X w w' → R a → Q a w') → wpc p Q w.
Proof.
  intros HI Hp HQ. assert (within X w w) as Hw by done. revert Hw.
  generalize w at 2 3 as v. induction p as [a|s k IH]; intros v Hv; cbn [wpc]; (split; [by apply HI|]); [by apply HQ|].
  destruct Hp as [Hs Hk]. assert (is_script s = false) as -> by (by destruct s).
  intros t _. apply IH; [apply Hk|]. etrans; [exact Hv|]. by apply perform_within.
Qed.
End Logic.

(** * Names *)
Lemma CutPrefix_app' s r : CutPrefix (s +:+ r) s = Some r.
Proof. induction s as [|c s IH]; [by destruct r|]. simpl. by rewrite Ascii.eqb_refl. Qed.
Lemma TrimSuffix_app x e : TrimSuffix (x +:+ e) e = x.
Proof. unfold TrimSuffix. rewrite srev_app, CutPrefix_app'. apply srev_srev. Qed.
Lemma sapp_cancel a b c : a +:+ b = a +:+ c → b = c.
Proof. induction a as [|x a IH]; [done|]. intros [= H]. auto. Qed.
(** Texts with different last bytes. *)
Lemma tails_differ a b c d : Ascii.eqb c d = false → a +:+ String c "" ≠ b +:+ String d "".
Proof.
  intros Hcd E. apply (f_equal srev) in E. rewrite !srev_app in E. injection E as E _.
  by rewrite E, Ascii.eqb_refl in Hcd.
Qed.
Lemma plain_long e : no_slash e = true → 2 < slen e → plain e.
Proof. intros Hs Hl. split; [done|]. split_and!; intros ->; vm_compute in Hl; discriminate. Qed.

Section Names.
Variables (dirs : list string) (base container : string).
Hypothesis Hd : dirs ≠ [].
Hypothesis Hds : Forall plain dirs.
Hypothesis Hb : plain base.

Definition src_ : string := abs (dirs ++ [base]).
Definition stem_ : string := TrimSuffix base (Ext base).
Definition ext_ : string := snd (containerFormat container).
Definition temp_name (st : string) : string := "." +:+ stem_ +:+ ".onscreen-" +:+ st +:+ ext_ +:+ partSuffix.
Definition temp (st : string) : string := abs (dirs ++ [temp_name st]).

Lemma stem_of b : no_slash b = true → b = TrimSuffix b (Ext b) +:+ Ext b.
Proof.
  intros H. destruct (Ext_suffix b H) as [x Hx].
  assert (TrimSuffix b (Ext b) = x) as ->; [|done]. rewrite Hx at 1. apply TrimSuffix_app.
Qed.
Lemma no_slash_stem b : no_slash b = true → no_slash (TrimSuffix b (Ext b)) = true ∧ no_slash (Ext b) = true.
Proof. intros H. rewrite (stem_of b H) in H. unfold no_slash in H. rewrite no_byte_app in H. by apply andb_true_iff in H. Qed.
Lemma ext_cases : ext_ = ".mp4" ∨ ext_ = ".mkv".
Proof. unfold ext_, containerFormat. destruct (String.eqb _ _); auto. Qed.

Lemma stem_src : stem src_ = stem_.
Proof. unfold stem, src_. by rewrite Base_abs, Ext_abs. Qed.
Lemma temp_plain st : no_slash st = true → plain (temp_name st).
Proof.
  intros Hs. destruct (no_slash_stem base) as [H1 _]; [apply Hb|]. apply plain_long.
  - unfold temp_name, stem_, no_slash in *. rewrite !no_byte_app, H1, Hs. by destruct ext_cases as [-> | ->].
  - unfold temp_name, partSuffix. rewrite !slen_app. pose proof (slen_nonneg stem_). pose proof (slen_nonneg st).
    pose proof (slen_nonneg ext_). change (slen ".onscreen-") with 10. change (slen ".") with 1. change (slen ".part") with 5. lia.
Qed.
Lemma tempPath_eq st : no_slash st = true → tempPath src_ st container = temp st.
Proof.
  intros Hs. unfold tempPath. rewrite stem_src. unfold src_ at 1. rewrite Dir_abs by done.
  apply JoinPath_abs; [done..|]. by apply temp_plain.
Qed.

(** Names in the same folder differ when their last elements do. *)
Lemma abs_ne ds a ds' b : Forall plain ds → plain a → Forall plain ds' → plain b → (ds, a) ≠ (ds', b) →
  abs (ds ++ [a]) ≠ abs (ds' ++ [b]).
Proof.
  intros H1 H2 H3 H4 Hn E. apply abs_inj in E.
  - apply app_inj_2 in E as [-> [= ->]]; done.
  - apply plain_no_slash, Forall_app. split; [done|]. by constructor.
  - apply plain_no_slash, Forall_app. split; [done|]. by constructor.
Qed.
Lemma temps_ne : temp "process" ≠ temp "cut".
Proof.
  apply abs_ne; [done|by apply temp_plain|done|by apply temp_plain|]. intros [= E].
  do 3 apply sapp_cancel in E. discriminate E.
Qed.
Hypothesis Hp : Ext base ≠ partSuffix.
Lemma src_ne_temp st : no_slash st = true → src_ ≠ temp st.
Proof.
  intros Hs. apply abs_ne; [done..|by apply temp_plain|]. intros [= E]. apply Hp. rewrite E.
  pose proof (temp_plain st Hs) as [Hn _]. revert Hn. unfold temp_name, partSuffix.
  change ("." +:+ stem_ +:+ ".onscreen-" +:+ st +:+ ext_ +:+ ".part")
    with (("." +:+ stem_ +:+ ".onscreen-" +:+ st +:+ ext_ +:+ ".part")).
  assert ("." +:+ stem_ +:+ ".onscreen-" +:+ st +:+ ext_ +:+ ".part"
    = ("." +:+ stem_ +:+ ".onscreen-" +:+ st +:+ ext_) +:+ String "." "part") as -> by (by rewrite !sapp_assoc).
  unfold no_slash. rewrite no_byte_app, andb_true_iff. intros [Hn _]. by rewrite Ext_app.
Qed.

(** ** Numbered names *)
Definition numbered_name (b i : string) : string := TrimSuffix b (Ext b) +:+ " (" +:+ i +:+ ")" +:+ Ext b.
Lemma numbered_abs ds b i : ds ≠ [] → Forall plain ds → plain b → numbered (abs (ds ++ [b])) i = abs (ds ++ [numbered_name b i]).
Proof.
  intros H1 H2 H3. unfold numbered, numbered_name. rewrite Ext_abs by done. rewrite !abs_app. cbn [abs]. rewrite !sapp_nil_r.
  rewrite (stem_of b) at 1 by apply H3.
  rewrite <-!sapp_assoc, TrimSuffix_app, !sapp_assoc. done.
Qed.
Lemma numbered_plain b i : plain b → no_slash i = true → plain (numbered_name b i).
Proof.
  intros Hpb Hi. destruct (no_slash_stem b) as [H1 H2]; [apply Hpb|]. apply plain_long.
  - unfold numbered_name, no_slash in *. by rewrite !no_byte_app, H1, Hi, H2.
  - unfold numbered_name. rewrite !slen_app. pose proof (slen_nonneg (TrimSuffix b (Ext b))). pose proof (slen_nonneg i).
    pose proof (slen_nonneg (Ext b)). change (slen " (") with 2. change (slen ")") with 1. lia.
Qed.

(** The processed file, under its own name or a numbered one, is no temporary file. *)
Definition final_base : string := stem_ +:+ ext_.
Lemma final_plain : plain final_base.
Proof.
  destruct (no_slash_stem base) as [H1 _]; [apply Hb|]. apply plain_long.
  - unfold final_base, stem_, no_slash in *. rewrite no_byte_app, H1. by destruct ext_cases as [-> | ->].
  - unfold final_base. rewrite slen_app. pose proof (slen_nonneg stem_). 
    assert (slen ext_ = 4) by (by destruct ext_cases as [-> | ->]). lia.
Qed.
Lemma final_name_eq : final_name src_ container = abs (dirs ++ [final_base]).
Proof.
  unfold final_name, src_, final_base. rewrite Ext_abs by done. rewrite !abs_app. cbn [abs]. rewrite !sapp_nil_r.
  rewrite (stem_of base) at 1 by apply Hb. rewrite <-!sapp_assoc, TrimSuffix_app, !sapp_assoc. done.
Qed.
Lemma Ext_final : Ext final_base = ext_.
Proof.
  pose proof final_plain as [Hn _]. unfold final_base, no_slash in *. rewrite no_byte_app, andb_true_iff in Hn.
  destruct Hn as [Hn _]. destruct ext_cases as [-> | ->]; apply Ext_app; try done.
Qed.
Lemma final_not_temp i st : no_slash st = true → final_base ≠ temp_name st ∧ numbered_name final_base i ≠ temp_name st.
Proof.
  intros Hs. unfold final_base, numbered_name, temp_name, partSuffix. fold final_base. rewrite Ext_final.
  assert (∀ x y, x +:+ ext_ ≠ y +:+ ".part") as H.
  { intros x y. change ".part" with (".par" +:+ String "t" ""). rewrite <-sapp_assoc.
    destruct ext_cases as [-> | ->]; [change ".mp4" with (".mp" +:+ String "4" "")|change ".mkv" with (".mk" +:+ String "v" "")];
    rewrite <-sapp_assoc; by apply tails_differ. }
  split; rewrite <-!sapp_assoc; apply H.
Qed.
End Names.

(** * What a job may do *)
Section Safe.
Variable ffprobe : string → option RawProbe.
Variables (cfg : Config) (id : nat) (dirs : list string) (base : string) (c0 : string) (w0 : World).
Local Abbreviation set := (Settings cfg).
Local Abbreviation src := (src_ dirs base).
Local Abbreviation T1 := (temp dirs base (Container set) "process").
Local Abbreviation T2 := (temp dirs base (Container set) "cut").
Local Abbreviation perform := (perform ffprobe).

Definition info_of (x : string) : option mediaInfo := parseProbe <$> ffprobe x.
(** Breaks some detection reported for a file of that length. *)
Definition detectable (durationSec : float64) (breaks : list CommercialBreak) : Prop :=
  (∃ black silence, breaks = classifyBreaks (Heuristic cfg) black silence durationSec)
  ∨ ∃ l, breaks = clampBreaks l durationSec.
(** What may take the capture's place: a file that was verified against it, or
    one verified to be such a file without the breaks found in it. *)
Inductive derived : string → Prop :=
| by_rewrite x i0 i : info_of c0 = Some i0 → info_of x = Some i → verifyOutput i0 i (DurationSec i0) = None → derived x
| by_cut x y ix iy breaks : derived x → info_of x = Some ix → detectable (DurationSec ix) breaks →
    info_of y = Some iy → verifyOutput ix iy (span_sum (keepSegments breaks (DurationSec ix))) = None → derived y.

Definition path_of (w : World) : option string := GetRecording id (recordings w) ≫= R_FilePath.
Definition others (w : World) : Prop :=
  ∀ q y, fs w0 !! q = Some y → q ∉ [src; T1; T2] → fs w !! q = Some y.
Definition kept (w : World) : Prop :=
  (∃ p, p ∉ [T1; T2] ∧ fs w !! p = Some (Reg c0))
  ∨ (DeleteOriginal set = true ∧ ∃ p x, path_of w = Some p ∧ p ∉ [T1; T2] ∧ fs w !! p = Some (Reg x) ∧ derived x).
(** Nothing but the capture and temporary files changed, and the recording is
    somewhere still. *)
Definition safe (w : World) : Prop := others w ∧ kept w.

(** The names drawn at random are new. *)
Definition allowed (t : Turn) : Prop :=
  no_slash (take_bytes 8 (t_uuid t)) = true ∧ ∀ p, fs w0 !! numbered p (take_bytes 8 (t_uuid t)) = None.

Hypothesis Hd : dirs ≠ [].
Hypothesis Hds : Forall plain dirs.
Hypothesis Hb : plain base.
Hypothesis Hext : Ext base ≠ partSuffix.
Hypothesis Hpath : path_of w0 = Some src.
Hypothesis Hsrc : fs w0 !! src = Some (Reg c0).
Hypothesis Hjob : is_Some (jobs w0 !! id).

Definition untouched (w : World) : Prop := within [T1; T2] w0 w.

Lemma src_not_temp : src ∉ [T1; T2].
Proof. intros [E|[E|[]%elem_of_nil]%elem_of_cons]%elem_of_cons; by apply src_ne_temp in E. Qed.
Lemma safe_c0 w p : others w → p ∉ [T1; T2] → fs w !! p = Some (Reg c0) → safe w.
Proof. intros Ho Hp Hf. split; [done|]. left. by exists p. Qed.
Lemma untouched_fs w q : untouched w → q ∉ [T1; T2] → fs w !! q = fs w0 !! q.
Proof. intros [H _]. apply H. Qed.
Lemma untouched_safe w : untouched w → safe w.
Proof.
  intros Hu. apply (safe_c0 w src); [|apply src_not_temp|by rewrite (untouched_fs w src Hu src_not_temp)].
  intros q y Hq Hn. rewrite (untouched_fs w q Hu); [done|]. set_solver.
Qed.
Lemma untouched_path w : untouched w → path_of w = Some src.
Proof. intros (_ & H & _). unfold path_of. by rewrite H. Qed.
Lemma untouched_within X w w' : X ⊆ [T1; T2] → untouched w → within X w w' → untouched w'.
Proof.
  intros HX Hu (H1 & H2). unfold untouched in *. etrans; [exact Hu|]. split; [|done]. intros q Hq. apply H1. set_solver.
Qed.

Local Abbreviation wpc := (wpc ffprobe allowed safe).

(** ** Stages before the swap *)
Definition stage_ok (X : list string) (s : Stage) (w : World) : Prop :=
  untouched w ∧ temps s ⊆ [T1; T2]
  ∧ ((work s = src ∧ info_of c0 = Some (workInfo s) ∧ rewrites set = false)
     ∨ (work s ∈ X ∧ rewrites set = true
        ∧ ∃ x, fs w !! work s = Some (Reg x) ∧ info_of x = Some (workInfo s) ∧ derived x)).

Lemma mild_stage {A} S_ X (R : A → Prop) (p : prog A) (Q : A → World → Prop) w :
  X ⊆ [T1; T2] → untouched w → mild X R p →
  (∀ a w', untouched w' → within X w w' → R a → Q a w') → wpc S_ p Q w.
Proof.
  intros HX Hu Hp HQ. apply (mild_wpc ffprobe allowed safe S_ X R); [|done|].
  - intros w' Hw. apply untouched_safe. by apply (untouched_within X w).
  - intros a w' Hw Ha. apply HQ; [by apply (untouched_within X w)|done|done].
Qed.

Lemma last_prefixed {A} (l m : list A) x : last m = Some x → last (l ++ m) = Some x.
Proof. intros H. by rewrite last_app, H. Qed.
Lemma last_outputArgs c out : last (outputArgs c out) = Some out.
Proof. unfold outputArgs. by do 2 apply last_prefixed. Qed.
Lemma last_remux s out c : last (remuxArgs s out c) = Some out.
Proof. unfold remuxArgs. do 5 apply last_prefixed. apply last_outputArgs. Qed.
Lemma last_transcode s out c e k q : last (transcodeArgs s out c e k q) = Some out.
Proof. unfold transcodeArgs. do 8 apply last_prefixed. apply last_outputArgs. Qed.
Lemma last_cut ps l out c : last (cutArgs ps l out c) = Some out.
Proof. unfold cutArgs. do 5 apply last_prefixed. apply last_outputArgs. Qed.

Lemma mild_progress X i m : mild X (λ _, True) (progress i m).
Proof. by split. Qed.
Lemma mild_encoders out i encs codec e : mild [out] (λ _, True) (try_encoders i src out set codec encs e).
Proof.
  revert e. induction encs as [|enc encs IH]; intros e; [done|]. cbn [try_encoders].
  eapply mild_bind; [apply mild_progress|]. intros _ _. split.
  { cbn [mild_step]. rewrite last_transcode. apply mem_spec. set_solver. }
  intros [|e']; [done|]. split; [done|]. intros [[|]|]; try done;
    (split; [apply mem_spec; set_solver|intros _; apply IH]).
Qed.
Lemma mild_rewrite out i si : mild [out] (λ _, True) (rewrite cfg i src out set si).
Proof.
  unfold rewrite. destruct (Transcode set); cbn [negb].
  - destruct (negb (HasVideo si)); [done|apply mild_encoders].
  - eapply mild_bind; [apply mild_progress|]. intros _ _. split; [|done].
    cbn [mild_step]. rewrite last_remux. apply mem_spec. set_solver.
Qed.

(** Reading a file back and comparing it. *)
Definition verified (from : mediaInfo) (out : string) (expected : float64) (info : mediaInfo) (w : World) : Prop :=
  ∃ x, fs w !! out = Some (Reg x) ∧ info_of x = Some info ∧ verifyOutput from info expected = None.
Lemma probe_and_verify_spec S_ from out expected (Q : string + mediaInfo → World → Prop) w :
  safe w → (∀ e, Q (inl e) w) → (∀ info, verified from out expected info w → Q (inr info) w) →
  wpc S_ (probe_and_verify from out expected) Q w.
Proof.
  intros Hs Hl Hr. split; [done|]. cbn [is_script]. intros t _. 
  assert ((perform (ProbeMedia out) t w).1 = w ∧ ∀ i, (perform (ProbeMedia out) t w).2 = Ok i →
    ∃ x, fs w !! out = Some (Reg x) ∧ info_of x = Some i) as [-> Hi].
  { unfold DVRPostprocess.perform. cbn [sheltered effect]. unfold info_of.
    split; [by destruct (t_outage t)|]. intros i. destruct (t_outage t); try done.
    cbn [snd]. destruct (fs w !! out) as [[|x]|]; try done. destruct (ffprobe x) as [r|] eqn:E; [|done].
    intros [= <-]. exists x. by rewrite E. }
  split; [done|]. destruct (perform (ProbeMedia out) t w).2 as [i|e]; [|apply Hl].
  destruct (Hi i eq_refl) as (x & Hx & Hxi). destruct (verifyOutput from i expected) as [e|] eqn:Ev; [apply Hl|].
  apply Hr. by exists x.
Qed.

Section Pipeline.
Context (S_ : step → World → Prop).
Local Abbreviation wp := (wpc S_).

Lemma rewrite_stage_ok srcInfo w :
  untouched w → info_of c0 = Some srcInfo →
  wp (rewrite_stage cfg id src srcInfo)
    (λ r w, match r with inl (_, ts) => untouched w ∧ ts ⊆ [T1; T2] | inr s => stage_ok [T1] s w end) w.
Proof.
  intros Hu Hi. unfold rewrite_stage. destruct (rewrites set) eqn:Er.
  2:{ split; [by apply untouched_safe|]. split; [done|]. split; [set_solver|]. by left. }
  rewrite tempPath_eq by done. apply wpc_bind.
  eapply (mild_stage S_ [T1]); [set_solver|done|apply mild_rewrite|]. intros r w1 Hu1 _ _.
  destruct r as [e|n]; [split; [by apply untouched_safe|]; split; [done|set_solver]|].
  apply wpc_bind, probe_and_verify_spec; [by apply untouched_safe|..].
  - intros e. split; [by apply untouched_safe|]. split; [done|set_solver].
  - intros info (x & Hx & Hxi & Hv). split; [by apply untouched_safe|]. split; [done|]. split; [cbn; set_solver|].
    right. split; [cbn; set_solver|]. split; [done|]. exists x. split_and!; [done..|]. by eapply by_rewrite.
Qed.

Definition found_ok (info : mediaInfo) (found : option (list CommercialBreak * string)) : Prop :=
  match found with Some (breaks, _) => breaks = [] ∨ detectable (DurationSec info) breaks | None => True end.
Lemma mild_comskip path d :
  mild [] (λ r : string + list CommercialBreak, match r with inr b => b = [] ∨ detectable d b | inl _ => True end)
    (runComskip cfg path d).
Proof.
  split; [done|]. intros [c|e]; [|done]. cbn [mild].
  assert (∀ l, detectable d (clampBreaks l d)) as Hc by (intros l; right; eauto).
  destruct (cs_exit c) as [|n m|m]; [|destruct (n =? 1); [|exact I]|exact I];
    (destruct (cs_edl c) as [l|]; [right; apply Hc|]; destruct (cs_txt c) as [t|];
     [destruct (parseComskipTxt t); [right; apply Hc|exact I]|]); [exact I|by left].
Qed.
Lemma mild_detect path info :
  mild [] (λ r : string + list CommercialBreak * string, match r with inr f => found_ok info (Some f) | inl _ => True end)
    (detectCommercials cfg path info).
Proof.
  unfold detectCommercials. destruct (negb _).
  - eapply mild_bind; [apply mild_comskip|]. by intros [e|b] H.
  - eapply mild_bind with (R := λ r : string + list CommercialBreak, match r with
      inr b => b = [] ∨ detectable (DurationSec info) b | inl _ => True end); [|by intros [e|b] H].
    unfold heuristicCommercials. destruct (_ || _); [by left|]. split; [done|]. intros [t|e]; [|done]. cbn [mild].
    destruct (parseDetectOutput t _) as [b s]. right. left. eauto.
Qed.

Lemma stage_note X n s w : stage_ok X s w → stage_ok X (note n s) w.
Proof. done. Qed.
Lemma stage_within X Y s w w' : (∀ q, q ∈ Y → q ∉ X ∧ q ∈ [T1; T2]) → within Y w w' → stage_ok X s w → stage_ok X s w'.
Proof.
  intros HXY Hw (H1 & H2 & H3). split; [apply (untouched_within Y w); [intros q Hq; by apply HXY|done..]|]. split; [done|].
  destruct H3 as [H3|(Hx & Hr & H3)]; [by left|right]. split; [done|]. split; [done|].
  destruct Hw as [Hf _]. rewrite Hf; [done|]. intros Hq. by apply (HXY _ Hq).
Qed.
Lemma detect_stage_ok X s w :
  stage_ok X s w → wp (detect_stage cfg id s) (λ r w, stage_ok X r.1 w ∧ found_ok (workInfo r.1) r.2) w.
Proof.
  intros Hs. pose proof Hs as [Hu _]. unfold detect_stage.
  destruct (wants_detection set); [|split; [by apply untouched_safe|done]].
  eapply (mild_stage S_ [] (λ r : Stage * option (list CommercialBreak * string),
    (∀ v, stage_ok X s v → stage_ok X r.1 v) ∧ found_ok (workInfo r.1) r.2)); [set_solver|done| |].
  - eapply mild_bind; [apply mild_progress|]. intros _ _. eapply mild_bind; [apply mild_detect|].
    intros [e|f] Hf; (split; [|done]); [intros v Hv; by apply stage_note|done].
  - intros r w' _ Hw [H1 H2]. split; [|done]. apply H1, (stage_within X [] s w); [set_solver|done..].
Qed.

Definition cut_result (info : mediaInfo) (breaks : list CommercialBreak)
    (r : option string * (string + mediaInfo * float64)) (w : World) : Prop :=
  (r.1 = None ∨ r.1 = Some T2)
  ∧ match r.2 with
    | inl _ => True
    | inr (i, _) => r.1 = Some T2 ∧ verified info T2 (span_sum (keepSegments breaks (DurationSec info))) i w
    end.
Lemma cut_ok wk info breaks w :
  untouched w →
  wp (cut id src wk info breaks (Container set)) (λ r w', within [T2] w w' ∧ cut_result info breaks r w') w.
Proof.
  intros Hu. unfold cut, cut_result.
  assert (wp (Ret (None, inl "nothing would be left")) (λ r w', within [T2] w w' ∧ cut_result info breaks r w') w) as Hnone.
  { split; [by apply untouched_safe|]. split; [done|]. split; [by left|done]. }
  destruct (keepSegments breaks (DurationSec info)) as [|k keep] eqn:Ek; [exact Hnone|]. clear Hnone.
  apply wpc_bind. eapply (mild_stage S_ []); [set_solver|done|apply mild_progress|]. intros _ w1 Hu1 Hw1 _.
  assert (within [T2] w w1) as Hw1' by (destruct Hw1 as [H1 H2]; split; [intros q _; apply H1; set_solver|done]).
  destruct (WriteConcatList _) as [text|]; [|split; [by apply untouched_safe|split; [done|split; [by left|done]]]].
  split; [by apply untouched_safe|]. cbn [is_script]. intros t Ht.
  pose proof (perform_within ffprobe [T2] (WriteList text) t w1 eq_refl) as Hw2. 
  destruct (perform (WriteList text) t w1) as [w2 l]. cbn [fst snd] in *.
  assert (untouched w2) as Hu2 by (eapply (untouched_within [T2]); [set_solver|exact Hu1|done]).
  destruct l as [l|e]; [|split; [by apply untouched_safe|split; [by etrans|split; [by left|done]]]].
  split; [by apply untouched_safe|]. cbn [is_script]. intros t' _. rewrite tempPath_eq by done.
  assert (mild_step [T2] (RunFFmpeg (cutArgs (cut_parts wk (k :: keep)) l T2 (Container set))) = true) as Hm.
  { cbn [mild_step]. rewrite last_cut. apply mem_spec. set_solver. }
  pose proof (perform_within ffprobe [T2] _ t' w2 Hm) as Hw3.
  destruct (perform (RunFFmpeg _) t' w2) as [w3 r]. cbn [fst snd] in *.
  assert (untouched w3) as Hu3 by (eapply (untouched_within [T2]); [set_solver|exact Hu2|done]).
  assert (within [T2] w w3) as Hw by (etrans; [|exact Hw3]; by etrans).
  destruct r as [_|e]; [|split; [by apply untouched_safe|split; [done|split; [by right|done]]]].
  apply wpc_bind, probe_and_verify_spec; [by apply untouched_safe|..];
    [intros e|intros i Hi]; (split; [by apply untouched_safe|split; [done|split; [by right|done]]]).
Qed.
Lemma cut_stage_ok s breaks w :
  stage_ok [T1] s w → breaks = [] ∨ detectable (DurationSec (workInfo s)) breaks →
  wp (cut_stage cfg id src s breaks) (λ r w, stage_ok [T1; T2] r.1 w) w.
Proof.
  intros Hs Hb'. pose proof Hs as (Hu & Ht & Hc). unfold cut_stage.
  assert (∀ s w, stage_ok [T1] s w → stage_ok [T1; T2] s w) as Hup.
  { intros s' w' (H1 & H2 & [H3|(H3 & H4)]); (split; [done|split; [done|]]); [by left|right; split; [set_solver|done]]. }
  destruct (String.eqb _ _ && (0 <? len breaks)) eqn:E; [|split; [by apply untouched_safe|by apply Hup]].
  destruct (rewrites set) eqn:Er; cbn [negb]; [|split; [by apply untouched_safe|by apply stage_note, Hup]].
  destruct Hb' as [->|Hb']; [breflect; destruct E as [_ E]; unfold len in E; simpl in E; lia|].
  apply wpc_bind. eapply wpc_mono; [|by apply cut_ok]. intros [out v] w' Hsafe [Hw [Hout Hv]]. cbn [fst snd] in *.
  split; [done|].
  assert (stage_ok [T1] (s <| temps ::= λ l, l ++ match out with Some o => [o] | None => [] end |>) w') as Hs'.
  { destruct (stage_within [T1] [T2] s w w') as (H1 & H2 & H3); [|done..|].
    { intros q ->%list_elem_of_singleton. split; [|set_solver]. intros E'%list_elem_of_singleton.
      by apply (temps_ne dirs base (Container set) Hds Hb). }
    split; [done|]. split; [|done]. cbn. destruct Hout as [-> | ->]; set_solver. }
  destruct v as [e|[info removed]]; [apply stage_note, Hup; by destruct out|]. 
  destruct Hv as [-> (y & Hy & Hyi & Hyv)]. apply stage_note. pose proof Hs' as (H1 & H2 & H3).
  split; [done|]. split; [done|]. right. split; [cbn; set_solver|]. split; [done|]. exists y. split_and!; [done..|].
  destruct Hc as [(_ & _ & Hc)|(_ & _ & x & _ & Hxi & Hxd)]; [congruence|]. by eapply by_cut.
Qed.

(** ** The swap *)
Lemma perform_stat p t w :
  (perform (Stat p) t w).1 = w ∧ ((perform (Stat p) t w).2 = Ok StNone → fs w !! p = None).
Proof.
  unfold DVRPostprocess.perform. cbn [sheltered]. destruct (t_outage t); cbn [effect fst snd]; split; try done.
  by destruct (fs w !! p) as [[|x]|].
Qed.
Lemma Itoa_no_slash i : 0 <= i → no_slash (Itoa i) = true.
Proof.
  intros Hi. eapply sforall_impl; [|apply (Itoa_digits i Hi)]. intros c Hc. apply negb_true_iff, Ascii.eqb_neq. by intros ->.
Qed.

(** A name that is not taken: the one asked for, or a numbered one. *)
Definition candidate (b b' : string) : Prop := b' = b ∨ ∃ i, no_slash i = true ∧ b' = numbered_name b i.
Lemma uniquePath_ok ds b (Q : string → World → Prop) w :
  ds ≠ [] → Forall plain ds → plain b → safe w →
  (∀ t, allowed t → fs w !! numbered (abs (ds ++ [b])) (take_bytes 8 (t_uuid t)) = None) →
  (∀ b', candidate b b' → fs w !! abs (ds ++ [b']) = None → Q (abs (ds ++ [b'])) w) →
  wp (uniquePath (abs (ds ++ [b]))) Q w.
Proof.
  intros H1 H2 H3 Hs Hf HQ. unfold uniquePath. split; [done|]. cbn [is_script]. intros t _.
  destruct (perform_stat (abs (ds ++ [b])) t w) as [-> Hn].
  assert (wp (try_numbers 998 2 (abs (ds ++ [b]))) Q w) as Hloop.
  { assert (0 <= 2) as Hi by lia. revert Hi. generalize 2. generalize 998%nat.
    induction n as [|n IH]; intros i Hi; cbn [try_numbers]; (split; [done|]); cbn [is_script].
    - intros t' Ht'. cbn. split; [done|]. rewrite numbered_abs by done. apply HQ; [right; eexists; split; [apply Ht'|done]|].
      rewrite <-numbered_abs by done. by apply Hf.
    - intros t' _. destruct (perform_stat (numbered (abs (ds ++ [b])) (Itoa i)) t' w) as [-> Hn'].
      destruct (perform (Stat (numbered _ _)) t' w).2 as [[| |]|]; try (apply IH; lia). split; [done|]. specialize (Hn' eq_refl).
      rewrite numbered_abs in * by done. apply HQ; [right; eexists; split; [by apply Itoa_no_slash|done]|done]. }
  destruct (perform _ _ _).2 as [[| |]|]; try exact Hloop. split; [done|]. apply HQ; [by left|by apply Hn].
Qed.

Lemma perform_rename a b t w :
  let r := perform (Rename a b) t w in
  (r.1 = w ∧ r.2 ≠ Ok ()) ∨ ∃ x, fs w !! a = Some (Reg x) ∧ fs w !! b ≠ Some Dir_
    ∧ r.1 = w <| fs := <[b := Reg x]> (delete a (fs w)) |>.
Proof.
  unfold DVRPostprocess.perform. cbn [sheltered]. 
  assert ((effect ffprobe (Rename a b) t w).1 = w ∧ (effect ffprobe (Rename a b) t w).2 ≠ Ok ()
    ∨ ∃ x, fs w !! a = Some (Reg x) ∧ fs w !! b ≠ Some Dir_
      ∧ (effect ffprobe (Rename a b) t w).1 = w <| fs := <[b := Reg x]> (delete a (fs w)) |>) as H.
  { cbn [effect]. destruct (fs w !! a) as [[|x]|]; [by left| |by left].
    destruct (fs w !! b) as [[|y]|]; [by left|right|right]; by exists x. }
  destruct (t_outage t); cbn [fst snd]; [done| |by left].
  destruct H as [[-> _]|H]; [by left|by right].
Qed.

(** A place that held nothing the job has to leave alone. *)
Definition free (q : string) : Prop := q ∈ [src; T1; T2] ∨ fs w0 !! q = None.
Lemma others_insert q n w : free q → others w → others (w <| fs := <[q := n]> (fs w) |>).
Proof.
  intros Hq Ho p y Hp Hn. change (<[q:=n]> (fs w) !! p = Some y). destruct (decide (p = q)) as [->|]; [destruct Hq; [done|congruence]|].
  rewrite lookup_insert_ne by done. by apply Ho.
Qed.
Lemma others_rename a b x w :
  free a → free b → others w → others (w <| fs := <[b := Reg x]> (delete a (fs w)) |>).
Proof.
  intros Ha Hb' Ho p y Hp Hn. change (<[b:=Reg x]> (delete a (fs w)) !! p = Some y).
  destruct (decide (p = b)) as [->|]; [destruct Hb'; [done|congruence]|].
  destruct (decide (p = a)) as [->|]; [destruct Ha; [done|congruence]|].
  rewrite lookup_insert_ne, lookup_delete_ne by done. by apply Ho.
Qed.
Lemma free_temp q : q ∈ [T1; T2] → free q.
Proof. intros H. left. set_solver. Qed.
Lemma free_src : free src.
Proof. left. set_solver. Qed.

(** Before the processed file [work] with the bytes [x] is moved to [final]; the
    capture is at [k] or still at its place. *)
Record ready (wk final x : string) (keptAt : option string) (w : World) : Prop := {
  ready_others : others w;
  ready_tables : recordings w = recordings w0 ∧ media_files w = media_files w0;
  ready_job : is_Some (jobs w !! id);
  ready_work : wk ∈ [T1; T2] ∧ fs w !! wk = Some (Reg x) ∧ derived x;
  ready_final : final ∉ [T1; T2] ∧ free final;
  ready_kept : match keptAt with
               | Some k => k ∉ [src; T1; T2; final] ∧ fs w0 !! k = None ∧ fs w !! k = Some (Reg c0)
               | None => DeleteOriginal set = true ∧ fs w !! src = Some (Reg c0)
               end }.

Definition row_of (file : N) (final : string) (size : Z) (w : World) : Prop :=
  file ≠ 0%N → ∃ r, media_files w !! file = Some r ∧ mf_path r = final ∧ mf_size r = size ∧ mf_active r = true.
Definition swapped (p : SwapFileParams) (w w' : World) : Prop :=
  fs w' = fs w ∧ path_of w' = Some (sw_Path p) ∧ original_of id w' = sw_Original p
  ∧ row_of (sw_File p) (sw_Path p) (sw_Size p) w'.
Lemma swap_spec p w :
  sw_Recording p = id → recordings w = recordings w0 → is_Some (jobs w !! id) →
  ((swap p w).1 = w ∧ (swap p w).2 ≠ Ok ()) ∨ swapped p w (swap p w).1.
Proof.
  intros Hi Hr [j Hj]. unfold swap, swapped, path_of, original_of, row_of. rewrite Hi.
  assert (∀ rs, rs = recordings w0 → GetRecording id (update id (set_path (sw_Path p)) rs) ≫= R_FilePath = Some (sw_Path p)) as Hp.
  { intros rs ->. rewrite GetRecording_update by done. unfold path_of in Hpath.
    destruct (GetRecording id (recordings w0)); [done|discriminate Hpath]. }
  destruct (N.eqb_spec (sw_File p) 0) as [E|E].
  - right. cbn. split; [done|]. split; [by apply Hp|]. split; [|done].
    change (alter (λ j, j <| j_Original := sw_Original p |>) id (jobs w) !! id ≫= j_Original = sw_Original p).
    by rewrite lookup_alter_eq, Hj.
  - destruct (media_files w !! sw_File p) as [r|] eqn:Er; [|by left]. destruct (path_taken _ _ _); [by left|right].
    cbn. split; [done|]. split; [by apply Hp|]. split.
    + change (alter (λ j, j <| j_Original := sw_Original p |>) id (jobs w) !! id ≫= j_Original = sw_Original p).
      by rewrite lookup_alter_eq, Hj.
    + intros _. exists (repoint p r). split; [|done]. 
      change (<[sw_File p := repoint p r]> (media_files w) !! sw_File p = Some (repoint p r)). apply lookup_insert_eq.
Qed.
Lemma perform_swap p t w :
  sw_Recording p = id → recordings w = recordings w0 → is_Some (jobs w !! id) →
  let r := perform (QSwap p) t w in (r.1 = w ∧ r.2 ≠ Ok ()) ∨ swapped p w r.1.
Proof.
  intros Hi Hr Hj. unfold DVRPostprocess.perform. cbn [sheltered].
  assert (((effect ffprobe (QSwap p) t w).1 = w ∧ (effect ffprobe (QSwap p) t w).2 ≠ Ok ())
    ∨ swapped p w (effect ffprobe (QSwap p) t w).1) as H by (by apply swap_spec).
  destruct (t_outage t); cbn [fst snd]; [done| |by left]. destruct H as [[-> _]|H]; [by left|by right].
Qed.

(** The recording is where the tables say, and is the capture or a verified file. *)
Definition committed (file : N) (final : string) (w : World) : Prop :=
  safe w ∧ path_of w = Some final ∧ final ∉ [T1; T2]
  ∧ ((final = src ∧ rewrites set = false ∧ untouched w)
     ∨ ∃ x, rewrites set = true ∧ fs w !! final = Some (Reg x) ∧ derived x ∧ row_of file final (slen x) w
         ∧ (DeleteOriginal set = false → ∃ k, k ∉ [T1; T2] ∧ original_of id w = Some k ∧ fs w !! k = Some (Reg c0))).

Lemma ready_safe wk final x k w : ready wk final x k w → safe w.
Proof.
  intros [H1 _ _ _ [H2 _] H3]. destruct k as [k|].
  - destruct H3 as (Hk & _ & H3). apply (safe_c0 w k); [done|set_solver|done].
  - apply (safe_c0 w src); [done|apply src_not_temp|apply H3].
Qed.

(** Putting the capture back is safe whatever comes of it. *)
Lemma restore_safe k w (Q : () → World → Prop) :
  match k with Some k => k ∉ [src; T1; T2] ∧ fs w0 !! k = None ∧ fs w !! k = Some (Reg c0) | None => True end →
  safe w → (∀ w', safe w' → Q () w') → wp (restoreOriginal src k) Q w.
Proof.
  intros Hk Hs HQ. destruct k as [k|]; [|split; [done|by apply HQ]]. destruct Hk as (Hk & Hk0 & Hkc).
  split; [done|]. cbn [is_script]. intros t _.
  assert (safe (perform (Rename k src) t w).1) as Hs'; [|split; [done|by apply HQ]].
  destruct (perform_rename k src t w) as [[-> _]|(x & Hx & _ & ->)]; [done|].
  apply (safe_c0 _ src); [|apply src_not_temp|].
  - apply others_rename; [by right|apply free_src|apply Hs].
  - change (<[src := Reg x]> (delete k (fs w)) !! src = Some (Reg c0)). rewrite lookup_insert_eq. congruence.
Qed.

(** After the processed file took its place. *)
Record moved (wk final x : string) (keptAt : option string) (w : World) : Prop := {
  moved_others : others w;
  moved_tables : recordings w = recordings w0 ∧ media_files w = media_files w0;
  moved_job : is_Some (jobs w !! id);
  moved_file : fs w !! final = Some (Reg x) ∧ derived x;
  moved_final : wk ∈ [T1; T2] ∧ final ∉ [T1; T2] ∧ free final;
  moved_kept : match keptAt with
               | Some k => k ∉ [src; T1; T2; final] ∧ fs w0 !! k = None ∧ fs w !! k = Some (Reg c0)
               | None => DeleteOriginal set = true ∧ (final ≠ src → fs w !! src = Some (Reg c0))
               end }.
Lemma rename_moved wk final x k t w :
  ready wk final x k w →
  let r := perform (Rename wk final) t w in (r.1 = w ∧ r.2 ≠ Ok ()) ∨ moved wk final x k r.1.
Proof.
  intros [H1 H2 H3 (H4 & Hx & Hxd) (H5 & H5') H6] r.
  destruct (perform_rename wk final t w) as [Hr|(y & Hy & _ & Hr)]; [by left|right]. unfold r. rewrite Hr.
  assert (y = x) as -> by congruence.
  assert (∀ q, fs (w <| fs := <[final := Reg x]> (delete wk (fs w)) |>) !! q
     = <[final := Reg x]> (delete wk (fs w)) !! q) as Hq by done.
  split; [by apply others_rename; [apply free_temp|..]|done|done| | |].
  - rewrite Hq, lookup_insert_eq. done.
  - done.
  - destruct k as [k|].
    + destruct H6 as (Hk & Hk0 & Hkc). split; [done|]. split; [done|]. rewrite Hq.
      rewrite lookup_insert_ne, lookup_delete_ne; [done|intros ->; set_solver|intros ->; set_solver].
    + destruct H6 as [Hdel Hc]. split; [done|]. intros Hn. rewrite Hq, lookup_insert_ne, lookup_delete_ne; [done| |done].
      intros ->. by apply src_not_temp.
Qed.
Lemma moved_safe wk final x k w : moved wk final x k w → safe w.
Proof.
  intros [H1 [H2 _] _ [Hx Hxd] (_ & H5 & _) H6]. destruct k as [k|].
  - destruct H6 as (Hk & _ & Hkc). apply (safe_c0 w k); [done|set_solver|done].
  - destruct H6 as [Hdel Hc]. destruct (decide (final = src)) as [->|Hn].
    + split; [done|]. right. split; [done|]. exists src, x. split; [unfold path_of; by rewrite H2|done].
    + apply (safe_c0 w src); [done|apply src_not_temp|by apply Hc].
Qed.

Lemma perform_stat_file p x t w st :
  fs w !! p = Some (Reg x) → (perform (Stat p) t w).2 = Ok st → st = StFile (slen x).
Proof.
  intros Hx. unfold DVRPostprocess.perform. cbn [sheltered]. destruct (t_outage t); cbn [effect snd]; try done.
  rewrite Hx. by intros [= <-].
Qed.
Lemma perform_remove p t w :
  (perform (Remove p) t w).1 = w ∨ (perform (Remove p) t w).1 = w <| fs := delete p (fs w) |>.
Proof.
  unfold DVRPostprocess.perform. cbn [sheltered]. destruct (t_outage t); cbn [effect fst]; [| |by left];
    destruct (fs w !! p) as [[|x]|]; try (by left); by right.
Qed.

(** The database said no, or was not heard. *)
Lemma unmove_ok wk final x k w2 w3 (Q : string + string → World → Prop) m :
  moved wk final x k w2 → fs w3 = fs w2 → safe w3 → (∀ w', safe w' → Q (inl m) w') →
  wp (if String.eqb final src then Ret (inl m)
      else let! _ := Rename final wk in let* _ := restoreOriginal src k in Ret (inl m)) Q w3.
Proof.
  intros [H1 _ _ [Hx _] (H4 & H5 & H5') H6] Hf Hs HQ.
  destruct (String.eqb_spec final src) as [|Hn]; [split; [done|by apply HQ]|].
  split; [done|]. cbn [is_script]. intros t _.
  assert (∀ p, p ∉ [T1; T2] → p ≠ final → fs (perform (Rename final wk) t w3).1 !! p = fs w3 !! p) as Hother.
  { intros p Hp Hpf. destruct (perform_rename final wk t w3) as [[-> _]|(y & _ & _ & ->)]; [done|].
    change (<[wk := Reg y]> (delete final (fs w3)) !! p = fs w3 !! p).
    rewrite lookup_insert_ne, lookup_delete_ne; [done|done|]. intros ->. done. }
  assert (others (perform (Rename final wk) t w3).1) as Ho.
  { destruct (perform_rename final wk t w3) as [[-> _]|(y & _ & _ & ->)]; [apply Hs|].
    apply others_rename; [done|by apply free_temp|apply Hs]. }
  apply wpc_bind, restore_safe.
  - destruct k as [k|]; [|done]. destruct H6 as (Hk & Hk0 & Hkc). split; [set_solver|]. split; [done|].
    rewrite Hother, Hf; [done|set_solver..].
  - destruct k as [k|].
    + destruct H6 as (Hk & _ & Hkc). apply (safe_c0 _ k); [done|set_solver|]. rewrite Hother, Hf; [done|set_solver..].
    + destruct H6 as [_ Hc]. apply (safe_c0 _ src); [done|apply src_not_temp|].
      rewrite Hother, Hf; [by apply Hc|apply src_not_temp|done].
  - intros w' Hw'. split; [done|by apply HQ].
Qed.

Lemma drop_original_ok file final w :
  committed file final w → rewrites set = true → wp (drop_original src final set) (λ _ w', committed file final w') w.
Proof.
  intros Hc Hr. unfold drop_original. destruct (_ && _) eqn:E; [|split; [apply Hc|done]]. breflect. destruct E as [Ed En].
  split; [apply Hc|]. cbn [is_script]. intros t _.
  assert (committed file final (perform (Remove src) t w).1) as Hc'; [|split; [apply Hc'|done]].
  destruct (perform_remove src t w) as [-> | ->]; [done|].
  destruct Hc as ([Ho _] & Hp & Hft & [(_ & ? & _)|(x & _ & Hx & Hxd & Hrow & _)]); [congruence|].
  assert (delete src (fs w) !! final = Some (Reg x)) as Hx' by (rewrite lookup_delete_ne; [done|congruence]).
  split_and!; [|done|done|right; exists x; split_and!; [done..|congruence]].
  split; [|right; split; [done|]; by exists final, x].
  intros q y Hq Hn. change (delete src (fs w) !! q = Some y). rewrite lookup_delete_ne by set_solver. by apply Ho.
Qed.

Definition swap_outcome (file : N) (r : string + string) (w : World) : Prop :=
  match r with inl _ => safe w | inr f => committed file f w end.

Lemma stored_ok wk final x k file info size w :
  moved wk final x k w → rewrites set = true → size = slen x →
  wp (let! u := QSwap (swap_params id file final size info k) in
      match u with
      | Err e =>
          if String.eqb final src then Ret (inl ("update database: " +:+ e))
          else let! _ := Rename final wk in
               let* _ := restoreOriginal src k in Ret (inl ("update database: " +:+ e))
      | Ok _ => let* _ := drop_original src final set in Ret (inr final)
      end) (swap_outcome file) w.
Proof.
  intros Hm Hr ->. pose proof (moved_safe _ _ _ _ _ Hm) as Hs. split; [done|]. cbn [is_script]. intros t _.
  pose proof Hm as [Ho [Ht _] Hj [Hx Hxd] (Hwk & Hft & _) Hk].
  destruct (perform_swap (swap_params id file final (slen x) info k) t w eq_refl Ht Hj) as [[-> Hn]|Hw].
  - destruct (perform _ t w).2 as [[]|e]; [done|]. eapply unmove_ok; [exact Hm|done|done|]. by intros w' Hw'.
  - destruct (perform _ t w) as [w3 u]. cbn [fst snd] in *. destruct Hw as (Hf & Hp & Horig & Hrow). cbn in Hp, Horig, Hrow.
    assert (safe w3) as Hs3.
    { destruct k as [k|]; [destruct Hk as (Hk & _ & Hkc); apply (safe_c0 w3 k); [by unfold others; rewrite Hf|set_solver|by rewrite Hf]|].
      split; [by unfold others; rewrite Hf|]. right. split; [apply Hk|]. exists final, x. by rewrite Hf. }
    destruct u as [[]|e]; [|eapply unmove_ok; [exact Hm|done|done|by intros w' Hw']].
    apply wpc_bind. eapply wpc_mono; [|apply (drop_original_ok file); [|done]].
    { intros a w' Hs' Hc'. by split. }
    split; [done|]. split; [done|]. split; [done|]. right. exists x. rewrite Hf. split_and!; [done..|].
    intros Hdel. destruct k as [k|]; [|destruct Hk; congruence]. destruct Hk as (Hk & _ & Hkc).
    exists k. split; [set_solver|done].
Qed.
Lemma swap_in_ok wk final x k file info w :
  ready wk final x k w → rewrites set = true →
  wp (swap_in id src wk final file set info k) (swap_outcome file) w.
Proof.
  intros Hw Hr. pose proof (ready_safe _ _ _ _ _ Hw) as Hs. unfold swap_in. split; [done|]. cbn [is_script]. intros t _.
  destruct (rename_moved wk final x k t w Hw) as [[-> Hn]|Hm].
  { destruct (perform _ t w).2 as [[]|e]; [done|]. apply wpc_bind, restore_safe; [|done|by intros w' Hw'].
    destruct Hw as [_ _ _ _ _ H6]. destruct k as [k|]; [|done]. destruct H6 as (? & ? & ?). split_and!; [set_solver|done..]. }
  destruct (perform _ t w) as [w2 r]. cbn [fst snd] in *. pose proof (moved_safe _ _ _ _ _ Hm) as Hs2.
  destruct r as [_|e].
  2:{ apply wpc_bind, restore_safe; [|done|by intros w' Hw'].
    destruct Hm as [_ _ _ _ _ H6]. destruct k as [k|]; [|done]. destruct H6 as (? & ? & ?). split_and!; [set_solver|done..]. }
  split; [done|]. cbn [is_script]. intros t' _. destruct (perform_stat final t' w2) as [E _]. rewrite E. 
  destruct (perform (Stat final) t' w2).2 as [st|e] eqn:Est; [|by split].
  pose proof (perform_stat_file final x t' w2 st (proj1 (moved_file _ _ _ _ _ Hm)) Est) as ->. by eapply stored_ok.
Qed.

Lemma originals_dir_plain : plain OriginalsDirName.
Proof. unfold plain, OriginalsDirName. by split_and!. Qed.
Definition originals : list string := dirs ++ [OriginalsDirName].
Lemma originals_plain : originals ≠ [] ∧ Forall plain originals.
Proof.
  split; [unfold originals; by destruct dirs|]. apply Forall_app. split; [done|]. constructor; [apply originals_dir_plain|done].
Qed.

(** The capture is at its place, the processed file beside it. *)
Record staged (wk final x : string) (w : World) : Prop := {
  staged_others : others w;
  staged_tables : recordings w = recordings w0 ∧ media_files w = media_files w0;
  staged_job : is_Some (jobs w !! id);
  staged_work : wk ∈ [T1; T2] ∧ fs w !! wk = Some (Reg x) ∧ derived x;
  staged_final : (∃ b', final = abs (dirs ++ [b']) ∧ plain b') ∧ final ∉ [T1; T2] ∧ free final;
  staged_new : ∀ q, q ∉ [T1; T2; abs originals] → fs w !! q = fs w0 !! q;
  staged_src : fs w !! src = Some (Reg c0) }.
Lemma staged_safe wk final x w : staged wk final x w → safe w.
Proof. intros [Ho _ _ _ _ _ Hs]. apply (safe_c0 w src); [done|apply src_not_temp|done]. Qed.

Lemma perform_mkdir p t w :
  (perform (MkdirAll p) t w).1 = w
  ∨ (∀ x, fs w !! p ≠ Some (Reg x)) ∧ (perform (MkdirAll p) t w).1 = w <| fs := <[p := Dir_]> (fs w) |>.
Proof.
  unfold DVRPostprocess.perform. cbn [sheltered]. destruct (t_outage t); cbn [effect fst]; [| |by left];
    destruct (fs w !! p) as [[|x]|]; try (by left); right; done.
Qed.
Lemma mkdir_staged wk final x t w :
  staged wk final x w → staged wk final x (perform (MkdirAll (abs originals)) t w).1.
Proof.
  set (p := abs originals). intros Hw. destruct (perform_mkdir p t w) as [-> |[Hp ->]]; [done|].
  destruct Hw as [H1 H2 H3 (H4 & Hx & Hxd) H5 H6 H7].
  assert (∀ q y, fs w !! q = Some (Reg y) → <[p := Dir_]> (fs w) !! q = Some (Reg y)) as Hr.
  { intros q y Hq. rewrite lookup_insert_ne; [done|]. intros ->. by apply (Hp y). }
  split; [|done|done| |done| |by apply Hr].
  3:{ intros q Hq. rewrite <-(H6 q Hq). apply lookup_insert_ne. rewrite !not_elem_of_cons in Hq. by destruct Hq as (_ & _ & Hq & _). }
  - intros q y Hq Hn. change (<[p := Dir_]> (fs w) !! q = Some y). specialize (H1 q y Hq Hn).
    destruct (decide (q = p)) as [->|]; [|by rewrite lookup_insert_ne].
    rewrite lookup_insert_eq. destruct y as [|y]; [done|]. by destruct (Hp y).
  - split; [done|]. split; [by apply Hr|done].
Qed.

(** Nothing in the originals folder is a name of the recording's folder. *)
Lemma originals_apart b' b2 : plain b' → plain b2 → abs (originals ++ [b']) ≠ abs (dirs ++ [b2]).
Proof.
  intros H1 H2. apply abs_ne; [apply originals_plain|done..|]. intros [= E _]. apply (f_equal length) in E.
  unfold originals in E. rewrite length_app in E. simpl in E. lia.
Qed.
Lemma originals_name b' : plain b' → abs (originals ++ [b']) ∉ [src; T1; T2].
Proof.
  intros Hp. rewrite !not_elem_of_cons. 
  split; [by apply originals_apart|]. split; [apply originals_apart; [done|by apply temp_plain]|].
  split; [apply originals_apart; [done|by apply temp_plain]|apply not_elem_of_nil].
Qed.
Lemma candidate_plain b b' : plain b → candidate b b' → plain b'.
Proof. intros Hp [->|(i & Hi & ->)]; [done|by apply numbered_plain]. Qed.

Lemma staged_none wk final x w b' :
  staged wk final x w → plain b' → fs w0 !! abs (originals ++ [b']) = None → fs w !! abs (originals ++ [b']) = None.
Proof.
  intros [_ _ _ _ _ Hn _] Hp H0. rewrite Hn; [done|]. pose proof (originals_name b' Hp) as Ha.
  assert (abs (originals ++ [b']) ≠ abs originals) as Hne; [|set_solver].
  intros E. apply abs_inj in E.
  - apply (f_equal length) in E. rewrite length_app in E. simpl in E. lia.
  - apply plain_no_slash, Forall_app. split; [apply originals_plain|by constructor].
  - apply plain_no_slash, originals_plain.
Qed.
Lemma aside_ready wk final x b' t w :
  let k := abs (originals ++ [b']) in
  staged wk final x w → plain b' → fs w !! k = None →
  let r := perform (Rename src k) t w in
  (r.1 = w ∧ r.2 ≠ Ok ()) ∨ ready wk final x (Some k) r.1.
Proof.
  intros k [H1 H2 H3 (H4 & Hx & Hxd) ((b2 & -> & Hb2) & Hft & Hfr) H6 H7] Hp Hk r.
  pose proof (originals_name b' Hp) as Hn. fold k in Hn. pose proof (originals_apart b' b2 Hp Hb2) as Hkf. fold k in Hkf.
  destruct (perform_rename src k t w) as [Hr|(y & Hy & _ & Hr)]; [by left|right]. unfold r. rewrite Hr. clear r Hr.
  assert (fs w0 !! k = None) as Hk0.
  { destruct (fs w0 !! k) as [y'|] eqn:E; [|done]. by rewrite (H1 k y' E Hn) in Hk. }
  split; [apply others_rename; [apply free_src|by right|done]|done|done| |done|].
  - split; [done|]. split; [|done]. change (<[k := Reg y]> (delete src (fs w)) !! wk = Some (Reg x)).
    rewrite lookup_insert_ne, lookup_delete_ne; [done| |set_solver]. intros <-. by apply src_not_temp.
  - split; [set_solver|]. split; [done|]. change (<[k := Reg y]> (delete src (fs w)) !! k = Some (Reg c0)).
    rewrite lookup_insert_eq. congruence.
Qed.

Lemma move_aside_ok wk final x w :
  staged wk final x w →
  wp (move_aside src set) (λ r w', match r with inl _ => safe w' | inr k => ready wk final x k w' end) w.
Proof.
  intros Hw. unfold move_aside. destruct (DeleteOriginal set) eqn:Ed.
  { split; [by eapply staged_safe|]. destruct Hw as [? ? ? ? [_ ?] ? ?]. by split. }
  assert (Dir src = abs dirs ∧ Base src = base) as [-> ->] by (unfold src_; by rewrite Dir_abs, Base_abs).
  rewrite JoinPath_abs by (done || apply originals_dir_plain).
  change (dirs ++ [OriginalsDirName]) with originals. split; [by eapply staged_safe|]. cbn [is_script]. intros t _.
  pose proof (mkdir_staged wk final x t w Hw) as Hw1.
  destruct (perform _ t w) as [w1 [u|e]]; cbn [fst snd] in *; [|split; by eapply staged_safe].
  destruct originals_plain as [Ho1 Ho2]. rewrite JoinPath_abs by done. apply wpc_bind, uniquePath_ok; [done..|by eapply staged_safe| |].
  { intros t' [Hn Hf]. rewrite numbered_abs in * by done. pose proof (numbered_plain base _ Hb Hn) as Hp.
    apply (staged_none wk final x); [done..|]. rewrite <-numbered_abs by done. apply Hf. }
  intros b' Hc Hk. pose proof (candidate_plain _ _ Hb Hc) as Hp. pose proof (originals_name b' Hp) as Hn.
  split; [by eapply staged_safe|]. cbn [is_script]. intros t' _.
  destruct (aside_ready wk final x b' t' w1 Hw1 Hp Hk) as [[-> Hne]|Hr].
  - destruct (perform (Rename src _) t' w1).2 as [[]|e]; [done|]. split; by eapply staged_safe.
  - pose proof (ready_safe _ _ _ _ _ Hr). by destruct (perform (Rename src _) t' w1).2.
Qed.

(** A name for the processed file. *)
Lemma final_candidate b' :
  candidate (final_base base (Container set)) b' → plain b' ∧ abs (dirs ++ [b']) ∉ [T1; T2].
Proof.
  intros Hc. pose proof (candidate_plain _ _ (final_plain base (Container set) Hb) Hc) as Hp. split; [done|].
  assert (∀ st, no_slash st = true → abs (dirs ++ [b']) ≠ temp dirs base (Container set) st) as H.
  { intros st Hst. apply abs_ne; [done..|by apply temp_plain|]. intros [= ->].
    destruct Hc as [Hc|(i & _ & Hc)];
      [destruct (final_not_temp base (Container set) Hb "" st Hst)|destruct (final_not_temp base (Container set) Hb i st Hst)]; congruence. }
  rewrite !not_elem_of_cons. split; [by apply H|]. split; [by apply H|apply not_elem_of_nil].
Qed.
Lemma stage_staged s w b' :
  untouched w → candidate (final_base base (Container set)) b' →
  abs (dirs ++ [b']) = src ∨ fs w !! abs (dirs ++ [b']) = None →
  work s ∈ [T1; T2] → (∃ x, fs w !! work s = Some (Reg x) ∧ info_of x = Some (workInfo s) ∧ derived x) →
  ∃ x, staged (work s) (abs (dirs ++ [b'])) x w.
Proof.
  intros Hu Hc Hf Hwk (x & Hx & _ & Hxd). destruct (final_candidate b' Hc) as [Hp Hnt]. exists x.
  pose proof (untouched_safe w Hu) as [Ho _]. pose proof Hu as (Hfs & Hr & Hm & Hj). split; try done.
  - by apply (Hj id).
  - split; [by exists b'|]. split; [done|]. destruct Hf as [->|Hf]; [apply free_src|]. right. by rewrite <-(Hfs _ Hnt).
  - intros q Hq. apply Hfs. rewrite !not_elem_of_cons in *. naive_solver.
  - by rewrite (Hfs _ src_not_temp).
Qed.
Lemma commit_ok s file w :
  stage_ok [T1; T2] s w → work s ≠ src →
  wp (commit id src (work s) file set (workInfo s)) (swap_outcome file) w.
Proof.
  intros (Hu & _ & [(? & _)|(Hwk & Hr & Hx)]) Hne; [done|]. unfold commit. rewrite final_name_eq by done.
  pose proof (final_plain base (Container set) Hb) as Hfp.
  assert (∀ b', candidate (final_base base (Container set)) b' → abs (dirs ++ [b']) = src ∨ fs w !! abs (dirs ++ [b']) = None →
    wp (let* k := move_aside src set in
        match k with inl e => Ret (inl e) | inr k => swap_in id src (work s) (abs (dirs ++ [b'])) file set (workInfo s) k end)
      (swap_outcome file) w) as Hgo.
  { intros b' Hc Hf. destruct (stage_staged s w b' Hu Hc Hf Hwk Hx) as [x Hst]. apply wpc_bind.
    eapply wpc_mono; [|by apply (move_aside_ok (work s) (abs (dirs ++ [b'])) x)].
    intros [e|k] w' Hs' Hk; [by split|by eapply swap_in_ok]. }
  apply wpc_bind. destruct (String.eqb_spec (abs (dirs ++ [final_base base (Container set)])) src) as [E|E].
  - split; [by apply untouched_safe|]. apply Hgo; [by left|by left].
  - apply uniquePath_ok; [done..|by apply untouched_safe| |].
    + intros t [Hn Hf]. rewrite numbered_abs in * by done.
      destruct (final_candidate (numbered_name (final_base base (Container set)) (take_bytes 8 (t_uuid t)))) as [_ Hnt].
      { right. eauto. }
      rewrite (untouched_fs w _ Hu Hnt), <-numbered_abs by done. apply Hf.
    + intros b' Hc Hf. apply Hgo; [done|by right].
Qed.

Definition not_replaced (r : string + string) : Prop :=
  match r with inl e => HasPrefix e "could not replace the recording: " = true | inr _ => True end.
Lemma save_stage_ok s file w :
  stage_ok [T1; T2] s w →
  wp (save_stage cfg id src file s) (λ r w', swap_outcome file r w' ∧ not_replaced r) w.
Proof.
  intros Hs. pose proof Hs as (Hu & _ & Hc). unfold save_stage.
  destruct (String.eqb_spec (work s) src) as [E|E].
  { split; [by apply untouched_safe|]. split; [|done]. split; [by apply untouched_safe|]. split; [by apply untouched_path|].
    split; [apply src_not_temp|]. left. destruct Hc as [(_ & _ & Hr)|(Hwk & _)]; [done|].
    rewrite E in Hwk. by destruct src_not_temp. }
  apply wpc_bind. eapply (mild_stage S_ []); [set_solver|done|apply mild_progress|]. intros _ w1 Hu1 Hw1 _.
  apply wpc_bind. eapply wpc_mono; [|apply commit_ok; [|done]].
  - intros [e|f] w' Hs' Hr; (split; [done|split; [done|]]); [|done]. unfold not_replaced, HasPrefix. by rewrite CutPrefix_app'.
  - apply (stage_within _ [] s w); [set_solver|done..].
Qed.

(** ** The whole job *)
Definition row_file : N := file_id src w0.
Definition job_outcome (kind : JobKind) (r : JobStatus * string) (w : World) : Prop :=
  match kind, r.1 with
  | PostProcessFull, PostProcessProcessed => ∃ final, committed row_file final w
  | PostProcessFull, _ => untouched w ∨ HasPrefix r.2 "could not replace the recording: " = true
  | PostProcessDetect, _ => untouched w
  end.
Hypothesis HS : ∀ script p w, committed row_file p w → S_ (RunScript script p) w.

Lemma committed_within X final w w' :
  X ⊆ [T1; T2] → within X w w' → committed row_file final w → committed row_file final w'.
Proof.
  intros HX (Hf & Hr & Hm & Hj) ((Ho & Hk) & Hp & Ht & Hc).
  assert (∀ q, q ∉ [T1; T2] → fs w' !! q = fs w !! q) as Hf' by (intros q Hq; apply Hf; set_solver).
  assert (path_of w' = path_of w) as Hp' by (unfold path_of; by rewrite Hr).
  split; [split|rewrite Hp'; split; [done|split; [done|]]].
  - intros q y Hq Hn. rewrite Hf'; [by apply Ho|]. rewrite !not_elem_of_cons in *. naive_solver.
  - destruct Hk as [(p & Hpt & Hpc)|(Hd' & p & x & H1 & H2 & H3)].
    + left. exists p. by rewrite Hf'.
    + right. split; [done|]. exists p, x. by rewrite Hp', Hf'.
  - destruct Hc as [(-> & Hrw & Hu)|(x & Hrw & Hx & Hxd & Hrow & Hdel)].
    + left. split; [done|]. split; [done|]. by apply (untouched_within X w).
    + right. exists x. rewrite Hf' by done. split_and!; [done..| |].
      * unfold row_of. by rewrite Hm.
      * intros Hde. destruct (Hdel Hde) as (k & Hkt & Hko & Hkc). exists k. rewrite Hf' by done.
        destruct (Hj id) as [-> _]. done.
Qed.
Lemma mild_committed {A} X (R : A → Prop) (p : prog A) (Q : A → World → Prop) final w :
  X ⊆ [T1; T2] → committed row_file final w → mild X R p →
  (∀ a w', committed row_file final w' → R a → Q a w') → wp p Q w.
Proof.
  intros HX Hc Hp HQ. apply (mild_wpc ffprobe allowed safe S_ X R); [|done|].
  - intros w' Hw. by apply (committed_within X final w w').
  - intros a w' Hw Ha. apply HQ; [by apply (committed_within X final w w')|done].
Qed.

Lemma mild_remove X l : l ⊆ X → mild X (λ _, True) (remove_temps l).
Proof.
  induction l as [|t l IH]; intros Hl; [done|]. split; [apply mem_spec; set_solver|]. intros _. apply IH. set_solver.
Qed.
Lemma cleaning_untouched ts (r : JobStatus * string) w :
  ts ⊆ [T1; T2] → untouched w → wp (cleaning ts r) (λ r' w', r' = r ∧ untouched w') w.
Proof.
  intros Hts Hu. eapply (mild_stage S_ [T1; T2] (λ r', r' = r)); [done|done| |by intros r' w' Hu' _ ->].
  eapply mild_bind; [by apply mild_remove|done].
Qed.
Lemma mild_markers file found was_cut s :
  mild [] (λ s', temps s' = temps s) (save_markers file found was_cut s).
Proof.
  unfold save_markers. destruct found as [[b so]|]; [|done]. destruct (negb (N.eqb file 0)); [|by destruct (_ && _)].
  split; [done|]. intros [u|e]; [by destruct was_cut|done].
Qed.
Lemma run_script_ok final s w :
  committed row_file final w → temps s ⊆ [T1; T2] →
  wp (let* out := run_script cfg id final s in cleaning (temps s) out)
    (λ r w', r.1 = PostProcessProcessed ∧ ∃ final, committed row_file final w') w.
Proof.
  intros Hc Ht. apply wpc_bind. unfold run_script. destruct (String.eqb (ScriptPath cfg) "").
  - split; [apply Hc|]. eapply (mild_committed [T1; T2] (λ r, r.1 = PostProcessProcessed)); [done|exact Hc| |by eauto].
    eapply mild_bind; [by apply mild_remove|done].
  - apply wpc_bind. eapply (mild_committed []); [set_solver|exact Hc|apply mild_progress|].
    intros _ w1 Hc1 _. split; [apply Hc1|]. by apply HS.
Qed.
Lemma safe_cleaning ts (r : JobStatus * string) w :
  safe w → ts ⊆ [T1; T2] → wp (cleaning ts r) (λ r' _, r' = r) w.
Proof.
  intros Hs Hts. apply (mild_wpc ffprobe allowed safe S_ [T1; T2] (λ r', r' = r)); [| |done].
  - intros w' (Hf & Hr & _). destruct Hs as [Ho Hk]. split.
    + intros q y Hq Hn. rewrite Hf; [by apply Ho|]. rewrite !not_elem_of_cons in *. naive_solver.
    + destruct Hk as [(p & Hpt & Hpc)|(Hd' & p & x & H1 & H2 & H3)].
      * left. exists p. by rewrite Hf.
      * right. split; [done|]. exists p, x. unfold path_of. by rewrite Hr, Hf.
  - eapply mild_bind; [by apply mild_remove|done].
Qed.

Lemma processFull_ok srcInfo w :
  untouched w → info_of c0 = Some srcInfo →
  wp (processFull cfg id src srcInfo row_file) (job_outcome PostProcessFull) w.
Proof.
  intros Hu Hi. unfold processFull. apply wpc_bind. eapply wpc_mono; [|by apply rewrite_stage_ok].
  intros [[e ts]|s] w1 _ H1.
  { destruct H1 as [Hu1 Hts]. eapply wpc_mono; [|by apply cleaning_untouched]. intros r w2 _ [-> Hu2]. by left. }
  apply wpc_bind. eapply wpc_mono; [|by apply detect_stage_ok]. intros [s2 found] w2 _ [H2 Hfound]. cbn [fst snd] in *.
  apply wpc_bind.
  assert (wp (match found with Some (breaks, _) => cut_stage cfg id src s2 breaks | None => Ret (s2, false) end)
    (λ r w, stage_ok [T1; T2] r.1 w) w2) as Hcut.
  { destruct found as [[b so]|]; [by apply cut_stage_ok|]. destruct H2 as (Hu2 & Ht2 & Hc2).
    split; [by apply untouched_safe|]. split; [done|]. split; [done|].
    destruct Hc2 as [?|[? ?]]; [by left|right; split; [set_solver|done]]. }
  eapply wpc_mono; [|exact Hcut]. intros [s3 wc] w3 _ H3. cbn [fst snd] in *.
  assert (temps s3 ⊆ [T1; T2]) as Ht by apply H3.
  apply wpc_bind. eapply wpc_mono; [|by apply save_stage_ok]. intros [e|final] w4 Hs4 [H4 Hm].
  - eapply wpc_mono; [|by apply safe_cleaning]. intros r w5 _ ->. by right.
  - apply wpc_bind. eapply (mild_committed []); [set_solver|exact H4|apply mild_markers|].
    intros s5 w5 H5 Hts. rewrite <-Hts in Ht. eapply wpc_mono; [|by apply run_script_ok].
    intros r w6 _ [Hr Hc]. unfold job_outcome. by rewrite Hr.
Qed.

Lemma processDetect_mild srcInfo file : mild [] (λ _, True) (processDetect cfg id src srcInfo file).
Proof.
  unfold processDetect. destruct (N.eqb file 0); [done|]. eapply mild_bind; [apply mild_progress|]. intros _ _.
  eapply mild_bind; [apply mild_detect|]. intros [e|[b so]] _; done.
Qed.

(** A step that only reads, what it tells when it tells something. *)
Lemma perform_read s t w (P : answer s → Prop) :
  (effect ffprobe s t w).1 = w → sheltered s = false →
  (∀ a, (effect ffprobe s t w).2 = Ok a → P a) →
  (perform s t w).1 = w ∧ ∀ a, (perform s t w).2 = Ok a → P a.
Proof.
  intros H1 H2 H3. unfold DVRPostprocess.perform. rewrite H2. destruct (t_outage t); cbn [fst snd]; by split.
Qed.
Lemma untouched_start : untouched w0.
Proof. unfold untouched. reflexivity. Qed.
Lemma job_outcome_early kind st m : st = PostProcessFailed → job_outcome kind (st, m) w0.
Proof. intros ->. destruct kind; [left|]; apply untouched_start. Qed.
Lemma process_ok kind : wp (process cfg id kind) (job_outcome kind) w0.
Proof.
  pose proof (untouched_safe w0 untouched_start) as Hs. unfold process.
  assert (∀ m, wp (Ret (PostProcessFailed, m)) (job_outcome kind) w0) as Hfail.
  { intros m. split; [done|]. by apply job_outcome_early. }
  split; [done|]. cbn [is_script]. intros t1 _.
  destruct (perform_read (QRecording id) t1 w0 (λ r, R_FilePath r = Some src)) as [-> Hr]; [done|done| |].
  { intros r. cbn [effect snd]. unfold path_of in Hpath. destruct (GetRecording id (recordings w0)); [|done]. by intros [= <-]. }
  destruct (perform (QRecording id) t1 w0).2 as [r|e]; [|apply Hfail]. rewrite (Hr r eq_refl).
  destruct (R_Status r); try apply Hfail. destruct (String.eqb src ""); [apply Hfail|].
  split; [done|]. cbn [is_script]. intros t2 _. destruct (perform_stat src t2 w0) as [-> _].
  destruct (perform (Stat src) t2 w0).2 as [[size| |]|e]; try apply Hfail.
  split; [done|]. cbn [is_script]. intros t3 _.
  destruct (perform_read (ProbeMedia src) t3 w0 (λ i, info_of c0 = Some i)) as [-> Hi]; [done|done| |].
  { intros i. cbn [effect snd]. rewrite Hsrc. unfold info_of. destruct (ffprobe c0); [|done]. by intros [= <-]. }
  destruct (perform (ProbeMedia src) t3 w0).2 as [i|e]; [|apply Hfail]. specialize (Hi i eq_refl).
  split; [done|]. cbn [is_script]. intros t4 _.
  destruct (perform_read (QFileID src) t4 w0 (λ f, f = row_file)) as [-> Hf]; [done|done| |].
  { intros f. cbn [effect snd]. by intros [= <-]. }
  destruct (perform (QFileID src) t4 w0).2 as [f|e]; [|apply Hfail]. specialize (Hf f eq_refl) as ->.
  destruct kind; [apply processFull_ok; [apply untouched_start|done]|].
  eapply (mild_stage S_ []); [set_solver|apply untouched_start|apply processDetect_mild|]. by intros a w' Hu _ _.
Qed.
End Pipeline.
End Safe.

(** A completed capture with the bytes [c0] at an absolute path, and its job. *)
Record captured (id : nat) (dirs : list string) (base c0 : string) (w : World) : Prop := {
  captured_dirs : dirs ≠ [] ∧ Forall plain dirs;
  captured_name : plain base ∧ Ext base ≠ partSuffix;
  captured_path : path_of id w = Some (src_ dirs base);
  captured_file : fs w !! src_ dirs base = Some (Reg c0);
  captured_job : is_Some (jobs w !! id) }.

(** Given turns for ever, a program ends. *)
Lemma run_ends {A} ffprobe (p : prog A) (f : nat → Turn) w :
  ∃ n a w' tr, run ffprobe p (f <$> seq 0 n) w = (Some a, w', tr).
Proof.
  assert (∀ k, ∃ n a w' tr, run ffprobe p (f <$> seq k n) w = (Some a, w', tr)) as H; [|apply H].
  revert w. induction p as [a|s p IH]; intros w k; [by exists O, a, w, []|].
  destruct (IH (perform ffprobe s (f k) w).2 (perform ffprobe s (f k) w).1 (S k)) as (n & a & w' & tr & E).
  exists (S n), a, w', ((s, w) :: tr). cbn [seq fmap list_fmap run]. 
  destruct (perform ffprobe s (f k) w) as [w1 r]. cbn [fst snd] in E. by rewrite E.
Qed.

(** C4: post-processing never loses a recording.  Whatever fails and wherever
    the process dies, at every instant until the operator's script is started
    every file but the capture and the temporary ones is as it was, and the
    capture's bytes are still in some file, unless originals are deleted and the
    recording points at a file that was verified against the capture.  A job that
    says processed, and the script, find the recording at the path the tables
    say, verified, the library row describing it and a kept original recorded; a
    job that fails before the swap leaves files and tables as they were.  A job
    that is not interrupted ends. *)
Theorem recording_never_lost (ffprobe : string → option RawProbe) (cfg : Config) (id : nat) (dirs : list string)
    (base c0 : string) (w0 : World) (kind : JobKind) (ts : list Turn) :
  captured id dirs base c0 w0 → Forall (allowed w0) ts →
  let safe := safe ffprobe cfg id dirs base c0 w0 in
  let committed := committed ffprobe cfg id dirs base c0 w0 (row_file dirs base w0) in
  let '(a, w', tr) := run ffprobe (process cfg id kind) ts w0 in
  Forall (λ x : step * World, safe x.2 ∧ ∀ script p, x.1 = RunScript script p → committed p x.2) (before_script tr)
  ∧ (scripted tr = false → safe w' ∧ ∀ r, a = Some r → job_outcome ffprobe cfg id dirs base c0 w0 kind r w')
  ∧ ∀ f : nat → Turn, ∃ n a w' tr, run ffprobe (process cfg id kind) (f <$> seq 0 n) w0 = (Some a, w', tr).
Proof.
  intros [[H1 H2] [H3 H4] H5 H6 H7] Hts safe committed.
  assert (∀ f : nat → Turn, ∃ n a w' tr, run ffprobe (process cfg id kind) (f <$> seq 0 n) w0 = (Some a, w', tr)) as He
    by (intros f; apply run_ends).
  set (S_ := λ s w, ∀ script p, s = RunScript script p → committed p w).
  assert (wpc ffprobe (allowed w0) safe S_ (process cfg id kind) (job_outcome ffprobe cfg id dirs base c0 w0 kind) w0) as Hw.
  { apply process_ok; try done. by intros script p w Hc script' p' [= <- <-]. }
  pose proof (wpc_run _ _ _ _ _ _ _ _ Hw Hts) as Hr.
  destruct (run ffprobe (process cfg id kind) ts w0) as [[a w'] tr]. destruct Hr as [Hr1 Hr2].
  split; [|by split]. eapply Forall_impl; [exact Hr1|]. intros [s w] [Hs Hc]. split; [done|].
  intros script p E. apply (Hc ltac:(cbn in E |- *; by rewrite E) script p E).
Qed.
