(* ===== verification/DVRPostprocessCases.v ===== *)
(** Post-processing on concrete recordings: the theorem of [DVRPostprocessSafe]
    applied, and the cases in which the code does not do what its comments say. *)
From S2P Require Import Prelude.
From S2P Require Import GoStrings.
From S2P Require Import GoBytes.
From S2P Require Import GoPath.
From S2P Require Import DVRSchedule.
From S2P Require Import DVRWorker.
From S2P Require Import DVRCommercials.
From S2P Require Import DVRPostprocess.
From S2P Require Import DVRPostprocessSafe.

Local Open Scope Z_scope.

Module Sample.
(** Every file reads as a hundred seconds of picture and sound. *)
Definition ffprobe (x : string) : option RawProbe :=
  if String.eqb x "" then None else Some (mkRaw [("video", "h264"); ("audio", "aac")] "100.0" "matroska,webm").
Definition remux (container script : string) (del : bool) : Config :=
  mkConfig script "" "" (mkSettings true container false "" "" del CommercialsOff) [] DefaultHeuristicParams.
Definition rec : Recording :=
  mkRecording 1 None "u" "c" None "Show" None None None Completed 0 0 (Some "/dvr/show/ep.mp4") None None.
Definition w0 : World :=
  mkWorld {["/dvr/show/ep.mp4" := Reg "capture"]} [rec]
    {[5%N := mkRow "/dvr/show/ep.mp4" 7 None None None None None true None]}
    {[1%nat := mkJob PostProcessFull PostProcessProcessing None None 0]} ∅.
Definition turn (o : outage) : Turn :=
  mkTurn o "an error" 10 true (Some "processed") "/tmp/list" "abcd1234" None (mkComskip ExitOK "" None None) ∅.
Definition ups (n : nat) : list Turn := repeat (turn Up) n.
Definition path (w : World) : option string := GetRecording 1 (recordings w) ≫= R_FilePath.

Lemma turn_allowed o : allowed w0 (turn o).
Proof.
  split; [done|]. intros p.
  change (({["/dvr/show/ep.mp4" := Reg "capture"]} : gmap string node) !! numbered p "abcd1234" = None).
  apply lookup_singleton_ne. intros E.
  assert (no_byte "(" (numbered p "abcd1234") = true) as H by (by rewrite <-E).
  unfold numbered in H. rewrite !no_byte_app in H. change (no_byte "(" " (") with false in H.
  by rewrite andb_false_r in H.
Qed.
Lemma captured_ex : captured 1 ["dvr"; "show"] "ep.mp4" "capture" w0.
Proof.
  split; [split; [done|]|split; [|done]|done|done|by eexists].
  - repeat constructor; done.
  - by repeat split.
Qed.

(** Remuxed to Matroska with the capture kept; no step fails. *)
Example remuxed :
  let '(a, w, _) := run ffprobe (process (remux "mkv" "" false) 1 PostProcessFull) (ups 30) w0 in
  a = Some (PostProcessProcessed, "remuxed to MKV") ∧ path w = Some "/dvr/show/ep.mkv"
  ∧ fs w !! "/dvr/show/ep.mkv" = Some (Reg "processed")
  ∧ fs w !! "/dvr/show/.dvr-originals/ep.mp4" = Some (Reg "capture")
  ∧ mf_path <$> media_files w !! 5%N = Some "/dvr/show/ep.mkv".
Proof. vm_compute. done. Qed.

Lemma recording_never_lost_witness :
  let '(a, w', tr) := run ffprobe (process (remux "mkv" "" false) 1 PostProcessFull) (ups 30) w0 in
  safe ffprobe (remux "mkv" "" false) 1 ["dvr"; "show"] "ep.mp4" "capture" w0 w'.
Proof.
  pose proof (recording_never_lost ffprobe (remux "mkv" "" false) 1 ["dvr"; "show"] "ep.mp4" "capture" w0
    PostProcessFull (ups 30) captured_ex) as H.
  assert (Forall (allowed w0) (ups 30)) as Ht by (repeat constructor; apply turn_allowed).
  specialize (H Ht). cbv zeta in H.
  assert (scripted (run ffprobe (process (remux "mkv" "" false) 1 PostProcessFull) (ups 30) w0).2 = false) as Hs
    by (vm_compute; reflexivity).
  destruct (run ffprobe _ _ _) as [[a w'] tr]. destruct H as [_ [H _]]. by apply H.
Defined.

(** The process dies after the capture was moved aside: the recording's path
    holds nothing.  At the next start the job is failed as one that never touched
    its capture. *)
Example killed_in_the_swap :
  let '(a, w, _) := run ffprobe (process (remux "mkv" "" false) 1 PostProcessFull) (ups 12) w0 in
  a = None ∧ path w = Some "/dvr/show/ep.mp4" ∧ fs w !! "/dvr/show/ep.mp4" = None
  ∧ fs w !! "/dvr/show/.dvr-originals/ep.mp4" = Some (Reg "capture")
  ∧ j_Status <$> jobs (perform ffprobe QFailInterrupted (turn Up) w).1 !! 1%nat = Some PostProcessFailed.
Proof. vm_compute. done. Qed.

(** The look at the moved file fails: the job is failed, nothing is moved back,
    and the recording's path holds nothing. *)
Example stat_failure_dangles :
  let '(a, w, _) := run ffprobe (process (remux "mkv" "" false) 1 PostProcessFull)
                      (ups 13 ++ [turn Down] ++ ups 10) w0 in
  a = Some (PostProcessFailed, "could not replace the recording: stat processed file: an error")
  ∧ path w = Some "/dvr/show/ep.mp4" ∧ fs w !! "/dvr/show/ep.mp4" = None.
Proof. vm_compute. done. Qed.

(** The container stays the same and the database does not take the swap: the
    job is failed, yet the processed file stands where the capture stood. *)
Example same_container_not_undone :
  let '(a, w, _) := run ffprobe (process (remux "mp4" "" false) 1 PostProcessFull)
                      (ups 13 ++ [turn Down] ++ ups 10) w0 in
  a = Some (PostProcessFailed, "could not replace the recording: update database: an error")
  ∧ fs w !! "/dvr/show/ep.mp4" = Some (Reg "processed").
Proof. vm_compute. done. Qed.

(** A recording is processed, its commercials are looked for, and it may be
    processed once more. *)
Definition ask (k : JobKind) (w : World) : option (option enqueue_error) * World :=
  fst (run ffprobe (Enqueue 1 k) (ups 3) w).
Definition work_off (w : World) : World := (run ffprobe (runOne (remux "mkv" "" false)) (ups 40) w).1.2.
Definition queued0 : World := w0 <| jobs := {[1%nat := mkJob PostProcessFull PostProcessQueued None None 0]} |>.
Definition processed : World := work_off queued0.
Example processed_once : fst (ask PostProcessFull processed) = Some (Some (Ineligible "it has already been processed")).
Proof. vm_compute. done. Qed.
Definition detected : World := work_off (snd (ask PostProcessDetect processed)).
Example processed_twice :
  fst (ask PostProcessFull detected) = Some None
  ∧ (let w := work_off (snd (ask PostProcessFull detected)) in
     path w = Some "/dvr/show/ep.mkv" ∧ fs w !! "/dvr/show/.dvr-originals/ep.mkv" = Some (Reg "processed")
     ∧ fs w !! "/dvr/show/.dvr-originals/ep.mp4" = Some (Reg "capture")
     ∧ (jobs w !! 1%nat ≫= j_Original) = Some "/dvr/show/.dvr-originals/ep.mkv").
Proof. vm_compute. done. Qed.

(** Another server starts while a job runs: the job is failed under its worker
    and may be queued and claimed a second time. *)
Example restart_of_another_server :
  let claimed := (perform ffprobe QClaim (turn Up) queued0).1 in
  let failed := (perform ffprobe QFailInterrupted (turn Up) claimed).1 in
  let again := snd (ask PostProcessFull failed) in
  fst (ask PostProcessFull claimed) = Some (Some Busy) ∧ fst (ask PostProcessFull failed) = Some None
  ∧ (next_queued again ≫= λ r, Some (fst r)) = Some 1%nat.
Proof. vm_compute. done. Qed.
End Sample.
