(* ===== verification/StreamTracker.v ===== *)
(** The direct-play stream tracker: [internal/streaming/tracker.go].

    A tracker lives in process memory or in Valkey; both modes are instances of
    one interface ([Tracker], [TrackerLaws]), against which clients are proved.
    Calls to Valkey may fail and other clients may act between two of them.
    Instants are milliseconds; JSON gives back what was stored. *)
From S2P Require Import Prelude.
From S2P Require Import GoStrings.
From S2P Require Import GoBytes.
From S2P Require Import GoPath.
From S2P Require Import M3U.
From S2P Require Import Tokens.
From S2P Require Import TransKV.
From S2P Require Import Valkey.
From S2P Require Import PortMap.

Local Open Scope Z_scope.

Definition entryTTL : Z := 45000.

(** * Entries *)
Record Entry := mkEntry {
  FilePath : string; MediaItemID : UUID; ClientIP : string; ClientName : string;
  FirstSeen : Z; LastSeen : Z; UserID : UUID; FileID : UUID; OptimizedID : UUID;
  FromHeartbeat : bool; Decision : string }.
#[global] Instance Entry_eta : Eta Entry := λ e,
  mkEntry (FilePath e) (MediaItemID e) (ClientIP e) (ClientName e) (FirstSeen e) (LastSeen e)
    (UserID e) (FileID e) (OptimizedID e) (FromHeartbeat e) (Decision e).
#[global] Instance Entry_eq_dec : EqDecision Entry.
Proof. solve_decision. Defined.
Definition no_entry : Entry := mkEntry "" Nil "" "" no_time no_time Nil Nil Nil false "".

Record itemPlayState := mkPlayState { PositionMS : Z; DurationMS : Z; LastUpdate : Z }.

(** [uuid.UUID.String]: the text of an identifier holds no separator and
    determines it. *)
Class UUIDText := {
  uuid_text : UUID → string;
  uuid_text_inj : Inj (=) (=) uuid_text;
  uuid_text_plain u : sforall (λ c, is_digit c || is_lower c || Ascii.eqb c "-") (uuid_text u) = true }.
#[global] Existing Instance uuid_text_inj.

Definition streamKey (entryKey : string) : string := "stream:entry:" +:+ entryKey.

Section Keys.
Context `{UUIDText}.

Definition posKey (id : UUID) : string := "stream:pos:" +:+ uuid_text id.
Definition itemEntryKey (clientIP : string) (id : UUID) : string := clientIP +:+ "|item:" +:+ uuid_text id.
Definition heartbeatEntryKey (userID : UUID) (clientIP : string) (id : UUID) : string :=
  if uuid_Nil userID then itemEntryKey clientIP id
  else clientIP +:+ "|u:" +:+ uuid_text userID +:+ "|item:" +:+ uuid_text id.
Definition bytesEntryKey (userID : UUID) (clientIP : string) (id : UUID) : string :=
  clientIP +:+ "|u:" +:+ uuid_text userID +:+ "|bytes:" +:+ uuid_text id.
Definition pathEntryKey (clientIP filePath : string) : string := clientIP +:+ "|" +:+ filePath.
End Keys.

(** [upsert] on what was read: created from [init] when nothing was. *)
Definition refreshed (now : Z) (init : Entry) (refresh : Entry → Entry) (e : option Entry) : Entry :=
  (refresh (default (init <| FirstSeen := now |>) e)) <| LastSeen := now |>.

(** * In memory *)
Record Mem := mkMem { entries : gmap string Entry; positionByItem : gmap N itemPlayState }.
#[global] Instance Mem_eta : Eta Mem := λ m, mkMem (entries m) (positionByItem m).
Definition NewTracker : Mem := mkMem ∅ ∅.

Definition mem_SetItemState (now : Z) (id : UUID) (pos dur : Z) (m : Mem) : Mem :=
  m <| positionByItem ::= <[id := mkPlayState pos dur now]> |>.
Definition mem_GetItemState (id : UUID) (m : Mem) : Z * Z :=
  match positionByItem m !! id with Some s => (PositionMS s, DurationMS s) | None => (0, 0) end.

Definition mem_upsert (now : Z) (key : string) (init : Entry) (refresh : Entry → Entry) (m : Mem) : Mem :=
  m <| entries ::= λ es, <[key := refreshed now init refresh (es !! key)]> es |>.
Definition mem_remove (keys : list string) (m : Mem) : Mem :=
  m <| entries ::= λ es, foldl (λ es k, delete k es) es keys |>.

(** [e.LastSeen.Before(cutoff)] *)
Definition expired (now : Z) (e : Entry) : bool := LastSeen e <? now - entryTTL.
Definition mem_HasStream (now : Z) (keys : list string) (m : Mem) : bool :=
  existsb (λ k, match entries m !! k with Some e => negb (expired now e) | None => false end) keys.
Definition mem_List (now : Z) (m : Mem) : Mem * list Entry :=
  let live := filter (λ p : string * Entry, expired now p.2 = false) (entries m) in
  (m <| entries := live |>, (map_to_list live).*2).

(** * In Valkey *)
(** [SCAN] from cursor 0 to cursor 0: every key there is listed, perhaps twice. *)
Class Scanner (S : Type) `{Server S} := {
  c_scan : S → Z → string → list string;
  c_scan_complete s now p k e : HasPrefix k p = true → view s now k = Some e → k ∈ c_scan s now p;
  c_scan_sound s now p k : k ∈ c_scan s now p → HasPrefix k p = true }.

(** [json.Marshal] and [json.Unmarshal] of entries and states. *)
Class EntryJSON := {
  enc : Entry → string; dec : string → option Entry;
  enc_state : itemPlayState → string; dec_state : string → option itemPlayState;
  dec_enc e : dec (enc e) = Some e;
  dec_enc_state p : dec_state (enc_state p) = Some p }.

Section Valkey.
Context {S : Type} `{Scanner S} `{EntryJSON} `{UUIDText}.

Definition v_SetItemState (f : fault) (now t : Z) (id : UUID) (pos dur : Z) (s : S) : S :=
  (Set_ f t (posKey id) (enc_state (mkPlayState pos dur now)) entryTTL s).1.
Definition v_GetItemState (f : fault) (t : Z) (id : UUID) (s : S) : Z * Z :=
  match Get f t (posKey id) s with
  | inl (Some raw) => match dec_state raw with Some p => (PositionMS p, DurationMS p) | None => (0, 0) end
  | _ => (0, 0)
  end.

(** The clock is read, then the key, then it is written; [between] is what
    others do between the two. *)
Definition v_upsert (f1 f2 : fault) (now t1 t2 : Z) (between : S → S) (key : string)
    (init : Entry) (refresh : Entry → Entry) (s : S) : S :=
  let e := match Get f1 t1 (streamKey key) s with
           | inl (Some raw) => default no_entry (dec raw)
           | _ => no_entry
           end in
  let e := refreshed now init refresh (if IsZero (FirstSeen e) then None else Some e) in
  (Set_ f2 t2 (streamKey key) (enc e) entryTTL (between s)).1.

Definition v_remove (f : fault) (t : Z) (keys : list string) (s : S) : S := (Del f t (streamKey <$> keys) s).1.

(** One turn: whether the call fails, when it runs, what others do before it. *)
Record Turn := mkTurn { t_fault : fault; t_now : Z; t_before : S → S }.
Definition healthy (now : Z) : Turn := mkTurn FOk now id.

Fixpoint v_has (turn : nat → Turn) (i : nat) (keys : list string) (s : S) : S * bool :=
  match keys with
  | [] => (s, false)
  | k :: keys =>
      let s := t_before (turn i) s in
      match Get (t_fault (turn i)) (t_now (turn i)) (streamKey k) s with
      | inl (Some _) => (s, true)
      | _ => v_has turn (i + 1) keys s
      end
  end.
Definition v_HasStream (turn : nat → Turn) (keys : list string) (s : S) : S * bool := v_has turn 0 keys s.

Fixpoint v_reads (turn : nat → Turn) (i : nat) (keys : list string) (s : S) : S * list Entry :=
  match keys with
  | [] => (s, [])
  | k :: keys =>
      let s := t_before (turn i) s in
      let '(s', live) := v_reads turn (i + 1) keys s in
      match Get (t_fault (turn i)) (t_now (turn i)) k s with
      | inl (Some raw) => match dec raw with Some e => (s', e :: live) | None => (s', live) end
      | _ => (s', live)
      end
  end.
Definition v_List (f : fault) (t : Z) (turn : nat → Turn) (s : S) : S * list Entry :=
  match call f (λ s, (s, c_scan s t "stream:entry:")) s with
  | (s, inl keys) => v_reads turn 0 keys s
  | (s, inr _) => (s, [])
  end.
End Valkey.

(** * The interface *)
Class Tracker (T : Type) := {
  upsert : Z → string → Entry → (Entry → Entry) → T → T;
  remove : Z → list string → T → T;
  has_any : Z → list string → T → bool;
  List : Z → T → T * list Entry }.

Section Writers.
Context {T : Type} `{Tracker T} `{UUIDText}.

Definition Touch (now : Z) (clientIP filePath clientName : string) : T → T :=
  upsert now (pathEntryKey clientIP filePath) (no_entry <| FilePath := filePath |> <| ClientIP := clientIP |>)
    (λ e, e <| ClientName := clientName |>).

Definition viewer (userID mediaItemID : UUID) (clientIP : string) : Entry :=
  no_entry <| UserID := userID |> <| MediaItemID := mediaItemID |> <| ClientIP := clientIP |>.

Definition TouchFile (now : Z) (userID : UUID) (clientIP : string) (mediaItemID fileID : UUID)
    (filePath clientName : string) : T → T :=
  upsert now (bytesEntryKey userID clientIP mediaItemID) (viewer userID mediaItemID clientIP)
    (λ e, e <| FileID := fileID |> <| OptimizedID := Nil |> <| FilePath := filePath |> <| ClientName := clientName |>).

Definition TouchOptimized (now : Z) (userID : UUID) (clientIP : string) (mediaItemID sourceFileID optimizedID : UUID)
    (filePath clientName : string) : T → T :=
  upsert now (bytesEntryKey userID clientIP mediaItemID) (viewer userID mediaItemID clientIP)
    (λ e, e <| FileID := sourceFileID |> <| OptimizedID := optimizedID |> <| FilePath := filePath |>
            <| ClientName := clientName |>).

Definition HeartbeatUser (now : Z) (userID : UUID) (clientIP : string) (mediaItemID : UUID)
    (clientName decision : string) : T → T :=
  upsert now (heartbeatEntryKey userID clientIP mediaItemID)
    ((viewer userID mediaItemID clientIP) <| FromHeartbeat := true |>)
    (λ e, let e := e <| MediaItemID := mediaItemID |> <| ClientName := clientName |> <| FromHeartbeat := true |> in
          if String.eqb decision "" then e else e <| Decision := decision |>).
Definition Heartbeat (now : Z) (clientIP : string) (mediaItemID : UUID) (clientName : string) : T → T :=
  HeartbeatUser now Nil clientIP mediaItemID clientName "".

Definition RemoveHeartbeatUser (now : Z) (userID : UUID) (clientIP : string) (mediaItemID : UUID) : T → T :=
  remove now [heartbeatEntryKey userID clientIP mediaItemID].
Definition RemoveHeartbeat (now : Z) (clientIP : string) (mediaItemID : UUID) : T → T :=
  RemoveHeartbeatUser now Nil clientIP mediaItemID.
Definition RemoveStream (now : Z) (userID : UUID) (clientIP : string) (mediaItemID : UUID) : T → T :=
  remove now [heartbeatEntryKey userID clientIP mediaItemID; bytesEntryKey userID clientIP mediaItemID].

Definition stream_keys (userID : UUID) (clientIP : string) (mediaItemID : UUID) : list string :=
  [bytesEntryKey userID clientIP mediaItemID; heartbeatEntryKey userID clientIP mediaItemID].
Definition HasStream (now : Z) (userID : UUID) (clientIP : string) (mediaItemID : UUID) (t : T) : bool :=
  has_any now (stream_keys userID clientIP mediaItemID) t.

(** [Middleware]: what a GET or HEAD of a file records. *)
Definition before_slash (s : string) : string :=
  match Cut s "/" with Some (String c a, _) => String c a | _ => s end.
Definition filepath_Join (a b : string) : string :=
  let elems := filter (λ e, e ≠ "") [a; b] in
  if (length elems =? 0)%nat then "" else Clean (Join elems sl).
Definition Middleware (now : Z) (method urlPath urlPrefix diskBase remoteAddr deviceName userAgent : string) : T → T :=
  if String.eqb method "GET" || String.eqb method "HEAD" then
    let rel := default urlPath (CutPrefix urlPath urlPrefix) in
    let decoded := default rel (PathUnescape rel) in
    let clientIP := match SplitHostPort remoteAddr with Some (host, _) => host | None => remoteAddr end in
    let clientName := if String.eqb deviceName "" then before_slash userAgent else deviceName in
    Touch now clientIP (filepath_Join diskBase decoded) clientName
  else id.
End Writers.

(** * What clients rely on

    [stored] is what a writer finds under a key, [held] what readers are shown.
    A state is well formed from an instant on. *)
Class TrackerLaws (T : Type) `{Tracker T} := {
  wf : T → Z → Prop;
  stored : T → Z → string → option Entry;
  held : T → Z → string → option Entry;
  wf_later t now now' : now ≤ now' → wf t now → wf t now';
  held_stored t now k e : wf t now → held t now k = Some e → stored t now k = Some e;
  stored_later t now now' k e : wf t now → now ≤ now' → stored t now' k = Some e → stored t now k = Some e;
  held_later t now now' k e : wf t now → now ≤ now' → held t now' k = Some e → held t now k = Some e;
  has_any_law t now ks : wf t now → has_any now ks t = existsb (λ k, bool_decide (is_Some (held t now k))) ks;
  List_law t now e : wf t now → e ∈ (List now t).2 ↔ ∃ k, held t now k = Some e;
  List_keeps t now now' k : wf t now → now ≤ now' →
    wf (List now t).1 now' ∧ held (List now t).1 now' k = held t now' k
    ∧ ∀ e, stored (List now t).1 now' k = Some e → stored t now' k = Some e;
  upsert_law t now now' k init f : wf t now → now ≤ now' →
    wf (upsert now k init f t) now'
    ∧ (∀ k', k' ≠ k → stored (upsert now k init f t) now' k' = stored t now' k'
                      ∧ held (upsert now k init f t) now' k' = held t now' k')
    ∧ ∃ old, (∀ e, old = Some e → stored t now k = Some e)
      ∧ let e := refreshed now init f old in
        (∀ e', stored (upsert now k init f t) now' k = Some e' → e' = e)
        ∧ (now' - now < entryTTL → held (upsert now k init f t) now' k = Some e)
        ∧ (entryTTL < now' - now → held (upsert now k init f t) now' k = None);
  remove_law t now now' ks : wf t now → now ≤ now' →
    wf (remove now ks t) now'
    ∧ ∀ k, stored (remove now ks t) now' k = (if decide (k ∈ ks) then None else stored t now' k)
           ∧ held (remove now ks t) now' k = (if decide (k ∈ ks) then None else held t now' k) }.

(** ** The two modes *)
#[global] Instance mem_tracker : Tracker Mem := {
  upsert := mem_upsert; remove _ := mem_remove; has_any := mem_HasStream; List := mem_List }.

Lemma foldl_delete ks (es : gmap string Entry) k :
  foldl (λ es k, delete k es) es ks !! k = if decide (k ∈ ks) then None else es !! k.
Proof.
  revert es. induction ks as [|k' ks IH]; intros es; cbn [foldl].
  - destruct (decide (k ∈ [])); [set_solver|done].
  - rewrite IH. destruct (decide (k ∈ ks)), (decide (k ∈ k' :: ks)); try (exfalso; set_solver); try done.
    + assert (k = k') as -> by set_solver. by rewrite lookup_delete_eq.
    + by rewrite lookup_delete_ne by set_solver.
Qed.

Definition mem_held (m : Mem) (now : Z) (k : string) : option Entry :=
  e ← entries m !! k; if expired now e then None else Some e.

Lemma LastSeen_refreshed now init f old : LastSeen (refreshed now init f old) = now.
Proof. done. Qed.

Lemma mem_entries m f : entries (m <| entries ::= f |>) = f (entries m).
Proof. done. Qed.

#[global, refine] Instance mem_laws : TrackerLaws Mem := {
  wf _ _ := True; stored m _ k := entries m !! k; held := mem_held }.
Proof.
  - done.
  - intros m now k e _. unfold mem_held. destruct (entries m !! k); simpl; [|done]. by case_match.
  - done.
  - intros m now now' k e _ Ht. unfold mem_held, expired. destruct (entries m !! k) as [e'|]; simpl; [|done].
    destruct (Z.ltb_spec (LastSeen e') (now' - entryTTL)); [done|]. rewrite (proj2 (Z.ltb_ge _ _)) by lia. done.
  - intros m now ks _. unfold has_any, mem_tracker, mem_HasStream. induction ks as [|k ks IH]; [done|].
    cbn [existsb]. rewrite IH. f_equal. unfold mem_held. destruct (entries m !! k) as [e|]; simpl; [|done].
    by destruct (expired now e).
  - intros m now e _. cbn. rewrite list_elem_of_fmap. unfold mem_held. split.
    + intros ([k e'] & -> & Hk). apply elem_of_map_to_list, map_lookup_filter_Some in Hk as [Hk He].
      exists k. rewrite Hk. simpl in *. by rewrite He.
    + intros [k Hk]. destruct (entries m !! k) as [e'|] eqn:E; simpl in Hk; [|done].
      destruct (expired now e') eqn:Ee; [done|]. injection Hk as ->. exists (k, e). split; [done|].
      apply elem_of_map_to_list, map_lookup_filter_Some. done.
  - intros m now now' k _ Ht. split; [done|]. cbn. unfold mem_held. cbn. split.
    + rewrite mem_entries. rewrite map_lookup_filter. destruct (entries m !! k) as [e|]; [|done]. cbn.
      case_guard as Ee; [done|]. destruct (expired now e) eqn:E; [|done]. cbn. unfold expired in *. apply Z.ltb_lt in E.
      by rewrite (proj2 (Z.ltb_lt _ _)) by lia.
    + intros e E. by apply map_lookup_filter_Some in E as [-> _].
  - intros m now now' k init f _ Ht. split; [done|]. cbn. unfold mem_held. cbn. split.
    + intros k' Hk. unfold mem_upsert. by rewrite mem_entries, lookup_insert_ne by done.
    + exists (entries m !! k). split; [done|]. unfold mem_upsert. rewrite mem_entries, lookup_insert_eq. cbn.
      unfold expired. rewrite LastSeen_refreshed. split; [congruence|split; intros Hl].
      * by rewrite (proj2 (Z.ltb_ge _ _)) by lia.
      * by rewrite (proj2 (Z.ltb_lt _ _)) by lia.
  - intros m now now' ks _ Ht. split; [done|]. intros k. cbn. unfold mem_held, mem_remove.
    rewrite mem_entries, foldl_delete. by destruct (decide (k ∈ ks)).
Defined.

Section ValkeyMode.
Context {S : Type} `{Scanner S} `{EntryJSON} `{UUIDText}.

#[global] Instance valkey_tracker : Tracker S := {
  upsert now key init f s := v_upsert FOk FOk now now now id key init f s;
  remove now keys s := v_remove FOk now keys s;
  has_any now keys s := (v_HasStream (λ _, healthy now) keys s).2;
  List now s := v_List FOk now (λ _, healthy now) s }.

Definition v_held (s : S) (now : Z) (k : string) : option Entry :=
  match view s now (streamKey k) with Some (Valkey.mkEntry (Valkey.VStr raw) _) => dec raw | _ => None end.

(** What is under the tracker's keys decodes. *)
Definition v_wf (s : S) (now : Z) : Prop :=
  ∀ t, now ≤ t → ∀ k e, view s t (streamKey k) = Some e →
    ∃ raw ent d, e = Valkey.mkEntry (Valkey.VStr raw) d ∧ dec raw = Some ent.

#[global] Instance streamKey_inj : Inj (=) (=) streamKey.
Proof. intros a b. apply (inj (String.append _)). Qed.

Lemma v_get s now k : v_wf s now →
  (c_get s now (streamKey k) = None ∧ v_held s now k = None)
  ∨ ∃ raw e, c_get s now (streamKey k) = Some raw ∧ dec raw = Some e ∧ v_held s now k = Some e.
Proof.
  intros Hw. unfold v_held. destruct (view s now (streamKey k)) as [e|] eqn:E.
  - destruct (Hw now (Z.le_refl _) k e E) as (raw & ent & d & -> & Hd). right. exists raw, ent.
    split; [by eapply c_get_some|done].
  - left. split; [by apply c_get_none|done].
Qed.

Lemma v_later s now now' k e : now ≤ now' → v_held s now' k = Some e → v_held s now k = Some e.
Proof.
  intros Ht. unfold v_held. rewrite (view_age s now now' (streamKey k) Ht).
  destruct (view s now (streamKey k)) as [[v [d|]]|]; simpl; [|done|done]. by destruct (now' <? d).
Qed.

Lemma v_reads_healthy now s keys : v_wf s now → Forall (λ k, HasPrefix k "stream:entry:" = true) keys →
  (v_reads (λ _, healthy now) 0 keys s).1 = s
  ∧ ∀ e, e ∈ (v_reads (λ _, healthy now) 0 keys s).2 ↔ ∃ k, streamKey k ∈ keys ∧ v_held s now k = Some e.
Proof.
  intros Hw. generalize 0%nat. induction keys as [|k keys IH]; intros i Hk; cbn [v_reads].
  - split; [done|]. intros e. split; [by intros ?%not_elem_of_nil|]. by intros (k & ?%not_elem_of_nil & _).
  - apply Forall_cons in Hk as [Hp Hk]. destruct (IH (i + 1)%nat Hk) as [IH1 IH2].
    unfold healthy in *. cbn [t_before t_fault t_now]. unfold id in *.
    destruct (v_reads _ (i + 1) keys s) as [s' live]. cbn [fst snd] in *. subst s'.
    unfold HasPrefix in Hp. destruct (CutPrefix k "stream:entry:") as [k'|] eqn:Ec; [|done].
    apply CutPrefix_eq in Ec as ->. change ("stream:entry:" +:+ k') with (streamKey k').
    unfold Get, call. destruct (v_get s now k' Hw) as [[-> Hh]|(raw & ent & -> & Hd & Hh)]; cbn [snd].
    + split; [done|]. intros e. rewrite IH2. split; intros (k & Hin & He); exists k; split; [set_solver|done| |done].
      apply elem_of_cons in Hin as [Hin|]; [|done]. apply (inj streamKey) in Hin as ->. congruence.
    + rewrite Hd. split; [done|]. intros e. cbn [snd]. rewrite elem_of_cons, IH2. split.
      * intros [->|(k & Hin & He)]; [exists k'; split; [set_solver|done]|exists k; split; [set_solver|done]].
      * intros (k & Hin & He). apply elem_of_cons in Hin as [Hin|Hin]; [|right; eauto].
        apply (inj streamKey) in Hin as ->. left. congruence.
Qed.

Lemma v_has_healthy now s keys i : v_wf s now →
  (v_has (λ _, healthy now) i keys s).2 = existsb (λ k, bool_decide (is_Some (v_held s now k))) keys.
Proof.
  intros Hw. revert i. induction keys as [|k keys IH]; intros i; [done|]. cbn [v_has existsb].
  unfold healthy in *. cbn [t_before t_fault t_now]. unfold id in *. unfold Get, call.
  destruct (v_get s now k Hw) as [[-> ->]|(raw & ent & -> & _ & ->)]; cbn [snd].
  - rewrite bool_decide_false by (by intros [? ?]). apply IH.
  - by rewrite bool_decide_true by eauto.
Qed.

Lemma v_upsert_at now s key init f : v_wf s now → ∃ old, (∀ e, old = Some e → v_held s now key = Some e)
  ∧ v_upsert FOk FOk now now now id key init f s = c_set now (streamKey key) (enc (refreshed now init f old)) entryTTL s.
Proof.
  intros Hw. unfold v_upsert, Get, Set_, call, silent. cbn [fst snd]. unfold id.
  destruct (v_get s now key Hw) as [[-> _]|(raw & e & -> & Hd & Hh)]; cbn [snd].
  - change (IsZero (FirstSeen no_entry)) with true. by exists None.
  - rewrite Hd. cbn [default]. destruct (IsZero (FirstSeen e)); [by exists None|].
    exists (Some e). split; [|done]. by intros e' [= <-].
Qed.

Lemma v_held_same s s' now k : view s' now (streamKey k) = view s now (streamKey k) → v_held s' now k = v_held s now k.
Proof. intros E. unfold v_held. by rewrite E. Qed.

#[global, refine] Instance valkey_laws : TrackerLaws S := { wf := v_wf; stored := v_held; held := v_held }.
Proof.
  - intros s now now' Ht Hw t Ht'. apply Hw. lia.
  - done.
  - intros s now now' k e _ Ht. by apply v_later.
  - intros s now now' k e _ Ht. by apply v_later.
  - intros s now ks Hw. by apply v_has_healthy.
  - intros s now e Hw. cbn -[v_reads]. unfold v_List, call.
    destruct (v_reads_healthy now s (c_scan s now "stream:entry:") Hw) as [_ ->].
    { apply Forall_forall. intros k. apply c_scan_sound. }
    split; [by intros (k & _ & ?); exists k|]. intros (k & Hk). exists k. split; [|done].
    unfold v_held in Hk. destruct (view s now (streamKey k)) as [v|] eqn:E; [|done].
    eapply c_scan_complete; [|exact E]. unfold HasPrefix, streamKey. by rewrite CutPrefix_app.
  - intros s now now' k Hw Ht. cbn -[v_reads]. unfold v_List, call.
    destruct (v_reads_healthy now s (c_scan s now "stream:entry:") Hw) as [-> _].
    { apply Forall_forall. intros k'. apply c_scan_sound. }
    split; [|done]. intros t Ht'. apply Hw. lia.
  - intros s now now' key init f Hw Ht. unfold upsert, valkey_tracker.
    destruct (v_upsert_at now s key init f Hw) as (old & Hold & ->).
    set (e := refreshed now init f old). pose proof (c_set_law now (streamKey key) (enc e) entryTTL s ltac:(done)) as Hs.
    split; [|split].
    + intros t Ht' k v Hv. rewrite (Hs t ltac:(lia)) in Hv. case_decide as Hk.
      * apply (inj streamKey) in Hk as ->. cbn in Hv. destruct (t <? now + entryTTL); [|done]. simplify_eq.
        exists (enc e), e, (Some (now + entryTTL)). split; [done|apply dec_enc].
      * eapply Hw; [|exact Hv]. lia.
    + intros k' Hk. split; apply v_held_same; rewrite (Hs now' Ht); by rewrite decide_False by (by intros ?%(inj streamKey)).
    + exists old. split; [exact Hold|]. cbn zeta. unfold v_held. fold e. rewrite (Hs now' Ht), decide_True by done. cbn.
      destruct (Z.ltb_spec now' (now + entryTTL)).
      * rewrite dec_enc. split; [congruence|split; [done|lia]].
      * split; [done|split; [lia|done]].
  - intros s now now' ks Hw Ht. unfold remove, valkey_tracker, v_remove, Del, call, silent. cbn [fst].
    assert (∀ t k, now ≤ t → v_held (c_del now (streamKey <$> ks) s) t k = if decide (k ∈ ks) then None else v_held s t k) as E.
    { intros t k Ht'. unfold v_held. rewrite c_del_law by lia. destruct (decide (k ∈ ks)).
      - by rewrite decide_True by (apply list_elem_of_fmap; eauto).
      - rewrite decide_False; [done|]. intros (k' & Hk' & ?)%list_elem_of_fmap. by apply (inj streamKey) in Hk' as ->. }
    split; [|by intros k; rewrite !E].
    intros t Ht' k v Hv. rewrite c_del_law in Hv by lia. case_decide; [done|]. eapply Hw; [|exact Hv]. lia.
Defined.
End ValkeyMode.

(** * Identities

    What is stored under a key belongs to the stream the key names. *)
Section Identity.
Context `{UUIDText}.

Definition no_pipe (s : string) : Prop := sforall (λ c, negb (Ascii.eqb c (chr 124))) s = true.

Inductive identifies : string → UUID → string → UUID → Prop :=
  | id_bytes u ip i : identifies (bytesEntryKey u ip i) u ip i
  | id_beat u ip i : identifies (heartbeatEntryKey u ip i) u ip i
  | id_path ip p : HasPrefix p "/" = true → identifies (pathEntryKey ip p) Nil ip Nil.

Lemma uuid_no_pipe u : no_pipe (uuid_text u).
Proof.
  eapply sforall_impl; [|apply uuid_text_plain]. intros c Hc. apply negb_true_iff.
  destruct (Ascii.eqb_spec c (chr 124)) as [->|]; [by vm_compute in Hc|done].
Qed.

(** The parts of a key after the address. *)
Inductive tail := TBytes (u i : UUID) | TBeat (u i : UUID) | TItem (i : UUID) | TPath (p : string).
Definition tail_text (t : tail) : string :=
  match t with
  | TBytes u i => "u:" +:+ uuid_text u +:+ String (chr 124) ("bytes:" +:+ uuid_text i)
  | TBeat u i => "u:" +:+ uuid_text u +:+ String (chr 124) ("item:" +:+ uuid_text i)
  | TItem i => "item:" +:+ uuid_text i
  | TPath p => p
  end.
Definition tail_ok (t : tail) : Prop := match t with TPath p => HasPrefix p "/" = true | _ => True end.

Lemma Cut_same a b r r' c : sforall (λ x, negb (Ascii.eqb x c)) a = true → sforall (λ x, negb (Ascii.eqb x c)) b = true →
  a +:+ String c r = b +:+ String c r' → a = b ∧ r = r'.
Proof. intros Ha Hb E. pose proof (Cut_app a r c Ha) as E1. rewrite E, Cut_app in E1 by done. by simplify_eq. Qed.

Lemma tail_text_inj t t' : tail_ok t → tail_ok t' → tail_text t = tail_text t' → t = t'.
Proof.
  assert (∀ p, HasPrefix p "/" = true → ∃ r, p = String "/" r) as Hp.
  { intros p Hp. unfold HasPrefix in Hp. destruct (CutPrefix p "/") as [r|] eqn:Ep; [|done]. exists r. by apply CutPrefix_eq in Ep. }
  assert (∀ u v x y, "u:" +:+ uuid_text u +:+ String (chr 124) x = "u:" +:+ uuid_text v +:+ String (chr 124) y → u = v ∧ x = y) as Hu.
  { intros u v x y E. apply (inj (String.append _)) in E. apply Cut_same in E as [E ->]; [|apply uuid_no_pipe..].
    by apply (inj uuid_text) in E. }
  destruct t as [u i|u i|i|p], t' as [u' i'|u' i'|i'|p']; cbn [tail_text tail_ok]; intros H1 H2 E.
  all: repeat match goal with H : HasPrefix _ _ = true |- _ => apply Hp in H as [? ->] end.
  all: try discriminate E.
  all: try (apply Hu in E as [-> E]; try discriminate E; apply (inj (String.append _)), (inj uuid_text) in E as ->; done).
  - apply (inj (String.append _)), (inj uuid_text) in E as ->. done.
  - by rewrite E.
Qed.

Lemma identifies_tail k u ip i : identifies k u ip i → ∃ t, tail_ok t ∧ k = ip +:+ String (chr 124) (tail_text t)
  ∧ (t = TBytes u i ∨ t = TBeat u i ∧ uuid_Nil u = false ∨ t = TItem i ∧ u = Nil ∨ (∃ p, t = TPath p) ∧ u = Nil ∧ i = Nil).
Proof.
  intros [u' ip' i'|u' ip' i'|ip' p Hp]; [exists (TBytes u' i')| |exists (TPath p)].
  - split; [done|]. split; [done|by left].
  - unfold heartbeatEntryKey. destruct (uuid_Nil u') eqn:E.
    + exists (TItem i'). apply N.eqb_eq in E as ->. split; [done|]. split; [done|by right; right; left].
    + exists (TBeat u' i'). split; [done|]. split; [done|by right; left].
  - split; [done|]. split; [done|]. right; right; right. eauto.
Qed.

(** A key belongs to one stream. *)
Lemma identifies_inj k u ip i u' ip' i' : no_pipe ip → no_pipe ip' →
  identifies k u ip i → identifies k u' ip' i' → u = u' ∧ ip = ip' ∧ i = i'.
Proof.
  intros Hip Hip' (t & Ht & -> & H1)%identifies_tail (t' & Ht' & E & H2)%identifies_tail.
  apply Cut_same in E as [-> E]; [|done..]. apply tail_text_inj in E as ->; [|done..].
  destruct H1 as [->|[[-> _]|[[-> ->]|[[p ->] [-> ->]]]]], H2 as [E|[[E _]|[[E ?]|[[q E] [? ?]]]]]; by simplify_eq.
Qed.
End Identity.

(** * A tracker shows the log of what was written *)
Inductive op :=
  | OTouch (ip path name : string)
  | OTouchFile (u : UUID) (ip : string) (i f : UUID) (path name : string)
  | OTouchOptimized (u : UUID) (ip : string) (i f o : UUID) (path name : string)
  | OHeartbeat (u : UUID) (ip : string) (i : UUID) (name decision : string)
  | ORemoveHeartbeat (u : UUID) (ip : string) (i : UUID)
  | ORemoveStream (u : UUID) (ip : string) (i : UUID)
  | OList.

Section Log.
Context {T : Type} `{TrackerLaws T} `{UUIDText}.

Definition apply_op (now : Z) (o : op) (t : T) : T :=
  match o with
  | OTouch ip path name => Touch now ip path name t
  | OTouchFile u ip i f path name => TouchFile now u ip i f path name t
  | OTouchOptimized u ip i f o path name => TouchOptimized now u ip i f o path name t
  | OHeartbeat u ip i name d => HeartbeatUser now u ip i name d t
  | ORemoveHeartbeat u ip i => RemoveHeartbeatUser now u ip i t
  | ORemoveStream u ip i => RemoveStream now u ip i t
  | OList => (List now t).1
  end.
Definition run_ops (log : list (Z * op)) (t : T) : T := foldl (λ t p, apply_op p.1 p.2 t) t log.

Definition written (o : op) : option string :=
  match o with
  | OTouch ip path _ => Some (pathEntryKey ip path)
  | OTouchFile u ip i _ _ _ | OTouchOptimized u ip i _ _ _ _ => Some (bytesEntryKey u ip i)
  | OHeartbeat u ip i _ _ => Some (heartbeatEntryKey u ip i)
  | _ => None
  end.
Definition removed (o : op) : list string :=
  match o with
  | ORemoveHeartbeat u ip i => [heartbeatEntryKey u ip i]
  | ORemoveStream u ip i => [heartbeatEntryKey u ip i; bytesEntryKey u ip i]
  | _ => []
  end.
(** When [k] was last written, unless it was removed since. *)
Definition noted (now : Z) (o : op) (w : string → option Z) (k : string) : option Z :=
  if decide (written o = Some k) then Some now else if decide (k ∈ removed o) then None else w k.
Definition last_write (log : list (Z * op)) : string → option Z :=
  foldl (λ w p, noted p.1 p.2 w) (λ _, None) log.

(** Addresses hold no separator and paths are absolute. *)
Definition op_ok (o : op) : Prop :=
  match o with
  | OTouch ip path _ => no_pipe ip ∧ HasPrefix path "/" = true
  | OTouchFile _ ip _ _ _ _ | OTouchOptimized _ ip _ _ _ _ _ | OHeartbeat _ ip _ _ _ => no_pipe ip
  | _ => True
  end.

Definition owned (k : string) (e : Entry) : Prop :=
  no_pipe (ClientIP e) ∧ identifies k (UserID e) (ClientIP e) (MediaItemID e).

Definition tracks (t : T) (now : Z) (w : string → option Z) : Prop :=
  wf t now ∧ ∀ now' k, now ≤ now' →
    (∀ e, stored t now' k = Some e → w k = Some (LastSeen e) ∧ owned k e)
    ∧ ∀ s, w k = Some s → (now' - s < entryTTL → is_Some (held t now' k)) ∧ (entryTTL < now' - s → held t now' k = None).

Lemma tracker_tracks_later t now now' w : now ≤ now' → tracks t now w → tracks t now' w.
Proof. intros Ht [Hw Hk]. split; [by eapply wf_later|]. intros n k Hn. apply Hk. lia. Qed.

Lemma tracks_ext t now w w' : (∀ k, w k = w' k) → tracks t now w → tracks t now w'.
Proof. intros E [Hw Hk]. split; [done|]. intros n k Hn. rewrite <- E. by apply Hk. Qed.

Lemma tracks_upsert t now w k init f :
  tracks t now w → owned k init → (∀ e, owned k e → owned k (f e)) →
  tracks (upsert now k init f t) now (λ k', if decide (k' = k) then Some now else w k').
Proof.
  intros [Hw Hk] Hi Hf. split; [by apply (upsert_law t now now)|]. intros now' k' Hn.
  destruct (upsert_law t now now' k init f Hw Hn) as (_ & Hother & old & Hold & Hs & Hh1 & Hh2).
  destruct (decide (k' = k)) as [->|Hne]; [|destruct (Hother k' Hne) as [-> ->]; by apply Hk].
  assert (owned k (refreshed now init f old)) as Ho.
  { unfold refreshed. destruct old as [e|].
    - destruct (Hk now k (Z.le_refl _)) as [He _]. destruct (He e (Hold e eq_refl)) as [_ He'].
      exact (Hf e He').
    - change (owned k (f (init <| FirstSeen := now |>))). apply Hf. exact Hi. }
  split.
  - intros e He. rewrite (Hs e He). by rewrite LastSeen_refreshed.
  - intros s [= <-]. split; [intros ?; rewrite Hh1 by done; eauto|exact Hh2].
Qed.

Lemma tracks_remove t now w ks : tracks t now w →
  tracks (remove now ks t) now (λ k, if decide (k ∈ ks) then None else w k).
Proof.
  intros [Hw Hk]. split; [by apply (remove_law t now now)|]. intros now' k Hn.
  destruct (remove_law t now now' ks Hw Hn) as [_ E]. destruct (E k) as [-> ->].
  destruct (decide (k ∈ ks)); [done|by apply Hk].
Qed.

Lemma tracks_List t now w : tracks t now w → tracks (List now t).1 now w.
Proof.
  intros [Hw Hk]. split; [by apply (List_keeps t now now "")|]. intros now' k Hn.
  destruct (List_keeps t now now' k Hw Hn) as (_ & -> & Hs). destruct (Hk now' k Hn) as [He1 He2].
  split; [|exact He2]. intros e He. by apply He1, Hs.
Qed.

Lemma tracks_op t now w o : op_ok o → tracks t now w → tracks (apply_op now o t) now (noted now o w).
Proof.
  intros Ho Ht. destruct o; cbn [apply_op op_ok] in *;
    first [eapply tracks_ext; [|apply tracks_upsert; [exact Ht|..]]
          |eapply tracks_ext; [|apply tracks_remove; exact Ht]
          |eapply tracks_ext; [|apply tracks_List; exact Ht]];
    try (intros k; unfold noted; cbn [written removed]; repeat case_decide; simplify_eq; try done; set_solver).
  - split; [apply Ho|]. apply id_path, Ho.
  - split; [exact Ho|apply id_bytes].
  - split; [exact Ho|apply id_bytes].
  - split; [exact Ho|apply id_beat].
  - intros e [He1 He2]. destruct (identifies_inj _ _ _ _ _ _ _ He1 Ho He2 (id_beat u ip i)) as (E1 & E2 & E3).
    destruct e. cbn in E1, E2, E3. subst. cbn zeta. case_match; exact (conj Ho (id_beat _ _ _)).
Qed.

Lemma tracks_run log : ∀ t t0 w now, tracks t t0 w → StronglySorted Z.le (t0 :: log.*1) → Forall (λ p, op_ok p.2) log →
  Forall (λ s, s ≤ now) (t0 :: log.*1) → tracks (run_ops log t) now (foldl (λ w p, noted p.1 p.2 w) w log).
Proof.
  induction log as [|[s o] log IH]; intros t t0 w now Ht Hs Ho Hn; cbn [run_ops foldl] in *.
  - apply Forall_cons in Hn as [Hn _]. by eapply tracker_tracks_later.
  - apply Forall_cons in Ho as [Ho Hos]. apply Forall_cons in Hn as [_ Hn].
    inversion Hs as [|? ? Hs1 Hs2]; subst. cbn [fmap list_fmap fst] in *. apply Forall_cons in Hs2 as [Hle _].
    apply (IH _ s _ now); [|done..]. apply tracks_op; [done|]. by eapply tracker_tracks_later.
Qed.

(** Nothing was written to it yet. *)
Definition fresh (t : T) (t0 : Z) : Prop := wf t t0 ∧ ∀ now k, t0 ≤ now → stored t now k = None ∧ held t now k = None.

Definition shown (now : Z) (t : T) (u : UUID) (ip : string) (i : UUID) (seen : Z) : Prop :=
  ∃ e, e ∈ (List now t).2 ∧ UserID e = u ∧ ClientIP e = ip ∧ MediaItemID e = i ∧ LastSeen e = seen.

Definition recent (log : list (Z * op)) (now : Z) (k : string) (seen : Z) : Prop :=
  last_write log k = Some seen ∧ now - seen < entryTTL.

(** C29: a tracker shows the log.  Whatever was written to it, refreshed and
    removed, a tracker that satisfies the interface (both modes do) says a
    viewer streams an item from an address exactly when the stream's byte or
    heartbeat entry was written less than 45 seconds ago and not removed since,
    and lists exactly the streams so written, with the viewer, address, item
    and instant of the last write. *)
Theorem tracker_shows_log (t0 now : Z) (t : T) (log : list (Z * op)) :
  fresh t t0 → StronglySorted Z.le (t0 :: log.*1) → Forall (λ s, s ≤ now) (t0 :: log.*1) →
  Forall (λ p, op_ok p.2) log → (∀ k s, last_write log k = Some s → now - s ≠ entryTTL) →
  (∀ u ip i, HasStream now u ip i (run_ops log t) = true ↔ ∃ k s, k ∈ stream_keys u ip i ∧ recent log now k s)
  ∧ ∀ u ip i s, no_pipe ip → shown now (run_ops log t) u ip i s ↔ ∃ k, identifies k u ip i ∧ recent log now k s.
Proof.
  intros [Hw Hf] Hs Hn Ho Hne.
  assert (tracks t t0 (λ _, None)) as Hbase.
  { split; [done|]. intros now' k Ht. destruct (Hf now' k Ht) as [-> ->]. done. }
  pose proof (tracks_run log t t0 _ now Hbase Hs Ho Hn) as [Hwn Hk]. fold (last_write log) in Hk.
  set (r := run_ops log t) in *.
  assert (∀ k e, held r now k = Some e → recent log now k (LastSeen e) ∧ owned k e) as Hheld.
  { intros k e He. destruct (Hk now k (Z.le_refl _)) as [H1' H2']. destruct (H1' e) as [E Hown]; [by apply held_stored|].
    split; [|done]. split; [done|]. destruct (H2' _ E) as [_ H3]. specialize (Hne k _ E).
    destruct (Z.lt_trichotomy (now - LastSeen e) entryTTL) as [|[?|Hgt]]; [done|done|]. rewrite H3 in He by lia. done. }
  assert (∀ k s, recent log now k s → ∃ e, held r now k = Some e ∧ LastSeen e = s) as Hrec.
  { intros k s [E Hlt]. destruct (Hk now k (Z.le_refl _)) as [_ H2']. destruct (H2' s E) as [[e He] _]; [done|].
    exists e. split; [done|]. destruct (Hheld k e He) as [[E' _] _]. congruence. }
  split.
  - intros u ip i. unfold HasStream. rewrite has_any_law by done. rewrite existsb_exists. split.
    + intros (k & Hin & [e He]%bool_decide_eq_true). exists k, (LastSeen e). split; [by apply list_elem_of_In|]. by apply Hheld.
    + intros (k & s & Hin & Hr). exists k. split; [by apply list_elem_of_In|]. apply bool_decide_eq_true.
      destruct (Hrec k s Hr) as (e & -> & _). eauto.
  - intros u ip i s Hip. split.
    + intros (e & (k & He)%List_law & <- & <- & <- & <-); [|done]. exists k. destruct (Hheld k e He) as [? [? ?]]. done.
    + intros (k & Hid & Hr). destruct (Hrec k s Hr) as (e & He & <-). destruct (Hheld k e He) as [_ [Hp Hid']].
      destruct (identifies_inj _ _ _ _ _ _ _ Hp Hip Hid' Hid) as (? & ? & ?).
      exists e. split; [|done]. apply List_law; eauto.
Qed.
End Log.

(** * Concrete trackers *)
Module Sample.
#[local] Instance text : UUIDText.
Proof.
  refine {| uuid_text := λ u : N, pretty u |}. intros u. eapply sforall_impl; [|apply (proj1 (pretty_N_digits u))].
  intros c Hc. by rewrite Hc.
Defined.

(** A text for records: fields with their lengths. *)
Definition number (p : positive) : string := pretty (N.pos p).
Definition denumber (s : string) : option positive :=
  match digits_val 0 s with Some (Z.pos p) => Some p | _ => None end.
Lemma denumber_number p : denumber (number p) = Some p.
Proof. unfold denumber, number. by rewrite (proj1 (proj2 (pretty_N_digits (N.pos p)))). Qed.

Fixpoint stake (n : nat) (s : string) : option (string * string) :=
  match n, s with
  | O, _ => Some ("", s)
  | S n, String c s => (λ p : string * string, (String c p.1, p.2)) <$> stake n s
  | S _, EmptyString => None
  end.
Fixpoint fields (fs : list string) : string :=
  match fs with [] => "" | f :: fs => pretty (N.of_nat (String.length f)) +:+ String ":" (f +:+ fields fs) end.
Fixpoint unfields (n : nat) (s : string) : option (list string) :=
  match n with
  | O => Some []
  | S n => '(d, r) ← Cut s ":"; l ← digits_val 0 d; '(f, r) ← stake (Z.to_nat l) r; fs ← unfields n r; Some (f :: fs)
  end.
Lemma unfields_fields fs : unfields (length fs) (fields fs) = Some fs.
Proof.
  assert (∀ f r, stake (String.length f) (f +:+ r) = Some (f, r)) as Hs by (induction f as [|c f IH]; intros r; [done|]; change (String c f +:+ r) with (String c (f +:+ r)); cbn [String.length stake]; by rewrite IH).
  induction fs as [|f fs IH]; [done|]. cbn [length unfields fields].
  destruct (pretty_N_digits (N.of_nat (String.length f))) as (Hd & Hv & _). rewrite Cut_app.
  - cbn [mbind option_bind]. rewrite Hv. cbn [mbind option_bind]. rewrite nat_N_Z, Nat2Z.id, Hs.
    cbn [mbind option_bind]. by rewrite IH.
  - eapply sforall_impl; [|exact Hd]. intros c Hc. apply negb_true_iff. by destruct (Ascii.eqb_spec c ":") as [->|].
Qed.

Definition show {A} `{Countable A} (a : A) : string := number (encode a).
Definition read {A} `{Countable A} (s : string) : option A := denumber s ≫= decode.
Lemma read_show {A} `{Countable A} (a : A) : read (show a) = Some a.
Proof. unfold read, show. rewrite denumber_number. apply decode_encode. Qed.

Definition texts (e : Entry) : list string :=
  [FilePath e; show (MediaItemID e); ClientIP e; ClientName e; show (FirstSeen e); show (LastSeen e); show (UserID e);
   show (FileID e); show (OptimizedID e); show (FromHeartbeat e); Decision e].
Definition untexts (l : list string) : option Entry :=
  match l with
  | [a; b; c; d; f; g; h; i; j; k; m] =>
      b ← read b; f ← read f; g ← read g; h ← read h; i ← read i; j ← read j; k ← read k;
      Some (mkEntry a b c d f g h i j k m)
  | _ => None
  end.
Definition untexts_state (l : list string) : option itemPlayState :=
  match l with [a; b; c] => a ← read a; b ← read b; c ← read c; Some (mkPlayState a b c) | _ => None end.

#[local] Instance json : EntryJSON.
Proof.
  refine {| enc e := fields (texts e); dec s := unfields 11 s ≫= untexts;
            enc_state p := fields [show (PositionMS p); show (DurationMS p); show (LastUpdate p)];
            dec_state s := unfields 3 s ≫= untexts_state |}.
  - intros e. change 11%nat with (length (texts e)). rewrite unfields_fields. cbn [mbind option_bind untexts texts].
    repeat (rewrite read_show; cbn [mbind option_bind]). by destruct e.
  - intros p. rewrite (unfields_fields [show (PositionMS p); show (DurationMS p); show (LastUpdate p)] : unfields 3 _ = _).
    cbn [mbind option_bind untexts_state]. repeat (rewrite read_show; cbn [mbind option_bind]). by destruct p.
Defined.

#[local] Instance scanner : Scanner RefServer.t.
Proof.
  refine {| c_scan s now p := filter (λ k, HasPrefix k p = true) ((map_to_list s).*1) |}.
  - intros s now p k e Hp Hv. apply list_elem_of_filter. split; [done|]. apply list_elem_of_fmap.
    cbn in Hv. unfold RefServer.look in Hv. destruct (s !! k) as [x|] eqn:E; [|done].
    exists (k, x). split; [done|]. by apply elem_of_map_to_list.
  - intros s now p k. by intros [? _]%list_elem_of_filter.
Defined.

(** A viewer's range requests and beacons, another's one request. *)
Definition log : list (Z * op) :=
  [(0, OTouchFile 1%N "10.0.0.5" 7%N 70%N "/m/a.mkv" "Chrome"); (5000, OHeartbeat 1%N "10.0.0.5" 7%N "Den TV" "directPlay");
   (20000, OTouchFile 2%N "10.0.0.6" 8%N 80%N "/m/b.mkv" "VLC"); (40000, OHeartbeat 1%N "10.0.0.5" 7%N "Den TV" "");
   (50000, ORemoveStream 2%N "10.0.0.6" 8%N)].

Example in_memory :
  let t := run_ops log NewTracker in
  HasStream 60000 1%N "10.0.0.5" 7%N t = true ∧ HasStream 60000 2%N "10.0.0.6" 8%N t = false
  ∧ HasStream 85001 1%N "10.0.0.5" 7%N t = false
  ∧ (λ e, (UserID e, ClientIP e, FirstSeen e, LastSeen e, Decision e)) <$> (List 60000 t).2
    = [(1%N, "10.0.0.5", 5000, 40000, "directPlay")].
Proof. vm_compute. repeat split. Qed.

(** At exactly 45 seconds the modes differ: memory still shows the stream. *)
Example boundary :
  HasStream 45000 1%N "10.0.0.5" 7%N (run_ops [(0, OHeartbeat 1%N "10.0.0.5" 7%N "" "")] NewTracker) = true
  ∧ HasStream 45000 1%N "10.0.0.5" 7%N (run_ops [(0, OHeartbeat 1%N "10.0.0.5" 7%N "" "")] (∅ : RefServer.t)) = false.
Proof. split; vm_compute; reflexivity. Qed.

(** Memory keeps what a lapsed entry held: a stream begun anew is shown since
    the old one began, with its decision; Valkey has forgotten it. *)
Definition resumed : list (Z * op) :=
  [(0, OHeartbeat 1%N "10.0.0.5" 7%N "" "directPlay"); (3600000, OHeartbeat 1%N "10.0.0.5" 7%N "" "")].
Definition since {T} `{Tracker T} (t : T) := (λ e, (FirstSeen e, Decision e)) <$> (List 3600000 t).2.
Example lapsed_entry_revived :
  since (run_ops resumed NewTracker) = [(0, "directPlay")]
  ∧ since (run_ops resumed (∅ : RefServer.t)) = [(3600000, "")].
Proof. split; vm_compute; reflexivity. Qed.

(** And a position in memory never expires. *)
Example position_kept :
  mem_GetItemState 7%N (mem_SetItemState 0 7%N 1000 9000 NewTracker) = (1000, 9000)
  ∧ v_GetItemState FOk 45000 7%N (v_SetItemState FOk 0 0 7%N 1000 9000 (∅ : RefServer.t)) = (0, 0)
  ∧ v_GetItemState FOk 44999 7%N (v_SetItemState FOk 0 0 7%N 1000 9000 (∅ : RefServer.t)) = (1000, 9000).
Proof. split_and!; vm_compute; reflexivity. Qed.

Lemma mem_fresh : fresh NewTracker 0.
Proof. done. Qed.
Lemma valkey_fresh : fresh (∅ : RefServer.t) 0.
Proof. split; [|done]. by intros t _ k e. Qed.

Lemma log_ages k s : last_write log k = Some s → 60000 - s ≠ entryTTL.
Proof.
  unfold last_write, log. cbn [foldl fst snd]. unfold noted.
  repeat case_decide; intros E; simplify_eq; unfold entryTTL; lia.
Qed.

Lemma tracker_shows_log_witness :
  (HasStream 60000 1%N "10.0.0.5" 7%N (run_ops log NewTracker) = true)
  ∧ (HasStream 60000 2%N "10.0.0.6" 8%N (run_ops log (∅ : RefServer.t)) = false)
  ∧ shown 60000 (run_ops log (∅ : RefServer.t)) 1%N "10.0.0.5" 7%N 40000.
Proof.
  assert (StronglySorted Z.le (0 :: log.*1)) as Hs by (cbn; repeat (apply SSorted_cons || apply SSorted_nil || apply Forall_cons_2 || apply Forall_nil_2 || lia)).
  assert (Forall (λ s, s ≤ 60000) (0 :: log.*1)) as Hn by (cbn; repeat (apply Forall_cons_2 || apply Forall_nil_2 || lia)).
  assert (Forall (λ p, op_ok p.2) log) as Ho by (repeat constructor).
  destruct (tracker_shows_log 0 60000 NewTracker log mem_fresh Hs Hn Ho log_ages) as [H1 _].
  destruct (tracker_shows_log 0 60000 (∅ : RefServer.t) log valkey_fresh Hs Hn Ho log_ages) as [H2 H3].
  split; [|split].
  - apply H1. exists (heartbeatEntryKey 1%N "10.0.0.5" 7%N), 40000. split; [right; left|]. split; vm_compute; reflexivity.
  - apply not_true_iff_false. intros (k & s & Hk & Hr & _)%H2. 
    apply elem_of_cons in Hk as [->|Hk]; [vm_compute in Hr; discriminate|].
    apply list_elem_of_singleton in Hk as ->. vm_compute in Hr. discriminate.
  - apply H3; [reflexivity|]. exists (heartbeatEntryKey 1%N "10.0.0.5" 7%N). split; [apply id_beat|]. split; vm_compute; reflexivity.
Defined.
End Sample.
