(* ===== verification/StreamLimit.v ===== *)
(** Concurrent-stream limits and admin stops: [internal/api/v1/stream_limit.go],
    [playback_stop.go], and the parts of [items.go], [sessions.go] and
    [transcode.go] that ask them.

    They work on a stream tracker through its interface ([StreamTracker]).  A
    request is two steps, its checks and its write to the tracker; other requests
    run between them ([stmt_step]), and each step reads one instant of a common
    clock.  A call to Valkey for a stop may fail; the tracker's do not.  The
    parental gate, the play-decision gate and the recording of a watch event are
    answers in the environment of a request. *)
From S2P Require Import Prelude.
From S2P Require Import GoStrings.
From S2P Require Import GoBytes.
From S2P Require Import SafeHTTP.
From S2P Require Import GoIP.
From S2P Require Import M3U.
From S2P Require Import PortMap.
From S2P Require Import Tokens.
From S2P Require Import TransKV.
From S2P Require Import TransStore.
From S2P Require Import Valkey.
From S2P Require Import StreamTracker.

Local Open Scope Z_scope.

(** ["::ffff:10.0.0.5"] and ["10.0.0.5"] are the same client. *)
Definition canonicalIP (ip : string) : string :=
  match ParseIP (TrimSpace ip) with Some p => IP_String p | None => TrimSpace ip end.

(** * Admin stops *)
Definition playbackStopWindow : Z := 120000.
Definition playbackStopSweepEvery : Z := 60000.
Definition playbackStopMessageMax : Z := 200.

Abbreviation playbackStopKey := (N * N * string)%type.
Record playbackStopEntry := mkStop { message : string; expires : Z }.
Record PlaybackStopGuard := mkGuard { local : gmap playbackStopKey playbackStopEntry; lastSweep : Z }.
Definition NewPlaybackStopGuard : PlaybackStopGuard := mkGuard ∅ no_time.

Section Stops.
Context {S : Type} `{Server S} `{UUIDText}.

Definition playbackStopRedisKey (k : playbackStopKey) : string :=
  "playstop:" +:+ uuid_text k.1.1 +:+ ":" +:+ uuid_text k.1.2 +:+ ":" +:+ k.2.

Definition sweepLocked (now : Z) (g : PlaybackStopGuard) : PlaybackStopGuard :=
  if now - lastSweep g <? playbackStopSweepEvery then g
  else mkGuard (filter (λ p : playbackStopKey * playbackStopEntry, now < expires p.2) (local g)) now.

Definition Block (f : fault) (now : Z) (userID itemID : UUID) (clientIP msg : string)
    (g : PlaybackStopGuard) (s : S) : PlaybackStopGuard * S :=
  let k := (userID, itemID, canonicalIP clientIP) in
  let g := sweepLocked now g in
  let g := mkGuard (<[k := mkStop msg (now + playbackStopWindow)]> (local g)) (lastSweep g) in
  (g, (Set_ f now (playbackStopRedisKey k) msg playbackStopWindow s).1).

Definition Blocked (f : fault) (now : Z) (userID itemID : UUID) (clientIP : string)
    (g : PlaybackStopGuard) (s : S) : option string :=
  if uuid_Nil userID || uuid_Nil itemID then None
  else
    let k := (userID, itemID, canonicalIP clientIP) in
    match Get f now (playbackStopRedisKey k) s with
    | inl (Some msg) => Some msg
    | _ => match local g !! k with
           | Some e => if now <? expires e then Some (message e) else None
           | None => None
           end
    end.
End Stops.

Definition playbackStoppedText (msg : string) : string :=
  if String.eqb msg "" then "Playback was stopped by the server admin."
  else "Playback was stopped by the server admin: " +:+ msg.

(** [cleanStopMessage] on ASCII text; [None] is the error. *)
Definition is_control (c : ascii) : bool := (byteZ c <? 32) || (byteZ c =? 127).
Definition cleanStopMessage (raw : string) : option string :=
  let msg := TrimSpace (smap (λ c, if is_control c then " "%char else c) raw) in
  if playbackStopMessageMax <? slen msg then None else Some msg.

(** * The stream limit *)
Record streamRequest := mkReq { user : UUID; clientIP : string; item : UUID }.

Section Limit.
(** The address a session was started from, part of [s_media]. *)
Context (s_ClientIP : Session → string).

Definition countTranscodeStreams (sessions : list Session) (req : streamRequest) (now : Z) : Z :=
  len (filter (λ s : Session,
    N.eqb (s_UserID s) (user req) && String.eqb (s_ParentID s) "" && negb (N.eqb (s_MediaItemID s) (item req))
    && negb (negb (String.eqb (s_ClientIP s) "") && String.eqb (canonicalIP (s_ClientIP s)) (clientIP req))
    && (now - active_at s <=? ActiveSessionWindow) = true) sessions).

Definition covered (sessions : list Session) (u : UUID) : gset N :=
  list_to_set (s_MediaItemID <$> filter (λ s : Session, s_UserID s = u) sessions).

Definition counted (sessions : list Session) (req : streamRequest) (e : Entry) : bool :=
  N.eqb (UserID e) (user req) && negb (uuid_Nil (MediaItemID e)) && negb (N.eqb (MediaItemID e) (item req))
  && bool_decide (MediaItemID e ∉ covered sessions (user req)) && negb (String.eqb (canonicalIP (ClientIP e)) (clientIP req)).
Definition countDirectStreams (sessions : list Session) (entries : list Entry) (req : streamRequest) : Z :=
  let clients : gset string := list_to_set ((λ e, canonicalIP (ClientIP e)) <$> filter (λ e, counted sessions req e = true) entries) in
  Z.of_nat (size clients).

(** The parts of a [StreamLimit] that are wired; a reader's [None] and a failed
    listing are errors. *)
Record Wiring := mkWiring { caps : option (UUID → option Z); sessions : option (list Session); tracked : bool }.
Definition list_sessions (l : Wiring) : list Session := default [] (sessions l).

Section Tracked.
Context {T : Type} `{Tracker T} `{UUIDText}.

Definition limitFor (l : Wiring) (u : UUID) : Z :=
  match caps l with None => 0 | Some GetStreamCaps => default 0 (GetStreamCaps u) end.

Definition list_entries (l : Wiring) (now : Z) (t : T) : T * list Entry := if tracked l then List now t else (t, []).

Definition directStreams (l : Wiring) (now : Z) (req : streamRequest) (t : T) : T * Z :=
  if tracked l then let '(t, entries) := List now t in (t, countDirectStreams (list_sessions l) entries req) else (t, 0).

Definition otherStreams (l : Wiring) (now : Z) (req : streamRequest) (t : T) : T * Z :=
  let '(t, entries) := list_entries l now t in
  (t, countTranscodeStreams (list_sessions l) req now + countDirectStreams (list_sessions l) entries req).

(** How many streams are active, when the request is over the limit. *)
Definition Blocks (l : Wiring) (now : Z) (req : streamRequest) (t : T) : T * option Z :=
  let limit := limitFor l (user req) in
  if limit <=? 0 then (t, None)
  else let '(t, n) := otherStreams l now req t in (t, if limit <=? n then Some n else None).

Definition BlocksNewStream (l : Wiring) (now : Z) (req : streamRequest) (t : T) : T * option Z :=
  if bool_decide (caps l = None) then (t, None)
  else if tracked l && HasStream now (user req) (clientIP req) (item req) t then (t, None)
  else Blocks l now req t.

(** The caps at the start of a transcode ([transcode.go]): [active] is what
    [CountByUser] says, [None] when it fails; the answer is the cap
    [CreateWithUserCap] gets. *)
Definition StartCap (l : Wiring) (now : Z) (req : streamRequest) (active : option Z) (t : T) : T * option Z :=
  let limit := limitFor l (user req) in
  let '(t, room) :=
    if 0 <? limit then
      let '(t, direct) := directStreams l now req t in
      (t, if limit <=? direct then None else Some (limit - direct))
    else (t, Some 5) in
  match room with
  | None => (t, None)
  | Some room => (t, match active with Some n => if room <=? n then None else Some room | None => Some room end)
  end.
End Tracked.
End Limit.

Definition streamLimitMessage (active limit : Z) : string :=
  if limit =? 1 then
    "Your account can play one stream at a time, and another device is already playing. Stop it to watch here."
  else "Your account can play " +:+ Itoa limit +:+ " streams at a time, and " +:+ Itoa active +:+
       " are already playing on other devices. Stop one to watch here.".

(** * Requests *)
Definition normalizePlayDecision (d : string) : string :=
  if bool_decide (d ∈ ["directPlay"; "directStream"; "remux"; "transcode"]) then d else "".

(** [audit.ClientIP] *)
Definition audit_ClientIP (remoteAddr : string) : string :=
  match PortMap.SplitHostPort remoteAddr with Some (host, _) => host | None => remoteAddr end.
Definition isRead (method : string) : bool := String.eqb method "GET" || String.eqb method "HEAD".

Inductive outcome := Served | Refused (status : Z) (code : string).

(** When and where a request runs, and the answers of the parts around it: the
    calls to Valkey, the wiring of the limit, whether the parental gate refuses,
    what the play decision refuses with, whether the watch event is recorded. *)
Record Env := mkEnv {
  e_now : Z; e_inst : nat; e_get : fault; e_set : fault; e_limit : Wiring;
  e_parental : bool; e_convert : option outcome; e_recorded : bool }.

Inductive request :=
  | RStream (method : string) (claims : option UUID) (remoteAddr : string) (itemID file : UUID) (path userAgent : string)
  | ROptimized (method : string) (claims : option UUID) (remoteAddr : string) (itemID source version : UUID) (path userAgent : string)
  | RProgress (userID : UUID) (remoteAddr : string) (itemID : UUID) (state clientName decision : string)
  | RStop (userID itemID : UUID) (clientIP decision message : string).

Definition errParental : outcome := Refused 403 "PARENTAL_LIMIT".
Definition errStopped : outcome := Refused 403 "PLAYBACK_STOPPED".
Definition errLimit : outcome := Refused 429 "TOO_MANY_SESSIONS".

Section Handlers.
Context (s_ClientIP : Session → string).
Context {T : Type} `{Tracker T} {S : Type} `{Server S} `{UUIDText}.

(** A tracker, the guards of the instances, the server that shares the stops. *)
Record World := mkWorld { tracker : T; guards : gmap nat PlaybackStopGuard; server : S }.
Definition guard (w : World) (i : nat) : PlaybackStopGuard := default NewPlaybackStopGuard (guards w !! i).
Definition with_tracker (t : T) (w : World) : World := mkWorld t (guards w) (server w).

Definition stopped (env : Env) (u i : UUID) (ip : string) (w : World) : bool :=
  match Blocked (e_get env) (e_now env) u i ip (guard w (e_inst env)) (server w) with Some _ => true | None => false end.

(** The gates a media request of a viewer passes, in order; the tracker after
    them and the refusal. *)
Definition gates (env : Env) (convert : option outcome) (u : UUID) (ip : string) (i : UUID) (w : World) : T * option outcome :=
  if e_parental env then (tracker w, Some errParental)
  else if stopped env u i ip w then (tracker w, Some errStopped)
  else match BlocksNewStream s_ClientIP (e_limit env) (e_now env) (mkReq u (canonicalIP ip) i) (tracker w) with
       | (t, Some _) => (t, Some errLimit)
       | (t, None) => (t, convert)
       end.

(** The last thing a request does: its write to the tracker. *)
Inductive write :=
  | WTouchFile (u : UUID) (ip : string) (i file : UUID) (path name : string)
  | WTouch (ip path name : string)
  | WTouchOptimized (u : UUID) (ip : string) (i source version : UUID) (path name : string)
  | WBeat (u : UUID) (ip : string) (i : UUID) (name decision : string)
  | WBeatStopped (u : UUID) (ip : string) (i : UUID)
  | WRemove (u : UUID) (ip : string) (i : UUID).
Definition written (now : Z) (wr : write) (t : T) : T :=
  match wr with
  | WTouchFile u ip i file path name => TouchFile now u ip i file path name t
  | WTouch ip path name => Touch now ip path name t
  | WTouchOptimized u ip i source version path name => TouchOptimized now u ip i source version path name t
  | WBeat u ip i name decision => HeartbeatUser now u ip i name decision t
  | WBeatStopped u ip i => RemoveHeartbeatUser now u ip i t
  | WRemove u ip i => RemoveStream now u ip i t
  end.

(** The handlers, up to that write: what is answered, and the write left to do.
    Between the two, other requests run. *)
Definition StreamFile (env : Env) (method : string) (claims : option UUID) (remoteAddr : string) (i file : UUID)
    (path userAgent : string) (w : World) : World * (outcome * option write) :=
  let ip := audit_ClientIP remoteAddr in
  let name := before_slash userAgent in
  match claims with
  | Some u =>
      match gates env (e_convert env) u ip i w with
      | (t, Some refusal) => (with_tracker t w, (refusal, None))
      | (t, None) => (with_tracker t w, (Served, if isRead method then Some (WTouchFile u (canonicalIP ip) i file path name) else None))
      end
  | None => (w, (Served, if isRead method then Some (WTouch ip path name) else None))
  end.

Definition StreamOptimized (env : Env) (method : string) (claims : option UUID) (remoteAddr : string) (i source version : UUID)
    (path userAgent : string) (w : World) : World * (outcome * option write) :=
  let ip := audit_ClientIP remoteAddr in
  match claims with
  | Some u =>
      match gates env None u ip i w with
      | (t, Some refusal) => (with_tracker t w, (refusal, None))
      | (t, None) =>
          (with_tracker t w,
           (Served, if isRead method then Some (WTouchOptimized u (canonicalIP ip) i source version path (before_slash userAgent)) else None))
      end
  | None => (w, (Served, None))
  end.

(** A progress report, from the parental gate on. *)
Definition Progress (env : Env) (u : UUID) (remoteAddr : string) (i : UUID) (state clientName decision : string)
    (w : World) : World * (outcome * option write) :=
  let ip := audit_ClientIP remoteAddr in
  let playing := String.eqb state "playing" in
  if playing && e_parental env then (w, (errParental, None))
  else if playing && stopped env u i ip w then (w, (errStopped, None))
  else if negb (e_recorded env) then (w, (Refused 500 "INTERNAL", None))
  else
    let ip := canonicalIP ip in
    (w, (Served, Some (if String.eqb state "stopped" then WBeatStopped u ip i
                       else WBeat u ip i (String.substring 0 64 clientName) (normalizePlayDecision decision)))).

(** An admin's stop of a card without a server session. *)
Definition Stop (env : Env) (u i : UUID) (ip decision raw : string) (w : World) : World * (outcome * option write) :=
  match cleanStopMessage raw with
  | None => (w, (Refused 400 "BAD_REQUEST", None))
  | Some msg =>
      let target := negb (uuid_Nil u) && negb (String.eqb ip "") in
      let '(gs, s) :=
        if negb (String.eqb decision "transcode") && target then
          let '(g, s) := Block (e_set env) (e_now env) u i ip msg (guard w (e_inst env)) (server w) in
          (<[e_inst env := g]> (guards w), s)
        else (guards w, server w) in
      (mkWorld (tracker w) gs s, (Served, if target then Some (WRemove u ip i) else None))
  end.

Definition checked (env : Env) (r : request) (w : World) : World * (outcome * option write) :=
  match r with
  | RStream m c a i f p ua => StreamFile env m c a i f p ua w
  | ROptimized m c a i f v p ua => StreamOptimized env m c a i f v p ua w
  | RProgress u a i st n d => Progress env u a i st n d w
  | RStop u i ip d msg => Stop env u i ip d msg w
  end.

(** A request that meets no other. *)
Definition handle (env : Env) (r : request) (w : World) : World * outcome :=
  let '(w, (o, wr)) := checked env r w in
  (match wr with Some wr => with_tracker (written (e_now env) wr (tracker w)) w | None => w end, o).

Definition serve_all (rs : list (Env * request)) (w : World) : World := foldl (λ w p, (handle p.1 p.2 w).1) w rs.

(** ** Requests that overlap *)
(** Thread [n] runs its request's checks, and, at some later instant, its write. *)
Inductive statement := Checks (n : nat) (env : Env) (r : request) | Writes (n : nat) (now : Z).
Definition instant (st : statement) : Z := match st with Checks _ env _ => e_now env | Writes _ now => now end.
Record Run := mkRun { world : World; owes : gmap nat write }.

Definition stmt_step (st : statement) (c : Run) : Run :=
  match st with
  | Checks n env r =>
      match owes c !! n with
      | Some _ => c
      | None =>
          let '(w, (_, wr)) := checked env r (world c) in
          mkRun w (match wr with Some wr => <[n := wr]> (owes c) | None => owes c end)
      end
  | Writes n now =>
      match owes c !! n with
      | Some wr => mkRun (with_tracker (written now wr (tracker (world c))) (world c)) (delete n (owes c))
      | None => c
      end
  end.
Definition run_stmts (sts : list statement) (c : Run) : Run := foldl (flip stmt_step) c sts.
End Handlers.
Arguments World : clear implicits.
Arguments Run : clear implicits.

(** * Addresses *)
Lemma IP_String_no_space p : length p = 16%nat → Forall byte_ok p → no_space (IP_String p) = true ∧ no_pipe (IP_String p).
Proof.
  intros Hl Hb. assert (∀ c, is_digit c = true ∨ c = dot ∨ v6_byte c = true → is_space c = false ∧ Ascii.eqb c (chr 124) = false) as Hc.
  { intros c Hc. assert (is_digit c || Ascii.eqb c dot || v6_byte c = true) as E
      by (destruct Hc as [-> | [-> | ->]]; rewrite ?Ascii.eqb_refl, ?orb_true_r; done).
    clear Hc. by destruct c as [[] [] [] [] [] [] [] []]. }
  assert (∀ s, sforall (λ c, is_digit c || Ascii.eqb c dot || v6_byte c) s = true → no_space s = true ∧ no_pipe s) as Hs.
  { intros s Hs. unfold no_space, no_pipe. split; (eapply sforall_impl; [|exact Hs]); intros c E; apply negb_true_iff;
      apply Hc; apply orb_true_iff in E as [[E|E%Ascii.eqb_eq]%orb_true_iff|E]; auto. }
  apply Hs. unfold IP_String. destruct (To4 p) as [p4|] eqn:E4.
  - destruct (To4_some p p4 Hl E4) as [-> H4]. apply Forall_app in Hb as [_ Hb].
    assert (∀ x, byte_ok x → sforall (λ c, is_digit c || Ascii.eqb c dot || v6_byte c) (Itoa x) = true) as Hd.
    { intros x Hx. eapply sforall_impl; [|apply Itoa_digits; apply Hx]. by intros c ->. }
    destruct p4 as [|a [|b [|c [|d [|]]]]]; try discriminate H4. do 4 (apply Forall_cons in Hb as [? Hb]).
    unfold v4_String. cbn [fmap list_fmap Join]. by rewrite !sforall_app, !Hd.
  - eapply sforall_impl; [|by apply v6_String_bytes]. intros c E. by rewrite E, orb_true_r.
Qed.

Lemma canonicalIP_idemp ip : canonicalIP (canonicalIP ip) = canonicalIP ip.
Proof.
  unfold canonicalIP at 2 3. destruct (ParseIP (TrimSpace ip)) as [p|] eqn:E.
  - apply ParseIP_ok in E as [Hl Hb]. unfold canonicalIP.
    rewrite (TrimSpace_trimmed (IP_String p)) by (apply trimmed_no_space; by apply IP_String_no_space).
    by rewrite ParseIP_String.
  - unfold canonicalIP. rewrite (TrimSpace_trimmed (TrimSpace ip)) by apply TrimSpace_is_trimmed. by rewrite E.
Qed.

Lemma len_perm {A} (l l' : list A) : l ≡ₚ l' → len l = len l'.
Proof. intros E. unfold len. by rewrite E. Qed.

(** * The limit holds *)
Section LimitProps.
Context (s_ClientIP : Session → string).
Context {T : Type} `{TrackerLaws T} `{UUIDText}.
Implicit Types (t : T) (now : Z) (u i : UUID) (X : gset N) (L : Z) (es : list Entry) (k : string).

Definition entry_ok k (e : Entry) : Prop := owned k e ∧ (UserID e ≠ Nil → canonicalIP (ClientIP e) = ClientIP e).

(** Streams of [u] that a tracker shows, of different items (none in [X]) to
    different addresses. *)
Definition distinct_streams t now u X es : Prop :=
  NoDup (ClientIP <$> es) ∧ NoDup (MediaItemID <$> es)
  ∧ ∀ e, e ∈ es → UserID e = u ∧ MediaItemID e ≠ Nil ∧ MediaItemID e ∉ X ∧ ∃ k, held t now k = Some e.

Record within t now u X L : Prop := {
  within_wf : wf t now;
  within_ok now' k e : now ≤ now' → stored t now' k = Some e → entry_ok k e;
  within_bound now' es : now ≤ now' → distinct_streams t now' u X es → len es ≤ L }.

Lemma held_ok t now u X L k e : within t now u X L → held t now k = Some e → entry_ok k e.
Proof. intros W He. eapply within_ok; [exact W|apply Z.le_refl|]. apply held_stored; [by eapply within_wf|done]. Qed.

Lemma within_later t now now' u X L : now ≤ now' → within t now u X L → within t now' u X L.
Proof.
  intros Ht W. split.
  - by eapply wf_later; [|eapply within_wf].
  - intros n k e Hn. eapply within_ok; [exact W|lia].
  - intros n es Hn. eapply within_bound; [exact W|lia].
Qed.

(** Fewer entries. *)
Lemma within_fewer t t' now u X L : within t now u X L → wf t' now →
  (∀ now' k e, now ≤ now' → (stored t' now' k = Some e → stored t now' k = Some e)
                           ∧ (held t' now' k = Some e → held t now' k = Some e)) →
  within t' now u X L.
Proof.
  intros W Hw Hf. split; [done| |].
  - intros n k e Hn He. eapply within_ok; [exact W|exact Hn|]. by apply (Hf n k e Hn).
  - intros n es Hn (H1' & H2' & H3). eapply within_bound; [exact W|exact Hn|]. split; [done|split; [done|]].
    intros e He. destruct (H3 e He) as (? & ? & ? & k & Hk). split_and!; [done..|]. exists k. by apply (Hf n k e Hn).
Qed.

Lemma within_List t now u X L : within t now u X L → within (List now t).1 now u X L.
Proof.
  intros W. pose proof (within_wf _ _ _ _ _ W) as Hw. apply (within_fewer t); [done|by apply (List_keeps t now now "")|].
  intros n k e Hn. destruct (List_keeps t now n k Hw Hn) as (_ & -> & Hs). split; [apply Hs|done].
Qed.

Lemma within_remove t now u X L ks : within t now u X L → within (remove now ks t) now u X L.
Proof.
  intros W. pose proof (within_wf _ _ _ _ _ W) as Hw. apply (within_fewer t); [done|by apply (remove_law t now now)|].
  intros n k e Hn. destruct (remove_law t now n ks Hw Hn) as [_ E]. destruct (E k) as [-> ->].
  by destruct (decide (k ∈ ks)).
Qed.

Lemma distinct_later t now now' u X es : wf t now → now ≤ now' → distinct_streams t now' u X es → distinct_streams t now u X es.
Proof.
  intros Hw Hn (H1' & H2' & H3). split; [done|split; [done|]]. intros e He. destruct (H3 e He) as (? & ? & ? & k & Hk).
  split_and!; [done..|]. exists k. by eapply held_later.
Qed.

Lemma upsert_entry_ok t now n u X L k init f e : within t now u X L → now ≤ n →
  entry_ok k init → (∀ e, entry_ok k e → entry_ok k (f e)) →
  stored (upsert now k init f t) n k = Some e → entry_ok k e.
Proof.
  intros W Hn Hi Hf He.
  destruct (upsert_law t now n k init f (within_wf _ _ _ _ _ W) Hn) as (_ & _ & old & Hold & Hs & _).
  rewrite (Hs e He). unfold refreshed. destruct old as [e'|].
  - apply (Hf e'). eapply within_ok; [exact W|apply Z.le_refl|by apply Hold].
  - change (entry_ok k (f (init <| FirstSeen := now |>))). apply Hf. exact Hi.
Qed.

(** The streams after a write are streams of before, or one of them is the one
    written. *)
Lemma distinct_upsert t now n u X L k init f es : within t now u X L → now ≤ n →
  entry_ok k init → (∀ e, entry_ok k e → entry_ok k (f e)) →
  distinct_streams (upsert now k init f t) n u X es →
  distinct_streams t now u X es
  ∨ ∃ e0 l, es ≡ₚ e0 :: l ∧ entry_ok k e0 ∧ UserID e0 = u ∧ MediaItemID e0 ≠ Nil ∧ MediaItemID e0 ∉ X
      ∧ distinct_streams t now u X l ∧ ClientIP e0 ∉ ClientIP <$> l ∧ MediaItemID e0 ∉ MediaItemID <$> l.
Proof.
  intros W Hn Hi Hf (H1' & H2' & H3). pose proof (within_wf _ _ _ _ _ W) as Hw.
  destruct (upsert_law t now n k init f Hw Hn) as (Hw' & Ho & _).
  destruct (decide (Exists (λ e, held (upsert now k init f t) n k = Some e) es)) as [Hex|Hex].
  - right. apply Exists_exists in Hex as (e0 & Hin & He0). apply list_elem_of_split in Hin as (l1 & l2 & ->).
    assert (e0 :: l1 ++ l2 ≡ₚ l1 ++ e0 :: l2) as Hp by apply Permutation_middle.
    rewrite <- Hp in H1', H2'. cbn [fmap list_fmap] in H1', H2'. apply NoDup_cons in H1' as [H1a H1b]. apply NoDup_cons in H2' as [H2a H2b].
    destruct (H3 e0) as (Hu & Hn0 & HX & _); [set_solver|].
    assert (entry_ok k e0) as Hok by (apply (upsert_entry_ok t now n u X L k init f e0 W Hn Hi Hf); by apply held_stored).
    exists e0, (l1 ++ l2). split_and!; try done. apply (distinct_later t now n); [done..|]. split; [done|split; [done|]].
    intros e He. destruct (H3 e) as (? & ? & ? & k' & Hk'); [set_solver|]. split_and!; [done..|]. exists k'.
    destruct (decide (k' = k)) as [->|Hne]; [|by destruct (Ho k' Hne) as [_ <-]].
    rewrite Hk' in He0. injection He0 as ->. contradict H1a. apply list_elem_of_fmap. eauto.
  - left. apply (distinct_later t now n); [done..|]. split; [done|split; [done|]]. intros e He.
    destruct (H3 e He) as (? & ? & ? & k' & Hk'). split_and!; [done..|]. exists k'.
    destruct (decide (k' = k)) as [->|Hne]; [|by destruct (Ho k' Hne) as [_ <-]].
    contradict Hex. apply Exists_exists. eauto.
Qed.

(** A write keeps the limit when the stream written, if it is [u]'s, fits with
    every set of other streams. *)
Lemma within_upsert t now u X L k init f : within t now u X L →
  entry_ok k init → (∀ e, entry_ok k e → entry_ok k (f e)) →
  (∀ e es, entry_ok k e → UserID e = u → MediaItemID e ≠ Nil → MediaItemID e ∉ X → distinct_streams t now u X es →
     ClientIP e ∉ ClientIP <$> es → MediaItemID e ∉ MediaItemID <$> es → len es + 1 ≤ L) →
  within (upsert now k init f t) now u X L.
Proof.
  intros W Hi Hf Hnew. pose proof (within_wf _ _ _ _ _ W) as Hw.
  split; [by apply (upsert_law t now now)| |].
  - intros n k' e Hn He. destruct (decide (k' = k)) as [->|Hne]; [by eapply upsert_entry_ok|].
    destruct (upsert_law t now n k init f Hw Hn) as (_ & Ho & _). destruct (Ho k' Hne) as [E _]. rewrite E in He.
    by eapply within_ok.
  - intros n es Hn Hd. destruct (distinct_upsert t now n u X L k init f es W Hn Hi Hf Hd) as [Hd'|(e0 & l & Hp & Hok & Hu & Hn0 & HX & Hd' & Hc & Hm)].
    + by eapply within_bound; [exact W|apply Z.le_refl|].
    + rewrite (len_perm _ _ Hp), len_cons. pose proof (Hnew e0 l Hok Hu Hn0 HX Hd' Hc Hm). lia.
Qed.

(** ** Streams already shown, and streams counted *)
Lemma identity k e u ip i : entry_ok k e → no_pipe ip → identifies k u ip i → UserID e = u ∧ ClientIP e = ip ∧ MediaItemID e = i.
Proof. intros [[Hp Hid] _] Hip Hk. by eapply identifies_inj. Qed.

Lemma HasStream_held t now u X L u' ip i : within t now u X L → no_pipe ip → HasStream now u' ip i t = true →
  ∃ e k, held t now k = Some e ∧ UserID e = u' ∧ ClientIP e = ip ∧ MediaItemID e = i.
Proof.
  intros W Hip Hs. unfold HasStream in Hs. rewrite has_any_law in Hs by (by eapply within_wf).
  apply existsb_exists in Hs as (k & Hin%list_elem_of_In & [e He]%bool_decide_eq_true).
  exists e, k. split; [done|]. eapply identity; [by eapply held_ok|done|].
  unfold stream_keys in Hin. apply elem_of_cons in Hin as [->|Hin%list_elem_of_singleton]; [apply id_bytes|subst; apply id_beat].
Qed.

(** A stream of [u] there is room for: any streams shown beside it leave it one. *)
Definition fits t now u X L ip i : Prop :=
  i ≠ Nil → i ∉ X → ∀ es, distinct_streams t now u X es → ip ∉ ClientIP <$> es → i ∉ MediaItemID <$> es → len es + 1 ≤ L.

Lemma fits_later t now n u X L ip i : wf t now → now ≤ n → fits t now u X L ip i → fits t n u X L ip i.
Proof. intros Hw Hn Hf Hi HX es Hd. apply (Hf Hi HX). by eapply distinct_later. Qed.

Lemma fits_fewer t t' now u X L ip i : (∀ k e, held t' now k = Some e → held t now k = Some e) →
  fits t now u X L ip i → fits t' now u X L ip i.
Proof.
  intros Hk Hf Hi HX es (D1 & D2 & D3). apply (Hf Hi HX). split; [done|split; [done|]]. intros e He.
  destruct (D3 e He) as (? & ? & ? & k & Hke). split_and!; [done..|]. exists k. by apply Hk.
Qed.

(** A stream shown can be exchanged for any of the same address and item. *)
Lemma shown_distinct t now u X L ip i l : within t now u X L → no_pipe ip → HasStream now u ip i t = true →
  i ≠ Nil → i ∉ X → distinct_streams t now u X l → ip ∉ ClientIP <$> l → i ∉ MediaItemID <$> l →
  ∃ e, ClientIP e = ip ∧ MediaItemID e = i ∧ distinct_streams t now u X (e :: l).
Proof.
  intros W Hip Hs Hn0 HX (D1 & D2 & D3) Hc Hm.
  destruct (HasStream_held t now u X L u ip i W Hip Hs) as (e & k & Hk & E1 & E2 & E3).
  exists e. split_and!; [done..|]. split; [|split].
  - apply NoDup_cons. by rewrite E2.
  - apply NoDup_cons. by rewrite E3.
  - intros e' [->|He']%elem_of_cons; [|by apply D3]. rewrite E3. split_and!; [done..|]. by exists k.
Qed.

Lemma fits_shown t now u X L ip i : within t now u X L → no_pipe ip → HasStream now u ip i t = true → fits t now u X L ip i.
Proof.
  intros W Hip Hs Hn0 HX es Hd Hc Hm.
  destruct (shown_distinct t now u X L ip i es W Hip Hs Hn0 HX Hd Hc Hm) as (e & _ & _ & Hd').
  pose proof (within_bound _ _ _ _ _ W now (e :: es) (Z.le_refl _) Hd') as Hb. rewrite len_cons in Hb. lia.
Qed.

(** Room is kept by a write of another account, of this stream, or of one shown. *)
Lemma fits_upsert t now u X L k init f ip i : within t now u X L →
  entry_ok k init → (∀ e, entry_ok k e → entry_ok k (f e)) →
  (∀ e, entry_ok k e → UserID e = u →
     (ClientIP e = ip ∧ MediaItemID e = i) ∨ HasStream now u (ClientIP e) (MediaItemID e) t = true) →
  fits t now u X L ip i → fits (upsert now k init f t) now u X L ip i.
Proof.
  intros W Hi Hf Hk Hfit Hn0 HX es Hd Hc Hm.
  destruct (distinct_upsert t now now u X L k init f es W (Z.le_refl _) Hi Hf Hd) as [Hd'|(e0 & l & Hp & Hok & Hu & Hn0' & HX' & Hd' & Hc' & Hm')].
  - by apply (Hfit Hn0 HX).
  - assert (ip ∉ ClientIP <$> e0 :: l ∧ i ∉ MediaItemID <$> e0 :: l) as [Hcl Hml] by (by rewrite <- Hp).
    destruct (Hk e0 Hok Hu) as [[E1 _]|Hs]; [set_solver|].
    destruct (shown_distinct t now u X L _ _ l W (proj1 (proj1 Hok)) Hs Hn0' HX' Hd' Hc' Hm') as (e & E1 & E2 & Hd1).
    rewrite (len_perm _ _ Hp). change (len (e0 :: l)) with (len (e :: l)). apply (Hfit Hn0 HX _ Hd1); set_solver.
Qed.

Lemma count_ge t now u X L ip i ss es : within t now u X L → covered ss u ⊆ X → distinct_streams t now u X es →
  u ≠ Nil → ip ∉ ClientIP <$> es → i ∉ MediaItemID <$> es →
  len es ≤ countDirectStreams ss (List now t).2 (mkReq u ip i).
Proof.
  intros W HX (D1 & D2 & D3) Hu Hip Hi. unfold countDirectStreams, len. apply inj_le.
  rewrite <- (length_fmap ClientIP), <- (size_list_to_set (C := gset string) (ClientIP <$> es)) by done.
  apply subseteq_size. intros c. rewrite !elem_of_list_to_set. intros (e & -> & He)%list_elem_of_fmap.
  destruct (D3 e He) as (Eu & Hn0 & HnX & k & Hk). pose proof (held_ok _ _ _ _ _ _ _ W Hk) as [_ Hc].
  rewrite Eu in Hc. specialize (Hc Hu).
  apply list_elem_of_fmap. exists e. split; [done|]. apply list_elem_of_filter. split; [|apply List_law; [by eapply within_wf|eauto]].
  unfold counted. cbn [user item clientIP]. rewrite Eu, N.eqb_refl, Hc. unfold uuid_Nil.
  rewrite (proj2 (N.eqb_neq _ _) Hn0), bool_decide_true by set_solver.
  rewrite (proj2 (N.eqb_neq _ _)) by (intros E; apply Hi, list_elem_of_fmap; eauto).
  rewrite (proj2 (String.eqb_neq _ _)); [done|]. intros E. apply Hip, list_elem_of_fmap. eauto.
Qed.

Lemma countTranscode_nonneg ss req now : 0 ≤ countTranscodeStreams s_ClientIP ss req now.
Proof. apply len_nonneg. Qed.

Definition enforced u X L (l : Wiring) : Prop :=
  tracked l = true ∧ (∃ c, caps l = Some c ∧ c u = Some L) ∧ covered (list_sessions l) u ⊆ X.

(** What the checks do to the tracker: nothing, or drop what has run out. *)
Lemma BlocksNewStream_tracker l now req t t' n :
  BlocksNewStream s_ClientIP l now req t = (t', n) → t' = t ∨ t' = (List now t).1.
Proof.
  unfold BlocksNewStream, Blocks, otherStreams, list_entries.
  destruct (bool_decide _); [by intros [= <- _]; left|]. destruct (tracked l && _); [by intros [= <- _]; left|].
  destruct (_ <=? 0); [by intros [= <- _]; left|].
  destruct (tracked l); [destruct (List now t) as [t1 es]; intros [= <- _]; by right|intros [= <- _]; by left].
Qed.

(** A request that is let through has room, if it is [u]'s. *)
Lemma admitted l now ip i t t' u X L : within t now u X L → enforced u X L l → 0 < L → u ≠ Nil → no_pipe ip →
  BlocksNewStream s_ClientIP l now (mkReq u ip i) t = (t', None) → fits t' now u X L ip i.
Proof.
  intros W (Htr & (c & Hc & HL) & HX) HL0 Hu Hip. unfold BlocksNewStream, Blocks, otherStreams, list_entries, limitFor.
  rewrite Hc, Htr. rewrite bool_decide_false by done. cbn [user clientIP item andb].
  destruct (HasStream now u ip i t) eqn:Hs; [intros [= <-]; by apply fits_shown|].
  rewrite HL. change (default 0 (Some L)) with L. rewrite (proj2 (Z.leb_gt _ _)) by exact HL0.
  pose proof (within_wf _ _ _ _ _ W) as Hw. pose proof (λ k, List_keeps t now now k Hw (Z.le_refl _)) as Hkeep.
  pose proof (λ es, count_ge t now u X L ip i (list_sessions l) es W HX) as Hge.
  destruct (List now t) as [t1 entries]. cbn [fst snd] in *.
  destruct (Z.leb_spec L (countTranscodeStreams s_ClientIP (list_sessions l) (mkReq u ip i) now + countDirectStreams (list_sessions l) entries (mkReq u ip i))) as [|Hlt]; [done|].
  intros [= <-]. apply (fits_fewer t); [intros k e He; by destruct (Hkeep k) as (_ & <- & _)|].
  intros _ _ es Hd Hc' Hm'. specialize (Hge es Hd Hu Hc' Hm').
  pose proof (countTranscode_nonneg (list_sessions l) (mkReq u ip i) now). lia.
Qed.
End LimitProps.

(** * Checks and writes of many requests *)
Section Writes.
Context (s_ClientIP : Session → string).
Context {T : Type} `{TrackerLaws T} {S : Type} `{Server S} `{UUIDText}.
Implicit Types (w : World T S) (u i : UUID) (X : gset N) (L : Z) (c : Run T S) (wr : write).

(** Addresses hold no separator; stored paths are absolute. *)
Definition address_ok (a : string) : Prop := no_pipe (audit_ClientIP a) ∧ no_pipe (canonicalIP (audit_ClientIP a)).
Definition request_ok (r : request) : Prop :=
  match r with
  | RStream _ _ a _ _ path _ => address_ok a ∧ HasPrefix path "/" = true
  | ROptimized _ _ a _ _ _ _ _ | RProgress _ a _ _ _ _ => address_ok a
  | RStop _ _ _ _ _ => True
  end.

(** The stream a write shows. *)
Definition shows wr : option (UUID * string * UUID) :=
  match wr with
  | WTouchFile u ip i _ _ _ | WTouchOptimized u ip i _ _ _ _ | WBeat u ip i _ _ => Some (u, ip, i)
  | WTouch ip _ _ => Some (Nil, ip, Nil)
  | WBeatStopped _ _ _ | WRemove _ _ _ => None
  end.
Definition write_ok wr : Prop :=
  match wr with
  | WTouchFile _ ip _ _ _ _ | WTouchOptimized _ ip _ _ _ _ _ | WBeat _ ip _ _ _ => no_pipe ip ∧ canonicalIP ip = ip
  | WTouch ip path _ => no_pipe ip ∧ HasPrefix path "/" = true
  | WBeatStopped _ _ _ | WRemove _ _ _ => True
  end.

(** Every write drops entries, or writes one of the stream it shows. *)
Variant write_spec (now : Z) wr (t : T) : T → Prop :=
  | spec_remove ks : shows wr = None → write_spec now wr t (remove now ks t)
  | spec_upsert k init f u ip i : shows wr = Some (u, ip, i) → no_pipe ip → identifies k u ip i →
      entry_ok k init → (∀ e, entry_ok k e → entry_ok k (f e)) → write_spec now wr t (upsert now k init f t).

Lemma written_spec now wr t : write_ok wr → write_spec now wr t (written now wr t).
Proof.
  assert (∀ k u ip i (init : Entry), no_pipe ip → canonicalIP ip = ip → identifies k u ip i →
    UserID init = u → ClientIP init = ip → MediaItemID init = i → entry_ok k init) as Hinit.
  { intros k u ip i init Hp Hc Hid <- <- <-. split; [by split|by intros _]. }
  assert (∀ k (f : Entry → Entry), (∀ e, ClientIP (f e) = ClientIP e ∧ UserID (f e) = UserID e ∧ MediaItemID (f e) = MediaItemID e) →
    ∀ e, entry_ok k e → entry_ok k (f e)) as Hsame.
  { intros k f Hf e. unfold entry_ok, owned. by destruct (Hf e) as (-> & -> & ->). }
  destruct wr as [u ip i fi p n|ip p n|u ip i so v p n|u ip i n d|u ip i|u ip i]; cbn [write_ok written]; intros Hok;
    try (by constructor); destruct Hok as [Hp Hc].
  - eapply spec_upsert; [done|done|apply id_bytes|by eapply Hinit; [..|apply id_bytes| | |]|by apply Hsame].
  - eapply spec_upsert; [done|done|by apply id_path| |by apply Hsame].
    split; [split; [done|by apply id_path]|done].
  - eapply spec_upsert; [done|done|apply id_bytes|by eapply Hinit; [..|apply id_bytes| | |]|by apply Hsame].
  - eapply spec_upsert; [done|done|apply id_beat|by eapply Hinit; [..|apply id_beat| | |]|].
    intros e Hok. destruct (identity _ _ _ _ _ Hok Hp (id_beat u ip i)) as (E1 & E2 & E3).
    destruct Hok as [Ho Hco]. destruct e. cbn in E1, E2, E3. subst. cbn zeta. case_match; exact (conj Ho Hco).
Qed.

Lemma gates_tracker env convert u a i w t o : gates s_ClientIP env convert u a i w = (t, o) →
  t = tracker w ∨ t = (List (e_now env) (tracker w)).1.
Proof.
  unfold gates. destruct (e_parental env); [intros [= <- _]; by left|]. destruct (stopped _ _ _ _ _); [intros [= <- _]; by left|].
  destruct (BlocksNewStream _ _ _ _ _) as [t1 [n|]] eqn:Eb; intros [= <- _]; by eapply BlocksNewStream_tracker.
Qed.

Lemma gates_none env convert u' a i w t :
  gates s_ClientIP env convert u' a i w = (t, None) →
  BlocksNewStream s_ClientIP (e_limit env) (e_now env) (mkReq u' (canonicalIP a) i) (tracker w) = (t, None).
Proof.
  unfold gates. destruct (e_parental env); [done|]. destruct (stopped _ _ _ _ _); [done|].
  destruct (BlocksNewStream _ _ _ _ _) as [t1 [n|]]; [done|]. by intros [= <- _].
Qed.

(** What the checks leave: the tracker, perhaps without what has run out, and a
    write that, when it is of a viewer's media request, passed the limit. *)
Lemma checked_spec env r w : request_ok r →
  let '(w', (o, wr)) := checked s_ClientIP env r w in
  (tracker w' = tracker w ∨ tracker w' = (List (e_now env) (tracker w)).1)
  ∧ ∀ x, wr = Some x → write_ok x
      ∧ ∀ u ip i, shows x = Some (u, ip, i) → u ≠ Nil → (∀ n d, x ≠ WBeat u ip i n d) →
          BlocksNewStream s_ClientIP (e_limit env) (e_now env) (mkReq u ip i) (tracker w) = (tracker w', None).
Proof.
  intros Hr. destruct r as [m [u'|] a i f p ua|m [u'|] a i f v p ua|u' a i st n d|u' i ip d msg];
    cbn [checked request_ok] in *; unfold StreamFile, StreamOptimized, Progress, Stop.
  1: destruct Hr as [[_ Ha] _]. 3: destruct Hr as [_ Ha].
  1, 3: destruct (gates _ _ _ _ _ _ _) as [t [o|]] eqn:Eg; cbn; (split; [by eapply gates_tracker|]); [done|];
    intros x Hx; destruct (isRead m); [|done]; injection Hx as <-; (split; [split; [done|apply canonicalIP_idemp]|]);
    intros u ip j [= <- <- <-] _ _; by eapply gates_none.
  - destruct Hr as [[Ha _] Hp]. split; [by left|]. intros x Hx. destruct (isRead m); [|done]. injection Hx as <-.
    split; [done|]. by intros u ip j [= <- <- <-] Hn.
  - split; [by left|done].
  - destruct Hr as [_ Ha]. destruct (_ && e_parental env); [split; [by left|done]|]. destruct (_ && stopped _ _ _ _ _); [split; [by left|done]|].
    destruct (negb (e_recorded env)); (split; [by left|]); [done|]. intros x [= <-]. destruct (String.eqb st "stopped"); [done|].
    split; [split; [done|apply canonicalIP_idemp]|]. intros u ip j [= <- <- <-] _ Hb. by destruct (Hb (String.substring 0 64 n) (normalizePlayDecision d)).
  - destruct (cleanStopMessage msg) as [text|]; [|split; [by left|done]]. set (target := negb (uuid_Nil u') && negb (String.eqb ip "")).
    destruct (negb (String.eqb d "transcode") && target); (split; [by left|]); intros x Hx; destruct target; by simplify_eq/=.
Qed.
End Writes.

Section Household.
Context (s_ClientIP : Session → string).
Context {T : Type} `{TrackerLaws T} {S : Type} `{Server S} `{UUIDText}.
Implicit Types (w : World T S) (u i : UUID) (X : gset N) (L : Z) (c : Run T S) (wr : write).

Definition is_beat wr : bool := match wr with WBeat _ _ _ _ _ => true | _ => false end.

(** A beacon of [u] that is not a stop is for a stream the tracker shows. *)
Definition beat_follows u (st : statement) c : Prop :=
  match st with
  | Writes n now => ∀ ip i name d, owes c !! n = Some (WBeat u ip i name d) → HasStream now u ip i (tracker (world c)) = true
  | Checks _ _ _ => True
  end.
(** The media requests of [u] that are past their checks at one time are of one
    stream: one item at one address. *)
Definition one_stream u c : Prop :=
  ∀ n n' wr wr' ip i ip' i', owes c !! n = Some wr → owes c !! n' = Some wr' → is_beat wr = false → is_beat wr' = false →
    shows wr = Some (u, ip, i) → shows wr' = Some (u, ip', i') → ip' = ip ∧ i' = i.
Fixpoint orderly u (sts : list statement) c : Prop :=
  match sts with
  | [] => True
  | st :: sts => beat_follows u st c ∧ one_stream u (stmt_step s_ClientIP st c) ∧ orderly u sts (stmt_step s_ClientIP st c)
  end.

Definition in_force u X L (st : statement) : Prop :=
  match st with Checks _ env r => enforced u X L (e_limit env) ∧ request_ok r | Writes _ _ => True end.

(** The limit holds, and there is room for every media request of [u] past its checks. *)
Record sound u X L c now : Prop := {
  sound_within : within (tracker (world c)) now u X L;
  sound_ok n wr : owes c !! n = Some wr → write_ok wr;
  sound_room n wr ip i : owes c !! n = Some wr → is_beat wr = false → shows wr = Some (u, ip, i) → fits (tracker (world c)) now u X L ip i }.

Lemma sound_later u X L c now n : now ≤ n → sound u X L c now → sound u X L c n.
Proof.
  intros Hn [Hw Hok Hr]. split; [by eapply within_later|done|]. intros m wr ip i Hm Hb Hs.
  eapply fits_later; [by eapply within_wf|done|by eapply Hr].
Qed.

Lemma List_within_fits t now u X L : within t now u X L →
  within (List now t).1 now u X L ∧ ∀ ip i, fits t now u X L ip i → fits (List now t).1 now u X L ip i.
Proof.
  intros W. split; [by apply within_List|]. intros ip i. apply fits_fewer. intros k e.
  destruct (List_keeps t now now k (within_wf _ _ _ _ _ W) (Z.le_refl _)) as (_ & -> & _). done.
Qed.

Lemma checks_sound n env r c u X L : sound u X L c (e_now env) → enforced u X L (e_limit env) → 0 < L → u ≠ Nil →
  request_ok r → sound u X L (stmt_step s_ClientIP (Checks n env r) c) (e_now env).
Proof.
  intros [W Hok Hroom] He HL Hu Hr. cbn [stmt_step]. destruct (owes c !! n); [by split|].
  pose proof (checked_spec s_ClientIP env r (world c) Hr) as Hc.
  destruct (checked s_ClientIP env r (world c)) as [w' [o wr]]. destruct Hc as [Ht Hx].
  assert (within (tracker w') (e_now env) u X L ∧ ∀ ip i, fits (tracker (world c)) (e_now env) u X L ip i → fits (tracker w') (e_now env) u X L ip i)
    as [W' Hf] by (destruct Ht as [-> | ->]; [done|by apply List_within_fits]).
  split; cbn [world owes]; [done| |].
  - intros m x Hm. destruct wr as [wr|]; [|by eapply Hok]. apply lookup_insert_Some in Hm as [[_ <-]|[_ Hm]]; [by apply Hx|by eapply Hok].
  - intros m x ip i Hm Hb Hs. destruct wr as [wr|]; [|apply Hf; by eapply Hroom].
    apply lookup_insert_Some in Hm as [[_ <-]|[_ Hm]]; [|apply Hf; by eapply Hroom].
    destruct (Hx wr eq_refl) as [Hwok Hgate].
    apply (admitted s_ClientIP (e_limit env) (e_now env) ip i (tracker (world c))); [done..| |].
    + destruct wr; cbn in Hs, Hwok; try discriminate Hs; injection Hs as E1 E2 E3; subst; [apply Hwok|done|apply Hwok|done].
    + apply Hgate; [done|done|]. intros nm d ->. done.
Qed.

Lemma writes_sound n now c u X L : sound u X L c now → 0 < L → u ≠ Nil →
  beat_follows u (Writes n now) c → one_stream u c → sound u X L (stmt_step s_ClientIP (Writes n now) c) now.
Proof.
  intros [W Hok Hroom] HL Hu Hb Hone. cbn [stmt_step]. destruct (owes c !! n) as [wr|] eqn:En; [|by split].
  cbn [beat_follows] in Hb.
  enough (within (written now wr (tracker (world c))) now u X L
          ∧ ∀ m x ip i, owes c !! m = Some x → is_beat x = false → shows x = Some (u, ip, i) →
              fits (written now wr (tracker (world c))) now u X L ip i) as [W' Hf].
  { split; cbn [world owes tracker with_tracker]; [done| |]; intros m x.
    - intros [_ Hm]%lookup_delete_Some. by eapply Hok.
    - intros ip i [_ Hm]%lookup_delete_Some. by eapply Hf. }
  destruct (written_spec now wr (tracker (world c)) (Hok n wr En)) as [ks Hs|k init f u' ip' i' Hs Hp Hid Hi Hk].
  - split; [by apply within_remove|]. intros m x ip i Hm Hbx Hsx.
    apply (fits_fewer (tracker (world c))); [|by eapply Hroom]. intros k e.
    destruct (remove_law (tracker (world c)) now now ks (within_wf _ _ _ _ _ W) (Z.le_refl _)) as [_ E].
    destruct (E k) as [_ ->]. by destruct (decide (k ∈ ks)).
  - assert (∀ e, entry_ok k e → UserID e = u' ∧ ClientIP e = ip' ∧ MediaItemID e = i') as Hident
      by (intros e He; by eapply identity).
    assert (u' = u → is_beat wr = true → HasStream now u ip' i' (tracker (world c)) = true) as Hshown.
    { intros -> Hbt. destruct wr; try discriminate Hbt. cbn in Hs. injection Hs as -> -> ->. by eapply Hb. }
    split.
    + apply within_upsert; [done..|]. intros e es He Hue Hn0 HX Hd Hc Hm. destruct (Hident e He) as (E1 & E2 & E3).
      assert (u' = u) as -> by congruence.
      assert (fits (tracker (world c)) now u X L ip' i') as Hfit.
      { destruct (is_beat wr) eqn:Ebt; [by apply fits_shown; [..|by apply Hshown]|by eapply Hroom]. }
      apply Hfit; congruence.
    + intros m x ip i Hm Hbx Hsx. apply fits_upsert; [done..| |by eapply Hroom].
      intros e He Hue. destruct (Hident e He) as (E1 & -> & ->). assert (u' = u) as -> by congruence.
      destruct (is_beat wr) eqn:Ebt; [right; by apply Hshown|left]. by apply (Hone m n x wr ip i ip' i').
Qed.

Lemma run_sound sts : ∀ c t0 now u X L, sound u X L c t0 → one_stream u c → StronglySorted Z.le (t0 :: (instant <$> sts)) →
  Forall (λ s, s ≤ now) (t0 :: (instant <$> sts)) → Forall (in_force u X L) sts →
  orderly u sts c → 0 < L → u ≠ Nil → sound u X L (run_stmts s_ClientIP sts c) now.
Proof.
  induction sts as [|st sts IH]; intros c t0 now u X L Hc Hone Hs Hn Hr Ho HL Hu; cbn [run_stmts foldl flip] in *.
  - apply Forall_cons in Hn as [Hn _]. by eapply sound_later.
  - apply Forall_cons in Hr as [Hst Hr]. apply Forall_cons in Hn as [_ Hn]. destruct Ho as (Hb & Hone' & Ho).
    inversion Hs as [|? ? Hs1 Hs2]; subst. cbn [fmap list_fmap] in *. apply Forall_cons in Hs2 as [Hle _].
    apply (IH _ (instant st) now); [|done..]. apply (sound_later _ _ _ _ _ _ Hle) in Hc.
    destruct st as [n env r|n t]; [destruct Hst; by apply checks_sound|by apply writes_sound].
Qed.

(** C30: the stream limit holds.  Requests of any accounts, each its checks and
    later its write to the tracker, interleave in any order from an empty
    tracker.  For one account the admin's limit is [L]: every check reads it (a
    failed read lets a request through) and the tracker is wired.  The account's
    beacons are for streams the tracker shows ([Sample.beacon_first] is what
    others do), and its media requests that are past their checks at one time are
    of one item at one address - the code does not exclude two devices that ask
    at the same time, and both get in ([Sample.two_at_once]).  Then the account
    never has more than [L] direct plays of different items to different
    addresses, items that its transcode sessions cover aside
    ([Sample.dead_session_covers]); one item at many addresses is not limited
    ([Sample.same_title_unlimited]). *)
Theorem stream_limit_holds w (sts : list statement) (t0 now : Z) (u : UUID) (X : gset N) (L : Z) es :
  fresh (tracker w) t0 → 0 < L → u ≠ Nil →
  StronglySorted Z.le (t0 :: (instant <$> sts)) → Forall (λ s, s ≤ now) (t0 :: (instant <$> sts)) →
  Forall (in_force u X L) sts → orderly u sts (mkRun w ∅) →
  (∀ e, e ∈ es → e ∈ (List now (tracker (world (run_stmts s_ClientIP sts (mkRun w ∅))))).2
                 ∧ UserID e = u ∧ MediaItemID e ≠ Nil ∧ MediaItemID e ∉ X) →
  NoDup (ClientIP <$> es) → NoDup (MediaItemID <$> es) → len es ≤ L.
Proof.
  intros [Hw Hf] HL Hu Hs Hn Hr Ho Hes D1 D2.
  assert (within (tracker w) t0 u X L) as W0.
  { split; [done| |].
    - intros n k e Hn' He. destruct (Hf n k Hn') as [E _]. by rewrite E in He.
    - intros n es' Hn' (_ & _ & D3). destruct es' as [|e es']; [unfold len; simpl; lia|].
      destruct (D3 e) as (_ & _ & _ & k & Hk); [left|]. destruct (Hf n k Hn') as [_ E]. by rewrite E in Hk. }
  assert (sound u X L (mkRun w ∅) t0) as Hc by (split; [done|by intros n wr|by intros n wr ip i]).
  assert (one_stream u (mkRun w ∅)) as Hone by (by intros n n' wr wr' ip i ip' i').
  pose proof (sound_within _ _ _ _ _ (run_sound sts _ t0 now u X L Hc Hone Hs Hn Hr Ho HL Hu)) as W.
  apply (within_bound _ _ _ _ _ W now); [lia|]. split; [done|split; [done|]]. intros e He.
  destruct (Hes e He) as (Hin & ? & ? & ?). split_and!; [done..|]. apply List_law in Hin; [done|by eapply within_wf].
Qed.
End Household.

(** * A stopped stream stays out *)
Section StopProps.
Context (s_ClientIP : Session → string).
Context {T : Type} `{TrackerLaws T} {S : Type} `{Server S} `{UUIDText}.
Implicit Types (w : World T S) (t : T) (u i : UUID).

Lemma playbackStopRedisKey_inj k k' : playbackStopRedisKey k = playbackStopRedisKey k' → k = k'.
Proof.
  assert (∀ v, sforall (λ c, negb (Ascii.eqb c ":")) (uuid_text v) = true) as Hp.
  { intros v. eapply sforall_impl; [|apply uuid_text_plain]. intros c Hc. apply negb_true_iff. by destruct (Ascii.eqb_spec c ":") as [->|]. }
  destruct k as [[u i] ip], k' as [[u' i'] ip']. unfold playbackStopRedisKey. cbn [fst snd]. intros E.
  apply (inj (String.append _)) in E.
  apply (Cut_same _ _ (uuid_text i +:+ String ":" ip) (uuid_text i' +:+ String ":" ip')) in E as [E1 E]; [|apply Hp..].
  apply (Cut_same _ _ ip ip') in E as [E2 ->]; [|apply Hp..].
  apply (inj uuid_text) in E1 as ->. by apply (inj uuid_text) in E2 as ->.
Qed.

(** The shared record of a stop is there until [until]. *)
Definition recorded (s : S) (now until : Z) (k : playbackStopKey) : Prop :=
  ∀ n : Z, now ≤ n < until → ∃ m d, view s n (playbackStopRedisKey k) = Some (Valkey.mkEntry (Valkey.VStr m) d).

(** Nothing is shown under the keys, from [now] on. *)
Definition out (t : T) (now : Z) (ks : list string) : Prop :=
  wf t now ∧ ∀ n k, now ≤ n → k ∈ ks → held t n k = None.

Lemma out_later t now n ks : now ≤ n → out t now ks → out t n ks.
Proof. intros Hn [Hw Ho]. split; [by eapply wf_later|]. intros m k Hm. apply Ho. lia. Qed.

Lemma out_List t now ks : out t now ks → out (List now t).1 now ks.
Proof.
  intros [Hw Ho]. split; [by apply (List_keeps t now now "")|]. intros n k Hn Hk.
  destruct (List_keeps t now n k Hw Hn) as (_ & -> & _). by apply Ho.
Qed.

Lemma out_upsert t now ks k init f : out t now ks → k ∉ ks → out (upsert now k init f t) now ks.
Proof.
  intros [Hw Ho] Hk. split; [by apply (upsert_law t now now)|]. intros n k' Hn Hk'.
  destruct (upsert_law t now n k init f Hw Hn) as (_ & E & _). destruct (E k') as [_ ->]; [set_solver|]. by apply Ho.
Qed.

Lemma out_remove t now ks ks' : out t now ks → out (remove now ks' t) now ks.
Proof.
  intros [Hw Ho]. split; [by apply (remove_law t now now)|]. intros n k Hn Hk.
  destruct (remove_law t now n ks' Hw Hn) as [_ E]. destruct (E k) as [_ ->]. case_decide; [done|]. by apply Ho.
Qed.

Lemma recorded_set s now until k f k' msg : recorded s now until k → until ≤ now + playbackStopWindow →
  recorded (Set_ f now (playbackStopRedisKey k') msg playbackStopWindow s).1 now until k.
Proof.
  intros Hr Hu. assert (recorded (c_set now (playbackStopRedisKey k') msg playbackStopWindow s) now until k) as Hs.
  { intros n Ht. rewrite (c_set_law now (playbackStopRedisKey k') msg playbackStopWindow s ltac:(done) n) by lia. case_decide.
    - cbn. rewrite (proj2 (Z.ltb_lt _ _)) by lia. eauto.
    - by apply Hr. }
  unfold Set_, call, silent. by destruct f.
Qed.

Lemma recorded_stopped env u i a ip w until : recorded (server w) (e_now env) until (u, i, ip) → e_now env < until →
  e_get env = FOk → canonicalIP a = ip → u ≠ Nil → i ≠ Nil → stopped env u i a w = true.
Proof.
  intros Hr Ht Hg <- Hu Hi. unfold stopped, Blocked, uuid_Nil.
  rewrite (proj2 (N.eqb_neq u Nil) Hu), (proj2 (N.eqb_neq i Nil) Hi). cbn [orb].
  destruct (Hr (e_now env)) as (m & d & Hv); [lia|]. rewrite Hg. unfold Get, call. cbn [snd].
  by rewrite (c_get_some _ _ _ _ _ Hv).
Qed.

(** A beacon for the stream says playing or stopped. *)
Definition plain_beat u ip i (r : request) : Prop :=
  match r with
  | RProgress u' a i' st _ _ => u' = u → canonicalIP (audit_ClientIP a) = ip → i' = i → st = "playing" ∨ st = "stopped"
  | _ => True
  end.

(** A request that would show the stream again. *)
Definition restarts u ip i (r : request) : Prop :=
  match r with
  | RStream _ (Some u') a i' _ _ _ | ROptimized _ (Some u') a i' _ _ _ _ => u' = u ∧ canonicalIP (audit_ClientIP a) = ip ∧ i' = i
  | RProgress u' a i' st _ _ => u' = u ∧ canonicalIP (audit_ClientIP a) = ip ∧ i' = i ∧ st = "playing"
  | _ => False
  end.

Lemma not_stream_key k u ip i u' ip' i' : no_pipe ip → no_pipe ip' → identifies k u' ip' i' →
  ¬ (u' = u ∧ ip' = ip ∧ i' = i) → k ∉ stream_keys u ip i.
Proof.
  intros Hp Hp' Hid Hne Hk. apply Hne. unfold stream_keys in Hk.
  apply elem_of_cons in Hk as [->|Hk%list_elem_of_singleton].
  - by destruct (identifies_inj _ _ _ _ _ _ _ Hp' Hp Hid (id_bytes u ip i)) as (? & ? & ?).
  - subst k. by destruct (identifies_inj _ _ _ _ _ _ _ Hp' Hp Hid (id_beat u ip i)) as (? & ? & ?).
Qed.

Lemma remove_out t now u ip i : wf t now → out (RemoveStream now u ip i t) now (stream_keys u ip i).
Proof.
  intros Hwf. unfold RemoveStream. split; [by apply (remove_law t now now)|]. intros n k Hn Hk.
  destruct (remove_law t now n [heartbeatEntryKey u ip i; bytesEntryKey u ip i] Hwf Hn) as [_ E].
  destruct (E k) as [_ ->]. rewrite decide_True; [done|]. unfold stream_keys in Hk. set_solver.
Qed.

Lemma gates_stopped env convert u a i w : stopped env u i a w = true →
  gates s_ClientIP env convert u a i w = (tracker w, Some errParental)
  ∨ gates s_ClientIP env convert u a i w = (tracker w, Some errStopped).
Proof. intros E. unfold gates. rewrite E. destruct (e_parental env); auto. Qed.

(** A request that would show the stream is refused, and leaves nothing to write;
    any other leaves a write that does not show it. *)
Lemma checked_barred env r w u ip i until : recorded (server w) (e_now env) until (u, i, ip) →
  e_now env < until ≤ e_now env + playbackStopWindow → e_get env = FOk → u ≠ Nil → i ≠ Nil → plain_beat u ip i r →
  let '(w', (o, wr)) := checked s_ClientIP env r w in
  recorded (server w') (e_now env) until (u, i, ip)
  ∧ (restarts u ip i r → wr = None ∧ (o = errParental ∨ o = errStopped))
  ∧ ∀ x, wr = Some x → shows x ≠ Some (u, ip, i).
Proof.
  intros Hrec Hun Hg Hu Hi Hb.
  assert (∀ u' a i', u' = u ∧ canonicalIP a = ip ∧ i' = i → stopped env u' i' a w = true) as Hstop.
  { intros u' a i' (-> & Ha & ->). eapply recorded_stopped; [exact Hrec|lia|done..]. }
  assert (∀ convert u' a i' t, gates s_ClientIP env convert u' a i' w = (t, None) → ¬ (u' = u ∧ canonicalIP a = ip ∧ i' = i)) as Hgate.
  { intros cv u' a i' t Eg Hs. destruct (gates_stopped env cv u' a i' w (Hstop _ _ _ Hs)) as [E|E]; congruence. }
  assert (∀ convert u' a i' t o, gates s_ClientIP env convert u' a i' w = (t, Some o) → u' = u ∧ canonicalIP a = ip ∧ i' = i →
    o = errParental ∨ o = errStopped) as Href.
  { intros cv u' a i' t o Eg Hs. destruct (gates_stopped env cv u' a i' w (Hstop _ _ _ Hs)) as [E|E]; rewrite E in Eg; injection Eg; auto. }
  destruct r as [m [u'|] a i' f p ua|m [u'|] a i' f v p ua|u' a i' st n d|u' i' ip' d msg];
    cbn [checked plain_beat restarts] in *; unfold StreamFile, StreamOptimized, Progress, Stop; try by split_and!.
  - destruct (gates _ _ _ _ _ _ _) as [t [o|]] eqn:Eg; cbn; [by split_and!; eauto|]. apply Hgate in Eg.
    split_and!; [done|done|]. intros x Hx. destruct (isRead m); [|done]. injection Hx as <-. intros [= E1 E2 E3]. by apply Eg.
  - cbn. split_and!; [done|done|]. intros x Hx. destruct (isRead m); [|done]. injection Hx as <-. intros [= E1 E2 E3]. by destruct Hu.
  - destruct (gates _ _ _ _ _ _ _) as [t [o|]] eqn:Eg; cbn; [by split_and!; eauto|]. apply Hgate in Eg.
    split_and!; [done|done|]. intros x Hx. destruct (isRead m); [|done]. injection Hx as <-. intros [= E1 E2 E3]. by apply Eg.
  - destruct (String.eqb_spec st "playing") as [->|Hst]; cbn [andb].
    + destruct (e_parental env); [split_and!; auto|].
      destruct (stopped env u' i' (audit_ClientIP a) w) eqn:Es; [split_and!; auto|].
      assert (¬ (u' = u ∧ canonicalIP (audit_ClientIP a) = ip ∧ i' = i)) as Hne by (intros Hs; rewrite (Hstop _ _ _ Hs) in Es; done).
      destruct (negb (e_recorded env)); [split_and!; [done|naive_solver|done]|]. split_and!; [done|naive_solver|].
      intros x [= <-]. cbn. naive_solver.
    + destruct (negb (e_recorded env)); [split_and!; [done|naive_solver|done]|]. split_and!; [done|naive_solver|].
      intros x [= <-]. destruct (String.eqb_spec st "stopped"); [done|]. intros [= E1 E2 E3]. by destruct (Hb E1 E2 E3).
  - destruct (cleanStopMessage msg) as [text|]; [|done]. set (target := negb (uuid_Nil u') && negb (String.eqb ip' "")).
    destruct (negb (String.eqb d "transcode") && target); cbn;
      (split_and!; [|done|intros x Hx; destruct target; by simplify_eq/=]); [apply recorded_set; [done|lia]|done].
Qed.

(** Statements within the window of a stop. *)
Definition in_window u ip i (st : statement) : Prop :=
  match st with Checks _ env r => e_get env = FOk ∧ request_ok r ∧ plain_beat u ip i r | Writes _ _ => True end.

(** The stop is recorded, no write that shows the stream is left over, and the
    stop has dropped the stream, or thread [n] is about to. *)
Record barred (n : nat) u ip i until (c : Run T S) now : Prop := {
  b_wf : wf (tracker (world c)) now;
  b_ok m wr : owes c !! m = Some wr → write_ok wr ∧ shows wr ≠ Some (u, ip, i);
  b_recorded : recorded (server (world c)) now until (u, i, ip);
  b_gone : owes c !! n = Some (WRemove u ip i) ∨ out (tracker (world c)) now (stream_keys u ip i) }.

Lemma barred_later n u ip i until c now now' : now ≤ now' → barred n u ip i until c now → barred n u ip i until c now'.
Proof.
  intros Hle [Hw Hok Hrec Hg]. split; [by eapply wf_later|done| |].
  - intros t Ht. apply Hrec. lia.
  - destruct Hg as [Hg|Hg]; [by left|right; by eapply out_later].
Qed.

Lemma barred_step n st c u ip i until : barred n u ip i until c (instant st) →
  instant st < until ≤ instant st + playbackStopWindow → no_pipe ip → u ≠ Nil → i ≠ Nil → in_window u ip i st →
  barred n u ip i until (stmt_step s_ClientIP st c) (instant st).
Proof.
  intros HB Hun Hip Hu Hi Hst. pose proof HB as [Hw Hok Hrec Hg]. destruct st as [m env r|m now]; cbn [instant stmt_step in_window] in *.
  - destruct Hst as (Hget & Hr & Hb). destruct (owes c !! m) as [x|] eqn:Em; [done|].
    pose proof (checked_barred env r (world c) u ip i until Hrec Hun Hget Hu Hi Hb) as H1'.
    pose proof (checked_spec s_ClientIP env r (world c) Hr) as H2'.
    destruct (checked s_ClientIP env r (world c)) as [w' [o wr]].
    destruct H1' as (Hrec' & _ & Hsh), H2' as (Ht & Hx). split; cbn [world owes].
    + destruct Ht as [-> | ->]; [done|by apply (List_keeps (tracker (world c)) (e_now env) (e_now env) "")].
    + intros k x Hk. destruct wr as [wr|]; [|by eapply Hok].
      apply lookup_insert_Some in Hk as [[_ <-]|[_ Hk]]; [|by eapply Hok]. split; [by apply Hx|by apply Hsh].
    + done.
    + destruct Hg as [Hg|Hg]; [left|right; destruct Ht as [-> | ->]; [done|by apply out_List]].
      destruct wr; [|done]. rewrite lookup_insert_ne; [done|]. intros ->. congruence.
  - destruct (owes c !! m) as [x|] eqn:Em; [|done]. destruct (Hok m x Em) as [Hx Hsh].
    split; cbn [world owes tracker server with_tracker].
    + destruct (written_spec now x (tracker (world c)) Hx); [by apply (remove_law (tracker (world c)) now now)|by apply (upsert_law (tracker (world c)) now now)].
    + intros k y [_ Hk]%lookup_delete_Some. by eapply Hok.
    + done.
    + destruct Hg as [Hg|Hg].
      * destruct (decide (m = n)) as [->|Hne]; [right|left; by rewrite lookup_delete_ne].
        assert (x = WRemove u ip i) as -> by congruence. by apply remove_out.
      * right. destruct (written_spec now x (tracker (world c)) Hx) as [ks|k init f u' ip' i' Hs Hp Hid]; [by apply out_remove|].
        apply out_upsert; [done|]. eapply not_stream_key; [exact Hip|exact Hp|exact Hid|]. intros (-> & -> & ->). by apply Hsh.
Qed.

Lemma barred_run n sts : ∀ c (t0 now : Z) u ip i until,
  barred n u ip i until c t0 → now < until ≤ t0 + playbackStopWindow → no_pipe ip → u ≠ Nil → i ≠ Nil →
  StronglySorted Z.le (t0 :: (instant <$> sts)) → Forall (λ s, s ≤ now) (t0 :: (instant <$> sts)) →
  Forall (in_window u ip i) sts →
  barred n u ip i until (run_stmts s_ClientIP sts c) now
  ∧ ∀ sts1 m env r sts2, sts = sts1 ++ Checks m env r :: sts2 → restarts u ip i r →
      ∃ o, (checked s_ClientIP env r (world (run_stmts s_ClientIP sts1 c))).2 = (o, None) ∧ (o = errParental ∨ o = errStopped).
Proof.
  induction sts as [|st sts IH]; intros c t0 now u ip i until HB Hun Hip Hu Hi Hs Hn Hw; cbn [run_stmts foldl flip] in *.
  - apply Forall_cons in Hn as [Hn _]. split; [by eapply barred_later|]. intros sts1 m env r sts2 E. by destruct sts1.
  - apply Forall_cons in Hw as [Hst Hws]. apply Forall_cons in Hn as [_ Hn].
    inversion Hs as [|? ? Hs1 Hs2]; subst. cbn [fmap list_fmap] in *. apply Forall_cons in Hs2 as [Hle _].
    pose proof (proj1 (proj1 (Forall_cons _ _ _) Hn)) as Hen. apply (barred_later _ _ _ _ _ _ _ _ Hle) in HB.
    destruct (IH (stmt_step s_ClientIP st c) (instant st) now u ip i until) as [IH1 IH2]; try done; try lia.
    { apply barred_step; try done; lia. }
    split; [done|]. intros [|st' sts1] m env r sts2 E Hre; cbn in E; simplify_eq.
    + cbn [run_stmts foldl]. cbn [instant in_window] in *. destruct Hst as (Hget & _ & Hb).
      pose proof (checked_barred env r (world c) u ip i until (b_recorded _ _ _ _ _ _ _ HB) ltac:(lia) Hget Hu Hi Hb) as Hc.
      destruct (checked s_ClientIP env r (world c)) as [w' [o wr]]. destruct Hc as (_ & Hc & _). destruct (Hc Hre) as [-> Ho].
      by exists o.
    + by eapply IH2.
Qed.

(** The keys of stops hold text. *)
Definition stops_text (s : S) (now : Z) : Prop :=
  ∀ (n : Z) k e, now ≤ n → view s n (playbackStopRedisKey k) = Some e → ∃ m d, e = Valkey.mkEntry (Valkey.VStr m) d.

Lemma get_view (s s' : S) (now n : Z) k : stops_text s now → now ≤ n →
  view s' n (playbackStopRedisKey k) = view s n (playbackStopRedisKey k) →
  c_get s' n (playbackStopRedisKey k) = c_get s n (playbackStopRedisKey k).
Proof.
  intros Ht Hn E. destruct (view s n (playbackStopRedisKey k)) as [e|] eqn:Ev.
  - destruct (Ht n k e Hn Ev) as (m & d & ->). by rewrite (c_get_some _ _ _ _ _ E), (c_get_some _ _ _ _ _ Ev).
  - by rewrite (c_get_none _ _ _ E), (c_get_none _ _ _ Ev).
Qed.

Lemma sweep_lookup now n g k : now ≤ n →
  match local (sweepLocked now g) !! k with Some e => if n <? expires e then Some (message e) else None | None => None end
  = match local g !! k with Some e => if n <? expires e then Some (message e) else None | None => None end.
Proof.
  intros Hn. unfold sweepLocked. destruct (_ <? _); [done|]. cbn [local]. rewrite map_lookup_filter.
  destruct (local g !! k) as [e|]; [|done]. cbn. case_guard; [done|]. cbn. by rewrite (proj2 (Z.ltb_ge _ _)) by lia.
Qed.

Lemma block_lookup now n k k' msg g : now ≤ n → k' ≠ k →
  match local (mkGuard (<[k := mkStop msg (now + playbackStopWindow)]> (local (sweepLocked now g))) (lastSweep (sweepLocked now g))) !! k' with
  | Some e => if n <? expires e then Some (message e) else None | None => None end
  = match local g !! k' with Some e => if n <? expires e then Some (message e) else None | None => None end.
Proof. intros Hn Hk. cbn [local]. rewrite lookup_insert_ne by done. by apply sweep_lookup. Qed.

(** A stop is for one viewer, item and address. *)
Lemma stop_scoped env0 u i ip decision raw w env u' i' a : stops_text (server w) (e_now env0) → e_now env0 ≤ e_now env →
  (u', i', canonicalIP a) ≠ (u, i, canonicalIP ip) → stopped env u' i' a (Stop env0 u i ip decision raw w).1 = stopped env u' i' a w.
Proof.
  intros Ht Hn Hne. unfold Stop. destruct (cleanStopMessage raw) as [msg|]; [|done].
  set (target := negb (uuid_Nil u) && negb (String.eqb ip "")).
  destruct (negb (String.eqb decision "transcode") && target); [|done]. unfold stopped, Blocked, Block. cbn [fst server guards].
  destruct (uuid_Nil u' || uuid_Nil i'); [done|]. unfold guard. cbn [guards].
  set (k := (u', i', canonicalIP a)) in *. set (s' := (Set_ _ _ _ _ _ _).1).
  assert (view s' (e_now env) (playbackStopRedisKey k) = view (server w) (e_now env) (playbackStopRedisKey k)) as Ev.
  { unfold s', Set_, call, silent. pose proof (c_set_law (e_now env0) (playbackStopRedisKey (u, i, canonicalIP ip)) msg playbackStopWindow (server w) ltac:(done) (e_now env) Hn (playbackStopRedisKey k)) as Hs.
    rewrite decide_False in Hs by (intros E; apply Hne; by apply playbackStopRedisKey_inj). by destruct (e_set env0). }
  pose proof (get_view _ _ _ _ _ Ht Hn Ev) as Eg. unfold Get, call.
  destruct (decide (e_inst env = e_inst env0)) as [->|Hi].
  - rewrite lookup_insert_eq. set (g := default NewPlaybackStopGuard (guards w !! e_inst env0)).
    pose proof (block_lookup (e_now env0) (e_now env) (u, i, canonicalIP ip) k msg g Hn Hne) as Hl.
    apply (f_equal (λ o : option string, match o with Some _ => true | None => false end)) in Hl.
    destruct (e_get env); cbn [snd]; [rewrite Eg; destruct (c_get (server w) (e_now env) (playbackStopRedisKey k)); [done|]|..]; exact Hl.
  - rewrite lookup_insert_ne by done. destruct (e_get env); cbn [snd]; [by rewrite Eg|done|done].
Qed.

Lemma stop_effect w env0 u i ip decision raw msg :
  cleanStopMessage raw = Some msg → decision ≠ "transcode" → e_set env0 = FOk → u ≠ Nil → ip ≠ "" → canonicalIP ip = ip →
  let '(w1, (_, wr)) := Stop env0 u i ip decision raw w in
  tracker w1 = tracker w ∧ wr = Some (WRemove u ip i)
  ∧ recorded (server w1) (e_now env0) (e_now env0 + playbackStopWindow) (u, i, ip).
Proof.
  intros Hmsg Hdec Hset Hu Hne Hcan. unfold Stop. rewrite Hmsg, (proj2 (String.eqb_neq _ _) Hdec), (proj2 (String.eqb_neq _ _) Hne).
  unfold uuid_Nil. rewrite (proj2 (N.eqb_neq _ _) Hu). cbn [negb andb]. unfold Block, Set_, call, silent. rewrite Hset, Hcan. cbn.
  split_and!; [done..|].
  intros n Hn. rewrite (c_set_law (e_now env0) _ msg playbackStopWindow (server w) ltac:(done) n) by lia.
  rewrite decide_True by done. cbn. rewrite (proj2 (Z.ltb_lt _ _)) by lia. eauto.
Qed.

(** C31: a stopped stream stays out.  Thread [n] stops a viewer's direct play of
    an item at an address (a card the tracker shows, not a transcode), and Valkey
    takes the stop.  No write that would show the stream is left over from a
    request that passed its checks before ([Sample.late_write_returns]).  Then, for two minutes, whatever
    requests of anyone interleave at any instance: every request that would show
    the stream again is refused and leaves nothing to write, and once the stop
    has dropped it the stream is not shown - provided that Valkey answers the
    reads of stops and that the player's own beacons for the stream say playing
    or stopped (any other, a paused one say, is not asked and shows it again:
    [Sample.paused_beat_returns]).  No other viewer, item or address is refused
    for the stop. *)
Theorem stopped_stays_out (c : Run T S) (n : nat) (env0 : Env) (u i : UUID) (ip decision raw msg : string)
    (sts : list statement) (now : Z) :
  wf (tracker (world c)) (e_now env0) → stops_text (server (world c)) (e_now env0) →
  (∀ m wr, owes c !! m = Some wr → write_ok wr ∧ shows wr ≠ Some (u, ip, i)) → owes c !! n = None →
  cleanStopMessage raw = Some msg → decision ≠ "transcode" → e_set env0 = FOk →
  u ≠ Nil → i ≠ Nil → ip ≠ "" → canonicalIP ip = ip → no_pipe ip →
  now < e_now env0 + playbackStopWindow →
  StronglySorted Z.le (e_now env0 :: (instant <$> sts)) → Forall (λ s, s ≤ now) (e_now env0 :: (instant <$> sts)) →
  Forall (in_window u ip i) sts →
  let c1 := stmt_step s_ClientIP (Checks n env0 (RStop u i ip decision raw)) c in
  let c2 := run_stmts s_ClientIP sts c1 in
  (owes c2 !! n = None → HasStream now u ip i (tracker (world c2)) = false)
  ∧ (∀ sts1 m env r sts2, sts = sts1 ++ Checks m env r :: sts2 → restarts u ip i r →
       ∃ o, (checked s_ClientIP env r (world (run_stmts s_ClientIP sts1 c1))).2 = (o, None) ∧ (o = errParental ∨ o = errStopped))
  ∧ ∀ env u' i' a, e_now env0 ≤ e_now env → (u', i', canonicalIP a) ≠ (u, i, ip) →
      stopped env u' i' a (world c1) = stopped env u' i' a (world c).
Proof.
  intros Hwf Htext Hset0 Hn0 Hmsg Hdec Hset Hu Hi Hne Hcan Hip Hwin Hs Hn Hrs c1 c2.
  pose proof (stop_effect (world c) env0 u i ip decision raw msg Hmsg Hdec Hset Hu Hne Hcan) as He.
  pose proof (λ env u' i' a, stop_scoped env0 u i ip decision raw (world c) env u' i' a Htext) as Hsc.
  assert (barred n u ip i (e_now env0 + playbackStopWindow) c1 (e_now env0) ∧ world c1 = (Stop env0 u i ip decision raw (world c)).1) as [HB Hw1].
  { unfold c1. cbn [stmt_step]. rewrite Hn0. cbn [checked]. destruct (Stop env0 u i ip decision raw (world c)) as [w1 [o wr]].
    destruct He as (Ht & -> & Hrec). split; [|done]. split; cbn [world owes]; [by rewrite Ht| |done|left; apply lookup_insert_eq].
    intros m x [[_ <-]|[_ Hm]]%lookup_insert_Some; [done|by eapply Hset0]. }
  split; [|split].
  3: { intros env u' i' a Henv Hk. rewrite Hw1. apply Hsc; [done|by rewrite Hcan]. }
  all: destruct (barred_run n sts c1 (e_now env0) now u ip i _ HB ltac:(lia) Hip Hu Hi Hs Hn Hrs) as [[Hw' _ _ Hg] Href].
  - intros Hdone. fold c2 in Hg, Hw'. destruct Hg as [Hg|[_ Hg]]; [congruence|].
    unfold HasStream. rewrite has_any_law by done. unfold stream_keys in *. cbn [existsb]. rewrite !Hg by (lia || set_solver). done.
  - exact Href.
Qed.
End StopProps.

(** * Concrete households *)
Module Sample.
#[local] Existing Instances StreamTracker.Sample.text.

Definition wiring (ss : list Session) : Wiring := mkWiring (Some (λ u : UUID, if N.eqb u 1 then Some 1 else None)) (Some ss) true.
Definition env_with (now : Z) (ss : list Session) : Env := mkEnv now 0 FOk FOk (wiring ss) false None true.
Definition env (now : Z) : Env := env_with now [].
Definition play (now : Z) (ip : string) (i : UUID) : Env * request :=
  (env now, RStream "GET" (Some 1%N) ip i 70%N "/m/a.mkv" "VLC/3.0").
Definition beat (now : Z) (ip : string) (i : UUID) (state : string) : Env * request :=
  (env now, RProgress 1%N ip i state "Den TV" "directPlay").
Definition empty : World Mem RefServer.t := mkWorld NewTracker ∅ ∅.

(** What each request of a run is answered. *)
Fixpoint answers (rs : list (Env * request)) (w : World Mem RefServer.t) : list outcome :=
  match rs with
  | [] => []
  | (env, r) :: rs => (handle s_media env r w).2 :: answers rs (handle s_media env r w).1
  end.

Definition den : string := "10.0.0.5:40000".
Definition attic : string := "[::ffff:10.0.0.6]:40000".
Definition kitchen : string := "10.0.0.7:40000".

(** One stream at a time: the second device is refused, until the first has
    been silent for 45 seconds. *)
Definition evening : list (Env * request) :=
  [play 0 den 7%N; beat 5000 den 7%N "playing"; play 6000 attic 8%N; play 20000 den 7%N; play 60000 attic 8%N; play 66000 attic 8%N].
Example evening_answers :
  answers evening empty = [Served; Served; errLimit; Served; errLimit; Served].
Proof. vm_compute. reflexivity. Qed.

(** The same title plays on any number of devices. *)
Example same_title_unlimited :
  let rs := [play 0 den 7%N; play 1000 attic 7%N; play 2000 kitchen 7%N] in
  answers rs empty = [Served; Served; Served] ∧ length (List 3000 (tracker (serve_all s_media rs empty))).2 = 3%nat.
Proof. split; vm_compute; reflexivity. Qed.

(** A beacon sent first makes the stream a continuation. *)
Example beacon_first :
  answers [play 0 den 7%N; play 1000 attic 8%N; beat 2000 attic 8%N "playing"; play 3000 attic 8%N] empty
  = [Served; errLimit; Served; Served].
Proof. vm_compute. reflexivity. Qed.

(** A session abandoned an hour ago counts for nothing, and hides the direct
    play of its title. *)
Definition abandoned : Session :=
  mkSession "s1" 1%N 7%N "" "" "transcode" 0 0 0 "" false false false false false [] 0 GoFloat.f64_zero 0 "" 0 "" false "" "" "10.0.0.9".
Definition play_beside (now : Z) (ip : string) (i : UUID) : Env * request :=
  (env_with now [abandoned], RStream "GET" (Some 1%N) ip i 70%N "/m/a.mkv" "VLC/3.0").
Example dead_session_covers :
  answers [play_beside 3600000 den 7%N; play_beside 3601000 attic 8%N] empty = [Served; Served]
  ∧ answers [play 3600000 den 7%N; play 3601000 attic 8%N] empty = [Served; errLimit].
Proof. split; vm_compute; reflexivity. Qed.

(** A paused beacon within the window of a stop shows the stream again. *)
Definition stop (now : Z) : Env * request := (env now, RStop 1%N 7%N "10.0.0.5" "directPlay" "Bedtime").
Example paused_beat_returns :
  let rs := [play 0 den 7%N; stop 10000; play 11000 den 7%N; beat 12000 den 7%N "playing"] in
  answers rs empty = [Served; Served; errStopped; errStopped]
  ∧ HasStream 12000 1%N "10.0.0.5" 7%N (tracker (serve_all s_media rs empty)) = false
  ∧ HasStream 13000 1%N "10.0.0.5" 7%N (tracker (serve_all s_media (rs ++ [beat 13000 den 7%N "paused"]) empty)) = true.
Proof. split_and!; vm_compute; reflexivity. Qed.

(** The statements of requests that do not overlap. *)
Definition statements (rs : list (Env * request)) : list statement :=
  rs ≫= λ p, [Checks 0 p.1 p.2; Writes 0 (e_now p.1)].
Definition run (sts : list statement) : Run Mem RefServer.t := run_stmts s_media sts (mkRun empty ∅).

(** Two devices that ask at the same time under a limit of one: both checks pass
    before either is written. *)
Definition at_once : list statement :=
  [Checks 0 (env 0) (play 0 den 7%N).2; Checks 1 (env 0) (play 0 attic 8%N).2; Writes 0 1; Writes 1 1].
Example two_at_once :
  (checked s_media (env 0) (play 0 attic 8%N).2 (world (run (take 1 at_once)))).2.1 = Served
  ∧ length (List 1000 (tracker (world (run at_once)))).2 = 2%nat.
Proof. split; vm_compute; reflexivity. Qed.

(** The evening again: the player asks for two ranges at once, another account
    plays in between, and the attic asks while the den's second request is at work. *)
Definition mate (now : Z) : Env * request :=
  (env now, RStream "GET" (Some 2%N) kitchen 9%N 71%N "/m/b.mkv" "VLC/3.0").
Definition busy_evening : list statement :=
  [Checks 0 (env 0) (play 0 den 7%N).2; Checks 1 (env 10) (play 10 den 7%N).2; Checks 2 (env 20) (mate 20).2;
   Writes 1 30; Writes 2 40; Writes 0 50; Checks 0 (env 5000) (play 5000 den 7%N).2;
   Checks 3 (env 5000) (play 5000 attic 8%N).2; Writes 0 5100; Checks 3 (env 6000) (beat 6000 den 7%N "playing").2; Writes 3 6001].
Example busy_answers :
  (checked s_media (env 5000) (play 5000 attic 8%N).2 (world (run (take 7 busy_evening)))).2.1 = errLimit
  ∧ (MediaItemID <$> (List 7000 (tracker (world (run busy_evening)))).2) = [9%N; 7%N; 7%N].
Proof. split; vm_compute; reflexivity. Qed.

Lemma busy_in_force : Forall (in_force 1%N ∅ 1) busy_evening.
Proof.
  assert (∀ n, enforced 1%N ∅ 1 (e_limit (env n))) as He.
  { intros n. split; [done|split; [by eexists|set_solver]]. }
  unfold busy_evening. repeat (apply Forall_cons_2; [first [exact I|split; [apply He|by vm_compute]]|]). apply Forall_nil_2.
Qed.

(** [orderly] by computation. *)
Definition touch_of (u : UUID) (wr : write) : option (string * UUID) :=
  match is_beat wr, shows wr with
  | false, Some (u', ip, i) => if N.eqb u' u then Some (ip, i) else None
  | _, _ => None
  end.
Definition one_streamb (u : UUID) (c : Run Mem RefServer.t) : bool :=
  match omap (touch_of u ∘ snd) (map_to_list (owes c)) with [] => true | p :: l => forallb (λ q, bool_decide (q = p)) l end.
Definition beat_followsb (u : UUID) (st : statement) (c : Run Mem RefServer.t) : bool :=
  match st with
  | Writes n now =>
      match owes c !! n with
      | Some (WBeat u' ip i _ _) => negb (N.eqb u' u) || HasStream now u ip i (tracker (world c))
      | _ => true
      end
  | Checks _ _ _ => true
  end.
Fixpoint orderlyb (u : UUID) (sts : list statement) (c : Run Mem RefServer.t) : bool :=
  match sts with
  | [] => true
  | st :: sts => beat_followsb u st c && one_streamb u (stmt_step s_media st c) && orderlyb u sts (stmt_step s_media st c)
  end.

Lemma one_streamb_spec u c : one_streamb u c = true → one_stream u c.
Proof.
  unfold one_streamb. intros Hb n n' wr wr' ip i ip' i' Hn Hn' Hw Hw' Hs Hs'.
  assert (∀ m x a j, owes c !! m = Some x → is_beat x = false → shows x = Some (u, a, j) →
    (a, j) ∈ omap (touch_of u ∘ snd) (map_to_list (owes c))) as Hin.
  { intros m x a j Hm Hx Hsx. apply list_elem_of_omap. exists (m, x). split; [by apply elem_of_map_to_list|].
    unfold touch_of, compose. cbn [snd]. by rewrite Hx, Hsx, N.eqb_refl. }
  pose proof (Hin _ _ _ _ Hn Hw Hs) as I1. pose proof (Hin _ _ _ _ Hn' Hw' Hs') as I2.
  destruct (omap _ _) as [|p l]; [by apply elem_of_nil in I1|].
  assert (∀ q, q ∈ p :: l → q = p) as Hq.
  { intros q [->|Hl]%elem_of_cons; [done|]. rewrite forallb_forall in Hb. apply list_elem_of_In in Hl. by apply Hb, bool_decide_eq_true in Hl. }
  apply Hq in I1, I2. split; congruence.
Qed.

Lemma orderlyb_spec u sts : ∀ c, orderlyb u sts c = true → orderly s_media u sts c.
Proof.
  induction sts as [|st sts IH]; intros c Hb; [done|]. cbn [orderlyb] in Hb. apply andb_true_iff in Hb as [[Hb Ho]%andb_true_iff Hr].
  split; [|split; [by apply one_streamb_spec|by apply IH]]. destruct st as [|n now]; [done|]. cbn [beat_followsb beat_follows] in *.
  intros ip i name d E. rewrite E, N.eqb_refl in Hb. done.
Qed.

Lemma busy_orderly : orderly s_media 1%N busy_evening (mkRun empty ∅).
Proof. apply orderlyb_spec. vm_compute. reflexivity. Qed.

Ltac sorted := cbn; repeat (apply SSorted_cons || apply SSorted_nil || apply Forall_cons_2 || apply Forall_nil_2 || lia).

Lemma stream_limit_holds_witness :
  length (List 7000 (tracker (world (run busy_evening)))).2 = 3%nat
  ∧ ∀ es, (∀ e, e ∈ es → e ∈ (List 7000 (tracker (world (run busy_evening)))).2 ∧ UserID e = 1%N ∧ MediaItemID e ≠ Nil ∧ MediaItemID e ∉ (∅ : gset N)) →
    NoDup (ClientIP <$> es) → NoDup (MediaItemID <$> es) → len es ≤ 1.
Proof.
  split; [vm_compute; reflexivity|]. intros es.
  apply (stream_limit_holds s_media empty busy_evening 0 7000 1%N ∅ 1); [done|lia|done|sorted|sorted|apply busy_in_force|apply busy_orderly].
Defined.

(** A stop, with a player that goes on asking before and after it is carried out. *)
Definition watching : Run Mem RefServer.t := run (statements [play 0 den 7%N]).
Definition bedtime : list statement :=
  [Checks 1 (env 10500) (play 10500 den 7%N).2; Writes 0 10600; Checks 1 (env 12000) (beat 12000 den 7%N "playing").2;
   Checks 2 (env 13000) (play 13000 attic 7%N).2; Writes 2 13500; Checks 3 (env 14000) (beat 14000 den 7%N "stopped").2; Writes 3 14001].
Lemma stopped_stays_out_witness :
  let c1 := stmt_step s_media (Checks 0 (env 10000) (stop 10000).2) watching in
  HasStream 10000 1%N "10.0.0.5" 7%N (tracker (world c1)) = true
  ∧ HasStream 15000 1%N "10.0.0.5" 7%N (tracker (world (run_stmts s_media bedtime c1))) = false
  ∧ ∃ o, (checked s_media (env 10500) (play 10500 den 7%N).2 (world c1)).2 = (o, None) ∧ (o = errParental ∨ o = errStopped).
Proof.
  intros c1. split; [vm_compute; reflexivity|].
  destruct (stopped_stays_out s_media watching 0 (env 10000) 1%N 7%N "10.0.0.5" "directPlay" "Bedtime" "Bedtime" bedtime 15000)
    as (H1 & H2 & _).
  - exact I.
  - assert (server (world watching) = ∅) as -> by (vm_compute; reflexivity). intros n k e _ Hv. discriminate Hv.
  - assert (owes watching = ∅) as -> by (vm_compute; reflexivity). intros m wr Hm. discriminate Hm.
  - vm_compute. reflexivity.
  - vm_compute. reflexivity.
  - intros E. discriminate E.
  - reflexivity.
  - intros E. discriminate E.
  - intros E. discriminate E.
  - intros E. discriminate E.
  - vm_compute. reflexivity.
  - reflexivity.
  - reflexivity.
  - sorted.
  - sorted.
  - unfold bedtime. repeat (apply Forall_cons_2; [first [exact I|split; [done|split; [by vm_compute|cbn; auto]]]|]). apply Forall_nil_2.
  - split; [apply H1; vm_compute; reflexivity|].
    apply (H2 [] 1%nat (env 10500) (play 10500 den 7%N).2 (drop 1 bedtime)); [reflexivity|]. by split_and!.
Defined.

(** A media request past its check when the stop comes shows the stream again. *)
Example late_write_returns :
  let c := run (statements [play 0 den 7%N] ++
    [Checks 1 (env 9999) (play 9999 den 7%N).2; Checks 0 (env 10000) (stop 10000).2; Writes 0 10001; Writes 1 10002]) in
  HasStream 10003 1%N "10.0.0.5" 7%N (tracker (world c)) = true.
Proof. vm_compute. reflexivity. Qed.
End Sample.
