(* ===== verification/LibraryWalk.v ===== *)
(** What files a library has: the walk of the scanner ([internal/scanner]), on
    a local disk and on a listing of keys.  Proved: which files it selects, and
    that both ways of walking select the same. *)
From S2P Require Import Prelude.
From S2P Require Import GoStrings.
From S2P Require Import GoBytes.
From S2P Require Import GoPath.

Local Open Scope Z_scope.

(** * Names *)
Definition validExtensions : list string :=
  [".mkv"; ".mp4"; ".m4v"; ".avi"; ".mov"; ".wmv"; ".ts"; ".m2ts";
   ".mp3"; ".m4a"; ".m4b"; ".aac"; ".ogg"; ".opus";
   ".flac"; ".wav"; ".aif"; ".aiff"; ".alac"; ".wv"; ".ape"; ".tak"; ".dsf"; ".dff"].
Definition imageExtensions : list string :=
  [".jpg"; ".jpeg"; ".png"; ".gif"; ".webp"; ".bmp"; ".tiff"; ".tif"; ".heic"; ".avif";
   ".cr2"; ".cr3"; ".nef"; ".arw"; ".dng"; ".raf"; ".orf"; ".rw2"; ".pef"].
Definition bookExtensions : list string := [".cbz"; ".cbr"; ".epub"].

Definition lower_ext (path : string) : string := ToLower (Ext path).
Definition isMediaFile (path : string) : bool :=
  mem (lower_ext path) validExtensions || mem (lower_ext path) imageExtensions || mem (lower_ext path) bookExtensions.
Definition isImageFile (path : string) : bool := mem (lower_ext path) imageExtensions.
(** [rawpreview.IsRAW] *)
Definition IsRAW (path : string) : bool :=
  mem (lower_ext path) [".cr2"; ".cr3"; ".nef"; ".arw"; ".dng"; ".raf"; ".orf"; ".rw2"; ".pef"].

(** Directories never descended into: artwork, trash, thumbnails. *)
Definition shouldSkipDir (name : string) : bool :=
  mem name [".artwork"; ".dvr-originals"; ".recycle"; "#recycle"; ".recycle.bin"; "$RECYCLE.BIN"; "lost+found";
            ".stversions"; "@eaDir"; ".AppleDouble"]
  || HasPrefix name ".Trash".

Definition TrimPrefix (s pre : string) : string := default s (CutPrefix s pre).
Definition TrimRightSlashes (s : string) : string := srev (trim_slashes_rev (srev s)).
Definition pathHasSkippedDir (key root : string) : bool :=
  let rel := TrimPrefix key (TrimRightSlashes root +:+ sl) in
  let segs := Split rel slash in
  existsb (λ seg, negb (String.eqb seg "") && shouldSkipDir seg) (take (length segs - 1) segs).

Definition isAllowedPath (path : string) (roots : list string) : bool :=
  existsb (λ root, HasPrefix (Clean path) (Clean root +:+ sl) || String.eqb (Clean path) (Clean root)) roots.

(** * The walk *)
(** A directory is what reading it gives, in the order of the names: on an
    error, the entries read before it. *)
Inductive Node := Leaf | Folder (entries : list (string * Node)).

(** [filepath.WalkDir] with the callback's pruning: the files it is called on. *)
Fixpoint walk_dir (path name : string) (n : Node) : list string :=
  match n with
  | Leaf => [path]
  | Folder es =>
      if shouldSkipDir name then []
      else flat_map (λ e, walk_dir (JoinPath path e.1) e.1 e.2) es
  end.

(** The media store: a local disk; one that lists keys under a prefix, or fails
    to; one that cannot list. *)
Inductive Store :=
| LocalDisk (lookup : string → option Node)
| Listing (list : string → option (list string))
| NoListing.

(** The filters shared by both ways. *)
Definition collect (libraryType : string) (roots : list string) (path : string) : bool :=
  isMediaFile path && negb (isImageFile path && negb (String.eqb libraryType "photo")) && isAllowedPath path roots.

(** One root: a missing or unreadable local root has no files, and is no error. *)
Definition walk_root (st : Store) (root : string) : option (list string) :=
  match st with
  | LocalDisk lookup => Some (match lookup root with Some n => walk_dir root (Base root) n | None => [] end)
  | Listing ls => List.filter (λ k, negb (pathHasSkippedDir k root)) <$> ls root
  | NoListing => None
  end.
Fixpoint walkLibraryFiles (st : Store) (walkPaths roots : list string) (libraryType : string) : option (list string) :=
  match walkPaths with
  | [] => Some []
  | root :: rest =>
      match walk_root st root with
      | None => None
      | Some files =>
          match walkLibraryFiles st rest roots libraryType with
          | None => None
          | Some more => Some (List.filter (collect libraryType roots) files ++ more)
          end
      end
  end.

(** * Trees and their paths *)
Section Node_ind.
Variable P : Node → Prop.
Hypothesis HL : P Leaf.
Hypothesis HF : ∀ es, Forall (λ e, P e.2) es → P (Folder es).
Fixpoint Node_induction (n : Node) : P n :=
  match n with
  | Leaf => HL
  | Folder es => HF es ((fix go (l : list (string * Node)) : Forall (λ e, P e.2) l :=
      match l with [] => Forall_nil_2 _ | e :: l => Forall_cons_2 _ e l (Node_induction e.2) (go l) end) es)
  end.
End Node_ind.

(** The files of a tree, as lists of names below its top. *)
Fixpoint leaves (n : Node) : list (list string) :=
  match n with
  | Leaf => [[]]
  | Folder es => flat_map (λ e, map (cons e.1) (leaves e.2)) es
  end.
(** Every name in it is one path element. *)
Fixpoint named (n : Node) : Prop :=
  match n with
  | Leaf => True
  | Folder es => (fix go l := match l with [] => True | e :: l => plain e.1 ∧ named e.2 ∧ go l end) es
  end.
Lemma named_Folder es : named (Folder es) ↔ Forall (λ e, plain e.1 ∧ named e.2) es.
Proof.
  simpl. induction es as [|e es IH]; [by split|]. rewrite Forall_cons, <-IH. tauto.
Qed.

(** The directories of a file: all names but the last. *)
Definition dirs (r : list string) : list string := take (length r - 1) r.
Definition clear (r : list string) : bool := negb (existsb shouldSkipDir (dirs r)).

Lemma dirs_cons a b r : dirs (a :: b :: r) = a :: dirs (b :: r).
Proof. unfold dirs. simpl. by rewrite Nat.sub_0_r. Qed.
Lemma leaves_plain n r : named n → r ∈ leaves n → Forall plain r.
Proof.
  intros Hn. revert r. induction n as [|es IH] using Node_induction; intros r Hr.
  { apply list_elem_of_singleton in Hr as ->. constructor. }
  apply named_Folder in Hn. simpl in Hr. apply list_elem_of_In, in_flat_map in Hr as (e & He & Hr).
  apply list_elem_of_In in He. apply in_map_iff in Hr as (r' & <- & Hr'). apply list_elem_of_In in Hr'.
  rewrite Forall_forall in IH, Hn. destruct (Hn e He) as [Hp Hn']. constructor; [done|]. by apply (IH e He).
Qed.

(** What the walk of a subtree calls back on. *)
Lemma walk_dir_leaves n : ∀ ds name, named n → Forall plain ds → ∀ p,
  p ∈ walk_dir (abs ds) name n ↔
    ∃ r, r ∈ leaves n ∧ p = abs (ds ++ r)
      ∧ (r = [] ∨ shouldSkipDir name = false ∧ clear r = true).
Proof.
  induction n as [|es IH] using Node_induction; intros ds name Hn Hd p.
  { simpl. rewrite list_elem_of_singleton. split.
    - intros ->. exists []. rewrite app_nil_r. split; [by apply list_elem_of_singleton|]. auto.
    - intros (r & Hr & -> & _). apply list_elem_of_singleton in Hr as ->. by rewrite app_nil_r. }
  apply named_Folder in Hn. rewrite Forall_forall in IH, Hn. cbn [walk_dir leaves].
  destruct (shouldSkipDir name) eqn:Hs.
  { split; [by intros ?%elem_of_nil|]. intros (r & Hr & -> & [->|[]]); [|done].
    apply list_elem_of_In, in_flat_map in Hr as (e & _ & Hr). by apply in_map_iff in Hr as (? & ? & _). }
  rewrite list_elem_of_In, in_flat_map. split.
  - intros (e & He & Hp). apply list_elem_of_In in He, Hp. destruct (Hn e He) as [Hpl Hne].
    rewrite JoinPath_abs in Hp by done.
    apply (IH e He _ _ Hne) in Hp as (r & Hr & -> & Hc); [|by apply Forall_app; split; [|constructor]].
    exists (e.1 :: r). rewrite <-app_assoc. split.
    { apply list_elem_of_In, in_flat_map. exists e. split; [by apply list_elem_of_In|]. apply in_map_iff. exists r.
      split; [done|]. by apply list_elem_of_In. }
    split; [done|]. right. split; [done|]. destruct r as [|b r]; [done|]. destruct Hc as [|[Hc1 Hc2]]; [done|].
    unfold clear in *. rewrite dirs_cons. simpl. by rewrite Hc1.
  - intros (r & Hr & -> & Hc). apply list_elem_of_In, in_flat_map in Hr as (e & He & Hr).
    apply in_map_iff in Hr as (r' & <- & Hr'). apply list_elem_of_In in He, Hr'. destruct (Hn e He) as [Hpl Hne].
    exists e. split; [by apply list_elem_of_In|]. apply list_elem_of_In. rewrite JoinPath_abs by done.
    apply (IH e He _ _ Hne); [by apply Forall_app; split; [|constructor]|].
    exists r'. split; [done|]. split; [by rewrite <-app_assoc|].
    destruct r' as [|b r']; [by left|]. right. destruct Hc as [|[_ Hc]]; [done|].
    unfold clear in Hc. rewrite dirs_cons in Hc. simpl in Hc. apply negb_true_iff, orb_false_iff in Hc as [Hc1 Hc2].
    split; [done|]. unfold clear. by rewrite Hc2.
Qed.

(** * Paths below a root *)
Lemma last_no_slashes s : s ≠ "" → (∀ a, s ≠ a +:+ sl) → TrimRightSlashes s = s.
Proof.
  intros Hn Hs. unfold TrimRightSlashes. assert (trim_slashes_rev (srev s) = srev s) as ->; [|apply srev_srev].
  destruct (srev s) as [|c r] eqn:E; [done|]. simpl. destruct (Ascii.eqb_spec c slash) as [->|]; [|done].
  exfalso. apply (Hs (srev r)). rewrite <-(srev_srev s), E. change (String slash r) with (sl +:+ r). by rewrite srev_app.
Qed.
Lemma abs_no_trailing ds : ds ≠ [] → Forall plain ds → TrimRightSlashes (abs ds) = abs ds.
Proof.
  intros Hn Hd. apply last_no_slashes; [by destruct ds|]. intros a E.
  destruct (exists_last Hn) as (ds' & b & ->). apply Forall_app in Hd as [Hd Hb]. apply Forall_cons in Hb as [Hb _].
  assert (Split (abs (ds' ++ [b])) slash = "" :: ds' ++ [b]) as Es.
  { apply Split_abs, Forall_app. split; [by apply plain_no_slash|]. constructor; [apply Hb|done]. }
  rewrite E in Es. destruct (Split_snoc slash a "" eq_refl) as (l & _ & El).
  change (a +:+ String slash "") with (a +:+ sl) in El. rewrite El in Es.
  change ("" :: ds' ++ [b]) with (("" :: ds') ++ [b]) in Es. apply app_inj_tail in Es as [_ <-]. by destruct Hb as (_ & ? & _).
Qed.

(** What follows a root. *)
Lemma abs_split ds r : r ≠ [] → abs (ds ++ r) = (abs ds +:+ sl) +:+ Join r sl.
Proof. intros Hr. rewrite abs_app, sapp_assoc. f_equal. rewrite Join_abs. by destruct r. Qed.
Lemma Split_Join r : r ≠ [] → Forall plain r → Split (Join r sl) slash = r.
Proof.
  intros Hn Hr. pose proof (Split_abs r (plain_no_slash _ Hr)) as E.
  assert (abs r = String slash (Join r sl)) as Ea.
  { change (String slash (Join r sl)) with (sl +:+ Join r sl). rewrite Join_abs. by destruct r. }
  rewrite Ea, split_sep in E. by injection E.
Qed.
Lemma skipped_below ds r : ds ≠ [] → Forall plain ds → r ≠ [] → Forall plain r →
  pathHasSkippedDir (abs (ds ++ r)) (abs ds) = negb (clear r).
Proof.
  intros Hn Hd Hr Hp. unfold pathHasSkippedDir, TrimPrefix. rewrite abs_no_trailing, abs_split, CutPrefix_app by done.
  cbn [from_option id]. rewrite Split_Join by done. unfold clear. rewrite negb_involutive. unfold dirs.
  assert (Forall plain (take (length r - 1) r)) as Hq by (by apply Forall_take). clear -Hq.
  induction Hq as [|e l (_ & He & _) _ IH]; [done|]. simpl. rewrite IH, (proj2 (String.eqb_neq _ _) He). done.
Qed.

(** Being under a root, as text and as elements. *)
Lemma prefix_elements ds es rest : Forall plain ds → Forall plain es → abs es = (abs ds +:+ sl) +:+ rest →
  ∃ r, es = ds ++ r.
Proof.
  revert es. induction ds as [|d ds IH]; intros es Hd He E; [by exists es|].
  apply Forall_cons in Hd as [Hd1 Hd]. destruct es as [|e es]; [done|]. apply Forall_cons in He as [He1 He].
  assert (Split (abs (e :: es)) slash = "" :: e :: es) as E1 by (apply Split_abs, plain_no_slash; by constructor).
  assert (e +:+ abs es = d +:+ abs ds +:+ sl +:+ rest) as E0.
  { cbn [abs] in E. rewrite !sapp_assoc in E.
    change (String slash (e +:+ abs es) = String slash (d +:+ abs ds +:+ sl +:+ rest)) in E. by injection E. }
  assert (Split (abs (e :: es)) slash = "" :: d :: drop 1 (Split (abs ds +:+ sl +:+ rest) slash)) as E2.
  { cbn [abs]. change (sl +:+ e +:+ abs es) with (String slash (e +:+ abs es)). rewrite E0, split_sep. f_equal.
    destruct ds as [|d' ds'].
    - change (abs [] +:+ sl +:+ rest) with (String slash rest). rewrite Split_app, split_sep by apply Hd1. done.
    - cbn [abs]. rewrite !sapp_assoc.
      change (sl +:+ d' +:+ abs ds' +:+ sl +:+ rest) with (String slash (d' +:+ abs ds' +:+ sl +:+ rest)).
      rewrite Split_app, split_sep by apply Hd1. done. }
  rewrite E1 in E2. injection E2 as -> _.
  destruct (IH es) as [r ->]; [done..| |by exists r].
  pose proof (f_equal (λ s, CutPrefix s d) E0) as Ec. cbv beta in Ec. rewrite !CutPrefix_app in Ec.
  injection Ec as ->. by rewrite sapp_assoc.
Qed.

Lemma HasPrefix_true s pre : HasPrefix s pre = true ↔ ∃ t, s = pre +:+ t.
Proof.
  unfold HasPrefix. split.
  - destruct (CutPrefix s pre) as [t|] eqn:E; [|done]. intros _. exists t. by apply CutPrefix_eq.
  - intros [t ->]. by rewrite CutPrefix_app.
Qed.

(** A root as the operator sets it: absolute, clean, not itself a directory
    that is never scanned. *)
Definition good_root (ds : list string) : Prop :=
  ds ≠ [] ∧ Forall plain ds ∧ shouldSkipDir (Base (abs ds)) = false.

Lemma isAllowedPath_abs es rs : es ≠ [] → Forall plain es → Forall good_root rs →
  isAllowedPath (abs es) (map abs rs) = true ↔ ∃ ds r, ds ∈ rs ∧ es = ds ++ r.
Proof.
  intros Hn He Hr. unfold isAllowedPath. rewrite existsb_exists_elem. rewrite Clean_abs by done. rewrite Forall_forall in Hr. split.
  - intros (x & Hx & H). apply list_elem_of_fmap in Hx as (ds & -> & Hd). destruct (Hr ds Hd) as (Hdn & Hdp & _).
    rewrite Clean_abs in H by done. apply orb_true_iff in H as [H|H].
    + apply HasPrefix_true in H as [t H]. apply prefix_elements in H as [r ->]; [|done..]. by exists ds, r.
    + apply String.eqb_eq in H. apply abs_inj in H as ->; [|by apply plain_no_slash..]. exists ds, []. by rewrite app_nil_r.
  - intros (ds & r & Hd & ->). destruct (Hr ds Hd) as (Hdn & Hdp & _). exists (abs ds).
    split; [apply list_elem_of_fmap; by exists ds|]. rewrite Clean_abs by done.
    destruct r as [|b r]; [rewrite app_nil_r, String.eqb_refl; by rewrite orb_true_r|].
    apply orb_true_iff. left. apply HasPrefix_true. exists (Join (b :: r) sl). by apply abs_split.
Qed.

(** The names in a path without a skipped one. *)
Lemma whole_clear es ds r : es = ds ++ r → r ≠ [] → Forall plain es → CutPrefix (abs es) (abs ds +:+ sl) = None → False.
Proof. intros -> Hr _ H. by rewrite abs_split, CutPrefix_app in H. Qed.
Lemma clear_suffix s r : r ≠ [] → clear (s ++ r) = true → clear r = true.
Proof.
  intros Hr. unfold clear, dirs. rewrite length_app.
  assert (take (length s + length r - 1) (s ++ r) = s ++ take (length r - 1) r) as ->.
  { destruct r as [|b r]; [done|]. simpl. rewrite Nat.sub_0_r. replace (length s + S (length r) - 1)%nat with (length s + length r)%nat by lia.
    rewrite take_app. rewrite take_ge by lia. by replace (length s + length r - length s)%nat with (length r) by lia. }
  rewrite existsb_app, negb_orb. by intros [_ ?]%andb_true_iff.
Qed.
(** A key outside the root it was listed under is judged on all its names. *)
Lemma skipped_outside es ds : es ≠ [] → Forall plain es → ds ≠ [] → Forall plain ds →
  CutPrefix (abs es) (abs ds +:+ sl) = None → pathHasSkippedDir (abs es) (abs ds) = negb (clear es).
Proof.
  intros Hn He Hdn Hd Hc. unfold pathHasSkippedDir, TrimPrefix. rewrite abs_no_trailing, Hc by done. cbn [from_option].
  rewrite Split_abs by (by apply plain_no_slash). unfold clear. rewrite negb_involutive. unfold dirs.
  destruct es as [|e es]; [done|]. cbn [length]. replace (S (S (length es)) - 1)%nat with (S (S (length es) - 1)) by lia.
  cbn [take existsb]. simpl (negb _ && _). cbn [orb].
  assert (Forall plain (take (S (length es) - 1) (e :: es))) as Hq by (by apply Forall_take). clear -Hq.
  induction Hq as [|x l (_ & Hx & _) _ IH]; [done|]. simpl. rewrite IH, (proj2 (String.eqb_neq _ _) Hx). done.
Qed.

(** * What is selected *)
Section Agree.
Variables (rs : list (list string)) (stored : list (list string)) (libraryType : string).
Variables (lookup : string → option Node) (ls : string → option (list string)).
Hypothesis Hroots : Forall good_root rs.
Hypothesis Hstored : ∀ es, es ∈ stored → es ≠ [] ∧ Forall plain es.
(** The disk has these files: under each root, a tree of them. *)
Hypothesis Hdisk : ∀ ds, ds ∈ rs → ∃ es, lookup (abs ds) = Some (Folder es) ∧ named (Folder es)
  ∧ ∀ r, r ∈ leaves (Folder es) ↔ ds ++ r ∈ stored.
(** So has the object store, which lists by the text of a prefix. *)
Hypothesis Hlist : ∀ ds, ds ∈ rs → ∃ keys, ls (abs ds) = Some keys
  ∧ ∀ k, k ∈ keys ↔ ∃ es, es ∈ stored ∧ k = abs es ∧ HasPrefix (abs es) (abs ds) = true.

(** A file of the library: stored below a root with no skipped directory in
    between, of a media type, an image in a photo library only. *)
Definition selected (p : string) : Prop :=
  isMediaFile p = true ∧ (isImageFile p = true → libraryType = "photo")
  ∧ ∃ ds r, ds ∈ rs ∧ ds ++ r ∈ stored ∧ p = abs (ds ++ r) ∧ clear r = true.

Lemma collect_iff roots p : collect libraryType roots p = true ↔
  isMediaFile p = true ∧ (isImageFile p = true → libraryType = "photo") ∧ isAllowedPath p roots = true.
Proof.
  unfold collect. rewrite !andb_true_iff, negb_true_iff, andb_false_iff, negb_false_iff, String.eqb_eq.
  destruct (isImageFile p); naive_solver.
Qed.

Lemma leaf_below ds r : ds ∈ rs → ds ++ r ∈ stored → r ≠ [].
Proof.
  intros Hd Hs ->. destruct (Hdisk ds Hd) as (es & _ & _ & Hl). apply Hl in Hs. simpl in Hs.
  apply list_elem_of_In, in_flat_map in Hs as (e & _ & Hs). by apply in_map_iff in Hs as (? & ? & _).
Qed.

Lemma walk_all st walkPaths roots : (∀ x, x ∈ walkPaths → is_Some (walk_root st x)) →
  ∃ l, walkLibraryFiles st walkPaths roots libraryType = Some l
    ∧ ∀ p, p ∈ l ↔ ∃ x fs, x ∈ walkPaths ∧ walk_root st x = Some fs ∧ p ∈ fs ∧ collect libraryType roots p = true.
Proof.
  induction walkPaths as [|x xs IH]; intros H; simpl.
  - exists []. split; [done|]. intros p. split; [by intros ?%elem_of_nil|]. by intros (? & ? & ?%elem_of_nil & _).
  - destruct (H x) as [fs Ex]; [by left|]. rewrite Ex. destruct IH as (l & -> & IH); [intros; apply H; by right|].
    eexists. split; [done|]. intros p. rewrite elem_of_app, elem_of_List_filter, IH. split.
    + intros [[]|(y & g & ? & ? & ? & ?)]; [exists x, fs|exists y, g]; repeat split; try done; [by left|by right].
    + intros (y & g & [->|Hy]%elem_of_cons & Ey & Hp & Hc).
      * left. rewrite Ey in Ex. by injection Ex as ->.
      * right. by exists y, g.
Qed.

Lemma local_selected ds : ds ∈ rs → ∃ fs, walk_root (LocalDisk lookup) (abs ds) = Some fs
  ∧ ∀ p, p ∈ fs ↔ ∃ r, ds ++ r ∈ stored ∧ p = abs (ds ++ r) ∧ clear r = true.
Proof.
  intros Hd. destruct (Hdisk ds Hd) as (es & E & Hn & Hl). simpl. rewrite E. eexists. split; [done|]. intros p.
  rewrite Forall_forall in Hroots. destruct (Hroots ds Hd) as (_ & Hp & Hs). rewrite walk_dir_leaves by done. split.
  - intros (r & Hr & -> & [->|[_ Hc]]); [|exists r; by rewrite <-Hl].
    apply Hl in Hr. by destruct (leaf_below ds [] Hd Hr).
  - intros (r & Hr & -> & Hc). exists r. rewrite Hl. auto.
Qed.

(** Where a key listed and kept under one root belongs. *)
Lemma listed_selected ds p : ds ∈ rs → (∃ es, es ∈ stored ∧ p = abs es ∧ HasPrefix (abs es) (abs ds) = true) →
  pathHasSkippedDir p (abs ds) = false → isAllowedPath p (map abs rs) = true →
  ∃ ds r, ds ∈ rs ∧ ds ++ r ∈ stored ∧ p = abs (ds ++ r) ∧ clear r = true.
Proof.
  intros Hd (es & Hs & -> & Hpre) Hsk Ha. destruct (Hstored es Hs) as [Hn Hp].
  pose proof Hroots as Hr. rewrite Forall_forall in Hr. destruct (Hr ds Hd) as (Hdn & Hdp & _).
  destruct (CutPrefix (abs es) (abs ds +:+ sl)) as [t|] eqn:Ec.
  - apply CutPrefix_eq, prefix_elements in Ec as [r ->]; [|done..]. exists ds, r. split_and!; try done.
    assert (r ≠ []) as Hr0 by (by apply (leaf_below ds)). apply Forall_app in Hp as [_ Hp].
    rewrite skipped_below in Hsk by done. by apply negb_false_iff in Hsk.
  - rewrite skipped_outside in Hsk by done. apply negb_false_iff in Hsk.
    apply isAllowedPath_abs in Ha as (ds' & r & Hd' & ->); [|done..]. exists ds', r. split_and!; try done.
    eapply clear_suffix; [|exact Hsk]. by apply (leaf_below ds').
Qed.

(** The two ways of walking a library agree: on the same files, under roots
    that are not themselves skipped directories, the walk of the local disk and
    the filtered listing of an object store both find exactly the files of a
    media type below a root with no trash or artwork directory in between,
    images in photo libraries only. *)
Lemma walk_modes_agree :
  ∃ l k, walkLibraryFiles (LocalDisk lookup) (map abs rs) (map abs rs) libraryType = Some l
    ∧ walkLibraryFiles (Listing ls) (map abs rs) (map abs rs) libraryType = Some k
    ∧ ∀ p, (p ∈ l ↔ selected p) ∧ (p ∈ k ↔ selected p).
Proof.
  destruct (walk_all (LocalDisk lookup) (map abs rs) (map abs rs)) as (l & El & Hl); [done|].
  destruct (walk_all (Listing ls) (map abs rs) (map abs rs)) as (k & Ek & Hk).
  { intros x (ds & -> & Hd)%list_elem_of_fmap. destruct (Hlist ds Hd) as (keys & E & _). simpl. rewrite E. by eexists. }
  exists l, k. split_and!; [done..|]. intros p. rewrite Hl, Hk. clear Hl Hk. unfold selected. setoid_rewrite collect_iff.
  assert (∀ ds r, ds ∈ rs → ds ++ r ∈ stored → isAllowedPath (abs (ds ++ r)) (map abs rs) = true) as Hall.
  { intros ds r Hd Hs. destruct (Hstored _ Hs). apply isAllowedPath_abs; [done..|]. by exists ds, r. }
  split; (split; [intros (x & fs & (ds & -> & Hd)%list_elem_of_fmap & E & Hp & Hm & Hi & Ha)
                 |intros (Hm & Hi & ds & r & Hd & Hs & -> & Hc)]).
  - split_and!; [done..|]. destruct (local_selected ds Hd) as (fs' & E' & Hfs). rewrite E in E'. injection E' as <-.
    apply Hfs in Hp as (r & ? & -> & ?). by exists ds, r.
  - destruct (local_selected ds Hd) as (fs & E & Hfs). exists (abs ds), fs. split_and!; try done; [|apply Hfs; by exists r|by apply Hall].
    apply list_elem_of_fmap. by exists ds.
  - split_and!; [done..|]. destruct (Hlist ds Hd) as (keys & E' & Hkeys). simpl in E. rewrite E' in E. injection E as <-.
    apply elem_of_List_filter in Hp as [Hp Hsk]. apply negb_true_iff in Hsk. apply Hkeys in Hp. by eapply listed_selected.
  - destruct (Hlist ds Hd) as (keys & E & Hkeys). exists (abs ds). simpl. rewrite E. eexists.
    split; [apply list_elem_of_fmap; by exists ds|]. split; [done|]. split; [|by auto].
    pose proof (leaf_below _ _ Hd Hs) as Hr. destruct (Hstored _ Hs) as [_ Hpl].
    pose proof Hroots as Hro. rewrite Forall_forall in Hro. destruct (Hro ds Hd) as (Hdn & Hdp & _).
    apply elem_of_List_filter. split.
    + apply Hkeys. exists (ds ++ r). split_and!; [done..|]. apply HasPrefix_true. exists (abs r). by rewrite abs_app.
    + apply Forall_app in Hpl as [_ Hpl]. rewrite skipped_below by done. by rewrite Hc.
Qed.
End Agree.

Module Sample.
Definition root : list string := ["m"; "Movies"].
Definition disk : Node :=
  Folder [(".Trash-1000", Folder [("Old.mkv", Leaf)]); ("Alien (1979)", Folder [("Alien.mkv", Leaf); ("poster.jpg", Leaf)]);
          ("notes.txt", Leaf)].
Definition stored : list (list string) := map (app root) (leaves disk).
Definition lookup (p : string) : option Node := if String.eqb p "/m/Movies" then Some disk else None.
Definition ls (p : string) : option (list string) := Some (List.filter (λ k, HasPrefix k p) (map abs stored)).

Example selects :
  walkLibraryFiles (LocalDisk lookup) ["/m/Movies"] ["/m/Movies"] "movie" = Some ["/m/Movies/Alien (1979)/Alien.mkv"]
  ∧ walkLibraryFiles (Listing ls) ["/m/Movies"] ["/m/Movies"] "movie" = Some ["/m/Movies/Alien (1979)/Alien.mkv"]
  ∧ walkLibraryFiles (LocalDisk (λ _, None)) ["/m/Movies"] ["/m/Movies"] "movie" = Some []
  ∧ walkLibraryFiles NoListing ["/m/Movies"] ["/m/Movies"] "movie" = None.
Proof. by vm_compute. Qed.

(** A root that is itself named like a skipped directory is walked on an object
    store and not on a disk. *)
Example skipped_root :
  walkLibraryFiles (LocalDisk (λ _, Some (Folder [("A.mkv", Leaf)]))) ["/m/@eaDir"] ["/m/@eaDir"] "movie" = Some []
  ∧ walkLibraryFiles (Listing (λ _, Some ["/m/@eaDir/A.mkv"])) ["/m/@eaDir"] ["/m/@eaDir"] "movie" = Some ["/m/@eaDir/A.mkv"].
Proof. by vm_compute. Qed.

Lemma sample_plain : Forall plain root ∧ Forall (Forall plain) stored ∧ named disk.
Proof. vm_compute. repeat (constructor || split); discriminate. Qed.

Lemma walk_modes_agree_witness :
  ∃ l k, walkLibraryFiles (LocalDisk lookup) ["/m/Movies"] ["/m/Movies"] "movie" = Some l
    ∧ walkLibraryFiles (Listing ls) ["/m/Movies"] ["/m/Movies"] "movie" = Some k
    ∧ ∀ p, (p ∈ l ↔ selected [root] stored "movie" p) ∧ (p ∈ k ↔ selected [root] stored "movie" p).
Proof.
  destruct sample_plain as (Hr & Hs & Hn). apply (walk_modes_agree [root] stored "movie" lookup ls).
  - apply Forall_cons. split; [|by apply Forall_nil]. split_and!; [done|exact Hr|done].
  - intros es He. rewrite Forall_forall in Hs. split; [|by apply Hs]. intros ->. revert He.
    unfold stored. rewrite list_elem_of_fmap. by intros (? & ? & _).
  - intros ds ->%list_elem_of_singleton. eexists. split; [reflexivity|]. split; [exact Hn|]. intros r.
    unfold stored. rewrite list_elem_of_fmap. split; [by exists r|]. intros (r' & E & Hr'). by apply app_inv_head in E as ->.
  - intros ds ->%list_elem_of_singleton. eexists. split; [reflexivity|]. intros k.
    rewrite elem_of_List_filter, list_elem_of_fmap. split.
    + intros [(es & -> & He) Hk]. by exists es.
    + intros (es & He & -> & Hk). split; [by exists es|done].
Defined.
End Sample.
