(* ===== verification/MediaFiles.v ===== *)
(** The rows of media files and items, the statements on them that a scan runs
    ([media.sql]), and the operations of the media service built from these
    ([internal/domain/media]).

    A statement is atomic and may fail, with or without its effect; between two
    statements other requests may change the tables. *)
From S2P Require Import Prelude.
From S2P Require Import GoStrings.
From S2P Require Import GoFloat.
From S2P Require Import Tokens.
From S2P Require Import LibraryWalk.
From Stdlib Require Import SpecFloat.

Local Open Scope Z_scope.

(** * Tables *)
(** What ffprobe says of a file that a re-scan writes again, and what only the
    first scan writes. *)
Record Technical := mkTech {
  Container : option string; VideoCodec : option string; AudioCodec : option string;
  ResolutionW : option Z; ResolutionH : option Z; Bitrate : option Z; HDRType : option string;
  DVProfile : option Z; FrameRate : option float64; AudioStreams : string; SubtitleStreams : string;
  Chapters : string; DurationMS : option Z; VideoBitDepth : option Z; VideoProfile : option string;
  VideoLevel : option Z }.
Record AudioFormat := mkAudio {
  BitDepth : option Z; SampleRate : option Z; ChannelLayout : option string; Lossless : option bool }.
Record ReplayGain := mkGain {
  TrackGain : option float64; TrackPeak : option float64; AlbumGain : option float64; AlbumPeak : option float64;
  Source : option string }.

Inductive Status := Active | Missing.
#[global] Instance Status_eq_dec : EqDecision Status.
Proof. solve_decision. Defined.

Record FileRow := mkRow {
  f_item : UUID; f_path : string; f_size : Z; f_tech : Technical; f_audio : AudioFormat; f_hash : option string;
  f_status : Status; f_missing_since : option Z; f_scanned : Z; f_created : Z;
  f_edition : option string; f_part : option Z; f_gain : ReplayGain }.
#[global] Instance FileRow_eta : Eta FileRow := λ f, mkRow (f_item f) (f_path f) (f_size f) (f_tech f) (f_audio f) (f_hash f)
  (f_status f) (f_missing_since f) (f_scanned f) (f_created f) (f_edition f) (f_part f) (f_gain f).
Definition active (f : FileRow) : bool := bool_decide (f_status f = Active).

Record Item := mkItem { i_library : UUID; i_parent : option UUID; i_type : string; i_deleted : bool }.
#[global] Instance Item_eta : Eta Item := λ i, mkItem (i_library i) (i_parent i) (i_type i) (i_deleted i).

(** [credits]: [track_artists], a track and an artist credited on it. *)
Record DB := mkDB { files : gmap UUID FileRow; items : gmap UUID Item; credits : list (UUID * UUID) }.
#[global] Instance DB_eta : Eta DB := λ d, mkDB (files d) (items d) (credits d).

(** * Queries *)
Definition rows (d : DB) : list (UUID * FileRow) := map_to_list (files d).
Definition by_path (p : string) (d : DB) : option (UUID * FileRow) := find_first (λ r, String.eqb (f_path r.2) p) (rows d).
Definition hash_is (h : string) (f : FileRow) : bool := bool_decide (f_hash f = Some h).
(** The newest of the rows. *)
Definition newest (l : list (UUID * FileRow)) : option (UUID * FileRow) :=
  fold_left (λ b x, match b with Some y => if f_created y.2 <? f_created x.2 then Some x else b | None => Some x end) l None.
Definition by_hash (h : string) (d : DB) : option (UUID * FileRow) :=
  newest (List.filter (λ r, hash_is h r.2 && negb (active r.2)) (rows d)).

Definition library_of (d : DB) (item : UUID) : option UUID := i_library <$> items d !! item.
Definition in_library (l : UUID) (d : DB) (f : FileRow) : bool := bool_decide (library_of d (f_item f) = Some l).
Definition active_files (l : UUID) (d : DB) : list (UUID * FileRow) :=
  List.filter (λ r, in_library l d r.2 && active r.2) (rows d).
Definition older (cutoff : Z) (f : FileRow) : bool :=
  negb (active f) && match f_missing_since f with Some t => t <? cutoff | None => false end.
(** [LIMIT 5000] *)
Definition missing_older (cutoff : Z) (d : DB) : list (UUID * FileRow) :=
  take 5000 (List.filter (λ r, older cutoff r.2) (rows d)).

(** An item and its ancestors. *)
Fixpoint ancestors (fuel : nat) (its : gmap UUID Item) (id : UUID) : list UUID :=
  match fuel with
  | O => []
  | S fuel =>
      match its !! id with
      | Some it => id :: match i_parent it with Some p => ancestors fuel its p | None => [] end
      | None => []
      end
  end.
Definition ancestry (d : DB) (id : UUID) : list UUID := ancestors (size (items d)) (items d) id.

Definition has_file (d : DB) (P : UUID → FileRow → bool) (item : UUID) : bool :=
  existsb (λ r, N.eqb (f_item r.2) item && P r.1 r.2) (rows d).
Definition has_live_child (d : DB) (id : UUID) : bool :=
  existsb (λ r : UUID * Item, bool_decide (i_parent r.2 = Some id) && negb (i_deleted r.2)) (map_to_list (items d)).
Definition live_item (d : DB) (id : UUID) : bool :=
  match items d !! id with Some it => negb (i_deleted it) | None => false end.
Definition credited (d : DB) (artist : UUID) : bool := existsb (λ c, N.eqb c.2 artist && live_item d c.1) (credits d).

(** * Updates *)
Definition set_row (id : UUID) (u : FileRow → FileRow) (d : DB) : DB := d <| files ::= alter u id |>.
(** Which items an update hits. *)
Definition mark_items (P : UUID → Item → bool) (deleted : bool) (d : DB) : DB :=
  d <| items ::= map_imap (λ id it, Some (if P id it then it <| i_deleted := deleted |> else it)) |>.

Definition revive (d : DB) (id : UUID) : DB := mark_items (λ k _, mem k (ancestry d id)) false d.
Definition bury_if_empty (id : UUID) (d : DB) : DB :=
  if has_file d (λ _ _, true) id then d else mark_items (λ k _, N.eqb k id) true d.
Definition leaf_types : list string := ["movie"; "episode"; "track"; "photo"; "audiobook_chapter"; "podcast_episode"].
Definition container_types : list string := ["show"; "season"; "artist"; "album"; "podcast"].
Definition bury_leaves (l : UUID) (d : DB) : DB :=
  mark_items (λ k it, N.eqb (i_library it) l && negb (i_deleted it) && mem (i_type it) leaf_types
                      && negb (has_file d (λ _ f, active f) k)) true d.
Definition bury_containers (l : UUID) (d : DB) : DB :=
  mark_items (λ k it, N.eqb (i_library it) l && negb (i_deleted it) && mem (i_type it) container_types
                      && negb (has_live_child d k) && negb (String.eqb (i_type it) "artist" && credited d k)) true d.
(** [PurgeExpiredMissingFiles]: both halves see the tables before it. *)
Definition purge (ids its : list UUID) (d : DB) : DB :=
  mark_items (λ k it, mem k its && negb (i_deleted it) && negb (has_file d (λ i _, negb (mem i ids)) k)) true
    (d <| files ::= filter (λ r, r.1 ∉ ids) |>).

(** * Statements *)
Record CreateFileParams := mkParams {
  p_item : UUID; p_path : string; p_size : Z; p_tech : Technical; p_audio : AudioFormat; p_hash : option string;
  p_edition : option string; p_part : option Z; p_gain : ReplayGain; p_gain_known : bool }.

Inductive stmt :=
| GetMediaFileByPath (path : string) | GetMediaFileByHash (hash : string) | GetMediaItem (id : UUID)
| MarkMediaFileActive (id : UUID) | MarkMediaFileMissing (id : UUID)
| UpdateMediaFilePath (id : UUID) (path : string) | UpdateMediaFileItemID (id item : UUID)
| UpdateMediaFileHash (id : UUID) (hash : string) | UpdateMediaFileTechnicalMetadata (id : UUID) (p : CreateFileParams)
| UpdateMediaFileReplayGain (id : UUID) (g : ReplayGain) | UpdateMediaFileNaming (id : UUID) (e : option string) (n : option Z)
| CreateMediaFile (p : CreateFileParams) | HardDeleteMediaFile (id : UUID)
| RestoreMediaItemAncestry (item : UUID) | SoftDeleteMediaItemIfAllFilesDeleted (item : UUID)
| ListActiveFilesForLibrary (library : UUID) | ListMissingFilesOlderThan (cutoff : Z)
| PurgeExpiredMissingFiles (ids its : list UUID)
| SoftDeleteItemsWithNoActiveFiles (library : UUID) | SoftDeleteEmptyContainerItems (library : UUID).

Definition answer (c : stmt) : Type :=
  match c with
  | GetMediaFileByPath _ | GetMediaFileByHash _ => option (UUID * FileRow)
  | GetMediaItem _ => option Item
  | CreateMediaFile _ => UUID * FileRow
  | ListActiveFilesForLibrary _ | ListMissingFilesOlderThan _ => list (UUID * FileRow)
  | PurgeExpiredMissingFiles _ _ => Z
  | _ => unit
  end.
Inductive reply (A : Type) := Got (a : A) | Failed.
#[global] Arguments Got {A} _.
#[global] Arguments Failed {A}.

(** A new row is active; the column's default is [active], no [missing_since]. *)
Definition new_row (now : Z) (p : CreateFileParams) : FileRow :=
  mkRow (p_item p) (p_path p) (p_size p) (p_tech p) (p_audio p) (p_hash p) Active None now now (p_edition p) (p_part p) (p_gain p).
Definition path_free (p : string) (d : DB) : bool := match by_path p d with Some _ => false | None => true end.
(** Another row has the path. *)
Definition path_clash (id : UUID) (p : string) (d : DB) : bool :=
  existsb (λ r, String.eqb (f_path r.2) p && negb (N.eqb r.1 id)) (rows d).
Definition has_item (d : DB) (id : UUID) : bool := bool_decide (is_Some (items d !! id)).

Definition query (c : stmt) (now : Z) (fresh : UUID) (d : DB) : DB * reply (answer c) :=
  match c with
  | GetMediaFileByPath p => (d, Got (by_path p d))
  | GetMediaFileByHash h => (d, Got (by_hash h d))
  | GetMediaItem id => (d, Got (match items d !! id with Some it => if i_deleted it then None else Some it | None => None end))
  | MarkMediaFileActive id =>
      (set_row id (λ f, f <| f_status := Active |> <| f_missing_since := None |> <| f_scanned := now |>) d, Got tt)
  | MarkMediaFileMissing id =>
      (set_row id (λ f, if active f then f <| f_status := Missing |> <| f_missing_since := Some now |> else f) d, Got tt)
  | UpdateMediaFilePath id p =>
      if path_clash id p d then (d, Failed)
      else (set_row id (λ f, f <| f_path := p |> <| f_status := Active |> <| f_missing_since := None |> <| f_scanned := now |>) d,
            Got tt)
  | UpdateMediaFileItemID id it =>
      if has_item d it then (set_row id (λ f, f <| f_item := it |> <| f_scanned := now |>) d, Got tt) else (d, Failed)
  | UpdateMediaFileHash id h => (set_row id (λ f, f <| f_hash := Some h |> <| f_scanned := now |>) d, Got tt)
  | UpdateMediaFileTechnicalMetadata id p =>
      (set_row id (λ f, f <| f_tech := p_tech p |> <| f_edition := p_edition p |> <| f_part := p_part p |>
                          <| f_scanned := now |>) d, Got tt)
  | UpdateMediaFileReplayGain id g => (set_row id (λ f, f <| f_gain := g |>) d, Got tt)
  | UpdateMediaFileNaming id e n => (set_row id (λ f, f <| f_edition := e |> <| f_part := n |>) d, Got tt)
  | CreateMediaFile p =>
      if path_free (p_path p) d && has_item d (p_item p)
      then (d <| files ::= <[fresh := new_row now p]> |>, Got (fresh, new_row now p)) else (d, Failed)
  | HardDeleteMediaFile id => (d <| files ::= delete id |>, Got tt)
  | RestoreMediaItemAncestry it => (revive d it, Got tt)
  | SoftDeleteMediaItemIfAllFilesDeleted it => (bury_if_empty it d, Got tt)
  | ListActiveFilesForLibrary l => (d, Got (active_files l d))
  | ListMissingFilesOlderThan t => (d, Got (missing_older t d))
  | PurgeExpiredMissingFiles ids its => (purge ids its d, Got (Z.of_nat (length (List.filter (λ r, mem r.1 ids) (rows d)))))
  | SoftDeleteItemsWithNoActiveFiles l => (bury_leaves l d, Got tt)
  | SoftDeleteEmptyContainerItems l => (bury_containers l d, Got tt)
  end.

(** * What the scanner asks besides *)
Inductive Probed := ProbeOk (t : Technical) (a : AudioFormat) | ProbeFailed | ErrUnsafeContainer.
(** The owner a file's name and tags give it: the item, and for a movie or a
    track what its name or tags carry.  No gains when no tags were read. *)
Record Resolved := mkResolved { r_item : UUID; r_edition : option string; r_part : option Z; r_gain : option ReplayGain }.

Inductive question :=
| QWalk (walkPaths roots : list string) (libraryType : string)
| QStat (path : string)                       (* size and modification time *)
| QHash (path : string) (size mtime : Z)
| QProbe (path : string)
| QReread (item : UUID) (path : string)       (* an unchanged file must be read again all the same *)
| QNow
| QPause.                                     (* three seconds *)
Definition said (q : question) : Type :=
  match q with
  | QWalk _ _ _ => option (list string)
  | QStat _ => option (Z * Z)
  | QHash _ _ _ => option string
  | QProbe _ => Probed
  | QReread _ _ => bool
  | QNow => Z
  | QPause => unit
  end.

(** * Programs *)
Inductive prog (A : Type) :=
| Ret (a : A)
| Do (c : stmt) (k : reply (answer c) → prog A)
| Ask (q : question) (k : said q → prog A)
| Own (libraryType path : string) (k : option Resolved → prog A).   (* resolve or create the owning item *)
#[global] Arguments Ret {A} _.
#[global] Arguments Do {A} _ _.
#[global] Arguments Ask {A} _ _.
#[global] Arguments Own {A} _ _ _.
Notation "'let!' x := c 'in' k" := (Do c (λ x, k))
  (at level 200, x name, c at level 100, k at level 200, right associativity).
Notation "'ask' x := q 'in' k" := (Ask q (λ x, k))
  (at level 200, x name, q at level 100, k at level 200, right associativity).
Fixpoint bind {A B} (p : prog A) (f : A → prog B) : prog B :=
  match p with
  | Ret a => f a
  | Do c k => Do c (λ r, bind (k r) f)
  | Ask q k => Ask q (λ r, bind (k r) f)
  | Own t p k => Own t p (λ r, bind (k r) f)
  end.
Notation "'let*' x := p 'in' k" := (bind p (λ x, k))
  (at level 200, x pattern, p at level 100, k at level 200, right associativity).
(** A failure that is only logged. *)
Notation "c ;; k" := (Do c (λ _, k)) (at level 100, k at level 200, right associativity).

(** The disk, and the rest of the scanner: the episode, music, photo and book
    parsers, which resolve or create items. *)
Record World := mkWorld {
  w_store : Store;
  w_stat : string → option (Z * Z);
  w_hash : string → option string;
  w_probe : string → Probed;
  w_reread : UUID → string → bool;
  w_own : string → string → DB → DB * option Resolved }.
Definition ask_world (w : World) (now : Z) (q : question) : said q :=
  match q with
  | QWalk ps rs t => walkLibraryFiles (w_store w) ps rs t
  | QStat p => w_stat w p
  | QHash p _ _ => w_hash w p
  | QProbe p => w_probe w p
  | QReread i p => w_reread w i p
  | QNow => now
  | QPause => tt
  end.

(** ** Among others, with failures *)
Inductive outage := Up | Lost (* the effect, and an error *) | Down (* no effect, an error *).
Record Moment := mkMoment {
  meddle : DB → DB;         (* what others did since the last step *)
  world : World; at_ : Z; new_id : UUID; outage_ : outage }.
Definition call (c : stmt) (m : Moment) (d : DB) : DB * reply (answer c) :=
  let r := query c (at_ m) (new_id m) d in
  match outage_ m with Up => r | Lost => (r.1, Failed) | Down => (d, Failed) end.

(** What happened: statements with the tables before and after, answers. *)
Inductive event :=
| EvDo (c : stmt) (before after : DB) (r : reply (answer c)) | EvAsk (q : question) (a : said q) | EvOwn (before after : DB).
Fixpoint run {A} (p : prog A) (ms : list Moment) (d : DB) : option (A * DB * list event) :=
  match p, ms with
  | Ret a, _ => Some (a, d, [])
  | _, [] => None
  | Do c k, m :: ms =>
      let d1 := meddle m d in
      let '(d2, r) := call c m d1 in
      match run (k r) ms d2 with Some (a, d3, tr) => Some (a, d3, EvDo c d1 d2 r :: tr) | None => None end
  | Ask q k, m :: ms =>
      let a := ask_world (world m) (at_ m) q in
      match run (k a) ms (meddle m d) with Some (b, d3, tr) => Some (b, d3, EvAsk q a :: tr) | None => None end
  | Own t p k, m :: ms =>
      let d1 := meddle m d in
      let '(d2, r) := w_own (world m) t p d1 in
      match run (k r) ms d2 with Some (a, d3, tr) => Some (a, d3, EvOwn d1 d2 :: tr) | None => None end
  end.

(** ** Alone, with nothing failing *)
(** [n]: the next new ID. *)
Fixpoint exec {A} (p : prog A) (w : World) (now : Z) (s : DB * UUID) : A * (DB * UUID) :=
  match p with
  | Ret a => (a, s)
  | Do c k => let '(d, r) := query c now s.2 s.1 in exec (k r) w now (d, N.succ s.2)
  | Ask q k => exec (k (ask_world w now q)) w now s
  | Own t p k => let '(d, r) := w_own w t p s.1 in exec (k r) w now (d, s.2)
  end.

Lemma exec_bind {A B} (p : prog A) (f : A → prog B) w now s :
  exec (bind p f) w now s = let '(a, s') := exec p w now s in exec (f a) w now s'.
Proof.
  revert s. induction p as [a|c k IH|q k IH|t path k IH]; intros s; cbn [bind exec]; [done| |by apply IH|].
  - destruct (query c now s.2 s.1) as [d r]. apply IH.
  - destruct (w_own w t path s.1) as [d r]. apply IH.
Qed.

(** * The media service *)
Definition samePtr {A} (eqb : A → A → bool) (a b : option A) : bool :=
  match a, b with None, None => true | Some x, Some y => eqb x y | _, _ => false end.
Definition has_gain (g : ReplayGain) : bool :=
  bool_decide (is_Some (TrackGain g)) || bool_decide (is_Some (TrackPeak g))
  || bool_decide (is_Some (AlbumGain g)) || bool_decide (is_Some (AlbumPeak g)).
Definition no_gain : ReplayGain := mkGain None None None None None.
Definition tags : string := "tags".          (* [ReplayGainFromTags] *)
Definition analyzed : string := "analyzed".  (* [ReplayGainAnalyzed] *)
Definition with_source (g : ReplayGain) (s : option string) : ReplayGain :=
  mkGain (TrackGain g) (TrackPeak g) (AlbumGain g) (AlbumPeak g) s.
Definition sameReplayGain (a b : ReplayGain) : bool :=
  samePtr SFeqb (TrackGain a) (TrackGain b) && samePtr SFeqb (TrackPeak a) (TrackPeak b)
  && samePtr SFeqb (AlbumGain a) (AlbumGain b) && samePtr SFeqb (AlbumPeak a) (AlbumPeak b)
  && String.eqb (default "" (Source a)) (default "" (Source b)).
Definition fileBytesChanged (existing : FileRow) (p : CreateFileParams) : bool :=
  negb (f_size existing =? p_size p)
  || match f_hash existing, p_hash p with Some a, Some b => negb (String.eqb a b) | _, _ => false end.
Definition ReplayGainOnRescan (existing : FileRow) (p : CreateFileParams) : option ReplayGain :=
  if p_gain_known p && has_gain (p_gain p) then
    let rg := with_source (p_gain p) (Some tags) in
    if sameReplayGain (f_gain existing) rg then None else Some rg
  else
    let src := default "" (Source (f_gain existing)) in
    if String.eqb src tags && p_gain_known p then Some no_gain
    else if String.eqb src analyzed && fileBytesChanged existing p then Some no_gain
    else None.

(** Statements in order, up to the first that fails. *)
Fixpoint steps (cs : list stmt) : prog bool :=
  match cs with
  | [] => Ret true
  | c :: cs => Do c (λ r, match r with Got _ => steps cs | Failed => Ret false end)
  end.

Definition update_known (id : UUID) (existing : FileRow) (p : CreateFileParams) : list stmt :=
  [MarkMediaFileActive id]
  ++ (if N.eqb (f_item existing) (p_item p) then [] else [UpdateMediaFileItemID id (p_item p)])
  ++ (match p_hash p with Some h => [UpdateMediaFileHash id h] | None => [] end)
  ++ [UpdateMediaFileTechnicalMetadata id p]
  ++ (match ReplayGainOnRescan existing p with Some g => [UpdateMediaFileReplayGain id g] | None => [] end)
  ++ (if active existing then [] else [RestoreMediaItemAncestry (p_item p)]).
Definition update_moved (id : UUID) (moved : FileRow) (p : CreateFileParams) : list stmt :=
  [UpdateMediaFilePath id (p_path p); RestoreMediaItemAncestry (f_item moved)]
  ++ (if samePtr String.eqb (f_edition moved) (p_edition p) && samePtr Z.eqb (f_part moved) (p_part p) then []
      else [UpdateMediaFileNaming id (p_edition p) (p_part p)]).
Definition create_new (p : CreateFileParams) : prog (option (UUID * bool)) :=
  let p := mkParams (p_item p) (p_path p) (p_size p) (p_tech p) (p_audio p) (p_hash p) (p_edition p) (p_part p)
             (with_source (p_gain p) (if has_gain (p_gain p) then Some tags else None)) (p_gain_known p) in
  let! r := CreateMediaFile p in
  match r with
  | Failed => Ret None
  | Got (id, f) =>
      let! r := RestoreMediaItemAncestry (f_item f) in
      match r with Got _ => Ret (Some (id, true)) | Failed => Ret None end
  end.

(** The file's ID and whether it is new; [None]: an error. *)
Definition CreateOrUpdateFile (p : CreateFileParams) : prog (option (UUID * bool)) :=
  let! known := GetMediaFileByPath (p_path p) in
  match known with
  | Got (Some (id, existing)) => let* ok := steps (update_known id existing p) in Ret (if ok : bool then Some (id, false) else None)
  | _ =>
      match p_hash p with
      | None => create_new p
      | Some h =>
          let! moved := GetMediaFileByHash h in
          match moved with
          | Got (Some (id, f)) => let* ok := steps (update_moved id f p) in Ret (if ok : bool then Some (id, false) else None)
          | _ => create_new p
          end
      end
  end.

Definition CleanupEmptyItems (library : UUID) : prog bool :=
  steps [SoftDeleteItemsWithNoActiveFiles library; SoftDeleteEmptyContainerItems library; SoftDeleteEmptyContainerItems library].

Definition PromoteExpiredMissing (gracePeriod : Z) : prog (option Z) :=
  ask now := QNow in
  let! r := ListMissingFilesOlderThan (now - gracePeriod) in
  match r with
  | Failed => Ret None
  | Got l =>
      let! r := PurgeExpiredMissingFiles (map fst l) (remove_dups (map (λ x, f_item x.2) l)) in
      match r with Got n => Ret (Some (n : Z)) | Failed => Ret None end
  end.
