(* ===== verification/LibraryScan.v ===== *)
(** A library scan ([internal/scanner]): the files, one at a time (the code's
    workers are others to each other), through the short cuts, then the rows
    whose file is gone, the missing rows whose grace is over, and the items left
    empty.  Proved: a scan deletes only rows whose file its walk did not find, or
    that stayed missing past the grace. *)
From S2P Require Import Prelude.
From S2P Require Import GoStrings.
From S2P Require Import Tokens.
From S2P Require Import LibraryWalk.
From S2P Require Import MediaFiles.

Local Open Scope Z_scope.

(** * One file *)
Inductive processed := FileError | Unchanged | Indexed (id : UUID) (isNew : bool).

(** [resolveUnchangedFile]: whether the file can be skipped. *)
Definition resolveUnchangedFile (path : string) (existing : FileRow) : prog bool :=
  let! r := GetMediaItem (f_item existing) in
  match r with
  | Got (Some _) => ask again := QReread (f_item existing) path in Ret (negb again)
  | _ => Ret true
  end.

(** Same size, and changed before it was last read. *)
Definition stat_unchanged (existing : FileRow) (size mtime : Z) : bool :=
  bool_decide (is_Some (f_hash existing)) && (f_size existing =? size) && (mtime <? f_scanned existing).
Definition hash_skips (libraryType : string) : bool :=
  negb (mem libraryType ["photo"; "music"; "audiobook"; "book"; "manga"; "home_video"]).
Definition hash_unchanged (existing : FileRow) (hash path : string) : bool :=
  hash_is hash existing && (bool_decide (is_Some (DurationMS (f_tech existing))) || isImageFile path).

Definition no_tech : Technical :=
  mkTech None None None None None None None None None "" "" "" None None None None.
Definition no_audio : AudioFormat := mkAudio None None None None.

Definition probe_file (path : string) (existing : option (UUID * FileRow)) (k : Technical → AudioFormat → prog processed) : prog processed :=
  ask p := QProbe path in
  match p with
  | ErrUnsafeContainer =>
      if isImageFile path then k no_tech no_audio
      else match existing with
           | Some (id, _) => MarkMediaFileMissing id ;; Ret FileError
           | None => Ret FileError
           end
  | ProbeFailed => k no_tech no_audio
  | ProbeOk t a => k t a
  end.

(** The slow path: probe, owner, row. *)
Definition read_file (libraryType path : string) (size : Z) (hash : option string) (existing : option (UUID * FileRow)) : prog processed :=
  probe_file path existing (λ t a,
    Own libraryType path (λ r,
      match r with
      | None => Ret FileError
      | Some o =>
          let* u := CreateOrUpdateFile
                      (mkParams (r_item o) path size t a hash (r_edition o) (r_part o) (default no_gain (r_gain o))
                                (bool_decide (is_Some (r_gain o)))) in
          match u with Some (id, isNew) => Ret (Indexed id isNew) | None => Ret FileError end
      end)).

(** After the stat-only short cut. *)
Definition hash_file (libraryType path : string) (size mtime : Z) (existing : option (UUID * FileRow)) (healing : bool) : prog processed :=
  ask hash := QHash path size mtime in
  match hash, existing with
  | Some h, Some (id, f) =>
      if negb healing && hash_skips libraryType && hash_unchanged f h path then
        MarkMediaFileActive id ;;
        let* _ := if active f then Ret tt else (RestoreMediaItemAncestry (f_item f) ;; Ret tt) in
        let* skip := resolveUnchangedFile path f in
        if skip : bool then Ret Unchanged else read_file libraryType path size hash existing
      else read_file libraryType path size hash existing
  | _, _ => read_file libraryType path size hash existing
  end.

Definition processFile (libraryType path : string) : prog processed :=
  ask info := QStat path in
  match info with
  | None => Ret FileError
  | Some (size, mtime) =>
      let! r := GetMediaFileByPath path in
      let existing := match r with Got e => e | Failed => None end in
      match existing with
      | Some (id, f) =>
          if stat_unchanged f size mtime then
            let* _ := if active f then Ret tt
                      else (MarkMediaFileActive id ;; RestoreMediaItemAncestry (f_item f) ;; Ret tt) in
            let* skip := resolveUnchangedFile path f in
            if skip : bool then Ret Unchanged else hash_file libraryType path size mtime existing true
          else hash_file libraryType path size mtime existing false
      | None => hash_file libraryType path size mtime existing false
      end
  end.

(** * All of them *)
Record ScanResult := mkResult { Found : Z; New : Z }.

Fixpoint process_files (libraryType : string) (paths : list string) (acc : ScanResult) : prog ScanResult :=
  match paths with
  | [] => Ret acc
  | p :: paths =>
      let* r := processFile libraryType p in
      process_files libraryType paths
        match r with
        | FileError => acc
        | Indexed _ true => mkResult (Found acc + 1) (New acc + 1)
        | _ => mkResult (Found acc + 1) (New acc)
        end
  end.

(** [DeleteFile] on each row whose path was not seen; the items that lost one. *)
Fixpoint delete_unseen (seen : list string) (l : list (UUID * FileRow)) (affected : list UUID) : prog (list UUID) :=
  match l with
  | [] => Ret affected
  | (id, f) :: l =>
      if mem (f_path f) seen then delete_unseen seen l affected
      else let! r := HardDeleteMediaFile id in
           delete_unseen seen l (match r with Got _ => if mem (f_item f) affected then affected else affected ++ [f_item f]
                                 | Failed => affected end)
  end.
Fixpoint bury_each (l : list UUID) : prog unit :=
  match l with [] => Ret tt | i :: l => SoftDeleteMediaItemIfAllFilesDeleted i ;; bury_each l end.
Definition markOrphanedFiles (library : UUID) (seenPaths : list string) : prog unit :=
  let! r := ListActiveFilesForLibrary library in
  match r with
  | Failed => Ret tt
  | Got act => let* affected := delete_unseen seenPaths act [] in bury_each affected
  end.

Definition nfiles {A} (l : list A) : Z := Z.of_nat (length l).
(** [len(walked) >= len(activeFiles)/2] *)
Definition enough (walked : list string) (nactive : Z) : bool := Z.quot nactive 2 <=? nfiles walked.

Definition orphan_pass (library : UUID) (walkPaths roots : list string) (libraryType : string) (walked : list string) : prog unit :=
  let! r := ListActiveFilesForLibrary library in
  let nactive := match r with Got l => nfiles (l : list (UUID * FileRow)) | Failed => 0 end in
  let* walked :=
    (if (0 <? nactive) && negb (enough walked nactive) then
       ask _ := QPause in
       ask again := QWalk walkPaths roots libraryType in
       Ret match again with Some l => if nfiles walked <? nfiles l then l else walked | None => walked end
     else Ret walked) in
  if (nactive =? 0) || enough walked nactive then markOrphanedFiles library walked else Ret tt.

(** [None]: the walk failed.  The steps before the file pass (audiobook repair,
    folded tracks, photo pairing) and after the clean-up (enrichment, merging of
    duplicates) are not in this model. *)
Definition scan (grace : Z) (library : UUID) (libraryType : string) (walkPaths parsingRoots : list string) (fullScan : bool) : prog (option ScanResult) :=
  ask w := QWalk walkPaths parsingRoots libraryType in
  match w with
  | None => Ret None
  | Some [] => Ret (Some (mkResult 0 0))
  | Some walked =>
      let* res := process_files libraryType walked (mkResult 0 0) in
      let* _ := if fullScan then orphan_pass library walkPaths parsingRoots libraryType walked
                else (ListActiveFilesForLibrary library ;; Ret tt) in
      let* _ := if fullScan then PromoteExpiredMissing grace else Ret None in
      let* _ := CleanupEmptyItems library in
      Ret (Some res)
  end.
Definition ScanLibrary (grace : Z) (library : UUID) (libraryType : string) (paths : list string) : prog (option ScanResult) :=
  scan grace library libraryType paths paths true.
Definition ScanDirectory (grace : Z) (library : UUID) (libraryType dirPath : string) (libraryRoots : list string) : prog (option ScanResult) :=
  scan grace library libraryType [dirPath] libraryRoots false.

(** * What a scan may delete *)
Section Deletes.
Variables (grace : Z) (library : UUID) (libraryType : string) (walkPaths roots : list string) (fullScan : bool).

(** A walk of the library that found [w]. *)
Definition walked_ (H : list event) (w : list string) : Prop :=
  EvAsk (QWalk walkPaths roots libraryType) (Some w) ∈ H.
(** A listing of its active rows had the row. *)
Definition listed (H : list event) (id : UUID) (f : FileRow) : Prop :=
  ∃ d, EvDo (ListActiveFilesForLibrary library) d d (Got (active_files library d)) ∈ H
    ∧ files d !! id = Some f ∧ active f = true ∧ library_of d (f_item f) = Some library.
(** The walk passed the mount guard against a listing, or that listing failed. *)
Definition guarded (H : list event) (w : list string) : Prop :=
  (∃ d, EvDo (ListActiveFilesForLibrary library) d d (Got (active_files library d)) ∈ H
     ∧ enough w (nfiles (active_files library d)) = true)
  ∨ ∃ a b, EvDo (ListActiveFilesForLibrary library) a b Failed ∈ H.
(** Missing since before the cutoff, when the missing rows were listed. *)
Definition expired (H : list event) (id : UUID) : Prop :=
  ∃ now d f t, EvAsk QNow now ∈ H
    ∧ EvDo (ListMissingFilesOlderThan (now - grace)) d d (Got (missing_older (now - grace) d)) ∈ H
    ∧ files d !! id = Some f ∧ f_status f = Missing ∧ f_missing_since f = Some t ∧ t < now - grace.

Definition justified (H : list event) (c : stmt) (id : UUID) : Prop :=
  match c with
  | HardDeleteMediaFile i =>
      i = id ∧ fullScan = true ∧ ∃ f w, listed H id f ∧ walked_ H w ∧ w ≠ [] ∧ f_path f ∉ w ∧ guarded H w
  | PurgeExpiredMissingFiles ids _ => id ∈ ids ∧ fullScan = true ∧ expired H id
  | _ => False
  end.
(** A step that removes a row has its reason among the steps before it. *)
Definition good (H : list event) (e : event) : Prop :=
  match e with
  | EvDo c a b _ => ∀ id f, files a !! id = Some f → files b !! id = None → justified H c id
  | _ => True
  end.

(** ** A logic of the steps before *)
Definition may (c : stmt) (a b : DB) (r : reply (answer c)) : Prop := ∃ m, (b, r) = call c m a.
Fixpoint wp {A} (p : prog A) (H : list event) (Q : A → list event → Prop) : Prop :=
  match p with
  | Ret a => Q a H
  | Do c k => ∀ a b r, may c a b r → good H (EvDo c a b r) ∧ wp (k r) (H ++ [EvDo c a b r]) Q
  | Ask q k => ∀ a, wp (k a) (H ++ [EvAsk q a]) Q
  | Own t p k => ∀ a b r, wp (k r) (H ++ [EvOwn a b]) Q
  end.

Lemma good_mono {A} (p : prog A) H (Q Q' : A → list event → Prop) :
  (∀ a H', H `prefix_of` H' → Q a H' → Q' a H') → wp p H Q → wp p H Q'.
Proof.
  revert H. induction p as [a|c k IH|q k IH|t path k IH]; intros H HQ; cbn [wp]; [by apply HQ| | |].
  all: intros Hp; intros.
  - destruct (Hp a b r) as [Hg Hk]; [done|]. split; [done|]. eapply IH; [|exact Hk].
    intros x H' Hpre. apply HQ. etrans; [|exact Hpre]. by apply prefix_app_r.
  - eapply IH; [|apply Hp]. intros x H' Hpre. apply HQ. etrans; [|exact Hpre]. by apply prefix_app_r.
  - eapply IH; [|apply Hp]. intros x H' Hpre. apply HQ. etrans; [|exact Hpre]. by apply prefix_app_r.
Qed.
Lemma good_bind {A B} (p : prog A) (f : A → prog B) H Q :
  wp p H (λ a H', wp (f a) H' Q) → wp (bind p f) H Q.
Proof.
  revert H. induction p as [a|c k IH|q k IH|t path k IH]; intros H; cbn [wp bind]; [done| | |]; intros Hp; intros.
  - destruct (Hp a b r) as [Hg Hk]; [done|]. split; [done|]. by apply IH.
  - apply IH, Hp.
  - apply IH, Hp.
Qed.
Lemma good_run {A} (p : prog A) ms : ∀ H Q d x d' tr, wp p H Q → run p ms d = Some (x, d', tr) →
  Q x (H ++ tr) ∧ ∀ pre e post, tr = pre ++ e :: post → good (H ++ pre) e.
Proof.
  revert ms. induction p as [a|c k IH|q k IH|t path k IH]; intros ms H Q d x d' tr Hw Hr.
  { assert (Some (a, d, []) = Some (x, d', tr)) as [= -> -> <-] by (by destruct ms). rewrite app_nil_r. split; [done|].
    by intros [] ? ?. }
  all: destruct ms as [|m ms]; [done|]; cbn [run] in Hr.
  - destruct (call c m (meddle m d)) as [d2 r] eqn:E.
    destruct (run (k r) ms d2) as [[[y d3] tr']|] eqn:Er; [|done]. injection Hr as -> -> <-.
    destruct (Hw (meddle m d) d2 r) as [Hg Hk]; [by exists m|].
    destruct (IH _ _ _ _ _ _ _ _ Hk Er) as [HQ Htr]. rewrite <-app_assoc in HQ. split; [done|].
    intros [|e0 pre] e post [= <- Ep]; [by rewrite app_nil_r|]. specialize (Htr pre e post Ep). by rewrite <-app_assoc in Htr.
  - destruct (run (k _) ms (meddle m d)) as [[[y d3] tr']|] eqn:Er; [|done]. injection Hr as -> -> <-.
    destruct (IH _ _ _ _ _ _ _ _ (Hw _) Er) as [HQ Htr]. rewrite <-app_assoc in HQ. split; [done|].
    intros [|e0 pre] e post [= <- Ep]; [done|]. specialize (Htr pre e post Ep). by rewrite <-app_assoc in Htr.
  - destruct (w_own (world m) t path (meddle m d)) as [d2 r] eqn:E.
    destruct (run (k r) ms d2) as [[[y d3] tr']|] eqn:Er; [|done]. injection Hr as -> -> <-.
    destruct (IH _ _ _ _ _ _ _ _ (Hw (meddle m d) d2 r) Er) as [HQ Htr]. rewrite <-app_assoc in HQ. split; [done|].
    intros [|e0 pre] e post [= <- Ep]; [done|]. specialize (Htr pre e post Ep). by rewrite <-app_assoc in Htr.
Qed.

(** ** Steps that remove nothing *)
Definition deleting (c : stmt) : bool :=
  match c with HardDeleteMediaFile _ | PurgeExpiredMissingFiles _ _ => true | _ => false end.
Lemma query_keeps c now n d id : deleting c = false → is_Some (files d !! id) → is_Some (files (query c now n d).1 !! id).
Proof.
  intros Hc Hd. assert (∀ i u, is_Some (files (set_row i u d) !! id)) as Hs.
  { intros i u. simpl. destruct Hd as [f Hf]. destruct (decide (i = id)) as [->|Hn].
    - rewrite lookup_alter_eq, Hf. by eexists.
    - rewrite lookup_alter_ne by done. by eexists. }
  destruct c; try done; cbn [query]; try apply Hs; repeat case_match; simpl; try done; try apply Hs.
  - destruct Hd as [f Hf]. destruct (decide (n = id)) as [->|Hn]; [rewrite lookup_insert_eq|rewrite lookup_insert_ne by done]; by eexists.
  - unfold bury_if_empty. by case_match.
Qed.
Lemma may_query c a b r : may c a b r → b = a ∨ ∃ now n, b = (query c now n a).1.
Proof.
  intros (m & E). unfold call in E. destruct (outage_ m).
  - right. exists (at_ m), (new_id m). destruct (query _ _ _ _). by injection E as -> _.
  - right. exists (at_ m), (new_id m). destruct (query _ _ _ _). by injection E as -> _.
  - left. by injection E as -> _.
Qed.
Lemma keeps_good H c a b r : deleting c = false → may c a b r → good H (EvDo c a b r).
Proof.
  intros Hc Hm id f Ha Hb. destruct (may_query _ _ _ _ Hm) as [->|(now & n & ->)]; [by rewrite Ha in Hb|].
  destruct (query_keeps c now n a id Hc) as [x Hx]; [by eexists|]. by rewrite Hx in Hb.
Qed.

Fixpoint calm {A} (p : prog A) : Prop :=
  match p with
  | Ret _ => True
  | Do c k => deleting c = false ∧ ∀ r, calm (k r)
  | Ask q k => ∀ a, calm (k a)
  | Own _ _ k => ∀ r, calm (k r)
  end.
Lemma calm_bind {A B} (p : prog A) (f : A → prog B) : calm p → (∀ a, calm (f a)) → calm (bind p f).
Proof.
  intros Hp Hf. induction p as [a|c k IH|q k IH|t path k IH]; cbn [calm bind] in *; [done| | |].
  - destruct Hp as [Hc Hp]. split; [done|]. intros r. apply IH, Hp.
  - intros a. apply IH, Hp.
  - intros r. apply IH, Hp.
Qed.
Lemma wp_calm {A} (p : prog A) H : calm p → wp p H (λ _ H', H `prefix_of` H').
Proof.
  revert H. induction p as [a|c k IH|q k IH|t path k IH]; intros H Hp; cbn [wp calm] in *; [done| | |].
  - destruct Hp as [Hc Hp]. intros a b r Hm. split; [by apply keeps_good|].
    eapply good_mono; [|by apply IH]. intros x H' _ Hpre. etrans; [|exact Hpre]. by apply prefix_app_r.
  - intros a. eapply good_mono; [|by apply IH]. intros x H' _ Hpre. etrans; [|exact Hpre]. by apply prefix_app_r.
  - intros a b r. eapply good_mono; [|by apply IH]. intros x H' _ Hpre. etrans; [|exact Hpre]. by apply prefix_app_r.
Qed.
Lemma calm_steps cs : Forall (λ c, deleting c = false) cs → calm (steps cs).
Proof. induction 1 as [|c cs Hc _ IH]; [done|]. split; [done|]. by intros []. Qed.

Lemma calm_create p : calm (create_new p).
Proof. split; [done|]. intros [[id f]|]; [|done]. split; [done|]. by intros []. Qed.
Lemma calm_known id f p : Forall (λ c, deleting c = false) (update_known id f p).
Proof. unfold update_known. repeat (apply Forall_app; split); repeat case_match; repeat constructor. Qed.
Lemma calm_upsert p : calm (CreateOrUpdateFile p).
Proof.
  split; [done|]. intros r.
  assert (calm match p_hash p with
               | Some h => let! moved := GetMediaFileByHash h in
                   match moved with
                   | Got (Some (id, f)) => let* ok := steps (update_moved id f p) in Ret (if ok : bool then Some (id, false) else None)
                   | _ => create_new p
                   end
               | None => create_new p
               end) as Hm.
  { destruct (p_hash p) as [h|]; [|apply calm_create]. split; [done|].
    intros [[[id f]|]|]; try apply calm_create. apply calm_bind; [|done]. apply calm_steps.
    unfold update_moved. case_match; repeat constructor. }
  destruct r as [[[id f]|]|]; [|exact Hm|exact Hm].
  apply calm_bind; [apply calm_steps, calm_known|done].
Qed.
Lemma calm_resolve path f : calm (resolveUnchangedFile path f).
Proof. split; [done|]. by intros [[it|]|]. Qed.
Lemma calm_read lt path size h ex : calm (read_file lt path size h ex).
Proof.
  intros pr. assert (∀ t a, calm (Own lt path (λ r, match r with
      | None => Ret FileError
      | Some o => let* u := CreateOrUpdateFile
            (mkParams (r_item o) path size t a h (r_edition o) (r_part o) (default no_gain (r_gain o))
               (bool_decide (is_Some (r_gain o)))) in
          match u with Some (id, isNew) => Ret (Indexed id isNew) | None => Ret FileError end
      end))) as Hk.
  { intros t a [o|]; [|done]. apply calm_bind; [apply calm_upsert|]. by intros [[id b]|]. }
  destruct pr as [t a| |]; [apply Hk|apply Hk|]. case_match; [apply Hk|]. destruct ex as [[id f]|]; [|done].
  split; [done|]. by intros [].
Qed.
Lemma calm_hash lt path size mt ex b : calm (hash_file lt path size mt ex b).
Proof.
  intros [h|]; [|apply calm_read]. destruct ex as [[id f]|]; [|apply calm_read].
  case_match; [|apply calm_read]. split; [done|]. intros _. apply calm_bind; [by case_match|].
  intros _. apply calm_bind; [apply calm_resolve|]. intros []; [done|apply calm_read].
Qed.
Lemma calm_process lt path : calm (processFile lt path).
Proof.
  intros [[size mt]|]; [|done]. split; [done|]. intros r. cbv zeta.
  destruct (match r with Got e => e | Failed => None end) as [[id f]|]; [|apply calm_hash].
  case_match; [|apply calm_hash]. apply calm_bind; [by case_match|]. intros _. apply calm_bind; [apply calm_resolve|].
  intros []; [done|apply calm_hash].
Qed.
Lemma calm_files lt paths : ∀ acc, calm (process_files lt paths acc).
Proof. induction paths as [|p paths IH]; intros acc; [done|]. apply calm_bind; [apply calm_process|]. intros r. apply IH. Qed.
Lemma calm_bury l : calm (bury_each l).
Proof. by induction l as [|i l IH]. Qed.

(** ** Steps that remove rows *)
Lemma prefix_in {X} (H H' : list X) e : H `prefix_of` H' → e ∈ H → e ∈ H'.
Proof. intros [t ->] He. apply elem_of_app. by left. Qed.
Lemma listed_later H H' id f : H `prefix_of` H' → listed H id f → listed H' id f.
Proof. intros Hp (d & ? & ?). exists d. split; [by eapply prefix_in|done]. Qed.
Lemma guarded_later H H' w : H `prefix_of` H' → guarded H w → guarded H' w.
Proof.
  intros Hp [(d & ? & ?)|(a & b & ?)]; [left; exists d; split; [by eapply prefix_in|done]|].
  right. exists a, b. by eapply prefix_in.
Qed.
Lemma may_list a b r : may (ListActiveFilesForLibrary library) a b r →
  b = a ∧ (r = Failed ∨ r = Got (active_files library a)).
Proof. intros (m & E). unfold call in E. destruct (outage_ m); injection E as -> ->; auto. Qed.
Lemma active_files_elem d id f : (id, f) ∈ active_files library d →
  files d !! id = Some f ∧ active f = true ∧ library_of d (f_item f) = Some library.
Proof.
  unfold active_files, rows, in_library. rewrite elem_of_List_filter, elem_of_map_to_list, andb_true_iff, bool_decide_eq_true. simpl. tauto.
Qed.

(** What is known of the walk [w] before rows are deleted for it. *)
Definition ready (H : list event) (w : list string) : Prop := fullScan = true ∧ walked_ H w ∧ w ≠ [] ∧ guarded H w.
Lemma ready_later H H' w : H `prefix_of` H' → ready H w → ready H' w.
Proof. intros Hp (? & ? & ? & ?). split_and!; try done; [by eapply prefix_in|by eapply guarded_later]. Qed.

Lemma wp_delete seen l : ∀ affected H, ready H seen → (∀ id f, (id, f) ∈ l → listed H id f) →
  wp (delete_unseen seen l affected) H (λ _ H', H `prefix_of` H').
Proof.
  induction l as [|[id f] l IH]; intros affected H Hr Hl; cbn [delete_unseen]; [simpl; reflexivity|].
  destruct (mem (f_path f) seen) eqn:Hs.
  { apply IH; [done|]. intros i g Hg. apply Hl. by right. }
  intros a b r Hm. split.
  - intros i g Hi Hb. destruct (may_query _ _ _ _ Hm) as [->|(now & n & ->)]; [by rewrite Hi in Hb|].
    simpl in Hb. assert (id = i) as <-.
    { destruct (decide (id = i)); [done|]. rewrite lookup_delete_ne in Hb by done. by rewrite Hi in Hb. }
    destruct Hr as (? & ? & ? & ?). split; [done|]. split; [done|]. exists f, seen. split_and!; try done; [by apply Hl; left|].
    by apply mem_false.
  - eapply good_mono; [|apply IH].
    + intros x H' _ Hpre. etrans; [|exact Hpre]. by apply prefix_app_r.
    + eapply ready_later; [|done]. by apply prefix_app_r.
    + intros i g Hg. eapply listed_later; [by apply prefix_app_r|]. apply Hl. by right.
Qed.
Lemma wp_orphans seen H : ready H seen → wp (markOrphanedFiles library seen) H (λ _ _, True).
Proof.
  intros Hr a b r Hm. split; [by apply keeps_good|]. destruct (may_list _ _ _ Hm) as [-> [->| ->]]; [done|].
  apply good_bind. eapply good_mono; [|apply wp_delete].
  - intros affected H' _ _. eapply good_mono; [|apply wp_calm, calm_bury]. done.
  - eapply ready_later; [|done]. by apply prefix_app_r.
  - intros id f Hf. destruct (active_files_elem _ _ _ Hf) as (? & ? & ?). exists a. split_and!; try done.
    apply elem_of_app. right. by left.
Qed.
Lemma wp_pass w H : fullScan = true → walked_ H w → w ≠ [] →
  wp (orphan_pass library walkPaths roots libraryType w) H (λ _ _, True).
Proof.
  intros Hf Hw Hn a b r Hm. split; [by apply keeps_good|]. destruct (may_list _ _ _ Hm) as [-> Hr]. cbv zeta.
  set (n := match r with Got l => nfiles l | Failed => 0 end). set (H1 := H ++ _).
  assert (H `prefix_of` H1) as Hp by (by apply prefix_app_r).
  assert (∀ H' w', H1 `prefix_of` H' → walked_ H' w' → w' ≠ [] →
    wp (if (n =? 0) || enough w' n then markOrphanedFiles library w' else Ret tt) H' (λ _ _, True)) as Hlast.
  { intros H' w' Hp' Hw' Hn'. destruct ((n =? 0) || enough w' n) eqn:Hg; [|done]. apply wp_orphans. split_and!; try done.
    eapply guarded_later; [exact Hp'|]. destruct Hr as [->| ->].
    - right. exists a, a. apply elem_of_app. right. by left.
    - left. exists a. split; [apply elem_of_app; right; by left|]. apply orb_true_iff in Hg as [Hz|Hg]; [|exact Hg].
      apply Z.eqb_eq in Hz. unfold n in Hz. rewrite Hz. apply Z.leb_le. change (0 ÷ 2) with 0. unfold nfiles. lia. }
  destruct ((0 <? n) && negb (enough w n)).
  - apply good_bind. intros [] again. set (H3 := _ ++ _).
    assert (walked_ H3 w) as Hw3.
    { unfold H3, walked_. apply elem_of_app. left. apply elem_of_app. left. by eapply prefix_in. }
    assert (H1 `prefix_of` H3) as Hp3 by (by apply prefix_app_r, prefix_app_r).
    cbn [wp]. destruct again as [l|]; [|by apply Hlast]. destruct (nfiles w <? nfiles l) eqn:Hlt; [|by apply Hlast].
    apply Hlast; [done| |]. { unfold H3, walked_. apply elem_of_app. right. by left. }
    intros ->. apply Z.ltb_lt in Hlt. unfold nfiles in Hlt. simpl in Hlt. lia.
  - cbn [bind wp]. apply Hlast; [done| |done]. by eapply prefix_in.
Qed.

Lemma wp_promote H : fullScan = true → wp (PromoteExpiredMissing grace) H (λ _ _, True).
Proof.
  intros Hf now a b r Hm. split; [by apply keeps_good|].
  assert (b = a ∧ (r = Failed ∨ r = Got (missing_older (now - grace) a))) as [-> [->| ->]]; [|done|].
  { destruct Hm as (m & E). unfold call in E. destruct (outage_ m); injection E as -> ->; auto. }
  set (H2 := _ ++ _). cbn [wp]. intros a' b' r' Hm'. split; [|by destruct r'].
  intros id f Ha Hb. destruct (may_query _ _ _ _ Hm') as [->|(now' & n & ->)]; [by rewrite Ha in Hb|].
  simpl in Hb. assert (id ∈ (missing_older (now - grace) a).*1) as Hid.
  { destruct (decide (id ∈ (missing_older (now - grace) a).*1)) as [|Hid]; [done|].
    rewrite map_lookup_filter_None in Hb. destruct Hb as [Hb|Hb]; [by rewrite Ha in Hb|]. by destruct (Hb f Ha Hid). }
  split; [exact Hid|]. split; [done|].
  apply list_elem_of_fmap in Hid as ([i g] & -> & Hg). unfold missing_older in Hg.
  apply elem_of_take in Hg as (j & Hg & _). apply list_elem_of_lookup_2 in Hg.
  apply elem_of_List_filter in Hg as [Hg Ho]. apply elem_of_map_to_list in Hg. simpl in Ho. unfold older in Ho.
  apply andb_true_iff in Ho as [Ho1 Ho2]. destruct (f_missing_since g) as [t|] eqn:Et; [|done]. apply Z.ltb_lt in Ho2.
  exists now, a, g, t. unfold H2. split_and!; try done.
  - apply elem_of_app. left. apply elem_of_app. right. by left.
  - apply elem_of_app. right. by left.
  - unfold active in Ho1. apply negb_true_iff, bool_decide_eq_false in Ho1. by destruct (f_status g).
Qed.

Lemma wp_scan : wp (scan grace library libraryType walkPaths roots fullScan) [] (λ _ _, True).
Proof.
  intros [[|p w]|]; [done| |done]. set (walked := p :: w). apply good_bind.
  eapply good_mono; [|apply wp_calm, calm_files]. intros res H _ Hp.
  assert (walked_ H walked) as Hw by (eapply prefix_in; [exact Hp|by left]).
  assert (∀ H', wp (let* _ := CleanupEmptyItems library in Ret (Some res)) H' (λ _ _, True)) as Hend.
  { intros H'. apply good_bind. eapply good_mono; [|apply wp_calm, calm_steps; repeat constructor]. done. }
  destruct fullScan eqn:Hf.
  - apply good_bind. eapply good_mono; [|by apply wp_pass]. intros _ H' _ _.
    apply good_bind. eapply good_mono; [|by apply wp_promote]. intros _ H'' _ _. apply Hend.
  - cbn [bind]. intros a b r Hm. split; [by apply keeps_good|]. apply Hend.
Qed.
End Deletes.

