(* ===== verification/LibraryScanProps.v ===== *)
(** A library scan with nothing failing and nobody else at work: afterwards the
    active rows of the library are the files of the walk. *)
From S2P Require Import Prelude.
From S2P Require Import GoStrings.
From S2P Require Import Tokens.
From S2P Require Import LibraryWalk.
From S2P Require Import MediaFiles.
From S2P Require Import LibraryScan.

Local Open Scope Z_scope.

(** * Rows *)
(** The unique index on paths, the reference to the item, IDs never used before. *)
Record wf (s : DB * UUID) : Prop := mkWf {
  wf_paths : ∀ i j f g, files s.1 !! i = Some f → files s.1 !! j = Some g → f_path f = f_path g → i = j;
  wf_items : ∀ i f, files s.1 !! i = Some f → is_Some (items s.1 !! f_item f);
  wf_fresh : ∀ i f, files s.1 !! i = Some f → (i < s.2)%N }.

Lemma by_path_Some p s i f : by_path p s = Some (i, f) → files s !! i = Some f ∧ f_path f = p.
Proof.
  unfold by_path, rows. intros [Hx Hp]%find_first_Some. apply elem_of_map_to_list in Hx.
  split; [done|]. by apply String.eqb_eq in Hp.
Qed.
Lemma by_path_None p s i f : by_path p s = None → files s !! i = Some f → f_path f ≠ p.
Proof.
  unfold by_path, rows. intros Hn Hf <-. pose proof (proj1 (find_first_None _ _) Hn (i, f)) as Ha.
  simpl in Ha. rewrite String.eqb_refl in Ha. assert (true = false); [|done]. by apply Ha, elem_of_map_to_list.
Qed.
Lemma by_path_at p s i f : wf s → files s.1 !! i = Some f → f_path f = p → by_path p s.1 = Some (i, f).
Proof.
  intros Hw Hf Hp. destruct (by_path p s.1) as [[j g]|] eqn:E; [|by destruct (by_path_None p s.1 i f E Hf)].
  apply by_path_Some in E as [Hg Hq]. assert (i = j) as <- by (eapply wf_paths; [done..|congruence]). congruence.
Qed.
Lemma newest_elem l x : newest l = Some x → x ∈ l.
Proof.
  unfold newest. assert (∀ b, fold_left (λ b x, match b with
      Some y => if f_created y.2 <? f_created x.2 then Some x else b | None => Some x end) l b = Some x → b = Some x ∨ x ∈ l) as H.
  { induction l as [|y l IH]; intros b; simpl; [by left|]. intros [H|H]%IH; [|by right; right].
    destruct b as [z|]; [destruct (f_created z.2 <? f_created y.2)|]; [|by left|];
      injection H as ->; right; by left. }
  intros [|]%H; done.
Qed.
Lemma by_hash_Some h s i f : by_hash h s = Some (i, f) → files s !! i = Some f ∧ active f = false ∧ f_hash f = Some h.
Proof.
  unfold by_hash, rows, hash_is. intros Hx%newest_elem. apply elem_of_List_filter in Hx as [Hx Hp].
  apply elem_of_map_to_list in Hx. simpl in Hp. apply andb_true_iff in Hp as [Hh Ha].
  apply bool_decide_eq_true in Hh. by apply negb_true_iff in Ha.
Qed.
Lemma path_clash_false p s i : by_path p s = None → path_clash i p s = false.
Proof.
  intros Hn. unfold path_clash, rows. destruct (existsb _ _) eqn:E; [|done].
  apply existsb_exists_elem in E as ([j g] & Hj & Hp). apply elem_of_map_to_list in Hj. simpl in Hp.
  apply andb_true_iff in Hp as [Hp _]. apply String.eqb_eq in Hp. by destruct (by_path_None p s j g Hn Hj).
Qed.

(** * Items *)
(** No item lost its place in a library. *)
Definition items_grow (d d' : DB) : Prop := ∀ i l, library_of d i = Some l → library_of d' i = Some l.
#[global] Instance items_grow_preorder : PreOrder items_grow.
Proof. split; [by intros d i l|]. intros a b c H1 H2 i l H. by apply H2, H1. Qed.
Lemma mark_library P b d i : library_of (mark_items P b d) i = library_of d i.
Proof.
  unfold library_of, mark_items. simpl. rewrite map_lookup_imap. destruct (items d !! i) as [it|]; [|done]. simpl.
  by destruct (P i it).
Qed.
Lemma mark_grow P b d : items_grow d (mark_items P b d).
Proof. intros i l. by rewrite mark_library. Qed.
Lemma library_some d i : is_Some (items d !! i) ↔ is_Some (library_of d i).
Proof. unfold library_of. rewrite fmap_is_Some. done. Qed.
Lemma grow_some d d' i : items_grow d d' → is_Some (items d !! i) → is_Some (items d' !! i).
Proof. rewrite !library_some. intros H [l Hl]. exists l. by apply H. Qed.

(** * One file *)
Section Scan.
Variables (L : UUID) (w : World) (now : Z).

Definition placed (p : string) (d : DB) : Prop :=
  ∃ i f, files d !! i = Some f ∧ f_path f = p ∧ active f = true ∧ library_of d (f_item f) = Some L.

(** What a step for the file [p] leaves: its row, and every other. *)
Record step_ok (p : string) (s s' : DB * UUID) : Prop := mkStep {
  so_wf : wf s';
  so_kept : ∀ i f, files s.1 !! i = Some f → f_path f ≠ p → active f = true → files s'.1 !! i = Some f;
  so_origin : ∀ i f, files s'.1 !! i = Some f → f_path f ≠ p → files s.1 !! i = Some f;
  so_same : ∀ i f, files s.1 !! i = Some f → f_path f = p → ∃ f', files s'.1 !! i = Some f' ∧ f_path f' = p;
  so_items : items_grow s.1 s'.1 }.

Lemma step_refl p s : wf s → step_ok p s s.
Proof. intros Hw. split; try done; eauto. Qed.
Lemma step_trans p s s1 s2 : step_ok p s s1 → step_ok p s1 s2 → step_ok p s s2.
Proof.
  intros [_ K1 O1 S1 I1] [W2 K2 O2 S2 I2]. split; [done| | | |by etrans].
  - intros i f Hf Hp Ha. by apply K2; [apply K1|..].
  - intros i f Hf Hp. by apply O1; [apply O2|].
  - intros i f Hf Hp. destruct (S1 i f Hf Hp) as (g & Hg & Hq). by eapply S2.
Qed.

(** ** Statements on one row *)
(** Row [id] is in place; all others are as in [d0]. *)
Record holds (id : UUID) (p : string) (d0 d : DB) : Prop := mkHolds {
  ho_row : ∃ f, files d !! id = Some f ∧ f_path f = p ∧ active f = true ∧ library_of d (f_item f) = Some L;
  ho_rest : ∀ j, j ≠ id → files d !! j = files d0 !! j;
  ho_items : items_grow d0 d }.

Definition touches (id : UUID) (d : DB) (c : stmt) : Prop :=
  match c with
  | MarkMediaFileActive i | UpdateMediaFileHash i _ | UpdateMediaFileTechnicalMetadata i _
  | UpdateMediaFileReplayGain i _ | UpdateMediaFileNaming i _ _ => i = id
  | UpdateMediaFileItemID i it => i = id ∧ library_of d it = Some L
  | RestoreMediaItemAncestry _ => True
  | _ => False
  end.
Lemma touches_grow id d d' c : items_grow d d' → touches id d c → touches id d' c.
Proof. intros Hg. destruct c; try done. simpl. intros [-> Hl]. split; [done|]. by apply Hg. Qed.

Lemma holds_set id p d0 d u : holds id p d0 d →
  (∀ f, f_path (u f) = f_path f ∧ (active f = true → active (u f) = true)
    ∧ (library_of d (f_item f) = Some L → library_of d (f_item (u f)) = Some L)) →
  holds id p d0 (set_row id u d).
Proof.
  intros [(f & Hf & Hp & Ha & Hl) Hr Hi] Hu. destruct (Hu f) as (U1 & U2 & U3). split.
  - exists (u f). split; [simpl; by rewrite lookup_alter_eq, Hf|]. split; [congruence|]. split; [auto|].
    unfold library_of in *. simpl. auto.
  - intros j Hj. simpl. rewrite lookup_alter_ne by done. by apply Hr.
  - done.
Qed.
Lemma touches_ok id p d0 d c n : holds id p d0 d → touches id d c →
  ∃ d' a, query c now n d = (d', Got a) ∧ holds id p d0 d'.
Proof.
  intros Hh Ht. destruct c; try done; simpl in Ht; subst; cbn [query];
    try (eexists _, _; split; [reflexivity|]; apply holds_set; [done|]; intros f; by destruct f).
  - destruct Ht as [-> Hl]. assert (has_item d item = true) as ->.
    { apply bool_decide_eq_true, library_some. by eexists. }
    eexists _, _. split; [done|]. apply holds_set; [done|]. intros f. by destruct f.
  - eexists _, _. split; [done|]. destruct Hh as [(f & Hf & Hp & Ha & Hl) Hr Hi]. split; [|done|].
    + exists f. split_and!; try done. by apply mark_grow.
    + etrans; [done|]. apply mark_grow.
Qed.
Lemma touches_steps id p d0 cs : ∀ d n, holds id p d0 d → Forall (touches id d) cs →
  ∃ d' n', exec (steps cs) w now (d, n) = (true, (d', n')) ∧ holds id p d0 d' ∧ (n <= n')%N.
Proof.
  induction cs as [|c cs IH]; intros d n Hh Ht; [by exists d, n|].
  apply Forall_cons in Ht as [Hc Hcs]. cbn [steps exec fst snd].
  destruct (touches_ok id p d0 d c n Hh Hc) as (d1 & a & E & H1). rewrite E.
  destruct (IH d1 (N.succ n) H1) as (d' & n' & E' & H' & Hn).
  - assert (items_grow d d1) as Hg.
    { intros i l Hl. destruct c; try done; cbn [query] in E; repeat case_match; injection E as <-; try done. by apply mark_grow. }
    eapply Forall_impl; [exact Hcs|]. intros c'. by apply touches_grow.
  - exists d', n'. split_and!; try done. lia.
Qed.
Lemma holds_step id p s d' n' : wf s → holds id p s.1 d' → (s.2 <= n')%N → (id < n')%N →
  (∀ i f, files s.1 !! i = Some f → f_path f = p → i = id) →
  (∀ f, files s.1 !! id = Some f → f_path f = p ∨ active f = false) →
  step_ok p s (d', n') ∧ placed p d'.
Proof.
  intros Hw [(f & Hf & Hp & Ha & Hl) Hr Hi] Hn Hid H1 H2. split; [|by exists id, f].
  assert (∀ i g, files d' !! i = Some g → i ≠ id → files s.1 !! i = Some g) as Hback.
  { intros i g Hg Hne. by rewrite Hr in Hg. }
  split; simpl.
  - split; simpl.
    + intros i j g h Hg Hh Hpath. destruct (decide (i = id)) as [->|Ni], (decide (j = id)) as [->|Nj]; [done| | |].
      * rewrite Hf in Hg. injection Hg as <-. symmetry. eapply H1; [by apply Hback|congruence].
      * rewrite Hf in Hh. injection Hh as <-. eapply H1; [by apply Hback|congruence].
      * eapply (wf_paths s); [done|by apply Hback..|done].
    + intros i g Hg. destruct (decide (i = id)) as [->|Ni].
      * rewrite Hf in Hg. injection Hg as <-. apply library_some. by eexists.
      * eapply grow_some; [done|]. eapply wf_items; [done|by apply Hback].
    + intros i g Hg. destruct (decide (i = id)) as [->|Ni]; [done|]. apply Hback in Hg; [|done].
      pose proof (wf_fresh s Hw i g Hg). lia.
  - intros i g Hg Hne Hact. destruct (decide (i = id)) as [->|Ni]; [|by rewrite Hr].
    destruct (H2 g Hg); congruence.
  - intros i g Hg Hne. destruct (decide (i = id)) as [->|Ni]; [congruence|by apply Hback].
  - intros i g Hg Hpg. rewrite (H1 i g Hg Hpg). by exists f.
  - done.
Qed.

Lemma row_lt s i f : wf s → files s.1 !! i = Some f → (i < s.2)%N.
Proof. intros Hw Hf. by apply (wf_fresh s Hw i f). Qed.

Lemma exec_steps c cs s : exec (steps (c :: cs)) w now s =
  match query c now s.2 s.1 with
  | (d, Got _) => exec (steps cs) w now (d, N.succ s.2)
  | (d, Failed) => (false, (d, N.succ s.2))
  end.
Proof. cbn [steps exec]. by destruct (query c now s.2 s.1) as [d []]. Qed.

(** ** The upsert *)
Lemma start_known s i f p : wf s → files s.1 !! i = Some f → f_path f = p → library_of s.1 (f_item f) = Some L →
  holds i p s.1 (query (MarkMediaFileActive i) now s.2 s.1).1.
Proof.
  intros Hw Hf Hp Hl. split.
  - eexists. simpl. rewrite lookup_alter_eq, Hf. split; [done|]. by destruct f.
  - intros j Hj. simpl. by rewrite lookup_alter_ne.
  - by intros x l.
Qed.
Lemma known_steps s i f p prm : wf s → files s.1 !! i = Some f → f_path f = p → library_of s.1 (f_item f) = Some L →
  library_of s.1 (p_item prm) = Some L →
  ∃ s', exec (steps (update_known i f prm)) w now s = (true, s') ∧ step_ok p s s' ∧ placed p s'.1.
Proof.
  intros Hw Hf Hp Hl Hi. unfold update_known. cbn [app]. rewrite exec_steps.
  pose proof (start_known s i f p Hw Hf Hp Hl) as H0. cbn [query fst] in *. set (d1 := set_row i _ s.1) in *.
  match goal with |- context [exec (steps ?cs) _ _ _] => destruct (touches_steps i p s.1 cs d1 (N.succ s.2) H0) as (d' & n' & E & H' & Hn) end.
  { assert (library_of d1 (p_item prm) = Some L) by done.
    repeat (apply Forall_app; split); repeat case_match; repeat constructor; done. }
  exists (d', n'). split; [exact E|]. pose proof (row_lt s i f Hw Hf). apply (holds_step i); try done; [lia|lia| |].
  - intros j g Hg Hpg. eapply (wf_paths s); [done..|congruence].
  - intros g Hg. left. congruence.
Qed.
Lemma moved_steps s i f p prm : wf s → files s.1 !! i = Some f → active f = false → by_path p s.1 = None → p_path prm = p →
  library_of s.1 (f_item f) = Some L →
  ∃ s', exec (steps (update_moved i f prm)) w now s = (true, s') ∧ step_ok p s s' ∧ placed p s'.1.
Proof.
  intros Hw Hf Ha Hp Hpp Hl. unfold update_moved. cbn [app]. rewrite exec_steps. cbn [query].
  rewrite Hpp, path_clash_false by done. set (d1 := set_row i _ s.1).
  assert (holds i p s.1 d1) as H0.
  { split.
    - eexists. unfold d1. simpl. rewrite lookup_alter_eq, Hf. split; [done|]. by destruct f.
    - intros j Hj. unfold d1. simpl. by rewrite lookup_alter_ne.
    - by intros x l. }
  rewrite exec_steps. cbn [query fst snd].
  assert (holds i p s.1 (revive d1 (f_item f))) as H1.
  { destruct (touches_ok i p s.1 d1 (RestoreMediaItemAncestry (f_item f)) (N.succ s.2) H0 I) as (d' & a & E & H').
    cbn [query] in E. by injection E as <- _. }
  match goal with |- context [exec (steps ?cs) _ _ _] => destruct (touches_steps i p s.1 cs _ (N.succ (N.succ s.2)) H1) as (d' & n' & E & H' & Hn) end.
  { case_match; repeat constructor. }
  exists (d', n'). split; [exact E|]. pose proof (row_lt s i f Hw Hf). apply (holds_step i); try done; [lia|lia| |].
  - intros j g Hg Hpg. by destruct (by_path_None p s.1 j g Hp Hg).
  - intros g Hg. right. congruence.
Qed.
Lemma create_steps s p prm : wf s → by_path p s.1 = None → p_path prm = p → library_of s.1 (p_item prm) = Some L →
  ∃ id s', exec (create_new prm) w now s = (Some (id, true), s') ∧ step_ok p s s' ∧ placed p s'.1.
Proof.
  intros Hw Hp Hpp Hl. unfold create_new. cbn [exec query p_path p_item]. unfold path_free. rewrite Hpp, Hp.
  assert (has_item s.1 (p_item prm) = true) as -> by (apply bool_decide_eq_true, library_some; by eexists).
  cbn [andb]. set (row := new_row now _). set (d1 := _ <| files ::= _ |>). cbn iota. cbn [exec query fst snd].
  assert (holds s.2 p s.1 d1) as H0.
  { split.
    - exists row. unfold d1. simpl. rewrite lookup_insert_eq. split; [done|]. split; [by rewrite <-Hpp|]. split; [done|exact Hl].
    - intros j Hj. unfold d1. simpl. by rewrite lookup_insert_ne.
    - by intros x l. }
  destruct (touches_ok s.2 p s.1 d1 (RestoreMediaItemAncestry (f_item row)) (N.succ s.2) H0 I) as (d' & a & E & H').
  cbn [query] in E. injection E as E _. subst d'. exists s.2, (revive d1 (f_item row), N.succ (N.succ s.2)). split; [done|].
  apply (holds_step s.2); try done; [lia|lia| |].
  - intros j g Hg Hpg. by destruct (by_path_None p s.1 j g Hp Hg).
  - intros g Hg. pose proof (row_lt s s.2 g Hw Hg). lia.
Qed.

(** The scan's parsers resolve a file to an item of the library; they leave
    files alone and move no item to another library. *)
Definition owns : Prop := ∀ t p d,
  files (w_own w t p d).1 = files d ∧ items_grow d (w_own w t p d).1
  ∧ ∀ o, (w_own w t p d).2 = Some o → library_of (w_own w t p d).1 (r_item o) = Some L.
Hypothesis Hown : owns.
Variable libraryType : string.

(** A file the scan can read, find an owner for, and may index. *)
Definition readable (p : string) : Prop :=
  is_Some (w_stat w p) ∧ w_probe w p ≠ ErrUnsafeContainer ∧ ∀ d, is_Some (w_own w libraryType p d).2.
(** The rows a file may take over are the library's: the one with its path, the
    missing ones with its hash. *)
Definition mine (p : string) (d : DB) : Prop :=
  ∀ i f, files d !! i = Some f →
    f_path f = p ∨ active f = false ∧ f_hash f = w_hash w p ∧ is_Some (f_hash f) → library_of d (f_item f) = Some L.
Lemma mine_grow p d d' : items_grow d d' → files d' = files d → mine p d → mine p d'.
Proof. intros Hg Hf Hm i f Hi Hc. rewrite Hf in Hi. by apply Hg, (Hm i f). Qed.

Lemma upsert_places p prm s : wf s → p_path prm = p → library_of s.1 (p_item prm) = Some L → p_hash prm = w_hash w p → mine p s.1 →
  ∃ r s', exec (CreateOrUpdateFile prm) w now s = (Some r, s') ∧ step_ok p s s' ∧ placed p s'.1.
Proof.
  intros Hw Hp Hi Hh Hm. unfold CreateOrUpdateFile. cbn [exec query]. rewrite Hp.
  assert (∀ s', s'.1 = s.1 → wf s → (s.2 <= s'.2)%N → wf s') as Hwf.
  { intros [d n] ? [] ?; simpl in *; subst. split; simpl; eauto. intros. eapply N.lt_le_trans; eauto. }
  assert (∀ k s', s'.1 = s.1 → (s.2 <= s'.2)%N → step_ok p s' k → step_ok p s k) as Hst.
  { intros k [d n] ? _ []; simpl in *; subst. by split. }
  pose (s1 := (s.1, N.succ s.2)). assert (wf s1) as Hw1 by (apply Hwf; simpl; [done..|lia]).
  destruct (by_path p s.1) as [[i f]|] eqn:Eb.
  - apply by_path_Some in Eb as [Hf Hpf]. lazy beta iota. rewrite exec_bind. change (_, N.succ s.2) with s1.
    destruct (known_steps s1 i f p prm) as (s' & E & H1 & H2); try done. { apply (Hm i f); [done|by left]. }
    rewrite E. exists (i, false), s'. split; [done|]. split; [|done]. apply (Hst s' s1); [done|simpl; lia|done].
  - rewrite Hh. destruct (w_hash w p) as [h|] eqn:Eh.
    2: { destruct (create_steps s1 p prm) as (id & s' & E & H1 & H2); try done. exists (id, true), s'.
         split; [done|]. split; [|done]. apply (Hst s' s1); [done|simpl; lia|done]. }
    cbn [exec query fst snd]. pose (s2 := (s.1, N.succ (N.succ s.2))). assert (wf s2) as Hw2 by (apply Hwf; simpl; [done..|lia]).
    destruct (by_hash h s.1) as [[i f]|] eqn:Ehash.
    + apply by_hash_Some in Ehash as (Hf & Ha & Hhf). lazy beta iota. rewrite exec_bind. change (_, N.succ (N.succ s.2)) with s2.
      destruct (moved_steps s2 i f p prm) as (s' & E & H1 & H2); try done.
      { apply (Hm i f); [done|]. right. rewrite Eh, Hhf. by split_and!. }
      rewrite E. exists (i, false), s'. split; [done|]. split; [|done]. apply (Hst s' s2); [done|simpl; lia|done].
    + destruct (create_steps s2 p prm) as (id & s' & E & H1 & H2); try done. exists (id, true), s'.
      split; [done|]. split; [|done]. apply (Hst s' s2); [done|simpl; lia|done].
Qed.

Lemma own_step p s : wf s → step_ok p s ((w_own w libraryType p s.1).1, s.2).
Proof.
  intros Hw. destruct (Hown libraryType p s.1) as (Hf & Hg & _). pose proof Hw as [W1 W2 W3].
  split; simpl; rewrite ?Hf; try done; eauto. split; simpl; rewrite ?Hf; [done| |done].
  intros i f Hi. by eapply grow_some, W2.
Qed.

Lemma read_ok p size h ex s : wf s → readable p → mine p s.1 → h = w_hash w p →
  ∃ id b s', exec (read_file libraryType p size h ex) w now s = (Indexed id b, s') ∧ step_ok p s s' ∧ placed p s'.1.
Proof.
  intros Hw (_ & Hpr & Ho) Hm ->. unfold read_file, probe_file. cbn [exec ask_world].
  assert (∀ t a, ∃ id b s', exec (Own libraryType p (λ r, match r with
      | None => Ret FileError
      | Some o => let* u := CreateOrUpdateFile
            (mkParams (r_item o) p size t a (w_hash w p) (r_edition o) (r_part o) (default no_gain (r_gain o))
               (bool_decide (is_Some (r_gain o)))) in
          match u with Some (id, isNew) => Ret (Indexed id isNew) | None => Ret FileError end
      end)) w now s = (Indexed id b, s') ∧ step_ok p s s' ∧ placed p s'.1) as Hk.
  { intros t a. cbn [exec]. pose proof (own_step p s Hw) as Hs. destruct (Hown libraryType p s.1) as (Hf & Hg & Hl).
    destruct (Ho s.1) as [o Eo]. destruct (w_own w libraryType p s.1) as [d1 r]. cbn [fst snd] in *. subst r. lazy beta iota. rewrite exec_bind.
    destruct (upsert_places p (mkParams (r_item o) p size t a (w_hash w p) (r_edition o) (r_part o)
                (default no_gain (r_gain o)) (bool_decide (is_Some (r_gain o)))) (d1, s.2)) as ([id b] & s' & E & H1 & H2).
    - by destruct Hs.
    - done.
    - by apply Hl.
    - done.
    - by eapply mine_grow.
    - rewrite E. exists id, b, s'. split; [done|]. split; [|done]. by eapply step_trans. }
  destruct (w_probe w p) as [t a| |]; [apply Hk|apply Hk|done].
Qed.

Lemma step_later p s n : wf s → (s.2 <= n)%N → step_ok p s (s.1, n).
Proof.
  intros Hw Hn. pose proof Hw as [W1 W2 W3]. split; simpl; eauto; [|done]. split; simpl; eauto.
  intros i f Hi. specialize (W3 i f Hi). lia.
Qed.
Lemma resolve_same p f s : ∃ b, exec (resolveUnchangedFile p f) w now s = (b, (s.1, N.succ s.2)).
Proof.
  unfold resolveUnchangedFile. cbn [exec query fst snd].
  destruct (items s.1 !! f_item f) as [it|]; [destruct (i_deleted it)|]; cbn [exec]; by eexists.
Qed.
(** A row marked active again, and its items brought back if it was not. *)
Lemma woken p s i f (always : bool) : wf s → files s.1 !! i = Some f → f_path f = p → library_of s.1 (f_item f) = Some L →
  (always = true ∨ active f = false) →
  ∃ s', exec (MarkMediaFileActive i ;; (if always && active f then Ret tt else (RestoreMediaItemAncestry (f_item f) ;; Ret tt))) w now s
    = (tt, s') ∧ step_ok p s s' ∧ placed p s'.1.
Proof.
  intros Hw Hf Hp Hl Hal. pose proof (start_known s i f p Hw Hf Hp Hl) as H0. pose proof (row_lt s i f Hw Hf) as Hi.
  assert (∀ d' n', holds i p s.1 d' → (s.2 <= n')%N → step_ok p s (d', n') ∧ placed p d') as Hstep.
  { intros d' n' H' Hn. apply (holds_step i); try done; [lia| |].
    - intros j g Hg Hpg. eapply (wf_paths s); [done..|congruence].
    - intros g Hg. left. congruence. }
  cbn [exec]. cbn [query fst snd] in *. destruct (always && active f) eqn:Ea; cbn [exec query fst snd].
  - eexists. split; [done|]. apply Hstep; [done|lia].
  - eexists. split; [done|]. apply Hstep; [|lia].
    destruct (touches_ok i p s.1 _ (RestoreMediaItemAncestry (f_item f)) (N.succ s.2) H0 I) as (d' & a & E & H').
    cbn [query] in E. by injection E as <- _.
Qed.

(** The row found for the path. *)
Definition found (p : string) (s : DB * UUID) (ex : option (UUID * FileRow)) : Prop :=
  match ex with
  | Some (i, f) => files s.1 !! i = Some f ∧ f_path f = p
  | None => by_path p s.1 = None
  end.
Lemma mine_step p q d d' : (∀ i f, files d' !! i = Some f → f_path f ≠ p → files d !! i = Some f) → items_grow d d' →
  placed p d' → (∀ i j f g, files d' !! i = Some f → files d' !! j = Some g → f_path f = f_path g → i = j) → mine q d → mine q d'.
Proof.
  intros Ho Hg (k & r & Hk & Hpk & _ & Hl) Hu Hm i f Hi Hc. destruct (decide (f_path f = p)) as [E|Hne].
  - assert (i = k) as -> by (eapply Hu; [done..|congruence]). congruence.
  - apply Hg, (Hm i f); [by apply Ho|]. exact Hc.
Qed.

Lemma finish_file p size h ex f s s1 : wf s → readable p → mine p s.1 → h = w_hash w p → step_ok p s s1 → placed p s1.1 →
  ∃ r s', exec (let* skip := resolveUnchangedFile p f in
                if skip : bool then Ret Unchanged else read_file libraryType p size h ex) w now s1 = (r, s')
    ∧ r ≠ FileError ∧ step_ok p s s' ∧ placed p s'.1.
Proof.
  intros Hw Hr Hm Hh Hs Hp. rewrite exec_bind. destruct (resolve_same p f s1) as [b ->].
  pose proof (so_wf _ _ _ Hs) as Hw1.
  assert (step_ok p s (s1.1, N.succ s1.2)) as Hs' by (eapply step_trans; [done|]; apply step_later; [done|lia]).
  destruct b; [by eexists _, _|].
  destruct (read_ok p size h ex (s1.1, N.succ s1.2)) as (id & b & s' & E & H1 & H2); try done.
  - by destruct Hs'.
  - destruct Hs as [[W1 _ _] _ O _ I]. by eapply (mine_step p).
  - rewrite E. exists (Indexed id b), s'. split_and!; try done. by eapply step_trans.
Qed.

Lemma hash_ok p size mt ex healing s : wf s → readable p → mine p s.1 → healing = true ∨ found p s ex →
  ∃ r s', exec (hash_file libraryType p size mt ex healing) w now s = (r, s') ∧ r ≠ FileError ∧ step_ok p s s' ∧ placed p s'.1.
Proof.
  intros Hw Hr Hm Hf. unfold hash_file. cbn [exec ask_world].
  assert (∃ r s', exec (read_file libraryType p size (w_hash w p) ex) w now s = (r, s') ∧ r ≠ FileError ∧ step_ok p s s' ∧ placed p s'.1) as Hread.
  { destruct (read_ok p size (w_hash w p) ex s) as (id & b & s' & E & H1 & H2); try done. by exists (Indexed id b), s'. }
  destruct (w_hash w p) as [h|] eqn:Eh; [|done]. destruct ex as [[i f]|]; [|done]. destruct Hf as [->|[Hf Hpf]]; [done|].
  destruct (negb healing && hash_skips libraryType && hash_unchanged f h p); [|done].
  destruct (woken p s i f true Hw Hf Hpf) as (s1 & E & H1 & H2); [apply (Hm i f); [done|by left]|by left|].
  destruct (finish_file p size (Some h) (Some (i, f)) f s s1) as (r & s' & E' & Hn & H3 & H4); try done.
  exists r, s'. split; [|done]. rewrite <-E'. clear E'. cbn [exec bind] in *. cbn [query fst snd andb] in *.
  destruct (active f); cbn [exec bind query fst snd] in *; injection E as <-; done.
Qed.
Lemma process_file_ok p s : wf s → readable p → mine p s.1 →
  ∃ r s', exec (processFile libraryType p) w now s = (r, s') ∧ r ≠ FileError ∧ step_ok p s s' ∧ placed p s'.1.
Proof.
  intros Hw Hr Hm. pose proof Hr as ([[size mt] Est] & _). unfold processFile. cbn [exec ask_world]. rewrite Est. cbn [exec query fst snd].
  pose (s1 := (s.1, N.succ s.2)). assert (step_ok p s s1) as H0 by (apply step_later; [done|lia]).
  pose proof (so_wf _ _ _ H0) as Hw1.
  assert (∀ ex b, found p s1 ex → ∃ r s', exec (hash_file libraryType p size mt ex b) w now s1 = (r, s')
     ∧ r ≠ FileError ∧ step_ok p s s' ∧ placed p s'.1) as Hhash.
  { intros ex b Hf. destruct (hash_ok p size mt ex b s1) as (r & s' & E & H1 & H2 & H3); try done; [by right|].
    exists r, s'. split_and!; try done. by eapply step_trans. }
  destruct (by_path p s.1) as [[i f]|] eqn:Eb; [|apply Hhash; exact Eb].
  apply by_path_Some in Eb as [Hf Hpf]. destruct (stat_unchanged f size mt); [|by apply Hhash].
  assert (∃ s2, exec (if active f then Ret tt else (MarkMediaFileActive i ;; RestoreMediaItemAncestry (f_item f) ;; Ret tt)) w now s1
     = (tt, s2) ∧ step_ok p s s2 ∧ placed p s2.1) as (s2 & E & H2 & H3).
  { assert (library_of s.1 (f_item f) = Some L) as Hl by (apply (Hm i f); [done|by left]).
    destruct (active f) eqn:Ea; [exists s1; split_and!; try done; by exists i, f|].
    destruct (woken p s1 i f false) as (s2 & E & H1 & H2); try done; [by right|].
    exists s2. split_and!; try done. by eapply step_trans. }
  rewrite exec_bind. change (_, N.succ s.2) with s1. rewrite E, exec_bind. destruct (resolve_same p f s2) as [b ->].
  pose proof (so_wf _ _ _ H2) as Hw2.
  assert (step_ok p s (s2.1, N.succ s2.2)) as H4 by (eapply step_trans; [done|]; apply step_later; [done|lia]).
  destruct b; [by eexists _, _|].
  destruct (hash_ok p size mt (Some (i, f)) true (s2.1, N.succ s2.2)) as (r & s' & E' & Hn & H5 & H6); try done.
  - by destruct H4.
  - destruct H2 as [[W1 _ _] _ O _ I]. by eapply (mine_step p).
  - by left.
  - exists r, s'. split_and!; try done. by eapply step_trans.
Qed.

(** * All files *)
Lemma placed_step p q s s' : step_ok p s s' → placed p s'.1 → placed q s.1 → placed q s'.1.
Proof.
  intros Hs Hp (i & f & Hf & <- & Ha & Hl). destruct (decide (f_path f = p)) as [->|Hne]; [done|].
  exists i, f. split; [by eapply so_kept|]. split_and!; try done. by eapply so_items.
Qed.

(** What the file pass leaves. *)
Record files_ok (paths : list string) (s s' : DB * UUID) : Prop := mkFiles {
  fo_wf : wf s';
  fo_placed : Forall (λ p, placed p s'.1) paths;
  fo_grow : items_grow s.1 s'.1;
  fo_origin : ∀ i f, files s'.1 !! i = Some f → f_path f ∉ paths → files s.1 !! i = Some f;
  fo_kept : ∀ i f, files s.1 !! i = Some f → f_path f ∉ paths → active f = true → files s'.1 !! i = Some f;
  fo_same : ∀ i f, files s.1 !! i = Some f → active f = true →
    ∃ f', files s'.1 !! i = Some f' ∧ f_path f' = f_path f ∧ active f' = true }.

Lemma same_step p s s' i f : step_ok p s s' → placed p s'.1 → files s.1 !! i = Some f → active f = true →
  ∃ f', files s'.1 !! i = Some f' ∧ f_path f' = f_path f ∧ active f' = true.
Proof.
  intros Hs (k & g & Hg & Hpg & Ha & _) Hf Hact. destruct (decide (f_path f = p)) as [E|Hne].
  - destruct (so_same _ _ _ Hs i f Hf E) as (f' & Hf' & Hp').
    assert (i = k) as -> by (eapply (wf_paths s'); [by eapply so_wf|done..|congruence]).
    exists g. split_and!; [done|congruence|done].
  - exists f. split_and!; try done. by eapply so_kept.
Qed.
Lemma files_cons p paths s s1 s' : step_ok p s s1 → placed p s1.1 → files_ok paths s1 s' → files_ok (p :: paths) s s'.
Proof.
  intros H1 Hp [W P G O K S]. split; [done| | | | |].
  - constructor; [|done]. destruct (decide (p ∈ paths)) as [Hin|Hnin]; [by rewrite Forall_forall in P; apply P|].
    destruct Hp as (i & f & Hf & Hpf & Ha & Hl). exists i, f. split; [apply K; [done|by rewrite Hpf|done]|].
    split_and!; try done. by apply G.
  - etrans; [by eapply so_items|done].
  - intros i f Hf [Hne Hni]%not_elem_of_cons. apply (so_origin _ _ _ H1); [by apply O|done].
  - intros i f Hf [Hne Hni]%not_elem_of_cons Ha. apply K; try done. by eapply so_kept.
  - intros i f Hf Ha. destruct (same_step p s s1 i f) as (f1 & Hf1 & E1 & A1); try done.
    destruct (S i f1 Hf1 A1) as (f' & ? & ? & ?). exists f'. split_and!; try done. congruence.
Qed.

Lemma process_all paths : ∀ s acc, wf s → Forall readable paths → Forall (λ p, mine p s.1) paths →
  ∃ new s', exec (process_files libraryType paths acc) w now s = (mkResult (Found acc + nfiles paths) new, s')
    ∧ files_ok paths s s'.
Proof.
  induction paths as [|p paths IH]; intros s acc Hw Hr Hm.
  - exists (New acc), s. split.
    + cbn [process_files exec]. unfold nfiles. simpl. rewrite Z.add_0_r. by destruct acc.
    + split; try done; eauto.
  - apply Forall_cons in Hr as [Hr Hrs]. apply Forall_cons in Hm as [Hm Hms]. cbn [process_files]. rewrite exec_bind.
    destruct (process_file_ok p s Hw Hr Hm) as (r & s1 & -> & Hn & H1 & H2).
    set (acc' := match r with FileError => acc | _ => _ end).
    assert (Found acc' = Found acc + 1) as Ha by (unfold acc'; destruct r as [| |id []]; done).
    destruct (IH s1 acc') as (new & s' & -> & Hok); try done.
    { by eapply so_wf. }
    { eapply Forall_impl; [exact Hms|]. intros q Hq. destruct H1 as [[W1 _ _] _ O _ I]. by eapply (mine_step p). }
    exists new, s'. split; [|by eapply files_cons]. f_equal. f_equal. rewrite Ha. unfold nfiles. simpl. lia.
Qed.

(** * Rows without a file *)
Definition unseen (paths : list string) (d : DB) : list (UUID * FileRow) :=
  List.filter (λ r, negb (mem (f_path r.2) paths)) (active_files L d).

Lemma active_elem d i f : (i, f) ∈ active_files L d ↔
  files d !! i = Some f ∧ active f = true ∧ library_of d (f_item f) = Some L.
Proof.
  unfold active_files, rows, in_library. rewrite elem_of_List_filter, elem_of_map_to_list, andb_true_iff, bool_decide_eq_true. simpl. tauto.
Qed.
Lemma active_NoDup d : NoDup (active_files L d).
Proof. apply NoDup_List_filter, NoDup_map_to_list. Qed.
Lemma NoDup_incl {A} (l k : list A) : NoDup l → (∀ x, x ∈ l → x ∈ k) → (length l ≤ length k)%nat.
Proof. intros Hn Hi. by apply submseteq_length, NoDup_submseteq. Qed.

(** The mount guard passes when no more rows are without a file than with one. *)
Lemma guard_passes paths s s1 : files_ok paths s s1 → (∀ i f, files s.1 !! i = Some f → is_Some (items s.1 !! f_item f)) →
  nfiles (unseen paths s.1) <= nfiles paths → enough paths (nfiles (active_files L s1.1)) = true.
Proof.
  intros [W P G O K S] Hit Hu. unfold enough. apply Z.leb_le. unfold nfiles in *.
  pose proof (filter_length (λ r : UUID * FileRow, mem (f_path r.2) paths) (active_files L s1.1)) as Hlen.
  assert (length (List.filter (λ r : UUID * FileRow, mem (f_path r.2) paths) (active_files L s1.1)) ≤ length paths)%nat as H1.
  { rewrite <-(length_map (λ r : UUID * FileRow, f_path r.2)). apply NoDup_incl.
    - apply NoDup_fmap_2_strong; [|by apply NoDup_List_filter, active_NoDup].
      intros [i f] [j g] [Hi _]%elem_of_List_filter [Hj _]%elem_of_List_filter Hp. simpl in Hp. apply active_elem in Hi as [Hi _], Hj as [Hj _].
      assert (i = j) as -> by (by eapply (wf_paths s1)). congruence.
    - intros x (r & -> & Hr)%list_elem_of_fmap. apply elem_of_List_filter in Hr as [_ Hr]. by apply mem_spec in Hr. }
  assert (length (List.filter (λ r : UUID * FileRow, negb (mem (f_path r.2) paths)) (active_files L s1.1)) ≤ length (unseen paths s.1))%nat as H2.
  { apply NoDup_incl; [by apply NoDup_List_filter, active_NoDup|]. intros [i f] [Hi Hm]%elem_of_List_filter.
    apply elem_of_List_filter. split; [|done]. apply active_elem in Hi as (Hi & Ha & Hl). apply active_elem.
    apply negb_true_iff, mem_false in Hm. pose proof (O i f Hi Hm) as Ho. split_and!; try done.
    destruct (proj1 (library_some s.1 (f_item f)) (Hit i f Ho)) as [l El]. pose proof (G _ _ El). congruence. }
  apply Z.quot_le_upper_bound; lia.
Qed.

Definition same_files (d d' : DB) : Prop := files d' = files d ∧ ∀ i, library_of d' i = library_of d i.
Lemma same_mark P b d d0 : same_files d0 d → same_files d0 (mark_items P b d).
Proof. intros [Hf Hl]. split; [done|]. intros i. by rewrite mark_library. Qed.
Lemma bury_same l : ∀ s, ∃ d' n', exec (bury_each l) w now s = (tt, (d', n')) ∧ same_files s.1 d'.
Proof.
  induction l as [|i l IH]; intros s; [by exists s.1, s.2; destruct s|]. cbn [bury_each exec query].
  destruct (IH (bury_if_empty i s.1, N.succ s.2)) as (d' & n' & -> & Hf & Hl). exists d', n'. split; [done|]. simpl in *.
  unfold bury_if_empty in *. destruct (has_file _ _ i); [done|]. destruct (same_mark (λ k _, N.eqb k i) true s.1 s.1) as [E1 E2]; [done|].
  split; [congruence|]. intros j. by rewrite Hl.
Qed.
Lemma delete_exec seen l : ∀ affected s, ∃ affected' d' n', exec (delete_unseen seen l affected) w now s = (affected', (d', n'))
  ∧ items d' = items s.1
  ∧ ∀ i f, files d' !! i = Some f ↔ files s.1 !! i = Some f ∧ ∀ g, (i, g) ∈ l → f_path g ∈ seen.
Proof.
  induction l as [|[j h] l IH]; intros affected s; cbn [delete_unseen].
  - exists affected, s.1, s.2. split; [by destruct s|]. split; [done|]. intros i f. split; [|by intros []].
    intros Hf. split; [done|]. by intros g ?%elem_of_nil.
  - destruct (mem (f_path h) seen) eqn:Hs.
    + apply mem_spec in Hs. destruct (IH affected s) as (a & d' & n' & E & Hi & Hf). exists a, d', n'. split; [done|]. split; [done|].
      intros i f. rewrite Hf. split; (intros [H1 H2]; split; [done|]).
      * intros g [[= -> ->]|Hg]%elem_of_cons; [done|by apply H2].
      * intros g Hg. apply H2. by right.
    + apply mem_false in Hs. cbn [exec query]. 
      match goal with |- context [exec (delete_unseen seen l ?a) _ _ (?d, ?n)] => destruct (IH a (d, n)) as (a' & d' & n' & E & Hi & Hf) end.
      exists a', d', n'. split; [exact E|]. split; [done|]. intros i f. rewrite Hf. simpl. rewrite lookup_delete_Some. split.
      * intros [[Hne H1] H2]. split; [done|]. intros g [[= -> ->]|Hg]%elem_of_cons; [done|by apply H2].
      * intros [H1 H2]. split; [split; [|done]|].
        { intros ->. destruct Hs. apply (H2 h). by left. }
        intros g Hg. apply H2. by right.
Qed.
Lemma orphans_exec seen s : ∃ d' n', exec (markOrphanedFiles L seen) w now s = (tt, (d', n'))
  ∧ (∀ i, library_of d' i = library_of s.1 i)
  ∧ ∀ i f, files d' !! i = Some f ↔
      files s.1 !! i = Some f ∧ (active f = true → library_of s.1 (f_item f) = Some L → f_path f ∈ seen).
Proof.
  unfold markOrphanedFiles. cbn [exec query]. rewrite exec_bind.
  destruct (delete_exec seen (active_files L s.1) [] (s.1, N.succ s.2)) as (a & d1 & n1 & E & Hi & Hf).
  lazy beta iota. rewrite E. destruct (bury_same a (d1, n1)) as (d' & n' & -> & Hf' & Hl). exists d', n'. split; [done|].
  simpl in *. split; [intros i; rewrite Hl; unfold library_of; by rewrite Hi|]. intros i f. rewrite Hf', Hf.
  split; intros [H1 H2]; (split; [done|]).
  - intros Ha Hlib. apply (H2 f), active_elem. by split_and!.
  - intros g Hg. apply active_elem in Hg as (Hg & Ha & Hlib). assert (f = g) as -> by congruence. by apply H2.
Qed.

Lemma promote_exec grace s : ∃ r d' n', exec (PromoteExpiredMissing grace) w now s = (r, (d', n'))
  ∧ (∀ i, library_of d' i = library_of s.1 i)
  ∧ (∀ i f, files d' !! i = Some f → files s.1 !! i = Some f)
  ∧ (∀ i f, files s.1 !! i = Some f → active f = true → files d' !! i = Some f).
Proof.
  unfold PromoteExpiredMissing. cbn [exec ask_world query fst snd]. lazy beta iota. cbn [exec query fst snd].
  eexists _, _, _. split; [done|]. split_and!.
  - intros i. unfold purge. by rewrite mark_library.
  - intros i f. simpl. by intros [? _]%map_lookup_filter_Some.
  - intros i f Hf Ha. simpl. apply map_lookup_filter_Some. split; [done|]. simpl.
    intros ([j g] & -> & Hg)%list_elem_of_fmap. unfold missing_older in Hg.
    apply elem_of_take in Hg as (k & Hg & _). apply list_elem_of_lookup_2 in Hg.
    apply elem_of_List_filter in Hg as [Hg Ho]. apply elem_of_map_to_list in Hg. simpl in *.
    assert (f = g) as -> by congruence. unfold older in Ho. by rewrite Ha in Ho.
Qed.

(** A live leaf item of the library has an active file. *)
Definition no_empty_leaf (d : DB) : Prop :=
  ∀ i it, items d !! i = Some it → i_library it = L → i_deleted it = false → i_type it ∈ leaf_types →
    ∃ j f, files d !! j = Some f ∧ f_item f = i ∧ active f = true.
Lemma mark_lookup P b d i it : items (mark_items P b d) !! i = Some it →
  ∃ it0, items d !! i = Some it0 ∧ it = (if P i it0 then it0 <| i_deleted := b |> else it0).
Proof.
  unfold mark_items. simpl. rewrite map_lookup_imap. destruct (items d !! i) as [it0|]; [|done].
  intros [= <-]. by exists it0.
Qed.
Lemma bury_no_empty d : no_empty_leaf (bury_leaves L d).
Proof.
  intros i it Hi Hl Hd Ht. destruct (mark_lookup _ _ _ _ _ Hi) as (it0 & H0 & ->).
  set (P := N.eqb (i_library it0) L && negb (i_deleted it0) && mem (i_type it0) leaf_types
            && negb (has_file d (λ _ f, active f) i)) in *.
  destruct P eqn:E; [by destruct it0|]. subst P. rewrite Hl, N.eqb_refl, Hd in E. apply mem_spec in Ht. rewrite Ht in E. simpl in E.
  apply negb_false_iff in E. unfold has_file, rows in E. apply existsb_exists_elem in E as ([j f] & Hj & Hf).
  apply elem_of_map_to_list in Hj. simpl in Hf. apply andb_true_iff in Hf as [Hf Ha]. apply N.eqb_eq in Hf. by exists j, f.
Qed.
Lemma containers_no_empty d : no_empty_leaf d → no_empty_leaf (bury_containers L d).
Proof.
  intros Hn i it Hi Hl Hd Ht. destruct (mark_lookup _ _ _ _ _ Hi) as (it0 & H0 & ->).
  destruct (_ && _) in *; [by destruct it0|]. by apply (Hn i it0).
Qed.
Lemma cleanup_exec s : ∃ d' n', exec (CleanupEmptyItems L) w now s = (true, (d', n')) ∧ same_files s.1 d' ∧ no_empty_leaf d'.
Proof.
  unfold CleanupEmptyItems. rewrite !exec_steps. cbn [query fst snd steps exec]. eexists _, _. split; [done|]. split.
  - unfold bury_containers at 1 2. by repeat apply same_mark.
  - by apply containers_no_empty, containers_no_empty, bury_no_empty.
Qed.

(** * The scan *)
(** A scan mirrors the disk: with nothing failing and nobody else at work, after
    a full scan whose walk found the files [paths], all readable, and at least as
    many of them as the library has active rows whose file is gone, the active
    rows of the library are exactly those files; a row that was active under one
    of their paths is the same row as before; no active row of another library
    has gone; no live item that should have a file is without an active one. *)
Lemma full_scan_mirrors_disk grace roots paths s :
  wf s → paths ≠ [] → walkLibraryFiles (w_store w) roots roots libraryType = Some paths →
  Forall readable paths → Forall (λ p, mine p s.1) paths → nfiles (unseen paths s.1) <= nfiles paths →
  ∃ new s', exec (ScanLibrary grace L libraryType roots) w now s = (Some (mkResult (nfiles paths) new), s')
    ∧ (∀ p, placed p s'.1 ↔ p ∈ paths)
    ∧ (∀ i f, files s.1 !! i = Some f → active f = true → f_path f ∈ paths →
         ∃ f', files s'.1 !! i = Some f' ∧ f_path f' = f_path f ∧ active f' = true)
    ∧ (∀ i f, files s.1 !! i = Some f → active f = true → f_path f ∉ paths → library_of s.1 (f_item f) ≠ Some L →
         files s'.1 !! i = Some f)
    ∧ no_empty_leaf s'.1.
Proof.
  intros Hw Hne Hwalk Hr Hm Hu. unfold ScanLibrary, scan. cbn [exec ask_world]. rewrite Hwalk.
  destruct paths as [|p0 ps]; [done|]. set (paths := p0 :: ps) in *. rewrite exec_bind.
  destruct (process_all paths s (mkResult 0 0)) as (new & s1 & -> & Hok); [done..|]. simpl (Found _ + _).
  pose proof (guard_passes paths s s1 Hok (wf_items s Hw) Hu) as Hg. rewrite exec_bind. unfold orphan_pass.
  cbn [exec query]. lazy beta iota zeta. rewrite Hg, andb_false_r. cbn [bind negb]. rewrite Hg, orb_true_r.
  destruct (orphans_exec paths (s1.1, N.succ s1.2)) as (d2 & n2 & -> & Hl2 & Hf2). rewrite exec_bind.
  destruct (promote_exec grace (d2, n2)) as (r3 & d3 & n3 & -> & Hl3 & Ho3 & Hk3). rewrite exec_bind.
  destruct (cleanup_exec (d3, n3)) as (d4 & n4 & -> & [Hf4 Hl4] & Hn4). cbn [exec].
  exists new, (d4, n4). split; [done|]. cbn [fst snd] in *.
  assert (∀ i, library_of d4 i = library_of s1.1 i) as Hl by (intros i; by rewrite Hl4, Hl3, Hl2).
  assert (∀ i f, files s1.1 !! i = Some f → active f = true → (library_of s1.1 (f_item f) = Some L → f_path f ∈ paths) →
    files d4 !! i = Some f) as Hkeep.
  { intros i f Hf Ha Hp. rewrite Hf4. apply Hk3; [|done]. by apply Hf2. }
  destruct Hok as [W P G O K S]. split_and!; try done.
  - intros p. split.
    + intros (i & f & Hf & <- & Ha & Hlib). rewrite Hf4 in Hf. apply Ho3, Hf2 in Hf as [Hf Hp].
      apply Hp; [done|]. by rewrite <-Hl.
    + intros Hp. rewrite Forall_forall in P. destruct (P p Hp) as (i & f & Hf & Hpf & Ha & Hlib).
      exists i, f. rewrite Hl. split_and!; try done. apply Hkeep; [done..|]. by rewrite Hpf.
  - intros i f Hf Ha Hp. destruct (S i f Hf Ha) as (f' & Hf' & E & Ha'). exists f'. split_and!; try done.
    apply Hkeep; [done..|]. by rewrite E.
  - intros i f Hf Ha Hp Hlib. apply Hkeep; [by apply K|done|]. intros Hlib1. destruct Hlib.
    destruct (proj1 (library_some s.1 (f_item f)) (wf_items s Hw i f Hf)) as [l El]. pose proof (G _ _ El). congruence.
Qed.
End Scan.

(** * A file that comes back *)
Lemma ancestors_parents fuel (a b : gmap UUID Item) : (∀ i, i_parent <$> a !! i = i_parent <$> b !! i) →
  ∀ id, ancestors fuel a id = ancestors fuel b id.
Proof.
  intros H. induction fuel as [|fuel IH]; intros id; [done|]. simpl. specialize (H id).
  destruct (a !! id) as [x|], (b !! id) as [y|]; simpl in H; try done. injection H as ->. f_equal.
  destruct (i_parent y); [apply IH|done].
Qed.
Lemma mark_parents P b d i : i_parent <$> items (mark_items P b d) !! i = i_parent <$> items d !! i.
Proof.
  unfold mark_items. simpl. rewrite map_lookup_imap. destruct (items d !! i) as [it|]; [|done]. simpl. by destruct (P i it).
Qed.
(** Same rows of items, up to the deletion marks. *)
Definition same_tree (d d' : DB) : Prop :=
  size (items d') = size (items d) ∧ ∀ i, i_parent <$> items d' !! i = i_parent <$> items d !! i.
Lemma same_tree_mark P b d0 d : same_tree d0 d → same_tree d0 (mark_items P b d).
Proof.
  intros [Hs Hp]. split; [|intros i; by rewrite mark_parents].
  rewrite <-Hs. rewrite <-!size_dom. f_equal. unfold mark_items. simpl. apply set_eq. intros i. rewrite !elem_of_dom, map_lookup_imap.
  destruct (items d !! i); simpl; split; intros []; by eexists.
Qed.
Lemma same_tree_ancestry d d' i : same_tree d d' → ancestry d' i = ancestry d i.
Proof. intros [Hs Hp]. unfold ancestry. rewrite Hs. by apply ancestors_parents. Qed.
Lemma ancestors_exist fuel its id k : k ∈ ancestors fuel its id → is_Some (its !! k).
Proof.
  revert id. induction fuel as [|fuel IH]; intros id; simpl; [by intros ?%elem_of_nil|].
  destruct (its !! id) as [it|] eqn:E; [|by intros ?%elem_of_nil].
  intros [->|Hk]%elem_of_cons; [by eexists|]. destruct (i_parent it); [by eapply IH|by apply elem_of_nil in Hk].
Qed.
Lemma revive_live d i k : k ∈ ancestry d i → live_item (revive d i) k = true.
Proof.
  intros Hk. destruct (ancestors_exist _ _ _ _ Hk) as [it Hit]. unfold live_item, revive, mark_items. simpl.
  rewrite map_lookup_imap, Hit. simpl. by rewrite (proj2 (mem_spec k (ancestry d i)) Hk).
Qed.

Section Returns.
Variables (L i : UUID) (f : FileRow) (libraryType : string) (grace t1 t2 t3 : Z).
Variables (swapped restored : World).
Let p := f_path f.

(** Something else is at the path: a playlist dressed as media. *)
Hypothesis Hswapped : ∃ size mtime, w_stat swapped p = Some (size, mtime) ∧ stat_unchanged f size mtime = false.
Hypothesis Hhash : w_hash swapped p ≠ f_hash f.
Hypothesis Hunsafe : w_probe swapped p = ErrUnsafeContainer ∧ isImageFile p = false.
(** Later the file is back as it was. *)
Hypothesis Hrestored : ∃ size mtime, w_stat restored p = Some (size, mtime) ∧ stat_unchanged f size mtime = true.
Hypothesis Hquiet : w_reread restored (f_item f) p = false.
Hypothesis Hgrace : t2 - grace <= t1.

Definition gone (d : DB) : Prop :=
  files d !! i = Some (f <| f_status := Missing |> <| f_missing_since := Some t1 |>).

Lemma swap_exec s : wf s → files s.1 !! i = Some f → f_status f = Active → f_missing_since f = None →
  ∃ s', exec (processFile libraryType p) swapped t1 s = (FileError, s') ∧ wf s' ∧ gone s'.1 ∧ items s'.1 = items s.1.
Proof.
  intros Hw Hf Ha Hms. destruct Hswapped as (size & mt & Est & Hst). destruct Hunsafe as [Hpr Him].
  unfold processFile. cbn [exec ask_world]. rewrite Est. cbn [exec query fst snd].
  rewrite (by_path_at p s i f Hw Hf eq_refl). lazy beta iota zeta. rewrite Hst. unfold hash_file. cbn [exec ask_world].
  assert (∀ n, ∃ s', exec (read_file libraryType p size (w_hash swapped p) (Some (i, f))) swapped t1 (s.1, n) = (FileError, s')
    ∧ s' = (set_row i (λ f, if active f then f <| f_status := Missing |> <| f_missing_since := Some t1 |> else f) s.1, N.succ n)) as Hread.
  { intros n. unfold read_file, probe_file. cbn [exec ask_world]. rewrite Hpr, Him. cbn [exec query fst snd]. by eexists. }
  assert (∃ s', exec match w_hash swapped p, Some (i, f) with
     | Some h, Some (id, f0) =>
         if negb false && hash_skips libraryType && hash_unchanged f0 h p
         then MarkMediaFileActive id ;;
              let* _ := if active f0 then Ret tt else (RestoreMediaItemAncestry (f_item f0) ;; Ret tt) in
              let* skip := resolveUnchangedFile p f0 in
              if skip : bool then Ret Unchanged else read_file libraryType p size (w_hash swapped p) (Some (i, f))
         else read_file libraryType p size (w_hash swapped p) (Some (i, f))
     | _, _ => read_file libraryType p size (w_hash swapped p) (Some (i, f))
     end swapped t1 (s.1, N.succ s.2) = (FileError, s')
     ∧ s' = (set_row i (λ f, if active f then f <| f_status := Missing |> <| f_missing_since := Some t1 |> else f) s.1,
             N.succ (N.succ s.2))) as (s' & E & Es).
  { destruct (w_hash swapped p) as [h|] eqn:Eh; [|apply Hread]. unfold hash_unchanged, hash_is.
    rewrite (bool_decide_eq_false_2 (f_hash f = Some h)) by (intros E; by rewrite E in Hhash). rewrite andb_false_r. apply Hread. }
  exists s'. split; [exact E|]. subst s'. cbn [fst snd]. split; [|split; [|done]].
  - destruct Hw as [W1 W2 W3]. split; simpl.
    + intros j k g h Hg Hh. rewrite lookup_alter_Some in Hg, Hh.
      assert (∀ x, f_path (if active x then x <| f_status := Missing |> <| f_missing_since := Some t1 |> else x) = f_path x) as Hp
        by (intros x; by destruct (active x), x).
      destruct Hg as [(-> & g' & Hg & ->)|[_ Hg]], Hh as [(-> & h' & Hh & ->)|[_ Hh]]; rewrite ?Hp; eauto.
    + intros j g. rewrite lookup_alter_Some. intros [(-> & g' & Hg & ->)|[_ Hg]]; [|by eapply W2].
      specialize (W2 _ _ Hg). by destruct (active g'), g'.
    + intros j g. rewrite lookup_alter_Some. intros [(-> & g' & Hg & ->)|[_ Hg]]; [specialize (W3 _ _ Hg)|specialize (W3 _ _ Hg)]; lia.
  - unfold gone. simpl. rewrite lookup_alter_eq, Hf. simpl. unfold active. by rewrite Ha.
Qed.

Lemma wf_files (s s' : DB * UUID) : files s'.1 = files s.1 → (∀ k, is_Some (items s.1 !! k) → is_Some (items s'.1 !! k)) → (s.2 <= s'.2)%N → wf s → wf s'.
Proof.
  intros Hf Hi Hn [W1 W2 W3]. split.
  - intros *. rewrite Hf. eauto.
  - intros *. rewrite Hf. eauto.
  - intros *. rewrite Hf. intros Hg. specialize (W3 _ _ Hg). lia.
Qed.
Lemma same_tree_some d d' k : same_tree d d' → is_Some (items d !! k) ↔ is_Some (items d' !! k).
Proof. intros [_ Hp]. rewrite <-(fmap_is_Some i_parent (items d !! k)), <-(Hp k), fmap_is_Some. done. Qed.
Lemma gone_kept s : gone s.1 → wf s →
  ∃ r s', exec (PromoteExpiredMissing grace) restored t2 s = (r, s') ∧ gone s'.1 ∧ wf s' ∧ same_tree s.1 s'.1.
Proof.
  intros Hg Hw. unfold PromoteExpiredMissing. cbn [exec ask_world query fst snd]. lazy beta iota. cbn [exec query fst snd].
  set (d' := purge _ _ s.1). eexists _, (d', _). split; [done|].
  assert (gone d') as Hg'.
  { unfold gone, d'. simpl. apply map_lookup_filter_Some. split; [done|]. simpl.
    intros ([j g] & -> & Hj)%list_elem_of_fmap. unfold missing_older in Hj.
    apply elem_of_take in Hj as (k & Hj & _). apply list_elem_of_lookup_2 in Hj.
    apply elem_of_List_filter in Hj as [Hj Ho]. apply elem_of_map_to_list in Hj. simpl in *. unfold gone in Hg.
    assert (g = f <| f_status := Missing |> <| f_missing_since := Some t1 |>) as -> by congruence.
    unfold older in Ho. simpl in Ho. apply Z.ltb_lt in Ho. lia. }
  assert (same_tree s.1 d') as Ht by (by apply same_tree_mark).
  split; [done|]. split; [|done]. destruct Hw as [W1 W2 W3]. split; simpl.
  - intros j k g h [Hj _]%map_lookup_filter_Some [Hk _]%map_lookup_filter_Some. by eapply W1.
  - intros j g [Hj _]%map_lookup_filter_Some. apply (same_tree_some _ _ _ Ht). by eapply W2.
  - intros j g [Hj _]%map_lookup_filter_Some. specialize (W3 j g Hj). lia.
Qed.
Lemma return_exec s : wf s → gone s.1 → f_status f = Active → f_missing_since f = None →
  ∃ s', exec (processFile libraryType p) restored t3 s = (Unchanged, s') ∧ files s'.1 !! i = Some (f <| f_scanned := t3 |>)
    ∧ ∀ k, k ∈ ancestry s.1 (f_item f) → live_item s'.1 k = true.
Proof.
  intros Hw Hg Ha Hms. destruct Hrestored as (sz & mt & Est & Hst). unfold gone in Hg.
  set (f' := f <| f_status := Missing |> <| f_missing_since := Some t1 |>) in *.
  assert (is_Some (items s.1 !! f_item f)) as [it Hit] by (apply (wf_items s Hw i f' Hg)).
  unfold processFile. cbn [exec ask_world]. rewrite Est. cbn [exec query fst snd].
  rewrite (by_path_at p s i f' Hw Hg) by done. lazy beta iota zeta.
  change (stat_unchanged f' sz mt) with (stat_unchanged f sz mt). rewrite Hst. change (active f') with false. lazy beta iota.
  cbn [bind exec query fst snd]. change (f_item f') with (f_item f). unfold resolveUnchangedFile. rewrite exec_bind. cbn [exec query fst snd].
  set (d1 := set_row i _ s.1). change (f_item f') with (f_item f).
  assert (f_item f ∈ ancestry d1 (f_item f)) as Hin.
  { unfold ancestry. change (items d1) with (items s.1). destruct (size (items s.1)) as [|m] eqn:Em.
    - apply map_size_empty_iff in Em. by rewrite Em in Hit.
    - simpl. rewrite Hit. by left. }
  pose proof (revive_live d1 (f_item f) (f_item f) Hin) as Hlive. unfold live_item in Hlive.
  destruct (items (revive d1 (f_item f)) !! f_item f) as [it'|] eqn:Ei; [|done]. apply negb_true_iff in Hlive. rewrite Hlive.
  cbn [exec ask_world]. fold p. rewrite Hquiet. cbn [negb exec].
  eexists. split; [done|]. cbn [fst]. split.
  - simpl. rewrite lookup_alter_eq, Hg. unfold f'. simpl. f_equal. destruct f; simpl in *. by subst.
  - intros k Hk. by apply revive_live.
Qed.

(** A file replaced in place by something the scan refuses, and put back within
    the grace, is the same row of the same item again: hidden in between, kept by
    the sweep of missing files, and with its item and all containers above it
    visible at the end, however often the items were cleaned up meanwhile. *)
Lemma swapped_file_returns s : wf s → files s.1 !! i = Some f → f_status f = Active → f_missing_since f = None →
  let '(r1, s1) := exec (processFile libraryType p) swapped t1 s in
  let '(_, s2) := exec (CleanupEmptyItems L) swapped t1 s1 in
  let '(_, s3) := exec (PromoteExpiredMissing grace) restored t2 s2 in
  let '(r4, s4) := exec (processFile libraryType p) restored t3 s3 in
  r1 = FileError ∧ gone s3.1 ∧ r4 = Unchanged ∧ files s4.1 !! i = Some (f <| f_scanned := t3 |>)
  ∧ ∀ k, k ∈ ancestry s.1 (f_item f) → live_item s4.1 k = true.
Proof.
  intros Hw Hf Ha Hms. destruct (swap_exec s Hw Hf Ha Hms) as (s1 & -> & Hw1 & Hg1 & Hi1).
  unfold CleanupEmptyItems. rewrite !exec_steps. cbn [query fst snd steps exec]. set (d2 := bury_containers _ _). 
  assert (files d2 = files s1.1 ∧ same_tree s1.1 d2) as [Hf2 Ht2].
  { split; [done|]. unfold d2, bury_containers at 1 2. by repeat apply same_tree_mark. }
  match goal with |- context [exec (PromoteExpiredMissing grace) _ _ (d2, ?n)] =>
    destruct (gone_kept (d2, n)) as (r & s3 & -> & Hg3 & Hw3 & Ht3) end.
  - cbn [fst]. unfold gone. by rewrite Hf2.
  - eapply wf_files; [exact Hf2| | |exact Hw1]; [intros k; by apply (same_tree_some s1.1 d2)|cbn [snd]; lia].
  - destruct (return_exec s3 Hw3 Hg3 Ha Hms) as (s4 & -> & Hf4 & Hl4). split_and!; try done.
    intros k Hk. apply Hl4. rewrite (same_tree_ancestry _ _ _ Ht3). cbn [fst]. rewrite (same_tree_ancestry _ _ _ Ht2).
    unfold ancestry. by rewrite Hi1.
Qed.
End Returns.
