(* ===== verification/LibraryScanCases.v ===== *)
(** Scans of concrete libraries: the theorems of [LibraryScan] and
    [LibraryScanProps] at work, and what goes wrong where their hypotheses fail. *)
From S2P Require Import Prelude.
From S2P Require Import GoStrings.
From S2P Require Import Tokens.
From S2P Require Import LibraryWalk.
From S2P Require Import MediaFiles.
From S2P Require Import LibraryScan.
From S2P Require Import LibraryScanProps.

Local Open Scope Z_scope.

Module Sample.
Definition L : UUID := 1%N.
Definition other : UUID := 2%N.
Definition minute : Z := 60.

(** A movie of its own for every file. *)
Definition next_item (d : DB) : UUID := (map_fold (λ k _ m, N.max k m) 0 (items d) + 1)%N.
Definition own (l : UUID) (_ _ : string) (d : DB) : DB * option Resolved :=
  (d <| items ::= <[next_item d := mkItem l None "movie" false]> |>, Some (mkResolved (next_item d) None None None)).

(** Files: path, size, modification time, content. *)
Definition disk_file : Type := string * (Z * Z * string).
Definition tech (ms : Z) : Technical :=
  mkTech (Some "matroska") (Some "h264") (Some "aac") None None None None None None "" "" "" (Some ms) None None None.
Definition tree (fs : list disk_file) (root : string) : option Node :=
  Some (Folder (omap (λ f : disk_file, (λ n, (n, Leaf)) <$> CutPrefix f.1 (root +:+ "/")) fs)).
Definition disk (l : UUID) (fs : list disk_file) : World :=
  mkWorld (LocalDisk (tree fs))
    (λ p, (λ f : disk_file, (f.2.1.1, f.2.1.2)) <$> find_first (λ f, String.eqb f.1 p) fs)
    (λ p, (λ f : disk_file, f.2.2) <$> find_first (λ f, String.eqb f.1 p) fs)
    (λ p, ProbeOk (tech 1000) no_audio) (λ _ _, false) (own l).
Definition row (item : N) (p : string) (sz : Z) (hash : string) (scanned : Z) : FileRow :=
  mkRow item p sz (tech 1000) no_audio (Some hash) Active None scanned 0 None None no_gain.
Definition movie (l : UUID) : Item := mkItem l None "movie" false.
Definition db (fs : list (UUID * FileRow)) (its : list (UUID * Item)) : DB := mkDB (list_to_map fs) (list_to_map its) [].
Definition paths_of (d : DB) : list string := map (λ r : UUID * FileRow, f_path r.2) (rows d).
Definition deleted (d : DB) (i : N) : option bool := i_deleted <$> items d !! i.

(** One file known, one new, one gone; a file of another library. *)
Definition before : DB * UUID :=
  (db [(10%N, row 20 "/m/A.mkv" 700 "a" 50); (11%N, row 21 "/m/Gone.mkv" 300 "g" 50); (12%N, row 22 "/o/X.mkv" 5 "x" 50)]
      [(20%N, movie L); (21%N, movie L); (22%N, movie other)], 30%N).
Definition now_there : World := disk L [("/m/A.mkv", (700, 40, "a")); ("/m/B.mkv", (800, 90, "b"))].

Example scan_once :
  let '(r, (d, _)) := exec (ScanLibrary (15 * minute) L "movie" ["/m"]) now_there 100 before in
  r = Some (mkResult 2 1) ∧ paths_of d = ["/m/A.mkv"; "/o/X.mkv"; "/m/B.mkv"]
  ∧ deleted d 20 = Some false ∧ deleted d 21 = Some true ∧ deleted d 22 = Some false.
Proof. by vm_compute. Qed.

Lemma own_fresh d : items d !! next_item d = None.
Proof.
  unfold next_item. apply eq_None_not_Some. intros [it Hi].
  assert (∀ k x, items d !! k = Some x → (k <= map_fold (λ k _ m, N.max k m) 0 (items d))%N) as Hle.
  { apply (map_fold_weak_ind (λ r m, ∀ k x, m !! k = Some x → (k <= r)%N)).
    - intros k x. by rewrite lookup_empty.
    - intros j x m r _ IH k y. rewrite lookup_insert_Some. intros [[<- _]|[_ Hk]]; [lia|]. specialize (IH k y Hk). lia. }
  specialize (Hle _ _ Hi). lia.
Qed.
Lemma own_owns l st sta ha pr re : owns l (mkWorld st sta ha pr re (own l)).
Proof.
  intros t p d. simpl. split; [done|]. split.
  - intros i k. unfold library_of. simpl. intros Hi. destruct (decide (next_item d = i)) as [<-|Hne].
    + by rewrite own_fresh in Hi.
    + by rewrite lookup_insert_ne.
  - intros o [= <-]. unfold library_of. simpl. by rewrite lookup_insert_eq.
Qed.

(** Decides [wf] on a concrete state. *)
Definition wfb (s : DB * UUID) : bool :=
  bool_decide (NoDup (paths_of s.1)) && forallb (λ r : UUID * FileRow, bool_decide (is_Some (items s.1 !! f_item r.2)) && N.ltb r.1 s.2) (rows s.1).
Lemma wfb_wf s : wfb s = true → wf s.
Proof.
  unfold wfb. rewrite andb_true_iff, bool_decide_eq_true. intros [Hn Hr]. rewrite forallb_forall in Hr.
  assert (∀ i f, files s.1 !! i = Some f → is_Some (items s.1 !! f_item f) ∧ (i < s.2)%N) as Hall.
  { intros i f Hf. specialize (Hr (i, f)). rewrite andb_true_iff, bool_decide_eq_true, N.ltb_lt in Hr.
    by apply Hr, list_elem_of_In, elem_of_map_to_list. }
  split; [|intros i f Hf; by apply (Hall i f)..].
  intros i j f g Hi Hj Hp. apply elem_of_map_to_list in Hi, Hj.
  apply list_elem_of_lookup in Hi as [x Hx], Hj as [y Hy].
  assert (x = y) as ->.
  { eapply (NoDup_lookup (paths_of s.1)); [done| |]; unfold paths_of, rows; rewrite list_lookup_fmap; [by rewrite Hx|]. rewrite Hy. simpl. by rewrite Hp. }
  congruence.
Qed.
(** Decides [mine]. *)
Definition mineb (l : UUID) (w : World) (p : string) (d : DB) : bool :=
  forallb (λ r : UUID * FileRow, bool_decide (library_of d (f_item r.2) = Some l)
     || negb (String.eqb (f_path r.2) p) && (active r.2 || negb (bool_decide (f_hash r.2 = w_hash w p)))) (rows d).
Lemma mineb_mine l w p d : mineb l w p d = true → mine l w p d.
Proof.
  unfold mineb. rewrite forallb_forall. intros H i f Hf Hc. specialize (H (i, f)). simpl in H.
  rewrite orb_true_iff, bool_decide_eq_true in H. destruct H as [H|H]; [by apply list_elem_of_In, elem_of_map_to_list|done|].
  apply andb_true_iff in H as [H1 H2]. apply negb_true_iff, String.eqb_neq in H1. destruct Hc as [|(Ha & Hh & _)]; [done|].
  rewrite Ha, Hh, bool_decide_eq_true_2 in H2; done.
Qed.

Lemma full_scan_mirrors_disk_witness :
  ∃ new s', exec (ScanLibrary (15 * minute) L "movie" ["/m"]) now_there 100 before = (Some (mkResult 2 new), s')
    ∧ (∀ p, placed L p s'.1 ↔ p ∈ ["/m/A.mkv"; "/m/B.mkv"])
    ∧ (∀ i f, files before.1 !! i = Some f → active f = true → f_path f ∈ ["/m/A.mkv"; "/m/B.mkv"] →
         ∃ f', files s'.1 !! i = Some f' ∧ f_path f' = f_path f ∧ active f' = true)
    ∧ (∀ i f, files before.1 !! i = Some f → active f = true → f_path f ∉ ["/m/A.mkv"; "/m/B.mkv"] →
         library_of before.1 (f_item f) ≠ Some L → files s'.1 !! i = Some f)
    ∧ no_empty_leaf L s'.1.
Proof.
  apply (full_scan_mirrors_disk L now_there 100 (own_owns L _ _ _ _ _) "movie" (15 * minute) ["/m"] ["/m/A.mkv"; "/m/B.mkv"] before).
  - by apply wfb_wf.
  - done.
  - by vm_compute.
  - repeat (apply Forall_cons; split; [split_and!; [by eexists|done|by eexists]|]). by apply Forall_nil.
  - repeat (apply Forall_cons; split; [by apply mineb_mine; vm_compute|]). by apply Forall_nil.
  - by vm_compute.
Defined.

(** ** Where the file is gone but not for good *)
Definition two_roots : DB * UUID :=
  (db [(10%N, row 20 "/m/A.mkv" 1 "a" 50); (11%N, row 21 "/m/B.mkv" 2 "b" 50);
       (12%N, row 22 "/n/C.mkv" 3 "c" 50); (13%N, row 23 "/n/D.mkv" 4 "d" 50)]
      [(20%N, movie L); (21%N, movie L); (22%N, movie L); (23%N, movie L)], 30%N).
(** The mount guard compares counts: with one of two equal roots unmounted the
    rows of that root are all deleted, at once and for good. *)
Example half_unmounted :
  paths_of (exec (ScanLibrary (15 * minute) L "movie" ["/m"; "/n"])
              (disk L [("/m/A.mkv", (1, 40, "a")); ("/m/B.mkv", (2, 40, "b"))]) 100 two_roots).2.1 = ["/m/A.mkv"; "/m/B.mkv"].
Proof. by vm_compute. Qed.
(** Half of three is one. *)
Example one_in_three :
  paths_of (exec (ScanLibrary (15 * minute) L "movie" ["/m"; "/n"]) (disk L [("/m/A.mkv", (1, 40, "a"))]) 100
              (two_roots.1 <| files ::= delete 13%N |>, 30%N)).2.1 = ["/m/A.mkv"].
Proof. by vm_compute. Qed.
(** With nothing found at all, nothing is deleted. *)
Example all_unmounted :
  (exec (ScanLibrary (15 * minute) L "movie" ["/m"; "/n"]) (disk L []) 100 two_roots).2 = two_roots.
Proof. by vm_compute. Qed.

(** [n] steps with nobody else about and nothing failing. *)
Definition quiet (w : World) (n : nat) : list Moment := replicate n (mkMoment (λ d, d) w 100 30%N Up).
Definition down (w : World) : Moment := mkMoment (λ d, d) w 100 30%N Down.
Definition meanwhile (w : World) (g : DB → DB) : Moment := mkMoment g w 100 30%N Up.
Definition left_by {A} (p : prog A) (ms : list Moment) (d : DB) : option (A * list string) :=
  (λ r : A * DB * list event, (r.1.1, paths_of r.1.2)) <$> run p ms d.

(** One failed listing and the guard is not asked: one file of four on disk, and
    the three other rows go. *)
Definition short : World := disk L [("/m/A.mkv", (1, 40, "a"))].
Example listing_failed :
  left_by (ScanLibrary (15 * minute) L "movie" ["/m"; "/n"]) (quiet short 40) two_roots.1
    = Some (Some (mkResult 1 0), ["/m/A.mkv"; "/n/C.mkv"; "/n/D.mkv"; "/m/B.mkv"])
  ∧ left_by (ScanLibrary (15 * minute) L "movie" ["/m"; "/n"]) (quiet short 5 ++ [down short] ++ quiet short 40) two_roots.1
    = Some (Some (mkResult 1 0), ["/m/A.mkv"]).
Proof. by vm_compute. Qed.

(** A file imported after the walk, by the watcher's scan of its directory, is
    not in the walk: the running full scan deletes its new row. *)
Definition imported : DB → DB :=
  λ d, d <| files ::= <[14%N := row 24 "/m/New.mkv" 9 "n" 100]> |> <| items ::= <[24%N := movie L]> |>.
Definition both : World := disk L [("/m/A.mkv", (1, 40, "a")); ("/m/B.mkv", (2, 40, "b"))].
Example imported_meanwhile :
  left_by (ScanLibrary (15 * minute) L "movie" ["/m"; "/n"])
    (quiet both 3 ++ [meanwhile both imported] ++ quiet both 40) two_roots.1
  = Some (Some (mkResult 2 0), ["/m/A.mkv"; "/m/B.mkv"]).
Proof. by vm_compute. Qed.

(** What happened in the run of [half_unmounted], step by step. *)
Definition events : list event :=
  match run (ScanLibrary (15 * minute) L "movie" ["/m"; "/n"]) (quiet both 40) two_roots.1 with
  | Some (_, _, tr) => tr
  | None => []
  end.
Definition step_at (n : nat) : DB * DB :=
  match nth n events (EvOwn two_roots.1 two_roots.1) with EvDo _ a b _ => (a, b) | _ => (two_roots.1, two_roots.1) end.

(** ** Rows that change hands *)
Definition known : DB * UUID := (db [(10%N, row 20 "/m/A.mkv" 700 "a" 50)] [(20%N, movie L)], 30%N).
(** A renamed file is not recognised as moved: its old row is still active when
    the new path is read, so it is deleted afterwards and the file gets a new
    row, and here a new item. *)
Example renamed :
  let '(_, (d, _)) := exec (ScanLibrary (15 * minute) L "movie" ["/m"])
                        (disk L [("/m/Alien.mkv", (700, 40, "a"))]) 100 known in
  files d !! 10%N = None ∧ paths_of d = ["/m/Alien.mkv"] ∧ deleted d 20 = Some true.
Proof. by vm_compute. Qed.

(** The mark on a row, then the row at its new place: a move noticed. *)
Definition missing (t : Z) (f : FileRow) : FileRow := f <| f_status := Missing |> <| f_missing_since := Some t |>.
Definition lost : DB * UUID := (db [(10%N, missing 60 (row 20 "/m/A.mkv" 700 "a" 50))] [(20%N, movie L)], 30%N).
Example moved_while_missing :
  let '(_, (d, _)) := exec (ScanLibrary (15 * minute) L "movie" ["/m"])
                        (disk L [("/m/Alien.mkv", (700, 40, "a"))]) 100 lost in
  (f_path <$> files d !! 10%N) = Some "/m/Alien.mkv" ∧ deleted d 20 = Some false.
Proof. by vm_compute. Qed.
(** Two files with the content of one missing row, read at once: both are told
    the row is theirs, and one of them ends without a row. *)
Definition params (p : string) : CreateFileParams :=
  mkParams 20%N p 700 (tech 1000) no_audio (Some "a") None None no_gain false.
Example copies_race :
  left_by (CreateOrUpdateFile (params "/m/1.mkv"))
    (quiet both 2 ++ [meanwhile both (λ d, (exec (CreateOrUpdateFile (params "/m/2.mkv")) both 100 (d, 30%N)).2.1)] ++ quiet both 9) lost.1
  = Some (Some (10%N, false), ["/m/1.mkv"])
  ∧ (exec (CreateOrUpdateFile (params "/m/2.mkv")) both 100 lost).1 = Some (10%N, false).
Proof. by vm_compute. Qed.
(** The missing row may be another library's: the file is then filed under that
    library's item, and that library's next scan deletes the row. *)
Definition elsewhere : DB * UUID :=
  (db [(10%N, missing 90 (row 20 "/o/A.mkv" 700 "a" 50)); (12%N, row 22 "/o/X.mkv" 5 "x" 50)]
      [(20%N, movie other); (22%N, movie other)], 30%N).
Example taken_by_other_library :
  let '(_, s) := exec (ScanLibrary (15 * minute) L "movie" ["/m"]) (disk L [("/m/A.mkv", (700, 40, "a"))]) 100 elsewhere in
  let '(_, (d', _)) := exec (ScanLibrary (15 * minute) other "movie" ["/o"]) (disk other [("/o/X.mkv", (5, 40, "x"))]) 200 s in
  active_files L s.1 = [] ∧ (f_path <$> files s.1 !! 10%N) = Some "/m/A.mkv" ∧ paths_of d' = ["/o/X.mkv"].
Proof. by vm_compute. Qed.

(** ** Items that stay hidden *)
(** An audiobook of one file moved into a folder of its own: the file becomes a
    chapter below the same book, the book loses its file and is hidden with its
    chapter, and later scans skip the unchanged file. *)
Definition book : DB * UUID :=
  (db [(10%N, row 41 "/b/Ann/Foo.m4b" 700 "a" 50)]
      [(40%N, mkItem L None "book_author" false); (41%N, mkItem L (Some 40%N) "audiobook" false)], 50%N).
Definition chapters : World :=
  mkWorld (LocalDisk (tree [("/b/Foo.m4b", (700, 40, "a"))]))
    (λ _, Some (700, 40)) (λ _, Some "a") (λ _, ProbeOk (tech 1000) no_audio) (λ _ _, false)
    (λ _ _ d, (d <| items ::= λ m, match m !! 42%N with
                                   | Some _ => m
                                   | None => <[42%N := mkItem L (Some 41%N) "audiobook_chapter" false]> m
                                   end |>, Some (mkResolved 42%N None None None))).
Example book_hidden :
  let '(_, s1) := exec (ScanLibrary (15 * minute) L "audiobook" ["/b"]) chapters 100 book in
  let '(_, s2) := exec (ScanLibrary (15 * minute) L "audiobook" ["/b"]) chapters 200 s1 in
  map (λ r : UUID * FileRow, (f_item r.2, active r.2)) (rows s2.1) = [(42%N, true)]
  ∧ deleted s2.1 42 = Some false ∧ deleted s1.1 41 = Some true ∧ deleted s2.1 41 = Some true.
Proof. by vm_compute. Qed.

(** The row is marked active and then its items cannot be brought back: the next
    scan finds the row active and does not try again. *)
Definition hidden : DB * UUID :=
  (db [(10%N, missing 60 (row 20 "/m/A.mkv" 700 "a" 50))] [(20%N, mkItem L None "movie" true)], 30%N).
Definition as_before : World := disk L [("/m/A.mkv", (700, 40, "a"))].
Example restore_lost :
  (λ r : processed * DB * list event,
     let '(_, s) := exec (ScanLibrary (15 * minute) L "movie" ["/m"]) as_before 200 (r.1.2, 30%N) in
     (active <$> files s.1 !! 10%N, deleted s.1 20))
  <$> run (processFile "movie" "/m/A.mkv") (quiet as_before 3 ++ [down as_before] ++ quiet as_before 9) hidden.1
  = Some (Some true, Some true).
Proof. by vm_compute. Qed.

(** The sweep deletes the rows it listed, also one that came back since. *)
Example revived_purged :
  let back := (exec (processFile "movie" "/m/A.mkv") as_before 1000 hidden).2.1 in
  (active <$> files back !! 10%N) = Some true
  ∧ left_by (PromoteExpiredMissing 10) (quiet both 2 ++ [meanwhile both (λ _, back)] ++ quiet both 2) hidden.1 = Some (Some 1, []).
Proof. by vm_compute. Qed.

(** A re-scan never writes the size: a replaced file is hashed at every scan. *)
Example size_kept :
  let w := disk L [("/m/A.mkv", (900, 90, "z"))] in
  let '(r1, s1) := exec (processFile "movie" "/m/A.mkv") w 100 known in
  let '(r2, s2) := exec (processFile "movie" "/m/A.mkv") w 200 s1 in
  r1 = Indexed 10%N false ∧ r2 = Unchanged ∧ (f_size <$> files s2.1 !! 10%N) = Some 700
  ∧ (f_hash <$> files s2.1 !! 10%N) = Some (Some "z") ∧ stat_unchanged (default (row 0 "" 0 "" 0) (files s2.1 !! 10%N)) 900 90 = false.
Proof. by vm_compute. Qed.

(** ** A file swapped for a playlist and put back *)
Definition episode : DB * UUID :=
  (db [(10%N, row 62 "/t/E.mkv" 700 "a" 50)]
      [(60%N, mkItem L None "show" false); (61%N, mkItem L (Some 60%N) "season" false);
       (62%N, mkItem L (Some 61%N) "episode" false)], 70%N).
Definition playlist : World :=
  mkWorld (LocalDisk (tree [])) (λ _, Some (90, 200)) (λ _, Some "p") (λ _, ErrUnsafeContainer) (λ _ _, false) (own L).
Definition back_again : World := disk L [("/t/E.mkv", (700, 40, "a"))].
Example show_hidden :
  let '(_, s1) := exec (processFile "show" "/t/E.mkv") playlist 300 episode in
  let '(_, s2) := exec (CleanupEmptyItems L) playlist 300 s1 in
  map (deleted s2.1) [60; 61; 62]%N = [Some true; Some true; Some true].
Proof. by vm_compute. Qed.
Lemma swapped_file_returns_witness :
  let '(r1, s1) := exec (processFile "show" "/t/E.mkv") playlist 300 episode in
  let '(_, s2) := exec (CleanupEmptyItems L) playlist 300 s1 in
  let '(_, s3) := exec (PromoteExpiredMissing (15 * minute)) back_again 400 s2 in
  let '(r4, s4) := exec (processFile "show" "/t/E.mkv") back_again 500 s3 in
  r1 = FileError ∧ gone 10%N (row 62 "/t/E.mkv" 700 "a" 50) 300 s3.1 ∧ r4 = Unchanged
  ∧ files s4.1 !! 10%N = Some (row 62 "/t/E.mkv" 700 "a" 500)
  ∧ ∀ k, k ∈ ancestry episode.1 62%N → live_item s4.1 k = true.
Proof.
  apply (swapped_file_returns L 10%N (row 62 "/t/E.mkv" 700 "a" 50) "show" (15 * minute) 300 400 500 playlist back_again).
  - exists 90, 200. split; [done|]. by vm_compute.
  - done.
  - done.
  - exists 700, 40. split; [done|]. by vm_compute.
  - done.
  - vm_compute. discriminate.
  - by apply wfb_wf.
  - by vm_compute.
  - done.
  - done.
Defined.
End Sample.
